(* ===== verification/_CoqProject ===== *)
-Q . S2P
Prelude.v
Cell.v
Utf8.v
Hyperlink.v
Parser.v
Screen.v
ScreenGrid.v
ScreenOps.v
ScreenInv.v
ScreenPairs.v
ScreenBuild.v
ScreenEq.v
History.v
HistoryRows.v
HistoryInv.v
HistoryKeep.v
HistorySpec.v
Input.v
Buffer.v
Terminal.v
TerminalOps.v
TerminalInv.v
TerminalPrint.v
TerminalSafe.v
TerminalResize.v
Snapshot.v
TerminalReports.v
InputSpec.v
TerminalText.v
SnapshotSpec.v
Protection.v
Recovery.v
Str.v
Undo.v
Document.v
StrSpec.v
EditSpec.v
UndoInv.v
DocumentInv.v
DocumentSpec.v
DocumentFile.v
Diff.v
DiffSpec.v
AppLock.v
AppLockSpec.v
Search.v
SearchSpec.v
Admission.v
Pattern.v
PatternSpec.v
Substitute.v
SubstituteSpec.v
SecureChannel.v
RecordIo.v
ChannelSpec.v
RecordSpec.v
HandshakeIo.v
SecureTransport.v
SecureTransportSpec.v
AutomationInput.v
AutomationInputSpec.v
SftpPath.v
SftpPathSpec.v
PlanningBudget.v
PlanningBudgetSpec.v
BrokerTypes.v
Broker.v
Presentation.v
BrokerRuns.v
EnrollmentMetadata.v
Outbound.v
BrokerInv.v
BrokerSafe.v
BrokerSteps.v
BrokerCalls.v
BrokerRunCalls.v
BrokerLedger.v
BrokerSpec.v
