(* ===== verification/Prelude.v ===== *)
(** * fesTerm: a verification of its terminal core, documents, locks, channels and broker

    fesTerm is a terminal emulator in Rust.  This development models, from the
    sources under [src/crates], the parts that carry the program's own logic,
    and proves what makes them correct.

    ** The program and what is modelled

    [festerm-core] is the emulator proper.  Bytes from a transport go through a
    UTF-8 decoder and an escape-sequence parser, which yields at most one typed
    operation per byte; [Terminal::apply] performs the operation on the active
    screen buffer, scrolls rows into the scrollback, and queues replies.  Keys,
    pastes and mouse events are encoded into a bounded queue the other way.
    Snapshots export the state as text, and as a recovery snapshot that a
    receiver validates.
      - [Cell.v]: [cell.rs], [colors.rs], [modes.rs], the limits of [lib.rs],
        and [Platform], the functions taken from other crates.
      - [Utf8.v]: [unicode.rs].  [Hyperlink.v]: [hyperlink.rs].
      - [Parser.v]: [parser.rs], with its state machine and CSI dispatch.
      - [Screen.v]: [screen.rs], the grid as a flat ring of rows with every
        operation on it.  [ScreenGrid.v] gives the abstract view (a list of
        rows), [ScreenOps.v] refines every operation to it, [ScreenInv.v],
        [ScreenPairs.v] and [ScreenBuild.v] prove the invariants, [ScreenEq.v]
        treats [PartialEq].
      - [History.v]: [history.rs], the scrollback.  [HistoryRows.v] is its
        abstract view, [HistoryInv.v] its invariant, [HistoryKeep.v] what it
        drops when it is full, [HistorySpec.v] its specification.
      - [Input.v]: [replies.rs] and [input.rs]; [InputSpec.v] specifies them.
      - [Buffer.v], [Terminal.v], [TerminalOps.v], [Snapshot.v]: [terminal.rs].
        [TerminalInv.v], [TerminalPrint.v], [TerminalSafe.v] and
        [TerminalResize.v] prove the invariant and the absence of panics;
        [TerminalReports.v] the replies that can be sent back;
        [TerminalText.v] what printing shows; [SnapshotSpec.v] the text
        snapshot; [Recovery.v] and [Protection.v] states the recovery check
        refuses, and states that protected text leaves behind.

    [festerm-document] holds edited texts.  A document is its UTF-8 bytes with
    the encoding and line ending of its file; edits are byte ranges, checked
    against bounds and kept as transactions of an undo history with a memory
    budget.
      - [Str.v] is what the crate uses of [str]; [StrSpec.v] its lemmas.
      - [Undo.v]: [undo.rs] and [bounds.rs].  [Document.v]: [text.rs].
        [EditSpec.v] relates ordered edits to their inverse, [UndoInv.v] is the
        invariant of the history, [DocumentInv.v] that of a document,
        [DocumentSpec.v] and [DocumentFile.v] the specifications.
      - [Diff.v] and [DiffSpec.v]: [diff.rs], the comparison of two texts.
      - [Search.v] and [SearchSpec.v]: the result set and navigation of
        [search.rs].  [Pattern.v] and [PatternSpec.v]: its scanner of
        vi-flavoured patterns and their compilation.
      - [Substitute.v] and [SubstituteSpec.v]: [substitute.rs], from the text
        of a [:s] command to the edits of a document.

    [festerm-ios-lock] hides content until the owner authenticates.  The policy
    is a pure state machine; a handle shared by the window, the lifecycle
    bridge and the platform's callbacks wraps it in a mutex.
      - [AppLock.v]: [policy.rs], [applock.rs], [locker.rs] and what loading
        [store.rs] comes to, one function per critical section, with what is
        done outside the mutex as a list of effects.  [AppLockSpec.v]: schedules
        of the sections, and the properties of all of them.

    [festerm-admission] is the lock and epoch that automation checks before it
    discloses anything: [Admission.v].  [festerm-session] lets automation reserve
    a place in a session's input queue and fill it once its authority was
    checked, while the session's backend reads the queue.
      - [AutomationInput.v]: [automation_input.rs], the two halves of a
        reservation as programs with one constructor per atomic access, run
        under any schedule; and the queue readers of [festerm-pty] and
        [festerm-ssh].  [AutomationInputSpec.v]: the invariant of all schedules
        and what follows from it.

    [festerm-automation] is the broker that decides what an automation client
    may do.  A connection asks for scopes, the user decides in a native dialog,
    and a decision becomes a grant for at most five minutes; a grant admits runs
    with budgets, a run leases the writer of a session and prepares requests, and
    a request is committed (an effect or a disclosure happens) only when the
    whole chain still holds.  Grants and runs own flags that are cleared when
    they are dropped, which a queued frame checks before it is published.
      - [BrokerTypes.v]: [types.rs] and the records of [broker.rs],
        [presentation.rs] and [enrollment_metadata.rs].
      - [Broker.v]: connections, registrations, targets, approvals, revocation
        and expiry of [broker.rs]; [BrokerRuns.v] its runs, budgets, leases,
        requests and commits.  A method is a computation in the broker with
        errors and panics ([M]), a query a function of the broker ([R]); the
        admission guard the source passes along is evidence that the lock is
        held and carries no data.  The heap of flags is the field [flags].
      - [Presentation.v]: [presentation.rs].  [EnrollmentMetadata.v]:
        [enrollment_metadata.rs].  [Outbound.v]: [outbound.rs], with the epochs
        of [Admission.v].
      - [BrokerInv.v] is the invariant; [BrokerSafe.v] and [BrokerSteps.v] what
        a call may change, [BrokerCalls.v] and [BrokerRunCalls.v] that every
        method returns and changes no more.
      - [BrokerLedger.v] is the specification: the whole interface as a type of
        calls, and a ledger that sees only calls and replies and keeps the
        decisions in force, the holders of sessions, what was prepared and the
        bytes disclosed.  Every call keeps broker and ledger in step.
        [BrokerSpec.v]: what follows for any sequence of calls.

    [festerm-automation-mcp] carries automation over one encrypted stream.  A
    connection runs a handshake, lets the user compare a fingerprint, exchanges
    confirmations and receipts, and only then carries frames; every poll is
    bounded and every failure closes it.
      - [SecureChannel.v]: [secure_channel.rs], frames sealed into records.
      - [RecordIo.v]: [secure_record_io.rs], records on a byte stream.
        [ChannelSpec.v] and [RecordSpec.v] show what a stream delivers.
      - [HandshakeIo.v]: [secure_handshake_io.rs].
      - [SecureTransport.v]: [secure_transport.rs], in a monad of the transport
        and the world with errors and panics.  [SecureTransportSpec.v]: the
        order of confirmations, for one connection and for two.

    File transfers check names and paths before anything touches a file system,
    and plan within a budget.
      - [SftpPath.v] and [SftpPathSpec.v]: [path.rs] of [festerm-sftp].
      - [PlanningBudget.v] and [PlanningBudgetSpec.v]: [sftp_planning.rs] of
        [festerm-ssh], with the limits of [sftp_transfer.rs].

    ** Conventions

    A panic (an index out of range, [expect] on [None], a slice inside a
    character) is [None], and the theorems that say a call returns [Some] say
    that it does not panic.  A Rust [Option] result is then an inner option, a
    [Result] a sum with the error on the left.  [for] loops are [for_each] and
    [try_for_each] over the range; [r <| f := v |>] is a field assignment.
    Machine integers that can overflow are in [N] with [checked_add],
    [saturating_add] or an explicit bound; indices and sizes that an invariant
    keeps small are [nat], where subtraction is truncated at zero and the
    invariant shows that the source's subtraction does not underflow; where a
    caller's argument could make it underflow it is [sub_usize], a panic.  The
    sum of an anchor's offset ([anchor_for_row]) is unbounded, and differs from
    the source's only at 2^64 cells.  The checks of [debug_assert] are left out;
    those of the scrollback ([total_physical_rows], [split_off_tail]) restate
    what its invariant says of the counters.

    Code outside [src/] is a parameter: [Platform] (character widths and
    grapheme segmentation, URL parsing, the allocator and its capacities, sizes
    of types) with what the code relies on in [PlatformLaws]; [Allocator] and
    [AllocatorLaws] for the document crate; [Engine] and [EngineLaws] for the
    matches of a pattern, [RegexLibrary] and [RegexLaws] for the library that
    compiles one; [Noise] and [NoiseLaws] for the Noise protocol and SHA-256;
    the [Platform] of [SecureTransport.v] for the clock, the stream, the native
    dialog and the destructors, about which nothing is assumed; the [Allocator]
    of [PlanningBudget.v]; [Clock], the largest time an [Instant] holds.  Each
    has an instance ([sample_platform],
    [sample_allocator], [empty_pattern], [byte_regex], [counting_noise],
    [sized_noise], [line_platform], [exact_allocator], [clock]) for which the witnesses
    evaluate the theorems.  The platform dialog, the clock and the file system
    are inputs of the app lock's sections; the clock, the authority callback
    and failures of weak exchanges are inputs of a schedule of a reservation.

    Loops that are not structural take fuel, and the fuel is always enough:
    the decoding and searching loops of [Utf8.v] and [Str.v] consume a byte per
    round and get the length; printing in [Terminal.v] recurs once, for the
    replacement character; the table walk of [Diff.v] consumes a line per round
    and gets both lengths; [decimal] gets the twenty digits of a 64-bit number;
    the search of [History.v] halves an interval; the scanners of [Pattern.v]
    and [Substitute.v] consume a character, a line or a byte per round and get
    the length and one more; the readers of [RecordIo.v] and
    [AutomationInput.v] consume input or a queued command per round; the walks
    from a run to its ancestors in [Broker.v] and [BrokerRuns.v] get the number
    of runs and one more, and a parent is always older than its child.  The
    theorems about them state that a result is returned.

    Document theorems, substitutions included, assume texts of up to 2 GiB
    ([text_limit]) and fewer than [u64::MAX] calls, which keeps byte counts and
    serial numbers from overflowing.

    ** What the theorems show

      - No panics: the parser, the terminal under its whole public interface,
        document sessions, comparisons, substitutions, secure connections,
        planning and the broker return on every input ([parser_never_panics],
        [terminal_never_panics], [document_sessions_are_safe],
        [comparison_shows_both_texts], [substitution_is_one_undoable_edit],
        [frames_need_confirmation], [planning_budget_is_exact],
        [broker_calls_return]).
      - Invariants: reachable screens are well formed; a clean document is the
        saved text; a retired authentication request never acts; no frame
        before both ends have confirmed.
      - Refinement and equivalence: the flat ring against a list of rows, the
        binary search against a lookup, reflow against the logical lines,
        sessions against a list of versions, the comparison against longest
        common subsequences, printing against pages and margins, input events
        against a reference encoding, a prepared batch against single events, a
        substitution against the text with its matches replaced, a normalised
        remote path against the directory it leads to, the broker against the
        ledger of native decisions ([control_is_authorised],
        [disclosure_is_authorised], [published_frames_are_covered],
        [takeover_stops_control], [workflow_starts_once]).
      - Round trips: UTF-8, CSI sequences, the reports a program sends back,
        anchors across a reflow, a file that is written and read, frames that
        cross a secure stream cut anywhere.
      - Bounds and errors: the scrollback and undo budgets, bounded snapshots
        and queues, atomic input events, the work of a connection, the
        planning budget, the bytes a broker discloses.
      - Termination: pattern scanning, and the wait-free calls of both halves
        of a reservation.
      - Concurrency: reserved input is delivered at most once, only as it was
        admitted, and keeps its place in the queue; once committed it is
        delivered.
      - Security and liveness: hyperlink targets, local paths that stay inside
        the sandbox, secure streams that deliver a prefix of what was sent,
        established connections compared at both ends, content that returns
        only to the owner, generations that are never reused, an owner who can
        always unlock, a search that reaches every match.
      - Anomalies: terminals that their own recovery check refuses
        ([Recovery.v]) and protected text that is forgotten or outlives a reset
        ([Protection.v]), each as a theorem about the code as it is.

    ** Not modelled

    Recovery snapshots are validated but not (de)serialised
    ([deserialize_recovery_snapshot] and [restore_recovery_allocations] are
    serde and allocation capacities).  User-facing texts (labels, headlines,
    error details) are left out.  Of [festerm-document] the document status and
    identity and the vi layer are not modelled yet; nor are the rest of the
    session layer, the SSH decision gate and the execution of transfers (with
    the ordering of planned names), the automation controller and protocol
    around broker and secure transport (with the serialised form of a
    presentation revision), and configuration.  Of the handshake on a stream only what the
    transport relies on is proved.  The records' secrecy is that of the Noise
    implementation: the theorems speak of order and integrity, and say so where
    they assume that no record was forged.
    Transports, rendering, windowing, platform bindings and secret stores are
    input and output; vendored code is not the program's own. *)

From Stdlib Require Import NArith Ascii String Bool.
From Stdlib Require Export Lia ZifyN ZifyBool ZifyNat.
From stdpp Require Export base decidable list option numbers.
Export String.StringSyntax.

Set Default Proof Using "Type".

(** ** Record update

    [r <| f := v |>] is Rust's [r.f = v] on a value: the record [r] with the
    field [f] replaced. *)
Class Setter {R T : Type} (proj : R -> T) := set_field : T -> R -> R.
Arguments set_field {R T} proj {_} _ _ /.

Declare Scope festerm_scope.
Delimit Scope festerm_scope with festerm.
Notation "r <| f := v |>" := (set_field f v r)
  (at level 1, left associativity, f at level 10, v at level 200) : festerm_scope.
Open Scope festerm_scope.

(** ** Panics and loops

    A Rust panic (an index out of range, an [expect] on [None]) is [None]; a
    computation that returns is [Some].  [for_each] is a [for] loop over the
    given indices. *)
Fixpoint for_each {I S : Type} (body : I -> S -> option S) (xs : list I) (s : S) : option S :=
  match xs with
  | [] => Some s
  | x :: xs' => s' ← body x s; for_each body xs' s'
  end.

(** A [Result] is a sum with the error on the left, and [?] its bind;
    [try_for_each] is a [for] loop whose body uses [?]. *)
#[export] Instance sum_ret {E : Type} : MRet (sum E) := fun A => inr.
#[export] Instance sum_bind {E : Type} : MBind (sum E) := fun A B f r =>
  match r with inl e => inl e | inr a => f a end.

Fixpoint try_for_each {E I S : Type} (body : I -> S -> E + S) (xs : list I) (s : S) : E + S :=
  match xs with
  | [] => inr s
  | x :: xs' => s' ← body x s; try_for_each body xs' s'
  end.

(** [first..=last] and [first..last]. *)
Definition range (first stop : nat) : list nat := seq first (stop - first).
Definition range_incl (first last : nat) : list nat := seq first (S last - first).

(** ** Slices of a [Vec]

    Each returns [None] where the Rust slice operation panics. *)
Definition splice {A : Type} (l : list A) (start : nat) (new : list A) : list A :=
  take start l ++ new ++ drop (start + length new) l.

Definition slice {A : Type} (l : list A) (a b : nat) : option (list A) :=
  if (a <=? b) && (b <=? length l) then Some (take (b - a) (drop a l)) else None.

Definition write_slice {A : Type} (l : list A) (a : nat) (new : list A) : option (list A) :=
  if a + length new <=? length l then Some (splice l a new) else None.

Definition fill_slice {A : Type} (l : list A) (a b : nat) (v : A) : option (list A) :=
  if (a <=? b) && (b <=? length l) then Some (splice l a (replicate (b - a) v)) else None.

Definition set_index {A : Type} (l : list A) (i : nat) (v : A) : option (list A) :=
  if i <? length l then Some (<[i := v]> l) else None.

(** [a - b] on [usize], which panics when it would be negative. *)
Definition sub_usize (a b : nat) : option nat := if b <=? a then Some (a - b) else None.

Lemma sub_usize_Some a b : b <= a -> sub_usize a b = Some (a - b).
Proof. intros H. unfold sub_usize. by rewrite (proj2 (Nat.leb_le b a) H). Qed.

(** [slice::copy_within]. *)
Definition copy_within {A : Type} (l : list A) (a b dest : nat) : option (list A) :=
  moved ← slice l a b; write_slice l dest moved.

(** [iter().rposition(|x| *x).map_or(0, |i| i + 1)]: one past the last [true]. *)
Fixpoint extent (l : list bool) : nat :=
  match l with
  | [] => 0
  | b :: l' => match extent l' with
               | O => if b then 1 else 0
               | S n => S (S n)
               end
  end.

(** ** Dispatch tables

    A Rust [match] on byte constants, first match wins. *)
Fixpoint switch {A : Type} (b : N) (arms : list (list N * A)) (default : A) : A :=
  match arms with
  | [] => default
  | (keys, a) :: arms' => if existsb (N.eqb b) keys then a else switch b arms' default
  end.

(** [lo..=hi] as a pattern. *)
Definition in_range (lo hi b : N) : bool := (lo <=? b)%N && (b <=? hi)%N.

(** ** Machine integers *)
Definition u16_max : N := 65535.
Definition usize_max : N := 18446744073709551615.
Definition u64_max : N := 18446744073709551615.
Definition checked_add (max a b : N) : option N :=
  if (a + b <=? max)%N then Some (a + b)%N else None.
Definition checked_mul (max a b : N) : option N :=
  if (a * b <=? max)%N then Some (a * b)%N else None.
Definition saturating_add (max a b : N) : N := N.min max (a + b).
Definition saturating_mul (max a b : N) : N := N.min max (a * b).

(** ** Byte strings *)
Fixpoint bytes (s : string) : list N :=
  match s with
  | EmptyString => []
  | String c s' => N_of_ascii c :: bytes s'
  end.
Arguments bytes _%_string_scope.
Definition ESC : N := 27.
Definition BEL : N := 7.
Definition beq (a b : list N) : bool := bool_decide (a = b).

(** The decimal digits of [format!("{n}")], with fuel: a 64-bit value has at
    most twenty. *)
Fixpoint decimal_fuel (fuel : nat) (n : N) (acc : list N) : list N :=
  match fuel with
  | O => acc
  | S fuel' =>
      let acc' := (48 + n mod 10)%N :: acc in
      if (n / 10 =? 0)%N then acc' else decimal_fuel fuel' (n / 10)%N acc'
  end.
Definition decimal (n : N) : list N := decimal_fuel 20 n [].
Definition decimal_nat (n : nat) : list N := decimal (N.of_nat n).

(** [{:04x}] and [{:04X}] of a 16-bit value. *)
Definition hex_digit (upper : bool) (d : N) : N :=
  if (d <? 10)%N then (48 + d)%N else ((if upper then 55 else 87) + d)%N.
Definition hex4 (upper : bool) (n : N) : list N :=
  [hex_digit upper (n / 4096 mod 16); hex_digit upper (n / 256 mod 16);
   hex_digit upper (n / 16 mod 16); hex_digit upper (n mod 16)]%N.

(** ** Tactics *)
Ltac destruct_ifs :=
  repeat match goal with
  | |- context [if ?b then _ else _] => destruct b eqn:?
  | H : context [if ?b then _ else _] |- _ => destruct b eqn:?
  end.

(** Boolean comparisons in hypotheses as propositions. *)
Ltac bools :=
  repeat match goal with
  | H : (_ && _) = true |- _ => apply andb_true_iff in H as [? ?]
  | H : (_ || _) = false |- _ => apply orb_false_iff in H as [? ?]
  | H : negb _ = true |- _ => apply negb_true_iff in H
  | H : negb _ = false |- _ => apply negb_false_iff in H
  | H : (_ <? _) = true |- _ => apply Nat.ltb_lt in H
  | H : (_ <? _) = false |- _ => apply Nat.ltb_ge in H
  | H : (_ <=? _) = true |- _ => apply Nat.leb_le in H
  | H : (_ <=? _) = false |- _ => apply Nat.leb_gt in H
  | H : (_ =? _) = true |- _ => apply Nat.eqb_eq in H
  | H : (_ =? _) = false |- _ => apply Nat.eqb_neq in H
  end.

Create HintDb festerm discriminated.
Create Rewrite HintDb slices.

(** ** Lemmas: slices *)
Section Slices.
Context {A : Type}.
Implicit Types (l new : list A).

Lemma length_splice l a new :
  a + length new <= length l -> length (splice l a new) = length l.
Proof. intros. unfold splice. rewrite !length_app, length_take, length_drop. lia. Qed.

Lemma lookup_splice l a new i :
  a + length new <= length l ->
  splice l a new !! i =
    if decide (a <= i < a + length new) then new !! (i - a) else l !! i.
Proof.
  intros. unfold splice. case_decide.
  - rewrite lookup_app_r, lookup_app_l; rewrite length_take; [f_equal|..]; lia.
  - destruct (decide (i < a)).
    + rewrite lookup_app_l by (rewrite length_take; lia). by rewrite lookup_take_lt by lia.
    + rewrite lookup_app_r, lookup_app_r; rewrite ?length_take; [|lia..].
      rewrite lookup_drop. f_equal. lia.
Qed.

Lemma splice_nil l a : splice l a [] = l.
Proof. unfold splice. simpl. rewrite Nat.add_0_r. apply take_drop. Qed.

Lemma splice_insert l a x :
  a < length l -> splice l a [x] = <[a := x]> l.
Proof.
  intros. apply list_eq. intros i. rewrite lookup_splice by (simpl; lia).
  rewrite list_lookup_insert. simpl. case_decide; case_decide; try lia.
  - by replace (i - a) with 0 by lia.
  - done.
Qed.

Lemma lookup_slice l a n i :
  take n (drop a l) !! i = if decide (i < n) then l !! (a + i) else None.
Proof.
  case_decide.
  - by rewrite lookup_take_lt, lookup_drop.
  - by rewrite lookup_take_ge by lia.
Qed.

Lemma write_slice_Some l a new :
  a + length new <= length l -> write_slice l a new = Some (splice l a new).
Proof. intros. unfold write_slice. by rewrite (proj2 (Nat.leb_le _ _)). Qed.

Lemma fill_slice_Some l a b v :
  a <= b <= length l -> fill_slice l a b v = Some (splice l a (replicate (b - a) v)).
Proof. intros. unfold fill_slice. by rewrite !(proj2 (Nat.leb_le _ _)) by lia. Qed.

Lemma slice_Some l a b :
  a <= b <= length l -> slice l a b = Some (take (b - a) (drop a l)).
Proof. intros. unfold slice. by rewrite !(proj2 (Nat.leb_le _ _)) by lia. Qed.

Lemma set_index_Some l i v :
  i < length l -> set_index l i v = Some (<[i := v]> l).
Proof. intros. unfold set_index. by rewrite (proj2 (Nat.ltb_lt _ _)). Qed.

Lemma copy_within_Some l a b dest :
  a <= b <= length l -> dest + (b - a) <= length l ->
  copy_within l a b dest = Some (splice l dest (take (b - a) (drop a l))).
Proof.
  intros. unfold copy_within. rewrite slice_Some by done. simpl.
  rewrite write_slice_Some; [done|]. rewrite length_take, length_drop. lia.
Qed.
End Slices.

(** ** Lemmas: loops *)
Lemma for_each_app {I S : Type} (body : I -> S -> option S) xs ys s :
  for_each body (xs ++ ys) s = (s' ← for_each body xs s; for_each body ys s').
Proof.
  revert s. induction xs as [|x xs IH]; intros s; simpl; [done|].
  destruct (body x s); simpl; auto.
Qed.

(** Loop rule: a loop whose body keeps [I] returns, and keeps [I]. *)
Lemma for_each_inv {Ix S : Type} (I : S -> Prop) (body : Ix -> S -> option S) xs s :
  (forall x s, x ∈ xs -> I s -> exists s', body x s = Some s' /\ I s') ->
  I s -> exists s', for_each body xs s = Some s' /\ I s'.
Proof.
  revert s. induction xs as [|x xs IH]; intros s Hb HI; simpl; [by eauto|].
  destruct (Hb x s) as (s1 & -> & HI1); [by left|done|]. simpl.
  apply IH; [|done]. intros y s2 Hy. apply Hb. by right.
Qed.

Lemma elem_of_range a b i : i ∈ range a b <-> a <= i < b.
Proof. unfold range. rewrite elem_of_seq. lia. Qed.

Lemma elem_of_range_incl a b i : i ∈ range_incl a b <-> a <= i <= b.
Proof. unfold range_incl. rewrite elem_of_seq. lia. Qed.

(** ** Lemmas: copy loops

    [copy_at h src dst l]: the assignment [l[dst] = h(l[src], l[dst])].  A loop
    of such assignments over overlapping ranges reads the original values when
    it runs upwards to lower indices, or downwards to higher ones. *)
Section CopyLoops.
Context {A : Type} (h : A -> A -> A).

Definition copy_at (src dst : nat) (l : list A) : list A :=
  match l !! src, l !! dst with
  | Some x, Some y => <[dst := h x y]> l
  | _, _ => l
  end.

Definition copied (src dst len : nat) (l : list A) : list A :=
  splice l dst (zip_with h (take len (drop src l)) (take len (drop dst l))).

Lemma length_copy_at src dst l : length (copy_at src dst l) = length l.
Proof. unfold copy_at. repeat case_match; by rewrite ?length_insert. Qed.

Lemma lookup_copy_at src dst l i :
  src < length l ->
  copy_at src dst l !! i =
    if decide (i = dst) then x ← l !! src; y ← l !! i; Some (h x y) else l !! i.
Proof.
  intros Hs. unfold copy_at. destruct (lookup_lt_is_Some_2 l src Hs) as [x Hx]. rewrite Hx. simpl.
  destruct (l !! dst) as [y|] eqn:Hy.
  - rewrite list_lookup_insert. pose proof (lookup_lt_Some _ _ _ Hy).
    repeat case_decide; subst; try lia; [|done]. by rewrite Hy.
  - case_decide; subst; by rewrite ?Hy.
Qed.

Lemma lookup_copied src dst len l i :
  src + len <= length l -> dst + len <= length l ->
  copied src dst len l !! i =
    if decide (dst <= i < dst + len) then x ← l !! (src + (i - dst)); y ← l !! i; Some (h x y)
    else l !! i.
Proof.
  intros Hs Hd. unfold copied.
  assert (length (zip_with h (take len (drop src l)) (take len (drop dst l))) = len) as Hl
    by (rewrite length_zip_with, !length_take, !length_drop; lia).
  rewrite lookup_splice; rewrite Hl; [|lia]. case_decide; [|done].
  rewrite lookup_zip_with, !lookup_slice, !decide_True by lia.
  by replace (dst + (i - dst)) with i by lia.
Qed.

Lemma length_copied src dst len l :
  src + len <= length l -> dst + len <= length l -> length (copied src dst len l) = length l.
Proof.
  intros. unfold copied. rewrite length_splice; [done|].
  rewrite length_zip_with, !length_take, !length_drop. lia.
Qed.

Lemma copy_loop_up src dst len l :
  dst <= src -> src + len <= length l ->
  foldl (fun l off => copy_at (src + off) (dst + off) l) l (seq 0 len) = copied src dst len l.
Proof.
  intros Hd. induction len as [|len IH]; intros Hl.
  - unfold copied. simpl. by rewrite splice_nil.
  - rewrite seq_S, foldl_snoc. simpl. rewrite IH by lia. apply list_eq. intros i.
    rewrite lookup_copy_at by (rewrite length_copied; lia).
    rewrite !lookup_copied by lia.
    repeat case_decide; try lia; try done; subst; do 3 f_equal; lia.
Qed.

Lemma copy_loop_down src dst len l :
  src <= dst -> dst + len <= length l ->
  foldl (fun l off => copy_at (src + off) (dst + off) l) l (reverse (seq 0 len)) =
    copied src dst len l.
Proof.
  intros Hd. revert l. induction len as [|len IH]; intros l Hl.
  - unfold copied. simpl. by rewrite splice_nil.
  - rewrite seq_S, reverse_snoc. simpl. rewrite IH by (rewrite length_copy_at; lia).
    apply list_eq. intros i.
    rewrite !lookup_copied by (rewrite ?length_copy_at; lia).
    rewrite !lookup_copy_at by lia.
    repeat case_decide; try lia; try done; subst; do 3 f_equal; lia.
Qed.
End CopyLoops.

Lemma foldl_pointwise {A B} (f g : A -> B -> A) a xs :
  (forall a x, f a x = g a x) -> foldl f a xs = foldl g a xs.
Proof. intros H. revert a. induction xs as [|x xs IH]; intros a; simpl; [done|]. by rewrite H. Qed.

(** The loops over absolute indices. *)
Lemma copy_loop_raise {A} (h : A -> A -> A) first count len (l : list A) :
  first + count + len <= length l ->
  foldl (fun l i => copy_at h i (i + count) l) l (reverse (seq first len)) =
    copied h first (first + count) len l.
Proof.
  intros. rewrite <- (copy_loop_down h) by lia.
  replace (seq first len) with (Nat.add first <$> seq 0 len) by (by rewrite fmap_add_seq, Nat.add_0_r).
  rewrite <- fmap_reverse, foldl_fmap. apply foldl_pointwise. intros. f_equal. lia.
Qed.

Lemma copy_loop_lower {A} (h : A -> A -> A) first count len (l : list A) :
  first + count + len <= length l ->
  foldl (fun l i => copy_at h i (i - count) l) l (seq (first + count) len) =
    copied h (first + count) first len l.
Proof.
  intros. rewrite <- (copy_loop_up h) by lia.
  replace (seq (first + count) len) with (Nat.add (first + count) <$> seq 0 len)
    by (by rewrite fmap_add_seq, Nat.add_0_r).
  rewrite foldl_fmap. apply foldl_pointwise. intros. f_equal. lia.
Qed.

(** The same result when the sources are read out before the loop. *)
Lemma copy_out_loop {A} (h : A -> A -> A) (f : nat -> A) src dst n (l : list A) :
  src + n <= length l -> dst + n <= length l -> (forall i, i < n -> l !! (src + i) = Some (f i)) ->
  foldl (fun l i => alter (h (f i)) (dst + i) l) l (seq 0 n) = copied h src dst n l.
Proof.
  induction n as [|n IH]; intros Hs Hd Hf.
  - unfold copied. simpl. by rewrite splice_nil.
  - rewrite seq_S, foldl_snoc. simpl. rewrite IH; [|lia..|intros; apply Hf; lia].
    apply list_eq. intros i. rewrite list_lookup_alter, !lookup_copied by lia.
    repeat case_decide; subst; try lia; try done.
    replace (dst + n - dst) with n by lia. rewrite Hf by lia.
    by destruct (l !! (dst + n)).
Qed.

Lemma mapM_total {A B} (f : A -> option B) (g : A -> B) l :
  (forall x, x ∈ l -> f x = Some (g x)) -> mapM f l = Some (map g l).
Proof.
  induction l as [|x l IH]; intros H; simpl; [done|].
  rewrite H by (by left). simpl. rewrite IH; [done|]. intros y Hy. apply H. by right.
Qed.

(** Applying [f] to entries [a, a + n). *)
Definition map_range {A} (f : A -> A) (a n : nat) (l : list A) : list A :=
  splice l a (map f (take n (drop a l))).

Lemma lookup_map_range {A} (f : A -> A) a n l i :
  a + n <= length l ->
  map_range f a n l !! i = if decide (a <= i < a + n) then f <$> l !! i else l !! i.
Proof.
  intros. unfold map_range.
  assert (length (map f (take n (drop a l))) = n) as Hn
    by (rewrite length_map, length_take, length_drop; lia).
  rewrite lookup_splice; rewrite Hn; [|lia]. case_decide; [|done].
  rewrite list_lookup_fmap, lookup_slice, decide_True by lia. do 2 f_equal. lia.
Qed.

Lemma length_map_range {A} (f : A -> A) a n l :
  a + n <= length l -> length (map_range f a n l) = length l.
Proof.
  intros. unfold map_range. rewrite length_splice; [done|].
  rewrite length_map, length_take, length_drop. lia.
Qed.

Lemma alter_loop {A} (f : A -> A) a n (l : list A) :
  a + n <= length l ->
  foldl (fun l i => alter f i l) l (seq a n) = map_range f a n l.
Proof.
  revert l. induction n as [|n IH]; intros l Hl.
  - unfold map_range. simpl. by rewrite splice_nil.
  - rewrite seq_S, foldl_snoc, IH by lia. apply list_eq. intros i.
    rewrite list_lookup_alter, !lookup_map_range by lia.
    repeat case_decide; subst; try lia; done.
Qed.

(** ** Lemmas: the occupied extent *)
Lemma extent_bound l : extent l <= length l.
Proof. induction l as [|b l IH]; simpl; [lia|]. destruct (extent l), b; lia. Qed.

Lemma extent_spec l n :
  extent l = n <->
  (forall i, n <= i -> i < length l -> l !! i = Some false) /\
  (forall m, n = S m -> l !! m = Some true).
Proof.
  revert n. induction l as [|b l IH]; intros n; simpl.
  - split; [intros <-; split; intros; [lia|congruence]|].
    intros [_ H]. destruct n; [done|]. specialize (H n eq_refl). done.
  - pose proof (proj1 (IH (extent l)) eq_refl) as [H1 H2].
    split.
    + intros <-. destruct (extent l) as [|k] eqn:E.
      * split.
        -- intros [|i] Hi Hl; [by destruct b; [lia|]|]. apply H1; simpl in *; lia.
        -- intros m Hm. destruct b; [|lia]. by replace m with 0 by lia.
      * split.
        -- intros [|i] Hi Hl; [lia|]. apply H1; lia.
        -- intros m [= <-]. simpl. by apply H2.
    + intros [Ha Hb]. destruct n as [|n].
      * specialize (Ha 0 ltac:(lia) ltac:(lia)) as Ha0. injection Ha0 as ->.
        destruct (extent l) as [|k] eqn:E; [done|]. exfalso.
        specialize (H2 k eq_refl). specialize (Ha (S k) ltac:(lia)). simpl in Ha.
        assert (k < length l) by (by eapply lookup_lt_Some).
        rewrite H2 in Ha. specialize (Ha ltac:(lia)). congruence.
      * specialize (Hb n eq_refl). destruct n as [|n].
        -- injection Hb as ->. destruct (extent l) as [|k] eqn:E; [done|]. exfalso.
           specialize (H2 k eq_refl). specialize (Ha (S k) ltac:(lia)). simpl in Ha.
           assert (k < length l) by (by eapply lookup_lt_Some).
           rewrite H2 in Ha. specialize (Ha ltac:(lia)). congruence.
        -- simpl in Hb. assert (extent l = S n) as ->; [|done].
           apply IH. split.
           ++ intros i Hi Hl. apply (Ha (S i)); lia.
           ++ by intros m [= <-].
Qed.

(** ** Lemmas: decimal digits *)
Lemma decimal_fuel_app fuel n acc : decimal_fuel fuel n acc = decimal_fuel fuel n [] ++ acc.
Proof.
  revert n acc. induction fuel as [|fuel IH]; intros n acc; simpl; [done|].
  case_match; [done|]. rewrite IH. rewrite (IH _ [_]). by rewrite <- app_assoc.
Qed.

(** The last digit of a number, after the digits of its tenth. *)
Lemma decimal_fuel_S fuel n :
  decimal_fuel (S fuel) n [] =
    (if (n / 10 =? 0)%N then [] else decimal_fuel fuel (n / 10) []) ++ [48 + n mod 10]%N.
Proof. simpl. case_match; [done|]. apply decimal_fuel_app. Qed.

Lemma decimal_fuel_length fuel n k :
  (n < 10 ^ N.of_nat (S k))%N -> length (decimal_fuel fuel n []) <= S k.
Proof.
  revert n k. induction fuel as [|fuel IH]; intros n k Hn; [simpl; lia|].
  rewrite decimal_fuel_S, length_app. destruct (n / 10 =? 0)%N eqn:E; simpl; [lia|].
  destruct k as [|k].
  { exfalso. rewrite N.div_small in E; [done|]. simpl in Hn. lia. }
  assert (n / 10 < 10 ^ N.of_nat (S k))%N.
  { apply N.Div0.div_lt_upper_bound. rewrite <- N.pow_succ_r', <- Nat2N.inj_succ. done. }
  specialize (IH (n / 10)%N k). lia.
Qed.

(** ** Lemmas: dispatch tables *)
Lemma switch_ind {A : Type} (P : A -> Prop) b arms default :
  P default -> Forall (fun arm => P arm.2) arms -> P (switch b arms default).
Proof.
  intros Hd Ha. induction Ha as [|[keys a] arms Hp _ IH]; simpl; [done|].
  by destruct existsb.
Qed.

#[export] Hint Rewrite @length_splice @length_insert @length_take @length_drop
  @length_replicate @length_app : slices.
