(* ===== verification/Cell.v ===== *)
(** * Cells, colours and modes

    [cell.rs], [colors.rs] and [modes.rs] of festerm-core, the constants and
    geometry of its [lib.rs], and [Platform]: the functions the core takes from
    external crates and from the allocator, as parameters. *)

From Stdlib Require Import NArith Bool.
From S2P Require Import Prelude.

(** ** What the core takes from outside the repository

    [char_width], [str_width]: the crate unicode-width; [grapheme_count]: the
    number of extended grapheme clusters (unicode-segmentation);
    [compact_capacity old text]: the capacity the crate compact_str reports
    for a string holding [text] that had capacity [old] before the write;
    [alloc_ok n]: whether reserving room for [n] elements succeeds;
    [vec_grown cap len], [vec_shrunk cap len]: the capacity of a [Vec] of
    capacity [cap] after it grows to, or is shrunk to fit, [len] elements;
    [size_of_cell], [size_of_line]: [size_of] of [Cell] and [LogicalLine];
    [url_parse]: [url::Url::parse] of the crate url, with the accessors the
    core reads from a parsed URL as the fields of [Url].  A Rust [str] is the
    list of its characters. *)
Record Url := mkUrl {
  url_scheme : list N;
  url_host_str : option (list N);
  url_username : list N;
  url_password : option (list N);
  url_path : list N;
  url_to_string : list N
}.

Class Platform := {
  url_parse : list N -> option Url;
  char_width : N -> option nat;
  str_width : list N -> nat;
  grapheme_count : list N -> nat;
  compact_capacity : N -> list N -> N;
  alloc_ok : N -> bool;
  vec_grown : N -> N -> N;
  vec_shrunk : N -> N -> N;
  size_of_cell : N;
  size_of_line : N
}.

(** A concrete platform, for examples: ASCII and Latin text is one column wide,
    U+1100 to U+115F and U+2E80 to U+FFDC two, U+0300 to U+036F combine with
    what precedes them, U+FE0F widens it, and only [file:] targets parse. *)
Definition sample_char_width (c : N) : option nat :=
  if (c <? 32)%N || in_range 127 159 c then None
  else if in_range 768 879 c || (c =? 65039)%N then Some 0
  else if in_range 4352 4447 c || in_range 11904 65500 c then Some 2
  else Some 1.

Definition sample_platform : Platform := {|
  url_parse t := if beq (take 7 t) (bytes "file://")
                 then Some (mkUrl (bytes "file") None [] None (drop 7 t) t) else None;
  char_width := sample_char_width;
  str_width t := if existsb (N.eqb 65039) t then 2
                 else foldr (fun c acc => default 0 (sample_char_width c) + acc) 0 t;
  grapheme_count t :=
    length (List.filter (fun c => negb (in_range 768 879 c || (c =? 65039)%N)) t);
  compact_capacity old t := N.max old (N.max 24 (N.of_nat (length t) * 4));
  alloc_ok _ := true;
  vec_grown cap len := if (len <=? cap)%N then cap else N.max len (2 * cap);
  vec_shrunk cap len := len;
  size_of_cell := 80;
  size_of_line := 112
|}.

(** ** Characters (Rust [char], as its scalar value) *)
Definition REPLACEMENT_CHARACTER : N := 65533.
Definition SPACE : N := 32.
Definition len_utf8 (c : N) : N :=
  (if c <? 128 then 1 else if c <? 2048 then 2 else if c <? 65536 then 3 else 4)%N.
Fixpoint text_len (t : list N) : N :=
  match t with [] => 0%N | c :: t' => (len_utf8 c + text_len t')%N end.
Definition is_control (c : N) : bool := (c <? 32)%N || in_range 127 159 c.
Definition is_ascii (c : N) : bool := (c <? 128)%N.

(** ** Geometry and limits, [lib.rs] *)
Definition MAX_CELL_COUNT : N := 4194304.
Definition MAX_CSI_PARAMETERS : nat := 32.
Definition MAX_CSI_INTERMEDIATES : nat := 2.
Definition MAX_STRING_BYTES : nat := 4096.
Definition TRANSPORT_QUEUE_HIGH_WATERMARK : N := 65536.
Definition MAX_GRAPHEME_BYTES : N := 256.
Definition MAX_CELL_TEXT_CAPACITY_BYTES : N := (MAX_GRAPHEME_BYTES * 2)%N.

Record Dimensions := mkDimensions { columns : nat; rows : nat; cell_count : nat }.

Inductive DimensionsError :=
  | TooFewColumns (columns : nat)
  | ZeroRows
  | CellCountOverflow (columns rows : nat)
  | TooManyCells (cell_count : N) (maximum : N).

Definition Dimensions_new (columns rows : nat) : DimensionsError + Dimensions :=
  if columns <? 2 then inl (TooFewColumns columns)
  else if rows =? 0 then inl ZeroRows
  else match checked_mul usize_max (N.of_nat columns) (N.of_nat rows) with
       | None => inl (CellCountOverflow columns rows)
       | Some cell_count =>
           if (MAX_CELL_COUNT <? cell_count)%N
           then inl (TooManyCells cell_count MAX_CELL_COUNT)
           else inr {| columns := columns; rows := rows; cell_count := N.to_nat cell_count |}
       end.

Record Cursor := mkCursor { column : nat; row : nat }.

(** ** [cell.rs] *)
Inductive Color :=
  | Default
  | Indexed (index : N)
  | RgbColor (red green blue : N).

(** [Attributes] is its [u16] of flags. *)
Definition Attributes := N.
Definition NONE : Attributes := 0%N.
Definition BOLD : Attributes := 1%N.
Definition FAINT : Attributes := 2%N.
Definition ITALIC : Attributes := 4%N.
Definition UNDERLINE : Attributes := 8%N.
Definition DOUBLE_UNDERLINE : Attributes := 16%N.
Definition SLOW_BLINK : Attributes := 32%N.
Definition RAPID_BLINK : Attributes := 64%N.
Definition INVERSE : Attributes := 128%N.
Definition CONCEALED : Attributes := 256%N.
Definition STRIKETHROUGH : Attributes := 512%N.
Definition PROTECTED : Attributes := 1024%N.
Definition contains (self other : Attributes) : bool := (N.land self other =? other)%N.
Definition with_ (self other : Attributes) : Attributes := N.lor self other.
(** [self & !other]. *)
Definition without (self other : Attributes) : Attributes := N.ldiff self other.

Inductive CellWidth := Single | Double | Continuation.
Definition width_columns (w : CellWidth) : nat :=
  match w with Single => 1 | Double => 2 | Continuation => 0 end.

Record Cell := mkCell {
  text : list N;
  text_capacity_bytes : N;
  width : CellWidth;
  foreground : Color;
  background : Color;
  attributes : Attributes;
  hyperlink : option (list N)
}.
#[export] Instance set_text : Setter text := fun v c => mkCell v (text_capacity_bytes c) (width c) (foreground c) (background c) (attributes c) (hyperlink c).
#[export] Instance set_text_capacity_bytes : Setter text_capacity_bytes := fun v c => mkCell (text c) v (width c) (foreground c) (background c) (attributes c) (hyperlink c).
#[export] Instance set_width : Setter width := fun v c => mkCell (text c) (text_capacity_bytes c) v (foreground c) (background c) (attributes c) (hyperlink c).

#[export] Instance Color_eq_dec : EqDecision Color.
Proof. solve_decision. Defined.
#[export] Instance CellWidth_eq_dec : EqDecision CellWidth.
Proof. solve_decision. Defined.
#[export] Instance Cell_eq_dec : EqDecision Cell.
Proof. solve_decision. Defined.
#[export] Instance Cursor_eq_dec : EqDecision Cursor.
Proof. solve_decision. Defined.
#[export] Instance Dimensions_eq_dec : EqDecision Dimensions.
Proof. solve_decision. Defined.

(** [Cell::character]: the leading character, or a space for a continuation. *)
Definition character (c : Cell) : N := default SPACE (head (text c)).
Definition is_continuation (c : Cell) : bool :=
  match width c with Continuation => true | _ => false end.

Section WithPlatform.
Context `{P : Platform}.

(** Rust writes [c.text = ...; c.refresh_text_capacity_charge()]; the new
    capacity is the crate's. *)
Definition write_text (t : list N) (c : Cell) : Cell :=
  c <| text := t |>
    <| text_capacity_bytes := compact_capacity (text_capacity_bytes c) t |>.

Definition blank_cell : Cell :=
  {| text := [SPACE]; text_capacity_bytes := compact_capacity 0 [SPACE]; width := Single;
     foreground := Default; background := Default; attributes := NONE; hyperlink := None |}.
End WithPlatform.

(** [Cell::validate_recovery_state]; [true] is [Ok]. *)
Definition validate_cell (c : Cell) : bool :=
  (text_len (text c) <=? MAX_GRAPHEME_BYTES)%N
  && (text_len (text c) <=? text_capacity_bytes c)%N
  && (text_capacity_bytes c <=? MAX_CELL_TEXT_CAPACITY_BYTES)%N.

(** ** [colors.rs] *)
Record Rgb := mkRgb { red : N; green : N; blue : N }.

Definition scale (component : N) : N := (component * 257)%N.
Definition to_xparsecolor (c : Rgb) : list N :=
  bytes "rgb:" ++ hex4 false (scale (red c)) ++ bytes "/" ++ hex4 false (scale (green c))
    ++ bytes "/" ++ hex4 false (scale (blue c)).

Record ColorScheme := mkColorScheme {
  scheme_foreground : Rgb;
  scheme_background : Rgb;
  scheme_cursor : Rgb;
  ansi : list Rgb
}.

Definition DEFAULT_ANSI : list Rgb :=
  [mkRgb 0 0 0; mkRgb 205 49 49; mkRgb 13 188 121; mkRgb 229 229 16;
   mkRgb 36 114 200; mkRgb 188 63 188; mkRgb 17 168 205; mkRgb 229 229 229;
   mkRgb 102 102 102; mkRgb 241 76 76; mkRgb 35 209 139; mkRgb 245 245 67;
   mkRgb 59 142 234; mkRgb 214 112 214; mkRgb 41 184 219; mkRgb 255 255 255]%N.
Definition DEFAULT_FOREGROUND : Rgb := mkRgb 232 237 242.
Definition DEFAULT_BACKGROUND : Rgb := mkRgb 17 22 30.
Definition ColorScheme_default : ColorScheme :=
  {| scheme_foreground := DEFAULT_FOREGROUND; scheme_background := DEFAULT_BACKGROUND;
     scheme_cursor := DEFAULT_FOREGROUND; ansi := DEFAULT_ANSI |}.

Definition LEVELS : list N := [0; 95; 135; 175; 215; 255]%N.

(** [ColorScheme::palette]; [None] would be an index panic. *)
Definition palette (s : ColorScheme) (index : N) : option Rgb :=
  if (index <=? 15)%N then ansi s !! N.to_nat index
  else if (index <=? 231)%N then
    let value := (index - 16)%N in
    r ← LEVELS !! N.to_nat (value / 36);
    g ← LEVELS !! N.to_nat (value / 6 mod 6);
    b ← LEVELS !! N.to_nat (value mod 6);
    Some (mkRgb r g b)
  else
    let level := (8 + (index - 232) * 10)%N in
    Some (mkRgb level level level).

(** ** [modes.rs] *)
Inductive CursorStyle :=
  | BlinkingBlock | SteadyBlock | BlinkingUnderline | SteadyUnderline | BlinkingBar | SteadyBar.

Inductive MouseTrackingMode := MouseNone | X10 | ButtonEvent | ButtonMotion | AnyMotion.
#[export] Instance MouseTrackingMode_eq_dec : EqDecision MouseTrackingMode.
Proof. solve_decision. Defined.

Record TerminalModes := mkModes {
  auto_wrap : bool; reverse_wrap : bool; origin_mode : bool; left_right_margin_mode : bool;
  insert_mode : bool; line_feed_new_line : bool; keyboard_locked : bool;
  backarrow_sends_backspace : bool; alternate_screen : bool; cursor_visible : bool;
  application_cursor : bool; application_keypad : bool; bracketed_paste : bool;
  focus_reporting : bool; mouse_tracking : MouseTrackingMode; sgr_mouse : bool
}.
#[export] Instance set_auto_wrap : Setter auto_wrap := fun v r => mkModes v (reverse_wrap r) (origin_mode r) (left_right_margin_mode r) (insert_mode r) (line_feed_new_line r) (keyboard_locked r) (backarrow_sends_backspace r) (alternate_screen r) (cursor_visible r) (application_cursor r) (application_keypad r) (bracketed_paste r) (focus_reporting r) (mouse_tracking r) (sgr_mouse r).
#[export] Instance set_reverse_wrap : Setter reverse_wrap := fun v r => mkModes (auto_wrap r) v (origin_mode r) (left_right_margin_mode r) (insert_mode r) (line_feed_new_line r) (keyboard_locked r) (backarrow_sends_backspace r) (alternate_screen r) (cursor_visible r) (application_cursor r) (application_keypad r) (bracketed_paste r) (focus_reporting r) (mouse_tracking r) (sgr_mouse r).
#[export] Instance set_origin_mode : Setter origin_mode := fun v r => mkModes (auto_wrap r) (reverse_wrap r) v (left_right_margin_mode r) (insert_mode r) (line_feed_new_line r) (keyboard_locked r) (backarrow_sends_backspace r) (alternate_screen r) (cursor_visible r) (application_cursor r) (application_keypad r) (bracketed_paste r) (focus_reporting r) (mouse_tracking r) (sgr_mouse r).
#[export] Instance set_left_right_margin_mode : Setter left_right_margin_mode := fun v r => mkModes (auto_wrap r) (reverse_wrap r) (origin_mode r) v (insert_mode r) (line_feed_new_line r) (keyboard_locked r) (backarrow_sends_backspace r) (alternate_screen r) (cursor_visible r) (application_cursor r) (application_keypad r) (bracketed_paste r) (focus_reporting r) (mouse_tracking r) (sgr_mouse r).
#[export] Instance set_insert_mode : Setter insert_mode := fun v r => mkModes (auto_wrap r) (reverse_wrap r) (origin_mode r) (left_right_margin_mode r) v (line_feed_new_line r) (keyboard_locked r) (backarrow_sends_backspace r) (alternate_screen r) (cursor_visible r) (application_cursor r) (application_keypad r) (bracketed_paste r) (focus_reporting r) (mouse_tracking r) (sgr_mouse r).
#[export] Instance set_line_feed_new_line : Setter line_feed_new_line := fun v r => mkModes (auto_wrap r) (reverse_wrap r) (origin_mode r) (left_right_margin_mode r) (insert_mode r) v (keyboard_locked r) (backarrow_sends_backspace r) (alternate_screen r) (cursor_visible r) (application_cursor r) (application_keypad r) (bracketed_paste r) (focus_reporting r) (mouse_tracking r) (sgr_mouse r).
#[export] Instance set_keyboard_locked : Setter keyboard_locked := fun v r => mkModes (auto_wrap r) (reverse_wrap r) (origin_mode r) (left_right_margin_mode r) (insert_mode r) (line_feed_new_line r) v (backarrow_sends_backspace r) (alternate_screen r) (cursor_visible r) (application_cursor r) (application_keypad r) (bracketed_paste r) (focus_reporting r) (mouse_tracking r) (sgr_mouse r).
#[export] Instance set_backarrow_sends_backspace : Setter backarrow_sends_backspace := fun v r => mkModes (auto_wrap r) (reverse_wrap r) (origin_mode r) (left_right_margin_mode r) (insert_mode r) (line_feed_new_line r) (keyboard_locked r) v (alternate_screen r) (cursor_visible r) (application_cursor r) (application_keypad r) (bracketed_paste r) (focus_reporting r) (mouse_tracking r) (sgr_mouse r).
#[export] Instance set_alternate_screen : Setter alternate_screen := fun v r => mkModes (auto_wrap r) (reverse_wrap r) (origin_mode r) (left_right_margin_mode r) (insert_mode r) (line_feed_new_line r) (keyboard_locked r) (backarrow_sends_backspace r) v (cursor_visible r) (application_cursor r) (application_keypad r) (bracketed_paste r) (focus_reporting r) (mouse_tracking r) (sgr_mouse r).
#[export] Instance set_cursor_visible : Setter cursor_visible := fun v r => mkModes (auto_wrap r) (reverse_wrap r) (origin_mode r) (left_right_margin_mode r) (insert_mode r) (line_feed_new_line r) (keyboard_locked r) (backarrow_sends_backspace r) (alternate_screen r) v (application_cursor r) (application_keypad r) (bracketed_paste r) (focus_reporting r) (mouse_tracking r) (sgr_mouse r).
#[export] Instance set_application_cursor : Setter application_cursor := fun v r => mkModes (auto_wrap r) (reverse_wrap r) (origin_mode r) (left_right_margin_mode r) (insert_mode r) (line_feed_new_line r) (keyboard_locked r) (backarrow_sends_backspace r) (alternate_screen r) (cursor_visible r) v (application_keypad r) (bracketed_paste r) (focus_reporting r) (mouse_tracking r) (sgr_mouse r).
#[export] Instance set_application_keypad : Setter application_keypad := fun v r => mkModes (auto_wrap r) (reverse_wrap r) (origin_mode r) (left_right_margin_mode r) (insert_mode r) (line_feed_new_line r) (keyboard_locked r) (backarrow_sends_backspace r) (alternate_screen r) (cursor_visible r) (application_cursor r) v (bracketed_paste r) (focus_reporting r) (mouse_tracking r) (sgr_mouse r).
#[export] Instance set_bracketed_paste : Setter bracketed_paste := fun v r => mkModes (auto_wrap r) (reverse_wrap r) (origin_mode r) (left_right_margin_mode r) (insert_mode r) (line_feed_new_line r) (keyboard_locked r) (backarrow_sends_backspace r) (alternate_screen r) (cursor_visible r) (application_cursor r) (application_keypad r) v (focus_reporting r) (mouse_tracking r) (sgr_mouse r).
#[export] Instance set_focus_reporting : Setter focus_reporting := fun v r => mkModes (auto_wrap r) (reverse_wrap r) (origin_mode r) (left_right_margin_mode r) (insert_mode r) (line_feed_new_line r) (keyboard_locked r) (backarrow_sends_backspace r) (alternate_screen r) (cursor_visible r) (application_cursor r) (application_keypad r) (bracketed_paste r) v (mouse_tracking r) (sgr_mouse r).
#[export] Instance set_mouse_tracking : Setter mouse_tracking := fun v r => mkModes (auto_wrap r) (reverse_wrap r) (origin_mode r) (left_right_margin_mode r) (insert_mode r) (line_feed_new_line r) (keyboard_locked r) (backarrow_sends_backspace r) (alternate_screen r) (cursor_visible r) (application_cursor r) (application_keypad r) (bracketed_paste r) (focus_reporting r) v (sgr_mouse r).
#[export] Instance set_sgr_mouse : Setter sgr_mouse := fun v r => mkModes (auto_wrap r) (reverse_wrap r) (origin_mode r) (left_right_margin_mode r) (insert_mode r) (line_feed_new_line r) (keyboard_locked r) (backarrow_sends_backspace r) (alternate_screen r) (cursor_visible r) (application_cursor r) (application_keypad r) (bracketed_paste r) (focus_reporting r) (mouse_tracking r) v.

Definition TerminalModes_default : TerminalModes :=
  {| auto_wrap := true; reverse_wrap := false; origin_mode := false;
     left_right_margin_mode := false; insert_mode := false; line_feed_new_line := false;
     keyboard_locked := false; backarrow_sends_backspace := false; alternate_screen := false;
     cursor_visible := true; application_cursor := false; application_keypad := false;
     bracketed_paste := false; focus_reporting := false; mouse_tracking := MouseNone;
     sgr_mouse := false |}.

(** ** Geometry lemmas *)
Definition dims_ok (d : Dimensions) : Prop :=
  2 <= columns d /\ 1 <= rows d /\ cell_count d = columns d * rows d.

Lemma Dimensions_new_ok c r d : Dimensions_new c r = inr d -> dims_ok d.
Proof.
  unfold Dimensions_new, checked_mul, dims_ok. destruct_ifs; intros [= <-]; bools; simpl. lia.
Qed.

(** ** What the core relies on of the external crates

    unicode-width gives U+FFFD one column; a compact_str holds its text, and
    one built for a text of at most 24 bytes is stored inline; a [Vec] has room
    for its elements and shrinking it takes no more; a line struct is not empty. *)
Class PlatformLaws (P : Platform) : Prop := {
  law_replacement_width : char_width REPLACEMENT_CHARACTER = Some 1;
  law_capacity_holds old t : (text_len t <= compact_capacity old t)%N;
  law_capacity_inline t : (text_len t <= 24)%N -> (compact_capacity 0 t <= MAX_CELL_TEXT_CAPACITY_BYTES)%N;
  law_vec_grown cap len : (len <= vec_grown cap len)%N;
  law_vec_shrunk cap len : (len <= cap -> len <= vec_shrunk cap len <= cap)%N;
  law_size_of_line : (1 <= size_of_line <= usize_max)%N
}.

Lemma text_len_le t : (text_len t <= 4 * N.of_nat (length t))%N.
Proof. induction t as [|c t IH]; simpl; [lia|]. unfold len_utf8. destruct_ifs; lia. Qed.

Lemma text_len_app s t : text_len (s ++ t) = (text_len s + text_len t)%N.
Proof. induction s; cbn [text_len app]; lia. Qed.

Lemma length_le_text_len t : (N.of_nat (length t) <= text_len t)%N.
Proof. induction t as [|c t IH]; simpl; [lia|]. unfold len_utf8. destruct_ifs; lia. Qed.

#[export] Instance sample_platform_laws : PlatformLaws sample_platform.
Proof.
  split; [done|..]; intros; cbn [compact_capacity sample_platform].
  - pose proof (text_len_le t). lia.
  - pose proof (length_le_text_len t). unfold MAX_CELL_TEXT_CAPACITY_BYTES, MAX_GRAPHEME_BYTES. lia.
  - cbn. destruct_ifs; lia.
  - cbn. lia.
  - done.
Qed.
