(* ===== verification/Utf8.v ===== *)
(** * UTF-8

    [unicode.rs]: the strict incremental decoder the terminal runs over
    printable input, and the standard library's whole-string [from_utf8] it is
    compared with. *)

From Stdlib Require Import NArith ZArith Bool.
From S2P Require Import Prelude Cell.

(** ** The encoding, and [std::str::from_utf8] *)
Definition scalar (c : N) : bool := (c <? 55296)%N || in_range 57344 1114111 c.

(** [char::encode_utf8]. *)
Definition encode_utf8 (c : N) : list N :=
  (if c <? 128 then [c]
   else if c <? 2048 then [192 + c / 64; 128 + c mod 64]
   else if c <? 65536 then [224 + c / 4096; 128 + c / 64 mod 64; 128 + c mod 64]
   else [240 + c / 262144; 128 + c / 4096 mod 64; 128 + c / 64 mod 64; 128 + c mod 64])%N.

Definition encode_text (t : list N) : list N := flat_map encode_utf8 t.

Definition tail_byte (b : N) : bool := in_range 128 191 b.

(** The bytes that may follow a leading byte, by the Unicode standard's table of
    well-formed sequences. *)
Definition second_byte_ok (lead b : N) : bool :=
  (if lead =? 224 then in_range 160 191 b
   else if lead =? 237 then in_range 128 159 b
   else if lead =? 240 then in_range 144 191 b
   else if lead =? 244 then in_range 128 143 b
   else in_range 128 191 b)%N.

(** One character of a byte string and the rest. *)
Definition next_code_point (l : list N) : option (N * list N) :=
  match l with
  | [] => None
  | b0 :: l1 =>
      if (b0 <? 128)%N then Some (b0, l1)
      else if in_range 194 223 b0 then
        match l1 with
        | b1 :: l2 => if tail_byte b1 then Some ((b0 - 192) * 64 + (b1 - 128), l2)%N else None
        | _ => None
        end
      else if in_range 224 239 b0 then
        match l1 with
        | b1 :: b2 :: l3 =>
            if second_byte_ok b0 b1 && tail_byte b2
            then Some ((b0 - 224) * 4096 + (b1 - 128) * 64 + (b2 - 128), l3)%N else None
        | _ => None
        end
      else if in_range 240 244 b0 then
        match l1 with
        | b1 :: b2 :: b3 :: l4 =>
            if second_byte_ok b0 b1 && tail_byte b2 && tail_byte b3
            then Some ((b0 - 240) * 262144 + (b1 - 128) * 4096 + (b2 - 128) * 64 + (b3 - 128), l4)%N
            else None
        | _ => None
        end
      else None
  end.

(** Each character takes at least one byte, so the length is enough fuel. *)
Fixpoint from_utf8_fuel (fuel : nat) (l : list N) : option (list N) :=
  match l, fuel with
  | [], _ => Some []
  | _, O => None
  | _, S fuel' =>
      '(c, rest) ← next_code_point l;
      cs ← from_utf8_fuel fuel' rest;
      Some (c :: cs)
  end.
Definition from_utf8 (l : list N) : option (list N) := from_utf8_fuel (length l) l.

(** ** The incremental decoder *)
Inductive Utf8Advance := Pending | Character (c : N) | Invalid.

Record Utf8Decoder := mkUtf8 { u_bytes : list N; u_length : nat; u_expected : nat }.

Definition Utf8Decoder_new : Utf8Decoder := mkUtf8 [0; 0; 0; 0]%N 0 0.

Definition utf8_pending (d : Utf8Decoder) : bool := negb (u_expected d =? 0).

(** [Utf8Decoder::start]; [None] is [false]: the byte cannot begin a sequence,
    and the decoder is unchanged. *)
Definition lead_expected (b : N) : option nat :=
  if in_range 194 223 b then Some 2
  else if in_range 224 239 b then Some 3
  else if in_range 240 244 b then Some 4
  else None.

Definition utf8_start (d : Utf8Decoder) (b : N) : option Utf8Decoder :=
  expected ← lead_expected b;
  Some (mkUtf8 (<[0 := b]> (u_bytes d)) 1 expected).

Definition utf8_reset (d : Utf8Decoder) : Utf8Decoder := mkUtf8 (u_bytes d) 0 0.

(** [Utf8Decoder::advance].  The outer [None] is an index panic. *)
Definition utf8_advance (d : Utf8Decoder) (b : N) : option (Utf8Advance * Utf8Decoder) :=
  lead ← u_bytes d !! 0;
  if negb (in_range 128 191 b) || ((u_length d =? 1) && negb (second_byte_ok lead b))
  then Some (Invalid, utf8_reset d)
  else
    bs ← set_index (u_bytes d) (u_length d) b;
    let d1 := mkUtf8 bs (S (u_length d)) (u_expected d) in
    if u_length d1 <? u_expected d1 then Some (Pending, d1)
    else
      window ← slice bs 0 (u_expected d1);
      let ch := cs ← from_utf8 window; head cs in
      Some (match ch with Some c => Character c | None => Invalid end, utf8_reset d1).

(** [Utf8Decoder::validate_recovery_state]; [true] is [Ok]. *)
Fixpoint replay (d : Utf8Decoder) (bs : list N) : bool :=
  match bs with
  | [] => true
  | b :: bs' => match utf8_advance d b with
                | Some (Pending, d') => replay d' bs'
                | _ => false
                end
  end.

Definition validate_utf8 (d : Utf8Decoder) : bool :=
  if length (u_bytes d) <? u_expected d then false
  else if u_expected d =? 0 then u_length d =? 0
  else if (u_length d =? 0) || (u_expected d <? u_length d) then false
  else
    match u_bytes d !! 0 with
    | None => false
    | Some lead =>
        match utf8_start Utf8Decoder_new lead with
        | None => false
        | Some d0 =>
            (u_expected d0 =? u_expected d)
            && replay d0 (take (u_length d - 1) (drop 1 (u_bytes d)))
        end
    end.

(** ** Lemmas *)
Arguments next_code_point : simpl never.
#[local] Ltac Zify.zify_post_hook ::= Z.to_euclidean_division_equations.

Ltac bytes_tac :=
  unfold scalar, tail_byte, second_byte_ok, in_range in *;
  repeat match goal with
  | |- context [if ?b then _ else _] => destruct b eqn:?
  | H : context [if ?b then _ else _] |- _ => destruct b eqn:?
  end; try lia.

(** A decoder in use: the stored bytes are the beginning of a sequence. *)
Definition utf8_ok (d : Utf8Decoder) : Prop :=
  length (u_bytes d) = 4 /\
  ((u_expected d = 0 /\ u_length d = 0) \/
   exists lead, u_bytes d !! 0 = Some lead /\ lead_expected lead = Some (u_expected d) /\
     1 <= u_length d < u_expected d /\
     forall i b, 1 <= i < u_length d -> u_bytes d !! i = Some b ->
       tail_byte b = true /\ (i = 1 -> second_byte_ok lead b = true)).

Lemma lead_expected_bound b n : lead_expected b = Some n -> 2 <= n <= 4.
Proof. unfold lead_expected. intros H. repeat case_match; simplify_eq; lia. Qed.

Lemma utf8_ok_new : utf8_ok Utf8Decoder_new.
Proof. split; [done|left; done]. Qed.

Lemma utf8_ok_reset d : utf8_ok d -> utf8_ok (utf8_reset d).
Proof. intros [H _]. split; [done|by left]. Qed.

Lemma utf8_start_ok d b d' : utf8_ok d -> utf8_start d b = Some d' -> utf8_ok d'.
Proof.
  intros [H _]. unfold utf8_start. destruct (lead_expected b) as [n|] eqn:E; simpl; [|done].
  intros [= <-]. pose proof (lead_expected_bound _ _ E). split; simpl.
  { by rewrite length_insert. }
  right. exists b. rewrite list_lookup_insert_eq by lia. repeat split; [done|lia|lia|lia..].
Qed.

Lemma next_code_point_encode c rest :
  scalar c = true -> next_code_point (encode_utf8 c ++ rest) = Some (c, rest).
Proof.
  intros Hs. unfold encode_utf8.
  unfold next_code_point. destruct (c <? 128)%N eqn:E1; [simpl; by rewrite E1|].
  destruct (c <? 2048)%N eqn:E2; [|destruct (c <? 65536)%N eqn:E3]; simpl; bytes_tac;
    do 2 f_equal; lia.
Qed.

Lemma from_utf8_fuel_encode t fuel :
  Forall (fun c => scalar c = true) t -> length (encode_text t) <= fuel ->
  from_utf8_fuel fuel (encode_text t) = Some t.
Proof.
  intros Ht. revert fuel. induction Ht as [|c t Hc _ IH]; intros fuel Hf; simpl in *.
  { by destruct fuel. }
  rewrite length_app in Hf.
  assert (1 <= length (encode_utf8 c)) by (unfold encode_utf8; repeat case_match; simpl; lia).
  destruct (encode_utf8 c ++ encode_text t) as [|b l] eqn:E.
  { apply (f_equal length) in E. rewrite length_app in E. simpl in E. lia. }
  destruct fuel as [|fuel]; [lia|]. simpl from_utf8_fuel. rewrite <- E.
  rewrite next_code_point_encode by done. simpl. rewrite IH by lia. done.
Qed.

Lemma next_code_point_sound l c rest :
  next_code_point l = Some (c, rest) -> scalar c = true /\ l = encode_utf8 c ++ rest.
Proof.
  unfold next_code_point. intros H.
  destruct l as [|b0 l1]; [done|].
  destruct (b0 <? 128)%N eqn:E0.
  { simplify_eq. split; [bytes_tac|]. unfold encode_utf8. by rewrite E0. }
  destruct (in_range 194 223 b0) eqn:E2; [|destruct (in_range 224 239 b0) eqn:E3;
    [|destruct (in_range 240 244 b0) eqn:E4; [|done]]];
    repeat case_match; simplify_eq; bools; (split; [bytes_tac|]);
    unfold encode_utf8; bytes_tac; simpl; repeat f_equal; bytes_tac.
Qed.

(** A leading byte followed by admissible bytes is one character. *)
Lemma sequence_decodes lead rest n :
  lead_expected lead = Some n -> S (length rest) = n ->
  (forall i b, rest !! i = Some b ->
     tail_byte b = true /\ (i = 0 -> second_byte_ok lead b = true)) ->
  exists c, next_code_point (lead :: rest) = Some (c, []).
Proof.
  unfold lead_expected. intros Hl Hn Ht.
  assert (Hlo : (lead <? 128)%N = false) by (repeat case_match; simplify_eq; bytes_tac).
  assert (forall i b, rest !! i = Some b -> tail_byte b = true) as Htl by (intros; by eapply Ht).
  pose proof (fun b H => proj2 (Ht 0 b H) eq_refl) as Hsec.
  pose proof (Htl 0) as Ht0. pose proof (Htl 1) as Ht1. pose proof (Htl 2) as Ht2.
  unfold next_code_point. rewrite Hlo.
  destruct (in_range 194 223 lead); [|destruct (in_range 224 239 lead);
    [|destruct (in_range 240 244 lead)]]; simplify_eq; destruct rest as [|b1 [|b2 [|b3 [|? ?]]]]; simpl in *; simplify_eq;
    rewrite ?(Hsec _ eq_refl), ?(Ht0 _ eq_refl), ?(Ht1 _ eq_refl), ?(Ht2 _ eq_refl); simpl; eauto.
Qed.

Lemma from_utf8_single bs c :
  bs <> [] -> next_code_point bs = Some (c, []) -> from_utf8 bs = Some [c].
Proof.
  intros Hne H. unfold from_utf8. destruct bs as [|b bs]; [done|]. simpl. rewrite H. simpl.
  by destruct (length bs).
Qed.

(** A full sequence in the buffer decodes to the character whose encoding it is. *)
Lemma window_decodes bs lead n :
  bs !! 0 = Some lead -> lead_expected lead = Some n -> length bs = n ->
  (forall i b, 1 <= i -> bs !! i = Some b ->
     tail_byte b = true /\ (i = 1 -> second_byte_ok lead b = true)) ->
  exists c, from_utf8 bs = Some [c] /\ scalar c = true /\ bs = encode_utf8 c.
Proof.
  intros H0 Hl Hn Ht. destruct bs as [|x bs]; [done|]. injection H0 as ->.
  destruct (sequence_decodes lead bs n) as [c Hc]; [done|done|..].
  { intros i b Hb. destruct (Ht (S i) b) as [? Hs]; [lia|done|]. split; [done|].
    intros ->. by apply Hs. }
  exists c. split; [by apply from_utf8_single|].
  apply next_code_point_sound in Hc as [? Hc]. by rewrite app_nil_r in Hc.
Qed.

(** What the decoder does with the byte [b] once it has seen a prefix: the three
    outcomes of [utf8_advance], with the state each leaves. *)
Lemma utf8_advance_cases d b :
  utf8_ok d -> utf8_pending d = true ->
  exists r d', utf8_advance d b = Some (r, d') /\ utf8_ok d' /\
    match r with
    | Pending => d' = mkUtf8 (<[u_length d := b]> (u_bytes d)) (S (u_length d)) (u_expected d) /\
                 S (u_length d) < u_expected d
    | Character c => scalar c = true /\ take (u_length d) (u_bytes d) ++ [b] = encode_utf8 c /\
                     S (u_length d) = u_expected d /\ utf8_pending d' = false
    | Invalid => utf8_pending d' = false /\
        (tail_byte b = false \/
         (u_length d = 1 /\ exists lead, u_bytes d !! 0 = Some lead /\ second_byte_ok lead b = false))
    end.
Proof.
  intros Hok Hp. pose proof Hok as Hok0.
  destruct Hok as [Hlen [[He _]|(lead & Hlead & Hexp & Hl & Htail)]].
  { unfold utf8_pending in Hp. by rewrite He in Hp. }
  pose proof (lead_expected_bound _ _ Hexp).
  unfold utf8_advance. rewrite Hlead. simpl.
  destruct (negb _ || _) eqn:Hbad.
  { eexists _, _. split; [done|]. split; [by apply utf8_ok_reset|]. split; [done|].
    apply orb_true_iff in Hbad as [Hb|Hb]; bools; [by left|right; eauto]. }
  apply orb_false_iff in Hbad as [Hb1 Hb2]. apply negb_false_iff in Hb1.
  rewrite set_index_Some by lia. simpl.
  assert (Hstored : forall i x, 1 <= i < S (u_length d) -> <[u_length d := b]> (u_bytes d) !! i = Some x ->
     tail_byte x = true /\ (i = 1 -> second_byte_ok lead x = true)).
  { intros i x Hi. rewrite list_lookup_insert. case_decide as Hc; [|apply Htail; lia].
    intros [= <-]. split; [done|]. intros ->. destruct Hc as [Hc _]. rewrite Hc in Hb2.
    by apply negb_false_iff in Hb2. }
  destruct (S (u_length d) <? u_expected d) eqn:Hmore; bools.
  { eexists _, _. split; [done|]. split; [|done].
    split; simpl; [by rewrite length_insert|]. right. exists lead.
    rewrite list_lookup_insert_ne by lia. split_and!; [done|done|lia|lia|]. by apply Hstored. }
  rewrite slice_Some by (rewrite length_insert; lia). simpl. rewrite Nat.sub_0_r.
  assert (u_expected d = S (u_length d)) as -> by lia.
  assert (take (S (u_length d)) (<[u_length d := b]> (u_bytes d)) = take (u_length d) (u_bytes d) ++ [b]) as Hw.
  { erewrite take_S_r by (apply list_lookup_insert_eq; lia). by rewrite take_insert_ge by lia. }
  destruct (window_decodes (take (S (u_length d)) (<[u_length d := b]> (u_bytes d))) lead (S (u_length d)))
    as (c & Hd & Hc & Henc).
  - rewrite lookup_take_lt by lia. by rewrite list_lookup_insert_ne by lia.
  - rewrite Hexp. f_equal. lia.
  - rewrite length_take, length_insert. lia.
  - intros i x Hi Hx. apply lookup_take_Some in Hx as [Hx ?]. eapply Hstored; [lia|done].
  - rewrite drop_0, Hd. simpl. eexists _, _. split; [done|].
    split; [|by rewrite <- Hw].
    split; [|by left]. by rewrite <- Hlen, <- (length_insert (u_bytes d) (u_length d) b).
Qed.

(** ** Properties *)

(** Feeding the decoder a byte string after its leading byte. *)
Fixpoint utf8_feed (d : Utf8Decoder) (bs : list N) : option (Utf8Advance * Utf8Decoder) :=
  match bs with
  | [] => Some (Pending, d)
  | b :: bs' =>
      '(r, d') ← utf8_advance d b;
      match r, bs' with
      | Pending, _ => utf8_feed d' bs'
      | _, [] => Some (r, d')
      | _, _ => None
      end
  end.

(** The incremental decoder is total on every state it can reach, keeps its
    state well formed, reports a character only when the bytes it has collected
    are exactly that character's UTF-8 encoding, and gives up only on a byte
    that cannot continue the sequence. *)
Theorem utf8_advance_sound d b :
  utf8_ok d -> utf8_pending d = true ->
  exists r d', utf8_advance d b = Some (r, d') /\ utf8_ok d' /\
    match r with
    | Pending => d' = mkUtf8 (<[u_length d := b]> (u_bytes d)) (S (u_length d)) (u_expected d) /\
                 S (u_length d) < u_expected d
    | Character c => scalar c = true /\ take (u_length d) (u_bytes d) ++ [b] = encode_utf8 c /\
                     S (u_length d) = u_expected d /\ utf8_pending d' = false
    | Invalid => utf8_pending d' = false /\
        (tail_byte b = false \/
         (u_length d = 1 /\ exists lead, u_bytes d !! 0 = Some lead /\ second_byte_ok lead b = false))
    end.
Proof. apply utf8_advance_cases. Qed.

Lemma utf8_advance_sound_witness :
  exists r d', utf8_advance (mkUtf8 [226; 0; 0; 0]%N 1 3) 130 = Some (r, d') /\ utf8_ok d' /\
    match r with
    | Pending => d' = mkUtf8 [226; 130; 0; 0]%N 2 3 /\ 2 < 3
    | Character c => scalar c = true /\ take 1 [226; 0; 0; 0]%N ++ [130%N] = encode_utf8 c /\
                     2 = 3 /\ utf8_pending d' = false
    | Invalid => utf8_pending d' = false /\
        (tail_byte 130 = false \/
         (1 = 1 /\ exists lead, [226; 0; 0; 0]%N !! 0 = Some lead /\ second_byte_ok lead 130 = false))
    end.
Proof.
  apply (utf8_advance_sound (mkUtf8 [226; 0; 0; 0]%N 1 3) 130); [|reflexivity].
  split; [reflexivity|]. right. exists 226%N. simpl. split_and!; try reflexivity; lia.
Defined.

Lemma encode_utf8_shape c :
  scalar c = true -> (128 <= c)%N ->
  exists lead rest, encode_utf8 c = lead :: rest /\ lead_expected lead = Some (S (length rest)) /\
    forall i b, rest !! i = Some b ->
      tail_byte b = true /\ (i = 0 -> second_byte_ok lead b = true).
Proof.
  intros Hc Hge. unfold encode_utf8. destruct (c <? 128)%N eqn:E1; [lia|].
  destruct (c <? 2048)%N eqn:E2; [|destruct (c <? 65536)%N eqn:E3];
    (do 2 eexists; split; [reflexivity|]; split; [unfold lead_expected; bytes_tac; done|]);
    intros i b Hb;
    repeat (destruct i as [|i]; simpl in Hb;
      [injection Hb as <-; split; [bytes_tac|intros; bytes_tac]|]); done.
Qed.

Lemma encode_utf8_inj c c' :
  scalar c = true -> scalar c' = true -> encode_utf8 c = encode_utf8 c' -> c = c'.
Proof.
  intros H H' E. pose proof (next_code_point_encode c [] H) as H1.
  rewrite E, next_code_point_encode in H1 by done. by simplify_eq.
Qed.

Lemma utf8_feed_encoding c lead rest :
  scalar c = true -> encode_utf8 c = lead :: rest ->
  (forall i b, rest !! i = Some b ->
      tail_byte b = true /\ (i = 0 -> second_byte_ok lead b = true)) ->
  forall r d, r <> [] -> utf8_ok d -> utf8_pending d = true -> u_expected d = S (length rest) ->
    take (u_length d) (u_bytes d) ++ r = lead :: rest -> u_length d + length r = S (length rest) ->
  exists d2, utf8_feed d r = Some (Character c, d2) /\ utf8_pending d2 = false.
Proof.
  intros Hc Henc Ht r. induction r as [|b r IH]; intros d Hne Hok Hp Hexp Hpre Hlen; [done|].
  assert (0 < u_length d < length (u_bytes d)) as Hul.
  { destruct Hok as [Hl [[He _]|(? & _ & Hle & ? & _)]]; [unfold utf8_pending in Hp; by rewrite He in Hp|].
    apply lead_expected_bound in Hle. lia. }
  assert (u_bytes d !! 0 = Some lead) as Hlead.
  { rewrite <- (lookup_take_lt _ (u_length d)) by lia.
    apply (f_equal (fun l => l !! 0)) in Hpre. rewrite lookup_app_l in Hpre; [done|].
    rewrite length_take. lia. }
  assert (rest !! (u_length d - 1) = Some b) as Hb.
  { apply (f_equal (fun l => l !! (u_length d))) in Hpre.
    rewrite lookup_app_r in Hpre by (rewrite length_take; lia).
    rewrite length_take, Nat.min_l, Nat.sub_diag in Hpre by lia.
    destruct (u_length d); [lia|]. by rewrite Nat.sub_1_r. }
  destruct (Ht _ _ Hb) as [Htb Hsb]. simpl utf8_feed.
  destruct (utf8_advance_cases d b Hok Hp) as (res & d' & -> & Hok' & Hres). simpl.
  destruct res as [|c'|].
  - destruct Hres as [-> Hlt]. simpl in *. apply IH; simpl; try done; [intros ->; simpl in *; lia| |lia].
    erewrite take_S_r by (apply list_lookup_insert_eq; lia).
    by rewrite take_insert_ge, <- app_assoc by lia.
  - destruct Hres as (Hs' & He' & Hfull & Hp'). simpl in Hlen.
    destruct r as [|b' r]; [|simpl in Hlen; lia].
    rewrite Hpre, <- Henc in He'. apply encode_utf8_inj in He' as ->; [|done..]. eauto.
  - exfalso. destruct Hres as [_ [H|(H1 & lead' & H2 & H3)]]; [congruence|].
    simplify_eq. rewrite Hsb in H3; [done|lia].
Qed.

(** A decoder that starts on the first byte of the encoding of any
    character outside ASCII and is fed the rest reports that character and
    returns to rest: decoding inverts encoding. *)
Theorem utf8_decodes_encoding d c :
  utf8_ok d -> scalar c = true -> (128 <= c)%N ->
  exists lead rest d1 d2, encode_utf8 c = lead :: rest /\ utf8_start d lead = Some d1 /\
    utf8_feed d1 rest = Some (Character c, d2) /\ utf8_pending d2 = false.
Proof.
  intros Hok Hc Hge. destruct (encode_utf8_shape c Hc Hge) as (lead & rest & Henc & Hexp & Ht).
  pose proof (lead_expected_bound _ _ Hexp).
  destruct (utf8_start d lead) as [d1|] eqn:Hst; [|by unfold utf8_start in Hst; rewrite Hexp in Hst].
  pose proof (utf8_start_ok _ _ _ Hok Hst) as Hok1.
  unfold utf8_start in Hst. rewrite Hexp in Hst. injection Hst as <-.
  destruct Hok as [Hlen _].
  eapply (utf8_feed_encoding c lead rest Hc Henc Ht rest) in Hok1 as (d2 & Hf & Hp);
    [|intros ->; simpl in *; lia|done|done| |simpl; lia].
  { eexists _, _, _, d2. split; [exact Henc|]. unfold utf8_start. rewrite Hexp. done. }
  simpl. destruct (u_bytes d) as [|x l]; [simpl in Hlen; lia|]. done.
Qed.

Lemma utf8_decodes_encoding_witness :
  exists lead rest d1 d2, encode_utf8 8364 = lead :: rest /\
    utf8_start Utf8Decoder_new lead = Some d1 /\
    utf8_feed d1 rest = Some (Character 8364, d2) /\ utf8_pending d2 = false.
Proof.
  apply (utf8_decodes_encoding Utf8Decoder_new 8364); [apply utf8_ok_new|reflexivity|lia].
Defined.
