(* ===== verification/Hyperlink.v ===== *)
(** * OSC 8 targets

    [hyperlink.rs] and [normalize_external_web_url] of [lib.rs]: which link
    targets a program may attach to cells, and which of them name a local
    file.  Text is a list of characters. *)

From Stdlib Require Import NArith Bool.
From S2P Require Import Prelude Cell Utf8.

(** ** Character classes and string functions of the standard library *)
Definition is_ascii_whitespace (c : N) : bool :=
  existsb (N.eqb c) [9; 10; 12; 13; 32]%N.
Definition is_ascii_control (c : N) : bool := (c <? 32)%N || (c =? 127)%N.
Definition is_ascii_digit (c : N) : bool := in_range 48 57 c.
Definition is_ascii_alphabetic (c : N) : bool := in_range 65 90 c || in_range 97 122 c.
Definition is_ascii_alphanumeric (c : N) : bool := is_ascii_digit c || is_ascii_alphabetic c.
Definition to_ascii_lowercase (c : N) : N := if in_range 65 90 c then (c + 32)%N else c.
Definition to_ascii_uppercase (c : N) : N := if in_range 97 122 c then (c - 32)%N else c.
Definition eq_ignore_ascii_case (a b : list N) : bool :=
  beq (map to_ascii_lowercase a) (map to_ascii_lowercase b).

(** [str::split(sep)]: always at least one part. *)
Fixpoint split_on (sep : N) (l : list N) : list (list N) :=
  match l with
  | [] => [[]]
  | c :: l' =>
      if (c =? sep)%N then [] :: split_on sep l'
      else match split_on sep l' with
           | [] => [[c]]
           | p :: ps => (c :: p) :: ps
           end
  end.

(** [str::split_once(sep)]. *)
Fixpoint split_once (sep : N) (l : list N) : option (list N * list N) :=
  match l with
  | [] => None
  | c :: l' => if (c =? sep)%N then Some ([], l')
               else '(a, b) ← split_once sep l'; Some (c :: a, b)
  end.

Fixpoint strip_prefix (p l : list N) : option (list N) :=
  match p, l with
  | [], _ => Some l
  | c :: p', d :: l' => if (c =? d)%N then strip_prefix p' l' else None
  | _, _ => None
  end.
Definition starts_with (p l : list N) : bool :=
  match strip_prefix p l with Some _ => true | None => false end.
Definition ends_with_any (cs : list N) (l : list N) : bool :=
  match list.last l with Some c => existsb (N.eqb c) cs | None => false end.
Fixpoint trim_start (c : N) (l : list N) : list N :=
  match l with
  | [] => []
  | x :: l' => if (x =? c)%N then trim_start c l' else l
  end.
Definition trim_end (c : N) (l : list N) : list N := reverse (trim_start c (reverse l)).

(** [char::to_digit(16)]. *)
Definition hex_value (c : N) : option N :=
  (if in_range 48 57 c then Some (c - 48)
   else if in_range 97 102 c then Some (c - 87)
   else if in_range 65 70 c then Some (c - 55)
   else None)%N.

(** ** [decode_path] *)
Fixpoint percent_decode (l : list N) : option (list N) :=
  match l with
  | [] => Some []
  | b :: l' =>
      if (b =? 37)%N then
        match l' with
        | h :: lo :: l'' =>
            high ← hex_value h;
            low ← hex_value lo;
            rest ← percent_decode l'';
            Some ((high * 16 + low)%N :: rest)
        | _ => None
        end
      else rest ← percent_decode l'; Some (b :: rest)
  end.

Definition decode_path (path : list N) : option (list N) :=
  decoded ← percent_decode (encode_text path); from_utf8 decoded.

(** ** [safe_file_path] *)
Definition is_bidi_control (c : N) : bool :=
  existsb (N.eqb c) [1564; 8206; 8207]%N || in_range 8234 8238 c || in_range 8294 8297 c.

Definition reserved_device (stem : list N) : bool :=
  existsb (beq stem) [bytes "CON"; bytes "PRN"; bytes "AUX"; bytes "NUL"; bytes "CONIN$"; bytes "CONOUT$"]
  || existsb (fun prefix =>
       match strip_prefix prefix stem with
       | Some [c] => in_range 49 57 c || existsb (N.eqb c) [185; 178; 179]%N
       | _ => false
       end) [bytes "COM"; bytes "LPT"].

Definition safe_component (index : nat) (part : list N) : bool :=
  if (index =? 0) && (text_len part =? 2)%N
     && match part with c :: _ => is_ascii_alphabetic c | [] => false end
     && ends_with_any [58%N] part
  then true
  else
    let stem := map to_ascii_uppercase (trim_end 32 (default [] (head (split_on 46 part)))) in
    negb (existsb (fun c => existsb (N.eqb c) [58; 42; 63; 34; 60; 62; 124]%N) part)
    && negb (ends_with_any [32; 46]%N part)
    && negb (reserved_device stem).

Definition safe_file_path (path : list N) : bool :=
  starts_with [47%N] path
  && negb (starts_with [47; 47]%N path)
  && negb (existsb (N.eqb 92) path)
  && negb (existsb (fun c => is_control c || is_bidi_control c) path)
  && forallb (fun '(i, part) => safe_component i part)
       (imap pair (tail (split_on 47 path))).

Section WithPlatform.
Context `{P : Platform}.

(** [normalize_external_web_url], [lib.rs]. *)
Definition normalize_external_web_url (target : list N) : option (list N) :=
  if (2048 <? text_len target)%N || negb (forallb is_ascii target)
     || existsb is_ascii_whitespace target
  then None
  else
    parsed ← url_parse target;
    if (beq (url_scheme parsed) (bytes "http") || beq (url_scheme parsed) (bytes "https"))
       && bool_decide (is_Some (url_host_str parsed))
       && beq (url_username parsed) []
       && bool_decide (url_password parsed = None)
    then Some (url_to_string parsed) else None.

Definition file_uri (target : list N) (local_only : bool) : option Url :=
  if (2048 <? text_len target)%N || negb (forallb is_ascii target)
     || existsb (fun b => is_ascii_whitespace b || is_ascii_control b) target
  then None
  else if length target <? 7 then None
  else if negb (eq_ignore_ascii_case (take 7 target) (bytes "file://"))
     || existsb (fun c => existsb (N.eqb c) [92; 63; 35]%N) target
  then None
  else
    '(authority, path) ← split_once 47 (drop 7 target);
    let is_local := beq authority [] || eq_ignore_ascii_case authority (bytes "localhost") in
    if (local_only && negb is_local)
       || negb (forallb (fun b => is_ascii_alphanumeric b || existsb (N.eqb b) [45; 46]%N) authority)
       || beq path [] || starts_with [47%N] path
    then None
    else
      decoded ← decode_path (47%N :: path);
      if negb (safe_file_path decoded) then None
      else
        uri ← url_parse target;
        if negb is_local
           && negb match url_host_str uri with
                   | Some host => eq_ignore_ascii_case host authority
                   | None => false
                   end
        then None
        else
          decoded' ← decode_path (url_path uri);
          if safe_file_path decoded' then Some uri else None.

Definition normalize_terminal_hyperlink (target : list N) : option (list N) :=
  match normalize_external_web_url target with
  | Some url => Some url
  | None => uri ← file_uri target false; Some (url_to_string uri)
  end.

Definition local_file_hyperlink_path (target : list N) : option (list N) :=
  uri ← file_uri target true; decode_path (url_path uri).
End WithPlatform.

(** ** Properties *)

(** A path component that would step out of its directory. *)
Definition dot_segment (part : list N) : bool := beq part [46%N] || beq part [46; 46]%N.

Lemma safe_component_not_dot i part : safe_component i part = true -> dot_segment part = false.
Proof.
  unfold dot_segment, beq. intros H.
  destruct (decide (part = [46%N])) as [->|]; [destruct i; vm_compute in H; done|].
  destruct (decide (part = [46; 46]%N)) as [->|]; [destruct i; vm_compute in H; done|].
  by rewrite !bool_decide_eq_false_2.
Qed.

Lemma forallb_imap_tail {A : Type} (f : nat -> A -> bool) (l : list A) x :
  forallb (fun '(i, y) => f i y) (imap pair l) = true -> x ∈ l -> exists i, f i x = true.
Proof.
  intros H Hx. apply list_elem_of_lookup in Hx as [i Hi]. exists i.
  rewrite forallb_forall in H. apply (H (i, x)).
  apply list_elem_of_In, list_elem_of_lookup. exists i.
  by rewrite list_lookup_imap, Hi.
Qed.

Section Safety.
Context `{P : Platform}.

Lemma file_uri_path_safe target local_only uri path :
  file_uri target local_only = Some uri -> decode_path (url_path uri) = Some path ->
  safe_file_path path = true.
Proof.
  unfold file_uri. intros H Hd.
  repeat (case_match; try done).
  destruct (split_once _ _) as [[authority p]|]; simpl in H; [|done].
  case_match; [done|].
  destruct (decode_path _) as [decoded|] in H; simpl in H; [|done].
  case_match; [done|].
  destruct (url_parse target) as [u|]; simpl in H; [|done].
  case_match; [done|].
  destruct (decode_path (url_path u)) eqn:E; simpl in H; [|done].
  case_match; simplify_eq. congruence.
Qed.

(** Whatever a program sends as a hyperlink target, and whatever the URL
    parser makes of it, a target accepted as a local file names an absolute
    path with no backslash, no control or bidirectional-override character and
    no [.] or [..] component: the path cannot be disguised and cannot climb. *)
Theorem local_file_path_is_safe target path :
  local_file_hyperlink_path target = Some path ->
  starts_with [47%N] path = true /\ starts_with [47; 47]%N path = false /\
  (forall c, c ∈ path -> c <> 92%N /\ is_control c = false /\ is_bidi_control c = false) /\
  (forall part, part ∈ tail (split_on 47 path) -> dot_segment part = false).
Proof.
  unfold local_file_hyperlink_path. destruct (file_uri target true) as [uri|] eqn:Hu; simpl; [|done].
  intros Hp. pose proof (file_uri_path_safe _ _ _ _ Hu Hp) as Hs.
  unfold safe_file_path in Hs. bools. split_and!; try done.
  - intros c Hc. apply list_elem_of_In in Hc.
    assert (Hno : forall f, existsb f path = false -> f c = false).
    { intros f Hf. destruct (f c) eqn:E; [|done].
      rewrite <- Hf. symmetry. apply existsb_exists. eauto. }
    split; [intros ->; by apply Hno in H2|].
    apply orb_false_iff. by apply (Hno _ H1).
  - intros part Hpart. destruct (forallb_imap_tail safe_component _ part ltac:(eassumption) Hpart) as [i Hi].
    by eapply safe_component_not_dot.
Qed.
End Safety.

Lemma local_file_path_is_safe_witness :
  local_file_hyperlink_path (P := sample_platform) (bytes "file:///tmp/a%20b.md")
    = Some (bytes "/tmp/a b.md") /\
  starts_with [47%N] (bytes "/tmp/a b.md") = true.
Proof.
  split; [vm_compute; reflexivity|].
  apply (local_file_path_is_safe (P := sample_platform) (bytes "file:///tmp/a%20b.md") (bytes "/tmp/a b.md")).
  vm_compute. reflexivity.
Defined.
