(* ===== verification/Parser.v ===== *)
(** * The escape-sequence parser

    [parser.rs]: a byte-at-a-time state machine that turns ESC, CSI, OSC and
    DCS input into at most one typed operation per byte.  Every buffer it keeps
    has a fixed bound.  [None] is a panic. *)

From Stdlib Require Import NArith Bool.
From S2P Require Import Prelude Cell Utf8 Hyperlink.

(** ** Device control strings *)
Inductive DcsAction := RequestStatusString (selector : list N).

Definition parse_dcs (payload : list N) : option DcsAction :=
  selector ← strip_prefix (bytes "$q") payload; Some (RequestStatusString selector).

(** ** Operating system commands *)
Inductive ColorQuery := Palette (index : N) | Foreground | Background | CursorColor.

Inductive StringTerminator := StringEnd | Bell.
Definition terminator_bytes (t : StringTerminator) : list N :=
  match t with StringEnd => [ESC; 92%N] | Bell => [BEL] end.

Inductive OscAction :=
  | SetTitle (title : list N)
  | SetHyperlink (target : option (list N))
  | ReportColors (queries : list ColorQuery) (terminator : StringTerminator).

Definition MAX_COLOR_QUERIES : nat := 64.
Definition SEMICOLON : N := 59.

Definition color_action (queries : list ColorQuery) (t : StringTerminator) : option OscAction :=
  match queries with [] => None | _ => Some (ReportColors queries t) end.

(** [str::parse::<u8>] of at most three ASCII digits. *)
Definition digits_value (field : list N) : N :=
  foldl (fun acc d => acc * 10 + (d - 48))%N 0%N field.

Definition parse_palette_index (field : list N) : option N :=
  if beq field [] || (3 <? length field) || negb (forallb is_ascii_digit field) then None
  else let v := digits_value field in if (v <=? 255)%N then Some v else None.

(** The [while let] over pairs of fields of [parse_palette_queries]; [queries]
    is kept in reverse. *)
Fixpoint palette_queries_loop (fields : list (list N)) (queries : list ColorQuery)
    : list ColorQuery :=
  match fields with
  | index :: specification :: fields' =>
      if length queries =? MAX_COLOR_QUERIES then queries
      else if negb (beq specification (bytes "?")) then palette_queries_loop fields' queries
      else match parse_palette_index index with
           | Some i => palette_queries_loop fields' (Palette i :: queries)
           | None => palette_queries_loop fields' queries
           end
  | _ => queries
  end.

Definition parse_palette_queries (data : list N) : list ColorQuery :=
  reverse (palette_queries_loop (split_on SEMICOLON data) []).

Definition parse_dynamic_queries (first : nat) (data : list N) : list ColorQuery :=
  omap (fun '(offset, field) =>
          if negb (beq field (bytes "?")) then None
          else match first + offset with
               | 10 => Some Foreground
               | 11 => Some Background
               | 12 => Some CursorColor
               | _ => None
               end)
    (take MAX_COLOR_QUERIES (imap pair (split_on SEMICOLON data))).

Definition sanitize_title (value : list N) : list N :=
  take 256 (filter (fun c => is_control c = false) value).

(** ** CSI parameters *)
Inductive ParameterSeparator := SepStart | Semicolon | Colon.
#[export] Instance ParameterSeparator_eq_dec : EqDecision ParameterSeparator.
Proof. solve_decision. Defined.

Record CsiParameters := mkParams {
  values : list N;
  separators : list ParameterSeparator;
  params_length : nat
}.

Definition CsiParameters_default : CsiParameters :=
  {| values := replicate MAX_CSI_PARAMETERS 0%N;
     separators := replicate MAX_CSI_PARAMETERS SepStart; params_length := 0 |}.

Definition params_is_empty (p : CsiParameters) : bool := params_length p =? 0.
(** [value] and [separator]: [None] is the [None] of the code; the arrays are
    [MAX_CSI_PARAMETERS] long, so the index is in range. *)
Definition value (p : CsiParameters) (index : nat) : option N :=
  if index <? params_length p then values p !! index else None.
Definition separator (p : CsiParameters) (index : nat) : option ParameterSeparator :=
  if index <? params_length p then separators p !! index else None.
Definition has_colon (p : CsiParameters) : bool :=
  bool_decide (Colon ∈ take (params_length p) (separators p)).

(** [begin], [append_separator] and [append_digit] return the Rust [bool] with
    the updated parameters. *)
Definition begin (p : CsiParameters) (s : ParameterSeparator) : option (bool * CsiParameters) :=
  if params_length p =? MAX_CSI_PARAMETERS then Some (false, p)
  else
    seps ← set_index (separators p) (params_length p) s;
    vals ← set_index (values p) (params_length p) 0%N;
    Some (true, mkParams vals seps (S (params_length p))).

(** [if self.length == 0 && !self.begin(Start) { return false; }]. *)
Definition ensure_begun (p : CsiParameters) : option (bool * CsiParameters) :=
  if params_length p =? 0 then begin p SepStart else Some (true, p).

Definition append_separator (p : CsiParameters) (s : ParameterSeparator)
    : option (bool * CsiParameters) :=
  '(ok, p1) ← ensure_begun p;
  if negb ok then Some (false, p1) else begin p1 s.

Definition append_digit (p : CsiParameters) (digit : N) : option (bool * CsiParameters) :=
  '(ok, p1) ← ensure_begun p;
  if negb ok then Some (false, p1)
  else
    let index := params_length p1 - 1 in
    old ← values p1 !! index;
    match v ← checked_mul u16_max old 10; checked_add u16_max v digit with
    | None => Some (false, p1)
    | Some v =>
        vals ← set_index (values p1) index v;
        Some (true, mkParams vals (separators p1) (params_length p1))
    end.

(** ** Typed operations *)
Inductive TerminalOp :=
  | Print (c : N)
  | CarriageReturn | LineFeed | Backspace | Tab
  | CursorForwardTab (p : CsiParameters) | CursorBackwardTab (p : CsiParameters)
  | Index | NextLine | ReverseIndex | SaveDec | RestoreDec | SetTabStop
  | SetApplicationKeypad (enabled : bool)
  | SetCursorStyle (p : CsiParameters)
  | CursorUp (p : CsiParameters) | CursorDown (p : CsiParameters)
  | CursorForward (p : CsiParameters) | CursorBack (p : CsiParameters)
  | CursorNextLine (p : CsiParameters) | CursorPreviousLine (p : CsiParameters)
  | CursorHorizontalAbsolute (p : CsiParameters)
  | HorizontalPositionAbsolute (p : CsiParameters)
  | CursorPosition (p : CsiParameters)
  | VerticalPositionAbsolute (p : CsiParameters)
  | EraseDisplay (p : CsiParameters) | EraseLine (p : CsiParameters)
  | EraseCharacters (p : CsiParameters)
  | InsertCharacters (p : CsiParameters) | DeleteCharacters (p : CsiParameters)
  | InsertLines (p : CsiParameters) | DeleteLines (p : CsiParameters)
  | ScrollUp (p : CsiParameters) | ScrollDown (p : CsiParameters)
  | SetScrollRegion (p : CsiParameters)
  | SaveAnsiOrSetHorizontalMargins (p : CsiParameters)
  | RestoreAnsi
  | SetGraphicsRendition (p : CsiParameters)
  | SetModes (private enabled : bool) (p : CsiParameters)
  | DeviceStatus (p : CsiParameters) | DecDeviceStatus (p : CsiParameters)
  | RepeatPrecedingCharacter (p : CsiParameters)
  | ScreenAlignmentPattern
  | DeviceAttributes (secondary : bool)
  | ClearTabStops (p : CsiParameters)
  | SetProtection (iso protected : bool)
  | SelectiveEraseDisplay (p : CsiParameters) | SelectiveEraseLine (p : CsiParameters)
  | CopyRectangle (p : CsiParameters) | FillRectangle (p : CsiParameters)
  | EraseRectangle (p : CsiParameters) (selective : bool)
  | InsertColumns (p : CsiParameters) | DeleteColumns (p : CsiParameters)
  | BackIndex | ForwardIndex
  | RequestMode (private : bool) (p : CsiParameters)
  | SoftReset
  | RequestRectangleChecksum (p : CsiParameters)
  | WindowOperation (p : CsiParameters)
  | Ignored.

(** ** Parser state *)
Inductive StringKind := Osc | Dcs | Other.
Inductive CharsetSlot := G0 | G1.
Inductive Charset := Ascii | DecSpecialGraphics.

Inductive ParserState :=
  | Ground
  | Escape
  | EscapeIntermediate (intermediate : N)
  | CharsetDesignate (slot : CharsetSlot)
  | CsiEntry
  | CsiParam
  | CsiIntermediate
  | CsiIgnore
  | StringState (kind : StringKind) (count : nat)
  | StringEscape (kind : StringKind) (count : nat).

Record Parser := mkParser {
  state : ParserState;
  parameters : CsiParameters;
  parameter_digits : N;
  private : bool;
  secondary : bool;
  intermediates : list N;
  intermediate_length : nat;
  string_payload : list N;
  osc_action : option OscAction;
  dcs_action : option DcsAction;
  g0_charset : Charset;
  g1_charset : Charset;
  shifted_to_g1 : bool
}.
#[export] Instance set_state : Setter state := fun v r => mkParser v (parameters r) (parameter_digits r) (private r) (secondary r) (intermediates r) (intermediate_length r) (string_payload r) (osc_action r) (dcs_action r) (g0_charset r) (g1_charset r) (shifted_to_g1 r).
#[export] Instance set_parameters : Setter parameters := fun v r => mkParser (state r) v (parameter_digits r) (private r) (secondary r) (intermediates r) (intermediate_length r) (string_payload r) (osc_action r) (dcs_action r) (g0_charset r) (g1_charset r) (shifted_to_g1 r).
#[export] Instance set_parameter_digits : Setter parameter_digits := fun v r => mkParser (state r) (parameters r) v (private r) (secondary r) (intermediates r) (intermediate_length r) (string_payload r) (osc_action r) (dcs_action r) (g0_charset r) (g1_charset r) (shifted_to_g1 r).
#[export] Instance set_private : Setter private := fun v r => mkParser (state r) (parameters r) (parameter_digits r) v (secondary r) (intermediates r) (intermediate_length r) (string_payload r) (osc_action r) (dcs_action r) (g0_charset r) (g1_charset r) (shifted_to_g1 r).
#[export] Instance set_secondary : Setter secondary := fun v r => mkParser (state r) (parameters r) (parameter_digits r) (private r) v (intermediates r) (intermediate_length r) (string_payload r) (osc_action r) (dcs_action r) (g0_charset r) (g1_charset r) (shifted_to_g1 r).
#[export] Instance set_intermediates : Setter intermediates := fun v r => mkParser (state r) (parameters r) (parameter_digits r) (private r) (secondary r) v (intermediate_length r) (string_payload r) (osc_action r) (dcs_action r) (g0_charset r) (g1_charset r) (shifted_to_g1 r).
#[export] Instance set_intermediate_length : Setter intermediate_length := fun v r => mkParser (state r) (parameters r) (parameter_digits r) (private r) (secondary r) (intermediates r) v (string_payload r) (osc_action r) (dcs_action r) (g0_charset r) (g1_charset r) (shifted_to_g1 r).
#[export] Instance set_string_payload : Setter string_payload := fun v r => mkParser (state r) (parameters r) (parameter_digits r) (private r) (secondary r) (intermediates r) (intermediate_length r) v (osc_action r) (dcs_action r) (g0_charset r) (g1_charset r) (shifted_to_g1 r).
#[export] Instance set_osc_action : Setter osc_action := fun v r => mkParser (state r) (parameters r) (parameter_digits r) (private r) (secondary r) (intermediates r) (intermediate_length r) (string_payload r) v (dcs_action r) (g0_charset r) (g1_charset r) (shifted_to_g1 r).
#[export] Instance set_dcs_action : Setter dcs_action := fun v r => mkParser (state r) (parameters r) (parameter_digits r) (private r) (secondary r) (intermediates r) (intermediate_length r) (string_payload r) (osc_action r) v (g0_charset r) (g1_charset r) (shifted_to_g1 r).
#[export] Instance set_g0_charset : Setter g0_charset := fun v r => mkParser (state r) (parameters r) (parameter_digits r) (private r) (secondary r) (intermediates r) (intermediate_length r) (string_payload r) (osc_action r) (dcs_action r) v (g1_charset r) (shifted_to_g1 r).
#[export] Instance set_g1_charset : Setter g1_charset := fun v r => mkParser (state r) (parameters r) (parameter_digits r) (private r) (secondary r) (intermediates r) (intermediate_length r) (string_payload r) (osc_action r) (dcs_action r) (g0_charset r) v (shifted_to_g1 r).
#[export] Instance set_shifted_to_g1 : Setter shifted_to_g1 := fun v r => mkParser (state r) (parameters r) (parameter_digits r) (private r) (secondary r) (intermediates r) (intermediate_length r) (string_payload r) (osc_action r) (dcs_action r) (g0_charset r) (g1_charset r) v.

Definition Parser_new : Parser :=
  {| state := Ground; parameters := CsiParameters_default; parameter_digits := 0;
     private := false; secondary := false;
     intermediates := replicate MAX_CSI_INTERMEDIATES 0%N; intermediate_length := 0;
     string_payload := []; osc_action := None; dcs_action := None;
     g0_charset := Ascii; g1_charset := Ascii; shifted_to_g1 := false |}.

Definition is_ground (p : Parser) : bool :=
  match state p with Ground => true | _ => false end.

Definition dec_special_graphics (byte : N) : N :=
  switch byte
    [([96], 9670); ([97], 9618); ([98], 9225); ([99], 9228); ([100], 9229); ([101], 9226);
     ([102], 176); ([103], 177); ([104], 9252); ([105], 9227); ([106], 9496); ([107], 9488);
     ([108], 9484); ([109], 9492); ([110], 9532); ([111], 9146); ([112], 9147); ([113], 9472);
     ([114], 9148); ([115], 9149); ([116], 9500); ([117], 9508); ([118], 9524); ([119], 9516);
     ([120], 9474); ([121], 8804); ([122], 8805); ([123], 960); ([124], 8800); ([125], 163);
     ([126], 183)]%N byte.

Definition c0_operation (byte : N) : option TerminalOp :=
  switch byte
    [([13], Some CarriageReturn); ([10], Some LineFeed); ([8], Some Backspace);
     ([9], Some Tab); ([11; 12], Some LineFeed)]%N None.

Definition translate_printable (p : Parser) (byte : N) : N :=
  match if shifted_to_g1 p then g1_charset p else g0_charset p with
  | Ascii => byte
  | DecSpecialGraphics => dec_special_graphics byte
  end.

Definition designate_charset (p : Parser) (slot : CharsetSlot) (byte : N) : Parser :=
  let charset := if (byte =? 48)%N then DecSpecialGraphics else Ascii in
  match slot with
  | G0 => p <| g0_charset := charset |>
  | G1 => p <| g1_charset := charset |>
  end.

Definition clear_csi (p : Parser) : Parser :=
  p <| parameters := CsiParameters_default |> <| parameter_digits := 0%N |>
    <| private := false |> <| secondary := false |> <| intermediate_length := 0 |>.

(** [start_string] clears the payload and names the string state. *)
Definition start_string (p : Parser) (kind : StringKind) : Parser :=
  p <| string_payload := [] |> <| state := StringState kind 0 |>.

Definition ignore_csi (p : Parser) : TerminalOp * Parser :=
  (Ignored, clear_csi (p <| state := CsiIgnore |>)).

Definition append_csi_digit (p : Parser) (byte : N) : option (TerminalOp * Parser) :=
  let p1 := p <| parameter_digits := N.min 255 (parameter_digits p + 1) |> in
  if (5 <? parameter_digits p1)%N then Some (ignore_csi p1)
  else
    '(ok, ps) ← append_digit (parameters p1) (byte - 48);
    let p2 := p1 <| parameters := ps |> in
    if negb ok then Some (ignore_csi p2) else Some (Ignored, p2 <| state := CsiParam |>).

Definition append_csi_separator (p : Parser) (s : ParameterSeparator)
    : option (TerminalOp * Parser) :=
  '(ok, ps) ← append_separator (parameters p) s;
  let p1 := p <| parameters := ps |> in
  if negb ok then Some (ignore_csi p1)
  else Some (Ignored, p1 <| parameter_digits := 0%N |> <| state := CsiParam |>).

Definition append_csi_intermediate (p : Parser) (byte : N) : option (TerminalOp * Parser) :=
  if intermediate_length p =? MAX_CSI_INTERMEDIATES then Some (ignore_csi p)
  else
    ims ← set_index (intermediates p) (intermediate_length p) byte;
    Some (Ignored, p <| intermediates := ims |>
                     <| intermediate_length := S (intermediate_length p) |>
                     <| state := CsiIntermediate |>).

(** The operation a complete CSI sequence with intermediates names. *)
Definition csi_intermediate_op (private : bool) (len : nat) (first final : N)
    (ps : CsiParameters) : TerminalOp :=
  if negb (len =? 1) then Ignored
  else if (first =? 36)%N && (final =? 112)%N then RequestMode private ps
  else if private then Ignored
  else if (first =? 32)%N && (final =? 113)%N then
    if has_colon ps then Ignored else SetCursorStyle ps
  else if (first =? 33)%N && (final =? 112)%N then SoftReset
  else if (first =? 42)%N && (final =? 121)%N then RequestRectangleChecksum ps
  else if (first =? 34)%N && (final =? 113)%N then
    SetProtection false (bool_decide (value ps 0 = Some 1%N))
  else if (first =? 36)%N && (final =? 118)%N then CopyRectangle ps
  else if (first =? 36)%N && (final =? 120)%N then FillRectangle ps
  else if (first =? 36)%N && (final =? 122)%N then EraseRectangle ps false
  else if (first =? 36)%N && (final =? 123)%N then EraseRectangle ps true
  else if (first =? 39)%N && (final =? 125)%N then InsertColumns ps
  else if (first =? 39)%N && (final =? 126)%N then DeleteColumns ps
  else Ignored.

(** The operation a complete CSI sequence without intermediates names. *)
Definition csi_plain_op (private secondary : bool) (final : N) (ps : CsiParameters)
    : TerminalOp :=
  if has_colon ps && negb (final =? 109)%N then Ignored
  else if private then
    switch final
      [([104], SetModes true true ps); ([108], SetModes true false ps);
       ([74], SelectiveEraseDisplay ps); ([75], SelectiveEraseLine ps);
       ([110], DecDeviceStatus ps)]%N Ignored
  else if secondary then
    if (final =? 99)%N then DeviceAttributes true else Ignored
  else
    switch final
      [([65], CursorUp ps); ([66], CursorDown ps); ([67], CursorForward ps);
       ([68], CursorBack ps); ([69], CursorNextLine ps); ([70], CursorPreviousLine ps);
       ([71], CursorHorizontalAbsolute ps); ([96], HorizontalPositionAbsolute ps);
       ([97], CursorForward ps); ([101], CursorDown ps);
       ([73], CursorForwardTab ps); ([90], CursorBackwardTab ps);
       ([72; 102], CursorPosition ps); ([74], EraseDisplay ps); ([75], EraseLine ps);
       ([76], InsertLines ps); ([77], DeleteLines ps); ([80], DeleteCharacters ps);
       ([83], ScrollUp ps); ([84], ScrollDown ps); ([88], EraseCharacters ps);
       ([64], InsertCharacters ps); ([100], VerticalPositionAbsolute ps);
       ([109], SetGraphicsRendition ps); ([110], DeviceStatus ps);
       ([98], RepeatPrecedingCharacter ps); ([99], DeviceAttributes false);
       ([103], ClearTabStops ps); ([116], WindowOperation ps); ([114], SetScrollRegion ps);
       ([115], SaveAnsiOrSetHorizontalMargins ps);
       ([117], if params_is_empty ps then RestoreAnsi else Ignored);
       ([104], SetModes false true ps); ([108], SetModes false false ps)]%N Ignored.

Definition complete_csi (p : Parser) (final_byte : N) : option (TerminalOp * Parser) :=
  let p' := clear_csi (p <| state := Ground |>) in
  if negb (intermediate_length p =? 0) then
    first ← intermediates p !! 0;
    Some (csi_intermediate_op (private p) (intermediate_length p) first final_byte
            (parameters p), p')
  else Some (csi_plain_op (private p) (secondary p) final_byte (parameters p), p').

Definition advance_escape (p : Parser) (byte : N) : TerminalOp * Parser :=
  let p' :=
    if (byte =? 91)%N then (clear_csi p) <| state := CsiEntry |>
    else if (byte =? 93)%N then start_string p Osc
    else if (byte =? 80)%N then start_string p Dcs
    else if existsb (N.eqb byte) [88; 94; 95]%N then start_string p Other
    else if (byte =? 40)%N then p <| state := CharsetDesignate G0 |>
    else if (byte =? 41)%N then p <| state := CharsetDesignate G1 |>
    else if in_range 32 47 byte then p <| state := EscapeIntermediate byte |>
    else p <| state := Ground |> in
  (switch byte
     [([68], Index); ([69], NextLine); ([77], ReverseIndex); ([55], SaveDec);
      ([56], RestoreDec); ([72], SetTabStop); ([54], BackIndex); ([57], ForwardIndex);
      ([86], SetProtection true true); ([87], SetProtection true false);
      ([61], SetApplicationKeypad true); ([62], SetApplicationKeypad false)]%N Ignored, p').

(** The arms [advance_csi_entry], [advance_csi_param] share. *)
Definition advance_csi_param (p : Parser) (byte : N) : option (TerminalOp * Parser) :=
  if in_range 48 57 byte then append_csi_digit p byte
  else if (byte =? 59)%N then append_csi_separator p Semicolon
  else if (byte =? 58)%N then append_csi_separator p Colon
  else if in_range 32 47 byte then append_csi_intermediate p byte
  else if in_range 64 126 byte then complete_csi p byte
  else Some (ignore_csi p).

Definition advance_csi_entry (p : Parser) (byte : N) : option (TerminalOp * Parser) :=
  let fresh := negb (private p) && negb (secondary p) && params_is_empty (parameters p) in
  if (byte =? 63)%N && fresh then Some (Ignored, p <| private := true |>)
  else if (byte =? 62)%N && fresh then Some (Ignored, p <| secondary := true |>)
  else advance_csi_param p byte.

Definition advance_csi_intermediate (p : Parser) (byte : N) : option (TerminalOp * Parser) :=
  if in_range 32 47 byte then append_csi_intermediate p byte
  else if in_range 64 126 byte then complete_csi p byte
  else Some (ignore_csi p).

(** One payload byte; the count cannot overflow [usize], because the string
    ends at [MAX_STRING_BYTES]. *)
Definition advance_string_payload (p : Parser) (kind : StringKind) (count : nat) (byte : N)
    : Parser :=
  let count' := S count in
  let p1 := match kind with
            | Other => p
            | _ => p <| string_payload := string_payload p ++ [byte] |>
            end in
  p1 <| state := if MAX_STRING_BYTES <=? count' then Ground else StringState kind count' |>.

Definition abandon_string (p : Parser) : Parser :=
  clear_csi (p <| string_payload := [] |> <| state := Escape |>).

Section WithPlatform.
Context `{P : Platform}.

Definition parse_osc8 (data : list N) : option (option (list N)) :=
  '(_, uri) ← split_once SEMICOLON data;
  if beq uri [] then Some None
  else match from_utf8 uri with
       | None => Some None
       | Some uri => Some (normalize_terminal_hyperlink uri)
       end.

Definition parse_osc (payload : list N) (t : StringTerminator) : option OscAction :=
  '(command, data) ← split_once SEMICOLON payload;
  if beq command (bytes "0") || beq command (bytes "2") then
    s ← from_utf8 data; Some (SetTitle (sanitize_title s))
  else if beq command (bytes "4") then color_action (parse_palette_queries data) t
  else if beq command (bytes "10") then color_action (parse_dynamic_queries 10 data) t
  else if beq command (bytes "11") then color_action (parse_dynamic_queries 11 data) t
  else if beq command (bytes "12") then color_action (parse_dynamic_queries 12 data) t
  else if beq command (bytes "8") then h ← parse_osc8 data; Some (SetHyperlink h)
  else None.

Definition finish_string (p : Parser) (kind : StringKind) (t : StringTerminator)
    : TerminalOp * Parser :=
  (Ignored,
   match kind with
   | Osc => p <| osc_action := parse_osc (string_payload p) t |> <| string_payload := [] |>
   | Dcs => p <| dcs_action := parse_dcs (string_payload p) |> <| string_payload := [] |>
   | Other => p <| string_payload := [] |>
   end).

Definition advance_string (p : Parser) (byte : N) : option (TerminalOp * Parser) :=
  match state p with
  | StringState kind count =>
      match kind, (byte =? 7)%N with
      | Osc, true => Some (finish_string (p <| state := Ground |>) kind Bell)
      | _, _ =>
          if (byte =? 27)%N then Some (Ignored, p <| state := StringEscape kind count |>)
          else Some (Ignored, advance_string_payload p kind count byte)
      end
  | StringEscape kind _ =>
      if (byte =? 92)%N then Some (finish_string (p <| state := Ground |>) kind StringEnd)
      else
        let p1 := abandon_string p in
        if (byte =? 27)%N then Some (Ignored, p1) else Some (advance_escape p1 byte)
  | _ => None
  end.

(** [Parser::advance]. *)
Definition advance (p : Parser) (byte : N) : option (TerminalOp * Parser) :=
  if (byte =? 24)%N || (byte =? 26)%N then
    Some (Ignored, clear_csi (p <| state := Ground |>))
  else
    match state p with
    | StringState _ _ | StringEscape _ _ =>
        match c0_operation byte with
        | Some op => Some (op, p)
        | None => advance_string p byte
        end
    | _ =>
        if (byte =? 27)%N then Some (Ignored, clear_csi (p <| state := Escape |>))
        else if (byte =? 14)%N then Some (Ignored, p <| shifted_to_g1 := true |>)
        else if (byte =? 15)%N then Some (Ignored, p <| shifted_to_g1 := false |>)
        else
          match c0_operation byte with
          | Some op => Some (op, p)
          | None =>
              match state p with
              | Ground =>
                  Some (if in_range 32 126 byte then Print (translate_printable p byte)
                        else Ignored, p)
              | Escape => Some (advance_escape p byte)
              | EscapeIntermediate intermediate =>
                  Some (if (intermediate =? 35)%N && (byte =? 56)%N
                        then ScreenAlignmentPattern else Ignored, p <| state := Ground |>)
              | CharsetDesignate slot =>
                  Some (Ignored, designate_charset (p <| state := Ground |>) slot byte)
              | CsiEntry => advance_csi_entry p byte
              | CsiParam => advance_csi_param p byte
              | CsiIntermediate => advance_csi_intermediate p byte
              | CsiIgnore =>
                  Some (Ignored, if in_range 64 126 byte
                                 then clear_csi (p <| state := Ground |>) else p)
              | StringState _ _ | StringEscape _ _ => None
              end
          end
    end.
End WithPlatform.

(** [take_osc_action] and [take_dcs_action]. *)
Definition take_osc_action (p : Parser) : option OscAction * Parser :=
  (osc_action p, p <| osc_action := None |>).
Definition take_dcs_action (p : Parser) : option DcsAction * Parser :=
  (dcs_action p, p <| dcs_action := None |>).

(** [Parser::validate_recovery_state]; [true] is [Ok]. *)
Definition validate_parser (p : Parser) : bool :=
  (params_length (parameters p) <=? MAX_CSI_PARAMETERS)
  && (parameter_digits p <=? 5)%N
  && (intermediate_length p <=? MAX_CSI_INTERMEDIATES)
  && (length (string_payload p) <=? MAX_STRING_BYTES)
  && match state p with
     | StringState _ n | StringEscape _ n =>
         (n <=? MAX_STRING_BYTES) && (length (string_payload p) <=? n)
     | _ => true
     end.

(** ** The invariant: every buffer stays within its bound *)
Definition params_ok (p : CsiParameters) : Prop :=
  length (values p) = MAX_CSI_PARAMETERS /\ length (separators p) = MAX_CSI_PARAMETERS /\
  params_length p <= MAX_CSI_PARAMETERS /\ Forall (fun v => (v <= u16_max)%N) (values p).

Definition string_ok (s : ParserState) (payload : nat) : Prop :=
  match s with
  | StringState _ n | StringEscape _ n => n < MAX_STRING_BYTES /\ payload <= n
  | _ => True
  end.

Record parser_ok (p : Parser) : Prop := mk_parser_ok {
  ok_params : params_ok (parameters p);
  ok_digits : (parameter_digits p <= 5)%N;
  ok_intermediates : length (intermediates p) = MAX_CSI_INTERMEDIATES;
  ok_intermediate_length : intermediate_length p <= MAX_CSI_INTERMEDIATES;
  ok_payload : length (string_payload p) <= MAX_STRING_BYTES;
  ok_string : string_ok (state p) (length (string_payload p))
}.

Lemma params_ok_default : params_ok CsiParameters_default.
Proof.
  unfold params_ok. simpl. split_and!; try done; [lia|]. repeat constructor; unfold u16_max; lia.
Qed.

Lemma parser_ok_new : parser_ok Parser_new.
Proof. split; try done; simpl; [apply params_ok_default|lia..]. Qed.

Lemma begin_ok p s :
  params_ok p -> exists ok p', begin p s = Some (ok, p') /\ params_ok p' /\
    (ok = true -> 1 <= params_length p') /\ (params_length p < MAX_CSI_PARAMETERS -> ok = true).
Proof.
  intros (Hv & Hs & Hl & Hf). unfold begin. destruct (_ =? _) eqn:E; bools.
  - eexists _, _. split; [done|]. split_and!; [done|done|lia].
  - rewrite !set_index_Some by lia. simpl. eexists _, _. split; [done|]. simpl.
    split_and!; [|lia|done].
    split_and!; simpl; rewrite ?length_insert; try done; [lia|].
    apply Forall_insert; [done|]. unfold u16_max. lia.
Qed.

Lemma ensure_begun_ok p :
  params_ok p -> exists p', ensure_begun p = Some (true, p') /\ params_ok p' /\ 1 <= params_length p'.
Proof.
  intros Hp. unfold ensure_begun. destruct (_ =? 0) eqn:E; bools.
  - destruct (begin_ok p SepStart Hp) as (ok & p' & -> & Hp' & H1 & H2).
    rewrite H2 in * by (unfold MAX_CSI_PARAMETERS; lia). eauto.
  - eexists. split; [done|]. split; [done|lia].
Qed.

Lemma append_digit_ok p d :
  params_ok p -> (d <= 9)%N -> exists ok p', append_digit p d = Some (ok, p') /\ params_ok p'.
Proof.
  intros Hp Hd. unfold append_digit. destruct (ensure_begun_ok p Hp) as (p1 & -> & Hp1 & Hl). simpl.
  destruct Hp1 as (Hv & Hs & Hle & Hf).
  destruct (lookup_lt_is_Some_2 (values p1) (params_length p1 - 1)) as [old Hold]; [lia|].
  rewrite Hold. simpl. unfold checked_mul, checked_add.
  destruct (old * 10 <=? u16_max)%N; simpl; [|by eexists _, _].
  destruct (old * 10 + d <=? u16_max)%N eqn:E; [|by eexists _, _].
  rewrite set_index_Some by lia. simpl. eexists _, _. split; [done|].
  split_and!; simpl; rewrite ?length_insert; try done. apply Forall_insert; [done|]. lia.
Qed.

Lemma append_separator_ok p s :
  params_ok p -> exists ok p', append_separator p s = Some (ok, p') /\ params_ok p'.
Proof.
  intros Hp. unfold append_separator. destruct (ensure_begun_ok p Hp) as (p1 & -> & Hp1 & _). simpl.
  destruct (begin_ok p1 s Hp1) as (ok & p' & -> & Hp' & _). eauto.
Qed.

(** Leaving the CSI states resets everything a sequence accumulates. *)
Lemma clear_csi_ok p s :
  parser_ok p -> string_ok s (length (string_payload p)) -> parser_ok (clear_csi (p <| state := s |>)).
Proof. intros [] Hs. split; simpl; try done; [apply params_ok_default|lia..]. Qed.

Lemma set_state_ok p s :
  parser_ok p -> string_ok s (length (string_payload p)) -> parser_ok (p <| state := s |>).
Proof. intros [] Hs. by split. Qed.

#[export] Hint Resolve clear_csi_ok set_state_ok params_ok_default : festerm.

(** A parser step that returns and keeps the invariant. *)
Definition step_ok (r : option (TerminalOp * Parser)) : Prop :=
  exists op p', r = Some (op, p') /\ parser_ok p'.

Lemma step_ok_ret op p : parser_ok p -> step_ok (Some (op, p)).
Proof. intros. by eexists _, _. Qed.

Lemma ignore_csi_ok p : parser_ok (p <| parameter_digits := 0%N |>) -> step_ok (Some (ignore_csi p)).
Proof.
  intros []. apply step_ok_ret. split; simpl in *; try done; [apply params_ok_default|lia..].
Qed.

#[export] Hint Resolve step_ok_ret : festerm.

Lemma append_csi_digit_ok p b :
  parser_ok p -> in_range 48 57 b = true -> step_ok (append_csi_digit p b).
Proof.
  intros Hp Hb. unfold append_csi_digit. cbv zeta.
  destruct (5 <? _)%N eqn:E; [apply ignore_csi_ok; destruct Hp; split; simpl in *; done || lia|].
  unfold in_range in Hb.
  destruct (append_digit_ok (parameters p) (b - 48)) as (ok & ps & Ha & Hps);
    [apply Hp|lia|]. simpl in *. rewrite Ha. simpl. destruct Hp.
  destruct ok; simpl; [apply step_ok_ret|apply ignore_csi_ok]; split; simpl in *; done || lia.
Qed.

Lemma append_csi_separator_ok p s : parser_ok p -> step_ok (append_csi_separator p s).
Proof.
  intros Hp. unfold append_csi_separator.
  destruct (append_separator_ok (parameters p) s) as (ok & ps & -> & Hps); [apply Hp|]. simpl.
  destruct Hp. destruct ok; simpl; [apply step_ok_ret|apply ignore_csi_ok];
    split; simpl in *; done || lia.
Qed.

Lemma append_csi_intermediate_ok p b : parser_ok p -> step_ok (append_csi_intermediate p b).
Proof.
  intros []. unfold append_csi_intermediate. destruct (_ =? _) eqn:E; bools.
  - apply ignore_csi_ok. split; simpl; done || lia.
  - rewrite set_index_Some by lia. simpl. apply step_ok_ret.
    split; simpl; rewrite ?length_insert; done || lia.
Qed.

Lemma complete_csi_ok p b : parser_ok p -> step_ok (complete_csi p b).
Proof.
  intros Hp. unfold complete_csi. destruct (negb _) eqn:E; [|by apply step_ok_ret, clear_csi_ok].
  destruct (lookup_lt_is_Some_2 (intermediates p) 0) as [x ->].
  { rewrite (ok_intermediates _ Hp). unfold MAX_CSI_INTERMEDIATES. lia. }
  simpl. by apply step_ok_ret, clear_csi_ok.
Qed.

#[export] Hint Resolve append_csi_digit_ok append_csi_separator_ok append_csi_intermediate_ok
  complete_csi_ok ignore_csi_ok : festerm.

Lemma drop_digits_ok p : parser_ok p -> parser_ok (p <| parameter_digits := 0%N |>).
Proof. intros []. split; simpl; done || lia. Qed.
#[export] Hint Resolve drop_digits_ok : festerm.

Lemma advance_csi_param_ok p b : parser_ok p -> step_ok (advance_csi_param p b).
Proof. intros. unfold advance_csi_param. destruct_ifs; auto with festerm. Qed.

Lemma advance_csi_entry_ok p b : parser_ok p -> step_ok (advance_csi_entry p b).
Proof.
  intros Hp. unfold advance_csi_entry. cbv zeta.
  destruct_ifs; [apply step_ok_ret; by destruct Hp..|by apply advance_csi_param_ok].
Qed.

Lemma advance_csi_intermediate_ok p b : parser_ok p -> step_ok (advance_csi_intermediate p b).
Proof. intros. unfold advance_csi_intermediate. destruct_ifs; auto with festerm. Qed.

Lemma start_string_ok p k : parser_ok p -> parser_ok (start_string p k).
Proof. intros []. split; simpl; try done; unfold MAX_STRING_BYTES; lia. Qed.

Lemma advance_escape_ok p b : parser_ok p -> step_ok (Some (advance_escape p b)).
Proof.
  intros Hp. apply step_ok_ret. destruct_ifs; auto using start_string_ok with festerm;
    destruct Hp; split; simpl; try done; apply params_ok_default || lia.
Qed.

Lemma designate_charset_ok p slot b : parser_ok p -> parser_ok (designate_charset p slot b).
Proof. intros []. by destruct slot. Qed.

Section WithPlatformLemmas.
Context `{P : Platform}.

Lemma finish_string_ok p k t :
  parser_ok p -> state p = Ground -> step_ok (Some (finish_string p k t)).
Proof.
  intros [] Hs. apply step_ok_ret. destruct k; split; simpl; rewrite ?Hs; done || lia.
Qed.

Lemma advance_string_ok p b :
  parser_ok p -> (exists k n, state p = StringState k n \/ state p = StringEscape k n) ->
  step_ok (advance_string p b).
Proof.
  intros Hp (k & n & Hs). pose proof (ok_string p Hp) as Hstr.
  unfold advance_string. destruct Hs as [Hs|Hs]; rewrite Hs in *; simpl in Hstr.
  - assert (step_ok (Some (finish_string (p <| state := Ground |>) k Bell))) as Hf
      by (apply finish_string_ok; [by apply set_state_ok|done]).
    assert (step_ok (Some (Ignored, p <| state := StringEscape k n |>))) as He
      by by apply step_ok_ret, set_state_ok.
    assert (step_ok (Some (Ignored, advance_string_payload p k n b))) as Hl.
    { apply step_ok_ret. destruct Hp. unfold advance_string_payload. cbv zeta.
      destruct (_ <=? _) eqn:E; bools; destruct k; split; simpl; rewrite ?length_app; simpl; done || lia. }
    destruct k, (b =? 7)%N, (b =? 27)%N; done.
  - destruct (b =? 92)%N; [apply finish_string_ok; [by apply set_state_ok|done]|].
    assert (parser_ok (abandon_string p)).
    { apply (clear_csi_ok (p <| string_payload := [] |>)); [|done].
      destruct Hp. split; simpl; rewrite ?Hs; simpl; done || lia. }
    destruct (b =? 27)%N; [by apply step_ok_ret|by apply advance_escape_ok].
Qed.

Lemma advance_ok p b : parser_ok p -> step_ok (advance p b).
Proof.
  intros Hp. unfold advance. destruct (_ || _); [by apply step_ok_ret, clear_csi_ok|].
  destruct (state p) eqn:Hs;
    try (destruct (c0_operation b); [by apply step_ok_ret|apply advance_string_ok; eauto]);
    (destruct (b =? 27)%N; [by apply step_ok_ret, clear_csi_ok|]);
    (destruct (b =? 14)%N; [by apply step_ok_ret; destruct Hp|]);
    (destruct (b =? 15)%N; [by apply step_ok_ret; destruct Hp|]);
    (destruct (c0_operation b); [by apply step_ok_ret|]).
  - by apply step_ok_ret.
  - by apply advance_escape_ok.
  - by apply step_ok_ret, set_state_ok.
  - by apply step_ok_ret, designate_charset_ok, set_state_ok.
  - by apply advance_csi_entry_ok.
  - by apply advance_csi_param_ok.
  - by apply advance_csi_intermediate_ok.
  - apply step_ok_ret. destruct_ifs; [by apply clear_csi_ok|done].
Qed.

Lemma validate_parser_ok p : parser_ok p -> validate_parser p = true.
Proof.
  intros [(_ & _ & Hl & _) ? ? ? ? Hs]. unfold validate_parser. rewrite !andb_true_iff.
  split_and!; try (apply Nat.leb_le; lia); [lia|].
  destruct (state p); try done; simpl in Hs; apply andb_true_iff; split; apply Nat.leb_le; lia.
Qed.

(** Running the parser over a byte string. *)
Fixpoint run_parser (p : Parser) (bs : list N) : option (list TerminalOp * Parser) :=
  match bs with
  | [] => Some ([], p)
  | b :: bs' =>
      '(op, p1) ← advance p b;
      '(ops, p2) ← run_parser p1 bs';
      Some (op :: ops, p2)
  end.

(** C37: the parser is total and bounded: over any byte string it returns one
    operation per byte, never panics, and ends in a state within all of its
    bounds, one that the recovery validator accepts. *)
Theorem parser_never_panics bs :
  exists ops p', run_parser Parser_new bs = Some (ops, p') /\ length ops = length bs /\
    parser_ok p' /\ validate_parser p' = true.
Proof.
  assert (forall p, parser_ok p -> exists ops p', run_parser p bs = Some (ops, p') /\
    length ops = length bs /\ parser_ok p') as H.
  { induction bs as [|b bs IH]; intros p Hp; simpl; [by eauto|].
    destruct (advance_ok p b Hp) as (op & p1 & -> & Hp1). simpl.
    destruct (IH p1 Hp1) as (ops & p2 & -> & Hl & Hp2). simpl. eexists _, _.
    split; [done|]. simpl. auto. }
  destruct (H _ parser_ok_new) as (ops & p' & ? & ? & ?).
  exists ops, p'. auto using validate_parser_ok.
Qed.
End WithPlatformLemmas.

(** ** Printing and parsing CSI sequences *)

(** The parameters a sequence has accumulated, with their separators. *)
Definition params_view (p : CsiParameters) : list (ParameterSeparator * N) :=
  zip (take (params_length p) (separators p)) (take (params_length p) (values p)).

(** Parameters as a program writes them; [None] is an omitted value. *)
Definition separator_bytes (s : ParameterSeparator) : list N :=
  match s with SepStart => [] | Semicolon => [59%N] | Colon => [58%N] end.
Definition item_bytes (it : ParameterSeparator * option N) : list N :=
  separator_bytes it.1 ++ match it.2 with Some v => decimal v | None => [] end.
Definition item_value (it : ParameterSeparator * option N) : ParameterSeparator * N :=
  (it.1, default 0%N it.2).

Lemma params_view_length p : params_ok p -> length (params_view p) = params_length p.
Proof.
  intros (Hv & Hs & Hl & _). unfold params_view. rewrite length_zip, !length_take. lia.
Qed.

Lemma params_view_lookup p i :
  params_ok p -> params_view p !! i = (s ← separator p i; v ← value p i; Some (s, v)).
Proof.
  intros (Hv & Hs & Hl & _). unfold params_view, separator, value.
  destruct (i <? params_length p) eqn:E; bools.
  - destruct (lookup_lt_is_Some_2 (separators p) i) as [x Hx]; [lia|].
    destruct (lookup_lt_is_Some_2 (values p) i) as [y Hy]; [lia|].
    rewrite Hx, Hy. simpl. apply lookup_zip_with_Some. exists x, y.
    by rewrite !lookup_take_lt.
  - apply lookup_ge_None. rewrite length_zip, !length_take. lia.
Qed.

Lemma begin_view p s :
  params_ok p -> params_length p < MAX_CSI_PARAMETERS ->
  exists p', begin p s = Some (true, p') /\ params_ok p' /\ params_view p' = params_view p ++ [(s, 0%N)].
Proof.
  intros Hp Hl. destruct (begin_ok p s Hp) as (ok & p' & Hb & Hp' & _ & Hok).
  rewrite (Hok Hl) in Hb. exists p'. split; [done|]. split; [done|].
  destruct Hp as (Hv & Hs & _ & _). revert Hb. unfold begin.
  destruct (_ =? _) eqn:E; bools; [lia|]. rewrite !set_index_Some by lia. intros [= <-].
  unfold params_view. simpl.
  erewrite !take_S_r by (apply list_lookup_insert_eq; lia). rewrite !take_insert_ge by lia.
  rewrite zip_with_app by (rewrite !length_take; lia). done.
Qed.

(** The parameters before a value is written: begun with a zero. *)
Lemma ensure_begun_view p :
  params_ok p ->
  exists p', ensure_begun p = Some (true, p') /\ params_ok p' /\ 1 <= params_length p' /\
    params_view p' = if params_length p =? 0 then [(SepStart, 0%N)] else params_view p.
Proof.
  intros Hp. unfold ensure_begun. destruct (params_length p =? 0) eqn:E; bools.
  - destruct (begin_view p SepStart) as (p' & -> & Hp' & Hview); [done|unfold MAX_CSI_PARAMETERS; lia|].
    exists p'. split_and!; try done.
    + rewrite <- params_view_length, Hview, length_app by done. simpl. lia.
    + rewrite Hview. unfold params_view. by rewrite E.
  - exists p. split_and!; try done. lia.
Qed.

Lemma append_digit_view p pre s v d :
  params_ok p ->
  (if params_length p =? 0 then [(SepStart, 0%N)] else params_view p) = pre ++ [(s, v)] ->
  (v * 10 + d <= u16_max)%N ->
  exists p', append_digit p d = Some (true, p') /\ params_ok p' /\
    params_view p' = pre ++ [(s, v * 10 + d)%N].
Proof.
  intros Hp Hpre Hv. unfold append_digit.
  destruct (ensure_begun_view p Hp) as (p1 & -> & Hp1 & Hl1 & Hview). simpl.
  rewrite Hpre in Hview. clear Hpre.
  pose proof (params_view_length p1 Hp1) as Hlen. rewrite Hview, length_app in Hlen. simpl in Hlen.
  destruct Hp1 as (Hlv & Hls & Hle & Hf).
  assert (values p1 !! (params_length p1 - 1) = Some v /\ separators p1 !! (params_length p1 - 1) = Some s) as [Hlv' Hls'].
  { assert (params_view p1 !! (params_length p1 - 1) = Some (s, v)) as Hlk.
    { rewrite Hview, lookup_app_r by lia. by replace (_ - _ - _) with 0 by lia. }
    unfold params_view in Hlk. apply lookup_zip_with_Some in Hlk as (a & b & [= -> ->] & Ha & Hb).
    rewrite lookup_take_lt in Ha by lia. rewrite lookup_take_lt in Hb by lia. done. }
  rewrite Hlv'. simpl. unfold checked_mul, checked_add.
  destruct (v * 10 <=? u16_max)%N eqn:E1; [|lia]. simpl.
  destruct (v * 10 + d <=? u16_max)%N eqn:E2; [|lia].
  rewrite set_index_Some by lia. simpl. eexists. split; [done|]. split.
  { split_and!; simpl; rewrite ?length_insert; try done. apply Forall_insert; [done|lia]. }
  unfold params_view in *. simpl. replace (params_length p1) with (S (length pre)) in * by lia.
  rewrite Nat.sub_1_r in *. simpl in Hlv', Hls' |- *.
  erewrite take_S_r in Hview by done. erewrite (take_S_r (values p1)) in Hview by done.
  erewrite take_S_r by done. erewrite take_S_r by (apply list_lookup_insert_eq; lia).
  rewrite take_insert_ge by lia.
  rewrite zip_with_app in * by (rewrite !length_take; lia). simpl in *.
  by apply app_inj_tail in Hview as [-> _].
Qed.

Lemma append_separator_view p s :
  params_ok p -> params_length p + (if params_length p =? 0 then 2 else 1) <= MAX_CSI_PARAMETERS ->
  exists p', append_separator p s = Some (true, p') /\ params_ok p' /\
    params_view p' = (if params_length p =? 0 then [(SepStart, 0%N)] else params_view p) ++ [(s, 0%N)].
Proof.
  intros Hp Hl. unfold append_separator.
  destruct (ensure_begun_view p Hp) as (p1 & -> & Hp1 & Hl1 & Hview). simpl.
  destruct (begin_view p1 s) as (p2 & -> & Hp2 & Hview2); [done| |].
  { rewrite <- params_view_length, Hview by done.
    destruct (params_length p =? 0) eqn:E; bools; simpl; [|rewrite params_view_length by done]; lia. }
  exists p2. by rewrite Hview2, Hview.
Qed.

(** The parser while it reads parameters. *)
Definition reading (p : Parser) : Prop := state p = CsiEntry \/ state p = CsiParam.

(** The parser [p] with other parameters and digit count, in the parameter state. *)
Definition with_params (p : Parser) (ps : CsiParameters) (digits : N) : Parser :=
  p <| state := CsiParam |> <| parameters := ps |> <| parameter_digits := digits |>.

(** The parameters as the next digit or separator will find them. *)
Definition current_view (ps : CsiParameters) : list (ParameterSeparator * N) :=
  if params_length ps =? 0 then [(SepStart, 0%N)] else params_view ps.

Lemma current_view_begun ps : params_length ps <> 0 -> current_view ps = params_view ps.
Proof. intros H. unfold current_view. by rewrite (proj2 (Nat.eqb_neq _ _) H). Qed.

Section RoundTrip.
Context `{P : Platform}.

Lemma run_parser_app p bs1 bs2 ops1 p1 :
  run_parser p bs1 = Some (ops1, p1) ->
  run_parser p (bs1 ++ bs2) = ('(ops2, p2) ← run_parser p1 bs2; Some (ops1 ++ ops2, p2)).
Proof.
  revert p ops1. induction bs1 as [|b bs1 IH]; intros p ops1 H; simpl in *.
  { simplify_eq. by destruct (run_parser p1 bs2) as [[? ?]|]. }
  destruct (advance p b) as [[op p']|]; simpl in *; [|done].
  destruct (run_parser p' bs1) as [[ops p'']|] eqn:E; simpl in *; simplify_eq.
  rewrite (IH _ _ E). by destruct (run_parser p1 bs2) as [[? ?]|].
Qed.

(** A byte in the parameter states is not a control and goes to [advance_csi_param]. *)
Lemma advance_reading p b :
  reading p -> in_range 48 59 b || in_range 64 126 b = true ->
  advance p b = advance_csi_param p b.
Proof.
  intros Hr Hb. unfold in_range in Hb.
  assert (c0_operation b = None) as Hc.
  { unfold c0_operation, switch, existsb. destruct_ifs; done || (exfalso; lia). }
  unfold advance. rewrite Hc. unfold advance_csi_entry.
  destruct Hr as [Hr|Hr]; rewrite Hr;
    destruct_ifs; try reflexivity; exfalso; lia.
Qed.

Lemma digit_step p d pre s v :
  reading p -> params_ok (parameters p) -> (d <= 9)%N -> (parameter_digits p <= 4)%N ->
  current_view (parameters p) = pre ++ [(s, v)] ->
  (v * 10 + d <= u16_max)%N ->
  exists ps, advance p (48 + d) = Some (Ignored, with_params p ps (parameter_digits p + 1)) /\
    params_ok ps /\ params_view ps = pre ++ [(s, v * 10 + d)%N].
Proof.
  intros Hr Hp Hd Hdig Hpre Hv.
  rewrite advance_reading by (done || unfold in_range; lia).
  unfold advance_csi_param. replace (in_range 48 57 (48 + d)) with true by (unfold in_range; lia).
  unfold append_csi_digit. cbv zeta. simpl.
  rewrite N.min_r by lia. replace (5 <? parameter_digits p + 1)%N with false by lia.
  replace (48 + d - 48)%N with d by lia.
  destruct (append_digit_view _ _ _ _ d Hp Hpre Hv) as (ps & -> & Hps & Hview). simpl. eauto.
Qed.

(** Reading [bs] in the parameter states: nothing is emitted and the parameters
    become [view]. *)
Definition reads (p : Parser) (bs : list N) (view : list (ParameterSeparator * N))
    (max_digits : N) : Prop :=
  exists ops ps digits, run_parser p bs = Some (ops, with_params p ps digits) /\
    Forall (fun op => op = Ignored) ops /\ params_ok ps /\ params_view ps = view /\
    params_length ps <> 0 /\ (digits <= max_digits)%N.

Lemma reads_app p bs1 bs2 view1 view2 m1 m2 :
  reads p bs1 view1 m1 ->
  (forall ps digits, params_ok ps -> params_length ps <> 0 -> params_view ps = view1 ->
     (digits <= m1)%N -> reads (with_params p ps digits) bs2 view2 m2) ->
  reads p (bs1 ++ bs2) view2 m2.
Proof.
  intros (ops1 & ps1 & d1 & Hrun & Hops & Hps & Hview & Hne & Hd) H2.
  destruct (H2 ps1 d1 Hps Hne Hview Hd) as (ops2 & ps2 & d2 & Hrun2 & Hops2 & ? & ? & ? & ?).
  exists (ops1 ++ ops2), ps2, d2. rewrite (run_parser_app _ _ _ _ _ Hrun), Hrun2.
  split_and!; try done. by apply Forall_app.
Qed.

Lemma reads_digit p d pre s v :
  reading p -> params_ok (parameters p) -> (d <= 9)%N -> (parameter_digits p <= 4)%N ->
  current_view (parameters p) = pre ++ [(s, v)] -> (v * 10 + d <= u16_max)%N ->
  reads p [48 + d]%N (pre ++ [(s, v * 10 + d)%N]) (parameter_digits p + 1).
Proof.
  intros. destruct (digit_step p d pre s v) as (ps & Hs & Hps & Hview); try done.
  exists [Ignored], ps, (parameter_digits p + 1)%N. simpl. rewrite Hs.
  split_and!; try done; [by repeat constructor|].
  rewrite <- params_view_length, Hview, length_app by done. simpl. lia.
Qed.

(** Reading the decimal digits of a 16-bit value into a fresh parameter. *)
Lemma reads_digits fuel n p pre s k :
  reading p -> params_ok (parameters p) -> parameter_digits p = 0%N ->
  current_view (parameters p) = pre ++ [(s, 0%N)] ->
  (n <= u16_max)%N -> k <= 4 -> (n < 10 ^ N.of_nat (S k))%N -> k <= fuel ->
  reads p (decimal_fuel (S fuel) n []) (pre ++ [(s, n)]) (N.of_nat (S k)).
Proof.
  intros Hr Hp Hdig Hpre. revert n k.
  assert (forall n k, (n < 10)%N -> reads p [48 + n]%N (pre ++ [(s, n)]) (N.of_nat (S k))) as Hone.
  { intros n k Hn. destruct (reads_digit p n pre s 0) as (ops & ps & d & ? & ? & ? & Hv & ? & ?);
      try done; try (unfold u16_max; lia).
    exists ops, ps, d. split_and!; try done. lia. }
  induction fuel as [|fuel IH]; intros n k Hn Hk Hlt Hf; rewrite decimal_fuel_S.
  { assert (n < 10)%N by (replace k with 0 in Hlt by lia; simpl in Hlt; lia).
    rewrite N.div_small, N.mod_small by lia. by apply Hone. }
  destruct (n / 10 =? 0)%N eqn:E.
  { assert (n < 10)%N by (apply N.eqb_eq, N.div_small_iff in E; lia).
    rewrite N.mod_small by lia. by apply Hone. }
  destruct k as [|k]; [simpl in Hlt; rewrite N.div_small in E by lia; done|].
  eapply reads_app; [apply (IH (n / 10)%N k); [|lia| |lia]|].
  { pose proof (N.Div0.div_le_upper_bound n 10 n). lia. }
  { apply N.Div0.div_lt_upper_bound. rewrite <- N.pow_succ_r', <- Nat2N.inj_succ. done. }
  intros ps digits Hps Hne Hview Hd.
  assert (n / 10 * 10 + n mod 10 = n)%N as Hn10 by (rewrite N.mul_comm; symmetry; apply N.div_mod').
  destruct (reads_digit (with_params p ps digits) (n mod 10) pre s (n / 10))
    as (ops & ps' & d & Hrun & ? & ? & Hv & ? & Hle);
    [by right|done|pose proof (N.mod_lt n 10); lia|simpl; lia|simpl; by rewrite current_view_begun|lia|].
  exists ops, ps', d. rewrite Hn10 in Hv. simpl in Hle. split_and!; try done. lia.
Qed.

Lemma reads_value p pre s v :
  reading p -> params_ok (parameters p) -> parameter_digits p = 0%N ->
  current_view (parameters p) = pre ++ [(s, 0%N)] -> (v <= u16_max)%N ->
  reads p (decimal v) (pre ++ [(s, v)]) 5.
Proof. intros. apply (reads_digits 19 v p pre s 4); try done; unfold u16_max in *; lia. Qed.

Lemma reads_separator p s :
  reading p -> params_ok (parameters p) -> s <> SepStart ->
  length (current_view (parameters p)) < MAX_CSI_PARAMETERS ->
  reads p (separator_bytes s) (current_view (parameters p) ++ [(s, 0%N)]) 0.
Proof.
  intros Hr Hp Hs Hl.
  destruct (append_separator_view (parameters p) s) as (ps & Ha & Hps & Hview); [done| |].
  { unfold current_view in Hl. destruct (params_length (parameters p) =? 0) eqn:E; bools.
    - rewrite E. unfold MAX_CSI_PARAMETERS. lia.
    - rewrite params_view_length in Hl by done. lia. }
  exists [Ignored], ps, 0%N. split_and!; try done; [|by repeat constructor|].
  - destruct s; [done|..]; simpl; rewrite advance_reading by done;
      unfold advance_csi_param; simpl; unfold append_csi_separator; rewrite Ha; done.
  - rewrite <- params_view_length, Hview, length_app by done. simpl. lia.
Qed.

Lemma reads_item p it :
  reading p -> params_ok (parameters p) -> it.1 <> SepStart ->
  length (current_view (parameters p)) < MAX_CSI_PARAMETERS ->
  (default 0 it.2 <= u16_max)%N ->
  reads p (item_bytes it) (current_view (parameters p) ++ [item_value it]) 5.
Proof.
  intros Hr Hp Hs Hl Hv. destruct it as [s [v|]]; unfold item_bytes, item_value; simpl in *.
  - eapply reads_app; [by apply reads_separator|]. intros ps digits Hps Hne Hview Hd.
    apply reads_value; simpl; try done; [by right|lia|]. by rewrite current_view_begun.
  - rewrite app_nil_r. destruct (reads_separator p s) as (ops & ps & d & ? & ? & ? & ? & ? & ?); try done.
    exists ops, ps, d. split_and!; try done. lia.
Qed.

Lemma reads_items items p :
  items <> [] -> reading p -> params_ok (parameters p) ->
  Forall (fun it => it.1 <> SepStart /\ (default 0 it.2 <= u16_max)%N) items ->
  length (current_view (parameters p)) + length items <= MAX_CSI_PARAMETERS ->
  reads p (flat_map item_bytes items) (current_view (parameters p) ++ map item_value items) 5.
Proof.
  revert p. induction items as [|it items IH]; intros p Hne Hr Hp Hall Hl; [done|].
  inversion_clear Hall as [|? ? [Hs Hv] Hall']. simpl in *.
  destruct items as [|it' items].
  { simpl. rewrite app_nil_r. apply reads_item; try done. lia. }
  eapply reads_app; [apply reads_item; try done; lia|].
  intros ps digits Hps Hn Hview Hd.
  assert (current_view ps = current_view (parameters p) ++ [item_value it]) as Hcv
    by (by rewrite current_view_begun).
  replace (_ ++ _ :: _) with (current_view ps ++ map item_value (it' :: items))
    by (by rewrite Hcv, <- app_assoc).
  apply (IH (with_params p ps digits)); try done; [by right|].
  simpl parameters. rewrite Hcv, length_app. simpl in *. lia.
Qed.

(** A CSI sequence as a program prints it, and what makes its parameters well
    formed: the first has no separator, the others have one, there are at most
    32 and each is a 16-bit value. *)
Definition csi_sequence (is_private : bool) (items : list (ParameterSeparator * option N))
    (final : N) : list N :=
  [ESC; 91%N] ++ (if is_private then [63%N] else []) ++ flat_map item_bytes items ++ [final].

Definition items_ok (items : list (ParameterSeparator * option N)) : Prop :=
  match items with
  | [] => True
  | it :: rest =>
      it.1 = SepStart /\ (it.2 = None -> rest <> []) /\ (default 0 it.2 <= u16_max)%N /\
      Forall (fun it => it.1 <> SepStart /\ (default 0 it.2 <= u16_max)%N) rest /\
      length items <= MAX_CSI_PARAMETERS
  end.

Lemma reads_all items p :
  items <> [] -> items_ok items -> state p = CsiEntry -> parameters p = CsiParameters_default ->
  parameter_digits p = 0%N -> reads p (flat_map item_bytes items) (map item_value items) 5.
Proof.
  intros Hne Hok Hst Hp Hd. destruct items as [|[s0 o] rest]; [done|].
  destruct Hok as (Hs & Ho & Hv & Hall & Hl). simpl in *. subst s0.
  assert (reading p) by by left.
  assert (params_ok (parameters p)) as Hpok by (rewrite Hp; apply params_ok_default).
  assert (current_view (parameters p) = [] ++ [(SepStart, 0%N)]) as Hcv by by rewrite Hp.
  destruct o as [v|].
  - change (item_bytes (SepStart, Some v)) with (decimal v).
    pose proof (reads_value p [] SepStart v ltac:(done) ltac:(done) Hd Hcv Hv) as Hfirst.
    destruct rest as [|it rest]; [simpl; by rewrite app_nil_r|].
    eapply reads_app; [exact Hfirst|]. intros ps digits Hps Hn Hview _.
    pose proof (reads_items (it :: rest) (with_params p ps digits)) as Hr. simpl parameters in Hr.
    rewrite current_view_begun, Hview in Hr by done. apply Hr; try done; by right.
  - simpl. pose proof (reads_items rest p) as Hr. rewrite Hcv in Hr. apply Hr; auto.
Qed.

(** The first two or three bytes of a CSI sequence. *)
Lemma csi_prefix (p : Parser) (is_private : bool) :
  state p = Ground ->
  run_parser p ([ESC; 91%N] ++ if is_private then [63%N] else []) =
    Some (if is_private then [Ignored; Ignored; Ignored] else [Ignored; Ignored],
          (clear_csi p) <| private := is_private |> <| state := CsiEntry |>).
Proof.
  intros H. destruct is_private; cbn -[clear_csi]; unfold advance; rewrite H; reflexivity.
Qed.

Lemma complete_csi_step p b :
  reading p -> intermediate_length p = 0 -> in_range 64 126 b = true ->
  advance p b = Some (csi_plain_op (private p) (secondary p) b (parameters p),
                      clear_csi (p <| state := Ground |>)).
Proof.
  intros Hr Hi Hb. rewrite advance_reading by (done || by rewrite Hb, orb_true_r).
  unfold advance_csi_param, complete_csi. rewrite Hi. simpl.
  unfold in_range in *. destruct_ifs; try done; exfalso; lia.
Qed.

(** The parameters a complete sequence hands over. *)
Lemma csi_sequence_reads p is_private items final :
  state p = Ground -> items_ok items -> in_range 64 126 final = true ->
  exists ops ps, run_parser p (csi_sequence is_private items final) =
      Some (ops ++ [csi_plain_op is_private false final ps], clear_csi p) /\
    Forall (fun op => op = Ignored) ops /\ params_view ps = map item_value items /\ params_ok ps.
Proof.
  intros Hst Hok Hf. unfold csi_sequence. rewrite app_assoc.
  rewrite (run_parser_app _ _ _ _ _ (csi_prefix p is_private Hst)).
  set (p1 := (clear_csi p) <| private := is_private |> <| state := CsiEntry |>).
  set (pre := if is_private then [Ignored; Ignored; Ignored] else [Ignored; Ignored]).
  assert (Forall (fun op => op = Ignored) pre) as Hpre by (destruct is_private; by repeat constructor).
  assert (clear_csi (p1 <| state := Ground |>) = clear_csi p) as Hend.
  { destruct p; simpl in Hst; by subst. }
  destruct items as [|it rest] eqn:Eit.
  - exists pre, CsiParameters_default. simpl run_parser.
    rewrite complete_csi_step by (done || by left). rewrite Hend. split_and!; try done. apply params_ok_default.
  - destruct (reads_all (it :: rest) p1) as (ops & ps & d & Hrun & Hops & Hps & Hview & _ & _);
      try done.
    rewrite (run_parser_app _ _ _ _ _ Hrun). simpl run_parser.
    rewrite complete_csi_step by (done || by right).
    exists (pre ++ ops), ps. split_and!; [|by apply Forall_app|done|done].
    simpl. rewrite app_assoc, <- Hend. reflexivity.
Qed.

Lemma value_view ps i : params_ok ps -> value ps i = snd <$> params_view ps !! i.
Proof.
  intros Hp. rewrite params_view_lookup by done. destruct Hp as (Hv & Hs & Hl & _). unfold separator, value.
  destruct (i <? params_length ps) eqn:E; bools; [|done].
  destruct (lookup_lt_is_Some_2 (separators ps) i) as [x ->]; [lia|].
  by destruct (lookup_lt_is_Some_2 (values ps) i) as [y ->]; [lia|].
Qed.

Lemma separator_view ps i : params_ok ps -> separator ps i = fst <$> params_view ps !! i.
Proof.
  intros Hp. rewrite params_view_lookup by done. destruct Hp as (Hv & Hs & Hl & _). unfold separator, value.
  destruct (i <? params_length ps) eqn:E; bools; [|done].
  destruct (lookup_lt_is_Some_2 (separators ps) i) as [x ->]; [lia|].
  by destruct (lookup_lt_is_Some_2 (values ps) i) as [y ->]; [lia|].
Qed.

(** Printing and parsing CSI sequences are inverse: a parser at rest that
    is fed [ESC \[], an optional [?], any well-formed parameter list in decimal
    and a final byte emits nothing until the final byte, then exactly the
    operation of that byte with exactly those parameters and separators, and is
    at rest again. *)
Theorem csi_sequence_round_trip p is_private items final :
  state p = Ground -> items_ok items -> in_range 64 126 final = true ->
  exists ops ps, run_parser p (csi_sequence is_private items final) =
      Some (ops ++ [csi_plain_op is_private false final ps], clear_csi p) /\
    Forall (fun op => op = Ignored) ops /\ params_view ps = map item_value items.
Proof.
  intros Hst Hok Hf. destruct (csi_sequence_reads p is_private items final Hst Hok Hf) as (ops & ps & ? & ? & ? & _).
  by exists ops, ps.
Qed.

End RoundTrip.

Lemma csi_sequence_round_trip_witness :
  exists ops ps, run_parser (P := sample_platform) Parser_new
      (csi_sequence true [(SepStart, Some 25%N); (Semicolon, Some 1049%N)] 104) =
      Some (ops ++ [csi_plain_op true false 104 ps], clear_csi Parser_new) /\
    Forall (fun op => op = Ignored) ops /\ params_view ps = [(SepStart, 25%N); (Semicolon, 1049%N)].
Proof.
  apply (csi_sequence_round_trip (P := sample_platform) Parser_new true [(SepStart, Some 25%N); (Semicolon, Some 1049%N)] 104);
    [reflexivity| |reflexivity].
  simpl. unfold u16_max, MAX_CSI_PARAMETERS. split_and!; try done; try lia.
  repeat constructor; done || (simpl; lia).
Defined.
