(* ===== verification/Screen.v ===== *)
(** * The screen grid

    [screen.rs]: the visible grid as one flat array of cells used as a ring of
    rows, with the occupancy, soft-wrap and redraw bookkeeping the code keeps
    beside it.  [None] is a panic. *)

From Stdlib Require Import NArith Bool.
From S2P Require Import Prelude Cell.

Record Screen := mkScreen {
  dimensions : Dimensions;
  top : nat;
  cells : list Cell;
  occupied_cells : list bool;
  dirty_rows : list bool;
  soft_wrapped_rows : list bool;
  occupied_columns : list nat
}.
#[export] Instance set_dimensions : Setter dimensions := fun v r => mkScreen v (top r) (cells r) (occupied_cells r) (dirty_rows r) (soft_wrapped_rows r) (occupied_columns r).
#[export] Instance set_top : Setter top := fun v r => mkScreen (dimensions r) v (cells r) (occupied_cells r) (dirty_rows r) (soft_wrapped_rows r) (occupied_columns r).
#[export] Instance set_cells : Setter cells := fun v r => mkScreen (dimensions r) (top r) v (occupied_cells r) (dirty_rows r) (soft_wrapped_rows r) (occupied_columns r).
#[export] Instance set_occupied_cells : Setter occupied_cells := fun v r => mkScreen (dimensions r) (top r) (cells r) v (dirty_rows r) (soft_wrapped_rows r) (occupied_columns r).
#[export] Instance set_dirty_rows : Setter dirty_rows := fun v r => mkScreen (dimensions r) (top r) (cells r) (occupied_cells r) v (soft_wrapped_rows r) (occupied_columns r).
#[export] Instance set_soft_wrapped_rows : Setter soft_wrapped_rows := fun v r => mkScreen (dimensions r) (top r) (cells r) (occupied_cells r) (dirty_rows r) v (occupied_columns r).
#[export] Instance set_occupied_columns : Setter occupied_columns := fun v r => mkScreen (dimensions r) (top r) (cells r) (occupied_cells r) (dirty_rows r) (soft_wrapped_rows r) v.

Record ScreenRow := mkScreenRow { row_cells : list Cell; soft_wrapped : bool }.

Record ColumnSpan := mkSpan { left : nat; right : nat }.
Definition ColumnSpan_full (columns : nat) : ColumnSpan := mkSpan 0 (columns - 1).
Definition span_width (s : ColumnSpan) : nat := right s + 1 - left s.
Definition is_full (s : ColumnSpan) (columns : nat) : bool :=
  (left s =? 0) && (right s + 1 =? columns).

Record Rectangle := mkRectangle {
  rect_top : nat; rect_left : nat; rect_bottom : nat; rect_right : nat
}.

Definition is_structural_blank (c : Cell) : bool :=
  bool_decide (text c = [SPACE])
  && bool_decide (width c = Single)
  && bool_decide (foreground c = Default)
  && bool_decide (background c = Default)
  && (attributes c =? NONE)%N
  && bool_decide (hyperlink c = None).

Definition row_extent (occupied : bool) (columns : nat) : nat := if occupied then columns else 0.

Definition physical_row (s : Screen) (logical_row : nat) : nat :=
  (top s + logical_row) mod rows (dimensions s).
Definition physical_row_start (s : Screen) (logical_row : nat) : nat :=
  physical_row s logical_row * columns (dimensions s).

Definition cell_index (s : Screen) (column row : nat) : option nat :=
  if (column <? columns (dimensions s)) && (row <? rows (dimensions s))
  then Some (physical_row_start s row + column) else None.

(** ** Queries *)
Definition cell (s : Screen) (column row : nat) : option Cell :=
  index ← cell_index s column row; cells s !! index.

Definition row_soft_wrapped (s : Screen) (row : nat) : option bool :=
  if row <? rows (dimensions s) then soft_wrapped_rows s !! physical_row s row else None.

Definition row_occupied_columns (s : Screen) (row : nat) : option nat :=
  if row <? rows (dimensions s) then occupied_columns s !! physical_row s row else None.

(** The result and the redraw flags it leaves. *)
Definition take_dirty_rows (s : Screen) : list nat * Screen :=
  (omap (fun '(row, is_dirty) => if (is_dirty : bool) then Some row else None)
     (imap pair (dirty_rows s)),
   s <| dirty_rows := map (fun _ => false) (dirty_rows s) |>).

Definition mark_all_dirty (s : Screen) : Screen :=
  s <| dirty_rows := map (fun _ => true) (dirty_rows s) |>.

Definition occupied_row_count (s : Screen) : option nat :=
  flags ← mapM (fun row => n ← occupied_columns s !! physical_row s row; Some (0 <? n))
            (range 0 (rows (dimensions s)));
  Some (extent flags).

Definition screen_row (s : Screen) (row : nat) : option ScreenRow :=
  let start := physical_row_start s row in
  n ← occupied_columns s !! physical_row s row;
  cs ← slice (cells s) start (start + n);
  w ← soft_wrapped_rows s !! physical_row s row;
  Some (mkScreenRow cs w).

Definition to_rows (s : Screen) : option (list ScreenRow) :=
  mapM (screen_row s) (range 0 (rows (dimensions s))).

(** [PartialEq::eq]: the logical content, row by row; [None] is a panic. *)
Definition screen_row_eqb (s t : Screen) (row : nat) : option bool :=
  let cols := columns (dimensions s) in
  let self_start := physical_row_start s row in
  let other_start := physical_row_start t row in
  cs ← slice (cells s) self_start (self_start + cols);
  ct ← slice (cells t) other_start (other_start + cols);
  os ← slice (occupied_cells s) self_start (self_start + cols);
  ot ← slice (occupied_cells t) other_start (other_start + cols);
  ds ← dirty_rows s !! row;
  dt ← dirty_rows t !! row;
  ws ← soft_wrapped_rows s !! physical_row s row;
  wt ← soft_wrapped_rows t !! physical_row t row;
  ns ← occupied_columns s !! physical_row s row;
  nt ← occupied_columns t !! physical_row t row;
  Some (bool_decide (cs = ct) && bool_decide (os = ot) && eqb ds dt && eqb ws wt && (ns =? nt)).

Definition screen_eqb (s t : Screen) : option bool :=
  if bool_decide (dimensions s = dimensions t) then
    rs ← mapM (screen_row_eqb s t) (range 0 (rows (dimensions s)));
    Some (forallb (fun b => b) rs)
  else Some false.

(** ** Row bookkeeping *)
Definition mark_dirty (row : nat) (s : Screen) : option Screen :=
  d ← set_index (dirty_rows s) row true; Some (s <| dirty_rows := d |>).

Definition mark_dirty_range (first last : nat) (s : Screen) : option Screen :=
  d ← fill_slice (dirty_rows s) first (S last) true; Some (s <| dirty_rows := d |>).

Definition recompute_occupied (row : nat) (s : Screen) : option Screen :=
  let start := physical_row_start s row in
  flags ← slice (occupied_cells s) start (start + columns (dimensions s));
  oc ← set_index (occupied_columns s) (physical_row s row) (extent flags);
  Some (s <| occupied_columns := oc |>).

Definition set_soft_wrapped (b : bool) (row : nat) (s : Screen) : option Screen :=
  sw ← set_index (soft_wrapped_rows s) (physical_row s row) b;
  Some (s <| soft_wrapped_rows := sw |>).
Definition mark_soft_wrapped : nat -> Screen -> option Screen := set_soft_wrapped true.
Definition clear_soft_wrapped : nat -> Screen -> option Screen := set_soft_wrapped false.

(** Writing cells [start, start + n) and their occupancy. *)
Definition fill_cells (start stop : nat) (c : Cell) (s : Screen) : option Screen :=
  cs ← fill_slice (cells s) start stop c;
  oc ← fill_slice (occupied_cells s) start stop (negb (is_structural_blank c));
  Some (s <| cells := cs |> <| occupied_cells := oc |>).

Definition set_cell (index : nat) (c : Cell) (occupied : bool) (s : Screen) : option Screen :=
  cs ← set_index (cells s) index c;
  oc ← set_index (occupied_cells s) index occupied;
  Some (s <| cells := cs |> <| occupied_cells := oc |>).

(** [cells[dest] = cells[src].clone(); occupied_cells[dest] = occupied_cells[src]]. *)
Definition copy_cell (src dest : nat) (s : Screen) : option Screen :=
  c ← cells s !! src; o ← occupied_cells s !! src; set_cell dest c o s.

(** ** Wide-cell repair *)
Definition wide_invalid (s : Screen) (row column : nat) : option bool :=
  let cols := columns (dimensions s) in
  let index := physical_row_start s row + column in
  c ← cells s !! index;
  match width c with
  | Double => if column + 1 =? cols then Some true
              else next ← cells s !! (index + 1); Some (negb (is_continuation next))
  | Continuation => if column =? 0 then Some true
                    else prev ← cells s !! (index - 1);
                         Some (negb (bool_decide (width prev = Double)))
  | Single => Some false
  end.

Definition repair_cell (row column : nat) (fill : Cell) (s : Screen) : option Screen :=
  invalid ← wide_invalid s row column;
  if (invalid : bool)
  then set_cell (physical_row_start s row + column) fill (negb (is_structural_blank fill)) s
  else Some s.

Definition repair_neighborhood (row boundary : nat) (fill : Cell) (s : Screen) : option Screen :=
  let first := boundary - 1 in
  let last := Nat.min (boundary + 1) (columns (dimensions s) - 1) in
  for_each (fun column => repair_cell row column fill) (range_incl first last) s.

Section WithPlatform.
Context `{P : Platform}.

Definition repair_row (row : nat) (s : Screen) : option Screen :=
  s1 ← for_each (fun column => repair_cell row column blank_cell)
         (range 0 (columns (dimensions s))) s;
  recompute_occupied row s1.

Definition repair_wide_cells (s : Screen) : option Screen :=
  for_each repair_row (range 0 (rows (dimensions s))) s.

Definition repair_span_edges (row : nat) (span : ColumnSpan) (s : Screen) : option Screen :=
  s1 ← repair_neighborhood row (left span) blank_cell s;
  repair_neighborhood row (right span + 1) blank_cell s1.

(** ** Construction.  [inl tt] is the allocation error. *)
Definition Screen_new (d : Dimensions) : unit + Screen :=
  if alloc_ok (N.of_nat (cell_count d)) && alloc_ok (N.of_nat (rows d)) then
    inr {| dimensions := d; top := 0;
           cells := replicate (cell_count d) blank_cell;
           occupied_cells := replicate (cell_count d) false;
           dirty_rows := replicate (rows d) true;
           soft_wrapped_rows := replicate (rows d) false;
           occupied_columns := replicate (rows d) 0 |}
  else inl tt.

(** One iteration of the loop of [from_rows]. *)
Definition place_row (columns : nat) (entry : nat * ScreenRow) (s : Screen) : option Screen :=
  let '(row, r) := entry in
  let start := row * columns in
  let len := Nat.min (length (row_cells r)) columns in
  cs ← write_slice (cells s) start (take len (row_cells r));
  oc ← fill_slice (occupied_cells s) start (start + len) true;
  sw ← set_index (soft_wrapped_rows s) row (soft_wrapped r);
  on ← set_index (occupied_columns s) row len;
  Some (s <| cells := cs |> <| occupied_cells := oc |> <| soft_wrapped_rows := sw |>
          <| occupied_columns := on |>).

Definition from_rows (d : Dimensions) (rs : list ScreenRow) : option (unit + Screen) :=
  match Screen_new d with
  | inl e => Some (inl e)
  | inr s =>
      s1 ← for_each (place_row (columns d)) (imap pair (take (rows d) rs)) s;
      s2 ← repair_wide_cells s1;
      Some (inr (mark_all_dirty s2))
  end.

(** One iteration of the loop of [resized]. *)
Definition resize_row (old : Screen) (preserved_columns new_columns : nat) (row : nat)
    (s : Screen) : option Screen :=
  let old_start := physical_row_start old row in
  let new_start := row * new_columns in
  oldcells ← slice (cells old) old_start (old_start + preserved_columns);
  cs ← write_slice (cells s) new_start oldcells;
  oldocc ← slice (occupied_cells old) old_start (old_start + preserved_columns);
  oc ← write_slice (occupied_cells s) new_start oldocc;
  w ← soft_wrapped_rows old !! physical_row old row;
  sw ← set_index (soft_wrapped_rows s) row
         (w && (preserved_columns =? columns (dimensions old)));
  n ← occupied_columns old !! physical_row old row;
  on ← set_index (occupied_columns s) row (Nat.min n preserved_columns);
  Some (s <| cells := cs |> <| occupied_cells := oc |> <| soft_wrapped_rows := sw |>
          <| occupied_columns := on |>).

Definition resized (self : Screen) (d : Dimensions) : option (unit + Screen) :=
  match Screen_new d with
  | inl e => Some (inl e)
  | inr s =>
      let preserved_rows := Nat.min (rows (dimensions self)) (rows d) in
      let preserved_columns := Nat.min (columns (dimensions self)) (columns d) in
      s1 ← for_each (resize_row self preserved_columns (columns d)) (range 0 preserved_rows) s;
      s2 ← repair_wide_cells s1;
      Some (inr s2)
  end.

(** ** Writing characters *)
Definition replace_cell (column row : nat) (c : Cell) (s : Screen) : option Screen :=
  index ← cell_index s column row;
  s1 ← set_cell index c true s;
  s2 ← recompute_occupied row s1;
  mark_dirty row s2.

Definition extend_occupied_or_recompute (row column width : nat) (s : Screen) : option Screen :=
  n ← occupied_columns s !! physical_row s row;
  if n <=? column then
    oc ← set_index (occupied_columns s) (physical_row s row) (column + width);
    Some (s <| occupied_columns := oc |>)
  else recompute_occupied row s.

Definition continuation_of (c : Cell) : Cell :=
  {| text := []; text_capacity_bytes := compact_capacity 0 []; width := Continuation;
     foreground := foreground c; background := background c; attributes := attributes c;
     hyperlink := hyperlink c |}.

Definition replace_cluster (column row : nat) (c : Cell) (s : Screen) : option Screen :=
  index ← cell_index s column row;
  let cluster_columns := width_columns (width c) in
  s1 ← set_cell index c true s;
  s2 ← (if cluster_columns =? 2 then
          continuation ← cell_index s1 (column + 1) row;
          set_cell continuation (continuation_of c) true s1
        else Some s1);
  s3 ← mark_dirty row s2;
  s4 ← repair_neighborhood row column blank_cell s3;
  s5 ← repair_neighborhood row (column + cluster_columns) blank_cell s4;
  extend_occupied_or_recompute row column cluster_columns s5.

(** ** Rectangles *)
Definition fill_rectangle_cell (start : nat) (c : Cell) (occupied spare_protected : bool)
    (offset : nat) (s : Screen) : option Screen :=
  old ← cells s !! (start + offset);
  if spare_protected && contains (attributes old) PROTECTED then Some s
  else set_cell (start + offset) c occupied s.

Definition fill_rectangle_row (r : Rectangle) (c : Cell) (spare_protected : bool) (row : nat)
    (s : Screen) : option Screen :=
  let span := mkSpan (rect_left r) (rect_right r) in
  let start := physical_row_start s row + rect_left r in
  s1 ← for_each (fill_rectangle_cell start c (negb (is_structural_blank c)) spare_protected)
         (range 0 (span_width span)) s;
  s2 ← repair_span_edges row span s1;
  recompute_occupied row s2.

Definition fill_rectangle (r : Rectangle) (c : Cell) (spare_protected : bool) (s : Screen)
    : option Screen :=
  s1 ← for_each (fill_rectangle_row r c spare_protected) (range_incl (rect_top r) (rect_bottom r)) s;
  mark_dirty_range (rect_top r) (rect_bottom r) s1.

(** The source is read out before anything is written. *)
Definition read_rectangle (s : Screen) (src_top src_left height width : nat)
    : option (list (list (Cell * bool))) :=
  mapM (fun row =>
          let start := physical_row_start s (src_top + row) + src_left in
          mapM (fun offset => c ← cells s !! (start + offset);
                              o ← occupied_cells s !! (start + offset); Some (c, o))
            (range 0 width))
    (range 0 height).

Definition write_copied_row (dest_top dest_left width : nat) (copied : list (list (Cell * bool)))
    (row : nat) (s : Screen) : option Screen :=
  let start := physical_row_start s (dest_top + row) + dest_left in
  line ← copied !! row;
  s1 ← for_each (fun offset s => '(c, o) ← line !! offset; set_cell (start + offset) c o s)
         (range 0 width) s;
  s2 ← repair_span_edges (dest_top + row) (mkSpan dest_left (dest_left + width - 1)) s1;
  recompute_occupied (dest_top + row) s2.

Definition copy_rectangle (r : Rectangle) (destination_top destination_left : nat) (s : Screen)
    : option Screen :=
  source_height ← sub_usize (rect_bottom r + 1) (rect_top r);
  rows_left ← sub_usize (rows (dimensions s)) destination_top;
  source_width ← sub_usize (rect_right r + 1) (rect_left r);
  columns_left ← sub_usize (columns (dimensions s)) destination_left;
  let height := Nat.min source_height rows_left in
  let width := Nat.min source_width columns_left in
  if (height =? 0) || (width =? 0) then Some s
  else
    copied ← read_rectangle s (rect_top r) (rect_left r) height width;
    s1 ← for_each (write_copied_row destination_top destination_left width copied)
           (range 0 height) s;
    mark_dirty_range destination_top (destination_top + height - 1) s1.

(** ** Linear fills *)
Definition logical_linear_to_physical (s : Screen) (linear : nat) : nat :=
  let cols := columns (dimensions s) in
  physical_row_start s (linear / cols) + linear mod cols.

Definition spare_cell (c : Cell) (old : Cell) : Cell :=
  if contains (attributes old) PROTECTED then old else c.

Definition fill_linear_row (first_row first_column last_row last_column : nat) (c : Cell)
    (spare_protected : bool) (row : nat) (s : Screen) : option Screen :=
  let cols := columns (dimensions s) in
  let row_start := if row =? first_row then first_column else 0 in
  let row_end := if row =? last_row then last_column else cols in
  if row_end <=? row_start then Some s
  else
    let physical_start := logical_linear_to_physical s (row * cols + row_start) in
    let physical_end := physical_start + (row_end - row_start) in
    cs ← (if spare_protected then
            old ← slice (cells s) physical_start physical_end;
            write_slice (cells s) physical_start (map (spare_cell c) old)
          else fill_slice (cells s) physical_start physical_end c);
    oc ← fill_slice (occupied_cells s) physical_start physical_end
           (negb (is_structural_blank c));
    Some (s <| cells := cs |> <| occupied_cells := oc |>).

Definition fill_linear_with (start stop : nat) (c : Cell) (spare_protected : bool) (s : Screen)
    : option Screen :=
  if stop <=? start then Some s
  else
    let cols := columns (dimensions s) in
    let first_row := start / cols in
    let last_row := (stop - 1) / cols in
    let first_column := start mod cols in
    let last_column := stop - last_row * cols in
    s1 ← for_each (fill_linear_row first_row first_column last_row last_column c spare_protected)
           (range_incl first_row last_row) s;
    s2 ← mark_dirty_range first_row last_row s1;
    s3 ← repair_neighborhood first_row first_column c s2;
    s4 ← repair_neighborhood last_row last_column c s3;
    for_each recompute_occupied (range_incl first_row last_row) s4.

Definition fill_linear (start stop : nat) (c : Cell) : Screen -> option Screen :=
  fill_linear_with start stop c false.
Definition fill_linear_sparing_protected (start stop : nat) (c : Cell) : Screen -> option Screen :=
  fill_linear_with start stop c true.

Definition clear_all (c : Cell) (s : Screen) : Screen :=
  let occupied := if is_structural_blank c then 0 else columns (dimensions s) in
  mark_all_dirty
    (s <| cells := map (fun _ => c) (cells s) |>
       <| occupied_cells := map (fun _ => negb (occupied =? 0)) (occupied_cells s) |>
       <| soft_wrapped_rows := map (fun _ => false) (soft_wrapped_rows s) |>
       <| occupied_columns := map (fun _ => occupied) (occupied_columns s) |>)
    <| top := 0 |>.

(** ** Shifting characters within a row *)
Definition move_cells_within_row (first stop destination : nat) (s : Screen) : option Screen :=
  let len := stop - first in
  let copy offset := copy_cell (first + offset) (destination + offset) in
  if first <? destination then for_each copy (reverse (range 0 len)) s
  else for_each copy (range 0 len) s.

Definition insert_characters (column row count : nat) (c : Cell) (span : ColumnSpan) (s : Screen)
    : option Screen :=
  let right := Nat.min (right span) (columns (dimensions s) - 1) in
  if right <? column then Some s
  else
    let count := Nat.min count (right + 1 - column) in
    let row_start := physical_row_start s row in
    let row_end := row_start + right + 1 in
    let start := row_start + column in
    s1 ← move_cells_within_row start (row_end - count) (start + count) s;
    s2 ← fill_cells start (start + count) c s1;
    s3 ← mark_dirty row s2;
    s4 ← repair_neighborhood row column c s3;
    s5 ← repair_neighborhood row (column + count) c s4;
    s6 ← repair_neighborhood row (right + 1) c s5;
    recompute_occupied row s6.

Definition delete_characters (column row count : nat) (c : Cell) (span : ColumnSpan) (s : Screen)
    : option Screen :=
  let right := Nat.min (right span) (columns (dimensions s) - 1) in
  if right <? column then Some s
  else
    let count := Nat.min count (right + 1 - column) in
    let row_start := physical_row_start s row in
    let row_end := row_start + right + 1 in
    let start := row_start + column in
    s1 ← move_cells_within_row (start + count) row_end start s;
    s2 ← fill_cells (row_end - count) row_end c s1;
    s3 ← mark_dirty row s2;
    s4 ← repair_neighborhood row column c s3;
    s5 ← repair_neighborhood row (right + 1 - count) c s4;
    s6 ← repair_neighborhood row (right + 1) c s5;
    recompute_occupied row s6.

(** ** Shifting rows *)
Definition copy_row (source_row destination_row : nat) (s : Screen) : option Screen :=
  let cols := columns (dimensions s) in
  let source_start := physical_row_start s source_row in
  let destination_start := physical_row_start s destination_row in
  if source_start =? destination_start then Some s
  else
    cs ← copy_within (cells s) source_start (source_start + cols) destination_start;
    oc ← copy_within (occupied_cells s) source_start (source_start + cols) destination_start;
    w ← soft_wrapped_rows s !! physical_row s source_row;
    sw ← set_index (soft_wrapped_rows s) (physical_row s destination_row) w;
    n ← occupied_columns s !! physical_row s source_row;
    on ← set_index (occupied_columns s) (physical_row s destination_row) n;
    Some (s <| cells := cs |> <| occupied_cells := oc |> <| soft_wrapped_rows := sw |>
            <| occupied_columns := on |>).

Definition fill_row (row : nat) (c : Cell) (s : Screen) : option Screen :=
  let cols := columns (dimensions s) in
  let start := physical_row_start s row in
  s1 ← fill_cells start (start + cols) c s;
  sw ← set_index (soft_wrapped_rows s1) (physical_row s1 row) false;
  on ← set_index (occupied_columns s1) (physical_row s1 row)
         (row_extent (negb (is_structural_blank c)) cols);
  Some (s1 <| soft_wrapped_rows := sw |> <| occupied_columns := on |>).

Definition copy_row_span (source_row destination_row : nat) (span : ColumnSpan) (s : Screen)
    : option Screen :=
  let source_start := physical_row_start s source_row + left span in
  let destination_start := physical_row_start s destination_row + left span in
  if source_start =? destination_start then Some s
  else
    s1 ← for_each (fun offset => copy_cell (source_start + offset) (destination_start + offset))
           (range 0 (span_width span)) s;
    s2 ← repair_span_edges destination_row span s1;
    recompute_occupied destination_row s2.

Definition fill_row_span (row : nat) (c : Cell) (span : ColumnSpan) (s : Screen) : option Screen :=
  let start := physical_row_start s row + left span in
  s1 ← fill_cells start (start + span_width span) c s;
  s2 ← repair_span_edges row span s1;
  recompute_occupied row s2.

(** The two loops [insert_lines] and [scroll_down] share: rows [first..] move
    down by [count] from the bottom up, then the rows they leave are filled. *)
Definition shift_rows_down (first bottom count : nat) (c : Cell) (span : ColumnSpan) (s : Screen)
    : option Screen :=
  if is_full span (columns (dimensions s)) then
    s1 ← for_each (fun logical => copy_row logical (logical + count))
           (reverse (range first (bottom + 1 - count))) s;
    for_each (fun logical => fill_row logical c) (range first (first + count)) s1
  else
    s1 ← for_each (fun logical => copy_row_span logical (logical + count) span)
           (reverse (range first (bottom + 1 - count))) s;
    for_each (fun logical => fill_row_span logical c span) (range first (first + count)) s1.

(** The loops [delete_lines] and [scroll_up] share: rows move up by [count]
    from the top down, then the rows they leave at the bottom are filled. *)
Definition shift_rows_up (first bottom count : nat) (c : Cell) (span : ColumnSpan) (s : Screen)
    : option Screen :=
  if is_full span (columns (dimensions s)) then
    s1 ← for_each (fun logical => copy_row logical (logical - count))
           (range_incl (first + count) bottom) s;
    for_each (fun logical => fill_row logical c) (range_incl (bottom + 1 - count) bottom) s1
  else
    s1 ← for_each (fun logical => copy_row_span logical (logical - count) span)
           (range_incl (first + count) bottom) s;
    for_each (fun logical => fill_row_span logical c span) (range_incl (bottom + 1 - count) bottom) s1.

Definition insert_lines (row bottom count : nat) (c : Cell) (span : ColumnSpan) (s : Screen)
    : option Screen :=
  let count := Nat.min count (bottom - row + 1) in
  s1 ← shift_rows_down row bottom count c span s;
  mark_dirty_range row bottom s1.

Definition delete_lines (row bottom count : nat) (c : Cell) (span : ColumnSpan) (s : Screen)
    : option Screen :=
  let count := Nat.min count (bottom - row + 1) in
  s1 ← shift_rows_up row bottom count c span s;
  mark_dirty_range row bottom s1.

Definition scroll_down (top bottom count : nat) (c : Cell) (span : ColumnSpan) (s : Screen)
    : option Screen :=
  let count := Nat.min count (bottom - top + 1) in
  s1 ← shift_rows_down top bottom count c span s;
  mark_dirty_range top bottom s1.

(** [scroll_up] returns the rows that left the screen.  A full-screen scroll
    rotates the ring instead of moving cells. *)
Definition scroll_up (first bottom count : nat) (c : Cell) (span : ColumnSpan) (s : Screen)
    : option (list ScreenRow * Screen) :=
  let count := Nat.min count (bottom - first + 1) in
  if negb (is_full span (columns (dimensions s))) then
    s1 ← shift_rows_up first bottom count c span s;
    s2 ← mark_dirty_range first bottom s1;
    Some ([], s2)
  else
    removed ← mapM (screen_row s) (range first (first + count));
    s1 ← (if (first =? 0) && (bottom + 1 =? rows (dimensions s)) then
            s' ← for_each (fun offset => fill_row offset c) (range 0 count) s;
            Some (s' <| top := (top s' + count) mod rows (dimensions s') |>)
          else shift_rows_up first bottom count c span s);
    s2 ← mark_dirty_range first bottom s1;
    Some (removed, s2).
End WithPlatform.

(** ** [Screen::validate_recovery_state]; [true] is [Ok] *)
Definition valid_pair (cols : nat) (line : list Cell) (column : nat) (c : Cell) : bool :=
  match width c with
  | Single => true
  | Continuation =>
      negb (column =? 0) && match line !! (column - 1) with
                            | Some p => bool_decide (width p = Double) | None => false end
  | Double =>
      (column + 1 <? cols) && match line !! (column + 1) with
                              | Some n => is_continuation n | None => false end
  end.

Definition validate_screen_row (s : Screen) (row : nat) : bool :=
  let cols := columns (dimensions s) in
  let start := physical_row_start s row in
  match slice (cells s) start (start + cols), slice (occupied_cells s) start (start + cols),
        occupied_columns s !! physical_row s row with
  | Some line, Some occ, Some n =>
      (n <=? cols) && (n =? extent occ)
      && forallb (fun '(column, c) => validate_cell c && valid_pair cols line column c)
           (imap pair line)
  | _, _, _ => false
  end.

Definition validate_screen (s : Screen) : bool :=
  let d := dimensions s in
  match Dimensions_new (columns d) (rows d) with
  | inl _ => false
  | inr expected =>
      bool_decide (expected = d)
      && (top s <? rows d)
      && (length (cells s) =? cell_count d)
      && (length (occupied_cells s) =? cell_count d)
      && (length (dirty_rows s) =? rows d)
      && (length (soft_wrapped_rows s) =? rows d)
      && (length (occupied_columns s) =? rows d)
      && forallb (validate_screen_row s) (range 0 (rows d))
  end.
