(* ===== verification/ScreenGrid.v ===== *)
(** * The screen as a list of rows

    [Screen] stores its rows in one flat array, rotated by [top].  This file
    gives the abstract view, a list of logical rows, and shows that every
    primitive write of [Screen.v] to a row is the corresponding write to that
    row of the list, whatever the rotation. *)

From Stdlib Require Import NArith Bool.
From S2P Require Import Prelude Cell Screen.

(** ** The abstract grid *)
Record Row := mkRow { r_cells : list Cell; r_occ : list bool; r_soft : bool; r_ext : nat }.
#[export] Instance set_r_cells : Setter r_cells := fun v r => mkRow v (r_occ r) (r_soft r) (r_ext r).
#[export] Instance set_r_occ : Setter r_occ := fun v r => mkRow (r_cells r) v (r_soft r) (r_ext r).
#[export] Instance set_r_soft : Setter r_soft := fun v r => mkRow (r_cells r) (r_occ r) v (r_ext r).
#[export] Instance set_r_ext : Setter r_ext := fun v r => mkRow (r_cells r) (r_occ r) (r_soft r) v.

Record Grid := mkGrid { g_rows : list Row; g_dirty : list bool }.

Definition on_row (r : nat) (f : Row -> Row) (g : Grid) : Grid :=
  mkGrid (alter f r (g_rows g)) (g_dirty g).
Definition on_dirty (f : list bool -> list bool) (g : Grid) : Grid :=
  mkGrid (g_rows g) (f (g_dirty g)).
Definition on_rows (f : list Row -> list Row) (g : Grid) : Grid :=
  mkGrid (f (g_rows g)) (g_dirty g).

(** ** The representation *)
Abbreviation ncols s := (columns (dimensions s)).
Abbreviation nrows s := (rows (dimensions s)).

Record shape (s : Screen) : Prop := mk_shape {
  shape_dims : dims_ok (dimensions s);
  shape_top : top s < nrows s;
  shape_cells : length (cells s) = nrows s * ncols s;
  shape_occ : length (occupied_cells s) = nrows s * ncols s;
  shape_dirty : length (dirty_rows s) = nrows s;
  shape_soft : length (soft_wrapped_rows s) = nrows s;
  shape_ext : length (occupied_columns s) = nrows s
}.

Definition view_row (s : Screen) (r : nat) : Row :=
  mkRow (take (ncols s) (drop (physical_row_start s r) (cells s)))
        (take (ncols s) (drop (physical_row_start s r) (occupied_cells s)))
        (default false (soft_wrapped_rows s !! physical_row s r))
        (default 0 (occupied_columns s !! physical_row s r)).

Definition grid_of (s : Screen) : Grid :=
  mkGrid (map (view_row s) (seq 0 (nrows s))) (dirty_rows s).

(** ** Ring arithmetic *)
Lemma physical_row_eq s r :
  top s < nrows s -> r < nrows s ->
  physical_row s r = if decide (top s + r < nrows s) then top s + r else top s + r - nrows s.
Proof.
  intros Ht Hr. unfold physical_row. case_decide as H.
  - by apply Nat.mod_small.
  - replace (top s + r) with ((top s + r - nrows s) + 1 * nrows s) at 1 by lia.
    rewrite Nat.Div0.mod_add. apply Nat.mod_small. lia.
Qed.

Lemma physical_row_lt s r : top s < nrows s -> r < nrows s -> physical_row s r < nrows s.
Proof. intros. rewrite physical_row_eq by done. case_decide; lia. Qed.

Lemma physical_row_inj s r q :
  top s < nrows s -> r < nrows s -> q < nrows s -> physical_row s r = physical_row s q -> r = q.
Proof. intros ? ? ?. rewrite !physical_row_eq by done. repeat case_decide; lia. Qed.

Lemma row_block_bound p R C a : p < R -> a <= C -> p * C + a <= R * C.
Proof. intros. assert (S p * C <= R * C) by (apply Nat.mul_le_mono_r; lia). lia. Qed.

Lemma row_blocks_disjoint p q C a n j :
  p <> q -> a + n <= C -> j < C -> ~ (p * C + a <= q * C + j < p * C + a + n).
Proof.
  intros Hpq Ha Hj. destruct (decide (p < q)).
  - assert (S p * C <= q * C) by (apply Nat.mul_le_mono_r; lia). lia.
  - assert (S q * C <= p * C) by (apply Nat.mul_le_mono_r; lia). lia.
Qed.

Section Ring.
Context (s : Screen) (Hs : shape s).

Lemma row_start_bound r a :
  r < nrows s -> a <= ncols s -> physical_row_start s r + a <= nrows s * ncols s.
Proof.
  intros Hr Ha. destruct Hs. apply row_block_bound; [by apply physical_row_lt|done].
Qed.

(** One block of a flat array after a write inside another or the same block. *)
Lemma block_splice {A} (l new : list A) r q a :
  length l = nrows s * ncols s -> r < nrows s -> q < nrows s -> a + length new <= ncols s ->
  take (ncols s) (drop (physical_row_start s q) (splice l (physical_row_start s r + a) new)) =
  if decide (q = r)
  then splice (take (ncols s) (drop (physical_row_start s r) l)) a new
  else take (ncols s) (drop (physical_row_start s q) l).
Proof.
  intros Hl Hr Hq Ha. pose proof (row_start_bound r (a + length new) Hr Ha) as Hb.
  pose proof (row_start_bound r (ncols s) Hr ltac:(lia)) as Hb2.
  apply list_eq. intros i. rewrite lookup_slice.
  destruct (decide (i < ncols s)) as [Hi|Hi].
  - rewrite lookup_splice by lia. destruct (decide (q = r)) as [->|Hqr].
    + rewrite lookup_splice by (rewrite length_take, length_drop; lia).
      rewrite lookup_slice. rewrite (decide_True (P := i < _)) by done.
      repeat case_decide; try lia; f_equal; lia.
    + rewrite lookup_slice, (decide_True (P := i < _)) by done.
      rewrite decide_False; [done|]. unfold physical_row_start.
      pose proof (row_blocks_disjoint (physical_row s r) (physical_row s q) (ncols s) a (length new) i) as Hd.
      assert (physical_row s r <> physical_row s q)
        by (intros E; apply Hqr; symmetry; apply (physical_row_inj s); [apply Hs|done..]).
      specialize (Hd H Ha Hi). lia.
  - destruct (decide (q = r)).
    + rewrite lookup_splice by (rewrite length_take, length_drop; lia).
      rewrite decide_False by lia. rewrite lookup_slice. by rewrite decide_False.
    + rewrite lookup_slice. by rewrite decide_False.
Qed.

Lemma entry_insert {A} (l : list A) r q (v d : A) :
  length l = nrows s -> r < nrows s -> q < nrows s ->
  default d (<[physical_row s r := v]> l !! physical_row s q) =
  if decide (q = r) then v else default d (l !! physical_row s q).
Proof.
  intros Hl Hr Hq. rewrite list_lookup_insert. destruct Hs.
  pose proof (physical_row_lt s r). case_decide as H1; case_decide as H2; try done.
  - exfalso. apply H2. symmetry. apply (physical_row_inj s); tauto || lia.
  - exfalso. apply H1. subst q. split; [done|]. lia.
Qed.
End Ring.

Lemma view_row_cells_length s r : shape s -> r < nrows s -> length (r_cells (view_row s r)) = ncols s.
Proof.
  intros Hs Hr. simpl. rewrite length_take, length_drop, (shape_cells s Hs).
  pose proof (row_start_bound s Hs r (ncols s) Hr). lia.
Qed.

Lemma view_row_occ_length s r : shape s -> r < nrows s -> length (r_occ (view_row s r)) = ncols s.
Proof.
  intros Hs Hr. simpl. rewrite length_take, length_drop, (shape_occ s Hs).
  pose proof (row_start_bound s Hs r (ncols s) Hr). lia.
Qed.

Lemma grid_lookup s r : r < nrows s -> g_rows (grid_of s) !! r = Some (view_row s r).
Proof. intros Hr. simpl. rewrite list_lookup_fmap, lookup_seq_lt; done. Qed.

Lemma grid_length s : length (g_rows (grid_of s)) = nrows s.
Proof. simpl. by rewrite length_map, length_seq. Qed.

Lemma view_cell_lookup s r c :
  c < ncols s -> r_cells (view_row s r) !! c = cells s !! (physical_row_start s r + c).
Proof. intros. simpl. by rewrite lookup_slice, decide_True. Qed.

Lemma view_occ_lookup s r c :
  c < ncols s -> r_occ (view_row s r) !! c = occupied_cells s !! (physical_row_start s r + c).
Proof. intros. simpl. by rewrite lookup_slice, decide_True. Qed.

(** ** Simulation

    [sim op f s]: from [s], [op] returns, keeps the geometry and the rotation,
    and changes the abstract grid by [f]. *)
Definition same_frame (s s' : Screen) : Prop :=
  shape s' /\ dimensions s' = dimensions s /\ top s' = top s.

Definition sim (op : Screen -> option Screen) (f : Grid -> Grid) (s : Screen) : Prop :=
  exists s', op s = Some s' /\ same_frame s s' /\ grid_of s' = f (grid_of s).

Lemma same_frame_refl s : shape s -> same_frame s s.
Proof. done. Qed.

Lemma same_frame_trans s1 s2 s3 : same_frame s1 s2 -> same_frame s2 s3 -> same_frame s1 s3.
Proof. intros (? & E1 & E2) (? & E3 & E4). split_and!; congruence. Qed.

Lemma same_frame_start s s' r :
  same_frame s s' -> physical_row_start s' r = physical_row_start s r.
Proof. intros (_ & Hd & Ht). unfold physical_row_start, physical_row. by rewrite Hd, Ht. Qed.

Lemma sim_bind op1 op2 f1 f2 s :
  sim op1 f1 s -> (forall s', same_frame s s' -> sim op2 f2 s') ->
  sim (fun s => s1 ← op1 s; op2 s1) (fun g => f2 (f1 g)) s.
Proof.
  intros (s1 & H1 & Hf1 & Hg1) H2. destruct (H2 s1 Hf1) as (s2 & H2' & Hf2 & Hg2).
  exists s2. rewrite H1. simpl. split_and!; [done|by eapply same_frame_trans|congruence].
Qed.

Lemma sim_ret s : shape s -> sim Some (fun g => g) s.
Proof. intros. by exists s. Qed.

Lemma sim_ext op f f' s : (f (grid_of s) = f' (grid_of s)) -> sim op f s -> sim op f' s.
Proof. intros E (s' & ? & ? & ?). exists s'. rewrite <- E. done. Qed.

Lemma sim_op_ext op op' f s : op s = op' s -> sim op f s -> sim op' f s.
Proof. intros E (s' & ? & ? & ?). exists s'. rewrite <- E. done. Qed.

Lemma sim_for_each {I} (body : I -> Screen -> option Screen) (f : I -> Grid -> Grid) xs s :
  shape s -> (forall x s', x ∈ xs -> same_frame s s' -> sim (body x) (f x) s') ->
  sim (for_each body xs) (fun g => foldl (fun g x => f x g) g xs) s.
Proof.
  revert s. induction xs as [|x xs IH]; intros s Hs H; [by apply sim_ret|].
  apply (sim_bind (body x) (for_each body xs) (f x) (fun g => foldl (fun g x => f x g) g xs)).
  - apply H; [by left|by apply same_frame_refl].
  - intros s' Hf. apply IH; [apply Hf|]. intros y s'' Hy Hf'. apply H; [by right|].
    by eapply same_frame_trans.
Qed.

(** ** Primitive writes *)
Lemma rows_ext s (f : Row -> Row) s' r :
  nrows s' = nrows s -> dirty_rows s' = dirty_rows s -> r < nrows s ->
  (forall q, q < nrows s -> view_row s' q = if decide (q = r) then f (view_row s r) else view_row s q) ->
  grid_of s' = on_row r f (grid_of s).
Proof.
  intros Hn Hd Hr H. unfold grid_of, on_row. simpl. f_equal; [|done]. rewrite Hn.
  apply list_eq. intros q. destruct (decide (q < nrows s)) as [Hq|Hq].
  - rewrite list_lookup_fmap, lookup_seq_lt by done. simpl. rewrite H by done.
    destruct (decide (q = r)) as [->|Hqr].
    + rewrite list_lookup_alter_eq, list_lookup_fmap, lookup_seq_lt by done. done.
    + rewrite list_lookup_alter_ne, list_lookup_fmap, lookup_seq_lt by done. done.
  - rewrite !lookup_ge_None_2; rewrite ?length_alter, ?length_map, ?length_seq; try done; lia.
Qed.

Definition row_write (a : nat) (cs : list Cell) (os : list bool) (row : Row) : Row :=
  row <| r_cells := splice (r_cells row) a cs |> <| r_occ := splice (r_occ row) a os |>.

Lemma sim_write r a cs os s :
  shape s -> r < nrows s -> a + length cs <= ncols s -> length os = length cs ->
  sim (fun s => c' ← write_slice (cells s) (physical_row_start s r + a) cs;
                o' ← write_slice (occupied_cells s) (physical_row_start s r + a) os;
                Some (s <| cells := c' |> <| occupied_cells := o' |>))
      (on_row r (row_write a cs os)) s.
Proof.
  intros Hs Hr Ha Hl. pose proof (row_start_bound s Hs r (a + length cs) Hr Ha).
  destruct (Hs) as [? ? Hc Ho ? ? ?].
  rewrite <- Hc in H at 1. unfold sim. rewrite !write_slice_Some by lia. simpl.
  eexists. split; [done|]. split.
  - split_and!; try done. split; simpl; rewrite ?length_splice; try done; lia.
  - apply rows_ext; try done. intros q Hq. unfold view_row, physical_row_start, physical_row. simpl.
    fold (physical_row s q). fold (physical_row s r).
    pose proof (block_splice s Hs (cells s) cs r q a Hc Hr Hq Ha) as B1.
    pose proof (block_splice s Hs (occupied_cells s) os r q a Ho Hr Hq ltac:(lia)) as B2.
    unfold physical_row_start in B1, B2. rewrite B1, B2. by destruct (decide (q = r)) as [->|].
Qed.

Lemma sim_row_meta op f r s :
  shape s -> r < nrows s ->
  (exists s', op s = Some s' /\ same_frame s s' /\ cells s' = cells s /\
     occupied_cells s' = occupied_cells s /\ dirty_rows s' = dirty_rows s /\
     (forall q, q < nrows s ->
        mkRow (r_cells (view_row s q)) (r_occ (view_row s q))
          (default false (soft_wrapped_rows s' !! physical_row s q))
          (default 0 (occupied_columns s' !! physical_row s q)) =
        if decide (q = r) then f (view_row s r) else view_row s q)) ->
  sim op (on_row r f) s.
Proof.
  intros Hs Hr (s' & Hop & Hf & Hc & Ho & Hd & Hq). exists s'. split; [done|]. split; [done|].
  destruct Hf as (_ & Hdim & Ht). apply rows_ext; try done; [by rewrite Hdim|].
  intros q Hlt. rewrite <- Hq by done. unfold view_row, physical_row_start, physical_row.
  by rewrite Hc, Ho, Hdim, Ht.
Qed.

Lemma sim_set_soft_wrapped b r s :
  shape s -> r < nrows s ->
  sim (set_soft_wrapped b r) (on_row r (fun row => row <| r_soft := b |>)) s.
Proof.
  intros Hs Hr. apply sim_row_meta; [done..|]. destruct (Hs) as [? Ht ? ? ? Hw ?].
  pose proof (physical_row_lt s r Ht Hr). unfold set_soft_wrapped.
  rewrite set_index_Some by lia. simpl. eexists. split; [done|].
  split_and!; try done; [by split_and!; [split; simpl; rewrite ?length_insert|..]|].
  intros q Hq. simpl. rewrite (entry_insert s Hs) by done. by destruct (decide (q = r)) as [->|].
Qed.

Lemma sim_set_ext n r s :
  shape s -> r < nrows s ->
  sim (fun s => oc ← set_index (occupied_columns s) (physical_row s r) n;
                Some (s <| occupied_columns := oc |>))
      (on_row r (fun row => row <| r_ext := n |>)) s.
Proof.
  intros Hs Hr. apply sim_row_meta; [done..|]. destruct (Hs) as [? Ht ? ? ? ? Hx].
  pose proof (physical_row_lt s r Ht Hr). rewrite set_index_Some by lia. simpl. eexists. split; [done|].
  split_and!; try done; [by split_and!; [split; simpl; rewrite ?length_insert|..]|].
  intros q Hq. simpl. rewrite (entry_insert s Hs) by done. by destruct (decide (q = r)) as [->|].
Qed.

Definition row_recompute (row : Row) : Row := row <| r_ext := extent (r_occ row) |>.

Lemma slice_row {A} (l : list A) s r :
  shape s -> r < nrows s -> length l = nrows s * ncols s ->
  slice l (physical_row_start s r) (physical_row_start s r + ncols s) =
    Some (take (ncols s) (drop (physical_row_start s r) l)).
Proof.
  intros Hs Hr Hl. pose proof (row_start_bound s Hs r (ncols s) Hr).
  rewrite slice_Some by lia. do 2 f_equal. lia.
Qed.

Lemma sim_recompute r s :
  shape s -> r < nrows s -> sim (recompute_occupied r) (on_row r row_recompute) s.
Proof.
  intros Hs Hr. eapply sim_op_ext; [|eapply sim_ext; [|eapply (sim_set_ext _ r s Hs Hr)]].
  - unfold recompute_occupied. rewrite slice_row by (done || apply Hs). reflexivity.
  - unfold on_row. f_equal. apply list_alter_ext; [|done].
    intros x. rewrite grid_lookup by done. by intros [= <-].
Qed.

Lemma sim_mark_dirty r s :
  shape s -> r < nrows s -> sim (mark_dirty r) (on_dirty (fun d => <[r := true]> d)) s.
Proof.
  intros Hs Hr. destruct (Hs). unfold sim, mark_dirty. rewrite set_index_Some by lia. simpl.
  eexists. split; [done|]. split; [|done].
  split_and!; try done. split; simpl; rewrite ?length_insert; done.
Qed.

Definition dirty_range (first last : nat) (d : list bool) : list bool :=
  splice d first (replicate (S last - first) true).

Lemma sim_mark_dirty_range a b s :
  shape s -> a <= S b -> b < nrows s -> sim (mark_dirty_range a b) (on_dirty (dirty_range a b)) s.
Proof.
  intros Hs Ha Hb. destruct (Hs). unfold sim, mark_dirty_range.
  rewrite fill_slice_Some by lia. simpl.
  eexists. split; [done|]. split; [|done].
  split_and!; try done. split; simpl; rewrite ?length_splice; rewrite ?length_replicate; done || lia.
Qed.

(** ** Cell-level writes *)
Definition row_set (c : nat) (x : Cell) (o : bool) (row : Row) : Row :=
  row <| r_cells := <[c := x]> (r_cells row) |> <| r_occ := <[c := o]> (r_occ row) |>.

Definition row_fill (a b : nat) (x : Cell) (row : Row) : Row :=
  row_write a (replicate (b - a) x) (replicate (b - a) (negb (is_structural_blank x))) row.

(** Two row updates that agree on the row give the same grid. *)
Lemma on_row_ext r f f' s :
  (r < nrows s -> f (view_row s r) = f' (view_row s r)) ->
  on_row r f (grid_of s) = on_row r f' (grid_of s).
Proof.
  intros H. unfold on_row. f_equal. apply list_alter_ext; [|done]. intros x Hx.
  pose proof (lookup_lt_Some _ _ _ Hx) as Hlt. rewrite grid_length in Hlt.
  rewrite grid_lookup in Hx by done. injection Hx as <-. by apply H.
Qed.

Lemma sim_set_cell r c x o s :
  shape s -> r < nrows s -> c < ncols s ->
  sim (fun s => set_cell (physical_row_start s r + c) x o s) (on_row r (row_set c x o)) s.
Proof.
  intros Hs Hr Hc. eapply sim_op_ext; [|eapply sim_ext; [|apply (sim_write r c [x] [o] s)]]; try done; [..|simpl; lia].
  - pose proof (row_start_bound s Hs r (S c) Hr Hc). destruct (Hs). unfold set_cell.
    rewrite !write_slice_Some, !set_index_Some by (simpl; lia). simpl.
    by rewrite !splice_insert by lia.
  - apply on_row_ext. intros _. unfold row_write, row_set.
    pose proof (view_row_cells_length s r Hs Hr). pose proof (view_row_occ_length s r Hs Hr).
    rewrite !splice_insert by lia. done.
Qed.

Lemma sim_fill_cells r a b x s :
  shape s -> r < nrows s -> a <= b <= ncols s ->
  sim (fun s => fill_cells (physical_row_start s r + a) (physical_row_start s r + b) x s)
      (on_row r (row_fill a b x)) s.
Proof.
  intros Hs Hr Hab. eapply sim_op_ext; [|apply (sim_write r a)]; rewrite ?length_replicate; try done; [|lia].
  pose proof (row_start_bound s Hs r b Hr ltac:(lia)). destruct (Hs). unfold fill_cells.
  rewrite !fill_slice_Some, !write_slice_Some by (rewrite ?length_replicate; lia). simpl.
  by replace (physical_row_start s r + b - (physical_row_start s r + a)) with (b - a) by lia.
Qed.

(** Copying one cell of row [r] to a cell of row [q]. *)
Definition cell_at (row : Row) (c : nat) : option (Cell * bool) :=
  x ← r_cells row !! c; o ← r_occ row !! c; Some (x, o).
Definition row_put (c : nat) (v : option (Cell * bool)) (row : Row) : Row :=
  match v with Some (x, o) => row_set c x o row | None => row end.

Lemma view_cell_at s r c :
  shape s -> r < nrows s -> c < ncols s ->
  exists x o, cells s !! (physical_row_start s r + c) = Some x /\
    occupied_cells s !! (physical_row_start s r + c) = Some o /\
    cell_at (view_row s r) c = Some (x, o).
Proof.
  intros Hs Hr Hc.
  destruct (lookup_lt_is_Some_2 (r_cells (view_row s r)) c) as [x Hx]; [by rewrite view_row_cells_length|].
  destruct (lookup_lt_is_Some_2 (r_occ (view_row s r)) c) as [o Ho]; [by rewrite view_row_occ_length|].
  exists x, o. unfold cell_at. rewrite Hx, Ho. rewrite view_cell_lookup in Hx by done.
  rewrite view_occ_lookup in Ho by done. done.
Qed.

Lemma sim_copy_cell r c q d s :
  shape s -> r < nrows s -> q < nrows s -> c < ncols s -> d < ncols s ->
  sim (fun s => copy_cell (physical_row_start s r + c) (physical_row_start s q + d) s)
      (fun g => on_row q (row_put d (row ← g_rows g !! r; cell_at row c)) g) s.
Proof.
  intros Hs Hr Hq Hc Hd. destruct (view_cell_at s r c Hs Hr Hc) as (x & o & Hx & Ho & Hv).
  eapply sim_op_ext; [|eapply sim_ext; [|apply (sim_set_cell q d x o s Hs Hq Hd)]].
  - unfold copy_cell. by rewrite Hx, Ho.
  - rewrite grid_lookup by done. simpl. by rewrite Hv.
Qed.

(** ** Repairing wide cells *)
Definition row_invalid (row : Row) (c : nat) : bool :=
  match width <$> r_cells row !! c with
  | Some Double => match width <$> r_cells row !! (c + 1) with
                   | Some Continuation => false | _ => true end
  | Some Continuation =>
      if c =? 0 then true
      else match width <$> r_cells row !! (c - 1) with Some Double => false | _ => true end
  | _ => false
  end.

Definition row_repair (fill : Cell) (c : nat) (row : Row) : Row :=
  if row_invalid row c then row_set c fill (negb (is_structural_blank fill)) row else row.

Definition row_repair_list (fill : Cell) (cs : list nat) (row : Row) : Row :=
  foldl (fun row c => row_repair fill c row) row cs.

(** The columns [repair_neighborhood] visits. *)
Definition neighborhood (cols boundary : nat) : list nat :=
  range_incl (boundary - 1) (Nat.min (boundary + 1) (cols - 1)).

Definition row_edges (fill : Cell) (cols left right : nat) (row : Row) : Row :=
  row_repair_list fill (neighborhood cols (right + 1))
    (row_repair_list fill (neighborhood cols left) row).

Lemma wide_invalid_view s r c :
  shape s -> r < nrows s -> c < ncols s -> wide_invalid s r c = Some (row_invalid (view_row s r) c).
Proof.
  intros Hs Hr Hc. destruct (view_cell_at s r c Hs Hr Hc) as (x & o & Hx & _ & _).
  unfold wide_invalid, row_invalid. rewrite view_cell_lookup, Hx by done. simpl.
  destruct (width x) eqn:Ew; [done| |].
  - destruct (c + 1 =? ncols s) eqn:E; bools.
    + by rewrite (lookup_ge_None_2 (take _ _)) by (rewrite length_take; lia).
    + destruct (view_cell_at s r (c + 1) Hs Hr) as (y & ? & Hy & _); [lia|].
      rewrite lookup_slice, decide_True, Hy by lia.
      rewrite <- Nat.add_assoc, Hy. simpl. unfold is_continuation. by destruct (width y).
  - destruct (c =? 0) eqn:E; bools; [done|].
    destruct (view_cell_at s r (c - 1) Hs Hr) as (y & ? & Hy & _); [lia|].
    rewrite lookup_slice, decide_True, Hy by lia.
    rewrite <- Nat.add_sub_assoc, Hy by lia. simpl. by destruct (width y).
Qed.

Lemma sim_repair_cell r c fill s :
  shape s -> r < nrows s -> c < ncols s ->
  sim (repair_cell r c fill) (on_row r (row_repair fill c)) s.
Proof.
  intros Hs Hr Hc. destruct (row_invalid (view_row s r) c) eqn:E.
  - eapply sim_op_ext; [|eapply sim_ext; [|apply (sim_set_cell r c fill (negb (is_structural_blank fill)) s)]]; try done.
    + unfold repair_cell. by rewrite wide_invalid_view, E.
    + apply on_row_ext. intros _. unfold row_repair. by rewrite E.
  - eapply sim_op_ext; [|eapply sim_ext; [|by apply sim_ret]].
    + unfold repair_cell. by rewrite wide_invalid_view, E.
    + simpl. rewrite (on_row_ext r _ (fun row => row)).
      * unfold on_row. rewrite list_alter_id; [done|]. done.
      * intros _. unfold row_repair. by rewrite E.
Qed.

(** A loop of writes to the same row is one write of that row. *)
Lemma on_row_foldl {I} r (f : I -> Row -> Row) xs g :
  foldl (fun g x => on_row r (f x) g) g xs = on_row r (fun row => foldl (fun row x => f x row) row xs) g.
Proof.
  revert g. induction xs as [|x xs IH]; intros g; simpl.
  - unfold on_row. rewrite list_alter_id by done. by destruct g.
  - rewrite IH. unfold on_row. simpl. f_equal. by rewrite list_alter_alter_eq.
Qed.

Lemma on_row_compose r f1 f2 g : on_row r f2 (on_row r f1 g) = on_row r (fun row => f2 (f1 row)) g.
Proof. unfold on_row. simpl. by rewrite list_alter_alter_eq. Qed.

Lemma sim_repair_list r cs fill s :
  shape s -> r < nrows s -> (forall c, c ∈ cs -> c < ncols s) ->
  sim (for_each (fun c => repair_cell r c fill) cs) (on_row r (row_repair_list fill cs)) s.
Proof.
  intros Hs Hr Hc. eapply sim_ext; [|apply (sim_for_each _ (fun c => on_row r (row_repair fill c)))]; [|done|].
  - apply on_row_foldl.
  - intros c s' Hin (Hs' & Hd & _). apply sim_repair_cell; [done|by rewrite Hd|rewrite Hd; auto].
Qed.

Lemma sim_repair_neighborhood r b fill s :
  shape s -> r < nrows s ->
  sim (repair_neighborhood r b fill) (on_row r (row_repair_list fill (neighborhood (ncols s) b))) s.
Proof.
  intros Hs Hr. apply (sim_repair_list r (neighborhood (ncols s) b) fill s Hs Hr).
  intros c Hc. apply elem_of_range_incl in Hc. destruct (Hs) as [(? & _) _ _ _ _ _ _]. lia.
Qed.

Lemma sim_on_row2 op1 op2 r f1 f2 s :
  sim op1 (on_row r f1) s -> (forall s', same_frame s s' -> sim op2 (on_row r f2) s') ->
  sim (fun s => s1 ← op1 s; op2 s1) (on_row r (fun row => f2 (f1 row))) s.
Proof.
  intros H1 H2. eapply sim_ext; [|by apply (sim_bind _ _ _ _ _ H1 H2)]. apply on_row_compose.
Qed.
