(* ===== verification/ScreenOps.v ===== *)
(** * The screen operations as operations on rows

    Every operation of [Screen.v] returns on a well-shaped screen when its
    indices are in range, and acts on the list of logical rows as a plain list
    operation: the flat array, the rotation and the copy order are invisible. *)

From Stdlib Require Import NArith Bool.
From S2P Require Import Prelude Cell Screen ScreenGrid.

(** ** Row functions *)
Definition row_span (a n : nat) (row : Row) : list Cell * list bool :=
  (take n (drop a (r_cells row)), take n (drop a (r_occ row))).

(** [dst] with columns [b, b + n) replaced by columns [a, a + n) of [src]. *)
Definition row_blit (a b n : nat) (src dst : Row) : Row :=
  row_write b (row_span a n src).1 (row_span a n src).2 dst.

Definition wf_lengths (cols : nat) (row : Row) : Prop :=
  length (r_cells row) = cols /\ length (r_occ row) = cols.

Lemma view_row_lengths s r : shape s -> r < nrows s -> wf_lengths (ncols s) (view_row s r).
Proof. intros. split; [by apply view_row_cells_length|by apply view_row_occ_length]. Qed.

Lemma splice_snoc {A} (l vals : list A) b n x :
  vals !! n = Some x -> b + n < length l ->
  <[b + n := x]> (splice l b (take n vals)) = splice l b (take (S n) vals).
Proof.
  intros Hx Hl. pose proof (lookup_lt_Some _ _ _ Hx) as Hn. apply list_eq. intros i.
  rewrite list_lookup_insert, length_splice, !lookup_splice by (rewrite length_take; lia).
  rewrite !length_take, !Nat.min_l by lia.
  repeat case_decide; try lia; rewrite ?lookup_take_lt by lia; try done.
  by replace (i - b) with n by lia.
Qed.

Lemma row_put_loop src dst a b n cols :
  wf_lengths cols src -> wf_lengths cols dst -> a + n <= cols -> b + n <= cols ->
  foldl (fun row off => row_put (b + off) (cell_at src (a + off)) row) dst (seq 0 n) =
    row_blit a b n src dst.
Proof.
  intros [Hc Ho] [Hc' Ho'] Ha Hb.
  assert (forall m, m <= n ->
    foldl (fun row off => row_put (b + off) (cell_at src (a + off)) row) dst (seq 0 m) =
      row_write b (take m (drop a (r_cells src))) (take m (drop a (r_occ src))) dst) as H; [|by apply H].
  induction m as [|m IH]; intros Hm.
  - unfold row_write. simpl. rewrite !take_0, !splice_nil. by destruct dst.
  - rewrite seq_S, foldl_snoc, IH by lia. unfold cell_at. simpl.
    destruct (lookup_lt_is_Some_2 (r_cells src) (a + m)) as [x Hx]; [lia|].
    destruct (lookup_lt_is_Some_2 (r_occ src) (a + m)) as [o Hox]; [lia|].
    rewrite Hx, Hox. simpl. unfold row_set, row_write. simpl.
    rewrite !(splice_snoc _ _ b m) by (rewrite ?lookup_drop; done || lia). done.
Qed.

Lemma copied_const {A} src dst len (l : list A) :
  src + len <= length l -> dst + len <= length l ->
  copied (fun x _ => x) src dst len l = splice l dst (take len (drop src l)).
Proof.
  intros. unfold copied. f_equal. apply list_eq. intros i.
  rewrite lookup_zip_with, !lookup_slice. case_decide; [|done].
  destruct (lookup_lt_is_Some_2 l (src + i)) as [x ->]; [lia|].
  destruct (lookup_lt_is_Some_2 l (dst + i)) as [y ->]; [lia|]. done.
Qed.

Lemma row_put_copy row src dst cols :
  wf_lengths cols row -> src < cols -> dst < cols ->
  row_put dst (cell_at row src) row =
    row <| r_cells := copy_at (fun x _ => x) src dst (r_cells row) |>
        <| r_occ := copy_at (fun x _ => x) src dst (r_occ row) |>.
Proof.
  intros [Hc Ho] Hs Hd. unfold cell_at, copy_at.
  destruct (lookup_lt_is_Some_2 (r_cells row) src) as [x ->]; [lia|].
  destruct (lookup_lt_is_Some_2 (r_occ row) src) as [o ->]; [lia|].
  destruct (lookup_lt_is_Some_2 (r_cells row) dst) as [x' ->]; [lia|].
  destruct (lookup_lt_is_Some_2 (r_occ row) dst) as [o' ->]; [lia|]. done.
Qed.

(** A loop of copies inside a row, as two loops over its two lists. *)
Lemma row_copy_loop row src dst offs cols :
  wf_lengths cols row -> Forall (fun off => src + off < cols /\ dst + off < cols) offs ->
  foldl (fun row off => row_put (dst + off) (cell_at row (src + off)) row) row offs =
    row <| r_cells := foldl (fun l off => copy_at (fun x _ => x) (src + off) (dst + off) l) (r_cells row) offs |>
        <| r_occ := foldl (fun l off => copy_at (fun x _ => x) (src + off) (dst + off) l) (r_occ row) offs |>.
Proof.
  intros Hw Ho. revert row Hw. induction Ho as [|off offs [Hs Hd] _ IH]; intros row Hw; simpl.
  - by destruct row.
  - rewrite (row_put_copy _ _ _ cols) by done. rewrite IH; [done|].
    destruct Hw. split; simpl; by rewrite length_copy_at.
Qed.

Lemma row_move_up row src dst len cols :
  wf_lengths cols row -> dst <= src -> src + len <= cols ->
  foldl (fun row off => row_put (dst + off) (cell_at row (src + off)) row) row (seq 0 len) =
    row_blit src dst len row row.
Proof.
  intros Hw Hd Hl. rewrite (row_copy_loop _ _ _ _ cols); [|done|].
  - destruct Hw. rewrite !copy_loop_up, !copied_const by lia. done.
  - apply list.Forall_forall. intros off Hoff. apply elem_of_seq in Hoff. lia.
Qed.

Lemma row_move_down row src dst len cols :
  wf_lengths cols row -> src <= dst -> dst + len <= cols ->
  foldl (fun row off => row_put (dst + off) (cell_at row (src + off)) row) row (reverse (seq 0 len)) =
    row_blit src dst len row row.
Proof.
  intros Hw Hd Hl. rewrite (row_copy_loop _ _ _ _ cols); [|done|].
  - destruct Hw. rewrite !copy_loop_down, !copied_const by lia. done.
  - apply list.Forall_forall. intros off Hoff. apply elem_of_reverse, elem_of_seq in Hoff. lia.
Qed.

(** ** Lifting to the screen *)
Lemma range_0 n : range 0 n = seq 0 n.
Proof. unfold range. by rewrite Nat.sub_0_r. Qed.

Lemma sim_ext_shape op f f' s :
  shape s -> (forall g, g = grid_of s -> f g = f' g) -> sim op f s -> sim op f' s.
Proof. intros _ H. apply sim_ext. by apply H. Qed.

(** Copying between two rows, and inside one. *)
Definition blit_row (r q a b n : nat) (g : Grid) : Grid :=
  match g_rows g !! r with
  | Some src => on_row q (row_blit a b n src) g
  | None => g
  end.

Lemma on_row_id r g : on_row r (fun row => row) g = g.
Proof. unfold on_row. rewrite list_alter_id by done. by destruct g. Qed.

Lemma blit_offsets_foldl r q a b offs src g :
  r <> q -> g_rows g !! r = Some src ->
  foldl (fun g off => on_row q (row_put (b + off) (row ← g_rows g !! r; cell_at row (a + off))) g) g offs
    = on_row q (fun row => foldl (fun row off => row_put (b + off) (cell_at src (a + off)) row) row offs) g.
Proof.
  intros Hrq. revert g. induction offs as [|off offs IH]; intros g Hg; simpl; [by rewrite on_row_id|].
  rewrite Hg. simpl. rewrite IH; [by rewrite on_row_compose|].
  simpl. by rewrite list_lookup_alter_ne.
Qed.

Lemma move_offsets_foldl r a b offs g :
  foldl (fun g off => on_row r (row_put (b + off) (row ← g_rows g !! r; cell_at row (a + off))) g) g offs
    = on_row r (fun row => foldl (fun row off => row_put (b + off) (cell_at row (a + off)) row) row offs) g.
Proof.
  revert g. induction offs as [|off offs IH]; intros g; simpl; [by rewrite on_row_id|].
  rewrite IH. unfold on_row. simpl. f_equal. destruct (g_rows g !! r) as [row|] eqn:E; simpl.
  - apply list_eq. intros i. destruct (decide (i = r)) as [->|].
    + rewrite !list_lookup_alter_eq, E. done.
    + by rewrite !list_lookup_alter_ne.
  - apply list_eq. intros i. destruct (decide (i = r)) as [->|].
    + rewrite !list_lookup_alter_eq, E. done.
    + by rewrite !list_lookup_alter_ne.
Qed.

Lemma sim_copy_offsets r q a b offs s :
  shape s -> r < nrows s -> q < nrows s ->
  Forall (fun off => a + off < ncols s /\ b + off < ncols s) offs ->
  sim (for_each (fun off => copy_cell (physical_row_start s r + a + off)
                                      (physical_row_start s q + b + off)) offs)
      (fun g => foldl (fun g off => on_row q (row_put (b + off) (row ← g_rows g !! r; cell_at row (a + off))) g) g offs) s.
Proof.
  intros Hs Hr Hq Ho. rewrite list.Forall_forall in Ho.
  apply (sim_for_each _ (fun off g => on_row q (row_put (b + off) (row ← g_rows g !! r; cell_at row (a + off))) g)); [done|].
  intros off s' Hoff Hf. destruct (Ho off Hoff). pose proof Hf as (Hs' & Hd & Ht).
  eapply sim_op_ext; [|apply (sim_copy_cell r (a + off) q (b + off) s')]; rewrite ?Hd; try done.
  simpl. by rewrite !(same_frame_start s s'), !Nat.add_assoc by done.
Qed.

Lemma sim_copy_span r q a b n s :
  shape s -> r < nrows s -> q < nrows s -> r <> q -> a + n <= ncols s -> b + n <= ncols s ->
  sim (for_each (fun off => copy_cell (physical_row_start s r + a + off)
                                      (physical_row_start s q + b + off)) (range 0 n))
      (blit_row r q a b n) s.
Proof.
  intros Hs Hr Hq Hrq Ha Hb. rewrite range_0.
  eapply sim_ext; [|apply sim_copy_offsets; try done].
  - cbv beta. rewrite (blit_offsets_foldl _ _ _ _ _ (view_row s r)) by (done || by apply grid_lookup).
    unfold blit_row. rewrite grid_lookup by done. apply on_row_ext. intros _.
    apply (row_put_loop _ _ _ _ _ (ncols s)); try done; by apply view_row_lengths.
  - apply list.Forall_forall. intros off Hoff. apply elem_of_seq in Hoff. lia.
Qed.

Lemma sim_move_cells r src dst len s :
  shape s -> r < nrows s -> src + len <= ncols s -> dst + len <= ncols s ->
  sim (move_cells_within_row (physical_row_start s r + src) (physical_row_start s r + src + len)
         (physical_row_start s r + dst))
      (on_row r (fun row => row_blit src dst len row row)) s.
Proof.
  intros Hs Hr Ha Hb. unfold move_cells_within_row.
  replace (physical_row_start s r + src + len - (physical_row_start s r + src)) with len by lia.
  rewrite range_0.
  assert (Forall (fun off => src + off < ncols s /\ dst + off < ncols s) (seq 0 len)) as Ho
    by (apply list.Forall_forall; intros off Hoff; apply elem_of_seq in Hoff; lia).
  destruct (_ <? _) eqn:E; bools.
  - eapply sim_ext; [|apply sim_copy_offsets; try done; by apply Forall_reverse].
    cbv beta. rewrite move_offsets_foldl. apply on_row_ext. intros _.
    apply (row_move_down _ _ _ _ (ncols s)); [by apply view_row_lengths|lia..].
  - eapply sim_ext; [|by apply sim_copy_offsets].
    cbv beta. rewrite move_offsets_foldl. apply on_row_ext. intros _.
    apply (row_move_up _ _ _ _ (ncols s)); [by apply view_row_lengths|lia..].
Qed.

(** ** Sequencing

    [result o g s]: [o] is a screen with the frame of [s] and the grid [g]. *)
Definition result (o : option Screen) (g : Grid) (s : Screen) : Prop :=
  exists s', o = Some s' /\ same_frame s s' /\ grid_of s' = g.

Lemma result_bind o k g1 g2 s :
  result o g1 s ->
  (forall s', same_frame s s' -> grid_of s' = g1 -> result (k s') g2 s') ->
  result (o ≫= k) g2 s.
Proof.
  intros (s1 & -> & Hf & Hg) H. destruct (H s1 Hf Hg) as (s2 & E & Hf2 & Hg2).
  exists s2. split_and!; [done|by eapply same_frame_trans|done].
Qed.

Lemma result_last op f g s : sim op f s -> f (grid_of s) = g -> result (op s) g s.
Proof. intros (s' & ? & ? & ?) <-. by exists s'. Qed.

Lemma sim_result op f s : result (op s) (f (grid_of s)) s -> sim op f s.
Proof. done. Qed.

Lemma result_ret s g : shape s -> grid_of s = g -> result (Some s) g s.
Proof. intros. by exists s. Qed.

(** [frames]: facts about a screen with the frame of a known one. *)
Ltac frames :=
  repeat match goal with
  | H : same_frame _ ?s |- shape ?s => apply H
  | H : same_frame ?a ?s |- context [dimensions ?s] => rewrite (proj1 (proj2 H))
  | H : same_frame ?a ?s |- context [physical_row_start ?s ?r] => rewrite (same_frame_start a s r H)
  end; try done; try lia.

(** Run one step whose effect is the simulation lemma [l]. *)
Ltac step l := eapply result_bind; [apply l; frames | intros ? ? ?].
Ltac finish l := eapply result_last; [apply l; frames | ].
Ltac grids := repeat match goal with H : grid_of _ = _ |- _ => rewrite H; clear H end.

Lemma on_row_dirty r f d g : on_row r f (on_dirty d g) = on_dirty d (on_row r f g).
Proof. done. Qed.

(** Grid equations as one update per row, the redraw flags outermost. *)
Ltac norm_grid := grids; frames; rewrite ?on_row_dirty, ?on_row_compose.

Section WithPlatform.
Context `{P : Platform}.

Definition dirty_row (r : nat) : Grid -> Grid := on_dirty (fun d => <[r := true]> d).

(** *** Writing characters *)
Definition row_replace (c : nat) (x : Cell) (row : Row) : Row := row_recompute (row_set c x true row).

Lemma sim_replace_cell c r x s :
  shape s -> r < nrows s -> c < ncols s ->
  sim (replace_cell c r x) (fun g => dirty_row r (on_row r (row_replace c x) g)) s.
Proof.
  intros Hs Hr Hc. apply sim_result. unfold replace_cell, cell_index.
  rewrite !(proj2 (Nat.ltb_lt _ _)) by done. simpl.
  step (sim_set_cell r c x true). step (sim_recompute r). finish (sim_mark_dirty r).
  grids. unfold row_replace. by rewrite on_row_compose.
Qed.

Definition row_extend (c w : nat) (row : Row) : Row :=
  if r_ext row <=? c then row <| r_ext := c + w |> else row_recompute row.

Lemma occupied_lookup s r :
  shape s -> r < nrows s ->
  occupied_columns s !! physical_row s r = Some (r_ext (view_row s r)).
Proof.
  intros Hs Hr. destruct (lookup_lt_is_Some_2 (occupied_columns s) (physical_row s r)) as [n Hn].
  - rewrite (shape_ext s Hs). apply physical_row_lt; [apply Hs|done].
  - simpl. by rewrite Hn.
Qed.

Lemma soft_lookup s r :
  shape s -> r < nrows s ->
  soft_wrapped_rows s !! physical_row s r = Some (r_soft (view_row s r)).
Proof.
  intros Hs Hr. destruct (lookup_lt_is_Some_2 (soft_wrapped_rows s) (physical_row s r)) as [n Hn].
  - rewrite (shape_soft s Hs). apply physical_row_lt; [apply Hs|done].
  - simpl. by rewrite Hn.
Qed.

Lemma sim_extend r c w s :
  shape s -> r < nrows s -> sim (extend_occupied_or_recompute r c w) (on_row r (row_extend c w)) s.
Proof.
  intros Hs Hr. apply sim_result. unfold extend_occupied_or_recompute.
  rewrite occupied_lookup by done. cbn [mbind option_bind].
  destruct (_ <=? _) eqn:E.
  - eapply (result_last (fun s => oc ← set_index (occupied_columns s) (physical_row s r) (c + w); Some (s <| occupied_columns := oc |>))).
    + by apply sim_set_ext.
    + apply on_row_ext. intros _. unfold row_extend. by rewrite E.
  - finish (sim_recompute r). apply on_row_ext. intros _. unfold row_extend. by rewrite E.
Qed.

Definition cluster_write (c : nat) (x : Cell) (row : Row) : Row :=
  let row1 := row_set c x true row in
  if width_columns (width x) =? 2 then row_set (c + 1) (continuation_of x) true row1 else row1.

Definition row_cluster (cols c : nat) (x : Cell) (row : Row) : Row :=
  let w := width_columns (width x) in
  row_extend c w
    (row_repair_list blank_cell (neighborhood cols (c + w))
       (row_repair_list blank_cell (neighborhood cols c) (cluster_write c x row))).

Lemma sim_replace_cluster c r x s :
  shape s -> r < nrows s -> c + width_columns (width x) <= ncols s -> c < ncols s ->
  sim (replace_cluster c r x) (fun g => dirty_row r (on_row r (row_cluster (ncols s) c x) g)) s.
Proof.
  intros Hs Hr Hw Hc. apply sim_result. unfold replace_cluster, cell_index.
  rewrite !(proj2 (Nat.ltb_lt _ _)) by done. cbn [mbind option_bind andb].
  step (sim_set_cell r c x true).
  eapply (result_bind _ _ (on_row r (cluster_write c x) (grid_of s))).
  - unfold cluster_write. destruct (_ =? 2) eqn:E; bools.
    + rewrite !(proj2 (Nat.ltb_lt _ _)) by frames.
      cbn [mbind option_bind andb].
      eapply (result_last (fun s0 => set_cell (physical_row_start s0 r + (c + 1)) (continuation_of x) true s0)).
      * apply sim_set_cell; frames.
      * grids. by rewrite on_row_compose.
    + apply result_ret; [frames|]. grids. done.
  - intros s2 F2 G2. step (sim_mark_dirty r). step (sim_repair_neighborhood r c blank_cell).
    step (sim_repair_neighborhood r (c + width_columns (width x)) blank_cell).
    finish (sim_extend r c). by norm_grid.
Qed.

(** *** Loops over rows *)
Lemma rows_alter_loop (f : Row -> Row) a n g :
  a + n <= length (g_rows g) ->
  foldl (fun g r => on_row r f g) g (seq a n) = on_rows (map_range f a n) g.
Proof.
  intros H. unfold on_rows. rewrite <- alter_loop by done.
  assert (forall xs rs d, foldl (fun g r => on_row r f g) (mkGrid rs d) xs =
     mkGrid (foldl (fun l i => alter f i l) rs xs) d) as E.
  { induction xs as [|x xs IH]; intros; [done|]. apply IH. }
  destruct g. apply E.
Qed.

Lemma sim_each_row (op : nat -> Screen -> option Screen) f a n s :
  shape s -> a + n <= nrows s ->
  (forall r s', a <= r < a + n -> same_frame s s' -> sim (op r) (on_row r f) s') ->
  sim (for_each op (seq a n)) (on_rows (map_range f a n)) s.
Proof.
  intros Hs Hn H. eapply sim_ext; [|apply (sim_for_each op (fun r => on_row r f)); [done|]].
  - apply rows_alter_loop. by rewrite grid_length.
  - intros r s' Hr Hf. apply elem_of_seq in Hr. auto.
Qed.

Lemma sim_span_edges r sp s :
  shape s -> r < nrows s ->
  sim (repair_span_edges r sp) (on_row r (row_edges blank_cell (ncols s) (left sp) (right sp))) s.
Proof.
  intros Hs Hr. apply sim_result. unfold repair_span_edges.
  step (sim_repair_neighborhood r (left sp) blank_cell).
  finish (sim_repair_neighborhood r (right sp + 1) blank_cell). by norm_grid.
Qed.

(** Writing a span of a row, then repairing its edges and its extent. *)
Definition row_close (cols l r : nat) (row : Row) : Row :=
  row_recompute (row_edges blank_cell cols l r row).

Lemma result_close o f r sp s :
  shape s -> r < nrows s -> result o (on_row r f (grid_of s)) s ->
  result (s1 ← o; s2 ← repair_span_edges r sp s1; recompute_occupied r s2)
    (on_row r (fun row => row_close (ncols s) (left sp) (right sp) (f row)) (grid_of s)) s.
Proof.
  intros Hs Hr Ho. eapply result_bind; [exact Ho|]. intros s1 F1 G1.
  step (sim_span_edges r sp). finish (sim_recompute r). by norm_grid.
Qed.

(** *** Rectangles *)
Definition row_rect_cell (x : Cell) (spare : bool) (c : nat) (row : Row) : Row :=
  match r_cells row !! c with
  | Some old => if spare && contains (attributes old) PROTECTED then row
                else row_set c x (negb (is_structural_blank x)) row
  | None => row
  end.

Definition row_rect (l w : nat) (x : Cell) (spare : bool) (row : Row) : Row :=
  foldl (fun row off => row_rect_cell x spare (l + off) row) row (seq 0 w).

Lemma sim_rect_cell r c x spare s :
  shape s -> r < nrows s -> c < ncols s ->
  sim (fun s => old ← cells s !! (physical_row_start s r + c);
                if spare && contains (attributes old) PROTECTED then Some s
                else set_cell (physical_row_start s r + c) x (negb (is_structural_blank x)) s)
      (on_row r (row_rect_cell x spare c)) s.
Proof.
  intros Hs Hr Hc. apply sim_result.
  destruct (view_cell_at s r c Hs Hr Hc) as (old & o & Hx & _ & _).
  rewrite Hx. cbn [mbind option_bind].
  assert (r_cells (view_row s r) !! c = Some old) as Hv by (rewrite view_cell_lookup; done).
  destruct (spare && _) eqn:E.
  - apply result_ret; [done|]. rewrite (on_row_ext r _ (fun row => row)); [by rewrite on_row_id|].
    intros _. unfold row_rect_cell. by rewrite Hv, E.
  - eapply (result_last (fun s => set_cell (physical_row_start s r + c) x _ s)); [by apply sim_set_cell|].
    apply on_row_ext. intros _. unfold row_rect_cell. by rewrite Hv, E.
Qed.

Definition row_fill_rect (cols : nat) (rect : Rectangle) (x : Cell) (spare : bool) (row : Row) : Row :=
  row_close cols (rect_left rect) (rect_right rect)
    (row_rect (rect_left rect) (rect_right rect + 1 - rect_left rect) x spare row).

Lemma sim_fill_rectangle_row rect x spare r s :
  shape s -> r < nrows s -> rect_right rect < ncols s ->
  sim (fill_rectangle_row rect x spare r)
    (on_row r (row_fill_rect (ncols s) rect x spare)) s.
Proof.
  intros Hs Hr Hc. apply sim_result. unfold fill_rectangle_row.
  apply (result_close _ _ r (mkSpan (rect_left rect) (rect_right rect))); [done..|].
  unfold span_width. cbn [left right]. rewrite range_0.
  set (w := rect_right rect + 1 - rect_left rect).
  eapply sim_ext; [|apply (sim_for_each _ (fun off => on_row r (row_rect_cell x spare (rect_left rect + off))))]; [|done|].
  - cbv beta. by rewrite (on_row_foldl r (fun off => row_rect_cell x spare (rect_left rect + off))).
  - intros off s' Hoff F. apply elem_of_seq in Hoff.
    eapply sim_op_ext; [|apply (sim_rect_cell r (rect_left rect + off) x spare s'); frames].
    unfold fill_rectangle_cell. by rewrite (same_frame_start s s'), !Nat.add_assoc.
Qed.

Definition rows_close_map (f : Row -> Row) (a b : nat) (g : Grid) : Grid :=
  on_dirty (dirty_range a b) (on_rows (map_range f a (S b - a)) g).

Lemma sim_fill_rectangle rect x spare s :
  shape s -> rect_top rect <= rect_bottom rect < nrows s -> rect_right rect < ncols s ->
  sim (fill_rectangle rect x spare)
    (rows_close_map (row_fill_rect (ncols s) rect x spare) (rect_top rect) (rect_bottom rect)) s.
Proof.
  intros Hs Hb Hr. apply sim_result. unfold fill_rectangle.
  eapply result_bind.
  - apply (sim_each_row _ (row_fill_rect (ncols s) rect x spare)); [done|lia|].
    intros r s' Hr' F. rewrite <- (proj1 (proj2 F)). apply sim_fill_rectangle_row; frames.
  - intros s1 F1 G1. finish (sim_mark_dirty_range (rect_top rect) (rect_bottom rect)).
    grids. done.
Qed.

(** The cells [copy_rectangle] reads out of row [r]. *)
Definition row_line (l w : nat) (row : Row) : list (Cell * bool) :=
  zip (take w (drop l (r_cells row))) (take w (drop l (r_occ row))).

Lemma row_line_lookup l w row off :
  off < w -> row_line l w row !! off = cell_at row (l + off).
Proof.
  intros. unfold row_line, cell_at. rewrite lookup_zip_with, !lookup_slice, !decide_True by done. done.
Qed.

Lemma read_rectangle_view s t l h w :
  shape s -> t + h <= nrows s -> l + w <= ncols s ->
  read_rectangle s t l h w = Some (map (fun i => row_line l w (view_row s (t + i))) (seq 0 h)).
Proof.
  intros Hs Ht Hl. unfold read_rectangle. rewrite !range_0. apply mapM_total. intros i Hi.
  apply elem_of_seq in Hi.
  assert (forall off, off < w -> (c ← cells s !! (physical_row_start s (t + i) + l + off);
     o ← occupied_cells s !! (physical_row_start s (t + i) + l + off); Some (c, o)) =
     row_line l w (view_row s (t + i)) !! off) as E.
  { intros off Hoff. rewrite row_line_lookup by done.
    destruct (view_cell_at s (t + i) (l + off)) as (x & o & Hx & Ho & ->); [done|lia..|].
    by rewrite <- !Nat.add_assoc, Hx, Ho. }
  assert (length (row_line l w (view_row s (t + i))) = w) as Hlen.
  { unfold row_line. destruct (view_row_lengths s (t + i) Hs ltac:(lia)).
    rewrite length_zip_with, !length_take, !length_drop. lia. }
  apply mapM_Some. revert E Hlen.
  generalize (row_line l w (view_row s (t + i))) as line. intros line E Hlen.
  apply Forall2_same_length_lookup. split; [by rewrite length_seq|].
  intros k off x Hk Hx. apply lookup_seq in Hk as [-> Hk]. simpl. by rewrite E.
Qed.

Definition row_paste (cols sl dl w : nat) (src dst : Row) : Row :=
  row_close cols dl (dl + w - 1) (row_blit sl dl w src dst).

Lemma sim_write_copied_row src dt dl sl w copied i q s :
  shape s -> q = dt + i -> q < nrows s -> 1 <= w -> dl + w <= ncols s -> sl + w <= ncols s ->
  copied !! i = Some (row_line sl w src) -> wf_lengths (ncols s) src ->
  sim (write_copied_row dt dl w copied i) (on_row q (row_paste (ncols s) sl dl w src)) s.
Proof.
  intros Hs -> Hq Hw Hd Hsl Hc Hsrc. apply sim_result. unfold write_copied_row. rewrite Hc.
  cbn [mbind option_bind].
  apply (result_close _ _ (dt + i) (mkSpan dl (dl + w - 1))); [done..|].
  rewrite range_0.
  eapply sim_ext; [|apply (sim_for_each _ (fun off => on_row (dt + i) (row_put (dl + off) (cell_at src (sl + off)))))]; [|done|].
  - cbv beta. rewrite (on_row_foldl (dt + i) (fun off => row_put (dl + off) (cell_at src (sl + off)))).
    apply on_row_ext. intros _. apply (row_put_loop _ _ _ _ _ (ncols s)); try done.
    by apply view_row_lengths.
  - intros off s' Hoff F. apply elem_of_seq in Hoff. rewrite row_line_lookup by lia.
    destruct Hsrc. unfold cell_at.
    destruct (lookup_lt_is_Some_2 (r_cells src) (sl + off)) as [x Hx]; [lia|].
    destruct (lookup_lt_is_Some_2 (r_occ src) (sl + off)) as [o Ho]; [lia|].
    rewrite Hx, Ho. cbn [mbind option_bind].
    eapply sim_op_ext; [|apply (sim_set_cell (dt + i) (dl + off) x o s'); frames].
    simpl. by rewrite (same_frame_start s s'), !Nat.add_assoc.
Qed.

Lemma foldl_on_row (f : nat -> Row -> Row) (q : nat -> nat) xs g :
  foldl (fun g i => on_row (q i) (f i) g) g xs =
    on_rows (fun l => foldl (fun l i => alter (f i) (q i) l) l xs) g.
Proof.
  revert g. induction xs as [|x xs IH]; intros g; simpl; [by destruct g|]. by rewrite IH.
Qed.

Definition copy_size (s : Screen) (rect : Rectangle) (dt dl : nat) : nat * nat :=
  (Nat.min (rect_bottom rect + 1 - rect_top rect) (nrows s - dt),
   Nat.min (rect_right rect + 1 - rect_left rect) (ncols s - dl)).

Lemma sim_copy_rectangle rect dt dl s :
  shape s -> rect_top rect <= rect_bottom rect < nrows s -> rect_left rect <= rect_right rect < ncols s ->
  dt < nrows s -> dl < ncols s ->
  sim (copy_rectangle rect dt dl)
    (fun g => let '(h, w) := copy_size s rect dt dl in
       if (h =? 0) || (w =? 0) then g
       else on_dirty (dirty_range dt (dt + h - 1))
              (on_rows (copied (row_paste (ncols s) (rect_left rect) dl w) (rect_top rect) dt h) g)) s.
Proof.
  intros Hs Hb Hr Hdt Hdl. apply sim_result. unfold copy_rectangle, copy_size.
  rewrite !sub_usize_Some by lia. cbn [mbind option_bind].
  set (h := Nat.min (rect_bottom rect + 1 - rect_top rect) (nrows s - dt)).
  set (w := Nat.min (rect_right rect + 1 - rect_left rect) (ncols s - dl)).
  destruct ((h =? 0) || (w =? 0)) eqn:E; [by apply result_ret|].
  assert (h <> 0 /\ w <> 0) as [Hh Hw] by lia. clear E.
  rewrite read_rectangle_view by (done || lia). cbn [mbind option_bind].
  eapply result_bind.
  - rewrite range_0.
    apply (sim_for_each _ (fun i => on_row (dt + i)
      (row_paste (ncols s) (rect_left rect) dl w (view_row s (rect_top rect + i))))); [done|].
    intros i s' Hi F. apply elem_of_seq in Hi. rewrite <- (proj1 (proj2 F)).
    apply sim_write_copied_row; frames.
    + rewrite list_lookup_fmap, lookup_seq_lt by lia. done.
    + apply view_row_lengths; [done|lia].
  - intros s1 F1 G1. finish (sim_mark_dirty_range dt (dt + h - 1)).
    grids. f_equal.
    rewrite (foldl_on_row (fun i => row_paste (ncols s) (rect_left rect) dl w (view_row s (rect_top rect + i)))).
    unfold on_rows. f_equal. cbn [g_rows grid_of]. apply copy_out_loop; rewrite ?length_map, ?length_seq; [lia..|].
    intros i Hi. apply grid_lookup. lia.
Qed.

(** *** Shifting characters within a row *)
Definition repair_at (fill : Cell) (cols boundary : nat) : Row -> Row :=
  row_repair_list fill (neighborhood cols boundary).

Definition row_insert_chars (cols c n r : nat) (x : Cell) (row : Row) : Row :=
  row_recompute (repair_at x cols (r + 1) (repair_at x cols (c + n) (repair_at x cols c
    (row_fill c (c + n) x (row_blit c (c + n) (r + 1 - n - c) row row))))).

Definition row_delete_chars (cols c n r : nat) (x : Cell) (row : Row) : Row :=
  row_recompute (repair_at x cols (r + 1) (repair_at x cols (r + 1 - n) (repair_at x cols c
    (row_fill (r + 1 - n) (r + 1) x (row_blit (c + n) c (r + 1 - n - c) row row))))).

(** [fill_cells] with the row start computed in an earlier state. *)
Lemma result_fill_cells s0 s r a b x i j :
  same_frame s0 s -> r < nrows s0 -> a <= b <= ncols s0 ->
  i = physical_row_start s0 r + a -> j = physical_row_start s0 r + b ->
  result (fill_cells i j x s) (on_row r (row_fill a b x) (grid_of s)) s.
Proof.
  intros F Hr Hab -> ->. rewrite <- !(same_frame_start s0 s) by done.
  apply (sim_fill_cells r a b x s); frames.
Qed.

Lemma sim_insert_characters c r n x sp s :
  shape s -> r < nrows s ->
  sim (insert_characters c r n x sp)
    (fun g => let right := Nat.min (right sp) (ncols s - 1) in
       if right <? c then g
       else dirty_row r (on_row r (row_insert_chars (ncols s) c (Nat.min n (right + 1 - c)) right x) g)) s.
Proof.
  intros Hs Hr. apply sim_result. unfold insert_characters. pose proof (proj1 (shape_dims s Hs)).
  set (rt := Nat.min (right sp) (ncols s - 1)). destruct (rt <? c) eqn:E; bools; [by apply result_ret|].
  set (k := Nat.min n (rt + 1 - c)).
  eapply result_bind.
  - pose proof (sim_move_cells r c (c + k) (rt + 1 - k - c) s Hs Hr ltac:(lia) ltac:(lia)) as M.
    replace (physical_row_start s r + c + (rt + 1 - k - c))
      with (physical_row_start s r + rt + 1 - k) in M by lia.
    rewrite Nat.add_assoc in M. exact M.
  - intros s1 F1 G1.
    eapply result_bind.
    + apply (result_fill_cells s s1 r c (c + k) x); frames.
    + intros s2 F2 G2. step (sim_mark_dirty r). step (sim_repair_neighborhood r c x).
      step (sim_repair_neighborhood r (c + k) x). step (sim_repair_neighborhood r (rt + 1) x).
      finish (sim_recompute r). by norm_grid.
Qed.

Lemma sim_delete_characters c r n x sp s :
  shape s -> r < nrows s ->
  sim (delete_characters c r n x sp)
    (fun g => let right := Nat.min (right sp) (ncols s - 1) in
       if right <? c then g
       else dirty_row r (on_row r (row_delete_chars (ncols s) c (Nat.min n (right + 1 - c)) right x) g)) s.
Proof.
  intros Hs Hr. apply sim_result. unfold delete_characters. pose proof (proj1 (shape_dims s Hs)).
  set (rt := Nat.min (right sp) (ncols s - 1)). destruct (rt <? c) eqn:E; bools; [by apply result_ret|].
  set (k := Nat.min n (rt + 1 - c)).
  eapply result_bind.
  - pose proof (sim_move_cells r (c + k) c (rt + 1 - k - c) s Hs Hr ltac:(lia) ltac:(lia)) as M.
    replace (physical_row_start s r + (c + k) + (rt + 1 - k - c))
      with (physical_row_start s r + rt + 1) in M by lia.
    rewrite Nat.add_assoc in M. exact M.
  - intros s1 F1 G1.
    eapply result_bind.
    + apply (result_fill_cells s s1 r (rt + 1 - k) (rt + 1) x); frames.
    + intros s2 F2 G2. step (sim_mark_dirty r). step (sim_repair_neighborhood r c x).
      step (sim_repair_neighborhood r (rt + 1 - k) x). step (sim_repair_neighborhood r (rt + 1) x).
      finish (sim_recompute r). by norm_grid.
Qed.

(** *** Shifting rows *)
Definition full_row (cols : nat) (x : Cell) : Row :=
  let o := negb (is_structural_blank x) in
  mkRow (replicate cols x) (replicate cols o) false (row_extent o cols).

Lemma splice_all {A} (l new : list A) : length new = length l -> splice l 0 new = new.
Proof. intros H. unfold splice. simpl. rewrite H, drop_all. apply app_nil_r. Qed.

(** Replacing part of a row's cells together with its flags and extent. *)
Lemma sim_write_row r a cs os w n s :
  shape s -> r < nrows s -> a + length cs <= ncols s -> length os = length cs ->
  sim (fun s => c' ← write_slice (cells s) (physical_row_start s r + a) cs;
                o' ← write_slice (occupied_cells s) (physical_row_start s r + a) os;
                w' ← set_index (soft_wrapped_rows s) (physical_row s r) w;
                n' ← set_index (occupied_columns s) (physical_row s r) n;
                Some (s <| cells := c' |> <| occupied_cells := o' |> <| soft_wrapped_rows := w' |>
                        <| occupied_columns := n' |>))
      (on_row r (fun row => (row_write a cs os row) <| r_soft := w |> <| r_ext := n |>)) s.
Proof.
  intros Hs Hr Ha Hl.
  destruct (sim_write r a cs os s) as (s1 & E1 & F1 & G1); [done..|].
  destruct (sim_set_soft_wrapped w r s1) as (s2 & E2 & F2 & G2); frames.
  destruct (sim_set_ext n r s2) as (s3 & E3 & F3 & G3); frames.
  apply bind_Some in E1 as (c' & E1c & E1). apply bind_Some in E1 as (o' & E1o & [= <-]).
  unfold set_soft_wrapped in E2. apply bind_Some in E2 as (w' & Ew & [= <-]).
  apply bind_Some in E3 as (n' & En & [= <-]).
  change (set_index (soft_wrapped_rows s) (physical_row s r) w = Some w') in Ew.
  change (set_index (occupied_columns s) (physical_row s r) n = Some n') in En.
  unfold sim. rewrite E1c. cbn [mbind option_bind]. rewrite E1o. cbn [mbind option_bind].
  rewrite Ew. cbn [mbind option_bind]. rewrite En. cbn [mbind option_bind].
  eexists. split; [done|]. split; [by do 2 (eapply same_frame_trans; [eassumption|])|].
  etransitivity; [exact G3|]. rewrite G2, G1, !on_row_compose. done.
Qed.

Lemma sim_fill_row r x s :
  shape s -> r < nrows s -> sim (fill_row r x) (on_row r (fun _ => full_row (ncols s) x)) s.
Proof.
  intros Hs Hr. set (o := negb (is_structural_blank x)).
  pose proof (row_start_bound s Hs r (ncols s) Hr ltac:(lia)) as B. destruct (Hs) as [_ _ Hc Ho _ _ _].
  eapply sim_op_ext; [|eapply sim_ext; [|apply (sim_write_row r 0 (replicate (ncols s) x)
    (replicate (ncols s) o) false (row_extent o (ncols s)) s)]]; rewrite ?length_replicate; try done.
  - unfold fill_row, fill_cells. rewrite Nat.add_0_r.
    rewrite !fill_slice_Some, !write_slice_Some by (rewrite ?length_replicate; lia). simpl.
    by replace (physical_row_start s r + ncols s - physical_row_start s r) with (ncols s) by lia.
  - apply on_row_ext. intros _. destruct (view_row_lengths s r Hs Hr) as [Lc Lo].
    unfold row_write. by rewrite !splice_all by (rewrite length_replicate; done).
Qed.
Lemma row_start_inj s r q :
  shape s -> r < nrows s -> q < nrows s -> physical_row_start s r = physical_row_start s q -> r = q.
Proof.
  intros Hs Hr Hq E. pose proof (proj1 (shape_dims s Hs)).
  apply (physical_row_inj s); [apply Hs|done..|]. unfold physical_row_start in E.
  apply Nat.mul_cancel_r in E; [done|lia].
Qed.

Lemma copy_at_rows r q f src s :
  g_rows (grid_of s) !! r = Some src -> q < nrows s ->
  on_row q (f src) (grid_of s) = on_rows (copy_at f r q) (grid_of s).
Proof.
  intros Hr Hq. unfold on_row, on_rows, copy_at. rewrite Hr, grid_lookup by done. f_equal.
  apply list_eq. intros i. rewrite list_lookup_alter, list_lookup_insert, grid_length.
  repeat case_decide; subst; try done; try lia; by rewrite grid_lookup.
Qed.

Lemma copy_at_same {A} (l : list A) i : copy_at (fun x _ => x) i i l = l.
Proof. unfold copy_at. destruct (l !! i) eqn:E; [|done]. by apply list_insert_id. Qed.

Lemma on_rows_id f g : (f (g_rows g) = g_rows g) -> on_rows f g = g.
Proof. intros E. unfold on_rows. rewrite E. by destruct g. Qed.

Lemma sim_copy_row r q s :
  shape s -> r < nrows s -> q < nrows s ->
  sim (copy_row r q) (on_rows (copy_at (fun x _ => x) r q)) s.
Proof.
  intros Hs Hr Hq. apply sim_result. unfold copy_row. destruct (_ =? _) eqn:E; bools.
  - apply row_start_inj in E as <-; [|done..]. apply result_ret; [done|].
    by rewrite on_rows_id by apply copy_at_same.
  - pose proof (row_start_bound s Hs r (ncols s) Hr ltac:(lia)) as B1.
    pose proof (row_start_bound s Hs q (ncols s) Hq ltac:(lia)) as B2.
    destruct (view_row_lengths s r Hs Hr) as [Lc Lo]. destruct (view_row_lengths s q Hs Hq) as [Lc' Lo'].
    destruct (Hs) as [_ _ Hc Ho _ _ _].
    destruct (sim_write_row q 0 (r_cells (view_row s r)) (r_occ (view_row s r)) (r_soft (view_row s r))
      (r_ext (view_row s r)) s) as (s1 & E1 & F1 & G1); [done|done|lia|lia|].
    exists s1. split; [|split; [done|]].
    + rewrite <- E1, Nat.add_0_r, !copy_within_Some, !write_slice_Some by lia.
      rewrite occupied_lookup, soft_lookup by done.
      by replace (physical_row_start s r + ncols s - physical_row_start s r) with (ncols s) by lia.
    + rewrite G1, <- (copy_at_rows r q _ (view_row s r)) by (done || by apply grid_lookup).
      apply on_row_ext. intros _. unfold row_write.
      rewrite (splice_all (r_cells (view_row s q))), (splice_all (r_occ (view_row s q))) by lia.
      by destruct (view_row s r).
Qed.

(** Copying and filling the part of a row inside a span. *)
Definition row_shift_span (cols : nat) (sp : ColumnSpan) (src dst : Row) : Row :=
  row_close cols (left sp) (right sp) (row_blit (left sp) (left sp) (span_width sp) src dst).
Definition row_fill_span (cols : nat) (sp : ColumnSpan) (x : Cell) (row : Row) : Row :=
  row_close cols (left sp) (right sp) (row_fill (left sp) (left sp + span_width sp) x row).

Definition span_ok (cols : nat) (sp : ColumnSpan) : Prop := left sp <= right sp < cols.

Lemma sim_copy_row_span r q sp s :
  shape s -> r < nrows s -> q < nrows s -> r <> q -> span_ok (ncols s) sp ->
  sim (copy_row_span r q sp) (on_rows (copy_at (row_shift_span (ncols s) sp) r q)) s.
Proof.
  intros Hs Hr Hq Hrq [Hl Hw]. apply sim_result. unfold copy_row_span.
  destruct (_ =? _) eqn:E; bools.
  { exfalso. apply Hrq, (row_start_inj s); [done..|]. lia. }
  rewrite <- (copy_at_rows r q _ (view_row s r)) by (done || by apply grid_lookup).
  apply (result_close _ _ q sp); [done..|].
  assert (left sp + span_width sp <= ncols s) by (unfold span_width; lia).
  destruct (sim_copy_span r q (left sp) (left sp) (span_width sp) s) as (s1 & E1 & F1 & G1); [done..|].
  exists s1. split; [done|]. split; [done|]. rewrite G1. unfold blit_row. by rewrite grid_lookup.
Qed.

Lemma sim_fill_row_span r x sp s :
  shape s -> r < nrows s -> span_ok (ncols s) sp ->
  sim (fill_row_span r x sp) (on_row r (row_fill_span (ncols s) sp x)) s.
Proof.
  intros Hs Hr [Hl Hw]. apply sim_result. unfold fill_row_span.
  apply (result_close _ _ r sp); [done..|].
  assert (left sp + span_width sp <= ncols s) by (unfold span_width; lia).
  apply (result_fill_cells s s r); done || lia.
Qed.

(** What a row shift does to a pair of rows, and to a row it leaves. *)
Definition shift_copy (cols : nat) (sp : ColumnSpan) (src dst : Row) : Row :=
  if is_full sp cols then src else row_shift_span cols sp src dst.
Definition shift_fill (cols : nat) (sp : ColumnSpan) (x : Cell) (row : Row) : Row :=
  if is_full sp cols then full_row cols x else row_fill_span cols sp x row.

Definition rows_down (cols first n count : nat) (x : Cell) (sp : ColumnSpan) (l : list Row) : list Row :=
  map_range (shift_fill cols sp x) first count
    (copied (shift_copy cols sp) first (first + count) (n - count) l).
Definition rows_up (cols first n count : nat) (x : Cell) (sp : ColumnSpan) (l : list Row) : list Row :=
  map_range (shift_fill cols sp x) (first + n - count) count
    (copied (shift_copy cols sp) (first + count) first (n - count) l).

Lemma foldl_on_rows {I} (f : I -> list Row -> list Row) xs g :
  foldl (fun g i => on_rows (f i) g) g xs = on_rows (fun l => foldl (fun l i => f i l) l xs) g.
Proof. revert g. induction xs as [|x xs IH]; intros g; simpl; [by destruct g|]. by rewrite IH. Qed.

Lemma sim_row_copies (h : Row -> Row -> Row) (op : nat -> Screen -> option Screen) (q : nat -> nat) xs s :
  shape s ->
  (forall i s', i ∈ xs -> same_frame s s' -> sim (op i) (on_rows (copy_at h i (q i))) s') ->
  sim (for_each op xs) (on_rows (fun l => foldl (fun l i => copy_at h i (q i) l) l xs)) s.
Proof.
  intros Hs H. eapply sim_ext; [|by apply (sim_for_each op (fun i => on_rows (copy_at h i (q i))))].
  apply foldl_on_rows.
Qed.

Lemma copy_rows_full cols sp : is_full sp cols = true -> shift_copy cols sp = fun x _ => x.
Proof. intros E. unfold shift_copy. by rewrite E. Qed.
Lemma sim_shift_copy r q sp s :
  shape s -> r < nrows s -> q < nrows s -> r <> q -> span_ok (ncols s) sp ->
  sim (fun s0 => if is_full sp (ncols s) then copy_row r q s0 else copy_row_span r q sp s0)
    (on_rows (copy_at (shift_copy (ncols s) sp) r q)) s.
Proof.
  intros. unfold shift_copy. destruct (is_full sp (ncols s)); [by apply sim_copy_row|by apply sim_copy_row_span].
Qed.

Lemma sim_shift_fill r x sp s :
  shape s -> r < nrows s -> span_ok (ncols s) sp ->
  sim (fun s0 => if is_full sp (ncols s) then fill_row r x s0 else fill_row_span r x sp s0)
    (on_row r (shift_fill (ncols s) sp x)) s.
Proof.
  intros. unfold shift_fill. destruct (is_full sp (ncols s)); [by apply sim_fill_row|by apply sim_fill_row_span].
Qed.

Lemma on_rows_ext f f' s :
  f (g_rows (grid_of s)) = f' (g_rows (grid_of s)) -> on_rows f (grid_of s) = on_rows f' (grid_of s).
Proof. intros E. unfold on_rows. by rewrite E. Qed.

Lemma on_rows_compose f1 f2 g : on_rows f2 (on_rows f1 g) = on_rows (fun l => f2 (f1 l)) g.
Proof. done. Qed.

Lemma sim_rows_down first bottom count x sp s :
  shape s -> first <= bottom < nrows s -> 1 <= count <= bottom + 1 - first -> span_ok (ncols s) sp ->
  sim (shift_rows_down first bottom count x sp)
    (on_rows (rows_down (ncols s) first (bottom + 1 - first) count x sp)) s.
Proof.
  intros Hs Hb Hn Hsp. apply sim_result. unfold shift_rows_down.
  set (full := is_full sp (ncols s)).
  assert (result
    (s1 ← for_each (fun i s0 => if full then copy_row i (i + count) s0 else copy_row_span i (i + count) sp s0)
            (reverse (seq first (bottom + 1 - first - count))) s;
     for_each (fun i s0 => if full then fill_row i x s0 else fill_row_span i x sp s0) (seq first count) s1)
    (on_rows (rows_down (ncols s) first (bottom + 1 - first) count x sp) (grid_of s)) s) as H.
  { eapply result_bind.
    - apply (sim_row_copies (shift_copy (ncols s) sp) _ (fun i => i + count)); [done|].
      intros i s' Hi F. apply elem_of_reverse, elem_of_seq in Hi. unfold full.
      rewrite <- (proj1 (proj2 F)). apply sim_shift_copy; frames.
    - intros s1 F1 G1. eapply result_last.
      + apply (sim_each_row _ (shift_fill (ncols s) sp x)); [frames|frames|].
        intros i s' Hi F. pose proof (same_frame_trans _ _ _ F1 F) as F'. unfold full.
        rewrite <- (proj1 (proj2 F')). apply sim_shift_fill; frames.
      + rewrite G1, on_rows_compose. apply on_rows_ext. unfold rows_down.
        rewrite copy_loop_raise by (rewrite grid_length; lia). done. }
  unfold range. replace (bottom + 1 - count - first) with (bottom + 1 - first - count) by lia.
  replace (first + count - first) with count by lia.
  unfold full in *. by destruct (is_full sp (ncols s)).
Qed.

Lemma sim_rows_up first bottom count x sp s :
  shape s -> first <= bottom < nrows s -> 1 <= count <= bottom + 1 - first -> span_ok (ncols s) sp ->
  sim (shift_rows_up first bottom count x sp)
    (on_rows (rows_up (ncols s) first (bottom + 1 - first) count x sp)) s.
Proof.
  intros Hs Hb Hn Hsp. apply sim_result. unfold shift_rows_up.
  set (full := is_full sp (ncols s)).
  assert (result
    (s1 ← for_each (fun i s0 => if full then copy_row i (i - count) s0 else copy_row_span i (i - count) sp s0)
            (seq (first + count) (bottom + 1 - first - count)) s;
     for_each (fun i s0 => if full then fill_row i x s0 else fill_row_span i x sp s0)
       (seq (first + (bottom + 1 - first) - count) count) s1)
    (on_rows (rows_up (ncols s) first (bottom + 1 - first) count x sp) (grid_of s)) s) as H.
  { eapply result_bind.
    - apply (sim_row_copies (shift_copy (ncols s) sp) _ (fun i => i - count)); [done|].
      intros i s' Hi F. apply elem_of_seq in Hi. unfold full.
      rewrite <- (proj1 (proj2 F)). apply sim_shift_copy; frames.
    - intros s1 F1 G1. eapply result_last.
      + apply (sim_each_row _ (shift_fill (ncols s) sp x)); [frames|frames|].
        intros i s' Hi F. pose proof (same_frame_trans _ _ _ F1 F) as F'. unfold full.
        rewrite <- (proj1 (proj2 F')). apply sim_shift_fill; frames.
      + rewrite G1, on_rows_compose. apply on_rows_ext. unfold rows_up.
        rewrite copy_loop_lower by (rewrite grid_length; lia). done. }
  unfold range_incl. replace (S bottom - (first + count)) with (bottom + 1 - first - count) by lia.
  replace (S bottom - (bottom + 1 - count)) with count by lia.
  replace (first + (bottom + 1 - first) - count) with (bottom + 1 - count) in H by lia.
  unfold full in *. by destruct (is_full sp (ncols s)).
Qed.

(** [insert_lines], [delete_lines] and [scroll_down]. *)
Definition grid_down (cols first bottom count : nat) (x : Cell) (sp : ColumnSpan) (g : Grid) : Grid :=
  on_dirty (dirty_range first bottom)
    (on_rows (rows_down cols first (bottom + 1 - first) (Nat.min count (bottom - first + 1)) x sp) g).
Definition grid_up (cols first bottom count : nat) (x : Cell) (sp : ColumnSpan) (g : Grid) : Grid :=
  on_dirty (dirty_range first bottom)
    (on_rows (rows_up cols first (bottom + 1 - first) (Nat.min count (bottom - first + 1)) x sp) g).

Lemma sim_insert_lines row bottom count x sp s :
  shape s -> row <= bottom < nrows s -> 1 <= count -> span_ok (ncols s) sp ->
  sim (insert_lines row bottom count x sp) (grid_down (ncols s) row bottom count x sp) s.
Proof.
  intros. apply sim_result. unfold insert_lines. step (sim_rows_down row bottom).
  finish (sim_mark_dirty_range row bottom). by norm_grid.
Qed.

Lemma sim_scroll_down first bottom count x sp s :
  shape s -> first <= bottom < nrows s -> 1 <= count -> span_ok (ncols s) sp ->
  sim (scroll_down first bottom count x sp) (grid_down (ncols s) first bottom count x sp) s.
Proof.
  intros. apply sim_result. unfold scroll_down. step (sim_rows_down first bottom).
  finish (sim_mark_dirty_range first bottom). by norm_grid.
Qed.

Lemma sim_delete_lines row bottom count x sp s :
  shape s -> row <= bottom < nrows s -> 1 <= count -> span_ok (ncols s) sp ->
  sim (delete_lines row bottom count x sp) (grid_up (ncols s) row bottom count x sp) s.
Proof.
  intros. apply sim_result. unfold delete_lines. step (sim_rows_up row bottom).
  finish (sim_mark_dirty_range row bottom). by norm_grid.
Qed.

(** *** Scrolling by rotating the ring *)
Lemma rotate_view s n r :
  shape s -> n <= nrows s -> r < nrows s ->
  view_row (s <| top := (top s + n) mod nrows s |>) r =
    view_row s (if decide (r + n < nrows s) then r + n else r + n - nrows s).
Proof.
  intros Hs Hn Hr. pose proof (shape_top s Hs). pose proof (proj1 (proj2 (shape_dims s Hs))).
  assert (physical_row (s <| top := (top s + n) mod nrows s |>) r =
    physical_row s (if decide (r + n < nrows s) then r + n else r + n - nrows s)) as E.
  { unfold physical_row. cbn. rewrite Nat.Div0.add_mod_idemp_l. case_decide.
    - f_equal. lia.
    - replace (top s + n + r) with (top s + (r + n - nrows s) + 1 * nrows s) by lia.
      by rewrite Nat.Div0.mod_add. }
  unfold view_row, physical_row_start. rewrite E. done.
Qed.

Lemma rotate_grid s n :
  shape s -> n <= nrows s ->
  g_rows (grid_of (s <| top := (top s + n) mod nrows s |>)) =
    drop n (g_rows (grid_of s)) ++ take n (g_rows (grid_of s)).
Proof.
  intros Hs Hn. pose proof (proj1 (proj2 (shape_dims s Hs))).
  apply list_eq. intros i. destruct (decide (i < nrows s)) as [Hi|Hi].
  - rewrite grid_lookup by done. rewrite rotate_view by done.
    destruct (decide (i + n < nrows s)).
    + rewrite lookup_app_l by (rewrite length_drop, grid_length; lia).
      rewrite lookup_drop, grid_lookup by lia. do 2 f_equal. lia.
    + rewrite lookup_app_r by (rewrite length_drop, grid_length; lia).
      rewrite length_drop, grid_length, lookup_take_lt, grid_lookup by lia. do 2 f_equal. lia.
  - rewrite !lookup_ge_None_2; [done|..].
    + rewrite length_app, length_take, length_drop, grid_length. lia.
    + rewrite grid_length. cbn. lia.
Qed.

(** Filling the first [n] rows and rotating is shifting the rows up by [n]. *)
Lemma rows_up_rotation cols n x sp l :
  is_full sp cols = true -> 1 <= n <= length l ->
  rows_up cols 0 (length l) n x sp l =
    drop n (map_range (fun _ => full_row cols x) 0 n l) ++ take n (map_range (fun _ => full_row cols x) 0 n l).
Proof.
  intros Hf Hn. unfold rows_up. rewrite copy_rows_full by done. apply list_eq. intros i.
  rewrite lookup_map_range by (rewrite length_copied; lia). rewrite lookup_copied by lia.
  destruct (decide (i < length l - n)).
  - rewrite lookup_app_l by (rewrite length_drop, length_map_range; lia).
    rewrite lookup_drop, lookup_map_range by lia. repeat case_decide; try lia.
    destruct (lookup_lt_is_Some_2 l (0 + n + (i - 0))) as [y Hy]; [lia|].
    destruct (lookup_lt_is_Some_2 l i) as [z Hz]; [lia|].
    rewrite Hy, Hz. simpl. rewrite <- Hy. f_equal. lia.
  - rewrite lookup_app_r by (rewrite length_drop, length_map_range; lia).
    rewrite length_drop, length_map_range by lia. destruct (decide (i < length l)).
    + rewrite lookup_take_lt, lookup_map_range by lia. repeat case_decide; try lia.
      unfold shift_fill. rewrite Hf.
      destruct (lookup_lt_is_Some_2 l i) as [z ->]; [lia|].
      destruct (lookup_lt_is_Some_2 l (i - (length l - n))) as [y ->]; [lia|]. done.
    + repeat case_decide; try lia. rewrite lookup_take_ge by lia. apply lookup_ge_None_2. lia.
Qed.
(** The row [screen_row] hands to the history: the cells up to its extent. *)
Definition evicted (row : Row) : ScreenRow := mkScreenRow (take (r_ext row) (r_cells row)) (r_soft row).

Lemma screen_row_view s r :
  shape s -> r < nrows s -> r_ext (view_row s r) <= ncols s ->
  screen_row s r = Some (evicted (view_row s r)).
Proof.
  intros Hs Hr He. unfold screen_row. rewrite occupied_lookup, soft_lookup by done.
  cbn [mbind option_bind].
  pose proof (row_start_bound s Hs r (ncols s) Hr ltac:(lia)).
  rewrite slice_Some by (rewrite (shape_cells s Hs); lia). cbn [mbind option_bind].
  unfold evicted. do 2 f_equal.
  replace (physical_row_start s r + r_ext (view_row s r) - physical_row_start s r)
    with (r_ext (view_row s r)) by lia.
  cbn [r_cells view_row]. rewrite take_take. f_equal. lia.
Qed.

Definition exts_ok (s : Screen) : Prop := forall r, r < nrows s -> r_ext (view_row s r) <= ncols s.

Lemma screen_rows_view s first n :
  shape s -> exts_ok s -> first + n <= nrows s ->
  mapM (screen_row s) (range first (first + n)) =
    Some (map evicted (take n (drop first (g_rows (grid_of s))))).
Proof.
  intros Hs He Hn. rewrite (mapM_total _ (fun r => evicted (view_row s r))).
  - f_equal. cbn [grid_of g_rows]. rewrite skipn_map, firstn_map, map_map. f_equal.
    unfold range. replace (first + n - first) with n by lia.
    apply list_eq. intros i. rewrite lookup_slice. case_decide.
    + rewrite !lookup_seq_lt by lia. done.
    + apply lookup_ge_None_2. rewrite length_seq. lia.
  - intros r Hr. apply elem_of_range in Hr. apply screen_row_view; [done|lia|apply He; lia].
Qed.

(** What [scroll_up] promises: the grid after a copying scroll, however the
    screen is stored, and the rows that left it. *)
Definition scrolled (first bottom count : nat) (x : Cell) (sp : ColumnSpan) (s : Screen)
    (out : list ScreenRow * Screen) : Prop :=
  shape out.2 /\ dimensions out.2 = dimensions s /\
  grid_of out.2 = grid_up (ncols s) first bottom count x sp (grid_of s) /\
  out.1 = if is_full sp (ncols s)
          then map evicted (take (Nat.min count (bottom - first + 1)) (drop first (g_rows (grid_of s))))
          else [].

Lemma rotate_shape s n : shape s -> shape (s <| top := (top s + n) mod nrows s |>).
Proof.
  intros [D T C O Dd Sw E]. split; try done. cbn. apply Nat.mod_upper_bound. lia.
Qed.

Lemma scroll_up_rotated count x sp s :
  shape s -> is_full sp (ncols s) = true -> 1 <= count <= nrows s ->
  exists s1, (s' ← for_each (fun offset => fill_row offset x) (range 0 count) s;
              Some (s' <| top := (top s' + count) mod rows (dimensions s') |>)) = Some s1 /\
    shape s1 /\ dimensions s1 = dimensions s /\
    grid_of s1 = on_rows (rows_up (ncols s) 0 (nrows s) count x sp) (grid_of s).
Proof.
  intros Hs Hf Hn. rewrite range_0.
  destruct (sim_each_row (fun r => fill_row r x) (fun _ => full_row (ncols s) x) 0 count s)
    as (s1 & E1 & F1 & G1); [done|lia| |].
  { intros r s' Hr F. rewrite <- (proj1 (proj2 F)). apply sim_fill_row; frames. }
  exists (s1 <| top := (top s1 + count) mod nrows s1 |>). rewrite E1. split; [done|].
  destruct (F1) as (Hs1 & Hd1 & Ht1). split; [by apply rotate_shape|]. split; [done|].
  assert (g_dirty (grid_of s1) = g_dirty (grid_of s)) as Ed by (by rewrite G1).
  pose proof (rotate_grid s1 count Hs1 ltac:(frames)) as R. rewrite G1 in R.
  unfold on_rows. rewrite <- (grid_length s), rows_up_rotation by (done || rewrite grid_length; lia).
  cbn [on_rows g_rows] in R. rewrite <- R. rewrite <- Ed. done.
Qed.

Lemma scroll_up_refines first bottom count x sp s :
  shape s -> exts_ok s -> first <= bottom < nrows s -> 1 <= count -> span_ok (ncols s) sp ->
  exists out, scroll_up first bottom count x sp s = Some out /\ scrolled first bottom count x sp s out.
Proof.
  intros Hs He Hb Hc Hsp. unfold scroll_up, scrolled, grid_up.
  set (n := Nat.min count (bottom - first + 1)).
  destruct (sim_rows_up first bottom n x sp s) as (s1 & E1 & F1 & G1); [done|done|lia|done|].
  destruct (is_full sp (ncols s)) eqn:Hf; simpl negb; cbv iota.
  - rewrite screen_rows_view by (done || lia). cbn [mbind option_bind].
    assert (exists s2, (if (first =? 0) && (bottom + 1 =? nrows s) then
        s' ← for_each (fun offset => fill_row offset x) (range 0 n) s;
        Some (s' <| top := (top s' + n) mod rows (dimensions s') |>)
      else shift_rows_up first bottom n x sp s) = Some s2 /\ shape s2 /\ dimensions s2 = dimensions s /\
      grid_of s2 = on_rows (rows_up (ncols s) first (bottom + 1 - first) n x sp) (grid_of s))
      as (s2 & E2 & Hs2 & Hd2 & G2).
    { destruct ((first =? 0) && _) eqn:E; bools.
      - subst first. replace (bottom + 1 - 0) with (nrows s) by lia. apply scroll_up_rotated; [done..|lia].
      - exists s1. split_and!; [done|apply F1..|done]. }
    rewrite E2. cbn [mbind option_bind].
    destruct (sim_mark_dirty_range first bottom s2) as (s3 & E3 & F3 & G3); [done|lia|by rewrite Hd2; lia|].
    rewrite E3. cbn [mbind option_bind]. eexists. split; [done|]. cbn [fst snd].
    split_and!; [apply F3| |by rewrite G3, G2|done]. by rewrite (proj1 (proj2 F3)).
  - rewrite E1. cbn [mbind option_bind].
    destruct (sim_mark_dirty_range first bottom s1) as (s3 & E3 & F3 & G3); frames.
    rewrite E3. cbn [mbind option_bind]. eexists. split; [done|]. cbn [fst snd].
    split_and!; [apply F3| |by rewrite G3, G1|done]. by rewrite (proj1 (proj2 F3)), (proj1 (proj2 F1)).
Qed.

(** *** Clearing and constructing *)
Lemma clear_all_refines x s :
  shape s ->
  shape (clear_all x s) /\ dimensions (clear_all x s) = dimensions s /\
  grid_of (clear_all x s) = mkGrid (replicate (nrows s) (full_row (ncols s) x)) (replicate (nrows s) true).
Proof.
  intros Hs. pose proof (proj1 (shape_dims s Hs)) as Hc2.
  assert (negb ((if is_structural_blank x then 0 else ncols s) =? 0) = negb (is_structural_blank x)) as Ho.
  { destruct (is_structural_blank x); [done|]. destruct (ncols s); [lia|done]. }
  destruct (Hs) as [D T C O Dd Sw E]. split_and!; [|done|].
  - split; cbn; rewrite ?length_map; try done. lia.
  - unfold grid_of. f_equal.
    + apply list_eq. intros r. destruct (decide (r < nrows s)) as [Hr|Hr].
      * rewrite list_lookup_fmap, lookup_seq_lt by done. rewrite lookup_replicate_2 by done.
        cbn [fmap option_fmap option_map]. f_equal. unfold view_row, full_row, clear_all, mark_all_dirty, physical_row_start, physical_row.
        cbn. rewrite Ho. pose proof (row_block_bound (r mod nrows s) (nrows s) (ncols s) (ncols s)) as B.
        rewrite Nat.mod_small in * by done. specialize (B Hr ltac:(lia)).
        assert (forall A B (l : list A) (v : B), length l = nrows s * ncols s ->
          take (ncols s) (drop (r * ncols s) (map (fun _ => v) l)) = replicate (ncols s) v) as Hblk.
        { intros A B' l v Hl. apply list_eq. intros i. rewrite lookup_slice. case_decide.
          - rewrite list_lookup_fmap, lookup_replicate_2 by done.
            destruct (lookup_lt_is_Some_2 l (r * ncols s + i)) as [y ->]; [lia|done].
          - by rewrite lookup_ge_None_2 by (rewrite length_replicate; lia). }
        rewrite !Hblk by done. rewrite !list_lookup_fmap.
        destruct (lookup_lt_is_Some_2 (soft_wrapped_rows s) r) as [y ->]; [lia|].
        destruct (lookup_lt_is_Some_2 (occupied_columns s) r) as [z ->]; [lia|].
        cbn. f_equal. by destruct (is_structural_blank x).
      * rewrite !lookup_ge_None_2; rewrite ?length_map, ?length_seq, ?length_replicate; done || (cbn; lia).
    + cbn. rewrite <- Dd. clear. induction (dirty_rows s) as [|b l IH]; simpl; [done|]. by f_equal.
Qed.
(** *** Linear fills *)
Definition row_linear (cols first_row first_column last_row last_column : nat) (x : Cell)
    (spare : bool) (r : nat) (row : Row) : Row :=
  let a := if r =? first_row then first_column else 0 in
  let b := if r =? last_row then last_column else cols in
  if b <=? a then row
  else row_write a (if spare then map (spare_cell x) (take (b - a) (drop a (r_cells row)))
                    else replicate (b - a) x)
         (replicate (b - a) (negb (is_structural_blank x))) row.

Lemma linear_to_physical s r c :
  c < ncols s -> logical_linear_to_physical s (r * ncols s + c) = physical_row_start s r + c.
Proof.
  intros Hc. unfold logical_linear_to_physical.
  rewrite Nat.div_add_l by lia. rewrite Nat.div_small by done. rewrite Nat.add_0_r. f_equal.
  rewrite Nat.add_comm, Nat.Div0.mod_add. by apply Nat.mod_small.
Qed.

Lemma sim_linear_row fr fc lr lc x spare r s :
  shape s -> r < nrows s -> fc < ncols s -> lc <= ncols s ->
  sim (fill_linear_row fr fc lr lc x spare r) (on_row r (row_linear (ncols s) fr fc lr lc x spare r)) s.
Proof.
  intros Hs Hr Hfc Hlc. apply sim_result. unfold fill_linear_row, row_linear.
  set (a := if r =? fr then fc else 0). set (b := if r =? lr then lc else ncols s).
  assert (a < ncols s) by (unfold a; case_match; [done|]; pose proof (proj1 (shape_dims s Hs)); lia).
  assert (b <= ncols s) by (unfold b; case_match; lia).
  destruct (b <=? a) eqn:E; bools; [apply result_ret; [done|by rewrite on_row_id]|].
  rewrite linear_to_physical by done.
  set (new := if spare then map (spare_cell x) (take (b - a) (drop a (r_cells (view_row s r)))) else replicate (b - a) x).
  assert (length new = b - a) as Hlen.
  { unfold new. destruct spare; [|apply length_replicate]. rewrite length_map, length_take, length_drop.
    rewrite view_row_cells_length by done. lia. }
  pose proof (row_start_bound s Hs r b Hr ltac:(done)) as B. destruct (Hs) as [_ _ Hc Ho _ _ _].
  destruct (sim_write r a new (replicate (b - a) (negb (is_structural_blank x))) s) as (s' & E' & F' & G');
    rewrite ?length_replicate; [done|done|lia|lia|].
  exists s'. split; [|split; [done|rewrite G'; by apply on_row_ext]]. rewrite <- E'.
  replace (physical_row_start s r + a + (b - a)) with (physical_row_start s r + b) by lia.
  rewrite (fill_slice_Some (occupied_cells s)) by lia.
  rewrite !write_slice_Some by (rewrite ?length_replicate; lia).
  replace (physical_row_start s r + b - (physical_row_start s r + a)) with (b - a) by lia.
  assert ((if spare then old ← slice (cells s) (physical_row_start s r + a) (physical_row_start s r + b);
             write_slice (cells s) (physical_row_start s r + a) (map (spare_cell x) old)
           else fill_slice (cells s) (physical_row_start s r + a) (physical_row_start s r + b) x)
          = Some (splice (cells s) (physical_row_start s r + a) new)) as ->; [|done].
  unfold new in *. destruct spare.
  - rewrite slice_Some by lia. cbn [mbind option_bind].
    assert (take (physical_row_start s r + b - (physical_row_start s r + a))
        (drop (physical_row_start s r + a) (cells s)) =
      take (b - a) (drop a (r_cells (view_row s r)))) as ->.
    { replace (physical_row_start s r + b - (physical_row_start s r + a)) with (b - a) by lia.
      apply list_eq. intros i. rewrite !lookup_slice. case_decide; [|done].
      rewrite view_cell_lookup by lia. f_equal. lia. }
    by rewrite write_slice_Some by lia.
  - rewrite fill_slice_Some by lia. do 3 f_equal. lia.
Qed.

Definition grid_linear (cols start stop : nat) (x : Cell) (spare : bool) (g : Grid) : Grid :=
  let fr := start / cols in
  let lr := (stop - 1) / cols in
  let fc := start mod cols in
  let lc := stop - lr * cols in
  on_rows (map_range row_recompute fr (S lr - fr))
    (on_row lr (repair_at x cols lc) (on_row fr (repair_at x cols fc)
      (on_dirty (dirty_range fr lr)
        (foldl (fun g r => on_row r (row_linear cols fr fc lr lc x spare r) g) g (range_incl fr lr))))).

Lemma sim_fill_linear start stop x spare s :
  shape s -> stop <= nrows s * ncols s ->
  sim (fill_linear_with start stop x spare)
    (fun g => if stop <=? start then g else grid_linear (ncols s) start stop x spare g) s.
Proof.
  intros Hs Hstop. apply sim_result. unfold fill_linear_with, grid_linear.
  destruct (stop <=? start) eqn:E; bools; [by apply result_ret|].
  pose proof (proj1 (shape_dims s Hs)).
  set (fr := start / ncols s). set (lr := (stop - 1) / ncols s).
  set (fc := start mod ncols s). set (lc := stop - lr * ncols s).
  assert (fc < ncols s) by (apply Nat.mod_upper_bound; lia).
  assert (fr <= lr) by (apply Nat.Div0.div_le_mono; lia).
  assert (lr < nrows s) by (apply Nat.Div0.div_lt_upper_bound; lia).
  assert (lc <= ncols s).
  { pose proof (Nat.div_mod_eq (stop - 1) (ncols s)). fold lr in H3.
    pose proof (Nat.mod_upper_bound (stop - 1) (ncols s)). unfold lc. lia. }
  eapply result_bind.
  - apply (sim_for_each _ (fun r => on_row r (row_linear (ncols s) fr fc lr lc x spare r))); [done|].
    intros r s' Hr F. apply elem_of_range_incl in Hr. rewrite <- (proj1 (proj2 F)).
    apply sim_linear_row; frames.
  - intros s1 F1 G1. step (sim_mark_dirty_range fr lr). step (sim_repair_neighborhood fr fc x).
    step (sim_repair_neighborhood lr lc x). eapply result_last.
    + apply (sim_each_row _ row_recompute fr (S lr - fr)); [frames|frames|].
      intros r s'' Hr F. apply sim_recompute; frames.
    + by norm_grid.
Qed.
End WithPlatform.
