(* ===== verification/ScreenInv.v ===== *)
(** * Row invariants of the screen

    [RowInvariant] states what a property of single rows must satisfy to be an
    invariant of the screen; every operation of [Screen.v] is shown to return
    and to keep such a property.  Two properties satisfy it: the occupancy
    bookkeeping ([row_ok], all operations) and well-formed wide characters
    ([row_sound], every operation but the ones that spare protected cells). *)

From Stdlib Require Import NArith Bool.
From S2P Require Import Prelude Cell Screen ScreenGrid ScreenOps.

Section Interface.
Context `{P : Platform}.

(** Row [r] after a linear fill of [start, stop). *)
Definition row_linear_closed (cols start stop : nat) (x : Cell) (spare : bool) (r : nat) (row : Row) : Row :=
  let fr := start / cols in
  let lr := (stop - 1) / cols in
  let fc := start mod cols in
  let lc := stop - lr * cols in
  let row1 := row_linear cols fr fc lr lc x spare r row in
  let row2 := if r =? fr then repair_at x cols fc row1 else row1 in
  let row3 := if r =? lr then repair_at x cols lc row2 else row2 in
  row_recompute row3.

(** [Q] holds of every row of width [cols]; [X] is what fill cells satisfy, [Y]
    what printed cells do; [spares] says whether operations that spare
    protected cells are covered. *)
Class RowInvariant (cols : nat) (Q : Row -> Prop) (X Y : Cell -> Prop) (spares : bool) : Prop := {
  ri_lengths row : Q row -> wf_lengths cols row;
  ri_extent row : Q row -> r_ext row = extent (r_occ row);
  ri_soft row b : Q row -> Q (row <| r_soft := b |>);
  ri_full x : X x -> Q (full_row cols x);
  ri_replace row c x old : r_cells row !! c = Some old -> width x = width old -> Y x ->
    Q row -> Q (row_replace c x row);
  ri_cluster row c x : width x <> Continuation -> Y x -> c + width_columns (width x) <= cols ->
    Q row -> Q (row_cluster cols c x row);
  ri_insert row c n r x : X x -> c + n <= r + 1 -> r < cols -> Q row -> Q (row_insert_chars cols c n r x row);
  ri_delete row c n r x : X x -> c + n <= r + 1 -> r < cols -> Q row -> Q (row_delete_chars cols c n r x row);
  ri_shift a b sp : span_ok cols sp -> Q a -> Q b -> Q (row_shift_span cols sp a b);
  ri_fill_span row sp x : span_ok cols sp -> X x -> Q row -> Q (row_fill_span cols sp x row);
  ri_paste a b sl dl w : 1 <= w -> sl + w <= cols -> dl + w <= cols -> Q a -> Q b ->
    Q (row_paste cols sl dl w a b);
  ri_rect row rect x spare : (spare = true -> spares = true) -> X x ->
    rect_left rect <= rect_right rect < cols -> Q row -> Q (row_fill_rect cols rect x spare row);
  ri_linear row start stop x spare r : (spare = true -> spares = true) -> X x -> start < stop ->
    start / cols <= r <= (stop - 1) / cols -> Q row -> Q (row_linear_closed cols start stop x spare r row)
}.

Definition all_rows (Q : Row -> Prop) (s : Screen) : Prop := Forall Q (g_rows (grid_of s)).

(** [keeps Q o s]: [o] returns a screen of the size of [s] whose rows satisfy [Q]. *)
Definition keeps (Q : Row -> Prop) (o : option Screen) (s : Screen) : Prop :=
  exists s', o = Some s' /\ shape s' /\ dimensions s' = dimensions s /\ all_rows Q s'.

(** ** Closure of [Forall] under the list operations *)
Lemma all_alter (Q : Row -> Prop) f r l :
  Forall Q l -> (forall row, l !! r = Some row -> Q row -> Q (f row)) -> Forall Q (alter f r l).
Proof.
  intros H Hf. apply Forall_lookup. intros i row. rewrite list_lookup_alter.
  case_decide; subst.
  - destruct (l !! i) as [row'|] eqn:E; [|done]. intros [= <-]. apply Hf; [done|].
    by eapply Forall_lookup_1.
  - intros E. by eapply Forall_lookup_1.
Qed.

Lemma all_copied (Q : Row -> Prop) h src dst n l :
  src + n <= length l -> dst + n <= length l ->
  Forall Q l -> (forall a b, Q a -> Q b -> Q (h a b)) -> Forall Q (copied h src dst n l).
Proof.
  intros Hs Hd H Hh. apply Forall_lookup. intros i row. rewrite lookup_copied by done.
  case_decide; [|by apply Forall_lookup_1].
  destruct (l !! (src + (i - dst))) as [a|] eqn:Ea; [|done].
  destruct (l !! i) as [b|] eqn:Eb; [|done]. intros [= <-].
  apply Hh; by eapply Forall_lookup_1.
Qed.

Lemma all_map_range (Q : Row -> Prop) f a n l :
  a + n <= length l -> Forall Q l -> (forall row, Q row -> Q (f row)) -> Forall Q (map_range f a n l).
Proof.
  intros Ha H Hf. apply Forall_lookup. intros i row. rewrite lookup_map_range by done.
  case_decide; [|by apply Forall_lookup_1].
  destruct (l !! i) as [b|] eqn:Eb; [|done]. intros [= <-].
  apply Hf. by eapply Forall_lookup_1.
Qed.

Lemma lookup_alter_here (f : Row -> Row) k (l : list Row) i :
  alter f k l !! i = if decide (i = k) then f <$> l !! i else l !! i.
Proof. rewrite list_lookup_alter. repeat case_decide; subst; done. Qed.

Lemma alter_each (f : nat -> Row -> Row) a n (l : list Row) i :
  foldl (fun l r => alter (f r) r l) l (seq a n) !! i =
    if decide (a <= i < a + n) then f i <$> l !! i else l !! i.
Proof.
  revert l. induction n as [|n IH]; intros l; [by rewrite decide_False by lia|].
  rewrite seq_S, foldl_snoc, lookup_alter_here, IH.
  repeat case_decide; subst; try lia; done.
Qed.

Lemma grid_linear_lookup cols start stop x spare g i :
  (stop - 1) / cols < length (g_rows g) -> start / cols <= (stop - 1) / cols ->
  g_rows (grid_linear cols start stop x spare g) !! i =
    if decide (start / cols <= i <= (stop - 1) / cols)
    then row_linear_closed cols start stop x spare i <$> g_rows g !! i else g_rows g !! i.
Proof.
  intros Hl Hfr. unfold grid_linear, row_linear_closed.
  set (fr := start / cols) in *. set (lr := (stop - 1) / cols) in *.
  set (fc := start mod cols). set (lc := stop - lr * cols).
  rewrite (foldl_on_row (fun r => row_linear cols fr fc lr lc x spare r) (fun r => r)).
  cbn [on_rows on_row on_dirty g_rows].
  assert (forall xs l, length (foldl (fun l r => alter (row_linear cols fr fc lr lc x spare r) r l) l xs) = length l) as Hlen.
  { induction xs as [|y xs IH]; intros l; simpl; [done|]. by rewrite IH, length_alter. }
  unfold range_incl.
  rewrite lookup_map_range by (rewrite !length_alter, Hlen; lia).
  rewrite !lookup_alter_here, alter_each.
  destruct (decide (fr <= i < fr + (S lr - fr))) as [Hi|Hi].
  - rewrite (decide_True (P := fr <= i <= lr)) by lia.
    destruct (Nat.eqb_spec i fr), (Nat.eqb_spec i lr); repeat case_decide; try lia;
      destruct (g_rows g !! i); done.
  - rewrite (decide_False (P := fr <= i <= lr)) by lia. repeat case_decide; try lia; done.
Qed.

Lemma keeps_sim Q op f s :
  sim op f s -> Forall Q (g_rows (f (grid_of s))) -> keeps Q (op s) s.
Proof.
  intros (s' & E & (Hs & Hd & _) & G) H. exists s'. split_and!; try done. unfold all_rows. by rewrite G.
Qed.

Lemma keeps_bind Q o k s :
  keeps Q o s -> (forall s', shape s' -> dimensions s' = dimensions s -> all_rows Q s' -> keeps Q (k s') s') ->
  keeps Q (o ≫= k) s.
Proof.
  intros (s1 & -> & Hs1 & Hd1 & H1) Hk. destruct (Hk s1 Hs1 Hd1 H1) as (s2 & E & ? & Hd2 & ?).
  exists s2. split_and!; try done. congruence.
Qed.

Lemma all_rows_view Q s r : all_rows Q s -> r < nrows s -> Q (view_row s r).
Proof. intros H Hr. eapply Forall_lookup_1; [exact H|]. by apply grid_lookup. Qed.
End Interface.

(** ** Every operation keeps a row invariant *)
Section Preservation.
Context `{P : Platform} {cols : nat} {Q : Row -> Prop} {X Y : Cell -> Prop} {spares : bool}.
Context `{RI : !RowInvariant cols Q X Y spares}.
Context (s : Screen) (Hs : shape s) (Hcols : ncols s = cols) (HQ : all_rows Q s).

Lemma keeps_set_soft_wrapped b r : r < nrows s -> keeps Q (set_soft_wrapped b r s) s.
Proof.
  intros Hr. eapply keeps_sim; [by apply sim_set_soft_wrapped|].
  apply all_alter; [done|]. intros row _ H. by apply ri_soft.
Qed.

Lemma keeps_replace_cell c r x old :
  r < nrows s -> cell s c r = Some old -> width x = width old -> Y x -> keeps Q (replace_cell c r x s) s.
Proof.
  intros Hr Hold Hw HY. unfold cell, cell_index in Hold.
  destruct (_ && _) eqn:E; bools; [|done]. simpl in Hold.
  eapply keeps_sim; [by apply sim_replace_cell|]. apply all_alter; [done|].
  intros row Hrow HQr. rewrite grid_lookup in Hrow by done. injection Hrow as <-.
  eapply ri_replace; try done. by rewrite view_cell_lookup.
Qed.

Lemma keeps_replace_cluster c r x :
  r < nrows s -> width x <> Continuation -> Y x -> c + width_columns (width x) <= ncols s ->
  keeps Q (replace_cluster c r x s) s.
Proof.
  intros Hr Hw HY Hc. assert (1 <= width_columns (width x)) by (destruct (width x); simpl; lia || done).
  eapply keeps_sim; [apply sim_replace_cluster; done || lia|]. apply all_alter; [done|].
  intros row _ H0. rewrite Hcols in *. by apply ri_cluster.
Qed.

Lemma keeps_insert_characters c r n x sp :
  r < nrows s -> X x -> keeps Q (insert_characters c r n x sp s) s.
Proof.
  intros Hr HX. eapply keeps_sim; [by apply sim_insert_characters|]. cbv zeta.
  destruct (_ <? _) eqn:E; bools; [done|]. apply all_alter; [done|].
  pose proof (proj1 (shape_dims s Hs)). intros row _ H0. rewrite Hcols in *.
  apply ri_insert; done || lia.
Qed.

Lemma keeps_delete_characters c r n x sp :
  r < nrows s -> X x -> keeps Q (delete_characters c r n x sp s) s.
Proof.
  intros Hr HX. eapply keeps_sim; [by apply sim_delete_characters|]. cbv zeta.
  destruct (_ <? _) eqn:E; bools; [done|]. apply all_alter; [done|].
  pose proof (proj1 (shape_dims s Hs)). intros row _ H0. rewrite Hcols in *.
  apply ri_delete; done || lia.
Qed.

Lemma keeps_fill_rectangle rect x spare :
  rect_top rect <= rect_bottom rect < nrows s -> rect_left rect <= rect_right rect < ncols s ->
  X x -> (spare = true -> spares = true) -> keeps Q (fill_rectangle rect x spare s) s.
Proof.
  intros Ht Hl HX Hsp. eapply keeps_sim; [apply sim_fill_rectangle; done || lia|].
  cbn [rows_close_map on_dirty on_rows g_rows]. apply all_map_range; [rewrite grid_length; lia|done|].
  intros row H. rewrite Hcols in *. by apply ri_rect.
Qed.

Lemma keeps_copy_rectangle rect dt dl :
  rect_top rect <= rect_bottom rect < nrows s -> rect_left rect <= rect_right rect < ncols s ->
  dt < nrows s -> dl < ncols s -> keeps Q (copy_rectangle rect dt dl s) s.
Proof.
  intros Ht Hl Hdt Hdl. eapply keeps_sim; [by apply sim_copy_rectangle|]. unfold copy_size.
  destruct (_ || _) eqn:E; [done|]. cbn [on_dirty on_rows g_rows].
  apply all_copied; rewrite ?grid_length; [lia..|done|].
  intros a b Ha Hb. rewrite Hcols in *. apply ri_paste; done || lia.
Qed.

Lemma shift_copy_closed sp a b : span_ok cols sp -> Q a -> Q b -> Q (shift_copy cols sp a b).
Proof. intros. unfold shift_copy. destruct is_full; [done|]. by apply ri_shift. Qed.

Lemma shift_fill_closed sp x row : span_ok cols sp -> X x -> Q row -> Q (shift_fill cols sp x row).
Proof. intros. unfold shift_fill. destruct is_full; [by apply ri_full|]. by apply ri_fill_span. Qed.

Lemma all_rows_down first n count x sp l :
  first + n <= length l -> count <= n -> span_ok cols sp -> X x -> Forall Q l ->
  Forall Q (rows_down cols first n count x sp l).
Proof.
  intros. apply all_map_range; [rewrite length_copied; lia| |intros; by apply shift_fill_closed].
  apply all_copied; [lia..|done|]. intros. by apply shift_copy_closed.
Qed.

Lemma all_rows_up first n count x sp l :
  first + n <= length l -> count <= n -> span_ok cols sp -> X x -> Forall Q l ->
  Forall Q (rows_up cols first n count x sp l).
Proof.
  intros. apply all_map_range; [rewrite length_copied; lia| |intros; by apply shift_fill_closed].
  apply all_copied; [lia..|done|]. intros. by apply shift_copy_closed.
Qed.

Section Lines.
Context (first bottom count : nat) (x : Cell) (sp : ColumnSpan).
Context (Hb : first <= bottom < nrows s) (Hn : 1 <= count) (Hsp : span_ok (ncols s) sp) (HX : X x).

Lemma keeps_insert_lines : keeps Q (insert_lines first bottom count x sp s) s.
Proof.
  eapply keeps_sim; [by apply sim_insert_lines|]. rewrite Hcols in *.
  apply all_rows_down; try done; rewrite ?grid_length; lia.
Qed.

Lemma keeps_scroll_down : keeps Q (scroll_down first bottom count x sp s) s.
Proof.
  eapply keeps_sim; [by apply sim_scroll_down|]. rewrite Hcols in *.
  apply all_rows_down; try done; rewrite ?grid_length; lia.
Qed.

Lemma keeps_delete_lines : keeps Q (delete_lines first bottom count x sp s) s.
Proof.
  eapply keeps_sim; [by apply sim_delete_lines|]. rewrite Hcols in *.
  apply all_rows_up; try done; rewrite ?grid_length; lia.
Qed.

Lemma all_exts_ok : exts_ok s.
Proof using RI HQ Hcols.
  intros r Hr. pose proof (all_rows_view Q s r HQ Hr) as H.
  rewrite (ri_extent _ H), Hcols. destruct (ri_lengths _ H) as [_ <-]. apply extent_bound.
Qed.

Lemma keeps_scroll_up :
  exists out, scroll_up first bottom count x sp s = Some out /\ scrolled first bottom count x sp s out /\
    all_rows Q out.2.
Proof using All.
  destruct (scroll_up_refines first bottom count x sp s) as (out & E & S); try done; [apply all_exts_ok|].
  exists out. split_and!; [done..|]. destruct S as (_ & _ & G & _). unfold all_rows. rewrite G.
  rewrite Hcols in *. apply all_rows_up; try done; rewrite ?grid_length; lia.
Qed.
End Lines.

Lemma keeps_fill_linear start stop x spare :
  X x -> (spare = true -> spares = true) -> stop <= nrows s * ncols s ->
  keeps Q (fill_linear_with start stop x spare s) s.
Proof.
  intros HX Hsp Hstop. eapply keeps_sim; [by apply sim_fill_linear|]. cbv beta.
  destruct (stop <=? start) eqn:E; bools; [done|]. pose proof (proj1 (shape_dims s Hs)).
  apply Forall_lookup. intros i row. rewrite grid_linear_lookup.
  - case_decide; [|by apply Forall_lookup_1].
    destruct (g_rows (grid_of s) !! i) as [old|] eqn:Eo; [|done]. intros [= <-].
    rewrite Hcols in *. apply ri_linear; try done. by eapply Forall_lookup_1.
  - rewrite grid_length. apply Nat.Div0.div_lt_upper_bound. lia.
  - apply Nat.Div0.div_le_mono. lia.
Qed.

Lemma keeps_clear_all x : X x -> keeps Q (Some (clear_all x s)) s.
Proof.
  intros HX. destruct (clear_all_refines x s Hs) as (? & ? & G). eexists. split_and!; try done.
  unfold all_rows. rewrite G. cbn [g_rows]. apply Forall_replicate. rewrite Hcols. by apply ri_full.
Qed.
End Preservation.

(** ** The occupancy bookkeeping *)
Definition row_ok (cols : nat) (row : Row) : Prop :=
  wf_lengths cols row /\ r_ext row = extent (r_occ row).

Section Lengths.
Context `{P : Platform} (cols : nat).

Lemma len_write a cs os row :
  length os = length cs -> a + length cs <= cols -> wf_lengths cols row -> wf_lengths cols (row_write a cs os row).
Proof. intros ? ? [Hc Ho]. split; cbn; rewrite length_splice; lia. Qed.

Lemma len_set c x o row : wf_lengths cols row -> wf_lengths cols (row_set c x o row).
Proof. intros [Hc Ho]. split; cbn; by rewrite length_insert. Qed.

Lemma len_foldl {I} (f : I -> Row -> Row) xs row :
  (forall i row, wf_lengths cols row -> wf_lengths cols (f i row)) ->
  wf_lengths cols row -> wf_lengths cols (foldl (fun row i => f i row) row xs).
Proof. intros Hf. revert row. induction xs as [|i xs IH]; intros row H; simpl; auto. Qed.

Lemma len_repair_list fill cs row : wf_lengths cols row -> wf_lengths cols (row_repair_list fill cs row).
Proof.
  apply (len_foldl (fun c => row_repair fill c)). intros c row' H. unfold row_repair.
  case_match; [by apply len_set|done].
Qed.

Lemma len_blit a b n src dst :
  a + n <= cols -> b + n <= cols -> wf_lengths cols src -> wf_lengths cols dst -> wf_lengths cols (row_blit a b n src dst).
Proof.
  intros Ha Hb [Hc Ho] Hd. apply len_write; [..|done]; cbn; rewrite !length_take, !length_drop; lia.
Qed.

Lemma len_fill a b x row : a <= b <= cols -> wf_lengths cols row -> wf_lengths cols (row_fill a b x row).
Proof. intros Hab. apply len_write; rewrite !length_replicate; lia. Qed.

Lemma len_rect l w x spare row : wf_lengths cols row -> wf_lengths cols (row_rect l w x spare row).
Proof.
  apply (len_foldl (fun off => row_rect_cell x spare (l + off))). intros off row' H.
  unfold row_rect_cell. repeat case_match; try done; by apply len_set.
Qed.

Lemma len_cluster c x row : wf_lengths cols row -> wf_lengths cols (cluster_write c x row).
Proof. intros H. unfold cluster_write. case_match; by repeat apply len_set. Qed.

Lemma len_linear fr fc lr lc x spare r row :
  fc <= cols -> lc <= cols -> wf_lengths cols row -> wf_lengths cols (row_linear cols fr fc lr lc x spare r row).
Proof.
  intros Hf Hl [Hc Ho]. unfold row_linear.
  set (a := if r =? fr then fc else 0). set (b := if r =? lr then lc else cols).
  assert (a <= cols) by (unfold a; case_match; lia).
  assert (b <= cols) by (unfold b; case_match; lia).
  destruct (b <=? a) eqn:E; bools; [done|].
  apply len_write; [..|done]; destruct spare;
    rewrite ?length_replicate, ?length_map, ?length_take, ?length_drop; lia.
Qed.

Lemma ok_recompute row : wf_lengths cols row -> row_ok cols (row_recompute row).
Proof. intros H. by split. Qed.

Lemma extent_replicate b n : extent (replicate n b) = row_extent b n.
Proof.
  induction n as [|n IH]; simpl; [by destruct b|]. rewrite IH. destruct b; simpl; [|done]. by destruct n.
Qed.
End Lengths.

#[export] Hint Resolve len_write len_set len_repair_list len_blit len_fill len_rect len_cluster
  len_linear ok_recompute : festerm.

(** The extent after a printed cluster: appending at or past the old extent
    extends it, writing inside it leaves it. *)
Section Extent.
Context `{P : Platform}.

Lemma blank_structural : is_structural_blank blank_cell = true.
Proof. done. Qed.

(** Repairs blank cells, so outside [lo, hi) they leave an unoccupied row unoccupied. *)
Lemma repair_occ_false cs row i :
  r_occ row !! i = Some false -> r_occ (row_repair_list blank_cell cs row) !! i = Some false.
Proof.
  revert row. induction cs as [|c cs IH]; intros row H; [done|]. simpl. apply IH.
  unfold row_repair. case_match; [|done]. rewrite blank_structural.
  cbn [row_set r_occ set_field set_r_occ set_r_cells negb].
  rewrite list_lookup_insert. by case_decide.
Qed.

Lemma repair_keeps fill cs row i w :
  width <$> r_cells row !! i = Some w -> w <> Continuation ->
  (w = Double -> width <$> r_cells row !! (i + 1) = Some Continuation) ->
  width fill = Single ->
  r_cells (row_repair_list fill cs row) !! i = r_cells row !! i /\
  r_occ (row_repair_list fill cs row) !! i = r_occ row !! i /\
  (w = Double -> r_cells (row_repair_list fill cs row) !! (i + 1) = r_cells row !! (i + 1) /\
     r_occ (row_repair_list fill cs row) !! (i + 1) = r_occ row !! (i + 1)).
Proof.
  intros Hw Hnc Hd Hf. revert row Hw Hd. induction cs as [|c cs IH]; intros row Hw Hd; [done|].
  change (row_repair_list fill (c :: cs) row) with (row_repair_list fill cs (row_repair fill c row)).
  unfold row_repair. destruct (row_invalid row c) eqn:E; [|by apply IH].
  assert (c <> i) as Hci.
  { intros ->. unfold row_invalid in E. rewrite Hw in E. destruct w; [done| |done].
    rewrite (Hd eq_refl) in E. done. }
  assert (w = Double -> c <> i + 1) as Hci1.
  { intros -> ->. unfold row_invalid in E. rewrite (Hd eq_refl) in E.
    destruct (i + 1 =? 0) eqn:E0; bools; [lia|]. replace (i + 1 - 1) with i in E by lia.
    rewrite Hw in E. done. }
  destruct (IH (row_set c fill (negb (is_structural_blank fill)) row)) as (E1 & E2 & E3).
  - cbn. by rewrite list_lookup_insert_ne.
  - intros Ew. cbn. rewrite list_lookup_insert_ne by auto. auto.
  - cbn [row_set r_occ r_cells set_field set_r_occ set_r_cells] in E1, E2, E3.
    rewrite list_lookup_insert_ne in E1 by done. rewrite list_lookup_insert_ne in E2 by done.
    split_and!; [done..|]. intros Ew. destruct (E3 Ew) as [E4 E5].
    rewrite list_lookup_insert_ne in E4 by auto. rewrite list_lookup_insert_ne in E5 by auto. done.
Qed.

Lemma repair_list_ext fill cs row : r_ext (row_repair_list fill cs row) = r_ext row.
Proof.
  revert row. induction cs as [|c cs IH]; intros row; [done|]. simpl. etransitivity; [apply IH|].
  unfold row_repair. by case_match.
Qed.

Lemma cluster_lookup cols c x row i :
  wf_lengths cols row -> width x <> Continuation -> c + width_columns (width x) <= cols ->
  r_cells (cluster_write c x row) !! i =
    (if decide (i = c) then Some x
     else if decide (i = c + 1 /\ width x = Double) then Some (continuation_of x) else r_cells row !! i) /\
  r_occ (cluster_write c x row) !! i =
    (if decide (c <= i < c + width_columns (width x)) then Some true else r_occ row !! i).
Proof.
  intros [Hc Ho] Hw Hb. unfold cluster_write. destruct (width x) eqn:E; [| |done]; cbn in *.
  - rewrite !list_lookup_insert. repeat case_decide; try lia; try done; naive_solver lia.
  - rewrite !list_lookup_insert, !length_insert. repeat case_decide; try lia; try done; naive_solver lia.
Qed.

Lemma repaired_cluster cols c x row cs :
  wf_lengths cols row -> width x <> Continuation -> c + width_columns (width x) <= cols ->
  let row' := row_repair_list blank_cell cs (cluster_write c x row) in
  r_cells row' !! c = Some x /\
  (width x = Double -> r_cells row' !! (c + 1) = Some (continuation_of x)) /\
  r_occ row' !! (c + width_columns (width x) - 1) = Some true.
Proof.
  intros Hl Hw Hb row'.
  assert (forall i, r_cells (cluster_write c x row) !! i = _) as L
    by (intros i; apply (cluster_lookup cols c x row i Hl Hw Hb)).
  assert (forall i, r_occ (cluster_write c x row) !! i = _) as LO
    by (intros i; apply (cluster_lookup cols c x row i Hl Hw Hb)).
  destruct (repair_keeps blank_cell cs (cluster_write c x row) c (width x)) as (E1 & E2 & E3); try done.
  - by rewrite L, decide_True.
  - intros Ed. rewrite L, decide_False, decide_True by (done || lia). done.
  - fold row' in E1, E2, E3. rewrite L, decide_True in E1 by done. split_and!; [done|..].
    + intros Ed. destruct (E3 Ed) as [-> _]. rewrite L, decide_False, decide_True by (done || lia). done.
    + destruct (width x) eqn:Ew; [|destruct (E3 eq_refl) as [_ E4]|done]; cbn in *.
      * replace (c + 1 - 1) with c by lia. rewrite E2, LO. by rewrite decide_True by lia.
      * replace (c + 2 - 1) with (c + 1) by lia. rewrite E4, LO. by rewrite decide_True by lia.
Qed.

Lemma row_repair_list_app fill cs ds row :
  row_repair_list fill ds (row_repair_list fill cs row) = row_repair_list fill (cs ++ ds) row.
Proof. unfold row_repair_list. by rewrite foldl_app. Qed.

Lemma ok_cluster cols c x row :
  width x <> Continuation -> c + width_columns (width x) <= cols -> row_ok cols row ->
  row_ok cols (row_cluster cols c x row).
Proof.
  intros Hw Hb [Hl He]. unfold row_cluster. rewrite row_repair_list_app.
  set (cs := neighborhood cols c ++ neighborhood cols (c + width_columns (width x))).
  destruct (repaired_cluster cols c x row cs Hl Hw Hb) as (_ & _ & Ht).
  set (row' := row_repair_list blank_cell cs (cluster_write c x row)) in *.
  assert (wf_lengths cols row') as Hl' by (unfold row'; auto with festerm).
  assert (r_ext row' = r_ext row) as Hx.
  { unfold row'. rewrite repair_list_ext. unfold cluster_write. by case_match. }
  unfold row_extend. destruct (_ <=? _) eqn:E; bools; [|by apply ok_recompute].
  split; [done|]. cbn. symmetry. apply extent_spec. split.
  - intros i Hi Hlt. apply repair_occ_false.
    rewrite (proj2 (cluster_lookup cols c x row i Hl Hw Hb)), decide_False by lia.
    destruct (proj1 (extent_spec (r_occ row) (extent (r_occ row))) eq_refl) as [Hf _].
    apply Hf; [rewrite <- He; lia|]. destruct Hl as [_ ->], Hl' as [_ Hl']. by rewrite <- Hl'.
  - intros m Hm. rewrite <- Ht. f_equal. lia.
Qed.

#[export] Instance row_ok_invariant cols : 2 <= cols -> RowInvariant cols (row_ok cols) (fun _ => True) (fun _ => True) true.
Proof.
  intros Hcols. split.
  - by intros row [].
  - by intros row [].
  - intros row b [[Hc Ho] He]. by repeat split.
  - intros x _. repeat split; cbn; rewrite ?length_replicate; try done. by rewrite extent_replicate.
  - intros row c x old _ _ _ [Hl _]. apply ok_recompute. by apply len_set.
  - intros. by apply ok_cluster.
  - intros row c n r x _ Hn Hr [Hl _]. apply ok_recompute. unfold repair_at.
    do 3 apply len_repair_list. apply len_fill; [lia|]. apply len_blit; done || lia.
  - intros row c n r x _ Hn Hr [Hl _]. apply ok_recompute. unfold repair_at.
    do 3 apply len_repair_list. apply len_fill; [lia|]. apply len_blit; done || lia.
  - intros a b sp Hsp [Ha _] [Hb _]. apply ok_recompute. unfold row_edges.
    do 2 apply len_repair_list. unfold span_ok, span_width in *. apply len_blit; done || lia.
  - intros row sp x Hsp _ [Hl _]. apply ok_recompute. unfold row_edges.
    do 2 apply len_repair_list. unfold span_ok, span_width in *. apply len_fill; done || lia.
  - intros a b sl dl w Hw Hs Hd [Ha _] [Hb _]. apply ok_recompute. unfold row_edges.
    do 2 apply len_repair_list. apply len_blit; done || lia.
  - intros row rect x spare _ _ _ [Hl _]. apply ok_recompute. unfold row_edges.
    do 2 apply len_repair_list. by apply len_rect.
  - intros row start stop x spare r _ _ Hs _ [Hl _]. apply ok_recompute. unfold repair_at.
    assert (start mod cols < cols) by (apply Nat.mod_upper_bound; lia).
    assert (stop - (stop - 1) / cols * cols <= cols).
    { pose proof (Nat.div_mod_eq (stop - 1) cols).
      pose proof (Nat.mod_upper_bound (stop - 1) cols). lia. }
    repeat case_match; repeat apply len_repair_list; apply len_linear; done || lia.
Qed.
End Extent.
