(* ===== verification/ScreenPairs.v ===== *)
(** * Wide characters stay whole

    A double-width cell is followed by its continuation cell and a
    continuation follows a double-width cell.  Every operation that does not
    spare protected cells repairs exactly the columns it may have broken, so
    the pairing, the occupancy and the cell bounds that
    [Screen::validate_recovery_state] checks hold in every reachable screen. *)

From Stdlib Require Import NArith Bool.
From S2P Require Import Prelude Cell Screen ScreenGrid ScreenOps ScreenInv.

(** ** Broken columns *)
Definition wd (row : Row) (d : nat) : option CellWidth := width <$> r_cells row !! d.

Definition paired (row : Row) : Prop := forall d, row_invalid row d = false.

Lemma row_invalid_wd row d :
  row_invalid row d =
    match wd row d with
    | Some Double => negb (bool_decide (wd row (d + 1) = Some Continuation))
    | Some Continuation => if d =? 0 then true else negb (bool_decide (wd row (d - 1) = Some Double))
    | _ => false
    end.
Proof.
  unfold row_invalid, wd. repeat case_match; simplify_eq; try done;
    by rewrite ?bool_decide_eq_true_2, ?bool_decide_eq_false_2 by congruence.
Qed.

(** Validity of a column only depends on the widths next to it. *)
Lemma invalid_local row row' d e :
  wd row' d = wd row e -> wd row' (d + 1) = wd row (e + 1) ->
  (d = 0 <-> e = 0) -> (d <> 0 -> wd row' (d - 1) = wd row (e - 1)) ->
  row_invalid row' d = row_invalid row e.
Proof.
  intros H0 H1 Hz Hp. rewrite !row_invalid_wd, H0, H1. case_match; [|done]. case_match; try done.
  destruct (Nat.eqb_spec d 0), (Nat.eqb_spec e 0); try tauto; try done. by rewrite Hp.
Qed.

Lemma invalid_lt row d : row_invalid row d = true -> d < length (r_cells row).
Proof.
  rewrite row_invalid_wd. unfold wd. destruct (r_cells row !! d) eqn:E; [|done]. intros _.
  by eapply lookup_lt_Some.
Qed.

Lemma wd_set c x o row d :
  wd (row_set c x o row) d = if decide (d = c /\ c < length (r_cells row)) then Some (width x) else wd row d.
Proof.
  unfold wd. cbn [row_set r_cells set_field set_r_cells set_r_occ]. rewrite list_lookup_insert.
  repeat case_decide; try done; lia.
Qed.

(** Repairing a column makes it valid and breaks no other. *)
Lemma repair_invalid fill c row d :
  width fill = Single ->
  row_invalid (row_repair fill c row) d = row_invalid row d && negb (d =? c).
Proof.
  intros Hf. unfold row_repair. destruct (row_invalid row c) eqn:Ec.
  - pose proof (invalid_lt _ _ Ec) as Hlt. rewrite (row_invalid_wd (row_set _ _ _ _)), (row_invalid_wd row d).
    rewrite !wd_set, Hf. rewrite row_invalid_wd in Ec.
    destruct (Nat.eqb_spec d c) as [->|Hne].
    { rewrite decide_True by done. by rewrite andb_false_r. }
    rewrite andb_true_r, (decide_False (P := d = c /\ _)) by tauto.
    destruct (wd row d) as [[]|] eqn:Ed; try done.
    + destruct (decide (d + 1 = c /\ _)) as [[<- _]|]; [|done].
      rewrite bool_decide_eq_false_2 by done. rewrite bool_decide_eq_false_2; [done|]. intros E. rewrite E in Ec.
      destruct (d + 1 =? 0) eqn:E0; bools; [lia|]. replace (d + 1 - 1) with d in Ec by lia.
      rewrite Ed, bool_decide_eq_true_2 in Ec by done. done.
    + destruct (d =? 0) eqn:E0; bools; [done|]. destruct (decide (d - 1 = c /\ _)) as [[<- _]|]; [|done].
      rewrite bool_decide_eq_false_2 by done. rewrite bool_decide_eq_false_2; [done|]. intros E. rewrite E in Ec.
      replace (d - 1 + 1) with d in Ec by lia. rewrite Ed, bool_decide_eq_true_2 in Ec by done. done.
  - destruct (Nat.eqb_spec d c) as [->|]; [by rewrite Ec|]. by rewrite andb_true_r.
Qed.

Lemma repair_list_invalid fill cs row d :
  width fill = Single ->
  row_invalid (row_repair_list fill cs row) d = true -> row_invalid row d = true /\ d ∉ cs.
Proof.
  intros Hf. revert row. induction cs as [|c cs IH]; intros row H.
  - split; [done|]. apply not_elem_of_nil.
  - apply IH in H as [H Hcs]. rewrite repair_invalid in H by done. bools. bools.
    split; [done|]. intros Hin. apply elem_of_cons in Hin as [->|]; done.
Qed.

Lemma paired_repairs fill cs row :
  width fill = Single -> (forall d, row_invalid row d = true -> d ∈ cs) -> paired (row_repair_list fill cs row).
Proof.
  intros Hf H d. destruct (row_invalid _ d) eqn:E; [|done].
  apply repair_list_invalid in E as [E Hn]; [|done]. by apply H in E.
Qed.

Lemma elem_of_neighborhood cols b d : 1 <= cols -> d ∈ neighborhood cols b <-> b - 1 <= d <= b + 1 /\ d < cols.
Proof. intros. unfold neighborhood. rewrite elem_of_range_incl. lia. Qed.

(** Columns a write may break: those next to its two ends. *)
Definition near (a b d : nat) : Prop := d + 1 = a \/ d = a \/ d + 1 = b \/ d = b.

Section Writes.
Context (cols : nat) (row : Row) (Hlen : wf_lengths cols row) (Hp : paired row).

(** Outside [a, b) the row is unchanged, inside it has the widths of a valid
    row shifted by some distance, or no wide cells. *)
Lemma write_breaks row' src a b e :
  paired src -> a <= b -> b <= cols ->
  (forall d, ~ (a <= d < b) -> wd row' d = wd row d) ->
  (forall d, a <= d < b -> wd row' d = wd src (e + (d - a))) ->
  forall d, row_invalid row' d = true -> near a b d.
Proof.
  intros Hsrc Hab Hb Hout Hin d Hd.
  destruct (decide (near a b d)) as [|Hn]; [done|].
  exfalso. unfold near in Hn. destruct (decide (a <= d < b)) as [Hd1|Hd1].
  - rewrite (invalid_local src row' d (e + (d - a))) in Hd.
    + by rewrite Hsrc in Hd.
    + auto.
    + rewrite Hin by lia. f_equal. lia.
    + lia.
    + intros. rewrite Hin by lia. f_equal. lia.
  - rewrite (invalid_local row row' d d) in Hd; [by rewrite Hp in Hd|apply Hout; lia..| |]; [done|].
    intros. apply Hout. lia.
Qed.

Lemma write_single_breaks row' a b :
  a <= b -> b <= cols ->
  (forall d, ~ (a <= d < b) -> wd row' d = wd row d) ->
  (forall d, a <= d < b -> wd row' d = Some Single) ->
  forall d, row_invalid row' d = true -> row_invalid row d = true \/ d + 1 = a \/ d = b.
Proof.
  intros Hab Hb Hout Hin d Hd. destruct (decide (d + 1 = a)) as [|Ha]; [tauto|].
  destruct (decide (d = b)) as [|Hb']; [tauto|]. left.
  destruct (decide (a <= d < b)) as [Hd1|Hd1].
  - rewrite row_invalid_wd, Hin in Hd by done. done.
  - rewrite (invalid_local row row' d d) in Hd; [done|apply Hout; lia..| |]; [done|].
    intros. apply Hout. lia.
Qed.
End Writes.

Lemma wd_write a cs os row d :
  a + length cs <= length (r_cells row) ->
  wd (row_write a cs os row) d =
    if decide (a <= d < a + length cs) then width <$> cs !! (d - a) else wd row d.
Proof.
  intros H. unfold wd. cbn [row_write r_cells set_field set_r_cells set_r_occ].
  rewrite lookup_splice by done. by case_decide.
Qed.

Lemma wd_blit cols a b n src dst d :
  wf_lengths cols src -> wf_lengths cols dst -> a + n <= cols -> b + n <= cols ->
  wd (row_blit a b n src dst) d = if decide (b <= d < b + n) then wd src (a + (d - b)) else wd dst d.
Proof.
  intros [Hc _] [Hc' _] Ha Hb. unfold row_blit, row_span. cbn [fst snd].
  assert (length (take n (drop a (r_cells src))) = n) as Hn by (rewrite length_take, length_drop; lia).
  rewrite wd_write, Hn by lia. case_decide; [|done]. unfold wd. by rewrite lookup_slice, decide_True by lia.
Qed.

Lemma wd_fill cols a b x row d :
  wf_lengths cols row -> a <= b <= cols ->
  wd (row_fill a b x row) d = if decide (a <= d < b) then Some (width x) else wd row d.
Proof.
  intros [Hc _] Hab. unfold row_fill. rewrite wd_write; rewrite length_replicate; [|lia].
  repeat case_decide; try lia; try done. by rewrite lookup_replicate_2 by lia.
Qed.

Lemma wd_rect cols l w x row d :
  wf_lengths cols row -> l + w <= cols ->
  wd (row_rect l w x false row) d = if decide (l <= d < l + w) then Some (width x) else wd row d.
Proof.
  intros Hl Hw. unfold row_rect. induction w as [|w IH]; [by rewrite decide_False by lia|].
  rewrite seq_S, foldl_snoc. simpl.
  set (row' := foldl _ row (seq 0 w)) in *.
  assert (wf_lengths cols row') as [Hc _] by (by apply len_rect).
  unfold row_rect_cell at 1. destruct (lookup_lt_is_Some_2 (r_cells row') (l + w)) as [old Hold]; [lia|].
  rewrite Hold. cbn [andb]. rewrite wd_set, IH by lia. repeat case_decide; try lia; done.
Qed.

(** ** The invariant *)
Definition cell_ok (c : Cell) : Prop := validate_cell c = true.

Definition row_sound (cols : nat) (row : Row) : Prop :=
  row_ok cols row /\ paired row /\ Forall cell_ok (r_cells row).

Section Sound.
Context `{P : Platform} {L : PlatformLaws P}.

Definition fill_ok (x : Cell) : Prop := width x = Single /\ cell_ok x.

Lemma blank_cell_ok : cell_ok blank_cell.
Proof.
  unfold cell_ok, validate_cell. cbn [text text_capacity_bytes blank_cell].
  pose proof (law_capacity_holds 0 [SPACE]). pose proof (law_capacity_inline [SPACE] ltac:(done)).
  apply andb_true_iff; split; [apply andb_true_iff; split; [done|]|]; lia.
Qed.

Lemma continuation_ok x : cell_ok (continuation_of x).
Proof.
  unfold cell_ok, validate_cell. cbn [text text_capacity_bytes continuation_of].
  pose proof (law_capacity_inline [] ltac:(done)).
  apply andb_true_iff; split; [apply andb_true_iff; split; [done|]|]; cbn [text_len] in *; lia.
Qed.

(** *** Cells only come from the row, the fill cell or a blank *)
Lemma cells_write a cs os row :
  Forall cell_ok cs -> Forall cell_ok (r_cells row) -> Forall cell_ok (r_cells (row_write a cs os row)).
Proof.
  intros Hc Hr. cbn. unfold splice. repeat apply Forall_app_2; auto using Forall_take, Forall_drop.
Qed.

Lemma cells_set c x o row :
  cell_ok x -> Forall cell_ok (r_cells row) -> Forall cell_ok (r_cells (row_set c x o row)).
Proof. intros. cbn. by apply Forall_insert. Qed.

Lemma cells_repairs fill cs row :
  cell_ok fill -> Forall cell_ok (r_cells row) -> Forall cell_ok (r_cells (row_repair_list fill cs row)).
Proof.
  intros Hf. revert row. induction cs as [|c cs IH]; intros row H; [done|]. apply IH.
  unfold row_repair. case_match; [by apply cells_set|done].
Qed.

Lemma cells_blit a b n src dst :
  Forall cell_ok (r_cells src) -> Forall cell_ok (r_cells dst) -> Forall cell_ok (r_cells (row_blit a b n src dst)).
Proof. intros. apply cells_write; [|done]. apply Forall_take. by apply Forall_drop. Qed.

Lemma cells_fill a b x row :
  cell_ok x -> Forall cell_ok (r_cells row) -> Forall cell_ok (r_cells (row_fill a b x row)).
Proof. intros. apply cells_write; [|done]. by apply Forall_replicate. Qed.

Lemma cells_rect l w x spare row :
  cell_ok x -> Forall cell_ok (r_cells row) -> Forall cell_ok (r_cells (row_rect l w x spare row)).
Proof.
  intros Hx. unfold row_rect. revert row. induction (seq 0 w) as [|o os IH]; intros row H; [done|]. apply IH.
  unfold row_rect_cell. repeat case_match; try done; by apply cells_set.
Qed.

(** Closing an operation: the bookkeeping is [row_ok_invariant]'s. *)
Lemma sound_recompute cols row :
  wf_lengths cols row -> paired row -> Forall cell_ok (r_cells row) -> row_sound cols (row_recompute row).
Proof. intros. split; [by apply ok_recompute|done]. Qed.

Lemma edges_paired cols l r row :
  1 <= cols -> wf_lengths cols row ->
  (forall d, row_invalid row d = true -> near l (r + 1) d) -> paired (row_edges blank_cell cols l r row).
Proof.
  intros Hc [Hl _] H. unfold row_edges. rewrite row_repair_list_app. apply paired_repairs; [done|].
  intros d Hd. pose proof (invalid_lt _ _ Hd). apply H in Hd. unfold near in Hd.
  rewrite elem_of_app, !elem_of_neighborhood by done. lia.
Qed.

Lemma close_sound cols l r row :
  1 <= cols -> wf_lengths cols row -> Forall cell_ok (r_cells row) ->
  (forall d, row_invalid row d = true -> near l (r + 1) d) -> row_sound cols (row_close cols l r row).
Proof.
  intros Hc Hl Hk H. apply sound_recompute.
  - unfold row_edges. by repeat apply len_repair_list.
  - by apply edges_paired.
  - unfold row_edges. repeat apply cells_repairs; done || apply blank_cell_ok.
Qed.
(** *** One lemma per kind of operation *)
Section Fields.
Context (cols : nat) (Hcols : 2 <= cols).

Lemma full_paired x : width x = Single -> paired (full_row cols x).
Proof.
  intros Hx d. rewrite row_invalid_wd. unfold wd. cbn [full_row r_cells].
  destruct (decide (d < cols)); [by rewrite lookup_replicate_2 by done; simpl; rewrite Hx|].
  by rewrite lookup_ge_None_2 by (rewrite length_replicate; lia).
Qed.

Lemma sound_cluster row c x :
  width x <> Continuation -> cell_ok x -> c + width_columns (width x) <= cols -> row_sound cols row ->
  row_sound cols (row_cluster cols c x row).
Proof.
  intros Hw Hx Hb (Hok & Hp & Hk). split; [by apply ok_cluster|]. pose proof (proj1 Hok) as Hl.
  assert (forall d, wd (cluster_write c x row) d =
    if decide (d = c) then Some (width x)
    else if decide (d = c + 1 /\ width x = Double) then Some Continuation else wd row d) as W.
  { intros d. unfold wd at 1. rewrite (proj1 (cluster_lookup cols c x row d Hl Hw Hb)).
    repeat case_decide; done. }
  assert (forall r', r_cells (row_extend c (width_columns (width x)) r') = r_cells r') as Ext
    by (intros; unfold row_extend; by case_match).
  unfold row_cluster. rewrite row_repair_list_app. split.
  - set (cs := _ ++ _). enough (paired (row_repair_list blank_cell cs (cluster_write c x row))) as H.
    { intros d. specialize (H d). rewrite row_invalid_wd in *. unfold wd in *. by rewrite Ext. }
    apply paired_repairs; [done|]. intros d Hd. pose proof (invalid_lt _ _ Hd) as Hlt.
    rewrite (proj1 (len_cluster cols c x row Hl)) in Hlt. unfold cs.
    rewrite elem_of_app, !elem_of_neighborhood by lia.
    enough (d + 1 = c \/ d = c \/ d = c + 1 \/ d = c + width_columns (width x)) by lia.
    destruct (decide (d + 1 = c \/ d = c \/ d = c + 1 \/ d = c + width_columns (width x))) as [|Hn]; [done|].
    exfalso. rewrite (invalid_local row _ d d) in Hd; [by rewrite Hp in Hd|..|done|];
      intros; rewrite W; destruct (width x); cbn in *; repeat case_decide; destruct_and?; try lia; done.
  - rewrite Ext. apply cells_repairs; [apply blank_cell_ok|]. unfold cluster_write.
    case_match; repeat apply cells_set; done || apply continuation_ok.
Qed.

Lemma sound_three_repairs row x b1 b2 b3 :
  fill_ok x -> wf_lengths cols row -> Forall cell_ok (r_cells row) ->
  (forall d, row_invalid row d = true ->
     (b1 - 1 <= d <= b1 + 1) \/ (b2 - 1 <= d <= b2 + 1) \/ (b3 - 1 <= d <= b3 + 1)) ->
  row_sound cols (row_recompute (repair_at x cols b3 (repair_at x cols b2 (repair_at x cols b1 row)))).
Proof.
  intros [Hw Hx] Hl Hk H. unfold repair_at. rewrite !row_repair_list_app. apply sound_recompute.
  - by apply len_repair_list.
  - apply paired_repairs; [done|]. intros d Hd. pose proof (invalid_lt _ _ Hd). destruct Hl as [Hl _].
    apply H in Hd. rewrite !elem_of_app, !elem_of_neighborhood by lia. lia.
  - by apply cells_repairs.
Qed.

Lemma sound_insert row c n r x :
  fill_ok x -> c + n <= r + 1 -> r < cols -> row_sound cols row -> row_sound cols (row_insert_chars cols c n r x row).
Proof.
  intros Hx Hn Hr ((Hl & _) & Hp & Hk).
  set (row1 := row_blit c (c + n) (r + 1 - n - c) row row).
  assert (wf_lengths cols row1) as Hl1 by (apply len_blit; done || lia).
  unfold row_insert_chars. fold row1. apply sound_three_repairs; [done|..].
  - apply len_fill; [lia|done].
  - apply cells_fill; [apply Hx|]. by apply cells_blit.
  - intros d Hd. eapply (write_single_breaks cols row1 _ c (c + n)) in Hd as [Hd|Hd]; [|lia|lia|lia|..].
    + eapply (write_breaks cols row Hp row1 row (c + n) (r + 1) c) in Hd; [unfold near in Hd; lia|done|lia|lia|..].
      * intros e He. unfold row1. rewrite (wd_blit cols) by (done || lia). by rewrite decide_False by lia.
      * intros e He. unfold row1. rewrite (wd_blit cols) by (done || lia). by rewrite decide_True by lia.
    + intros e He. rewrite (wd_fill cols) by (done || lia). by rewrite decide_False by lia.
    + intros e He. rewrite (wd_fill cols) by (done || lia). rewrite decide_True by lia. by rewrite (proj1 Hx).
Qed.

Lemma sound_delete row c n r x :
  fill_ok x -> c + n <= r + 1 -> r < cols -> row_sound cols row -> row_sound cols (row_delete_chars cols c n r x row).
Proof.
  intros Hx Hn Hr ((Hl & _) & Hp & Hk).
  set (row1 := row_blit (c + n) c (r + 1 - n - c) row row).
  assert (wf_lengths cols row1) as Hl1 by (apply len_blit; done || lia).
  unfold row_delete_chars. fold row1. apply sound_three_repairs; [done|..].
  - apply len_fill; [lia|done].
  - apply cells_fill; [apply Hx|]. by apply cells_blit.
  - intros d Hd. eapply (write_single_breaks cols row1 _ (r + 1 - n) (r + 1)) in Hd as [Hd|Hd]; [|lia|lia|lia|..].
    + eapply (write_breaks cols row Hp row1 row c (r + 1 - n) (c + n)) in Hd; [unfold near in Hd; lia|done|lia|lia|..].
      * intros e He. unfold row1. rewrite (wd_blit cols) by (done || lia). by rewrite decide_False by lia.
      * intros e He. unfold row1. rewrite (wd_blit cols) by (done || lia). by rewrite decide_True by lia.
    + intros e He. rewrite (wd_fill cols) by (done || lia). by rewrite decide_False by lia.
    + intros e He. rewrite (wd_fill cols) by (done || lia). rewrite decide_True by lia. by rewrite (proj1 Hx).
Qed.

Lemma sound_paste a b sl dl w r :
  1 <= w -> sl + w <= cols -> dl + w <= cols -> r + 1 = dl + w -> row_sound cols a -> row_sound cols b ->
  row_sound cols (row_close cols dl r (row_blit sl dl w a b)).
Proof.
  intros Hw Hs Hd Hr ((Hla & _) & Hpa & Hka) ((Hlb & _) & Hpb & Hkb). apply close_sound; [lia|..].
  - by apply len_blit.
  - by apply cells_blit.
  - intros d Hi. rewrite Hr.
    eapply (write_breaks cols b Hpb _ a dl (dl + w) sl) in Hi; [done|done|lia|lia|..]; intros e He;
      rewrite (wd_blit cols) by (done || lia); by rewrite ?decide_True, ?decide_False by lia.
Qed.

(** Writing single-width cells over [l, r]. *)
Lemma sound_overwrite row row' l r :
  l <= r < cols -> row_sound cols row -> wf_lengths cols row' -> Forall cell_ok (r_cells row') ->
  (forall d, wd row' d = if decide (l <= d < r + 1) then Some Single else wd row d) ->
  row_sound cols (row_close cols l r row').
Proof.
  intros Hl (_ & Hp & _) Hlen Hk W. apply close_sound; [lia|done|done|].
  intros d Hd. eapply (write_single_breaks cols row _ l (r + 1)) in Hd as [Hd|Hd]; [| |lia|lia|..].
  - by rewrite Hp in Hd.
  - unfold near. lia.
  - intros e He. by rewrite W, decide_False by lia.
  - intros e He. by rewrite W, decide_True by lia.
Qed.
End Fields.
Lemma sound_linear cols row start stop x r :
  2 <= cols -> fill_ok x -> start < stop -> row_sound cols row ->
  row_sound cols (row_linear_closed cols start stop x false r row).
Proof.
  intros Hcols Hx Hs ((Hl & _) & Hp & Hk). unfold row_linear_closed.
  set (fr := start / cols). set (lr := (stop - 1) / cols). set (fc := start mod cols). set (lc := stop - lr * cols).
  assert (fc < cols) by (apply Nat.mod_upper_bound; lia).
  assert (lc <= cols).
  { pose proof (Nat.div_mod_eq (stop - 1) cols). fold lr in H0.
    pose proof (Nat.mod_upper_bound (stop - 1) cols). unfold lc. lia. }
  set (row1 := row_linear cols fr fc lr lc x false r row).
  assert (wf_lengths cols row1) as Hl1 by (apply len_linear; done || lia).
  set (a := if r =? fr then fc else 0). set (b := if r =? lr then lc else cols).
  assert (Forall cell_ok (r_cells row1) /\ forall d, row_invalid row1 d = true -> d + 1 = a \/ d = b) as [Hk1 Hd1].
  { unfold row1, row_linear. fold a b. destruct (b <=? a) eqn:E; bools.
    - split; [done|]. intros d Hd. by rewrite Hp in Hd.
    - fold (row_fill a b x row). split; [apply cells_fill; [apply Hx|done]|].
      assert (b <= cols) by (unfold b; case_match; lia).
      intros d Hd. eapply (write_single_breaks cols row _ a b) in Hd as [Hd|Hd]; [by rewrite Hp in Hd|done|lia|done|..];
        intros e He; rewrite (wd_fill cols a b x) by (done || lia); case_decide; try lia; [done|].
      by rewrite (proj1 Hx). }
  set (cs := (if r =? fr then neighborhood cols fc else []) ++ (if r =? lr then neighborhood cols lc else [])).
  assert ((if r =? lr then repair_at x cols lc (if r =? fr then repair_at x cols fc row1 else row1)
           else if r =? fr then repair_at x cols fc row1 else row1) = row_repair_list x cs row1) as ->.
  { unfold cs, repair_at. destruct (r =? fr), (r =? lr); by rewrite ?row_repair_list_app, ?app_nil_r. }
  apply sound_recompute; [by apply len_repair_list| |apply cells_repairs; [apply Hx|done]].
  apply paired_repairs; [apply Hx|]. intros d Hd. pose proof (invalid_lt _ _ Hd) as Hlt.
  rewrite (proj1 Hl1) in Hlt. apply Hd1 in Hd. unfold cs, a, b in *. rewrite elem_of_app.
  destruct (r =? fr), (r =? lr); rewrite ?elem_of_neighborhood by lia; lia.
Qed.

#[export] Instance row_sound_invariant cols :
  2 <= cols -> RowInvariant cols (row_sound cols) fill_ok cell_ok false.
Proof.
  intros Hcols. split.
  - by intros row [[]].
  - by intros row [[]].
  - intros row b ([[Hc Ho] He] & Hp & Hk). by repeat split.
  - intros x [Hw Hx]. split; [by apply (ri_full (RowInvariant := row_ok_invariant cols Hcols))|].
    split; [by apply full_paired|]. by apply Forall_replicate.
  - intros row c x old Hold Hw HY ((Hl & _) & Hp & Hk). apply sound_recompute.
    + by apply len_set.
    + intros d. rewrite <- (Hp d). apply invalid_local; [..|done|intros _]; rewrite wd_set;
        case_decide as E; try done; destruct E as [-> _]; unfold wd; by rewrite Hold, Hw.
    + by apply cells_set.
  - intros. by apply sound_cluster.
  - intros. by apply sound_insert.
  - intros. by apply sound_delete.
  - intros a b sp [Hl Hr] Ha Hb. unfold row_shift_span, span_width. apply sound_paste; done || lia.
  - intros row sp x [Hl Hr] [Hw Hx] H. pose proof H as ((Hlen & _) & _ & Hk). unfold row_fill_span, span_width.
    apply (sound_overwrite cols Hcols row); [done|done|apply len_fill; done || lia|by apply cells_fill|].
    intros d. rewrite (wd_fill cols) by (done || lia). rewrite Hw. repeat case_decide; try lia; done.
  - intros a b sl dl w Hw Hs Hd Ha Hb. apply sound_paste; done || lia.
  - intros row rect x spare Hsp [Hw Hx] Hr H. pose proof H as ((Hlen & _) & _ & Hk).
    destruct spare; [by discriminate Hsp|]. unfold row_fill_rect.
    apply (sound_overwrite cols Hcols row); [done|done|by apply len_rect|by apply cells_rect|].
    intros d. rewrite (wd_rect cols) by (done || lia). rewrite Hw. repeat case_decide; try lia; done.
  - intros row start stop x spare r Hsp Hx Hs _ H. destruct spare; [by discriminate Hsp|].
    by apply sound_linear.
Qed.
End Sound.
