(* ===== verification/ScreenBuild.v ===== *)
(** * Building screens

    [Screen::new], [from_rows] and [resized]: they return a well-shaped screen
    of the requested size whose rows are well-formed, whatever rows they are
    given; and the screens reachable by the operations of [Screen.v]. *)

From Stdlib Require Import NArith Bool.
From stdpp Require Import relations.
From S2P Require Import Prelude Cell Screen ScreenGrid ScreenOps ScreenInv ScreenPairs.

Section Build.
Context `{P : Platform}.

Definition repaired_row (cols : nat) (row : Row) : Row :=
  row_recompute (row_repair_list blank_cell (seq 0 cols) row).

Lemma sim_repair_row r s :
  shape s -> r < nrows s -> sim (repair_row r) (on_row r (repaired_row (ncols s))) s.
Proof.
  intros Hs Hr. apply sim_result. unfold repair_row. rewrite range_0.
  step (sim_repair_list r (seq 0 (ncols s)) blank_cell).
  { intros c Hc. apply elem_of_seq in Hc. lia. }
  finish (sim_recompute r). by norm_grid.
Qed.

Lemma sim_repair_wide_cells s :
  shape s -> sim repair_wide_cells (on_rows (map_range (repaired_row (ncols s)) 0 (nrows s))) s.
Proof.
  intros Hs. unfold repair_wide_cells. apply sim_result. rewrite range_0.
  apply (sim_each_row _ (repaired_row (ncols s)) 0 (nrows s)); [done|lia|].
  intros r s' Hr F. rewrite <- (proj1 (proj2 F)). apply sim_repair_row; frames.
Qed.

(** Repairing a whole row makes it well-formed. *)
Lemma repaired_ok cols row : wf_lengths cols row -> row_ok cols (repaired_row cols row).
Proof. intros. apply ok_recompute. by apply len_repair_list. Qed.

Lemma repaired_sound `{L : !PlatformLaws P} cols row :
  wf_lengths cols row -> Forall cell_ok (r_cells row) -> row_sound cols (repaired_row cols row).
Proof.
  intros Hl Hk. apply sound_recompute; [by apply len_repair_list| |by apply cells_repairs; [apply blank_cell_ok|]].
  apply paired_repairs; [done|]. intros d Hd. apply elem_of_seq. apply invalid_lt in Hd.
  destruct Hl. lia.
Qed.

(** ** Construction *)
Lemma Screen_new_grid d s :
  dims_ok d -> Screen_new d = inr s ->
  shape s /\ dimensions s = d /\ top s = 0 /\
  grid_of s = mkGrid (replicate (rows d) (full_row (columns d) blank_cell)) (replicate (rows d) true).
Proof.
  intros (Hc & Hr & Hn). unfold Screen_new. destruct (_ && _); [|done]. intros [= <-].
  assert (shape (mkScreen d 0 (replicate (cell_count d) blank_cell) (replicate (cell_count d) false)
    (replicate (rows d) true) (replicate (rows d) false) (replicate (rows d) 0))) as Hs.
  { split; cbn; rewrite ?length_replicate; try done; lia. }
  split; [done|]. split; [done|]. split; [done|]. unfold grid_of. f_equal. cbn [dimensions].
  apply list_eq. intros r. destruct (decide (r < rows d)) as [Hlt|Hge].
  - rewrite list_lookup_fmap, lookup_seq_lt by done. rewrite lookup_replicate_2 by done.
    pose proof (view_row_lengths _ r Hs Hlt) as [Lc Lo]. pose proof (row_start_bound _ Hs r (columns d) Hlt ltac:(cbn; lia)) as B.
    pose proof (physical_row_lt (mkScreen d 0 (replicate (cell_count d) blank_cell) (replicate (cell_count d) false)
      (replicate (rows d) true) (replicate (rows d) false) (replicate (rows d) 0)) r ltac:(cbn; lia) Hlt) as Hp.
    cbn [fmap option_fmap option_map]. f_equal. unfold view_row, full_row. cbn in B, Hp |- *.
    rewrite !lookup_replicate_2 by done. cbn. rewrite !drop_replicate, !take_replicate.
    f_equal; f_equal; lia.
  - rewrite !lookup_ge_None_2; rewrite ?length_map, ?length_seq, ?length_replicate; done || lia.
Qed.

Lemma physical_row_top0 s r : top s = 0 -> r < nrows s -> physical_row s r = r.
Proof. intros Ht Hr. unfold physical_row. rewrite Ht. by apply Nat.mod_small. Qed.

(** The row [from_rows] places: cells up to the width, all of them occupied. *)
Definition row_place (cols : nat) (r : ScreenRow) (row : Row) : Row :=
  let len := Nat.min (length (row_cells r)) cols in
  (row_write 0 (take len (row_cells r)) (replicate len true) row) <| r_soft := soft_wrapped r |> <| r_ext := len |>.

Lemma sim_place_row i r s :
  shape s -> top s = 0 -> i < nrows s ->
  sim (place_row (ncols s) (i, r)) (on_row i (row_place (ncols s) r)) s.
Proof.
  intros Hs Ht Hi. set (len := Nat.min (length (row_cells r)) (ncols s)).
  pose proof (row_start_bound s Hs i len Hi ltac:(lia)) as B. destruct (Hs) as [_ _ Hc Ho _ _ _].
  eapply sim_op_ext; [|apply (sim_write_row i 0 (take len (row_cells r)) (replicate len true) (soft_wrapped r) len s)];
    rewrite ?length_replicate, ?length_take; try done; [|lia..].
  unfold place_row. fold len. unfold physical_row_start in *. rewrite Nat.add_0_r, physical_row_top0 in * by done.
  rewrite fill_slice_Some, !write_slice_Some by (rewrite ?length_replicate, ?length_take; lia). simpl.
  by replace (i * ncols s + len - i * ncols s) with len by lia.
Qed.

(** The row [resized] copies. *)
Definition row_resize (pc : nat) (keep : bool) (old row : Row) : Row :=
  (row_write 0 (take pc (r_cells old)) (take pc (r_occ old)) row)
    <| r_soft := r_soft old && keep |> <| r_ext := Nat.min (r_ext old) pc |>.

Lemma sim_resize_row old pc i s :
  shape old -> shape s -> top s = 0 -> i < nrows s -> i < nrows old ->
  pc <= ncols s -> pc <= ncols old ->
  sim (resize_row old pc (ncols s) i) (on_row i (row_resize pc (pc =? ncols old) (view_row old i))) s.
Proof.
  intros Ho Hs Ht Hi Hio Hp Hpo. destruct (view_row_lengths old i Ho Hio) as [Lc Lo].
  pose proof (row_start_bound s Hs i pc Hi ltac:(lia)) as B.
  pose proof (row_start_bound old Ho i (ncols old) Hio ltac:(lia)) as B'.
  assert (forall A (l : list A), take pc (take (ncols old) (drop (physical_row_start old i) l)) =
    take pc (drop (physical_row_start old i) l)) as Etake by (intros; rewrite take_take; f_equal; lia).
  eapply sim_op_ext; [|apply (sim_write_row i 0 (take pc (r_cells (view_row old i))) (take pc (r_occ (view_row old i)))
      (r_soft (view_row old i) && (pc =? ncols old)) (Nat.min (r_ext (view_row old i)) pc) s)];
    rewrite ?length_take; try done; [|lia..].
  unfold resize_row. rewrite soft_lookup, occupied_lookup by done.
  rewrite !slice_Some by (rewrite ?(shape_cells old Ho), ?(shape_occ old Ho); lia).
  replace (physical_row_start old i + pc - physical_row_start old i) with pc by lia.
  assert (physical_row_start s i = i * ncols s) as -> by (unfold physical_row_start; by rewrite physical_row_top0).
  rewrite Nat.add_0_r, physical_row_top0 by done.
  cbn [r_cells r_occ view_row]. rewrite !Etake. cbn [mbind option_bind].
  destruct (write_slice (cells s) _ _); [|done]. cbn [mbind option_bind].
  destruct (write_slice (occupied_cells s) _ _); [|done]. cbn [mbind option_bind].
  by destruct (set_index (soft_wrapped_rows s) _ _).
Qed.

(** ** Rebuilt screens *)
Lemma all_foldl_on_row {I} (Q : Row -> Prop) (q : I -> nat) (f : I -> Row -> Row) xs g :
  Forall Q (g_rows g) -> (forall x row, x ∈ xs -> Q row -> Q (f x row)) ->
  Forall Q (g_rows (foldl (fun g x => on_row (q x) (f x) g) g xs)).
Proof.
  revert g. induction xs as [|x xs IH]; intros g H Hf; [done|]. apply IH.
  - apply all_alter; [done|]. intros. apply Hf; [by left|done].
  - intros. apply Hf; [by right|done].
Qed.

Lemma elem_of_imap_pair {A} (l : list A) i x : (i, x) ∈ imap pair l -> l !! i = Some x.
Proof.
  intros H. apply list_elem_of_lookup in H as (k & H). rewrite list_lookup_imap in H.
  destruct (l !! k) eqn:E; [|done]. simpl in H. by simplify_eq.
Qed.

(** A rebuilt screen: its size, and that its rows are well-formed. *)
Definition rebuilt (d : Dimensions) (cells_good : Prop) (s : Screen) : Prop :=
  shape s /\ dimensions s = d /\ all_rows (row_ok (columns d)) s /\
  (cells_good -> all_rows (row_sound (columns d)) s).

(** Lengths, and that the cells are good when the given ones are. *)
Definition raw_row (cols : nat) (C : Prop) (row : Row) : Prop :=
  wf_lengths cols row /\ (C -> Forall cell_ok (r_cells row)).

Section Rebuild.
Context `{L : !PlatformLaws P} (d : Dimensions) (Hd : dims_ok d) (C : Prop).

Lemma raw_blank : raw_row (columns d) C (full_row (columns d) blank_cell).
Proof.
  split; [split; apply length_replicate|]. intros _. apply Forall_replicate. apply blank_cell_ok.
Qed.

(** Placing rows on a new screen and repairing it. *)
Lemma rebuild_from {I} (body : I -> Screen -> option Screen) (q : I -> nat) (f : I -> Row -> Row) xs s0 :
  Screen_new d = inr s0 ->
  (forall x s, x ∈ xs -> same_frame s0 s -> sim (body x) (on_row (q x) (f x)) s) ->
  (forall x row, x ∈ xs -> raw_row (columns d) C row -> raw_row (columns d) C (f x row)) ->
  exists s2, (s1 ← for_each body xs s0; repair_wide_cells s1) = Some s2 /\ rebuilt d C s2 /\
    grid_of s2 = on_rows (map_range (repaired_row (columns d)) 0 (rows d))
      (foldl (fun g x => on_row (q x) (f x) g) (grid_of s0) xs).
Proof.
  intros H0 Hb Hf. destruct (Screen_new_grid d s0 Hd H0) as (Hs0 & Hd0 & Ht0 & G0).
  destruct (sim_for_each body (fun x => on_row (q x) (f x)) xs s0 Hs0 Hb) as (s1 & E1 & F1 & G1).
  rewrite E1. cbn [mbind option_bind].
  destruct (sim_repair_wide_cells s1) as (s2 & E2 & F2 & G2); [apply F1|].
  assert (Forall (raw_row (columns d) C) (g_rows (grid_of s1))) as Hraw.
  { rewrite G1. apply all_foldl_on_row; [|done]. rewrite G0. apply Forall_replicate. apply raw_blank. }
  pose proof (same_frame_trans _ _ _ F1 F2) as (Hs2 & Hd2 & Ht2). destruct (F1) as (_ & Hd1 & _).
  exists s2. split; [done|]. split; [|by rewrite G2, G1, Hd1, Hd0].
  split; [done|]. split; [congruence|]. unfold all_rows.
  rewrite G2, Hd1, Hd0. cbn [on_rows g_rows].
  assert (0 + rows d <= length (g_rows (grid_of s1))) by (rewrite grid_length, Hd1, Hd0; lia).
  split; [|intros HC]; apply Forall_lookup; intros i row; rewrite lookup_map_range by done.
  - case_decide as Hi; [|rewrite lookup_ge_None_2; [done|]; rewrite grid_length, Hd1, Hd0; lia].
    destruct (g_rows (grid_of s1) !! i) eqn:Ei; [|done]. intros [= <-].
    apply repaired_ok. by eapply Forall_lookup_1 in Hraw as [? _].
  - case_decide as Hi; [|rewrite lookup_ge_None_2; [done|]; rewrite grid_length, Hd1, Hd0; lia].
    destruct (g_rows (grid_of s1) !! i) eqn:Ei; [|done]. intros [= <-].
    eapply Forall_lookup_1 in Hraw as [? Hc]; [|done]. by apply repaired_sound; [|apply Hc].
Qed.
End Rebuild.

Lemma from_rows_ok `{L : !PlatformLaws P} d rs :
  dims_ok d ->
  exists out, from_rows d rs = Some out /\
    match out with
    | inl _ => Screen_new d = inl tt
    | inr s => rebuilt d (Forall (fun r => Forall cell_ok (row_cells r)) rs) s
    end.
Proof.
  intros Hd. unfold from_rows. destruct (Screen_new d) as [[]|s0] eqn:E0; [by eexists|].
  destruct (Screen_new_grid d s0 Hd E0) as (Hs0 & Hd0 & Ht0 & _).
  destruct (rebuild_from d Hd (Forall (fun r => Forall cell_ok (row_cells r)) rs) (place_row (columns d)) fst
    (fun x => row_place (columns d) x.2) (imap pair (take (rows d) rs)) s0 E0) as (s2 & E2 & (Hs & Hdim & Hr & Hc) & _).
  - intros [i r] s Hx (Hs & Hds & Hts). apply elem_of_imap_pair, lookup_lt_Some in Hx.
    rewrite length_take in Hx. cbn [fst snd].
    replace (columns d) with (ncols s) by congruence. apply sim_place_row; [done|congruence|].
    rewrite Hds, Hd0. lia.
  - intros [i r] row Hx [Hl Hk]. apply elem_of_imap_pair in Hx. cbn [snd]. unfold row_place.
    set (len := Nat.min (length (row_cells r)) (columns d)). split.
    + apply (len_write (columns d) 0 (take len (row_cells r)) (replicate len true)); [..|done];
        rewrite ?length_replicate, length_take; lia.
    + intros HC. apply (cells_write 0 _ (replicate len true) row); [|by apply Hk]. apply Forall_take.
      apply lookup_take_Some in Hx as [Hx _]. by eapply Forall_lookup_1 in HC.
  - apply bind_Some in E2 as (s1 & E1 & E2). rewrite E1. cbn [mbind option_bind]. rewrite E2. cbn [mbind option_bind].
    eexists. split; [done|]. split_and!; [|done|done|done].
    destruct Hs. split; try done. cbn. by rewrite length_map.
Qed.

Lemma resized_ok `{L : !PlatformLaws P} self d :
  dims_ok d -> shape self -> all_rows (row_ok (ncols self)) self ->
  exists out, resized self d = Some out /\
    match out with
    | inl _ => Screen_new d = inl tt
    | inr s => rebuilt d (all_rows (row_sound (ncols self)) self) s /\
        forall s0, Screen_new d = inr s0 ->
        let pc := Nat.min (ncols self) (columns d) in
        grid_of s = on_rows (map_range (repaired_row (columns d)) 0 (rows d))
          (foldl (fun g i => on_row i (row_resize pc (pc =? ncols self) (view_row self i)) g) (grid_of s0)
             (range 0 (Nat.min (nrows self) (rows d))))
    end.
Proof.
  intros Hd Hself Hok. unfold resized. destruct (Screen_new d) as [[]|s0] eqn:E0; [by eexists|].
  destruct (Screen_new_grid d s0 Hd E0) as (Hs0 & Hd0 & Ht0 & _).
  set (pr := Nat.min (nrows self) (rows d)). set (pc := Nat.min (ncols self) (columns d)).
  destruct (rebuild_from d Hd (all_rows (row_sound (ncols self)) self) (resize_row self pc (columns d)) (fun i => i)
    (fun i => row_resize pc (pc =? ncols self) (view_row self i)) (range 0 pr) s0 E0) as (s2 & E2 & R & G2).
  - intros i s Hi (Hs & Hds & Hts). apply elem_of_range in Hi.
    assert (nrows s = rows d /\ ncols s = columns d) as [Er Ec] by (rewrite Hds, Hd0; done).
    rewrite <- Ec. apply sim_resize_row; try done; lia || congruence.
  - intros i row Hi [Hl Hk]. apply elem_of_range in Hi. destruct (view_row_lengths self i Hself) as [Lc Lo]; [lia|].
    unfold row_resize. split.
    + apply (len_write (columns d) 0 (take pc (r_cells (view_row self i))) (take pc (r_occ (view_row self i)))); [..|done];
        rewrite !length_take; lia.
    + intros HC. apply (cells_write 0 _ (take pc (r_occ (view_row self i))) row); [|by apply Hk].
      apply Forall_take. pose proof (all_rows_view _ self i HC) as [_ [_ Hi']]; [lia|done].
  - apply bind_Some in E2 as (s1 & E1 & E2). rewrite E1. cbn [mbind option_bind]. rewrite E2. cbn [mbind option_bind].
    eexists. split; [done|]. split; [done|]. by intros ? [= <-].
Qed.
End Build.

(** ** Reachable screens *)
Section Reachable.
Context `{P : Platform}.

(** The operations a terminal performs on a screen, with their arguments,
    except the fills that spare protected cells. *)
Inductive ScreenOp :=
  | OpCluster (column row : nat) (c : Cell)
  | OpReplace (column row : nat) (c : Cell)
  | OpInsertCharacters (column row count : nat) (c : Cell) (span : ColumnSpan)
  | OpDeleteCharacters (column row count : nat) (c : Cell) (span : ColumnSpan)
  | OpInsertLines (row bottom count : nat) (c : Cell) (span : ColumnSpan)
  | OpDeleteLines (row bottom count : nat) (c : Cell) (span : ColumnSpan)
  | OpScrollUp (top bottom count : nat) (c : Cell) (span : ColumnSpan)
  | OpScrollDown (top bottom count : nat) (c : Cell) (span : ColumnSpan)
  | OpFillLinear (start stop : nat) (c : Cell)
  | OpFillRectangle (r : Rectangle) (c : Cell)
  | OpCopyRectangle (r : Rectangle) (top left : nat)
  | OpClear (c : Cell)
  | OpSoftWrapped (b : bool) (row : nat)
  | OpResize (d : Dimensions).

Definition run_screen_op (op : ScreenOp) (s : Screen) : option Screen :=
  match op with
  | OpCluster column row c => replace_cluster column row c s
  | OpReplace column row c => replace_cell column row c s
  | OpInsertCharacters column row count c span => insert_characters column row count c span s
  | OpDeleteCharacters column row count c span => delete_characters column row count c span s
  | OpInsertLines row bottom count c span => insert_lines row bottom count c span s
  | OpDeleteLines row bottom count c span => delete_lines row bottom count c span s
  | OpScrollUp top bottom count c span => out ← scroll_up top bottom count c span s; Some out.2
  | OpScrollDown top bottom count c span => scroll_down top bottom count c span s
  | OpFillLinear start stop c => fill_linear start stop c s
  | OpFillRectangle r c => fill_rectangle r c false s
  | OpCopyRectangle r top left => copy_rectangle r top left s
  | OpClear c => Some (clear_all c s)
  | OpSoftWrapped b row => set_soft_wrapped b row s
  | OpResize d => out ← resized s d; Some (match out with inl _ => s | inr s' => s' end)
  end.

Definition lines_ok (s : Screen) (first bottom count : nat) (c : Cell) (sp : ColumnSpan) : Prop :=
  first <= bottom < nrows s /\ 1 <= count /\ span_ok (ncols s) sp /\ fill_ok c.

(** What a caller guarantees: positions on the screen, a real size, cells
    within the bounds. *)
Definition screen_op_ok (s : Screen) (op : ScreenOp) : Prop :=
  match op with
  | OpCluster column row c =>
      row < nrows s /\ width c <> Continuation /\ cell_ok c /\ column + width_columns (width c) <= ncols s
  | OpReplace column row c =>
      row < nrows s /\ cell_ok c /\ width <$> cell s column row = Some (width c)
  | OpInsertCharacters _ row _ c _ | OpDeleteCharacters _ row _ c _ => row < nrows s /\ fill_ok c
  | OpInsertLines first bottom count c sp | OpDeleteLines first bottom count c sp
  | OpScrollUp first bottom count c sp | OpScrollDown first bottom count c sp => lines_ok s first bottom count c sp
  | OpFillLinear _ stop c => stop <= nrows s * ncols s /\ fill_ok c
  | OpFillRectangle r c =>
      rect_top r <= rect_bottom r < nrows s /\ rect_left r <= rect_right r < ncols s /\ fill_ok c
  | OpCopyRectangle r top left =>
      rect_top r <= rect_bottom r < nrows s /\ rect_left r <= rect_right r < ncols s /\ top < nrows s /\ left < ncols s
  | OpClear c => fill_ok c
  | OpSoftWrapped _ row => row < nrows s
  | OpResize d => Dimensions_new (columns d) (rows d) = inr d
  end.

Definition screen_sound (s : Screen) : Prop :=
  shape s /\ all_rows (row_sound (ncols s)) s /\ Dimensions_new (ncols s) (nrows s) = inr (dimensions s).

Lemma keeps_sound o s :
  Dimensions_new (ncols s) (nrows s) = inr (dimensions s) -> keeps (row_sound (ncols s)) o s ->
  exists s', o = Some s' /\ screen_sound s'.
Proof.
  intros Hd (s' & -> & Hs' & Hd' & H'). exists s'. split; [done|]. unfold screen_sound. by rewrite Hd'.
Qed.

Context `{L : !PlatformLaws P}.

Lemma sound_ok cols s : all_rows (row_sound cols) s -> all_rows (row_ok cols) s.
Proof. apply Forall_impl. by intros row []. Qed.

Lemma run_screen_op_sound s op :
  screen_sound s -> screen_op_ok s op -> exists s', run_screen_op op s = Some s' /\ screen_sound s'.
Proof.
  intros (Hs & H & Hd) Hop. pose proof (row_sound_invariant (ncols s) (proj1 (shape_dims s Hs))) as RI.
  destruct op; cbn [screen_op_ok run_screen_op] in *; unfold lines_ok in *; destruct_and?.
  - apply (keeps_sound _ s); [done|]. by apply (keeps_replace_cluster (RI := RI)).
  - destruct (cell s column row) as [old|] eqn:Eold; [|done].
    apply (keeps_sound _ s); [done|]. eapply (keeps_replace_cell (RI := RI)); try done. naive_solver.
  - apply (keeps_sound _ s); [done|]. by apply (keeps_insert_characters (RI := RI)).
  - apply (keeps_sound _ s); [done|]. by apply (keeps_delete_characters (RI := RI)).
  - apply (keeps_sound _ s); [done|]. by apply (keeps_insert_lines (RI := RI)).
  - apply (keeps_sound _ s); [done|]. by apply (keeps_delete_lines (RI := RI)).
  - destruct (keeps_scroll_up (RI := RI) s Hs eq_refl H top bottom count c span) as (out & -> & (Hs' & Hd' & _) & H');
      [done..|].
    cbn [mbind option_bind]. exists out.2. unfold screen_sound. by rewrite Hd'.
  - apply (keeps_sound _ s); [done|]. by apply (keeps_scroll_down (RI := RI)).
  - apply (keeps_sound _ s); [done|]. by apply (keeps_fill_linear (RI := RI)).
  - apply (keeps_sound _ s); [done|]. by apply (keeps_fill_rectangle (RI := RI)).
  - apply (keeps_sound _ s); [done|]. by apply (keeps_copy_rectangle (RI := RI)).
  - apply (keeps_sound _ s); [done|]. by apply (keeps_clear_all (RI := RI)).
  - apply (keeps_sound _ s); [done|]. by apply (keeps_set_soft_wrapped (RI := RI)).
  - destruct (resized_ok s d) as (out & -> & Ho); [by eapply Dimensions_new_ok|done|by apply sound_ok|].
    cbn [mbind option_bind]. eexists. split; [done|]. destruct out as [[]|s']; [done|].
    destruct Ho as ((Hs' & Hd' & _ & H') & _). split; [done|]. rewrite Hd'. split; [by apply H'|done].
Qed.

(** ** Validation *)
Lemma valid_pair_row cols row d x :
  wf_lengths cols row -> r_cells row !! d = Some x ->
  valid_pair cols (r_cells row) d x = negb (row_invalid row d).
Proof.
  intros [Hl _] Hx. unfold valid_pair, row_invalid. rewrite Hx. cbn [fmap option_fmap option_map].
  destruct (width x); [done|..].
  - destruct (d + 1 <? cols) eqn:E; bools.
    + destruct (lookup_lt_is_Some_2 (r_cells row) (d + 1)) as [y ->]; [lia|]. cbn. unfold is_continuation.
      by destruct (width y).
    + by rewrite lookup_ge_None_2 by lia.
  - destruct (d =? 0) eqn:E; bools; [done|]. cbn [negb andb].
    destruct (r_cells row !! (d - 1)) as [y|]; cbn; [|done]. by destruct (width y).
Qed.

Lemma sound_validates s : screen_sound s -> validate_screen s = true.
Proof.
  intros (Hs & H & Hd). unfold validate_screen. rewrite Hd, bool_decide_eq_true_2 by done.
  destruct (shape_dims s Hs) as (Hc2 & Hr1 & Hcc).
  assert (cell_count (dimensions s) = nrows s * ncols s) as Hcc' by lia.
  rewrite Hcc', (shape_cells s Hs), (shape_occ s Hs), (shape_dirty s Hs), (shape_soft s Hs), (shape_ext s Hs), !Nat.eqb_refl.
  rewrite (proj2 (Nat.ltb_lt _ _) (shape_top s Hs)). cbn [andb].
  apply forallb_forall. intros r Hr. apply list_elem_of_In, elem_of_range in Hr.
  pose proof (all_rows_view _ s r H ltac:(lia)) as (([Hlc Hlo] & He) & Hp & Hk).
  unfold validate_screen_row. rewrite !slice_row by (done || lia || apply Hs).
  rewrite occupied_lookup by (done || lia).
  change (take (ncols s) (drop (physical_row_start s r) (occupied_cells s))) with (r_occ (view_row s r)).
  change (take (ncols s) (drop (physical_row_start s r) (cells s))) with (r_cells (view_row s r)).
  rewrite He, Nat.eqb_refl.
  pose proof (extent_bound (r_occ (view_row s r))) as Hb. rewrite Hlo in Hb.
  rewrite (proj2 (Nat.leb_le _ _) Hb). cbn [andb].
  apply forallb_forall. intros [i x] Hx. apply list_elem_of_In, elem_of_imap_pair in Hx.
  rewrite (valid_pair_row (ncols s)), Hp by done.
  by rewrite (Forall_lookup_1 _ _ _ _ Hk Hx).
Qed.

Lemma Screen_new_sound d s :
  Dimensions_new (columns d) (rows d) = inr d -> Screen_new d = inr s -> screen_sound s.
Proof.
  intros Hd E. pose proof (Dimensions_new_ok _ _ _ Hd) as Hok.
  destruct (Screen_new_grid d s Hok E) as (Hs & Hdim & _ & G). unfold screen_sound, all_rows.
  rewrite Hdim, G. split; [done|]. split; [|done]. apply Forall_replicate.
  apply (ri_full (RowInvariant := row_sound_invariant _ (proj1 Hok))). split; [done|apply blank_cell_ok].
Qed.

(** One in-range operation, as a relation. *)
Definition screen_step (s s' : Screen) : Prop :=
  exists op, screen_op_ok s op /\ run_screen_op op s = Some s'.

Lemma screen_steps_sound s s' : screen_sound s -> rtc screen_step s s' -> screen_sound s'.
Proof.
  intros H Hstar. induction Hstar as [|s s1 s' (op & Hop & E) _ IH]; [done|]. apply IH.
  destruct (run_screen_op_sound s op H Hop) as (s2 & E2 & H2). congruence.
Qed.

(** A concrete sequence of operations, each in range where it runs. *)
Fixpoint screen_ops_ok (s : Screen) (ops : list ScreenOp) : Prop :=
  match ops with
  | [] => True
  | op :: ops' => screen_op_ok s op /\
      match run_screen_op op s with Some s' => screen_ops_ok s' ops' | None => False end
  end.

Lemma screen_ops_sound ops s s' :
  screen_sound s -> for_each run_screen_op ops s = Some s' -> screen_ops_ok s ops -> screen_sound s'.
Proof.
  revert s. induction ops as [|op ops IH]; intros s H E Hok; cbn in *; [by simplify_eq|].
  destruct Hok as [Hop Hok]. destruct (run_screen_op_sound s op H Hop) as (s1 & E1 & H1).
  rewrite E1 in E, Hok. cbn in E. by eapply IH.
Qed.

(** C2: starting from a new screen, any sequence of in-range screen operations
    (printing a cluster, inserting and deleting characters and lines, scrolling
    either by rotation or by copying, erasing, filling and copying rectangles,
    clearing, resizing) reaches a screen that passes
    [Screen::validate_recovery_state], and every further in-range operation
    returns without a panic: double-width glyphs are never split, every row's
    occupied extent is exact, and every cell stays within its text bounds.
    (Fills that spare protected cells are not among them: they leave the extent
    of a row wrong, which [Protection.v] shows.) *)
Theorem reachable_screens_are_valid d s0 s :
  Dimensions_new (columns d) (rows d) = inr d -> Screen_new d = inr s0 -> rtc screen_step s0 s ->
  validate_screen s = true /\
  forall op, screen_op_ok s op -> exists s', run_screen_op op s = Some s' /\ validate_screen s' = true.
Proof.
  intros Hd E Hstar. pose proof (screen_steps_sound s0 s (Screen_new_sound d s0 Hd E) Hstar) as H.
  split; [by apply sound_validates|]. intros op Hop.
  destruct (run_screen_op_sound s op H Hop) as (s' & -> & H'). exists s'. split; [done|]. by apply sound_validates.
Qed.
End Reachable.

(** A wide glyph printed on a 4x2 screen, its second half overwritten, then
    both rows scrolled. *)
Definition wide_sample : Cell :=
  {| text := [12354%N]; text_capacity_bytes := 24; width := Double; foreground := Default;
     background := Default; attributes := NONE; hyperlink := None |}.
Definition letter_sample : Cell :=
  {| text := [65%N]; text_capacity_bytes := 24; width := Single; foreground := Default;
     background := Default; attributes := NONE; hyperlink := None |}.
Definition sample_ops : list ScreenOp :=
  [OpCluster 0 0 wide_sample; OpCluster 1 0 letter_sample; OpCluster 2 1 wide_sample;
   OpScrollUp 0 1 1 letter_sample (ColumnSpan_full 4)].
Definition sample_screen : Screen :=
  mkScreen (mkDimensions 4 2 8) 0 (replicate 8 (blank_cell (P := sample_platform))) (replicate 8 false)
    (replicate 2 true) (replicate 2 false) (replicate 2 0).
Definition sample_result : Screen :=
  default sample_screen (for_each (run_screen_op (P := sample_platform)) sample_ops sample_screen).

Lemma reachable_screens_are_valid_witness :
  validate_screen sample_result = true /\
  width <$> cell sample_result 2 0 = Some Double /\ width <$> cell sample_result 3 0 = Some Continuation.
Proof.
  split; [|by vm_compute].
  apply (reachable_screens_are_valid (P := sample_platform) (mkDimensions 4 2 8) sample_screen).
  - reflexivity.
  - reflexivity.
  - eapply rtc_l. { exists (OpCluster 0 0 wide_sample). split; [repeat split; done || (cbn; lia)|vm_compute; reflexivity]. }
    eapply rtc_l. { exists (OpCluster 1 0 letter_sample). split; [repeat split; done || (cbn; lia)|vm_compute; reflexivity]. }
    eapply rtc_l. { exists (OpCluster 2 1 wide_sample). split; [repeat split; done || (cbn; lia)|vm_compute; reflexivity]. }
    eapply rtc_l.
    { exists (OpScrollUp 0 1 1 letter_sample (ColumnSpan_full 4)). split; [repeat split; done || (cbn; lia)|vm_compute; reflexivity]. }
    apply rtc_refl.
Defined.
