(* ===== verification/ScreenEq.v ===== *)
(** * Equality of screens

    [PartialEq] for [Screen] compares logical rows.  It decides equality of
    the abstract grids, and every operation respects it: two screens that
    differ only in how the ring is rotated stay equal under any operation and
    hand the same rows to the history. *)

From Stdlib Require Import NArith Bool.
From S2P Require Import Prelude Cell Screen ScreenGrid ScreenOps ScreenInv ScreenPairs ScreenBuild.

Definition screen_equiv (s t : Screen) : Prop := dimensions s = dimensions t /\ grid_of s = grid_of t.

#[export] Instance screen_equiv_equivalence : Equivalence screen_equiv.
Proof.
  split.
  - done.
  - intros s t []. by split.
  - intros s t u [] []. split; congruence.
Qed.

#[export] Instance option_screen_equiv : Equivalence (option_Forall2 screen_equiv).
Proof. apply _. Qed.

#[export] Instance Row_eq_dec : EqDecision Row.
Proof. solve_decision. Defined.
#[export] Instance Grid_eq_dec : EqDecision Grid.
Proof. solve_decision. Defined.
#[export] Instance screen_equiv_dec s t : Decision (screen_equiv s t).
Proof. unfold screen_equiv. apply _. Defined.

Lemma equiv_view s t r : screen_equiv s t -> r < nrows s -> view_row s r = view_row t r.
Proof.
  intros [Hd Hg] Hr. pose proof (grid_lookup s r Hr) as H1. pose proof (grid_lookup t r ltac:(by rewrite <- Hd)) as H2.
  rewrite Hg, H2 in H1. congruence.
Qed.

Section Equality.
Context (s t : Screen) (Hs : shape s) (Ht : shape t).

Lemma screen_row_eqb_view r :
  dimensions s = dimensions t -> r < nrows s ->
  exists ds dt, dirty_rows s !! r = Some ds /\ dirty_rows t !! r = Some dt /\
    screen_row_eqb s t r = Some (bool_decide (r_cells (view_row s r) = r_cells (view_row t r))
      && bool_decide (r_occ (view_row s r) = r_occ (view_row t r)) && eqb ds dt
      && eqb (r_soft (view_row s r)) (r_soft (view_row t r)) && (r_ext (view_row s r) =? r_ext (view_row t r))).
Proof.
  intros Hd Hr. assert (r < nrows t) as Hr' by (by rewrite <- Hd).
  destruct (lookup_lt_is_Some_2 (dirty_rows s) r) as [ds Hds]; [by rewrite (shape_dirty s Hs)|].
  destruct (lookup_lt_is_Some_2 (dirty_rows t) r) as [dt Hdt]; [by rewrite (shape_dirty t Ht)|].
  exists ds, dt. split; [done|]. split; [done|]. unfold screen_row_eqb.
  rewrite !(slice_row _ s r), Hd, !(slice_row _ t r) by (done || apply Hs || apply Ht).
  rewrite Hds, Hdt, !soft_lookup, !occupied_lookup by done. cbn [mbind option_bind].
  unfold view_row. by rewrite <- Hd.
Qed.

Lemma screen_eqb_spec :
  screen_eqb s t = Some (bool_decide (screen_equiv s t)).
Proof.
  unfold screen_eqb. case_bool_decide as Hd; [|by rewrite bool_decide_eq_false_2; [|intros []]].
  set (f r := match dirty_rows s !! r, dirty_rows t !! r with
    | Some ds, Some dt => bool_decide (r_cells (view_row s r) = r_cells (view_row t r))
      && bool_decide (r_occ (view_row s r) = r_occ (view_row t r)) && eqb ds dt
      && eqb (r_soft (view_row s r)) (r_soft (view_row t r)) && (r_ext (view_row s r) =? r_ext (view_row t r))
    | _, _ => false end).
  rewrite (mapM_total _ f).
  2: { intros r Hr. apply elem_of_range in Hr. destruct (screen_row_eqb_view r Hd) as (ds & dt & E1 & E2 & ->); [lia|].
       unfold f. by rewrite E1, E2. }
  cbn [mbind option_bind]. f_equal. apply eq_true_iff_eq. rewrite bool_decide_eq_true.
  unfold screen_equiv. split.
  - intros H. split; [done|]. rewrite forallb_forall in H.
    assert (forall r, r < nrows s -> view_row s r = view_row t r /\ dirty_rows s !! r = dirty_rows t !! r) as Hv.
    { intros r Hr. specialize (H (f r)). assert (f r = true) as Hf.
      { apply H. apply in_map. apply list_elem_of_In. apply elem_of_range. lia. }
      unfold f in Hf. destruct (dirty_rows s !! r) as [ds|], (dirty_rows t !! r) as [dt|]; try done. bools.
      repeat match goal with X : bool_decide _ = true |- _ => apply bool_decide_eq_true_1 in X
        | X : eqb _ _ = true |- _ => apply eqb_prop in X end.
      split; [|congruence]. destruct (view_row s r), (view_row t r). cbn in *. congruence. }
    unfold grid_of. rewrite <- Hd. f_equal.
    + apply map_ext_in. intros r Hr. apply Hv. apply in_seq in Hr. lia.
    + apply list_eq. intros r. destruct (decide (r < nrows s)) as [Hr|Hr]; [by apply Hv|].
      rewrite !lookup_ge_None_2; [done|rewrite (shape_dirty t Ht), <- Hd|rewrite (shape_dirty s Hs)]; lia.
  - intros [_ Hg]. apply forallb_forall. intros b Hb. apply in_map_iff in Hb as (r & <- & Hr).
    apply list_elem_of_In, elem_of_range in Hr.
    destruct (lookup_lt_is_Some_2 (dirty_rows s) r) as [ds Hds]; [rewrite (shape_dirty s Hs); lia|].
    assert (dirty_rows t !! r = Some ds) as Hdt by (by rewrite <- Hds; injection Hg as _ ->).
    unfold f. rewrite Hds, Hdt, (equiv_view s t r) by (done || lia).
    by rewrite !bool_decide_eq_true_2, !eqb_reflx, Nat.eqb_refl by done.
Qed.
End Equality.

(** ** Operations respect equality *)
Section Congruence.
Context `{P : Platform} `{L : !PlatformLaws P}.
Context (s t : Screen) (Hs : screen_sound s) (Ht : screen_sound t) (Hst : screen_equiv s t).

Definition both (o o' : option Screen) : Prop :=
  exists s' t', o = Some s' /\ o' = Some t' /\ shape s' /\ shape t' /\ screen_equiv s' t'.

Lemma sim_both op f : sim op f s -> sim op f t -> both (op s) (op t).
Proof.
  destruct Hst as [Hd Hg]. intros (s' & E & (Hs' & Hd1 & _) & G) (t' & E' & (Ht' & Hd2 & _) & G').
  exists s', t'. split_and!; try done. split; congruence.
Qed.

Lemma scroll_up_both first bottom count x sp :
  lines_ok s first bottom count x sp ->
  exists removed s' t', scroll_up first bottom count x sp s = Some (removed, s') /\
    scroll_up first bottom count x sp t = Some (removed, t') /\ shape s' /\ shape t' /\ screen_equiv s' t'.
Proof.
  intros (Hb & Hc & Hsp & Hx). destruct Hst as [Hd Hg].
  destruct Hs as (Hs1 & Hrows & _), Ht as (Ht1 & Htrows & _).
  pose proof (row_sound_invariant (ncols s) (proj1 (shape_dims s Hs1))) as RI.
  pose proof (row_sound_invariant (ncols t) (proj1 (shape_dims t Ht1))) as RI'.
  destruct (scroll_up_refines first bottom count x sp s) as ((rs & s') & E & (A1 & A2 & A3 & A4));
    [done|by apply (all_exts_ok (RI := RI))|done..|].
  destruct (scroll_up_refines first bottom count x sp t) as ((rt & t') & E' & (B1 & B2 & B3 & B4));
    [done|by apply (all_exts_ok (RI := RI'))|by rewrite <- Hd|done|by rewrite <- Hd|].
  cbn [fst snd] in *. rewrite <- Hg, <- Hd in B3, B4.
  exists rs, s', t'. split_and!; try done; [by rewrite E', B4, <- A4|]. split; congruence.
Qed.

Lemma resize_both d :
  Dimensions_new (columns d) (rows d) = inr d -> both (run_screen_op (OpResize d) s) (run_screen_op (OpResize d) t).
Proof.
  intros Hdd. pose proof (Dimensions_new_ok _ _ _ Hdd) as Hok. destruct Hs as (Hs1 & Hrows & _), Ht as (Ht1 & Htrows & _).
  destruct (resized_ok s d Hok Hs1) as (out & E & Ho); [by apply sound_ok|].
  destruct (resized_ok t d Hok Ht1) as (out' & E' & Ho'); [by apply sound_ok|].
  unfold both. cbn [run_screen_op]. rewrite E, E'. cbn [mbind option_bind].
  eexists _, _. split; [done|]. split; [done|]. pose proof Hst as [Hd Hg].
  destruct (Screen_new d) as [[]|s0] eqn:E0.
  - destruct out as [[]|]; [|destruct Ho as ((_ & _) & _); unfold resized in E; rewrite E0 in E; done].
    destruct out' as [[]|]; [done|unfold resized in E'; rewrite E0 in E'; done].
  - destruct out as [?|s']; [done|]. destruct out' as [?|t']; [done|].
    destruct Ho as ((A1 & A2 & _) & G), Ho' as ((B1 & B2 & _) & G').
    specialize (G s0 eq_refl). specialize (G' s0 eq_refl). cbv zeta in G, G'.
    split_and!; [done|done|]. split; [congruence|]. rewrite G, G', <- Hd. f_equal.
    assert (forall i, i ∈ range 0 (Nat.min (nrows s) (rows d)) -> view_row t i = view_row s i) as Hv.
    { intros i Hi. apply elem_of_range in Hi. symmetry. apply equiv_view; [done|lia]. }
    clear G G'. revert Hv. generalize (grid_of s0). induction (range 0 _) as [|i xs IH]; intros g Hv; simpl; [done|].
    rewrite IH by (intros; apply Hv; by right). by rewrite Hv by (by left).
Qed.

(** The same simulation lemma for both screens. *)
Ltac same_op Hd l := eapply sim_both; [apply l | rewrite Hd; apply l]; rewrite <- ?Hd.

Lemma screen_op_both op : screen_op_ok s op -> both (run_screen_op op s) (run_screen_op op t).
Proof.
  intros Hop. destruct Hst as [Hd Hg]. pose proof (proj1 Hs) as Hs1. pose proof (proj1 Ht) as Ht1.
  destruct op; cbn [screen_op_ok run_screen_op] in *; unfold lines_ok in *; destruct_and?.
  - same_op Hd sim_replace_cluster; try done;
      destruct (width c); cbn in *; try done; lia.
  - destruct (cell s column row) as [old|] eqn:Eold; [|done]. unfold cell, cell_index in Eold.
    destruct (_ && _) eqn:E; bools; [|done]. eapply sim_both; apply sim_replace_cell; by rewrite <- ?Hd.
  - by same_op Hd sim_insert_characters.
  - by same_op Hd sim_delete_characters.
  - by same_op Hd sim_insert_lines.
  - by same_op Hd sim_delete_lines.
  - destruct (scroll_up_both top bottom count c span) as (rs & s' & t' & -> & -> & ? & ? & ?); [done|].
    cbn [mbind option_bind]. by exists s', t'.
  - by same_op Hd sim_scroll_down.
  - by same_op Hd sim_fill_linear.
  - same_op Hd sim_fill_rectangle; done || lia.
  - eapply sim_both; [by apply sim_copy_rectangle|]. unfold copy_size. rewrite Hd.
    apply sim_copy_rectangle; by rewrite <- ?Hd.
  - destruct (clear_all_refines c s Hs1) as (A1 & A2 & A3). destruct (clear_all_refines c t Ht1) as (B1 & B2 & B3).
    eexists _, _. split_and!; try done. split; [congruence|]. by rewrite A3, B3, Hd.
  - eapply sim_both; apply sim_set_soft_wrapped; by rewrite <- ?Hd.
  - by apply resize_both.
Qed.
End Congruence.

(** [PartialEq::eq] on screens never panics and decides equality of their
    logical rows; and two valid screens it calls equal, such as one that
    reached its content by rotating the ring and one that copied rows, stay
    equal under every in-range operation and lose the same rows when they
    scroll. *)
Theorem screen_equality_is_a_congruence `{P : Platform} `{L : !PlatformLaws P} s t op :
  screen_sound s -> screen_sound t -> screen_eqb s t = Some true -> screen_op_ok s op ->
  (exists s' t', run_screen_op op s = Some s' /\ run_screen_op op t = Some t' /\ screen_eqb s' t' = Some true) /\
  (forall first bottom count x sp, lines_ok s first bottom count x sp ->
     exists removed s' t', scroll_up first bottom count x sp s = Some (removed, s') /\
       scroll_up first bottom count x sp t = Some (removed, t') /\ screen_eqb s' t' = Some true).
Proof.
  intros Hs Ht E Hop. rewrite screen_eqb_spec in E by (apply Hs || apply Ht). injection E as E.
  apply bool_decide_eq_true_1 in E. split.
  - destruct (screen_op_both s t Hs Ht E op Hop) as (s' & t' & -> & -> & ? & ? & ?).
    exists s', t'. split_and!; try done. rewrite screen_eqb_spec by done. by rewrite bool_decide_eq_true_2.
  - intros first bottom count x sp Hl.
    destruct (scroll_up_both s t Hs Ht E first bottom count x sp Hl) as (rs & s' & t' & -> & -> & ? & ? & ?).
    exists rs, s', t'. split_and!; try done. rewrite screen_eqb_spec by done. by rewrite bool_decide_eq_true_2.
Qed.

(** The sample screen scrolled by rotation and by deleting its first line. *)
Definition sample_copied : Screen :=
  default sample_screen (for_each (run_screen_op (P := sample_platform))
    (take 3 sample_ops ++ [OpDeleteLines 0 1 1 letter_sample (ColumnSpan_full 4)]) sample_screen).

Lemma screen_equality_is_a_congruence_witness :
  top sample_result <> top sample_copied /\
  exists s' t', run_screen_op (P := sample_platform) (OpCluster 0 1 wide_sample) sample_result = Some s' /\
    run_screen_op (P := sample_platform) (OpCluster 0 1 wide_sample) sample_copied = Some t' /\
    screen_eqb s' t' = Some true.
Proof.
  assert (screen_sound sample_screen) as H0
    by (by apply (Screen_new_sound (P := sample_platform) (mkDimensions 4 2 8))).
  split; [done|].
  apply (screen_equality_is_a_congruence (P := sample_platform) sample_result sample_copied (OpCluster 0 1 wide_sample)).
  - apply (screen_ops_sound (P := sample_platform) sample_ops sample_screen); [done|reflexivity|].
    vm_compute; repeat split; (lia || discriminate).
  - apply (screen_ops_sound (P := sample_platform) (take 3 sample_ops ++ [OpDeleteLines 0 1 1 letter_sample (ColumnSpan_full 4)]) sample_screen);
      [done|reflexivity|].
    vm_compute; repeat split; (lia || discriminate).
  - vm_compute. reflexivity.
  - vm_compute; repeat split; (lia || discriminate).
Defined.

