(* ===== verification/History.v ===== *)
(** * Retained history

    [history.rs]: the scrollback, a queue of logical lines with their physical
    row boundaries, byte accounting against a limit, the monotonic row
    coordinates, reflow, and anchors that survive it.  [None] is a panic; where
    the Rust function itself returns an [Option], that is the inner option. *)

From Stdlib Require Import NArith Bool.
From S2P Require Import Prelude Cell Screen.

Definition DEFAULT_SCROLLBACK_LIMIT_BYTES : N := 67108864.

Record LogicalLine := mkLine {
  line_id : N;
  line_cells : list Cell;
  cell_capacity : N;
  row_ends : list nat;
  row_end_capacity : N;
  physical_rows : nat;
  hard_break : bool;
  line_charged : N;
  cell_owned_bytes : N;
  trimmed_offset : N
}.
#[export] Instance set_line_id : Setter line_id := fun v r => mkLine v (line_cells r) (cell_capacity r) (row_ends r) (row_end_capacity r) (physical_rows r) (hard_break r) (line_charged r) (cell_owned_bytes r) (trimmed_offset r).
#[export] Instance set_line_cells : Setter line_cells := fun v r => mkLine (line_id r) v (cell_capacity r) (row_ends r) (row_end_capacity r) (physical_rows r) (hard_break r) (line_charged r) (cell_owned_bytes r) (trimmed_offset r).
#[export] Instance set_cell_capacity : Setter cell_capacity := fun v r => mkLine (line_id r) (line_cells r) v (row_ends r) (row_end_capacity r) (physical_rows r) (hard_break r) (line_charged r) (cell_owned_bytes r) (trimmed_offset r).
#[export] Instance set_row_ends : Setter row_ends := fun v r => mkLine (line_id r) (line_cells r) (cell_capacity r) v (row_end_capacity r) (physical_rows r) (hard_break r) (line_charged r) (cell_owned_bytes r) (trimmed_offset r).
#[export] Instance set_row_end_capacity : Setter row_end_capacity := fun v r => mkLine (line_id r) (line_cells r) (cell_capacity r) (row_ends r) v (physical_rows r) (hard_break r) (line_charged r) (cell_owned_bytes r) (trimmed_offset r).
#[export] Instance set_physical_rows : Setter physical_rows := fun v r => mkLine (line_id r) (line_cells r) (cell_capacity r) (row_ends r) (row_end_capacity r) v (hard_break r) (line_charged r) (cell_owned_bytes r) (trimmed_offset r).
#[export] Instance set_hard_break : Setter hard_break := fun v r => mkLine (line_id r) (line_cells r) (cell_capacity r) (row_ends r) (row_end_capacity r) (physical_rows r) v (line_charged r) (cell_owned_bytes r) (trimmed_offset r).
#[export] Instance set_line_charged : Setter line_charged := fun v r => mkLine (line_id r) (line_cells r) (cell_capacity r) (row_ends r) (row_end_capacity r) (physical_rows r) (hard_break r) v (cell_owned_bytes r) (trimmed_offset r).
#[export] Instance set_cell_owned_bytes : Setter cell_owned_bytes := fun v r => mkLine (line_id r) (line_cells r) (cell_capacity r) (row_ends r) (row_end_capacity r) (physical_rows r) (hard_break r) (line_charged r) v (trimmed_offset r).
#[export] Instance set_trimmed_offset : Setter trimmed_offset := fun v r => mkLine (line_id r) (line_cells r) (cell_capacity r) (row_ends r) (row_end_capacity r) (physical_rows r) (hard_break r) (line_charged r) (cell_owned_bytes r) v.

Record LogicalAnchor := mkAnchor {
  anchor_line_id : N;
  line_index_hint : nat;
  offset : N;
  end_boundary : bool;
  trimmed_offset_at_capture : N
}.
#[export] Instance set_anchor_line_id : Setter anchor_line_id := fun v r => mkAnchor v (line_index_hint r) (offset r) (end_boundary r) (trimmed_offset_at_capture r).
#[export] Instance set_line_index_hint : Setter line_index_hint := fun v r => mkAnchor (anchor_line_id r) v (offset r) (end_boundary r) (trimmed_offset_at_capture r).
#[export] Instance set_offset : Setter offset := fun v r => mkAnchor (anchor_line_id r) (line_index_hint r) v (end_boundary r) (trimmed_offset_at_capture r).
#[export] Instance set_end_boundary : Setter end_boundary := fun v r => mkAnchor (anchor_line_id r) (line_index_hint r) (offset r) v (trimmed_offset_at_capture r).
#[export] Instance set_trimmed_offset_at_capture : Setter trimmed_offset_at_capture := fun v r => mkAnchor (anchor_line_id r) (line_index_hint r) (offset r) (end_boundary r) v.

Record Scrollback := mkScrollback {
  limit_bytes : N;
  charged_bytes : N;
  lines : list LogicalLine;
  next_id : N;
  evicted_lines : N;
  content_row_origin : N;
  screen_row_origin : N;
  oversize_lines : N;
  active_oversize_line : option (N * N);
  line_row_starts : list N
}.
#[export] Instance upd_limit_bytes : Setter limit_bytes := fun v r => mkScrollback v (charged_bytes r) (lines r) (next_id r) (evicted_lines r) (content_row_origin r) (screen_row_origin r) (oversize_lines r) (active_oversize_line r) (line_row_starts r).
#[export] Instance set_charged_bytes : Setter charged_bytes := fun v r => mkScrollback (limit_bytes r) v (lines r) (next_id r) (evicted_lines r) (content_row_origin r) (screen_row_origin r) (oversize_lines r) (active_oversize_line r) (line_row_starts r).
#[export] Instance set_lines : Setter lines := fun v r => mkScrollback (limit_bytes r) (charged_bytes r) v (next_id r) (evicted_lines r) (content_row_origin r) (screen_row_origin r) (oversize_lines r) (active_oversize_line r) (line_row_starts r).
#[export] Instance set_next_id : Setter next_id := fun v r => mkScrollback (limit_bytes r) (charged_bytes r) (lines r) v (evicted_lines r) (content_row_origin r) (screen_row_origin r) (oversize_lines r) (active_oversize_line r) (line_row_starts r).
#[export] Instance set_evicted_lines : Setter evicted_lines := fun v r => mkScrollback (limit_bytes r) (charged_bytes r) (lines r) (next_id r) v (content_row_origin r) (screen_row_origin r) (oversize_lines r) (active_oversize_line r) (line_row_starts r).
#[export] Instance set_content_row_origin : Setter content_row_origin := fun v r => mkScrollback (limit_bytes r) (charged_bytes r) (lines r) (next_id r) (evicted_lines r) v (screen_row_origin r) (oversize_lines r) (active_oversize_line r) (line_row_starts r).
#[export] Instance set_screen_row_origin : Setter screen_row_origin := fun v r => mkScrollback (limit_bytes r) (charged_bytes r) (lines r) (next_id r) (evicted_lines r) (content_row_origin r) v (oversize_lines r) (active_oversize_line r) (line_row_starts r).
#[export] Instance set_oversize_lines : Setter oversize_lines := fun v r => mkScrollback (limit_bytes r) (charged_bytes r) (lines r) (next_id r) (evicted_lines r) (content_row_origin r) (screen_row_origin r) v (active_oversize_line r) (line_row_starts r).
#[export] Instance set_active_oversize_line : Setter active_oversize_line := fun v r => mkScrollback (limit_bytes r) (charged_bytes r) (lines r) (next_id r) (evicted_lines r) (content_row_origin r) (screen_row_origin r) (oversize_lines r) v (line_row_starts r).
#[export] Instance set_line_row_starts : Setter line_row_starts := fun v r => mkScrollback (limit_bytes r) (charged_bytes r) (lines r) (next_id r) (evicted_lines r) (content_row_origin r) (screen_row_origin r) (oversize_lines r) (active_oversize_line r) v.

Record ScrollbackStats := mkStats {
  stat_limit_bytes : N; stat_charged_bytes : N; stat_logical_lines : nat; stat_physical_rows : nat;
  stat_content_row_origin : N; stat_screen_row_origin : N; stat_evicted_lines : N; stat_oversize_lines : N
}.

(** [usize] and [u64] arithmetic. *)
Definition usize_add : N -> N -> N := saturating_add usize_max.
Definition usize_mul : N -> N -> N := saturating_mul usize_max.
Definition u64_add : N -> N -> N := saturating_add u64_max.

Definition cell_owned_charge (c : Cell) : N :=
  usize_add (text_capacity_bytes c) (from_option text_len 0%N (hyperlink c)).
Definition owned_charge (cs : list Cell) : N :=
  foldl usize_add 0%N (map cell_owned_charge cs).

(** The start of row [row] from the ends of the rows. *)
Definition row_start (ends : list nat) (row : nat) : nat :=
  match row with O => 0 | S previous => default 0 (ends !! previous) end.

(** [LogicalLine::physical_row]. *)
Definition line_physical_row (l : LogicalLine) (row : nat) : option (option (list Cell)) :=
  match row_ends l !! row with
  | None => Some None
  | Some e => cs ← slice (line_cells l) (row_start (row_ends l) row) e; Some (Some cs)
  end.

Definition line_soft_wrapped (l : LogicalLine) (row : nat) : option bool :=
  if row <? physical_rows l
  then Some ((row + 1 <? physical_rows l) || negb (hard_break l)) else None.

(** [LogicalLine::anchor_for_row]. *)
Definition anchor_for_row (l : LogicalLine) (row column : nat) : LogicalAnchor :=
  let start := row_start (row_ends l) row in
  let stop := default (length (line_cells l)) (row_ends l !! row) in
  let row_len := stop - start in
  {| anchor_line_id := line_id l; line_index_hint := 0;
     offset := trimmed_offset l + N.of_nat (start + Nat.min column row_len);
     end_boundary := row_len <=? column;
     trimmed_offset_at_capture := trimmed_offset l |}.

(** [slice::partition_point] on a partitioned slice. *)
Fixpoint partition_point {A} (p : A -> bool) (l : list A) : nat :=
  match l with
  | [] => 0
  | x :: l' => if p x then S (partition_point p l') else 0
  end.

(** [LogicalLine::locate_offset]: the row, and the column in it. *)
Definition locate_offset (l : LogicalLine) (off : N) (boundary : bool) : option (nat * nat) :=
  if (off <? trimmed_offset l)%N then None
  else
    let off := Nat.min (N.to_nat (off - trimmed_offset l)) (length (line_cells l)) in
    let row := Nat.min
      (partition_point (fun e => if boundary then e <? off else e <=? off) (row_ends l))
      (length (row_ends l) - 1) in
    Some (row, off - row_start (row_ends l) row).

Section WithPlatform.
Context `{P : Platform}.

Definition compact_line_charge (cells ends : N) (owned : N) : N :=
  usize_add (usize_add (usize_add size_of_line (usize_mul size_of_cell cells)) owned)
    (usize_mul 8 ends).

Definition recalculate_charge (l : LogicalLine) : LogicalLine :=
  l <| line_charged := compact_line_charge (cell_capacity l) (row_end_capacity l) (cell_owned_bytes l) |>.

(** [cells.shrink_to_fit(); row_ends.shrink_to_fit()] and the capacities read
    back. *)
Definition shrink_line (l : LogicalLine) : LogicalLine :=
  l <| cell_capacity := vec_shrunk (cell_capacity l) (N.of_nat (length (line_cells l))) |>
    <| row_end_capacity := vec_shrunk (row_end_capacity l) (N.of_nat (length (row_ends l))) |>.

(** ** [trim_oldest_physical_rows_to] *)
Fixpoint trim_loop (fuel : nat) (l : LogicalLine) (target : N) (rows cs : nat) (owned : N)
    : option (nat * nat * N) :=
  match fuel with
  | O => Some (rows, cs, owned)
  | S fuel' =>
      if negb (rows <? physical_rows l) then Some (rows, cs, owned)
      else
        let remaining_cells := length (line_cells l) - cs in
        let remaining_rows := length (row_ends l) - rows in
        let remaining_owned := (cell_owned_bytes l - owned)%N in
        if (compact_line_charge (N.of_nat remaining_cells) (N.of_nat remaining_rows) remaining_owned
              <=? target)%N && ((0 <? rows) || (line_charged l <=? target)%N)
        then Some (rows, cs, owned)
        else
          row_end ← row_ends l !! rows;
          dropped ← slice (line_cells l) cs row_end;
          trim_loop fuel' l target (S rows) row_end (usize_add owned (owned_charge dropped))
  end.

(** The rows dropped and the line they leave; the loop runs at most once per
    physical row. *)
Definition trim_oldest_physical_rows_to (target : N) (l : LogicalLine) : option (nat * LogicalLine) :=
  '(rows, cs, owned) ← trim_loop (physical_rows l) l target 0 0 0;
  if rows =? 0 then Some (0, l)
  else if (length (line_cells l) <? cs) || (length (row_ends l) <? rows)
          || negb (forallb (fun e => cs <=? e) (drop rows (row_ends l))) then None
  else
    let l1 := shrink_line (l <| line_cells := drop cs (line_cells l) |>
                             <| row_ends := map (fun e => e - cs) (drop rows (row_ends l)) |>) in
    Some (rows, recalculate_charge
      (l1 <| physical_rows := physical_rows l - rows |>
          <| trimmed_offset := usize_add (trimmed_offset l) (N.of_nat cs) |>
          <| cell_owned_bytes := (cell_owned_bytes l - owned)%N |>)).

(** ** [LogicalLine::reflow] *)
Fixpoint reflow_loop (columns : nat) (cs : list Cell) (index used : nat) : list nat :=
  match cs with
  | [] => []
  | c :: rest =>
      match width c, rest with
      | Double, c2 :: rest2 =>
          if is_continuation c2 then
            if (0 <? used) && (columns <? used + 2)
            then index :: reflow_loop columns rest2 (index + 2) 2
            else reflow_loop columns rest2 (index + 2) (used + 2)
          else
            if (0 <? used) && (columns <? used + 1)
            then index :: reflow_loop columns rest (index + 1) 1
            else reflow_loop columns rest (index + 1) (used + 1)
      | _, _ =>
          if (0 <? used) && (columns <? used + 1)
          then index :: reflow_loop columns rest (index + 1) 1
          else reflow_loop columns rest (index + 1) (used + 1)
      end
  end.

(** The capacity of a [Vec] after [n] pushes onto an empty one. *)
Definition pushes_capacity (n : nat) : N :=
  foldl (fun cap i => vec_grown cap (N.of_nat i)) 0%N (seq 1 n).

Definition reflow_line (columns : nat) (l : LogicalLine) : LogicalLine :=
  let columns := Nat.max columns 1 in
  let cell_count := length (line_cells l) in
  let ends := if cell_count =? 0 then [0]
              else reflow_loop columns (line_cells l) 0 0 ++ [cell_count] in
  recalculate_charge
    (l <| physical_rows := length ends |> <| row_ends := ends |>
       <| row_end_capacity := pushes_capacity (length ends) |>).

(** ** The scrollback *)
Definition Scrollback_new (limit : N) : Scrollback :=
  {| limit_bytes := limit; charged_bytes := 0; lines := []; next_id := 0; evicted_lines := 0;
     content_row_origin := 0; screen_row_origin := 0; oversize_lines := 0;
     active_oversize_line := None; line_row_starts := [] |}.

(** [evict_complete_lines]: one call per line popped. *)
Fixpoint evict_loop (ls : list LogicalLine) (s : Scrollback) : Scrollback :=
  match ls with
  | [] => s
  | removed :: ls' =>
      if (charged_bytes s <=? limit_bytes s)%N then s
      else if negb (hard_break removed) then s
      else
        evict_loop ls'
          (s <| lines := ls' |>
             <| line_row_starts := tail (line_row_starts s) |>
             <| charged_bytes := (charged_bytes s - line_charged removed)%N |>
             <| evicted_lines := u64_add (evicted_lines s) 1 |>
             <| content_row_origin :=
                  u64_add (content_row_origin s) (N.of_nat (physical_rows removed)) |>)
  end.
Definition evict_complete_lines (s : Scrollback) : Scrollback := evict_loop (lines s) s.

(** The [while] loop of [enforce_limit], on the front line: at most one pass
    per physical row, since a pass that drops none stops it. *)
Fixpoint trim_front (fuel : nat) (target : N) (l : LogicalLine) (removed : nat) (charged : N)
    : option (LogicalLine * nat * N) :=
  match fuel with
  | O => Some (l, removed, charged)
  | S fuel' =>
      if (target <? line_charged l)%N && (0 <? physical_rows l) then
        '(trimmed, l') ← trim_oldest_physical_rows_to target l;
        if trimmed =? 0 then Some (l', removed, charged)
        else trim_front fuel' target l' (removed + trimmed)
               (charged - (line_charged l - line_charged l'))%N
      else Some (l, removed, charged)
  end.

(** [lines[0] = v], for a non-empty queue. *)
Definition set_front {A} (v : A) (l : list A) : list A :=
  match l with [] => [] | _ :: l' => v :: l' end.

(** The trimmed line is the oversized one from now on. *)
Definition note_oversize (l : LogicalLine) (removed : nat) (s : Scrollback) : Scrollback :=
  if 0 <? removed then
    (if bool_decide (fst <$> active_oversize_line s = Some (line_id l)) then s
     else s <| oversize_lines := u64_add (oversize_lines s) 1 |>)
      <| active_oversize_line := Some (line_id l, trimmed_offset l) |>
  else s.

(** The part of [enforce_limit] after complete lines have been evicted. *)
Definition trim_open_line (front : LogicalLine) (s : Scrollback) : option Scrollback :=
  '(l, removed, charged) ← trim_front (physical_rows front) (limit_bytes s / 2) front 0 (charged_bytes s);
  let s1 := s <| lines := set_front l (lines s) |> <| charged_bytes := charged |>
              <| content_row_origin := u64_add (content_row_origin s) (N.of_nat removed) |>
              <| line_row_starts :=
                   match line_row_starts s with
                   | [] => []
                   | start :: rest => u64_add start (N.of_nat removed) :: rest
                   end |> in
  let s2 := note_oversize l removed s1 in
  Some (if physical_rows l =? 0 then
          s2 <| lines := tail (lines s2) |> <| line_row_starts := tail (line_row_starts s2) |>
             <| charged_bytes := (charged_bytes s2 - line_charged l)%N |>
        else s2).

Definition enforce_limit (s : Scrollback) : option Scrollback :=
  let s := evict_complete_lines s in
  if (charged_bytes s <=? limit_bytes s)%N then Some s
  else match lines s with
       | [] => Some s
       | front :: _ => trim_open_line front s
       end.

Definition set_limit_bytes (limit : N) (s : Scrollback) : option Scrollback :=
  enforce_limit (s <| limit_bytes := limit |>).

(** The new line of [push_row]; [next_id] wraps at 64 bits. *)
Definition open_line (s : Scrollback) : Scrollback :=
  let starts := line_row_starts s ++ [(screen_row_origin s - 1)%N] in
  let '(id, trimmed, active, next) :=
    match lines s, active_oversize_line s with
    | [], Some (id, trimmed) => (id, trimmed, active_oversize_line s, next_id s)
    | _, _ => (next_id s, 0%N, None, ((next_id s + 1) mod 18446744073709551616)%N)
    end in
  s <| line_row_starts := starts |> <| active_oversize_line := active |> <| next_id := next |>
    <| lines := lines s ++ [{| line_id := id; line_cells := []; cell_capacity := 0; row_ends := [];
                               row_end_capacity := 0; physical_rows := 0; hard_break := false;
                               line_charged := size_of_line; cell_owned_bytes := 0;
                               trimmed_offset := trimmed |}] |>
    <| charged_bytes := usize_add (charged_bytes s) size_of_line |>.

(** A row appended to the open line; [active] is the line known to be
    oversized. *)
Definition append_row (row : ScreenRow) (limit : N) (active : option N) (l : LogicalLine) : LogicalLine :=
  let ends_line := negb (soft_wrapped row) in
  let cs := line_cells l ++ row_cells row in
  let l1 := recalculate_charge
    (l <| cell_owned_bytes := usize_add (cell_owned_bytes l) (owned_charge (row_cells row)) |>
       <| line_cells := cs |>
       <| cell_capacity := vec_grown (cell_capacity l) (N.of_nat (length cs)) |>
       <| row_ends := row_ends l ++ [length cs] |>
       <| row_end_capacity := vec_grown (row_end_capacity l) (N.of_nat (S (length (row_ends l)))) |>
       <| physical_rows := physical_rows l + 1 |>
       <| hard_break := ends_line |>) in
  if ends_line || ((limit <? line_charged l1)%N && negb (bool_decide (active = Some (line_id l))))
  then recalculate_charge (shrink_line l1) else l1.

(** The scrollback with an open line at its end. *)
Definition with_open_line (s : Scrollback) : Scrollback :=
  if from_option hard_break true (list.last (lines s)) then open_line s else s.

(** The newest line replaced by [l'], recharged. *)
Definition replace_last (l l' : LogicalLine) (s : Scrollback) : Scrollback :=
  s <| lines := take (length (lines s) - 1) (lines s) ++ [l'] |>
    <| charged_bytes := usize_add (charged_bytes s - line_charged l)%N (line_charged l') |>.

Definition push_row (row : ScreenRow) (s : Scrollback) : option Scrollback :=
  let s := s <| screen_row_origin := u64_add (screen_row_origin s) 1 |> in
  let ends_line := negb (soft_wrapped row) in
  if (limit_bytes s =? 0)%N then
    let s := s <| content_row_origin := screen_row_origin s |> in
    Some (if ends_line then s <| active_oversize_line := None |> else s)
  else
    let s := with_open_line s in
    l ← list.last (lines s);
    let l' := append_row row (limit_bytes s) (fst <$> active_oversize_line s) l in
    s ← enforce_limit (replace_last l l' s);
    Some (if ends_line then s <| active_oversize_line := None |> else s).

Definition push_rows (rs : list ScreenRow) (s : Scrollback) : option Scrollback :=
  for_each push_row rs s.

Definition clear (s : Scrollback) : Scrollback :=
  s <| content_row_origin := screen_row_origin s |> <| lines := [] |> <| line_row_starts := [] |>
    <| charged_bytes := 0%N |> <| active_oversize_line := None |>.

(** [Scrollback::reflow]: the lines and their starts walked together. *)
Fixpoint reflow_lines (columns : nat) (ls : list LogicalLine) (starts : list N) (charged cursor : N)
    : list LogicalLine * list N * N * N :=
  match ls, starts with
  | l :: ls', _ :: starts' =>
      let l' := reflow_line columns l in
      let '(ls2, starts2, charged2, cursor2) :=
        reflow_lines columns ls' starts' (usize_add (charged - line_charged l)%N (line_charged l'))
          (u64_add cursor (N.of_nat (physical_rows l'))) in
      (l' :: ls2, cursor :: starts2, charged2, cursor2)
  | _, _ => (ls, starts, charged, cursor)
  end.

Definition reflow (columns : nat) (s : Scrollback) : Scrollback :=
  let '(ls, starts, charged, cursor) :=
    reflow_lines columns (lines s) (line_row_starts s) (charged_bytes s) (content_row_origin s) in
  s <| lines := ls |> <| line_row_starts := starts |> <| charged_bytes := charged |>
    <| screen_row_origin := cursor |>.

Definition total_physical_rows (s : Scrollback) : nat :=
  N.to_nat (screen_row_origin s - content_row_origin s).

(** ** Lookups *)
Fixpoint search_loop (fuel : nat) (starts : list N) (target : N) (low high : nat) : option nat :=
  match fuel with
  | O => Some low
  | S fuel' =>
      if low <? high then
        let mid := low + (high - low) / 2 in
        start ← starts !! mid;
        if (start <=? target)%N then search_loop fuel' starts target (mid + 1) high
        else search_loop fuel' starts target low mid
      else Some low
  end.

(** The last line that starts at or before [target]; the interval shrinks on
    every pass, so its length bounds the passes. *)
Definition line_index_for_absolute_row (s : Scrollback) (target : N) : option (option nat) :=
  if (length (line_row_starts s) =? 0) then Some None
  else
    low ← search_loop (length (line_row_starts s)) (line_row_starts s) target 0 (length (line_row_starts s));
    Some (match low with O => None | S i => Some i end).

(** The line and the row inside it for retained row [row]. *)
Definition find_row (s : Scrollback) (target : N) : option (option (nat * LogicalLine * nat)) :=
  i ← line_index_for_absolute_row s target;
  match i with
  | None => Some None
  | Some index =>
      l ← lines s !! index;
      start ← line_row_starts s !! index;
      Some (Some (index, l, N.to_nat (target - start)))
  end.

Definition physical_row (s : Scrollback) (row : nat) : option (option (list Cell)) :=
  found ← find_row s (u64_add (content_row_origin s) (N.of_nat row));
  match found with None => Some None | Some (_, l, local) => line_physical_row l local end.

Definition physical_row_soft_wrapped (s : Scrollback) (row : nat) : option (option bool) :=
  found ← find_row s (u64_add (content_row_origin s) (N.of_nat row));
  match found with None => Some None | Some (_, l, local) => Some (line_soft_wrapped l local) end.

Definition line_and_offset_at (s : Scrollback) (absolute_row column : nat) : option (option LogicalAnchor) :=
  match checked_add u64_max (content_row_origin s) (N.of_nat absolute_row) with
  | None => Some None
  | Some target =>
      found ← find_row s target;
      Some (match found with
            | Some (index, l, row) =>
                if row <? physical_rows l
                then Some ((anchor_for_row l row column) <| line_index_hint := index |>) else None
            | None => None
            end)
  end.

(** [Iterator::position]. *)
Fixpoint position {A} (p : A -> bool) (l : list A) : option nat :=
  match l with
  | [] => None
  | x :: l' => if p x then Some 0 else S <$> position p l'
  end.

(** The line an anchor names: the hinted one if its identity matches. *)
Definition anchor_line (s : Scrollback) (a : LogicalAnchor) : option nat :=
  let named l := (line_id l =? anchor_line_id a)%N in
  match lines s !! line_index_hint a with
  | Some l => if named l then Some (line_index_hint a) else position named (lines s)
  | None => position named (lines s)
  end.

(** [resolve_anchor]: the column and the retained row. *)
Definition resolve_anchor (s : Scrollback) (a : LogicalAnchor) : option (option (nat * nat)) :=
  match anchor_line s a with
  | None => Some None
  | Some index =>
      l ← lines s !! index;
      if end_boundary a && (trimmed_offset_at_capture a <? trimmed_offset l)%N
         && (offset a <=? trimmed_offset l)%N
      then Some None
      else
        match locate_offset l (offset a) (end_boundary a) with
        | None => Some None
        | Some (row, column) =>
            start ← line_row_starts s !! index;
            Some (if (start <? content_row_origin s)%N then None
                  else Some (column, N.to_nat (start - content_row_origin s) + row))
        end
  end.

(** ** [split_off_tail] *)
Definition tail_row (l : LogicalLine) (row : nat) : option ScreenRow :=
  found ← line_physical_row l row;
  cs ← found;
  Some (mkScreenRow cs (negb (row + 1 =? physical_rows l) || negb (hard_break l))).

(** The kept prefix of a line split after [keep] rows. *)
Definition keep_prefix (keep : nat) (l : LogicalLine) : option LogicalLine :=
  keep_cell_end ← row_ends l !! (keep - 1);
  removed ← slice (line_cells l) keep_cell_end (length (line_cells l));
  let l1 := shrink_line (l <| line_cells := take keep_cell_end (line_cells l) |>
                           <| row_ends := take keep (row_ends l) |>) in
  Some (recalculate_charge
    (l1 <| physical_rows := keep |> <| hard_break := false |>
        <| cell_owned_bytes := (cell_owned_bytes l - owned_charge removed)%N |>)).

(** The loop of [split_off_tail], over the lines and starts from the newest
    on: what is left of them, the charge, and the rows taken in order. *)
Fixpoint split_loop (ls : list LogicalLine) (starts : list N) (charged : N) (remaining : nat)
    (rows : list ScreenRow) : option (list LogicalLine * list N * N * list ScreenRow) :=
  match remaining, ls with
  | O, _ | _, [] => Some (ls, starts, charged, rows)
  | S _, l :: ls' =>
      let charged := (charged - line_charged l)%N in
      if physical_rows l <=? remaining then
        segment ← mapM (tail_row l) (range 0 (physical_rows l));
        split_loop ls' (tail starts) charged (remaining - physical_rows l) (segment ++ rows)
      else
        let keep := physical_rows l - remaining in
        segment ← mapM (tail_row l) (range keep (physical_rows l));
        l' ← keep_prefix keep l;
        start ← head starts;
        Some (l' :: ls', start :: tail starts, usize_add charged (line_charged l'), segment ++ rows)
  end.

Definition split_off_tail (count : nat) (s : Scrollback) : option (list ScreenRow * Scrollback) :=
  '(ls, starts, charged, rows) ←
    split_loop (reverse (lines s)) (reverse (line_row_starts s)) (charged_bytes s) count [];
  s1 ← enforce_limit (s <| lines := reverse ls |> <| line_row_starts := reverse starts |>
                        <| charged_bytes := charged |>);
  Some (rows, s1 <| screen_row_origin := (screen_row_origin s1 - N.of_nat (length rows))%N |>).

Definition stats (s : Scrollback) : ScrollbackStats :=
  {| stat_limit_bytes := limit_bytes s; stat_charged_bytes := charged_bytes s;
     stat_logical_lines := length (lines s); stat_physical_rows := total_physical_rows s;
     stat_content_row_origin := content_row_origin s; stat_screen_row_origin := screen_row_origin s;
     stat_evicted_lines := evicted_lines s; stat_oversize_lines := oversize_lines s |}.

(** ** Recovery validation; [true] is [Ok] *)

(** The cells of one row: every cell valid, pairs inside the row, and the
    columns they use. *)
Fixpoint row_cells_valid (prev : option Cell) (cs : list Cell) (used : nat) : option nat :=
  match cs with
  | [] => Some used
  | c :: rest =>
      if negb (validate_cell c) then None
      else match width c with
           | Single => row_cells_valid (Some c) rest (used + 1)
           | Double => if from_option is_continuation false (head rest)
                       then row_cells_valid (Some c) rest (used + 2) else None
           | Continuation =>
               if bool_decide (width <$> prev = Some Double)
               then row_cells_valid (Some c) rest used else None
           end
  end.

Fixpoint rows_valid (columns previous_end : nat) (cs : list Cell) (ends : list nat) : bool :=
  match ends with
  | [] => true
  | e :: ends' =>
      (previous_end <=? e) && (e <=? length cs)
      && match row_cells_valid None (take (e - previous_end) (drop previous_end cs)) 0 with
         | Some used => used <=? columns
         | None => false
         end
      && rows_valid columns e cs ends'
  end.

Definition validate_line (columns : nat) (l : LogicalLine) : bool :=
  negb (physical_rows l =? 0)
  && (length (row_ends l) =? physical_rows l)
  && (N.of_nat (length (line_cells l)) <=? cell_capacity l)%N
  && (N.of_nat (length (row_ends l)) <=? row_end_capacity l)%N
  && (default 0 (list.last (row_ends l)) =? length (line_cells l))
  && rows_valid columns 0 (line_cells l) (row_ends l)
  && (cell_owned_bytes l =? owned_charge (line_cells l))%N
  && (line_charged l =? compact_line_charge (cell_capacity l) (row_end_capacity l) (cell_owned_bytes l))%N.

(** The origins [validate_recovery_state] expects, and where they end. *)
Fixpoint expected_starts (cursor : N) (ls : list LogicalLine) : list N * N :=
  match ls with
  | [] => ([], cursor)
  | l :: ls' => let '(starts, e) := expected_starts (u64_add cursor (N.of_nat (physical_rows l))) ls' in
                (cursor :: starts, e)
  end.

Definition validate_scrollback (columns : nat) (s : Scrollback) : bool :=
  let '(starts, e) := expected_starts (content_row_origin s) (lines s) in
  (length (line_row_starts s) =? length (lines s))
  && forallb (validate_line columns) (lines s)
  && bool_decide (line_row_starts s = starts)
  && (screen_row_origin s =? e)%N
  && (charged_bytes s =? foldl usize_add 0 (map line_charged (lines s)))%N
  && (charged_bytes s <=? limit_bytes s)%N
  && match active_oversize_line s with
     | None => true
     | Some (id, trimmed) =>
         match list.last (List.filter (fun l => (line_id l =? id)%N) (lines s)) with
         | Some l => (trimmed =? trimmed_offset l)%N
         | None => false
         end
     end.
End WithPlatform.
