(* ===== verification/HistoryRows.v ===== *)
(** * The history as a list of rows

    The abstract view of the scrollback is the list of physical rows it
    retains.  Row boundaries, coordinates and charges are bookkeeping: pushing
    appends to that list, the byte limit drops a prefix of it, splitting the
    tail off takes a suffix, and the binary search is a lookup in it. *)

From Stdlib Require Import NArith Bool.
From S2P Require Import Prelude Cell Screen History.

(** ** Row boundaries *)
Fixpoint ends_ok (prev : nat) (ends : list nat) (n : nat) : Prop :=
  match ends with
  | [] => prev = n
  | e :: ends' => prev <= e /\ ends_ok e ends' n
  end.

Fixpoint row_slices (prev : nat) (ends : list nat) (cs : list Cell) : list (list Cell) :=
  match ends with
  | [] => []
  | e :: ends' => take (e - prev) (drop prev cs) :: row_slices e ends' cs
  end.

(** The soft-wrap flags of a line of [n] rows. *)
Definition row_flags (n : nat) (hard : bool) : list bool :=
  match n with O => [] | S m => replicate m true ++ [negb hard] end.

Definition line_rows (l : LogicalLine) : list ScreenRow :=
  zip_with mkScreenRow (row_slices 0 (row_ends l) (line_cells l)) (row_flags (length (row_ends l)) (hard_break l)).

Definition rows_of (s : Scrollback) : list ScreenRow := concat (map line_rows (lines s)).

Lemma ends_ok_le prev ends n : ends_ok prev ends n -> prev <= n.
Proof. revert prev. induction ends as [|e ends IH]; simpl; intros prev H; [lia|]. destruct H as [? H]. apply IH in H. lia. Qed.

Lemma ends_ok_app prev ends n m : ends_ok prev ends n -> n <= m -> ends_ok prev (ends ++ [m]) m.
Proof.
  revert prev. induction ends as [|e ends IH]; simpl; intros prev H Hm; [by subst|].
  destruct H. split; [done|]. by apply IH.
Qed.

Lemma ends_ok_lookup prev ends n i e :
  ends_ok prev ends n -> ends !! i = Some e -> prev <= e <= n.
Proof.
  revert prev i. induction ends as [|e' ends IH]; intros prev i H Hi; [done|]. destruct H as [Hp H].
  destruct i as [|i]; simpl in Hi.
  - injection Hi as ->. split; [done|]. by eapply ends_ok_le.
  - pose proof (IH e' i H Hi). lia.
Qed.

Lemma ends_ok_drop prev ends n k c :
  ends_ok prev ends n -> (match k with O => prev | S j => default prev (ends !! j) end) = c ->
  k <= length ends -> ends_ok c (drop k ends) n.
Proof.
  revert prev k c. induction ends as [|e ends IH]; intros prev k c H Hc Hk.
  - destruct k; simpl in *; [by subst|lia].
  - destruct k as [|k]; simpl in *; [by subst|]. destruct H as [_ H].
    apply (IH e k c); [done| |lia]. destruct k as [|k]; simpl in *; [done|].
    destruct (lookup_lt_is_Some_2 ends k) as [x Hx]; [lia|]. rewrite Hx in *. done.
Qed.

Lemma ends_ok_sub prev ends n c :
  ends_ok prev ends n -> c <= prev -> ends_ok (prev - c) (map (fun e => e - c) ends) (n - c).
Proof.
  revert prev. induction ends as [|e ends IH]; simpl; intros prev H Hc; [by subst|].
  destruct H. split; [lia|]. apply IH; [done|lia].
Qed.

Lemma length_row_slices prev ends cs : length (row_slices prev ends cs) = length ends.
Proof. revert prev. induction ends as [|e ends IH]; intros; simpl; [done|]. by rewrite IH. Qed.

Lemma row_slices_app prev ends cs xs :
  ends_ok prev ends (length cs) ->
  row_slices prev (ends ++ [length cs + length xs]) (cs ++ xs) = row_slices prev ends cs ++ [xs].
Proof.
  revert prev. induction ends as [|e ends IH]; intros prev H; simpl in *.
  - subst prev. rewrite drop_app_length. by rewrite take_ge by lia.
  - destruct H as [Hp H]. pose proof (ends_ok_le _ _ _ H).
    rewrite IH by done. f_equal. rewrite drop_app_le by lia. rewrite take_app_le; [done|].
    rewrite length_drop. lia.
Qed.

Lemma row_slices_shift prev ends cs c :
  c <= prev -> ends_ok prev ends (length cs) ->
  row_slices (prev - c) (map (fun e => e - c) ends) (drop c cs) = row_slices prev ends cs.
Proof.
  revert prev. induction ends as [|e ends IH]; intros prev Hc H; simpl in *; [done|].
  destruct H as [Hp H]. rewrite IH by (done || lia). f_equal. rewrite drop_drop.
  f_equal; [lia|]. f_equal. lia.
Qed.

(** The end of the first [k] rows. *)
Definition end_of (prev : nat) (ends : list nat) (k : nat) : nat :=
  match k with O => prev | S j => default prev (ends !! j) end.

Lemma row_slices_skip prev ends cs k :
  k <= length ends -> drop k (row_slices prev ends cs) = row_slices (end_of prev ends k) (drop k ends) cs.
Proof.
  revert prev k. induction ends as [|e ends IH]; intros prev k Hk.
  - destruct k; [done|simpl in *; lia].
  - destruct k as [|k]; [done|]. simpl in *. rewrite IH by lia. destruct k as [|k]; simpl in *; [done|].
    destruct (lookup_lt_is_Some_2 ends k) as [x Hx]; [lia|]. by rewrite Hx.
Qed.

Lemma row_slices_take prev ends cs k n :
  ends_ok prev ends (length cs) -> k <= length ends -> end_of prev ends k <= n ->
  row_slices prev (take k ends) (take n cs) = take k (row_slices prev ends cs).
Proof.
  revert prev k. induction ends as [|e ends IH]; intros prev k H Hk Hn.
  - by destruct k.
  - destruct k as [|k]; [done|]. simpl in *. destruct H as [Hp H].
    assert (e <= n).
    { destruct k as [|k]; simpl in Hn; [lia|]. destruct (lookup_lt_is_Some_2 ends k) as [x Hx]; [lia|].
      rewrite Hx in Hn. pose proof (ends_ok_lookup _ _ _ _ _ H Hx). simpl in Hn. lia. }
    f_equal.
    + rewrite skipn_firstn_comm, take_take. f_equal. lia.
    + apply IH; [done|lia|]. destruct k as [|k]; simpl in *; [done|].
      destruct (lookup_lt_is_Some_2 ends k) as [x Hx]; [lia|]. by rewrite Hx in *.
Qed.

Lemma ends_ok_skip prev ends n k :
  ends_ok prev ends n -> k <= length ends -> ends_ok (end_of prev ends k) (drop k ends) n.
Proof. intros H Hk. by eapply ends_ok_drop. Qed.

Lemma ends_ok_take prev ends n k :
  ends_ok prev ends n -> k <= length ends -> ends_ok prev (take k ends) (end_of prev ends k).
Proof.
  revert prev k. induction ends as [|e ends IH]; intros prev k H Hk.
  - by destruct k; simpl in *; [|lia].
  - destruct k as [|k]; [done|]. simpl in *. destruct H as [Hp H]. split; [done|].
    destruct k as [|k]; [done|]. pose proof (IH e (S k) H ltac:(lia)) as H'. simpl in H' |- *.
    destruct (lookup_lt_is_Some_2 ends k) as [x Hx]; [simpl in *; lia|]. by rewrite Hx in *.
Qed.

Lemma end_of_le prev ends n k : ends_ok prev ends n -> prev <= end_of prev ends k <= n.
Proof.
  intros H. pose proof (ends_ok_le _ _ _ H). destruct k as [|k]; simpl; [lia|].
  destruct (ends !! k) eqn:E; simpl; [|lia]. by eapply ends_ok_lookup.
Qed.

Lemma row_slices_lookup prev ends cs i :
  row_slices prev ends cs !! i =
    (e ← ends !! i; let p := end_of prev ends i in Some (take (e - p) (drop p cs))).
Proof.
  revert prev i. induction ends as [|e ends IH]; intros prev i; [done|].
  destruct i as [|i]; [done|]. simpl. rewrite IH. destruct i as [|i]; simpl; [by destruct ends|].
  destruct (ends !! S i) eqn:E; simpl; [|done].
  destruct (lookup_lt_is_Some_2 ends i) as [x Hx]; [apply lookup_lt_Some in E; lia|]. by rewrite Hx.
Qed.

Lemma row_start_end_of ends row : row_start ends row = end_of 0 ends row.
Proof. by destruct row. Qed.

Lemma length_row_flags n hard : length (row_flags n hard) = n.
Proof. destruct n; simpl; [done|]. rewrite length_app, length_replicate. simpl. lia. Qed.

Lemma lookup_row_flags n hard i :
  row_flags n hard !! i = if i <? n then Some ((i + 1 <? n) || negb hard) else None.
Proof.
  destruct n as [|n]; simpl; [done|]. destruct (i <? S n) eqn:E; bools.
  - destruct (decide (i < n)).
    + rewrite lookup_app_l by (rewrite length_replicate; lia). rewrite lookup_replicate_2 by lia.
      by rewrite (proj2 (Nat.ltb_lt _ _)) by lia.
    + rewrite lookup_app_r; rewrite length_replicate; [|lia]. replace (i - n) with 0 by lia.
      by rewrite (proj2 (Nat.ltb_ge _ _)) by lia.
  - apply lookup_ge_None_2. rewrite length_app, length_replicate. simpl. lia.
Qed.

Lemma row_flags_drop k n hard : k <= n -> drop k (row_flags n hard) = row_flags (n - k) hard.
Proof.
  intros Hk. apply list_eq. intros i. rewrite lookup_drop, !lookup_row_flags.
  destruct (k + i <? n) eqn:E1, (i <? n - k) eqn:E2; bools; try lia; [|done].
  f_equal. f_equal. apply eq_true_iff_eq. rewrite !Nat.ltb_lt. lia.
Qed.

Lemma row_flags_open n b : row_flags (S n) b = row_flags n false ++ [negb b].
Proof. destruct n as [|n]; simpl; [done|]. f_equal. by rewrite <- replicate_cons_app. Qed.

(** ** Lines *)
Definition line_ok (l : LogicalLine) : Prop :=
  physical_rows l = length (row_ends l) /\ ends_ok 0 (row_ends l) (length (line_cells l)).

Lemma length_line_rows l : length (line_rows l) = length (row_ends l).
Proof. unfold line_rows. rewrite length_zip_with, length_row_slices, length_row_flags. lia. Qed.

Lemma line_rows_lookup l i :
  line_ok l ->
  line_rows l !! i =
    if i <? physical_rows l then
      Some (mkScreenRow (take (default 0 (row_ends l !! i) - row_start (row_ends l) i)
                           (drop (row_start (row_ends l) i) (line_cells l)))
              ((i + 1 <? physical_rows l) || negb (hard_break l)))
    else None.
Proof.
  intros [Hp _]. unfold line_rows. rewrite lookup_zip_with, row_slices_lookup, lookup_row_flags, Hp.
  destruct (i <? length (row_ends l)) eqn:E; bools.
  - destruct (lookup_lt_is_Some_2 (row_ends l) i E) as [e He]. rewrite He. by destruct i.
  - by rewrite lookup_ge_None_2.
Qed.

(** [LogicalLine::physical_row] never panics, and is the lookup. *)
Lemma line_physical_row_spec l i :
  line_ok l -> line_physical_row l i = Some (row_cells <$> line_rows l !! i).
Proof.
  intros Hl. rewrite line_rows_lookup by done. destruct Hl as [Hp He]. unfold line_physical_row. rewrite Hp.
  destruct (i <? length (row_ends l)) eqn:E; bools.
  - destruct (lookup_lt_is_Some_2 (row_ends l) i E) as [e Hi]. rewrite Hi, row_start_end_of.
    pose proof (ends_ok_skip _ _ _ i He ltac:(lia)) as H.
    rewrite (drop_S _ _ _ Hi) in H. destruct H as [H1 H2]. apply ends_ok_le in H2.
    rewrite slice_Some by lia. done.
  - by rewrite lookup_ge_None_2.
Qed.

Lemma line_soft_wrapped_spec l i :
  line_ok l -> line_soft_wrapped l i = soft_wrapped <$> line_rows l !! i.
Proof.
  intros Hl. rewrite line_rows_lookup by done. unfold line_soft_wrapped. by destruct (i <? _).
Qed.

(** The accounting of one line: room for its cells and rows, and a charge
    that matches its capacities. *)
Definition line_charge_ok `{Platform} (l : LogicalLine) : Prop :=
  (N.of_nat (length (line_cells l)) <= cell_capacity l)%N /\
  (N.of_nat (length (row_ends l)) <= row_end_capacity l)%N /\
  line_charged l = compact_line_charge (cell_capacity l) (row_end_capacity l) (cell_owned_bytes l).

Section Lines.
Context `{P : Platform} `{L : !PlatformLaws P}.

Lemma charge_mono a b c a' b' c' :
  (a <= a')%N -> (b <= b')%N -> (c <= c')%N -> (compact_line_charge a b c <= compact_line_charge a' b' c')%N.
Proof.
  intros Ha Hb Hc. unfold compact_line_charge, usize_add, usize_mul, saturating_add, saturating_mul.
  pose proof (N.mul_le_mono_l _ _ size_of_cell Ha). pose proof (N.mul_le_mono_l _ _ 8 Hb). lia.
Qed.

Lemma charge_positive a b c : (1 <= compact_line_charge a b c)%N.
Proof.
  unfold compact_line_charge, usize_add, usize_mul, saturating_add, saturating_mul, usize_max.
  pose proof law_size_of_line. lia.
Qed.

Lemma line_rows_shrink l : line_rows (recalculate_charge (shrink_line l)) = line_rows l.
Proof. done. Qed.

(** *** Appending a row *)
Lemma append_row_rows row limit active l :
  line_ok l -> hard_break l = false ->
  line_rows (append_row row limit active l) = line_rows l ++ [row] /\ line_ok (append_row row limit active l) /\
  hard_break (append_row row limit active l) = negb (soft_wrapped row) /\
  physical_rows (append_row row limit active l) = S (physical_rows l) /\
  line_id (append_row row limit active l) = line_id l.
Proof.
  intros [Hp He] Hh.
  set (l1 := l <| line_cells := line_cells l ++ row_cells row |>
               <| row_ends := row_ends l ++ [length (line_cells l ++ row_cells row)] |>
               <| physical_rows := physical_rows l + 1 |> <| hard_break := negb (soft_wrapped row) |>).
  assert (line_rows l1 = line_rows l ++ [row] /\ line_ok l1) as [Hr Hok].
  { split.
    - unfold line_rows, l1. cbn. rewrite length_app, Hh. cbn [length].
      rewrite row_slices_app by done. rewrite length_app, Nat.add_comm. cbn [length Nat.add].
      rewrite row_flags_open, negb_involutive.
      rewrite zip_with_app by (by rewrite length_row_slices, length_row_flags). f_equal. by destruct row.
    - split; unfold l1; cbn.
      + rewrite length_app, Hp. done.
      + rewrite length_app. eapply ends_ok_app; [exact He|lia]. }
  unfold append_row. fold l1. case_match; (split; [exact Hr|]); (split; [exact Hok|]);
    (split; [done|]); (split; [|done]); cbn; lia.
Qed.

Lemma append_row_charge row limit active l :
  line_charge_ok l -> line_charge_ok (append_row row limit active l).
Proof.
  intros (Hc & Hr & He). unfold append_row. case_match; unfold line_charge_ok; cbn;
    rewrite ?length_app; cbn; split_and!; try done.
  - rewrite Nat2N.inj_add. pose proof (law_vec_grown (cell_capacity l) (N.of_nat (length (line_cells l ++ row_cells row)))).
    rewrite length_app in H0. rewrite <- Nat2N.inj_add. apply law_vec_shrunk. done.
  - pose proof (law_vec_grown (row_end_capacity l) (N.of_nat (S (length (row_ends l))))).
    rewrite Nat.add_comm. cbn [Nat.add]. apply law_vec_shrunk. done.
  - rewrite <- length_app. apply law_vec_grown.
  - rewrite Nat.add_comm. apply law_vec_grown.
Qed.

(** *** Trimming the oldest rows *)
Lemma trim_loop_spec fuel l target rows owned :
  line_ok l -> rows + fuel = physical_rows l ->
  exists rows' owned', trim_loop fuel l target rows (end_of 0 (row_ends l) rows) owned =
      Some (rows', end_of 0 (row_ends l) rows', owned') /\
    rows <= rows' <= physical_rows l /\
    (rows = 0 -> (target < line_charged l)%N -> 1 <= fuel -> 1 <= rows').
Proof.
  intros Hl. revert rows owned. induction fuel as [|fuel IH]; intros rows owned Hf; simpl.
  { exists rows, owned. split; [done|]. lia. }
  rewrite (proj2 (Nat.ltb_lt _ _)) by lia. cbn [negb].
  destruct (_ && _) eqn:E.
  - exists rows, owned. split; [done|]. split; [lia|]. intros -> Hc _. bools.
    destruct (_ || _) eqn:E2; [|done]. cbn in E2. lia.
  - destruct Hl as [Hp He].
    destruct (lookup_lt_is_Some_2 (row_ends l) rows) as [e Hi]; [lia|]. rewrite Hi. cbn [mbind option_bind].
    pose proof (ends_ok_skip _ _ _ rows He ltac:(lia)) as H. rewrite (drop_S _ _ _ Hi) in H. destruct H as [H1 H2].
    apply ends_ok_le in H2. rewrite slice_Some by lia. cbn [mbind option_bind].
    set (ow := usize_add _ _).
    destruct (IH (S rows) ow) as (rows' & owned' & E3 & Hb & _); [lia|].
    assert (end_of 0 (row_ends l) (S rows) = e) as Ee by (cbn; by rewrite Hi).
    rewrite Ee in E3. rewrite E3. exists rows', owned'. split; [done|]. split; [lia|]. lia.
Qed.

(** What trimming does to a line: it drops rows from its front, some when the
    line is above the target, and never raises the charge. *)
Lemma trim_spec target l :
  line_ok l -> line_charge_ok l ->
  exists k l', trim_oldest_physical_rows_to target l = Some (k, l') /\
    line_ok l' /\ line_charge_ok l' /\ line_rows l' = drop k (line_rows l) /\
    physical_rows l = k + physical_rows l' /\ hard_break l' = hard_break l /\ line_id l' = line_id l /\
    (line_charged l' <= line_charged l)%N /\
    ((target < line_charged l)%N -> 1 <= physical_rows l -> 1 <= k).
Proof.
  intros Hl Hcl. unfold trim_oldest_physical_rows_to.
  destruct (trim_loop_spec (physical_rows l) l target 0 0 Hl ltac:(lia)) as (k & owned & E & Hk & Hpos).
  cbn [end_of] in E. rewrite E. cbn [mbind option_bind].
  destruct (k =? 0) eqn:Ek; bools.
  { subst k. exists 0, l. split_and!; try done. intros. by apply Hpos. }
  pose proof Hl as [Hp He]. set (c := end_of 0 (row_ends l) k) in *.
  pose proof (end_of_le 0 _ _ k He) as Hc. fold c in Hc.
  pose proof (ends_ok_skip 0 _ _ k He ltac:(lia)) as Hskip. fold c in Hskip.
  assert (forallb (fun e => c <=? e) (drop k (row_ends l)) = true) as Hall.
  { apply forallb_forall. intros e Hin. apply list_elem_of_In, list_elem_of_lookup in Hin as (i & Hi).
    pose proof (ends_ok_lookup _ _ _ _ _ Hskip Hi). apply Nat.leb_le. lia. }
  rewrite Hall, (proj2 (Nat.ltb_ge _ _)), (proj2 (Nat.ltb_ge _ _)) by lia. cbn [orb negb].
  eexists k, _. split; [done|].
  assert (length (drop k (row_ends l)) = length (row_ends l) - k) as Hld by apply length_drop.
  assert (row_slices 0 (map (fun e => e - c) (drop k (row_ends l))) (drop c (line_cells l)) =
    drop k (row_slices 0 (row_ends l) (line_cells l))) as Hsl.
  { rewrite row_slices_skip by lia. fold c. pose proof (row_slices_shift c (drop k (row_ends l)) (line_cells l) c ltac:(lia) Hskip) as S.
    by rewrite Nat.sub_diag in S. }
  split_and!; try done; cbn.
  - split; cbn; [rewrite length_map, Hld; lia|]. rewrite length_drop.
    pose proof (ends_ok_sub _ _ _ c Hskip ltac:(lia)) as S. by rewrite Nat.sub_diag in S.
  - destruct Hcl as (H1 & H2 & _). unfold line_charge_ok. cbn. rewrite length_map, Hld, length_drop.
    split_and!; [apply law_vec_shrunk; lia|apply law_vec_shrunk; lia|done].
  - unfold line_rows. cbn. rewrite Hsl, length_map, Hld. rewrite zip_with_drop, row_flags_drop by lia. done.
  - lia.
  - destruct Hcl as (H1 & H2 & ->). rewrite length_map, Hld, length_drop.
    apply charge_mono; [apply law_vec_shrunk; lia|apply law_vec_shrunk; lia|lia].
  - intros. by apply Hpos.
Qed.
End Lines.
