(* ===== verification/HistoryInv.v ===== *)
(** * The scrollback invariant

    Row coordinates match the retained rows, charges match the lines, and the
    limit holds after every operation; the byte limit only ever drops the
    oldest rows. *)

From Stdlib Require Import NArith Bool.
From S2P Require Import Prelude Cell Screen History HistoryRows.

Definition total_rows (ls : list LogicalLine) : nat := foldr (fun l n => physical_rows l + n) 0 ls.
Definition total_charge (ls : list LogicalLine) : N := foldr (fun l n => line_charged l + n)%N 0%N ls.

Arguments total_rows : simpl never.
Arguments total_charge : simpl never.

Fixpoint starts_from (origin : N) (ls : list LogicalLine) : list N :=
  match ls with
  | [] => []
  | l :: ls' => origin :: starts_from (origin + N.of_nat (physical_rows l))%N ls'
  end.

(** Only the newest line may still be open. *)
Fixpoint closed_but_last (ls : list LogicalLine) : Prop :=
  match ls with
  | [] => True
  | l :: ls' => (ls' <> [] -> hard_break l = true) /\ closed_but_last ls'
  end.

Section Invariant.
Context `{P : Platform}.

Definition line_good (l : LogicalLine) : Prop := line_ok l /\ line_charge_ok l /\ 1 <= physical_rows l.

(** The coordinates: every line where the rows before it end, and the live
    screen right after the last. *)
Record coords_ok (s : Scrollback) : Prop := mk_coords {
  co_lines : Forall line_good (lines s);
  co_closed : closed_but_last (lines s);
  co_starts : line_row_starts s = starts_from (content_row_origin s) (lines s);
  co_screen : screen_row_origin s = (content_row_origin s + N.of_nat (total_rows (lines s)))%N;
  co_bound : (screen_row_origin s <= u64_max)%N
}.

Record scrollback_ok (s : Scrollback) : Prop := mk_scrollback_ok {
  so_coords : coords_ok s;
  so_exact : charged_bytes s = total_charge (lines s);
  so_limit : (charged_bytes s <= limit_bytes s)%N
}.

(** ** Lists of lines *)
Lemma total_rows_app a b : total_rows (a ++ b) = total_rows a + total_rows b.
Proof. induction a as [|l a IH]; simpl; [done|]. unfold total_rows in *. simpl. rewrite IH. lia. Qed.

Lemma total_charge_app a b : total_charge (a ++ b) = (total_charge a + total_charge b)%N.
Proof. induction a as [|l a IH]; simpl; [done|]. unfold total_charge in *. simpl. rewrite IH. lia. Qed.

Lemma starts_from_app o a b :
  starts_from o (a ++ b) = starts_from o a ++ starts_from (o + N.of_nat (total_rows a))%N b.
Proof.
  revert o. induction a as [|l a IH]; intros o; simpl; [by rewrite N.add_0_r|].
  rewrite IH. do 3 f_equal. unfold total_rows. simpl. lia.
Qed.

Lemma length_starts_from o ls : length (starts_from o ls) = length ls.
Proof. revert o. induction ls as [|l ls IH]; intros; simpl; [done|]. by rewrite IH. Qed.

Lemma length_rows_of ls :
  Forall line_good ls -> length (concat (map line_rows ls)) = total_rows ls.
Proof.
  induction 1 as [|l ls ([Hp _] & _) _ IH]; simpl; [done|].
  rewrite length_app, length_line_rows, IH. unfold total_rows. simpl. lia.
Qed.

(** ** Eviction *)
Lemma evict_loop_spec ls s :
  lines s = ls -> coords_ok s ->
  let s' := evict_loop ls s in
  coords_ok s' /\ limit_bytes s' = limit_bytes s /\ screen_row_origin s' = screen_row_origin s /\
  (exists k, rows_of s' = drop k (rows_of s) /\ (content_row_origin s' = content_row_origin s + N.of_nat k)%N /\
     k <= length (rows_of s)) /\
  (charged_bytes s = total_charge ls -> charged_bytes s' = total_charge (lines s')) /\
  (charged_bytes s' <= limit_bytes s' \/ lines s' = [] \/ exists l, lines s' = [l] /\ hard_break l = false)%N.
Proof.
  revert s. induction ls as [|l ls IH]; intros s Hls Hc; cbn [evict_loop].
  - split_and!; try done; [|by intros; rewrite Hls|by right; left].
    exists 0. split_and!; [done|lia|lia].
  - assert (forall x, rows_of x = rows_of s -> content_row_origin x = content_row_origin s ->
      exists k, rows_of x = drop k (rows_of s) /\ (content_row_origin x = content_row_origin s + N.of_nat k)%N /\
        k <= length (rows_of s)) as Hzero by (intros x Hx Ho; exists 0; split_and!; [done|lia|lia]).
    destruct Hc as [Hg Hcl Hst Hsc Hb]. rewrite Hls in *. apply Forall_cons_iff in Hg as [Hl Hg].
    destruct (_ <=? _)%N eqn:E.
    { split_and!; try done; [by split; rewrite ?Hls; try done; constructor|by apply (Hzero s)|by intros; rewrite Hls|left; lia]. }
    destruct (hard_break l) eqn:Eh; cbn [negb].
    2: { split_and!; try done; [by split; rewrite ?Hls; try done; constructor|by apply (Hzero s)|by intros; rewrite Hls|].
         right; right. exists l. split; [|done]. rewrite Hls. f_equal. destruct ls as [|l2 ls]; [done|].
         destruct Hcl as [Hcl _]. by rewrite Hcl in Eh. }
    set (s1 := _ <| content_row_origin := _ |>).
    assert (total_rows (l :: ls) = physical_rows l + total_rows ls) as Htot by done.
    assert (u64_add (content_row_origin s) (N.of_nat (physical_rows l)) =
      content_row_origin s + N.of_nat (physical_rows l))%N as Eu.
    { unfold u64_add, saturating_add. lia. }
    assert (coords_ok s1) as Hc1.
    { split; unfold s1; cbn; [done|apply Hcl| | |done].
      - rewrite Hst, Eu. done.
      - rewrite Eu. lia. }
    destruct (IH s1 eq_refl Hc1) as (A1 & A2 & A3 & (k & A4 & A5 & A6) & A7 & A8).
    assert (rows_of s = line_rows l ++ rows_of s1) as Hro by (unfold rows_of; by rewrite Hls).
    destruct Hl as ([Hp _] & _ & _). pose proof (length_line_rows l) as Hll.
    split_and!; try done.
    + exists (physical_rows l + k). rewrite A4, A5, Hro.
      change (content_row_origin s1) with (u64_add (content_row_origin s) (N.of_nat (physical_rows l))).
      rewrite Eu. split_and!; [|lia|rewrite length_app; lia].
      rewrite drop_app_ge by lia. f_equal. lia.
    + intros Hch. apply A7. unfold s1. cbn.
      assert (total_charge (l :: ls) = line_charged l + total_charge ls)%N by done. lia.
Qed.

(** ** Trimming an open line *)
Context `{L : !PlatformLaws P}.

Lemma trim_front_spec fuel target l removed charged :
  line_ok l -> line_charge_ok l -> physical_rows l <= fuel ->
  exists l' k charged', trim_front fuel target l removed charged = Some (l', removed + k, charged') /\
    line_ok l' /\ line_charge_ok l' /\ line_rows l' = drop k (line_rows l) /\
    physical_rows l = k + physical_rows l' /\ hard_break l' = hard_break l /\ line_id l' = line_id l /\
    ((line_charged l <= charged)%N ->
       (charged' + line_charged l = charged + line_charged l')%N /\ (line_charged l' <= charged')%N) /\
    ((line_charged l' <= target)%N \/ physical_rows l' = 0).
Proof.
  revert l removed charged. induction fuel as [|fuel IH]; intros l removed charged Hl Hc Hf; cbn [trim_front].
  { exists l, 0, charged. split_and!; try done; [by rewrite Nat.add_0_r|]. right. lia. }
  destruct (_ && _) eqn:E; bools.
  - destruct (trim_spec target l Hl Hc) as (k & l1 & -> & A1 & A2 & A3 & A4 & A5 & A6 & A7 & A8).
    cbn [mbind option_bind]. assert (1 <= k) as Hk by (apply A8; lia).
    rewrite (proj2 (Nat.eqb_neq k 0)) by lia.
    destruct (IH l1 (removed + k) (charged - (line_charged l - line_charged l1))%N)
      as (l2 & k2 & ch2 & -> & B1 & B2 & B3 & B4 & B5 & B6 & B7 & B9); [done|done|lia|].
    exists l2, (k + k2), ch2. split_and!; try done; try congruence; try lia.
    + by rewrite Nat.add_assoc.
    + rewrite B3, A3, drop_drop. done.
  - exists l, 0, charged. split_and!; try done; [by rewrite Nat.add_0_r|].
    apply andb_false_iff in E as [E|E]; bools; [left|right]; lia.
Qed.

(** What enforcing the limit promises. *)
Definition enforced (s s' : Scrollback) : Prop :=
  coords_ok s' /\ limit_bytes s' = limit_bytes s /\ screen_row_origin s' = screen_row_origin s /\
  (exists k, rows_of s' = drop k (rows_of s) /\ (content_row_origin s' = content_row_origin s + N.of_nat k)%N /\
     k <= length (rows_of s)) /\
  (charged_bytes s = total_charge (lines s) ->
     charged_bytes s' = total_charge (lines s') /\ (charged_bytes s' <= limit_bytes s')%N).

Lemma total_one l : total_rows [l] = physical_rows l /\ total_charge [l] = line_charged l.
Proof. unfold total_rows, total_charge. simpl. split; lia. Qed.

(** [note_oversize] only touches the oversize counters. *)
Lemma note_oversize_fields l k s :
  lines (note_oversize l k s) = lines s /\ line_row_starts (note_oversize l k s) = line_row_starts s /\
  charged_bytes (note_oversize l k s) = charged_bytes s /\ limit_bytes (note_oversize l k s) = limit_bytes s /\
  content_row_origin (note_oversize l k s) = content_row_origin s /\
  screen_row_origin (note_oversize l k s) = screen_row_origin s.
Proof. unfold note_oversize. by repeat case_match. Qed.

Lemma trim_open_line_spec s l :
  coords_ok s -> lines s = [l] ->
  exists s', trim_open_line l s = Some s' /\ enforced s s'.
Proof.
  intros [Hg Hcl Hst Hsc Hb] Hls. rewrite Hls in *. apply Forall_cons_iff in Hg as [(Hlo & Hlc & Hl1) _].
  destruct (total_one l) as [Ht1 Ht2]. unfold trim_open_line.
  destruct (trim_front_spec (physical_rows l) (limit_bytes s / 2) l 0 (charged_bytes s))
    as (l' & k & ch & -> & B1 & B2 & B3 & B4 & B5 & B6 & B7 & B9); [done|done|done|].
  cbn [mbind option_bind Nat.add]. eexists. split; [done|]. rewrite Hst, Hls. cbn [starts_from set_front].
  assert (u64_add (content_row_origin s) (N.of_nat k) = content_row_origin s + N.of_nat k)%N as ->.
  { unfold u64_add, saturating_add. lia. }
  set (s1 := _ <| line_row_starts := _ |>).
  destruct (note_oversize_fields l' k s1) as (F1 & F2 & F3 & F4 & F5 & F6).
  assert (rows_of s = line_rows l) as Hro by (unfold rows_of; rewrite Hls; simpl; apply app_nil_r).
  assert (length (line_rows l) = physical_rows l) as Hll by (rewrite length_line_rows; by destruct Hlo).
  assert (limit_bytes s / 2 <= limit_bytes s)%N as Hhalf by (apply N.Div0.div_le_upper_bound; lia).
  destruct (total_one l') as [Ht1' Ht2']. unfold enforced. rewrite Hro, Hls, Ht2.
  destruct (physical_rows l' =? 0) eqn:Ez; bools.
  - split; [|split; [done|split; [done|split]]].
    + split; cbn; rewrite ?F1, ?F2, ?F5, ?F6; cbn; try done. change (total_rows []) with 0. lia.
    + exists k. unfold rows_of. cbn. rewrite F1, F5. cbn. rewrite drop_ge by lia. split_and!; [done|lia|lia].
    + intros Hex. destruct B7 as [B7 B8]; [lia|]. cbn. rewrite F1, F3, F4. cbn.
      change (total_charge []) with 0%N. lia.
  - split; [|split; [done|split; [done|split]]].
    + split; rewrite ?F1, ?F2, ?F5, ?F6; cbn; try done; [constructor; [split_and!; done || lia|constructor]|rewrite Ht1'; lia].
    + exists k. rewrite F5. unfold rows_of. rewrite F1, <- B3. cbn. rewrite app_nil_r. split_and!; [done|lia|lia].
    + rewrite F1, F3, F4. cbn. rewrite Ht2'. intros Hex. destruct B7 as [B7 B8]; [lia|]. lia.
Qed.

Lemma enforce_limit_spec s :
  coords_ok s -> exists s', enforce_limit s = Some s' /\ enforced s s'.
Proof.
  intros Hc. unfold enforce_limit, evict_complete_lines.
  destruct (evict_loop_spec (lines s) s eq_refl Hc) as (A1 & A2 & A3 & (k & A4 & A5 & A6) & A7 & A8).
  set (s1 := evict_loop (lines s) s) in *. destruct (_ <=? _)%N eqn:E.
  { exists s1. split; [done|]. split; [done|]. split; [done|]. split; [done|]. split; [by exists k|].
    intros Hex. split; [by apply A7|lia]. }
  destruct A8 as [A8|[A8|(l & A8 & _)]]; [lia| |].
  - rewrite A8. exists s1. split; [done|]. split; [done|]. split; [done|]. split; [done|]. split; [by exists k|].
    intros Hex. specialize (A7 Hex). split; [done|]. rewrite A8 in A7. change (total_charge []) with 0%N in A7. lia.
  - rewrite A8. destruct (trim_open_line_spec s1 l A1 A8) as (s2 & E2 & B1 & B2 & B3 & (j & B4 & B5 & B6) & B7).
    exists s2. split; [done|]. split; [done|]. split; [congruence|]. split; [congruence|]. split.
    + exists (k + j). rewrite B4, A4, drop_drop. split_and!; [done|lia|]. rewrite A4, length_drop in B6. lia.
    + intros Hex. apply B7. by apply A7.
Qed.

(** ** Never a panic: what needs no bound on sizes *)
Definition line_sane (l : LogicalLine) : Prop := line_ok l /\ line_charge_ok l.
Definition lines_sane (s : Scrollback) : Prop :=
  Forall line_sane (lines s) /\ length (line_row_starts s) = length (lines s).

Lemma evict_loop_sane ls s : lines s = ls -> lines_sane s -> lines_sane (evict_loop ls s).
Proof.
  revert s. induction ls as [|l ls IH]; intros s E [H Hl]; cbn [evict_loop]; [done|].
  rewrite E in *. apply Forall_cons_iff in H as [H1 H].
  repeat case_match; try (split; rewrite ?E; [by constructor|done]).
  apply IH; [done|]. split; [done|]. cbn. destruct (line_row_starts s); cbn in *; lia.
Qed.

Lemma enforce_limit_sane s : lines_sane s -> exists s', enforce_limit s = Some s' /\ lines_sane s'.
Proof.
  intros Hs. unfold enforce_limit, evict_complete_lines. pose proof (evict_loop_sane _ s eq_refl Hs) as [H Hl].
  set (s1 := evict_loop (lines s) s) in *. destruct (_ <=? _)%N; [by exists s1|].
  destruct (lines s1) as [|l ls] eqn:El; [exists s1; split; [done|]; split; by rewrite El|].
  apply Forall_cons_iff in H as [[Hok Hc] H]. unfold trim_open_line.
  destruct (trim_front_spec (physical_rows l) (limit_bytes s1 / 2) l 0 (charged_bytes s1))
    as (l' & k & ch & -> & B1 & B2 & _); [done..|]. cbn [mbind option_bind]. eexists. split; [done|].
  set (s2 := _ <| line_row_starts := _ |>). destruct (note_oversize_fields l' k s2) as (F1 & F2 & _).
  assert (lines s2 = l' :: ls) as E2 by (unfold s2; cbn; by rewrite El).
  assert (length (line_row_starts s2) = S (length ls)) as E3.
  { unfold s2. cbn. destruct (line_row_starts s1); cbn in *; lia. }
  clearbody s2. unfold lines_sane. cbn [Nat.add]. case_match; cbn; rewrite F1, F2, E2; cbn.
  - split; [done|]. destruct (line_row_starts s2); cbn in *; lia.
  - split; [by constructor|done].
Qed.

Lemma sane_fresh id trimmed : line_sane (mkLine id [] 0 [] 0 0 false size_of_line 0 trimmed).
Proof.
  split; [done|]. unfold line_charge_ok. cbn. split_and!; try done.
  pose proof law_size_of_line.
  unfold compact_line_charge, usize_add, usize_mul, saturating_add, saturating_mul. lia.
Qed.

(** The line [push_row] extends: open, after the lines that were there, and
    either the newest of them or a fresh one. *)
Definition extends (s s1 : Scrollback) (fr : list LogicalLine) (l : LogicalLine) : Prop :=
  lines s1 = fr ++ [l] /\ hard_break l = false /\
  ((s1 = s /\ lines s = fr ++ [l]) \/
   (lines s = fr /\ (fr <> [] -> from_option hard_break true (list.last fr) = true) /\
    physical_rows l = 0 /\ line_rows l = [] /\ line_sane l /\ line_charged l = size_of_line /\
    line_row_starts s1 = line_row_starts s ++ [(screen_row_origin s - 1)%N] /\
    charged_bytes s1 = usize_add (charged_bytes s) size_of_line)) /\
  limit_bytes s1 = limit_bytes s /\ content_row_origin s1 = content_row_origin s /\
  screen_row_origin s1 = screen_row_origin s.

Lemma open_line_extends s :
  from_option hard_break true (list.last (lines s)) = true ->
  exists l, extends s (open_line s) (lines s) l.
Proof.
  intros Hlast. unfold open_line.
  destruct (lines s) as [|x xs] eqn:E; [destruct (active_oversize_line s) as [[id trimmed]|]|];
    eexists (mkLine _ _ _ _ _ _ _ _ _ _); (split; [cbn; reflexivity|]); (split; [done|]);
    (split; [|done]); right; (split; [by rewrite E|]); (split; [done|]);
    (split; [done|]); (split; [done|]); (split; [apply sane_fresh|done]).
Qed.

Lemma with_open_line_spec s : exists fr l, extends s (with_open_line s) fr l.
Proof.
  unfold with_open_line. destruct (from_option _ _ _) eqn:E.
  - destruct (open_line_extends s E) as (l & H). by exists (lines s), l.
  - destruct (lines s) as [|x xs _] eqn:El using rev_ind; [done|].
    rewrite last_snoc in E. exists xs, x. split; [done|]. split; [done|]. split; [by left|done].
Qed.

Lemma extends_last s s1 fr l : extends s s1 fr l -> list.last (lines s1) = Some l.
Proof. intros (-> & _). apply last_snoc. Qed.

Lemma replace_last_lines l l' s fr :
  lines s = fr ++ [l] -> lines (replace_last l l' s) = fr ++ [l'].
Proof.
  intros E. unfold replace_last. cbn. rewrite E, length_app. cbn.
  replace (length fr + 1 - 1) with (length fr) by lia. by rewrite take_app_length.
Qed.

Lemma push_row_sane row s : lines_sane s -> exists s', push_row row s = Some s' /\ lines_sane s'.
Proof.
  intros [H Hl]. unfold push_row. cbn [limit_bytes set_field set_screen_row_origin].
  destruct (_ =? 0)%N; [eexists; split; [done|]; by case_match|].
  set (s0 := set_screen_row_origin _ s).
  destruct (with_open_line_spec s0) as (fr & l & Hx). rewrite (extends_last _ _ _ _ Hx). cbn [mbind option_bind].
  destruct Hx as (E1 & Hh & Hc & _).
  assert (line_sane l /\ Forall line_sane fr /\ length (line_row_starts (with_open_line s0)) = S (length fr)) as (Hsl & Hfr & Hst).
  { destruct Hc as [[E Ec]|(Ec & _ & _ & _ & Hsl & _ & Es & _)]; change (lines s0) with (lines s) in Ec; rewrite Ec in *.
    - apply Forall_app in H as [? H]. apply Forall_cons_iff in H as [? _]. rewrite E. rewrite length_app in Hl.
      split_and!; [done..|]. change (line_row_starts s0) with (line_row_starts s). rewrite Hl. cbn. lia.
    - split_and!; [done..|]. rewrite Es, length_app. change (line_row_starts s0) with (line_row_starts s). rewrite Hl. cbn. lia. }
  set (l' := append_row _ _ _ _).
  destruct (enforce_limit_sane (replace_last l l' (with_open_line s0))) as (s2 & -> & H2).
  - split; rewrite (replace_last_lines _ _ _ fr) by done.
    + apply Forall_app. split; [done|]. constructor; [|done]. destruct Hsl as [Hok Hch].
      split; [by apply append_row_rows|by apply append_row_charge].
    + cbn. rewrite length_app, Hst. cbn. lia.
  - cbn [mbind option_bind]. eexists. split; [done|]. by case_match.
Qed.

Lemma push_rows_sane rs s : lines_sane s -> exists s', push_rows rs s = Some s' /\ lines_sane s'.
Proof. intros H. apply (for_each_inv lines_sane); [|done]. intros. by apply push_row_sane. Qed.

(** ** Pushing a row *)
Lemma closed_but_last_app fr l :
  closed_but_last (fr ++ [l]) <-> Forall (fun x => hard_break x = true) fr.
Proof.
  induction fr as [|x fr IH]; cbn; [split; [constructor|done]|]. rewrite IH, Forall_cons_iff.
  split; intros [H1 H2]; (split; [|done]); [apply H1; by destruct fr|done].
Qed.

Lemma closed_all fr :
  closed_but_last fr -> (fr <> [] -> from_option hard_break true (list.last fr) = true) ->
  Forall (fun x => hard_break x = true) fr.
Proof.
  destruct fr as [|x xs _] using rev_ind; [constructor|]. rewrite closed_but_last_app, last_snoc.
  intros H1 H2. apply Forall_app. split; [done|]. constructor; [|done]. apply H2. by destruct xs.
Qed.
(** The charge of the line a row lands on. *)
Definition push_charge (row : ScreenRow) (s : Scrollback) : N :=
  let s1 := with_open_line s in
  match list.last (lines s1) with
  | Some l => line_charged (append_row row (limit_bytes s1) (fst <$> active_oversize_line s1) l)
  | None => 0
  end.

(** Neither the row counter nor the byte total overflows 64 bits. *)
Definition push_fits (row : ScreenRow) (s : Scrollback) : Prop :=
  (screen_row_origin s < u64_max)%N /\
  (charged_bytes s + size_of_line +
     push_charge row (s <| screen_row_origin := u64_add (screen_row_origin s) 1 |>) <= usize_max)%N.

(** What pushing promises: the row is appended, and a prefix may be dropped. *)
Definition pushed (rs : list ScreenRow) (s s' : Scrollback) : Prop :=
  limit_bytes s' = limit_bytes s /\
  (screen_row_origin s' = screen_row_origin s + N.of_nat (length rs))%N /\
  exists k, rows_of s' = drop k (rows_of s ++ rs) /\
    (content_row_origin s' = content_row_origin s + N.of_nat k)%N /\ k <= length (rows_of s ++ rs).

Lemma pushed_nil s : pushed [] s s.
Proof.
  split; [done|]. split; [cbn; lia|]. exists 0. rewrite app_nil_r. split_and!; [done|lia|lia].
Qed.

Lemma pushed_app rs1 rs2 s1 s2 s3 : pushed rs1 s1 s2 -> pushed rs2 s2 s3 -> pushed (rs1 ++ rs2) s1 s3.
Proof.
  intros (A1 & A2 & k & A3 & A4 & A5) (B1 & B2 & j & B3 & B4 & B5).
  split; [congruence|]. split; [rewrite length_app; lia|]. exists (k + j).
  rewrite A3 in B3, B5. rewrite length_app, length_drop in B5.
  rewrite !length_app in *. split_and!; [|lia|lia].
  rewrite B3, <- drop_drop, app_assoc. f_equal. rewrite (drop_app_le (rows_of s1 ++ rs1)); [done|].
  rewrite length_app. lia.
Qed.

(** The state before the limit is enforced. *)
Lemma push_unlimited row s fr l :
  let s0 := s <| screen_row_origin := u64_add (screen_row_origin s) 1 |> in
  let s1 := with_open_line s0 in
  let l' := append_row row (limit_bytes s1) (fst <$> active_oversize_line s1) l in
  coords_ok s -> (screen_row_origin s < u64_max)%N -> extends s0 s1 fr l ->
  let s2 := replace_last l l' s1 in
  coords_ok s2 /\ rows_of s2 = rows_of s ++ [row] /\ limit_bytes s2 = limit_bytes s /\
  screen_row_origin s2 = (screen_row_origin s + 1)%N /\ content_row_origin s2 = content_row_origin s /\
  (charged_bytes s = total_charge (lines s) ->
   (charged_bytes s + size_of_line + line_charged l' <= usize_max)%N -> charged_bytes s2 = total_charge (lines s2)).
Proof.
  intros s0 s1 l' [Hg Hcl Hst Hsc Hb] Hmax (E1 & Hh & Hx & X1 & X2 & X3) s2.
  assert (screen_row_origin s0 = screen_row_origin s + 1)%N as Es0.
  { unfold s0. cbn. unfold u64_add, saturating_add. lia. }
  assert (lines s2 = fr ++ [l']) as E2 by (by apply replace_last_lines).
  assert (Forall line_good fr /\ line_sane l /\ Forall (fun x => hard_break x = true) fr /\
    rows_of s = concat (map line_rows fr) ++ line_rows l /\
    line_row_starts s1 = starts_from (content_row_origin s) (fr ++ [l]) /\
    screen_row_origin s = (content_row_origin s + N.of_nat (total_rows (fr ++ [l])))%N /\
    (charged_bytes s = total_charge (lines s) -> (charged_bytes s + size_of_line <= usize_max)%N ->
       charged_bytes s1 = total_charge (fr ++ [l]) /\ (charged_bytes s1 <= charged_bytes s + size_of_line)%N)) as (Hfr & Hsl & Hhb & Hro & Hst1 & Hsc1 & Hch1).
  { destruct Hx as [[Eq El]|(El & Hlast & Hz & Hlr & Hsl & Hlc & Hst1 & Hc1)]; change (lines s0) with (lines s) in El.
    - rewrite El in *. apply Forall_app in Hg as [Hfr Hl]. apply Forall_cons_iff in Hl as [(? & ? & ?) _].
      rewrite Eq. split_and!; try done.
      + by apply closed_but_last_app in Hcl.
      + unfold rows_of. rewrite El, map_app, concat_app. cbn. by rewrite app_nil_r.
      + intros Hex Hle. change (charged_bytes s0) with (charged_bytes s). split; [done|]. lia.
    - subst fr. rewrite Hst1, starts_from_app, total_rows_app. destruct (total_one l) as [-> _].
      rewrite Es0. change (line_row_starts s0) with (line_row_starts s). rewrite Hst.
      split_and!; try done.
      + by apply closed_all.
      + unfold rows_of. rewrite Hlr. by rewrite app_nil_r.
      + cbn [starts_from]. f_equal. f_equal. lia.
      + rewrite Hz. lia.
      + intros Hex Hle. rewrite Hc1. change (charged_bytes s0) with (charged_bytes s).
        unfold usize_add, saturating_add. rewrite total_charge_app. destruct (total_one l) as [_ ->]. rewrite Hlc. lia. }
  destruct Hsl as [Hok Hlc]. destruct (append_row_rows row (limit_bytes s1) (fst <$> active_oversize_line s1) l Hok Hh) as (R1 & R2 & R3 & R4 & R5).
  fold l' in R1, R2, R3, R4, R5.
  split; [|split_and!].
  - split; rewrite ?E2.
    + apply Forall_app. split; [done|]. constructor; [|done]. split_and!; [done|by apply append_row_charge|lia].
    + by apply closed_but_last_app.
    + unfold s2, replace_last. cbn. rewrite Hst1, X2, !starts_from_app. done.
    + unfold s2, replace_last. cbn. rewrite X3, X2, Es0, Hsc1. change (content_row_origin s0) with (content_row_origin s).
      rewrite !total_rows_app. destruct (total_one l) as [-> _], (total_one l') as [-> _]. lia.
    + unfold s2, replace_last. cbn. rewrite X3, Es0. lia.
  - rewrite Hro. unfold rows_of. rewrite E2, map_app, concat_app. cbn. rewrite app_nil_r, R1. by rewrite app_assoc.
  - done.
  - unfold s2, replace_last. cbn. by rewrite X3, Es0.
  - done.
  - intros Hex Hfit. destruct Hch1 as [Hc1 Hc2]; [done|lia|]. rewrite E2. unfold s2, replace_last. cbn.
    rewrite Hc1, !total_charge_app in *. destruct (total_one l) as [_ Hl1], (total_one l') as [_ Hl1']. rewrite Hl1, Hl1' in *.
    unfold usize_add, saturating_add. lia.
Qed.

Lemma push_row_spec row s :
  coords_ok s -> (screen_row_origin s < u64_max)%N -> (limit_bytes s = 0%N -> lines s = []) ->
  exists s', push_row row s = Some s' /\ coords_ok s' /\ pushed [row] s s' /\
    (charged_bytes s = total_charge (lines s) -> push_fits row s -> scrollback_ok s').
Proof.
  intros Hc Hmax Hz. unfold push_row. cbn [limit_bytes set_field set_screen_row_origin].
  set (s0 := set_screen_row_origin _ s).
  assert (screen_row_origin s0 = screen_row_origin s + 1)%N as Es0.
  { unfold s0. cbn. unfold u64_add, saturating_add. lia. }
  destruct (limit_bytes s =? 0)%N eqn:E0; bools.
  - apply N.eqb_eq in E0. specialize (Hz E0). eexists. split; [done|].
    set (s1 := set_content_row_origin _ s0). destruct Hc as [_ _ Hst Hsc Hb]. rewrite Hz in *.
    assert (coords_ok s1) as Hc1.
    { split; change (lines s1) with (lines s); rewrite ?Hz.
      - constructor.
      - done.
      - exact Hst.
      - change (screen_row_origin s0 = screen_row_origin s0 + N.of_nat 0)%N. lia.
      - change (screen_row_origin s1) with (screen_row_origin s0). rewrite Es0. lia. }
    assert (pushed [row] s s1) as Hp.
    { split; [done|]. change (screen_row_origin s1) with (screen_row_origin s0). split; [rewrite Es0; done|].
      exists 1. unfold rows_of. change (lines s1) with (lines s). rewrite Hz. cbn [map concat app drop].
      split_and!; [done| |done]. change (content_row_origin s1) with (screen_row_origin s0).
      change (total_rows []) with 0 in Hsc. lia. }
    assert (charged_bytes s = total_charge [] -> scrollback_ok s1) as Hs1.
    { intros Hex. split; [done|..]; change (charged_bytes s1) with (charged_bytes s); rewrite Hex;
        change (lines s1) with (lines s); rewrite ?Hz; [done|]. change (total_charge []) with 0%N. lia. }
    case_match; [|by split; [|split; [|intros; apply Hs1]]].
    split; [by destruct Hc1|]. split; [done|]. intros Hex _. destruct (Hs1 Hex) as [[] ? ?]. done.
  - destruct (with_open_line_spec s0) as (fr & l & Hx). rewrite (extends_last _ _ _ _ Hx). cbn [mbind option_bind].
    pose proof (push_unlimited row s fr l Hc Hmax Hx) as H. cbv zeta in H. cbn [set_field] in H. fold s0 in H.
    set (l' := append_row row _ _ l) in *. set (s2 := replace_last l l' (with_open_line s0)) in *.
    destruct H as (H1 & H2 & H3 & H4 & H5 & H6).
    destruct (enforce_limit_spec s2 H1) as (s3 & -> & C1 & C2 & C3 & (k & C4 & C5 & C6) & C7).
    cbn [mbind option_bind]. eexists. split; [done|].
    assert (pushed [row] s s3) as Hp.
    { split; [congruence|]. split; [rewrite C3, H4; done|]. exists k. rewrite C4, C5, H2, H5 in *. done. }
    assert (charged_bytes s = total_charge (lines s) -> push_fits row s -> scrollback_ok s3) as Hs3.
    { intros Hex [_ Hfit]. unfold push_charge in Hfit. cbn [set_field] in Hfit. fold s0 in Hfit. rewrite (extends_last _ _ _ _ Hx) in Hfit.
      destruct C7 as [D1 D2]; [by apply H6|]. by split. }
    case_match; [|done].
    split; [by destruct C1|]. split; [done|]. intros Hex Hfit.
    destruct (Hs3 Hex Hfit) as [[] ? ?]. done.
Qed.
End Invariant.
