(* ===== verification/HistoryKeep.v ===== *)
(** * What the byte limit of the scrollback drops

    [retention] says exactly what a history keeps of its lines when a row is
    added: the fewest oldest lines go that have to, and a single unfinished line
    that is too large by itself is cut down, row by row, to half of the limit.
    The lemmas show that [push_row] does this. *)

From Stdlib Require Import NArith Bool.
From S2P Require Import Prelude Cell Screen History HistoryRows HistoryInv.

Section Keep.
Context `{P : Platform}.

(** The bytes owned by the cells of rows, and the charge of a line without its
    [i] oldest rows and without spare capacity. *)
Definition rows_owned (rs : list ScreenRow) : N := foldl (fun n row => usize_add n (owned_charge (row_cells row))) 0%N rs.
Definition cost_without (l : LogicalLine) (i : nat) : N :=
  compact_line_charge (N.of_nat (length (line_cells l) - row_start (row_ends l) i)) (N.of_nat (length (row_ends l) - i))
    (cell_owned_bytes l - rows_owned (take i (line_rows l))).

(** The lines right after a row was added to the open line. *)
Definition grown (row : ScreenRow) (s : Scrollback) : list LogicalLine :=
  let s1 := with_open_line (s <| screen_row_origin := u64_add (screen_row_origin s) 1 |>) in
  match list.last (lines s1) with
  | Some l => take (length (lines s1) - 1) (lines s1) ++ [append_row row (limit_bytes s1) (fst <$> active_oversize_line s1) l]
  | None => []
  end.

(** [shrink_to_fit] leaves no spare capacity. *)
Definition shrinks_exactly : Prop := forall cap len, vec_shrunk cap len = len.

Definition cut_down (limit : N) (open : LogicalLine) (r : nat) : Prop :=
  1 <= r <= physical_rows open /\
  (shrinks_exactly -> (forall i, 1 <= i < r -> (limit / 2 < cost_without open i)%N) /\ (r = physical_rows open \/ (cost_without open r <= limit / 2)%N)).

(** With [j] the fewest oldest lines to drop: the rest fits and is kept as it
    is, or it is one open line above the limit, of which the oldest rows go. *)
Definition retention (limit : N) (ls : list LogicalLine) (s' : Scrollback) : Prop :=
  exists j, (forall i, i < j -> (limit < total_charge (drop i ls))%N) /\
    ((total_charge (drop j ls) <= limit)%N /\ lines s' = drop j ls \/
     exists open r, drop j ls = [open] /\ hard_break open = false /\ (limit < line_charged open)%N /\
       cut_down limit open r /\ rows_of s' = drop r (line_rows open)).
Fixpoint retained (rs : list ScreenRow) (s s' : Scrollback) : Prop :=
  match rs with
  | [] => s' = s
  | row :: rs' => exists s1, push_row row s = Some s1 /\
      (if (limit_bytes s =? 0)%N then lines s1 = [] else retention (limit_bytes s) (grown row s) s1) /\ retained rs' s1 s'
  end.

(** ** Complete lines *)
Lemma evict_loop_least ls s :
  lines s = ls -> charged_bytes s = total_charge ls -> closed_but_last ls ->
  exists j, lines (evict_loop ls s) = drop j ls /\ charged_bytes (evict_loop ls s) = total_charge (drop j ls) /\
    limit_bytes (evict_loop ls s) = limit_bytes s /\ (forall i, i < j -> (limit_bytes s < total_charge (drop i ls))%N) /\
    ((total_charge (drop j ls) <= limit_bytes s)%N \/ exists open, drop j ls = [open] /\ hard_break open = false /\ (limit_bytes s < line_charged open)%N).
Proof.
  revert s. induction ls as [|l ls IH]; intros s Hls Hch Hcl; cbn [evict_loop].
  - exists 0. rewrite Hls. split_and!; try done; [lia|]. left. change (total_charge (drop 0 [])) with 0%N. lia.
  - destruct (_ <=? _)%N eqn:E; bools.
    { exists 0. rewrite Hls. split_and!; try done; [lia|]. left. cbn [drop]. lia. }
    destruct (hard_break l) eqn:Eh; cbn [negb].
    + assert (total_charge (l :: ls) = line_charged l + total_charge ls)%N as Et by done.
      set (s1 := _ <| content_row_origin := _ |>). destruct (IH s1) as (j & A1 & A2 & A3 & A4 & A5); [done|unfold s1; cbn; lia|apply Hcl|].
      exists (S j). cbn [drop]. change (limit_bytes s1) with (limit_bytes s) in *. split_and!; try done. intros [|i] Hi; cbn [drop]; [lia|]. apply A4. lia.
    + exists 0. rewrite Hls. split_and!; try done; [lia|]. right. exists l. destruct ls as [|l2 ls]; [|by rewrite (proj1 Hcl) in Eh].
      destruct (total_one l) as [_ Et]. split_and!; [done..|lia].
Qed.

(** ** The rows of an open line *)
Context `{L : !PlatformLaws P}.

Lemma rows_owned_snoc rs row : rows_owned (rs ++ [row]) = usize_add (rows_owned rs) (owned_charge (row_cells row)).
Proof. unfold rows_owned. by rewrite foldl_app. Qed.

Lemma line_row_cells l rows e : line_ok l -> rows < physical_rows l -> row_ends l !! rows = Some e ->
  exists row, line_rows l !! rows = Some row /\ slice (line_cells l) (end_of 0 (row_ends l) rows) e = Some (row_cells row).
Proof.
  intros Hl Hr He. pose proof (line_physical_row_spec l rows Hl) as H. rewrite line_rows_lookup by done. unfold line_physical_row in H. rewrite He, row_start_end_of in H.
  destruct (slice _ _ _) as [cs|] eqn:E; [|done]. cbn [mbind option_bind] in H. rewrite line_rows_lookup in H by done. rewrite (proj2 (Nat.ltb_lt _ _) Hr) in *.
  eexists. split; [done|]. cbn in *. congruence.
Qed.

Lemma trim_loop_least fuel l target rows :
  line_ok l -> rows + fuel = physical_rows l ->
  exists rows', trim_loop fuel l target rows (end_of 0 (row_ends l) rows) (rows_owned (take rows (line_rows l))) =
      Some (rows', end_of 0 (row_ends l) rows', rows_owned (take rows' (line_rows l))) /\
    rows <= rows' <= physical_rows l /\ (forall i, rows <= i < rows' -> 1 <= i -> (target < cost_without l i)%N) /\
    (rows' = physical_rows l \/ (cost_without l rows' <= target)%N).
Proof.
  intros Hl. revert rows. induction fuel as [|fuel IH]; intros rows Hf; cbn [trim_loop].
  { exists rows. split_and!; [done|lia|lia|lia|left; lia]. }
  rewrite (proj2 (Nat.ltb_lt _ _)) by lia. cbn [negb]. rewrite <- row_start_end_of.
  change (compact_line_charge _ _ _) with (cost_without l rows).
  destruct (_ && _) eqn:E.
  - exists rows. rewrite row_start_end_of. bools. split_and!; [done|lia|lia|lia|right; lia].
  - pose proof Hl as [Hp _]. destruct (lookup_lt_is_Some_2 (row_ends l) rows) as [e He]; [lia|]. rewrite He. cbn [mbind option_bind].
    destruct (line_row_cells l rows e Hl ltac:(lia) He) as (row & Hrow & Hs). rewrite row_start_end_of, Hs. cbn [mbind option_bind].
    rewrite <- rows_owned_snoc, <- (take_S_r _ _ _ Hrow). assert (end_of 0 (row_ends l) (S rows) = e) as Ee by (cbn; by rewrite He). rewrite <- Ee.
    destruct (IH (S rows)) as (rows' & A1 & A2 & A3 & A4); [lia|]. exists rows'. split_and!; [done|lia|lia| |done].
    intros i Hi Hpos. destruct (decide (i = rows)) as [->|]; [|apply A3; lia]. apply andb_false_iff in E as [E|E]; [bools; lia|].
    apply orb_false_iff in E as [E _]. bools. lia.
Qed.

Lemma trim_front_least target l charged :
  shrinks_exactly -> line_ok l -> line_charge_ok l -> 1 <= physical_rows l -> (target < line_charged l)%N ->
  exists l' r ch, trim_front (physical_rows l) target l 0 charged = Some (l', r, ch) /\ 1 <= r <= physical_rows l /\
    (forall i, 1 <= i < r -> (target < cost_without l i)%N) /\ (r = physical_rows l \/ (cost_without l r <= target)%N).
Proof.
  intros Hx Hl Hc Hp Ht. destruct (physical_rows l) as [|n] eqn:En; [lia|]. cbn [trim_front]. rewrite En, (proj2 (N.ltb_lt _ _)) by done. cbn [andb Nat.ltb Nat.leb].
  destruct (trim_spec target l Hl Hc) as (k & l1 & Et & A1 & A2 & _ & A4 & _ & _ & _ & A8). rewrite Et. cbn [mbind option_bind].
  assert (1 <= k) as Hk by (apply A8; [done|lia]). rewrite (proj2 (Nat.eqb_neq k 0)) by lia.
  destruct (trim_loop_least (physical_rows l) l target 0 Hl) as (k' & B1 & B2 & B3 & B4); [lia|]. cbn [end_of] in B1. rewrite take_0 in B1. change (rows_owned []) with 0%N in B1.
  unfold trim_oldest_physical_rows_to in Et. rewrite B1 in Et. cbn [mbind option_bind] in Et.
  destruct (k' =? 0) eqn:E0; [injection Et as <- _; lia|]. destruct (_ || _ || _); [done|]. injection Et as -> El1.
  assert (line_charged l1 = cost_without l k) as Ec.
  { rewrite <- El1. cbn. unfold cost_without. unfold shrinks_exactly in Hx. rewrite !Hx. rewrite length_map, !length_drop. by destruct k. }
  assert ((target <? line_charged l1)%N && (0 <? physical_rows l1) = false) as Ef.
  { rewrite Ec. destruct B4 as [B4|B4]; [|by rewrite (proj2 (N.ltb_ge _ _)) by done]. replace (physical_rows l1) with 0 by lia. apply andb_false_r. }
  exists l1, k. eexists. split; [cbn [Nat.add]; destruct n; cbn [trim_front]; [|rewrite Ef]; done|]. rewrite En in *. split_and!; [lia|lia| |done]. intros i Hi. apply B3; lia.
Qed.

(** ** Enforcing the limit *)
Lemma trim_front_some target l charged l' r ch :
  trim_front (physical_rows l) target l 0 charged = Some (l', r, ch) -> line_ok l -> line_charge_ok l -> 1 <= physical_rows l -> (target < line_charged l)%N -> 1 <= r.
Proof.
  intros E Hl Hc Hp Ht. destruct (physical_rows l) as [|n] eqn:En; [lia|]. cbn [trim_front] in E. rewrite En, (proj2 (N.ltb_lt _ _)) in E by done. cbn [andb Nat.ltb Nat.leb] in E.
  destruct (trim_spec target l Hl Hc) as (k & l1 & Et & A1 & A2 & _ & A4 & _ & _ & _ & A8). rewrite Et in E. cbn [mbind option_bind] in E.
  assert (1 <= k) by (apply A8; [done|lia]). rewrite (proj2 (Nat.eqb_neq k 0)) in E by lia.
  destruct (trim_front_spec n target l1 (0 + k) (charged - (line_charged l - line_charged l1))%N A1 A2) as (l2 & k2 & ch2 & E2 & _); [lia|]. rewrite E in E2. injection E2 as _ -> _. lia.
Qed.

Lemma trim_open_line_cuts s l :
  line_good l -> lines s = [l] -> (limit_bytes s < line_charged l)%N ->
  exists s' r, trim_open_line l s = Some s' /\ cut_down (limit_bytes s) l r /\ rows_of s' = drop r (line_rows l).
Proof.
  intros (Hlo & Hlc & Hl1) Hls Hlt. assert (limit_bytes s / 2 <= limit_bytes s)%N as Hhalf by (apply N.Div0.div_le_upper_bound; lia).
  destruct (trim_front_spec (physical_rows l) (limit_bytes s / 2) l 0 (charged_bytes s)) as (l' & k & ch & E & _ & _ & B3 & B4 & _ & _ & _ & B9); [done..|].
  unfold trim_open_line. rewrite E. cbn [mbind option_bind Nat.add]. eexists _, k. split; [done|]. split.
  - assert (1 <= k) as Hk by (eapply (trim_front_some _ _ _ _ _ _ E); done || lia).
    split; [lia|]. intros Hx. destruct (trim_front_least (limit_bytes s / 2) l (charged_bytes s) Hx Hlo Hlc Hl1) as (l2 & r & ch2 & E2 & C1 & C2 & C3); [lia|].
    rewrite E in E2. injection E2 as _ -> _. done.
  - set (s1 := _ <| line_row_starts := _ |>). destruct (note_oversize_fields l' k s1) as (F1 & _). rewrite <- B3. unfold rows_of. destruct (physical_rows l' =? 0) eqn:Ez; bools; cbn; rewrite F1; unfold s1; cbn; rewrite Hls; cbn; [|apply app_nil_r].
    symmetry. apply nil_length_inv. rewrite B3, length_drop, length_line_rows. destruct Hlo as [<- _]. lia.
Qed.

Lemma enforce_limit_keeps s :
  coords_ok s -> charged_bytes s = total_charge (lines s) -> exists s', enforce_limit s = Some s' /\ retention (limit_bytes s) (lines s) s'.
Proof.
  intros Hc Hex. unfold enforce_limit, evict_complete_lines. destruct (evict_loop_spec (lines s) s eq_refl Hc) as ([Hg _ _ _ _] & _).
  destruct (evict_loop_least (lines s) s eq_refl Hex (co_closed _ Hc)) as (j & A1 & A2 & A3 & A4 & A5). rewrite A2, A3.
  destruct (_ <=? _)%N eqn:E; bools; [eexists; split; [done|]; exists j; split; [done|]; left; split; [lia|done]|].
  destruct A5 as [A5|(open & A5 & A6 & A7)]; [lia|]. rewrite A1, A5 in *. apply Forall_cons_iff in Hg as [Hg _].
  destruct (trim_open_line_cuts (evict_loop (lines s) s) open) as (s' & r & E' & Hr & Hrows); [done|done|by rewrite A3|]. rewrite A3 in Hr.
  exists s'. split; [done|]. exists j. split; [done|]. right. exists open, r. by rewrite A5.
Qed.

Lemma retention_lines limit ls s s' : lines s' = lines s -> retention limit ls s -> retention limit ls s'.
Proof. unfold retention, rows_of. by intros ->. Qed.

Lemma push_row_keeps row s :
  scrollback_ok s -> push_fits row s -> (limit_bytes s <> 0)%N -> exists s', push_row row s = Some s' /\ retention (limit_bytes s) (grown row s) s'.
Proof.
  intros [Hc Hex _] [Hmax Hfit] Hz. unfold push_row, grown, push_charge in *. cbn [limit_bytes set_field set_screen_row_origin] in *. rewrite (proj2 (N.eqb_neq _ _) Hz).
  set (s0 := set_screen_row_origin _ s) in *. destruct (with_open_line_spec s0) as (fr & l & Hx). rewrite (extends_last _ _ _ _ Hx) in *. cbn [mbind option_bind].
  pose proof (push_unlimited row s fr l Hc Hmax Hx) as H. cbv zeta in H. cbn [set_field] in H. fold s0 in H. set (l' := append_row row _ _ l) in *.
  set (s2 := replace_last l l' (with_open_line s0)) in *. destruct H as (H1 & _ & H3 & _ & _ & H6). destruct (enforce_limit_keeps s2 H1) as (s3 & -> & Hk); [by apply H6|].
  cbn [mbind option_bind]. eexists. split; [done|]. rewrite <- H3. eapply retention_lines; [|exact Hk]. by case_match.
Qed.
End Keep.
