(* ===== verification/HistorySpec.v ===== *)
(** * What the history promises

    The retained rows are always the newest rows pushed; looking a row up by
    its coordinate finds it; reflow keeps every cell and every line break and
    never separates the halves of a wide glyph; an anchor captured before a
    reflow names the same cell after it. *)

From Stdlib Require Import NArith Bool.
From S2P Require Import Prelude Cell Screen History HistoryRows HistoryInv HistoryKeep.

Section Lookup.
Context `{P : Platform}.

(** ** The binary search *)
Lemma starts_from_bound o ls i st : starts_from o ls !! i = Some st -> (o <= st)%N.
Proof.
  revert o i. induction ls as [|l ls IH]; intros o i H; [done|]. destruct i as [|i]; cbn in H; [simplify_eq; lia|].
  apply IH in H. lia.
Qed.

Lemma starts_from_mono o ls i j a b :
  starts_from o ls !! i = Some a -> starts_from o ls !! j = Some b -> i <= j -> (a <= b)%N.
Proof.
  revert o i j. induction ls as [|l ls IH]; intros o i j Hi Hj Hij; [done|].
  destruct i as [|i]; cbn in Hi.
  - simplify_eq. by eapply starts_from_bound.
  - destruct j as [|j]; [lia|]. cbn in Hj. eapply IH; [done..|lia].
Qed.

Lemma search_loop_spec fuel o ls target low high :
  let starts := starts_from o ls in
  low <= high <= length starts -> high - low <= fuel ->
  (forall i st, starts !! i = Some st -> i < low -> (st <= target)%N) ->
  (forall i st, starts !! i = Some st -> high <= i -> (target < st)%N) ->
  exists r, search_loop fuel starts target low high = Some r /\ r <= length starts /\
    (forall i st, starts !! i = Some st -> i < r -> (st <= target)%N) /\
    (forall i st, starts !! i = Some st -> r <= i -> (target < st)%N).
Proof.
  intros starts. revert low high. induction fuel as [|fuel IH]; intros low high Hb Hf Hlo Hhi; cbn [search_loop].
  - exists low. split_and!; [done|lia|done|]. intros i st Hi Hl. apply (Hhi i); [done|lia].
  - destruct (low <? high) eqn:E; bools.
    + pose proof (Nat.Div0.div_le_upper_bound (high - low) 2 (high - low) ltac:(lia)).
      assert ((high - low) / 2 < high - low) by (apply Nat.div_lt; lia).
      set (mid := low + (high - low) / 2) in *.
      destruct (lookup_lt_is_Some_2 starts mid) as [st Hst]; [lia|]. rewrite Hst. cbn [mbind option_bind].
      destruct (st <=? target)%N eqn:Ec.
      * apply IH; [lia|lia| |done]. intros i st' Hi Hl.
        assert (st' <= st)%N by (eapply starts_from_mono; [exact Hi|exact Hst|lia]). lia.
      * apply IH; [lia|lia|done|]. intros i st' Hi Hl.
        assert (st <= st')%N by (eapply starts_from_mono; [exact Hst|exact Hi|lia]). lia.
    + exists low. split_and!; [done|lia|done|]. intros i st Hi Hl. apply (Hhi i); [done|lia].
Qed.

(** The retained row at a coordinate is in the last line that starts there or
    before. *)
Lemma rows_at o ls i st target l :
  Forall line_good ls ->
  starts_from o ls !! i = Some st -> ls !! i = Some l -> (st <= target)%N ->
  (forall st', starts_from o ls !! S i = Some st' -> (target < st')%N) ->
  concat (map line_rows ls) !! N.to_nat (target - o) = line_rows l !! N.to_nat (target - st).
Proof.
  intros Hg. revert o i. induction Hg as [|x ls ([Hp _] & _) Hg IH]; intros o i Hst Hl Hle Hnext; [done|].
  pose proof (length_line_rows x) as Hx. destruct i as [|i]; cbn in Hst, Hl, Hnext |- *.
  - simplify_eq. destruct ls as [|y ls]; cbn in *; [by rewrite app_nil_r|].
    specialize (Hnext _ eq_refl). rewrite lookup_app_l by lia. done.
  - pose proof (starts_from_bound _ _ _ _ Hst).
    rewrite lookup_app_r by lia. rewrite <- (IH (o + N.of_nat (physical_rows x))%N i) by done. f_equal. lia.
Qed.

Lemma find_row_spec s row :
  coords_ok s -> (content_row_origin s + N.of_nat row <= u64_max)%N ->
  exists found, find_row s (content_row_origin s + N.of_nat row) = Some found /\
    match found with
    | None => lines s = []
    | Some (i, l, local) => lines s !! i = Some l /\ line_good l /\ rows_of s !! row = line_rows l !! local
    end.
Proof.
  intros [Hg _ Hst _ _] Hmax. unfold find_row, line_index_for_absolute_row. rewrite Hst.
  destruct (_ =? 0) eqn:E0; bools.
  { exists None. split; [done|]. rewrite length_starts_from in E0. by apply nil_length_inv. }
  destruct (search_loop_spec (length (starts_from (content_row_origin s) (lines s))) (content_row_origin s) (lines s)
    (content_row_origin s + N.of_nat row) 0 (length (starts_from (content_row_origin s) (lines s)))) as (r & -> & Hr & Hlo & Hhi);
    [lia|lia|lia| |].
  { intros i st Hi Hl. apply lookup_lt_Some in Hi. lia. }
  cbn [mbind option_bind]. destruct r as [|i].
  - exfalso. destruct (lookup_lt_is_Some_2 (starts_from (content_row_origin s) (lines s)) 0) as [st H0]; [lia|].
    pose proof (Hhi 0 st H0 ltac:(lia)). destruct (lines s); [done|]. cbn in H0. simplify_eq. lia.
  - rewrite length_starts_from in *. destruct (lookup_lt_is_Some_2 (lines s) i) as [l Hl]; [lia|].
    destruct (lookup_lt_is_Some_2 (starts_from (content_row_origin s) (lines s)) i) as [st Hi]; [rewrite length_starts_from; lia|].
    rewrite Hl, Hi. cbn [mbind option_bind]. eexists. split; [done|]. split; [done|].
    split; [by eapply Forall_lookup_1|].
    rewrite <- (rows_at (content_row_origin s) (lines s) i st _ l); try done.
    + f_equal. lia.
    + apply (Hlo i); [done|lia].
    + intros st2 H2. by apply (Hhi (S i)).
Qed.

(** In a well-formed history, [physical_row] and
    [physical_row_soft_wrapped], which binary-search the line starts, never
    panic and return exactly the cells and the wrap flag of the [row]-th
    retained row, and nothing past the last one. *)
Theorem history_lookup_finds_the_row s row :
  coords_ok s -> (content_row_origin s + N.of_nat row <= u64_max)%N ->
  physical_row s row = Some (row_cells <$> rows_of s !! row) /\
  physical_row_soft_wrapped s row = Some (soft_wrapped <$> rows_of s !! row) /\
  (total_physical_rows s <= row -> physical_row s row = Some None).
Proof.
  intros Hc Hmax. destruct (find_row_spec s row Hc Hmax) as (found & E & H).
  assert (u64_add (content_row_origin s) (N.of_nat row) = content_row_origin s + N.of_nat row)%N as Eu.
  { unfold u64_add, saturating_add. lia. }
  assert (physical_row s row = Some (row_cells <$> rows_of s !! row)) as E1.
  { unfold physical_row. rewrite Eu, E. cbn [mbind option_bind]. destruct found as [[[i l] local]|].
    - destruct H as (_ & (Hok & _) & ->). by apply line_physical_row_spec.
    - unfold rows_of. by rewrite H. }
  split; [done|]. split.
  - unfold physical_row_soft_wrapped. rewrite Eu, E. cbn [mbind option_bind]. destruct found as [[[i l] local]|].
    + destruct H as (_ & (Hok & _) & ->). f_equal. by apply line_soft_wrapped_spec.
    + unfold rows_of. by rewrite H.
  - intros Hle. rewrite E1. unfold total_physical_rows in Hle. destruct Hc as [Hg _ _ Hsc _].
    rewrite lookup_ge_None_2; [done|]. unfold rows_of. rewrite length_rows_of by done. lia.
Qed.
End Lookup.

(** ** Reflow *)
Section Reflow.
Context (columns : nat) (Hcols : 2 <= columns).

(** No boundary falls between the halves of a wide glyph. *)
Definition cut_ok (cs : list Cell) (e : nat) : Prop :=
  ~ (width <$> cs !! (e - 1) = Some Double /\ width <$> cs !! e = Some Continuation /\ 0 < e).

(** Every row has at most [columns] cells. *)
Fixpoint segments_fit (prev : nat) (ends : list nat) : Prop :=
  match ends with
  | [] => True
  | e :: ends' => e - prev <= columns /\ segments_fit e ends'
  end.

(** One step of the loop, whatever the unit: the row goes on or a new one
    starts at [index]. *)
Lemma reflow_step unit rest all index used pre :
  1 <= unit <= 2 -> used <= index -> used <= columns -> all = pre ++ rest -> length pre = index ->
  unit <= length rest -> cut_ok all index ->
  (forall used', used' = unit \/ used' = used + unit -> used' <= columns ->
     let ends := reflow_loop columns (drop unit rest) (index + unit) used' ++ [length all] in
     ends_ok (index + unit - used') ends (length all) /\ segments_fit (index + unit - used') ends /\
     Forall (cut_ok all) ends) ->
  let ends := (if (0 <? used) && (columns <? used + unit)
               then index :: reflow_loop columns (drop unit rest) (index + unit) unit
               else reflow_loop columns (drop unit rest) (index + unit) (used + unit)) ++ [length all] in
  ends_ok (index - used) ends (length all) /\ segments_fit (index - used) ends /\ Forall (cut_ok all) ends.
Proof.
  intros Hu Hui Huc Hall Hpre Hlen Hcut H. destruct (_ && _) eqn:E; cbn zeta.
  - destruct (H unit) as (H1 & H2 & H3); [by left|lia|]. replace (index + unit - unit) with index in * by lia.
    cbn [app ends_ok segments_fit]. split_and!; [lia|done|lia|done|by constructor].
  - apply andb_false_iff in E. destruct (H (used + unit)) as (H1 & H2 & H3); [by right|bools; destruct E; bools; lia|].
    replace (index + unit - (used + unit)) with (index - used) in * by lia. done.
Qed.

Lemma cut_after_unit all index unit c :
  all !! (index + unit - 1) = Some c -> width c <> Double -> 1 <= unit -> cut_ok all (index + unit).
Proof. intros Hc Hw Hu (H & _). rewrite Hc in H. cbn in H. congruence. Qed.

Lemma reflow_loop_spec n cs index used pre :
  length cs <= n -> used <= index -> used <= columns -> length pre = index ->
  cut_ok (pre ++ cs) index ->
  let ends := reflow_loop columns cs index used ++ [length (pre ++ cs)] in
  ends_ok (index - used) ends (length (pre ++ cs)) /\ segments_fit (index - used) ends /\
  Forall (cut_ok (pre ++ cs)) ends.
Proof.
  revert cs index used pre. induction n as [|n IH]; intros cs index used pre Hn Hui Huc Hpre Hcut.
  - destruct cs; [|cbn in Hn; lia]. cbn. rewrite app_nil_r in *. rewrite Hpre. split_and!; [lia|done|lia|done|].
    constructor; [done|constructor].
  - destruct cs as [|c cs].
    { cbn. rewrite app_nil_r in *. rewrite Hpre. split_and!; [lia|done|lia|done|]. constructor; [done|constructor]. }
    assert (forall unit (x : Cell) rest2, drop unit (c :: cs) = rest2 -> 1 <= unit <= length (c :: cs) ->
      (c :: cs) !! (unit - 1) = Some x -> (width x <> Double \/ forall y, rest2 !! 0 = Some y -> width y <> Continuation) ->
      forall used', used' <= index + unit -> used' <= columns ->
      let ends := reflow_loop columns (drop unit (c :: cs)) (index + unit) used' ++ [length (pre ++ c :: cs)] in
      ends_ok (index + unit - used') ends (length (pre ++ c :: cs)) /\ segments_fit (index + unit - used') ends /\
      Forall (cut_ok (pre ++ c :: cs)) ends) as Hrec.
    { intros unit x rest2 <- Hu Hx Hw used' Hu1 Hu2.
      assert (pre ++ c :: cs = (pre ++ take unit (c :: cs)) ++ drop unit (c :: cs)) as Eq by (by rewrite <- app_assoc, take_drop).
      rewrite Eq. apply IH.
      - rewrite length_drop. cbn [length] in *. lia.
      - lia.
      - done.
      - rewrite length_app, length_take. lia.
      - rewrite <- Eq. intros (Hd & Hc & _). destruct Hw as [Hw|Hw].
        + rewrite lookup_app_r in Hd by lia. replace (index + unit - 1 - length pre) with (unit - 1) in Hd by lia.
          rewrite Hx in Hd. cbn in Hd. congruence.
        + rewrite Eq, lookup_app_r in Hc by (rewrite length_app, length_take; lia).
          rewrite length_app, length_take in Hc. replace (index + unit - (length pre + unit `min` length (c :: cs))) with 0 in Hc by lia.
          destruct (drop unit (c :: cs) !! 0) as [y|] eqn:Ey; [|done]. cbn in Hc. apply (Hw y); congruence. }
    assert (forall x, (width c <> Double \/ forall y, cs !! 0 = Some y -> width y <> Continuation) -> x = 1 ->
      let ends := (if (0 <? used) && (columns <? used + 1) then index :: reflow_loop columns cs (index + 1) 1
                   else reflow_loop columns cs (index + 1) (used + 1)) ++ [length (pre ++ c :: cs)] in
      ends_ok (index - used) ends (length (pre ++ c :: cs)) /\ segments_fit (index - used) ends /\
      Forall (cut_ok (pre ++ c :: cs)) ends) as Hone.
    { intros x Hw _. apply (reflow_step 1 (c :: cs) (pre ++ c :: cs) index used pre); try done; [lia|cbn; lia|].
      intros used' Hu1 Hu2. apply (Hrec 1 c cs); cbn; try done; lia. }
    cbn [reflow_loop]. destruct (width c) eqn:Ew; [by apply (Hone 1); [left|]| |by apply (Hone 1); [left|]].
    destruct cs as [|c2 cs]; [by apply (Hone 1); [right|]|].
    destruct (is_continuation c2) eqn:E2.
    + apply (reflow_step 2 (c :: c2 :: cs) (pre ++ c :: c2 :: cs) index used pre); try done; [lia|cbn; lia|].
      intros used' Hu1 Hu2. apply (Hrec 2 c2 cs); cbn; try done; [lia| |lia].
      left. unfold is_continuation in E2. by destruct (width c2).
    + apply (Hone 1); [|done]. right. intros y [= <-]. unfold is_continuation in E2. by destruct (width c2).
Qed.

Lemma concat_row_slices prev ends cs :
  ends_ok prev ends (length cs) -> concat (row_slices prev ends cs) = drop prev cs.
Proof.
  revert prev. induction ends as [|e ends IH]; intros prev H; cbn in *.
  - subst. by rewrite drop_all.
  - destruct H as [Hp H]. rewrite IH by done. rewrite <- (take_drop (e - prev) (drop prev cs)) at 2.
    rewrite drop_drop. do 2 f_equal. lia.
Qed.

Context `{P : Platform}.

(** What reflow does to a line. *)
Definition reflowed_line (l l' : LogicalLine) : Prop :=
  line_cells l' = line_cells l /\ hard_break l' = hard_break l /\ line_id l' = line_id l /\
  trimmed_offset l' = trimmed_offset l /\ line_ok l' /\ 1 <= physical_rows l' /\
  segments_fit 0 (row_ends l') /\ Forall (cut_ok (line_cells l)) (row_ends l').

Lemma reflow_line_spec l : reflowed_line l (reflow_line columns l).
Proof.
  unfold reflowed_line, reflow_line. replace (Nat.max columns 1) with columns by lia.
  cbn. do 4 (split; [done|]). destruct (length (line_cells l) =? 0) eqn:E; bools.
  - cbn. unfold line_ok. cbn. rewrite E. split_and!; try done; try lia. constructor; [|constructor].
    intros (_ & _ & H). lia.
  - destruct (reflow_loop_spec (length (line_cells l)) (line_cells l) 0 0 []) as (H1 & H2 & H3); [done|lia|lia|done| |].
    { intros (_ & _ & H). lia. }
    cbn [app] in *. unfold line_ok. cbn. rewrite length_app. cbn. split_and!; try done. lia.
Qed.
End Reflow.

Section ReflowScrollback.
Context `{P : Platform} `{L : !PlatformLaws P} (columns : nat) (Hcols : 2 <= columns).

Lemma pushes_capacity_bound n : (N.of_nat n <= pushes_capacity n)%N.
Proof.
  destruct n as [|n]; [cbn; lia|]. unfold pushes_capacity. rewrite seq_S, foldl_snoc.
  apply law_vec_grown.
Qed.

Lemma reflow_line_good l : line_good l -> line_good (reflow_line columns l).
Proof.
  intros (_ & (Hc & _ & _) & _). destruct (reflow_line_spec columns Hcols l) as (_ & _ & _ & _ & Hok & Hp & _).
  split; [done|]. split; [|done]. unfold reflow_line. cbn. split_and!; [done|apply pushes_capacity_bound|done].
Qed.

Lemma reflow_lines_spec ls starts charged cursor :
  length starts = length ls ->
  (cursor + N.of_nat (total_rows (map (reflow_line columns) ls)) <= u64_max)%N ->
  exists ch, reflow_lines columns ls starts charged cursor =
    (map (reflow_line columns) ls, starts_from cursor (map (reflow_line columns) ls), ch,
     (cursor + N.of_nat (total_rows (map (reflow_line columns) ls)))%N).
Proof.
  revert starts charged cursor. induction ls as [|l ls IH]; intros [|st starts] charged cursor Hl Hm; try done.
  - exists charged. cbn. change (total_rows []) with 0. by rewrite N.add_0_r.
  - cbn [map] in *. assert (total_rows (reflow_line columns l :: map (reflow_line columns) ls) =
      physical_rows (reflow_line columns l) + total_rows (map (reflow_line columns) ls)) as Et by done.
    rewrite Et in *. cbn [reflow_lines starts_from].
    assert (u64_add cursor (N.of_nat (physical_rows (reflow_line columns l))) =
      cursor + N.of_nat (physical_rows (reflow_line columns l)))%N as -> by (unfold u64_add, saturating_add; lia).
    destruct (IH starts (usize_add (charged - line_charged l) (line_charged (reflow_line columns l)))
      (cursor + N.of_nat (physical_rows (reflow_line columns l)))%N) as (ch & ->); [cbn in Hl; lia|lia|].
    exists ch. f_equal. lia.
Qed.

Lemma closed_map ls : closed_but_last ls -> closed_but_last (map (reflow_line columns) ls).
Proof.
  induction ls as [|l ls IH]; [done|]. cbn. intros [H1 H2]. split; [|by apply IH].
  intros Hne. cbn. apply H1. by destruct ls.
Qed.

(** The new rows fit the 64-bit row counter. *)
Definition reflow_fits (s : Scrollback) : Prop :=
  (content_row_origin s + N.of_nat (total_rows (map (reflow_line columns) (lines s))) <= u64_max)%N.

Lemma reflow_coords s :
  coords_ok s -> reflow_fits s ->
  coords_ok (reflow columns s) /\ lines (reflow columns s) = map (reflow_line columns) (lines s) /\
  content_row_origin (reflow columns s) = content_row_origin s /\ limit_bytes (reflow columns s) = limit_bytes s.
Proof.
  intros [Hg Hcl Hst Hsc Hb] Hf. unfold reflow.
  destruct (reflow_lines_spec (lines s) (line_row_starts s) (charged_bytes s) (content_row_origin s)) as (ch & ->);
    [rewrite Hst; apply length_starts_from|done|].
  split; [|done]. split; cbn; try done.
  - apply Forall_map. eapply Forall_impl; [|exact Hg]. intros l Hl. by apply reflow_line_good.
  - by apply closed_map.
Qed.

(** ** Anchors *)

(** Row [r], column [c] of the history is cell [off] of line [i]. *)
Definition at_cell (s : Scrollback) (r c i off : nat) : Prop :=
  exists l local, lines s !! i = Some l /\ r = total_rows (take i (lines s)) + local /\
    local < physical_rows l /\ off = row_start (row_ends l) local + c /\
    off < default 0 (row_ends l !! local).

Lemma partition_point_spec {A} (p : A -> bool) l :
  (forall x, take (partition_point p l) l !! x = None \/ exists y, l !! x = Some y /\ p y = true) /\
  (forall y, l !! partition_point p l = Some y -> p y = false) /\ partition_point p l <= length l.
Proof.
  induction l as [|x l (IH1 & IH2 & IH3)]; cbn; [split_and!; [by left|done|lia]|].
  destruct (p x) eqn:E; cbn.
  - split_and!; [|done|lia]. intros [|k]; cbn; [right; by exists x|apply IH1].
  - split_and!; [by left|by intros y [= <-]|lia].
Qed.

Lemma ends_ok_mono prev ends n i j a b :
  ends_ok prev ends n -> ends !! i = Some a -> ends !! j = Some b -> i <= j -> a <= b.
Proof.
  revert prev i j. induction ends as [|e ends IH]; intros prev i j H Hi Hj Hij; [done|]. destruct H as [_ H].
  destruct i as [|i]; cbn in Hi.
  - simplify_eq. destruct j as [|j]; cbn in Hj; [simplify_eq; lia|].
    pose proof (ends_ok_lookup _ _ _ _ _ H Hj). lia.
  - destruct j as [|j]; [lia|]. by eapply (IH e i j); [..|lia].
Qed.

Lemma ends_ok_last ends n : ends_ok 0 ends n -> ends <> [] -> ends !! (length ends - 1) = Some n.
Proof.
  generalize 0 at 1. induction ends as [|e ends IH]; intros prev H Hne; [done|]. destruct H as [_ H].
  destruct ends as [|e2 ends]; [cbn in *; by subst|]. cbn [length] in *.
  replace (S (S (length ends)) - 1) with (S (length ends)) by lia. cbn.
  rewrite <- (IH e H ltac:(done)). f_equal. lia.
Qed.

(** An offset inside a line, located by the row boundaries. *)
Lemma locate_inside l off :
  line_ok l -> off < length (line_cells l) -> 1 <= physical_rows l ->
  exists row col, locate_offset l (trimmed_offset l + N.of_nat off) false = Some (row, col) /\
    row < physical_rows l /\ off = row_start (row_ends l) row + col /\ off < default 0 (row_ends l !! row).
Proof.
  intros [Hp He] Ho H1. unfold locate_offset.
  destruct (_ <? _)%N eqn:E; [lia|].
  replace (N.to_nat (trimmed_offset l + N.of_nat off - trimmed_offset l)) with off by lia.
  rewrite (Nat.min_l off) by lia.
  destruct (partition_point_spec (fun e => e <=? off) (row_ends l)) as (A1 & A2 & A3).
  set (k := partition_point _ _) in *.
  assert (k < length (row_ends l)) as Hk.
  { destruct (decide (k < length (row_ends l))) as [|Hge]; [done|]. exfalso.
    assert (row_ends l <> []) as Hne by (destruct (row_ends l); cbn in *; [lia|done]).
    pose proof (ends_ok_last _ _ He Hne) as Hlast.
    destruct (A1 (length (row_ends l) - 1)) as [Hn|(y & Hy & Hpy)].
    - rewrite lookup_take_lt in Hn by lia. congruence.
    - rewrite Hlast in Hy. simplify_eq. bools. lia. }
  rewrite Nat.min_l by lia. eexists k, _. split; [done|]. split; [lia|].
  destruct (lookup_lt_is_Some_2 (row_ends l) k Hk) as [e Hek]. specialize (A2 e Hek). rewrite Hek. bools. cbn.
  assert (row_start (row_ends l) k <= off).
  { destruct k as [|j]; cbn; [lia|]. destruct (A1 j) as [Hn|(y & Hy & Hpy)].
    - rewrite lookup_take_lt in Hn by lia. destruct (lookup_lt_is_Some_2 (row_ends l) j); [lia|congruence].
    - rewrite Hy. cbn. bools. lia. }
  lia.
Qed.

Lemma total_rows_take ls i l :
  ls !! i = Some l -> total_rows (take i ls) + physical_rows l <= total_rows ls.
Proof.
  intros H. rewrite <- (take_drop_middle ls i l H) at 2. rewrite total_rows_app.
  change (total_rows (l :: drop (S i) ls)) with (physical_rows l + total_rows (drop (S i) ls)). lia.
Qed.

Lemma starts_from_lookup o ls i :
  i < length ls -> starts_from o ls !! i = Some (o + N.of_nat (total_rows (take i ls)))%N.
Proof.
  revert o i. induction ls as [|l ls IH]; intros o i Hi; cbn in *; [lia|].
  destruct i as [|i]; cbn; [change (total_rows []) with 0; f_equal; lia|].
  rewrite IH by lia. f_equal.
  change (total_rows (l :: take i ls)) with (physical_rows l + total_rows (take i ls)). lia.
Qed.

(** The row's line is the one the binary search finds. *)
Lemma find_row_at s i l local :
  coords_ok s -> lines s !! i = Some l -> local < physical_rows l ->
  find_row s (content_row_origin s + N.of_nat (total_rows (take i (lines s)) + local)) = Some (Some (i, l, local)).
Proof.
  intros [Hg _ Hst _ _] Hl Hlocal. unfold find_row, line_index_for_absolute_row. rewrite Hst.
  pose proof (lookup_lt_Some _ _ _ Hl) as Hi. rewrite length_starts_from, (proj2 (Nat.eqb_neq _ _)) by lia.
  set (target := (content_row_origin s + _)%N).
  destruct (search_loop_spec (length (lines s)) (content_row_origin s) (lines s) target 0 (length (lines s)))
    as (r & -> & Hr & Hlo & Hhi); rewrite ?length_starts_from; [lia|lia|lia| |].
  { intros j st Hj Hge. apply lookup_lt_Some in Hj. rewrite length_starts_from in Hj. lia. }
  rewrite length_starts_from in Hr. cbn [mbind option_bind].
  assert (r = S i) as ->.
  { destruct (decide (r <= i)) as [Hle|Hgt].
    - pose proof (Hhi i _ (starts_from_lookup _ _ _ Hi) Hle). unfold target in *. lia.
    - destruct (decide (r = S i)) as [|Hne]; [done|]. exfalso.
      assert (S i < length (lines s)) as Hi2 by lia.
      pose proof (Hlo (S i) _ (starts_from_lookup _ _ _ Hi2) ltac:(lia)) as Hle.
      rewrite (take_S_r _ _ _ Hl), total_rows_app in Hle. destruct (total_one l) as [Ht _]. rewrite Ht in Hle.
      unfold target in Hle. lia. }
  rewrite Hl, starts_from_lookup by done. cbn [mbind option_bind]. do 4 f_equal. unfold target. lia.
Qed.

(** C27: an anchor captured for a cell of the history ([line_and_offset_at])
    and resolved after the history has been rewrapped at any width of two
    columns or more ([reflow], then [resolve_anchor]) names the same cell of
    the same logical line, at its new row and column, and that row still shows
    the same content there.  This is how the cursor and selections keep their
    place across a resize. *)
Theorem anchor_survives_reflow s r c i off :
  coords_ok s -> reflow_fits s -> at_cell s r c i off ->
  exists a r' c' x,
    line_and_offset_at s r c = Some (Some a) /\
    resolve_anchor (reflow columns s) a = Some (Some (c', r')) /\
    at_cell (reflow columns s) r' c' i off /\
    (l ← lines s !! i; line_cells l !! off) = Some x /\
    (l ← lines (reflow columns s) !! i; line_cells l !! off) = Some x.
Proof.
  intros Hc Hf (l & local & Hl & Hr & Hlocal & Hoff & Hend).
  destruct (reflow_coords s Hc Hf) as (Hc' & Hls & Ho & _).
  pose proof Hc as [Hg _ _ Hsc Hb]. pose proof (Forall_lookup_1 _ _ _ _ Hg Hl) as ([Hp He] & _ & _).
  destruct (lookup_lt_is_Some_2 (row_ends l) local) as [e Hloc]; [lia|]. rewrite Hloc in Hend. cbn in Hend.
  pose proof (ends_ok_lookup _ _ _ _ _ He Hloc) as Hele.
  set (a := (anchor_for_row l local c) <| line_index_hint := i |>).
  assert (line_and_offset_at s r c = Some (Some a)) as Ea.
  { unfold line_and_offset_at, checked_add. pose proof (total_rows_take _ _ _ Hl).
    rewrite (proj2 (N.leb_le _ _)) by lia. rewrite Hr, (find_row_at s i l local) by done. cbn [mbind option_bind].
    by rewrite (proj2 (Nat.ltb_lt _ _)). }
  assert (offset a = trimmed_offset l + N.of_nat off /\ end_boundary a = false)%N as [Eo Eb].
  { unfold a, anchor_for_row. cbn. rewrite Hloc. cbn. split; [do 2 f_equal; lia|]. apply Nat.leb_gt. lia. }
  assert (lines (reflow columns s) !! i = Some (reflow_line columns l)) as Hl' by (rewrite Hls, list_lookup_fmap, Hl; done).
  destruct (reflow_line_spec columns Hcols l) as (Ecells & _ & Eid & Etr & Hok' & Hp' & _).
  destruct (locate_inside (reflow_line columns l) off) as (row & col & Eloc & Hrow & Hpos & Hin); [done|rewrite Ecells; lia|done|].
  destruct (lookup_lt_is_Some_2 (line_cells l) off) as [x Hx]; [lia|].
  exists a, (total_rows (take i (lines (reflow columns s))) + row), col, x. split; [done|].
  split; [|split; [|split; [by rewrite Hl|rewrite Hl'; cbn [mbind option_bind]; by rewrite Ecells]]].
  - unfold resolve_anchor, anchor_line. change (line_index_hint a) with i. rewrite Hl'.
    change (anchor_line_id a) with (line_id l). rewrite Eid, N.eqb_refl, Hl'. cbn [mbind option_bind].
    rewrite Eb. cbn [andb]. rewrite Etr in Eloc. rewrite Eo, Eloc. destruct Hc' as [_ _ Hst' _ _].
    rewrite Hst', starts_from_lookup by (by eapply lookup_lt_Some). cbn [mbind option_bind].
    rewrite (proj2 (N.ltb_ge _ _)) by lia. do 3 f_equal. lia.
  - by exists (reflow_line columns l), row.
Qed.
End ReflowScrollback.

(** ** Splitting the tail off *)
Section Split.
Context `{P : Platform} `{L : !PlatformLaws P}.

Lemma tail_row_spec l row :
  line_ok l -> row < physical_rows l -> tail_row l row = line_rows l !! row.
Proof.
  intros Hok Hr. unfold tail_row. rewrite line_physical_row_spec by done. cbn [mbind option_bind].
  rewrite line_rows_lookup by done. rewrite (proj2 (Nat.ltb_lt _ _)) by done.
  cbn [fmap option_fmap option_map row_cells mbind option_bind]. do 3 f_equal.
  destruct (row + 1 =? physical_rows l) eqn:E, (row + 1 <? physical_rows l) eqn:E2; bools; done || lia.
Qed.

Lemma tail_rows_spec l a :
  line_ok l -> a <= physical_rows l -> mapM (tail_row l) (range a (physical_rows l)) = Some (drop a (line_rows l)).
Proof.
  intros Hok Ha. apply mapM_Some. apply Forall2_same_length_lookup. split.
  - unfold range. rewrite length_seq, length_drop, length_line_rows. destruct Hok. lia.
  - intros i r x Hr Hx. unfold range in Hr. apply lookup_seq in Hr as [-> Hi]. rewrite lookup_drop in Hx.
    rewrite tail_row_spec by (done || lia). done.
Qed.

Lemma keep_prefix_spec keep l :
  line_good l -> 1 <= keep < physical_rows l ->
  exists l', keep_prefix keep l = Some l' /\ line_good l' /\ line_rows l' = take keep (line_rows l) /\
    physical_rows l' = keep /\ hard_break l' = false /\ (line_charged l' <= line_charged l)%N.
Proof.
  intros ([Hp He] & (Hc1 & Hc2 & Hch) & _) Hk. unfold keep_prefix.
  destruct (lookup_lt_is_Some_2 (row_ends l) (keep - 1)) as [e Hi]; [lia|]. rewrite Hi. cbn [mbind option_bind].
  pose proof (ends_ok_lookup _ _ _ _ _ He Hi) as Hele. rewrite slice_Some by lia. cbn [mbind option_bind].
  assert (end_of 0 (row_ends l) keep = e) as Ee.
  { destruct keep as [|k]; [lia|]. cbn. replace (S k - 1) with k in Hi by lia. by rewrite Hi. }
  pose proof (ends_ok_take _ _ _ keep He ltac:(lia)) as Ht. rewrite Ee in Ht.
  eexists. split; [done|]. cbn. split_and!; try done.
  - split_and!; cbn; [|..].
    + split; cbn; [rewrite length_take; lia|]. rewrite length_take, Nat.min_l by lia. done.
    + unfold line_charge_ok. cbn. rewrite !length_take, !Nat.min_l by lia.
      split_and!; [apply law_vec_shrunk; lia|apply law_vec_shrunk; lia|done].
    + lia.
  - unfold line_rows. cbn. rewrite length_take, Nat.min_l by lia.
    rewrite (row_slices_take 0 (row_ends l) (line_cells l) keep e) by (done || lia).
    rewrite zip_with_take. f_equal. apply list_eq. intros i. rewrite lookup_row_flags.
    destruct (i <? keep) eqn:E; bools.
    + rewrite lookup_take_lt, lookup_row_flags, orb_true_r by lia.
      by rewrite !(proj2 (Nat.ltb_lt _ (length _))) by lia.
    + by rewrite lookup_take_ge by lia.
  - rewrite Hch, !length_take, !Nat.min_l by lia. apply charge_mono; [apply law_vec_shrunk; lia|apply law_vec_shrunk; lia|lia].
Qed.

Lemma total_rows_reverse ls : total_rows (reverse ls) = total_rows ls.
Proof.
  induction ls as [|l ls IH]; [done|]. rewrite reverse_cons, total_rows_app, IH. destruct (total_one l) as [-> _].
  change (total_rows (l :: ls)) with (physical_rows l + total_rows ls). lia.
Qed.

Lemma total_charge_reverse ls : total_charge (reverse ls) = total_charge ls.
Proof.
  induction ls as [|l ls IH]; [done|]. rewrite reverse_cons, total_charge_app, IH. destruct (total_one l) as [_ ->].
  change (total_charge (l :: ls)) with (line_charged l + total_charge ls)%N. lia.
Qed.

Lemma closed_snoc_all xs y :
  closed_but_last (xs ++ [y]) -> closed_but_last xs /\ forall z, closed_but_last (xs ++ [z]).
Proof.
  rewrite closed_but_last_app. intros H. split; [|intros z; by apply closed_but_last_app].
  clear y. induction H; cbn; [done|]. by split.
Qed.

Lemma split_loop_spec o rl rs charged remaining rows :
  Forall line_good rl -> closed_but_last (reverse rl) -> reverse rs = starts_from o (reverse rl) ->
  exists rl' rs' ch' taken, split_loop rl rs charged remaining rows = Some (rl', rs', ch', taken ++ rows) /\
    Forall line_good rl' /\ closed_but_last (reverse rl') /\ reverse rs' = starts_from o (reverse rl') /\
    concat (map line_rows (reverse rl)) = concat (map line_rows (reverse rl')) ++ taken /\
    length taken = Nat.min remaining (total_rows rl) /\
    (charged = total_charge rl -> (total_charge rl <= usize_max)%N -> ch' = total_charge rl' /\ (ch' <= charged)%N).
Proof.
  intros Hg. revert rs charged remaining rows. induction Hg as [|l rl Hl Hg IH]; intros rs charged remaining rows Hcl Hst.
  - exists [], rs, charged, []. change (total_rows []) with 0. rewrite Nat.min_0_r.
    destruct remaining; split_and!; try done; constructor.
  - change (total_rows (l :: rl)) with (physical_rows l + total_rows rl).
    assert (total_charge (l :: rl) = line_charged l + total_charge rl)%N as Etc by done.
    destruct remaining as [|m]; cbn [split_loop].
    { exists (l :: rl), rs, charged, []. split_and!; try done; [by constructor|by rewrite app_nil_r]. }
    rewrite reverse_cons in *. rewrite starts_from_app in Hst. cbn [starts_from] in Hst.
    destruct (closed_snoc_all _ _ Hcl) as [Hcl1 Hcl2].
    assert (exists st rs1, rs = st :: rs1 /\ reverse rs1 = starts_from o (reverse rl) /\
      st = (o + N.of_nat (total_rows (reverse rl)))%N) as (st & rs1 & -> & Hst1 & Est).
    { destruct rs as [|st rs1]; [by destruct (starts_from o (reverse rl))|]. rewrite reverse_cons in Hst.
      apply app_inj_tail in Hst as [? ?]. by exists st, rs1. }
    rewrite map_app, concat_app. cbn [map concat]. rewrite app_nil_r. pose proof Hl as (Hok & _ & Hpos). cbn [tail].
    destruct (physical_rows l <=? S m) eqn:E; bools.
    + rewrite tail_rows_spec by (done || lia). cbn [mbind option_bind drop].
      destruct (IH rs1 (charged - line_charged l)%N (S m - physical_rows l) (line_rows l ++ rows) Hcl1 Hst1)
        as (rl' & rs' & ch' & taken & E1 & A1 & A2 & A3 & A4 & A5 & A6).
      exists rl', rs', ch', (taken ++ line_rows l). rewrite <- app_assoc. split_and!; try done.
      * rewrite A4. by rewrite app_assoc.
      * rewrite length_app, A5, length_line_rows. destruct Hok as [<- _]. lia.
      * intros Hex Hmax. destruct A6; [lia|lia|]. split; [done|lia].
    + rewrite tail_rows_spec by (done || lia). cbn [mbind option_bind].
      destruct (keep_prefix_spec (physical_rows l - S m) l Hl ltac:(lia)) as (l' & -> & B1 & B2 & B3 & B4 & B5).
      cbn [mbind option_bind head]. eexists (l' :: rl), (st :: rs1), _, _. split; [done|].
      split; [by constructor|]. split; [rewrite reverse_cons; apply Hcl2|].
      split; [rewrite !reverse_cons, starts_from_app, Hst1; cbn; by rewrite Est|].
      split; [rewrite reverse_cons, map_app, concat_app; cbn [map concat]; rewrite app_nil_r, B2, <- app_assoc; by rewrite take_drop|].
      split; [rewrite length_drop, length_line_rows; destruct Hok as [<- _]; lia|].
      intros Hex Hmax. assert (total_charge (l' :: rl) = line_charged l' + total_charge rl)%N as -> by done.
      unfold usize_add, saturating_add. lia.
Qed.

(** [split_off_tail count], which a resize uses to take the visible screen
    back out of the history, never panics; it returns exactly the newest
    [count] retained rows (all of them when there are fewer), in order, and
    leaves exactly the rest, inside the byte limit and with its coordinates
    right. *)
Theorem split_off_tail_takes_a_suffix count s :
  scrollback_ok s -> (limit_bytes s <= usize_max)%N ->
  exists rows s', split_off_tail count s = Some (rows, s') /\ scrollback_ok s' /\
    rows_of s = rows_of s' ++ rows /\ length rows = Nat.min count (total_physical_rows s) /\
    content_row_origin s' = content_row_origin s.
Proof.
  intros [[Hg Hcl Hst Hsc Hb] Hex Hlim] Hmax. unfold split_off_tail.
  destruct (split_loop_spec (content_row_origin s) (reverse (lines s)) (reverse (line_row_starts s)) (charged_bytes s) count [])
    as (rl & rs & ch & taken & -> & A1 & A2 & A3 & A4 & A5 & A6);
    [by apply Forall_reverse|by rewrite reverse_involutive|by rewrite !reverse_involutive|].
  rewrite app_nil_r, reverse_involutive, total_rows_reverse, total_charge_reverse in *.
  destruct A6 as [A6 A7]; [done|lia|]. cbn [mbind option_bind].
  assert (total_physical_rows s = total_rows (lines s)) as Etot by (unfold total_physical_rows; lia).
  set (s1 := s <| lines := reverse rl |> <| line_row_starts := reverse rs |> <| charged_bytes := ch |>).
  assert (enforce_limit s1 = Some s1) as ->.
  { unfold enforce_limit, evict_complete_lines. cbn [lines s1 set_field set_lines set_line_row_starts set_charged_bytes].
    assert (forall ls, evict_loop ls s1 = s1) as Hev.
    { intros [|x ls]; cbn [evict_loop]; [done|]. by rewrite (proj2 (N.leb_le _ _)) by (unfold s1; cbn; lia). }
    rewrite Hev. by rewrite (proj2 (N.leb_le _ _)) by (unfold s1; cbn; lia). }
  cbn [mbind option_bind]. eexists taken, _. split; [done|].
  assert (total_rows (lines s) = total_rows rl + length taken) as Et.
  { rewrite <- (length_rows_of (lines s)), A4, length_app, length_rows_of by (done || by apply Forall_reverse).
    by rewrite total_rows_reverse. }
  split; [|split_and!; [done|by rewrite A5, Etot|done]].
  split; [|unfold s1; cbn; by rewrite total_charge_reverse|unfold s1; cbn; lia].
  split; unfold s1; cbn; [by apply Forall_reverse|done|done| |lia].
  rewrite total_rows_reverse. lia.
Qed.
End Split.

(** ** Pushing *)
Section Push.
Context `{P : Platform} `{L : !PlatformLaws P}.

(** Every row of [rs] fits when its turn comes. *)
Fixpoint rows_fit (rs : list ScreenRow) (s : Scrollback) : Prop :=
  match rs with
  | [] => True
  | row :: rs' => push_fits row s /\ from_option (rows_fit rs') True (push_row row s)
  end.

Lemma scrollback_zero s : scrollback_ok s -> limit_bytes s = 0%N -> lines s = [].
Proof.
  intros [[Hg _ _ _ _] Hex Hlim] Hz. destruct (lines s) as [|l ls]; [done|].
  apply Forall_cons_iff in Hg as [(_ & (_ & _ & Hch) & _) _].
  pose proof (charge_positive (cell_capacity l) (row_end_capacity l) (cell_owned_bytes l)).
  assert (total_charge (l :: ls) = line_charged l + total_charge ls)%N by done. lia.
Qed.

Lemma push_rows_spec rs s :
  scrollback_ok s -> rows_fit rs s ->
  exists s', push_rows rs s = Some s' /\ scrollback_ok s' /\ pushed rs s s'.
Proof.
  revert s. induction rs as [|row rs IH]; intros s Hs Hf.
  - exists s. split; [done|]. split; [done|apply pushed_nil].
  - destruct Hf as [Hfit Hf]. pose proof Hs as [Hc Hex _].
    destruct (push_row_spec row s Hc) as (s1 & E1 & _ & Hp & Hok); [apply Hfit|by apply scrollback_zero|].
    rewrite E1 in Hf. destruct (IH s1 (Hok Hex Hfit) Hf) as (s2 & E2 & Hs2 & Hp2).
    exists s2. unfold push_rows in *. cbn [for_each]. rewrite E1. split; [exact E2|]. split; [done|].
    by apply (pushed_app [row] rs s s1 s2).
Qed.

Lemma push_rows_retained rs s s' : scrollback_ok s -> rows_fit rs s -> push_rows rs s = Some s' -> retained rs s s'.
Proof.
  revert s. induction rs as [|row rs IH]; intros s Hs Hf; [by intros [= ->]|]. destruct Hf as [Hfit Hf]. pose proof Hs as [Hc Hex _].
  destruct (push_row_spec row s Hc) as (s1 & E1 & _ & Hp & Hok); [apply Hfit|by apply scrollback_zero|].
  unfold push_rows. cbn [for_each retained]. rewrite E1 in *. cbn [mbind option_bind from_option] in *. intros E. exists s1. split; [done|]. split; [|by apply IH; auto].
  destruct (limit_bytes s =? 0)%N eqn:Ez; bools.
  - apply scrollback_zero; [by auto|]. rewrite (proj1 Hp). by apply N.eqb_eq.
  - destruct (push_row_keeps row s Hs Hfit) as (s2 & E2 & Hk); [lia|]. congruence.
Qed.

Lemma Scrollback_new_ok limit : scrollback_ok (Scrollback_new limit).
Proof. split; [split; cbn; try done; constructor|done|cbn; lia]. Qed.

(** C11: pushing any rows onto a well-formed history never panics; afterwards
    the history is well-formed again and inside its byte limit, what it
    retains is exactly the old rows followed by the new ones less the [k]
    oldest, with their cells and wrap flags, and the row coordinates have
    moved by exactly the rows added and dropped.  No row is dropped that need
    not be ([retained]): each push drops the fewest oldest lines that make the
    rest fit, and keeps that rest unchanged; only when an unfinished line alone
    exceeds the limit does it lose rows of that line, the fewest that bring it
    to half the limit (where shrinking a vector leaves no spare capacity).
    (The rows must fit the 64-bit counters.) *)
Theorem history_keeps_the_newest_rows rs s :
  scrollback_ok s -> rows_fit rs s ->
  exists s' k, push_rows rs s = Some s' /\ scrollback_ok s' /\ (charged_bytes s' <= limit_bytes s)%N /\
    rows_of s' = drop k (rows_of s ++ rs) /\ k <= length (rows_of s ++ rs) /\
    content_row_origin s' = (content_row_origin s + N.of_nat k)%N /\
    screen_row_origin s' = (screen_row_origin s + N.of_nat (length rs))%N /\
    retained rs s s'.
Proof.
  intros Hs Hf. destruct (push_rows_spec rs s Hs Hf) as (s' & E & Hs' & Hl & Hsc & k & Hr & Hc & Hk).
  exists s', k. split_and!; try done; [rewrite <- Hl; apply Hs'|by apply push_rows_retained].
Qed.

(** C18: rewrapping the history at any width of two columns or more keeps every
    logical line: its identity, its cells and its line break; every new row
    has at most [columns] cells, the rows of a line put together are the line
    again, no row boundary separates the two halves of a wide glyph, and the
    row coordinates stay consistent. *)
Theorem reflow_preserves_lines columns s :
  2 <= columns -> coords_ok s -> reflow_fits columns s ->
  coords_ok (reflow columns s) /\
  Forall2 (fun l l' =>
      line_id l' = line_id l /\ line_cells l' = line_cells l /\ hard_break l' = hard_break l /\
      concat (map row_cells (line_rows l')) = line_cells l /\
      Forall (fun row => length (row_cells row) <= columns) (line_rows l') /\
      Forall (cut_ok (line_cells l)) (row_ends l'))
    (lines s) (lines (reflow columns s)).
Proof.
  intros Hcols Hc Hf. destruct (reflow_coords columns Hcols s Hc Hf) as (Hc' & -> & _). split; [done|].
  apply Forall2_fmap_r, Forall_Forall2_diag, Forall_true. intros l. unfold compose.
  destruct (reflow_line_spec columns Hcols l) as (E1 & E2 & E3 & _ & [Hp He] & _ & Hfit & Hcut).
  generalize dependent (reflow_line columns l). intros l' E1 E2 E3 Hp He Hfit Hcut. split_and!; try done.
  - unfold line_rows. assert (map row_cells (zip_with mkScreenRow (row_slices 0 (row_ends l') (line_cells l'))
      (row_flags (length (row_ends l')) (hard_break l'))) = row_slices 0 (row_ends l') (line_cells l')) as ->.
    { apply list_eq. intros i. rewrite list_lookup_fmap, lookup_zip_with.
      destruct (row_slices _ _ _ !! i) eqn:E; [|done]. cbn.
      destruct (row_flags _ _ !! i) eqn:E4; [done|]. apply lookup_lt_Some in E. apply lookup_ge_None in E4.
      rewrite length_row_slices in E. rewrite length_row_flags in E4. lia. }
    rewrite (concat_row_slices columns Hcols) by done. by rewrite drop_0, E1.
  - clear - Hfit. unfold line_rows. revert Hfit. generalize (row_flags (length (row_ends l')) (hard_break l')).
    generalize 0. induction (row_ends l') as [|e ends IH]; intros prev flags H; [constructor|].
    destruct flags as [|f flags]; [constructor|]. destruct H as [H1 H2]. cbn. constructor; [|by apply IH].
    cbn. rewrite length_take. lia.
Qed.
End Push.

(** ** Witnesses: a wide glyph and two letters on two wrapped rows, and one
    more line, in a history of 1000 bytes. *)
Definition sample_cell (c : N) (w : CellWidth) : Cell :=
  {| text := [c]; text_capacity_bytes := 24; width := w; foreground := Default; background := Default;
     attributes := NONE; hyperlink := None |}.
Definition sample_rows : list ScreenRow :=
  [mkScreenRow [sample_cell 65 Single; sample_cell 12354 Double; sample_cell 32 Continuation] true;
   mkScreenRow [sample_cell 66 Single] false; mkScreenRow [sample_cell 67 Single; sample_cell 68 Single] false].
Definition sample_history : Scrollback :=
  default (Scrollback_new 1000) (push_rows (P := sample_platform) sample_rows (Scrollback_new 1000)).

Lemma sample_rows_fit : rows_fit (P := sample_platform) sample_rows (Scrollback_new 1000).
Proof. vm_compute. repeat split; (congruence || discriminate). Qed.

Lemma sample_history_ok : scrollback_ok (P := sample_platform) sample_history.
Proof.
  destruct (push_rows_spec (P := sample_platform) sample_rows (Scrollback_new 1000)) as (s' & E & H & _);
    [apply (Scrollback_new_ok (P := sample_platform))|apply sample_rows_fit|].
  unfold sample_history. by rewrite E.
Qed.

Lemma history_keeps_the_newest_rows_witness :
  exists k, rows_of sample_history = drop k sample_rows /\ rows_of sample_history = drop 0 sample_rows.
Proof.
  destruct (history_keeps_the_newest_rows (P := sample_platform) sample_rows (Scrollback_new 1000))
    as (s' & k & E & _ & _ & Hr & _).
  - apply (Scrollback_new_ok (P := sample_platform)).
  - apply sample_rows_fit.
  - exists k. unfold sample_history. rewrite E. split; [exact Hr|]. vm_compute in E. injection E as <-. reflexivity.
Defined.

Lemma history_lookup_finds_the_row_witness :
  physical_row sample_history 1 = Some (Some [sample_cell 66 Single]).
Proof.
  destruct (history_lookup_finds_the_row (P := sample_platform) sample_history 1) as (E & _ & _).
  - apply sample_history_ok.
  - vm_compute. discriminate.
  - rewrite E. vm_compute. reflexivity.
Defined.

Lemma anchor_survives_reflow_witness :
  exists a r' c', line_and_offset_at sample_history 0 1 = Some (Some a) /\
    resolve_anchor (reflow (P := sample_platform) 2 sample_history) a = Some (Some (c', r')) /\ (c', r') = (0, 1).
Proof.
  destruct (anchor_survives_reflow (P := sample_platform) 2 ltac:(lia) sample_history 0 1 0 1)
    as (a & r' & c' & x & E1 & E2 & _).
  - apply sample_history_ok.
  - vm_compute. discriminate.
  - exists (default (mkLine 0 [] 0 [] 0 0 false 0 0 0) (head (lines sample_history))), 0. vm_compute.
    repeat split; lia.
  - exists a, r', c'. split; [exact E1|]. split; [exact E2|]. vm_compute in E1. injection E1 as <-.
    vm_compute in E2. congruence.
Defined.

Lemma split_off_tail_takes_a_suffix_witness :
  exists rows s', split_off_tail (P := sample_platform) 2 sample_history = Some (rows, s') /\
    rows_of sample_history = rows_of s' ++ rows /\ rows = drop 1 sample_rows.
Proof.
  destruct (split_off_tail_takes_a_suffix (P := sample_platform) 2 sample_history) as (rows & s' & E & _ & Hr & _).
  - apply sample_history_ok.
  - vm_compute. discriminate.
  - exists rows, s'. split; [exact E|]. split; [exact Hr|]. vm_compute in E. injection E as <- _. reflexivity.
Defined.

Lemma reflow_preserves_lines_witness :
  coords_ok (P := sample_platform) (reflow (P := sample_platform) 2 sample_history) /\
  map row_cells (rows_of (reflow (P := sample_platform) 2 sample_history)) =
    [[sample_cell 65 Single]; [sample_cell 12354 Double; sample_cell 32 Continuation];
     [sample_cell 66 Single]; [sample_cell 67 Single; sample_cell 68 Single]].
Proof.
  split; [|vm_compute; reflexivity].
  apply (reflow_preserves_lines (P := sample_platform) 2 sample_history).
  - lia.
  - apply sample_history_ok.
  - vm_compute. discriminate.
Defined.
