(* ===== verification/Input.v ===== *)
(** * Transport queues and input encoding

    [replies.rs]: the bounded queues towards the session transport.
    [input.rs]: the encoding of keys, pastes and mouse events under the
    terminal's modes. *)

From Stdlib Require Import NArith Bool.
From S2P Require Import Prelude Cell Utf8 Hyperlink.

(** ** [replies.rs] *)
Record QueuePushResult := mkPush { accepted : nat; overflowed : bool }.

(** ** Input events *)
Inductive KeypadKey :=
  | KpDigit (digit : N)
  | KpDecimal | KpEnter | KpAdd | KpSubtract | KpMultiply | KpDivide | KpEqual | KpSeparator.

Inductive Key :=
  | KeyCharacter (c : N)
  | KeyControl (c : N)
  | KeyEnter | KeyTab | KeyBackspace | KeyEscape
  | KeyArrowUp | KeyArrowDown | KeyArrowRight | KeyArrowLeft
  | KeyPageUp | KeyPageDown | KeyHome | KeyEnd | KeyInsert | KeyDelete
  | KeyFunction (number : N)
  | KeyKeypad (key : KeypadKey).

Inductive FocusEvent := FocusIn | FocusOut.
Inductive MouseButton := MouseLeft | MouseMiddle | MouseRight.
Inductive MouseWheel := WheelUp | WheelDown.

Inductive MouseEventKind :=
  | Press (b : MouseButton)
  | Release (b : MouseButton)
  | Move (button : option MouseButton)
  | Wheel (w : MouseWheel).

(** [Modifiers] is its [u8] of flags. *)
Definition Modifiers := N.
Definition MOD_NONE : Modifiers := 0%N.
Definition SHIFT : Modifiers := 1%N.
Definition ALT : Modifiers := 2%N.
Definition CONTROL : Modifiers := 4%N.
Definition mod_contains (self other : Modifiers) : bool := (N.land self other =? other)%N.
Definition mouse_bits (m : Modifiers) : N :=
  N.lor (N.lor (if mod_contains m SHIFT then 4 else 0) (if mod_contains m ALT then 8 else 0))
    (if mod_contains m CONTROL then 16 else 0).

Record MouseEvent := mkMouse {
  kind : MouseEventKind; mouse_column : nat; mouse_row : nat; modifiers : Modifiers
}.

Inductive InputEvent :=
  | EvKey (key : Key)
  | EvModifiedKey (key : Key) (modifiers : Modifiers)
  | EvPaste (text : list N)
  | EvFocus (f : FocusEvent)
  | EvMouse (m : MouseEvent).

Inductive InputEventOutcome :=
  | Encoded (bytes : nat) | SelectionAllowed | SelectionClaimed | QueueOverflow | Rejected.

(** ** Keys *)
Definition control_byte (c : N) : option N :=
  if in_range 97 122 c then Some (to_ascii_uppercase c - 65 + 1)%N
  else if in_range 65 90 c then Some (c - 65 + 1)%N
  else switch c [([32], Some 0); ([91], Some 27); ([92], Some 28); ([93], Some 29)]%N None.

Inductive FunctionCode := Ss3 (final : N) | Tilde (code : N).

Definition function_key_code (number : N) : option FunctionCode :=
  if in_range 1 4 number then Some (Ss3 (80 + number - 1)%N)
  else if (number =? 5)%N then Some (Tilde 15)
  else if in_range 6 10 number then Some (Tilde (11 + number)%N)
  else if in_range 11 12 number then Some (Tilde (12 + number)%N)
  else None.

Definition cursor_key_bytes (final : N) (application : bool) : list N :=
  if application then [ESC; 79; final]%N else [ESC; 91; final]%N.

Definition keypad_normal (key : KeypadKey) : option (list N) :=
  match key with
  | KpDigit d => if (d <=? 9)%N then Some [(48 + d)%N] else None
  | KpDecimal => Some (bytes ".")
  | KpEnter => Some [13%N]
  | KpAdd => Some (bytes "+")
  | KpSubtract => Some (bytes "-")
  | KpMultiply => Some (bytes "*")
  | KpDivide => Some (bytes "/")
  | KpEqual => Some (bytes "=")
  | KpSeparator => Some (bytes ",")
  end.

Definition keypad_final (key : KeypadKey) : option (list N) :=
  match key with
  | KpDigit d =>
      switch d [([0], Some (bytes "p")); ([1], Some (bytes "q")); ([2], Some (bytes "r"));
                ([3], Some (bytes "s")); ([4], Some (bytes "t")); ([5], Some (bytes "u"));
                ([6], Some (bytes "v")); ([7], Some (bytes "w")); ([8], Some (bytes "x"));
                ([9], Some (bytes "y"))]%N None
  | KpDecimal => Some (bytes "n")
  | KpEnter => Some (bytes "M")
  | KpAdd => Some (bytes "k")
  | KpSubtract => Some (bytes "m")
  | KpMultiply => Some (bytes "j")
  | KpDivide => Some (bytes "o")
  | KpEqual => Some (bytes "X")
  | KpSeparator => Some (bytes "l")
  end.

Definition keypad_key_bytes (key : KeypadKey) (application : bool) : option (list N) :=
  normal ← keypad_normal key;
  if negb application then Some normal
  else final ← keypad_final key; Some ([ESC; 79%N] ++ final).

Definition encode_key (key : Key) (m : TerminalModes) : option (list N) :=
  if keyboard_locked m then None
  else match key with
       | KeyCharacter c => Some (encode_utf8 c)
       | KeyControl c => b ← control_byte c; Some [b]
       | KeyEnter => Some [13%N]
       | KeyTab => Some [9%N]
       | KeyBackspace => Some [if backarrow_sends_backspace m then 8%N else 127%N]
       | KeyEscape => Some [ESC]
       | KeyArrowUp => Some (cursor_key_bytes 65 (application_cursor m))
       | KeyArrowDown => Some (cursor_key_bytes 66 (application_cursor m))
       | KeyArrowRight => Some (cursor_key_bytes 67 (application_cursor m))
       | KeyArrowLeft => Some (cursor_key_bytes 68 (application_cursor m))
       | KeyPageUp => Some (ESC :: bytes "[5~")
       | KeyPageDown => Some (ESC :: bytes "[6~")
       | KeyHome => Some (cursor_key_bytes 72 (application_cursor m))
       | KeyEnd => Some (cursor_key_bytes 70 (application_cursor m))
       | KeyInsert => Some (ESC :: bytes "[2~")
       | KeyDelete => Some (ESC :: bytes "[3~")
       | KeyFunction number =>
           code ← function_key_code number;
           Some (match code with
                 | Ss3 final => [ESC; 79%N; final]
                 | Tilde code => [ESC; 91%N] ++ decimal code ++ bytes "~"
                 end)
       | KeyKeypad key => keypad_key_bytes key (application_keypad m)
       end.

Definition modifier_parameter (mods : Modifiers) : N :=
  (1 + (if mod_contains mods SHIFT then 1 else 0) + 2 * (if mod_contains mods ALT then 1 else 0)
   + 4 * (if mod_contains mods CONTROL then 1 else 0))%N.

(** The two lookups of [encode_modified_key]; the outer [None] is its early
    [return None] on an unknown function key. *)
Definition cursor_final (key : Key) : option (option N) :=
  match key with
  | KeyHome => Some (Some 72%N)
  | KeyEnd => Some (Some 70%N)
  | KeyFunction number =>
      code ← function_key_code number;
      Some (match code with Ss3 final => Some final | Tilde _ => None end)
  | KeyArrowUp => Some (Some 65%N)
  | KeyArrowDown => Some (Some 66%N)
  | KeyArrowRight => Some (Some 67%N)
  | KeyArrowLeft => Some (Some 68%N)
  | _ => Some None
  end.

Definition tilde_code (key : Key) : option (option N) :=
  match key with
  | KeyInsert => Some (Some 2%N)
  | KeyDelete => Some (Some 3%N)
  | KeyPageUp => Some (Some 5%N)
  | KeyPageDown => Some (Some 6%N)
  | KeyFunction number =>
      code ← function_key_code number;
      Some (match code with Tilde code => Some code | Ss3 _ => None end)
  | _ => Some None
  end.

(** What is left once the key has no modified CSI form. *)
Definition encode_chord (key : Key) (mods : Modifiers) (m : TerminalModes) : option (list N) :=
  let is_char := match key with KeyCharacter _ | KeyControl _ => true | _ => false end in
  if mod_contains mods SHIFT && negb is_char then None
  else
    key' ← (if mod_contains mods CONTROL then
              match key with KeyCharacter c | KeyControl c => Some (KeyControl c) | _ => None end
            else Some key);
    bs ← encode_key key' m;
    Some (if mod_contains mods ALT then ESC :: bs else bs).

Definition encode_modified_key (key : Key) (mods : Modifiers) (m : TerminalModes)
    : option (list N) :=
  if keyboard_locked m then None
  else if (mods =? MOD_NONE)%N then encode_key key m
  else if match key with KeyTab => (mods =? SHIFT)%N | _ => false end then Some (ESC :: bytes "[Z")
  else
    final ← cursor_final key;
    match final with
    | Some final => Some ((ESC :: bytes "[1;") ++ decimal (modifier_parameter mods) ++ [final])
    | None =>
        tilde ← tilde_code key;
        match tilde with
        | Some code =>
            Some ([ESC; 91%N] ++ decimal code ++ bytes ";" ++ decimal (modifier_parameter mods)
                    ++ bytes "~")
        | None => encode_chord key mods m
        end
    end.

(** ** Paste *)
Definition LF : N := 10.
Definition CR : N := 13.
Definition PASTE_START : list N := ESC :: bytes "[200~".
Definition PASTE_END : list N := ESC :: bytes "[201~".

(** The closure of [retain_mut], over the bytes in order. *)
Fixpoint normalize_breaks (previous_was_cr : bool) (bs : list N) : list N :=
  match bs with
  | [] => []
  | b :: bs' =>
      let crlf_end := previous_was_cr && (b =? LF)%N in
      let rest := normalize_breaks (b =? CR)%N bs' in
      if crlf_end then rest else (if (b =? LF)%N then CR else b) :: rest
  end.

(** [windows(2).filter(|pair| *pair == CRLF).count()]. *)
Fixpoint crlf_pairs (bs : list N) : nat :=
  match bs with
  | [] => 0
  | b :: bs' =>
      (if (b =? CR)%N && from_option (N.eqb LF) false (head bs') then 1 else 0) + crlf_pairs bs'
  end.

Definition paste_encoded_length (text : list N) (m : TerminalModes) : option N :=
  let len := N.of_nat (length (encode_text text)) in
  if bracketed_paste m then
    n ← checked_add usize_max len (N.of_nat (length PASTE_START));
    checked_add usize_max n (N.of_nat (length PASTE_END))
  else Some (len - N.of_nat (crlf_pairs (encode_text text)))%N.

(** ** Mouse *)
Definition mouse_event_is_reported (k : MouseEventKind) (tracking : MouseTrackingMode) : bool :=
  match k with
  | Press _ | Wheel _ => true
  | Release _ => negb (bool_decide (tracking = X10))
  | Move (Some _) => match tracking with ButtonMotion | AnyMotion => true | _ => false end
  | Move None => bool_decide (tracking = AnyMotion)
  end.

Definition mouse_button_code (b : MouseButton) : N :=
  match b with MouseLeft => 0 | MouseMiddle => 1 | MouseRight => 2 end%N.

Definition mouse_code (e : MouseEvent) (sgr : bool) : N * N :=
  let mods := mouse_bits (modifiers e) in
  match kind e with
  | Press b => (N.lor (mouse_button_code b) mods, 77%N)
  | Release b => (N.lor (if sgr then mouse_button_code b else 3%N) mods,
                  if sgr then 109%N else 77%N)
  | Move b => (N.lor (N.lor (from_option mouse_button_code 3%N b) mods) 32, 77%N)
  | Wheel WheelUp => (N.lor 64 mods, 77%N)
  | Wheel WheelDown => (N.lor 65 mods, 77%N)
  end.

Definition encode_sgr_mouse (e : MouseEvent) : option (list N) :=
  column ← checked_add usize_max (N.of_nat (mouse_column e)) 1;
  row ← checked_add usize_max (N.of_nat (mouse_row e)) 1;
  let '(code, final) := mouse_code e true in
  Some ((ESC :: bytes "[<") ++ decimal code ++ bytes ";" ++ decimal column ++ bytes ";"
          ++ decimal row ++ [final]).

Definition MAX_LEGACY_COORDINATE : nat := 222.

(** [u8] additions panic on overflow. *)
Definition u8_add (a b : N) : option N := checked_add 255 a b.

Definition encode_legacy_mouse (e : MouseEvent) : option (option (list N)) :=
  if (MAX_LEGACY_COORDINATE <? mouse_column e) || (MAX_LEGACY_COORDINATE <? mouse_row e)
  then Some None
  else
    let '(code, _) := mouse_code e false in
    code ← u8_add code 32;
    column ← u8_add (N.of_nat (mouse_column e) mod 256) 33;
    row ← u8_add (N.of_nat (mouse_row e) mod 256) 33;
    Some (Some [ESC; 91; 77; code; column; row]%N).

Section WithPlatform.
Context `{P : Platform}.

Definition queue_transport_bytes (queue bs : list N) : QueuePushResult * list N :=
  if (TRANSPORT_QUEUE_HIGH_WATERMARK <? N.of_nat (length queue))%N then (mkPush 0 true, queue)
  else
    let remaining := (TRANSPORT_QUEUE_HIGH_WATERMARK - N.of_nat (length queue))%N in
    if (remaining <? N.of_nat (length bs))%N || negb (alloc_ok (N.of_nat (length bs)))
    then (mkPush 0 true, queue)
    else (mkPush (length bs) false, queue ++ bs).

Definition encode_paste (text : list N) (m : TerminalModes) : option (list N) :=
  if negb (bracketed_paste m) then Some (normalize_breaks false (encode_text text))
  else
    capacity ← paste_encoded_length text m;
    if alloc_ok capacity then Some (PASTE_START ++ encode_text text ++ PASTE_END) else None.

(** ** Prepared batches *)
Definition MAX_PREPARED_INPUT_EVENTS : nat := 64.

Inductive InputPreparationError :=
  | PrepEmpty | TooManyEvents | TooLarge | UnsupportedEvent | PrepRejected | Allocation.

Definition prepare_paste (text : list N) (remaining : N) (m : TerminalModes)
    : InputPreparationError + list N :=
  if (saturating_mul usize_max remaining 2 <? N.of_nat (length (encode_text text)))%N
  then inl TooLarge
  else match paste_encoded_length text m with
       | None => inl TooLarge
       | Some n =>
           if (remaining <? n)%N then inl TooLarge
           else if negb (alloc_ok (N.of_nat (length (encode_text text)))) then inl Allocation
           else match encode_paste text m with Some bs => inr bs | None => inl Allocation end
       end.

Definition prepare_event (e : InputEvent) (remaining : N) (m : TerminalModes)
    : InputPreparationError + list N :=
  match e with
  | EvKey key => match encode_key key m with Some bs => inr bs | None => inl PrepRejected end
  | EvModifiedKey key mods =>
      match encode_modified_key key mods m with Some bs => inr bs | None => inl PrepRejected end
  | EvPaste text => prepare_paste text remaining m
  | EvFocus _ | EvMouse _ => inl UnsupportedEvent
  end.

Fixpoint prepare_loop (events : list InputEvent) (limit : N) (m : TerminalModes) (acc : list N)
    : InputPreparationError + list N :=
  match events with
  | [] => inr acc
  | e :: events' =>
      let remaining := (limit - N.of_nat (length acc))%N in
      match prepare_event e remaining m with
      | inl err => inl err
      | inr bs =>
          if (remaining <? N.of_nat (length bs))%N then inl TooLarge
          else if negb (alloc_ok (N.of_nat (length bs))) then inl Allocation
          else prepare_loop events' limit m (acc ++ bs)
      end
  end.

(** [Terminal::prepare_input], of the terminal's modes: it reads nothing else. *)
Definition prepare_input (m : TerminalModes) (events : list InputEvent) (max_bytes : N)
    : InputPreparationError + list N * TerminalModes :=
  match events with
  | [] => inl PrepEmpty
  | _ =>
      if MAX_PREPARED_INPUT_EVENTS <? length events then inl TooManyEvents
      else match prepare_loop events (N.min max_bytes TRANSPORT_QUEUE_HIGH_WATERMARK) m [] with
           | inl err => inl err
           | inr [] => inl PrepEmpty
           | inr bs => inr (bs, m)
           end
  end.
End WithPlatform.
