(* ===== verification/Buffer.v ===== *)
(** * One screen buffer

    [BufferState] of [terminal.rs]: a screen with its cursor, scroll region,
    margins and saved cursors, its two resize paths (the alternate buffer's
    clip-and-pad, the primary buffer's reflow through the scrollback) and its
    recovery check.  [None] is a panic; [inl tt] is the allocation error. *)

From Stdlib Require Import NArith Bool.
From S2P Require Import Prelude Cell Screen History.

Inductive ProtectionSource := ProtectionNone | ProtectionDec | ProtectionIso.
#[export] Instance ProtectionSource_eq_dec : EqDecision ProtectionSource.
Proof. solve_decision. Defined.

Record SavedDecState := mkSavedDec {
  dec_cursor : Cursor;
  dec_pending_wrap : bool;
  dec_attributes : Attributes;
  dec_foreground : Color;
  dec_background : Color;
  dec_origin_mode : bool;
  dec_protected : bool;
  dec_protection : ProtectionSource
}.
#[export] Instance set_dec_cursor : Setter dec_cursor := fun v r => mkSavedDec v (dec_pending_wrap r) (dec_attributes r) (dec_foreground r) (dec_background r) (dec_origin_mode r) (dec_protected r) (dec_protection r).
#[export] Instance set_dec_pending_wrap : Setter dec_pending_wrap := fun v r => mkSavedDec (dec_cursor r) v (dec_attributes r) (dec_foreground r) (dec_background r) (dec_origin_mode r) (dec_protected r) (dec_protection r).
#[export] Instance set_dec_attributes : Setter dec_attributes := fun v r => mkSavedDec (dec_cursor r) (dec_pending_wrap r) v (dec_foreground r) (dec_background r) (dec_origin_mode r) (dec_protected r) (dec_protection r).
#[export] Instance set_dec_foreground : Setter dec_foreground := fun v r => mkSavedDec (dec_cursor r) (dec_pending_wrap r) (dec_attributes r) v (dec_background r) (dec_origin_mode r) (dec_protected r) (dec_protection r).
#[export] Instance set_dec_background : Setter dec_background := fun v r => mkSavedDec (dec_cursor r) (dec_pending_wrap r) (dec_attributes r) (dec_foreground r) v (dec_origin_mode r) (dec_protected r) (dec_protection r).
#[export] Instance set_dec_origin_mode : Setter dec_origin_mode := fun v r => mkSavedDec (dec_cursor r) (dec_pending_wrap r) (dec_attributes r) (dec_foreground r) (dec_background r) v (dec_protected r) (dec_protection r).
#[export] Instance set_dec_protected : Setter dec_protected := fun v r => mkSavedDec (dec_cursor r) (dec_pending_wrap r) (dec_attributes r) (dec_foreground r) (dec_background r) (dec_origin_mode r) v (dec_protection r).
#[export] Instance set_dec_protection : Setter dec_protection := fun v r => mkSavedDec (dec_cursor r) (dec_pending_wrap r) (dec_attributes r) (dec_foreground r) (dec_background r) (dec_origin_mode r) (dec_protected r) v.

Record SavedAnsiCursor := mkSavedAnsi {
  ansi_cursor : Cursor;
  ansi_protected : bool;
  ansi_protection : ProtectionSource
}.
#[export] Instance set_ansi_cursor : Setter ansi_cursor := fun v r => mkSavedAnsi v (ansi_protected r) (ansi_protection r).
#[export] Instance set_ansi_protected : Setter ansi_protected := fun v r => mkSavedAnsi (ansi_cursor r) v (ansi_protection r).
#[export] Instance set_ansi_protection : Setter ansi_protection := fun v r => mkSavedAnsi (ansi_cursor r) (ansi_protected r) v.

Record BufferState := mkBuffer {
  screen : Screen;
  cursor : Cursor;
  scroll_top : nat;
  scroll_bottom : nat;
  scroll_left : nat;
  scroll_right : nat;
  pending_wrap : bool;
  grapheme_anchor : option Cursor;
  dec_saved : option SavedDecState;
  ansi_saved : option SavedAnsiCursor
}.
#[export] Instance set_screen : Setter screen := fun v r => mkBuffer v (cursor r) (scroll_top r) (scroll_bottom r) (scroll_left r) (scroll_right r) (pending_wrap r) (grapheme_anchor r) (dec_saved r) (ansi_saved r).
#[export] Instance set_cursor : Setter cursor := fun v r => mkBuffer (screen r) v (scroll_top r) (scroll_bottom r) (scroll_left r) (scroll_right r) (pending_wrap r) (grapheme_anchor r) (dec_saved r) (ansi_saved r).
#[export] Instance set_scroll_top : Setter scroll_top := fun v r => mkBuffer (screen r) (cursor r) v (scroll_bottom r) (scroll_left r) (scroll_right r) (pending_wrap r) (grapheme_anchor r) (dec_saved r) (ansi_saved r).
#[export] Instance set_scroll_bottom : Setter scroll_bottom := fun v r => mkBuffer (screen r) (cursor r) (scroll_top r) v (scroll_left r) (scroll_right r) (pending_wrap r) (grapheme_anchor r) (dec_saved r) (ansi_saved r).
#[export] Instance set_scroll_left : Setter scroll_left := fun v r => mkBuffer (screen r) (cursor r) (scroll_top r) (scroll_bottom r) v (scroll_right r) (pending_wrap r) (grapheme_anchor r) (dec_saved r) (ansi_saved r).
#[export] Instance set_scroll_right : Setter scroll_right := fun v r => mkBuffer (screen r) (cursor r) (scroll_top r) (scroll_bottom r) (scroll_left r) v (pending_wrap r) (grapheme_anchor r) (dec_saved r) (ansi_saved r).
#[export] Instance set_pending_wrap : Setter pending_wrap := fun v r => mkBuffer (screen r) (cursor r) (scroll_top r) (scroll_bottom r) (scroll_left r) (scroll_right r) v (grapheme_anchor r) (dec_saved r) (ansi_saved r).
#[export] Instance set_grapheme_anchor : Setter grapheme_anchor := fun v r => mkBuffer (screen r) (cursor r) (scroll_top r) (scroll_bottom r) (scroll_left r) (scroll_right r) (pending_wrap r) v (dec_saved r) (ansi_saved r).
#[export] Instance set_dec_saved : Setter dec_saved := fun v r => mkBuffer (screen r) (cursor r) (scroll_top r) (scroll_bottom r) (scroll_left r) (scroll_right r) (pending_wrap r) (grapheme_anchor r) v (ansi_saved r).
#[export] Instance set_ansi_saved : Setter ansi_saved := fun v r => mkBuffer (screen r) (cursor r) (scroll_top r) (scroll_bottom r) (scroll_left r) (scroll_right r) (pending_wrap r) (grapheme_anchor r) (dec_saved r) v.

#[export] Instance upd_column : Setter column := fun v r => mkCursor v (row r).
#[export] Instance upd_row : Setter row := fun v r => mkCursor (column r) v.

Record ContentPosition := mkPosition { position_column : nat; absolute_row : N }.

(** [usize::clamp], which panics when its bounds are crossed. *)
Definition clamp (lo hi v : nat) : option nat :=
  if lo <=? hi then Some (Nat.max lo (Nat.min v hi)) else None.

Definition clamp_cursor (d : Dimensions) (c : Cursor) : Cursor :=
  mkCursor (Nat.min (column c) (columns d - 1)) (Nat.min (row c) (rows d - 1)).

Section WithPlatform.
Context `{P : Platform}.

Definition BufferState_new (d : Dimensions) : unit + BufferState :=
  match Screen_new d with
  | inl e => inl e
  | inr s =>
      inr {| screen := s; cursor := mkCursor 0 0;
             scroll_top := 0; scroll_bottom := rows d - 1;
             scroll_left := 0; scroll_right := columns d - 1;
             pending_wrap := false; grapheme_anchor := None;
             dec_saved := None; ansi_saved := None |}
  end.

Definition resized_horizontal_margins (b : BufferState) (d : Dimensions) : nat * nat :=
  let old_columns := columns (dimensions (screen b)) in
  let cols := columns d in
  let was_full_width := (scroll_left b =? 0) && (scroll_right b + 1 =? old_columns) in
  let left := Nat.min (scroll_left b) (cols - 1) in
  let right := Nat.min (scroll_right b) (cols - 1) in
  if was_full_width || ((right <=? left) && (1 <? cols)) then (0, cols - 1) else (left, right).

(** The scroll region both resize paths compute. *)
Definition resized_scroll_region (b : BufferState) (d : Dimensions) : nat * nat :=
  let was_full_screen :=
    (scroll_top b =? 0) && (scroll_bottom b + 1 =? rows (dimensions (screen b))) in
  let top := Nat.min (scroll_top b) (rows d - 1) in
  let bottom := Nat.min (scroll_bottom b) (rows d - 1) in
  if was_full_screen || ((bottom <=? top) && (1 <? rows d)) then (0, rows d - 1) else (top, bottom).

Definition grapheme_anchor_survives_resize (b : BufferState) (anchor : Cursor) (d : Dimensions)
    : bool :=
  if (columns d <=? column anchor) || (rows d <=? row anchor) then false
  else match cell (screen b) (column anchor) (row anchor) with
       | Some c =>
           match width c with
           | Single => true
           | Double => (column anchor + 1 <? columns d)
                       && from_option is_continuation false
                            (cell (screen b) (column anchor + 1) (row anchor))
           | Continuation => false
           end
       | None => false
       end.

Definition clamp_dec_saved (b : BufferState) (d : Dimensions) (saved : SavedDecState)
    : option SavedDecState :=
  let c := clamp_cursor d (dec_cursor saved) in
  r ← (if dec_origin_mode saved then clamp (scroll_top b) (scroll_bottom b) (row c)
       else Some (row c));
  Some (saved <| dec_cursor := mkCursor (column c) r |>
              <| dec_pending_wrap := dec_pending_wrap saved && (column c + 1 =? columns d) |>).

Definition clamp_saved_states (d : Dimensions) (b : BufferState) : option BufferState :=
  dec ← match dec_saved b with
        | None => Some None
        | Some saved => s ← clamp_dec_saved b d saved; Some (Some s)
        end;
  Some (b <| dec_saved := dec |>
          <| ansi_saved := (fun saved => saved <| ansi_cursor := clamp_cursor d (ansi_cursor saved) |>)
                           <$> ansi_saved b |>).

(** [BufferState::resized]: the clip-and-pad resize. *)
Definition buffer_resized (b : BufferState) (d : Dimensions) : option (unit + BufferState) :=
  result ← resized (screen b) d;
  match result with
  | inl e => Some (inl e)
  | inr s =>
      let '(left, right) := resized_horizontal_margins b d in
      let '(top, bottom) := resized_scroll_region b d in
      let c := clamp_cursor d (cursor b) in
      b' ← clamp_saved_states d
        {| screen := s; cursor := c; scroll_top := top; scroll_bottom := bottom;
           scroll_left := left; scroll_right := right;
           pending_wrap := pending_wrap b && (column c + 1 =? columns d);
           grapheme_anchor :=
             a ← grapheme_anchor b;
             if grapheme_anchor_survives_resize b a d then Some a else None;
           dec_saved := dec_saved b; ansi_saved := ansi_saved b |};
      Some (inr b')
  end.

(** [BufferState::reset]. *)
Definition buffer_reset (b : BufferState) : BufferState :=
  let s := clear_all blank_cell (screen b) in
  {| screen := s; cursor := mkCursor 0 0;
     scroll_top := 0; scroll_bottom := rows (dimensions s) - 1;
     scroll_left := 0; scroll_right := columns (dimensions s) - 1;
     pending_wrap := false; grapheme_anchor := None; dec_saved := None; ansi_saved := None |}.

(** ** [BufferState::reflowed] *)

(** Rows up to the cursor's row or the last row with content. *)
Definition content_rows_of (b : BufferState) : option nat :=
  n ← occupied_row_count (screen b);
  Some (Nat.min (rows (dimensions (screen b))) (Nat.max n (row (cursor b) + 1))).

(** The retained row a caller's position names before the reflow. *)
Definition relative_row (before : ScrollbackStats) (rows_before combined_rows : nat)
    (p : ContentPosition) : option nat :=
  r ← (if (absolute_row p <? stat_screen_row_origin before)%N then
         if (stat_content_row_origin before <=? absolute_row p)%N
            && (absolute_row p - stat_content_row_origin before <? N.of_nat rows_before)%N
         then Some (absolute_row p - stat_content_row_origin before)%N else None
       else checked_add usize_max (N.of_nat rows_before)
              (absolute_row p - stat_screen_row_origin before)%N);
  if (r <? N.of_nat combined_rows)%N then Some (N.to_nat r) else None.

Definition position_anchor (combined : Scrollback) (before : ScrollbackStats)
    (rows_before combined_rows : nat) (p : ContentPosition) : option (option LogicalAnchor) :=
  match relative_row before rows_before combined_rows p with
  | None => Some None
  | Some r => line_and_offset_at combined r (position_column p)
  end.

Definition resolve (combined : Scrollback) (a : option LogicalAnchor) : option (option (nat * nat)) :=
  match a with None => Some None | Some a => resolve_anchor combined a end.

(** A resolved position after the tail has left the history and the limit has
    evicted [evicted] rows of it. *)
Definition adjusted_position (after : Scrollback) (evicted : nat) (d : Dimensions)
    (p : option (nat * nat)) : option ContentPosition :=
  '(col, rel) ← p;
  if rel <? evicted then None
  else
    let adjusted := rel - evicted in
    let kept := total_physical_rows after in
    let abs :=
      if adjusted <? kept
      then saturating_add u64_max (content_row_origin after) (N.of_nat adjusted)
      else saturating_add u64_max (screen_row_origin after) (N.of_nat (adjusted - kept)) in
    if adjusted <? kept + rows d then Some (mkPosition col abs) else None.

Definition reflowed_cursor (after : Scrollback) (evicted : nat) (d : Dimensions)
    (p : option (nat * nat)) : Cursor :=
  let fallback := mkCursor 0 (rows d - 1) in
  let kept := total_physical_rows after in
  match p with
  | Some (col, rel) =>
      if (evicted <=? rel) && (kept <=? rel - evicted)
      then clamp_cursor d (mkCursor col (rel - evicted - kept))
      else fallback
  | None => fallback
  end.

(** The screen folded into the history, the anchors taken, the lines reflowed,
    and the anchors resolved. *)
Definition fold_and_reflow (b : BufferState) (d : Dimensions) (sb : Scrollback)
    (positions : list ContentPosition)
    : option (Scrollback * option (nat * nat) * list (option (nat * nat))) :=
  let old := dimensions (screen b) in
  let rows_before := total_physical_rows sb in
  let before := stats sb in
  content_rows ← content_rows_of b;
  fold_rows ← to_rows (screen b);
  combined ← set_limit_bytes usize_max sb;
  combined ← push_rows (take content_rows fold_rows) combined;
  let combined_rows := total_physical_rows combined in
  cursor_anchor ← line_and_offset_at combined
    (rows_before + Nat.min (row (cursor b)) (content_rows - 1)) (column (cursor b));
  anchors ← mapM (position_anchor combined before rows_before combined_rows) positions;
  let combined := if columns d =? columns old then combined else reflow (columns d) combined in
  resolved ← resolve combined cursor_anchor;
  resolved_positions ← mapM (resolve combined) anchors;
  Some (combined, resolved, resolved_positions).

(** The result, and the scrollback the call leaves: an empty one when the new
    screen cannot be allocated. *)
Definition reflowed (b : BufferState) (d : Dimensions) (sb : Scrollback)
    (positions : list ContentPosition)
    : option ((unit + BufferState * list (option ContentPosition)) * Scrollback) :=
  '(combined, resolved, resolved_positions) ← fold_and_reflow b d sb positions;
  let origin_before_split := content_row_origin combined in
  '(tail_rows, combined) ← split_off_tail (rows d) combined;
  combined ← set_limit_bytes (limit_bytes sb) combined;
  let evicted := N.to_nat (content_row_origin combined - origin_before_split) in
  result ← from_rows d tail_rows;
  match result with
  | inl e => Some (inl e, Scrollback_new (limit_bytes sb))
  | inr s =>
      let c := reflowed_cursor combined evicted d resolved in
      let '(top, bottom) := resized_scroll_region b d in
      let '(left, right) := resized_horizontal_margins b d in
      b' ← clamp_saved_states d
        {| screen := s; cursor := c; scroll_top := top; scroll_bottom := bottom;
           scroll_left := left; scroll_right := right;
           pending_wrap := pending_wrap b && (column c + 1 =? columns d);
           grapheme_anchor := None;
           dec_saved := dec_saved b; ansi_saved := ansi_saved b |};
      Some (inr (b', map (adjusted_position combined evicted d) resolved_positions), combined)
  end.
End WithPlatform.

(** ** Recovery validation; [true] is [Ok] *)
Definition validate_cursor (c : Cursor) (d : Dimensions) : bool :=
  (column c <? columns d) && (row c <? rows d).

Definition validate_scroll_region (start stop limit : nat) : bool :=
  (start <? limit) && (stop <? limit) && (start <=? stop).

Definition validate_buffer (b : BufferState) : bool :=
  let d := dimensions (screen b) in
  validate_screen (screen b)
  && validate_cursor (cursor b) d
  && validate_scroll_region (scroll_top b) (scroll_bottom b) (rows d)
  && validate_scroll_region (scroll_left b) (scroll_right b) (columns d)
  && negb (pending_wrap b && negb (column (cursor b) + 1 =? columns d))
  && from_option (fun a => validate_cursor a d) true (grapheme_anchor b)
  && from_option (fun s => validate_cursor (dec_cursor s) d) true (dec_saved b)
  && from_option (fun s => validate_cursor (ansi_cursor s) d) true (ansi_saved b).
