(* ===== verification/Terminal.v ===== *)
(** * The terminal: state, printing and cursor motion

    [Terminal] of [terminal.rs] and the operations that print characters and
    move the cursor.  [None] is a panic. *)

From Stdlib Require Import NArith Bool.
From S2P Require Import Prelude Cell Utf8 Hyperlink Parser Screen History Input Buffer.

Inductive ActiveScreen := Primary | Alternate.
#[export] Instance ActiveScreen_eq_dec : EqDecision ActiveScreen.
Proof. solve_decision. Defined.

Record Terminal := mkTerminal {
  parser : Parser;
  utf8 : Utf8Decoder;
  primary : BufferState;
  alternate : option BufferState;
  active_screen : ActiveScreen;
  screen_generation : N;
  modes : TerminalModes;
  cursor_style : CursorStyle;
  last_graphic_character : option N;
  cursor_style_set : bool;
  tab_stops : list bool;
  current_attributes : Attributes;
  current_protected : bool;
  protection : ProtectionSource;
  current_foreground : Color;
  current_background : Color;
  title : list N;
  current_hyperlink : option (list N);
  current_hyperlink_cells_remaining : nat;
  color_scheme : ColorScheme;
  reply_queue : list N;
  input_queue : list N;
  reply_queue_overflowed : bool;
  input_queue_overflowed : bool;
  scrollback : Scrollback
}.
#[export] Instance upd_parser : Setter parser := fun v r => mkTerminal v (utf8 r) (primary r) (alternate r) (active_screen r) (screen_generation r) (modes r) (cursor_style r) (last_graphic_character r) (cursor_style_set r) (tab_stops r) (current_attributes r) (current_protected r) (protection r) (current_foreground r) (current_background r) (title r) (current_hyperlink r) (current_hyperlink_cells_remaining r) (color_scheme r) (reply_queue r) (input_queue r) (reply_queue_overflowed r) (input_queue_overflowed r) (scrollback r).
#[export] Instance upd_utf8 : Setter utf8 := fun v r => mkTerminal (parser r) v (primary r) (alternate r) (active_screen r) (screen_generation r) (modes r) (cursor_style r) (last_graphic_character r) (cursor_style_set r) (tab_stops r) (current_attributes r) (current_protected r) (protection r) (current_foreground r) (current_background r) (title r) (current_hyperlink r) (current_hyperlink_cells_remaining r) (color_scheme r) (reply_queue r) (input_queue r) (reply_queue_overflowed r) (input_queue_overflowed r) (scrollback r).
#[export] Instance upd_primary : Setter primary := fun v r => mkTerminal (parser r) (utf8 r) v (alternate r) (active_screen r) (screen_generation r) (modes r) (cursor_style r) (last_graphic_character r) (cursor_style_set r) (tab_stops r) (current_attributes r) (current_protected r) (protection r) (current_foreground r) (current_background r) (title r) (current_hyperlink r) (current_hyperlink_cells_remaining r) (color_scheme r) (reply_queue r) (input_queue r) (reply_queue_overflowed r) (input_queue_overflowed r) (scrollback r).
#[export] Instance upd_alternate : Setter alternate := fun v r => mkTerminal (parser r) (utf8 r) (primary r) v (active_screen r) (screen_generation r) (modes r) (cursor_style r) (last_graphic_character r) (cursor_style_set r) (tab_stops r) (current_attributes r) (current_protected r) (protection r) (current_foreground r) (current_background r) (title r) (current_hyperlink r) (current_hyperlink_cells_remaining r) (color_scheme r) (reply_queue r) (input_queue r) (reply_queue_overflowed r) (input_queue_overflowed r) (scrollback r).
#[export] Instance upd_active_screen : Setter active_screen := fun v r => mkTerminal (parser r) (utf8 r) (primary r) (alternate r) v (screen_generation r) (modes r) (cursor_style r) (last_graphic_character r) (cursor_style_set r) (tab_stops r) (current_attributes r) (current_protected r) (protection r) (current_foreground r) (current_background r) (title r) (current_hyperlink r) (current_hyperlink_cells_remaining r) (color_scheme r) (reply_queue r) (input_queue r) (reply_queue_overflowed r) (input_queue_overflowed r) (scrollback r).
#[export] Instance upd_screen_generation : Setter screen_generation := fun v r => mkTerminal (parser r) (utf8 r) (primary r) (alternate r) (active_screen r) v (modes r) (cursor_style r) (last_graphic_character r) (cursor_style_set r) (tab_stops r) (current_attributes r) (current_protected r) (protection r) (current_foreground r) (current_background r) (title r) (current_hyperlink r) (current_hyperlink_cells_remaining r) (color_scheme r) (reply_queue r) (input_queue r) (reply_queue_overflowed r) (input_queue_overflowed r) (scrollback r).
#[export] Instance upd_modes : Setter modes := fun v r => mkTerminal (parser r) (utf8 r) (primary r) (alternate r) (active_screen r) (screen_generation r) v (cursor_style r) (last_graphic_character r) (cursor_style_set r) (tab_stops r) (current_attributes r) (current_protected r) (protection r) (current_foreground r) (current_background r) (title r) (current_hyperlink r) (current_hyperlink_cells_remaining r) (color_scheme r) (reply_queue r) (input_queue r) (reply_queue_overflowed r) (input_queue_overflowed r) (scrollback r).
#[export] Instance upd_cursor_style : Setter cursor_style := fun v r => mkTerminal (parser r) (utf8 r) (primary r) (alternate r) (active_screen r) (screen_generation r) (modes r) v (last_graphic_character r) (cursor_style_set r) (tab_stops r) (current_attributes r) (current_protected r) (protection r) (current_foreground r) (current_background r) (title r) (current_hyperlink r) (current_hyperlink_cells_remaining r) (color_scheme r) (reply_queue r) (input_queue r) (reply_queue_overflowed r) (input_queue_overflowed r) (scrollback r).
#[export] Instance upd_last_graphic_character : Setter last_graphic_character := fun v r => mkTerminal (parser r) (utf8 r) (primary r) (alternate r) (active_screen r) (screen_generation r) (modes r) (cursor_style r) v (cursor_style_set r) (tab_stops r) (current_attributes r) (current_protected r) (protection r) (current_foreground r) (current_background r) (title r) (current_hyperlink r) (current_hyperlink_cells_remaining r) (color_scheme r) (reply_queue r) (input_queue r) (reply_queue_overflowed r) (input_queue_overflowed r) (scrollback r).
#[export] Instance upd_cursor_style_set : Setter cursor_style_set := fun v r => mkTerminal (parser r) (utf8 r) (primary r) (alternate r) (active_screen r) (screen_generation r) (modes r) (cursor_style r) (last_graphic_character r) v (tab_stops r) (current_attributes r) (current_protected r) (protection r) (current_foreground r) (current_background r) (title r) (current_hyperlink r) (current_hyperlink_cells_remaining r) (color_scheme r) (reply_queue r) (input_queue r) (reply_queue_overflowed r) (input_queue_overflowed r) (scrollback r).
#[export] Instance upd_tab_stops : Setter tab_stops := fun v r => mkTerminal (parser r) (utf8 r) (primary r) (alternate r) (active_screen r) (screen_generation r) (modes r) (cursor_style r) (last_graphic_character r) (cursor_style_set r) v (current_attributes r) (current_protected r) (protection r) (current_foreground r) (current_background r) (title r) (current_hyperlink r) (current_hyperlink_cells_remaining r) (color_scheme r) (reply_queue r) (input_queue r) (reply_queue_overflowed r) (input_queue_overflowed r) (scrollback r).
#[export] Instance upd_current_attributes : Setter current_attributes := fun v r => mkTerminal (parser r) (utf8 r) (primary r) (alternate r) (active_screen r) (screen_generation r) (modes r) (cursor_style r) (last_graphic_character r) (cursor_style_set r) (tab_stops r) v (current_protected r) (protection r) (current_foreground r) (current_background r) (title r) (current_hyperlink r) (current_hyperlink_cells_remaining r) (color_scheme r) (reply_queue r) (input_queue r) (reply_queue_overflowed r) (input_queue_overflowed r) (scrollback r).
#[export] Instance upd_current_protected : Setter current_protected := fun v r => mkTerminal (parser r) (utf8 r) (primary r) (alternate r) (active_screen r) (screen_generation r) (modes r) (cursor_style r) (last_graphic_character r) (cursor_style_set r) (tab_stops r) (current_attributes r) v (protection r) (current_foreground r) (current_background r) (title r) (current_hyperlink r) (current_hyperlink_cells_remaining r) (color_scheme r) (reply_queue r) (input_queue r) (reply_queue_overflowed r) (input_queue_overflowed r) (scrollback r).
#[export] Instance upd_protection : Setter protection := fun v r => mkTerminal (parser r) (utf8 r) (primary r) (alternate r) (active_screen r) (screen_generation r) (modes r) (cursor_style r) (last_graphic_character r) (cursor_style_set r) (tab_stops r) (current_attributes r) (current_protected r) v (current_foreground r) (current_background r) (title r) (current_hyperlink r) (current_hyperlink_cells_remaining r) (color_scheme r) (reply_queue r) (input_queue r) (reply_queue_overflowed r) (input_queue_overflowed r) (scrollback r).
#[export] Instance upd_current_foreground : Setter current_foreground := fun v r => mkTerminal (parser r) (utf8 r) (primary r) (alternate r) (active_screen r) (screen_generation r) (modes r) (cursor_style r) (last_graphic_character r) (cursor_style_set r) (tab_stops r) (current_attributes r) (current_protected r) (protection r) v (current_background r) (title r) (current_hyperlink r) (current_hyperlink_cells_remaining r) (color_scheme r) (reply_queue r) (input_queue r) (reply_queue_overflowed r) (input_queue_overflowed r) (scrollback r).
#[export] Instance upd_current_background : Setter current_background := fun v r => mkTerminal (parser r) (utf8 r) (primary r) (alternate r) (active_screen r) (screen_generation r) (modes r) (cursor_style r) (last_graphic_character r) (cursor_style_set r) (tab_stops r) (current_attributes r) (current_protected r) (protection r) (current_foreground r) v (title r) (current_hyperlink r) (current_hyperlink_cells_remaining r) (color_scheme r) (reply_queue r) (input_queue r) (reply_queue_overflowed r) (input_queue_overflowed r) (scrollback r).
#[export] Instance upd_title : Setter title := fun v r => mkTerminal (parser r) (utf8 r) (primary r) (alternate r) (active_screen r) (screen_generation r) (modes r) (cursor_style r) (last_graphic_character r) (cursor_style_set r) (tab_stops r) (current_attributes r) (current_protected r) (protection r) (current_foreground r) (current_background r) v (current_hyperlink r) (current_hyperlink_cells_remaining r) (color_scheme r) (reply_queue r) (input_queue r) (reply_queue_overflowed r) (input_queue_overflowed r) (scrollback r).
#[export] Instance upd_current_hyperlink : Setter current_hyperlink := fun v r => mkTerminal (parser r) (utf8 r) (primary r) (alternate r) (active_screen r) (screen_generation r) (modes r) (cursor_style r) (last_graphic_character r) (cursor_style_set r) (tab_stops r) (current_attributes r) (current_protected r) (protection r) (current_foreground r) (current_background r) (title r) v (current_hyperlink_cells_remaining r) (color_scheme r) (reply_queue r) (input_queue r) (reply_queue_overflowed r) (input_queue_overflowed r) (scrollback r).
#[export] Instance upd_current_hyperlink_cells_remaining : Setter current_hyperlink_cells_remaining := fun v r => mkTerminal (parser r) (utf8 r) (primary r) (alternate r) (active_screen r) (screen_generation r) (modes r) (cursor_style r) (last_graphic_character r) (cursor_style_set r) (tab_stops r) (current_attributes r) (current_protected r) (protection r) (current_foreground r) (current_background r) (title r) (current_hyperlink r) v (color_scheme r) (reply_queue r) (input_queue r) (reply_queue_overflowed r) (input_queue_overflowed r) (scrollback r).
#[export] Instance upd_color_scheme : Setter color_scheme := fun v r => mkTerminal (parser r) (utf8 r) (primary r) (alternate r) (active_screen r) (screen_generation r) (modes r) (cursor_style r) (last_graphic_character r) (cursor_style_set r) (tab_stops r) (current_attributes r) (current_protected r) (protection r) (current_foreground r) (current_background r) (title r) (current_hyperlink r) (current_hyperlink_cells_remaining r) v (reply_queue r) (input_queue r) (reply_queue_overflowed r) (input_queue_overflowed r) (scrollback r).
#[export] Instance upd_reply_queue : Setter reply_queue := fun v r => mkTerminal (parser r) (utf8 r) (primary r) (alternate r) (active_screen r) (screen_generation r) (modes r) (cursor_style r) (last_graphic_character r) (cursor_style_set r) (tab_stops r) (current_attributes r) (current_protected r) (protection r) (current_foreground r) (current_background r) (title r) (current_hyperlink r) (current_hyperlink_cells_remaining r) (color_scheme r) v (input_queue r) (reply_queue_overflowed r) (input_queue_overflowed r) (scrollback r).
#[export] Instance upd_input_queue : Setter input_queue := fun v r => mkTerminal (parser r) (utf8 r) (primary r) (alternate r) (active_screen r) (screen_generation r) (modes r) (cursor_style r) (last_graphic_character r) (cursor_style_set r) (tab_stops r) (current_attributes r) (current_protected r) (protection r) (current_foreground r) (current_background r) (title r) (current_hyperlink r) (current_hyperlink_cells_remaining r) (color_scheme r) (reply_queue r) v (reply_queue_overflowed r) (input_queue_overflowed r) (scrollback r).
#[export] Instance upd_reply_queue_overflowed : Setter reply_queue_overflowed := fun v r => mkTerminal (parser r) (utf8 r) (primary r) (alternate r) (active_screen r) (screen_generation r) (modes r) (cursor_style r) (last_graphic_character r) (cursor_style_set r) (tab_stops r) (current_attributes r) (current_protected r) (protection r) (current_foreground r) (current_background r) (title r) (current_hyperlink r) (current_hyperlink_cells_remaining r) (color_scheme r) (reply_queue r) (input_queue r) v (input_queue_overflowed r) (scrollback r).
#[export] Instance upd_input_queue_overflowed : Setter input_queue_overflowed := fun v r => mkTerminal (parser r) (utf8 r) (primary r) (alternate r) (active_screen r) (screen_generation r) (modes r) (cursor_style r) (last_graphic_character r) (cursor_style_set r) (tab_stops r) (current_attributes r) (current_protected r) (protection r) (current_foreground r) (current_background r) (title r) (current_hyperlink r) (current_hyperlink_cells_remaining r) (color_scheme r) (reply_queue r) (input_queue r) (reply_queue_overflowed r) v (scrollback r).
#[export] Instance upd_scrollback : Setter scrollback := fun v r => mkTerminal (parser r) (utf8 r) (primary r) (alternate r) (active_screen r) (screen_generation r) (modes r) (cursor_style r) (last_graphic_character r) (cursor_style_set r) (tab_stops r) (current_attributes r) (current_protected r) (protection r) (current_foreground r) (current_background r) (title r) (current_hyperlink r) (current_hyperlink_cells_remaining r) (color_scheme r) (reply_queue r) (input_queue r) (reply_queue_overflowed r) (input_queue_overflowed r) v.

(** [t.modes.f = v]. *)
Definition set_mode {T} (f : TerminalModes -> T) `{!Setter f} (v : T) (t : Terminal) : Terminal :=
  t <| modes := (modes t) <| f := v |> |>.

(** ** The active buffer *)
Definition terminal_dimensions (t : Terminal) : Dimensions := dimensions (screen (primary t)).

(** [expect("alternate state exists while active")] is the [None]. *)
Definition active_buffer (t : Terminal) : option BufferState :=
  match active_screen t with Primary => Some (primary t) | Alternate => alternate t end.

Definition set_active (b : BufferState) (t : Terminal) : Terminal :=
  match active_screen t with
  | Primary => t <| primary := b |>
  | Alternate => t <| alternate := Some b |>
  end.

(** [active_buffer_mut] and what is done to the buffer it returns. *)
Definition with_active (f : BufferState -> option BufferState) (t : Terminal) : option Terminal :=
  b ← active_buffer t; b' ← f b; Some (set_active b' t).
Definition upd_active (f : BufferState -> BufferState) : Terminal -> option Terminal :=
  with_active (fun b => Some (f b)).
Definition on_screen (f : Screen -> option Screen) : Terminal -> option Terminal :=
  with_active (fun b => s ← f (screen b); Some (b <| screen := s |>)).

(** [Terminal::cursor]. *)
Definition terminal_cursor (t : Terminal) : Cursor :=
  match active_screen t with
  | Primary => cursor (primary t)
  | Alternate => match alternate t with Some a => cursor a | None => cursor (primary t) end
  end.

Definition set_cursor_column (c : nat) (b : BufferState) : BufferState :=
  b <| cursor := (cursor b) <| column := c |> |>.
Definition set_cursor_row (r : nat) (b : BufferState) : BufferState :=
  b <| cursor := (cursor b) <| row := r |> |>.

Definition clear_grapheme_anchor : Terminal -> option Terminal :=
  upd_active (fun b => b <| grapheme_anchor := None |>).
Definition clear_pending_wrap : Terminal -> option Terminal :=
  upd_active (fun b => b <| pending_wrap := false |>).

Definition drop_hyperlink (t : Terminal) : Terminal :=
  t <| current_hyperlink := None |> <| current_hyperlink_cells_remaining := 0 |>.

(** ** CSI parameters *)
Definition parameter_or (p : CsiParameters) (index default : nat) : nat :=
  match value p index with
  | Some 0%N | None => default
  | Some v => N.to_nat v
  end.
Definition raw_parameter (p : CsiParameters) (index default : nat) : nat :=
  from_option N.to_nat default (value p index).

(** ** Margins and bounds *)
Definition horizontal_margins (t : Terminal) : option ColumnSpan :=
  if left_right_margin_mode (modes t) then
    b ← active_buffer t; Some (mkSpan (scroll_left b) (scroll_right b))
  else Some (ColumnSpan_full (columns (terminal_dimensions t))).

Definition within (s : ColumnSpan) (column : nat) : bool :=
  (left s <=? column) && (column <=? right s).

Definition cursor_within_margins (t : Terminal) : option bool :=
  margins ← horizontal_margins t;
  b ← active_buffer t;
  Some (within margins (column (cursor b))).

Definition carriage_return_column (t : Terminal) : option nat :=
  margins ← horizontal_margins t;
  if origin_mode (modes t) then Some (left margins)
  else
    b ← active_buffer t;
    Some (if left margins <=? column (cursor b) then left margins else 0).

Definition relative_horizontal_bounds (t : Terminal) : option (nat * nat) :=
  margins ← horizontal_margins t;
  b ← active_buffer t;
  let col := column (cursor b) in
  Some (if left margins <=? col then left margins else 0,
        if col <=? right margins then right margins else columns (terminal_dimensions t) - 1).

Definition vertical_bounds (t : Terminal) : option (nat * nat) :=
  if origin_mode (modes t) then
    b ← active_buffer t; Some (scroll_top b, scroll_bottom b)
  else Some (0, rows (terminal_dimensions t) - 1).

Definition relative_vertical_bounds (t : Terminal) : option (nat * nat) :=
  b ← active_buffer t;
  let r := row (cursor b) in
  Some (if scroll_top b <=? r then scroll_top b else 0,
        if r <=? scroll_bottom b then scroll_bottom b else rows (terminal_dimensions t) - 1).

Definition wrap_geometry (t : Terminal) : option (nat * nat) :=
  inside ← cursor_within_margins t;
  if (inside : bool) then
    margins ← horizontal_margins t; Some (right margins + 1, left margins)
  else Some (columns (terminal_dimensions t), 0).

(** [self.active_buffer_mut().cursor.column = self.carriage_return_column()]. *)
Definition return_carriage (t : Terminal) : option Terminal :=
  c ← carriage_return_column t; upd_active (set_cursor_column c) t.

Definition home_cursor (t : Terminal) : option Terminal :=
  margins ← horizontal_margins t;
  upd_active (fun b =>
    b <| cursor := if origin_mode (modes t) then mkCursor (left margins) (scroll_top b)
                   else mkCursor 0 0 |>
      <| pending_wrap := false |>) t.

Section WithPlatform.
Context `{P : Platform}.

Definition erase_cell (t : Terminal) : Cell :=
  {| text := [SPACE]; text_capacity_bytes := compact_capacity 0 [SPACE]; width := Single;
     foreground := current_foreground t; background := current_background t;
     attributes := current_attributes t; hyperlink := None |}.

(** ** Scrolling *)
Definition retain_history (t : Terminal) (span : ColumnSpan) : bool :=
  let d := terminal_dimensions t in
  bool_decide (active_screen t = Primary)
  && (scroll_top (primary t) =? 0)
  && (scroll_bottom (primary t) + 1 =? rows d)
  && (left span =? 0) && (right span + 1 =? columns d).

(** The scroll [index] and [scroll_up] share: the rows that leave a full
    primary screen go to the history. *)
Definition scroll_region_up (count : nat) (span : ColumnSpan) (t : Terminal) : option Terminal :=
  b ← active_buffer t;
  '(removed, s) ← Screen.scroll_up (scroll_top b) (scroll_bottom b) count (erase_cell t) span (screen b);
  let t1 := set_active (b <| screen := s |>) t in
  if retain_history t span then
    sb ← push_rows removed (scrollback t1); Some (t1 <| scrollback := sb |>)
  else Some t1.

Definition index (t : Terminal) : option Terminal :=
  span ← horizontal_margins t;
  inside ← cursor_within_margins t;
  b ← active_buffer t;
  if row (cursor b) =? scroll_bottom b then
    if negb inside then Some t else scroll_region_up 1 span t
  else if row (cursor b) + 1 <? rows (terminal_dimensions t) then
    upd_active (set_cursor_row (row (cursor b) + 1)) t
  else Some t.

Definition reverse_index (t : Terminal) : option Terminal :=
  span ← horizontal_margins t;
  inside ← cursor_within_margins t;
  b ← active_buffer t;
  if row (cursor b) =? scroll_top b then
    if negb inside then Some t
    else on_screen (Screen.scroll_down (scroll_top b) (scroll_bottom b) 1 (erase_cell t) span) t
  else upd_active (set_cursor_row (row (cursor b) - 1)) t.

(** ** Printing *)
Definition place_cursor_after_cluster (anchor : Cursor) (width wrap_limit : nat) (auto_wrap : bool)
    (b : BufferState) : BufferState :=
  let at_limit := wrap_limit <=? column anchor + width in
  b <| cursor := mkCursor (if at_limit then column anchor else column anchor + width) (row anchor) |>
    <| pending_wrap := if at_limit then auto_wrap else false |>.

(** The row is marked as continuing, and the cursor goes to the next line. *)
Definition wrap_to (home : nat) (t : Terminal) : option Terminal :=
  t1 ← with_active (fun b =>
         s ← mark_soft_wrapped (row (cursor b)) (screen b);
         Some ((set_cursor_column home (b <| screen := s |>)) <| pending_wrap := false |>)) t;
  index t1.

(** [unicode.rs]. *)
Definition extends_grapheme (cluster : list N) (c : N) : bool :=
  if is_ascii c then false else grapheme_count (cluster ++ [c]) =? 1.
Definition grapheme_width (cluster : list N) : nat := Nat.min (str_width cluster) 2.

(** A cluster written at [at_], after which the cursor and anchor are placed. *)
Definition put_cluster (at_ : Cursor) (c : Cell) (anchor : option Cursor) (width limit : nat)
    (wrap : bool) (b : BufferState) : option BufferState :=
  s ← replace_cluster (column at_) (row at_) c (screen b);
  Some (place_cursor_after_cluster at_ width limit wrap
          (b <| screen := s |> <| grapheme_anchor := anchor |>)).

(** The cluster grew past [MAX_GRAPHEME_BYTES]. *)
Definition overflow_cluster (anchor : Cursor) (c : Cell) (t : Terminal) : option Terminal :=
  '(limit, _) ← wrap_geometry t;
  with_active (put_cluster anchor ((write_text [REPLACEMENT_CHARACTER] c) <| width := Single |>)
                 None 1 limit (auto_wrap (modes t))) t.

(** The cluster became wide at the wrap limit: it moves to the next line. *)
Definition carry_cluster (anchor : Cursor) (c : Cell) (limit home : nat) (t : Terminal)
    : option Terminal :=
  let linear := row anchor * columns (terminal_dimensions t) + column anchor in
  let fill := erase_cell t in
  t1 ← with_active (fun b =>
         s1 ← fill_linear linear (linear + 1) fill (screen b);
         s2 ← mark_soft_wrapped (row anchor) s1;
         Some ((set_cursor_column home (b <| screen := s2 |>)) <| pending_wrap := false |>)) t;
  t2 ← index t1;
  let at_ := terminal_cursor t2 in
  with_active (put_cluster at_ c (Some at_) 2 limit true) t2.

(** The cluster stays where it is, with its new text and width. *)
Definition rewrite_cluster (anchor : Cursor) (c : Cell) (old_width new_width limit : nat)
    (t : Terminal) : option Terminal :=
  let wrap := auto_wrap (modes t) in
  with_active (fun b =>
    if old_width =? new_width then
      s ← replace_cell (column anchor) (row anchor) c (screen b);
      Some (place_cursor_after_cluster anchor new_width limit wrap
              (b <| screen := s |> <| grapheme_anchor := Some anchor |>))
    else put_cluster anchor c (Some anchor) new_width limit wrap b) t.

(** The anchored cell [c] with a character appended that [extends_grapheme]
    accepts. *)
Definition extend_cluster (anchor : Cursor) (c : Cell) (ch : N) (t : Terminal) : option Terminal :=
  let c1 := write_text (text c ++ [ch]) c in
  let old_width := width_columns (width c) in
  let new_width := grapheme_width (text c1) in
  if new_width =? 0 then Some t
  else
    let c2 := c1 <| width := if new_width =? 2 then Double else Single |> in
    '(limit, home) ← wrap_geometry t;
    if (old_width =? 1) && (new_width =? 2) && (column anchor + 1 =? limit) then
      if negb (auto_wrap (modes t)) then
        with_active (fun b =>
          s ← replace_cluster (column anchor) (row anchor)
                ((write_text [REPLACEMENT_CHARACTER] c2) <| width := Single |>) (screen b);
          Some (b <| screen := s |> <| grapheme_anchor := Some anchor |>
                  <| pending_wrap := false |>)) t
      else carry_cluster anchor c2 limit home t
    else rewrite_cluster anchor c2 old_width new_width limit t.

(** [true] when the character became part of the cluster before the cursor. *)
Definition try_extend_grapheme (ch : N) (t : Terminal) : option (bool * Terminal) :=
  b ← active_buffer t;
  match grapheme_anchor b with
  | None => Some (false, t)
  | Some anchor =>
      match cell (screen b) (column anchor) (row anchor) with
      | None => Some (false, t)
      | Some c =>
          if is_continuation c || negb (extends_grapheme (text c) ch) then Some (false, t)
          else
            t' ← (if (MAX_GRAPHEME_BYTES <? usize_add (text_len (text c)) (len_utf8 ch))%N
                  then overflow_cluster anchor c t
                  else extend_cluster anchor c ch t);
            Some (true, t')
      end
  end.

Definition printed_attributes (t : Terminal) : Attributes :=
  if current_protected t then with_ (current_attributes t) PROTECTED else current_attributes t.

Definition printed_cell (ch : N) (width : nat) (t : Terminal) : Cell :=
  {| text := [ch]; text_capacity_bytes := compact_capacity 0 [ch];
     width := if width =? 2 then Double else Single;
     foreground := current_foreground t; background := current_background t;
     attributes := printed_attributes t; hyperlink := current_hyperlink t |}.

(** One printed cell is charged to the hyperlink's allowance. *)
Definition spend_hyperlink (t : Terminal) : Terminal :=
  if 0 <? current_hyperlink_cells_remaining t then
    let remaining := current_hyperlink_cells_remaining t - 1 in
    t <| current_hyperlink_cells_remaining := remaining |>
      <| current_hyperlink := if remaining =? 0 then None else current_hyperlink t |>
  else t.

(** The last part of [print]: insertion, and the cluster at the cursor. *)
Definition print_at_cursor (ch : N) (width limit : nat) (t : Terminal) : option Terminal :=
  t1 ← (if insert_mode (modes t) then
          let c := terminal_cursor t in
          on_screen (Screen.insert_characters (column c) (row c) width (erase_cell t)
                       (mkSpan 0 (limit - 1))) t
        else Some t);
  let at_ := terminal_cursor t1 in
  with_active (put_cluster at_ (printed_cell ch width t1) (Some at_) width limit
                 (auto_wrap (modes t1))) (spend_hyperlink t1).

(** A wide character that cannot fit and may not wrap prints U+FFFD instead,
    which is one column wide: a depth of two is enough. *)
Fixpoint print_fuel (fuel : nat) (ch : N) (t : Terminal) : option Terminal :=
  match fuel with
  | O => None
  | S fuel' =>
      '(extended, t) ← try_extend_grapheme ch t;
      if (extended : bool) then Some t
      else
        let width := default 0 (char_width ch) in
        if width =? 0 then clear_grapheme_anchor t
        else
          let t := t <| last_graphic_character := Some ch |> in
          b ← active_buffer t;
          t ← (if pending_wrap b && auto_wrap (modes t) then
                 '(_, home) ← wrap_geometry t; wrap_to home t
               else Some t);
          '(limit, home) ← wrap_geometry t;
          let width := Nat.min width 2 in
          if (width =? 2) && (column (terminal_cursor t) + 1 =? limit) then
            if auto_wrap (modes t) then
              t ← wrap_to home t; print_at_cursor ch width limit t
            else print_fuel fuel' REPLACEMENT_CHARACTER t
          else print_at_cursor ch width limit t
  end.
Definition print : N -> Terminal -> option Terminal := print_fuel 2.

(** REP. *)
Definition repeat_preceding_character (p : CsiParameters) (t : Terminal) : option Terminal :=
  match last_graphic_character t with
  | None => Some t
  | Some ch => for_each (fun _ => print ch) (range 0 (parameter_or p 0 1)) t
  end.
End WithPlatform.

(** ** Tab stops *)

(** The first [true] from [from] on, with its index. *)
Fixpoint next_stop (stops : list bool) (column : nat) : option nat :=
  match stops with
  | [] => None
  | b :: stops' => if (b : bool) then Some column else next_stop stops' (S column)
  end.

Definition tab (t : Terminal) : option Terminal :=
  let col := column (terminal_cursor t) in
  margins ← horizontal_margins t;
  let limit := if right margins <? col then columns (terminal_dimensions t) - 1 else right margins in
  let next := Nat.min (default limit (next_stop (drop (col + 1) (tab_stops t)) (col + 1)))
                (Nat.max limit col) in
  upd_active (set_cursor_column next) t.

Definition backward_tab (t : Terminal) : option Terminal :=
  let col := column (terminal_cursor t) in
  upd_active (set_cursor_column (extent (take col (tab_stops t)) - 1)) t.

Definition default_tab_stops (d : Dimensions) : list bool :=
  map (fun column => negb (column =? 0) && (column mod 8 =? 0)) (range 0 (columns d)).
Definition resized_tab_stops (existing : list bool) (d : Dimensions) : list bool :=
  map (fun column => default (negb (column =? 0) && (column mod 8 =? 0)) (existing !! column))
    (range 0 (columns d)).

Definition set_tab_stop (t : Terminal) : Terminal :=
  t <| tab_stops := <[column (terminal_cursor t) := true]> (tab_stops t) |>.
Definition clear_tab_stops (p : CsiParameters) (t : Terminal) : Terminal :=
  match raw_parameter p 0 0 with
  | 0 => t <| tab_stops := <[column (terminal_cursor t) := false]> (tab_stops t) |>
  | 3 => t <| tab_stops := map (fun _ => false) (tab_stops t) |>
  | _ => t
  end.

(** ** Cursor motion *)
Definition move_vertical (p : CsiParameters) (down : bool) (t : Terminal) : option Terminal :=
  let count := parameter_or p 0 1 in
  '(top, bottom) ← relative_vertical_bounds t;
  upd_active (fun b =>
    (set_cursor_row (if down then Nat.min (row (cursor b) + count) bottom
                     else Nat.max (row (cursor b) - count) top) b) <| pending_wrap := false |>) t.

(** The loop of [move_cursor_back]; each further pass is one row up, so the
    cursor's row bounds the passes. *)
Fixpoint move_back_loop (fuel left right : nat) (reverse_wrap : bool) (remaining : nat)
    (b : BufferState) : option BufferState :=
  match fuel with
  | O => None
  | S fuel' =>
      let step := Nat.min remaining (column (cursor b) - left) in
      let b := set_cursor_column (column (cursor b) - step) b in
      let remaining := remaining - step in
      let r := row (cursor b) in
      if (remaining =? 0) || negb reverse_wrap || ((r =? scroll_top b) || (r =? 0)) then Some b
      else if bool_decide (row_soft_wrapped (screen b) (r - 1) = Some true) then
        move_back_loop fuel' left right reverse_wrap (remaining - 1)
          (b <| cursor := mkCursor right (r - 1) |>)
      else Some b
  end.

Definition move_cursor_back (count : nat) (t : Terminal) : option Terminal :=
  '(left, right) ← relative_horizontal_bounds t;
  with_active (fun b =>
    b' ← move_back_loop (S (row (cursor b))) left right (reverse_wrap (modes t)) count b;
    Some (b' <| pending_wrap := false |>)) t.

Definition move_horizontal (p : CsiParameters) (forward : bool) (t : Terminal) : option Terminal :=
  let count := parameter_or p 0 1 in
  if negb forward then move_cursor_back count t
  else
    '(_, right) ← relative_horizontal_bounds t;
    upd_active (fun b =>
      (set_cursor_column (Nat.min (column (cursor b) + count) right) b) <| pending_wrap := false |>) t.

Definition end_logical_line (t : Terminal) : option Terminal :=
  with_active (fun b => s ← clear_soft_wrapped (row (cursor b)) (screen b);
                        Some (b <| screen := s |>)) t.

Definition absolute_column (requested : nat) (t : Terminal) : option nat :=
  if origin_mode (modes t) then
    margins ← horizontal_margins t; Some (Nat.min (left margins + requested) (right margins))
  else Some (Nat.min requested (columns (terminal_dimensions t) - 1)).

Definition absolute_row_of (requested : nat) (t : Terminal) : option nat :=
  '(top, bottom) ← vertical_bounds t;
  Some (if origin_mode (modes t) then Nat.min (top + requested) bottom else Nat.min requested bottom).

Definition cursor_horizontal_absolute (p : CsiParameters) (origin_relative : bool) (t : Terminal)
    : option Terminal :=
  let requested := parameter_or p 0 1 - 1 in
  c ← (if origin_relative then absolute_column requested t
       else Some (Nat.min requested (columns (terminal_dimensions t) - 1)));
  upd_active (fun b => (set_cursor_column c b) <| pending_wrap := false |>) t.

Definition cursor_position (p : CsiParameters) (t : Terminal) : option Terminal :=
  r ← absolute_row_of (parameter_or p 0 1 - 1) t;
  c ← absolute_column (parameter_or p 1 1 - 1) t;
  upd_active (fun b => b <| cursor := mkCursor c r |> <| pending_wrap := false |>) t.

Definition vertical_position_absolute (p : CsiParameters) (t : Terminal) : option Terminal :=
  r ← absolute_row_of (parameter_or p 0 1 - 1) t;
  upd_active (fun b => (set_cursor_row r b) <| pending_wrap := false |>) t.
