(* ===== verification/TerminalOps.v ===== *)
(** * The terminal: editing, attributes, modes and reports

    The rest of the operations of [terminal.rs], [Terminal::apply], byte
    ingestion, resizing, resets and the recovery check.  [None] is a panic. *)

From Stdlib Require Import NArith Bool.
From S2P Require Import Prelude Cell Utf8 Hyperlink Parser Screen History Input Buffer Terminal.

Section WithPlatform.
Context `{P : Platform}.

(** ** Erasing *)
Definition spares_protected_cells (t : Terminal) (selective : bool) : bool :=
  selective || bool_decide (protection t = ProtectionIso).

Definition fill_linear_maybe (spare : bool) (start stop : nat) (c : Cell) : Screen -> option Screen :=
  if spare then fill_linear_sparing_protected start stop c else fill_linear start stop c.

Definition erase_display (p : CsiParameters) (selective : bool) (t : Terminal) : option Terminal :=
  let mode := raw_parameter p 0 0 in
  if mode =? 3 then
    Some (match active_screen t with
          | Primary => t <| scrollback := clear (scrollback t) |>
          | Alternate => t
          end)
  else
    let spare := spares_protected_cells t selective in
    let cols := columns (terminal_dimensions t) in
    let rws := rows (terminal_dimensions t) in
    let c := erase_cell t in
    let start := row (terminal_cursor t) * cols + column (terminal_cursor t) in
    on_screen (fun s =>
      match mode with
      | 0 => fill_linear_maybe spare start (cols * rws) c s
      | 1 => fill_linear_maybe spare 0 (start + 1) c s
      | 2 => if spare then fill_linear_sparing_protected 0 (cols * rws) c s
             else Some (clear_all c s)
      | _ => Some s
      end) t.

Definition erase_line (p : CsiParameters) (selective : bool) (t : Terminal) : option Terminal :=
  let spare := spares_protected_cells t selective in
  let cols := columns (terminal_dimensions t) in
  let start := row (terminal_cursor t) * cols in
  let col := column (terminal_cursor t) in
  let fill from to := on_screen (fill_linear_maybe spare from to (erase_cell t)) t in
  match raw_parameter p 0 0 with
  | 0 => fill (start + col) (start + cols)
  | 1 => fill start (start + col + 1)
  | 2 => fill start (start + cols)
  | _ => Some t
  end.

Definition erase_characters (p : CsiParameters) (t : Terminal) : option Terminal :=
  let count := parameter_or p 0 1 in
  let cols := columns (terminal_dimensions t) in
  let start := row (terminal_cursor t) * cols + column (terminal_cursor t) in
  let stop := Nat.min (start + count) ((row (terminal_cursor t) + 1) * cols) in
  on_screen (fill_linear_maybe (spares_protected_cells t false) start stop (erase_cell t)) t.

(** ** Rectangles *)

(** The corner coordinates are measured from. *)
Definition rectangle_origin (t : Terminal) : option (nat * nat) :=
  if origin_mode (modes t) then
    margins ← horizontal_margins t; b ← active_buffer t; Some (scroll_top b, left margins)
  else Some (0, 0).

Definition rectangle_from (p : CsiParameters) (first : nat) (t : Terminal)
    : option (option Rectangle) :=
  let rws := rows (terminal_dimensions t) in
  let cols := columns (terminal_dimensions t) in
  '(row_origin, column_origin) ← rectangle_origin t;
  let top := row_origin + parameter_or p first 1 - 1 in
  let left := column_origin + parameter_or p (first + 1) 1 - 1 in
  let bottom := row_origin + parameter_or p (first + 2) (rws - row_origin) - 1 in
  let right := column_origin + parameter_or p (first + 3) (cols - column_origin) - 1 in
  if (bottom <? top) || (right <? left) then Some None
  else
    let bottom := Nat.min bottom (rws - 1) in
    let right := Nat.min right (cols - 1) in
    if (bottom <? top) || (right <? left) then Some None
    else Some (Some (mkRectangle top left bottom right)).

(** DECFRA. *)
Definition fill_rectangle (p : CsiParameters) (t : Terminal) : option Terminal :=
  match value p 0 with
  | Some v =>
      if in_range 32 126 v || in_range 160 255 v then
        rect ← rectangle_from p 1 t;
        match rect with
        | None => Some t
        | Some r => on_screen (Screen.fill_rectangle r (write_text [v] (erase_cell t)) false) t
        end
      else Some t
  | None => Some t
  end.

(** DECERA and DECSERA. *)
Definition erase_rectangle (p : CsiParameters) (selective : bool) (t : Terminal) : option Terminal :=
  rect ← rectangle_from p 0 t;
  match rect with
  | None => Some t
  | Some r =>
      let spare := if selective then bool_decide (protection t = ProtectionDec)
                   else spares_protected_cells t false in
      on_screen (Screen.fill_rectangle r (erase_cell t) spare) t
  end.

(** DECCRA. *)
Definition copy_rectangle (p : CsiParameters) (t : Terminal) : option Terminal :=
  rect ← rectangle_from p 0 t;
  match rect with
  | None => Some t
  | Some source =>
      '(row_origin, column_origin) ← rectangle_origin t;
      let corner index origin limit := Nat.min (origin + parameter_or p index 1 - 1) (limit - 1) in
      let top := corner 5 row_origin (rows (terminal_dimensions t)) in
      let left := corner 6 column_origin (columns (terminal_dimensions t)) in
      on_screen (Screen.copy_rectangle source top left) t
  end.

(** ** Columns and characters *)
Definition vertical_region (t : Terminal) : option (nat * nat) :=
  b ← active_buffer t; Some (scroll_top b, scroll_bottom b).

(** The same edit in every row of the vertical region. *)
Definition edit_region (edit : nat -> Screen -> option Screen) (t : Terminal) : option Terminal :=
  '(top, bottom) ← vertical_region t;
  for_each (fun row => on_screen (edit row)) (range_incl top bottom) t.

(** [if !self.cursor_within_margins() { return; }], then the margins. *)
Definition inside_margins (act : ColumnSpan -> Terminal -> option Terminal) (t : Terminal)
    : option Terminal :=
  inside ← cursor_within_margins t;
  if negb inside then Some t else span ← horizontal_margins t; act span t.

Definition insert_columns (p : CsiParameters) : Terminal -> option Terminal :=
  inside_margins (fun span t =>
    edit_region (fun row => Screen.insert_characters (column (terminal_cursor t)) row
                              (parameter_or p 0 1) (erase_cell t) span) t).

Definition delete_columns (p : CsiParameters) : Terminal -> option Terminal :=
  inside_margins (fun span t =>
    edit_region (fun row => Screen.delete_characters (column (terminal_cursor t)) row
                              (parameter_or p 0 1) (erase_cell t) span) t).

Definition back_index (t : Terminal) : option Terminal :=
  margins ← horizontal_margins t;
  let col := column (terminal_cursor t) in
  if col =? left margins then
    edit_region (fun row => Screen.insert_characters (left margins) row 1 (erase_cell t) margins) t
  else if 0 <? col then upd_active (set_cursor_column (col - 1)) t
  else Some t.

Definition forward_index (t : Terminal) : option Terminal :=
  margins ← horizontal_margins t;
  let col := column (terminal_cursor t) in
  if col =? right margins then
    edit_region (fun row => Screen.delete_characters (left margins) row 1 (erase_cell t) margins) t
  else if col + 1 <? columns (terminal_dimensions t) then upd_active (set_cursor_column (col + 1)) t
  else Some t.

Definition insert_characters (p : CsiParameters) : Terminal -> option Terminal :=
  inside_margins (fun span t =>
    let c := terminal_cursor t in
    on_screen (Screen.insert_characters (column c) (row c) (parameter_or p 0 1) (erase_cell t) span) t).

Definition delete_characters (p : CsiParameters) : Terminal -> option Terminal :=
  inside_margins (fun span t =>
    let c := terminal_cursor t in
    on_screen (Screen.delete_characters (column c) (row c) (parameter_or p 0 1) (erase_cell t) span) t).

(** ** Lines *)
Definition in_scroll_region (b : BufferState) : bool :=
  (scroll_top b <=? row (cursor b)) && (row (cursor b) <=? scroll_bottom b).

Definition insert_lines (p : CsiParameters) : Terminal -> option Terminal :=
  inside_margins (fun span t =>
    b ← active_buffer t;
    if in_scroll_region b then
      on_screen (Screen.insert_lines (row (cursor b)) (scroll_bottom b) (parameter_or p 0 1)
                   (erase_cell t) span) t
    else Some t).

Definition delete_lines (p : CsiParameters) : Terminal -> option Terminal :=
  inside_margins (fun span t =>
    b ← active_buffer t;
    if in_scroll_region b then
      on_screen (Screen.delete_lines (row (cursor b)) (scroll_bottom b) (parameter_or p 0 1)
                   (erase_cell t) span) t
    else Some t).

Definition scroll_up (p : CsiParameters) (t : Terminal) : option Terminal :=
  span ← horizontal_margins t; scroll_region_up (parameter_or p 0 1) span t.

Definition scroll_down (p : CsiParameters) (t : Terminal) : option Terminal :=
  span ← horizontal_margins t;
  b ← active_buffer t;
  on_screen (Screen.scroll_down (scroll_top b) (scroll_bottom b) (parameter_or p 0 1)
               (erase_cell t) span) t.

Definition set_scroll_region (p : CsiParameters) (t : Terminal) : option Terminal :=
  let rws := rows (terminal_dimensions t) in
  let top := parameter_or p 0 1 - 1 in
  let bottom := parameter_or p 1 rws - 1 in
  if (bottom <=? top) || (rws <=? bottom) then Some t
  else
    t1 ← upd_active (fun b =>
           b <| scroll_top := top |> <| scroll_bottom := bottom |>
             <| cursor := mkCursor 0 (if origin_mode (modes t) then top else 0) |>
             <| pending_wrap := false |>) t;
    home_cursor t1.

Definition set_horizontal_margins (p : CsiParameters) (t : Terminal) : option Terminal :=
  let cols := columns (terminal_dimensions t) in
  let left := parameter_or p 0 1 - 1 in
  let right := parameter_or p 1 cols - 1 in
  if (right <=? left) || (cols <=? right) then Some t
  else
    t1 ← upd_active (fun b => b <| scroll_left := left |> <| scroll_right := right |>) t;
    home_cursor t1.

(** ** Saved cursors *)
Definition save_dec (t : Terminal) : option Terminal :=
  upd_active (fun b =>
    b <| dec_saved := Some
           {| dec_cursor := cursor b; dec_pending_wrap := pending_wrap b;
              dec_attributes := current_attributes t; dec_foreground := current_foreground t;
              dec_background := current_background t; dec_origin_mode := origin_mode (modes t);
              dec_protected := current_protected t; dec_protection := protection t |} |>) t.

Definition set_pen (a : Attributes) (fg bg : Color) (t : Terminal) : Terminal :=
  t <| current_attributes := a |> <| current_foreground := fg |> <| current_background := bg |>.
Definition set_protection (protected : bool) (source : ProtectionSource) (t : Terminal) : Terminal :=
  t <| current_protected := protected |> <| protection := source |>.

Definition restore_dec (t : Terminal) : option Terminal :=
  b ← active_buffer t;
  match dec_saved b with
  | None =>
      upd_active (fun b => b <| cursor := mkCursor 0 0 |> <| pending_wrap := false |>)
        (set_protection false ProtectionNone (set_pen NONE Default Default
           (set_mode origin_mode false t)))
  | Some saved =>
      let d := terminal_dimensions t in
      t1 ← with_active (fun b =>
             let c := clamp_cursor d (dec_cursor saved) in
             r ← (if dec_origin_mode saved then clamp (scroll_top b) (scroll_bottom b) (row c)
                  else Some (row c));
             Some (b <| cursor := mkCursor (column c) r |>
                     <| pending_wrap := dec_pending_wrap saved && (column c + 1 =? columns d) |>)) t;
      Some (set_protection (dec_protected saved) (dec_protection saved)
              (set_mode origin_mode (dec_origin_mode saved)
                 (set_pen (dec_attributes saved) (dec_foreground saved) (dec_background saved) t1)))
  end.

Definition save_ansi (t : Terminal) : option Terminal :=
  upd_active (fun b =>
    b <| ansi_saved := Some {| ansi_cursor := terminal_cursor t; ansi_protected := current_protected t;
                               ansi_protection := protection t |} |>) t.

Definition restore_ansi (t : Terminal) : option Terminal :=
  let t := set_mode origin_mode false t in
  b ← active_buffer t;
  match ansi_saved b with
  | None =>
      upd_active (fun b => b <| cursor := mkCursor 0 0 |> <| pending_wrap := false |>)
        (set_protection false ProtectionNone t)
  | Some saved =>
      let d := terminal_dimensions t in
      t1 ← upd_active (fun b => b <| cursor := clamp_cursor d (ansi_cursor saved) |>
                                  <| pending_wrap := false |>) t;
      Some (set_protection (ansi_protected saved) (ansi_protection saved) t1)
  end.

(** ** SGR *)
Definition reset_graphics_rendition (t : Terminal) : Terminal :=
  drop_hyperlink (set_pen NONE Default Default t).

(** The arms that change the attributes alone. *)
Definition sgr_attributes (code : N) (a : Attributes) : Attributes :=
  switch code
    [([1], with_ a BOLD); ([2], with_ a FAINT); ([3], with_ a ITALIC);
     ([4], with_ (without a DOUBLE_UNDERLINE) UNDERLINE);
     ([5], with_ a SLOW_BLINK); ([6], with_ a RAPID_BLINK); ([7], with_ a INVERSE);
     ([8], with_ a CONCEALED); ([9], with_ a STRIKETHROUGH);
     ([21], with_ (without a UNDERLINE) DOUBLE_UNDERLINE);
     ([22], without (without a BOLD) FAINT); ([23], without a ITALIC);
     ([24], without (without a UNDERLINE) DOUBLE_UNDERLINE);
     ([25], without (without a SLOW_BLINK) RAPID_BLINK);
     ([27], without a INVERSE); ([28], without a CONCEALED); ([29], without a STRIKETHROUGH)]%N a.

(** The arms that set a colour of the sixteen, or the default. *)
Definition sgr_foreground (code : N) (c : Color) : Color :=
  if in_range 30 37 code then Indexed (code - 30)
  else if (code =? 39)%N then Default
  else if in_range 90 97 code then Indexed (code - 90 + 8)
  else c.
Definition sgr_background (code : N) (c : Color) : Color :=
  if in_range 40 47 code then Indexed (code - 40)
  else if (code =? 49)%N then Default
  else if in_range 100 107 code then Indexed (code - 100 + 8)
  else c.

Definition u8_of (v : option N) : option N :=
  n ← v; if (n <=? 255)%N then Some n else None.
Definition indexed_at (p : CsiParameters) (i : nat) : option Color :=
  n ← u8_of (value p i); Some (Indexed n).
Definition rgb_at (p : CsiParameters) (i : nat) : option Color :=
  r ← u8_of (value p i); g ← u8_of (value p (i + 1)); b ← u8_of (value p (i + 2));
  Some (RgbColor r g b).
(** The parameters [first..=last] are all introduced by [s]. *)
Definition separated (p : CsiParameters) (s : ParameterSeparator) (first last : nat) : bool :=
  forallb (fun i => bool_decide (separator p i = Some s)) (range_incl first last).

(** The colour [38] or [48] at [index] sets, when the mode is [mode]. *)
Definition extended_color (p : CsiParameters) (index : nat) (mode : N) : option Color :=
  match separator p (index + 1), mode with
  | Some Semicolon, 5%N =>
      if separated p Semicolon (index + 2) (index + 2) then indexed_at p (index + 2) else None
  | Some Semicolon, 2%N =>
      if separated p Semicolon (index + 2) (index + 4) then rgb_at p (index + 2) else None
  | Some Colon, 5%N =>
      if separated p Colon (index + 2) (index + 2) then indexed_at p (index + 2) else None
  | Some Colon, 2%N =>
      if separated p Colon (index + 2) (index + 5) then rgb_at p (index + 3)
      else if separated p Colon (index + 2) (index + 4) then rgb_at p (index + 2) else None
  | _, _ => None
  end.

(** The last parameter it consumes. *)
Definition extended_color_end (p : CsiParameters) (index : nat) (mode : N) : nat :=
  match separator p (index + 1), mode with
  | Some Semicolon, 5%N => index + 2
  | Some Semicolon, 2%N => index + 4
  | Some Colon, 5%N => index + 2
  | Some Colon, 2%N => if bool_decide (separator p (index + 5) = Some Colon) then index + 5
                       else index + 4
  | _, _ => index
  end.

Definition set_extended_color (p : CsiParameters) (index : nat) (foreground : bool) (t : Terminal)
    : nat * Terminal :=
  match value p (index + 1) with
  | None => (index, t)
  | Some mode =>
      (extended_color_end p index mode,
       match extended_color p index mode with
       | Some color => if foreground then t <| current_foreground := color |>
                       else t <| current_background := color |>
       | None => t
       end)
  end.

(** One pass of the loop: the index it leaves, before [index += 1]. *)
Definition sgr_step (p : CsiParameters) (index : nat) (code : N) (t : Terminal) : nat * Terminal :=
  if (code =? 0)%N then (index, reset_graphics_rendition t)
  else if (code =? 38)%N || (code =? 48)%N then set_extended_color p index (code =? 38)%N t
  else (index, t <| current_attributes := sgr_attributes code (current_attributes t) |>
                 <| current_foreground := sgr_foreground code (current_foreground t) |>
                 <| current_background := sgr_background code (current_background t) |>).

(** Every pass consumes a parameter, so their number bounds the passes. *)
Fixpoint sgr_loop (fuel : nat) (p : CsiParameters) (index : nat) (t : Terminal) : Terminal :=
  match fuel with
  | O => t
  | S fuel' =>
      if index <? params_length p then
        match value p index with
        | None => t
        | Some code => let '(index, t) := sgr_step p index code t in sgr_loop fuel' p (S index) t
        end
      else t
  end.

Definition set_graphics_rendition (p : CsiParameters) (t : Terminal) : Terminal :=
  if params_is_empty p then reset_graphics_rendition t else sgr_loop (params_length p) p 0 t.

(** ** The two screens *)
Definition advance_screen_generation (t : Terminal) : Terminal :=
  t <| screen_generation := saturating_add u64_max (screen_generation t) 1 |>.

Definition clear_alternate (c : Cell) (d : Dimensions) (b : BufferState) : BufferState :=
  b <| screen := clear_all c (screen b) |> <| cursor := mkCursor 0 0 |> <| scroll_top := 0 |>
    <| scroll_bottom := rows d - 1 |> <| pending_wrap := false |> <| grapheme_anchor := None |>.

Definition enter_alternate (clear : bool) (t : Terminal) : option Terminal :=
  match active_screen t with
  | Alternate => Some t
  | Primary =>
      let t := drop_hyperlink t in
      match match alternate t with
            | Some a => inr a
            | None => BufferState_new (terminal_dimensions t)
            end with
      | inl _ => Some t
      | inr a =>
          let a := if clear then clear_alternate (erase_cell t) (terminal_dimensions t) a else a in
          let t := advance_screen_generation (t <| alternate := Some a |> <| active_screen := Alternate |>) in
          upd_active (fun b => b <| screen := mark_all_dirty (screen b) |>)
            (set_mode alternate_screen true t)
      end
  end.

Definition leave_alternate (reset : bool) (t : Terminal) : Terminal :=
  let t := drop_hyperlink t in
  let t := match active_screen t with
           | Alternate =>
               let t := advance_screen_generation (t <| active_screen := Primary |>) in
               t <| primary := (primary t) <| screen := mark_all_dirty (screen (primary t)) |> |>
           | Primary => t
           end in
  let t := if reset then t <| alternate := buffer_reset <$> alternate t |> else t in
  set_mode alternate_screen false t.

(** ** Modes *)
Definition set_mouse_tracking (requested : MouseTrackingMode) (enabled : bool) (t : Terminal)
    : Terminal :=
  if enabled then set_mode mouse_tracking requested t
  else if bool_decide (mouse_tracking (modes t) = requested) then set_mode mouse_tracking MouseNone t
  else t.

Definition set_ansi_mode (enabled : bool) (mode : N) (t : Terminal) : Terminal :=
  switch mode
    [([2], set_mode keyboard_locked enabled t); ([4], set_mode insert_mode enabled t);
     ([20], set_mode line_feed_new_line enabled t)]%N t.

(** The modes that set a flag and do no more. *)
Definition set_flag_mode (enabled : bool) (mode : N) (t : Terminal) : Terminal :=
  switch mode
    [([1], set_mode application_cursor enabled t); ([25], set_mode cursor_visible enabled t);
     ([45], set_mode reverse_wrap enabled t); ([66], set_mode application_keypad enabled t);
     ([67], set_mode backarrow_sends_backspace enabled t);
     ([9], set_mouse_tracking X10 enabled t); ([1000], set_mouse_tracking ButtonEvent enabled t);
     ([1002], set_mouse_tracking ButtonMotion enabled t);
     ([1003], set_mouse_tracking AnyMotion enabled t);
     ([1004], set_mode focus_reporting enabled t); ([1006], set_mode sgr_mouse enabled t);
     ([2004], set_mode bracketed_paste enabled t)]%N t.

Definition set_margin_mode (enabled : bool) (t : Terminal) : option Terminal :=
  let t := set_mode left_right_margin_mode enabled t in
  if enabled then Some t
  else upd_active (fun b => b <| scroll_left := 0 |>
                              <| scroll_right := columns (terminal_dimensions t) - 1 |>) t.

Definition set_private_mode (enabled : bool) (mode : N) (t : Terminal) : option Terminal :=
  switch mode
    [([6], home_cursor (set_mode origin_mode enabled t));
     ([7], let t := set_mode auto_wrap enabled t in
           if enabled then Some t else clear_pending_wrap t);
     ([69], set_margin_mode enabled t);
     ([47], if enabled then enter_alternate false t else Some (leave_alternate false t));
     ([1047], if enabled then enter_alternate true t else Some (leave_alternate true t));
     ([1048], if enabled then save_dec t else restore_dec t);
     ([1049], if enabled then t ← save_dec t; enter_alternate true t
              else restore_dec (leave_alternate true t))]%N
    (Some (set_flag_mode enabled mode t)).

Definition set_modes (is_private enabled : bool) (p : CsiParameters) (t : Terminal)
    : option Terminal :=
  for_each (fun i t =>
    match value p i with
    | None => Some t
    | Some mode => if is_private then set_private_mode enabled mode t
                   else Some (set_ansi_mode enabled mode t)
    end) (range 0 (params_length p)) t.

Definition set_cursor_style_of (p : CsiParameters) (t : Terminal) : Terminal :=
  let set s := t <| cursor_style := s |> <| cursor_style_set := true |> in
  switch (N.of_nat (raw_parameter p 0 0))
    [([0; 1], set BlinkingBlock); ([2], set SteadyBlock); ([3], set BlinkingUnderline);
     ([4], set SteadyUnderline); ([5], set BlinkingBar); ([6], set SteadyBar)]%N t.

(** ** Replies *)
Definition queue_reply (bs : list N) (t : Terminal) : Terminal :=
  let '(result, queue) := queue_transport_bytes (reply_queue t) bs in
  t <| reply_queue := queue |>
    <| reply_queue_overflowed := reply_queue_overflowed t || overflowed result |>.

Definition CSI : list N := [ESC; 91%N].
Definition DCS : list N := [ESC; 80%N].
Definition ST : list N := [ESC; 92%N].

(** OSC 4, 10, 11 and 12. *)
Definition color_reply (t : Terminal) (q : ColorQuery) (terminator : StringTerminator)
    : option (list N) :=
  let reply selector index color :=
    [ESC; 93%N] ++ selector ++ bytes ";" ++ index ++ to_xparsecolor color
      ++ terminator_bytes terminator in
  match q with
  | Palette index => color ← palette (color_scheme t) index;
                     Some (reply (bytes "4") (decimal index ++ bytes ";") color)
  | Foreground => Some (reply (bytes "10") [] (scheme_foreground (color_scheme t)))
  | Background => Some (reply (bytes "11") [] (scheme_background (color_scheme t)))
  | CursorColor => Some (reply (bytes "12") [] (scheme_cursor (color_scheme t)))
  end.

Definition report_colors (queries : list ColorQuery) (terminator : StringTerminator) (t : Terminal)
    : option Terminal :=
  for_each (fun q t => bs ← color_reply t q terminator; Some (queue_reply bs t)) queries t.

Definition apply_osc_action (action : option OscAction) (t : Terminal) : option Terminal :=
  match action with
  | Some (SetTitle s) => Some (t <| title := s |>)
  | Some (SetHyperlink h) =>
      Some (t <| current_hyperlink_cells_remaining := match h with Some _ => 4096 | None => 0 end |>
              <| current_hyperlink := h |>)
  | Some (ReportColors queries terminator) => report_colors queries terminator t
  | None => Some t
  end.

Definition window_operation (p : CsiParameters) (t : Terminal) : option Terminal :=
  b ← active_buffer t;
  let d := dimensions (screen b) in
  let reply kind :=
    queue_reply (CSI ++ kind ++ bytes ";" ++ decimal_nat (rows d) ++ bytes ";"
                   ++ decimal_nat (columns d) ++ bytes "t") t in
  Some (match value p 0 with
        | Some 18%N => reply (bytes "8")
        | Some 19%N => reply (bytes "9")
        | _ => t
        end).

Definition cursor_report (t : Terminal) : option (list N) :=
  let c := terminal_cursor t in
  margins ← horizontal_margins t;
  r ← (if origin_mode (modes t) then b ← active_buffer t; Some (row c - scroll_top b + 1)
       else Some (row c + 1));
  let col := if origin_mode (modes t) && (left margins <=? column c)
             then column c - left margins + 1 else column c + 1 in
  Some (CSI ++ decimal_nat r ++ bytes ";" ++ decimal_nat col ++ bytes "R").

Definition device_status (p : CsiParameters) (t : Terminal) : option Terminal :=
  match value p 0 with
  | Some 5%N => Some (queue_reply (CSI ++ bytes "0n") t)
  | Some 6%N => bs ← cursor_report t; Some (queue_reply bs t)
  | _ => Some t
  end.

Definition dec_device_reply (p : CsiParameters) (t : Terminal) : option (list N) :=
  let c := terminal_cursor t in
  match value p 0 with
  | Some 6%N => Some (CSI ++ bytes "?" ++ decimal_nat (row c + 1) ++ bytes ";"
                        ++ decimal_nat (column c + 1) ++ bytes "R")
  | Some 15%N => Some (CSI ++ bytes "?13n")
  | Some 25%N => Some (CSI ++ bytes "?21n")
  | Some 53%N | Some 55%N => Some (CSI ++ bytes "?50n")
  | Some 56%N => Some (CSI ++ bytes "?57;0n")
  | Some 62%N => Some (CSI ++ bytes "0*{")
  | Some 63%N => Some (DCS ++ decimal (default 0%N (value p 1)) ++ bytes "!~0000" ++ ST)
  | Some 75%N => Some (CSI ++ bytes "?70n")
  | Some 85%N => Some (CSI ++ bytes "?83n")
  | _ => None
  end.

Definition dec_device_status (p : CsiParameters) (t : Terminal) : Terminal :=
  match dec_device_reply p t with Some bs => queue_reply bs t | None => t end.

Definition device_attributes (secondary : bool) (t : Terminal) : Terminal :=
  queue_reply (CSI ++ if secondary then bytes ">0;0;0c" else bytes "?6c") t.

(** DECRQM. *)
Definition NOT_RECOGNIZED : N := 0.
Definition MODE_SET : N := 1.
Definition MODE_RESET : N := 2.
Definition PERMANENTLY_SET : N := 3.
Definition PERMANENTLY_RESET : N := 4.
Definition mode_state (set : bool) : N := if set then MODE_SET else MODE_RESET.

Definition ansi_mode_state (t : Terminal) (mode : N) : N :=
  switch mode
    [([2], mode_state (keyboard_locked (modes t))); ([4], mode_state (insert_mode (modes t)));
     ([20], mode_state (line_feed_new_line (modes t))); ([12], PERMANENTLY_SET);
     ([1; 5; 7; 10; 11; 13; 14; 15; 16; 17; 18; 19], PERMANENTLY_RESET)]%N NOT_RECOGNIZED.

Definition dec_mode_state (t : Terminal) (mode : N) : N :=
  let m := modes t in
  let tracking k := mode_state (bool_decide (mouse_tracking m = k)) in
  switch mode
    [([1], mode_state (application_cursor m)); ([6], mode_state (origin_mode m));
     ([7], mode_state (auto_wrap m)); ([9], tracking X10); ([25], mode_state (cursor_visible m));
     ([45], mode_state (reverse_wrap m)); ([47; 1047; 1049], mode_state (alternate_screen m));
     ([66], mode_state (application_keypad m)); ([67], mode_state (backarrow_sends_backspace m));
     ([69], mode_state (left_right_margin_mode m)); ([1000], tracking ButtonEvent);
     ([1002], tracking ButtonMotion); ([1003], tracking AnyMotion);
     ([1004], mode_state (focus_reporting m)); ([1006], mode_state (sgr_mouse m));
     ([2004], mode_state (bracketed_paste m))]%N
    (if in_range 2 5 mode || existsb (N.eqb mode) [8; 18; 19; 34; 35; 36; 42; 57; 60; 61; 64; 68; 73; 81]%N
        || in_range 95 106 mode
     then PERMANENTLY_RESET else NOT_RECOGNIZED).

Definition request_mode (is_private : bool) (p : CsiParameters) (t : Terminal) : Terminal :=
  match value p 0 with
  | None => t
  | Some mode =>
      let state := if is_private then dec_mode_state t mode else ansi_mode_state t mode in
      queue_reply (CSI ++ (if is_private then bytes "?" else []) ++ decimal mode ++ bytes ";"
                     ++ decimal state ++ bytes "$y") t
  end.

(** DECRQCRA. *)
Definition cell_checksum (c : option Cell) (sum : N) : N :=
  match c with
  | None => sum
  | Some c =>
      match text c with
      | [] => ((sum + SPACE) mod 65536)%N
      | cs => foldl (fun sum ch => (sum + ch mod 65536) mod 65536)%N sum cs
      end
  end.

Definition checksum (s : Screen) (top left bottom right : nat) : N :=
  foldl (fun sum r => foldl (fun sum c => cell_checksum (cell s c r) sum) sum (range left right))
    0%N (range top bottom).

Definition request_rectangle_checksum (p : CsiParameters) (t : Terminal) : option Terminal :=
  '(row_origin, row_limit, column_origin, column_limit) ←
    (if origin_mode (modes t) then
       margins ← horizontal_margins t;
       b ← active_buffer t;
       Some (scroll_top b, scroll_bottom b + 1, left margins, right margins + 1)
     else Some (0, rows (terminal_dimensions t), 0, columns (terminal_dimensions t)));
  let top := Nat.min (row_origin + parameter_or p 2 1 - 1) row_limit in
  let left := Nat.min (column_origin + parameter_or p 3 1 - 1) column_limit in
  let bottom := Nat.min (row_origin + parameter_or p 4 (row_limit - row_origin)) row_limit in
  let right := Nat.min (column_origin + parameter_or p 5 (column_limit - column_origin)) column_limit in
  sum ← (if (top <? bottom) && (left <? right) then
           b ← active_buffer t; Some (checksum (screen b) top left bottom right)
         else Some 0%N);
  Some (queue_reply (DCS ++ decimal (default 0%N (value p 0)) ++ bytes "!~" ++ hex4 true sum ++ ST) t).

(** DECRQSS. *)
Definition color_report (color : Color) (background : bool) : option (list N) :=
  let extended := if background then bytes "48" else bytes "38" in
  match color with
  | Default => None
  | Indexed index =>
      Some (if (index <? 8)%N then decimal ((if background then 40 else 30) + index)
            else if (index <? 16)%N then decimal ((if background then 100 else 90) + index - 8)
            else extended ++ bytes ":5:" ++ decimal index)
  | RgbColor r g b =>
      Some (extended ++ bytes ":2::" ++ decimal r ++ bytes ":" ++ decimal g ++ bytes ":" ++ decimal b)
  end.

Definition REPORTED_ATTRIBUTES : list (Attributes * N) :=
  [(BOLD, 1%N); (FAINT, 2%N); (ITALIC, 3%N); (UNDERLINE, 4%N); (DOUBLE_UNDERLINE, 21%N);
   (SLOW_BLINK, 5%N); (RAPID_BLINK, 6%N); (INVERSE, 7%N); (CONCEALED, 8%N); (STRIKETHROUGH, 9%N)].

(** [parameters.join(";")]. *)
Fixpoint join (sep : list N) (parts : list (list N)) : list N :=
  match parts with
  | [] => []
  | [part] => part
  | part :: parts' => part ++ sep ++ join sep parts'
  end.

Definition graphics_rendition_report (t : Terminal) : list N :=
  join (bytes ";")
    ([bytes "0"]
     ++ omap (fun '(a, code) => if contains (current_attributes t) a then Some (decimal code) else None)
          REPORTED_ATTRIBUTES
     ++ option_list (color_report (current_foreground t) false)
     ++ option_list (color_report (current_background t) true)).

Definition cursor_style_code (s : CursorStyle) : N :=
  match s with
  | BlinkingBlock => 1 | SteadyBlock => 2 | BlinkingUnderline => 3
  | SteadyUnderline => 4 | BlinkingBar => 5 | SteadyBar => 6
  end%N.

Definition status_report (selector : list N) (t : Terminal) : option (option (list N)) :=
  let pair a b := decimal_nat a ++ bytes ";" ++ decimal_nat b in
  if beq selector (bytes "m") then Some (Some (graphics_rendition_report t))
  else if beq selector (bytes "r") then
    b ← active_buffer t; Some (Some (pair (scroll_top b + 1) (scroll_bottom b + 1)))
  else if beq selector (bytes "s") then
    margins ← horizontal_margins t; Some (Some (pair (left margins + 1) (right margins + 1)))
  else if beq selector [34; 113]%N then
    Some (Some (if current_protected t && bool_decide (protection t = ProtectionDec)
                then bytes "1" else bytes "0"))
  else if beq selector (bytes " q") then Some (Some (decimal (cursor_style_code (cursor_style t))))
  else Some None.

Definition apply_dcs_action (action : option DcsAction) (t : Terminal) : option Terminal :=
  match action with
  | None => Some t
  | Some (RequestStatusString selector) =>
      report ← status_report selector t;
      Some (match report with
            | Some r => queue_reply (DCS ++ bytes "1$r" ++ r ++ selector ++ ST) t
            | None => queue_reply (DCS ++ bytes "0$r" ++ ST) t
            end)
  end.

(** ** Resets *)
Definition soft_reset (t : Terminal) : option Terminal :=
  let t := set_mode application_keypad false (set_mode application_cursor false
             (set_mode cursor_visible true (set_mode auto_wrap true (set_mode origin_mode false t)))) in
  let t := set_mode insert_mode false (set_mode left_right_margin_mode false t) in
  let t := reset_graphics_rendition (set_protection false ProtectionNone t) in
  let d := terminal_dimensions t in
  upd_active (fun b =>
    b <| scroll_top := 0 |> <| scroll_bottom := rows d - 1 |>
      <| scroll_left := 0 |> <| scroll_right := columns d - 1 |>
      <| pending_wrap := false |> <| dec_saved := None |> <| ansi_saved := None |>) t.

Definition screen_alignment_pattern (t : Terminal) : option Terminal :=
  let d := terminal_dimensions t in
  let c := {| text := bytes "E"; text_capacity_bytes := compact_capacity 0 (bytes "E");
              width := Single; foreground := Default; background := Default;
              attributes := NONE; hyperlink := None |} in
  with_active (fun b =>
    s ← Screen.fill_rectangle (mkRectangle 0 0 (rows d - 1) (columns d - 1)) c false (screen b);
    Some (b <| scroll_top := 0 |> <| scroll_bottom := rows d - 1 |>
            <| scroll_left := 0 |> <| scroll_right := columns d - 1 |>
            <| cursor := mkCursor 0 0 |> <| pending_wrap := false |> <| screen := s |>))
    (set_mode left_right_margin_mode false t).

Definition reset_to_initial_state (t : Terminal) : Terminal :=
  let d := terminal_dimensions t in
  let t := advance_screen_generation
             (t <| primary := buffer_reset (primary t) |> <| alternate := None |>
                <| active_screen := Primary |>) in
  let t := t <| modes := TerminalModes_default |> <| cursor_style := BlinkingBlock |>
             <| cursor_style_set := false |> <| tab_stops := default_tab_stops d |> in
  let t := drop_hyperlink ((set_pen NONE Default Default t) <| title := [] |>) in
  t <| parser := Parser_new |> <| utf8 := Utf8Decoder_new |>.

(** ** [Terminal::apply] *)
Definition keeps_grapheme_anchor (op : TerminalOp) : bool :=
  match op with Print _ | SetGraphicsRendition _ | Ignored => true | _ => false end.

(** LF and IND, up to the carriage return. *)
Definition line_feed (t : Terminal) : option Terminal :=
  t ← end_logical_line (drop_hyperlink t); index t.

Definition repeat_op (n : nat) (f : Terminal -> option Terminal) (t : Terminal) : option Terminal :=
  for_each (fun _ => f) (range 0 n) t.

Definition apply_op (op : TerminalOp) (t : Terminal) : option Terminal :=
  match op with
  | Print c => print c t
  | CarriageReturn => t ← return_carriage t; clear_pending_wrap t
  | LineFeed =>
      t ← line_feed t;
      t ← (if line_feed_new_line (modes t) then return_carriage t else Some t);
      clear_pending_wrap t
  | Index => t ← line_feed t; clear_pending_wrap t
  | Backspace => move_cursor_back 1 t
  | Tab => t ← tab t; clear_pending_wrap t
  | CursorForwardTab p => t ← repeat_op (parameter_or p 0 1) tab t; clear_pending_wrap t
  | CursorBackwardTab p => t ← repeat_op (parameter_or p 0 1) backward_tab t; clear_pending_wrap t
  | NextLine => t ← line_feed t; t ← return_carriage t; clear_pending_wrap t
  | ReverseIndex => t ← reverse_index t; clear_pending_wrap t
  | SaveDec => save_dec t
  | RestoreDec => restore_dec t
  | SetTabStop => Some (set_tab_stop t)
  | SetApplicationKeypad enabled => Some (set_mode application_keypad enabled t)
  | SetCursorStyle p => Some (set_cursor_style_of p t)
  | CursorUp p => move_vertical p false t
  | CursorDown p => move_vertical p true t
  | CursorForward p => move_horizontal p true t
  | CursorBack p => move_horizontal p false t
  | CursorNextLine p => t ← move_vertical p true t; return_carriage t
  | CursorPreviousLine p => t ← move_vertical p false t; return_carriage t
  | CursorHorizontalAbsolute p => cursor_horizontal_absolute p true t
  | HorizontalPositionAbsolute p => cursor_horizontal_absolute p false t
  | CursorPosition p => cursor_position p t
  | VerticalPositionAbsolute p => vertical_position_absolute p t
  | EraseDisplay p => erase_display p false t
  | EraseLine p => erase_line p false t
  | EraseCharacters p => erase_characters p t
  | InsertCharacters p => insert_characters p t
  | DeleteCharacters p => delete_characters p t
  | InsertLines p => insert_lines p t
  | DeleteLines p => delete_lines p t
  | ScrollUp p => scroll_up p t
  | ScrollDown p => scroll_down p t
  | SetScrollRegion p => set_scroll_region p t
  | SaveAnsiOrSetHorizontalMargins p =>
      if left_right_margin_mode (modes t) then set_horizontal_margins p t
      else if params_is_empty p then save_ansi t else Some t
  | RestoreAnsi => restore_ansi t
  | SetGraphicsRendition p => Some (set_graphics_rendition p t)
  | SetModes is_private enabled p => set_modes is_private enabled p t
  | DeviceStatus p => device_status p t
  | DecDeviceStatus p => Some (dec_device_status p t)
  | RepeatPrecedingCharacter p => repeat_preceding_character p t
  | ScreenAlignmentPattern => screen_alignment_pattern t
  | DeviceAttributes secondary => Some (device_attributes secondary t)
  | ClearTabStops p => Some (clear_tab_stops p t)
  | SetProtection iso protected =>
      Some (set_protection protected (if iso then ProtectionIso else ProtectionDec) t)
  | SelectiveEraseDisplay p => erase_display p true t
  | SelectiveEraseLine p => erase_line p true t
  | RequestMode is_private p => Some (request_mode is_private p t)
  | SoftReset => soft_reset t
  | CopyRectangle p => copy_rectangle p t
  | FillRectangle p => fill_rectangle p t
  | EraseRectangle p selective => erase_rectangle p selective t
  | InsertColumns p => insert_columns p t
  | DeleteColumns p => delete_columns p t
  | BackIndex => t ← back_index t; clear_pending_wrap t
  | ForwardIndex => t ← forward_index t; clear_pending_wrap t
  | RequestRectangleChecksum p => request_rectangle_checksum p t
  | WindowOperation p => window_operation p t
  | Ignored => Some t
  end.

Definition apply (op : TerminalOp) (t : Terminal) : option Terminal :=
  t ← (if keeps_grapheme_anchor op then Some t else clear_grapheme_anchor t);
  apply_op op t.

(** ** Ingestion *)

(** The byte as the parser sees it, and what it produced. *)
Definition parse_byte (byte : N) (t : Terminal) : option Terminal :=
  '(op, p) ← advance (parser t) byte;
  t ← apply op (t <| parser := p |>);
  let '(osc, p) := take_osc_action (parser t) in
  t ← apply_osc_action osc (t <| parser := p |>);
  let '(dcs, p) := take_dcs_action (parser t) in
  apply_dcs_action dcs (t <| parser := p |>).

(** [ingest_byte] once no UTF-8 sequence is pending. *)
Definition ingest_fresh (byte : N) (t : Terminal) : option Terminal :=
  if is_ground (parser t) && (128 <=? byte)%N then
    match utf8_start (utf8 t) byte with
    | Some d => Some (t <| utf8 := d |>)
    | None => print REPLACEMENT_CHARACTER t
    end
  else parse_byte byte t.

(** An invalid sequence resets the decoder, so the byte it gives back is taken
    afresh. *)
Definition ingest_byte (byte : N) (t : Terminal) : option Terminal :=
  if utf8_pending (utf8 t) then
    '(advance, d) ← utf8_advance (utf8 t) byte;
    let t := t <| utf8 := d |> in
    match advance with
    | Pending => Some t
    | Character c => print c t
    | Invalid => t ← print REPLACEMENT_CHARACTER t; ingest_fresh byte t
    end
  else ingest_fresh byte t.

Definition ingest (bs : list N) (t : Terminal) : option Terminal := for_each ingest_byte bs t.

(** ** Construction, resizing, recovery *)
Definition with_scrollback_limit (d : Dimensions) (limit : N) : unit + Terminal :=
  match BufferState_new d with
  | inl e => inl e
  | inr b =>
      inr {| parser := Parser_new; utf8 := Utf8Decoder_new; primary := b; alternate := None;
             active_screen := Primary; screen_generation := 1; modes := TerminalModes_default;
             cursor_style := BlinkingBlock; last_graphic_character := None;
             cursor_style_set := false; tab_stops := default_tab_stops d;
             current_attributes := NONE; current_protected := false; protection := ProtectionNone;
             current_foreground := Default; current_background := Default; title := [];
             current_hyperlink := None; current_hyperlink_cells_remaining := 0;
             color_scheme := ColorScheme_default; reply_queue := []; input_queue := [];
             reply_queue_overflowed := false; input_queue_overflowed := false;
             scrollback := Scrollback_new limit |}
  end.
Definition Terminal_new (d : Dimensions) : unit + Terminal :=
  with_scrollback_limit d DEFAULT_SCROLLBACK_LIMIT_BYTES.

(** The result, and the terminal the call leaves: on an error the scrollback
    may already have changed. *)
Definition resize_with_content_positions (d : Dimensions) (positions : list ContentPosition)
    (t : Terminal) : option ((unit + list (option ContentPosition)) * Terminal) :=
  '(result, sb) ← reflowed (primary t) d (scrollback t) positions;
  let t := t <| scrollback := sb |> in
  match result with
  | inl e => Some (inl e, t)
  | inr (new_primary, new_positions) =>
      alt ← match alternate t with
            | None => Some (inr None)
            | Some a => r ← buffer_resized a d;
                        Some (match r with inl e => inl e | inr a' => inr (Some a') end)
            end;
      Some (match alt with
            | inl e => (inl e, t)
            | inr new_alternate =>
                (inr new_positions,
                 t <| primary := new_primary |> <| alternate := new_alternate |>
                   <| tab_stops := resized_tab_stops (tab_stops t) d |>)
            end)
  end.

Definition resize (d : Dimensions) (t : Terminal) : option ((unit + unit) * Terminal) :=
  '(result, t) ← resize_with_content_positions d [] t;
  Some (match result with inl e => inl e | inr _ => inr tt end, t).

Definition recovery_clone (t : Terminal) : Terminal :=
  let refresh b := b <| screen := mark_all_dirty (screen b) |> in
  t <| input_queue := [] |> <| reply_queue := [] |> <| input_queue_overflowed := false |>
    <| reply_queue_overflowed := false |> <| primary := refresh (primary t) |>
    <| alternate := refresh <$> alternate t |>.

(** [validate_recovery_snapshot]; [true] is [Ok]. *)
Definition validate_terminal (t : Terminal) : bool :=
  let d := terminal_dimensions t in
  validate_parser (parser t) && validate_utf8 (utf8 t) && validate_buffer (primary t)
  && negb (bool_decide (active_screen t = Alternate) && bool_decide (alternate t = None))
  && from_option (fun a => validate_buffer a && bool_decide (dimensions (screen a) = d)) true (alternate t)
  && (length (tab_stops t) =? columns d)
  && ((text_len (title t) <=? 256)%N && negb (existsb is_control (title t)))
  && negb (bool_decide (current_hyperlink t = None) && negb (current_hyperlink_cells_remaining t =? 0))
  && negb (reply_queue_overflowed t) && negb (input_queue_overflowed t)
  && (length (reply_queue t) =? 0) && (length (input_queue t) =? 0)
  && validate_scrollback (columns d) (scrollback t).

(** ** Input *)
Definition queue_input (bs : list N) (t : Terminal) : QueuePushResult * Terminal :=
  let '(result, queue) := queue_transport_bytes (input_queue t) bs in
  (result, t <| input_queue := queue |>
             <| input_queue_overflowed := input_queue_overflowed t || overflowed result |>).

Definition queue_encoded_input (bs : list N) (t : Terminal) : InputEventOutcome * Terminal :=
  let '(result, t) := queue_input bs t in
  (if overflowed result then QueueOverflow else Encoded (accepted result), t).

Definition overflow_input (t : Terminal) : InputEventOutcome * Terminal :=
  (QueueOverflow, t <| input_queue_overflowed := true |>).

Definition handle_paste (s : list N) (t : Terminal) : InputEventOutcome * Terminal :=
  match paste_encoded_length s (modes t) with
  | None => overflow_input t
  | Some length =>
      if (TRANSPORT_QUEUE_HIGH_WATERMARK <? length)%N then overflow_input t
      else match encode_paste s (modes t) with
           | None => overflow_input t
           | Some bs => queue_encoded_input bs t
           end
  end.

Definition handle_mouse (e : MouseEvent) (t : Terminal) : option (InputEventOutcome * Terminal) :=
  let tracking := mouse_tracking (modes t) in
  if bool_decide (tracking = MouseNone) then Some (SelectionAllowed, t)
  else if negb (mouse_event_is_reported (kind e) tracking) then Some (SelectionClaimed, t)
  else
    encoded ← (if sgr_mouse (modes t) then Some (encode_sgr_mouse e) else encode_legacy_mouse e);
    Some (match encoded with Some bs => queue_encoded_input bs t | None => (Rejected, t) end).

Definition handle_input (e : InputEvent) (t : Terminal) : option (InputEventOutcome * Terminal) :=
  let finish encoded :=
    Some (match encoded with Some bs => queue_encoded_input bs t | None => (Rejected, t) end) in
  match e with
  | EvKey key => finish (encode_key key (modes t))
  | EvModifiedKey key mods => finish (encode_modified_key key mods (modes t))
  | EvPaste s => Some (handle_paste s t)
  | EvFocus f =>
      finish (if focus_reporting (modes t)
              then Some (CSI ++ match f with FocusIn => bytes "I" | FocusOut => bytes "O" end)
              else None)
  | EvMouse m => handle_mouse m t
  end.

(** ** The rest of the public interface that changes state *)
Definition drain_input (t : Terminal) : list N * Terminal := (input_queue t, t <| input_queue := [] |>).
Definition drain_replies (t : Terminal) : list N * Terminal := (reply_queue t, t <| reply_queue := [] |>).
Definition take_input_queue_overflowed (t : Terminal) : bool * Terminal :=
  (input_queue_overflowed t, t <| input_queue_overflowed := false |>).
Definition take_reply_queue_overflowed (t : Terminal) : bool * Terminal :=
  (reply_queue_overflowed t, t <| reply_queue_overflowed := false |>).
Definition terminal_take_dirty_rows (t : Terminal) : option (list nat * Terminal) :=
  b ← active_buffer t;
  let '(dirty, s) := take_dirty_rows (screen b) in
  Some (dirty, set_active (b <| screen := s |>) t).
Definition set_scrollback_limit (limit : N) (t : Terminal) : option Terminal :=
  sb ← set_limit_bytes limit (scrollback t); Some (t <| scrollback := sb |>).
Definition clear_scrollback (t : Terminal) : Terminal := t <| scrollback := clear (scrollback t) |>.
Definition set_color_scheme (scheme : ColorScheme) (t : Terminal) : Terminal :=
  t <| color_scheme := scheme |>.
End WithPlatform.
