(* ===== verification/TerminalInv.v ===== *)
(** * The terminal's invariant

    [term_ok]: both buffers have the terminal's dimensions, every index a
    buffer keeps is in range, the parser, the decoder and the history are in
    the states their own files show safe, and the queues are within their
    bound.  Every operation of [Terminal.v] and [TerminalOps.v] is shown to
    return, and to keep it. *)

From Stdlib Require Import NArith Bool.
From S2P Require Import Prelude Cell Utf8 Hyperlink Parser Screen ScreenGrid ScreenOps ScreenInv ScreenBuild History HistoryInv Input Buffer Terminal TerminalOps.

(** ** Computations that return *)
Definition yields {A : Type} (o : option A) (Q : A -> Prop) : Prop := exists a, o = Some a /\ Q a.

Section Yields.
Context {A B : Type}.
Implicit Types (o : option A) (Q : A -> Prop).

Lemma yields_ret a Q : Q a -> yields (Some a) Q.
Proof. intros. by exists a. Qed.

Lemma yields_bind o (k : A -> option B) Q R :
  yields o Q -> (forall a, o = Some a -> Q a -> yields (k a) R) -> yields (o ≫= k) R.
Proof. intros (a & -> & H) Hk. by apply Hk. Qed.

Lemma yields_mono o Q R : yields o Q -> (forall a, Q a -> R a) -> yields o R.
Proof. intros (a & -> & H) Hr. exists a. auto. Qed.
End Yields.

Lemma yields_loop {I S} (Q : S -> Prop) (body : I -> S -> option S) xs s :
  (forall x s, x ∈ xs -> Q s -> yields (body x s) Q) -> Q s -> yields (for_each body xs s) Q.
Proof. intros H. by apply for_each_inv. Qed.

(** Go on with the result of a computation shown to return. *)
Tactic Notation "step" constr(H) "as" simple_intropattern(pat) :=
  eapply yields_bind; [eapply H; eauto|]; intros ? ? pat; cbn beta iota.

(** ** The pen

    The ten attributes SGR sets, never single and double underline together,
    and colours of eight-bit components. *)
Definition attributes_okb (a : Attributes) : bool :=
  (a <? 1024)%N && negb (contains a UNDERLINE && contains a DOUBLE_UNDERLINE).
Definition color_okb (c : Color) : bool :=
  match c with
  | Default => true
  | Indexed i => (i <=? 255)%N
  | RgbColor r g b => (r <=? 255)%N && (g <=? 255)%N && (b <=? 255)%N
  end.
Definition pen_okb (a : Attributes) (fg bg : Color) : bool :=
  attributes_okb a && color_okb fg && color_okb bg.

(** ** The invariant *)
Section Inv.
Context `{P : Platform} `{L : !PlatformLaws P} (d : Dimensions).

Definition cursor_in (c : Cursor) : Prop := column c < columns d /\ row c < rows d.

Definition screen_ok (s : Screen) : Prop :=
  shape s /\ dimensions s = d /\ all_rows (row_ok (columns d)) s.

Record buffer_ok (b : BufferState) : Prop := mk_buffer_ok {
  bo_screen : screen_ok (screen b);
  bo_cursor : cursor_in (cursor b);
  bo_region : scroll_top b <= scroll_bottom b < rows d;
  bo_margins : scroll_left b < scroll_right b < columns d;
  bo_dec : forall saved, dec_saved b = Some saved -> cursor_in (dec_cursor saved) /\
    pen_okb (dec_attributes saved) (dec_foreground saved) (dec_background saved) = true;
  bo_ansi : forall saved, ansi_saved b = Some saved -> cursor_in (ansi_cursor saved)
}.

Definition no_anchor (b : BufferState) : Prop := grapheme_anchor b = None.
Definition anchor_ok (b : BufferState) : Prop :=
  forall a, grapheme_anchor b = Some a -> cursor_in a /\ column a <= column (cursor b).
Definition any_anchor (b : BufferState) : Prop := True.

Record buffers_ok (A : BufferState -> Prop) (t : Terminal) : Prop := mk_buffers_ok {
  ok_dims : dims_ok d;
  ok_primary : buffer_ok (primary t);
  ok_alternate : forall a, alternate t = Some a -> buffer_ok a;
  ok_active : active_screen t = Alternate -> is_Some (alternate t);
  ok_anchor : forall b, active_buffer t = Some b -> A b;
  ok_hidden_primary : active_screen t = Alternate -> no_anchor (primary t);
  ok_hidden_alternate : active_screen t = Primary -> forall a, alternate t = Some a -> no_anchor a
}.

Record registers_ok (t : Terminal) : Prop := mk_registers_ok {
  ok_parser : parser_ok (parser t);
  ok_utf8 : utf8_ok (utf8 t);
  ok_history : lines_sane (scrollback t);
  ok_tabs : length (tab_stops t) = columns d;
  ok_palette : length (ansi (color_scheme t)) = 16;
  ok_replies : (N.of_nat (length (reply_queue t)) <= TRANSPORT_QUEUE_HIGH_WATERMARK)%N;
  ok_input : (N.of_nat (length (input_queue t)) <= TRANSPORT_QUEUE_HIGH_WATERMARK)%N;
  ok_credits : current_hyperlink_cells_remaining t <= 4096;
  ok_link : current_hyperlink t = None -> current_hyperlink_cells_remaining t = 0;
  ok_pen : pen_okb (current_attributes t) (current_foreground t) (current_background t) = true
}.

(** [A] is what the active buffer's grapheme anchor satisfies. *)
Definition term_ok (A : BufferState -> Prop) (t : Terminal) : Prop :=
  buffers_ok A t /\ registers_ok t.

(** Predicates that look at the anchor only. *)
Class AnchorOnly (A : BufferState -> Prop) : Prop :=
  anchor_only b b' : grapheme_anchor b' = grapheme_anchor b -> A b -> A b'.
#[export] Instance no_anchor_only : AnchorOnly no_anchor.
Proof. unfold no_anchor. intros b b' ->. done. Qed.
#[export] Instance any_anchor_only : AnchorOnly any_anchor.
Proof. done. Qed.

Lemma term_ok_mono A A' t : (forall b, A b -> A' b) -> term_ok A t -> term_ok A' t.
Proof. intros H [[] ?]. split; [split; auto|done]. Qed.

Lemma no_anchor_ok b : no_anchor b -> anchor_ok b.
Proof. unfold no_anchor, anchor_ok. intros ->. done. Qed.

(** ** The active buffer *)
Lemma active_ok A t :
  term_ok A t ->
  exists b, active_buffer t = Some b /\ buffer_ok b /\ A b /\ terminal_cursor t = cursor b /\
    terminal_dimensions t = d /\ dims_ok d.
Proof.
  intros [[Hd Hp Ha Hact HA _ _] _]. pose proof (bo_screen _ Hp) as (_ & Hdim & _).
  unfold active_buffer, terminal_cursor in *. destruct (active_screen t).
  - exists (primary t). auto 8.
  - destruct (Hact eq_refl) as [a Ea]. exists a. rewrite Ea in *. auto 8.
Qed.

Lemma set_active_ok A A' b t : term_ok A t -> buffer_ok b -> A' b -> term_ok A' (set_active b t).
Proof.
  intros [[Hd Hp Ha Hact HA H1 H2] Hr] Hb HA'. split; [|by unfold set_active; destruct active_screen; destruct Hr].
  unfold set_active. destruct (active_screen t) eqn:E; split; cbn; rewrite ?E; try done; auto.
  - unfold active_buffer. cbn. rewrite E. by intros ? [= <-].
  - by intros ? [= <-].
  - unfold active_buffer. cbn. rewrite E. by intros ? [= <-].
Qed.

Lemma set_active_cursor b t : terminal_cursor (set_active b t) = cursor b.
Proof.
  unfold terminal_cursor, set_active. destruct (active_screen t) eqn:E; cbn; by rewrite E.
Qed.

(** What an edit of the active buffer leaves: the rest of the terminal. *)
Definition same_modes (t t' : Terminal) : Prop := modes t' = modes t.
Lemma set_active_modes b t : same_modes t (set_active b t).
Proof. unfold same_modes, set_active. by destruct active_screen. Qed.

Lemma with_active_ok A A' f t (R : BufferState -> Prop) :
  term_ok A t ->
  (forall b, buffer_ok b -> A b -> terminal_cursor t = cursor b -> dims_ok d ->
     yields (f b) (fun b' => buffer_ok b' /\ A' b' /\ R b')) ->
  yields (with_active f t) (fun t' => term_ok A' t' /\
    exists b, t' = set_active b t /\ terminal_cursor t' = cursor b /\ R b).
Proof.
  intros Ht Hf. destruct (active_ok A t Ht) as (b & E & Hb & HA & Ec & _ & Hd).
  unfold with_active. rewrite E. cbn. destruct (Hf b Hb HA Ec Hd) as (b' & -> & Hb' & HA' & HR). cbn.
  apply yields_ret. split; [by eapply set_active_ok|]. exists b'. split_and!; [done|apply set_active_cursor|done].
Qed.

Lemma upd_active_ok A A' f t :
  term_ok A t ->
  (forall b, buffer_ok b -> A b -> terminal_cursor t = cursor b -> dims_ok d -> buffer_ok (f b) /\ A' (f b)) ->
  yields (upd_active f t) (term_ok A').
Proof.
  intros Ht Hf. eapply yields_mono; [eapply (with_active_ok A A' _ t (fun _ => True) Ht)|by intros t' []].
  intros b Hb HA Ec Hd. apply yields_ret. destruct (Hf b Hb HA Ec Hd). auto.
Qed.

Lemma on_screen_ok A `{!AnchorOnly A} f t :
  term_ok A t -> (forall s, screen_ok s -> dims_ok d -> keeps (row_ok (columns d)) (f s) s) ->
  yields (on_screen f t) (fun t' => term_ok A t' /\ terminal_cursor t' = terminal_cursor t /\ modes t' = modes t).
Proof.
  intros Ht Hf. destruct (active_ok A t Ht) as (b & E & Hb & HA & Ec & _ & Hd).
  unfold on_screen, with_active. rewrite E. cbn.
  destruct (Hf (screen b) (bo_screen _ Hb) Hd) as (s' & -> & Hs' & Hd' & Hr'). cbn. apply yields_ret.
  split; [|by rewrite set_active_cursor, Ec, set_active_modes]. eapply set_active_ok; [done|..].
  - destruct Hb as [(Hs & Hdim & Hr) Hc Hrg Hm Hdec Hansi]. split; try done. by rewrite Hdim in Hd'.
  - by apply (anchor_only b).
Qed.

(** ** Margins *)
Definition margins_ok (m : ColumnSpan) : Prop := left m < right m < columns d.

Lemma horizontal_margins_ok A t : term_ok A t -> yields (horizontal_margins t) margins_ok.
Proof.
  intros Ht. destruct (active_ok A t Ht) as (b & E & Hb & _ & _ & Hdim & (Hc & _)).
  unfold horizontal_margins. rewrite E, Hdim. destruct left_right_margin_mode; apply yields_ret.
  - apply Hb.
  - unfold margins_ok. cbn. lia.
Qed.

Lemma cursor_within_margins_ok A t : term_ok A t ->
  yields (cursor_within_margins t) (fun inside => exists m, horizontal_margins t = Some m /\
    margins_ok m /\ inside = within m (column (terminal_cursor t))).
Proof.
  intros Ht. destruct (active_ok A t Ht) as (b & E & Hb & _ & Ec & Hdim & _).
  destruct (horizontal_margins_ok A t Ht) as (m & Em & Hm).
  unfold cursor_within_margins. rewrite Em, E. cbn. apply yields_ret. exists m. by rewrite Ec.
Qed.

Lemma wrap_geometry_ok A t : term_ok A t ->
  yields (wrap_geometry t) (fun '(limit, home) =>
    column (terminal_cursor t) < limit <= columns d /\ home + 2 <= columns d).
Proof.
  intros Ht. destruct (active_ok A t Ht) as (b & E & Hb & _ & Ec & Hdim & (Hc & _)).
  pose proof (bo_cursor _ Hb) as [Hcc _]. unfold wrap_geometry.
  step (cursor_within_margins_ok A t Ht) as (m & Em & [Hm1 Hm2] & ->). unfold within.
  destruct (left m <=? _) eqn:E1, (_ <=? right m) eqn:E2; bools; rewrite ?Em, ?Hdim; cbn;
    apply yields_ret; rewrite Ec in *; lia.
Qed.

Lemma carriage_return_column_ok A t : term_ok A t ->
  yields (carriage_return_column t) (fun c => c < columns d).
Proof.
  intros Ht. destruct (active_ok A t Ht) as (b & E & _ & _ & _ & _ & (Hc & _)).
  unfold carriage_return_column. step (horizontal_margins_ok A t Ht) as [Hm1 Hm2].
  rewrite E. cbn. repeat case_match; apply yields_ret; lia.
Qed.

Lemma relative_horizontal_bounds_ok A t : term_ok A t ->
  yields (relative_horizontal_bounds t) (fun '(l, r) => l < columns d /\ r < columns d).
Proof.
  intros Ht. destruct (active_ok A t Ht) as (b & E & _ & _ & _ & Hdim & (Hc & _)).
  unfold relative_horizontal_bounds. step (horizontal_margins_ok A t Ht) as [Hm1 Hm2].
  rewrite E, Hdim. cbn. apply yields_ret. repeat case_match; lia.
Qed.

Lemma vertical_bounds_ok A t : term_ok A t ->
  yields (vertical_bounds t) (fun '(top, bottom) => top <= bottom < rows d).
Proof.
  intros Ht. destruct (active_ok A t Ht) as (b & E & Hb & _ & _ & Hdim & (_ & Hr & _)).
  unfold vertical_bounds. rewrite E, Hdim. pose proof (bo_region _ Hb).
  case_match; apply yields_ret; lia.
Qed.

Lemma relative_vertical_bounds_ok A t : term_ok A t ->
  yields (relative_vertical_bounds t) (fun '(top, bottom) => top < rows d /\ bottom < rows d).
Proof.
  intros Ht. destruct (active_ok A t Ht) as (b & E & Hb & _ & _ & Hdim & (_ & Hr & _)).
  unfold relative_vertical_bounds. rewrite E, Hdim. pose proof (bo_region _ Hb). cbn.
  apply yields_ret. repeat case_match; lia.
Qed.
End Inv.
