(* ===== verification/TerminalPrint.v ===== *)
(** * Scrolling and printing keep the terminal's invariant

    [index], [reverse_index], grapheme extension and [print]: every character
    is placed, wrapped or replaced without leaving the screen. *)

From Stdlib Require Import NArith Bool.
From S2P Require Import Prelude Cell Utf8 Hyperlink Parser Screen ScreenGrid ScreenOps ScreenInv ScreenBuild History HistoryInv Input Buffer Terminal TerminalOps TerminalInv.

(** A buffer whose changed fields are visibly in range. *)
Ltac buffer_tac :=
  match goal with
  | H : buffer_ok _ ?b |- buffer_ok _ _ =>
      let Hc := fresh in pose proof (bo_cursor _ _ H) as Hc;
      destruct H; split; unfold cursor_in in *; cbn in *; try done; try lia
  end.

Section Print.
Context `{P : Platform} `{L : !PlatformLaws P} (d : Dimensions).
Abbreviation term_ok := (term_ok d).
Abbreviation buffer_ok := (buffer_ok d).

Lemma history_ok A t sb : term_ok A t -> lines_sane sb -> term_ok A (t <| scrollback := sb |>).
Proof. intros [[] []] H. split; split; done. Qed.

Lemma screen_write_ok b s :
  buffer_ok b -> screen_ok d s -> buffer_ok (b <| screen := s |>).
Proof. intros. buffer_tac. Qed.

Lemma keeps_screen_ok o s :
  screen_ok d s -> keeps (row_ok (columns d)) o s -> yields o (screen_ok d).
Proof.
  intros (_ & Hd & _) (s' & -> & Hs & Hd' & H). apply yields_ret. split_and!; [done|congruence|done].
Qed.

Lemma row_inv : dims_ok d -> RowInvariant (columns d) (row_ok (columns d)) (fun _ => True) (fun _ => True) true.
Proof. intros (H & _). by apply row_ok_invariant. Qed.

Lemma scroll_region_up_ok A `{!AnchorOnly A} count span t :
  term_ok A t -> 1 <= count -> margins_ok d span ->
  yields (scroll_region_up count span t) (fun t' => term_ok A t' /\ terminal_cursor t' = terminal_cursor t /\ same_modes t t').
Proof using L.
  intros Ht Hn [Hm1 Hm2]. destruct (active_ok d A t Ht) as (b & E & Hb & HA & Ec & Hdim & Hd).
  pose proof (bo_screen _ _ Hb) as (Hs & Hds & Hr). pose proof (bo_region _ _ Hb).
  unfold scroll_region_up. rewrite E. cbn [mbind option_bind].
  destruct (keeps_scroll_up (RI := row_inv Hd) (screen b) Hs ltac:(by rewrite Hds) Hr
              (scroll_top b) (scroll_bottom b) count (erase_cell t) span)
    as ((removed & s') & -> & (Hs' & Hd' & _) & Hr'); [rewrite ?Hds; (done || (split; lia))..|].
  cbn in Hs', Hd', Hr'. cbn [mbind option_bind].
  assert (term_ok A (set_active (b <| screen := s' |>) t)) as Ht'.
  { eapply set_active_ok; [done| |by apply (anchor_only b)].
    apply screen_write_ok; [done|]. split_and!; [done|congruence|done]. }
  destruct (retain_history t span).
  - destruct (push_rows_sane removed (scrollback (set_active (b <| screen := s' |>) t))) as (sb & E' & Hsb).
    { apply Ht'. }
    rewrite E'. cbn. apply yields_ret. split; [by apply history_ok|].
    pose proof (set_active_modes (b <| screen := s' |>) t) as Hm.
    pose proof (set_active_cursor (b <| screen := s' |>) t) as Hcur.
    split; [by rewrite Ec|done].
  - apply yields_ret. split; [done|]. rewrite set_active_cursor. split; [done|apply set_active_modes].
Qed.

Lemma index_ok A `{!AnchorOnly A} t :
  term_ok A t ->
  yields (index t) (fun t' => term_ok A t' /\ column (terminal_cursor t') = column (terminal_cursor t) /\
    same_modes t t').
Proof using L.
  intros Ht. destruct (active_ok d A t Ht) as (b & E & Hb & HA & Ec & Hdim & Hd).
  unfold index. step (horizontal_margins_ok d A t Ht) as Hm.
  step (cursor_within_margins_ok d A t Ht) as (m & _ & _ & ->). rewrite E. cbn [mbind option_bind].
  destruct (row (cursor b) =? scroll_bottom b).
  - destruct (negb _); [by apply yields_ret|].
    eapply yields_mono; [by apply scroll_region_up_ok|]. intros t' (Ht' & -> & Hm'). done.
  - destruct (_ <? _) eqn:El; bools; [|by apply yields_ret].
    eapply yields_mono.
    + eapply (with_active_ok d A A _ t (fun b' => column (cursor b') = column (terminal_cursor t)) Ht).
      intros b1 Hb1 HA1 Ec1 _. apply yields_ret. split; [|split; [by apply (anchor_only b1)|by rewrite Ec1]].
      rewrite Hdim in El. buffer_tac.
    + intros t' [Ht' (b' & -> & Hc & HR)]. split_and!; [done|by rewrite Hc|apply set_active_modes].
Qed.

Lemma reverse_index_ok A `{!AnchorOnly A} t : term_ok A t -> yields (reverse_index t) (term_ok A).
Proof using L.
  intros Ht. destruct (active_ok d A t Ht) as (b & E & Hb & HA & Ec & Hdim & Hd).
  unfold reverse_index. step (horizontal_margins_ok d A t Ht) as [Hm1 Hm2].
  step (cursor_within_margins_ok d A t Ht) as (m & _ & _ & ->). rewrite E. cbn [mbind option_bind].
  destruct (row (cursor b) =? scroll_top b).
  - destruct (negb _); [by apply yields_ret|].
    eapply yields_mono; [apply (on_screen_ok d A); [done|]|by intros t' []].
    intros s (Hs & Hds & Hr) _. pose proof (bo_region _ _ Hb).
    apply (keeps_scroll_down (RI := row_inv Hd)); rewrite ?Hds; try done; split; lia.
  - apply (upd_active_ok d A A); [done|]. intros b1 Hb1 HA1 Ec1 _. split; [|by apply (anchor_only b1)].
    rewrite Ec in Ec1. rewrite Ec1. buffer_tac.
Qed.

(** ** Clusters *)
Lemma cell_width_in s c r x : cell s c r = Some x -> r < nrows s.
Proof. unfold cell, cell_index. destruct (_ && _) eqn:E; [|done]. intros _. bools. done. Qed.

Lemma place_cursor_ok b anchor width limit wrap :
  buffer_ok b -> cursor_in d anchor -> limit <= columns d ->
  (grapheme_anchor b = None \/ grapheme_anchor b = Some anchor) ->
  buffer_ok (place_cursor_after_cluster anchor width limit wrap b) /\
  anchor_ok d (place_cursor_after_cluster anchor width limit wrap b).
Proof.
  intros Hb [Hc Hr] Hl Ha. unfold place_cursor_after_cluster. split.
  - destruct (limit <=? _) eqn:E; bools; buffer_tac.
  - intros a. cbn. destruct Ha as [->| ->]; [done|]. intros [= <-]. split; [done|].
    destruct (limit <=? _); lia.
Qed.

Lemma put_cluster_ok at_ c anchor width limit wrap b :
  buffer_ok b -> dims_ok d -> cursor_in d at_ -> Cell.width c <> Continuation ->
  column at_ + width_columns (Cell.width c) <= columns d -> limit <= columns d ->
  (anchor = None \/ anchor = Some at_) ->
  yields (put_cluster at_ c anchor width limit wrap b) (fun b' => buffer_ok b' /\ anchor_ok d b' /\ True).
Proof.
  intros Hb Hd [Hc Hr] Hw Hfit Hl Ha. pose proof (bo_screen _ _ Hb) as (Hs & Hds & Hrows).
  unfold put_cluster.
  destruct (keeps_screen_ok (replace_cluster (column at_) (row at_) c (screen b)) (screen b)) as (s' & -> & Hs').
  { by split_and!. }
  { apply (keeps_replace_cluster (RI := row_inv Hd)); rewrite ?Hds; done. }
  cbn. apply yields_ret.
  destruct (place_cursor_ok (b <| screen := s' |> <| grapheme_anchor := anchor |>) at_ width limit wrap); auto; [|done].
  apply (screen_write_ok _ s') in Hb; [|done]. buffer_tac.
Qed.

Lemma wrap_to_ok home t :
  term_ok any_anchor t -> home < columns d ->
  yields (wrap_to home t) (fun t' => term_ok any_anchor t' /\ column (terminal_cursor t') = home /\ same_modes t t').
Proof using L.
  intros Ht Hh. unfold wrap_to.
  eapply yields_bind.
  { apply (with_active_ok d any_anchor any_anchor _ t (fun b => column (cursor b) = home) Ht).
    intros b Hb _ _ Hd. pose proof (bo_screen _ _ Hb) as (Hs & Hds & Hrows). pose proof (bo_cursor _ _ Hb) as [_ Hr].
    destruct (keeps_screen_ok (mark_soft_wrapped (row (cursor b)) (screen b)) (screen b)) as (s' & -> & Hs').
    { by split_and!. }
    { apply (keeps_set_soft_wrapped (RI := row_inv Hd)); rewrite ?Hds; done. }
    cbn. apply yields_ret. split_and!; try done. apply (screen_write_ok _ s') in Hb; [|done]. buffer_tac. }
  intros t1 _ [Ht1 (b & E1 & Ec & Hcol)].
  eapply yields_mono; [by apply (index_ok any_anchor)|]. intros t2 (Ht2 & Ec2 & Hm). split_and!; [done|by rewrite Ec2, Ec|].
  unfold same_modes in *. rewrite Hm, E1. apply set_active_modes.
Qed.

Lemma overflow_cluster_ok anchor c t :
  term_ok (anchor_ok d) t -> cursor_in d anchor -> yields (overflow_cluster anchor c t) (term_ok (anchor_ok d)).
Proof using L.
  intros Ht Ha. unfold overflow_cluster. step (wrap_geometry_ok d _ t Ht) as ?. destruct a as [limit home].
  cbn. destruct H0 as [[_ Hl] _].
  eapply yields_mono; [apply (with_active_ok d _ (anchor_ok d) _ t (fun _ => True) Ht)|by intros ? []].
  intros b Hb _ _ Hd. destruct Ha. apply put_cluster_ok; try done; [cbn; lia|auto].
Qed.

Lemma carry_cluster_ok anchor c limit home t :
  term_ok (anchor_ok d) t -> cursor_in d anchor -> width c = Double -> limit <= columns d -> home + 2 <= columns d ->
  yields (carry_cluster anchor c limit home t) (term_ok (anchor_ok d)).
Proof using L.
  intros Ht [Hac Har] Hw Hl Hh. unfold carry_cluster.
  destruct (active_ok d _ t Ht) as (_ & _ & _ & _ & _ & Hdim & _). rewrite Hdim.
  eapply yields_bind.
  { apply (with_active_ok d _ any_anchor _ t (fun b => column (cursor b) = home) Ht).
    intros b Hb _ _ Hd. pose proof (bo_screen _ _ Hb) as Hsc.
    destruct (keeps_screen_ok
      (fill_linear (row anchor * columns d + column anchor) (row anchor * columns d + column anchor + 1)
         (erase_cell t) (screen b)) (screen b) Hsc) as (s1 & -> & Hs1).
    { destruct Hsc as (Hs & Hds & Hrows). apply (keeps_fill_linear (RI := row_inv Hd)); rewrite ?Hds; try done. nia. }
    cbn [mbind option_bind]. destruct Hs1 as (Hs1 & Hds1 & Hrows1).
    destruct (keeps_screen_ok (mark_soft_wrapped (row anchor) s1) s1) as (s2 & -> & Hs2).
    { by split_and!. }
    { apply (keeps_set_soft_wrapped (RI := row_inv Hd)); rewrite ?Hds1; done. }
    cbn. apply yields_ret. split_and!; try done. apply (screen_write_ok _ s2) in Hb; [|done]. buffer_tac. }
  intros t1 _ [Ht1 (b & _ & Ec & Hcol)]. rewrite <- Ec in Hcol.
  step (index_ok any_anchor t1 Ht1) as (Ht2 & Ec2 & _). rewrite Hcol in Ec2.
  eapply yields_mono; [apply (with_active_ok d _ (anchor_ok d) _ _ (fun _ => True) Ht2)|by intros ? []].
  intros b2 Hb2 _ Ec3 Hd. apply put_cluster_ok; rewrite ?Hw; try done; [rewrite Ec3; apply Hb2|cbn; lia|auto].
Qed.

Lemma width_of_columns w n : n <> 0 -> w <> Continuation -> width_columns w = n ->
  w = if n =? 2 then Double else Single.
Proof. destruct w; cbn; intros; subst; done. Qed.

Lemma rewrite_cluster_ok anchor c old n limit t b :
  term_ok (anchor_ok d) t -> cursor_in d anchor -> limit <= columns d ->
  active_buffer t = Some b -> cell (screen b) (column anchor) (row anchor) = Some old ->
  width old <> Continuation -> n = 1 \/ n = 2 -> width c = (if n =? 2 then Double else Single) ->
  column anchor + n <= columns d \/ width_columns (width old) = n ->
  yields (rewrite_cluster anchor c (width_columns (width old)) n limit t) (term_ok (anchor_ok d)).
Proof using L.
  intros Ht Ha Hl E Hcell Hold Hn Hw Hfit. unfold rewrite_cluster.
  destruct (active_ok d _ t Ht) as (b0 & E0 & Hb & _ & _ & _ & Hd). assert (b0 = b) as -> by congruence.
  pose proof (bo_screen _ _ Hb) as (Hs & Hds & Hrows).
  unfold with_active. rewrite E. cbn [mbind option_bind].
  destruct (_ =? n) eqn:En; bools.
  - destruct (keeps_screen_ok (replace_cell (column anchor) (row anchor) c (screen b)) (screen b)) as (s' & -> & Hs').
    { by split_and!. }
    { destruct Ha. eapply (keeps_replace_cell (RI := row_inv Hd)); rewrite ?Hds; try done.
      rewrite Hw. symmetry. apply width_of_columns; [lia|done..]. }
    cbn. apply yields_ret.
    destruct (place_cursor_ok (b <| screen := s' |> <| grapheme_anchor := Some anchor |>) anchor n limit (auto_wrap (modes t))); auto.
    { apply (screen_write_ok _ s') in Hb; [|done]. buffer_tac. }
    by eapply set_active_ok.
  - destruct (put_cluster_ok anchor c (Some anchor) n limit (auto_wrap (modes t)) b Hb Hd Ha) as (b' & -> & Hb' & HA' & _); auto.
    + rewrite Hw. by case_match.
    + destruct Hfit as [Hfit|]; [|done]. destruct Hn as [-> | ->]; rewrite Hw; cbn; lia.
    + cbn. apply yields_ret. by eapply set_active_ok.
Qed.

Lemma extend_cluster_ok anchor c ch t b :
  term_ok (anchor_ok d) t -> cursor_in d anchor -> active_buffer t = Some b ->
  column anchor <= column (terminal_cursor t) ->
  cell (screen b) (column anchor) (row anchor) = Some c -> width c <> Continuation ->
  yields (extend_cluster anchor c ch t) (term_ok (anchor_ok d)).
Proof using L.
  intros Ht Ha E Hle Hcell Hw. unfold extend_cluster. cbn [text write_text set_field set_text set_text_capacity_bytes].
  set (n := grapheme_width (text c ++ [ch])).
  assert (n <= 2) by (unfold n, grapheme_width; lia).
  destruct (n =? 0) eqn:E0; bools; [by apply yields_ret|].
  step (wrap_geometry_ok d _ t Ht) as ?. destruct a as [limit home]. destruct H1 as [Hlim Hhome]. cbn beta iota.
  destruct (_ && _ && _) eqn:Ecarry; bools.
  - destruct (negb _).
    + destruct (active_ok d _ t Ht) as (b0 & E1 & Hb & HA & _ & _ & Hd). assert (b0 = b) as -> by congruence.
      pose proof (bo_screen _ _ Hb) as (Hs & Hds & Hrows). destruct Ha as [Hac Har].
      unfold with_active. rewrite E. cbn [mbind option_bind].
      match goal with |- context [replace_cluster _ _ ?x _] =>
        destruct (keeps_screen_ok (replace_cluster (column anchor) (row anchor) x (screen b)) (screen b)) as (s' & -> & Hs') end.
      { by split_and!. }
      { apply (keeps_replace_cluster (RI := row_inv Hd)); rewrite ?Hds; try done. cbn. lia. }
      cbn. apply yields_ret. eapply set_active_ok; [done|..].
      * apply (screen_write_ok _ s') in Hb; [|done]. buffer_tac.
      * intros a. cbn. intros [= <-]. split; [done|].
        destruct (active_ok d _ t Ht) as (b1 & E1' & _ & _ & Ec & _). assert (b1 = b) as -> by congruence. by rewrite <- Ec.
    + apply carry_cluster_ok; try done; [|lia]. cbn. by rewrite (proj2 (Nat.eqb_eq n 2)) by done.
  - eapply rewrite_cluster_ok; try done; [lia|lia|].
    destruct Ha as [Hac _]. destruct (decide (width_columns (width c) = n)) as [|Hne]; [by right|left].
    destruct (decide (n = 2)) as [->|]; [|lia].
    assert (width_columns (width c) = 1) as Hw1 by (destruct (width c); cbn in *; done).
    rewrite Hw1 in Ecarry. cbn in Ecarry. apply Nat.eqb_neq in Ecarry. lia.
Qed.

Lemma try_extend_grapheme_ok ch t :
  term_ok (anchor_ok d) t ->
  yields (try_extend_grapheme ch t) (fun '(_, t') => term_ok (anchor_ok d) t').
Proof using L.
  intros Ht. destruct (active_ok d _ t Ht) as (b & E & Hb & HA & Ec & _ & Hd).
  unfold try_extend_grapheme. rewrite E. cbn [mbind option_bind].
  destruct (grapheme_anchor b) as [anchor|] eqn:Ea; [|by apply yields_ret].
  destruct (cell _ _ _) as [c|] eqn:Ecell; [|by apply yields_ret].
  destruct (_ || _) eqn:Ex; [by apply yields_ret|]. apply orb_false_iff in Ex as [Ex _].
  destruct (HA anchor Ea) as [Ha Hle].
  assert (width c <> Continuation) as Hw by (unfold is_continuation in Ex; by destruct (width c)).
  eapply yields_bind with (Q := term_ok (anchor_ok d)).
  - destruct (_ <? _)%N; [by apply overflow_cluster_ok|]. eapply extend_cluster_ok; try done. by rewrite Ec.
  - intros t' _ Ht'. by apply yields_ret.
Qed.

(** ** [print] *)
Lemma registers_print_ok A t ch :
  term_ok A t -> term_ok A (t <| last_graphic_character := Some ch |>).
Proof. intros [[] []]. split; split; done. Qed.

Lemma spend_hyperlink_ok A t : term_ok A t -> term_ok A (spend_hyperlink t).
Proof.
  intros [[] []]. unfold spend_hyperlink. destruct (0 <? _) eqn:E; bools; [|by split; split].
  split; split; try done; cbn; [lia|]. destruct (_ =? 0) eqn:E0; bools; [done|]. intros. exfalso. intuition lia.
Qed.

Lemma print_at_cursor_ok ch w limit t :
  term_ok any_anchor t -> w = 1 \/ w = 2 -> column (terminal_cursor t) + w <= columns d -> limit <= columns d ->
  yields (print_at_cursor ch w limit t) (term_ok (anchor_ok d)).
Proof using L.
  intros Ht Hw Hfit Hl. unfold print_at_cursor.
  eapply yields_bind with (Q := fun t1 => term_ok any_anchor t1 /\ terminal_cursor t1 = terminal_cursor t).
  { destruct (insert_mode _); [|by apply yields_ret].
    eapply yields_mono; [apply (on_screen_ok d any_anchor); [done|]|by intros t1 (? & ? & _)].
    intros s (Hs & Hds & Hrows) Hd. apply (keeps_insert_characters (RI := row_inv Hd)); rewrite ?Hds; try done.
    destruct (active_ok d _ t Ht) as (b & _ & Hb & _ & Ec & _). rewrite Ec. apply Hb. }
  intros t1 _ [Ht1 Ec1]. rewrite <- Ec1 in Hfit.
  eapply yields_mono; [apply (with_active_ok d _ (anchor_ok d) _ _ (fun _ => True) (spend_hyperlink_ok _ _ Ht1))|by intros ? []].
  intros b Hb _ _ Hd. destruct (active_ok d _ t1 Ht1) as (b1 & _ & Hb1 & _ & Ec & _).
  apply put_cluster_ok; try done.
  - rewrite Ec. apply Hb1.
  - cbn. by case_match.
  - destruct Hw as [-> | ->]; cbn; lia.
  - auto.
Qed.

Lemma clear_grapheme_anchor_ok A t : term_ok A t -> yields (clear_grapheme_anchor t) (term_ok no_anchor).
Proof.
  intros Ht. apply (upd_active_ok d A no_anchor); [done|]. intros b Hb _ _ _. split; [buffer_tac|done].
Qed.

(** The wrap a pending character makes. *)
Lemma pending_wrap_ok t b :
  term_ok any_anchor t ->
  yields (if pending_wrap b && auto_wrap (modes t) then '(_, home) ← wrap_geometry t; wrap_to home t else Some t)
    (fun t' => term_ok any_anchor t' /\ (t' = t \/ auto_wrap (modes t') = true)).
Proof using L.
  intros Ht. destruct (_ && _) eqn:E; bools; [|by apply yields_ret; auto].
  step (wrap_geometry_ok d _ t Ht) as ?. destruct a as [limit home]. destruct H0 as [_ Hh].
  eapply yields_mono; [apply wrap_to_ok; [done|lia]|]. intros t' (Ht' & _ & Hm). split; [done|]. right. by rewrite Hm.
Qed.

Lemma print_fuel_ok fuel ch t :
  term_ok (anchor_ok d) t -> default 0 (char_width ch) <= 1 /\ 1 <= fuel \/ 2 <= fuel ->
  yields (print_fuel fuel ch t) (term_ok (anchor_ok d)).
Proof using L.
  revert ch t. induction fuel as [|fuel IH]; intros ch t Ht Hf; [lia|]. cbn [print_fuel].
  step (try_extend_grapheme_ok ch t Ht) as ?. destruct a as [extended t1]. cbn in H0. clear Ht H.
  destruct extended; [by apply yields_ret|].
  destruct (_ =? 0) eqn:E0.
  { eapply yields_mono; [by eapply clear_grapheme_anchor_ok|].
    intros t2. apply term_ok_mono. apply no_anchor_ok. }
  apply Nat.eqb_neq in E0.
  apply (registers_print_ok _ _ ch) in H0. set (t2 := t1 <| last_graphic_character := Some ch |>) in *.
  pose proof H0 as Hanchored. apply (term_ok_mono d _ any_anchor) in H0; [|done].
  destruct (active_ok d _ t2 H0) as (b & -> & _). cbn [mbind option_bind].
  eapply yields_bind; [by apply pending_wrap_ok|]. intros t3 _ [Ht3 Hsame].
  step (wrap_geometry_ok d _ t3 Ht3) as ?. destruct a as [limit home]. destruct H1 as [Hlim Hh]. cbn beta iota.
  set (w := Nat.min _ 2). assert (w = 1 \/ w = 2) as Hw by (unfold w; lia).
  destruct (_ && _) eqn:E2; bools.
  - destruct (auto_wrap (modes t3)) eqn:Ew.
    + eapply yields_bind; [apply (wrap_to_ok home t3 Ht3); lia|]. intros t4 _ (Ht4 & Ec4 & _).
      apply print_at_cursor_ok; [done|done|lia|lia].
    + destruct Hsame as [->|]; [|congruence]. apply IH; [done|]. left.
      rewrite law_replacement_width. cbn. lia.
  - apply print_at_cursor_ok; [done|done| |lia].
    apply andb_false_iff in E2. destruct E2 as [E2|E2]; apply Nat.eqb_neq in E2; [lia|].
    destruct Hw as [->| ->]; lia.
Qed.

Lemma print_ok ch t : term_ok (anchor_ok d) t -> yields (print ch t) (term_ok (anchor_ok d)).
Proof using L. intros. apply print_fuel_ok; auto. Qed.
End Print.
