(* ===== verification/TerminalSafe.v ===== *)
(** * No byte sequence can crash the terminal

    The remaining operations keep the terminal's invariant, and so do
    [Terminal::apply] and byte ingestion: from a new terminal every sequence
    of bytes is consumed without a panic. *)

From Stdlib Require Import NArith Bool.
From S2P Require Import Prelude Cell Utf8 Hyperlink Parser Screen ScreenGrid ScreenOps ScreenInv ScreenBuild History HistoryInv Input Buffer Terminal TerminalOps TerminalInv TerminalPrint.

(** A change of registers the invariant does not constrain, or visibly keeps. *)
Ltac registers_tac :=
  match goal with
  | H : term_ok ?d ?A ?t |- term_ok ?d ?A _ => destruct H as [[] []]; split; split; cbn; try done
  end.

Section Ops.
Context `{P : Platform} `{L : !PlatformLaws P} (d : Dimensions).
Abbreviation buffer_ok := (buffer_ok d).
Abbreviation quiet := (term_ok d no_anchor).

Section Registers.
Context (A : BufferState -> Prop).
Abbreviation ok := (term_ok d A).

Lemma modes_ok t m : ok t -> ok (t <| modes := m |>).
Proof. intros. registers_tac. Qed.

Lemma drop_hyperlink_ok t : ok t -> ok (drop_hyperlink t).
Proof. intros. registers_tac. lia. Qed.

Lemma set_pen_ok t a fg bg : pen_okb a fg bg = true -> ok t -> ok (set_pen a fg bg t).
Proof. intros. registers_tac. Qed.

Lemma set_protection_ok t p s : ok t -> ok (set_protection p s t).
Proof. intros. registers_tac. Qed.

Lemma set_tab_stop_ok t : ok t -> ok (set_tab_stop t).
Proof. intros. registers_tac. by rewrite length_insert. Qed.

Lemma clear_tab_stops_ok p t : ok t -> ok (clear_tab_stops p t).
Proof.
  intros. unfold clear_tab_stops. repeat case_match; try done; registers_tac;
    by rewrite ?length_insert, ?length_map.
Qed.

Lemma set_cursor_style_of_ok p t : ok t -> ok (set_cursor_style_of p t).
Proof. intros. unfold set_cursor_style_of. cbn [switch]. repeat case_match; try done; registers_tac. Qed.

Lemma queue_reply_ok bs t : ok t -> ok (queue_reply bs t).
Proof.
  intros. unfold queue_reply, queue_transport_bytes. destruct_ifs; registers_tac; rewrite length_app; lia.
Qed.
Opaque queue_reply.

Lemma advance_screen_generation_ok t : ok t -> ok (advance_screen_generation t).
Proof. intros. registers_tac. Qed.

Lemma u8_of_bound v n : u8_of v = Some n -> (n <=? 255)%N = true.
Proof. unfold u8_of. destruct v; cbn; [|done]. case_match; [|done]. by intros [= <-]. Qed.

Lemma extended_color_ok p i m c : extended_color p i m = Some c -> color_okb c = true.
Proof.
  assert (forall j, indexed_at p j = Some c -> color_okb c = true) as H1.
  { intros j. unfold indexed_at. destruct (u8_of _) eqn:E; [|done]. intros [= <-]. by eapply u8_of_bound. }
  assert (forall j, rgb_at p j = Some c -> color_okb c = true) as H2.
  { intros j. unfold rgb_at. destruct (u8_of (value p j)) eqn:E1; [|done].
    destruct (u8_of (value p (j + 1))) eqn:E2; [|done]. destruct (u8_of (value p (j + 2))) eqn:E3; [|done].
    intros [= <-]. apply u8_of_bound in E1, E2, E3. cbn. by rewrite E1, E2, E3. }
  unfold extended_color. repeat case_match; try done; eauto.
Qed.

Lemma set_extended_color_ok p i fg t : ok t -> ok (set_extended_color p i fg t).2.
Proof.
  intros. unfold set_extended_color. destruct (value p (i + 1)); [|done]. cbn [snd].
  destruct (extended_color p i n) as [c|] eqn:E; [|done]. apply extended_color_ok in E.
  destruct fg; registers_tac; unfold pen_okb in *; bools; by rewrite H, E, ?H1, ?H0.
Qed.

Lemma reset_graphics_rendition_ok t : ok t -> ok (reset_graphics_rendition t).
Proof. intros. by apply drop_hyperlink_ok, set_pen_ok. Qed.

(** The attribute codes, checked on all 1024 sets. *)
Lemma sgr_attributes_ok code a : attributes_okb a = true -> attributes_okb (sgr_attributes code a) = true.
Proof.
  intros Ha.
  assert (forallb (fun a => negb (attributes_okb a) || forallb (fun c => attributes_okb (sgr_attributes c a))
    [1; 2; 3; 4; 5; 6; 7; 8; 9; 21; 22; 23; 24; 25; 27; 28; 29]%N) (map N.of_nat (seq 0 1024)) = true) as H
    by (vm_compute; reflexivity).
  assert (In a (map N.of_nat (seq 0 1024))) as Hin.
  { apply in_map_iff. exists (N.to_nat a). split; [lia|]. apply in_seq. unfold attributes_okb in Ha. bools. lia. }
  rewrite forallb_forall in H. specialize (H a Hin). rewrite Ha in H. cbn [negb orb] in H.
  rewrite forallb_forall in H.
  destruct (in_dec N.eq_dec code [1; 2; 3; 4; 5; 6; 7; 8; 9; 21; 22; 23; 24; 25; 27; 28; 29]%N) as [Hc|Hc]; [by apply H|].
  unfold sgr_attributes. cbn [In] in Hc. cbn [switch existsb].
  repeat match goal with |- context [if ?b then _ else _] =>
    let E := fresh in destruct b eqn:E;
    [exfalso; apply Hc; rewrite orb_false_r in E; apply N.eqb_eq in E; subst; tauto|clear E] end.
  done.
Qed.

Lemma sgr_colors_ok code c :
  color_okb c = true -> color_okb (sgr_foreground code c) = true /\ color_okb (sgr_background code c) = true.
Proof.
  intros H. unfold sgr_foreground, sgr_background, in_range.
  split; repeat case_match; try done; cbn; apply N.leb_le; bools; lia.
Qed.

Lemma sgr_step_ok p i code t : ok t -> ok (sgr_step p i code t).2.
Proof.
  intros. unfold sgr_step. repeat case_match; [by apply reset_graphics_rendition_ok|by apply set_extended_color_ok|].
  cbn [snd].
  assert (pen_okb (sgr_attributes code (current_attributes t)) (sgr_foreground code (current_foreground t))
            (sgr_background code (current_background t)) = true) as Hp.
  { pose proof (ok_pen _ _ (proj2 H)) as Hp. unfold pen_okb in *. bools.
    rewrite sgr_attributes_ok by done. cbn [andb]. apply andb_true_intro. by split; apply sgr_colors_ok. }
  registers_tac.
Qed.

Lemma sgr_loop_ok fuel p i t : ok t -> ok (sgr_loop fuel p i t).
Proof.
  revert i t. induction fuel as [|fuel IH]; intros i t Ht; cbn; [done|].
  repeat case_match; try done. apply IH.
  match goal with E : sgr_step _ _ ?c _ = (_, _) |- _ => pose proof (sgr_step_ok p i c t Ht) as H'; by rewrite E in H' end.
Qed.

Lemma set_graphics_rendition_ok p t : ok t -> ok (set_graphics_rendition p t).
Proof.
  intros. unfold set_graphics_rendition. case_match; [by apply reset_graphics_rendition_ok|by apply sgr_loop_ok].
Qed.

Lemma set_mouse_tracking_ok k e t : ok t -> ok (set_mouse_tracking k e t).
Proof. intros. unfold set_mouse_tracking. repeat case_match; try done; by apply modes_ok. Qed.

Lemma set_ansi_mode_ok e m t : ok t -> ok (set_ansi_mode e m t).
Proof. intros. unfold set_ansi_mode. cbn [switch]. repeat case_match; try done; by apply modes_ok. Qed.

Lemma set_flag_mode_ok e m t : ok t -> ok (set_flag_mode e m t).
Proof.
  intros. unfold set_flag_mode. cbn [switch].
  repeat (case_match; [first [by apply modes_ok|by apply set_mouse_tracking_ok]|]). done.
Qed.

Lemma color_reply_ok t q term : ok t -> yields (color_reply t q term) (fun _ => True).
Proof.
  intros [_ Hr]. unfold color_reply. destruct q as [index| | |]; try by apply yields_ret.
  unfold palette. pose proof (ok_palette _ _ Hr) as Hlen.
  destruct (index <=? 15)%N eqn:E1.
  { destruct (lookup_lt_is_Some_2 (ansi (color_scheme t)) (N.to_nat index)) as [c ->]; [lia|]. by apply yields_ret. }
  destruct (index <=? 231)%N eqn:E2; [|by apply yields_ret].
  assert (forall k, (k < 6)%N -> is_Some (LEVELS !! N.to_nat k)) as HL
    by (intros; apply lookup_lt_is_Some_2; cbn; lia).
  destruct (HL ((index - 16) / 36)%N) as [r ->]; [apply N.Div0.div_lt_upper_bound; lia|].
  destruct (HL ((index - 16) / 6 mod 6)%N) as [g ->]; [by apply N.mod_lt|].
  destruct (HL ((index - 16) mod 6)%N) as [b ->]; [by apply N.mod_lt|]. by apply yields_ret.
Qed.

Lemma report_colors_ok qs term t : ok t -> yields (report_colors qs term t) ok.
Proof.
  intros Ht. apply yields_loop; [|done]. intros q t' _ Ht'. step (color_reply_ok t' q term Ht') as ?.
  apply yields_ret. by apply queue_reply_ok.
Qed.

Lemma apply_osc_action_ok action t : ok t -> yields (apply_osc_action action t) ok.
Proof.
  intros Ht. destruct action as [[s|h|qs term]|]; cbn.
  - apply yields_ret. registers_tac.
  - apply yields_ret. registers_tac; destruct h; done || lia.
  - by apply report_colors_ok.
  - by apply yields_ret.
Qed.

Lemma window_operation_ok p t : ok t -> yields (window_operation p t) ok.
Proof.
  intros Ht. destruct (active_ok d A t Ht) as (b & E & _). unfold window_operation. rewrite E.
  apply yields_ret. repeat case_match; first [exact Ht|apply queue_reply_ok; exact Ht].
Qed.

Lemma device_status_ok p t : ok t -> yields (device_status p t) ok.
Proof.
  intros Ht. destruct (active_ok d A t Ht) as (b & E & _). unfold device_status, cursor_report.
  destruct (horizontal_margins_ok d A t Ht) as (m & -> & _). rewrite E. cbn [mbind option_bind].
  repeat case_match; apply yields_ret; first [exact Ht|apply queue_reply_ok; exact Ht].
Qed.

Lemma dec_device_status_ok p t : ok t -> ok (dec_device_status p t).
Proof. intros. unfold dec_device_status. destruct (dec_device_reply p t); [by apply queue_reply_ok|done]. Qed.

Lemma request_mode_ok b p t : ok t -> ok (request_mode b p t).
Proof. intros. unfold request_mode. case_match; [|done]. by apply queue_reply_ok. Qed.

Lemma request_rectangle_checksum_ok p t : ok t -> yields (request_rectangle_checksum p t) ok.
Proof.
  intros Ht. destruct (active_ok d A t Ht) as (b & E & _). unfold request_rectangle_checksum.
  destruct (horizontal_margins_ok d A t Ht) as (m & -> & _). rewrite E. cbn [mbind option_bind].
  destruct (origin_mode _); cbn [mbind option_bind]; case_match; cbn [mbind option_bind];
    apply yields_ret; by apply queue_reply_ok.
Qed.

Lemma apply_dcs_action_ok action t : ok t -> yields (apply_dcs_action action t) ok.
Proof.
  intros Ht. destruct action as [[selector]|]; [|by apply yields_ret]. cbn.
  destruct (active_ok d A t Ht) as (b & E & _). destruct (horizontal_margins_ok d A t Ht) as (m & Em & _).
  eapply yields_bind with (Q := fun _ => True).
  - unfold status_report. rewrite E, Em. repeat case_match; by apply yields_ret.
  - intros r _ _. apply yields_ret. case_match; by apply queue_reply_ok.
Qed.
End Registers.

(** ** Cursor motion *)

(** A change of the active buffer that leaves its anchor alone. *)
Lemma quiet_upd f t :
  quiet t ->
  (forall b, buffer_ok b -> terminal_cursor t = cursor b -> dims_ok d ->
     buffer_ok (f b) /\ grapheme_anchor (f b) = grapheme_anchor b) ->
  yields (upd_active f t) quiet.
Proof.
  intros Ht Hf. apply (upd_active_ok d no_anchor no_anchor); [done|]. intros b Hb HA Ec Hd.
  destruct (Hf b Hb Ec Hd) as [H1 H2]. split; [done|]. unfold no_anchor in *. congruence.
Qed.

Lemma quiet_with f t :
  quiet t ->
  (forall b, buffer_ok b -> terminal_cursor t = cursor b -> dims_ok d ->
     yields (f b) (fun b' => buffer_ok b' /\ grapheme_anchor b' = grapheme_anchor b)) ->
  yields (with_active f t) quiet.
Proof.
  intros Ht Hf. eapply yields_mono; [apply (with_active_ok d no_anchor no_anchor _ _ (fun _ => True) Ht)|by intros ? []].
  intros b Hb HA Ec Hd. eapply yields_mono; [by apply Hf|]. intros b' [H1 H2].
  split_and!; [done| |done]. unfold no_anchor in *. congruence.
Qed.

Lemma clear_pending_wrap_ok t : quiet t -> yields (clear_pending_wrap t) quiet.
Proof. intros Ht. apply quiet_upd; [done|]. intros b Hb _ _. split; [buffer_tac|done]. Qed.

Lemma return_carriage_ok t : quiet t -> yields (return_carriage t) quiet.
Proof.
  intros Ht. unfold return_carriage. step (carriage_return_column_ok d _ t Ht) as Hc.
  apply quiet_upd; [done|]. intros b Hb _ _. split; [buffer_tac|done].
Qed.

Lemma home_cursor_ok t : quiet t -> yields (home_cursor t) quiet.
Proof.
  intros Ht. unfold home_cursor. step (horizontal_margins_ok d _ t Ht) as [Hm1 Hm2].
  apply quiet_upd; [done|]. intros b Hb _ (Hd1 & Hd2 & _). split; [|done]. pose proof (bo_region _ _ Hb).
  case_match; buffer_tac.
Qed.

Lemma next_stop_bound stops c n : next_stop stops c = Some n -> n < c + length stops.
Proof.
  revert c. induction stops as [|b stops IH]; intros c; cbn; [done|].
  destruct b; [intros [= <-]; lia|]. intros H%IH. lia.
Qed.

Lemma tab_ok t : quiet t -> yields (tab t) quiet.
Proof.
  intros Ht. unfold tab. step (horizontal_margins_ok d _ t Ht) as [Hm1 Hm2].
  destruct (active_ok d _ t Ht) as (b0 & _ & Hb0 & _ & Ec0 & Hdim & _). rewrite Hdim.
  apply quiet_upd; [done|]. intros b Hb Ec (Hd1 & _). split; [|done].
  pose proof (bo_cursor _ _ Hb) as [Hc _]. rewrite Ec. unfold set_cursor_column.
  assert (Nat.max (if right a <? column (cursor b) then columns d - 1 else right a) (column (cursor b)) < columns d)
    by (case_match; lia).
  buffer_tac.
Qed.

Lemma backward_tab_ok t : quiet t -> yields (backward_tab t) quiet.
Proof.
  intros Ht. unfold backward_tab. apply quiet_upd; [done|]. intros b Hb Ec _. split; [|done].
  pose proof (bo_cursor _ _ Hb) as [Hc _]. rewrite Ec.
  pose proof (extent_bound (take (column (cursor b)) (tab_stops t))) as He. rewrite length_take in He.
  unfold set_cursor_column. buffer_tac.
Qed.

Lemma move_vertical_ok p down t : quiet t -> yields (move_vertical p down t) quiet.
Proof.
  intros Ht. unfold move_vertical. step (relative_vertical_bounds_ok d _ t Ht) as ?.
  destruct a as [top bottom]. destruct H0. apply quiet_upd; [done|]. intros b Hb _ _. split; [|done].
  pose proof (bo_cursor _ _ Hb) as [_ Hr]. unfold set_cursor_row. destruct down; buffer_tac.
Qed.

Lemma move_back_loop_ok fuel l r rw n b :
  buffer_ok b -> r < columns d -> row (cursor b) < fuel ->
  yields (move_back_loop fuel l r rw n b) (fun b' => buffer_ok b' /\ grapheme_anchor b' = grapheme_anchor b).
Proof.
  revert n b. induction fuel as [|fuel IH]; intros n b Hb Hr Hf; [lia|]. cbn [move_back_loop].
  set (k := Nat.min n (column (cursor b) - l)).
  assert (buffer_ok (set_cursor_column (column (cursor b) - k) b)) as Hb1 by (unfold set_cursor_column; buffer_tac).
  cbn [set_cursor_column cursor set_field set_cursor upd_column row column].
  destruct (_ || _) eqn:E; bools; [by apply yields_ret|]. case_bool_decide; [|by apply yields_ret].
  match goal with |- yields (move_back_loop _ _ _ _ _ ?x) _ =>
    eapply yields_mono; [apply (IH _ x)|] end.
  - buffer_tac.
  - done.
  - cbn. lia.
  - by intros b'.
Qed.

Lemma move_cursor_back_ok n t : quiet t -> yields (move_cursor_back n t) quiet.
Proof.
  intros Ht. unfold move_cursor_back. step (relative_horizontal_bounds_ok d _ t Ht) as ?.
  destruct a as [l r]. destruct H0. apply quiet_with; [done|]. intros b Hb _ _.
  eapply yields_bind; [apply move_back_loop_ok; try done; lia|]. intros b' _ [Hb' Ha]. apply yields_ret.
  split; [buffer_tac|done].
Qed.

Lemma move_horizontal_ok p forward t : quiet t -> yields (move_horizontal p forward t) quiet.
Proof.
  intros Ht. unfold move_horizontal. destruct (negb forward); [by apply move_cursor_back_ok|].
  step (relative_horizontal_bounds_ok d _ t Ht) as ?. destruct a as [l r]. destruct H0.
  apply quiet_upd; [done|]. intros b Hb _ _. split; [|done]. unfold set_cursor_column. buffer_tac.
Qed.

Lemma end_logical_line_ok t : quiet t -> yields (end_logical_line t) quiet.
Proof.
  intros Ht. apply quiet_with; [done|]. intros b Hb _ Hd. pose proof (bo_screen _ _ Hb) as (Hs & Hds & Hrows).
  pose proof (bo_cursor _ _ Hb) as [_ Hr].
  destruct (keeps_screen_ok d (clear_soft_wrapped (row (cursor b)) (screen b)) (screen b)) as (s' & -> & Hs').
  { by split_and!. }
  { apply (keeps_set_soft_wrapped (RI := row_inv d Hd)); rewrite ?Hds; done. }
  cbn. apply yields_ret. split; [by apply screen_write_ok|done].
Qed.

Lemma absolute_column_ok n t : quiet t -> yields (absolute_column n t) (fun c => c < columns d).
Proof.
  intros Ht. destruct (active_ok d _ t Ht) as (_ & _ & _ & _ & _ & Hdim & (Hd1 & _)).
  unfold absolute_column. rewrite Hdim. destruct origin_mode; [|apply yields_ret; lia].
  step (horizontal_margins_ok d _ t Ht) as [Hm1 Hm2]. apply yields_ret. lia.
Qed.

Lemma absolute_row_of_ok n t : quiet t -> yields (absolute_row_of n t) (fun r => r < rows d).
Proof.
  intros Ht. unfold absolute_row_of. step (vertical_bounds_ok d _ t Ht) as ?. destruct a as [top bottom].
  apply yields_ret. case_match; lia.
Qed.

Lemma cursor_horizontal_absolute_ok p rel t : quiet t -> yields (cursor_horizontal_absolute p rel t) quiet.
Proof.
  intros Ht. destruct (active_ok d _ t Ht) as (_ & _ & _ & _ & _ & Hdim & (Hd1 & _)).
  unfold cursor_horizontal_absolute. eapply yields_bind with (Q := fun c => c < columns d).
  - destruct rel; [by apply absolute_column_ok|]. rewrite Hdim. apply yields_ret. lia.
  - intros c _ Hc. apply quiet_upd; [done|]. intros b Hb _ _. split; [|done]. unfold set_cursor_column. buffer_tac.
Qed.

Lemma cursor_position_ok p t : quiet t -> yields (cursor_position p t) quiet.
Proof.
  intros Ht. unfold cursor_position. step (absolute_row_of_ok (parameter_or p 0 1 - 1) t Ht) as Hr.
  step (absolute_column_ok (parameter_or p 1 1 - 1) t Ht) as Hc.
  apply quiet_upd; [done|]. intros b Hb _ _. split; [buffer_tac|done].
Qed.

Lemma vertical_position_absolute_ok p t : quiet t -> yields (vertical_position_absolute p t) quiet.
Proof.
  intros Ht. unfold vertical_position_absolute. step (absolute_row_of_ok (parameter_or p 0 1 - 1) t Ht) as Hr.
  apply quiet_upd; [done|]. intros b Hb _ _. split; [|done]. unfold set_cursor_row. buffer_tac.
Qed.

(** ** Screen edits *)
Lemma quiet_screen f t :
  quiet t -> (forall s, screen_ok d s -> dims_ok d -> keeps (row_ok (columns d)) (f s) s) ->
  yields (on_screen f t) quiet.
Proof. intros Ht Hf. eapply yields_mono; [by apply (on_screen_ok d no_anchor)|by intros ? []]. Qed.

Lemma keeps_ret s : screen_ok d s -> keeps (row_ok (columns d)) (Some s) s.
Proof. intros (Hs & Hds & Hr). by exists s. Qed.

Lemma fill_linear_maybe_keeps spare a b c s :
  screen_ok d s -> dims_ok d -> b <= rows d * columns d ->
  keeps (row_ok (columns d)) (fill_linear_maybe spare a b c s) s.
Proof.
  intros (Hs & Hds & Hr) Hd Hb. unfold fill_linear_maybe, fill_linear, fill_linear_sparing_protected.
  destruct spare; apply (keeps_fill_linear (RI := row_inv d Hd)); rewrite ?Hds; done.
Qed.

Lemma erase_display_ok p sel t : quiet t -> yields (erase_display p sel t) quiet.
Proof.
  intros Ht. destruct (active_ok d _ t Ht) as (b & _ & Hb & _ & Ec & Hdim & (Hd1 & Hd2 & _)).
  pose proof (bo_cursor _ _ Hb) as [Hc Hr].
  unfold erase_display. destruct (_ =? 3).
  { apply yields_ret. destruct (active_screen t); [|done]. apply history_ok; [done|]. repeat split; constructor. }
  apply quiet_screen; [done|]. intros s Hs Hd. rewrite Hdim, Ec.
  destruct (raw_parameter p 0 0) as [|[|[|n]]].
  - apply fill_linear_maybe_keeps; [done..|lia].
  - apply fill_linear_maybe_keeps; [done..|nia].
  - destruct (spares_protected_cells t sel).
    + apply (fill_linear_maybe_keeps true); [done..|lia].
    + destruct Hs as (Hs & Hds & Hrows). apply (keeps_clear_all (RI := row_inv d Hd)); rewrite ?Hds; done.
  - by apply keeps_ret.
Qed.

Lemma erase_line_ok p sel t : quiet t -> yields (erase_line p sel t) quiet.
Proof.
  intros Ht. destruct (active_ok d _ t Ht) as (b & _ & Hb & _ & Ec & Hdim & (Hd1 & Hd2 & _)).
  pose proof (bo_cursor _ _ Hb) as [Hc Hr].
  assert (forall x y, y <= rows d * columns d ->
    yields (on_screen (fill_linear_maybe (spares_protected_cells t sel) x y (erase_cell t)) t) quiet) as H
    by (intros; apply quiet_screen; [done|]; intros; by apply fill_linear_maybe_keeps).
  unfold erase_line. rewrite Hdim, Ec.
  repeat case_match; [apply H; nia|apply H; nia|apply H; nia|by apply yields_ret].
Qed.

Lemma erase_characters_ok p t : quiet t -> yields (erase_characters p t) quiet.
Proof.
  intros Ht. destruct (active_ok d _ t Ht) as (b & _ & Hb & _ & Ec & Hdim & (Hd1 & Hd2 & _)).
  pose proof (bo_cursor _ _ Hb) as [Hc Hr]. unfold erase_characters. rewrite Hdim, Ec.
  apply quiet_screen; [done|]. intros s Hs Hd. apply fill_linear_maybe_keeps; [done..|].
  etransitivity; [apply Nat.le_min_r|]. apply Nat.mul_le_mono_r. lia.
Qed.

(** ** Rectangles *)
Lemma rectangle_origin_ok t :
  quiet t -> yields (rectangle_origin t) (fun '(r, c) => r < rows d /\ c < columns d).
Proof.
  intros Ht. destruct (active_ok d _ t Ht) as (b & E & Hb & _ & _ & _ & (Hd1 & Hd2 & _)).
  unfold rectangle_origin. destruct origin_mode; [|apply yields_ret; lia].
  step (horizontal_margins_ok d _ t Ht) as [Hm1 Hm2]. rewrite E. apply yields_ret.
  pose proof (bo_region _ _ Hb). lia.
Qed.

Definition rectangle_ok (r : Rectangle) : Prop :=
  rect_top r <= rect_bottom r < rows d /\ rect_left r <= rect_right r < columns d.

Lemma rectangle_from_ok p first t :
  quiet t -> yields (rectangle_from p first t) (fun r => forall rect, r = Some rect -> rectangle_ok rect).
Proof.
  intros Ht. destruct (active_ok d _ t Ht) as (b & E & Hb & _ & _ & Hdim & (Hd1 & Hd2 & _)).
  unfold rectangle_from. step (rectangle_origin_ok t Ht) as ?. destruct a as [r0 c0]. destruct H0.
  rewrite Hdim. destruct (_ || _) eqn:E1; [by apply yields_ret|].
  bools. destruct (_ || _) eqn:E2; [by apply yields_ret|]. bools.
  apply yields_ret. intros rect [= <-]. unfold rectangle_ok. cbn. lia.
Qed.

Lemma keeps_rectangle r c spare s :
  rectangle_ok r -> screen_ok d s -> dims_ok d ->
  keeps (row_ok (columns d)) (Screen.fill_rectangle r c spare s) s.
Proof.
  intros [H1 H2] (Hs & Hds & Hrows) Hd. apply (keeps_fill_rectangle (RI := row_inv d Hd)); rewrite ?Hds; done.
Qed.

Lemma fill_rectangle_ok p t : quiet t -> yields (fill_rectangle p t) quiet.
Proof.
  intros Ht. unfold fill_rectangle. destruct (value p 0); [|by apply yields_ret].
  destruct (_ || _); [|by apply yields_ret]. step (rectangle_from_ok p 1 t Ht) as Hr.
  destruct a as [r|]; [|by apply yields_ret]. apply quiet_screen; [done|]. intros. apply keeps_rectangle; auto.
Qed.

Lemma erase_rectangle_ok p sel t : quiet t -> yields (erase_rectangle p sel t) quiet.
Proof.
  intros Ht. unfold erase_rectangle. step (rectangle_from_ok p 0 t Ht) as Hr.
  destruct a as [r|]; [|by apply yields_ret]. apply quiet_screen; [done|]. intros. apply keeps_rectangle; auto.
Qed.

Lemma copy_rectangle_ok p t : quiet t -> yields (copy_rectangle p t) quiet.
Proof.
  intros Ht. unfold copy_rectangle. step (rectangle_from_ok p 0 t Ht) as Hr.
  destruct a as [r|]; [|by apply yields_ret]. destruct (Hr r eq_refl) as [H1 H2].
  destruct (active_ok d _ t Ht) as (b & E & Hb & _ & _ & Hdim & (Hd1 & Hd2 & _)). rewrite Hdim.
  destruct (rectangle_origin_ok t Ht) as ([r0 c0] & -> & _). cbn [mbind option_bind].
  apply quiet_screen; [done|]. intros s (Hs & Hds & Hrows) Hd.
  apply (keeps_copy_rectangle (RI := row_inv d Hd)); rewrite ?Hds; done || lia.
Qed.

(** ** Characters, columns and lines *)
Lemma keeps_insert c r n x sp s :
  r < rows d -> screen_ok d s -> dims_ok d -> keeps (row_ok (columns d)) (Screen.insert_characters c r n x sp s) s.
Proof.
  intros Hr (Hs & Hds & Hrows) Hd. apply (keeps_insert_characters (RI := row_inv d Hd)); rewrite ?Hds; done.
Qed.

Lemma keeps_delete c r n x sp s :
  r < rows d -> screen_ok d s -> dims_ok d -> keeps (row_ok (columns d)) (Screen.delete_characters c r n x sp s) s.
Proof.
  intros Hr (Hs & Hds & Hrows) Hd. apply (keeps_delete_characters (RI := row_inv d Hd)); rewrite ?Hds; done.
Qed.

Lemma edit_region_ok edit t :
  quiet t ->
  (forall r s, r < rows d -> screen_ok d s -> dims_ok d -> keeps (row_ok (columns d)) (edit r s) s) ->
  yields (edit_region edit t) quiet.
Proof.
  intros Ht He. destruct (active_ok d _ t Ht) as (b & E & Hb & _). pose proof (bo_region _ _ Hb).
  unfold edit_region, vertical_region. rewrite E. cbn [mbind option_bind].
  apply yields_loop; [|done]. intros r t' Hr Ht'. apply elem_of_range_incl in Hr.
  apply quiet_screen; [done|]. intros. apply He; [lia|done..].
Qed.

Lemma inside_margins_ok act t :
  quiet t -> (forall span, margins_ok d span -> yields (act span t) quiet) ->
  yields (inside_margins act t) quiet.
Proof.
  intros Ht Ha. unfold inside_margins. step (cursor_within_margins_ok d _ t Ht) as (m & Em & Hm & ->).
  destruct (negb _); [by apply yields_ret|]. rewrite Em. by apply Ha.
Qed.

Lemma cursor_row_ok t : quiet t -> row (terminal_cursor t) < rows d.
Proof. intros Ht. destruct (active_ok d _ t Ht) as (b & _ & Hb & _ & -> & _). apply Hb. Qed.

Lemma insert_columns_ok p t : quiet t -> yields (insert_columns p t) quiet.
Proof. intros. apply inside_margins_ok; [done|]. intros. apply edit_region_ok; [done|]. intros. by apply keeps_insert. Qed.

Lemma delete_columns_ok p t : quiet t -> yields (delete_columns p t) quiet.
Proof. intros. apply inside_margins_ok; [done|]. intros. apply edit_region_ok; [done|]. intros. by apply keeps_delete. Qed.

Lemma insert_characters_ok p t : quiet t -> yields (insert_characters p t) quiet.
Proof.
  intros. apply inside_margins_ok; [done|]. intros. apply quiet_screen; [done|]. intros.
  apply keeps_insert; try done. by apply cursor_row_ok.
Qed.

Lemma delete_characters_ok p t : quiet t -> yields (delete_characters p t) quiet.
Proof.
  intros. apply inside_margins_ok; [done|]. intros. apply quiet_screen; [done|]. intros.
  apply keeps_delete; try done. by apply cursor_row_ok.
Qed.

Lemma back_index_ok t : quiet t -> yields (back_index t) quiet.
Proof.
  intros Ht. unfold back_index. step (horizontal_margins_ok d _ t Ht) as Hm.
  destruct (_ =? _); [apply edit_region_ok; [done|]; intros; by apply keeps_insert|].
  destruct (0 <? _); [|by apply yields_ret]. apply quiet_upd; [done|]. intros b Hb Ec _. split; [|done].
  rewrite Ec. unfold set_cursor_column. buffer_tac.
Qed.

Lemma forward_index_ok t : quiet t -> yields (forward_index t) quiet.
Proof.
  intros Ht. unfold forward_index. step (horizontal_margins_ok d _ t Ht) as Hm.
  destruct (_ =? _); [apply edit_region_ok; [done|]; intros; by apply keeps_delete|].
  destruct (_ <? _) eqn:E; bools; [|by apply yields_ret]. apply quiet_upd; [done|]. intros b Hb Ec _. split; [|done].
  destruct (active_ok d _ t Ht) as (_ & _ & _ & _ & _ & Hdim & _). rewrite Hdim in E.
  unfold set_cursor_column. buffer_tac.
Qed.

Lemma parameter_or_pos p i n : 1 <= n -> 1 <= parameter_or p i n.
Proof. intros. unfold parameter_or. destruct (value p i) as [[|v]|]; try done. lia. Qed.

Lemma insert_lines_ok p t : quiet t -> yields (insert_lines p t) quiet.
Proof.
  intros Ht. apply inside_margins_ok; [done|]. intros span [Hm1 Hm2].
  destruct (active_ok d _ t Ht) as (b & -> & Hb & _). pose proof (bo_region _ _ Hb). cbn [mbind option_bind].
  unfold in_scroll_region. destruct (_ && _) eqn:E; bools; [|by apply yields_ret].
  apply quiet_screen; [done|]. intros s (Hs & Hds & Hrows) Hd.
  apply (keeps_insert_lines (RI := row_inv d Hd)); rewrite ?Hds; try done; try (split; lia); by apply parameter_or_pos.
Qed.

Lemma delete_lines_ok p t : quiet t -> yields (delete_lines p t) quiet.
Proof.
  intros Ht. apply inside_margins_ok; [done|]. intros span [Hm1 Hm2].
  destruct (active_ok d _ t Ht) as (b & -> & Hb & _). pose proof (bo_region _ _ Hb). cbn [mbind option_bind].
  unfold in_scroll_region. destruct (_ && _) eqn:E; bools; [|by apply yields_ret].
  apply quiet_screen; [done|]. intros s (Hs & Hds & Hrows) Hd.
  apply (keeps_delete_lines (RI := row_inv d Hd)); rewrite ?Hds; try done; try (split; lia); by apply parameter_or_pos.
Qed.

Lemma scroll_up_ok p t : quiet t -> yields (scroll_up p t) quiet.
Proof using L.
  intros Ht. unfold scroll_up. step (horizontal_margins_ok d _ t Ht) as Hm.
  eapply yields_mono; [apply (scroll_region_up_ok d no_anchor); [done|by apply parameter_or_pos|done]|by intros ? []].
Qed.

Lemma scroll_down_ok p t : quiet t -> yields (scroll_down p t) quiet.
Proof.
  intros Ht. unfold scroll_down. step (horizontal_margins_ok d _ t Ht) as [Hm1 Hm2].
  destruct (active_ok d _ t Ht) as (b & -> & Hb & _). pose proof (bo_region _ _ Hb). cbn [mbind option_bind].
  apply quiet_screen; [done|]. intros s (Hs & Hds & Hrows) Hd.
  apply (keeps_scroll_down (RI := row_inv d Hd)); rewrite ?Hds; try done; try (split; lia); by apply parameter_or_pos.
Qed.

Lemma set_scroll_region_ok p t : quiet t -> yields (set_scroll_region p t) quiet.
Proof.
  intros Ht. destruct (active_ok d _ t Ht) as (_ & _ & _ & _ & _ & Hdim & _).
  unfold set_scroll_region. rewrite Hdim. destruct (_ || _) eqn:E; bools; [by apply yields_ret|].
  eapply yields_bind; [|intros t1 _ Ht1; by apply home_cursor_ok].
  apply quiet_upd; [done|]. intros b Hb _ (Hd1 & Hd2 & _). split; [|done]. case_match; buffer_tac.
Qed.

Lemma set_horizontal_margins_ok p t : quiet t -> yields (set_horizontal_margins p t) quiet.
Proof.
  intros Ht. destruct (active_ok d _ t Ht) as (_ & _ & _ & _ & _ & Hdim & _).
  unfold set_horizontal_margins. rewrite Hdim. destruct (_ || _) eqn:E; bools; [by apply yields_ret|].
  eapply yields_bind; [|intros t1 _ Ht1; by apply home_cursor_ok].
  apply quiet_upd; [done|]. intros b Hb _ _. split; [|done]. buffer_tac.
Qed.

(** ** Saved cursors *)
Lemma save_dec_ok t : quiet t -> yields (save_dec t) quiet.
Proof.
  intros Ht. apply quiet_upd; [done|]. intros b Hb _ _. split; [|done]. buffer_tac.
  intros ? [= <-]. cbn. split; [done|]. apply Ht.
Qed.

Lemma save_ansi_ok t : quiet t -> yields (save_ansi t) quiet.
Proof.
  intros Ht. apply quiet_upd; [done|]. intros b Hb Ec _. split; [|done]. buffer_tac.
  intros ? [= <-]. cbn. by rewrite Ec.
Qed.

Lemma clamp_cursor_in c : dims_ok d -> cursor_in d (clamp_cursor d c).
Proof. intros (Hd1 & Hd2 & _). split; cbn; lia. Qed.

Lemma clamp_ok lo hi v : lo <= hi -> yields (clamp lo hi v) (fun r => r <= hi).
Proof. intros H. unfold clamp. rewrite (proj2 (Nat.leb_le _ _) H). apply yields_ret. lia. Qed.

Lemma go_home_ok t :
  quiet t -> yields (upd_active (fun b => b <| cursor := mkCursor 0 0 |> <| pending_wrap := false |>) t) quiet.
Proof. intros Ht. apply quiet_upd; [done|]. intros b Hb _ (Hd1 & Hd2 & _). split; [buffer_tac|done]. Qed.

Lemma restore_dec_ok t : quiet t -> yields (restore_dec t) quiet.
Proof.
  intros Ht. destruct (active_ok d _ t Ht) as (b & E & Hb & _ & _ & Hdim & Hd).
  unfold restore_dec. rewrite E, Hdim. cbn [mbind option_bind]. destruct (dec_saved b) as [saved|] eqn:Es.
  - eapply yields_bind with (Q := quiet).
    + apply quiet_with; [done|]. intros b1 Hb1 _ _. pose proof (bo_region _ _ Hb1).
      destruct (clamp_cursor_in (dec_cursor saved) Hd) as [Hc Hr].
      eapply yields_bind with (Q := fun r => r < rows d).
      * destruct dec_origin_mode; [|by apply yields_ret].
        eapply yields_mono; [apply clamp_ok; lia|]. cbn. lia.
      * intros r _ Hr'. apply yields_ret. split; [buffer_tac|done].
    + intros t1 _ Ht1. apply yields_ret.
      apply set_protection_ok, modes_ok, set_pen_ok; [|done]. by apply (bo_dec _ _ Hb).
  - apply go_home_ok. by apply set_protection_ok, set_pen_ok, modes_ok.
Qed.

Lemma restore_ansi_ok t : quiet t -> yields (restore_ansi t) quiet.
Proof.
  intros Ht. apply (modes_ok no_anchor _ ((modes t) <| origin_mode := false |>)) in Ht.
  unfold restore_ansi. fold (set_mode origin_mode false t) in Ht.
  destruct (active_ok d _ _ Ht) as (b & E & Hb & _ & _ & Hdim & Hd). rewrite E, Hdim. cbn [mbind option_bind].
  destruct (ansi_saved b) as [saved|].
  - eapply yields_bind with (Q := quiet).
    + apply quiet_upd; [done|]. intros b1 Hb1 _ _. destruct (clamp_cursor_in (ansi_cursor saved) Hd). split; [buffer_tac|done].
    + intros t1 _ Ht1. apply yields_ret. by apply set_protection_ok.
  - apply go_home_ok. by apply set_protection_ok.
Qed.

(** ** The two screens *)
Lemma blank_buffer_ok s : screen_ok d s -> dims_ok d ->
  buffer_ok (mkBuffer s (mkCursor 0 0) 0 (rows d - 1) 0 (columns d - 1) false None None None).
Proof. intros Hs (Hd1 & Hd2 & _). split; cbn; try done; try lia. split; cbn; lia. Qed.

Lemma new_screen_ok s : dims_ok d -> Screen_new d = inr s -> screen_ok d s.
Proof.
  intros Hd E. destruct (Screen_new_grid d s Hd E) as (Hs & Hds & _ & G). split_and!; [done..|].
  unfold all_rows. rewrite G. apply Forall_replicate. by apply (ri_full (RowInvariant := row_inv d Hd)).
Qed.

Lemma BufferState_new_ok b : dims_ok d -> BufferState_new d = inr b -> buffer_ok b /\ no_anchor b.
Proof.
  intros Hd. unfold BufferState_new. destruct (Screen_new d) as [|s] eqn:E; [done|]. intros [= <-].
  split; [|done]. apply blank_buffer_ok; [|done]. by apply new_screen_ok.
Qed.

Lemma clear_all_ok c s : dims_ok d -> screen_ok d s -> screen_ok d (clear_all c s).
Proof.
  intros Hd Hs. destruct (keeps_screen_ok d (Some (clear_all c s)) s Hs) as (s' & [= <-] & H); [|done].
  destruct Hs as (Hs & Hds & Hr). apply (keeps_clear_all (RI := row_inv d Hd)); rewrite ?Hds; done.
Qed.

Lemma mark_all_dirty_ok s : screen_ok d s -> screen_ok d (mark_all_dirty s).
Proof.
  intros ([] & Hds & Hr). split_and!; [|done|].
  - split; cbn; try done. by rewrite length_map.
  - exact Hr.
Qed.

Lemma buffer_reset_ok b : dims_ok d -> buffer_ok b -> buffer_ok (buffer_reset b) /\ no_anchor (buffer_reset b).
Proof.
  intros Hd Hb. split; [|done]. pose proof (clear_all_ok blank_cell _ Hd (bo_screen _ _ Hb)) as Hs.
  unfold buffer_reset. pose proof Hs as (_ & -> & _). by apply blank_buffer_ok.
Qed.

Lemma refresh_ok b : buffer_ok b -> buffer_ok (b <| screen := mark_all_dirty (screen b) |>).
Proof. intros Hb. apply screen_write_ok; [done|]. apply mark_all_dirty_ok, Hb. Qed.

Lemma switch_alternate_ok t a :
  quiet t -> active_screen t = Primary -> buffer_ok a -> no_anchor a ->
  quiet (t <| alternate := Some a |> <| active_screen := Alternate |>).
Proof.
  intros [[Hd Hp Ha Hact HA H1 H2] Hr] E Hb Hn. split; [|by destruct Hr]. split; cbn; try done.
  - by intros ? [= <-].
  - unfold active_buffer. cbn. by intros ? [= <-].
  - intros _. apply HA. unfold active_buffer. by rewrite E.
Qed.

Lemma enter_alternate_ok clear t : quiet t -> yields (enter_alternate clear t) quiet.
Proof.
  intros Ht. unfold enter_alternate. destruct (active_screen t) eqn:E; [|by apply yields_ret].
  apply (drop_hyperlink_ok no_anchor) in Ht. set (t1 := drop_hyperlink t) in *.
  assert (active_screen t1 = Primary) as E1 by done.
  destruct (active_ok d _ t1 Ht) as (_ & _ & _ & _ & _ & Hdim & Hd). rewrite Hdim.
  destruct (match alternate t1 with Some a => inr a | None => _ end) as [e|a] eqn:Ea; [by apply yields_ret|].
  assert (buffer_ok a /\ no_anchor a) as [Hb Hn].
  { destruct (alternate t1) as [a'|] eqn:Ea'.
    - destruct Ht as [[_ _ Ha _ _ _ H2] _]. simplify_eq. auto.
    - by apply BufferState_new_ok. }
  assert (buffer_ok (if clear then clear_alternate (erase_cell t1) d a else a) /\
          no_anchor (if clear then clear_alternate (erase_cell t1) d a else a)) as [Hb' Hn'].
  { destruct clear; [|done]. split; [|done]. unfold clear_alternate.
    apply (screen_write_ok d _ (clear_all (erase_cell t1) (screen a))) in Hb; [|apply clear_all_ok; [done|apply Hb]].
    destruct Hd as (Hd1 & Hd2 & _). buffer_tac. }
  apply quiet_upd; [|intros b1 Hb1 _ _; split; [by apply refresh_ok|done]].
  apply modes_ok, advance_screen_generation_ok. by apply switch_alternate_ok.
Qed.

Lemma leave_alternate_ok reset t : quiet t -> quiet (leave_alternate reset t).
Proof.
  intros Ht. unfold leave_alternate. apply modes_ok. apply (drop_hyperlink_ok no_anchor) in Ht.
  set (t1 := drop_hyperlink t) in *. clearbody t1. clear t.
  set (t2 := match active_screen t1 with Primary => _ | Alternate => _ end).
  assert (quiet t2 /\ active_screen t2 = Primary) as [[[Hd Hp Ha Hact HA H1 H2] Hr] E2].
  { unfold t2. destruct (active_screen t1) eqn:E; [done|]. split; [|done].
    destruct Ht as [[Hd Hp Ha Hact HA H1 H2] Hr]. split; [|by destruct Hr].
    split; cbn; try done; [by apply refresh_ok| |].
    - unfold active_buffer. cbn. intros b [= <-]. by apply H1.
    - intros _ a Ea. apply HA. unfold active_buffer. by rewrite E. }
  clearbody t2. destruct reset; [|split; [by split|done]]. split; [|by destruct Hr].
  split; cbn; try done.
  - intros a. destruct (alternate t2) as [a0|] eqn:Ea; [|done]. intros [= <-]. apply buffer_reset_ok; auto.
  - rewrite E2. done.
  - unfold active_buffer in *. cbn. rewrite E2 in *. done.
  - intros _ a. destruct (alternate t2) as [a0|] eqn:Ea; [|done]. by intros [= <-].
Qed.

(** ** Modes *)
Lemma set_margin_mode_ok e t : quiet t -> yields (set_margin_mode e t) quiet.
Proof.
  intros Ht. destruct (active_ok d _ t Ht) as (_ & _ & _ & _ & _ & Hdim & _). unfold set_margin_mode.
  apply (modes_ok no_anchor _ ((modes t) <| left_right_margin_mode := e |>)) in Ht.
  destruct e; [by apply yields_ret|]. apply quiet_upd; [done|]. intros b Hb _ (Hd1 & _). split; [|done].
  change (terminal_dimensions (set_mode left_right_margin_mode false t)) with (terminal_dimensions t).
  rewrite Hdim. buffer_tac.
Qed.

Lemma set_private_mode_ok e m t : quiet t -> yields (set_private_mode e m t) quiet.
Proof.
  intros Ht. unfold set_private_mode. cbn [switch].
  case_match; [by apply home_cursor_ok, modes_ok|].
  case_match. { destruct e; [apply yields_ret; by apply modes_ok|]. by apply clear_pending_wrap_ok, modes_ok. }
  case_match; [by apply set_margin_mode_ok|].
  case_match. { destruct e; [by apply enter_alternate_ok|]. apply yields_ret. by apply leave_alternate_ok. }
  case_match. { destruct e; [by apply enter_alternate_ok|]. apply yields_ret. by apply leave_alternate_ok. }
  case_match. { destruct e; [by apply save_dec_ok|by apply restore_dec_ok]. }
  case_match.
  { destruct e; [|by apply restore_dec_ok, leave_alternate_ok].
    step (save_dec_ok t Ht) as Ht1. by apply enter_alternate_ok. }
  apply yields_ret. by apply set_flag_mode_ok.
Qed.

Lemma set_modes_ok priv e p t : quiet t -> yields (set_modes priv e p t) quiet.
Proof.
  intros Ht. apply yields_loop; [|done]. intros i t' _ Ht'. destruct (value p i); [|by apply yields_ret].
  destruct priv; [by apply set_private_mode_ok|]. apply yields_ret. by apply set_ansi_mode_ok.
Qed.

(** ** Resets *)
Lemma soft_reset_ok t : quiet t -> yields (soft_reset t) quiet.
Proof.
  intros Ht. unfold soft_reset.
  match goal with |- context [terminal_dimensions ?x] => set (t1 := x) end.
  assert (quiet t1) as Ht1.
  { unfold t1. apply reset_graphics_rendition_ok, set_protection_ok. by do 7 apply modes_ok. }
  destruct (active_ok d _ t1 Ht1) as (_ & _ & _ & _ & _ & Hdim & _). rewrite Hdim.
  apply quiet_upd; [done|]. intros b Hb _ (Hd1 & Hd2 & _). split; [buffer_tac|done].
Qed.

Lemma screen_alignment_pattern_ok t : quiet t -> yields (screen_alignment_pattern t) quiet.
Proof.
  intros Ht. destruct (active_ok d _ t Ht) as (_ & _ & _ & _ & _ & Hdim & _).
  unfold screen_alignment_pattern. rewrite Hdim. apply quiet_with; [by apply modes_ok|].
  intros b Hb _ Hd. pose proof (bo_screen _ _ Hb) as Hs. pose proof Hd as (Hd1 & Hd2 & _).
  match goal with |- context [Screen.fill_rectangle ?r ?c ?sp ?s] =>
    destruct (keeps_screen_ok d (Screen.fill_rectangle r c sp s) s Hs) as (s' & -> & Hs') end.
  { apply keeps_rectangle; [|done..]. unfold rectangle_ok. cbn. lia. }
  cbn. apply yields_ret. split; [|done]. apply (screen_write_ok d _ s') in Hb; [|done]. buffer_tac.
Qed.

(** ** [apply] and [ingest] *)
Lemma line_feed_ok t : quiet t -> yields (line_feed t) quiet.
Proof using L.
  intros Ht. unfold line_feed. eapply yields_bind; [by apply end_logical_line_ok, drop_hyperlink_ok|].
  intros t1 _ Ht1. eapply yields_mono; [by apply (index_ok d no_anchor)|by intros ? []].
Qed.

Lemma repeat_op_ok n f t : (forall t, quiet t -> yields (f t) quiet) -> quiet t -> yields (repeat_op n f t) quiet.
Proof. intros Hf Ht. apply yields_loop; [|done]. auto. Qed.

Abbreviation sound := (term_ok d (anchor_ok d)).

Lemma quiet_sound t : quiet t -> sound t.
Proof. apply term_ok_mono, no_anchor_ok. Qed.

Lemma repeat_preceding_character_ok p t : quiet t -> yields (repeat_preceding_character p t) sound.
Proof using L.
  intros Ht. unfold repeat_preceding_character. destruct (last_graphic_character t) as [ch|].
  - apply yields_loop; [|by apply quiet_sound]. intros _ t' _ Ht'. by apply print_ok.
  - apply yields_ret. by apply quiet_sound.
Qed.

(** Every operation but the three that keep the anchor, once it is cleared. *)
Lemma apply_quiet_ok op t :
  keeps_grapheme_anchor op = false -> quiet t -> yields (apply_op op t) sound.
Proof using L.
  intros Hk Ht.
  assert (forall o, yields o quiet -> yields o sound) as Q
    by (intros o Ho; eapply yields_mono; [exact Ho|apply quiet_sound]).
  assert (forall o, yields o quiet -> yields (t ← o; clear_pending_wrap t) sound) as QC
    by (intros o Ho; apply Q; eapply yields_bind; [exact Ho|]; intros; by apply clear_pending_wrap_ok).
  assert (forall o, yields o quiet -> yields (t ← o; return_carriage t) quiet) as QR
    by (intros o Ho; eapply yields_bind; [exact Ho|]; intros; by apply return_carriage_ok).
  destruct op; try done; cbn [apply_op].
  - by apply QC, return_carriage_ok.
  - apply Q. eapply yields_bind; [by apply line_feed_ok|]. intros t1 _ Ht1.
    eapply yields_bind with (Q := quiet); [|intros; by apply clear_pending_wrap_ok].
    destruct line_feed_new_line; [by apply return_carriage_ok|by apply yields_ret].
  - by apply Q, move_cursor_back_ok.
  - by apply QC, tab_ok.
  - apply QC, repeat_op_ok; [|done]. apply tab_ok.
  - apply QC, repeat_op_ok; [|done]. apply backward_tab_ok.
  - by apply QC, line_feed_ok.
  - apply Q. eapply yields_bind; [by apply line_feed_ok|]. intros t1 _ Ht1.
    eapply yields_bind; [by apply return_carriage_ok|]. intros; by apply clear_pending_wrap_ok.
  - apply QC. by apply (reverse_index_ok d no_anchor).
  - by apply Q, save_dec_ok.
  - by apply Q, restore_dec_ok.
  - apply Q, yields_ret. by apply set_tab_stop_ok.
  - apply Q, yields_ret. by apply modes_ok.
  - apply Q, yields_ret. by apply set_cursor_style_of_ok.
  - by apply Q, move_vertical_ok.
  - by apply Q, move_vertical_ok.
  - by apply Q, move_horizontal_ok.
  - by apply Q, move_horizontal_ok.
  - by apply Q, QR, move_vertical_ok.
  - by apply Q, QR, move_vertical_ok.
  - by apply Q, cursor_horizontal_absolute_ok.
  - by apply Q, cursor_horizontal_absolute_ok.
  - by apply Q, cursor_position_ok.
  - by apply Q, vertical_position_absolute_ok.
  - by apply Q, erase_display_ok.
  - by apply Q, erase_line_ok.
  - by apply Q, erase_characters_ok.
  - by apply Q, insert_characters_ok.
  - by apply Q, delete_characters_ok.
  - by apply Q, insert_lines_ok.
  - by apply Q, delete_lines_ok.
  - by apply Q, scroll_up_ok.
  - by apply Q, scroll_down_ok.
  - by apply Q, set_scroll_region_ok.
  - apply Q. case_match; [by apply set_horizontal_margins_ok|].
    case_match; [by apply save_ansi_ok|by apply yields_ret].
  - by apply Q, restore_ansi_ok.
  - by apply Q, set_modes_ok.
  - by apply Q, device_status_ok.
  - apply Q, yields_ret. by apply dec_device_status_ok.
  - by apply repeat_preceding_character_ok.
  - by apply Q, screen_alignment_pattern_ok.
  - apply Q, yields_ret. by apply queue_reply_ok.
  - apply Q, yields_ret. by apply clear_tab_stops_ok.
  - apply Q, yields_ret. by apply set_protection_ok.
  - by apply Q, erase_display_ok.
  - by apply Q, erase_line_ok.
  - by apply Q, copy_rectangle_ok.
  - by apply Q, fill_rectangle_ok.
  - by apply Q, erase_rectangle_ok.
  - by apply Q, insert_columns_ok.
  - by apply Q, delete_columns_ok.
  - by apply QC, back_index_ok.
  - by apply QC, forward_index_ok.
  - apply Q, yields_ret. by apply request_mode_ok.
  - by apply Q, soft_reset_ok.
  - by apply Q, request_rectangle_checksum_ok.
  - by apply Q, window_operation_ok.
Qed.

Lemma apply_ok op t : sound t -> yields (apply op t) sound.
Proof using L.
  intros Ht. unfold apply. destruct (keeps_grapheme_anchor op) eqn:E.
  - cbn [mbind option_bind]. destruct op; try done; cbn [apply_op].
    + by apply print_ok.
    + apply yields_ret. by apply set_graphics_rendition_ok.
    + by apply yields_ret.
  - eapply yields_bind; [by eapply clear_grapheme_anchor_ok|]. intros t1 _ Ht1. by apply apply_quiet_ok.
Qed.

Lemma parser_set_ok p t : sound t -> parser_ok p -> sound (t <| parser := p |>).
Proof. intros. registers_tac. Qed.

Lemma utf8_set_ok u t : sound t -> utf8_ok u -> sound (t <| utf8 := u |>).
Proof. intros. registers_tac. Qed.

Lemma parse_byte_ok byte t : sound t -> yields (parse_byte byte t) sound.
Proof using L.
  intros Ht. unfold parse_byte.
  destruct (advance_ok (parser t) byte) as (op & p & -> & Hp); [apply Ht|]. cbn [mbind option_bind].
  eapply yields_bind; [by apply apply_ok, parser_set_ok|]. intros t1 _ Ht1. cbn [take_osc_action].
  eapply yields_bind.
  { apply (apply_osc_action_ok (anchor_ok d)), parser_set_ok; [done|]. by destruct (ok_parser _ _ (proj2 Ht1)). }
  intros t2 _ Ht2. apply (apply_dcs_action_ok (anchor_ok d)), parser_set_ok; [done|].
  by destruct (ok_parser _ _ (proj2 Ht2)).
Qed.

Lemma ingest_fresh_ok byte t : sound t -> yields (ingest_fresh byte t) sound.
Proof using L.
  intros Ht. unfold ingest_fresh. destruct (_ && _); [|by apply parse_byte_ok].
  destruct (utf8_start (utf8 t) byte) as [u|] eqn:E; [|by apply print_ok]. apply yields_ret.
  apply utf8_set_ok; [done|]. eapply utf8_start_ok; [|done]. apply Ht.
Qed.

Lemma ingest_byte_ok byte t : sound t -> yields (ingest_byte byte t) sound.
Proof using L.
  intros Ht. unfold ingest_byte. destruct (utf8_pending _) eqn:E; [|by apply ingest_fresh_ok].
  destruct (utf8_advance_cases (utf8 t) byte) as (r & u & -> & Hu & _); [apply Ht|done|]. cbn [mbind option_bind].
  apply (utf8_set_ok u) in Ht; [|done]. destruct r as [|c|].
  - by apply yields_ret.
  - by apply print_ok.
  - eapply yields_bind; [by apply print_ok|]. intros t1 _ Ht1. by apply ingest_fresh_ok.
Qed.

Lemma ingest_ok bs t : sound t -> yields (ingest bs t) sound.
Proof using L. intros Ht. apply yields_loop; [|done]. intros b t' _ Ht'. by apply ingest_byte_ok. Qed.

Lemma with_scrollback_limit_ok limit t : dims_ok d -> with_scrollback_limit d limit = inr t -> sound t.
Proof.
  intros Hd. unfold with_scrollback_limit. destruct (BufferState_new d) as [|b] eqn:E; [done|]. intros [= <-].
  destruct (BufferState_new_ok b Hd E) as [Hb Hn]. apply quiet_sound. split.
  - split; cbn; try done. by intros ? [= <-].
  - split; cbn; try done; [apply parser_ok_new|apply utf8_ok_new| |lia].
    unfold default_tab_stops, range. by rewrite length_map, length_seq, Nat.sub_0_r.
Qed.
End Ops.
