(* ===== verification/TerminalResize.v ===== *)
(** * Resizing, and every call of the terminal's interface

    Both resize paths return and keep the invariant, at every size; with
    [TerminalSafe.v] this covers the whole public interface: [reachable]
    relates a new terminal to the terminals any sequence of calls leaves. *)

From Stdlib Require Import NArith Bool.
From S2P Require Import Prelude Cell Utf8 Hyperlink Parser Screen ScreenGrid ScreenOps ScreenInv ScreenPairs ScreenBuild History HistoryRows HistoryInv HistorySpec Input Buffer Terminal TerminalOps TerminalInv TerminalPrint TerminalSafe.

(** ** The history under the weaker invariant [lines_sane] *)
Section Sane.
Context `{P : Platform} `{L : !PlatformLaws P}.

Lemma search_loop_total fuel starts target low high :
  low <= high <= length starts ->
  yields (search_loop fuel starts target low high) (fun r => r <= length starts).
Proof.
  revert low high. induction fuel as [|fuel IH]; intros low high H; cbn [search_loop]; [apply yields_ret; lia|].
  destruct (low <? high) eqn:E; bools; [|apply yields_ret; lia].
  assert ((high - low) / 2 < high - low) as Hlt by (apply Nat.div_lt; lia).
  destruct (lookup_lt_is_Some_2 starts (low + (high - low) / 2)) as [st ->]; [lia|]. cbn [mbind option_bind].
  destruct (st <=? target)%N; apply IH; lia.
Qed.

Lemma find_row_sane s target :
  lines_sane s ->
  yields (find_row s target) (fun r => forall i l k, r = Some (i, l, k) -> lines s !! i = Some l /\ line_sane l).
Proof.
  intros [Hs Hlen]. unfold find_row, line_index_for_absolute_row.
  destruct (_ =? 0); [by apply yields_ret|].
  eapply yields_bind with (Q := fun i => forall k, i = Some k -> k < length (lines s)).
  - step (search_loop_total (length (line_row_starts s)) (line_row_starts s) target 0 (length (line_row_starts s)) ltac:(lia)) as Hr.
    apply yields_ret. destruct a as [|i]; [done|]. intros k [= <-]. lia.
  - intros [i|] _ Hi; [|by apply yields_ret]. specialize (Hi i eq_refl).
    destruct (lookup_lt_is_Some_2 (lines s) i) as [l El]; [done|].
    destruct (lookup_lt_is_Some_2 (line_row_starts s) i) as [st Est]; [lia|]. rewrite El, Est. cbn.
    apply yields_ret. intros ? ? ? [= <- <- <-]. split; [done|]. by eapply Forall_lookup_1.
Qed.

Lemma line_and_offset_at_sane s r c :
  lines_sane s -> yields (line_and_offset_at s r c) (fun _ => True).
Proof.
  intros Hs. unfold line_and_offset_at. destruct (checked_add _ _ _); [|by apply yields_ret].
  step (find_row_sane s n Hs) as ?. by apply yields_ret.
Qed.

Lemma resolve_sane s a : lines_sane s -> yields (resolve s a) (fun _ => True).
Proof.
  intros [Hs Hlen]. destruct a as [a|]; [|by apply yields_ret]. cbn. unfold resolve_anchor.
  destruct (anchor_line s a) as [i|] eqn:Ei; [|by apply yields_ret].
  assert (i < length (lines s)) as Hi.
  { unfold anchor_line in Ei.
    assert (forall p (ls : list LogicalLine) k, position p ls = Some k -> k < length ls) as Hp.
    { intros p ls. induction ls as [|l ls IH]; intros k; cbn; [done|].
      destruct (p l); [intros [= <-]; lia|]. destruct (position p ls) as [j|] eqn:Ej; cbn; [|done].
      intros [= <-]. specialize (IH j eq_refl). lia. }
    destruct (lines s !! line_index_hint a) eqn:El; [|by eapply Hp].
    destruct (line_id l =? _)%N; [simplify_eq; by eapply lookup_lt_Some|by eapply Hp]. }
  destruct (lookup_lt_is_Some_2 (lines s) i Hi) as [l ->]. cbn [mbind option_bind].
  destruct (_ && _); [by apply yields_ret|]. destruct (locate_offset _ _ _) as [[]|]; [|by apply yields_ret].
  destruct (lookup_lt_is_Some_2 (line_row_starts s) i) as [st ->]; [lia|]. by apply yields_ret.
Qed.

Lemma reflow_line_sane cols l : 2 <= cols -> line_sane l -> line_sane (reflow_line cols l).
Proof using L.
  intros Hc [_ (H1 & H2 & H3)]. destruct (reflow_line_spec cols Hc l) as (E & _ & _ & _ & Hok & _).
  split; [done|]. unfold reflow_line. cbn. split_and!; [done|by apply (pushes_capacity_bound cols)|done].
Qed.

Lemma reflow_lines_sane cols ls starts ch cur :
  2 <= cols -> Forall line_sane ls -> length starts = length ls ->
  let '(ls', starts', _, _) := reflow_lines cols ls starts ch cur in
  Forall line_sane ls' /\ length starts' = length ls'.
Proof using L.
  intros Hc H. revert starts ch cur. induction H as [|l ls Hl _ IH]; intros starts ch cur Hlen; cbn.
  - done.
  - destruct starts as [|st starts]; [done|]. cbn in Hlen.
    set (ch' := usize_add _ _). set (cur' := u64_add _ _). specialize (IH starts ch' cur' ltac:(lia)).
    destruct (reflow_lines cols ls starts ch' cur') as [[[ls' starts'] ch2] cur2]. destruct IH as [IH1 IH2].
    split; [|cbn; lia]. constructor; [by apply reflow_line_sane|done].
Qed.

Lemma reflow_sane cols s : 2 <= cols -> lines_sane s -> lines_sane (reflow cols s).
Proof using L.
  intros Hc [Hs Hl]. unfold reflow.
  pose proof (reflow_lines_sane cols (lines s) (line_row_starts s) (charged_bytes s) (content_row_origin s) Hc Hs Hl) as H.
  destruct (reflow_lines _ _ _ _ _) as [[[ls starts] ch] cur]. exact H.
Qed.

Lemma split_loop_sane rl rs ch n acc :
  Forall line_sane rl -> length rs = length rl ->
  yields (split_loop rl rs ch n acc)
    (fun '(rl', rs', _, _) => Forall line_sane rl' /\ length rs' = length rl').
Proof using L.
  intros H. revert rs ch n acc. induction H as [|l rl Hl Hrl IH]; intros rs ch n acc Hlen.
  - destruct n; by apply yields_ret.
  - cbn [split_loop]. destruct n as [|n]; [apply yields_ret; by split; [constructor|]|].
    destruct rs as [|st rs]; [done|]. cbn in Hlen. destruct Hl as [Hok Hch].
    destruct (physical_rows l <=? S n) eqn:E; bools.
    + rewrite (tail_rows_spec l 0) by (done || lia). cbn [mbind option_bind list.tail]. apply IH. lia.
    + rewrite (tail_rows_spec l (physical_rows l - S n)) by (done || lia). cbn [mbind option_bind].
      destruct (keep_prefix_spec (physical_rows l - S n) l) as (l' & -> & Hg & _); [split_and!; done || lia|lia|].
      cbn [mbind option_bind list.head list.tail]. apply yields_ret.
      split; [|cbn; lia]. constructor; [split; apply Hg|done].
Qed.

Lemma split_off_tail_sane n s :
  lines_sane s -> yields (split_off_tail n s) (fun '(_, s') => lines_sane s').
Proof using L.
  intros [Hs Hl]. unfold split_off_tail.
  eapply yields_bind.
  { apply (split_loop_sane (reverse (lines s)) (reverse (line_row_starts s)) (charged_bytes s) n []).
    - by apply Forall_reverse.
    - by rewrite !length_reverse. }
  intros [[[ls starts] ch] rows] _ [H1 H2]. cbn beta iota.
  destruct (enforce_limit_sane (s <| lines := reverse ls |> <| line_row_starts := reverse starts |> <| charged_bytes := ch |>))
    as (s1 & -> & H1'). { split; cbn; [by apply Forall_reverse|by rewrite !length_reverse]. }
  cbn. by apply yields_ret.
Qed.

Lemma set_limit_bytes_sane n s : lines_sane s -> yields (set_limit_bytes n s) lines_sane.
Proof using L. intros [H1 H2]. by apply enforce_limit_sane. Qed.

Lemma push_rows_yields rs s : lines_sane s -> yields (push_rows rs s) lines_sane.
Proof using L. apply push_rows_sane. Qed.

Lemma yields_mapM {A B} (f : A -> option B) xs :
  (forall x, x ∈ xs -> yields (f x) (fun _ => True)) -> yields (mapM f xs) (fun _ => True).
Proof.
  induction xs as [|x xs IH]; intros H; [by apply yields_ret|]. cbn.
  destruct (H x) as (y & -> & _); [by left|]. cbn.
  destruct IH as (ys & -> & _); [intros z Hz; apply H; by right|]. by apply yields_ret.
Qed.
End Sane.

(** ** Buffers *)
Section Buffers.
Context `{P : Platform} `{L : !PlatformLaws P} (d : Dimensions) (Hd : dims_ok d).

Lemma resized_horizontal_margins_ok d0 b :
  buffer_ok d0 b ->
  (resized_horizontal_margins b d).1 < (resized_horizontal_margins b d).2 < columns d.
Proof using Hd.
  intros Hb. destruct Hd as (Hc & _). pose proof (bo_margins _ _ Hb). unfold resized_horizontal_margins.
  destruct (_ || _) eqn:E; cbn; [lia|]. bools.
  rewrite (proj2 (Nat.ltb_lt 1 (columns d))), andb_true_r in * by lia. bools. lia.
Qed.

Lemma resized_scroll_region_ok d0 b :
  buffer_ok d0 b ->
  (resized_scroll_region b d).1 <= (resized_scroll_region b d).2 < rows d.
Proof using Hd.
  intros Hb. destruct Hd as (_ & Hr & _). pose proof (bo_region _ _ Hb). unfold resized_scroll_region.
  destruct (_ || _); cbn; lia.
Qed.

Lemma clamp_saved_states_ok b :
  screen_ok d (screen b) -> cursor_in d (cursor b) -> scroll_top b <= scroll_bottom b < rows d ->
  scroll_left b < scroll_right b < columns d ->
  (forall saved, dec_saved b = Some saved ->
     pen_okb (dec_attributes saved) (dec_foreground saved) (dec_background saved) = true) ->
  yields (clamp_saved_states d b)
    (fun b' => buffer_ok d b' /\ grapheme_anchor b' = grapheme_anchor b /\ cursor b' = cursor b).
Proof using Hd.
  intros Hs Hc Hr Hm Hpen. unfold clamp_saved_states.
  eapply yields_bind with (Q := fun ds => forall saved, ds = Some saved -> cursor_in d (dec_cursor saved) /\
    pen_okb (dec_attributes saved) (dec_foreground saved) (dec_background saved) = true).
  - destruct (dec_saved b) as [saved|] eqn:Es; [|by apply yields_ret]. unfold clamp_dec_saved.
    destruct (clamp_cursor_in d (dec_cursor saved) Hd) as [H1 H2].
    eapply yields_bind with (Q := fun s' => cursor_in d (dec_cursor s') /\
      pen_okb (dec_attributes s') (dec_foreground s') (dec_background s') = true).
    + eapply yields_bind with (Q := fun r => r < rows d).
      * destruct dec_origin_mode; [|by apply yields_ret].
        eapply yields_mono; [apply clamp_ok; lia|]. cbn. lia.
      * intros r _ Hr'. apply yields_ret. split; [by split|]. by apply (Hpen saved).
    + intros s' _ Hs'. apply yields_ret. by intros ? [= <-].
  - intros ds _ Hds. apply yields_ret. split; [|done]. split; cbn; try done.
    intros saved. destruct (ansi_saved b); [|done]. intros [= <-]. by apply clamp_cursor_in.
Qed.

Lemma buffer_resized_ok d0 b :
  buffer_ok d0 b -> anchor_ok d0 b ->
  yields (buffer_resized b d) (fun r => forall b', r = inr b' ->
    buffer_ok d b' /\ anchor_ok d b' /\ (no_anchor b -> no_anchor b')).
Proof using L Hd.
  intros Hb Ha. unfold buffer_resized. pose proof (bo_screen _ _ Hb) as (Hs & Hds & Hrows).
  destruct (resized_ok (screen b) d Hd Hs) as (out & -> & Hout); [by rewrite Hds|]. cbn [mbind option_bind].
  destruct out as [e|s]; [by apply yields_ret|]. destruct Hout as ((Hs' & Hds' & Hr' & _) & _).
  pose proof (resized_horizontal_margins_ok d0 b Hb) as Hm. pose proof (resized_scroll_region_ok d0 b Hb) as Hrg.
  destruct (resized_horizontal_margins b d) as [left right]. destruct (resized_scroll_region b d) as [top bottom].
  cbn in Hm, Hrg.
  eapply yields_bind; [apply clamp_saved_states_ok; cbn; try done; [by apply clamp_cursor_in|apply (bo_dec _ _ Hb)]|].
  intros b1 _ (Hb1 & Hg1 & Hc1). apply yields_ret. intros ? [= <-]. split; [done|].
  cbn in Hg1, Hc1. unfold anchor_ok, no_anchor. rewrite Hg1, Hc1. split.
  - intros a. destruct (grapheme_anchor b) as [a0|] eqn:E; cbn; [|done].
    destruct (grapheme_anchor_survives_resize b a0 d) eqn:Es; [|done]. intros [= <-].
    unfold grapheme_anchor_survives_resize in Es. destruct (_ || _) eqn:Eo; [done|]. bools.
    destruct (Ha a0 E) as [_ Hle]. split; [by split|]. cbn. lia.
  - by intros ->.
Qed.

Lemma fold_and_reflow_ok d0 b sb positions :
  buffer_ok d0 b -> dims_ok d0 -> lines_sane sb ->
  yields (fold_and_reflow b d sb positions) (fun '(combined, _, _) => lines_sane combined).
Proof using L Hd.
  intros Hb Hd0 Hsb. pose proof (bo_screen _ _ Hb) as (Hs & Hds & Hrows). unfold fold_and_reflow, content_rows_of.
  assert (yields (occupied_row_count (screen b)) (fun _ => True)) as Hocc.
  { unfold occupied_row_count. eapply yields_bind; [|intros ? _ _; by apply yields_ret].
    apply yields_mapM. intros r Hr. apply elem_of_range in Hr.
    rewrite occupied_lookup by (done || lia). by apply yields_ret. }
  destruct Hocc as (n & -> & _). cbn [mbind option_bind].
  eapply yields_bind with (Q := fun _ => True).
  { apply yields_mapM. intros r Hr. apply elem_of_range in Hr.
    rewrite screen_row_view; [by apply yields_ret|done|lia|].
    apply (all_exts_ok (RI := row_inv d0 Hd0)); [by rewrite Hds|done|lia]. }
  intros fold _ _.
  eapply yields_bind; [by apply set_limit_bytes_sane|]. intros sb1 _ Hsb1.
  eapply yields_bind; [by apply push_rows_yields|]. intros sb2 _ Hsb2.
  eapply yields_bind; [by apply line_and_offset_at_sane|]. intros anchor _ _.
  eapply yields_bind.
  { apply yields_mapM. intros p _. unfold position_anchor. case_match; [|by apply yields_ret].
    by apply line_and_offset_at_sane. }
  intros anchors _ _.
  set (sb3 := if columns d =? _ then sb2 else reflow (columns d) sb2).
  assert (lines_sane sb3) as Hsb3 by (unfold sb3; case_match; [done|]; apply reflow_sane; [apply Hd|done]).
  eapply yields_bind; [by apply resolve_sane|]. intros r _ _.
  eapply yields_bind; [apply yields_mapM; intros; by apply resolve_sane|]. intros rs _ _. by apply yields_ret.
Qed.

Lemma reflowed_cursor_ok sb n p : cursor_in d (reflowed_cursor sb n d p).
Proof using Hd.
  unfold reflowed_cursor. destruct Hd as (H1 & H2 & _).
  assert (cursor_in d (mkCursor 0 (rows d - 1))) by (split; cbn; lia).
  destruct p as [[c r]|]; [|done]. case_match; [by apply clamp_cursor_in|done].
Qed.

Lemma reflowed_ok d0 b sb positions :
  buffer_ok d0 b -> dims_ok d0 -> lines_sane sb ->
  yields (reflowed b d sb positions) (fun '(r, sb') => lines_sane sb' /\
    forall b' ps, r = inr (b', ps) -> buffer_ok d b' /\ no_anchor b').
Proof using L Hd.
  intros Hb Hd0 Hsb. unfold reflowed.
  eapply yields_bind; [by eapply fold_and_reflow_ok|]. intros [[c1 resolved] rps] _ Hc1. cbn beta iota.
  eapply yields_bind; [by apply split_off_tail_sane|]. intros [tail c2] _ Hc2. cbn beta iota.
  eapply yields_bind; [by apply set_limit_bytes_sane|]. intros c3 _ Hc3.
  destruct (from_rows_ok d tail Hd) as (out & -> & Hout). cbn [mbind option_bind].
  destruct out as [e|s]; [apply yields_ret; split; [by repeat constructor|done]|].
  destruct Hout as (Hs' & Hds' & Hr' & _).
  pose proof (resized_horizontal_margins_ok d0 b Hb) as Hm. pose proof (resized_scroll_region_ok d0 b Hb) as Hrg.
  destruct (resized_horizontal_margins b d) as [left right]. destruct (resized_scroll_region b d) as [top bottom].
  cbn in Hm, Hrg.
  eapply yields_bind; [apply clamp_saved_states_ok; cbn; try done; [apply reflowed_cursor_ok|apply (bo_dec _ _ Hb)]|].
  intros b1 _ (Hb1 & Hg1 & _). apply yields_ret. split; [done|]. intros ? ? [= <- _]. done.
Qed.

Abbreviation sound d := (term_ok d (anchor_ok d)).

Lemma resize_with_content_positions_ok d0 positions t :
  sound d0 t ->
  yields (resize_with_content_positions d positions t) (fun '(r, t') =>
    match r with inl _ => sound d0 t' | inr _ => sound d t' end).
Proof using L Hd.
  intros Ht. pose proof Ht as [[Hd0 Hp Ha Hact HA H1 H2] Hr]. unfold resize_with_content_positions.
  eapply yields_bind; [eapply reflowed_ok; [done..|apply Hr]|]. intros [r sb] _ [Hsb Hrb]. cbn beta iota.
  pose proof (history_ok d0 _ t sb Ht Hsb) as Ht1.
  destruct r as [e|[p' ps]]; [by apply yields_ret|]. destruct (Hrb p' ps eq_refl) as [Hp' Hnp'].
  cbn [alternate set_field upd_scrollback].
  eapply yields_bind with (Q := fun r => forall oa, r = inr oa ->
    (is_Some (alternate t) -> is_Some oa) /\
    forall a', oa = Some a' -> buffer_ok d a' /\ anchor_ok d a' /\ (active_screen t = Primary -> no_anchor a')).
  - destruct (alternate t) as [a|] eqn:Ea; [|apply yields_ret; intros ? [= <-]; split; [done|done]].
    assert (anchor_ok d0 a) as Haa.
    { destruct (active_screen t) eqn:E; [apply no_anchor_ok; by apply H2|].
      apply HA. unfold active_buffer. by rewrite E. }
    eapply yields_bind; [apply (buffer_resized_ok d0); auto|]. intros r _ Hra. apply yields_ret.
    intros oa. destruct r as [|a']; [done|]. intros [= <-]. split; [done|]. intros ? [= <-].
    destruct (Hra a' eq_refl) as (G1 & G2 & G3). split_and!; try done. intros E. apply G3. by apply H2.
  - intros [e|oa] _ Hoa; [by apply yields_ret|]. destruct (Hoa oa eq_refl) as [Hoa1 Hoa2]. apply yields_ret.
    split.
    + split; cbn; try done.
      * intros a' Ea'. by apply (Hoa2 a').
      * intros E. by apply Hoa1, Hact.
      * unfold active_buffer. cbn. intros b Eb. destruct (active_screen t).
        -- simplify_eq. by apply no_anchor_ok.
        -- by apply (Hoa2 b).
      * intros E a' Ea'. by apply (Hoa2 a').
    + destruct Hr; split; cbn; try done.
      unfold resized_tab_stops, range. by rewrite length_map, length_seq, Nat.sub_0_r.
Qed.
End Buffers.

(** ** Every call *)
Inductive TerminalCall :=
  | CallIngest (bs : list N)
  | CallApply (op : TerminalOp)
  | CallResize (d : Dimensions) (positions : list ContentPosition)
  | CallHandleInput (e : InputEvent)
  | CallQueueInput (bs : list N)
  | CallQueueReply (bs : list N)
  | CallDrainInput
  | CallDrainReplies
  | CallTakeInputOverflow
  | CallTakeReplyOverflow
  | CallTakeDirtyRows
  | CallSetScrollbackLimit (limit : N)
  | CallClearScrollback
  | CallSetColorScheme (scheme : ColorScheme)
  | CallReset
  | CallRecover.

(** [Dimensions] values come from [Dimensions::new], and the palette of a
    [ColorScheme] is an array of sixteen. *)
Definition call_ok (c : TerminalCall) : Prop :=
  match c with
  | CallResize d _ => Dimensions_new (columns d) (rows d) = inr d
  | CallSetColorScheme scheme => length (ansi scheme) = 16
  | _ => True
  end.

Section Calls.
Context `{P : Platform} `{L : !PlatformLaws P}.

(** The terminal a call leaves. *)
Definition run_call (c : TerminalCall) (t : Terminal) : option Terminal :=
  match c with
  | CallIngest bs => ingest bs t
  | CallApply op => apply op t
  | CallResize d positions => snd <$> resize_with_content_positions d positions t
  | CallHandleInput e => snd <$> handle_input e t
  | CallQueueInput bs => Some (queue_input bs t).2
  | CallQueueReply bs => Some (queue_reply bs t)
  | CallDrainInput => Some (drain_input t).2
  | CallDrainReplies => Some (drain_replies t).2
  | CallTakeInputOverflow => Some (take_input_queue_overflowed t).2
  | CallTakeReplyOverflow => Some (take_reply_queue_overflowed t).2
  | CallTakeDirtyRows => snd <$> terminal_take_dirty_rows t
  | CallSetScrollbackLimit limit => set_scrollback_limit limit t
  | CallClearScrollback => Some (clear_scrollback t)
  | CallSetColorScheme scheme => Some (set_color_scheme scheme t)
  | CallReset => Some (reset_to_initial_state t)
  | CallRecover => Some (recovery_clone t)
  end.

Abbreviation sound d := (term_ok d (anchor_ok d)).

(** What every reachable terminal satisfies: its parts are in range, and the
    cursor is on the screen. *)
Definition terminal_safe (t : Terminal) : Prop :=
  let d := terminal_dimensions t in
  sound d t /\ cursor_in d (terminal_cursor t) /\ Dimensions_new (columns d) (rows d) = inr d.

Lemma sound_safe d t : Dimensions_new (columns d) (rows d) = inr d -> sound d t -> terminal_safe t.
Proof.
  intros Hn Ht. destruct (active_ok d _ t Ht) as (b & _ & Hb & _ & Ec & Hdim & _).
  unfold terminal_safe. rewrite Hdim, Ec. split_and!; [done|apply Hb|done].
Qed.

Section At.
Context (d : Dimensions).

Lemma queue_input_ok bs t : sound d t -> sound d (queue_input bs t).2.
Proof.
  intros Ht. unfold queue_input, queue_transport_bytes. destruct_ifs; cbn [snd]; registers_tac; rewrite length_app; lia.
Qed.
Opaque queue_input.

Lemma queue_encoded_input_ok bs t : sound d t -> sound d (queue_encoded_input bs t).2.
Proof.
  intros Ht. pose proof (queue_input_ok bs t Ht) as H. unfold queue_encoded_input. by destruct (queue_input bs t).
Qed.
Opaque queue_encoded_input.

Lemma mouse_code_bound e : ((mouse_code e false).1 <= 127)%N.
Proof.
  assert (In (mouse_bits (modifiers e)) [0; 4; 8; 12; 16; 20; 24; 28]%N) as H.
  { unfold mouse_bits. destruct_ifs; vm_compute; tauto. }
  unfold mouse_code. cbn [In] in H.
  destruct (kind e) as [[]|[]|[[]|]|[]]; cbn [fst from_option]; destruct_or! H; try done; rewrite <- H; vm_compute; done.
Qed.

Lemma encode_legacy_mouse_total e : yields (encode_legacy_mouse e) (fun _ => True).
Proof.
  unfold encode_legacy_mouse. destruct (_ || _) eqn:E; [by apply yields_ret|]. bools.
  unfold MAX_LEGACY_COORDINATE in *. pose proof (mouse_code_bound e) as Hb.
  destruct (mouse_code e false) as [code final]. cbn in Hb. unfold u8_add, checked_add.
  rewrite !N.mod_small by lia. rewrite !(proj2 (N.leb_le _ _)) by lia. by apply yields_ret.
Qed.

Lemma handle_input_ok e t : sound d t -> yields (handle_input e t) (fun r => sound d r.2).
Proof.
  intros Ht. assert (sound d (overflow_input t).2) as Ho by (cbn [overflow_input snd]; registers_tac).
  destruct e as [key|key mods|s|f|m]; cbn [handle_input].
  - apply yields_ret. case_match; [by apply queue_encoded_input_ok|done].
  - apply yields_ret. case_match; [by apply queue_encoded_input_ok|done].
  - apply yields_ret. unfold handle_paste. repeat case_match; try exact Ho. by apply queue_encoded_input_ok.
  - apply yields_ret. case_match; [by apply queue_encoded_input_ok|done].
  - unfold handle_mouse. destruct (bool_decide _); [by apply yields_ret|]. destruct (negb _); [by apply yields_ret|].
    eapply yields_bind with (Q := fun _ => True).
    + case_match; [by apply yields_ret|apply encode_legacy_mouse_total].
    + intros o _ _. apply yields_ret. destruct o; [by apply queue_encoded_input_ok|done].
Qed.

Lemma reset_to_initial_state_ok t : sound d t -> sound d (reset_to_initial_state t).
Proof.
  intros Ht. destruct (active_ok d _ t Ht) as (_ & _ & _ & _ & _ & Hdim & Hd).
  destruct Ht as [[_ Hp _ _ _ _ _] Hr]. destruct (buffer_reset_ok d (primary t) Hd Hp) as [Hb Hn].
  split.
  - split; try done. unfold active_buffer. cbn. by intros b [= <-].
  - destruct Hr; split; try done.
    + apply parser_ok_new.
    + apply utf8_ok_new.
    + change (length (default_tab_stops (terminal_dimensions t)) = columns d). rewrite Hdim.
      unfold default_tab_stops, range. by rewrite length_map, length_seq, Nat.sub_0_r.
    + cbn. lia.
Qed.

Lemma recovery_clone_ok t : sound d t -> sound d (recovery_clone t).
Proof.
  intros [[Hd Hp Ha Hact HA H1 H2] []]. split; [|by split]. split; cbn; try done.
  - by apply refresh_ok.
  - intros a. destruct (alternate t) as [a0|] eqn:E; [|done]. intros [= <-]. by apply refresh_ok, Ha.
  - intros E. by apply fmap_is_Some, Hact.
  - unfold active_buffer in *. cbn. destruct (active_screen t).
    + intros b [= <-]. by apply (HA (primary t)).
    + intros b. destruct (alternate t) as [a0|] eqn:E; [|done]. intros [= <-]. by apply (HA a0).
  - intros E a. destruct (alternate t) as [a0|] eqn:Ea; [|done]. intros [= <-]. by apply (H2 E a0).
Qed.

Lemma take_dirty_rows_ok t : sound d t -> yields (terminal_take_dirty_rows t) (fun r => sound d r.2).
Proof.
  intros Ht. destruct (active_ok d _ t Ht) as (b & E & Hb & HA & _ & _ & _).
  unfold terminal_take_dirty_rows. rewrite E. cbn [mbind option_bind take_dirty_rows].
  apply yields_ret. eapply set_active_ok; [done| |exact HA]. apply screen_write_ok; [done|].
  destruct (bo_screen _ _ Hb) as ([] & Hds & Hr). split_and!; [|done|exact Hr]. split; cbn; try done. by rewrite length_map.
Qed.
End At.

Lemma yields_snd {A B} (o : option (A * B)) Q : yields o (fun r => Q r.2) -> yields (snd <$> o) Q.
Proof. intros ([a b] & -> & H). by apply yields_ret. Qed.

Lemma run_call_ok c t : terminal_safe t -> call_ok c -> yields (run_call c t) terminal_safe.
Proof using L.
  intros (Ht & _ & Hn) Hc. set (d := terminal_dimensions t) in *.
  assert (forall o, yields o (sound d) -> yields o terminal_safe) as K
    by (intros o Ho; eapply yields_mono; [exact Ho|]; intros ?; by apply sound_safe).
  destruct c; cbn [run_call call_ok] in *.
  - by apply K, ingest_ok.
  - by apply K, apply_ok.
  - apply yields_snd. eapply yields_mono.
    + apply (resize_with_content_positions_ok d0); [by eapply Dimensions_new_ok|exact Ht].
    + intros [[|] t']; cbn; by apply sound_safe.
  - by apply K, yields_snd, handle_input_ok.
  - apply K, yields_ret. by apply queue_input_ok.
  - apply K, yields_ret. by apply queue_reply_ok.
  - apply K, yields_ret. cbn [drain_input snd]. registers_tac.
  - apply K, yields_ret. cbn [drain_replies snd]. registers_tac.
  - apply K, yields_ret. cbn [take_input_queue_overflowed snd]. registers_tac.
  - apply K, yields_ret. cbn [take_reply_queue_overflowed snd]. registers_tac.
  - by apply K, yields_snd, take_dirty_rows_ok.
  - apply K. unfold set_scrollback_limit. eapply yields_bind; [apply set_limit_bytes_sane, Ht|].
    intros sb _ Hsb. apply yields_ret. by apply history_ok.
  - apply K, yields_ret. apply history_ok; [done|]. repeat split; constructor.
  - apply K, yields_ret. unfold set_color_scheme. registers_tac.
  - apply K, yields_ret. by apply reset_to_initial_state_ok.
  - apply K, yields_ret. by apply recovery_clone_ok.
Qed.

(** C1: no sequence of calls can crash the terminal.  From a new terminal of
    any size and history limit, every sequence of calls of the public
    interface - ingesting arbitrary bytes, applying parsed operations, resizing
    (with positions to remap), input events, draining the queues, resets,
    recovery - returns without a panic, and leaves a terminal whose cursor is
    on the screen and whose every index, buffer, queue, decoder and parser
    state is within its bounds. *)
Theorem terminal_never_panics d limit t0 calls :
  Dimensions_new (columns d) (rows d) = inr d -> with_scrollback_limit d limit = inr t0 ->
  Forall call_ok calls ->
  exists t, for_each run_call calls t0 = Some t /\ terminal_safe t.
Proof using L.
  intros Hn E Hc. rewrite list.Forall_forall in Hc.
  apply (yields_loop terminal_safe); [intros c t Hin Ht; apply run_call_ok; auto|].
  apply (sound_safe d); [done|]. eapply with_scrollback_limit_ok; [by eapply Dimensions_new_ok|done].
Qed.
End Calls.

(** A wide character and a combining mark at the edge of a 3x2 terminal, the
    alternate screen, a resize to 2x1 and a reset. *)
Definition sample_calls : list TerminalCall :=
  [CallIngest (bytes "ab" ++ encode_utf8 12354 ++ [ESC] ++ bytes "[?1049h" ++ encode_utf8 65039);
   CallResize (mkDimensions 2 1 2) [mkPosition 1 0]; CallIngest (encode_utf8 12354); CallReset].
Definition sample_terminal : Terminal :=
  match with_scrollback_limit (P := sample_platform) (mkDimensions 3 2 6) 1000 with
  | inr t => t
  | inl _ => mkTerminal Parser_new Utf8Decoder_new
      (mkBuffer (mkScreen (mkDimensions 0 0 0) 0 [] [] [] [] []) (mkCursor 0 0) 0 0 0 0 false None None None)
      None Primary 0 TerminalModes_default BlinkingBlock None false [] NONE false ProtectionNone Default Default []
      None 0 ColorScheme_default [] [] false false (Scrollback_new 0)
  end.

Lemma terminal_never_panics_witness :
  exists t, for_each (run_call (P := sample_platform)) sample_calls sample_terminal = Some t /\
    terminal_safe (P := sample_platform) t.
Proof.
  apply (terminal_never_panics (P := sample_platform) (mkDimensions 3 2 6) 1000 sample_terminal sample_calls).
  - reflexivity.
  - reflexivity.
  - repeat constructor.
Defined.
