(* ===== verification/Snapshot.v ===== *)
(** * The text snapshot ([terminal.rs], [SnapshotAccumulator])

    [Terminal::text_snapshot] and [bounded_text_snapshot] export the retained
    history and the visible screen as plain text, the second refusing as soon
    as a limit on bytes, lines or line length is exceeded.  A panic is [None];
    inside it a refusal is [inl]. *)

From Stdlib Require Import NArith Bool.
From S2P Require Import Prelude Cell Utf8 Hyperlink Parser Screen ScreenGrid ScreenOps ScreenInv ScreenBuild History Input Buffer Terminal TerminalOps TerminalInv.

Inductive TerminalTextSnapshotScreen := SnapshotPrimary | SnapshotAlternate.

Inductive TerminalTextSnapshotRefusal :=
  | SnapshotTooLarge (bytes limit : N)
  | SnapshotTooManyLines (lines limit : N)
  | SnapshotLineTooLong (line limit : N).

Record TerminalTextSnapshot := mkSnapshot {
  snapshot_text : list N;
  snapshot_screen : TerminalTextSnapshotScreen;
  evicted_logical_lines : N
}.

Record SnapshotBounds := mkBounds { max_bytes : N; max_lines : N; max_line_bytes : N }.

Record SnapshotAccumulator := mkAccumulator {
  acc_text : list N;
  acc_bytes : N;
  acc_lines : N;
  current_line_bytes : N;
  trailing_newline : bool;
  bounds : option SnapshotBounds
}.
#[export] Instance set_acc_text : Setter acc_text := fun v a => mkAccumulator v (acc_bytes a) (acc_lines a) (current_line_bytes a) (trailing_newline a) (bounds a).
#[export] Instance set_acc_bytes : Setter acc_bytes := fun v a => mkAccumulator (acc_text a) v (acc_lines a) (current_line_bytes a) (trailing_newline a) (bounds a).
#[export] Instance set_acc_lines : Setter acc_lines := fun v a => mkAccumulator (acc_text a) (acc_bytes a) v (current_line_bytes a) (trailing_newline a) (bounds a).
#[export] Instance set_current_line_bytes : Setter current_line_bytes := fun v a => mkAccumulator (acc_text a) (acc_bytes a) (acc_lines a) v (trailing_newline a) (bounds a).
#[export] Instance set_trailing_newline : Setter trailing_newline := fun v a => mkAccumulator (acc_text a) (acc_bytes a) (acc_lines a) (current_line_bytes a) v (bounds a).

Definition unbounded : SnapshotAccumulator := mkAccumulator [] 0 1 0 false None.
Definition bounded (max_bytes max_lines max_line_bytes : N) : SnapshotAccumulator :=
  mkAccumulator [] 0 1 0 false (Some (mkBounds max_bytes max_lines max_line_bytes)).

(** [bounds.map_or(usize::MAX, |bounds| bounds.field)]. *)
Definition bound_or_max (field : SnapshotBounds -> N) (a : SnapshotAccumulator) : N :=
  from_option field usize_max (bounds a).

Definition exceeds (field : SnapshotBounds -> N) (n : N) (a : SnapshotAccumulator) : bool :=
  match bounds a with Some b => (field b <? n)%N | None => false end.

Definition start_line (a : SnapshotAccumulator) : TerminalTextSnapshotRefusal + SnapshotAccumulator :=
  let a := a <| trailing_newline := false |> in
  match checked_add usize_max (acc_lines a) 1 with
  | None => inl (SnapshotTooManyLines usize_max (bound_or_max max_lines a))
  | Some next_lines =>
      if exceeds max_lines next_lines a
      then inl (SnapshotTooManyLines next_lines (bound_or_max max_lines a))
      else inr (a <| acc_lines := next_lines |>)
  end.

Definition reserve_bytes (added : N) (a : SnapshotAccumulator)
    : TerminalTextSnapshotRefusal + SnapshotAccumulator :=
  match checked_add usize_max (acc_bytes a) added with
  | None => inl (SnapshotTooLarge usize_max (bound_or_max max_bytes a))
  | Some next_bytes =>
      if exceeds max_bytes next_bytes a
      then inl (SnapshotTooLarge next_bytes (bound_or_max max_bytes a))
      else inr (a <| acc_bytes := next_bytes |>)
  end.

Definition push_cell_text (t : list N) (a : SnapshotAccumulator)
    : TerminalTextSnapshotRefusal + SnapshotAccumulator :=
  match t with
  | [] => inr a
  | _ :: _ =>
      a ← (if trailing_newline a then start_line a else inr a);
      match checked_add usize_max (current_line_bytes a) (text_len t) with
      | None => inl (SnapshotLineTooLong (acc_lines a) (bound_or_max max_line_bytes a))
      | Some next_line_bytes =>
          if exceeds max_line_bytes next_line_bytes a
          then inl (SnapshotLineTooLong (acc_lines a) (bound_or_max max_line_bytes a))
          else
            a ← reserve_bytes (text_len t) a;
            inr (a <| current_line_bytes := next_line_bytes |> <| acc_text := acc_text a ++ t |>)
      end
  end.

Definition push_newline (a : SnapshotAccumulator) : TerminalTextSnapshotRefusal + SnapshotAccumulator :=
  a ← (if trailing_newline a then start_line a else inr a);
  a ← reserve_bytes 1 a;
  inr (a <| acc_text := acc_text a ++ [10%N] |> <| current_line_bytes := 0%N |> <| trailing_newline := true |>).

Definition push_cells_text (cs : list Cell) (a : SnapshotAccumulator)
    : TerminalTextSnapshotRefusal + SnapshotAccumulator :=
  try_for_each (fun c a => if is_continuation c then inr a else push_cell_text (text c) a) cs a.

Definition occupied_row_cells (s : Screen) (row : nat) : option (list Cell) :=
  let start := physical_row_start s row in
  n ← occupied_columns s !! Screen.physical_row s row;
  slice (cells s) start (start + n).

(** The rows the screen contributes: up to the last occupied one or the cursor. *)
Definition visible_content_rows (s : Screen) (cursor_row : nat) : option nat :=
  n ← occupied_row_count s;
  Some (Nat.min (Nat.max n (cursor_row + 1)) (rows (dimensions s))).

Fixpoint append_rows (s : Screen) (rs : list nat) (continuing : bool) (a : SnapshotAccumulator)
    : option (TerminalTextSnapshotRefusal + SnapshotAccumulator) :=
  match rs with
  | [] => Some (inr a)
  | row :: rs' =>
      match (if negb continuing && ((0 <? row) || ((0 <? acc_bytes a)%N && negb (trailing_newline a)))
             then push_newline a else inr a) with
      | inl refusal => Some (inl refusal)
      | inr a =>
          cs ← occupied_row_cells s row;
          match push_cells_text cs a with
          | inl refusal => Some (inl refusal)
          | inr a => wrapped ← row_soft_wrapped s row; append_rows s rs' wrapped a
          end
      end
  end.

Definition append_visible_screen_text (s : Screen) (cursor_row : nat) (continue_first_row : bool)
    (a : SnapshotAccumulator) : option (TerminalTextSnapshotRefusal + SnapshotAccumulator) :=
  content_rows ← visible_content_rows s cursor_row;
  append_rows s (range 0 content_rows) continue_first_row a.

(** The walk over the retained lines; the flag is [continue_primary]. *)
Definition append_history (ls : list LogicalLine) (a : SnapshotAccumulator)
    : TerminalTextSnapshotRefusal + (SnapshotAccumulator * bool) :=
  try_for_each (fun l '(a, _) =>
    a ← push_cells_text (line_cells l) a;
    if hard_break l then a ← push_newline a; inr (a, false) else inr (a, true)) ls (a, false).

Definition snapshot_with_accumulator (t : Terminal) (a : SnapshotAccumulator)
    : option (TerminalTextSnapshotRefusal + TerminalTextSnapshot) :=
  match append_history (lines (scrollback t)) a with
  | inl refusal => Some (inl refusal)
  | inr (a, continue_primary) =>
      '(kind, result) ←
        (if alternate_screen (modes t) then
           b ← active_buffer t;
           r ← append_visible_screen_text (screen b) (row (terminal_cursor t)) false a;
           Some (SnapshotAlternate, r)
         else
           r ← append_visible_screen_text (screen (primary t)) (row (cursor (primary t))) continue_primary a;
           Some (SnapshotPrimary, r));
      Some (a ← result; inr (mkSnapshot (acc_text a) kind (evicted_lines (scrollback t))))
  end.

Definition text_snapshot (t : Terminal) : option TerminalTextSnapshot :=
  result ← snapshot_with_accumulator t unbounded;
  match result with inr s => Some s | inl _ => None end.

Definition bounded_text_snapshot (max_bytes max_lines max_line_bytes : N) (t : Terminal)
    : option (TerminalTextSnapshotRefusal + TerminalTextSnapshot) :=
  snapshot_with_accumulator t (bounded max_bytes max_lines max_line_bytes).
