(* ===== verification/TerminalReports.v ===== *)
(** * Reports a program can send back

    The terminal answers DECRQSS with the parameters that would make the
    setting again, and CPR with a position CUP accepts.  The replies are fed
    back through the parser here, and shown to have that effect. *)

From Stdlib Require Import NArith Bool.
From S2P Require Import Prelude Cell Utf8 Hyperlink Parser Screen History Input Buffer Terminal TerminalOps TerminalInv TerminalSafe TerminalResize.

(** ** Control sequences through [ingest] *)

(** Between sequences: nothing half-read. *)
Definition at_rest (t : Terminal) : Prop :=
  state (parser t) = Ground /\ utf8_pending (utf8 t) = false /\
  osc_action (parser t) = None /\ dcs_action (parser t) = None.

(** Two parsers with the same pending actions. *)
Definition same_actions (p p' : Parser) : Prop :=
  osc_action p' = osc_action p /\ dcs_action p' = dcs_action p.

Section Ingest.
Context `{P : Platform}.

Definition keeps_actions (p : Parser) (r : option (TerminalOp * Parser)) : Prop :=
  forall op p', r = Some (op, p') -> same_actions p p'.

Lemma keeps_actions_ret p r : same_actions p r.2 -> keeps_actions p (Some r).
Proof. destruct r. intros H op p' [= <- <-]. done. Qed.

Lemma append_csi_digit_actions p b : keeps_actions p (append_csi_digit p b).
Proof.
  unfold append_csi_digit. cbv zeta. destruct (_ <? _)%N; [by apply keeps_actions_ret|].
  destruct (append_digit _ _) as [[ok ps]|]; [|done]. cbn [mbind option_bind].
  destruct (negb ok); by apply keeps_actions_ret.
Qed.

Lemma append_csi_separator_actions p s : keeps_actions p (append_csi_separator p s).
Proof.
  unfold append_csi_separator. destruct (append_separator _ _) as [[ok ps]|]; [|done]. cbn [mbind option_bind].
  destruct (negb ok); by apply keeps_actions_ret.
Qed.

Lemma append_csi_intermediate_actions p b : keeps_actions p (append_csi_intermediate p b).
Proof.
  unfold append_csi_intermediate. destruct (_ =? _); [by apply keeps_actions_ret|].
  destruct (set_index _ _ _); [|done]. by apply keeps_actions_ret.
Qed.

Lemma complete_csi_actions p b : keeps_actions p (complete_csi p b).
Proof.
  unfold complete_csi. destruct (negb _); [|by apply keeps_actions_ret].
  destruct (intermediates p !! 0); [|done]. by apply keeps_actions_ret.
Qed.

Lemma advance_csi_param_actions p b : keeps_actions p (advance_csi_param p b).
Proof.
  unfold advance_csi_param. destruct_ifs; auto using append_csi_digit_actions, append_csi_separator_actions,
    append_csi_intermediate_actions, complete_csi_actions. by apply keeps_actions_ret.
Qed.

Lemma advance_escape_actions p b : same_actions p (advance_escape p b).2.
Proof. unfold advance_escape. cbn [snd]. destruct_ifs; done. Qed.

Lemma advance_string_actions p b : b <> 7%N -> b <> 92%N -> keeps_actions p (advance_string p b).
Proof.
  intros H7 H92. unfold advance_string. rewrite (proj2 (N.eqb_neq b 7)), (proj2 (N.eqb_neq b 92)) by done.
  destruct (state p) as [| | | | | | | |k n|k n]; try done.
  - destruct k; (destruct (b =? 27)%N; apply keeps_actions_ret; [done|]);
      unfold advance_string_payload; cbn; done.
  - destruct (b =? 27)%N; apply keeps_actions_ret; [done|].
    exact (advance_escape_actions (abandon_string p) b).
Qed.

(** Only BEL and the backslash of ST complete a string. *)
Lemma advance_actions p b : b <> 7%N -> b <> 92%N -> keeps_actions p (advance p b).
Proof.
  intros H7 H92. unfold advance. destruct (_ || _); [by apply keeps_actions_ret|].
  assert (keeps_actions p
    (match c0_operation b with Some op => Some (op, p) | None => advance_string p b end)) as Hstr.
  { destruct (c0_operation b); [by apply keeps_actions_ret|by apply advance_string_actions]. }
  destruct (state p) eqn:E; try exact Hstr;
    (destruct (b =? 27)%N; [by apply keeps_actions_ret|]);
    (destruct (b =? 14)%N; [by apply keeps_actions_ret|]);
    (destruct (b =? 15)%N; [by apply keeps_actions_ret|]);
    (destruct (c0_operation b); [by apply keeps_actions_ret|]).
  - by apply keeps_actions_ret.
  - apply keeps_actions_ret. apply advance_escape_actions.
  - by apply keeps_actions_ret.
  - apply keeps_actions_ret. unfold designate_charset. by destruct slot.
  - unfold advance_csi_entry. cbv zeta. destruct (_ && _); [by apply keeps_actions_ret|].
    destruct (_ && _); [by apply keeps_actions_ret|]. apply advance_csi_param_actions.
  - apply advance_csi_param_actions.
  - unfold advance_csi_intermediate. destruct_ifs; auto using append_csi_intermediate_actions, complete_csi_actions.
    by apply keeps_actions_ret.
  - apply keeps_actions_ret. by destruct (in_range _ _ _).
Qed.

Lemma no_actions p : osc_action p = None -> dcs_action p = None ->
  p <| osc_action := None |> = p /\ p <| dcs_action := None |> = p.
Proof. destruct p. cbn. by intros -> ->. Qed.

(** One byte that the parser turns into [op]. *)
Lemma ingest_byte_op b t op p t1 :
  utf8_pending (utf8 t) = false -> (b < 128)%N -> advance (parser t) b = Some (op, p) ->
  apply op (t <| parser := p |>) = Some t1 -> osc_action (parser t1) = None -> dcs_action (parser t1) = None ->
  ingest_byte b t = Some t1.
Proof.
  intros Hu Hb Ha Hop Ho Hd. unfold ingest_byte. rewrite Hu. unfold ingest_fresh.
  rewrite (proj2 (N.leb_gt 128 b)), andb_false_r by done. unfold parse_byte. rewrite Ha. cbn [mbind option_bind].
  rewrite Hop. cbn [mbind option_bind take_osc_action]. rewrite Ho. destruct (no_actions (parser t1) Ho Hd) as [E1 E2].
  rewrite E1. cbn [apply_osc_action mbind option_bind].
  assert (t1 <| parser := parser t1 |> = t1) as E by by destruct t1. rewrite E.
  cbn [take_dcs_action]. rewrite Hd, E2, E. done.
Qed.

Definition plain_byte (b : N) : Prop := (b < 128)%N /\ b <> 7%N /\ b <> 92%N.

Lemma ingest_ignored bs t ops p :
  utf8_pending (utf8 t) = false -> osc_action (parser t) = None -> dcs_action (parser t) = None ->
  Forall plain_byte bs -> run_parser (parser t) bs = Some (ops, p) -> Forall (fun op => op = Ignored) ops ->
  ingest bs t = Some (t <| parser := p |>) /\ osc_action p = None /\ dcs_action p = None.
Proof.
  revert t ops. induction bs as [|b bs IH]; intros t ops Hu Ho Hd Hbs Hrun Hops; cbn in Hrun.
  - simplify_eq. split; [|done]. by destruct t.
  - apply Forall_cons_iff in Hbs as [(Hb & H7 & H92) Hbs].
    destruct (advance (parser t) b) as [[op p1]|] eqn:E; [|done]. cbn in Hrun.
    destruct (run_parser p1 bs) as [[ops' p2]|] eqn:E2; [|done]. cbn in Hrun. simplify_eq.
    apply Forall_cons_iff in Hops as [-> Hops].
    destruct (advance_actions _ _ H7 H92 _ _ E) as [Ho1 Hd1]. rewrite Ho in Ho1. rewrite Hd in Hd1.
    unfold ingest. cbn [for_each].
    rewrite (ingest_byte_op b t Ignored p1 (t <| parser := p1 |>)) by done. cbn [mbind option_bind].
    pose proof (IH (t <| parser := p1 |>) ops') as IH'.
    destruct (IH' Hu Ho1 Hd1 Hbs E2 Hops) as (Hi & ? & ?). split; [exact Hi|done].
Qed.

Lemma run_parser_snoc p bs b ops op p' :
  run_parser p (bs ++ [b]) = Some (ops ++ [op], p') ->
  length ops = length bs ->
  exists p1, run_parser p bs = Some (ops, p1) /\ advance p1 b = Some (op, p').
Proof.
  revert p ops. induction bs as [|c bs IH]; intros p ops H Hl; destruct ops as [|o ops]; try done; cbn in *.
  - exists p. split; [done|]. destruct (advance p b) as [[op1 p1]|]; [|done]. cbn in H. by simplify_eq.
  - destruct (advance p c) as [[op1 p1]|]; [|done]. cbn in *.
    destruct (run_parser p1 (bs ++ [b])) as [[ops2 p2]|] eqn:E; [|done]. cbn in H. simplify_eq.
    destruct (IH p1 ops) as (p3 & E3 & ?); [exact E|lia|]. exists p3. by rewrite E3.
Qed.

Lemma length_run_parser p bs ops p' : run_parser p bs = Some (ops, p') -> length ops = length bs.
Proof.
  revert p ops. induction bs as [|b bs IH]; intros p ops H; cbn in H; [by simplify_eq|].
  destruct (advance p b) as [[op p1]|]; [|done]. cbn in H.
  destruct (run_parser p1 bs) as [[ops' p2]|] eqn:E; [|done]. cbn in H. simplify_eq. cbn. f_equal. by eapply IH.
Qed.

Lemma decimal_plain n : Forall plain_byte (decimal n).
Proof.
  unfold decimal. assert (forall fuel n acc, Forall plain_byte acc -> Forall plain_byte (decimal_fuel fuel n acc)) as H.
  { induction fuel as [|fuel IH]; intros m acc Hacc; cbn; [done|].
    assert (Forall plain_byte ((48 + m mod 10)%N :: acc)).
    { constructor; [|done]. pose proof (N.mod_lt m 10 ltac:(done)). unfold plain_byte. lia. }
    destruct (_ =? 0)%N; [done|]. by apply IH. }
  apply H. constructor.
Qed.

(** A complete control sequence ingested at rest is its operation applied. *)
Lemma ingest_csi t items final :
  at_rest t -> items_ok items -> in_range 64 126 final = true -> final <> 92%N ->
  exists ps, params_ok ps /\ params_view ps = map item_value items /\
    forall t1, apply (csi_plain_op false false final ps) (t <| parser := clear_csi (parser t) |>) = Some t1 ->
      parser t1 = clear_csi (parser t) -> ingest (csi_sequence false items final) t = Some t1.
Proof.
  intros (Hg & Hu & Ho & Hd) Hok Hf Hne.
  destruct (csi_sequence_reads (parser t) false items final Hg Hok Hf) as (ops & ps & Hrun & Hops & Hview & Hps).
  exists ps. split; [done|]. split; [done|]. intros t1 Ht1 Hp1. unfold csi_sequence in *. cbn [app] in *.
  rewrite !app_comm_cons in *. set (body := ESC :: _) in *.
  assert (Forall plain_byte body) as Hbody.
  { unfold body. repeat constructor; try done. apply list.Forall_forall. intros x Hx%list_elem_of_In.
    apply in_flat_map in Hx as ([s o] & _ & Hx). unfold item_bytes in Hx. apply in_app_iff in Hx as [Hx|Hx].
    - destruct s; cbn in Hx; destruct_or?; subst; by (done || unfold plain_byte).
    - destruct o as [v|]; [|done]. cbn in Hx. pose proof (decimal_plain v) as Hp.
      rewrite list.Forall_forall in Hp. apply Hp. by apply list_elem_of_In. }
  pose proof (length_run_parser _ _ _ _ Hrun) as Hlen. rewrite !length_app in Hlen. cbn [length] in Hlen.
  destruct (run_parser_snoc _ _ _ _ _ _ Hrun) as (p1 & Hrun1 & Hadv); [cbn in *; lia|].
  destruct (ingest_ignored body t ops p1 Hu Ho Hd Hbody Hrun1 Hops) as (Hi & Ho1 & Hd1).
  unfold ingest in *. rewrite for_each_app, Hi. cbn [mbind option_bind for_each].
  rewrite (ingest_byte_op final (t <| parser := p1 |>) (csi_plain_op false false final ps) (clear_csi (parser t)) t1);
    [done|done| |done|exact Ht1|by rewrite Hp1|by rewrite Hp1].
  unfold in_range in Hf. bools. lia.
Qed.
End Ingest.

(** ** The pen *)
Definition pen (t : Terminal) : Attributes * Color * Color :=
  (current_attributes t, current_foreground t, current_background t).

(** One setting of an SGR sequence: a plain code, or an indexed or direct
    colour in the colon form. *)
Inductive SgrItem := SgrCode (code : N) | SgrColor (background : bool) (c : Color).

Definition sgr_item_ok (it : SgrItem) : Prop :=
  match it with
  | SgrCode code => code <> 38%N /\ code <> 48%N /\ (code <= u16_max)%N
  | SgrColor _ c => c <> Default /\ color_okb c = true
  end.

(** Its parameters, the first introduced by [s]. *)
Definition sgr_params (s : ParameterSeparator) (it : SgrItem) : list (ParameterSeparator * option N) :=
  match it with
  | SgrCode code => [(s, Some code)]
  | SgrColor background c =>
      (s, Some (if background then 48 else 38)%N) ::
      match c with
      | RgbColor r g b => [(Colon, Some 2%N); (Colon, None); (Colon, Some r); (Colon, Some g); (Colon, Some b)]
      | Indexed i => [(Colon, Some 5%N); (Colon, Some i)]
      | Default => []
      end
  end.

Definition run_item (t : Terminal) (it : SgrItem) : Terminal :=
  match it with
  | SgrCode code => (sgr_step CsiParameters_default 0 code t).2
  | SgrColor true c => t <| current_background := c |>
  | SgrColor false c => t <| current_foreground := c |>
  end.

Lemma view_at ps i view : params_ok ps -> drop i (params_view ps) = view ->
  forall k, value ps (i + k) = snd <$> view !! k /\ separator ps (i + k) = fst <$> view !! k.
Proof.
  intros Hps Hv k. rewrite value_view, separator_view by done. rewrite <- Hv, lookup_drop. done.
Qed.

Lemma u8_ok v : (v <=? 255)%N = true -> u8_of (Some v) = Some v.
Proof. intros H. unfold u8_of. cbn. by rewrite H. Qed.

(** The colon forms are read back in full. *)
Lemma extended_color_item ps i s bg c rest :
  params_ok ps -> sgr_item_ok (SgrColor bg c) ->
  drop i (params_view ps) = map item_value (sgr_params s (SgrColor bg c)) ++ rest ->
  exists mode, value ps (i + 1) = Some mode /\ extended_color ps i mode = Some c /\
    extended_color_end ps i mode = i + (length (sgr_params s (SgrColor bg c)) - 1).
Proof.
  intros Hps [Hc Hok] Hv. pose proof (view_at ps i _ Hps Hv) as V.
  destruct c as [|n|r g b]; [done|..]; cbn in V, Hok.
  - exists 5%N. rewrite (proj1 (V 1)). split; [done|]. unfold extended_color, extended_color_end, separated, indexed_at.
    rewrite (proj2 (V 1)). cbn [lookup list_lookup fmap option_fmap option_map fst snd item_value default from_option].
    replace (range_incl (i + 2) (i + 2)) with [i + 2] by (unfold range_incl; by replace (S (i + 2) - (i + 2)) with 1 by lia).
    cbn [forallb]. rewrite (proj2 (V 2)), (proj1 (V 2)). cbn [lookup list_lookup fmap option_fmap option_map fst snd item_value default from_option].
    rewrite bool_decide_eq_true_2, u8_ok by done. cbn. split; [done|lia].
  - exists 2%N. rewrite (proj1 (V 1)). split; [done|]. bools.
    unfold extended_color, extended_color_end, separated, rgb_at. rewrite (proj2 (V 1)).
    cbn [lookup list_lookup fmap option_fmap option_map fst snd item_value default from_option].
    replace (range_incl (i + 2) (i + 5)) with [i + 2; i + 3; i + 4; i + 5]
      by (unfold range_incl; replace (S (i + 5) - (i + 2)) with 4 by lia; cbn; repeat (f_equal; try lia)).
    cbn [forallb]. replace (i + 3 + 1) with (i + 4) by lia. replace (i + 3 + 2) with (i + 5) by lia.
    rewrite (proj2 (V 2)), (proj2 (V 3)), (proj2 (V 4)), (proj2 (V 5)), (proj1 (V 3)), (proj1 (V 4)), (proj1 (V 5)).
    cbn [lookup list_lookup fmap option_fmap option_map fst snd item_value default from_option].
    rewrite bool_decide_eq_true_2 by done. rewrite !u8_ok by done. cbn. split; [done|lia].
Qed.

Lemma sgr_step_plain ps i code t : code <> 38%N -> code <> 48%N ->
  sgr_step ps i code t = (i, run_item t (SgrCode code)).
Proof.
  intros H38 H48. unfold run_item, sgr_step. rewrite (proj2 (N.eqb_neq code 38)), (proj2 (N.eqb_neq code 48)) by done.
  cbn [orb]. by destruct (code =? 0)%N.
Qed.

Lemma sgr_step_item ps i s it rest t :
  params_ok ps -> sgr_item_ok it -> drop i (params_view ps) = map item_value (sgr_params s it) ++ rest ->
  exists code, value ps i = Some code /\
    sgr_step ps i code t = (i + (length (sgr_params s it) - 1), run_item t it).
Proof.
  intros Hps Hok Hv. pose proof (view_at ps i _ Hps Hv 0) as [V0 _]. rewrite Nat.add_0_r in V0.
  destruct it as [code|bg c].
  - exists code. split; [by rewrite V0|]. destruct Hok as (H38 & H48 & _). rewrite sgr_step_plain by done.
    f_equal. cbn. lia.
  - exists (if bg then 48 else 38)%N. split; [by rewrite V0; destruct bg|].
    destruct (extended_color_item ps i s bg c rest Hps Hok Hv) as (mode & E1 & E2 & E3).
    unfold sgr_step, set_extended_color. rewrite E1, E2, E3. by destruct bg.
Qed.

Lemma sgr_loop_items items fuel ps i t :
  params_ok ps -> Forall sgr_item_ok items ->
  (exists s0 it0 rest, items = it0 :: rest /\
     drop i (params_view ps) = map item_value (sgr_params s0 it0 ++ flat_map (sgr_params Semicolon) rest)) \/
  (items = [] /\ drop i (params_view ps) = []) ->
  length (drop i (params_view ps)) <= fuel ->
  sgr_loop fuel ps i t = foldl run_item t items.
Proof.
  intros Hps Hok. revert fuel i t. induction Hok as [|it items Hit Hitems IH]; intros fuel i t Hd Hf.
  - destruct Hd as [(s0 & it0 & rest & ? & _)|[_ Hd]]; [done|].
    assert (params_length ps <= i) as Hi.
    { rewrite <- params_view_length by done. pose proof (length_drop (params_view ps) i) as H. rewrite Hd in H. cbn in H. lia. }
    destruct fuel; cbn [sgr_loop foldl]; [done|]. by rewrite (proj2 (Nat.ltb_ge _ _) Hi).
  - destruct Hd as [(s0 & it0 & rest & [= <- <-] & Hd)|[? _]]; [|done].
    rewrite map_app in Hd. set (n := length (sgr_params s0 it)).
    assert (1 <= n) as Hn by (unfold n; destruct it; cbn; lia).
    assert (length (map item_value (sgr_params s0 it)) = n) as Hlen by (by rewrite length_map).
    assert (drop (i + n) (params_view ps) = map item_value (flat_map (sgr_params Semicolon) items)) as Hd'.
    { rewrite <- drop_drop, Hd, drop_app_length' by done. done. }
    rewrite Hd, length_app, Hlen, length_map in Hf.
    destruct fuel as [|fuel]; [lia|]. cbn [sgr_loop foldl].
    destruct (sgr_step_item ps i s0 it _ t Hps Hit Hd) as (code & Ev & Es).
    assert (i < params_length ps) as Hi.
    { rewrite <- params_view_length by done. assert (length (drop i (params_view ps)) >= 1) as H
        by (rewrite Hd, length_app, Hlen; lia). rewrite length_drop in H. lia. }
    rewrite (proj2 (Nat.ltb_lt _ _) Hi), Ev, Es. replace (S (i + (length (sgr_params s0 it) - 1))) with (i + n) by (fold n; lia).
    apply IH.
    + destruct items as [|it1 items]; [right; by rewrite Hd'|left]. exists Semicolon, it1, items. by rewrite Hd'.
    + rewrite Hd', length_map. lia.
Qed.

(** ** The report *)
Definition attribute_codes (a : Attributes) : list N :=
  omap (fun '(flag, code) => if contains a flag then Some code else None) REPORTED_ATTRIBUTES.

Definition color_items (c : Color) (background : bool) : list SgrItem :=
  match c with
  | Default => []
  | Indexed i =>
      [if (i <? 8)%N then SgrCode ((if background then 40 else 30) + i)
       else if (i <? 16)%N then SgrCode ((if background then 100 else 90) + i - 8)
       else SgrColor background c]
  | RgbColor _ _ _ => [SgrColor background c]
  end.

Definition report_items (t : Terminal) : list SgrItem :=
  map SgrCode (attribute_codes (current_attributes t)) ++
  color_items (current_foreground t) false ++ color_items (current_background t) true.

Definition item_text (it : SgrItem) : list N := flat_map item_bytes (sgr_params SepStart it).

Lemma color_report_items c background :
  option_list (color_report c background) = map item_text (color_items c background).
Proof.
  destruct c as [|i|r g b]; cbn [color_report color_items option_list map]; [done|..].
  - destruct (i <? 8)%N; [cbn; by rewrite app_nil_r|]. destruct (i <? 16)%N; [cbn; by rewrite app_nil_r|].
    unfold item_text. cbn -[decimal]. destruct background; cbn -[decimal]; by rewrite app_nil_r.
  - unfold item_text. destruct background; cbn -[decimal]; rewrite app_nil_r; done.
Qed.

Lemma join_items parts first :
  join (bytes ";") (first :: parts) = first ++ flat_map (fun p => 59%N :: p) parts.
Proof.
  revert first. induction parts as [|p parts IH]; intros first; [cbn; by rewrite app_nil_r|].
  change (join (bytes ";") (first :: p :: parts)) with (first ++ bytes ";" ++ join (bytes ";") (p :: parts)).
  by rewrite IH.
Qed.

Lemma flat_map_map {A B C} (f : A -> B) (g : B -> list C) l : flat_map g (map f l) = flat_map (fun x => g (f x)) l.
Proof. induction l as [|x l IH]; cbn; [done|]. by rewrite IH. Qed.

Lemma flat_map_flat_map {A B C} (f : A -> list B) (g : B -> list C) l :
  flat_map g (flat_map f l) = flat_map (fun x => flat_map g (f x)) l.
Proof. induction l as [|x l IH]; cbn; [done|]. by rewrite flat_map_app, IH. Qed.

(** The reply is the printed form of its items. *)
Lemma report_is_items t :
  graphics_rendition_report t =
    flat_map item_bytes ((SepStart, Some 0%N) :: flat_map (sgr_params Semicolon) (report_items t)).
Proof.
  unfold graphics_rendition_report. cbn [app]. rewrite join_items.
  cbn [flat_map]. change (item_bytes (SepStart, Some 0%N)) with (bytes "0"). f_equal.
  rewrite flat_map_flat_map. unfold report_items. rewrite !color_report_items.
  replace (omap _ REPORTED_ATTRIBUTES) with (map item_text (map SgrCode (attribute_codes (current_attributes t)))).
  - rewrite <- !map_app, flat_map_map. apply flat_map_ext. intros it. destruct it as [code|bg c].
    + unfold item_text. cbn -[decimal]. done.
    + unfold item_text. by destruct c.
  - unfold attribute_codes. rewrite map_map. induction REPORTED_ATTRIBUTES as [|[f c] l IH]; cbn -[decimal contains]; [done|].
    destruct (contains _ f); cbn -[decimal contains]; rewrite <- IH; [|done]. f_equal. unfold item_text. cbn -[decimal].
    by rewrite app_nil_r.
Qed.

Lemma attribute_codes_in a c : c ∈ attribute_codes a -> In c [1; 2; 3; 4; 21; 5; 6; 7; 8; 9]%N.
Proof.
  unfold attribute_codes. intros H. apply list_elem_of_omap in H as ([f c'] & Hin & H).
  destruct (contains a f); [|done]. simplify_eq. apply list_elem_of_In in Hin. cbn in Hin |- *.
  repeat (destruct Hin as [Hin|Hin]; [simplify_eq; tauto|]). done.
Qed.

Lemma length_attribute_codes a : length (attribute_codes a) <= 10.
Proof.
  unfold attribute_codes. change 10 with (length REPORTED_ATTRIBUTES).
  induction REPORTED_ATTRIBUTES as [|[f c] l IH]; cbn -[contains]; [lia|]. destruct (contains a f); cbn -[contains] in *; lia.
Qed.

(** Replaying the reported codes from the empty set gives the set back; checked
    on all of them. *)
Lemma attribute_codes_replay a :
  attributes_okb a = true -> foldl (fun a c => sgr_attributes c a) NONE (attribute_codes a) = a.
Proof.
  intros Ha.
  assert (forallb (fun a => negb (attributes_okb a) ||
    (foldl (fun a c => sgr_attributes c a) NONE (attribute_codes a) =? a)%N) (map N.of_nat (seq 0 1024)) = true) as H
    by (vm_compute; reflexivity).
  rewrite forallb_forall in H. apply N.eqb_eq. specialize (H a). rewrite Ha in H. apply H.
  apply in_map_iff. exists (N.to_nat a). split; [lia|]. apply in_seq. unfold attributes_okb in Ha. bools. lia.
Qed.

Lemma run_codes codes t :
  (forall c, c ∈ codes -> In c [1; 2; 3; 4; 21; 5; 6; 7; 8; 9]%N) ->
  pen (foldl run_item t (map SgrCode codes)) =
    (foldl (fun a c => sgr_attributes c a) (current_attributes t) codes, current_foreground t, current_background t).
Proof.
  revert t. induction codes as [|c codes IH]; intros t H; [done|]. cbn [map foldl].
  rewrite IH by (intros; apply H; by right). pose proof (H c ltac:(by left)) as Hc. cbn [In] in Hc.
  repeat (destruct Hc as [<-|Hc]; [reflexivity|]). done.
Qed.

Lemma run_color c (background : bool) t :
  color_okb c = true -> (if background then current_background t else current_foreground t) = Default ->
  pen (foldl run_item t (color_items c background)) =
    (current_attributes t, if background then current_foreground t else c, if background then c else current_background t).
Proof.
  intros Hok Hd. destruct c as [|i|r g b]; cbn [color_items foldl]; [unfold pen; destruct background; by rewrite Hd| |by destruct background].
  destruct (i <? 16)%N eqn:E16.
  - assert (In i (map N.of_nat (seq 0 16))) as Hin.
    { apply in_map_iff. exists (N.to_nat i). split; [lia|]. apply in_seq. lia. }
    clear E16. cbn [seq map In] in Hin.
    repeat (destruct Hin as [<-|Hin]; [unfold pen; destruct background; cbn in Hd |- *; rewrite ?Hd; reflexivity|]). done.
  - destruct (i <? 8)%N eqn:E8; [lia|]. by destruct background.
Qed.

Lemma run_items_parser items t : parser (foldl run_item t items) = parser t.
Proof.
  revert t. induction items as [|it items IH]; intros t; [done|]. cbn [foldl]. rewrite IH.
  destruct it as [code|[] c]; [|done..]. unfold run_item, sgr_step. destruct_ifs; done.
Qed.

Lemma run_report t src :
  pen_okb (current_attributes src) (current_foreground src) (current_background src) = true ->
  pen (foldl run_item t (SgrCode 0 :: report_items src)) = pen src.
Proof.
  intros Hok. unfold pen_okb in Hok. bools. cbn [foldl]. unfold report_items. rewrite !foldl_app.
  set (t0 := run_item t (SgrCode 0)).
  set (t1 := foldl run_item t0 (map SgrCode (attribute_codes (current_attributes src)))).
  assert (pen t1 = (current_attributes src, Default, Default)) as E1.
  { unfold t1. rewrite run_codes by apply attribute_codes_in.
    change (current_attributes t0) with NONE. by rewrite attribute_codes_replay. }
  clearbody t1. unfold pen in E1. simplify_eq.
  set (t2 := foldl run_item t1 (color_items (current_foreground src) false)).
  assert (pen t2 = (current_attributes src, current_foreground src, Default)) as E2.
  { unfold t2. rewrite run_color by done. congruence. }
  clearbody t2. unfold pen in E2. simplify_eq. rewrite run_color by done. unfold pen. congruence.
Qed.

Lemma report_items_ok src :
  pen_okb (current_attributes src) (current_foreground src) (current_background src) = true ->
  Forall sgr_item_ok (report_items src).
Proof.
  intros Hok. unfold pen_okb in Hok. bools. unfold report_items. rewrite !Forall_app. split_and!.
  - apply Forall_map, list.Forall_forall. intros c Hc%attribute_codes_in. cbn [In] in Hc. unfold sgr_item_ok, u16_max.
    repeat (destruct Hc as [<-|Hc]; [done|]). done.
  - destruct (current_foreground src) as [|i|r g b]; cbn [color_items]; repeat constructor; try done.
    destruct (i <? 8)%N eqn:E8; [|destruct (i <? 16)%N eqn:E16]; unfold sgr_item_ok, u16_max; try done; cbn in *; lia.
  - destruct (current_background src) as [|i|r g b]; cbn [color_items]; repeat constructor; try done.
    destruct (i <? 8)%N eqn:E8; [|destruct (i <? 16)%N eqn:E16]; unfold sgr_item_ok, u16_max; try done; cbn in *; lia.
Qed.

Lemma report_length src : length (flat_map (sgr_params Semicolon) (report_items src)) <= 22.
Proof.
  unfold report_items. rewrite !flat_map_app, !length_app.
  assert (forall c bg, length (flat_map (sgr_params Semicolon) (color_items c bg)) <= 6) as Hc.
  { intros [|i|r g b] bg; cbn [color_items]; [cbn; lia| |cbn; lia]. destruct_ifs; cbn; lia. }
  pose proof (Hc (current_foreground src) false). pose proof (Hc (current_background src) true).
  pose proof (length_attribute_codes (current_attributes src)).
  assert (forall l, length (flat_map (sgr_params Semicolon) (map SgrCode l)) = length l) as Hl
    by (intros l; induction l; cbn; lia).
  rewrite Hl. lia.
Qed.

Lemma sgr_params_ok it :
  sgr_item_ok it -> Forall (fun it => it.1 <> SepStart /\ (default 0 it.2 <= u16_max)%N) (sgr_params Semicolon it).
Proof.
  destruct it as [code|bg [|i|r g b]]; cbn; unfold u16_max; intros Hok; destruct_and?; bools;
    repeat constructor; try done; cbn; try lia; by destruct bg.
Qed.

Section Sgr.
Context `{P : Platform}.

(** C22: the SGR status report is faithful.  Whatever pen a terminal has - any
    of its attributes, any indexed or direct colours - sending its DECRQSS
    reply back as a control sequence, byte by byte through the parser, gives
    any terminal at rest exactly that pen. *)
Theorem graphics_rendition_report_round_trip src t :
  pen_okb (current_attributes src) (current_foreground src) (current_background src) = true -> at_rest t ->
  exists t', ingest (CSI ++ graphics_rendition_report src ++ bytes "m") t = Some t' /\ pen t' = pen src.
Proof.
  intros Hok Hr. set (items := (SepStart, Some 0%N) :: flat_map (sgr_params Semicolon) (report_items src)).
  pose proof (report_items_ok src Hok) as Hits. pose proof (report_length src) as Hlen.
  assert (items_ok items) as Hio.
  { unfold items, items_ok. split_and!; try done; [|unfold MAX_CSI_PARAMETERS; cbn [length]; lia].
    apply list.Forall_forall. intros x Hx%list_elem_of_In. apply in_flat_map in Hx as (it & Hin & Hx).
    rewrite list.Forall_forall in Hits. pose proof (sgr_params_ok it (Hits it ltac:(by apply list_elem_of_In))) as H.
    rewrite list.Forall_forall in H. apply H. by apply list_elem_of_In. }
  destruct (ingest_csi t items 109 Hr Hio eq_refl ltac:(done)) as (ps & Hps & Hview & Hrun).
  set (t0 := t <| parser := clear_csi (parser t) |>) in *.
  assert (set_graphics_rendition ps t0 = foldl run_item t0 (SgrCode 0 :: report_items src)) as Es.
  { assert (params_length ps = length items) as Hpl by (by rewrite <- params_view_length, Hview, length_map).
    unfold set_graphics_rendition, params_is_empty. rewrite Hpl. cbn [items length Nat.eqb].
    apply sgr_loop_items; [done|by constructor| |].
    - left. exists SepStart, (SgrCode 0), (report_items src). split; [done|]. by rewrite drop_0, Hview.
    - rewrite drop_0, Hview, length_map. done. }
  exists (foldl run_item t0 (SgrCode 0 :: report_items src)). split; [|by apply run_report].
  rewrite report_is_items. unfold CSI. change (bytes "m") with [109%N]. apply Hrun.
  - cbn [csi_plain_op]. rewrite <- Es. unfold csi_plain_op. rewrite andb_false_r. reflexivity.
  - by rewrite run_items_parser.
Qed.
End Sgr.

(** A terminal whose pen uses every kind of setting. *)
Definition pen_sample : Terminal :=
  set_pen (with_ BOLD DOUBLE_UNDERLINE) (RgbColor 255 128 0) (Indexed 200) sample_terminal.

Lemma graphics_rendition_report_round_trip_witness :
  exists t', ingest (P := sample_platform) (CSI ++ graphics_rendition_report pen_sample ++ bytes "m") sample_terminal
      = Some t' /\ pen t' = (with_ BOLD DOUBLE_UNDERLINE, RgbColor 255 128 0, Indexed 200).
Proof.
  apply (graphics_rendition_report_round_trip (P := sample_platform) pen_sample sample_terminal).
  - reflexivity.
  - repeat split.
Defined.

(** ** Two-parameter sequences *)
Section Pairs.
Context `{P : Platform} `{L : !PlatformLaws P} (d : Dimensions).
Abbreviation sound := (term_ok d (anchor_ok d)).

Definition pair_sequence (a b : nat) (final : N) : list N :=
  CSI ++ decimal_nat a ++ bytes ";" ++ decimal_nat b ++ [final].

(** What a complete two-parameter sequence hands to its operation. *)
Lemma ingest_pair t a b final :
  at_rest t -> 1 <= a <= N.to_nat u16_max -> 1 <= b <= N.to_nat u16_max ->
  in_range 64 126 final = true -> final <> 92%N ->
  exists ps, parameter_or ps 0 1 = a /\ (forall n, parameter_or ps 1 n = b) /\ has_colon ps = false /\
    params_is_empty ps = false /\
    forall t1, apply (csi_plain_op false false final ps) (t <| parser := clear_csi (parser t) |>) = Some t1 ->
      parser t1 = clear_csi (parser t) -> ingest (pair_sequence a b final) t = Some t1.
Proof.
  intros Hr Ha Hb Hf Hne. set (items := [(SepStart, Some (N.of_nat a)); (Semicolon, Some (N.of_nat b))]).
  assert (items_ok items) as Hio.
  { unfold items, items_ok, MAX_CSI_PARAMETERS. cbn. split_and!; try done; [lia| |lia]. repeat constructor; [done|cbn; lia]. }
  destruct (ingest_csi t items final Hr Hio Hf Hne) as (ps & Hps & Hview & Hrun).
  assert (params_length ps = 2) as Hlen by (by rewrite <- params_view_length, Hview).
  exists ps. unfold parameter_or. rewrite !value_view, Hview by done. cbn.
  split; [destruct (N.of_nat a) eqn:E; lia|]. split; [intros n; destruct (N.of_nat b) eqn:E; lia|].
  split_and!.
  - unfold has_colon. apply bool_decide_eq_false_2. intros H.
    assert (take (params_length ps) (separators ps) = map fst (params_view ps)) as E.
    { unfold params_view. destruct Hps as (Hv & Hs & Hl & _). symmetry. apply fst_zip. rewrite !length_take. lia. }
    rewrite E, Hview in H. cbn in H. repeat (apply elem_of_cons in H as [H|H]; [done|]). by apply elem_of_nil in H.
  - unfold params_is_empty. by rewrite Hlen.
  - intros t1 H1 H2. rewrite <- (Hrun t1 H1 H2). f_equal. unfold pair_sequence, csi_sequence, items, decimal_nat, item_bytes.
    cbn [flat_map separator_bytes fst snd app]. by rewrite app_nil_r, <- app_assoc.
Qed.

Lemma set_active_parser b t : parser (set_active b t) = parser t.
Proof. unfold set_active. by destruct active_screen. Qed.

Lemma set_active_active b t : active_buffer t <> None -> active_buffer (set_active b t) = Some b.
Proof. unfold set_active, active_buffer. destruct (active_screen t) eqn:E; cbn; by rewrite E. Qed.

Lemma clear_csi_sound t : sound t -> sound (t <| parser := clear_csi (parser t) |>).
Proof.
  intros Ht. apply parser_set_ok; [done|]. pose proof (ok_parser _ _ (proj2 Ht)) as Hp.
  assert (string_ok (state (parser t)) (length (string_payload (parser t)))) as Hs by apply Hp.
  pose proof (clear_csi_ok _ _ Hp Hs) as H. by destruct (parser t).
Qed.

(** In origin mode the cursor must be inside the region it is measured from. *)
Definition inside_origin (t : Terminal) : Prop :=
  origin_mode (modes t) = true -> forall b m, active_buffer t = Some b -> horizontal_margins t = Some m ->
    in_scroll_region b = true /\ within m (column (cursor b)) = true.

(** Where the position an origin-mode report names lies on the screen: inside
    the scroll region and the margins, from which it is measured. *)
Definition origin_position (b : BufferState) (m : ColumnSpan) (c : Cursor) : Cursor :=
  mkCursor (Nat.min (if left m <=? column c then column c else left m + column c) (right m))
    (Nat.max (scroll_top b) (Nat.min (row c) (scroll_bottom b))).

(** C34: a cursor position report and CUP.  For a terminal between two sequences
    and of at most 65535 rows and columns, under any modes and margins, the
    position DSR 6 reports is accepted by [CSI r ; c H].  Without origin mode it
    puts the cursor exactly where it was; in origin mode it puts it at that
    position brought into the scroll region and the margins.  So the cursor is
    back where it was if and only if, in origin mode, it was inside them. *)
Theorem cursor_report_round_trip t :
  sound t -> at_rest t -> columns d <= N.to_nat u16_max -> rows d <= N.to_nat u16_max ->
  exists b m r c t', active_buffer t = Some b /\ horizontal_margins t = Some m /\
    cursor_report t = Some (pair_sequence r c 82) /\ ingest (pair_sequence r c 72) t = Some t' /\
    terminal_cursor t' = (if origin_mode (modes t) then origin_position b m (terminal_cursor t) else terminal_cursor t) /\
    (terminal_cursor t' = terminal_cursor t <-> inside_origin t).
Proof.
  intros Ht Hr Hc16 Hr16. destruct (active_ok d _ t Ht) as (b & Eb & Hb & _ & Ec & Hdim & (Hd1 & Hd2 & _)).
  destruct (horizontal_margins_ok d _ t Ht) as (m & Em & Hm1 & Hm2). destruct (bo_cursor _ _ Hb) as [Hcc Hcr].
  pose proof (bo_region _ _ Hb) as Hreg.
  set (r := if origin_mode (modes t) then row (cursor b) - scroll_top b + 1 else row (cursor b) + 1).
  set (c := if origin_mode (modes t) && (left m <=? column (cursor b)) then column (cursor b) - left m + 1 else column (cursor b) + 1).
  set (at_ := if origin_mode (modes t) then origin_position b m (cursor b) else cursor b).
  destruct (ingest_pair t r c 72 Hr) as (ps & P0 & P1 & Hcolon & _ & Hrun).
  { unfold r. case_match; lia. } { unfold c. case_match; lia. } { done. } { done. }
  exists b, m, r, c, (set_active ((b <| grapheme_anchor := None |>) <| cursor := at_ |> <| pending_wrap := false |>)
            (t <| parser := clear_csi (parser t) |>)). rewrite set_active_cursor, Ec. change (cursor (set_pending_wrap false ?x)) with (cursor x).
  split_and!; try done.
  - unfold cursor_report. rewrite Em, Ec, Eb. cbn [mbind option_bind]. unfold pair_sequence, r, c. by destruct (origin_mode (modes t)).
  - apply Hrun; [|by rewrite set_active_parser]. unfold csi_plain_op. rewrite Hcolon. cbn [andb switch existsb orb N.eqb Pos.eqb].
    set (t0 := t <| parser := clear_csi (parser t) |>). unfold apply. cbn [keeps_grapheme_anchor].
    assert (active_buffer t0 = Some b) as Eb0 by exact Eb.
    unfold clear_grapheme_anchor, upd_active at 1, with_active at 1. rewrite Eb0. cbn [mbind option_bind apply_op].
    set (b1 := b <| grapheme_anchor := None |>). set (t1 := set_active b1 t0).
    assert (active_buffer t1 = Some b1) as Eb1 by (apply set_active_active; by rewrite Eb0).
    assert (modes t1 = modes t) as Em1 by (unfold t1, t0, set_active; cbn; by destruct (active_screen t)).
    assert (terminal_dimensions t1 = d) as Hd'
      by (unfold t1, set_active; cbn; destruct (active_screen t) eqn:Ea; [|exact Hdim];
          unfold active_buffer in Eb; rewrite Ea in Eb; injection Eb as <-; exact Hdim).
    assert (horizontal_margins t1 = Some m) as Hm'.
    { unfold horizontal_margins in *. rewrite Em1, Eb1, Hd'. rewrite Eb in Em. rewrite Hdim in Em. exact Em. }
    unfold cursor_position, absolute_row_of, absolute_column, vertical_bounds. rewrite P0, P1, Em1, Hd', Hm', Eb1.
    unfold upd_active, with_active.
    assert (forall x, set_active x t1 = set_active x t0) as Hss
      by (intros x; unfold t1, set_active; destruct (active_screen t0) eqn:E; cbn in *; by rewrite E).
    destruct (origin_mode (modes t)) eqn:Eo; cbn [mbind option_bind fst snd]; rewrite Eb1; cbn [mbind option_bind]; rewrite Hss; clear Hrun;
      do 2 f_equal; unfold b1; cbn; unfold r, c, at_, origin_position; destruct (cursor b) as [cc cr]; cbn in *; f_equal; f_equal; f_equal;
      try destruct (Nat.leb_spec (left m) cc); cbn; lia.
  - clear Hrun. change (at_ = cursor b <-> inside_origin t). unfold at_, inside_origin. destruct (origin_mode (modes t)); [|split; done].
    unfold origin_position, in_scroll_region, within. destruct (cursor b) as [cc cr] eqn:Eu. cbn in *. split.
    + intros [= E1 E2] _ b' m' Hb' Hm'. rewrite Eb in Hb'. rewrite Em in Hm'. injection Hb' as <-. injection Hm' as <-. rewrite Eu. cbn.
      destruct (Nat.leb_spec (left m) cc); split; apply andb_true_iff; rewrite !Nat.leb_le; lia.
    + intros H. destruct (H eq_refl b m Eb Em) as [H1 H2]. rewrite Eu in H1, H2. cbn in H1, H2. apply andb_true_iff in H1, H2. rewrite !Nat.leb_le in H1, H2.
      rewrite (proj2 (Nat.leb_le _ _)) by lia. f_equal; lia.
Qed.

(** The body of the DECRQSS answer to [selector], read as a sequence. *)
Definition status_sequence (selector : list N) (t : Terminal) : option (list N) :=
  report ← status_report selector t; body ← report; Some (CSI ++ body ++ selector).

(** The active buffer's scroll region and margins. *)
Definition region_of (b : BufferState) : nat * nat := (scroll_top b, scroll_bottom b).
Definition margins_of (b : BufferState) : nat * nat := (scroll_left b, scroll_right b).

Lemma set_active_twice b b' t : set_active b' (set_active b t) = set_active b' t.
Proof. unfold set_active. destruct (active_screen t) eqn:E; cbn; by rewrite E. Qed.

Lemma set_active_dimensions b b' t :
  active_buffer t = Some b -> dimensions (screen b') = dimensions (screen b) ->
  terminal_dimensions (set_active b' t) = terminal_dimensions t.
Proof.
  unfold active_buffer, set_active, terminal_dimensions. destruct (active_screen t); [|done]. cbn.
  by intros [= <-] ->.
Qed.

(** A two-parameter sequence whose operation changes only the active buffer,
    and leaves it with [Q]. *)
Lemma ingest_pair_buffer t b a c final (op : CsiParameters -> TerminalOp) (Q : BufferState -> Prop) :
  sound t -> at_rest t -> active_buffer t = Some b -> 1 <= a <= N.to_nat u16_max -> 1 <= c <= N.to_nat u16_max ->
  in_range 64 126 final = true -> final <> 92%N ->
  (forall ps, has_colon ps = false -> csi_plain_op false false final ps = op ps) ->
  (forall ps, keeps_grapheme_anchor (op ps) = false) ->
  (forall ps t1 b1, parameter_or ps 0 1 = a -> (forall n, parameter_or ps 1 n = c) ->
     active_buffer t1 = Some b1 -> modes t1 = modes t -> terminal_dimensions t1 = d ->
     exists b2, apply_op (op ps) t1 = Some (set_active b2 t1) /\ Q b2) ->
  exists t' b', ingest (pair_sequence a c final) t = Some t' /\ active_buffer t' = Some b' /\ Q b'.
Proof.
  intros Ht Hr Eb Ha Hc Hf H92 Hop Hk Hrun0. destruct (active_ok d _ t Ht) as (b0 & Eb0 & _ & _ & _ & Hdim & _).
  rewrite Eb in Eb0. injection Eb0 as <-.
  destruct (ingest_pair t a c final Hr Ha Hc Hf H92) as (ps & P0 & P1 & Hcolon & _ & Hrun).
  set (t0 := t <| parser := clear_csi (parser t) |>) in *. set (b1 := b <| grapheme_anchor := None |>) in *.
  assert (active_buffer t0 = Some b) as Eb0 by exact Eb. set (t1 := set_active b1 t0).
  assert (active_buffer t1 = Some b1) as Eb1 by (apply set_active_active; by rewrite Eb0).
  destruct (Hrun0 ps t1 b1 P0 P1 Eb1 (set_active_modes b1 t0)) as (b2 & E2 & HQ).
  { unfold t1. by rewrite (set_active_dimensions b) by done. }
  exists (set_active b2 t1), b2. split_and!; [|apply set_active_active; by rewrite Eb1|done].
  apply Hrun; [|unfold t1; by rewrite !set_active_parser]. rewrite Hop by done. unfold apply. rewrite Hk.
  unfold clear_grapheme_anchor, upd_active at 1, with_active at 1. rewrite Eb0. cbn [mbind option_bind]. exact E2.
Qed.

Lemma region_sequence t b :
  active_buffer t = Some b -> status_sequence (bytes "r") t = Some (pair_sequence (scroll_top b + 1) (scroll_bottom b + 1) 114).
Proof.
  intros Eb. unfold status_sequence, status_report. change (beq (bytes "r") (bytes "m")) with false.
  change (beq (bytes "r") (bytes "r")) with true. cbv iota. rewrite Eb. cbn [mbind option_bind].
  unfold pair_sequence. by rewrite <- !(assoc_L (++)).
Qed.

Lemma margins_sequence t m :
  horizontal_margins t = Some m -> status_sequence (bytes "s") t = Some (pair_sequence (left m + 1) (right m + 1) 115).
Proof.
  intros Em. unfold status_sequence, status_report. change (beq (bytes "s") (bytes "m")) with false.
  change (beq (bytes "s") (bytes "r")) with false. change (beq (bytes "s") (bytes "s")) with true.
  cbv iota. rewrite Em. cbn [mbind option_bind]. unfold pair_sequence. by rewrite <- !(assoc_L (++)).
Qed.

(** Homing the cursor changes neither the region nor the margins. *)
Lemma home_cursor_region t b :
  active_buffer t = Some b ->
  exists b', home_cursor t = Some (set_active b' t) /\ region_of b' = region_of b /\ margins_of b' = margins_of b.
Proof.
  intros Eb. unfold home_cursor, horizontal_margins. rewrite Eb.
  destruct (left_right_margin_mode _); cbn [mbind option_bind]; unfold upd_active, with_active; rewrite Eb;
    (eexists; split; [done|]; done).
Qed.

(** The margin reports are faithful.  The scroll region DECRQSS reports
    ([r]), sent back as DECSTBM, sets exactly that region, and the left and
    right margins it reports ([s]), sent back as DECSLRM while left/right
    margin mode is on, set exactly those margins - unless the region is a
    single row, which DECSTBM cannot express. *)
Theorem margin_report_round_trip t b :
  sound t -> at_rest t -> active_buffer t = Some b -> columns d <= N.to_nat u16_max -> rows d <= N.to_nat u16_max ->
  (scroll_top b < scroll_bottom b ->
   exists seq t' b', status_sequence (bytes "r") t = Some seq /\ ingest seq t = Some t' /\
     active_buffer t' = Some b' /\ region_of b' = region_of b) /\
  (left_right_margin_mode (modes t) = true ->
   exists seq t' b', status_sequence (bytes "s") t = Some seq /\ ingest seq t = Some t' /\
     active_buffer t' = Some b' /\ margins_of b' = margins_of b).
Proof.
  intros Ht Hr Eb Hc16 Hr16. destruct (active_ok d _ t Ht) as (b0 & Eb0 & Hb & _ & _ & Hdim & (Hd1 & Hd2 & _)).
  rewrite Eb in Eb0. injection Eb0 as <-. pose proof (bo_region _ _ Hb). pose proof (bo_margins _ _ Hb).
  split.
  - intros Hlt. exists (pair_sequence (scroll_top b + 1) (scroll_bottom b + 1) 114).
    destruct (ingest_pair_buffer t b (scroll_top b + 1) (scroll_bottom b + 1) 114 SetScrollRegion
      (fun b' => region_of b' = region_of b)) as (t' & b' & E & Eb' & HQ); try done; try lia.
    + intros ps Hps. unfold csi_plain_op. by rewrite Hps.
    + intros ps t1 b1 P0 P1 Eb1 Hm1 Hd1'. cbn [apply_op]. unfold set_scroll_region. rewrite P0, P1, Hd1'.
      rewrite (proj2 (Nat.leb_gt _ _)), (proj2 (Nat.leb_gt _ _)) by lia. cbn [orb].
      unfold upd_active, with_active. rewrite Eb1. cbn [mbind option_bind].
      match goal with |- context [home_cursor (set_active ?x t1)] =>
        destruct (home_cursor_region (set_active x t1) x) as (b2 & -> & HR & _) end.
      { apply set_active_active. by rewrite Eb1. }
      rewrite set_active_twice. exists b2. split; [done|]. rewrite HR. unfold region_of. cbn. f_equal; lia.
    + exists t', b'. split_and!; try done. by apply region_sequence.
  - intros Hm. exists (pair_sequence (scroll_left b + 1) (scroll_right b + 1) 115).
    destruct (ingest_pair_buffer t b (scroll_left b + 1) (scroll_right b + 1) 115 SaveAnsiOrSetHorizontalMargins
      (fun b' => margins_of b' = margins_of b)) as (t' & b' & E & Eb' & HQ); try done; try lia.
    + intros ps Hps. unfold csi_plain_op. by rewrite Hps.
    + intros ps t1 b1 P0 P1 Eb1 Hm1 Hd1'. cbn [apply_op]. rewrite Hm1, Hm. unfold set_horizontal_margins. rewrite P0, P1, Hd1'.
      rewrite (proj2 (Nat.leb_gt _ _)), (proj2 (Nat.leb_gt _ _)) by lia. cbn [orb].
      unfold upd_active, with_active. rewrite Eb1. cbn [mbind option_bind].
      match goal with |- context [home_cursor (set_active ?x t1)] =>
        destruct (home_cursor_region (set_active x t1) x) as (b2 & -> & _ & HR) end.
      { apply set_active_active. by rewrite Eb1. }
      rewrite set_active_twice. exists b2. split; [done|]. rewrite HR. unfold margins_of. cbn. f_equal; lia.
    + exists t', b'. split_and!; try done. apply (margins_sequence t (mkSpan (scroll_left b) (scroll_right b))).
      unfold horizontal_margins. by rewrite Hm, Eb.
Qed.
End Pairs.

(** The cursor sits at row 2, column 2 of the region rows 2-3, in origin mode. *)
Definition sample_region : Terminal :=
  match with_scrollback_limit (P := sample_platform) (mkDimensions 5 3 15) 10 with
  | inr t => default sample_terminal
      (ingest (P := sample_platform) ([ESC] ++ bytes "[2;3r" ++ [ESC] ++ bytes "[?6h" ++ [ESC] ++ bytes "[2;4H") t)
  | inl _ => sample_terminal
  end.

Lemma sample_region_sound :
  term_ok (P := sample_platform) (mkDimensions 5 3 15) (anchor_ok (mkDimensions 5 3 15)) sample_region.
Proof.
  unfold sample_region. destruct (with_scrollback_limit _ _) as [|t] eqn:E; [discriminate|].
  assert (term_ok (P := sample_platform) (mkDimensions 5 3 15) (anchor_ok (mkDimensions 5 3 15)) t) as Ht.
  { eapply with_scrollback_limit_ok; [|exact E]. unfold dims_ok; vm_compute; lia. }
  edestruct (ingest_ok (P := sample_platform)) as (t' & E' & Ht'); [exact Ht|]. rewrite E'. exact Ht'.
Qed.

Lemma cursor_report_round_trip_witness :
  exists r c t', cursor_report sample_region = Some (pair_sequence r c 82) /\
    ingest (P := sample_platform) (pair_sequence r c 72) sample_region = Some t' /\
    terminal_cursor t' = terminal_cursor sample_region.
Proof.
  destruct (cursor_report_round_trip (P := sample_platform) (mkDimensions 5 3 15) sample_region) as (b & m & r & c & t' & _ & _ & E1 & E2 & _ & H).
  - exact sample_region_sound.
  - repeat split.
  - unfold u16_max. cbn [columns]. lia.
  - unfold u16_max. cbn [rows]. lia.
  - exists r, c, t'. split; [exact E1|]. split; [exact E2|]. apply H.
    intros _ b' m' Hb Hm. vm_compute in Hb, Hm. injection Hb as <-. injection Hm as <-. clear. vm_compute. split; reflexivity.
Defined.

Lemma margin_report_round_trip_witness :
  exists b, active_buffer sample_region = Some b /\
    exists seq t' b', status_sequence (bytes "r") sample_region = Some seq /\
      ingest (P := sample_platform) seq sample_region = Some t' /\ active_buffer t' = Some b' /\ region_of b' = region_of b.
Proof.
  destruct (active_ok _ _ _ sample_region_sound) as (b & Eb & _). exists b. split; [exact Eb|].
  apply (margin_report_round_trip (P := sample_platform) (mkDimensions 5 3 15) sample_region b).
  - exact sample_region_sound.
  - repeat split.
  - exact Eb.
  - unfold u16_max. cbn [columns]. lia.
  - unfold u16_max. cbn [rows]. lia.
  - vm_compute in Eb. injection Eb as <-. vm_compute. lia.
Defined.
