(* ===== verification/InputSpec.v ===== *)
(** * What reaches the input queue

    Specifications of [input.rs] and of the input side of [terminal.rs]: an
    unbracketed paste against a reference rewriting of line breaks, every
    input event against a reference encoding and its atomicity, and the
    agreement of a prepared batch with the same events handled one by one. *)

From Stdlib Require Import NArith Bool.
From S2P Require Import Prelude Cell Utf8 Hyperlink Parser Screen History Input Buffer Terminal TerminalOps TerminalInv TerminalResize.

(** ** Line breaks of an unbracketed paste *)

(** The reference: first every CR LF becomes CR, then every LF left does. *)
Fixpoint replace_crlf (bs : list N) : list N :=
  match bs with
  | [] => []
  | b :: bs' =>
      b :: match bs' with
           | c :: bs'' => if (b =? CR)%N && (c =? LF)%N then replace_crlf bs'' else replace_crlf bs'
           | [] => []
           end
  end.
Definition enter_of (b : N) : N := if (b =? LF)%N then CR else b.

Lemma replace_crlf_cons b bs : replace_crlf (b :: bs) =
  b :: (if (b =? CR)%N && from_option (N.eqb LF) false (head bs) then replace_crlf (tail bs) else replace_crlf bs).
Proof. destruct bs as [|c bs]; cbn; [by rewrite andb_false_r|]. by rewrite (N.eqb_sym c LF). Qed.

Lemma normalize_breaks_skip bs : normalize_breaks true bs =
  normalize_breaks false (if from_option (N.eqb LF) false (head bs) then tail bs else bs).
Proof.
  destruct bs as [|b bs]; [done|]. cbn [normalize_breaks head from_option tail]. rewrite (N.eqb_sym LF b).
  destruct (b =? LF)%N eqn:E; cbn [andb]; [by apply N.eqb_eq in E as ->|].
  cbn. by rewrite E.
Qed.

Lemma normalize_breaks_reference bs : normalize_breaks false bs = map enter_of (replace_crlf bs).
Proof.
  remember (length bs) as n eqn:Hn. assert (length bs <= n) as Hle by lia. clear Hn.
  revert bs Hle. induction n as [|n IH]; intros [|b bs] Hle; cbn in Hle; try done; [lia|].
  rewrite replace_crlf_cons. cbn [normalize_breaks andb map]. fold (enter_of b). f_equal.
  destruct (b =? CR)%N eqn:E; [|rewrite IH by lia; done]. rewrite normalize_breaks_skip. cbn [andb].
  case_match; apply IH; [destruct bs; cbn in *; lia|lia].
Qed.

Lemma crlf_pairs_length bs : length (replace_crlf bs) + crlf_pairs bs = length bs.
Proof.
  remember (length bs) as n eqn:Hn. assert (length bs <= n) as Hle by lia. rewrite Hn. clear Hn.
  revert bs Hle. induction n as [|n IH]; intros [|b bs] Hle; cbn in Hle; try done; [lia|].
  rewrite replace_crlf_cons. cbn [length crlf_pairs].
  destruct (b =? CR)%N eqn:E; cbn [andb]; [|specialize (IH bs ltac:(lia)); lia].
  destruct bs as [|c bs]; [done|]. cbn [head from_option tail length] in *.
  destruct (LF =? c)%N eqn:Ec; [|specialize (IH (c :: bs) ltac:(cbn; lia)); cbn [length] in IH; lia].
  apply N.eqb_eq in Ec as <-. cbn [crlf_pairs]. specialize (IH bs ltac:(lia)).
  change (LF =? CR)%N with false. cbn [andb]. lia.
Qed.

Section WithPlatform.
Context `{P : Platform}.

(** An unbracketed paste sends what the user would type.  Whatever the
    text, the one-pass rewrite sends the text with every CR LF and every lone
    LF turned into one CR - no LF is left to reach the program as a control
    key - and its length is exactly the length reserved for it. *)
Theorem unbracketed_paste_sends_returns s m :
  bracketed_paste m = false ->
  exists bs, encode_paste s m = Some bs /\ bs = map enter_of (replace_crlf (encode_text s)) /\
    (LF ∉ bs) /\ paste_encoded_length s m = Some (N.of_nat (length bs)).
Proof.
  intros Hb. unfold encode_paste, paste_encoded_length. rewrite Hb. cbn [negb].
  eexists. split; [done|]. rewrite normalize_breaks_reference. split; [done|]. split.
  - intros H. apply list_elem_of_fmap in H as (b & H & _). unfold enter_of in H.
    destruct (b =? LF)%N eqn:E; [done|]. apply N.eqb_neq in E. congruence.
  - f_equal. rewrite length_map. pose proof (crlf_pairs_length (encode_text s)). lia.
Qed.
End WithPlatform.

Lemma unbracketed_paste_sends_returns_witness :
  exists bs, encode_paste (P := sample_platform) [97; 13; 10; 98; 10; 10; 13]%N TerminalModes_default = Some bs /\
    bs = map enter_of (replace_crlf (encode_text [97; 13; 10; 98; 10; 10; 13]%N)) /\ (LF ∉ bs) /\
    paste_encoded_length [97; 13; 10; 98; 10; 10; 13]%N TerminalModes_default = Some (N.of_nat (length bs)).
Proof. apply (unbracketed_paste_sends_returns (P := sample_platform)). reflexivity. Defined.

(** ** The reference encoding

    What a program that reads the keyboard, pastes and mouse of an xterm
    expects, as the tables and formulas of its control sequences: written
    from the classes of keys, not from the cases of [input.rs]. *)
Inductive KeyClass :=
  | Typed (c : N)                      (* a character *)
  | Held (c : N)                       (* a character with Control *)
  | Fixed (b : N)                      (* one byte, in any mode *)
  | CursorKey (final : N)                (* CSI or, in application mode, SS3 *)
  | Pf (final : N)                     (* SS3 *)
  | Editing (code : N)                 (* CSI code ~ *)
  | Pad (normal application : N)       (* a byte, or SS3 and a letter *)
  | Absent.

(** PF1 to PF4 and F5 to F12, with the gaps of the VT220 keyboard. *)
Definition function_row : list KeyClass :=
  map Pf (bytes "PQRS") ++ map Editing [15; 17; 18; 19; 20; 21; 23; 24]%N.

(** The keypad's faces and what they send in application mode. *)
Definition pad_keys : list KeypadKey :=
  map KpDigit [0; 1; 2; 3; 4; 5; 6; 7; 8; 9]%N
    ++ [KpDecimal; KpEnter; KpAdd; KpSubtract; KpMultiply; KpDivide; KpEqual; KpSeparator].
Definition pad_faces : list N := bytes "0123456789." ++ [CR] ++ bytes "+-*/=,".
Definition pad_letters : list N := bytes "pqrstuvwxynMkmjoXl".
#[global] Instance KeypadKey_eq_dec : EqDecision KeypadKey.
Proof. solve_decision. Defined.
Definition pad_class (k : KeypadKey) : KeyClass :=
  match list_find (k =.) pad_keys with
  | Some (i, _) => Pad (nth i pad_faces 0%N) (nth i pad_letters 0%N)
  | None => Absent
  end.

Definition key_class (backspace : bool) (key : Key) : KeyClass :=
  match key with
  | KeyCharacter c => Typed c
  | KeyControl c => Held c
  | KeyEnter => Fixed CR
  | KeyTab => Fixed 9
  | KeyBackspace => Fixed (if backspace then 8 else 127)
  | KeyEscape => Fixed ESC
  | KeyArrowUp => CursorKey 65 | KeyArrowDown => CursorKey 66 | KeyArrowRight => CursorKey 67 | KeyArrowLeft => CursorKey 68
  | KeyHome => CursorKey 72 | KeyEnd => CursorKey 70
  | KeyInsert => Editing 2 | KeyDelete => Editing 3 | KeyPageUp => Editing 5 | KeyPageDown => Editing 6
  | KeyFunction n => if (n =? 0)%N then Absent else nth (N.to_nat n - 1) function_row Absent
  | KeyKeypad k => pad_class k
  end%N.

Definition csi (bs : list N) : list N := ESC :: bytes "[" ++ bs.
Definition ss3 (bs : list N) : list N := ESC :: bytes "O" ++ bs.

(** Control keeps the low five bits of a letter, of a space and of the three
    brackets. *)
Definition control_code (c : N) : option (list N) :=
  if in_range 65 93 c || in_range 97 122 c || (c =? 32)%N then Some [N.land c 31] else None.

Definition key_bytes (key : Key) (m : TerminalModes) : option (list N) :=
  match key_class (backarrow_sends_backspace m) key with
  | Typed c => Some (encode_utf8 c)
  | Held c => control_code c
  | Fixed b => Some [b]
  | CursorKey f => Some (if application_cursor m then ss3 [f] else csi [f])
  | Pf f => Some (ss3 [f])
  | Editing n => Some (csi (decimal n ++ bytes "~"))
  | Pad face letter => Some (if application_keypad m then ss3 [letter] else [face])
  | Absent => None
  end.

(** With modifiers [mods]: one more than the bit set, as a parameter; or the
    Meta prefix, Control on characters only, and Shift on nothing else but a
    tab. *)
Definition chord_bytes (key : Key) (mods : Modifiers) (m : TerminalModes) : option (list N) :=
  let parameter := decimal (1 + N.land mods 7) in
  let meta bs := if N.testbit mods 1 then ESC :: bs else bs in
  let shift := N.testbit mods 0 in
  let control := N.testbit mods 2 in
  if (mods =? 0)%N then key_bytes key m
  else match key_class (backarrow_sends_backspace m) key with
       | CursorKey f | Pf f => Some (csi (bytes "1;" ++ parameter ++ [f]))
       | Editing n => Some (csi (decimal n ++ bytes ";" ++ parameter ++ bytes "~"))
       | Typed c => if control then meta <$> control_code c else Some (meta (encode_utf8 c))
       | Held c => meta <$> control_code c
       | Fixed _ | Pad _ _ =>
           if match key with KeyTab => (mods =? 1)%N | _ => false end then Some (csi (bytes "Z"))
           else if shift || control then None
           else meta <$> key_bytes key m
       | Absent => None
       end.

Definition pasted (bracketed : bool) (s : list N) : list N :=
  if bracketed then csi (bytes "200~") ++ encode_text s ++ csi (bytes "201~")
  else map enter_of (replace_crlf (encode_text s)).

(** The button, plus 4 for Shift, 8 for Meta, 16 for Control, 32 for motion and
    64 for the wheel; without SGR a release names no button. *)
Definition button_code (sgr : bool) (k : MouseEventKind) (mods : Modifiers) : N :=
  (4 * N.land mods 7 +
   match k with
   | Press b => mouse_button_code b
   | Release b => if sgr then mouse_button_code b else 3
   | Move b => 32 + from_option mouse_button_code 3 b
   | Wheel WheelUp => 64
   | Wheel WheelDown => 65
   end)%N.

(** Coordinates count from one; without SGR they are single bytes. *)
Definition mouse_bytes (sgr : bool) (e : MouseEvent) : option (list N) :=
  let code := button_code sgr (kind e) (modifiers e) in
  let x := N.of_nat (mouse_column e + 1) in
  let y := N.of_nat (mouse_row e + 1) in
  if sgr then
    if (x <=? usize_max)%N && (y <=? usize_max)%N then
      Some (csi (bytes "<" ++ decimal code ++ bytes ";" ++ decimal x ++ bytes ";" ++ decimal y
        ++ match kind e with Release _ => bytes "m" | _ => bytes "M" end))
    else None
  else if (x <=? 223)%N && (y <=? 223)%N then Some (csi (bytes "M" ++ map (N.add 32) [code; x; y])) else None.

(** Which events a tracking mode asks for: X10 presses only, button events
    releases too, then drags, then all motion. *)
Definition tracking_level (m : MouseTrackingMode) : nat :=
  match m with MouseNone => 0 | X10 => 1 | ButtonEvent => 2 | ButtonMotion => 3 | AnyMotion => 4 end.
Definition needed_level (k : MouseEventKind) : nat :=
  match k with Press _ | Wheel _ => 1 | Release _ => 2 | Move (Some _) => 3 | Move None => 4 end.

Inductive Verdict := Send (bs : list N) | LeaveToSelection | Swallow | Refuse.
Definition send (enc : option (list N)) : Verdict := match enc with Some bs => Send bs | None => Refuse end.

Definition mouse_meaning (e : MouseEvent) (m : TerminalModes) : Verdict :=
  if tracking_level (mouse_tracking m) =? 0 then LeaveToSelection
  else if tracking_level (mouse_tracking m) <? needed_level (kind e) then Swallow
  else send (mouse_bytes (sgr_mouse m) e).

Definition meaning (e : InputEvent) (m : TerminalModes) : Verdict :=
  match e with
  | EvKey key => send (if keyboard_locked m then None else key_bytes key m)
  | EvModifiedKey key mods => send (if keyboard_locked m then None else chord_bytes key mods m)
  | EvPaste s => Send (pasted (bracketed_paste m) s)
  | EvFocus f =>
      send (if focus_reporting m then Some (csi (match f with FocusIn => bytes "I" | FocusOut => bytes "O" end)) else None)
  | EvMouse e => mouse_meaning e m
  end.

(** The three flags of a modifier set and the parameter they make. *)
Lemma modifiers_cases m :
  (mod_contains m SHIFT = N.testbit m 0 /\ mod_contains m ALT = N.testbit m 1 /\ mod_contains m CONTROL = N.testbit m 2) /\
  modifier_parameter m = (1 + N.land m 7)%N /\ mouse_bits m = (4 * N.land m 7)%N /\ (N.land m 7 < 8)%N.
Proof.
  assert (forall k, N.land 7 k = k -> N.land m k = N.land (N.land m 7) k) as Hland.
  { intros k Hk. by rewrite <- N.land_assoc, Hk. }
  assert (forall i, (i < 3)%N -> N.testbit m i = N.testbit (N.land m 7) i) as Hbit.
  { intros i Hi. rewrite N.land_spec. change 7%N with (N.ones 3). by rewrite N.ones_spec_low, andb_true_r. }
  assert (N.land m 7 < 8)%N as Hlt.
  { change 7%N with (N.ones 3). rewrite N.land_ones. by apply N.mod_upper_bound. }
  unfold modifier_parameter, mouse_bits, mod_contains, SHIFT, ALT, CONTROL.
  rewrite (Hland 1%N), (Hland 2%N), (Hland 4%N), (Hbit 0%N), (Hbit 1%N), (Hbit 2%N) by (done || lia).
  revert Hlt. generalize (N.land m 7). clear. intros r Hlt.
  assert (In r [0; 1; 2; 3; 4; 5; 6; 7]%N) as H by (cbn; lia). cbn [In] in H.
  destruct_or! H; try done; subst r; vm_compute; by split_and!.
Qed.

Lemma control_byte_reference c : (b ← control_byte c; Some [b]) = control_code c.
Proof.
  destruct (N.leb_spec c 122) as [Hle|Hgt].
  - assert (Forall (fun c => (b ← control_byte c; Some [b]) = control_code c) (map N.of_nat (seq 0 123))) as H.
    { apply (bool_decide_unpack _). vm_compute. exact I. }
    rewrite Forall_forall in H. apply H, in_map_iff. exists (N.to_nat c). split; [lia|]. apply in_seq. lia.
  - unfold control_byte, control_code, in_range, switch. cbn.
    rewrite (proj2 (N.leb_gt c 122)), (proj2 (N.leb_gt c 90)), (proj2 (N.leb_gt c 93)), !andb_false_r by lia. cbn [orb].
    repeat (rewrite (proj2 (N.eqb_neq c _)) by lia). done.
Qed.

Lemma function_key_reference n :
  (if (n =? 0)%N then Absent else nth (N.to_nat n - 1) function_row Absent) =
  match function_key_code n with Some (Ss3 f) => Pf f | Some (Tilde c) => Editing c | None => Absent end.
Proof.
  destruct (N.leb_spec n 12) as [Hle|Hgt].
  - assert (In n [0; 1; 2; 3; 4; 5; 6; 7; 8; 9; 10; 11; 12]%N) as H by (cbn; lia). cbn [In] in H.
    destruct_or! H; try done; subst n; vm_compute; done.
  - rewrite (proj2 (N.eqb_neq _ _)), nth_overflow by (cbn; lia).
    unfold function_key_code, in_range. 
    rewrite (proj2 (N.leb_gt n 4)), (proj2 (N.leb_gt n 10)), (proj2 (N.leb_gt n 12)), (proj2 (N.eqb_neq n 5)) by lia.
    by rewrite !andb_false_r.
Qed.

Lemma pad_class_cases k : (exists face letter, pad_class k = Pad face letter) \/ pad_class k = Absent.
Proof. unfold pad_class. destruct (list_find _ _) as [[]|]; eauto. Qed.

Lemma keypad_reference k app :
  keypad_key_bytes k app =
  match pad_class k with Pad face letter => Some (if app then ss3 [letter] else [face]) | _ => None end.
Proof.
  destruct k as [n| | | | | | | |]; try (by destruct app).
  destruct (N.leb_spec n 9) as [Hle|Hgt].
  - assert (In n [0; 1; 2; 3; 4; 5; 6; 7; 8; 9]%N) as H by (cbn; lia). cbn [In] in H.
    destruct_or! H; try done; subst n; (by destruct app).
  - unfold keypad_key_bytes. cbn [keypad_normal]. rewrite (proj2 (N.leb_gt _ _)) by lia. cbn [mbind option_bind].
    unfold pad_class. destruct (list_find _ _) as [[i k]|] eqn:E; [|done].
    apply list_find_Some in E as (Hi & <- & _). apply list_elem_of_lookup_2 in Hi.
    apply list_elem_of_In in Hi. cbn in Hi. destruct_or! Hi; simplify_eq; lia.
Qed.

Lemma encode_key_reference key m : encode_key key m = if keyboard_locked m then None else key_bytes key m.
Proof.
  unfold encode_key, key_bytes. destruct (keyboard_locked m); [done|].
  destruct key; cbn [key_class]; try done; [by apply control_byte_reference|..].
  - rewrite function_key_reference. by destruct (function_key_code number) as [[]|].
  - rewrite keypad_reference. unfold pad_class. by destruct (list_find _ _) as [[]|].
Qed.

Lemma encode_modified_key_reference key mods m :
  encode_modified_key key mods m = if keyboard_locked m then None else chord_bytes key mods m.
Proof.
  unfold encode_modified_key, chord_bytes. destruct (modifiers_cases mods) as ((Hs & Ha & Hc) & Hp & _).
  destruct (keyboard_locked m) eqn:El; [done|]. unfold MOD_NONE. destruct (mods =? 0)%N; [by rewrite encode_key_reference, El|].
  rewrite Hp, <- Hs, <- Ha, <- Hc. unfold encode_chord, SHIFT at 1.
  destruct key as [c|c| | | | | | | | | | | | | | |n|k]; cbn [key_class cursor_final tilde_code mbind option_bind];
    try (destruct (mods =? 1)%N; [done|]);
    rewrite ?function_key_reference; try (destruct (function_key_code n) as [[]|]); cbn [mbind option_bind];
    try (destruct (pad_class_cases k) as [(face & letter & Epad)|Epad]; rewrite Epad);
    destruct (mod_contains mods SHIFT), (mod_contains mods CONTROL); cbn [negb andb orb mbind option_bind]; try done;
    rewrite encode_key_reference, El; unfold key_bytes; cbn [key_class]; rewrite ?Epad; try done; by destruct (control_code c).
Qed.

Lemma encode_mouse_reference (sgr : bool) e :
  (if sgr then Some (encode_sgr_mouse e) else encode_legacy_mouse e) = Some (mouse_bytes sgr e).
Proof.
  assert (mouse_code e sgr = (button_code sgr (kind e) (modifiers e),
    match kind e with Release _ => if sgr then 109 else 77 | _ => 77 end)%N) as Hcode.
  { unfold mouse_code, button_code. destruct (modifiers_cases (modifiers e)) as (_ & _ & -> & Hlt).
    revert Hlt. generalize (N.land (modifiers e) 7). intros r Hlt.
    assert (In r [0; 1; 2; 3; 4; 5; 6; 7]%N) as H by (cbn; lia). cbn [In] in H.
    destruct_or! H; try done; subst r; destruct (kind e) as [[]|[]|[[]|]|[]], sgr; reflexivity. }
  assert (button_code sgr (kind e) (modifiers e) <= 127)%N as Hb.
  { unfold button_code. destruct (modifiers_cases (modifiers e)) as (_ & _ & _ & Hlt).
    destruct (kind e) as [[]|[]|[[]|]|[]], sgr; cbn; lia. }
  unfold mouse_bytes. destruct sgr.
  - unfold encode_sgr_mouse, checked_add. rewrite Hcode, !Nat2N.inj_add. change (N.of_nat 1) with 1%N.
    destruct (N.of_nat (mouse_column e) + 1 <=? usize_max)%N; [|done].
    destruct (N.of_nat (mouse_row e) + 1 <=? usize_max)%N; [|done]. cbn [mbind option_bind andb]. by destruct (kind e).
  - unfold encode_legacy_mouse, MAX_LEGACY_COORDINATE, u8_add, checked_add. rewrite Hcode.
    destruct (222 <? mouse_column e) eqn:Ex, (222 <? mouse_row e) eqn:Ey; bools; cbn [orb];
      try (by rewrite (proj2 (N.leb_gt _ _)) by lia; rewrite ?andb_false_r);
      try (by rewrite (proj2 (N.leb_gt (N.of_nat (mouse_row e + 1)) _)), andb_false_r by lia).
    rewrite !N.mod_small by lia. rewrite !(proj2 (N.leb_le _ _)) by lia. cbn [mbind option_bind andb map].
    unfold csi. cbn. repeat (f_equal; try lia).
Qed.

(** ** The input queue *)
Transparent queue_input.

Section Queue.
Context `{P : Platform}.

(** [t] with bytes added to its input queue. *)
Definition enqueue (bs : list N) (t : Terminal) : Terminal := t <| input_queue := input_queue t ++ bs |>.

Definition queue_bounded (t : Terminal) : Prop :=
  (N.of_nat (length (input_queue t)) <= TRANSPORT_QUEUE_HIGH_WATERMARK)%N.

(** [bs] can be queued whole. *)
Definition queue_takes (bs : list N) (t : Terminal) : bool :=
  (N.of_nat (length (input_queue t) + length bs) <=? TRANSPORT_QUEUE_HIGH_WATERMARK)%N
  && alloc_ok (N.of_nat (length bs)).

Lemma queue_encoded_input_spec bs t : queue_bounded t ->
  queue_encoded_input bs t =
    if queue_takes bs t then (Encoded (length bs), enqueue bs t) else overflow_input t.
Proof.
  unfold queue_bounded, queue_encoded_input, queue_input, queue_transport_bytes, queue_takes, overflow_input, enqueue.
  intros Hq. rewrite (proj2 (N.ltb_ge _ _) Hq).
  destruct (N.ltb_spec (TRANSPORT_QUEUE_HIGH_WATERMARK - N.of_nat (length (input_queue t))) (N.of_nat (length bs)));
    [rewrite (proj2 (N.leb_gt _ _)) by lia|rewrite (proj2 (N.leb_le _ _)) by lia; destruct (alloc_ok _)];
    cbn; destruct t; cbn; by rewrite ?orb_false_r, ?orb_true_r.
Qed.

(** What handling an event may do, given what it means: its bytes are queued
    whole or the overflow is recorded, and nothing else ever changes. *)
Definition respond (v : Verdict) (t : Terminal) : InputEventOutcome * Terminal :=
  match v with
  | Send bs => if queue_takes bs t then (Encoded (length bs), enqueue bs t)
               else (QueueOverflow, t <| input_queue_overflowed := true |>)
  | LeaveToSelection => (SelectionAllowed, t)
  | Swallow => (SelectionClaimed, t)
  | Refuse => (Rejected, t)
  end.

Lemma respond_bounded v t : queue_bounded t -> queue_bounded (respond v t).2.
Proof.
  intros Hq. destruct v as [bs| | |]; cbn; try done. destruct (queue_takes bs t) eqn:E; [|done].
  unfold queue_takes in E. apply andb_true_iff in E as [E _]. apply N.leb_le in E.
  unfold queue_bounded, enqueue. cbn. rewrite length_app. lia.
Qed.

Lemma queued_or_refused enc t : queue_bounded t ->
  match enc with Some bs => queue_encoded_input bs t | None => (Rejected, t) end = respond (send enc) t.
Proof. intros Hq. destruct enc; [by apply queue_encoded_input_spec|done]. Qed.

(** A paste that is too long, or that cannot be copied, overflows like one that
    does not fit. *)
Lemma handle_paste_responds s t : queue_bounded t ->
  handle_paste s t = respond (Send (pasted (bracketed_paste (modes t)) s)) t.
Proof.
  intros Hq. unfold handle_paste. cbn [respond]. set (bs := pasted _ _).
  assert (paste_encoded_length s (modes t) = None /\ (usize_max < N.of_nat (length bs))%N \/
    paste_encoded_length s (modes t) = Some (N.of_nat (length bs))) as Hlen.
  { unfold paste_encoded_length, bs, pasted. destruct (bracketed_paste (modes t)).
    - rewrite !length_app, !Nat2N.inj_add. change (length (csi (bytes "200~"))) with (length PASTE_START).
      change (length (csi (bytes "201~"))) with (length PASTE_END). unfold checked_add.
      destruct (N.leb_spec (N.of_nat (length (encode_text s)) + N.of_nat (length PASTE_START)) usize_max); [|left; split; [done|lia]].
      cbn [mbind option_bind]. destruct (N.leb_spec (N.of_nat (length (encode_text s)) + N.of_nat (length PASTE_START)
        + N.of_nat (length PASTE_END)) usize_max); [right; f_equal|left; split; [done|]]; lia.
    - right. f_equal. rewrite length_map. pose proof (crlf_pairs_length (encode_text s)). lia. }
  assert (forall n, paste_encoded_length s (modes t) = Some n -> encode_paste s (modes t) =
    if bracketed_paste (modes t) && negb (alloc_ok n) then None else Some bs) as Henc.
  { intros n En. unfold encode_paste, bs, pasted. rewrite En. destruct (bracketed_paste (modes t)); cbn [negb andb].
    - cbn. by destruct (alloc_ok n).
    - by rewrite normalize_breaks_reference. }
  destruct Hlen as [[-> Hbig]|Hlen].
  - assert (TRANSPORT_QUEUE_HIGH_WATERMARK < usize_max)%N by done.
    unfold queue_takes. by rewrite (proj2 (N.leb_gt _ _)) by lia.
  - rewrite Hlen, (Henc _ Hlen). unfold queue_takes.
    destruct (N.ltb_spec TRANSPORT_QUEUE_HIGH_WATERMARK (N.of_nat (length bs))).
    { rewrite (proj2 (N.leb_gt _ _)) by lia. done. }
    destruct (bracketed_paste (modes t)), (alloc_ok _) eqn:Ea; cbn [andb negb]; rewrite ?andb_false_r; try done;
      rewrite queue_encoded_input_spec by done; unfold queue_takes; rewrite Ea, ?andb_false_r; done.
Qed.

Lemma handle_mouse_responds e t : queue_bounded t ->
  handle_mouse e t = Some (respond (mouse_meaning e (modes t)) t).
Proof.
  intros Hq. unfold handle_mouse, mouse_meaning. rewrite encode_mouse_reference. cbn [mbind option_bind].
  rewrite queued_or_refused by done.
  destruct (mouse_tracking (modes t)), (kind e) as [| |[]|]; done.
Qed.

(** C39: every input event means what the modes say, and is atomic.
    Whatever key, chord, paste, focus change or mouse event is handled in
    whatever modes, the call returns, and its effect is the one the reference
    encoding gives: the bytes of [meaning] are queued whole and their number
    reported, or, when they do not fit or cannot be copied, only the sticky
    overflow flag is set; an event the modes or the encoding exclude changes
    nothing.  The queue never passes its watermark. *)
Theorem input_events_are_atomic e t :
  queue_bounded t ->
  exists o t', handle_input e t = Some (o, t') /\ (o, t') = respond (meaning e (modes t)) t /\ queue_bounded t'.
Proof.
  intros Hq. destruct (respond (meaning e (modes t)) t) as [o t'] eqn:E. exists o, t'.
  pose proof (respond_bounded (meaning e (modes t)) t Hq) as Hb. rewrite E in Hb. split_and!; [|done|exact Hb].
  rewrite <- E. destruct e as [key|key mods|s|f|m]; cbn [handle_input meaning].
  - by rewrite queued_or_refused, encode_key_reference.
  - by rewrite queued_or_refused, encode_modified_key_reference.
  - by rewrite handle_paste_responds.
  - rewrite queued_or_refused by done. by destruct f.
  - by apply handle_mouse_responds.
Qed.

(** ** Prepared batches *)

(** Every event of a batch handled in turn, all of them encoded. *)
Definition handle_encoded (e : InputEvent) (t : Terminal) : option Terminal :=
  '(o, t') ← handle_input e t;
  match o with Encoded _ => Some t' | _ => None end.

Lemma prepare_event_handled e remaining t bs :
  queue_bounded t -> (remaining <= TRANSPORT_QUEUE_HIGH_WATERMARK)%N ->
  prepare_event e remaining (modes t) = inr bs -> queue_takes bs t = true ->
  handle_encoded e t = Some (enqueue bs t).
Proof.
  intros Hq Hrem E Htake. pose proof (queue_encoded_input_spec bs t Hq) as Hqe. rewrite Htake in Hqe.
  unfold handle_encoded. destruct e as [key|key mods|s|f|m]; cbn [handle_input prepare_event] in *; try done.
  - destruct (encode_key key (modes t)); [|done]. injection E as ->. rewrite Hqe. done.
  - destruct (encode_modified_key key mods (modes t)); [|done]. injection E as ->. rewrite Hqe. done.
  - unfold prepare_paste in E. unfold handle_paste. destruct (saturating_mul _ _ _ <? _)%N; [done|].
    destruct (paste_encoded_length s (modes t)) as [n|]; [|done].
    destruct (N.ltb_spec remaining n); [done|]. destruct (negb _); [done|].
    destruct (encode_paste s (modes t)) as [bs'|]; [|done]. injection E as ->.
    rewrite (proj2 (N.ltb_ge _ _)) by lia. rewrite Hqe. done.
Qed.

Lemma enqueue_app bs bs' t : enqueue bs' (enqueue bs t) = enqueue (bs ++ bs') t.
Proof. unfold enqueue. destruct t; cbn. by rewrite app_assoc. Qed.

Lemma prepare_loop_prefix events limit m acc bs :
  prepare_loop events limit m acc = inr bs -> exists rest, bs = acc ++ rest.
Proof.
  revert acc. induction events as [|e events IH]; intros acc E; cbn [prepare_loop] in E.
  { injection E as <-. exists []. by rewrite app_nil_r. }
  destruct (prepare_event _ _ _) as [|new]; [done|]. repeat case_match; try done.
  destruct (IH _ E) as [rest ->]. exists (new ++ rest). by rewrite app_assoc.
Qed.

Lemma prepare_loop_bound events limit m acc bs :
  prepare_loop events limit m acc = inr bs -> (N.of_nat (length acc) <= limit)%N ->
  (N.of_nat (length bs) <= limit)%N.
Proof.
  revert acc. induction events as [|e events IH]; intros acc E Hacc; cbn [prepare_loop] in E.
  { by injection E as <-. }
  destruct (prepare_event _ _ _) as [|new]; [done|]. destruct (N.ltb_spec (limit - N.of_nat (length acc)) (N.of_nat (length new))); [done|].
  destruct (negb _); [done|]. apply (IH _ E). rewrite length_app. lia.
Qed.

Lemma prepare_loop_handled events limit t acc bs :
  (limit <= TRANSPORT_QUEUE_HIGH_WATERMARK)%N -> prepare_loop events limit (modes t) acc = inr bs ->
  (N.of_nat (length (input_queue t) + length bs) <= TRANSPORT_QUEUE_HIGH_WATERMARK)%N ->
  for_each handle_encoded events (enqueue acc t) = Some (enqueue bs t).
Proof.
  intros Hlim. revert acc. induction events as [|e events IH]; intros acc E Hfit; cbn [prepare_loop for_each] in *.
  { by injection E as ->. }
  destruct (prepare_event e (limit - N.of_nat (length acc)) (modes t)) as [|new] eqn:Ee; [done|].
  destruct (_ <? _)%N; [done|]. destruct (alloc_ok (N.of_nat (length new))) eqn:Ealloc; [|done]. cbn [negb] in E.
  destruct (prepare_loop_prefix _ _ _ _ _ E) as [rest Hbs].
  assert (length acc + length new <= length bs) as Hlen by (rewrite Hbs, !length_app; lia).
  rewrite (prepare_event_handled e (limit - N.of_nat (length acc)) (enqueue acc t) new).
  - cbn [mbind option_bind]. rewrite enqueue_app. by apply IH.
  - unfold queue_bounded, enqueue. cbn. rewrite length_app. lia.
  - lia.
  - exact Ee.
  - unfold queue_takes, enqueue. cbn. rewrite length_app, Ealloc, andb_true_r. apply N.leb_le. lia.
Qed.

(** Preparing a batch does not change what it means.  When
    [prepare_input] accepts a batch, its bytes are within both limits and are
    exactly what handling the events one by one queues: on a terminal with
    room for them and the recorded modes, every event is encoded and the queue
    ends with those bytes. *)
Theorem prepared_input_is_what_handling_queues events max_bytes t bs m :
  prepare_input (modes t) events max_bytes = inr (bs, m) ->
  (N.of_nat (length (input_queue t) + length bs) <= TRANSPORT_QUEUE_HIGH_WATERMARK)%N ->
  m = modes t /\ bs <> [] /\ (N.of_nat (length bs) <= N.min max_bytes TRANSPORT_QUEUE_HIGH_WATERMARK)%N /\
  for_each handle_encoded events t = Some (enqueue bs t).
Proof.
  intros E Hfit. unfold prepare_input in E. destruct events as [|e events]; [done|]. destruct (_ <? _); [done|].
  destruct (prepare_loop _ _ _ _) as [|[|b bs']] eqn:El; [done..|]. injection E as <- <-.
  split_and!; [done|done| |].
  - by eapply prepare_loop_bound in El; [|cbn; lia].
  - pose proof (prepare_loop_handled (e :: events) _ t [] _ (N.le_min_r _ _) El Hfit) as H.
    rewrite <- H. f_equal. unfold enqueue. destruct t; cbn. by rewrite app_nil_r.
Qed.
End Queue.

(** A chord, a paste with a line break and an arrow key on the 3x2 terminal. *)
Definition sample_events : list InputEvent :=
  [EvModifiedKey (KeyCharacter 99) CONTROL; EvPaste [104; 105; 13; 10]%N; EvKey KeyArrowUp].

Lemma input_events_are_atomic_witness :
  exists o t', handle_input (P := sample_platform) (EvKey KeyArrowUp) sample_terminal = Some (o, t') /\
    (o, t') = respond (P := sample_platform) (meaning (EvKey KeyArrowUp) (modes sample_terminal)) sample_terminal /\
    queue_bounded t'.
Proof. apply (input_events_are_atomic (P := sample_platform)). vm_compute. done. Defined.

Lemma prepared_input_is_what_handling_queues_witness :
  modes sample_terminal = modes sample_terminal /\ [3; 104; 105; 13; 27; 91; 65]%N <> [] /\
  (N.of_nat (length [3; 104; 105; 13; 27; 91; 65]%N) <= N.min 100 TRANSPORT_QUEUE_HIGH_WATERMARK)%N /\
  for_each (handle_encoded (P := sample_platform)) sample_events sample_terminal =
    Some (enqueue [3; 104; 105; 13; 27; 91; 65]%N sample_terminal).
Proof.
  apply (prepared_input_is_what_handling_queues (P := sample_platform) sample_events 100 sample_terminal).
  - vm_compute. reflexivity.
  - vm_compute. done.
Defined.
