(* ===== verification/TerminalText.v ===== *)
(** * What printing puts on the screen

    The functional side of [Terminal::print]: the page a character goes to
    after the wraps that are due, the cell it ends up in, the cells it leaves
    alone, and whole lines of text read back from the screen after they have
    been ingested. *)

From Stdlib Require Import NArith Bool.
From S2P Require Import Prelude Cell Utf8 Hyperlink Parser Screen ScreenGrid ScreenOps ScreenInv ScreenBuild History Input Buffer Terminal TerminalOps TerminalInv TerminalPrint TerminalSafe TerminalResize TerminalReports.

(** ** Cells of the abstract grid *)
Lemma cell_view s c r : c < ncols s -> r < nrows s -> cell s c r = r_cells (view_row s r) !! c.
Proof.
  intros Hc Hr. unfold cell, cell_index. rewrite !(proj2 (Nat.ltb_lt _ _)) by done. cbn [andb mbind option_bind].
  by rewrite view_cell_lookup.
Qed.

Lemma cell_out s c r : ~ (c < ncols s /\ r < nrows s) -> cell s c r = None.
Proof.
  intros H. unfold cell, cell_index. destruct (c <? ncols s) eqn:E1, (r <? nrows s) eqn:E2; try done. bools. tauto.
Qed.

Section Clusters.
Context `{P : Platform}.

Lemma row_extend_cells c w row : r_cells (row_extend c w row) = r_cells row.
Proof. unfold row_extend. by case_match. Qed.

(** What [row_cluster] does to the cells of its row: the cluster is there, and
    no other cell that is one column wide has changed. *)
Lemma row_cluster_cells cols c x row :
  wf_lengths cols row -> width x <> Continuation -> c + width_columns (width x) <= cols ->
  r_cells (row_cluster cols c x row) !! c = Some x /\
  (width x = Double -> r_cells (row_cluster cols c x row) !! (c + 1) = Some (continuation_of x)) /\
  (forall k y, k < c \/ c + width_columns (width x) <= k -> r_cells row !! k = Some y -> width y = Single ->
     r_cells (row_cluster cols c x row) !! k = Some y).
Proof.
  intros Hl Hw Hb. unfold row_cluster. rewrite row_extend_cells, row_repair_list_app.
  destruct (repaired_cluster cols c x row
    (neighborhood cols c ++ neighborhood cols (c + width_columns (width x))) Hl Hw Hb) as (E1 & E2 & _).
  split_and!; [exact E1|exact E2|]. intros k y Hk Hy Hs.
  destruct (cluster_lookup cols c x row k Hl Hw Hb) as [L _].
  assert (r_cells (cluster_write c x row) !! k = Some y) as Hy'.
  { rewrite L. destruct (width x) eqn:Ew; cbn in *; rewrite !decide_False by (lia || naive_solver lia); done. }
  destruct (repair_keeps blank_cell (neighborhood cols c ++ neighborhood cols (c + width_columns (width x)))
    (cluster_write c x row) k Single) as (E & _); try done.
  - rewrite Hy'. cbn. by rewrite Hs.
  - by rewrite E.
Qed.

Lemma replace_cluster_cells c r x s :
  shape s -> r < nrows s -> width x <> Continuation -> c + width_columns (width x) <= ncols s ->
  exists s', replace_cluster c r x s = Some s' /\ dimensions s' = dimensions s /\ cell s' c r = Some x /\
    (width x = Double -> cell s' (c + 1) r = Some (continuation_of x)) /\
    (forall k y, k < c \/ c + width_columns (width x) <= k -> cell s k r = Some y -> width y = Single ->
       cell s' k r = Some y) /\
    (forall k q, q <> r -> cell s' k q = cell s k q).
Proof.
  intros Hs Hr Hw Hb. assert (0 < width_columns (width x)) as Hpos by (destruct (width x); [cbn; lia..|done]).
  destruct (sim_replace_cluster c r x s Hs Hr Hb ltac:(lia)) as (s' & E & (Hs' & Hd & _) & G).
  assert (forall q, q < nrows s -> view_row s' q =
    if decide (q = r) then row_cluster (ncols s) c x (view_row s r) else view_row s q) as V.
  { intros q Hq. assert (g_rows (grid_of s') !! q = Some (view_row s' q)) as H1 by (apply grid_lookup; by rewrite Hd).
    rewrite G in H1. unfold dirty_row, on_dirty, on_row in H1. cbn [g_rows] in H1. destruct (decide (q = r)) as [->|Hne].
    - rewrite list_lookup_alter_eq, grid_lookup in H1 by done. cbn in H1. congruence.
    - rewrite list_lookup_alter_ne, grid_lookup in H1 by done. congruence. }
  destruct (row_cluster_cells (ncols s) c x (view_row s r)) as (C1 & C2 & C3); [|done..|].
  { by apply view_row_lengths. }
  exists s'. split; [done|]. split; [done|]. split_and!.
  - rewrite cell_view by (rewrite ?Hd; lia). by rewrite V, decide_True by done.
  - intros Ed. rewrite Ed in Hb. cbn in Hb. rewrite cell_view by (rewrite ?Hd; lia). rewrite V, decide_True by done. auto.
  - intros k y Hk Hy Hsing. destruct (decide (k < ncols s)) as [Hlt|]; [|rewrite cell_out in Hy by lia; done].
    rewrite cell_view in * by (rewrite ?Hd; lia). rewrite V, decide_True by done. auto.
  - intros k q Hq. destruct (decide (k < ncols s /\ q < nrows s)) as [[H1 H2]|].
    + rewrite !cell_view by (rewrite ?Hd; lia). by rewrite V, decide_False by done.
    + rewrite !cell_out by (rewrite ?Hd; lia). done.
Qed.
End Clusters.

(** ** One character *)
Section Print.
Context `{P : Platform} `{L : !PlatformLaws P} (d : Dimensions).
Abbreviation sound := (term_ok d (anchor_ok d)).

(** The character does not join the cluster before the cursor: there is none,
    or the two are not one grapheme. *)
Definition starts_cluster (ch : N) (b : BufferState) : bool :=
  match grapheme_anchor b with
  | None => true
  | Some a =>
      match cell (screen b) (column a) (row a) with
      | None => true
      | Some c => is_continuation c || negb (extends_grapheme (text c) ch)
      end
  end.

Lemma try_extend_fresh ch t b :
  active_buffer t = Some b -> starts_cluster ch b = true -> try_extend_grapheme ch t = Some (false, t).
Proof.
  intros E H. unfold try_extend_grapheme, starts_cluster in *. rewrite E. cbn [mbind option_bind].
  destruct (grapheme_anchor b); [|done]. destruct (cell _ _ _); [|done]. by rewrite H.
Qed.

Lemma ascii_starts_cluster ch b : is_ascii ch = true -> starts_cluster ch b = true.
Proof. intros H. unfold starts_cluster, extends_grapheme. rewrite H. repeat case_match; auto using orb_true_r. Qed.

(** Replacing the active buffer leaves the pen alone. *)
Lemma set_active_printed ch w b t : printed_cell ch w (set_active b t) = printed_cell ch w t.
Proof. unfold set_active. by destruct active_screen. Qed.

(** *** Where a character goes

    A page is what printing moves about: the cursor and the grid of rows.  The
    wrap is given here on pages, from the margins alone. *)
Record Page := mkPage { pg_cursor : Cursor; pg_grid : Grid }.
Definition page_of (b : BufferState) : Page := mkPage (cursor b) (grid_of (screen b)).

Definition margins_of (t : Terminal) (b : BufferState) : ColumnSpan :=
  if left_right_margin_mode (modes t) then mkSpan (scroll_left b) (scroll_right b)
  else ColumnSpan_full (columns d).

(** Where the line that passes through column [c] ends and begins. *)
Definition limit_at (m : ColumnSpan) (c : nat) : nat := if within m c then right m + 1 else columns d.
Definition home_at (m : ColumnSpan) (c : nat) : nat := if within m c then left m else 0.

(** One line down: on the last row of the scrolling region the region moves up,
    if the cursor is inside its margins; elsewhere the cursor moves, not
    beyond the screen. *)
Definition line_feed (t : Terminal) (b : BufferState) (p : Page) : Page :=
  let at_ := pg_cursor p in
  let m := margins_of t b in
  if row at_ =? scroll_bottom b then
    if within m (column at_) then
      mkPage at_ (grid_up (columns d) (scroll_top b) (scroll_bottom b) 1 (erase_cell t) m (pg_grid p))
    else p
  else mkPage (mkCursor (column at_) (Nat.min (row at_ + 1) (rows d - 1))) (pg_grid p).

(** The line continues on the next one, and its row is marked as continued. *)
Definition next_line (t : Terminal) (b : BufferState) (p : Page) : Page :=
  let at_ := pg_cursor p in
  line_feed t b (mkPage (mkCursor (home_at (margins_of t b) (column at_)) (row at_))
    (on_row (row at_) (fun r => r <| r_soft := true |>) (pg_grid p))).

(** The page after the wrap that was left pending. *)
Definition due_page (t : Terminal) (b : BufferState) : Page :=
  if pending_wrap b && auto_wrap (modes t) then next_line t b (page_of b) else page_of b.

(** The column where the character's line ends, and whether a glyph of [w]
    columns is cut by it. *)
Definition print_limit (t : Terminal) (b : BufferState) : nat :=
  limit_at (margins_of t b) (column (pg_cursor (due_page t b))).
Definition cut_off (w : nat) (t : Terminal) (b : BufferState) : bool :=
  (w =? 2) && (column (pg_cursor (due_page t b)) + 1 =? print_limit t b).

(** The page a glyph of [w] columns is put on, and the glyph: one that is cut
    off goes to the next line, or is replaced where lines do not wrap. *)
Definition print_page (w : nat) (t : Terminal) (b : BufferState) : Page :=
  if cut_off w t b && auto_wrap (modes t) then next_line t b (due_page t b) else due_page t b.
Definition print_glyph (ch : N) (w : nat) (t : Terminal) (b : BufferState) : N * nat :=
  if cut_off w t b && negb (auto_wrap (modes t)) then (REPLACEMENT_CHARACTER, 1) else (ch, w).

(** What printing does to the rows at [at_]. *)
Definition typed_grid (at_ : Cursor) (x : Cell) (limit : nat) (t : Terminal) (g : Grid) : Grid :=
  let w := width_columns (width x) in
  let last := Nat.min (limit - 1) (columns d - 1) in
  let g := if insert_mode (modes t) && (column at_ <=? last) then
             dirty_row (row at_) (on_row (row at_)
               (row_insert_chars (columns d) (column at_) (Nat.min w (last + 1 - column at_)) last (erase_cell t)) g)
           else g in
  dirty_row (row at_) (on_row (row at_) (row_cluster (columns d) (column at_) x) g).

(** What decides all of the above, which wrapping leaves as it was. *)
Definition pen (t : Terminal) :=
  (modes t, current_foreground t, current_background t, current_attributes t, current_protected t, current_hyperlink t).
Definition region (b : BufferState) := (scroll_top b, scroll_bottom b, scroll_left b, scroll_right b).

Lemma pen_printed ch w t t' : pen t' = pen t ->
  modes t' = modes t /\ erase_cell t' = erase_cell t /\ printed_cell ch w t' = printed_cell ch w t.
Proof.
  unfold pen, erase_cell, printed_cell, printed_attributes. intros [= -> -> -> -> -> ->]. done.
Qed.

Lemma set_active_pen b t : pen (set_active b t) = pen t.
Proof. unfold set_active. by destruct active_screen. Qed.

Lemma next_line_kept t b t' b' p : pen t' = pen t -> region b' = region b -> next_line t' b' p = next_line t b p.
Proof.
  intros Hp [= H1 H2 H3 H4]. destruct (pen_printed 0 0 t t' Hp) as (Hm & He & _).
  unfold next_line, line_feed, margins_of. by rewrite Hm, He, H1, H2, H3, H4.
Qed.

Lemma next_line_column t b p :
  column (pg_cursor (next_line t b p)) = home_at (margins_of t b) (column (pg_cursor p)).
Proof. unfold next_line, line_feed. cbn. by repeat case_match. Qed.

Lemma margins_of_spec A t b : term_ok d A t -> active_buffer t = Some b ->
  horizontal_margins t = Some (margins_of t b) /\ margins_ok d (margins_of t b) /\
  cursor_within_margins t = Some (within (margins_of t b) (column (cursor b))) /\
  wrap_geometry t = Some (limit_at (margins_of t b) (column (cursor b)), home_at (margins_of t b) (column (cursor b))).
Proof.
  intros Ht Eb. destruct (active_ok d _ t Ht) as (b0 & Eb0 & Hb & _ & _ & Hdim & _). rewrite Eb in Eb0. injection Eb0 as <-.
  assert (horizontal_margins t = Some (margins_of t b)) as E.
  { unfold horizontal_margins, margins_of. rewrite Eb, Hdim. by destruct left_right_margin_mode. }
  assert (cursor_within_margins t = Some (within (margins_of t b) (column (cursor b)))) as Ew.
  { unfold cursor_within_margins. by rewrite E, Eb. }
  split_and!; [done| |done|].
  - destruct (horizontal_margins_ok d _ t Ht) as (m & Em & Hm). congruence.
  - unfold wrap_geometry, limit_at, home_at. rewrite Ew. cbn [mbind option_bind]. rewrite Hdim.
    destruct (within _ _); [by rewrite E|done].
Qed.

(** [index] on pages. *)
Lemma index_page t b :
  term_ok d any_anchor t -> active_buffer t = Some b ->
  exists t' b', index t = Some t' /\ term_ok d any_anchor t' /\ active_buffer t' = Some b' /\ pen t' = pen t /\
    region b' = region b /\ page_of b' = line_feed t b (page_of b).
Proof using L.
  intros Ht Eb. destruct (index_ok d any_anchor t Ht) as (t' & E & Ht' & _). exists t'.
  enough (exists b', active_buffer t' = Some b' /\ pen t' = pen t /\ region b' = region b /\
    page_of b' = line_feed t b (page_of b)) as (b' & ?) by (exists b'; tauto).
  destruct (active_ok d _ t Ht) as (b0 & Eb0 & Hb & _ & _ & Hdim & Hd). rewrite Eb in Eb0. injection Eb0 as <-.
  destruct (margins_of_spec _ t b Ht Eb) as (Em & [Hm1 Hm2] & Ew & _).
  assert (forall b', active_buffer (set_active b' t) = Some b') as Hset.
  { intros b'. apply set_active_active. by rewrite Eb. }
  unfold index in E. rewrite Em, Ew, Eb in E. cbn [mbind option_bind] in E.
  unfold line_feed. cbn [page_of pg_cursor pg_grid]. destruct (row (cursor b) =? scroll_bottom b).
  - destruct (within _ _); cbn [negb] in E; [|injection E as <-; by exists b].
    unfold scroll_region_up in E. rewrite Eb in E. cbn [mbind option_bind] in E.
    pose proof (bo_screen _ _ Hb) as (Hs & Hds & Hr). pose proof (bo_region _ _ Hb).
    destruct (keeps_scroll_up (RI := row_inv d Hd) (screen b) Hs ltac:(by rewrite Hds) Hr
      (scroll_top b) (scroll_bottom b) 1 (erase_cell t) (margins_of t b))
      as ((removed & s') & E1 & (_ & _ & G & _) & _); [rewrite ?Hds; (done || lia || (split; lia))..|].
    rewrite E1 in E. cbn [mbind option_bind] in E. cbn in G. rewrite Hds in G.
    exists (b <| screen := s' |>). assert (active_buffer t' = Some (b <| screen := s' |>) /\ pen t' = pen t) as [-> ->].
    { destruct (retain_history _ _); [|injection E as <-; by rewrite Hset, set_active_pen].
      destruct (push_rows _ _); [|done]. cbn in E. injection E as <-.
      split; [exact (Hset _)|exact (set_active_pen _ t)]. }
    unfold page_of. cbn. by rewrite G.
  - rewrite Hdim in E. pose proof (bo_cursor _ _ Hb) as [_ Hrow]. destruct (_ <? _) eqn:El; bools.
    + unfold upd_active, with_active in E. rewrite Eb in E. cbn [mbind option_bind] in E. injection E as <-.
      eexists. rewrite Hset, set_active_pen. split_and!; [done..|]. unfold page_of, set_cursor_row. cbn.
      rewrite Nat.min_l by lia. done.
    + injection E as <-. exists b. split_and!; [done..|]. unfold page_of. f_equal. destruct (cursor b). cbn in *. f_equal. lia.
Qed.

(** [wrap_to] on pages. *)
Lemma wrap_to_page t b :
  term_ok d any_anchor t -> active_buffer t = Some b ->
  exists t' b', wrap_to (home_at (margins_of t b) (column (cursor b))) t = Some t' /\ term_ok d any_anchor t' /\
    active_buffer t' = Some b' /\ pen t' = pen t /\ region b' = region b /\ page_of b' = next_line t b (page_of b).
Proof using L.
  intros Ht Eb. destruct (active_ok d _ t Ht) as (b0 & Eb0 & Hb & _ & _ & Hdim & Hd). rewrite Eb in Eb0. injection Eb0 as <-.
  destruct (wrap_geometry_ok d _ t Ht) as ([limit home] & Eg & _ & Hh).
  destruct (margins_of_spec _ t b Ht Eb) as (_ & _ & _ & Eg'). rewrite Eg in Eg'. injection Eg' as -> ->.
  set (home := home_at _ _) in *. pose proof (bo_screen _ _ Hb) as (Hs & Hds & Hr). pose proof (bo_cursor _ _ Hb) as [_ Hrow].
  destruct (sim_set_soft_wrapped true (row (cursor b)) (screen b)) as (s' & E' & _ & G); [done|by rewrite Hds|].
  set (b1 := (set_cursor_column home (b <| screen := s' |>)) <| pending_wrap := false |>).
  assert (with_active (fun b => s ← mark_soft_wrapped (row (cursor b)) (screen b);
         Some ((set_cursor_column home (b <| screen := s |>)) <| pending_wrap := false |>)) t = Some (set_active b1 t)) as E1.
  { unfold with_active. rewrite Eb. cbn [mbind option_bind]. unfold mark_soft_wrapped. by rewrite E'. }
  assert (term_ok d any_anchor (set_active b1 t)) as Ht1.
  { eapply set_active_ok; [done| |done]. destruct (keeps_screen_ok d (mark_soft_wrapped (row (cursor b)) (screen b)) (screen b))
      as (s2 & E2 & Hs2); [by split_and!|apply (keeps_set_soft_wrapped (RI := row_inv d Hd)); rewrite ?Hds; done|].
    unfold mark_soft_wrapped in E2. rewrite E' in E2. injection E2 as <-.
    apply (screen_write_ok d _ s') in Hb; [|done]. buffer_tac. }
  destruct (index_page (set_active b1 t) b1 Ht1) as (t' & b' & E2 & Ht2 & Eb2 & Hp & Hreg & Hpg).
  { apply set_active_active. by rewrite Eb. }
  exists t', b'. unfold wrap_to. rewrite E1. cbn [mbind option_bind]. rewrite set_active_pen in Hp.
  split_and!; try done. rewrite Hpg. destruct (pen_printed 0 0 _ _ (set_active_pen b1 t)) as (Hm & He & _).
  assert (page_of b1 = mkPage (mkCursor home (row (cursor b))) (on_row (row (cursor b)) (fun r => r <| r_soft := true |>)
    (grid_of (screen b)))) as -> by (unfold page_of; cbn; by rewrite G).
  unfold next_line, line_feed, margins_of. by rewrite Hm, He.
Qed.

Lemma spend_hyperlink_frame t :
  active_buffer (spend_hyperlink t) = active_buffer t /\ modes (spend_hyperlink t) = modes t.
Proof. unfold spend_hyperlink, active_buffer. by destruct (0 <? _). Qed.

(** What the buffer looks like once [x] has been put at [at_]. *)
Record placed (at_ : Cursor) (x : Cell) (limit : nat) (wrap : bool) (b' : BufferState) : Prop := mk_placed {
  placed_cell : cell (screen b') (column at_) (row at_) = Some x;
  placed_tail : width x = Double -> cell (screen b') (column at_ + 1) (row at_) = Some (continuation_of x);
  placed_anchor : grapheme_anchor b' = Some at_;
  placed_cursor :
    if limit <=? column at_ + width_columns (width x) then cursor b' = at_ /\ pending_wrap b' = wrap
    else cursor b' = mkCursor (column at_ + width_columns (width x)) (row at_) /\ pending_wrap b' = false
}.

(** The cells a cluster must not touch. *)
Definition untouched (at_ : Cursor) (x : Cell) (s s' : Screen) : Prop :=
  (forall k y, k < column at_ \/ column at_ + width_columns (width x) <= k ->
     cell s k (row at_) = Some y -> width y = Single -> cell s' k (row at_) = Some y) /\
  (forall k q, q <> row at_ -> cell s' k q = cell s k q).

Lemma put_cluster_placed at_ x limit wrap b :
  screen_ok d (screen b) -> row at_ < rows d -> width x <> Continuation ->
  column at_ + width_columns (width x) <= columns d ->
  exists b', put_cluster at_ x (Some at_) (width_columns (width x)) limit wrap b = Some b' /\
    placed at_ x limit wrap b' /\ untouched at_ x (screen b) (screen b') /\
    grid_of (screen b') = dirty_row (row at_) (on_row (row at_) (row_cluster (columns d) (column at_) x) (grid_of (screen b))).
Proof.
  intros (Hs & Hd & _) Hr Hw Hfit. unfold put_cluster.
  assert (0 < width_columns (width x)) as Hpos by (destruct (width x); [cbn; lia..|done]).
  destruct (replace_cluster_cells (column at_) (row at_) x (screen b) Hs) as (s' & E & _ & H1 & H2 & H3 & H4);
    [by rewrite Hd|done|by rewrite Hd|].
  destruct (sim_replace_cluster (column at_) (row at_) x (screen b) Hs) as (s2 & E2 & _ & G); [rewrite ?Hd; done || lia..|].
  rewrite E in E2. injection E2 as <-. rewrite Hd in G. rewrite E.
  cbn [mbind option_bind]. eexists. split; [done|]. unfold place_cursor_after_cluster.
  split; [|by split]. split; cbn; try done. destruct (limit <=? _); [|done]. split; [|done]. by destruct at_.
Qed.

Lemma printed_width ch w t : w = 1 \/ w = 2 ->
  width_columns (width (printed_cell ch w t)) = w /\ width (printed_cell ch w t) <> Continuation.
Proof. by intros [-> | ->]. Qed.

(** The gap insert mode opens at the cursor. *)
Lemma insert_opens w x limit t b :
  term_ok d any_anchor t -> active_buffer t = Some b ->
  w = width_columns (width x) ->
  exists t1 b1, (if insert_mode (modes t) then on_screen (Screen.insert_characters (column (terminal_cursor t))
      (row (terminal_cursor t)) w (erase_cell t) (mkSpan 0 (limit - 1))) t else Some t) = Some t1 /\
    active_buffer t1 = Some b1 /\ screen_ok d (screen b1) /\ terminal_cursor t1 = cursor b /\ pen t1 = pen t /\
    dirty_row (row (cursor b)) (on_row (row (cursor b)) (row_cluster (columns d) (column (cursor b)) x) (grid_of (screen b1)))
      = typed_grid (cursor b) x limit t (grid_of (screen b)) /\
    (insert_mode (modes t) = false -> t1 = t /\ b1 = b).
Proof using L.
  intros Ht Eb ->. destruct (active_ok d _ t Ht) as (b0 & Eb0 & Hb & _ & Ec & Hdim & Hd).
  rewrite Eb in Eb0. injection Eb0 as <-. unfold typed_grid.
  destruct (insert_mode (modes t)) eqn:Ei; [|exists t, b; split_and!; try done; apply Hb].
  destruct (on_screen_ok d any_anchor (Screen.insert_characters (column (terminal_cursor t))
    (row (terminal_cursor t)) (width_columns (width x)) (erase_cell t) (mkSpan 0 (limit - 1))) t Ht) as (t1 & E1 & Ht1 & Ec1 & Em1).
  { intros s (Hs & Hds & Hrows) _. apply (keeps_insert_characters (RI := row_inv d Hd)); rewrite ?Hds; try done.
    rewrite Ec. apply Hb. }
  destruct (active_ok d _ t1 Ht1) as (b1 & Eb1 & Hb1 & _). exists t1, b1. rewrite Ec in *.
  pose proof (bo_screen _ _ Hb) as (Hs & Hds & _). pose proof (bo_cursor _ _ Hb) as [Hcol Hrow].
  destruct (sim_insert_characters (column (cursor b)) (row (cursor b)) (width_columns (width x)) (erase_cell t)
    (mkSpan 0 (limit - 1)) (screen b) Hs) as (s' & E' & _ & G); [by rewrite Hds|].
  assert (t1 = set_active (b <| screen := s' |>) t) as ->.
  { unfold on_screen, with_active in E1. rewrite Eb in E1. cbn [mbind option_bind] in E1. rewrite E' in E1.
    by injection E1 as <-. }
  rewrite set_active_active in Eb1 by by rewrite Eb. injection Eb1 as <-.
  split_and!; try done; [apply set_active_active; by rewrite Eb|apply Hb1|apply set_active_pen|]. rewrite Hds in G. cbv zeta in *. cbn [right andb] in *.
  change (screen (set_screen s' b)) with s'. rewrite G. destruct (_ <? _) eqn:El, (column (cursor b) <=? _) eqn:El'; bools; (done || lia).
Qed.

Lemma print_at_cursor_placed ch w limit t b :
  term_ok d any_anchor t -> active_buffer t = Some b -> w = 1 \/ w = 2 -> column (cursor b) + w <= columns d ->
  exists t' b', print_at_cursor ch w limit t = Some t' /\ active_buffer t' = Some b' /\
    placed (cursor b) (printed_cell ch w t) limit (auto_wrap (modes t)) b' /\
    grid_of (screen b') = typed_grid (cursor b) (printed_cell ch w t) limit t (grid_of (screen b)) /\
    (insert_mode (modes t) = false -> untouched (cursor b) (printed_cell ch w t) (screen b) (screen b') /\
       t' = set_active b' (spend_hyperlink t)).
Proof using L.
  intros Ht Eb Hw Hfit. destruct (active_ok d _ t Ht) as (b0 & Eb0 & Hb & _).
  rewrite Eb in Eb0. injection Eb0 as <-. destruct (bo_cursor _ _ Hb) as [_ Hrow].
  destruct (printed_width ch w t Hw) as [Hpw Hpc].
  destruct (insert_opens w (printed_cell ch w t) limit t b Ht Eb (eq_sym Hpw)) as (t1 & b1 & E1 & Eb1 & Hs1 & Ec1 & Hp & Hg & Hsame).
  destruct (pen_printed ch w t t1 Hp) as (Em1 & _ & Hp1).
  unfold print_at_cursor. rewrite E1. cbn [mbind option_bind]. rewrite Ec1, Hp1, Em1.
  destruct (put_cluster_placed (cursor b) (printed_cell ch w t) limit (auto_wrap (modes t)) b1)
    as (b' & E' & Hpl & Hun & Hg'); [done..|by rewrite Hpw|]. rewrite Hpw in E'.
  destruct (spend_hyperlink_frame t1) as [Ea _].
  exists (set_active b' (spend_hyperlink t1)), b'. unfold with_active. rewrite Ea, Eb1. cbn [mbind option_bind].
  rewrite E'. split_and!; [done|by apply set_active_active; rewrite Ea, Eb1|done|by rewrite Hg', Hg|].
  intros Hi. destruct (Hsame Hi) as [-> ->]. done.
Qed.

(** The part of [print] before the cluster is put at the cursor. *)
Lemma print_unfold fuel ch t b :
  active_buffer t = Some b -> starts_cluster ch b = true -> 0 < default 0 (char_width ch) ->
  print_fuel (S fuel) ch t =
    let t := t <| last_graphic_character := Some ch |> in
    t ← (if pending_wrap b && auto_wrap (modes t) then '(_, home) ← wrap_geometry t; wrap_to home t else Some t);
    '(limit, home) ← wrap_geometry t;
    let width := Nat.min (default 0 (char_width ch)) 2 in
    if (width =? 2) && (column (terminal_cursor t) + 1 =? limit) then
      if auto_wrap (modes t) then t ← wrap_to home t; print_at_cursor ch width limit t
      else print_fuel fuel REPLACEMENT_CHARACTER t
    else print_at_cursor ch width limit t.
Proof.
  intros Eb Hs Hw. cbn [print_fuel]. rewrite (try_extend_fresh ch t b Eb Hs). cbn [mbind option_bind].
  rewrite (proj2 (Nat.eqb_neq (default 0 (char_width ch)) 0)) by lia.
  assert (active_buffer (t <| last_graphic_character := Some ch |>) = Some b) as -> by exact Eb. done.
Qed.

(** The wrap that is due, on pages. *)
Lemma due_wrap_page t b :
  term_ok d any_anchor t -> active_buffer t = Some b ->
  exists t' b', (if pending_wrap b && auto_wrap (modes t) then '(_, home) ← wrap_geometry t; wrap_to home t
      else Some t) = Some t' /\ term_ok d any_anchor t' /\ active_buffer t' = Some b' /\ pen t' = pen t /\
    region b' = region b /\ page_of b' = due_page t b /\ (auto_wrap (modes t) = false -> t' = t /\ b' = b).
Proof using L.
  intros Ht Eb. unfold due_page. destruct (pending_wrap b && auto_wrap (modes t)) eqn:Epw; [|by exists t, b; split_and!].
  destruct (margins_of_spec _ t b Ht Eb) as (_ & _ & _ & ->). cbn [mbind option_bind].
  destruct (wrap_to_page t b Ht Eb) as (t' & b' & ? & ? & ? & ? & ? & ?). exists t', b'.
  split_and!; try done. intros Ha. bools. congruence.
Qed.

(** What [print] leaves: the glyph is on its page. *)
Definition printed (ch : N) (w : nat) (t : Terminal) (b b' : BufferState) : Prop :=
  let x := let '(c, n) := print_glyph ch w t b in printed_cell c n t in
  let p := print_page w t b in
  placed (pg_cursor p) x (print_limit t b) (auto_wrap (modes t)) b' /\
  grid_of (screen b') = typed_grid (pg_cursor p) x (print_limit t b) t (pg_grid p).

Lemma print_at_page ch w limit t t0 b0 p :
  term_ok d any_anchor t0 -> active_buffer t0 = Some b0 -> w = 1 \/ w = 2 -> column (pg_cursor p) + w <= columns d ->
  pen t0 = pen t -> page_of b0 = p ->
  exists t' b', print_at_cursor ch w limit t0 = Some t' /\ active_buffer t' = Some b' /\
    placed (pg_cursor p) (printed_cell ch w t) limit (auto_wrap (modes t)) b' /\
    grid_of (screen b') = typed_grid (pg_cursor p) (printed_cell ch w t) limit t (pg_grid p).
Proof using L.
  intros Ht0 Eb0 Hw Hfit Hp <-. destruct (pen_printed ch w t t0 Hp) as (Hm & He & Hc).
  destruct (print_at_cursor_placed ch w limit t0 b0 Ht0 Eb0 Hw Hfit) as (t' & b' & ? & ? & Hpl & Hg & _).
  exists t', b'. unfold typed_grid in *. rewrite Hm, He, Hc in *. done.
Qed.

(** The theorem below, which the recovery file uses too. *)
Lemma print_placed ch w t b :
  sound t -> active_buffer t = Some b -> char_width ch = Some w -> 1 <= w ->
  starts_cluster ch b = true -> starts_cluster (print_glyph ch (Nat.min w 2) t b).1 b = true ->
  exists t' b', print ch t = Some t' /\ sound t' /\ active_buffer t' = Some b' /\ printed ch (Nat.min w 2) t b b'.
Proof using L.
  intros Ht Eb Ew Hw Hs Hs'. destruct (print_ok d ch t Ht) as (t' & E & Ht'). exists t'. rewrite E.
  enough (exists b', active_buffer t' = Some b' /\ printed ch (Nat.min w 2) t b b') as (b' & ?) by (exists b'; tauto).
  set (w2 := Nat.min w 2) in *. assert (w2 = 1 \/ w2 = 2) as Hw2 by (unfold w2; lia).
  set (t2 := t <| last_graphic_character := Some ch |>).
  assert (term_ok d any_anchor t2) as Ht2 by (apply registers_print_ok; by eapply term_ok_mono).
  unfold print in E. rewrite (print_unfold 1 ch t b Eb Hs) in E by (rewrite Ew; cbn; lia). cbv zeta in E. fold t2 in E.
  rewrite Ew in E. change (default 0 (Some w)) with w in E. fold w2 in E.
  destruct (due_wrap_page t2 b Ht2 Eb) as (t3 & b3 & E3 & Ht3 & Eb3 & Hp3 & Hr3 & Hpg3 & Hsame).
  change (due_page t2 b) with (due_page t b) in Hpg3. change (pen t2) with (pen t) in Hp3.
  rewrite E3 in E. cbn [mbind option_bind] in E. destruct (pen_printed ch w2 t t3 Hp3) as (Em3 & _).
  destruct (margins_of_spec _ t3 b3 Ht3 Eb3) as (_ & Hmok & _ & Eg). rewrite Eg in E. cbn [mbind option_bind] in E.
  destruct (active_ok d _ t3 Ht3) as (b3' & Eb3' & Hb3 & _ & Ec3 & _). rewrite Eb3 in Eb3'. injection Eb3' as <-.
  assert (margins_of t3 b3 = margins_of t b) as Em.
  { unfold margins_of. rewrite Em3. by injection Hr3 as _ _ -> ->. }
  assert (cursor b3 = pg_cursor (due_page t b)) as Ec by by rewrite <- Hpg3.
  assert (column (pg_cursor (due_page t b)) < print_limit t b <= columns d /\
    home_at (margins_of t b) (column (pg_cursor (due_page t b))) + 2 <= columns d) as [Hcol Hhome].
  { destruct (wrap_geometry_ok d _ t3 Ht3) as ([limit home] & Eg' & Hlim & Hh). rewrite Eg in Eg'.
    injection Eg' as <- <-. rewrite Ec3, Em, Ec in *. done. }
  rewrite Em, Ec3, Ec, Em3 in E. fold (print_limit t b) in E. fold (cut_off w2 t b) in E.
  unfold printed, print_page, print_glyph in *. destruct (cut_off w2 t b) eqn:Ecut; cbn [andb] in *.
  - unfold cut_off in Ecut. bools. destruct (auto_wrap (modes t)) eqn:Ea; cbn [negb] in *.
    + destruct (wrap_to_page t3 b3 Ht3 Eb3) as (t4 & b4 & E4 & Ht4 & Eb4 & Hp4 & _ & Hpg4).
      rewrite (next_line_kept t b t3 b3 _ Hp3 Hr3), Hpg3 in Hpg4. rewrite Em, Ec in E4. rewrite E4 in E. cbn [mbind option_bind] in E.
      assert (column (pg_cursor (next_line t b (due_page t b))) + w2 <= columns d) as Hfit by (rewrite next_line_column; lia).
      destruct (print_at_page ch w2 (print_limit t b) t t4 b4 _ Ht4 Eb4 Hw2 Hfit ltac:(congruence) Hpg4)
        as (t5 & b5 & E5 & Eb5 & H5). rewrite E in E5. injection E5 as <-. rewrite Ea in H5. by exists b5.
    + destruct (Hsame Ea) as [-> ->]. set (t6 := t2 <| last_graphic_character := Some REPLACEMENT_CHARACTER |>).
      assert (print_fuel 1 REPLACEMENT_CHARACTER t2 = print_at_cursor REPLACEMENT_CHARACTER 1 (print_limit t b) t6) as E6.
      { rewrite (print_unfold 0 REPLACEMENT_CHARACTER t2 b Eb Hs') by (rewrite law_replacement_width; cbn; lia).
        cbv zeta. fold t6. change (modes t6) with (modes t). rewrite Ea, andb_false_r. cbn [mbind option_bind].
        change (wrap_geometry t6) with (wrap_geometry t2). rewrite Eg. cbn [mbind option_bind].
        rewrite law_replacement_width. change (margins_of t2 b) with (margins_of t b). by rewrite Ec. }
      rewrite E6 in E. destruct (print_at_page REPLACEMENT_CHARACTER 1 (print_limit t b) t t6 b (due_page t b))
        as (t5 & b5 & E5 & Eb5 & H5); [by apply registers_print_ok|done|auto|lia|done|done|].
      rewrite E in E5. injection E5 as <-. rewrite Ea in H5. by exists b5.
  - destruct (print_at_page ch w2 (print_limit t b) t t3 b3 (due_page t b) Ht3 Eb3 Hw2) as (t5 & b5 & E5 & Eb5 & H5);
      [|done..|rewrite E in E5; injection E5 as <-; by exists b5].
    unfold cut_off in Ecut. apply andb_false_iff in Ecut as [Ee|Ee]; apply Nat.eqb_neq in Ee; lia.
Qed.

(** C38: printing a character puts it where it belongs, and changes nothing
    else.  For any character of non-zero width that does not join the cluster
    before it - in any modes, with or without margins or insert mode, at the
    edge or not - [print] returns, and the screen is exactly this.  A pending
    wrap is taken first: the row is marked as continued and the cursor goes to
    the home column of its line, one row down, or stays on the last row of the
    scrolling region, which moves up.  A wide character cut off by the right
    limit goes to the next line in the same way or, without auto-wrap, is
    replaced by U+FFFD.  The cell at that place holds the glyph in the current
    pen, with a continuation cell next to it if it is wide; in insert mode the
    rest of the line has moved right; every other row is that of the page
    ([typed_grid]).  The anchor names the cell, and the cursor is just past it,
    or on it with the wrap pending when the glyph reached the limit. *)
Theorem print_places_the_character ch w t b :
  sound t -> active_buffer t = Some b -> char_width ch = Some w -> 1 <= w ->
  starts_cluster ch b = true -> starts_cluster (print_glyph ch (Nat.min w 2) t b).1 b = true ->
  exists t' b', print ch t = Some t' /\ sound t' /\ active_buffer t' = Some b' /\ printed ch (Nat.min w 2) t b b'.
Proof using L. apply print_placed. Qed.

(** ** A line of text *)

(** Plain printable text, typed at rest, replacing what it overwrites, with no
    margins and no link open. *)
Record typing (t : Terminal) : Prop := mk_typing {
  ty_rest : at_rest t;
  ty_charset : (if shifted_to_g1 (parser t) then g1_charset (parser t) else g0_charset (parser t)) = Ascii;
  ty_insert : insert_mode (modes t) = false;
  ty_margins : left_right_margin_mode (modes t) = false;
  ty_link : current_hyperlink t = None
}.

Lemma full_wrap_geometry A t : term_ok d A t -> left_right_margin_mode (modes t) = false ->
  wrap_geometry t = Some (columns d, 0).
Proof.
  intros Ht Hm. destruct (active_ok d _ t Ht) as (b & Eb & Hb & _ & _ & Hdim & (Hc & _)).
  unfold wrap_geometry, cursor_within_margins, horizontal_margins. rewrite Hm, Eb, Hdim. cbn [mbind option_bind].
  unfold within, ColumnSpan_full. cbn [left right]. destruct (bo_cursor _ _ Hb) as [Hcol _].
  rewrite (proj2 (Nat.leb_le 0 _)), (proj2 (Nat.leb_le _ (columns d - 1))) by lia. cbn [andb mbind option_bind].
  do 2 f_equal. lia.
Qed.

Lemma spend_without_link t : current_hyperlink t = None ->
  current_hyperlink (spend_hyperlink t) = None /\ parser (spend_hyperlink t) = parser t /\
  utf8 (spend_hyperlink t) = utf8 t /\ forall ch w, printed_cell ch w (spend_hyperlink t) = printed_cell ch w t.
Proof.
  intros H. unfold spend_hyperlink. destruct (0 <? _); [|done]. cbn. unfold printed_cell. cbn. rewrite H.
  by destruct (_ =? 0).
Qed.

Lemma set_active_frame b t :
  parser (set_active b t) = parser t /\ utf8 (set_active b t) = utf8 t /\
  current_hyperlink (set_active b t) = current_hyperlink t /\ modes (set_active b t) = modes t.
Proof. unfold set_active. by destruct active_screen. Qed.

Lemma advance_printable p ch : state p = Ground -> in_range 32 126 ch = true ->
  (if shifted_to_g1 p then g1_charset p else g0_charset p) = Ascii -> advance p ch = Some (Print ch, p).
Proof.
  intros Hg Hch Hcs. assert (c0_operation ch = None) as Hc0.
  { unfold in_range in Hch. unfold c0_operation. bools. apply N.leb_le in H, H0.
    unfold switch. cbn. repeat (rewrite (proj2 (N.eqb_neq ch _)) by lia). done. }
  unfold advance. rewrite Hg, Hc0, Hch. unfold translate_printable. rewrite Hcs.
  unfold in_range in Hch. bools. apply N.leb_le in H, H0.
  by repeat (rewrite (proj2 (N.eqb_neq ch _)) by lia).
Qed.

Lemma type_byte ch t b :
  sound t -> typing t -> active_buffer t = Some b -> pending_wrap b = false ->
  in_range 32 126 ch = true -> char_width ch = Some 1 -> column (cursor b) + 1 < columns d ->
  exists t' b', ingest_byte ch t = Some t' /\ sound t' /\ typing t' /\ active_buffer t' = Some b' /\
    placed (cursor b) (printed_cell ch 1 t) (columns d) (auto_wrap (modes t)) b' /\
    untouched (cursor b) (printed_cell ch 1 t) (screen b) (screen b') /\
    (forall ch' w, printed_cell ch' w t' = printed_cell ch' w t).
Proof using L.
  intros Ht Hty Eb Hpw Hch Hw Hfit.
  set (t2 := t <| last_graphic_character := Some ch |>).
  assert (term_ok d any_anchor t2) as Ht2 by (apply registers_print_ok; by eapply term_ok_mono).
  destruct (print_ok d ch t Ht) as (t' & E & Ht').
  destruct (print_at_cursor_placed ch 1 (columns d) t2 b Ht2 Eb ltac:(auto) ltac:(lia)) as (t5 & b' & E5 & Eb5 & Hpl & _ & Hun).
  destruct (Hun (ty_insert _ Hty)) as [Hun' Et5]. change (printed_cell ch 1 t2) with (printed_cell ch 1 t) in Hpl, Hun'.
  assert (t5 = t') as ->.
  { enough (print ch t = Some t5) by congruence. unfold print.
    rewrite (print_unfold 1 ch t b Eb) by (rewrite ?Hw; (apply ascii_starts_cluster; unfold in_range in Hch; unfold is_ascii;
      bools; apply N.leb_le in H, H0; apply N.ltb_lt; lia) || (cbn; lia)).
    cbv zeta. rewrite Hpw. cbn [andb mbind option_bind]. fold t2.
    rewrite (full_wrap_geometry _ t2 Ht2 (ty_margins _ Hty)). rewrite Hw. exact E5. }
  exists t', b'. destruct (spend_without_link t2 (ty_link _ Hty)) as (S1 & S2 & S3 & S4).
  destruct (set_active_frame b' (spend_hyperlink t2)) as (F1 & F2 & F3 & F4).
  destruct (spend_hyperlink_frame t2) as [_ S5]. rewrite <- Et5 in F1, F2, F3, F4. rewrite S2 in F1. rewrite S3 in F2. rewrite S1 in F3. rewrite S5 in F4.
  destruct (ty_rest _ Hty) as (R1 & R2 & R3 & R4).
  split_and!; try done.
  - apply (ingest_byte_op ch t (Print ch) (parser t)); try done.
    + unfold in_range in Hch. bools. apply N.leb_le in H0. lia.
    + apply advance_printable; [done..|apply Hty].
    + assert (t <| parser := parser t |> = t) as -> by by destruct t. exact E.
    + by rewrite F1.
    + by rewrite F1.
  - split; rewrite ?F1, ?F3, ?F4; try done; try apply Hty. unfold at_rest. rewrite F1, F2. done.
  - intros ch' w. rewrite Et5, set_active_printed. apply S4.
Qed.

(** The theorem below with what a further character needs. *)
Lemma type_text s t b :
  (forall c, in_range 32 126 c = true -> char_width c = Some 1) ->
  sound t -> typing t -> active_buffer t = Some b -> pending_wrap b = false ->
  Forall (fun c => in_range 32 126 c = true) s -> column (cursor b) + length s < columns d ->
  exists t' b', ingest s t = Some t' /\ sound t' /\ typing t' /\ active_buffer t' = Some b' /\
    pending_wrap b' = false /\ (forall ch w, printed_cell ch w t' = printed_cell ch w t) /\
    cursor b' = mkCursor (column (cursor b) + length s) (row (cursor b)) /\
    (forall i ch, s !! i = Some ch ->
       cell (screen b') (column (cursor b) + i) (row (cursor b)) = Some (printed_cell ch 1 t)) /\
    (forall k q, q <> row (cursor b) -> cell (screen b') k q = cell (screen b) k q).
Proof using L.
  intros Hascii Ht Hty Eb Hpw. induction s as [|ch s IH] using rev_ind; intros Hs Hfit.
  { exists t, b. split_and!; try done. cbn. rewrite Nat.add_0_r. by destruct (cursor b). }
  apply Forall_app in Hs as [Hs Hch]. apply Forall_cons_iff in Hch as [Hch _]. rewrite length_app in Hfit. cbn in Hfit.
  destruct IH as (t1 & b1 & E1 & Ht1 & Hty1 & Eb1 & Hpw1 & Hp1 & Hc1 & Hcells & Hrows); [done|lia|].
  destruct (type_byte ch t1 b1 Ht1 Hty1 Eb1 Hpw1 Hch (Hascii _ Hch)) as
    (t2 & b2 & E2 & Ht2 & Hty2 & Eb2 & Hpl & [Hun1 Hun2] & Hp2); [rewrite Hc1; cbn; lia|].
  rewrite Hc1 in Hpl, Hun1, Hun2. cbn [column row] in *. rewrite Hp1 in Hpl, Hun1. cbn in Hun1.
  destruct Hpl as [P1 _ _ P4]. cbn in P1, P4. rewrite (proj2 (Nat.leb_gt _ _)) in P4 by lia. destruct P4 as [P4 P5].
  exists t2, b2. split_and!; try done.
  - unfold ingest. rewrite for_each_app. unfold ingest in E1. rewrite E1. cbn. by rewrite E2.
  - intros c w. by rewrite Hp2, Hp1.
  - rewrite P4, length_app. cbn. f_equal. lia.
  - intros i c Hi. apply lookup_app_Some in Hi as [Hi|[Hle Hi]].
    + apply Hun1; [left; apply lookup_lt_Some in Hi; lia|by apply Hcells|done].
    + apply list_lookup_singleton_Some in Hi as [Hi <-]. replace i with (length s) by lia. exact P1.
  - intros k q Hq. by rewrite Hun2, Hrows.
Qed.

(** Text that fits on the line appears on it.  In any terminal at rest,
    printable ASCII sent to it is, character for character, what the cells from
    the cursor on hold afterwards, in the pen it was sent with, whatever was
    there before (halves of wide characters included); the cursor is just past
    it and every other row is as it was. *)
Theorem typed_text_appears s t b :
  (forall c, in_range 32 126 c = true -> char_width c = Some 1) ->
  sound t -> typing t -> active_buffer t = Some b -> pending_wrap b = false ->
  Forall (fun c => in_range 32 126 c = true) s -> column (cursor b) + length s < columns d ->
  exists t' b', ingest s t = Some t' /\ sound t' /\ active_buffer t' = Some b' /\
    cursor b' = mkCursor (column (cursor b) + length s) (row (cursor b)) /\
    (forall i ch, s !! i = Some ch ->
       cell (screen b') (column (cursor b) + i) (row (cursor b)) = Some (printed_cell ch 1 t)) /\
    (forall k q, q <> row (cursor b) -> cell (screen b') k q = cell (screen b) k q).
Proof using L.
  intros Hascii Ht Hty Eb Hpw Hs Hfit.
  destruct (type_text s t b Hascii Ht Hty Eb Hpw Hs Hfit) as (t' & b' & ? & ? & _ & ? & _ & _ & ? & ? & ?).
  by exists t', b'.
Qed.
End Print.

(** The 3x2 terminal with its cursor in the last column of the first row. *)
Lemma sample_terminal_sound :
  term_ok (P := sample_platform) (mkDimensions 3 2 6) (anchor_ok (mkDimensions 3 2 6)) sample_terminal.
Proof. apply (with_scrollback_limit_ok (P := sample_platform) _ 1000); [unfold dims_ok; vm_compute; lia|reflexivity]. Qed.

Definition sample_edge : Terminal :=
  default sample_terminal (ingest (P := sample_platform) (ESC :: bytes "[1;3H") sample_terminal).

Lemma sample_edge_sound :
  term_ok (P := sample_platform) (mkDimensions 3 2 6) (anchor_ok (mkDimensions 3 2 6)) sample_edge.
Proof.
  destruct (ingest_ok (P := sample_platform) _ (ESC :: bytes "[1;3H") sample_terminal sample_terminal_sound) as (t & E & Ht).
  unfold sample_edge. rewrite E. exact Ht.
Qed.

Lemma print_places_the_character_witness :
  exists b t' b', active_buffer sample_edge = Some b /\
    print (P := sample_platform) 12354 sample_edge = Some t' /\
    term_ok (P := sample_platform) (mkDimensions 3 2 6) (anchor_ok (mkDimensions 3 2 6)) t' /\ active_buffer t' = Some b' /\
    pg_cursor (print_page (P := sample_platform) (mkDimensions 3 2 6) 2 sample_edge b) = mkCursor 0 1 /\
    printed (P := sample_platform) (mkDimensions 3 2 6) 12354 2 sample_edge b b'.
Proof.
  destruct (active_ok _ _ _ sample_edge_sound) as (b & Eb & _).
  destruct (print_places_the_character (P := sample_platform) (mkDimensions 3 2 6) 12354 2 sample_edge b)
    as (t' & b' & H1 & H2 & H3 & H4).
  - exact sample_edge_sound.
  - exact Eb.
  - reflexivity.
  - lia.
  - vm_compute in Eb. injection Eb as <-. reflexivity.
  - vm_compute in Eb. injection Eb as <-. reflexivity.
  - exists b, t', b'. split; [exact Eb|]. split; [exact H1|]. split; [exact H2|]. split; [exact H3|]. split; [|exact H4].
    clear H1 H2 H3 H4. vm_compute in Eb. injection Eb as <-. vm_compute. reflexivity.
Defined.

Lemma typed_text_appears_witness :
  exists b t' b', active_buffer sample_terminal = Some b /\
    ingest (P := sample_platform) (bytes "Hi") sample_terminal = Some t' /\ active_buffer t' = Some b' /\
    cursor b' = mkCursor (column (cursor b) + 2) (row (cursor b)) /\
    cell (screen b') (column (cursor b) + 1) (row (cursor b)) =
      Some (printed_cell (P := sample_platform) 105 1 sample_terminal).
Proof.
  destruct (active_ok _ _ _ sample_terminal_sound) as (b & Eb & _).
  destruct (typed_text_appears (P := sample_platform) (mkDimensions 3 2 6) (bytes "Hi") sample_terminal b)
    as (t' & b' & H1 & _ & H3 & H4 & H5 & _).
  - intros c Hc. unfold in_range in Hc. apply andb_prop in Hc as [Ha Hb]. apply N.leb_le in Ha, Hb.
    change (sample_char_width c = Some 1). unfold sample_char_width, in_range.
    rewrite (proj2 (N.ltb_ge c 32)), (proj2 (N.leb_gt 127 c)), (proj2 (N.leb_gt 768 c)), (proj2 (N.eqb_neq c 65039)),
      (proj2 (N.leb_gt 4352 c)), (proj2 (N.leb_gt 11904 c)) by lia. reflexivity.
  - exact sample_terminal_sound.
  - split; reflexivity || (repeat split).
  - exact Eb.
  - vm_compute in Eb. injection Eb as <-. reflexivity.
  - repeat constructor.
  - vm_compute in Eb. injection Eb as <-. vm_compute. lia.
  - exists b, t', b'. split; [exact Eb|]. split; [exact H1|]. split; [exact H3|]. split; [exact H4|].
    exact (H5 1 105%N eq_refl).
Defined.
