(* ===== verification/SnapshotSpec.v ===== *)
(** * What a text snapshot holds, and when it is refused

    The snapshot is compared with a reference that knows nothing of the
    accumulator: the list of pieces (the text of a cell, or a line break) that
    the retained lines and the visible rows contribute. *)

From Stdlib Require Import NArith Bool.
From S2P Require Import Prelude Cell Utf8 Hyperlink Parser Screen ScreenGrid ScreenOps ScreenInv ScreenBuild History Input Buffer Terminal TerminalOps TerminalInv TerminalPrint TerminalSafe TerminalResize Snapshot TerminalReports TerminalText.

(** ** The reference *)
Inductive Piece := Piece_text (t : list N) | Piece_break.

#[export] Instance Piece_eq_dec : EqDecision Piece.
Proof. solve_decision. Defined.

Definition piece_text (p : Piece) : list N := match p with Piece_text t => t | Piece_break => [10%N] end.
Definition pieces_text (ps : list Piece) : list N := flat_map piece_text ps.

(** The cells that show something: no continuations, no empty text. *)
Definition shown (c : Cell) : list Piece :=
  if is_continuation c then [] else match text c with [] => [] | t => [Piece_text t] end.
Definition cells_pieces (cs : list Cell) : list Piece := flat_map shown cs.

Definition history_pieces (ls : list LogicalLine) : list Piece :=
  flat_map (fun l => cells_pieces (line_cells l) ++ if hard_break l then [Piece_break] else []) ls.

(** Rows are separated by a break unless the earlier one is soft wrapped. *)
Fixpoint rows_pieces (rs : list ScreenRow) : list Piece :=
  match rs with
  | [] => []
  | r :: rs' =>
      cells_pieces (row_cells r) ++
      match rs' with [] => [] | _ => (if soft_wrapped r then [] else [Piece_break]) ++ rows_pieces rs' end
  end.

(** The history is closed by a break before the alternate screen. *)
Definition ends_open (ps : list Piece) : bool :=
  match list.last ps with Some (Piece_text _) => true | _ => false end.

Definition exported_buffer (t : Terminal) : option BufferState :=
  if alternate_screen (modes t) then active_buffer t else Some (primary t).

Definition snapshot_pieces (t : Terminal) : option (list Piece) :=
  let history := history_pieces (lines (scrollback t)) in
  b ← exported_buffer t;
  n ← visible_content_rows (screen b) (row (cursor b));
  rs ← to_rows (screen b);
  Some (history ++ (if alternate_screen (modes t) && ends_open history then [Piece_break] else [])
          ++ rows_pieces (take n rs)).

(** The lines of the pieces, the current one first. *)
Definition layout_step (ls : list (list N)) (p : Piece) : list (list N) :=
  match p with
  | Piece_text t => match ls with l :: ls' => (l ++ t) :: ls' | [] => [t] end
  | Piece_break => [] :: ls
  end.
Definition layout (ps : list Piece) : list (list N) := foldl layout_step [[]] ps.

(** The lines an editor counts: an empty last line is not one, but there is
    always one. *)
Definition line_total (ps : list Piece) : N :=
  N.of_nat (match layout ps with [] :: ((_ :: _) as earlier) => length earlier | ls => length ls end).

(** The limits in force; without bounds they are those of [usize]. *)
Definition limits_of (b : option SnapshotBounds) : SnapshotBounds :=
  default (mkBounds usize_max usize_max usize_max) b.

(** The first line is never compared with the limit of lines, so a limit of
    zero is one of one. *)
Definition fits (L : SnapshotBounds) (ps : list Piece) : Prop :=
  (text_len (pieces_text ps) <= max_bytes L)%N /\ (line_total ps <= N.max 1 (max_lines L))%N /\
  Forall (fun l => (text_len l <= max_line_bytes L)%N) (layout ps).

(** The limit a refusal names is exceeded by the pieces. *)
Definition justifies (L : SnapshotBounds) (ps : list Piece) (r : TerminalTextSnapshotRefusal) : Prop :=
  match r with
  | SnapshotTooLarge _ limit => limit = max_bytes L /\ (limit < text_len (pieces_text ps))%N
  | SnapshotTooManyLines _ limit => limit = max_lines L /\ (N.max 1 limit < line_total ps)%N
  | SnapshotLineTooLong line limit =>
      limit = max_line_bytes L /\
      exists l, reverse (layout ps) !! (N.to_nat line - 1) = Some l /\ (limit < text_len l)%N
  end.

(** ** Facts about the reference *)
Lemma pieces_text_app ps qs : pieces_text (ps ++ qs) = pieces_text ps ++ pieces_text qs.
Proof. apply flat_map_app. Qed.

Lemma layout_snoc ps p : layout (ps ++ [p]) = layout_step (layout ps) p.
Proof. apply foldl_snoc. Qed.

Lemma layout_nonempty ps : layout ps <> [].
Proof. induction ps as [|p ps _] using rev_ind; [done|]. rewrite layout_snoc. destruct p, (layout ps); done. Qed.

(** Later pieces only extend the lines already there. *)
Lemma layout_extends ps qs i l :
  reverse (layout ps) !! i = Some l ->
  exists l', reverse (layout (ps ++ qs)) !! i = Some l' /\ (text_len l <= text_len l')%N.
Proof.
  revert l. induction qs as [|q qs IH] using rev_ind; intros l Hl.
  { rewrite app_nil_r. exists l. split; [done|lia]. }
  destruct (IH l Hl) as (l1 & H1 & Hle). rewrite app_assoc, layout_snoc.
  destruct q as [t|]; cbn [layout_step].
  - pose proof (layout_nonempty (ps ++ qs)) as Hne. destruct (layout (ps ++ qs)) as [|c ls]; [done|].
    rewrite reverse_cons in *. destruct (decide (i < length (reverse ls))) as [Hi|Hi].
    + rewrite lookup_app_l in H1 |- * by done. by exists l1.
    + rewrite lookup_app_r in H1 |- * by lia. destruct (i - length (reverse ls)) as [|k]; [|done].
      injection H1 as ->. exists (l1 ++ t). split; [done|]. rewrite text_len_app. lia.
  - exists l1. split; [|done]. rewrite reverse_cons. by apply lookup_app_l_Some.
Qed.

Lemma line_total_snoc ps p :
  (forall t, p = Piece_text t -> t <> []) ->
  line_total (ps ++ [p]) = N.of_nat (length (layout ps)) /\ (line_total ps <= N.of_nat (length (layout ps)))%N.
Proof.
  intros Hp. unfold line_total. rewrite layout_snoc. pose proof (layout_nonempty ps).
  destruct (layout ps) as [|c ls]; [done|]. destruct p as [t|]; cbn [layout_step].
  - assert (c ++ t <> []) by (intros [_ E]%app_nil; by apply (Hp t)).
    split; [destruct (c ++ t), ls; done|]. destruct c, ls; cbn [length]; lia.
  - split; [cbn [length]; lia|]. destruct c, ls; cbn [length]; lia.
Qed.

(** A text continues the last line or, after a break, starts one. *)
Lemma line_total_break ps : list.last ps = Some Piece_break -> N.of_nat (length (layout ps)) = (line_total ps + 1)%N.
Proof.
  intros [qs ->]%last_Some. unfold line_total. rewrite layout_snoc. cbn [layout_step].
  pose proof (layout_nonempty qs). destruct (layout qs); [done|]. cbn [length]. lia.
Qed.

Definition solid (ps : list Piece) : Prop := Forall (fun p => p <> Piece_text []) ps.

Lemma line_total_open ps : solid ps -> list.last ps <> Some Piece_break -> N.of_nat (length (layout ps)) = line_total ps.
Proof.
  intros Hs. destruct ps as [|p ps _] using rev_ind; [done|]. rewrite last_snoc. intros Hp.
  unfold line_total. rewrite layout_snoc. apply Forall_app in Hs as [_ Hs]. rewrite Forall_singleton in Hs.
  destruct p as [t|]; [|done]. cbn [layout_step]. pose proof (layout_nonempty ps). destruct (layout ps) as [|c ls]; [done|].
  assert (c ++ t <> []) by (intros [_ ->]%app_nil; by apply Hs). by destruct (c ++ t), ls.
Qed.

Lemma line_total_pos ps : (1 <= line_total ps)%N.
Proof.
  unfold line_total. pose proof (layout_nonempty ps). destruct (layout ps) as [|[|] [|]]; cbn [length]; done || lia.
Qed.

Lemma justifies_mono L ps qs r : solid qs -> justifies L ps r -> justifies L (ps ++ qs) r.
Proof.
  intros Hq. destruct r as [b l|n l|i l]; cbn; intros [-> H]; (split; [done|]).
  - rewrite pieces_text_app, text_len_app. lia.
  - enough (line_total ps <= line_total (ps ++ qs))%N by lia. clear -Hq.
    induction qs as [|q qs IH] using rev_ind; [rewrite app_nil_r; lia|].
    apply Forall_app in Hq as [Hq Hq1]. rewrite Forall_singleton in Hq1. specialize (IH Hq). rewrite app_assoc.
    destruct (line_total_snoc (ps ++ qs) q) as [-> ?]; [by intros t -> ->|]. lia.
  - destruct H as (x & Hx & Hlt). destruct (layout_extends ps qs _ _ Hx) as (y & Hy & Hle). exists y. split; [done|]. lia.
Qed.

Lemma justifies_not_fits L ps r : justifies L ps r -> ~ fits L ps.
Proof.
  intros H (H1 & H2 & H3). destruct r; cbn in H; destruct H as [-> H]; try lia.
  destruct H as (l & Hl & Hlt). apply list_elem_of_lookup_2 in Hl. rewrite elem_of_reverse in Hl.
  rewrite list.Forall_forall in H3. specialize (H3 l Hl). cbn in H3. lia.
Qed.

(** ** The accumulator follows the reference *)
Record tracks (ps : list Piece) (a : SnapshotAccumulator) : Prop := mk_tracks {
  tr_solid : solid ps;
  tr_text : acc_text a = pieces_text ps;
  tr_bytes : acc_bytes a = text_len (pieces_text ps);
  tr_lines : acc_lines a = line_total ps;
  tr_current : current_line_bytes a = text_len (hd [] (layout ps));
  tr_trailing : trailing_newline a = bool_decide (list.last ps = Some Piece_break);
  tr_bounds : forall b, bounds a = Some b ->
    (max_bytes b <= usize_max)%N /\ (max_lines b <= usize_max)%N /\ (max_line_bytes b <= usize_max)%N
}.

(** A computation that ends in [ps], or is refused for a reason [ps] has. *)
Definition reaches (L : option SnapshotBounds) (ps : list Piece)
    (m : TerminalTextSnapshotRefusal + SnapshotAccumulator) : Prop :=
  match m with
  | inr a => tracks ps a /\ bounds a = L /\ fits (limits_of L) ps
  | inl r => justifies (limits_of L) ps r
  end.

Lemma reaches_bind L ps qs m f :
  solid qs -> reaches L ps m ->
  (forall a, tracks ps a -> bounds a = L -> fits (limits_of L) ps -> reaches L (ps ++ qs) (f a)) ->
  reaches L (ps ++ qs) (m ≫= f).
Proof.
  intros Hq Hm Hf. destruct m as [r|a]; cbn in *.
  - by apply justifies_mono.
  - destruct Hm as (? & ? & ?). by apply Hf.
Qed.

(** The shape of the source's three checks: past the limit in force they
    refuse, with the limit in the refusal. *)
Class Limit (field : SnapshotBounds -> N) : Prop :=
  limit_unbounded : field (mkBounds usize_max usize_max usize_max) = usize_max.
#[export] Instance max_bytes_limit : Limit max_bytes := eq_refl.
#[export] Instance max_lines_limit : Limit max_lines := eq_refl.
#[export] Instance max_line_bytes_limit : Limit max_line_bytes := eq_refl.

Lemma bound_in_force field `{!Limit field} a : bound_or_max field a = field (limits_of (bounds a)).
Proof. unfold bound_or_max, limits_of. destruct (bounds a); cbn; [done|]. symmetry. apply limit_unbounded. Qed.

Lemma check_cases {B} field `{!Limit field} (a : SnapshotAccumulator) x y e1 e2 (k : N -> TerminalTextSnapshotRefusal + B) :
  (field (limits_of (bounds a)) <= usize_max)%N ->
  let m := match checked_add usize_max x y with
           | None => inl e1
           | Some n => if exceeds field n a then inl (e2 n) else k n
           end in
  ((x + y <= field (limits_of (bounds a)))%N /\ m = k (x + y)%N) \/
  ((field (limits_of (bounds a)) < x + y)%N /\ (m = inl e1 \/ m = inl (e2 (x + y)%N))).
Proof.
  intros Hle m. pose proof (limit_unbounded (field := field)) as Hmax. unfold m, checked_add, exceeds, limits_of in *. clear m.
  destruct (N.leb_spec (x + y) usize_max) as [H|H].
  - destruct (bounds a) as [b|]; cbn in *; [|left; split; [lia|done]].
    destruct (N.ltb_spec (field b) (x + y)); [right|left]; auto.
  - right. split; [|by left]. destruct (bounds a); cbn in *; lia.
Qed.

Lemma limits_machine ps a :
  tracks ps a -> (max_bytes (limits_of (bounds a)) <= usize_max)%N /\ (max_lines (limits_of (bounds a)) <= usize_max)%N /\
    (max_line_bytes (limits_of (bounds a)) <= usize_max)%N.
Proof.
  intros H. pose proof (tr_bounds _ _ H) as Hb. unfold limits_of. destruct (bounds a) as [b|]; cbn.
  - by apply Hb.
  - unfold usize_max. lia.
Qed.

(** [reserve_bytes] and [start_line] in front of the piece [p]. *)
Lemma reserve_spec ps a a1 p :
  tracks ps a -> acc_bytes a1 = acc_bytes a -> bounds a1 = bounds a ->
  (reserve_bytes (text_len (piece_text p)) a1 = inr (a1 <| acc_bytes := text_len (pieces_text (ps ++ [p])) |>) /\
     (text_len (pieces_text (ps ++ [p])) <= max_bytes (limits_of (bounds a)))%N) \/
  (exists r, reserve_bytes (text_len (piece_text p)) a1 = inl r /\ justifies (limits_of (bounds a)) (ps ++ [p]) r).
Proof.
  intros H Hb Hbs. destruct (limits_machine _ _ H) as (Hm & _ & _).
  assert (text_len (pieces_text (ps ++ [p])) = acc_bytes a1 + text_len (piece_text p))%N as E.
  { rewrite Hb, (tr_bytes _ _ H), pieces_text_app, text_len_app. cbn. by rewrite app_nil_r. }
  unfold reserve_bytes. rewrite <- Hbs in *.
  destruct (check_cases max_bytes a1 (acc_bytes a1) (text_len (piece_text p)) (SnapshotTooLarge usize_max (bound_or_max max_bytes a1))
    (fun n => SnapshotTooLarge n (bound_or_max max_bytes a1)) (fun n => inr (a1 <| acc_bytes := n |>))) as [[Hle Hk]|[Hlt Hk]]; [done| |].
  - left. rewrite Hk, E. done.
  - right. destruct Hk as [Hk|Hk]; rewrite Hk; (eexists; split; [done|]; cbn; rewrite (bound_in_force max_bytes); split; [done|lia]).
Qed.

Definition line_started (p : Piece) (ps : list Piece) (a : SnapshotAccumulator) : SnapshotAccumulator :=
  a <| trailing_newline := false |> <| acc_lines := line_total (ps ++ [p]) |>.

Lemma start_spec ps a p :
  tracks ps a -> p <> Piece_text [] -> fits (limits_of (bounds a)) ps ->
  let m := if trailing_newline a then start_line a else inr a in
  (m = inr (line_started p ps a) /\ (line_total (ps ++ [p]) <= N.max 1 (max_lines (limits_of (bounds a))))%N) \/
  (exists r, m = inl r /\ justifies (limits_of (bounds a)) (ps ++ [p]) r).
Proof.
  intros H Hp (_ & Hfit & _). destruct (limits_machine _ _ H) as (_ & Hm & _). pose proof (tr_trailing _ _ H) as Ht.
  destruct (line_total_snoc ps p) as [Hs _]; [by intros t -> ->|]. pose proof (line_total_pos ps). cbn zeta.
  destruct (trailing_newline a) eqn:Et.
  - symmetry in Ht. apply bool_decide_eq_true in Ht. pose proof (line_total_break ps Ht) as Hb. unfold start_line.
    set (a0 := a <| trailing_newline := false |>).
    destruct (check_cases max_lines a0 (acc_lines a0) 1 (SnapshotTooManyLines usize_max (bound_or_max max_lines a0))
      (fun n => SnapshotTooManyLines n (bound_or_max max_lines a0)) (fun n => inr (a0 <| acc_lines := n |>)))
      as [[Hle Hk]|[Hlt Hk]]; [done| |]; change (acc_lines a0) with (acc_lines a) in *;
      change (bounds a0) with (bounds a) in *; rewrite (tr_lines _ _ H) in *.
    + left. rewrite Hk. split; [|lia]. unfold line_started. by rewrite Hs, Hb.
    + right. destruct Hk as [Hk|Hk]; rewrite Hk; (eexists; split; [done|]; cbn [justifies];
        rewrite (bound_in_force max_lines); change (bounds a0) with (bounds a); split; [done|]; lia).
  - left. symmetry in Ht. apply bool_decide_eq_false in Ht. pose proof (line_total_open ps (tr_solid _ _ H) Ht) as Hb.
    split; [|rewrite Hs, Hb; lia]. unfold line_started. rewrite Hs, Hb, <- (tr_lines _ _ H), <- Et. by destruct a.
Qed.

Lemma layout_text ps t :
  layout (ps ++ [Piece_text t]) = (hd [] (layout ps) ++ t) :: tl (layout ps).
Proof. rewrite layout_snoc. pose proof (layout_nonempty ps). by destruct (layout ps). Qed.

Lemma solid_snoc ps p : solid ps -> p <> Piece_text [] -> solid (ps ++ [p]).
Proof. intros. apply Forall_app. split; [done|]. by apply Forall_singleton. Qed.

Lemma push_cell_text_reaches ps a t :
  tracks ps a -> t <> [] -> fits (limits_of (bounds a)) ps ->
  reaches (bounds a) (ps ++ [Piece_text t]) (push_cell_text t a).
Proof.
  intros H Ht Hfit. assert (Piece_text t <> Piece_text []) as Hp by congruence.
  destruct (limits_machine _ _ H) as (_ & _ & Hm). unfold push_cell_text.
  destruct t as [|ch t0]; [done|]. set (t := ch :: t0) in *. set (p := Piece_text t) in *.
  destruct (start_spec ps a p H Hp Hfit) as [[Hs Hlines]|(r & Hs & Hr)]; cbn zeta in Hs; rewrite Hs; cbn [mbind sum_bind]; [|exact Hr].
  set (a1 := line_started p ps a). change (current_line_bytes a1) with (current_line_bytes a).
  assert (hd [] (layout (ps ++ [p])) = hd [] (layout ps) ++ t) as Ehd by (unfold p; by rewrite layout_text).
  assert (text_len (hd [] (layout (ps ++ [p]))) = current_line_bytes a + text_len t)%N as Ec.
  { rewrite Ehd, text_len_app, (tr_current _ _ H). done. }
  set (e := SnapshotLineTooLong (acc_lines a1) (bound_or_max max_line_bytes a1)).
  destruct (check_cases max_line_bytes a1 (current_line_bytes a) (text_len t) e (fun _ => e)
    (fun n => a ← reserve_bytes (text_len t) a1; inr (a <| current_line_bytes := n |> <| acc_text := acc_text a ++ t |>)))
    as [[Hle Hk]|[Hlt Hk]]; [done| |]; change (bounds a1) with (bounds a) in *;
    match type of Hk with ?m = _ => change (reaches (bounds a) (ps ++ [p]) m) | ?m = _ \/ _ => change (reaches (bounds a) (ps ++ [p]) m) end.
  - rewrite Hk. cbn beta. destruct (reserve_spec ps a a1 p H eq_refl eq_refl) as [[Hr Hb]|(r & Hr & Hj)];
      change (piece_text p) with t in Hr; rewrite Hr; [|exact Hj]. cbn [mbind sum_bind reaches]. split_and!; [|done|].
    + split; cbn; [by apply solid_snoc; [apply (tr_solid _ _ H)|]|by rewrite (tr_text _ _ H), pieces_text_app; cbn; rewrite app_nil_r|done|done|by rewrite Ec| |apply (tr_bounds _ _ H)].
      rewrite last_snoc. symmetry. by apply bool_decide_eq_false.
    + split_and!; [done|done|]. unfold p. rewrite layout_text. destruct Hfit as (_ & _ & Hfit).
      constructor; [rewrite <- Ehd, Ec; done|]. destruct (layout ps); [done|]. by apply Forall_cons_iff in Hfit as [_ ?].
  - assert (justifies (limits_of (bounds a)) (ps ++ [p]) (SnapshotLineTooLong (acc_lines a1) (bound_or_max max_line_bytes a1))) as Hj.
    { cbn [justifies]. rewrite (bound_in_force max_line_bytes). split; [done|]. exists (hd [] (layout (ps ++ [p]))).
      split; [|change (bounds a1) with (bounds a); rewrite Ec; lia]. change (acc_lines a1) with (line_total (ps ++ [p])).
      destruct (line_total_snoc ps p) as [-> _]; [by intros ? [= ->]|]. unfold p. rewrite layout_text.
      pose proof (layout_nonempty ps). destruct (layout ps) as [|c ls]; [done|]. cbn [hd tl length]. rewrite reverse_cons.
      rewrite lookup_app_r by (rewrite length_reverse; lia). rewrite length_reverse.
      by replace (N.to_nat (N.of_nat (S (length ls))) - 1 - length ls) with 0 by lia. }
    destruct Hk as [Hk|Hk]; rewrite Hk; exact Hj.
Qed.

Lemma push_newline_reaches ps a :
  tracks ps a -> fits (limits_of (bounds a)) ps -> reaches (bounds a) (ps ++ [Piece_break]) (push_newline a).
Proof.
  intros H Hfit. unfold push_newline. set (p := Piece_break).
  destruct (start_spec ps a p H ltac:(done) Hfit) as [[Hs Hlines]|(r & Hs & Hr)]; cbn zeta in Hs; rewrite Hs; cbn [mbind sum_bind]; [|exact Hr].
  destruct (reserve_spec ps a (line_started p ps a) p H eq_refl eq_refl) as [[Hr Hb]|(r & Hr & Hj)];
    change (text_len (piece_text p)) with 1%N in Hr; rewrite Hr; [|exact Hj]. cbn [reaches]. split_and!; [|done|].
  - split; cbn; [by apply solid_snoc; [apply (tr_solid _ _ H)|]|by rewrite (tr_text _ _ H), pieces_text_app|done|done| | |apply (tr_bounds _ _ H)].
    + by rewrite layout_snoc.
    + rewrite last_snoc. symmetry. by apply bool_decide_eq_true.
  - split_and!; [done|done|]. rewrite layout_snoc. constructor; [cbn; lia|]. apply Hfit.
Qed.

Lemma reaches_refl ps a : tracks ps a -> fits (limits_of (bounds a)) ps -> reaches (bounds a) ps (inr a).
Proof. by intros. Qed.

Lemma solid_break (b : bool) : solid (if b then [Piece_break] else []).
Proof. destruct b; repeat constructor. done. Qed.

Lemma shown_solid c : solid (shown c).
Proof. unfold shown. case_match; [constructor|]. destruct (text c); [constructor|]. by apply Forall_singleton. Qed.

Lemma cells_solid cs : solid (cells_pieces cs).
Proof. induction cs; [constructor|]. cbn. apply Forall_app. split; [apply shown_solid|done]. Qed.

Lemma push_cells_reaches cs : forall ps a,
  tracks ps a -> fits (limits_of (bounds a)) ps -> reaches (bounds a) (ps ++ cells_pieces cs) (push_cells_text cs a).
Proof.
  induction cs as [|c cs IH]; intros ps a H Hfit; cbn.
  - rewrite app_nil_r. by apply reaches_refl.
  - rewrite app_assoc. apply (reaches_bind (bounds a) (ps ++ shown c) (cells_pieces cs)); [apply cells_solid| |].
    + unfold shown. destruct (is_continuation c); [rewrite app_nil_r; by apply reaches_refl|].
      destruct (text c) eqn:E; [rewrite app_nil_r; by apply reaches_refl|]. rewrite <- E in *.
      apply push_cell_text_reaches; [done|by rewrite E|done].
    + intros a' H' Hb Hf. rewrite <- Hb in Hf |- *. by apply IH.
Qed.

(** The history, with the flag of its last line. *)
Definition last_open (ls : list LogicalLine) : bool := from_option (fun l => negb (hard_break l)) false (list.last ls).

Lemma history_solid ls : solid (history_pieces ls).
Proof.
  induction ls as [|l ls IH]; [constructor|]. cbn. repeat (apply Forall_app; split); [apply cells_solid|apply solid_break|done].
Qed.

Definition history_reaches (L : option SnapshotBounds) (ps : list Piece) (open : bool)
    (m : TerminalTextSnapshotRefusal + (SnapshotAccumulator * bool)) : Prop :=
  match m with
  | inr (a, c) => reaches L ps (inr a) /\ c = open
  | inl r => reaches L ps (inl r)
  end.

Lemma append_history_reaches ls a :
  tracks [] a -> fits (limits_of (bounds a)) [] ->
  history_reaches (bounds a) (history_pieces ls) (last_open ls) (append_history ls a).
Proof.
  intros H Hfit. unfold append_history.
  enough (forall ls ps a c, tracks ps a -> fits (limits_of (bounds a)) ps ->
    history_reaches (bounds a) (ps ++ history_pieces ls) (if ls is [] then c else last_open ls)
      (try_for_each (fun l '(a, _) => a ← push_cells_text (line_cells l) a;
         if hard_break l then a ← push_newline a; inr (a, false) else inr (a, true)) ls (a, c))) as Hgen.
  { specialize (Hgen ls [] a false H Hfit). by destruct ls. }
  clear. induction ls as [|l ls IH]; intros ps a c H Hfit; cbn [try_for_each].
  { cbn. by rewrite app_nil_r. }
  set (brk := if hard_break l then [Piece_break] else []).
  assert (reaches (bounds a) (ps ++ cells_pieces (line_cells l) ++ brk)
    (a ← push_cells_text (line_cells l) a; if hard_break l then push_newline a else inr a)) as Hline.
  { rewrite app_assoc. apply reaches_bind; [apply solid_break|by apply push_cells_reaches|].
    intros a' H' Hb Hf. rewrite <- Hb in *. unfold brk. destruct (hard_break l); [by apply push_newline_reaches|].
    rewrite app_nil_r. by apply reaches_refl. }
  change (history_pieces (l :: ls)) with ((cells_pieces (line_cells l) ++ brk) ++ history_pieces ls). rewrite app_assoc.
  assert (last_open (l :: ls) = if ls is [] then negb (hard_break l) else last_open ls) as -> by (by destruct ls).
  destruct (push_cells_text (line_cells l) a) as [r|a1]; cbn [mbind sum_bind] in *.
  { apply justifies_mono; [apply history_solid|done]. }
  destruct (hard_break l); cbn [negb].
  - destruct (push_newline a1) as [r|a2]; cbn [mbind sum_bind] in *.
    + apply justifies_mono; [apply history_solid|done].
    + destruct Hline as (H2 & Hb & Hf). rewrite <- Hb in *. by apply IH.
  - destruct Hline as (H2 & Hb & Hf). rewrite <- Hb in *. by apply IH.
Qed.

(** ** The visible rows *)
Lemma bytes_open ps a :
  tracks ps a -> (0 <? acc_bytes a)%N && negb (trailing_newline a) = ends_open ps.
Proof.
  intros H. rewrite (tr_bytes _ _ H), (tr_trailing _ _ H). unfold ends_open. pose proof (tr_solid _ _ H) as Hs.
  destruct ps as [|p ps _] using rev_ind; [done|]. rewrite last_snoc. apply Forall_app in Hs as [_ Hs].
  rewrite Forall_singleton in Hs. destruct p as [t|].
  - rewrite bool_decide_false by done. rewrite pieces_text_app, text_len_app. cbn. rewrite app_nil_r, andb_true_r.
    apply N.ltb_lt. pose proof (length_le_text_len t). destruct t; [done|]. cbn in *. lia.
  - rewrite bool_decide_true by done. by rewrite andb_false_r.
Qed.

Section Rows.
Context (s : Screen) (Hs : shape s) (He : exts_ok s).

Definition visible_row (r : nat) : ScreenRow := evicted (view_row s r).

Lemma occupied_row_cells_view r : r < nrows s -> occupied_row_cells s r = Some (row_cells (visible_row r)).
Proof.
  intros Hr. pose proof (screen_row_view s r Hs Hr (He r Hr)) as E. unfold screen_row in E. unfold occupied_row_cells.
  destruct (occupied_columns s !! _) as [n|]; [|done]. cbn [mbind option_bind] in *.
  destruct (slice _ _ _) as [cs|]; [|done]. cbn [mbind option_bind] in *.
  destruct (soft_wrapped_rows s !! _); [|done]. cbn [mbind option_bind] in E. apply (inj Some) in E. unfold visible_row. by rewrite <- E.
Qed.

Lemma row_soft_wrapped_view r : r < nrows s -> row_soft_wrapped s r = Some (soft_wrapped (visible_row r)).
Proof.
  intros Hr. pose proof (screen_row_view s r Hs Hr (He r Hr)) as E. unfold screen_row in E. unfold row_soft_wrapped.
  rewrite (proj2 (Nat.ltb_lt _ _)) by done. destruct (occupied_columns s !! _) as [n|]; [|done]. cbn [mbind option_bind] in *.
  destruct (slice _ _ _) as [cs|]; [|done]. cbn [mbind option_bind] in *.
  destruct (soft_wrapped_rows s !! _); [|done]. cbn [mbind option_bind] in E. apply (inj Some) in E. unfold visible_row. by rewrite <- E.
Qed.

Lemma rows_solid rs : solid (rows_pieces rs).
Proof.
  induction rs as [|r rs IH]; [constructor|]. cbn [rows_pieces]. apply Forall_app. split; [apply cells_solid|].
  destruct rs; [constructor|]. apply Forall_app. split; [|done]. destruct (soft_wrapped r); repeat constructor. done.
Qed.

Lemma rows_pieces_cons r r' rs :
  rows_pieces (r :: r' :: rs) =
  cells_pieces (row_cells r) ++ (if soft_wrapped r then [] else [Piece_break]) ++ rows_pieces (r' :: rs).
Proof using. done. Qed.

(** One row: the break before it, then its cells. *)
Definition append_row (brk : bool) (r : nat) (a : SnapshotAccumulator) : TerminalTextSnapshotRefusal + SnapshotAccumulator :=
  a ← (if brk then push_newline a else inr a); push_cells_text (row_cells (visible_row r)) a.

Lemma append_row_reaches (brk : bool) r ps a :
  tracks ps a -> fits (limits_of (bounds a)) ps ->
  reaches (bounds a) ((ps ++ if brk then [Piece_break] else []) ++ cells_pieces (row_cells (visible_row r))) (append_row brk r a).
Proof using.
  intros H Hf. apply reaches_bind; [apply cells_solid| |].
  - destruct brk; [by apply push_newline_reaches|]. rewrite app_nil_r. by apply reaches_refl.
  - intros a' H' Hb Hf'. rewrite <- Hb in *. by apply push_cells_reaches.
Qed.

Lemma append_rows_cons r rs continuing ps a :
  r < nrows s -> tracks ps a ->
  append_rows s (r :: rs) continuing a =
  match append_row (negb continuing && ((0 <? r) || ends_open ps)) r a with
  | inl refusal => Some (inl refusal)
  | inr a' => append_rows s rs (soft_wrapped (visible_row r)) a'
  end.
Proof using Hs He.
  intros Hr H. cbn [append_rows]. rewrite (bytes_open ps a H), occupied_row_cells_view, row_soft_wrapped_view by done.
  unfold append_row. destruct (negb continuing && _); cbn [mbind option_bind sum_bind]; [destruct (push_newline a)|]; done.
Qed.

Lemma append_rows_reaches m : forall k ps a continuing,
  k + S m <= nrows s -> tracks ps a -> fits (limits_of (bounds a)) ps ->
  exists out, append_rows s (seq k (S m)) continuing a = Some out /\
    reaches (bounds a) ((ps ++ if negb continuing && ((0 <? k) || ends_open ps) then [Piece_break] else []) ++
      rows_pieces (map visible_row (seq k (S m)))) out.
Proof using Hs He.
  induction m as [|m IH]; intros k ps a continuing Hk H Hf; cbn [seq];
    rewrite (append_rows_cons k _ continuing ps a) by (done || lia); set (brk := negb continuing && _);
    pose proof (append_row_reaches brk k ps a H Hf) as Hrow; cbn [map].
  - cbn [rows_pieces]. rewrite app_nil_r. destruct (append_row brk k a); (eexists; split; [done|]; exact Hrow).
  - rewrite rows_pieces_cons. set (w := soft_wrapped (visible_row k)). rewrite !(assoc_L (++)). destruct (append_row brk k a) as [r|a'].
    + eexists. split; [done|].
      apply justifies_mono; [apply (rows_solid (map visible_row (seq (S k) (S m))))|].
      apply justifies_mono; [|exact Hrow]. destruct w; repeat constructor. done.
    + destruct Hrow as (H2 & Hb2 & Hf2). rewrite <- Hb2 in *.
      destruct (IH (S k) _ a' w ltac:(lia) H2 Hf2) as (out & E & Hout). exists out. split; [exact E|].
      cbn [Nat.ltb Nat.leb orb] in Hout. rewrite andb_true_r in Hout. unfold w in *. 
      destruct (soft_wrapped (visible_row k)); exact Hout.
Qed.
End Rows.

Lemma closed_history ls : last_open ls = false -> ends_open (history_pieces ls) = false.
Proof.
  destruct ls as [|l ls _] using rev_ind; [done|]. unfold last_open. rewrite last_snoc. cbn. intros H.
  apply negb_false_iff in H. unfold history_pieces. rewrite flat_map_app. cbn. rewrite H, app_nil_r, app_assoc.
  unfold ends_open. by rewrite last_snoc.
Qed.

Section Snapshot.
Context `{P : Platform} `{L : !PlatformLaws P} (d : Dimensions).
Abbreviation sound := (term_ok d (anchor_ok d)).

(** The screen part, from the history's pieces. *)
Lemma append_screen_reaches b ps a continuing :
  buffer_ok d b -> dims_ok d -> tracks ps a -> fits (limits_of (bounds a)) ps ->
  exists n rs out, visible_content_rows (screen b) (row (cursor b)) = Some n /\ to_rows (screen b) = Some rs /\
    append_visible_screen_text (screen b) (row (cursor b)) continuing a = Some out /\
    reaches (bounds a) ((ps ++ if negb continuing && ends_open ps then [Piece_break] else []) ++ rows_pieces (take n rs)) out.
Proof.
  intros Hb Hd H Hf. destruct (bo_screen _ _ Hb) as (Hs & Hdim & Hrows). pose proof Hd as (_ & Hr & _).
  assert (exts_ok (screen b)) as He by (intros r Hlt; apply (all_exts_ok (RI := row_inv d Hd)); [by rewrite Hdim|done|done]).
  assert (exists k, occupied_row_count (screen b) = Some k) as [k Ek].
  { unfold occupied_row_count. rewrite (mapM_total _ (fun r => 0 <? r_ext (view_row (screen b) r))); [by eexists|].
    intros r Hin. apply elem_of_range in Hin. rewrite occupied_lookup by (done || lia). done. }
  unfold append_visible_screen_text, visible_content_rows. rewrite Ek. cbn [mbind option_bind].
  set (n := Nat.min _ _). assert (1 <= n <= nrows (screen b)) as Hn by (unfold n; rewrite Hdim; lia). clearbody n.
  destruct (append_rows_reaches (screen b) Hs He (n - 1) 0 ps a continuing ltac:(lia) H Hf) as (out & E & Hout).
  replace (S (n - 1)) with n in * by lia. exists n. eexists. exists out. split; [done|]. split; [|split; [unfold range; rewrite Nat.sub_0_r; exact E|]].
  - unfold to_rows. apply (mapM_total _ (visible_row (screen b))). intros r Hin. apply elem_of_range in Hin.
    apply screen_row_view; [done|lia|apply He; lia].
  - unfold range. rewrite Nat.sub_0_r, <- fmap_take. replace (take n (seq 0 (nrows (screen b)))) with (seq 0 n); [exact Hout|].
    apply list_eq. intros i. rewrite <- (drop_0 (seq 0 (nrows (screen b)))), lookup_slice. case_decide.
    + by rewrite !lookup_seq_lt by lia.
    + by rewrite lookup_seq_ge by lia.
Qed.

Definition snapshot_kind (t : Terminal) : TerminalTextSnapshotScreen :=
  if alternate_screen (modes t) then SnapshotAlternate else SnapshotPrimary.

(** The screen part of the snapshot is that of the exported buffer. *)
Lemma snapshot_screen_part t a c :
  sound t -> append_history (lines (scrollback t)) a = inr c ->
  exists b, exported_buffer t = Some b /\ buffer_ok d b /\
    forall out, append_visible_screen_text (screen b) (row (cursor b)) (negb (alternate_screen (modes t)) && c.2) c.1 = Some out ->
      snapshot_with_accumulator t a =
        Some (a ← out; inr (mkSnapshot (acc_text a) (snapshot_kind t) (evicted_lines (scrollback t)))).
Proof using.
  intros Ht E. destruct c as [a1 c]. destruct (active_ok d _ t Ht) as (b & Eb & Hb & _ & Ec & _).
  unfold snapshot_with_accumulator, snapshot_kind, exported_buffer. rewrite E. destruct (alternate_screen (modes t)).
  - exists b. split_and!; [done..|]. intros out Hout. rewrite Eb, Ec. cbn in *. by rewrite Hout.
  - exists (primary t). split_and!; [done|apply (ok_primary _ _ _ (proj1 Ht))|]. intros out Hout. cbn in *. by rewrite Hout.
Qed.

Lemma exported_ok t : sound t -> exists b, exported_buffer t = Some b /\ buffer_ok d b.
Proof using.
  intros Ht. unfold exported_buffer. destruct (alternate_screen (modes t)).
  - destruct (active_ok d _ t Ht) as (b & Eb & Hb & _). by exists b.
  - exists (primary t). split; [done|]. apply (ok_primary _ _ _ (proj1 Ht)).
Qed.

Lemma snapshot_follows t a :
  sound t -> tracks [] a ->
  exists ps, snapshot_pieces t = Some ps /\
    match snapshot_with_accumulator t a with
    | Some (inr s) => fits (limits_of (bounds a)) ps /\ s = mkSnapshot (pieces_text ps) (snapshot_kind t) (evicted_lines (scrollback t))
    | Some (inl r) => justifies (limits_of (bounds a)) ps r
    | None => False
    end.
Proof using.
  intros Ht Htr. pose proof (ok_dims _ _ _ (proj1 Ht)) as Hd. unfold snapshot_pieces. set (history := history_pieces _).
  assert (fits (limits_of (bounds a)) []) as Hf by (split_and!; cbn; [lia|unfold line_total; cbn; lia|repeat constructor; cbn; lia]).
  pose proof (append_history_reaches (lines (scrollback t)) a Htr Hf) as Hh. fold history in Hh.
  destruct (append_history (lines (scrollback t)) a) as [r|c] eqn:Eh.
  - destruct (exported_ok t Ht) as (b & -> & Hb). cbn [mbind option_bind].
    destruct (append_screen_reaches b [] a false Hb Hd Htr Hf) as (n & rs & out & -> & -> & _). cbn [mbind option_bind].
    eexists. split; [done|]. unfold snapshot_with_accumulator. rewrite Eh. apply justifies_mono; [|exact Hh].
    apply Forall_app. split; [apply solid_break|apply rows_solid].
  - destruct (snapshot_screen_part t a c Ht Eh) as (b & -> & Hb & Hout). destruct c as [a1 open]. destruct Hh as [(H1 & Hb1 & Hf1) ->].
    rewrite <- Hb1 in Hf1. cbn [mbind option_bind fst snd] in *.
    destruct (append_screen_reaches b history a1 (negb (alternate_screen (modes t)) && last_open (lines (scrollback t))) Hb Hd H1 Hf1)
      as (n & rs & out & -> & -> & Eout & Hr). cbn [mbind option_bind].
    rewrite (Hout out Eout). eexists. split; [done|]. rewrite Hb1 in Hr.
    assert (negb (negb (alternate_screen (modes t)) && last_open (lines (scrollback t))) && ends_open history =
      alternate_screen (modes t) && ends_open history) as Elead.
    { destruct (alternate_screen (modes t)); [done|]. destruct (last_open _) eqn:E; [done|]. by apply closed_history. }
    rewrite Elead, <- (assoc_L (++)) in Hr. destruct out as [r|a2]; cbn in *; [done|].
    destruct Hr as (H2 & _ & Hf2). split; [done|]. by rewrite (tr_text _ _ H2).
Qed.

Lemma unbounded_tracks : tracks [] unbounded.
Proof using. by split; [constructor|..]. Qed.

Lemma bounded_tracks mb ml mlb :
  (mb <= usize_max)%N -> (ml <= usize_max)%N -> (mlb <= usize_max)%N -> tracks [] (bounded mb ml mlb).
Proof using. intros. split; try done; [constructor|]. by intros b [= <-]. Qed.

End Snapshot.

(** A 3x2 terminal that has scrolled: "abcde" soft wraps into the history. *)
Definition sample_logged : Terminal :=
  default sample_terminal (ingest (P := sample_platform) (bytes "abcde" ++ [13; 10]%N ++ bytes "f" ++ [13; 10]%N ++ bytes "g") sample_terminal).

Lemma sample_logged_sound :
  term_ok (P := sample_platform) (mkDimensions 3 2 6) (anchor_ok (mkDimensions 3 2 6)) sample_logged.
Proof.
  edestruct (ingest_ok (P := sample_platform)) as (t & E & Ht); [exact sample_terminal_sound|]. unfold sample_logged. rewrite E. exact Ht.
Qed.

