(* ===== verification/Protection.v ===== *)
(** * Protected text

    Two states the terminal reaches with DECSCA protection on: what a selective
    erase leaves behind, and what a reset leaves behind. *)

From Stdlib Require Import NArith Bool.
From S2P Require Import Prelude Cell Utf8 Parser Screen ScreenGrid ScreenOps ScreenInv History Buffer Terminal TerminalOps TerminalResize Snapshot TerminalText.

(** ** A selective erase of a whole row *)
Section Erase.
Context `{P : Platform}.

(** What stays true of a row while repairs write structural blanks into it. *)
Definition spared (n : nat) (keep : list (nat * Cell)) (row : Row) : Prop :=
  r_occ row = replicate n false /\
  forall c x, (c, x) ∈ keep -> r_cells row !! c = Some x /\ width x = Single.

Lemma spared_repair n keep fill c row : is_structural_blank fill = true -> spared n keep row -> spared n keep (row_repair fill c row).
Proof.
  intros Hb [Ho Hk]. unfold row_repair. destruct (row_invalid row c) eqn:E; [|done]. rewrite Hb. split; cbn.
  - rewrite Ho. apply list_eq. intros i. destruct (decide (i = c)) as [->|]; [|by rewrite list_lookup_insert_ne].
    destruct (decide (c < n)) as [Hc|Hc].
    + rewrite list_lookup_insert_eq by by rewrite length_replicate. by rewrite lookup_replicate_2.
    + rewrite !lookup_ge_None_2; [done|rewrite length_replicate; lia|rewrite length_insert, length_replicate; lia].
  - intros c' x Hin. destruct (Hk c' x Hin) as [Hc' Hw]. split; [|done]. rewrite list_lookup_insert_ne; [done|].
    intros <-. unfold row_invalid in E. rewrite Hc' in E. cbn in E. by rewrite Hw in E.
Qed.

Lemma spared_repairs n keep fill cols boundary row :
  is_structural_blank fill = true -> spared n keep row -> spared n keep (repair_at fill cols boundary row).
Proof.
  intros Hb. unfold repair_at, row_repair_list. revert row. induction (neighborhood cols boundary) as [|c cs IH]; intros row H; [done|].
  cbn. apply IH. by apply spared_repair.
Qed.

Lemma spared_linear n keep fill r row :
  is_structural_blank fill = true -> 0 < n -> length (r_cells row) = n -> length (r_occ row) = n ->
  (forall c x, (c, x) ∈ keep -> r_cells row !! c = Some x /\ width x = Single /\ contains (attributes x) PROTECTED = true) ->
  spared n keep (row_linear n r 0 r n fill true r row).
Proof.
  intros Hb Hn Hc Ho Hk. unfold row_linear. rewrite Nat.eqb_refl, (proj2 (Nat.leb_gt _ _)), Nat.sub_0_r, drop_0, Hb by done. split; cbn.
  - by rewrite splice_all by (rewrite length_replicate; lia).
  - rewrite take_ge, splice_all by (rewrite ?length_map; lia). intros c x Hin. destruct (Hk c x Hin) as (Hx & Hw & Hp).
    split; [|done]. rewrite list_lookup_fmap, Hx. cbn. unfold spare_cell. by rewrite Hp.
Qed.

Lemma whole_row_range r n : 0 < n -> r * n / n = r /\ ((r + 1) * n - 1) / n = r /\ (r * n) mod n = 0 /\ (r + 1) * n - r * n = n.
Proof.
  intros Hn. split_and!; [by apply Nat.div_mul; lia| |apply Nat.Div0.mod_mul|lia].
  replace ((r + 1) * n - 1) with (r * n + (n - 1)) by lia. rewrite Nat.div_add_l, (Nat.div_small (n - 1)) by lia. lia.
Qed.

Lemma grid_linear_row n r x g row :
  0 < n -> g_rows g !! r = Some row ->
  g_rows (grid_linear n (r * n) ((r + 1) * n) x true g) !! r =
    Some (row_recompute (repair_at x n n (repair_at x n 0 (row_linear n r 0 r n x true r row)))).
Proof.
  intros Hn Hr. destruct (whole_row_range r n Hn) as (E1 & E2 & E3 & E4). unfold grid_linear. rewrite E1, E2, E3, E4.
  unfold range_incl. replace (S r - r) with 1 by lia. cbn [seq foldl]. unfold on_rows, on_row, on_dirty. cbn [g_rows].
  pose proof (lookup_lt_Some _ _ _ Hr). rewrite lookup_map_range by (rewrite !length_alter; lia). rewrite decide_True by lia.
  rewrite !list_lookup_alter_eq, Hr. done.
Qed.

(** A selective erase of a row (DECSEL, DECSED) keeps its protected
    characters on the screen and counts them as never written: whatever the row
    holds, its occupied extent is zero afterwards, so what the erase spared is
    missing wherever rows are taken by their extent - text snapshots, the rows
    that scroll into the history, and the rows a resize carries over. *)
Theorem selective_erase_forgets_protected_text s r blank :
  shape s -> r < nrows s -> is_structural_blank blank = true ->
  exists s', fill_linear_sparing_protected (r * ncols s) ((r + 1) * ncols s) blank s = Some s' /\
    row_occupied_columns s' r = Some 0 /\
    forall c x, cell s c r = Some x -> width x = Single -> contains (attributes x) PROTECTED = true -> cell s' c r = Some x.
Proof using.
  intros Hs Hr Hb. pose proof (proj1 (shape_dims s Hs)) as Hn.
  destruct (sim_fill_linear (r * ncols s) ((r + 1) * ncols s) blank true s Hs) as (s' & E & (Hs' & Hd & _) & G); [nia|].
  rewrite (proj2 (Nat.leb_gt _ _)) in G by nia. exists s'. split; [done|].
  pose proof (grid_lookup s' r ltac:(by rewrite Hd)) as Hrow. rewrite G in Hrow.
  rewrite (grid_linear_row (ncols s) r blank _ (view_row s r)) in Hrow; [|lia|by apply grid_lookup]. apply (inj Some) in Hrow.
  assert (forall keep, (forall c x, (c, x) ∈ keep -> r_cells (view_row s r) !! c = Some x /\ width x = Single /\ contains (attributes x) PROTECTED = true) ->
    spared (ncols s) keep (repair_at blank (ncols s) (ncols s) (repair_at blank (ncols s) 0 (row_linear (ncols s) r 0 r (ncols s) blank true r (view_row s r)))))
    as Hsp.
  { intros keep Hk. apply spared_repairs; [done|]. apply spared_repairs; [done|].
    apply spared_linear; [done|lia|by apply view_row_cells_length|by apply view_row_occ_length|done]. }
  split.
  - destruct (Hsp []) as [Ho _]; [by intros ? ? ?%not_elem_of_nil|].
    assert (r_ext (view_row s' r) = 0) as Hx by (rewrite <- Hrow; unfold row_recompute; cbn [r_ext set_field set_r_ext]; by rewrite Ho, extent_replicate).
    unfold row_occupied_columns. rewrite Hd, (proj2 (Nat.ltb_lt _ _)) by done. unfold view_row in Hx. cbn in Hx.
    destruct (occupied_columns s' !! Screen.physical_row s' r) as [n|] eqn:En; [cbn in Hx; by subst|].
    apply lookup_ge_None_1 in En. destruct Hs' as [_ Ht _ _ _ _ Hl]. rewrite Hl in En. unfold Screen.physical_row in En.
    pose proof (Nat.mod_upper_bound (top s' + r) (nrows s') ltac:(lia)). lia.
  - intros c x Hc Hw Hp. assert (c < ncols s) as Hlt.
    { unfold cell, cell_index in Hc. destruct (Nat.ltb_spec c (ncols s)); [done|]. done. }
    rewrite cell_view in Hc by done. rewrite cell_view by (rewrite ?Hd; done). rewrite <- Hrow.
    destruct (Hsp [(c, x)]) as [_ Hk]; [|apply (Hk c x); by left]. by intros c' x' [= -> ->]%list_elem_of_singleton.
Qed.
End Erase.

(** The character and attributes the terminal shows at a position. *)
Definition shown (t : Terminal) (column row : nat) : option (list N * N) :=
  b ← active_buffer t; c ← Screen.cell (screen b) column row; Some (text c, attributes c).

(** DECSCA 1, then "ab". *)
Definition protected_text : list N := (ESC :: bytes "[1") ++ [34%N] ++ bytes "qab".
(** DECSEL 2: the whole line, protected text spared. *)
Definition selective_erase : list N := ESC :: bytes "[?2K".

(** The screen of a 3x2 terminal that has been sent the protected text. *)
Definition protected_screen : Screen :=
  screen (primary (default sample_terminal (ingest (P := sample_platform) protected_text sample_terminal))).

Lemma selective_erase_forgets_protected_text_witness :
  exists s', fill_linear_sparing_protected (0 * 3) ((0 + 1) * 3) (blank_cell (P := sample_platform)) protected_screen = Some s' /\
    row_occupied_columns protected_screen 0 = Some 2 /\ row_occupied_columns s' 0 = Some 0 /\ cell s' 1 0 = cell protected_screen 1 0.
Proof.
  destruct (selective_erase_forgets_protected_text protected_screen 0 (blank_cell (P := sample_platform))) as (s' & H1 & H2 & H3).
  - split; vm_compute; try reflexivity; repeat split; lia.
  - vm_compute. lia.
  - reflexivity.
  - exists s'. split; [exact H1|]. split; [vm_compute; reflexivity|]. split; [exact H2|].
    erewrite H3; vm_compute; reflexivity.
Defined.

(** End to end: after DECSEL the text is on the screen as before, and the text
    snapshot is empty. *)
Lemma selective_erase_empties_the_snapshot :
  exists t t' s s', ingest (P := sample_platform) protected_text sample_terminal = Some t /\
    text_snapshot t = Some s /\ snapshot_text s = bytes "ab" /\
    ingest (P := sample_platform) selective_erase t = Some t' /\
    shown t' 0 0 = shown t 0 0 /\ shown t' 1 0 = shown t 1 0 /\
    text_snapshot t' = Some s' /\ snapshot_text s' = [].
Proof.
  do 4 eexists. split; [vm_compute; reflexivity|]. split; [vm_compute; reflexivity|]. split; [vm_compute; reflexivity|].
  split; [vm_compute; reflexivity|]. split; [vm_compute; reflexivity|]. split; [vm_compute; reflexivity|].
  split; vm_compute; reflexivity.
Qed.

(** A reset returns the pen to its defaults except for its protection: text
    printed after it is still protected, and in a terminal at rest it is not. *)
Theorem reset_keeps_protection :
  exists t t', ingest (P := sample_platform) protected_text sample_terminal = Some t /\
    ingest (P := sample_platform) (bytes "c") (reset_to_initial_state (P := sample_platform) t) = Some t' /\
    shown t' 0 0 = Some (bytes "c", PROTECTED) /\
    exists t0, ingest (P := sample_platform) (bytes "c") (reset_to_initial_state (P := sample_platform) sample_terminal) = Some t0 /\ shown t0 0 0 = Some (bytes "c", NONE).
Proof.
  do 2 eexists. split; [vm_compute; reflexivity|]. split; [vm_compute; reflexivity|]. split; [vm_compute; reflexivity|].
  eexists. split; vm_compute; reflexivity.
Qed.
