(* ===== verification/Recovery.v ===== *)
(** * The recovery check against the states the terminal reaches

    A session's terminal is handed over as [recovery_clone], and the receiver
    runs [validate_recovery_snapshot] on it before using it.  These theorems
    are about states that the terminal produces itself and the check refuses. *)

From Stdlib Require Import NArith Bool.
From S2P Require Import Prelude Cell Utf8 Hyperlink Parser Screen History Input Buffer Terminal TerminalOps TerminalInv TerminalPrint TerminalSafe TerminalResize TerminalReports TerminalText.

Section Recovery.
Context `{P : Platform} `{L : !PlatformLaws P} (d : Dimensions).
Abbreviation sound := (term_ok d (anchor_ok d)).

(** A pending wrap anywhere but in the last column is refused. *)
Lemma stray_wrap_refused t b :
  active_buffer t = Some b -> pending_wrap b = true -> column (cursor b) + 1 <> columns (dimensions (screen b)) ->
  validate_terminal (recovery_clone t) = false.
Proof.
  intros Eb Hp Hc.
  assert (forall s, dimensions s = dimensions (screen b) -> validate_buffer (b <| screen := s |>) = false) as Hv.
  { intros s Hs. unfold validate_buffer. cbn. rewrite Hs, Hp, (proj2 (Nat.eqb_neq _ _) Hc). cbn [negb andb].
    by rewrite !andb_false_r. }
  unfold active_buffer in Eb. unfold validate_terminal, recovery_clone. cbn.
  destruct (active_screen t).
  - injection Eb as ->. cbn in Hv. rewrite (Hv (mark_all_dirty (screen b))) by done. by rewrite !andb_false_r.
  - rewrite Eb. cbn. cbn in Hv. rewrite (Hv (mark_all_dirty (screen b))) by done. cbn. by rewrite !andb_false_r.
Qed.

(** C40: with auto-wrap on, a wide character that fills the last two columns
    leaves a terminal that cannot be recovered.
    [place_cursor_after_cluster] keeps the cursor on the character and arms the
    wrap, one column short of the last one, and the recovery check refuses a
    wrap pending away from the last column.  So it is in every sound terminal
    with auto-wrap on, left/right margin mode off and no wrap pending, for
    every wide character that does not join the cluster before it: the state
    printing reaches is sound and the check rejects it.  Without auto-wrap no
    wrap is armed and the same print gives no cause to reject. *)
Theorem wide_glyph_at_the_edge_fails_recovery ch t b :
  sound t -> active_buffer t = Some b -> starts_cluster ch b = true -> char_width ch = Some 2 ->
  left_right_margin_mode (modes t) = false -> pending_wrap b = false -> column (cursor b) + 2 = columns d ->
  exists t' b', print ch t = Some t' /\ sound t' /\ active_buffer t' = Some b' /\
    pending_wrap b' = auto_wrap (modes t) /\
    (auto_wrap (modes t) = true -> validate_terminal (recovery_clone t') = false).
Proof using L.
  intros Ht Eb Hs Hw Hm Hp Hc.
  assert (due_page d t b = page_of b) as Edue by by (unfold due_page; rewrite Hp).
  assert (print_limit d t b = columns d) as Elim.
  { unfold print_limit, limit_at, margins_of. rewrite Hm. case_match; cbn; lia. }
  assert (cut_off d 2 t b = false) as Ecut.
  { unfold cut_off. rewrite Elim, Edue. apply andb_false_iff. right. apply Nat.eqb_neq. cbn. lia. }
  destruct (print_placed d ch 2 t b Ht Eb Hw ltac:(lia) Hs) as (t' & b' & E & Ht' & Eb' & Hpl & _).
  { unfold print_glyph. change (Nat.min 2 2) with 2. by rewrite Ecut. }
  unfold print_glyph, print_page in Hpl. change (Nat.min 2 2) with 2 in Hpl. rewrite Ecut, Edue, Elim in Hpl.
  pose proof (placed_cursor _ _ _ _ _ Hpl) as Hcur. cbn in Hcur. rewrite (proj2 (Nat.leb_le _ _)) in Hcur by lia.
  destruct Hcur as [Hcur Hwrap]. destruct (active_ok d _ t' Ht') as (b2 & Eb2 & Hb2 & _).
  rewrite Eb' in Eb2. injection Eb2 as <-. destruct (bo_screen _ _ Hb2) as (_ & Hdim & _).
  exists t', b'. split_and!; [done..|]. intros Ha. rewrite Ha in Hwrap.
  apply (stray_wrap_refused t' b' Eb' Hwrap). rewrite Hcur, Hdim. lia.
Qed.
End Recovery.

(** The 3x2 terminal with its cursor in the last column but one, and a 5x2
    terminal with room for almost no history. *)
Definition sample_narrow : Terminal :=
  default sample_terminal (ingest (P := sample_platform) (ESC :: bytes "[1;2H") sample_terminal).
Definition sample_small : Terminal :=
  match with_scrollback_limit (P := sample_platform) (mkDimensions 5 2 10) 10 with
  | inr t => t | inl _ => sample_terminal
  end.

Lemma sample_narrow_sound :
  term_ok (P := sample_platform) (mkDimensions 3 2 6) (anchor_ok (mkDimensions 3 2 6)) sample_narrow.
Proof.
  destruct (ingest_ok (P := sample_platform) _ (ESC :: bytes "[1;2H") sample_terminal sample_terminal_sound) as (t & E & Ht).
  unfold sample_narrow. rewrite E. exact Ht.
Qed.

Lemma wide_glyph_at_the_edge_fails_recovery_witness :
  exists b t', active_buffer sample_narrow = Some b /\ print (P := sample_platform) 12354 sample_narrow = Some t' /\
    term_ok (P := sample_platform) (mkDimensions 3 2 6) (anchor_ok (mkDimensions 3 2 6)) t' /\
    validate_terminal (P := sample_platform) (recovery_clone t') = false.
Proof.
  destruct (active_ok _ _ _ sample_narrow_sound) as (b & Eb & _).
  destruct (wide_glyph_at_the_edge_fails_recovery (P := sample_platform) (mkDimensions 3 2 6) 12354 sample_narrow b)
    as (t' & b' & H1 & H2 & _ & _ & H3).
  - exact sample_narrow_sound.
  - exact Eb.
  - vm_compute in Eb. injection Eb as <-. reflexivity.
  - reflexivity.
  - reflexivity.
  - vm_compute in Eb. injection Eb as <-. reflexivity.
  - vm_compute in Eb. injection Eb as <-. reflexivity.
  - exists b, t'. split; [exact Eb|]. split; [exact H1|]. split; [exact H2|]. apply H3. reflexivity.
Defined.

(** [OSC 2 ; title BEL], and the terminals it leaves. *)
Definition title_sequence (s : list N) : list N := [ESC; 93%N] ++ bytes "2;" ++ flat_map encode_utf8 s ++ [BEL].
Definition long_title : list N := replicate 129 233%N.
Definition sample_titled : Terminal :=
  default sample_terminal (ingest (P := sample_platform) (title_sequence long_title) sample_terminal).
Definition sample_retitled : Terminal :=
  default sample_terminal (ingest (P := sample_platform) (title_sequence (bytes "x")) sample_titled).

(** A title within its limit can make a terminal unrecoverable.
    [sanitize_title] keeps up to 256 characters and the recovery check allows
    256 bytes: after a title of 129 two-byte characters the title is the one
    sent, and the check rejects the terminal, which it accepts once a shorter
    title replaces it. *)
Theorem long_title_fails_recovery :
  exists t t', ingest (P := sample_platform) (title_sequence long_title) sample_terminal = Some t /\
    title t = long_title /\ validate_terminal (P := sample_platform) (recovery_clone t) = false /\
    ingest (P := sample_platform) (title_sequence (bytes "x")) t = Some t' /\
    validate_terminal (P := sample_platform) (recovery_clone t') = true.
Proof.
  exists sample_titled, sample_retitled. split; [vm_compute; reflexivity|]. split; [vm_compute; reflexivity|].
  split; [vm_compute; reflexivity|]. split; vm_compute; reflexivity.
Qed.

(** A line longer than the whole scrollback can make a terminal
    unrecoverable.  When the budget cannot hold one row, [enforce_limit] drops
    the open line and keeps tracking it as oversized, and the recovery check
    refuses an oversized line without retained history: on a 5x2 terminal with
    a ten-byte scrollback, twenty characters printed without a break leave a
    terminal the check rejects. *)
Theorem oversized_line_fails_recovery :
  exists t, ingest (P := sample_platform) (bytes "abcdefghijklmnopqrst") sample_small = Some t /\
    lines (scrollback t) = [] /\ active_oversize_line (scrollback t) <> None /\
    validate_terminal (P := sample_platform) (recovery_clone t) = false.
Proof.
  eexists. split; [vm_compute; reflexivity|]. split; [vm_compute; reflexivity|].
  split; [vm_compute; discriminate|vm_compute; reflexivity].
Qed.
