(* ===== verification/Str.v ===== *)
(** * Strings by byte offset

    What the document crate uses of [str] and [String]: a text is its UTF-8
    bytes, an offset is a byte offset, and slicing at an offset that is out of
    range or inside a character is a panic ([None]).  The file also has the
    [Result]-with-panics notation the document components share. *)

From Stdlib Require Import NArith Bool.
From S2P Require Import Prelude Cell Utf8.

(** A call that may panic ([None]) or return a [Result]. *)
Abbreviation fallible E A := (option (E + A)).
Notation "'let?' x := m 'in' k" :=
  (match m with Some (inr x) => k | Some (inl e) => Some (inl e) | None => None end)
  (at level 10, x pattern, m at level 100, k at level 200, only parsing) : festerm_scope.

Definition LF : N := 10.
Definition CR : N := 13.

(** [str::is_char_boundary]. *)
Definition is_char_boundary (t : list N) (i : nat) : bool :=
  match i with
  | O => true
  | S _ => match t !! i with Some b => negb (tail_byte b) | None => i =? length t end
  end.

(** [&t[a..b]]. *)
Definition str_slice (t : list N) (a b : nat) : option (list N) :=
  if (a <=? b) && (b <=? length t) && is_char_boundary t a && is_char_boundary t b
  then Some (take (b - a) (drop a t)) else None.

(** [&t[a..]]. *)
Definition str_from (t : list N) (a : nat) : option (list N) := str_slice t a (length t).

(** [String::replace_range]. *)
Definition replace_range (t : list N) (a b : nat) (new : list N) : option (list N) :=
  if (a <=? b) && (b <=? length t) && is_char_boundary t a && is_char_boundary t b
  then Some (take a t ++ new ++ drop b t) else None.

(** [floor_char_boundary] and [ceil_char_boundary] of [text.rs]: the loops
    stop at the ends of the text. *)
Fixpoint floor_char_boundary (t : list N) (i : nat) : nat :=
  match i with
  | O => O
  | S i' => if is_char_boundary t i then i else floor_char_boundary t i'
  end.

Fixpoint ceil_loop (t : list N) (fuel i : nat) : nat :=
  match fuel with
  | O => i
  | S fuel' => if (i <? length t) && negb (is_char_boundary t i) then ceil_loop t fuel' (i + 1) else i
  end.
Definition ceil_char_boundary (t : list N) (i : nat) : nat := ceil_loop t (length t - i) i.

(** [str::chars().count()]: every character has one byte that is not a tail. *)
Definition char_count (t : list N) : nat := length (filter (fun b => tail_byte b = false) t).

(** [str::split_inclusive('\n')], and [str::lines]: the terminator, and a
    carriage return before it, are dropped. *)
Fixpoint split_inclusive (t : list N) : list (list N) :=
  match t with
  | [] => []
  | b :: t' =>
      if (b =? LF)%N then [b] :: split_inclusive t'
      else match split_inclusive t' with [] => [[b]] | s :: ss => (b :: s) :: ss end
  end.

Definition strip_suffix (b : N) (t : list N) : option (list N) :=
  match list.last t with
  | Some x => if (x =? b)%N then Some (take (length t - 1) t) else None
  | None => None
  end.

Definition strip_line (s : list N) : list N :=
  match strip_suffix LF s with
  | None => s
  | Some l => default l (strip_suffix CR l)
  end.

Definition str_lines (t : list N) : list (list N) := map strip_line (split_inclusive t).

(** [str::starts_with] and [str::find] on bytes, and [str::matches(..).count()]. *)
Fixpoint starts_with (p t : list N) : bool :=
  match p, t with
  | [], _ => true
  | x :: p', y :: t' => (x =? y)%N && starts_with p' t'
  | _ :: _, [] => false
  end.

Fixpoint find (p t : list N) : option nat :=
  if starts_with p t then Some 0
  else match t with [] => None | _ :: t' => S <$> find p t' end.

Definition contains_byte (b : N) (t : list N) : bool := existsb (N.eqb b) t.
Definition count_byte (b : N) (t : list N) : nat := length (filter (fun x => x = b) t).

(** Non-overlapping occurrences; an occurrence of a non-empty pattern takes at
    least one byte, so the length is enough fuel. *)
Fixpoint count_loop (fuel : nat) (p t : list N) : nat :=
  match fuel with
  | O => 0
  | S fuel' => match find p t with
               | Some i => S (count_loop fuel' p (drop (i + length p) t))
               | None => 0
               end
  end.
Definition count_matches (p t : list N) : nat := count_loop (S (length t)) p t.

(** [str::replace] of one ASCII character. *)
Definition replace_byte (b : N) (new t : list N) : list N := flat_map (fun x => if (x =? b)%N then new else [x]) t.
