(* ===== verification/Undo.v ===== *)
(** * Undo history ([festerm-document/src/undo.rs] and [bounds.rs])

    The bounded stack of transactions with its redo tail.  Strings and deques
    carry the capacity the allocator gave them, which the retention budget
    charges; how much a request is rounded up is a parameter. *)

From Stdlib Require Import NArith Bool.
From S2P Require Import Prelude Cell Utf8 Str.

(** ** [bounds.rs] *)
Record DocumentBounds := mkDocumentBounds { max_bytes : N; max_lines : N; max_line_bytes : N }.
Definition DocumentBounds_DEFAULT : DocumentBounds := mkDocumentBounds (4 * 1024 * 1024) 65536 (64 * 1024).

Inductive RefusalReason :=
  | TooLarge (bytes limit : N)
  | TooManyLines (lines limit : N)
  | LineTooLong (line limit : N)
  | UndoStorageTooLarge (bytes limit : N)
  | NotUtf8
  | BinaryContent.

Definition check_declared_size (b : DocumentBounds) (bytes : N) : RefusalReason + unit :=
  if (max_bytes b <? bytes)%N then inl (TooLarge bytes (max_bytes b)) else inr tt.

(** ** Allocation

    [String::with_capacity(n)] and [VecDeque::with_capacity(n)] have room for
    at least [n]; [to_owned] asks for the length. *)
Class Allocator := {
  string_capacity : N -> N;
  deque_capacity : N -> N;
  size_of_transaction : N;
  size_of_edit : N
}.
Class AllocatorLaws (A : Allocator) : Prop := {
  law_string n : (n <= string_capacity n)%N;
  law_deque n : (n <= deque_capacity n)%N;
  law_transaction : (1 <= size_of_transaction)%N
}.

Definition usize_plus (a b : N) : N := saturating_add usize_max a b.
(** Unsigned subtraction; a debug build panics below zero. *)
Definition minus (a b : N) : option N := if (b <=? a)%N then Some (a - b)%N else None.

(** ** [TextEdit] ([text.rs]) *)
Record TextEdit := mkEdit {
  start : nat;
  removed : list N;
  removed_capacity : N;
  inserted : list N;
  inserted_capacity : N
}.
Definition edit_end (e : TextEdit) : nat := start e + length (removed e).

Record Transaction := mkTransaction { serial : N; edits : list TextEdit; open : bool }.

Inductive EditDirection := Forward | Backward.
(** [EditDirection::parts]: what the text has, and what replaces it. *)
Definition parts (dir : EditDirection) (e : TextEdit) : list N * list N :=
  match dir with Forward => (removed e, inserted e) | Backward => (inserted e, removed e) end.

Record UndoHistory := mkUndo {
  entries : list Transaction;
  entries_capacity : N;
  applied : nat;
  base_token : option N;
  next_serial : N;
  max_entries : N;
  undo_max_bytes : N;
  payload_bytes : N
}.
#[export] Instance set_entries : Setter entries := fun v u => mkUndo v (entries_capacity u) (applied u) (base_token u) (next_serial u) (max_entries u) (undo_max_bytes u) (payload_bytes u).
#[export] Instance set_entries_capacity : Setter entries_capacity := fun v u => mkUndo (entries u) v (applied u) (base_token u) (next_serial u) (max_entries u) (undo_max_bytes u) (payload_bytes u).
#[export] Instance set_applied : Setter applied := fun v u => mkUndo (entries u) (entries_capacity u) v (base_token u) (next_serial u) (max_entries u) (undo_max_bytes u) (payload_bytes u).
#[export] Instance set_base_token : Setter base_token := fun v u => mkUndo (entries u) (entries_capacity u) (applied u) v (next_serial u) (max_entries u) (undo_max_bytes u) (payload_bytes u).
#[export] Instance set_next_serial : Setter next_serial := fun v u => mkUndo (entries u) (entries_capacity u) (applied u) (base_token u) v (max_entries u) (undo_max_bytes u) (payload_bytes u).
#[export] Instance set_payload_bytes : Setter payload_bytes := fun v u => mkUndo (entries u) (entries_capacity u) (applied u) (base_token u) (next_serial u) (max_entries u) (undo_max_bytes u) v.

(** The slots of a new deque, when the plan asks for one. *)
Record RetentionPlan := mkPlan { retired : nat; plan_payload : N; slots : option N }.
Record PreparedUndo := mkPrepared {
  prepared_edits : list TextEdit;
  prepared_open : bool;
  merge : bool;
  (** The text and capacity that replace the last insertion. *)
  replacement : option (list N * N);
  retention : RetentionPlan
}.

Definition DEFAULT_MAX_ENTRIES : N := 2048.
Definition DEFAULT_MAX_BYTES : N := 8 * 1024 * 1024.

Definition with_limits (max_entries max_bytes : N) : UndoHistory :=
  mkUndo [] 0 0 None 1 (N.max max_entries 1) max_bytes 0.
Definition UndoHistory_new : UndoHistory := with_limits DEFAULT_MAX_ENTRIES DEFAULT_MAX_BYTES.

(** The outer [None] of [checked_sub] is [base_token]; [get] past the end is no token. *)
Definition token (u : UndoHistory) : option N :=
  match applied u with
  | O => base_token u
  | S index => serial <$> (entries u !! index)
  end.
Definition can_undo (u : UndoHistory) : bool := 0 <? applied u.
Definition can_redo (u : UndoHistory) : bool := applied u <? length (entries u).

Definition close (t : Transaction) : Transaction := mkTransaction (serial t) (edits t) false.

Definition close_transaction (u : UndoHistory) : option UndoHistory :=
  match applied u with
  | O => Some u
  | S index =>
      t ← entries u !! index;
      Some (u <| entries := <[index := close t]> (entries u) |>)
  end.

(** [UndoHistory::mergeable]: one insertion without a newline that starts where
    the last insertion ended. *)
Definition mergeable (last : Transaction) (es : list TextEdit) : bool :=
  match list.last (edits last), es with
  | Some previous, [next] =>
      match removed next with [] => true | _ => false end
      && negb (contains_byte LF (inserted next))
      && match removed previous with [] => true | _ => false end
      && (start previous + length (inserted previous) =? start next)
  | _, _ => false
  end.

Section WithAllocator.
Context `{A : Allocator}.

Definition edit_storage (es : list TextEdit) : N :=
  foldl (fun bytes e => usize_plus (usize_plus bytes (removed_capacity e)) (inserted_capacity e))
    (N.of_nat (length es) * size_of_edit)%N es.
Definition weight (t : Transaction) : N := edit_storage (edits t).
Definition slot_storage (capacity : N) : N := saturating_mul usize_max capacity size_of_transaction.
Definition total_weight (ts : list Transaction) : N :=
  foldl (fun bytes t => usize_plus bytes (weight t)) 0%N ts.
Definition retained_bytes (u : UndoHistory) : N := usize_plus (payload_bytes u) (slot_storage (entries_capacity u)).

(** The [while] loop of [plan_retention], over the entries from the front. *)
Fixpoint retire (u : UndoHistory) (es : list Transaction) (payload : N) (count retired spare : nat)
    : fallible N (nat * N * nat) :=
  if (max_entries u <? N.of_nat count)%N
     || (undo_max_bytes u <? usize_plus payload (slot_storage (N.of_nat count)))%N
  then
    if spare <=? retired then Some (inl (usize_plus payload (slot_storage (N.of_nat count))))
    else match es with
         | [] => None
         | e :: es' =>
             payload' ← minus payload (weight e);
             match count with
             | O => None
             | S count' => retire u es' payload' count' (retired + 1) spare
             end
         end
  else Some (inr (retired, payload, count)).

Definition plan_retention (u : UndoHistory) (payload : N) (count protected : nat) : fallible N RetentionPlan :=
  spare ← minus (N.of_nat (applied u)) (N.of_nat protected);
  let? (retired, payload, count) := retire u (entries u) payload count 0 (N.to_nat spare) in
  room ← minus (undo_max_bytes u) payload;
  let maximum_slots := (room / size_of_transaction)%N in
  if (N.of_nat count <=? entries_capacity u)%N && (entries_capacity u <=? maximum_slots)%N
  then Some (inr (mkPlan retired payload None))
  else
    let capacity :=
      N.min (N.min (N.max (N.max (saturating_mul usize_max (entries_capacity u) 2) 4) (N.of_nat count))
               (max_entries u)) maximum_slots in
    let actual := deque_capacity capacity in
    let actual_bytes := usize_plus payload (slot_storage actual) in
    if (undo_max_bytes u <? actual_bytes)%N then Some (inl actual_bytes)
    else Some (inr (mkPlan retired payload (Some actual))).

(** The optional merge into the open transaction [last]: [Some None] is
    "start a new transaction instead". *)
Definition prepare_merge (u : UndoHistory) (es : list TextEdit) (applied_bytes : N) (last : Transaction)
    : option (option PreparedUndo) :=
  if open last && mergeable last es then
    previous ← list.last (edits last);
    first ← head es;
    let needed := usize_plus (N.of_nat (length (inserted previous))) (N.of_nat (length (inserted first))) in
    fixed ← minus (weight last) (inserted_capacity previous);
    let maximum_capacity := (undo_max_bytes u - usize_plus fixed (slot_storage 1))%N in
    if (needed <=? maximum_capacity)%N then
      let replacement :=
        if (inserted_capacity previous <? needed)%N then
          let capacity := N.min (N.max (saturating_mul usize_max (inserted_capacity previous) 2) needed) maximum_capacity in
          Some (inserted previous ++ inserted first, string_capacity capacity)
        else None in
      let capacity := from_option snd (inserted_capacity previous) replacement in
      others ← minus applied_bytes (weight last);
      plan ← plan_retention u (usize_plus others (usize_plus fixed capacity)) (applied u) 1;
      Some (match plan with
            | inr retention => Some (mkPrepared es true true replacement retention)
            | inl _ => None
            end)
    else Some None
  else Some None.

Definition changes (e : TextEdit) : bool := negb (beq (removed e) (inserted e)).

Definition prepare (u : UndoHistory) (es : list TextEdit) (coalescable : bool)
    : fallible RefusalReason (option PreparedUndo) :=
  let es := filter (fun e => changes e = true) es in
  match es with
  | [] => Some (inr None)
  | _ =>
      let redo_bytes := total_weight (drop (applied u) (entries u)) in
      applied_bytes ← minus (payload_bytes u) redo_bytes;
      merged ← (if coalescable then
                  match applied u with
                  | O => Some None
                  | S index => match entries u !! index with
                               | Some last => prepare_merge u es applied_bytes last
                               | None => Some None
                               end
                  end
                else Some None);
      match merged with
      | Some prepared => Some (inr (Some prepared))
      | None =>
          let open := coalescable && (length es =? 1)
            && negb (existsb (fun e => contains_byte LF (inserted e) || match removed e with [] => false | _ => true end) es) in
          plan ← plan_retention u (usize_plus applied_bytes (edit_storage es)) (applied u + 1) 0;
          Some (match plan with
                | inr retention => inr (Some (mkPrepared es open false None retention))
                | inl bytes => inl (UndoStorageTooLarge bytes (undo_max_bytes u))
                end)
      end
  end.
End WithAllocator.

(** The front entries [commit] drops; the newest of them becomes the base. *)
Fixpoint retire_front (n : nat) (es : list Transaction) (base : option N) : option (list Transaction * option N) :=
  match n with
  | O => Some (es, base)
  | S n' => match es with
            | [] => None
            | e :: es' => retire_front n' es' (Some (serial e))
            end
  end.

(** The last insertion, lengthened by the new edit. *)
Definition extend_insertion (p : PreparedUndo) (e : TextEdit) : option TextEdit :=
  match replacement p with
  | Some (text, capacity) => Some (mkEdit (start e) (removed e) (removed_capacity e) text capacity)
  | None =>
      first ← head (prepared_edits p);
      Some (mkEdit (start e) (removed e) (removed_capacity e) (inserted e ++ inserted first) (inserted_capacity e))
  end.

Definition replace_last {X : Type} (l : list X) (x : X) : list X := take (length l - 1) l ++ [x].

(** The plan leaves room for the new entry, so that the deque never grows
    here ([commit_keeps] of [UndoInv.v]). *)
Definition commit (p : PreparedUndo) (u : UndoHistory) : option UndoHistory :=
  '(es, base) ← retire_front (retired (retention p)) (take (applied u) (entries u)) (base_token u);
  es ← (if merge p then
          last ← list.last es;
          previous ← list.last (edits last);
          extended ← extend_insertion p previous;
          Some (replace_last es (mkTransaction (next_serial u) (replace_last (edits last) extended) (open last)))
        else Some (es ++ [mkTransaction (next_serial u) (prepared_edits p) (prepared_open p)]));
  serial' ← checked_add u64_max (next_serial u) 1;
  Some (u <| entries := es |> <| base_token := base |>
          <| entries_capacity := default (entries_capacity u) (slots (retention p)) |>
          <| next_serial := serial' |> <| applied := length es |>
          <| payload_bytes := plan_payload (retention p) |>).

(** The transaction to invert, or [None] at the oldest point. *)
Definition step_back (u : UndoHistory) : option (option Transaction * UndoHistory) :=
  match applied u with
  | O => Some (None, u)
  | S index =>
      u ← close_transaction u;
      Some (entries u !! index, u <| applied := index |>)
  end.

Definition step_forward (u : UndoHistory) : option Transaction * UndoHistory :=
  match entries u !! applied u with
  | None => (None, u)
  | Some entry =>
      (Some (close entry), u <| entries := <[applied u := close entry]> (entries u) |> <| applied := applied u + 1 |>)
  end.

Definition undo_clear (u : UndoHistory) : UndoHistory :=
  u <| entries := [] |> <| entries_capacity := 0%N |> <| applied := 0 |> <| base_token := None |> <| payload_bytes := 0%N |>.
