(* ===== verification/Document.v ===== *)
(** * Text documents ([festerm-document/src/text.rs])

    The editable text of one document: decoding and encoding, edits with their
    bounds, undo and redo, and the saved point.  A panic is [None]; inside it a
    refusal is [inl]. *)

From Stdlib Require Import NArith Bool.
From S2P Require Import Prelude Cell Utf8 Str Undo.

Inductive LineEnding := Lf | Crlf | Cr.
Definition ending_bytes (e : LineEnding) : list N :=
  match e with Lf => [LF] | Crlf => [CR; LF] | Cr => [CR] end.

Inductive Encoding := Utf8 | Utf8Bom.
Inductive Indentation := Spaces (width : nat) | Tabs.

Inductive EditRefusal := OutOfOrder | OutOfBounds | Stale | Refused (reason : RefusalReason).

Inductive SavedPoint := Unwritten | History (token : option N).

Record TextDocument := mkDocument {
  doc_text : list N;
  encoding : Encoding;
  line_ending : LineEnding;
  indentation : Indentation;
  doc_bounds : DocumentBounds;
  undo_history : UndoHistory;
  saved_point : SavedPoint;
  revision : N
}.
#[export] Instance set_doc_text : Setter doc_text := fun v d => mkDocument v (encoding d) (line_ending d) (indentation d) (doc_bounds d) (undo_history d) (saved_point d) (revision d).
#[export] Instance set_undo_history : Setter undo_history := fun v d => mkDocument (doc_text d) (encoding d) (line_ending d) (indentation d) (doc_bounds d) v (saved_point d) (revision d).
#[export] Instance set_saved_point : Setter saved_point := fun v d => mkDocument (doc_text d) (encoding d) (line_ending d) (indentation d) (doc_bounds d) (undo_history d) v (revision d).
#[export] Instance set_revision : Setter revision := fun v d => mkDocument (doc_text d) (encoding d) (line_ending d) (indentation d) (doc_bounds d) (undo_history d) (saved_point d) v.

(** [u64::wrapping_add(1)]. *)
Definition next_revision (n : N) : N := ((n + 1) mod (u64_max + 1))%N.

(** ** Rewriting *)
Definition checked_sum (length : list N -> N) (texts : list (list N)) : option N :=
  foldl (fun total t => n ← total; checked_add usize_max n (length t)) (Some 0%N) texts.

Definition text_length (t : list N) : N := N.of_nat (length t).

Definition rewritten_length (len : N) (es : list TextEdit) (dir : EditDirection) : option N :=
  removed ← checked_sum text_length (map (fun e => fst (parts dir e)) es);
  inserted ← checked_sum text_length (map (fun e => snd (parts dir e)) es);
  kept ← minus len removed;
  checked_add usize_max kept inserted.

Fixpoint rewrite_loop (text : list N) (es : list TextEdit) (dir : EditDirection)
    (original_cursor source_cursor : nat) (result : list N) : option (list N) :=
  match es with
  | [] => rest ← str_from text source_cursor; Some (result ++ rest)
  | e :: es' =>
      if start e <? original_cursor then None
      else
        let untouched_end := source_cursor + (start e - original_cursor) in
        let '(source, replacement) := parts dir e in
        untouched ← str_slice text source_cursor untouched_end;
        rewrite_loop text es' dir (edit_end e) (untouched_end + length source)
          (result ++ untouched ++ replacement)
  end.

Definition rewrite_ordered_edits (text : list N) (es : list TextEdit) (dir : EditDirection) : option (list N) :=
  _ ← rewritten_length (text_length text) es dir;
  rewrite_loop text es dir 0 0 [].

Definition replay_ordered_edits (text : list N) (es : list TextEdit) (dir : EditDirection) : option (list N) :=
  if (length es =? 1) || forallb (fun e => length (removed e) =? length (inserted e)) es then
    for_each (fun e text =>
      let '(source, replacement) := parts dir e in
      replace_range text (start e) (start e + length source) replacement) es text
  else rewrite_ordered_edits text es dir.

(** ** Decoding *)

(** [normalise_line_endings]: CRLF and a lone CR become LF. *)
Fixpoint normalise_loop (t : list N) (skip_lf : bool) : list N :=
  match t with
  | [] => []
  | b :: t' =>
      if skip_lf && (b =? LF)%N then normalise_loop t' false
      else if (b =? CR)%N then LF :: normalise_loop t' true
      else b :: normalise_loop t' false
  end.
Definition normalise_line_endings (t : list N) : list N :=
  if contains_byte CR t then normalise_loop t false else t.

(** The subtractions cannot go below zero: each CRLF has one CR and one LF. *)
Definition detect_line_ending (t : list N) : LineEnding :=
  let crlf := count_matches [CR; LF] t in
  let cr := count_byte CR t - crlf in
  let lf := count_byte LF t - crlf in
  if (lf <=? crlf) && (cr <=? crlf) && (0 <? crlf) then Crlf
  else if (lf <? cr) && (0 <? cr) then Cr
  else Lf.

Fixpoint leading_spaces (l : list N) : nat :=
  match l with b :: l' => if (b =? SPACE)%N then S (leading_spaces l') else 0 | [] => 0 end.

(** The lines indented with tabs, and those with one to eight spaces by width. *)
Definition count_indentation (state : nat * list nat) (line : list N) : nat * list nat :=
  let '(tabs, widths) := state in
  if starts_with [9%N] line then (tabs + 1, widths)
  else
    let spaces := leading_spaces line in
    if (0 <? spaces) && (spaces <=? 8) then (tabs, alter S spaces widths) else (tabs, widths).

Definition detect_indentation (t : list N) : Indentation :=
  let '(tabs, widths) := foldl count_indentation (0, replicate 9 0) (str_lines t) in
  if foldr Nat.add 0 widths <? tabs then Tabs
  else match list_find (fun n => n <> 0) (drop 1 widths) with
       | Some (i, _) => Spaces (i + 1)
       | None => Spaces 4
       end.

(** One-based. *)
Definition first_overlong_line (t : list N) (limit : N) : option N :=
  '(i, _) ← list_find (fun line => (limit < text_length line)%N) (str_lines t);
  Some (N.of_nat i + 1)%N.

Definition line_total (t : list N) : N := N.max (N.of_nat (length (str_lines t))) 1.

(** The line checks [from_bytes] and [check_bounds] share. *)
Definition check_lines (b : DocumentBounds) (t : list N) : RefusalReason + unit :=
  if (max_lines b <? line_total t)%N then inl (TooManyLines (line_total t) (max_lines b))
  else match first_overlong_line t (max_line_bytes b) with
       | Some line => inl (LineTooLong line (max_line_bytes b))
       | None => inr tt
       end.

Definition BOM : list N := [239; 187; 191]%N.

Definition from_bytes (bs : list N) (b : DocumentBounds) : RefusalReason + TextDocument :=
  _ ← check_declared_size b (text_length bs);
  let '(enc, body) := if starts_with BOM bs then (Utf8Bom, drop 3 bs) else (Utf8, bs) in
  if contains_byte 0 body then inl BinaryContent
  else match from_utf8 body with
       | None => inl NotUtf8
       | Some _ =>
           let text := normalise_line_endings body in
           _ ← check_lines b text;
           inr (mkDocument text enc (detect_line_ending body) (detect_indentation text) b
                  UndoHistory_new (History None) 0)
       end.

Definition from_unsaved_bytes (bs : list N) (b : DocumentBounds) : RefusalReason + TextDocument :=
  d ← from_bytes bs b; inr (d <| saved_point := Unwritten |>).

Definition to_bytes (d : TextDocument) : list N :=
  let body := match line_ending d with
              | Lf => doc_text d
              | e => replace_byte LF (ending_bytes e) (doc_text d)
              end in
  match encoding d with Utf8Bom => BOM ++ body | Utf8 => body end.

Definition is_dirty (d : TextDocument) : bool :=
  match saved_point d with
  | Unwritten => true
  | History t => negb (bool_decide (token (undo_history d) = t))
  end.

Definition close_document_transaction (d : TextDocument) : option TextDocument :=
  u ← close_transaction (undo_history d); Some (d <| undo_history := u |>).

Definition save_point (d : TextDocument) : option N := token (undo_history d).
Definition mark_saved_at (point : option N) (d : TextDocument) : option TextDocument :=
  close_document_transaction (d <| saved_point := History point |>).
Definition mark_saved (d : TextDocument) : option TextDocument :=
  close_document_transaction (d <| saved_point := History (token (undo_history d)) |>).

Definition reload_from (bs : list N) (d : TextDocument) : RefusalReason + TextDocument :=
  r ← from_bytes bs (doc_bounds d);
  inr (mkDocument (doc_text r) (encoding r) (line_ending r) (indentation r) (doc_bounds d)
         (undo_clear (undo_history d)) (History None) (next_revision (revision d))).

(** ** Editing *)
Fixpoint common_bytes (l r : list N) : nat :=
  match l, r with
  | x :: l', y :: r' => if (x =? y)%N then S (common_bytes l' r') else 0
  | _, _ => 0
  end.
Definition common_prefix (l r : list N) : nat := floor_char_boundary l (common_bytes l r).
Definition common_suffix (l r : list N) : nat :=
  length l - ceil_char_boundary l (length l - common_bytes (reverse l) (reverse r)).

Definition check_bounds (d : TextDocument) (candidate : list N) : RefusalReason + unit :=
  _ ← check_declared_size (doc_bounds d) (text_length candidate);
  check_lines (doc_bounds d) candidate.

(** [TextDocument::apply_edits]: the checks against the current text. *)
Fixpoint validate_edits (text : list N) (previous_end : nat) (es : list TextEdit) : option (EditRefusal + unit) :=
  match es with
  | [] => Some (inr tt)
  | e :: es' =>
      match checked_add usize_max (N.of_nat (start e)) (text_length (removed e)) with
      | None => Some (inl OutOfBounds)
      | Some _ =>
          if start e <? previous_end then Some (inl OutOfOrder)
          else if (length text <? edit_end e) || negb (is_char_boundary text (start e))
                  || negb (is_char_boundary text (edit_end e))
          then Some (inl OutOfBounds)
          else
            current ← str_slice text (start e) (edit_end e);
            if beq current (removed e) then validate_edits text (edit_end e) es' else Some (inl Stale)
      end
  end.

Section WithAllocator.
Context `{A : Allocator}.

(** [str::to_owned] on both texts. *)
Definition owned_edit (start : nat) (removed inserted : list N) : TextEdit :=
  mkEdit start removed (string_capacity (text_length removed)) inserted (string_capacity (text_length inserted)).

Definition apply_transaction (es : list TextEdit) (coalescable : bool) (d : TextDocument)
    : fallible RefusalReason TextDocument :=
  let? prepared := prepare (undo_history d) es coalescable in
  match prepared with
  | None => Some (inr d)
  | Some prepared =>
      len ← rewritten_length (text_length (doc_text d)) (prepared_edits prepared) Forward;
      match check_declared_size (doc_bounds d) len with
      | inl reason => Some (inl reason)
      | inr _ =>
          candidate ← rewrite_ordered_edits (doc_text d) (prepared_edits prepared) Forward;
          match check_bounds d candidate with
          | inl reason => Some (inl reason)
          | inr _ =>
              u ← commit prepared (undo_history d);
              Some (inr (d <| undo_history := u |> <| doc_text := candidate |>
                           <| revision := next_revision (revision d) |>))
          end
      end
  end.

Definition edit_for (d : TextDocument) (first last : nat) (replacement : list N) : option TextEdit :=
  let t := doc_text d in
  let a := floor_char_boundary t (Nat.min first (length t)) in
  let b := Nat.max (floor_char_boundary t (Nat.min last (length t))) a in
  removed ← str_slice t a b;
  Some (owned_edit a removed replacement).

(** [TextDocument::replace] over [first..last]. *)
Definition replace (first last : nat) (replacement : list N) (d : TextDocument)
    : fallible RefusalReason TextDocument :=
  e ← edit_for d first last replacement;
  apply_transaction [e] false d.

(** The flag is whether anything changed. *)
Definition sync_from_view (updated : list N) (d : TextDocument)
    : fallible RefusalReason (bool * TextDocument) :=
  let t := doc_text d in
  if beq updated t then Some (inr (false, d))
  else
    let prefix := common_prefix t updated in
    t_rest ← str_from t prefix;
    updated_rest ← str_from updated prefix;
    let suffix := common_suffix t_rest updated_rest in
    removed ← str_slice t prefix (length t - suffix);
    inserted ← str_slice updated prefix (length updated - suffix);
    let coalescable := (length removed =? 0) && (char_count inserted =? 1) in
    let? d := apply_transaction [owned_edit prefix removed inserted] coalescable d in
    Some (inr (true, d)).

(** The [while let] loop of [replace_all]; every match takes at least one byte
    of the text, so its length is enough fuel. *)
Fixpoint find_all (fuel : nat) (text query replacement : list N) (search_from : nat) : option (list TextEdit) :=
  match fuel with
  | O => None
  | S fuel' =>
      rest ← str_from text search_from;
      match find query rest with
      | None => Some []
      | Some found =>
          let first := search_from + found in
          es ← find_all fuel' text query replacement (first + length query);
          Some (owned_edit first query replacement :: es)
      end
  end.

Definition replace_all (query replacement : list N) (d : TextDocument)
    : fallible RefusalReason (nat * TextDocument) :=
  match query with
  | [] => Some (inr (0, d))
  | _ =>
      if beq query replacement then Some (inr (count_matches query (doc_text d), d))
      else
        es ← find_all (S (length (doc_text d))) (doc_text d) query replacement 0;
        let? d := (if 0 <? length es then apply_transaction es false d else Some (inr d)) in
        Some (inr (length es, d))
  end.

Definition apply_edits (es : list TextEdit) (d : TextDocument) : fallible EditRefusal (nat * TextDocument) :=
  match es with
  | [] => Some (inr (0, d))
  | _ =>
      let? _ := validate_edits (doc_text d) 0 es in
      applied ← apply_transaction es false d;
      Some (match applied with
            | inl reason => inl (Refused reason)
            | inr d => inr (length es, d)
            end)
  end.
End WithAllocator.

(** The flag is whether anything changed. *)
Definition undo (d : TextDocument) : option (bool * TextDocument) :=
  '(transaction, u) ← step_back (undo_history d);
  match transaction with
  | None => Some (false, d <| undo_history := u |>)
  | Some t =>
      text ← replay_ordered_edits (doc_text d) (edits t) Backward;
      Some (true, d <| undo_history := u |> <| doc_text := text |> <| revision := next_revision (revision d) |>)
  end.

Definition redo (d : TextDocument) : option (bool * TextDocument) :=
  let '(transaction, u) := step_forward (undo_history d) in
  match transaction with
  | None => Some (false, d <| undo_history := u |>)
  | Some t =>
      text ← replay_ordered_edits (doc_text d) (edits t) Forward;
      Some (true, d <| undo_history := u |> <| doc_text := text |> <| revision := next_revision (revision d) |>)
  end.

(** ** Read-outs *)
Definition line_count (d : TextDocument) : N := line_total (doc_text d).

(** [char_indices().nth(characters)], or the end. *)
Definition byte_offset_of_char (d : TextDocument) (characters : nat) : nat :=
  default (length (doc_text d))
    (filter (fun i => is_char_boundary (doc_text d) i = true) (seq 0 (length (doc_text d))) !! characters).

Definition rfind_byte (b : N) (t : list N) : option nat :=
  '(i, _) ← list_find (fun x => x = b) (reverse t); Some (length t - 1 - i).

Definition line_and_column (d : TextDocument) (offset : nat) : option (nat * nat) :=
  let offset := Nat.min offset (length (doc_text d)) in
  before ← str_slice (doc_text d) 0 offset;
  let line_start := from_option (fun i => i + 1) 0 (rfind_byte LF before) in
  line ← str_slice (doc_text d) line_start offset;
  Some (count_byte LF before + 1, char_count line + 1).
