(* ===== verification/StrSpec.v ===== *)
(** * Valid strings and their character boundaries *)

From Stdlib Require Import NArith ZArith Bool.
From S2P Require Import Prelude Cell Utf8 Str.

(** The bytes of a [str]: the encoding of a list of characters. *)
Definition valid_str (t : list N) : Prop := exists cs, Forall (fun c => scalar c = true) cs /\ t = encode_text cs.

Lemma encode_text_app a b : encode_text (a ++ b) = encode_text a ++ encode_text b.
Proof. apply flat_map_app. Qed.

Lemma valid_nil : valid_str [].
Proof. by exists []. Qed.

Lemma valid_app a b : valid_str a -> valid_str b -> valid_str (a ++ b).
Proof.
  intros (ca & Ha & ->) (cb & Hb & ->). exists (ca ++ cb). split; [by apply Forall_app|]. by rewrite encode_text_app.
Qed.

Lemma encode_bytes c :
  scalar c = true ->
  exists lead rest, encode_utf8 c = lead :: rest /\ tail_byte lead = false /\ Forall (fun b => tail_byte b = true) rest.
Proof.
  intros Hc. destruct (decide (128 <= c)%N) as [H|H].
  - destruct (encode_utf8_shape c Hc H) as (lead & rest & E & Hl & Hr). exists lead, rest. split_and!; [done| |].
    + unfold lead_expected, in_range in Hl. unfold tail_byte, in_range. repeat case_match; simplify_eq; lia.
    + apply Forall_lookup_2. intros i b Hb. by destruct (Hr i b Hb).
  - exists c, []. unfold encode_utf8. rewrite (proj2 (N.ltb_lt _ _)) by lia. split_and!; [done| |constructor].
    unfold tail_byte, in_range. lia.
Qed.

Lemma valid_encode c : scalar c = true -> valid_str (encode_utf8 c).
Proof. intros Hc. exists [c]. split; [by constructor|]. cbn. by rewrite app_nil_r. Qed.

Lemma valid_ascii b : (b < 128)%N -> valid_str [b].
Proof.
  intros H. exists [b]. split; [|cbn; unfold encode_utf8; by rewrite (proj2 (N.ltb_lt _ _))].
  constructor; [|done]. unfold scalar. rewrite (proj2 (N.ltb_lt b 55296)) by lia. done.
Qed.

Lemma valid_str_ind (Q : list N -> Prop) :
  Q [] -> (forall c t, scalar c = true -> valid_str t -> Q t -> Q (encode_utf8 c ++ t)) -> forall t, valid_str t -> Q t.
Proof.
  intros H0 Hs t (cs & Hcs & ->). induction Hcs as [|c cs Hc Hcs IH]; [done|]. cbn. apply Hs; [done|by exists cs|done].
Qed.

Lemma valid_head t b : valid_str t -> t !! 0 = Some b -> tail_byte b = false.
Proof.
  intros H. induction H as [|c t Hc _ _] using valid_str_ind; [done|].
  destruct (encode_bytes c Hc) as (lead & rest & -> & Hl & _). cbn. by intros [= <-].
Qed.

(** [from_utf8] accepts exactly the valid strings. *)
Lemma from_utf8_fuel_valid fuel t cs : from_utf8_fuel fuel t = Some cs -> valid_str t.
Proof.
  revert t cs. induction fuel as [|fuel IH]; intros t cs; destruct t as [|b t]; cbn [from_utf8_fuel].
  - intros _. apply valid_nil.
  - done.
  - intros _. apply valid_nil.
  - destruct (next_code_point (b :: t)) as [[c rest]|] eqn:E; cbn; [|done].
    destruct (from_utf8_fuel fuel rest) as [cs'|] eqn:E'; cbn; [|done]. intros _.
    destruct (next_code_point_sound _ _ _ E) as [Hc ->]. apply valid_app; [by apply valid_encode|by apply (IH rest cs')].
Qed.

Lemma from_utf8_iff t : (exists cs, from_utf8 t = Some cs) <-> valid_str t.
Proof.
  split.
  - intros [cs H]. by apply (from_utf8_fuel_valid (length t) t cs).
  - intros (cs & Hcs & ->). exists cs. unfold from_utf8. by apply from_utf8_fuel_encode.
Qed.

Lemma valid_drop_char c t : scalar c = true -> valid_str (encode_utf8 c ++ t) -> valid_str t.
Proof.
  intros Hc (cs & Hcs & E). pose proof (next_code_point_encode c t Hc) as H. rewrite E in H.
  destruct cs as [|c' cs]; [done|]. apply Forall_cons_iff in Hcs as [Hc' Hcs]. cbn in H.
  rewrite next_code_point_encode in H by done. injection H as -> <-. by exists cs.
Qed.

Lemma valid_app_r p t : valid_str p -> valid_str (p ++ t) -> valid_str t.
Proof.
  intros H. induction H as [|c p Hc _ IH] using valid_str_ind; [done|].
  rewrite <- app_assoc. intros H. apply IH. by apply (valid_drop_char c).
Qed.

(** ** Boundaries *)
Lemma boundary_le t i : is_char_boundary t i = true -> i <= length t.
Proof.
  destruct i as [|i]; unfold is_char_boundary; [lia|]. destruct (t !! S i) eqn:E; [apply lookup_lt_Some in E; lia|].
  intros H. apply Nat.eqb_eq in H. lia.
Qed.

Lemma boundary_app a b : valid_str b -> is_char_boundary (a ++ b) (length a) = true.
Proof.
  intros Hb. destruct a as [|x a]; [done|]. unfold is_char_boundary. cbn [length].
  rewrite lookup_app_r by (cbn; lia). cbn [length]. rewrite Nat.sub_diag. destruct (b !! 0) eqn:E.
  - by rewrite (valid_head b n).
  - apply lookup_ge_None_1 in E. rewrite length_app. cbn. apply Nat.eqb_eq. lia.
Qed.

Lemma boundary_end t : is_char_boundary t (length t) = true.
Proof. pose proof (boundary_app t [] valid_nil) as H. by rewrite app_nil_r in H. Qed.

Lemma valid_split t i :
  valid_str t -> is_char_boundary t i = true -> valid_str (take i t) /\ valid_str (drop i t).
Proof.
  intros H. revert i. induction H as [|c t Hc Ht IH] using valid_str_ind; intros i Hb.
  { apply boundary_le in Hb. rewrite take_nil, drop_nil. split; apply valid_nil. }
  destruct (decide (i = 0)) as [->|Hi]; [split; [apply valid_nil|apply valid_app; [by apply valid_encode|done]]|].
  destruct (encode_bytes c Hc) as (lead & rest & E & _ & Hr).
  destruct (decide (i < length (encode_utf8 c))) as [Hlt|Hge].
  - exfalso. unfold is_char_boundary in Hb. destruct i as [|i]; [done|].
    rewrite lookup_app_l, E in Hb by done. cbn in Hb. rewrite E in Hlt. cbn in Hlt.
    destruct (rest !! i) as [b|] eqn:Eb; [|apply lookup_ge_None_1 in Eb; lia].
    pose proof (Forall_lookup_1 _ _ _ _ Hr Eb) as Hb'. cbn in Hb'. by rewrite Hb' in Hb.
  - rewrite take_app_ge, drop_app_ge by lia. destruct (IH (i - length (encode_utf8 c))) as [H1 H2].
    + destruct (i - length (encode_utf8 c)) as [|k] eqn:Ek; [done|]. unfold is_char_boundary in *. destruct i as [|i]; [done|].
      rewrite lookup_app_r, Ek in Hb by lia. destruct (t !! S k); [done|]. rewrite length_app in Hb.
      apply Nat.eqb_eq in Hb. apply Nat.eqb_eq. lia.
    + split; [apply valid_app; [by apply valid_encode|done]|done].
Qed.

Lemma valid_app_l a b : valid_str (a ++ b) -> valid_str b -> valid_str a.
Proof.
  intros H Hb. destruct (valid_split _ _ H (boundary_app a b Hb)) as [Ha _]. by rewrite take_app_length in Ha.
Qed.

(** Where a non-empty string occurs in a valid text, it starts and ends at a
    boundary. *)
Lemma valid_occurrence a p b :
  valid_str (a ++ p ++ b) -> valid_str p -> p <> [] -> valid_str a /\ valid_str b.
Proof.
  intros H Hp Hne. assert (is_char_boundary (a ++ p ++ b) (length a) = true) as Hbd.
  { destruct a as [|x a]; [done|]. unfold is_char_boundary. cbn [length]. rewrite lookup_app_r by (cbn; lia).
    cbn [length]. rewrite Nat.sub_diag. destruct p as [|y p]; [done|]. cbn. by rewrite (valid_head (y :: p) y). }
  destruct (valid_split _ _ H Hbd) as [Ha Hpb]. rewrite take_app_length, drop_app_length in *.
  split; [done|]. by apply (valid_app_r p).
Qed.

(** ** Slices *)
Lemma str_slice_app a u b :
  valid_str u -> valid_str b -> str_slice (a ++ u ++ b) (length a) (length a + length u) = Some u.
Proof.
  intros Hu Hb. unfold str_slice. rewrite boundary_app by (by apply valid_app).
  assert (is_char_boundary (a ++ u ++ b) (length a + length u) = true) as ->
    by (rewrite app_assoc, <- length_app; by apply boundary_app).
  rewrite !length_app, !(proj2 (Nat.leb_le _ _)) by lia. cbn [andb]. f_equal.
  rewrite drop_app_length. replace (length a + length u - length a) with (length u) by lia. apply take_app_length.
Qed.

Lemma str_from_app a b : valid_str b -> str_from (a ++ b) (length a) = Some b.
Proof.
  intros Hb. unfold str_from. pose proof (str_slice_app a b [] Hb valid_nil) as H. rewrite app_nil_r in H.
  by rewrite length_app.
Qed.

Lemma replace_range_app a u b new :
  valid_str u -> valid_str b -> replace_range (a ++ u ++ b) (length a) (length a + length u) new = Some (a ++ new ++ b).
Proof.
  intros Hu Hb. unfold replace_range. rewrite boundary_app by (by apply valid_app).
  assert (is_char_boundary (a ++ u ++ b) (length a + length u) = true) as ->
    by (rewrite app_assoc, <- length_app; by apply boundary_app).
  rewrite !length_app, !(proj2 (Nat.leb_le _ _)) by lia. cbn [andb]. f_equal.
  rewrite take_app_length. f_equal. f_equal. by rewrite app_assoc, <- length_app, drop_app_length.
Qed.

(** A slice between boundaries of a valid text splits it in valid parts. *)
Lemma str_split t i j :
  valid_str t -> is_char_boundary t i = true -> is_char_boundary t j = true -> i <= j ->
  exists a u b, t = a ++ u ++ b /\ length a = i /\ length a + length u = j /\ str_slice t i j = Some u /\
    valid_str a /\ valid_str u /\ valid_str b.
Proof.
  intros Ht Hi Hj Hij. pose proof (boundary_le _ _ Hj). destruct (valid_split t i Ht Hi) as [Ha _].
  destruct (valid_split t j Ht Hj) as [Hau Hb].
  exists (take i t), (take (j - i) (drop i t)), (drop j t).
  assert (t = take i t ++ take (j - i) (drop i t) ++ drop j t) as E.
  { replace (drop j t) with (drop (j - i) (drop i t)) by (rewrite drop_drop; f_equal; lia). by rewrite !take_drop. }
  assert (take j t = take i t ++ take (j - i) (drop i t)) as Ej.
  { apply (app_inj_2 _ _ (drop j t) (drop j t)); [done|]. by rewrite take_drop, <- app_assoc. }
  split_and!; [done|rewrite length_take; lia|rewrite !length_take, length_drop; lia| |done| |done].
  - unfold str_slice. rewrite Hi, Hj, !(proj2 (Nat.leb_le _ _)) by lia. done.
  - rewrite Ej in Hau. by apply (valid_app_r (take i t)).
Qed.

Lemma floor_spec t i : floor_char_boundary t i <= i /\ (i <= length t -> is_char_boundary t (floor_char_boundary t i) = true).
Proof.
  induction i as [|i [IH1 IH2]]; [done|]. cbn [floor_char_boundary]. destruct (is_char_boundary t (S i)) eqn:E.
  - split; [lia|done].
  - split; [lia|]. intros. apply IH2. lia.
Qed.

Lemma ceil_spec t i :
  i <= length t -> i <= ceil_char_boundary t i <= length t /\ is_char_boundary t (ceil_char_boundary t i) = true.
Proof.
  intros Hi. unfold ceil_char_boundary. remember (length t - i) as fuel eqn:Hf. revert i Hi Hf.
  induction fuel as [|fuel IH]; intros i Hi Hf; cbn [ceil_loop].
  - replace i with (length t) by lia. split; [lia|apply boundary_end].
  - destruct (is_char_boundary t i) eqn:E; [rewrite andb_false_r; split; [lia|done]|].
    rewrite (proj2 (Nat.ltb_lt _ _)) by lia. cbn [andb negb]. destruct (IH (i + 1)); [lia|lia|]. split; [lia|done].
Qed.

(** ** Searching *)
Lemma starts_with_spec p t : starts_with p t = true <-> exists rest, t = p ++ rest.
Proof.
  revert t. induction p as [|x p IH]; intros t; cbn.
  - split; [by exists t|done].
  - destruct t as [|y t]; [split; [done|by intros [? ?]]|]. rewrite andb_true_iff, N.eqb_eq, IH. split.
    + intros [-> [rest ->]]. by exists rest.
    + intros [rest [= -> ->]]. split; [done|by exists rest].
Qed.

(** The first occurrence. *)
Lemma find_Some p t i :
  find p t = Some i ->
  exists a b, t = a ++ p ++ b /\ length a = i /\ forall a' b', t = a' ++ p ++ b' -> i <= length a'.
Proof.
  revert i. induction t as [|x t IH]; intros i; cbn [find]; destruct (starts_with p _) eqn:E.
  - intros [= <-]. apply starts_with_spec in E as [rest ->]. exists [], rest. split_and!; [done|done|lia].
  - done.
  - intros [= <-]. apply starts_with_spec in E as [rest E]. exists [], rest. split_and!; [done|done|lia].
  - destruct (find p t) as [j|] eqn:Ej; [|done]. cbn. intros [= <-].
    destruct (IH j eq_refl) as (a & b & -> & <- & Hmin). exists (x :: a), b. split_and!; [done|done|].
    intros a' b' Ht. destruct a' as [|y a']; [|injection Ht as -> Ht; specialize (Hmin a' b' Ht); cbn; lia].
    exfalso. assert (starts_with p (x :: a ++ p ++ b) = true) as H by (apply starts_with_spec; by exists b'). by rewrite H in E.
Qed.

Lemma find_None p t : find p t = None -> forall a b, t <> a ++ p ++ b.
Proof.
  induction t as [|x t IH]; cbn [find]; destruct (starts_with p _) eqn:E; try done; intros H a b Ht.
  - destruct a; [|done]. assert (starts_with p [] = true) as H'; [apply starts_with_spec; by exists b|]. by rewrite H' in E.
  - destruct (find p t); [done|]. destruct a as [|y a].
    + assert (starts_with p (x :: t) = true) as H'; [apply starts_with_spec; by exists b|]. by rewrite H' in E.
    + injection Ht as -> Ht. by apply (IH eq_refl a b).
Qed.
