(* ===== verification/EditSpec.v ===== *)
(** * Ordered edits and their inverse

    [patches o es s t]: the ordered edits [es], whose offsets name a text in
    which [s] starts at [o], turn [s] into [t].  The rewriting and replaying
    routines of [text.rs] compute it, in both directions. *)

From Stdlib Require Import NArith Bool.
From S2P Require Import Prelude Cell Utf8 Str StrSpec Undo Document.

Inductive patches : nat -> list TextEdit -> list N -> list N -> Prop :=
  | patches_nil o rest : valid_str rest -> patches o [] rest rest
  | patches_cons o e es u rest rest' :
      start e = o + length u -> valid_str u -> valid_str (removed e) -> valid_str (inserted e) ->
      patches (o + length u + length (removed e)) es rest rest' ->
      patches o (e :: es) (u ++ removed e ++ rest) (u ++ inserted e ++ rest').

Lemma patches_valid o es s t : patches o es s t -> valid_str s /\ valid_str t.
Proof. induction 1 as [|o e es u rest rest' _ ? ? ? _ [? ?]]; [done|]. split; repeat apply valid_app; done. Qed.

(** The text a direction starts from, and the one it ends in. *)
Definition pick (dir : EditDirection) (s t : list N) : list N * list N :=
  match dir with Forward => (s, t) | Backward => (t, s) end.

(** ** The single pass *)
Lemma rewrite_loop_patches dir o es s t : patches o es s t -> forall done_ cursor result,
  cursor = length done_ ->
  rewrite_loop (done_ ++ fst (pick dir s t)) es dir o cursor result = Some (result ++ snd (pick dir s t)).
Proof.
  induction 1 as [o rest Hr|o e es u rest rest' Ho Hu Hrm Hi Hp IH]; intros done_ cursor result ->; cbn [rewrite_loop].
  - assert (fst (pick dir rest rest) = rest /\ snd (pick dir rest rest) = rest) as [-> ->] by (by destruct dir).
    by rewrite str_from_app.
  - rewrite (proj2 (Nat.ltb_ge _ _)) by lia. destruct (patches_valid _ _ _ _ Hp) as [Hv Hv'].
    replace (start e - o) with (length u) by lia. unfold edit_end. rewrite Ho.
    destruct (parts dir e) as [source replacement] eqn:Ep.
    assert (fst (pick dir (u ++ removed e ++ rest) (u ++ inserted e ++ rest')) = u ++ source ++ fst (pick dir rest rest') /\
      snd (pick dir (u ++ removed e ++ rest) (u ++ inserted e ++ rest')) = u ++ replacement ++ snd (pick dir rest rest') /\
      valid_str source /\ valid_str (fst (pick dir rest rest'))) as (-> & -> & Hs & Hf) by (by destruct dir; injection Ep as <- <-).
    rewrite str_slice_app by (done || by apply valid_app). cbn [mbind option_bind].
    rewrite (app_assoc u), (app_assoc done_). rewrite IH by (rewrite !length_app; lia). by rewrite <- !app_assoc.
Qed.

(** ** The lengths *)
Definition total_length (ts : list (list N)) : N := foldr (fun t n => (text_length t + n)%N) 0%N ts.

Lemma checked_sum_total ts :
  (total_length ts <= usize_max)%N -> checked_sum text_length ts = Some (total_length ts).
Proof.
  unfold checked_sum. enough (forall n, (n + total_length ts <= usize_max)%N ->
    foldl (fun total t => n ← total; checked_add usize_max n (text_length t)) (Some n) ts = Some (n + total_length ts)%N) as H.
  { intros Hle. rewrite H by lia. done. }
  induction ts as [|t ts IH]; intros n Hn; [cbn; f_equal; lia|].
  change (total_length (t :: ts)) with (text_length t + total_length ts)%N in *. cbn [foldl mbind option_bind].
  unfold checked_add at 2. rewrite (proj2 (N.leb_le _ _)) by lia. rewrite IH by lia. f_equal. lia.
Qed.

Definition sources (dir : EditDirection) (es : list TextEdit) : list (list N) := map (fun e => fst (parts dir e)) es.
Definition replacements (dir : EditDirection) (es : list TextEdit) : list (list N) := map (fun e => snd (parts dir e)) es.

Lemma patches_lengths dir o es s t :
  patches o es s t ->
  (text_length (fst (pick dir s t)) + total_length (replacements dir es) =
   text_length (snd (pick dir s t)) + total_length (sources dir es))%N /\
  (total_length (sources dir es) <= text_length (fst (pick dir s t)))%N.
Proof.
  induction 1 as [o rest Hr|o e es u rest rest' Ho Hu Hrm Hi Hp IH]; [destruct dir; cbn; lia|].
  change (total_length (sources dir (e :: es))) with (text_length (fst (parts dir e)) + total_length (sources dir es))%N.
  change (total_length (replacements dir (e :: es)))
    with (text_length (snd (parts dir e)) + total_length (replacements dir es))%N.
  destruct dir; cbn [parts pick fst snd] in *; unfold text_length in *; rewrite !length_app; lia.
Qed.

Lemma rewritten_length_patches dir o es s t :
  patches o es s t ->
  (text_length (fst (pick dir s t)) + total_length (replacements dir es) <= usize_max)%N ->
  rewritten_length (text_length (fst (pick dir s t))) es dir = Some (text_length (snd (pick dir s t))).
Proof.
  intros Hp Hle. destruct (patches_lengths dir _ _ _ _ Hp) as [He Hs]. unfold rewritten_length.
  fold (sources dir es). fold (replacements dir es). rewrite !checked_sum_total by lia. cbn [mbind option_bind].
  unfold minus. rewrite (proj2 (N.leb_le _ _)) by lia. cbn [mbind option_bind]. unfold checked_add.
  rewrite (proj2 (N.leb_le _ _)) by lia. f_equal. lia.
Qed.

Definition both_fit (es : list TextEdit) (s t : list N) : Prop :=
  (text_length s + total_length (replacements Forward es) <= usize_max)%N /\
  (text_length t + total_length (replacements Backward es) <= usize_max)%N.

Lemma rewrite_patches dir es s t :
  patches 0 es s t -> (text_length (fst (pick dir s t)) + total_length (replacements dir es) <= usize_max)%N ->
  rewrite_ordered_edits (fst (pick dir s t)) es dir = Some (snd (pick dir s t)).
Proof.
  intros Hp Hle. unfold rewrite_ordered_edits. rewrite (rewritten_length_patches dir 0 es s t Hp Hle). cbn [mbind option_bind].
  by apply (rewrite_loop_patches dir 0 es s t Hp [] 0 []).
Qed.

(** ** Replaying in place *)
Lemma replay_in_place dir o es s t :
  patches o es s t -> forall done_, length done_ = o -> forallb (fun e => length (removed e) =? length (inserted e)) es = true ->
  for_each (fun e text => let '(source, replacement) := parts dir e in
      replace_range text (start e) (start e + length source) replacement) es (done_ ++ fst (pick dir s t)) =
    Some (done_ ++ snd (pick dir s t)).
Proof.
  induction 1 as [o rest Hr|o e es u rest rest' Ho Hu Hrm Hi Hp IH]; intros done_ <- Heq; cbn [for_each].
  - by destruct dir.
  - cbn in Heq. apply andb_true_iff in Heq as [Hl Heq]. apply Nat.eqb_eq in Hl.
    destruct (patches_valid _ _ _ _ Hp) as [Hv Hv']. destruct (parts dir e) as [source replacement] eqn:Ep.
    assert (fst (pick dir (u ++ removed e ++ rest) (u ++ inserted e ++ rest')) = u ++ source ++ fst (pick dir rest rest') /\
      snd (pick dir (u ++ removed e ++ rest) (u ++ inserted e ++ rest')) = u ++ replacement ++ snd (pick dir rest rest') /\
      valid_str source /\ valid_str (fst (pick dir rest rest')) /\ length replacement = length (removed e))
      as (-> & -> & Hs & Hf & Hlr) by (destruct dir; injection Ep as <- <-; split_and!; done).
    rewrite app_assoc, Ho, <- length_app. rewrite replace_range_app by done. cbn [mbind option_bind].
    rewrite app_assoc. rewrite IH; [by rewrite <- !app_assoc|rewrite !length_app; lia|done].
Qed.

Lemma replay_patches dir es s t :
  patches 0 es s t -> (text_length (fst (pick dir s t)) + total_length (replacements dir es) <= usize_max)%N ->
  replay_ordered_edits (fst (pick dir s t)) es dir = Some (snd (pick dir s t)).
Proof.
  intros Hp Hle. unfold replay_ordered_edits.
  destruct (forallb (fun e => length (removed e) =? length (inserted e)) es) eqn:Eall.
  - rewrite orb_true_r. by apply (replay_in_place dir 0 es s t Hp []).
  - rewrite orb_false_r. destruct (length es =? 1) eqn:E1; [|by apply rewrite_patches].
    apply Nat.eqb_eq in E1. destruct es as [|e [|? ?]]; [done| |done]. cbn [for_each].
    inversion Hp as [|? ? ? u rest rest' Ho Hu Hrm Hi Hp']; subst. inversion Hp'; subst.
    destruct dir; cbn [parts pick fst snd]; rewrite Ho; cbn [Nat.add]; by rewrite replace_range_app.
Qed.

(** ** Building edits *)
Lemma patches_shift o x es s t :
  valid_str x -> patches (o + length x) es s t -> patches o es (x ++ s) (x ++ t).
Proof.
  intros Hx Hp. inversion Hp as [? rest|? e es' u rest rest' Ho]; subst.
  - apply patches_nil. by apply valid_app.
  - rewrite !(app_assoc x). apply patches_cons; [rewrite length_app; lia|by apply valid_app|done|done|].
    rewrite length_app. by replace (o + (length x + length u)) with (o + length x + length u) by lia.
Qed.

Lemma patches_changes o es s t : patches o es s t -> patches o (filter (fun e => changes e = true) es) s t.
Proof.
  induction 1 as [|o e es u rest rest' Ho Hu Hrm Hi Hp IH]; [by apply patches_nil|].
  rewrite filter_cons. case_decide as Hc; [by apply patches_cons|].
  unfold changes in Hc. destruct (beq (removed e) (inserted e)) eqn:E; [|done]. apply bool_decide_eq_true in E.
  rewrite <- E, !(app_assoc u). apply patches_shift; [by apply valid_app|]. rewrite length_app.
  by replace (o + (length u + length (removed e))) with (o + length u + length (removed e)) by lia.
Qed.

Lemma patches_one s u e rest :
  s = u ++ removed e ++ rest -> start e = length u -> valid_str u -> valid_str (removed e) -> valid_str (inserted e) ->
  valid_str rest -> patches 0 [e] s (u ++ inserted e ++ rest).
Proof. intros -> ? ? ? ? ?. apply patches_cons; try done. by apply patches_nil. Qed.

Lemma patches_one_inv e s t :
  patches 0 [e] s t ->
  exists u rest, s = u ++ removed e ++ rest /\ t = u ++ inserted e ++ rest /\ start e = length u /\
    valid_str u /\ valid_str (removed e) /\ valid_str (inserted e) /\ valid_str rest.
Proof.
  intros H. inversion H as [|? ? ? u rest rest' Ho Hu Hrm Hi Hr]; subst. inversion Hr; subst.
  exists u, rest'. by split_and!.
Qed.

Definition edit_str (e : TextEdit) : Prop := valid_str (removed e) /\ valid_str (inserted e).

Lemma validate_patches text es : forall done_ s,
  text = done_ ++ s -> valid_str done_ -> valid_str s -> Forall edit_str es ->
  (exists r, validate_edits text (length done_) es = Some r) /\
  (validate_edits text (length done_) es = Some (inr tt) -> exists t, patches (length done_) es s t).
Proof.
  induction es as [|e es IH]; intros done_ s -> Hd Hs Hes; cbn [validate_edits].
  { split; [by eexists|]. intros _. exists s. by apply patches_nil. }
  apply Forall_cons_iff in Hes as [[Hrm Hin] Hes].
  destruct (checked_add _ _ _); [|split; [by eexists|done]].
  destruct (Nat.ltb_spec (start e) (length done_)); [split; [by eexists|done]|].
  destruct (is_char_boundary _ (start e)) eqn:E1; [|rewrite orb_true_r; split; [by eexists|done]].
  destruct (is_char_boundary _ (edit_end e)) eqn:E2; [|rewrite !orb_true_r; split; [by eexists|done]].
  destruct (Nat.ltb_spec (length (done_ ++ s)) (edit_end e)); [split; [by eexists|done]|]. cbn [orb negb].
  destruct (str_split (done_ ++ s) (start e) (edit_end e)) as (a & r & b & E & Ha & Hr & -> & Va & Vr & Vb);
    [by apply valid_app|done|done|unfold edit_end; lia|]. cbn [mbind option_bind].
  destruct (beq r (removed e)) eqn:Eq; [|split; [by eexists|done]]. apply bool_decide_eq_true in Eq as ->.
  assert (exists u, a = done_ ++ u) as [u ->].
  { exists (drop (length done_) a). assert (length done_ <= length a) as Hl by lia.
    pose proof (f_equal (take (length done_)) E) as E'. rewrite take_app_length, take_app_le in E' by done.
    rewrite <- (take_drop (length done_) a) at 1. by rewrite <- E'. }
  rewrite length_app in Ha. rewrite <- app_assoc in E. apply app_inv_head in E as ->.
  assert (edit_end e = length (done_ ++ u ++ removed e)) as Hend by (rewrite !length_app; unfold edit_end in *; lia).
  rewrite Hend. destruct (IH (done_ ++ u ++ removed e) b) as [Hr1 Hr2]; [by rewrite <- !app_assoc| |done|done|].
  { apply valid_app; [done|]. apply valid_app; [by apply (valid_app_r done_)|done]. }
  split; [done|]. intros Hok. destruct (Hr2 Hok) as [t Ht]. exists (u ++ inserted e ++ t).
  apply patches_cons; [lia|by apply (valid_app_r done_)|done|done|].
  rewrite !length_app in Ht. by replace (length done_ + length u + length (removed e)) with (length done_ + (length u + length (removed e))) by lia.
Qed.

(** ** The smallest edit a view's text needs *)
Lemma common_bytes_spec l r :
  common_bytes l r <= length l /\ common_bytes l r <= length r /\ take (common_bytes l r) l = take (common_bytes l r) r.
Proof.
  revert r. induction l as [|x l IH]; intros [|y r]; cbn; try (split_and!; [lia|lia|done]).
  destruct (N.eqb_spec x y) as [->|]; [|split_and!; [lia|lia|done]].
  destruct (IH r) as (H1 & H2 & H3). split_and!; [lia|lia|]. cbn. by rewrite H3.
Qed.

Lemma common_prefix_split l r :
  valid_str l -> valid_str r ->
  exists p l' r', l = p ++ l' /\ r = p ++ r' /\ length p = common_prefix l r /\ valid_str p /\ valid_str l' /\ valid_str r'.
Proof.
  intros Hl Hr. destruct (common_bytes_spec l r) as (H1 & H2 & H3). unfold common_prefix.
  destruct (floor_spec l (common_bytes l r)) as [Hle Hb]. specialize (Hb H1). set (i := floor_char_boundary _ _) in *.
  destruct (valid_split l i Hl Hb) as [Vp Vl]. exists (take i l), (drop i l), (drop i r).
  assert (take i l = take i r) as E.
  { replace i with (Nat.min i (common_bytes l r)) by lia. by rewrite <- !take_take, H3. }
  split_and!; [by rewrite take_drop|by rewrite E, take_drop|rewrite length_take; lia|done|done|].
  apply (valid_app_r (take i l)); [done|]. by rewrite E, take_drop.
Qed.

Lemma common_suffix_split l r :
  valid_str l -> valid_str r ->
  exists x y q, l = x ++ q /\ r = y ++ q /\ length q = common_suffix l r /\ valid_str x /\ valid_str y /\ valid_str q.
Proof.
  intros Hl Hr. destruct (common_bytes_spec (reverse l) (reverse r)) as (H1 & H2 & H3). rewrite !length_reverse in *.
  unfold common_suffix. set (k := common_bytes _ _) in *. destruct (ceil_spec l (length l - k) ltac:(lia)) as [Hc Hb].
  set (i := ceil_char_boundary _ _) in *. destruct (valid_split l i Hl Hb) as [Vx Vq].
  set (n := length l - i). assert (drop i l = drop (length r - n) r) as E.
  { assert (take n (reverse l) = take n (reverse r)) as Et
      by (replace n with (Nat.min n k) by (unfold n; lia); by rewrite <- !take_take, H3).
    rewrite !take_reverse in Et. apply (inj reverse) in Et. by replace (length l - n) with i in Et by (unfold n; lia). }
  exists (take i l), (take (length r - n) r), (drop i l).
  split_and!; [by rewrite take_drop|by rewrite E, take_drop|by rewrite length_drop|done| |done].
  apply (valid_app_l _ (drop i l)); [|done]. by rewrite E, take_drop.
Qed.

Section Edits.
Context `{A : Allocator}.

Lemma sync_from_view_edit updated d :
  valid_str (doc_text d) -> valid_str updated -> updated <> doc_text d ->
  exists e coalescable, patches 0 [e] (doc_text d) updated /\
    (coalescable = true -> removed e = []) /\ (length (inserted e) <= length updated) /\
    sync_from_view updated d = (let? d := apply_transaction [e] coalescable d in Some (inr (true, d))).
Proof.
  intros Ht Hu Hne. unfold sync_from_view. unfold beq. rewrite bool_decide_false by done. set (t := doc_text d) in *.
  destruct (common_prefix_split t updated Ht Hu) as (p & t1 & u1 & Et & Eu & Hp & Vp & Vt & Vu). rewrite <- Hp, Et, Eu.
  rewrite !str_from_app by done. cbn [mbind option_bind].
  destruct (common_suffix_split t1 u1 Vt Vu) as (x & y & q & Ex & Ey & Hq & Vx & Vy & Vq). rewrite <- Hq, Ex, Ey.
  replace (length (p ++ x ++ q) - length q) with (length p + length x) by (rewrite !length_app; lia).
  replace (length (p ++ y ++ q) - length q) with (length p + length y) by (rewrite !length_app; lia).
  rewrite !str_slice_app by done. cbn [mbind option_bind].
  exists (owned_edit (length p) x y), ((length x =? 0) && (char_count y =? 1)). split_and!; [| |cbn; rewrite !length_app; lia|done].
  - by apply (patches_one _ p (owned_edit (length p) x y) q).
  - cbn. destruct x; [done|]. done.
Qed.

Lemma edit_for_patches d first last new :
  valid_str (doc_text d) -> valid_str new ->
  exists e x mid y, edit_for d first last new = Some e /\ inserted e = new /\ doc_text d = x ++ mid ++ y /\
    length x = floor_char_boundary (doc_text d) (Nat.min first (length (doc_text d))) /\
    length x + length mid = Nat.max (floor_char_boundary (doc_text d) (Nat.min last (length (doc_text d)))) (length x) /\
    patches 0 [e] (doc_text d) (x ++ new ++ y).
Proof.
  intros Hv Hn. unfold edit_for. set (t := doc_text d) in *.
  set (a := floor_char_boundary t (Nat.min first (length t))).
  set (b := floor_char_boundary t (Nat.min last (length t))).
  destruct (floor_spec t (Nat.min first (length t))) as [Ha1 Ha2]. destruct (floor_spec t (Nat.min last (length t))) as [Hb1 Hb2].
  assert (is_char_boundary t a = true) as Ha by (apply Ha2; lia).
  assert (is_char_boundary t (Nat.max b a) = true) as Hb by (destruct (Nat.max_spec b a) as [[_ ->]|[_ ->]]; [done|apply Hb2; lia]).
  destruct (str_split t a (Nat.max b a) Hv Ha Hb ltac:(lia)) as (x & u & y & E & Hx & Hu & -> & Vx & Vu & Vy).
  cbn [mbind option_bind]. eexists. exists x, u, y. split_and!; [done|done|done|done|by rewrite Hu, Hx|].
  by apply (patches_one t x (owned_edit a u new) y).
Qed.

(** Every occurrence replaced, from the left and without overlap. *)
Inductive replaced (query new : list N) : list N -> list N -> Prop :=
  | replaced_none s : (forall a b, s <> a ++ query ++ b) -> replaced query new s s
  | replaced_first a b b' :
      (forall a' b', a ++ query ++ b = a' ++ query ++ b' -> length a <= length a') ->
      replaced query new b b' -> replaced query new (a ++ query ++ b) (a ++ new ++ b').

Lemma find_all_patches text query new fuel : forall done_ s,
  valid_str query -> query <> [] -> valid_str new -> text = done_ ++ s -> valid_str s -> length s < fuel ->
  exists es t, find_all fuel text query new (length done_) = Some es /\ patches (length done_) es s t /\
    Forall (fun e => removed e = query /\ inserted e = new) es /\ length es <= length s /\ replaced query new s t.
Proof.
  induction fuel as [|fuel IH]; intros done_ s Hq Hne Hn -> Hs Hf; [lia|]. cbn [find_all].
  rewrite str_from_app by done. cbn [mbind option_bind]. destruct (find query s) as [i|] eqn:E.
  - destruct (find_Some _ _ _ E) as (a & b & -> & <- & Hmin). destruct (valid_occurrence a query b Hs Hq Hne) as [Va Vb].
    rewrite !length_app in Hf. assert (length query <> 0) by (by destruct query).
    destruct (IH (done_ ++ a ++ query) b Hq Hne Hn ltac:(by rewrite <- !app_assoc) Vb ltac:(lia)) as (es & t & Ees & Hp & Hall & Hlen & Hrep).
    rewrite !length_app, Nat.add_assoc in Ees. rewrite Ees. cbn [mbind option_bind]. eexists. exists (a ++ new ++ t).
    split_and!; [done| |by constructor|cbn; rewrite !length_app; lia|by apply replaced_first].
    apply (patches_cons _ (owned_edit (length done_ + length a) query new)); [done..|]. cbn [removed owned_edit].
    by rewrite !length_app, Nat.add_assoc in Hp.
  - exists [], s. split_and!; [done|by apply patches_nil|constructor|cbn; lia|]. apply replaced_none. by apply find_None.
Qed.
End Edits.
