(* ===== verification/UndoInv.v ===== *)
(** * The undo history stays inside its budget

    The invariant of [UndoHistory]: the retained bytes it records are those of
    its entries, they and the slots fit the budget, the deque has room for the
    entries, and the serial numbers grow.  [prepare] never panics on such a
    history, and [commit] keeps it. *)

From Stdlib Require Import NArith Bool.
From S2P Require Import Prelude Cell Utf8 Str StrSpec Undo.

Section Budget.
Context `{A : Allocator} `{L : !AllocatorLaws A}.

Definition sum_weight (ts : list Transaction) : N := foldr (fun t n => (weight t + n)%N) 0%N ts.

Lemma sum_weight_cons t ts : sum_weight (t :: ts) = (weight t + sum_weight ts)%N.
Proof. done. Qed.

Lemma sum_weight_one t : sum_weight [t] = weight t.
Proof. rewrite sum_weight_cons. cbn. lia. Qed.

Lemma sum_weight_app a b : sum_weight (a ++ b) = (sum_weight a + sum_weight b)%N.
Proof. induction a as [|t a IH]; [done|]. cbn [app]. rewrite !sum_weight_cons, IH. lia. Qed.

Lemma sum_weight_take n ts : (sum_weight (take n ts) + sum_weight (drop n ts) = sum_weight ts)%N.
Proof. by rewrite <- sum_weight_app, take_drop. Qed.

Lemma usize_plus_exact a b : (a + b <= usize_max)%N -> usize_plus a b = (a + b)%N.
Proof. unfold usize_plus, saturating_add. lia. Qed.

Lemma usize_plus_below a b m : (usize_plus a b <= m)%N -> (m < usize_max)%N -> (a + b <= m)%N.
Proof. unfold usize_plus, saturating_add. lia. Qed.

Lemma total_weight_exact ts : (sum_weight ts <= usize_max)%N -> total_weight ts = sum_weight ts.
Proof.
  unfold total_weight. enough (forall n, (n + sum_weight ts <= usize_max)%N ->
    foldl (fun bytes t => usize_plus bytes (weight t)) n ts = (n + sum_weight ts)%N) as H.
  { intros Hle. by rewrite H. }
  induction ts as [|t ts IH]; intros n Hn; [cbn; lia|].
  rewrite sum_weight_cons in *. cbn [foldl].
  rewrite usize_plus_exact by lia. rewrite IH by lia. lia.
Qed.

Lemma minus_Some a b : (b <= a)%N -> minus a b = Some (a - b)%N.
Proof. intros. unfold minus. by rewrite (proj2 (N.leb_le _ _)). Qed.

(** The weight of a single edit. *)
Lemma edit_storage_one e :
  (edit_storage [e] < usize_max)%N -> edit_storage [e] = (size_of_edit + removed_capacity e + inserted_capacity e)%N.
Proof. unfold edit_storage, usize_plus, saturating_add. cbn [foldl length]. lia. Qed.

(** ** The invariant *)
Definition single_insertion (t : Transaction) (e : TextEdit) : Prop := edits t = [e] /\ removed e = [].

Definition transaction_ok (t : Transaction) : Prop :=
  edits t <> [] /\ (open t = true -> exists e, single_insertion t e).

(** Serials grow strictly from the base, and stay below [next]. *)
Fixpoint growing (base : N) (ts : list Transaction) (next : N) : Prop :=
  match ts with
  | [] => (base < next)%N
  | t :: ts' => (base < serial t)%N /\ growing (serial t) ts' next
  end.

Record undo_ok (u : UndoHistory) : Prop := mk_undo_ok {
  uo_applied : applied u <= length (entries u);
  uo_payload : payload_bytes u = sum_weight (entries u);
  uo_budget : (payload_bytes u + entries_capacity u * size_of_transaction <= undo_max_bytes u)%N;
  uo_limit : (4 * undo_max_bytes u <= usize_max)%N;
  uo_capacity : (N.of_nat (length (entries u)) <= entries_capacity u)%N;
  uo_count : (N.of_nat (length (entries u)) <= max_entries u)%N;
  uo_serials : growing (default 0%N (base_token u)) (entries u) (next_serial u);
  uo_entries : Forall transaction_ok (entries u)
}.

Lemma with_limits_ok me mb : (4 * mb <= usize_max)%N -> undo_ok (with_limits me mb).
Proof. intros. split; cbn; try lia; constructor. Qed.

Lemma budget_below u : undo_ok u -> (undo_max_bytes u < usize_max)%N.
Proof. intros H. pose proof (uo_limit _ H). unfold usize_max in *. lia. Qed.

(** ** Retention *)
Lemma slot_storage_le n : (slot_storage n <= n * size_of_transaction)%N.
Proof. unfold slot_storage, saturating_mul. lia. Qed.

Lemma slot_storage_below payload n m :
  (usize_plus payload (slot_storage n) <= m)%N -> (m < usize_max)%N -> (payload + n * size_of_transaction <= m)%N.
Proof. unfold usize_plus, saturating_add, slot_storage, saturating_mul. lia. Qed.

(** What the loop of [plan_retention] returns. *)
Definition retire_spec (u : UndoHistory) (payload0 : N) (count0 spare : nat) (r : N + (nat * N * nat)) : Prop :=
  match r with
  | inl _ => True
  | inr (k, payload, count) =>
      k <= spare /\ (payload + sum_weight (take k (entries u)) = payload0)%N /\ count + k = count0 /\
      (N.of_nat count <= max_entries u)%N /\ (payload + N.of_nat count * size_of_transaction <= undo_max_bytes u)%N
  end.

Lemma retire_ok u payload0 count0 spare :
  undo_ok u -> spare <= length (entries u) -> spare <= count0 -> (sum_weight (take spare (entries u)) <= payload0)%N ->
  forall es payload count k, es = drop k (entries u) -> k <= spare -> count + k = count0 ->
    (payload + sum_weight (take k (entries u)) = payload0)%N ->
    exists r, retire u es payload count k spare = Some r /\ retire_spec u payload0 count0 spare r.
Proof.
  intros Hu Hsp Hc Hw. pose proof (budget_below _ Hu).
  assert (forall k, k < spare -> exists e, drop k (entries u) = e :: drop (S k) (entries u) /\
    take (S k) (entries u) = take k (entries u) ++ [e] /\ (sum_weight (take k (entries u)) + weight e <= payload0)%N) as Hstep.
  { intros k Hk. destruct (entries u !! k) as [e|] eqn:E; [|apply lookup_ge_None_1 in E; lia]. exists e.
    split_and!; [by apply drop_S|by apply take_S_r|].
    pose proof (take_S_r _ _ _ E) as Et. pose proof (f_equal sum_weight Et) as Hs. rewrite sum_weight_app, sum_weight_one in Hs.
    pose proof (sum_weight_take (S k) (take spare (entries u))) as Ht. rewrite take_take, Nat.min_l in Ht by lia. lia. }
  intros es. remember (length es) as n eqn:Hn. revert es Hn. induction n as [|n IH]; intros es Hn payload count k -> Hk Hck Hpay.
  - destruct (drop k (entries u)) eqn:Ed; [|done].
    assert (k = spare) as -> by (pose proof (f_equal length Ed) as El; rewrite length_drop in El; cbn in El; lia).
    cbn [retire]. rewrite (proj2 (Nat.leb_le spare spare)) by lia. destruct (_ || _) eqn:E; (eexists; split; [done|]); [done|].
    apply orb_false_iff in E as [E1 E2]. cbn. split_and!; [lia|done|done|lia|apply slot_storage_below; lia].
  - destruct (drop k (entries u)) as [|e0 rest] eqn:Ed; [done|]. cbn [retire].
    destruct (_ || _) eqn:E.
    2:{ eexists. split; [done|]. apply orb_false_iff in E as [E1 E2]. cbn. split_and!; [lia|done|done|lia|apply slot_storage_below; lia]. }
    destruct (Nat.leb_spec spare k); [by eexists|]. destruct (Hstep k ltac:(lia)) as (e & Edrop & Etake & Hle).
    rewrite Ed in Edrop. injection Edrop as -> ->. rewrite minus_Some by lia. cbn [mbind option_bind].
    destruct count as [|count]; [lia|].
    apply IH; [cbn in Hn; lia|f_equal; lia|lia|lia|]. replace (k + 1) with (S k) by lia. rewrite Etake, sum_weight_app, sum_weight_one. lia.
Qed.

Definition new_capacity (u : UndoHistory) (p : RetentionPlan) : N := default (entries_capacity u) (slots p).

Definition plan_ok (u : UndoHistory) (payload0 : N) (count0 spare : nat) (p : RetentionPlan) : Prop :=
  retired p <= spare /\ (plan_payload p + sum_weight (take (retired p) (entries u)) = payload0)%N /\
  (N.of_nat (count0 - retired p) <= max_entries u)%N /\ (N.of_nat (count0 - retired p) <= new_capacity u p)%N /\
  (plan_payload p + new_capacity u p * size_of_transaction <= undo_max_bytes u)%N.

Lemma plan_retention_ok u payload0 count0 protected :
  undo_ok u -> protected <= applied u -> applied u <= count0 + protected ->
  (sum_weight (take (applied u - protected) (entries u)) <= payload0)%N ->
  exists r, plan_retention u payload0 count0 protected = Some r /\
    forall p, r = inr p -> plan_ok u payload0 count0 (applied u - protected) p.
Proof using L.
  intros Hu Hp Hc Hw. pose proof (budget_below _ Hu). pose proof (uo_applied _ Hu). pose proof law_transaction.
  unfold plan_retention. rewrite minus_Some by lia. cbn [mbind option_bind].
  replace (N.to_nat (N.of_nat (applied u) - N.of_nat protected)) with (applied u - protected) by lia.
  destruct (retire_ok u payload0 count0 (applied u - protected) Hu ltac:(lia) ltac:(lia) Hw (entries u) payload0 count0 0)
    as (r & -> & Hr); [done|lia|lia|change (sum_weight (take 0 (entries u))) with 0%N; lia|].
  destruct r as [b|[[k payload] count]]; [by eexists|]. destruct Hr as (Hk & Hpay & Hcnt & Hme & Hbud).
  rewrite minus_Some by nia. cbn [mbind option_bind].
  set (room := (undo_max_bytes u - payload)%N). set (slots_max := (room / size_of_transaction)%N).
  assert (forall n, (n <= slots_max)%N -> (payload + n * size_of_transaction <= undo_max_bytes u)%N) as Hslots.
  { intros n Hn. assert (n * size_of_transaction <= room)%N; [|unfold room in *; nia].
    transitivity (slots_max * size_of_transaction)%N; [nia|]. rewrite N.mul_comm. apply N.Div0.mul_div_le. }
  assert (N.of_nat count <= slots_max)%N as Hcs by (apply N.div_le_lower_bound; unfold room; lia).
  destruct (_ && _) eqn:E.
  - eexists. split; [done|]. intros p [= <-]. apply andb_true_iff in E as [E1 E2]. unfold plan_ok, new_capacity. cbn.
    replace (count0 - k) with count by lia. split_and!; [lia|done|lia|lia|]. apply Hslots. lia.
  - destruct (N.ltb_spec (undo_max_bytes u) (usize_plus payload (slot_storage (deque_capacity (N.min (N.min (N.max (N.max
      (saturating_mul usize_max (entries_capacity u) 2) 4) (N.of_nat count)) (max_entries u)) slots_max))))) as [Hlt|Hge]; [by eexists|].
    eexists. split; [done|]. intros p [= <-]. unfold plan_ok, new_capacity. cbn. replace (count0 - k) with count by lia.
    match goal with |- context [deque_capacity ?c] => pose proof (law_deque c) as Hd; set (cap := deque_capacity c) in *;
      assert (N.of_nat count <= c)%N by lia end.
    split_and!; [lia|done|lia|lia|]. apply slot_storage_below; [done|lia].
Qed.

(** ** What [prepare] stages *)
Definition fresh_ok (u : UndoHistory) (p : PreparedUndo) : Prop :=
  merge p = false /\ (prepared_open p = true -> exists e, prepared_edits p = [e] /\ removed e = []) /\
  plan_ok u (sum_weight (take (applied u) (entries u)) + edit_storage (prepared_edits p)) (applied u + 1) (applied u) (retention p).

(** The open insertion [e] the new one continues, and its new capacity. *)
Record merge_ok (u : UndoHistory) (p : PreparedUndo) (t : Transaction) (e next : TextEdit) (cap : N) : Prop := mk_merge_ok {
  mo_merge : merge p = true;
  mo_applied : 1 <= applied u;
  mo_entry : entries u !! (applied u - 1) = Some t;
  mo_open : open t = true;
  mo_edits : edits t = [e];
  mo_removed : removed e = [];
  mo_prepared : prepared_edits p = [next];
  mo_next : removed next = [];
  mo_start : start next = start e + length (inserted e);
  mo_extended : extend_insertion p e = Some (mkEdit (start e) (removed e) (removed_capacity e) (inserted e ++ inserted next) cap);
  mo_plan : plan_ok u (sum_weight (take (applied u - 1) (entries u)) + (size_of_edit + removed_capacity e + cap))
              (applied u) (applied u - 1) (retention p)
}.

Definition prepared_ok (u : UndoHistory) (p : PreparedUndo) : Prop :=
  prepared_edits p <> [] /\ (fresh_ok u p \/ exists t e next cap, merge_ok u p t e next cap).

Lemma plan_exact u a b count0 spare p :
  undo_ok u -> plan_ok u (usize_plus a b) count0 spare p -> plan_ok u (a + b) count0 spare p.
Proof using.
  intros Hu (H1 & H2 & H3 & H4 & H5). split_and!; [done| |done..]. pose proof (uo_limit _ Hu). pose proof (budget_below _ Hu).
  pose proof (uo_budget _ Hu). rewrite (uo_payload _ Hu) in *.
  pose proof (sum_weight_take (retired p) (entries u)). unfold usize_plus, saturating_add in *. lia.
Qed.

Lemma sum_weight_entry u i t :
  undo_ok u -> entries u !! i = Some t ->
  take (S i) (entries u) = take i (entries u) ++ [t] /\ (weight t <= sum_weight (take (S i) (entries u)) <= undo_max_bytes u)%N.
Proof using.
  intros Hu E. pose proof (take_S_r _ _ _ E) as Et. split; [done|]. pose proof (uo_budget _ Hu). rewrite (uo_payload _ Hu) in *.
  pose proof (sum_weight_take (S i) (entries u)). pose proof (f_equal sum_weight Et) as Hs.
  rewrite sum_weight_app, sum_weight_one in Hs. lia.
Qed.

Lemma mergeable_spec t e es :
  mergeable t es = true -> edits t = [e] ->
  exists next, es = [next] /\ removed next = [] /\ removed e = [] /\ start next = start e + length (inserted e).
Proof using.
  unfold mergeable. intros H E. rewrite E in H. cbn in H. destruct es as [|next [|? ?]]; [done| |done].
  rewrite !andb_true_iff in H. destruct H as [[[H1 _] H3] H4]. apply Nat.eqb_eq in H4. exists next.
  destruct (removed next), (removed e); split_and!; done.
Qed.

Lemma prepare_merge_ok u es t :
  undo_ok u -> 1 <= applied u -> entries u !! (applied u - 1) = Some t ->
  exists r, prepare_merge u es (sum_weight (take (applied u) (entries u))) t = Some r /\
    forall p, r = Some p -> prepared_edits p = es /\ exists e next cap, merge_ok u p t e next cap.
Proof using L.
  intros Hu Ha Et. unfold prepare_merge. destruct (open t) eqn:Eo; [|by eexists].
  destruct (proj2 (Forall_lookup_1 _ _ _ _ (uo_entries _ Hu) Et) Eo) as (e & Ee & Hrm).
  destruct (mergeable t es) eqn:Em; [|by eexists]. destruct (mergeable_spec t e es Em Ee) as (next & -> & Hn & _ & Hst).
  rewrite Ee. cbn [list.last head mbind option_bind andb].
  destruct (sum_weight_entry u _ t Hu Et) as [Etake Hw]. replace (S (applied u - 1)) with (applied u) in * by lia.
  pose proof (budget_below _ Hu). assert (weight t = size_of_edit + removed_capacity e + inserted_capacity e)%N as Ew.
  { unfold weight in *. rewrite Ee in *. apply edit_storage_one. lia. }
  rewrite (minus_Some (weight t)) by lia. cbn [mbind option_bind].
  replace (weight t - inserted_capacity e)%N with (size_of_edit + removed_capacity e)%N by lia.
  set (fixed := (size_of_edit + removed_capacity e)%N). set (needed := usize_plus _ _).
  set (maximum := (undo_max_bytes u - usize_plus fixed (slot_storage 1))%N).
  destruct (N.leb_spec needed maximum); [|by eexists].
  set (repl := if (inserted_capacity e <? needed)%N then _ else _).
  set (cap := from_option snd (inserted_capacity e) repl). rewrite minus_Some by lia. cbn [mbind option_bind].
  assert (sum_weight (take (applied u) (entries u)) - weight t = sum_weight (take (applied u - 1) (entries u)))%N as ->.
  { rewrite Etake, sum_weight_app, sum_weight_one. lia. }
  destruct (plan_retention_ok u (usize_plus (sum_weight (take (applied u - 1) (entries u))) (usize_plus fixed cap)) (applied u) 1 Hu)
    as (r & -> & Hr); [lia|lia| |].
  { pose proof (uo_limit _ Hu). unfold usize_plus, saturating_add. rewrite Etake, sum_weight_app, sum_weight_one in Hw. lia. }
  cbn [mbind option_bind]. eexists. split; [done|]. destruct r as [|plan]; [done|]. intros p [= <-]. split; [done|].
  exists e, next, cap. split; try done.
  - unfold extend_insertion, cap. cbn. unfold repl. destruct (inserted_capacity e <? needed)%N; done.
  - cbn [retention]. specialize (Hr plan eq_refl). unfold fixed in Hr. apply plan_exact in Hr; [|done].
    destruct Hr as (H1 & H2 & H3 & H4 & H5). split; [done|]. split; [|by split_and!]. pose proof (uo_limit _ Hu). pose proof (uo_budget _ Hu). rewrite (uo_payload _ Hu) in *.
    pose proof (sum_weight_take (retired plan) (entries u)). unfold usize_plus, saturating_add in H2. lia.
Qed.

Lemma prepare_ok u es coalescable :
  undo_ok u ->
  let es' := filter (fun e => changes e = true) es in
  exists r, prepare u es coalescable = Some r /\
    match r with
    | inl reason => exists bytes, reason = UndoStorageTooLarge bytes (undo_max_bytes u)
    | inr None => es' = []
    | inr (Some p) => prepared_edits p = es' /\ prepared_ok u p
    end.
Proof using L.
  intros Hu es'. unfold prepare. fold es'. destruct es' as [|e0 es0] eqn:Ees; [by eexists|]. rewrite <- Ees in *.
  assert (es' <> []) as Hne by (by rewrite Ees). clear Ees. pose proof (budget_below _ Hu).
  assert (total_weight (drop (applied u) (entries u)) = sum_weight (drop (applied u) (entries u))) as ->.
  { apply total_weight_exact. pose proof (uo_budget _ Hu). rewrite (uo_payload _ Hu) in *.
    pose proof (sum_weight_take (applied u) (entries u)). lia. }
  rewrite (uo_payload _ Hu). pose proof (sum_weight_take (applied u) (entries u)) as Hsplit.
  rewrite minus_Some by lia. cbn [mbind option_bind].
  replace (sum_weight (entries u) - sum_weight (drop (applied u) (entries u)))%N with (sum_weight (take (applied u) (entries u))) by lia.
  match goal with |- context [mbind _ ?m] => assert (exists r, m = Some r /\ forall p, r = Some p ->
    prepared_edits p = es' /\ exists t e next cap, merge_ok u p t e next cap) as (r & -> & Hmerged) end.
  { destruct coalescable; [|by eexists]. destruct (applied u) as [|index] eqn:Ea; [by eexists|].
    destruct (entries u !! index) as [t|] eqn:Et; [|by eexists].
    destruct (prepare_merge_ok u es' t Hu ltac:(lia) ltac:(rewrite Ea, <- Et; f_equal; lia)) as (r & E & Hr).
    rewrite Ea in E. exists r. split; [done|]. intros p Hp. destruct (Hr p Hp) as (H1 & e & next & cap & H2). eauto 10. }
  cbn [mbind option_bind]. destruct r as [p|].
  { eexists. split; [done|]. destruct (Hmerged p eq_refl) as [<- Hm]. split; [done|]. split; [done|by right]. }
  destruct (plan_retention_ok u (usize_plus (sum_weight (take (applied u) (entries u))) (edit_storage es')) (applied u + 1) 0 Hu)
    as (r & -> & Hr); [lia|lia| |].
  { rewrite Nat.sub_0_r. pose proof (uo_budget _ Hu). rewrite (uo_payload _ Hu) in *. unfold usize_plus, saturating_add. lia. }
  cbn [mbind option_bind]. eexists. split; [done|]. destruct r as [b|plan]; [by eexists|]. split; [done|]. split; [done|]. left.
  split; [done|]. cbn. split.
  - intros Ho. rewrite !andb_true_iff in Ho. destruct Ho as [[_ Hl] Hx]. apply Nat.eqb_eq in Hl.
    destruct es' as [|e [|? ?]]; [done| |done]. exists e. split; [done|]. cbn in Hx. destruct (removed e); [done|].
    by rewrite orb_true_r in Hx.
  - apply plan_exact; [done|]. specialize (Hr plan eq_refl). by rewrite Nat.sub_0_r in Hr.
Qed.

(** ** Committing *)
Lemma retire_front_spec n es base :
  n <= length es ->
  retire_front n es base = Some (drop n es, match n with O => base | S k => serial <$> (es !! k) end).
Proof using.
  revert es base. induction n as [|n IH]; intros es base Hn; [by rewrite drop_0|].
  destruct es as [|e es]; [cbn in Hn; lia|]. cbn [retire_front drop]. rewrite IH by (cbn in Hn; lia). f_equal. f_equal.
  destruct n; [done|]. cbn. destruct (es !! n) eqn:E; [done|]. apply lookup_ge_None_1 in E. cbn in Hn. lia.
Qed.

Lemma growing_base base ts next : growing base ts next -> (base < next)%N.
Proof using. revert base. induction ts as [|t ts IH]; intros base; [done|]. cbn. intros [H1 H2%IH]. lia. Qed.

Lemma growing_app base a b next : growing base (a ++ b) next -> growing base a next.
Proof using.
  revert base. induction a as [|t a IH]; intros base; cbn; [apply growing_base|]. intros [H1 H2]. split; [done|by apply IH].
Qed.

Lemma growing_drop n base ts next :
  n <= length ts -> growing (default 0%N base) ts next ->
  growing (default 0%N (match n with O => base | S k => serial <$> (ts !! k) end)) (drop n ts) next.
Proof using.
  revert base ts. induction n as [|n IH]; intros base ts Hn H; [by rewrite drop_0|].
  destruct ts as [|t ts]; [cbn in Hn; lia|]. cbn in H. destruct H as [H1 H2]. cbn [drop].
  specialize (IH (Some (serial t)) ts ltac:(cbn in Hn; lia) H2). destruct n; [done|]. exact IH.
Qed.

Lemma growing_snoc base ts t next :
  growing base ts next -> serial t = next -> growing base (ts ++ [t]) (next + 1).
Proof using.
  intros H <-. revert base H. induction ts as [|x ts IH]; intros base; cbn; [intros H; split; lia|].
  intros [H1 H2]. split; [done|by apply IH].
Qed.

Definition kept (u : UndoHistory) (p : PreparedUndo) (n : nat) : list Transaction := drop (retired (retention p)) (take n (entries u)).
Definition new_base (u : UndoHistory) (p : PreparedUndo) : option N :=
  match retired (retention p) with O => base_token u | S k => serial <$> (take (applied u) (entries u) !! k) end.

(** The history after a commit: the kept entries and the one new or extended
    transaction. *)
Record committed (u u' : UndoHistory) (p : PreparedUndo) (t : Transaction) (n : nat) : Prop := mk_committed {
  co_entries : entries u' = kept u p n ++ [t];
  co_applied : applied u' = length (entries u');
  co_retired : retired (retention p) <= n;
  co_base : base_token u' = new_base u p;
  co_serial : serial t = next_serial u;
  co_next : next_serial u' = (next_serial u + 1)%N;
  co_limits : undo_max_bytes u' = undo_max_bytes u /\ max_entries u' = max_entries u;
  co_capacity : entries_capacity u' = new_capacity u (retention p);
  co_payload : payload_bytes u' = plan_payload (retention p)
}.

Lemma committed_ok u u' p t n x :
  undo_ok u -> committed u u' p t n -> n <= applied u -> transaction_ok t ->
  plan_ok u (sum_weight (take n (entries u)) + x) (n + 1) n (retention p) -> weight t = x -> undo_ok u'.
Proof using.
  intros Hu [He Ha Hret Hb Hs Hn [Hl1 Hl2] Hc Hp] Hna Ht (H1 & H2 & H3 & H4 & H5) Hw. pose proof (uo_applied _ Hu).
  assert (length (kept u p n) = n - retired (retention p)) as Hlen by (unfold kept; rewrite length_drop, length_take; lia).
  assert (length (entries u') = n + 1 - retired (retention p)) as Hlen' by (rewrite He, length_app, Hlen; cbn; lia).
  assert (sum_weight (entries u') = plan_payload (retention p)) as Hsum.
  { rewrite He, sum_weight_app, sum_weight_one. pose proof (sum_weight_take (retired (retention p)) (take n (entries u))) as Hs'.
    rewrite take_take, Nat.min_l in Hs' by lia. unfold kept. lia. }
  split.
  - lia.
  - by rewrite Hsum.
  - by rewrite Hp, Hc, Hl1.
  - rewrite Hl1. apply (uo_limit _ Hu).
  - by rewrite Hlen', Hc.
  - by rewrite Hlen', Hl2.
  - rewrite He, Hb, Hn. apply growing_snoc; [|done]. unfold kept, new_base.
    pose proof (uo_serials _ Hu) as Hg. rewrite <- (take_drop (applied u) (entries u)) in Hg. apply growing_app in Hg.
    apply (growing_drop (retired (retention p)) (base_token u)) in Hg; [|rewrite length_take; lia].
    assert (drop (retired (retention p)) (take (applied u) (entries u)) =
      drop (retired (retention p)) (take n (entries u)) ++ drop n (take (applied u) (entries u))) as E.
    { rewrite <- (take_drop n (take (applied u) (entries u))) at 1. rewrite take_take, Nat.min_l by lia.
      apply drop_app_le. rewrite length_take. lia. }
    rewrite E in Hg. by apply growing_app in Hg.
  - rewrite He. apply Forall_app. split; [|by constructor]. unfold kept. apply Forall_drop, Forall_take. apply (uo_entries _ Hu).
Qed.

Lemma commit_unfold u p :
  retired (retention p) <= applied u -> undo_ok u -> (next_serial u < u64_max)%N ->
  commit p u =
    (es ← (if merge p then
             last ← list.last (kept u p (applied u));
             previous ← list.last (edits last);
             extended ← extend_insertion p previous;
             Some (replace_last (kept u p (applied u)) (mkTransaction (next_serial u) (replace_last (edits last) extended) (open last)))
           else Some (kept u p (applied u) ++ [mkTransaction (next_serial u) (prepared_edits p) (prepared_open p)]));
     Some (mkUndo es (new_capacity u (retention p)) (length es) (new_base u p) (next_serial u + 1) (max_entries u)
             (undo_max_bytes u) (plan_payload (retention p)))).
Proof using.
  intros Hr Hu Hs. pose proof (uo_applied _ Hu). unfold commit. rewrite retire_front_spec by (rewrite length_take; lia).
  cbn [mbind option_bind]. fold (kept u p (applied u)). fold (new_base u p).
  destruct (if merge p then _ else _) as [es|]; [|done]. cbn [mbind option_bind].
  unfold checked_add. rewrite (proj2 (N.leb_le _ _)) by lia. done.
Qed.

Lemma commit_keeps u p :
  undo_ok u -> prepared_ok u p -> (next_serial u < u64_max)%N ->
  exists u', commit p u = Some u' /\ undo_ok u' /\
    ((fresh_ok u p /\ committed u u' p (mkTransaction (next_serial u) (prepared_edits p) (prepared_open p)) (applied u)) \/
     (exists t e next cap, merge_ok u p t e next cap /\
        committed u u' p (mkTransaction (next_serial u)
          [mkEdit (start e) (removed e) (removed_capacity e) (inserted e ++ inserted next) cap] true) (applied u - 1))).
Proof using L.
  intros Hu [Hne [Hf|(t & e & next & cap & Hm)]] Hs.
  - destruct Hf as (Hm & Ho & Hplan). pose proof Hplan as (Hr & _). rewrite commit_unfold by done. rewrite Hm. cbn [mbind option_bind].
    eexists. split; [done|]. match goal with |- undo_ok ?u' /\ _ =>
      assert (committed u u' p (mkTransaction (next_serial u) (prepared_edits p) (prepared_open p)) (applied u)) as Hc by (by split) end.
    split; [|left; split; [by split_and!|done]].
    eapply (committed_ok _ _ _ _ _ _ Hu Hc); [lia| |exact Hplan|done]. split; [done|]. cbn. intros H.
    destruct (Ho H) as (e & ? & ?). by exists e.
  - pose proof Hm as [Hmg Ha Et Ho Ee Hrm Hp Hn Hst Hx Hplan]. pose proof Hplan as (Hr & _). rewrite commit_unfold by (done || lia).
    rewrite Hmg. destruct (sum_weight_entry u _ t Hu Et) as [Etake _]. replace (S (applied u - 1)) with (applied u) in * by lia.
    assert (kept u p (applied u) = kept u p (applied u - 1) ++ [t]) as Ek.
    { unfold kept. rewrite Etake. apply drop_app_le. rewrite length_take. pose proof (uo_applied _ Hu). lia. }
    rewrite Ek, last_snoc. cbn [mbind option_bind]. rewrite Ee. cbn [list.last mbind option_bind]. rewrite Hx. cbn [mbind option_bind].
    assert (forall x, replace_last (kept u p (applied u - 1) ++ [t]) x = kept u p (applied u - 1) ++ [x]) as ->.
    { intros x. unfold replace_last. rewrite length_app. cbn [length]. by rewrite Nat.add_sub, take_app_length. }
    eexists. split; [done|]. rewrite Ho. match goal with |- undo_ok ?u' /\ _ =>
      assert (committed u u' p (mkTransaction (next_serial u)
        [mkEdit (start e) (removed e) (removed_capacity e) (inserted e ++ inserted next) cap] true) (applied u - 1)) as Hc by (by split) end.
    split; [|right; by exists t, e, next, cap]. pose proof (budget_below _ Hu).
    eapply (committed_ok _ _ _ _ _ (size_of_edit + removed_capacity e + cap)%N Hu Hc); [lia| | |].
    + split; [done|]. intros _. eexists. by split.
    + by replace (applied u - 1 + 1) with (applied u) by lia.
    + unfold weight. destruct Hplan as (Hr1 & Hr2 & _ & _ & Hr5). unfold edit_storage, usize_plus, saturating_add. cbn [edits foldl length removed_capacity inserted_capacity].
      pose proof (sum_weight_take (retired (retention p)) (take (applied u - 1) (entries u))) as Hsp.
      rewrite take_take, Nat.min_l in Hsp by lia. lia.
Qed.

(** ** Stepping *)
Lemma close_weight t : weight (close t) = weight t.
Proof using. done. Qed.

Lemma close_ok i t u :
  undo_ok u -> entries u !! i = Some t -> undo_ok (u <| entries := <[i := close t]> (entries u) |>).
Proof using.
  intros Hu Et. assert (i < length (entries u)) as Hi by (by apply lookup_lt_Some in Et).
  assert (sum_weight (<[i := close t]> (entries u)) = sum_weight (entries u)) as Hsum.
  { rewrite insert_take_drop by done. rewrite <- (take_drop_middle _ _ _ Et) at 3.
    by rewrite !sum_weight_app, !sum_weight_cons, close_weight. }
  destruct Hu as [H1 H2 H3 H4 H5 H6 H7 H8]. rewrite <- Hsum in H2. split; cbn; rewrite ?length_insert; try done.
  - revert H7. rewrite insert_take_drop by done. rewrite <- (take_drop_middle _ _ _ Et) at 1. clear.
    generalize (default 0%N (base_token u)). induction (take i (entries u)) as [|x l IH]; intros b; cbn; [done|].
    intros [? ?]. split; [done|by apply IH].
  - apply Forall_insert; [done|]. pose proof (Forall_lookup_1 _ _ _ _ H8 Et) as [? ?]. split; [done|]. by cbn.
Qed.

Lemma set_applied_ok n u : undo_ok u -> n <= length (entries u) -> undo_ok (u <| applied := n |>).
Proof using. intros [] ?. by split. Qed.

Lemma close_transaction_ok u : undo_ok u -> exists u', close_transaction u = Some u' /\ undo_ok u' /\
  applied u' = applied u /\ length (entries u') = length (entries u) /\ base_token u' = base_token u /\ next_serial u' = next_serial u /\
  forall i t, entries u' !! i = Some t -> exists t0, entries u !! i = Some t0 /\ serial t = serial t0 /\ edits t = edits t0.
Proof using.
  intros Hu. unfold close_transaction. pose proof (uo_applied _ Hu). destruct (applied u) as [|i] eqn:Ea.
  { exists u. split_and!; [done|done|done|done|done|done|]. intros i t Ht. by exists t. }
  destruct (entries u !! i) as [t|] eqn:Et; [|apply lookup_ge_None_1 in Et; lia]. cbn [mbind option_bind].
  eexists. split; [done|]. split; [by apply close_ok|]. cbn. rewrite length_insert. split_and!; [done..|].
  intros j t' Ht'. destruct (decide (i = j)) as [<-|Hij].
  - rewrite list_lookup_insert_eq in Ht' by lia. injection Ht' as <-. by exists t.
  - rewrite list_lookup_insert_ne in Ht' by done. by exists t'.
Qed.
End Budget.
