(* ===== verification/DocumentInv.v ===== *)
(** * The versions a document can return to

    A sound document holds a list of versions, the texts its undo entries lead
    between, and stands at one of them.  Every operation of [text.rs] returns
    on a sound document; undo and redo move along the versions, an edit drops
    those ahead and adds one, and the saved point keeps naming one text. *)

From Stdlib Require Import NArith Bool.
From S2P Require Import Prelude Cell Utf8 Str StrSpec Undo UndoInv Document EditSpec.

Definition memory_limit : N := 4611686018427387904.

Lemma memory_limit_fits : (4 * memory_limit <= usize_max + 1)%N.
Proof. unfold memory_limit, usize_max. lia. Qed.

(** The token of version [i]: the base for the oldest, then the serials. *)
Definition token_at (u : UndoHistory) (i : nat) : option N :=
  match i with O => base_token u | S k => serial <$> (entries u !! k) end.

Lemma token_current u : token u = token_at u (applied u).
Proof. done. Qed.

Definition within_bounds (b : DocumentBounds) (t : list N) : Prop :=
  (text_length t <= max_bytes b)%N /\ check_lines b t = inr tt.

Section Versions.
Context `{A : Allocator} `{L : !AllocatorLaws A}.

Record doc_ok (d : TextDocument) (vs : list (list N)) : Prop := mk_doc_ok {
  do_undo : undo_ok (undo_history d);
  do_bounds : (max_bytes (doc_bounds d) <= memory_limit)%N;
  do_length : length vs = S (length (entries (undo_history d)));
  do_current : vs !! applied (undo_history d) = Some (doc_text d);
  do_steps : forall i t, entries (undo_history d) !! i = Some t ->
    exists a b, vs !! i = Some a /\ vs !! S i = Some b /\ patches 0 (edits t) a b;
  do_within : Forall (fun v => valid_str v /\ within_bounds (doc_bounds d) v) vs
}.

(** [tok] names the text [s]: wherever the token appears, the version is [s]. *)
Definition names (d : TextDocument) (vs : list (list N)) (tok : option N) (s : list N) : Prop :=
  (default 0%N tok < next_serial (undo_history d))%N /\
  forall i, i < length vs -> token_at (undo_history d) i = tok -> vs !! i = Some s.

Lemma current_valid d vs : doc_ok d vs -> valid_str (doc_text d) /\ within_bounds (doc_bounds d) (doc_text d).
Proof. intros H. apply (Forall_lookup_1 _ _ _ _ (do_within _ _ H) (do_current _ _ H)). Qed.

(** Tokens of different versions differ. *)
Lemma growing_lookup base ts next i t : growing base ts next -> ts !! i = Some t -> (base < serial t < next)%N.
Proof.
  revert base i. induction ts as [|x ts IH]; intros base i; [done|]. cbn. intros [H1 H2]. destruct i as [|i]; cbn.
  - intros [= <-]. split; [done|by apply growing_base in H2].
  - intros E. specialize (IH _ _ H2 E). lia.
Qed.

Lemma growing_strict base ts next i j s t :
  growing base ts next -> i < j -> ts !! i = Some s -> ts !! j = Some t -> (serial s < serial t)%N.
Proof.
  revert base i j. induction ts as [|x ts IH]; intros base i j; [done|]. cbn. intros [H1 H2] Hij. destruct j as [|j]; [lia|].
  destruct i as [|i]; cbn.
  - intros [= <-] E. apply (growing_lookup _ _ _ _ _ H2 E).
  - apply (IH _ i j H2). lia.
Qed.

Lemma token_at_inj u i j :
  undo_ok u -> i <= length (entries u) -> j <= length (entries u) -> token_at u i = token_at u j -> i = j.
Proof.
  intros Hu. pose proof (uo_serials _ Hu) as Hg. enough (forall i j, i < j -> j <= length (entries u) -> token_at u i <> token_at u j) as H.
  { intros Hi Hj E. destruct (Nat.lt_trichotomy i j) as [Hl|[?|Hl]]; [by apply H in E|done|by symmetry in E; apply H in E]. }
  clear i j. intros i j Hij Hj. destruct j as [|j]; [lia|]. cbn.
  destruct (entries u !! j) as [t|] eqn:Ej; [|apply lookup_ge_None_1 in Ej; lia]. cbn. destruct i as [|i]; cbn.
  - intros E. pose proof (growing_lookup _ _ _ _ _ Hg Ej). rewrite E in *. cbn in *. lia.
  - destruct (entries u !! i) as [s|] eqn:Ei; cbn; [|done]. intros [= E]. pose proof (growing_strict _ _ _ i j _ _ Hg ltac:(lia) Ei Ej). lia.
Qed.

Lemma token_below u i : undo_ok u -> i <= length (entries u) -> (default 0%N (token_at u i) < next_serial u)%N.
Proof.
  intros Hu Hi. pose proof (uo_serials _ Hu) as Hg. destruct i as [|i]; cbn; [by apply growing_base in Hg|].
  destruct (entries u !! i) as [t|] eqn:E; cbn; [by apply (growing_lookup _ _ _ _ _ Hg E)|apply lookup_ge_None_1 in E; lia].
Qed.

(** The current token names the current text. *)
Lemma names_current d vs : doc_ok d vs -> names d vs (token (undo_history d)) (doc_text d).
Proof.
  intros H. pose proof (do_undo _ _ H) as Hu. pose proof (uo_applied _ Hu). split; [by apply token_below|].
  intros i Hi E. rewrite token_current in E. rewrite (do_length _ _ H) in Hi. apply token_at_inj in E; [|done|lia|lia].
  subst i. apply (do_current _ _ H).
Qed.

(** ** Undo and redo *)
Lemma replay_fits dir es a b n :
  patches 0 es a b -> (text_length a <= n)%N -> (text_length b <= n)%N -> (n <= memory_limit)%N ->
  (text_length (fst (pick dir a b)) + total_length (replacements dir es) <= usize_max)%N.
Proof.
  intros Hp Ha Hb Hn. pose proof memory_limit_fits.
  destruct dir; cbn [pick fst]; [destruct (patches_lengths Backward _ _ _ _ Hp) as [_ Hs]|destruct (patches_lengths Forward _ _ _ _ Hp) as [_ Hs]];
    cbn [pick fst] in Hs; unfold sources, replacements in *; cbn [parts fst snd] in *; unfold memory_limit, usize_max in *; lia.
Qed.

Lemma version_bounds d vs i v : doc_ok d vs -> vs !! i = Some v -> (text_length v <= max_bytes (doc_bounds d))%N.
Proof. intros H E. by destruct (Forall_lookup_1 _ _ _ _ (do_within _ _ H) E) as (_ & ? & _). Qed.

(** Moving along the versions. *)
Definition moved (d d' : TextDocument) (vs : list (list N)) (k : nat) : Prop :=
  doc_ok d' vs /\ applied (undo_history d') = k /\ (forall i, token_at (undo_history d') i = token_at (undo_history d) i) /\
  next_serial (undo_history d') = next_serial (undo_history d) /\ saved_point d' = saved_point d /\ doc_bounds d' = doc_bounds d /\
  undo_max_bytes (undo_history d') = undo_max_bytes (undo_history d).

Lemma closed_lookup u i t j :
  entries u !! i = Some t -> forall x, <[i := close t]> (entries u) !! j = Some x ->
  exists y, entries u !! j = Some y /\ serial x = serial y /\ edits x = edits y.
Proof.
  intros Et x. destruct (decide (i = j)) as [<-|Hij].
  - rewrite list_lookup_insert_eq by (by apply lookup_lt_Some in Et). intros [= <-]. by exists t.
  - rewrite list_lookup_insert_ne by done. intros E. by exists x.
Qed.

Lemma closed_tokens u i t j : entries u !! i = Some t -> serial <$> (<[i := close t]> (entries u) !! j) = serial <$> (entries u !! j).
Proof.
  intros Et. destruct (decide (i = j)) as [<-|Hij].
  - rewrite list_lookup_insert_eq by (by apply lookup_lt_Some in Et). by rewrite Et.
  - by rewrite list_lookup_insert_ne.
Qed.

Lemma moved_intro d vs i t k v rev :
  doc_ok d vs -> entries (undo_history d) !! i = Some t -> vs !! k = Some v -> k <= length (entries (undo_history d)) ->
  moved d (d <| undo_history := (undo_history d) <| entries := <[i := close t]> (entries (undo_history d)) |> <| applied := k |> |>
             <| doc_text := v |> <| revision := rev |>) vs k.
Proof.
  intros H Et Ev Hk. split_and!; try done.
  - destruct H as [Hu Hb Hl Hc Hs Hw]. split; cbn; try done.
    + apply set_applied_ok; [by apply close_ok|]. cbn. by rewrite length_insert.
    + by rewrite length_insert.
    + intros j x Hx. destruct (closed_lookup _ _ _ _ Et x Hx) as (y & Ey & _ & ->). by apply Hs.
  - intros [|j]; [done|]. cbn. by apply closed_tokens.
Qed.

Lemma undo_spec d vs k :
  doc_ok d vs -> applied (undo_history d) = S k -> exists d', undo d = Some (true, d') /\ moved d d' vs k.
Proof.
  intros H Ek. pose proof (do_undo _ _ H) as Hu. pose proof (uo_applied _ Hu). unfold undo, step_back, close_transaction. rewrite Ek.
  destruct (entries (undo_history d) !! k) as [t|] eqn:Et; [|apply lookup_ge_None_1 in Et; lia]. cbn [mbind option_bind].
  cbn. rewrite list_lookup_insert_eq by lia. destruct (do_steps _ _ H k t Et) as (a & b & Ea & Eb & Hp).
  pose proof (do_current _ _ H) as Ec. rewrite Ek, Eb in Ec. injection Ec as ->.
  pose proof (replay_patches Backward (edits t) a (doc_text d) Hp) as Hr. cbn [pick fst snd] in Hr. cbn [edits close]. rewrite Hr.
  - cbn [mbind option_bind]. eexists. split; [done|]. apply (moved_intro d vs k t k a); [done|done|done|lia].
  - apply (replay_fits Backward (edits t) a (doc_text d) (max_bytes (doc_bounds d)) Hp); [by apply (version_bounds d vs k)|by apply (version_bounds d vs (S k))|apply (do_bounds _ _ H)].
Qed.

Lemma undo_nothing d : applied (undo_history d) = 0 -> undo d = Some (false, d).
Proof. intros E. unfold undo, step_back. rewrite E. cbn. by destruct d. Qed.

Lemma redo_spec d vs k :
  doc_ok d vs -> applied (undo_history d) = k -> k < length (entries (undo_history d)) ->
  exists d', redo d = Some (true, d') /\ moved d d' vs (S k).
Proof.
  intros H Ek Hlt. unfold redo, step_forward. rewrite Ek.
  destruct (entries (undo_history d) !! k) as [t|] eqn:Et; [|apply lookup_ge_None_1 in Et; lia].
  destruct (do_steps _ _ H k t Et) as (a & b & Ea & Eb & Hp). pose proof (do_current _ _ H) as Ec. rewrite Ek, Ea in Ec. injection Ec as ->.
  pose proof (replay_patches Forward (edits t) (doc_text d) b Hp) as Hr. cbn [pick fst snd] in Hr. cbn [edits close]. rewrite Hr.
  - cbn [mbind option_bind]. eexists. split; [done|]. replace (k + 1) with (S k) by lia. by apply (moved_intro d vs k t (S k) b).
  - apply (replay_fits Forward (edits t) (doc_text d) b (max_bytes (doc_bounds d)) Hp); [by apply (version_bounds d vs k)|by apply (version_bounds d vs (S k))|apply (do_bounds _ _ H)].
Qed.

Lemma redo_nothing d : applied (undo_history d) = length (entries (undo_history d)) -> redo d = Some (false, d).
Proof. intros E. unfold redo, step_forward. rewrite E. rewrite (proj2 (lookup_ge_None _ _)) by lia. cbn. by destruct d. Qed.

(** ** Edits *)
Definition versions_after (vs : list (list N)) (r n : nat) (t : list N) : list (list N) := drop r (take (S n) vs) ++ [t].

Lemma versions_after_lookup vs r n t i :
  r <= n -> n < length vs ->
  versions_after vs r n t !! i =
    if decide (i <= n - r) then vs !! (r + i) else if decide (i = S (n - r)) then Some t else None.
Proof using.
  intros Hr Hn. unfold versions_after. assert (length (drop r (take (S n) vs)) = S n - r) as Hl by (rewrite length_drop, length_take; lia).
  case_decide.
  - rewrite lookup_app_l by lia. rewrite lookup_drop, lookup_take_lt by lia. done.
  - rewrite lookup_app_r by lia. rewrite Hl. case_decide; [by replace (i - (S n - r)) with 0 by lia|].
    apply lookup_ge_None_2. cbn. lia.
Qed.

Lemma kept_lookup u p n t es i :
  es = kept u p n ++ [t] -> retired (retention p) <= n -> n <= length (entries u) ->
  es !! i = if decide (i < n - retired (retention p)) then entries u !! (retired (retention p) + i)
            else if decide (i = n - retired (retention p)) then Some t else None.
Proof using.
  intros -> Hr Hn. unfold kept. assert (length (drop (retired (retention p)) (take n (entries u))) = n - retired (retention p)) as Hl
    by (rewrite length_drop, length_take; lia).
  case_decide.
  - rewrite lookup_app_l by lia. rewrite lookup_drop, lookup_take_lt by lia. done.
  - rewrite lookup_app_r by lia. rewrite Hl. case_decide; [by replace (i - (n - retired (retention p))) with 0 by lia|].
    apply lookup_ge_None_2. cbn. lia.
Qed.

(** The document after an edit: version [n] is followed by the new text, and
    [r] of the oldest versions are forgotten. *)
Record edited (d d' : TextDocument) (vs : list (list N)) (r n : nat) (t : list N) : Prop := mk_edited {
  ed_ok : doc_ok d' (versions_after vs r n t);
  ed_range : r <= n <= applied (undo_history d);
  ed_last : applied (undo_history d') = S (n - r);
  ed_names : forall tok s, names d vs tok s -> names d' (versions_after vs r n t) tok s;
  ed_serial : next_serial (undo_history d') = (next_serial (undo_history d) + 1)%N;
  ed_frame : doc_text d' = t /\ saved_point d' = saved_point d /\ doc_bounds d' = doc_bounds d /\
    undo_max_bytes (undo_history d') = undo_max_bytes (undo_history d)
}.

Lemma edited_intro d vs p t n u' a text rev :
  doc_ok d vs -> committed (undo_history d) u' p t n -> undo_ok u' -> n <= applied (undo_history d) ->
  vs !! n = Some a -> patches 0 (edits t) a text -> valid_str text -> within_bounds (doc_bounds d) text ->
  edited d (d <| undo_history := u' |> <| doc_text := text |> <| revision := rev |>) vs (retired (retention p)) n text.
Proof using.
  intros H Hc Hu' Hn Ea Hp Hv Hw. pose proof (uo_applied _ (do_undo _ _ H)) as Happ. pose proof (do_length _ _ H) as Hlen.
  destruct Hc as [He Hap Hr Hb Hs Hns [Hbud _] _ _]. set (r := retired (retention p)) in *.
  assert (n < length vs) as Hnv by lia.
  assert (length (entries u') = S (n - r)) as Hle'.
  { rewrite He. unfold kept. rewrite length_app, length_drop, length_take. cbn [length]. fold r. lia. }
  assert (length (versions_after vs r n text) = S (S (n - r))) as Hlv.
  { unfold versions_after. rewrite length_app, length_drop, length_take. cbn [length]. lia. }
  split; cbn; try done; try lia.
  - split; cbn; try done.
    + apply (do_bounds _ _ H).
    + lia.
    + rewrite Hap, Hle', versions_after_lookup by lia. by rewrite decide_False, decide_True by lia.
    + intros i x Hx. rewrite (kept_lookup _ p n t _ i He Hr ltac:(lia)) in Hx. fold r in Hx.
      rewrite !versions_after_lookup by lia. case_decide.
      * rewrite !decide_True by lia. replace (r + S i) with (S (r + i)) by lia. by apply (do_steps _ _ H).
      * case_decide; [|done]. injection Hx as <-. rewrite decide_True, decide_False, decide_True by lia.
        exists a, text. split_and!; [|done|done]. rewrite <- Ea. f_equal. lia.
    + unfold versions_after. apply Forall_app. split; [apply Forall_drop, Forall_take, (do_within _ _ H)|by constructor].
  - intros tok s [Ht Hname]. split; [cbn; lia|]. intros i Hi E. cbn in E. rewrite Hlv in Hi.
    assert (token_at u' i = if decide (i <= n - r) then token_at (undo_history d) (r + i) else Some (next_serial (undo_history d))) as Etok.
    { destruct i as [|i]; cbn.
      - rewrite decide_True by lia. rewrite Hb. unfold new_base. fold r. rewrite Nat.add_0_r.
        destruct r as [|k] eqn:Er; [done|]. cbn. by rewrite lookup_take_lt by lia.
      - rewrite (kept_lookup _ p n t _ i He Hr ltac:(lia)). fold r. destruct (decide (i < n - r)).
        + rewrite decide_True by lia. by replace (r + S i) with (S (r + i)) by lia.
        + rewrite (decide_True (P := i = n - r)), (decide_False (P := S i <= n - r)) by lia. cbn. by rewrite Hs. }
    rewrite Etok in E. rewrite versions_after_lookup by lia. case_decide.
    + apply Hname; [lia|done].
    + subst tok. cbn in Ht. lia.
Qed.

(** Two insertions in a row are one insertion. *)
Lemma patches_coalesce e next a b c cap :
  patches 0 [e] a b -> patches 0 [next] b c -> removed e = [] -> removed next = [] ->
  start next = start e + length (inserted e) ->
  patches 0 [mkEdit (start e) (removed e) (removed_capacity e) (inserted e ++ inserted next) cap] a c.
Proof using.
  intros H1 H2 He Hn Hst.
  destruct (patches_one_inv _ _ _ H1) as (u & rest & -> & -> & Ho & Hu & _ & Hi & Hr).
  destruct (patches_one_inv _ _ _ H2) as (u2 & rest2 & Eb & -> & Ho2 & _ & _ & Hi2 & _).
  rewrite He, Hn in *. cbn in Eb. assert (u2 = u ++ inserted e /\ rest2 = rest) as [-> ->].
  { rewrite app_assoc in Eb. apply app_inj_1 in Eb as [-> ->]; [done|]. rewrite length_app. lia. }
  rewrite <- !app_assoc. rewrite (app_assoc (inserted e)).
  apply (patches_cons 0 (mkEdit (start e) [] (removed_capacity e) (inserted e ++ inserted next) cap) [] u); cbn; try done.
  - apply valid_nil.
  - by apply valid_app.
  - by apply patches_nil.
Qed.

(** What a refusal of an edit to [text] says. *)
Definition refusal_fits (d : TextDocument) (text : list N) (reason : RefusalReason) : Prop :=
  (exists bytes, reason = UndoStorageTooLarge bytes (undo_max_bytes (undo_history d))) \/ ~ within_bounds (doc_bounds d) text.

(** A keystroke continues the insertion before it: both are insertions into
    the version that undo returns to. *)
Definition continues (vs : list (list N)) (n : nat) (current text : list N) : Prop :=
  exists a x y b, vs !! n = Some (a ++ b) /\ current = a ++ x ++ b /\ text = a ++ x ++ y ++ b.

Lemma check_bounds_spec d text :
  match check_bounds d text with inr _ => within_bounds (doc_bounds d) text | inl _ => ~ within_bounds (doc_bounds d) text end.
Proof using.
  unfold check_bounds, check_declared_size, within_bounds. destruct (N.ltb_spec (max_bytes (doc_bounds d)) (text_length text)); cbn.
  - intros [? _]. lia.
  - destruct (check_lines (doc_bounds d) text) as [r|[]]; [by intros [_ ?]|]. done.
Qed.

Definition transaction_outcome (coalescable : bool) (d : TextDocument) (vs : list (list N)) (text : list N)
    (r : RefusalReason + TextDocument) : Prop :=
  match r with
  | inl reason => refusal_fits d text reason
  | inr d' =>
      (d' = d /\ text = doc_text d) \/
      exists r n, edited d d' vs r n text /\
        (n = applied (undo_history d) \/
         (coalescable = true /\ S n = applied (undo_history d) /\ continues vs n (doc_text d) text))
  end.

(** Only a keystroke merges. *)
Lemma prepare_whole u es p : prepare u es false = Some (inr (Some p)) -> merge p = false.
Proof using.
  unfold prepare. destruct (filter _ es); [done|]. destruct (minus _ _); [|done]. cbn [mbind option_bind].
  destruct (plan_retention _ _ _ _) as [[bytes|r]|]; [done| |done]. cbn. by intros [= <-].
Qed.

Lemma patches_nil_inv s t : patches 0 [] s t -> t = s.
Proof using. by inversion 1. Qed.

Lemma apply_transaction_spec d vs es coalescable text :
  doc_ok d vs -> patches 0 es (doc_text d) text -> (total_length (replacements Forward es) <= memory_limit)%N ->
  (next_serial (undo_history d) < u64_max)%N ->
  exists r, apply_transaction es coalescable d = Some r /\ transaction_outcome coalescable d vs text r.
Proof using L.
  intros H Hp0 Hm0 Hs. pose proof (do_undo _ _ H) as Hu. pose proof (current_valid _ _ H) as [Hv [Hlen _]]. pose proof (do_bounds _ _ H) as Hb.
  unfold apply_transaction. destruct (prepare_ok _ es coalescable Hu) as (r & Epr & Hr). rewrite Epr. cbn zeta in Hr.
  pose proof (patches_changes _ _ _ _ Hp0) as Hp. set (es' := filter _ es) in *.
  assert (total_length (replacements Forward es') <= memory_limit)%N as Hm.
  { enough (total_length (replacements Forward es') <= total_length (replacements Forward es))%N by lia. unfold es'. clear.
    induction es as [|e es IH]; [done|]. rewrite filter_cons.
    change (total_length (replacements Forward (e :: es))) with (text_length (inserted e) + total_length (replacements Forward es))%N.
    case_decide; [|lia].
    change (total_length (replacements Forward (e :: filter (fun e => changes e = true) es)))
      with (text_length (inserted e) + total_length (replacements Forward (filter (fun e => changes e = true) es)))%N. lia. }
  clearbody es'. clear Hp0 Hm0.
  destruct r as [reason|[p|]]; [|destruct Hr as [He Hpr]|].
  { eexists. split; [done|]. cbn. by left. }
  2:{ eexists. split; [done|]. left. rewrite Hr in Hp. by apply patches_nil_inv in Hp. }
  assert (text_length (doc_text d) + total_length (replacements Forward es') <= usize_max)%N as Hfit.
  { pose proof memory_limit_fits. unfold memory_limit, usize_max in *. lia. }
  rewrite He. pose proof (rewritten_length_patches Forward 0 es' _ _ Hp Hfit) as Hrl. cbn [pick fst snd] in Hrl. rewrite Hrl.
  cbn [mbind option_bind]. pose proof (check_bounds_spec d text) as Hcb. unfold check_bounds in Hcb.
  destruct (check_declared_size (doc_bounds d) (text_length text)) as [reason|[]] eqn:Ecd.
  { eexists. split; [done|]. cbn. right. exact Hcb. }
  pose proof (rewrite_patches Forward es' _ _ Hp Hfit) as Hrw. cbn [pick fst snd] in Hrw. rewrite Hrw. cbn [mbind option_bind].
  unfold check_bounds. rewrite Ecd. cbn [mbind sum_bind] in *.
  destruct (check_lines (doc_bounds d) text) as [reason|[]] eqn:Ecl.
  { eexists. split; [done|]. cbn. right. exact Hcb. }
  destruct (commit_keeps _ p Hu Hpr Hs) as (u' & -> & Hu' & Hcase). cbn [mbind option_bind]. eexists. split; [done|]. right.
  pose proof (proj2 (patches_valid _ _ _ _ Hp)) as Hvt.
  destruct Hcase as [[Hf Hc]|(t & e & next & cap & Hm' & Hc)].
  - exists (retired (retention p)), (applied (undo_history d)). split; [|by left].
    eapply edited_intro; [done|exact Hc|done|done|apply (do_current _ _ H)|by rewrite <- He in Hp|done|done].
  - destruct Hm' as [Hmg Ha Et _ Ee Hrm Hpe Hn Hst _ _].
    destruct (do_steps _ _ H _ t Et) as (a & b & Ea & Eb & Hab). replace (S (applied (undo_history d) - 1)) with (applied (undo_history d)) in Eb by lia.
    rewrite (do_current _ _ H) in Eb. injection Eb as <-. rewrite Ee in Hab. rewrite <- He, Hpe in Hp.
    exists (retired (retention p)), (applied (undo_history d) - 1). split.
    + eapply edited_intro; [done|exact Hc|done|lia|exact Ea|by apply (patches_coalesce _ _ _ (doc_text d))|done|done].
    + right. split; [|split; [lia|]].
      { destruct coalescable; [done|]. apply prepare_whole in Epr. congruence. }
      destruct (patches_one_inv _ _ _ Hab) as (x & rest & -> & Ed & Ho & _). destruct (patches_one_inv _ _ _ Hp) as (x2 & rest2 & Ed2 & -> & Ho2 & _).
      rewrite Hrm, Hn in *. cbn in *. exists x, (inserted e), (inserted next), rest. split_and!; [done|done|].
      rewrite Ed in Ed2. rewrite app_assoc in Ed2. apply app_inj_1 in Ed2 as [<- <-]; [by rewrite <- app_assoc|]. rewrite length_app. lia.
Qed.
End Versions.
