(* ===== verification/DocumentSpec.v ===== *)
(** * A document over a whole editing session

    Sequences of calls on one document, with the texts that were saved or
    captured kept beside it, and the abstract machine they refine: a text with
    the versions behind and ahead of it. *)

From Stdlib Require Import NArith Bool.
From S2P Require Import Prelude Cell Utf8 Str StrSpec Undo UndoInv Document EditSpec DocumentInv.

(** ** Decoding *)
Lemma encode_high c : scalar c = true -> (128 <= c)%N -> Forall (fun b => (128 <= b)%N) (encode_utf8 c).
Proof.
  intros Hc H. unfold encode_utf8. rewrite (proj2 (N.ltb_ge _ _)) by lia.
  repeat case_match; repeat constructor; lia.
Qed.

Lemma normalise_copies bs t flag :
  bs <> [] -> Forall (fun b => (128 <= b)%N) bs -> normalise_loop (bs ++ t) flag = bs ++ normalise_loop t false.
Proof.
  intros Hne Hb. revert flag Hne. induction Hb as [|b bs Hb _ IH]; intros flag Hne; [done|]. cbn.
  rewrite (proj2 (N.eqb_neq b LF)), (proj2 (N.eqb_neq b CR)) by (unfold LF, CR; lia). rewrite andb_false_r. f_equal.
  destruct bs; [done|]. by apply IH.
Qed.

Lemma normalise_valid t flag : valid_str t -> valid_str (normalise_loop t flag).
Proof.
  intros H. revert flag. induction H as [|c t Hc Ht IH] using valid_str_ind; intros flag; [apply valid_nil|].
  destruct (decide (128 <= c)%N) as [Hge|Hlt].
  - rewrite normalise_copies; [|by destruct (encode_bytes c Hc) as (? & ? & -> & _)|by apply encode_high].
    apply valid_app; [by apply valid_encode|done].
  - unfold encode_utf8. rewrite (proj2 (N.ltb_lt _ _)) by lia. cbn. repeat case_match; [apply IH| |];
      (apply (valid_app [_]); [apply valid_ascii; unfold LF; lia|apply IH]).
Qed.

Lemma normalise_length t flag : length (normalise_loop t flag) <= length t.
Proof. revert flag. induction t as [|b t IH]; intros flag; cbn; [lia|]. repeat case_match; cbn; specialize (IH true) as H1; specialize (IH false); lia. Qed.

Lemma normalise_line_endings_valid t :
  valid_str t -> valid_str (normalise_line_endings t) /\ length (normalise_line_endings t) <= length t.
Proof. intros H. unfold normalise_line_endings. case_match; [split; [by apply normalise_valid|apply normalise_length]|done]. Qed.

(** ** Sessions *)
Inductive DocOp :=
  | OpReplace (first last : nat) (new : list N)
  | OpSync (updated : list N)
  | OpReplaceAll (query new : list N)
  | OpApplyEdits (es : list TextEdit)
  | OpUndo
  | OpRedo
  | OpClose
  | OpMarkSaved
  | OpCapture
  | OpMarkSavedAt (k : nat)
  | OpReload (bs : list N).

(** The document, the save points captured since the last load with the text
    each was taken at, and the text last recorded as written. *)
Record Session := mkSession { doc : TextDocument; captured : list (option N * list N); saved : option (list N) }.

Inductive Outcome := Accepted | Rejected (r : EditRefusal).

Section Sessions.
Context `{A : Allocator} `{L : !AllocatorLaws A}.

Definition edit_outcome (s : Session) (r : RefusalReason + TextDocument) : Outcome * Session :=
  match r with
  | inl reason => (Rejected (Refused reason), s)
  | inr d => (Accepted, mkSession d (captured s) (saved s))
  end.

Definition run_op (op : DocOp) (s : Session) : option (Outcome * Session) :=
  match op with
  | OpReplace first last new => r ← replace first last new (doc s); Some (edit_outcome s r)
  | OpSync updated => r ← sync_from_view updated (doc s); Some (edit_outcome s ('(_, d) ← r; inr d))
  | OpReplaceAll query new => r ← replace_all query new (doc s); Some (edit_outcome s ('(_, d) ← r; inr d))
  | OpApplyEdits es =>
      r ← apply_edits es (doc s);
      Some (match r with
            | inl refusal => (Rejected refusal, s)
            | inr (_, d) => (Accepted, mkSession d (captured s) (saved s))
            end)
  | OpUndo => '(_, d) ← undo (doc s); Some (Accepted, mkSession d (captured s) (saved s))
  | OpRedo => '(_, d) ← redo (doc s); Some (Accepted, mkSession d (captured s) (saved s))
  | OpClose => d ← close_document_transaction (doc s); Some (Accepted, mkSession d (captured s) (saved s))
  | OpMarkSaved => d ← mark_saved (doc s); Some (Accepted, mkSession d (captured s) (Some (doc_text (doc s))))
  | OpCapture => Some (Accepted, mkSession (doc s) (captured s ++ [(save_point (doc s), doc_text (doc s))]) (saved s))
  | OpMarkSavedAt k =>
      match captured s !! k with
      | None => Some (Accepted, s)
      | Some (point, text) => d ← mark_saved_at point (doc s); Some (Accepted, mkSession d (captured s) (Some text))
      end
  | OpReload bs =>
      match reload_from bs (doc s) with
      | inl reason => Some (Rejected (Refused reason), s)
      | inr d => Some (Accepted, mkSession d [] (Some (doc_text d)))
      end
  end.

(** ** The abstract machine *)
Record Versions := mkVersions { past : list (list N); present : list N; future : list (list N) }.

(** The text an edit asks for. *)
Definition target (op : DocOp) (current text : list N) : Prop :=
  match op with
  | OpReplace first last new =>
      exists x mid y, current = x ++ mid ++ y /\ text = x ++ new ++ y /\
        length x = floor_char_boundary current (Nat.min first (length current)) /\
        length x + length mid = Nat.max (floor_char_boundary current (Nat.min last (length current))) (length x)
  | OpSync updated => text = updated
  | OpReplaceAll query new => (query = [] /\ text = current) \/ (query <> [] /\ replaced query new current text)
  | OpApplyEdits es => patches 0 es current text
  | _ => False
  end.

(** An edit keeps the current text as the newest version behind, however many
    older ones are forgotten, and drops those ahead; a keystroke that
    continues an insertion replaces it instead; a refused edit changes nothing
    and is refused for a reason. *)
Inductive version_step (b : DocumentBounds) (budget : N) : DocOp -> Outcome -> Versions -> Versions -> Prop :=
  | step_edit op p c f text m :
      target op c text -> within_bounds b text -> version_step b budget op Accepted (mkVersions p c f) (mkVersions (c :: take m p) text [])
  | step_continue op p ps x y u v f m :
      target op (u ++ x ++ v) (u ++ x ++ y ++ v) -> within_bounds b (u ++ x ++ y ++ v) -> p = u ++ v ->
      version_step b budget op Accepted (mkVersions (p :: ps) (u ++ x ++ v) f) (mkVersions (p :: take m ps) (u ++ x ++ y ++ v) [])
  | step_same op p c f : target op c c -> version_step b budget op Accepted (mkVersions p c f) (mkVersions p c f)
  | step_too_much op reason p c f text :
      target op c text -> (exists bytes, reason = UndoStorageTooLarge bytes budget) \/ ~ within_bounds b text ->
      version_step b budget op (Rejected (Refused reason)) (mkVersions p c f) (mkVersions p c f)
  | step_inconsistent es r p c f :
      (forall reason, r <> Refused reason) -> validate_edits c 0 es = Some (inl r) ->
      version_step b budget (OpApplyEdits es) (Rejected r) (mkVersions p c f) (mkVersions p c f)
  | step_undo p ps c f : version_step b budget OpUndo Accepted (mkVersions (p :: ps) c f) (mkVersions ps p (c :: f))
  | step_undo_none c f : version_step b budget OpUndo Accepted (mkVersions [] c f) (mkVersions [] c f)
  | step_redo p c n f : version_step b budget OpRedo Accepted (mkVersions p c (n :: f)) (mkVersions (c :: p) n f)
  | step_redo_none p c : version_step b budget OpRedo Accepted (mkVersions p c []) (mkVersions p c [])
  | step_note op v : op ∈ [OpClose; OpMarkSaved; OpCapture] \/ (exists k, op = OpMarkSavedAt k) -> version_step b budget op Accepted v v
  | step_reload bs d v :
      from_bytes bs b = inr d -> version_step b budget (OpReload bs) Accepted v (mkVersions [] (doc_text d) [])
  | step_reload_refused bs reason v :
      from_bytes bs b = inl reason -> version_step b budget (OpReload bs) (Rejected (Refused reason)) v v.

(** ** What ties a session to it *)
Definition versions_of (d : TextDocument) (vs : list (list N)) : Versions :=
  let k := applied (undo_history d) in mkVersions (reverse (take k vs)) (doc_text d) (drop (S k) vs).

Definition text_limit : N := 2147483648.

Definition op_ok (op : DocOp) : Prop :=
  match op with
  | OpReplace _ _ new => valid_str new /\ (text_length new <= text_limit)%N
  | OpSync updated => valid_str updated /\ (text_length updated <= text_limit)%N
  | OpReplaceAll query new => valid_str query /\ valid_str new /\ (text_length new <= text_limit)%N
  | OpApplyEdits es => Forall edit_str es /\ (total_length (map inserted es) <= memory_limit)%N
  | _ => True
  end.

Record session_ok (s : Session) (vs : list (list N)) : Prop := mk_session_ok {
  so_doc : doc_ok (doc s) vs;
  so_limit : (max_bytes (doc_bounds (doc s)) <= text_limit)%N;
  so_budget : undo_max_bytes (undo_history (doc s)) = DEFAULT_MAX_BYTES;
  so_captured : Forall (fun c => names (doc s) vs c.1 c.2) (captured s);
  so_saved : forall tok, saved_point (doc s) = History tok -> exists t, saved s = Some t /\ names (doc s) vs tok t
}.

Lemma versions_back d vs k v :
  vs !! k = Some v -> applied (undo_history d) = S k -> vs !! S k = Some (doc_text d) ->
  versions_of d vs = mkVersions (v :: reverse (take k vs)) (doc_text d) (drop (S (S k)) vs) /\
  drop (S k) vs = doc_text d :: drop (S (S k)) vs.
Proof using.
  intros Ev Ek Ed. unfold versions_of. rewrite Ek. split; [|by apply drop_S]. f_equal.
  by rewrite (take_S_r _ _ _ Ev), reverse_snoc.
Qed.

Lemma moved_versions d d' vs k :
  moved d d' vs k -> exists v, vs !! k = Some v /\ doc_text d' = v /\ versions_of d' vs = mkVersions (reverse (take k vs)) v (drop (S k) vs).
Proof using.
  intros (Hok & Hk & _). exists (doc_text d'). pose proof (do_current _ _ Hok) as E. rewrite Hk in E. split_and!; [done..|].
  unfold versions_of. by rewrite Hk.
Qed.

Lemma edited_versions d d' vs r n text v :
  edited d d' vs r n text -> n < length vs -> vs !! n = Some v ->
  versions_of d' (versions_after vs r n text) = mkVersions (v :: take (n - r) (reverse (take n vs))) text [].
Proof using.
  intros [Hok Hr Hl _ _ (Ht & _)] Hn Ev. unfold versions_of. rewrite Hl, Ht. unfold versions_after.
  assert (length (drop r (take (S n) vs)) = S (n - r)) as Hlen by (rewrite length_drop, length_take; lia). f_equal.
  - rewrite take_app_le by lia. rewrite take_ge by lia. rewrite (take_S_r _ _ _ Ev), drop_app_le by (rewrite length_take; lia).
    rewrite reverse_snoc. f_equal. rewrite take_reverse. f_equal. f_equal. rewrite length_take. lia.
  - apply drop_ge. rewrite length_app, Hlen. cbn. lia.
Qed.

(** An accepted or refused edit, seen by the session and the machine. *)
Lemma edit_step s vs op text coalescable r :
  session_ok s vs -> target op (doc_text (doc s)) text -> transaction_outcome coalescable (doc s) vs text r ->
  exists vs', session_ok (edit_outcome s r).2 vs' /\
    version_step (doc_bounds (doc s)) DEFAULT_MAX_BYTES op (edit_outcome s r).1 (versions_of (doc s) vs)
      (versions_of (doc (edit_outcome s r).2) vs') /\
    (next_serial (undo_history (doc (edit_outcome s r).2)) <= next_serial (undo_history (doc s)) + 1)%N /\
    doc_bounds (doc (edit_outcome s r).2) = doc_bounds (doc s).
Proof using.
  intros Hs Ht Hr. pose proof (so_doc _ _ Hs) as Hd. destruct r as [reason|d']; cbn in *.
  - exists vs. split_and!; [done| |lia|done]. unfold refusal_fits in Hr. rewrite (so_budget _ _ Hs) in Hr. by apply (step_too_much _ _ _ _ _ _ _ text).
  - destruct Hr as [[-> ->]|(r & n & He & Hn)].
    { exists vs. split_and!; [by destruct Hs|by apply step_same|lia|done]. }
    pose proof He as [Hok Hrange Hlast Hnames Hser (Htext & Hsp & Hb & Hbud)]. pose proof (uo_applied _ (do_undo _ _ Hd)) as Happ.
    pose proof (do_length _ _ Hd) as Hlen. assert (n < length vs) as Hnv by lia.
    exists (versions_after vs r n text). split_and!.
    + destruct Hs as [_ Hlim Hbd Hcap Hsv]. split; cbn; [done|by rewrite Hb|by rewrite Hbud| |].
      * eapply list.Forall_impl; [exact Hcap|]. intros c. cbn. apply Hnames.
      * rewrite Hsp. intros tok Htok. destruct (Hsv tok Htok) as (t & ? & ?). exists t. split; [done|by apply Hnames].
    + assert (within_bounds (doc_bounds (doc s)) text) as Hw.
      { rewrite <- Hb, <- Htext. by apply (current_valid d' (versions_after vs r n text)). }
      destruct Hn as [->|(_ & Hn & a & x & y & b & Ev & Ec & ->)].
      * rewrite (edited_versions _ _ _ _ _ _ (doc_text (doc s)) He Hnv (do_current _ _ Hd)). by apply step_edit.
      * rewrite (edited_versions _ _ _ _ _ _ (a ++ b) He Hnv Ev).
        pose proof (do_current _ _ Hd) as Hcur. rewrite <- Hn in Hcur.
        destruct (versions_back (doc s) vs n (a ++ b) Ev ltac:(done) Hcur) as [-> _]. rewrite Ec in *.
        by apply (step_continue _ _ _ _ _ x y a b).
    + lia.
    + done.
Qed.

(** ** Loading *)
Lemma from_bytes_spec bs b d :
  from_bytes bs b = inr d ->
  valid_str (doc_text d) /\ within_bounds b (doc_text d) /\ doc_bounds d = b /\ undo_history d = UndoHistory_new /\ saved_point d = History None.
Proof using.
  unfold from_bytes, check_declared_size. destruct (N.ltb_spec (max_bytes b) (text_length bs)); [done|]. cbn [mbind sum_bind].
  set (body := if starts_with BOM bs then drop 3 bs else bs).
  assert ((if starts_with BOM bs then (Utf8Bom, drop 3 bs) else (Utf8, bs)) = (if starts_with BOM bs then Utf8Bom else Utf8, body)) as ->
    by (unfold body; by destruct (starts_with BOM bs)).
  assert (length body <= length bs) as Hlen by (unfold body; case_match; [rewrite length_drop; lia|done]). clearbody body.
  destruct (contains_byte 0 body); [done|]. destruct (from_utf8 body) as [cs|] eqn:Eu; [|done].
  destruct (normalise_line_endings_valid body) as [Hv Hl]; [apply from_utf8_iff; by exists cs|].
  destruct (check_lines b (normalise_line_endings body)) as [r|[]] eqn:Ec; [done|]. cbn. intros [= <-]. cbn.
  split_and!; [done| |done..]. split; [unfold text_length in *; lia|done].
Qed.

Lemma loaded_ok d text u :
  valid_str text -> within_bounds (doc_bounds d) text -> (max_bytes (doc_bounds d) <= memory_limit)%N ->
  doc_text d = text -> undo_history d = u -> undo_ok u -> entries u = [] -> base_token u = None ->
  doc_ok d [text] /\ names d [text] None text.
Proof using.
  intros Hv Hw Hb Ht Hu Huo He Hbt. split.
  - split; rewrite ?Hu, ?He; try done.
    + assert (applied u = 0) as -> by (pose proof (uo_applied _ Huo) as Ha; rewrite He in Ha; cbn in Ha; lia). by rewrite Ht.
    + by constructor.
  - split; rewrite Hu; [cbn; pose proof (growing_base _ _ _ (uo_serials _ Huo)) as Hg; rewrite Hbt in Hg; exact Hg|].
    intros [|i] Hi; [done|cbn in Hi; lia].
Qed.

Lemma undo_clear_ok u : undo_ok u -> undo_ok (undo_clear u).
Proof using.
  intros H. pose proof (uo_limit _ H). pose proof (growing_base _ _ _ (uo_serials _ H)). split; cbn; try lia; constructor.
Qed.

Lemma memory_holds_text n : (n <= text_limit)%N -> (n <= memory_limit)%N.
Proof using. unfold text_limit, memory_limit. lia. Qed.

Lemma from_bytes_session bs b d :
  from_bytes bs b = inr d -> (max_bytes b <= text_limit)%N -> session_ok (mkSession d [] (Some (doc_text d))) [doc_text d].
Proof using.
  intros H Hb. destruct (from_bytes_spec _ _ _ H) as (Hv & Hw & Hbd & Hu & Hsp).
  destruct (loaded_ok d (doc_text d) UndoHistory_new) as [Hok Hn]; rewrite ?Hbd; try done.
  { by apply memory_holds_text. }
  split; cbn; [done|by rewrite Hbd|by rewrite Hu|constructor|]. rewrite Hsp. intros tok [= <-]. by exists (doc_text d).
Qed.

(** ** Moving and closing *)
Lemma moved_names d d' vs k tok t : moved d d' vs k -> names d vs tok t -> names d' vs tok t.
Proof using. intros (_ & _ & Ht & Hn & _) [H1 H2]. split; [by rewrite Hn|]. intros i Hi. rewrite Ht. by apply H2. Qed.

Lemma moved_session s d' vs k :
  session_ok s vs -> moved (doc s) d' vs k -> session_ok (mkSession d' (captured s) (saved s)) vs.
Proof using.
  intros [Hd Hl Hb Hc Hs] Hm. pose proof Hm as (Hok & _ & _ & _ & Hsp & Hbd & Hbud).
  split; cbn; [done|by rewrite Hbd|by rewrite Hbud| |].
  - eapply list.Forall_impl; [exact Hc|]. intros c. cbn. by apply (moved_names _ _ _ k).
  - rewrite Hsp. intros tok Htok. destruct (Hs tok Htok) as (t & ? & ?). exists t. split; [done|]. by apply (moved_names (doc s) _ _ k).
Qed.

Lemma close_document_spec d vs :
  doc_ok d vs -> exists d', close_document_transaction d = Some d' /\ moved d d' vs (applied (undo_history d)) /\ doc_text d' = doc_text d.
Proof using.
  intros H. pose proof (uo_applied _ (do_undo _ _ H)) as Ha. unfold close_document_transaction, close_transaction.
  destruct (applied (undo_history d)) as [|k] eqn:Ek.
  - cbn. exists d. split; [by destruct d|]. split; [|done]. by split_and!.
  - destruct (entries (undo_history d) !! k) as [t|] eqn:Et; [|apply lookup_ge_None_1 in Et; lia]. cbn [mbind option_bind].
    eexists. split; [done|]. split; [|done].
    pose proof (moved_intro d vs k t (S k) (doc_text d) (revision d) H Et) as Hm. rewrite <- Ek in Hm at 1.
    specialize (Hm (do_current _ _ H) ltac:(lia)). destruct d as [? ? ? ? ? u ? ?]. cbn in *. destruct u. cbn in *. subst. exact Hm.
Qed.

Lemma set_saved_ok d vs p : doc_ok d vs -> doc_ok (d <| saved_point := p |>) vs.
Proof using. intros []. by split. Qed.

Lemma mark_session s vs tok text :
  session_ok s vs -> names (doc s) vs tok text ->
  exists d', mark_saved_at tok (doc s) = Some d' /\ session_ok (mkSession d' (captured s) (Some text)) vs /\
    versions_of d' vs = versions_of (doc s) vs /\ next_serial (undo_history d') = next_serial (undo_history (doc s)) /\
    doc_bounds d' = doc_bounds (doc s).
Proof using.
  intros Hs Hn. unfold mark_saved_at. set (d0 := (doc s) <| saved_point := History tok |>).
  destruct (close_document_spec d0 vs) as (d' & E & Hm & Ht); [by apply set_saved_ok, (so_doc _ _ Hs)|].
  exists d'. split; [done|]. pose proof Hm as (_ & Hk & _ & Hns & _ & Hbd & _). split_and!.
  - assert (session_ok (mkSession d0 (captured s) (Some text)) vs) as H0.
    { destruct Hs as [Hd Hl Hb Hc _]. split; cbn; [by apply set_saved_ok|done|done|done|]. intros tok' [= <-]. by exists text. }
    exact (moved_session _ d' vs _ H0 Hm).
  - unfold versions_of. by rewrite Hk, Ht.
  - done.
  - done.
Qed.

(** ** One call *)
Definition stepped (s : Session) (vs : list (list N)) (op : DocOp) (out : Outcome) (s' : Session) (vs' : list (list N)) : Prop :=
  session_ok s' vs' /\
  version_step (doc_bounds (doc s)) DEFAULT_MAX_BYTES op out (versions_of (doc s) vs) (versions_of (doc s') vs') /\
  (next_serial (undo_history (doc s')) <= next_serial (undo_history (doc s)) + 1)%N /\ doc_bounds (doc s') = doc_bounds (doc s).

Lemma edit_call s vs op es coalescable text (E : option (Outcome * Session)) :
  session_ok s vs -> (next_serial (undo_history (doc s)) < u64_max)%N -> target op (doc_text (doc s)) text ->
  patches 0 es (doc_text (doc s)) text -> (total_length (replacements Forward es) <= memory_limit)%N ->
  E = (r ← apply_transaction es coalescable (doc s); Some (edit_outcome s r)) ->
  exists out s' vs', E = Some (out, s') /\ stepped s vs op out s' vs'.
Proof using L.
  intros Hs Hn Ht Hp Hm ->. destruct (apply_transaction_spec _ _ es coalescable text (so_doc _ _ Hs) Hp Hm Hn) as (r & -> & Hr).
  cbn [mbind option_bind]. destruct (edit_step s vs op text coalescable r Hs Ht Hr) as (vs' & H1 & H2 & H3 & H4).
  exists (edit_outcome s r).1, (edit_outcome s r).2, vs'. split; [by destruct (edit_outcome s r)|]. by split_and!.
Qed.

Lemma same_call s vs op : session_ok s vs -> target op (doc_text (doc s)) (doc_text (doc s)) ->
  stepped s vs op Accepted (mkSession (doc s) (captured s) (saved s)) vs.
Proof using. intros Hs Ht. split_and!; [by destruct Hs|by apply step_same|cbn; lia|done]. Qed.

Lemma undo_call s vs : session_ok s vs -> exists out s' vs', run_op OpUndo s = Some (out, s') /\ stepped s vs OpUndo out s' vs'.
Proof using.
  intros Hs. pose proof (so_doc _ _ Hs) as Hd. cbn [run_op]. destruct (applied (undo_history (doc s))) as [|k] eqn:Ek.
  - rewrite undo_nothing by done. cbn. eexists _, _, vs. split; [done|]. split_and!; cbn; [by destruct Hs| |lia|done].
    unfold versions_of. rewrite Ek. apply step_undo_none.
  - destruct (undo_spec _ _ k Hd Ek) as (d' & -> & Hm). cbn. eexists _, _, vs. split; [done|]. pose proof Hm as (_ & _ & _ & Hns & _ & Hbd & _).
    split_and!; cbn; [by apply (moved_session s d' vs k)| |lia|done].
    destruct (moved_versions _ _ _ _ Hm) as (v & Ev & _ & ->). pose proof (do_current _ _ Hd) as Hcur. rewrite Ek in Hcur.
    destruct (versions_back _ _ _ _ Ev Ek Hcur) as [-> ->]. apply step_undo.
Qed.

Lemma redo_call s vs : session_ok s vs -> exists out s' vs', run_op OpRedo s = Some (out, s') /\ stepped s vs OpRedo out s' vs'.
Proof using.
  intros Hs. pose proof (so_doc _ _ Hs) as Hd. pose proof (uo_applied _ (do_undo _ _ Hd)) as Ha. pose proof (do_length _ _ Hd) as Hl. cbn [run_op].
  destruct (decide (applied (undo_history (doc s)) = length (entries (undo_history (doc s))))) as [Ek|Hk].
  - rewrite redo_nothing by done. cbn. eexists _, _, vs. split; [done|]. split_and!; cbn; [by destruct Hs| |lia|done].
    unfold versions_of. rewrite Ek, drop_ge by lia. apply step_redo_none.
  - set (k := applied (undo_history (doc s))) in *. destruct (redo_spec _ _ k Hd eq_refl ltac:(lia)) as (d' & -> & Hm). cbn.
    eexists _, _, vs. split; [done|]. pose proof Hm as (_ & _ & _ & Hns & _ & Hbd & _).
    split_and!; cbn; [by apply (moved_session s d' vs (S k))| |lia|done].
    destruct (moved_versions _ _ _ _ Hm) as (v & Ev & _ & ->). pose proof (do_current _ _ Hd) as Hcur. fold k in Hcur.
    unfold versions_of. fold k. rewrite (take_S_r _ _ _ Hcur), reverse_snoc, (drop_S _ _ _ Ev). apply step_redo.
Qed.

Lemma replacements_inserted es : replacements Forward es = map inserted es.
Proof using. done. Qed.

Lemma total_replicate n q new es :
  Forall (fun e => removed e = q /\ inserted e = new) es -> length es <= n ->
  (total_length (replacements Forward es) <= N.of_nat n * text_length new)%N.
Proof using.
  intros H Hn. enough (total_length (replacements Forward es) = N.of_nat (length es) * text_length new)%N by nia. clear Hn.
  induction H as [|e es [_ He] _ IH]; [done|].
  change (total_length (replacements Forward (e :: es))) with (text_length (inserted e) + total_length (replacements Forward es))%N.
  rewrite IH, He. cbn [length]. lia.
Qed.

Lemma validate_not_refused text es reason : forall n, validate_edits text n es <> Some (inl (Refused reason)).
Proof using.
  induction es as [|e es IH]; intros n; cbn [validate_edits]; [done|]. destruct (checked_add _ _ _); [|done].
  destruct (start e <? n); [done|]. destruct (_ || _); [done|]. destruct (str_slice _ _ _) as [c|]; [|done]. cbn [mbind option_bind].
  destruct (beq c (removed e)); [apply IH|done].
Qed.

Lemma edits_call s vs op :
  session_ok s vs -> op_ok op -> (next_serial (undo_history (doc s)) < u64_max)%N ->
  match op with OpReplace _ _ _ | OpSync _ | OpReplaceAll _ _ | OpApplyEdits _ => True | _ => False end ->
  exists out s' vs', run_op op s = Some (out, s') /\ stepped s vs op out s' vs'.
Proof using L.
  intros Hs Hop Hn Hkind. pose proof (so_doc _ _ Hs) as Hd. destruct (current_valid _ _ Hd) as [Hv [Hlen _]]. pose proof (so_limit _ _ Hs) as Hlim.
  destruct op as [first last new|updated|query new|es| | | | | | |]; try done; cbn [run_op].
  - destruct Hop as [Hnew Hl]. destruct (edit_for_patches (doc s) first last new Hv Hnew) as (e & x & mid & y & Ee & Hi & Ex & Hx & Hm & Hp).
    eapply (edit_call s vs _ [e] false (x ++ new ++ y)); [done|done|by exists x, mid, y|done| |by unfold replace; rewrite Ee].
    change (total_length (replacements Forward [e])) with (text_length (inserted e) + 0)%N. rewrite Hi.
    pose proof (memory_holds_text _ Hl). lia.
  - destruct Hop as [Hu Hl]. destruct (decide (updated = doc_text (doc s))) as [->|Hne].
    { unfold sync_from_view, beq. rewrite bool_decide_true by done. cbn. eexists _, _, vs. split; [done|]. by apply same_call. }
    destruct (sync_from_view_edit updated (doc s) Hv Hu Hne) as (e & co & Hp & _ & Hil & ->).
    eapply (edit_call s vs _ [e] co updated); [done|done|done|done| |].
    + change (total_length (replacements Forward [e])) with (text_length (inserted e) + 0)%N.
      pose proof (memory_holds_text _ Hl). unfold text_length in *. lia.
    + destruct (apply_transaction [e] co (doc s)) as [[r|d']|]; done.
  - destruct Hop as (Hq & Hnew & Hl). unfold replace_all. destruct query as [|q0 q1] eqn:Eq.
    { cbn. eexists _, _, vs. split; [done|]. apply same_call; [done|]. by left. }
    rewrite <- Eq in *. assert (query <> []) as Hne by (by rewrite Eq).
    destruct (find_all_patches (doc_text (doc s)) query new (S (length (doc_text (doc s)))) [] (doc_text (doc s)) Hq Hne Hnew eq_refl Hv ltac:(lia))
      as (es & t & Ees & Hp & Hall & Hcount & Hrep). cbn [length] in Ees, Hp. clear Eq q0 q1.
    assert (target (OpReplaceAll query new) (doc_text (doc s)) t) as Htarget by (right; done).
    assert (total_length (replacements Forward es) <= memory_limit)%N as Hmem.
    { pose proof (total_replicate _ _ _ _ Hall Hcount) as Ht. unfold text_length in *. unfold text_limit, memory_limit in *. nia. }
    unfold beq. case_bool_decide as Eqn.
    { cbn. eexists _, _, vs. split; [done|]. apply same_call; [done|]. right. split; [done|]. subst new.
      assert (t = doc_text (doc s)) as Et by (clear -Hrep; induction Hrep; [done|by f_equal; f_equal]). by rewrite Et in Hrep. }
    rewrite Ees. cbn [mbind option_bind]. destruct (Nat.ltb_spec 0 (length es)) as [Hpos|Hzero].
    + eapply (edit_call s vs _ es false t); [done..|]. destruct (apply_transaction es false (doc s)) as [[r|d']|]; done.
    + destruct es; [|cbn in Hzero; lia]. cbn. eexists _, _, vs. split; [done|]. apply same_call; [done|].
      apply patches_nil_inv in Hp as ->. exact Htarget.
  - destruct Hop as [Hes Hl]. unfold apply_edits. destruct es as [|e0 es0] eqn:Ees.
    { cbn. eexists _, _, vs. split; [done|]. apply same_call; [done|]. by apply patches_nil. }
    rewrite <- Ees in *. clear Ees e0 es0.
    destruct (validate_patches (doc_text (doc s)) es [] (doc_text (doc s)) eq_refl valid_nil Hv Hes) as [[r Er] Hok]. cbn [length] in *.
    rewrite Er. destruct r as [refusal|[]].
    + cbn. eexists _, _, vs. split; [done|]. split_and!; [done| |lia|done]. apply step_inconsistent; [|done].
      intros reason ->. by apply validate_not_refused in Er.
    + destruct (Hok Er) as [t Hp]. eapply (edit_call s vs _ es false t); [done|done|exact Hp|done|by rewrite replacements_inserted|].
      destruct (apply_transaction es false (doc s)) as [[r|d']|]; done.
Qed.

Lemma run_op_spec s vs op :
  session_ok s vs -> op_ok op -> (next_serial (undo_history (doc s)) < u64_max)%N ->
  exists out s' vs', run_op op s = Some (out, s') /\ stepped s vs op out s' vs'.
Proof using L.
  intros Hs Hop Hn. pose proof (so_doc _ _ Hs) as Hd.
  destruct op as [first last new|updated|query new|es| | | | | |k|bs]; try (by apply edits_call); cbn [run_op].
  - by apply undo_call.
  - by apply redo_call.
  - destruct (close_document_spec _ _ Hd) as (d' & -> & Hm & Ht). cbn. eexists _, _, vs. split; [done|].
    pose proof Hm as (_ & Hk & _ & Hns & _ & Hbd & _). split_and!; cbn; [by apply (moved_session s d' vs _ Hs Hm)| |lia|done].
    assert (versions_of d' vs = versions_of (doc s) vs) as -> by (unfold versions_of; by rewrite Hk, Ht).
    apply step_note. left. by constructor.
  - change (mark_saved (doc s)) with (mark_saved_at (token (undo_history (doc s))) (doc s)).
    destruct (mark_session s vs _ _ Hs (names_current _ _ Hd)) as (d' & -> & Hs' & Hv & Hns & Hbd). cbn. eexists _, _, vs. split; [done|].
    split_and!; cbn; [done| |lia|done]. rewrite Hv. apply step_note. left. by right; constructor.
  - eexists _, _, vs. split; [done|]. split_and!; cbn; [| |lia|done].
    + destruct Hs as [H1 H2 H3 H4 H5]. split; cbn; try done. apply Forall_app. split; [done|]. constructor; [|done]. by apply names_current.
    + apply step_note. left. by right; right; constructor.
  - destruct (captured s !! k) as [[point text]|] eqn:Ek.
    + pose proof (Forall_lookup_1 _ _ _ _ (so_captured _ _ Hs) Ek) as Hnm. cbn in Hnm.
      destruct (mark_session s vs _ _ Hs Hnm) as (d' & -> & Hs' & Hv & Hns & Hbd). cbn. eexists _, _, vs. split; [done|].
      split_and!; cbn; [done| |lia|done]. rewrite Hv. apply step_note. right. by exists k.
    + eexists _, _, vs. split; [done|]. split_and!; [done| |lia|done]. apply step_note. right. by exists k.
  - unfold reload_from. destruct (from_bytes bs (doc_bounds (doc s))) as [reason|r] eqn:Er; cbn.
    { eexists _, _, vs. split; [done|]. split_and!; [done| |lia|done]. by apply step_reload_refused. }
    destruct (from_bytes_spec _ _ _ Er) as (Hv & Hw & _). set (d' := mkDocument _ _ _ _ _ _ _ _).
    destruct (loaded_ok d' (doc_text r) (undo_clear (undo_history (doc s)))) as [Hok Hnm]; try done.
    { apply memory_holds_text, (so_limit _ _ Hs). } { apply undo_clear_ok, (do_undo _ _ Hd). }
    eexists _, _, [doc_text r]. split; [done|]. split_and!; cbn; [|by apply (step_reload _ _ _ r)|lia|done].
    split; cbn; [done|apply (so_limit _ _ Hs)|apply (so_budget _ _ Hs)|constructor|]. intros tok [= <-]. by exists (doc_text r).
Qed.

(** ** Whole sessions *)
Fixpoint run_ops (ops : list DocOp) (s : Session) : option (list Outcome * Session) :=
  match ops with
  | [] => Some ([], s)
  | op :: ops' =>
      '(out, s') ← run_op op s;
      '(outs, s'') ← run_ops ops' s';
      Some (out :: outs, s'')
  end.

Inductive version_run (b : DocumentBounds) : list DocOp -> list Outcome -> Versions -> Versions -> Prop :=
  | version_run_nil v : version_run b [] [] v v
  | version_run_cons op ops out outs v v' v'' :
      version_step b DEFAULT_MAX_BYTES op out v v' -> version_run b ops outs v' v'' ->
      version_run b (op :: ops) (out :: outs) v v''.

Lemma run_ops_spec b ops : forall s vs,
  session_ok s vs -> doc_bounds (doc s) = b -> Forall op_ok ops ->
  (next_serial (undo_history (doc s)) + N.of_nat (length ops) <= u64_max)%N ->
  exists outs s' vs', run_ops ops s = Some (outs, s') /\ session_ok s' vs' /\ doc_bounds (doc s') = b /\
    version_run b ops outs (versions_of (doc s) vs) (versions_of (doc s') vs').
Proof using L.
  induction ops as [|op ops IH]; intros s vs Hs Hb Hops Hn.
  { exists [], s, vs. split_and!; [done..|]. constructor. }
  apply Forall_cons_iff in Hops as [Hop Hops]. cbn [length] in Hn.
  destruct (run_op_spec s vs op Hs Hop ltac:(lia)) as (out & s1 & vs1 & E1 & Hs1 & Hv1 & Hn1 & Hb1). rewrite Hb in *.
  destruct (IH s1 vs1 Hs1 Hb1 Hops ltac:(lia)) as (outs & s2 & vs2 & E2 & Hs2 & Hb2 & Hv2).
  exists (out :: outs), s2, vs2. cbn [run_ops]. rewrite E1. cbn [mbind option_bind]. rewrite E2. cbn [mbind option_bind].
  split_and!; [done..|]. by apply (version_run_cons _ _ _ _ _ _ (versions_of (doc s1) vs1)).
Qed.

(** A session that starts from a file. *)
Definition opened (d : TextDocument) : Session := mkSession d [] (Some (doc_text d)).

Lemma session_runs bs b d ops :
  from_bytes bs b = inr d -> (max_bytes b <= text_limit)%N -> Forall op_ok ops -> (N.of_nat (length ops) < u64_max)%N ->
  exists outs s vs, run_ops ops (opened d) = Some (outs, s) /\ session_ok s vs /\ doc_bounds (doc s) = b /\
    version_run b ops outs (mkVersions [] (doc_text d) []) (versions_of (doc s) vs).
Proof using L.
  intros Hd Hb Hops Hn. destruct (from_bytes_spec _ _ _ Hd) as (_ & _ & Hbd & Hu & _).
  destruct (run_ops_spec b ops (opened d) [doc_text d] (from_bytes_session _ _ _ Hd Hb) Hbd Hops) as (outs & s & vs & H1 & H2 & H3 & H4).
  { cbn. rewrite Hu. cbn. lia. }
  exists outs, s, vs. split_and!; [done..|]. unfold versions_of at 1 in H4. cbn in H4. by rewrite Hu in H4.
Qed.

(** C23: no editing session can panic or corrupt the text.  From any accepted
    file, under any sequence of edits (ranges and offsets arbitrary, texts valid
    UTF-8 of up to 2 GiB), view synchronisations, replace-alls, prepared edit
    lists, undos, redos, saves and reloads, every call returns, and the text
    stays valid UTF-8 within the document's byte, line and line-length limits,
    whatever was refused on the way. *)
Theorem document_sessions_are_safe bs b d ops :
  from_bytes bs b = inr d -> (max_bytes b <= text_limit)%N -> Forall op_ok ops -> (N.of_nat (length ops) < u64_max)%N ->
  exists outs s, run_ops ops (opened d) = Some (outs, s) /\ valid_str (doc_text (doc s)) /\ within_bounds b (doc_text (doc s)).
Proof using L.
  intros Hd Hb Hops Hn. destruct (session_runs bs b d ops Hd Hb Hops Hn) as (outs & s & vs & H1 & H2 & <- & _).
  exists outs, s. split; [done|]. apply (current_valid _ _ (so_doc _ _ H2)).
Qed.


(** C29: a clean document is what was saved.  Over any session, including
    saves recorded late for a point captured earlier, a document that is not
    dirty holds exactly the text that was last recorded as written (or last
    loaded). *)
Theorem clean_document_is_the_saved_text bs b d ops outs s :
  from_bytes bs b = inr d -> (max_bytes b <= text_limit)%N -> Forall op_ok ops -> (N.of_nat (length ops) < u64_max)%N ->
  run_ops ops (opened d) = Some (outs, s) -> is_dirty (doc s) = false -> saved s = Some (doc_text (doc s)).
Proof using L.
  intros Hd Hb Hops Hn Hrun Hclean. destruct (session_runs bs b d ops Hd Hb Hops Hn) as (outs' & s' & vs & H1 & H2 & _ & _).
  rewrite Hrun in H1. injection H1 as <- <-. unfold is_dirty in Hclean. destruct (saved_point (doc s)) as [|tok] eqn:Esp; [done|].
  apply negb_false_iff, bool_decide_eq_true in Hclean. destruct (so_saved _ _ H2 tok Esp) as (t & -> & _ & Hname).
  pose proof (so_doc _ _ H2) as Hok. pose proof (do_current _ _ Hok) as Hc. rewrite (Hname (applied (undo_history (doc s)))) in Hc; [congruence| |done].
  by apply lookup_lt_Some in Hc.
Qed.

(** The undo history never exceeds its memory budget.  After any session
    the bytes the history retains - the capacities of all its strings, their
    descriptors and its slots - are exactly what it records, stay within the
    8 MiB budget, and fit the slots it has allocated. *)
Theorem undo_history_stays_in_budget bs b d ops outs s :
  from_bytes bs b = inr d -> (max_bytes b <= text_limit)%N -> Forall op_ok ops -> (N.of_nat (length ops) < u64_max)%N ->
  run_ops ops (opened d) = Some (outs, s) ->
  let u := undo_history (doc s) in
  payload_bytes u = total_weight (entries u) /\ (retained_bytes u <= DEFAULT_MAX_BYTES)%N /\
  (N.of_nat (length (entries u)) <= entries_capacity u)%N /\ (N.of_nat (length (entries u)) <= max_entries u)%N.
Proof using L.
  intros Hd Hb Hops Hn Hrun u. destruct (session_runs bs b d ops Hd Hb Hops Hn) as (outs' & s' & vs & H1 & H2 & _ & _).
  rewrite Hrun in H1. injection H1 as <- <-. pose proof (do_undo _ _ (so_doc _ _ H2)) as Hu. fold u in Hu.
  pose proof (budget_below _ Hu). pose proof (uo_budget _ Hu) as Hbud. pose proof (slot_storage_le (entries_capacity u)).
  pose proof (so_budget _ _ H2) as Hdef. fold u in Hdef. split_and!.
  - rewrite total_weight_exact; [apply (uo_payload _ Hu)|]. rewrite <- (uo_payload _ Hu). lia.
  - unfold retained_bytes. rewrite usize_plus_exact by lia. lia.
  - apply (uo_capacity _ Hu).
  - apply (uo_count _ Hu).
Qed.
End Sessions.

(** ** A session *)
Definition sample_allocator : Allocator :=
  {| string_capacity n := n; deque_capacity n := n; size_of_transaction := 40; size_of_edit := 56 |}.

Lemma sample_allocator_laws : AllocatorLaws sample_allocator.
Proof. split; cbn; intros; lia. Qed.

Definition sample_bytes : list N := bytes "ab" ++ [13; 10]%N ++ bytes "ab".
Definition sample_document : TextDocument :=
  match from_bytes sample_bytes DocumentBounds_DEFAULT with
  | inr d => d
  | inl _ => mkDocument [] Utf8 Lf Tabs DocumentBounds_DEFAULT UndoHistory_new Unwritten 0
  end.

(** Replace all, save, type, undo twice, redo once. *)
Definition sample_ops : list DocOp :=
  [OpReplaceAll (bytes "ab") (bytes "xyz"); OpMarkSaved; OpSync (bytes "xyz" ++ [10%N] ++ bytes "xyz!"); OpUndo; OpUndo; OpRedo].

Lemma ascii_valid s : forallb (fun b => (b <? 128)%N) s = true -> valid_str s.
Proof.
  induction s as [|b s IH]; [intros; apply valid_nil|]. cbn [forallb]. intros [Hb Hs]%andb_true_iff.
  apply (valid_app [b]); [apply valid_ascii; by apply N.ltb_lt|by apply IH].
Qed.

Lemma sample_ops_ok : Forall op_ok sample_ops.
Proof. repeat constructor; try (apply ascii_valid; reflexivity); vm_compute; discriminate. Qed.

Definition sample_run : list Outcome * Session :=
  default ([], opened sample_document) (run_ops (A := sample_allocator) sample_ops (opened sample_document)).

Lemma document_sessions_are_safe_witness :
  exists outs s, run_ops (A := sample_allocator) sample_ops (opened sample_document) = Some (outs, s) /\
    valid_str (doc_text (doc s)) /\ within_bounds DocumentBounds_DEFAULT (doc_text (doc s)).
Proof.
  apply (document_sessions_are_safe (A := sample_allocator) (L := sample_allocator_laws) sample_bytes).
  - reflexivity.
  - vm_compute. discriminate.
  - exact sample_ops_ok.
  - reflexivity.
Defined.


(** The redo comes back to the saved text. *)
Lemma clean_document_is_the_saved_text_witness :
  is_dirty (doc (snd sample_run)) = false /\ saved (snd sample_run) = Some (doc_text (doc (snd sample_run))).
Proof.
  split; [vm_compute; reflexivity|].
  apply (clean_document_is_the_saved_text (A := sample_allocator) (L := sample_allocator_laws) sample_bytes DocumentBounds_DEFAULT
    sample_document sample_ops (fst sample_run)).
  - reflexivity.
  - vm_compute. discriminate.
  - exact sample_ops_ok.
  - reflexivity.
  - vm_compute. reflexivity.
  - vm_compute. reflexivity.
Defined.

Lemma undo_history_stays_in_budget_witness :
  (retained_bytes (A := sample_allocator) (undo_history (doc (snd sample_run))) <= DEFAULT_MAX_BYTES)%N.
Proof.
  refine (proj1 (proj2 (undo_history_stays_in_budget (A := sample_allocator) (L := sample_allocator_laws) sample_bytes
    DocumentBounds_DEFAULT sample_document sample_ops (fst sample_run) (snd sample_run) _ _ _ _ _))).
  - reflexivity.
  - vm_compute. discriminate.
  - exact sample_ops_ok.
  - reflexivity.
  - vm_compute. reflexivity.
Defined.
