(* ===== verification/DocumentFile.v ===== *)
(** * Writing a document and reading it back *)

From Stdlib Require Import NArith Bool.
From S2P Require Import Prelude Cell Utf8 Str StrSpec Undo UndoInv Document EditSpec DocumentInv DocumentSpec.

(** The body of the file: the text with its line ending. *)
Definition with_ending (e : LineEnding) (t : list N) : list N := replace_byte LF (ending_bytes e) t.

Lemma with_ending_cons e b t :
  with_ending e (b :: t) = (if (b =? LF)%N then ending_bytes e else [b]) ++ with_ending e t.
Proof. done. Qed.

Lemma with_ending_lf t : with_ending Lf t = t.
Proof. induction t as [|b t IH]; [done|]. rewrite with_ending_cons, IH. by destruct (N.eqb_spec b LF) as [->|]. Qed.

Lemma with_ending_app e s t : with_ending e (s ++ t) = with_ending e s ++ with_ending e t.
Proof. apply flat_map_app. Qed.

Lemma to_bytes_body d :
  to_bytes d = (match encoding d with Utf8Bom => BOM | Utf8 => [] end) ++ with_ending (line_ending d) (doc_text d).
Proof. unfold to_bytes. destruct (line_ending d); rewrite ?with_ending_lf; by destruct (encoding d). Qed.

Lemma contains_app b s t : contains_byte b (s ++ t) = contains_byte b s || contains_byte b t.
Proof. apply existsb_app. Qed.

Lemma contains_cons b x t : contains_byte b (x :: t) = (b =? x)%N || contains_byte b t.
Proof. done. Qed.

(** ** The body is valid and its bytes are those of the text *)
Lemma with_ending_high e bs : Forall (fun b => (128 <= b)%N) bs -> with_ending e bs = bs.
Proof.
  induction 1 as [|b bs Hb _ IH]; [done|]. rewrite with_ending_cons, IH.
  by rewrite (proj2 (N.eqb_neq _ _)) by (unfold LF; lia).
Qed.

Lemma ending_valid e : valid_str (ending_bytes e).
Proof. destruct e; apply ascii_valid; done. Qed.

Lemma with_ending_valid e t : valid_str t -> valid_str (with_ending e t).
Proof.
  intros H. induction H as [|c t Hc Ht IH] using valid_str_ind; [apply valid_nil|]. rewrite with_ending_app.
  apply valid_app; [|done]. destruct (decide (128 <= c)%N) as [Hge|Hlt].
  - rewrite with_ending_high by (by apply encode_high). by apply valid_encode.
  - unfold encode_utf8. rewrite (proj2 (N.ltb_lt _ _)) by lia. rewrite with_ending_cons, app_nil_r.
    destruct (c =? LF)%N; [apply ending_valid|apply valid_ascii; lia].
Qed.

Lemma with_ending_nul e t : contains_byte 0 (with_ending e t) = contains_byte 0 t.
Proof.
  induction t as [|b t IH]; [done|]. rewrite with_ending_cons, contains_app, IH, contains_cons. f_equal.
  destruct (N.eqb_spec b LF) as [->|Hb]; [by destruct e|]. cbn. by rewrite orb_false_r.
Qed.

Lemma with_ending_bom e t : starts_with BOM (with_ending e t) = starts_with BOM t.
Proof.
  assert (forall b, (128 <= b)%N -> (b =? LF)%N = false) as Hhi by (intros; apply N.eqb_neq; unfold LF; lia).
  assert (forall x p t, (128 <= x)%N -> starts_with (x :: p) (with_ending e t) =
    match t with [] => false | b :: t' => (x =? b)%N && starts_with p (with_ending e t') end) as Hstep.
  { intros x p [|b t'] Hx; [done|]. rewrite with_ending_cons. destruct (N.eqb_spec b LF) as [->|Hb]; [|done].
    rewrite (Hhi x Hx). destruct e; cbn; by rewrite (proj2 (N.eqb_neq x _)) by (unfold LF, CR in *; lia). }
  unfold BOM. rewrite Hstep by lia. destruct t as [|b1 t]; [done|]. rewrite Hstep by lia. destruct t as [|b2 t]; [cbn; by rewrite andb_false_r|].
  rewrite Hstep by lia. destruct t as [|b3 t]; [cbn; by rewrite !andb_false_r|]. done.
Qed.

(** ** Normalising it gives the text back *)
Lemma normalise_body_crlf t : contains_byte CR t = false -> normalise_loop (with_ending Crlf t) false = t.
Proof.
  induction t as [|b t IH]; [done|]. rewrite contains_cons, with_ending_cons. intros [Hb Ht]%orb_false_iff.
  destruct (N.eqb_spec b LF) as [->|Hlf]; cbn.
  - by rewrite IH.
  - rewrite N.eqb_sym in Hb. rewrite Hb. by rewrite IH.
Qed.

Lemma normalise_body_cr t flag :
  contains_byte CR t = false -> normalise_loop (with_ending Cr t) flag = t.
Proof.
  revert flag. induction t as [|b t IH]; intros flag; [done|]. rewrite contains_cons, with_ending_cons. intros [Hb Ht]%orb_false_iff.
  destruct (N.eqb_spec b LF) as [->|Hlf]; cbn.
  - rewrite andb_false_r. by rewrite IH.
  - rewrite N.eqb_sym in Hb. rewrite Hb, (proj2 (N.eqb_neq _ _) Hlf), andb_false_r. by rewrite IH.
Qed.

Lemma normalise_body e t : contains_byte CR t = false -> normalise_line_endings (with_ending e t) = t.
Proof.
  intros H. unfold normalise_line_endings. destruct (contains_byte CR (with_ending e t)) eqn:E.
  - destruct e; [by rewrite with_ending_lf, H in E|by apply normalise_body_crlf|by apply normalise_body_cr].
  - destruct e; [apply with_ending_lf| |]; revert E; clear H;
      (induction t as [|b t IH]; [done|]; rewrite with_ending_cons, contains_app; intros [H1 H2]%orb_false_iff;
       destruct (b =? LF)%N; [done|]; cbn; by rewrite IH).
Qed.

(** ** The ending is detected *)
Definition lines_broken (t : list N) : nat := count_byte LF t.

Lemma count_byte_cons b x t : count_byte b (x :: t) = (if (x =? b)%N then 1 else 0) + count_byte b t.
Proof.
  unfold count_byte. rewrite filter_cons. destruct (N.eqb_spec x b) as [->|Hx]; [by rewrite decide_True|by rewrite decide_False].
Qed.

Lemma count_byte_app b s t : count_byte b (s ++ t) = count_byte b s + count_byte b t.
Proof. induction s as [|x s IH]; [done|]. cbn [app]. rewrite !count_byte_cons, IH. lia. Qed.

Lemma contains_count b t : contains_byte b t = false -> count_byte b t = 0.
Proof.
  induction t as [|x t IH]; [done|]. rewrite contains_cons, count_byte_cons. intros [H1 H2]%orb_false_iff.
  rewrite N.eqb_sym, H1, IH by done. done.
Qed.

Lemma counts_body e t :
  contains_byte CR t = false ->
  count_byte CR (with_ending e t) = (match e with Lf => 0 | _ => lines_broken t end) /\
  count_byte LF (with_ending e t) = (match e with Cr => 0 | _ => lines_broken t end).
Proof.
  unfold lines_broken. induction t as [|b t IH]; [by destruct e|]. rewrite contains_cons. intros [Hb Ht]%orb_false_iff.
  specialize (IH Ht) as [IH1 IH2]. rewrite with_ending_cons, !count_byte_app, IH1, IH2, count_byte_cons.
  rewrite N.eqb_sym in Hb. destruct (N.eqb_spec b LF) as [->|Hlf]; [by destruct e|].
  assert (count_byte CR [b] = 0 /\ count_byte LF [b] = 0) as [-> ->]
    by (rewrite !count_byte_cons, Hb, (proj2 (N.eqb_neq _ _) Hlf); done). by destruct e.
Qed.

Lemma find_crlf_none t : contains_byte CR t = false \/ contains_byte LF t = false -> find [CR; LF] t = None.
Proof.
  induction t as [|b t IH]; [done|]. rewrite !contains_cons. intros H. cbn [find].
  assert (starts_with [CR; LF] (b :: t) = false) as ->.
  { cbn [starts_with]. destruct t as [|b2 t]; [by rewrite andb_false_r|]. rewrite contains_cons in H.
    destruct H as [[H _]%orb_false_iff|[_ [H _]%orb_false_iff]%orb_false_iff]; rewrite H; [done|by rewrite andb_false_r]. }
  rewrite IH; [done|]. destruct H as [[_ H]%orb_false_iff|[_ H]%orb_false_iff]; [by left|by right].
Qed.

Lemma find_crlf_here l rest : contains_byte CR l = false -> find [CR; LF] (l ++ CR :: LF :: rest) = Some (length l).
Proof.
  induction l as [|b l IH]; [done|]. rewrite contains_cons. intros [Hb Hl]%orb_false_iff. cbn [app find starts_with].
  rewrite Hb. cbn [andb]. by rewrite IH.
Qed.

Lemma split_first_lf t : contains_byte LF t = false \/ exists l t', t = l ++ LF :: t' /\ contains_byte LF l = false.
Proof.
  induction t as [|b t IH]; [by left|]. rewrite contains_cons. destruct (N.eqb_spec LF b) as [<-|Hb]; [by right; exists [], t|].
  destruct IH as [->|(l & t' & -> & Hl)]; [by left|]. right. exists (b :: l), t'. split; [done|]. by rewrite contains_cons, (proj2 (N.eqb_neq _ _) Hb).
Qed.

Lemma with_ending_no_lf e t : contains_byte LF t = false -> with_ending e t = t.
Proof.
  induction t as [|b t IH]; [done|]. rewrite contains_cons, with_ending_cons. intros [Hb Ht]%orb_false_iff.
  rewrite N.eqb_sym, Hb, IH by done. done.
Qed.

Lemma count_crlf_body t : contains_byte CR t = false -> forall fuel, lines_broken t < fuel ->
  count_loop fuel [CR; LF] (with_ending Crlf t) = lines_broken t.
Proof.
  remember (lines_broken t) as n eqn:Hn. revert t Hn. induction n as [|n IH]; intros t Hn Hcr fuel Hf; destruct fuel as [|fuel]; try lia; cbn [count_loop].
  - destruct (split_first_lf t) as [Hno|(l & t' & -> & Hl)].
    + rewrite with_ending_no_lf by done. by rewrite find_crlf_none by (by left).
    + unfold lines_broken in Hn. rewrite count_byte_app, count_byte_cons in Hn. cbn in Hn. lia.
  - destruct (split_first_lf t) as [Hno|(l & t' & -> & Hl)]; [unfold lines_broken in Hn; rewrite contains_count in Hn by done; lia|].
    rewrite contains_app, contains_cons in Hcr. apply orb_false_iff in Hcr as [Hcl [_ Hct]%orb_false_iff].
    unfold lines_broken in Hn. rewrite count_byte_app, count_byte_cons, (contains_count LF l) in Hn by done. cbn in Hn.
    rewrite with_ending_app, with_ending_no_lf, with_ending_cons by done. cbn [N.eqb LF Pos.eqb ending_bytes app].
    rewrite find_crlf_here by done. f_equal. cbn [length].
    assert (drop (length l + 2) (l ++ CR :: LF :: with_ending Crlf t') = with_ending Crlf t') as ->.
    { rewrite drop_app_ge by lia. by replace (length l + 2 - length l) with 2 by lia. }
    apply IH; [unfold lines_broken; lia|done|lia].
Qed.

Lemma detect_body e t :
  contains_byte CR t = false ->
  detect_line_ending (with_ending e t) = if lines_broken t =? 0 then Lf else e.
Proof.
  intros H. unfold detect_line_ending. destruct (counts_body e t H) as [-> ->].
  assert (count_matches [CR; LF] (with_ending e t) = match e with Crlf => lines_broken t | _ => 0 end) as ->.
  { unfold count_matches. destruct e.
    - rewrite with_ending_lf. cbn [count_loop]. by rewrite find_crlf_none by (by left).
    - apply count_crlf_body; [done|]. destruct (counts_body Crlf t H) as [_ <-]. unfold count_byte.
      pose proof (length_filter (fun x => x = LF) (with_ending Crlf t)). lia.
    - cbn [count_loop]. rewrite find_crlf_none; [done|]. right. destruct (counts_body Cr t H) as [_ Hc].
      destruct (contains_byte LF (with_ending Cr t)) eqn:E; [|done]. apply existsb_exists in E as (x & Hin & <-%N.eqb_eq).
      unfold count_byte in Hc. apply length_zero_iff_nil in Hc. apply list_elem_of_In in Hin.
      assert (LF ∈ filter (fun x => x = LF) (with_ending Cr t)) as Hf by (by apply list_elem_of_filter). rewrite Hc in Hf. by apply not_elem_of_nil in Hf. }
  set (n := lines_broken t). clearbody n.
  destruct n as [|n]; destruct e; rewrite ?Nat.sub_diag, ?Nat.sub_0_r; done.
Qed.

(** ** What can be read back *)
Record readable (d : TextDocument) (b : DocumentBounds) : Prop := {
  no_carriage_return : contains_byte CR (doc_text d) = false;
  no_nul : contains_byte 0 (doc_text d) = false;
  no_mark : encoding d = Utf8 -> starts_with BOM (doc_text d) = false;
  fits_bytes : (text_length (to_bytes d) <= max_bytes b)%N;
  fits_lines : check_lines b (doc_text d) = inr tt
}.

Lemma normalise_loop_no_cr t flag : contains_byte CR (normalise_loop t flag) = false.
Proof.
  revert flag. induction t as [|b t IH]; intros flag; [done|]. cbn [normalise_loop]. destruct (flag && _); [apply IH|].
  destruct (N.eqb_spec b CR) as [->|Hb]; rewrite contains_cons, IH; [done|]. rewrite (proj2 (N.eqb_neq CR b)) by congruence. done.
Qed.

Lemma normalise_no_cr t : contains_byte CR (normalise_line_endings t) = false.
Proof. unfold normalise_line_endings. destruct (contains_byte CR t) eqn:E; [apply normalise_loop_no_cr|done]. Qed.

Lemma read_back_readable d b d' :
  from_bytes (to_bytes d) b = inr d' -> doc_text d' = doc_text d -> encoding d' = encoding d -> readable d b.
Proof.
  intros E Ht He. unfold from_bytes, check_declared_size in E. destruct (N.ltb_spec (max_bytes b) (text_length (to_bytes d))) as [|Hlen]; [done|]. cbn [mbind sum_bind] in E.
  assert (exists body, (if starts_with BOM (to_bytes d) then (Utf8Bom, drop 3 (to_bytes d)) else (Utf8, to_bytes d)) = (encoding d', body)) as [body Eb].
  { destruct (starts_with BOM (to_bytes d)); destruct (contains_byte 0 _); try done; destruct (from_utf8 _); try done; destruct (check_lines _ _); try done; injection E as <-; by eexists. }
  rewrite Eb in E. destruct (contains_byte 0 body) eqn:E0; [done|]. destruct (from_utf8 body); [|done]. destruct (check_lines b _) as [|[]] eqn:El; [done|]. injection E as Ed. rewrite <- Ed in Ht. cbn in Ht.
  assert (body = with_ending (line_ending d) (doc_text d) /\ (encoding d = Utf8 -> starts_with BOM (doc_text d) = false)) as [Eq Hm].
  { rewrite He, to_bytes_body in Eb. destruct (encoding d); cbn [app] in Eb.
    - rewrite with_ending_bom in Eb. destruct (starts_with BOM (doc_text d)); [done|]. by injection Eb as <-.
    - change (starts_with BOM (BOM ++ ?x)) with true in Eb. injection Eb as <-. done. }
  split; try done; [rewrite <- Ht; apply normalise_no_cr|by rewrite Eq, with_ending_nul in E0|by rewrite <- Ht].
Qed.

Lemma readable_reads_back d b :
  valid_str (doc_text d) -> readable d b ->
  exists d', from_bytes (to_bytes d) b = inr d' /\ doc_text d' = doc_text d /\ encoding d' = encoding d /\
    line_ending d' = (if lines_broken (doc_text d) =? 0 then Lf else line_ending d) /\
    to_bytes d' = to_bytes d /\ is_dirty d' = false.
Proof.
  intros Hv [Hcr Hnul Hbom Hlen Hlines]. set (t := doc_text d) in *. set (body := with_ending (line_ending d) t).
  assert (exists d', from_bytes (to_bytes d) b = inr d' /\ doc_text d' = t /\ encoding d' = encoding d /\
    line_ending d' = detect_line_ending body /\ is_dirty d' = false) as (d' & E & Ht & He & Hl & Hd).
  { unfold from_bytes, check_declared_size. rewrite (proj2 (N.ltb_ge _ _)) by done. cbn [mbind sum_bind].
    assert ((if starts_with BOM (to_bytes d) then (Utf8Bom, drop 3 (to_bytes d)) else (Utf8, to_bytes d)) = (encoding d, body)) as ->.
    { rewrite to_bytes_body. fold t body. destruct (encoding d); cbn [app].
      - unfold body. by rewrite with_ending_bom, Hbom.
      - done. }
    unfold body at 1. rewrite with_ending_nul, Hnul.
    destruct (proj2 (from_utf8_iff body)) as [cs ->]; [by apply with_ending_valid|].
    cbn zeta. assert (normalise_line_endings body = t) as -> by (by apply normalise_body). rewrite Hlines. cbn. by eexists. }
  exists d'. unfold body in Hl. rewrite detect_body in Hl by done. split_and!; [done..| |done]. rewrite !to_bytes_body, He, Ht, Hl. f_equal.
  destruct (Nat.eqb_spec (lines_broken t) 0) as [H0|]; [|done]. fold t.
  assert (contains_byte LF t = false) as Hlf.
  { destruct (split_first_lf t) as [?|(l & t' & E' & _)]; [done|]. unfold lines_broken in H0. rewrite E', count_byte_app, count_byte_cons in H0. cbn in H0. lia. }
  by rewrite !with_ending_no_lf.
Qed.

(** C32: what a document writes is what is read back, for exactly the documents
    a file can hold.  A valid text reads back, with its encoding, if and only if
    it has no carriage return or NUL of its own, does not start with a byte-order
    mark when it is saved without one, and the file is within the size and line
    limits.  Then the file decodes to exactly that text, encoding and ending, and
    saving again writes the same bytes; only a text with no line break forgets
    its ending, which then has nothing to end. *)
Theorem saved_file_reads_back d b :
  valid_str (doc_text d) ->
  (readable d b <-> exists d', from_bytes (to_bytes d) b = inr d' /\ doc_text d' = doc_text d /\ encoding d' = encoding d) /\
  (readable d b -> exists d', from_bytes (to_bytes d) b = inr d' /\ doc_text d' = doc_text d /\ encoding d' = encoding d /\
     line_ending d' = (if lines_broken (doc_text d) =? 0 then Lf else line_ending d) /\
     to_bytes d' = to_bytes d /\ is_dirty d' = false).
Proof.
  intros Hv.
  split; [split; [intros H; destruct (readable_reads_back d b Hv H) as (d' & ? & ? & ? & _); eauto|by intros (d' & E & Ht & He); eapply read_back_readable]|by apply readable_reads_back].
Qed.

Lemma saved_file_reads_back_witness :
  exists d', from_bytes (to_bytes sample_document) DocumentBounds_DEFAULT = inr d' /\ doc_text d' = doc_text sample_document /\
    encoding d' = encoding sample_document /\ line_ending d' = Crlf /\
    to_bytes d' = to_bytes sample_document /\ is_dirty d' = false.
Proof.
  apply (proj2 (saved_file_reads_back sample_document DocumentBounds_DEFAULT ltac:(apply ascii_valid; reflexivity))). split.
  - reflexivity.
  - reflexivity.
  - intros _. reflexivity.
  - vm_compute. discriminate.
  - vm_compute. reflexivity.
Defined.
