(* ===== verification/Diff.v ===== *)
(** * The line comparison ([festerm-document/src/diff.rs])

    The two texts line by line: the common ends are paired, and the middle is
    aligned along a longest common subsequence, read off a table that is filled
    from its far corner.  A panic is [None]. *)

From Stdlib Require Import NArith Bool.
From S2P Require Import Prelude Cell Utf8 Str.

Inductive LineChange := Unchanged | Removed | Added.
Record DiffLine := mkDiffLine { number : nat; line_text : list N; change : LineChange }.

Definition Pair : Type := option DiffLine * option DiffLine.

Inductive LineComparisonRow :=
  | RowPair (left right : option DiffLine)
  | Collapsed (lines : nat).

Record LineComparison := mkComparison { rows : list LineComparisonRow; change_count : nat; truncated : bool }.

Inductive Step := Keep (mine source : nat) | Remove (mine : nat) | Add (source : nat).

Definition CONTEXT_LINES : nat := 2.
Definition MAX_ALIGNED_LINES : N := 2000.

(** ** The common ends *)
Fixpoint common_prefix (l r : list (list N)) : nat :=
  match l, r with
  | x :: l', y :: r' => if beq x y then S (common_prefix l' r') else 0
  | _, _ => 0
  end.
Definition common_suffix (l r : list (list N)) : nat := common_prefix (reverse l) (reverse r).

(** ** The table *)
Definition table_at (columns row column : nat) : nat := row * (columns + 1) + column.

Definition fill_entry (mine source : list (list N)) (row column : nat) (table : list N) : option (list N) :=
  let at_ := table_at (length source) in
  x ← mine !! row;
  y ← source !! column;
  entry ← (if beq x y then
             n ← table !! at_ (row + 1) (column + 1); Some (n + 1)%N
           else
             a ← table !! at_ (row + 1) column;
             b ← table !! at_ row (column + 1);
             Some (N.max a b));
  set_index table (at_ row column) entry.

Definition fill_table (mine source : list (list N)) : option (list N) :=
  for_each (fun row => for_each (fill_entry mine source row) (reverse (range 0 (length source))))
    (reverse (range 0 (length mine))) (replicate ((length mine + 1) * (length source + 1)) 0%N).

(** The walk from the near corner; each step consumes a line, so the two
    lengths together are enough fuel. *)
Fixpoint walk (fuel : nat) (mine source : list (list N)) (table : list N) (row column : nat)
    : option (list Step * (nat * nat)) :=
  match fuel with
  | O => Some ([], (row, column))
  | S fuel' =>
      if (row <? length mine) && (column <? length source) then
        let at_ := table_at (length source) in
        x ← mine !! row;
        y ← source !! column;
        if beq x y then
          '(steps, stop) ← walk fuel' mine source table (row + 1) (column + 1);
          Some (Keep row column :: steps, stop)
        else
          a ← table !! at_ (row + 1) column;
          b ← table !! at_ row (column + 1);
          if (b <=? a)%N then
            '(steps, stop) ← walk fuel' mine source table (row + 1) column;
            Some (Remove row :: steps, stop)
          else
            '(steps, stop) ← walk fuel' mine source table row (column + 1);
            Some (Add column :: steps, stop)
      else Some ([], (row, column))
  end.

Definition offset_step (m s : nat) (step : Step) : Step :=
  match step with
  | Keep a b => Keep (m + a) (s + b)
  | Remove a => Remove (m + a)
  | Add b => Add (s + b)
  end.

Definition longest_common_subsequence (mine source : list (list N)) (mine_offset source_offset : nat)
    : option (list Step) :=
  table ← fill_table mine source;
  '(steps, (row, column)) ← walk (length mine + length source) mine source table 0 0;
  Some (map (offset_step mine_offset source_offset)
          (steps ++ map Remove (range row (length mine)) ++ map Add (range column (length source)))).

(** ** The pairs *)
Definition unchanged (index : nat) (t : list N) : DiffLine := mkDiffLine (index + 1) t Unchanged.

(** [drain_pending]: removals beside additions. *)
Definition drain_pending (removals additions : list DiffLine) : list Pair :=
  map (fun i => (removals !! i, additions !! i)) (range 0 (Nat.max (length removals) (length additions))).

Fixpoint emit (mine source : list (list N)) (script : list Step) (removals additions : list DiffLine)
    : option (list Pair) :=
  match script with
  | [] => Some (drain_pending removals additions)
  | Remove i :: script' =>
      t ← mine !! i;
      emit mine source script' (removals ++ [mkDiffLine (i + 1) t Removed]) additions
  | Add i :: script' =>
      t ← source !! i;
      emit mine source script' removals (additions ++ [mkDiffLine (i + 1) t Added])
  | Keep i j :: script' =>
      x ← mine !! i;
      y ← source !! j;
      rest ← emit mine source script' [] [];
      Some (drain_pending removals additions ++ (Some (unchanged i x), Some (unchanged j y)) :: rest)
  end.

(** A pair of unchanged lines, one on each side. *)
Definition equal_pair (mine source : list (list N)) (i j : nat) : option Pair :=
  x ← mine !! i;
  y ← source !! j;
  Some (Some (unchanged i x), Some (unchanged j y)).

Definition align (mine source : list (list N)) (prefix mine_end source_end : nat) : option (list Pair * bool) :=
  head_pairs ← mapM (fun i => equal_pair mine source i i) (range 0 prefix);
  mine_middle ← slice mine prefix mine_end;
  source_middle ← slice source prefix source_end;
  let too_large := (MAX_ALIGNED_LINES <? N.of_nat (length mine_middle))%N
                   || (MAX_ALIGNED_LINES <? N.of_nat (length source_middle))%N in
  script ← (if too_large then
              Some (map (fun i => Remove (prefix + i)) (range 0 (length mine_middle))
                    ++ map (fun i => Add (prefix + i)) (range 0 (length source_middle)))
            else longest_common_subsequence mine_middle source_middle prefix prefix);
  middle_pairs ← emit mine source script [] [];
  tail_pairs ← mapM (fun i => equal_pair mine source (mine_end + i) (source_end + i)) (range 0 (length mine - mine_end));
  Some (head_pairs ++ middle_pairs ++ tail_pairs, too_large).

(** ** Folding *)
Definition fold (run : list LineComparisonRow) (leading : bool) : list LineComparisonRow :=
  if length run <=? CONTEXT_LINES * 2 + 1 then run
  else if leading then
    let head_length := length run - CONTEXT_LINES in
    Collapsed (length (take head_length run)) :: drop head_length run
  else take CONTEXT_LINES run ++ [Collapsed (length (drop CONTEXT_LINES run))].

Definition is_changed (p : Pair) : bool :=
  match p with
  | (Some (mkDiffLine _ _ Removed), _) => true
  | (_, Some (mkDiffLine _ _ Added)) => true
  | _ => false
  end.

Fixpoint fold_pairs (pairs : list Pair) (unchanged_run : list LineComparisonRow) : list LineComparisonRow :=
  match pairs with
  | [] => fold unchanged_run false
  | p :: pairs' =>
      let row := RowPair (fst p) (snd p) in
      if is_changed p then fold unchanged_run true ++ row :: fold_pairs pairs' []
      else fold_pairs pairs' (unchanged_run ++ [row])
  end.

Definition LineComparison_new (mine source : list N) : option LineComparison :=
  let mine_lines := str_lines mine in
  let source_lines := str_lines source in
  let prefix := common_prefix mine_lines source_lines in
  let suffix := common_suffix (drop prefix mine_lines) (drop prefix source_lines) in
  '(pairs, too_large) ← align mine_lines source_lines prefix (length mine_lines - suffix) (length source_lines - suffix);
  Some (mkComparison (fold_pairs pairs []) (length (filter (fun p => is_changed p = true) pairs)) too_large).

Definition is_identical (c : LineComparison) : bool := change_count c =? 0.

Definition row_changed (r : LineComparisonRow) : bool :=
  match r with
  | RowPair l r => match l with Some (mkDiffLine _ _ Removed) => true | _ => false end
                   || match r with Some (mkDiffLine _ _ Added) => true | _ => false end
  | Collapsed _ => false
  end.

(** The rows that hold a change. *)
Definition change_rows (c : LineComparison) : list nat :=
  omap (fun '(i, r) => if row_changed r then Some i else None) (imap pair (rows c)).
