(* ===== verification/DiffSpec.v ===== *)
(** * What a comparison shows

    The pairs reproduce both texts line for line, unchanged pairs are equal,
    and unless the comparison was cut short there are as many of them as any
    common subsequence of the two texts has lines. *)

From Stdlib Require Import NArith Bool.
From S2P Require Import Prelude Cell Utf8 Str Diff.

(** ** Longest common subsequences *)
Fixpoint lcs (a : list (list N)) : list (list N) -> nat :=
  match a with
  | [] => fun _ => 0
  | x :: a' => fix inner b :=
      match b with
      | [] => 0
      | y :: b' => if beq x y then S (lcs a' b') else Nat.max (lcs a' b) (inner b')
      end
  end.

Lemma lcs_nil_r a : lcs a [] = 0.
Proof. by destruct a. Qed.

Lemma lcs_cons x a y b :
  lcs (x :: a) (y :: b) = if beq x y then S (lcs a b) else Nat.max (lcs a (y :: b)) (lcs (x :: a) b).
Proof. done. Qed.

Lemma sublist_tail {X} (s : list X) y b : sublist s (y :: b) -> sublist (tl s) b.
Proof.
  intros H. inversion H as [|? ? ? H'|? ? ? H']; subst; [done|]. destruct s as [|z s]; [done|]. cbn.
  etransitivity; [apply sublist_cons; reflexivity|done].
Qed.

Lemma lcs_bound a b s : sublist s a -> sublist s b -> length s <= lcs a b.
Proof.
  revert b s. induction a as [|x a IHa]; intros b s.
  { intros H%sublist_nil_r. by subst. }
  revert s. induction b as [|y b IHb]; intros s Ha Hb.
  { apply sublist_nil_r in Hb. by subst. }
  rewrite lcs_cons. unfold beq. case_bool_decide as Exy.
  - apply sublist_tail in Ha, Hb. specialize (IHa b (tl s) Ha Hb). destruct s; cbn in *; lia.
  - destruct s as [|z s]; [cbn; lia|]. inversion Ha as [|? ? ? Ha'|? ? ? Ha']; subst.
    + inversion Hb as [|? ? ? Hb'|? ? ? Hb']; subst; [done|]. specialize (IHb (x :: s) Ha Hb'). lia.
    + specialize (IHa (y :: b) (z :: s) Ha' Hb). lia.
Qed.

(** ** The table *)
Section Table.
Context (mine source : list (list N)).
Abbreviation R := (length mine).
Abbreviation C := (length source).
Abbreviation at_ := (table_at C).
Abbreviation best r c := (lcs (drop r mine) (drop c source)).

Definition good (done_ : nat -> nat -> Prop) (table : list N) : Prop :=
  length table = (R + 1) * (C + 1) /\
  forall r c, r <= R -> c <= C -> done_ r c -> table !! at_ r c = Some (N.of_nat (best r c)).

Lemma table_at_bound r c : r <= R -> c <= C -> at_ r c < (R + 1) * (C + 1).
Proof. unfold table_at. nia. Qed.

Lemma table_at_inj r c r' c' : c <= C -> c' <= C -> at_ r c = at_ r' c' -> r = r' /\ c = c'.
Proof. unfold table_at. intros. assert (r = r') by nia. subst. lia. Qed.

Lemma fill_entry_good done_ r c table :
  good done_ table -> r < R -> c < C -> done_ (r + 1) (c + 1) -> done_ (r + 1) c -> done_ r (c + 1) ->
  exists table', fill_entry mine source r c table = Some table' /\
    good (fun r' c' => done_ r' c' \/ (r' = r /\ c' = c)) table'.
Proof.
  intros [Hl Hg] Hr Hc H1 H2 H3. unfold fill_entry.
  destruct (mine !! r) as [x|] eqn:Ex; [|apply lookup_ge_None_1 in Ex; lia].
  destruct (source !! c) as [y|] eqn:Ey; [|apply lookup_ge_None_1 in Ey; lia]. cbn [mbind option_bind].
  rewrite !Hg by (done || lia). cbn [mbind option_bind].
  assert (exists entry, (if beq x y then Some (N.of_nat (best (r + 1) (c + 1)) + 1)%N
    else Some (N.max (N.of_nat (best (r + 1) c)) (N.of_nat (best r (c + 1))))) = Some entry /\ entry = N.of_nat (best r c)) as (entry & -> & ->).
  { rewrite (drop_S _ _ _ Ex), (drop_S _ _ _ Ey), lcs_cons. replace (r + 1) with (S r) by lia. replace (c + 1) with (S c) by lia.
    unfold beq. case_bool_decide; eexists; (split; [done|lia]). }
  cbn [mbind option_bind]. rewrite set_index_Some by (rewrite Hl; by apply table_at_bound; lia).
  eexists. split; [done|]. split; [by rewrite length_insert|]. intros r' c' Hr' Hc' Hd.
  destruct (decide (at_ r c = at_ r' c')) as [E|E].
  - apply table_at_inj in E as [<- <-]; [|lia|lia]. rewrite list_lookup_insert_eq; [done|]. rewrite Hl. apply table_at_bound; lia.
  - rewrite list_lookup_insert_ne by done. destruct Hd as [Hd|[-> ->]]; [by apply Hg|done].
Qed.

Lemma good_mono (p q : nat -> nat -> Prop) table :
  (forall r c, r <= R -> c <= C -> q r c -> p r c) -> good p table -> good q table.
Proof. intros H [Hl Hg]. split; [done|]. intros. apply Hg; auto. Qed.

Lemma reverse_range_S n : reverse (range 0 (S n)) = n :: reverse (range 0 n).
Proof. unfold range. rewrite !Nat.sub_0_r, seq_S, reverse_snoc. done. Qed.

Lemma fill_row_good r k table :
  r < R -> k <= C -> good (fun r' c' => r < r' \/ (r' = r /\ k <= c') \/ c' = C) table ->
  exists table', for_each (fill_entry mine source r) (reverse (range 0 k)) table = Some table' /\
    good (fun r' c' => r <= r' \/ c' = C) table'.
Proof.
  intros Hr. revert table. induction k as [|k IH]; intros table Hk Hg.
  - exists table. split; [done|]. eapply good_mono; [|exact Hg]. cbn. intros r' c' _ _ [?|?]; lia.
  - rewrite reverse_range_S. cbn [for_each].
    destruct (fill_entry_good _ r k table Hg Hr ltac:(lia)) as (t1 & -> & Hg1); [lia..|]. cbn [mbind option_bind].
    apply IH; [lia|]. eapply good_mono; [|exact Hg1]. cbn. intros; lia.
Qed.

Lemma fill_rows_good j table :
  j <= R -> good (fun r' c' => j <= r' \/ c' = C) table ->
  exists table', for_each (fun row => for_each (fill_entry mine source row) (reverse (range 0 C))) (reverse (range 0 j)) table = Some table' /\
    good (fun _ _ => True) table'.
Proof.
  revert table. induction j as [|j IH]; intros table Hj Hg.
  - exists table. split; [done|]. eapply good_mono; [|exact Hg]. intros; cbn; lia.
  - rewrite reverse_range_S. cbn [for_each].
    destruct (fill_row_good j C table ltac:(lia) ltac:(lia)) as (t1 & -> & Hg1).
    { eapply good_mono; [|exact Hg]. cbn. intros; lia. }
    cbn [mbind option_bind]. by apply IH; [lia|].
Qed.

Lemma fill_table_good : exists table, fill_table mine source = Some table /\ good (fun _ _ => True) table.
Proof.
  apply fill_rows_good; [lia|]. split; [by rewrite length_replicate|]. intros r c Hr Hc Hd.
  rewrite lookup_replicate_2 by (by apply table_at_bound). f_equal.
  destruct Hd as [Hd| ->]; [rewrite (drop_ge mine) by lia|rewrite (drop_ge source), lcs_nil_r by lia]; done.
Qed.

(** ** The script *)
Definition mine_index (s : Step) : option nat := match s with Keep i _ | Remove i => Some i | Add _ => None end.
Definition source_index (s : Step) : option nat := match s with Keep _ j | Add j => Some j | Remove _ => None end.
Definition is_keep (s : Step) : bool := match s with Keep _ _ => true | _ => false end.
Definition keeps (script : list Step) : nat := length (filter (fun s => is_keep s = true) script).

(** A script that consumes both sides in order and keeps only equal lines. *)
Definition script_ok (r c : nat) (script : list Step) : Prop :=
  omap mine_index script = seq r (R - r) /\ omap source_index script = seq c (C - c) /\
  forall i j, Keep i j ∈ script -> exists x, mine !! i = Some x /\ source !! j = Some x.

Definition finish (r c : nat) (steps : list Step) : list Step := steps ++ map Remove (range r R) ++ map Add (range c C).

Lemma finish_script r c : r <= R -> c <= C -> script_ok r c (finish r c []) /\ keeps (finish r c []) = 0.
Proof.
  intros Hr Hc. unfold finish, script_ok. cbn [app]. rewrite !omap_app.
  assert (forall l, omap mine_index (map Remove l) = l /\ omap source_index (map Remove l) = []) as Hrm
    by (induction l as [|? ? [IH1 IH2]]; cbn; [done|]; by rewrite IH1, IH2).
  assert (forall l, omap mine_index (map Add l) = [] /\ omap source_index (map Add l) = l) as Had
    by (induction l as [|? ? [IH1 IH2]]; cbn; [done|]; by rewrite IH1, IH2).
  destruct (Hrm (range r R)) as [-> ->]. destruct (Had (range c C)) as [-> ->]. rewrite app_nil_r. split_and!; [done|done| |].
  - intros i j Hin. exfalso. apply elem_of_app in Hin as [Hin|Hin]; apply list_elem_of_fmap in Hin as (? & ? & _); done.
  - unfold keeps. replace (filter _ (map Remove (range r R) ++ map Add (range c C))) with (@nil Step); [done|].
    symmetry. induction (range r R) as [|? l IH]; cbn; [|done]. induction (range c C) as [|? l IH]; cbn; done.
Qed.

Lemma finish_ok r c : r <= R -> c <= C -> r = R \/ c = C -> script_ok r c (finish r c []) /\ keeps (finish r c []) = best r c.
Proof.
  intros Hr Hc Hend. destruct (finish_script r c Hr Hc) as [? ->]. split; [done|].
  destruct Hend as [-> | ->]; [rewrite (drop_ge mine) by lia|rewrite (drop_ge source), lcs_nil_r by lia]; done.
Qed.

Lemma keeps_cons st l : keeps (st :: l) = (if is_keep st then 1 else 0) + keeps l.
Proof. unfold keeps. rewrite filter_cons. destruct (is_keep st); [by rewrite decide_True|by rewrite decide_False]. Qed.

Lemma finish_cons r c st steps : finish r c (st :: steps) = st :: finish r c steps.
Proof. done. Qed.

Lemma script_cons r c step script :
  match step with
  | Keep i j => i = r /\ j = c /\ r < R /\ c < C /\ (exists x, mine !! r = Some x /\ source !! c = Some x) /\ script_ok (S r) (S c) script
  | Remove i => i = r /\ r < R /\ script_ok (S r) c script
  | Add j => j = c /\ c < C /\ script_ok r (S c) script
  end -> script_ok r c (step :: script).
Proof.
  unfold script_ok. destruct step as [i j|i|j].
  - intros (-> & -> & Hr & Hc & Hx & H1 & H2 & H3). cbn. rewrite H1, H2. replace (R - r) with (S (R - S r)) by lia.
    replace (C - c) with (S (C - S c)) by lia. split_and!; [done|done|]. intros i' j' [[= -> ->]|Hin]%elem_of_cons; [done|by apply H3].
  - intros (-> & Hr & H1 & H2 & H3). cbn. rewrite H1, H2. replace (R - r) with (S (R - S r)) by lia.
    split_and!; [done|done|]. intros i' j' [?|Hin]%elem_of_cons; [done|by apply H3].
  - intros (-> & Hc & H1 & H2 & H3). cbn. rewrite H1, H2. replace (C - c) with (S (C - S c)) by lia.
    split_and!; [done|done|]. intros i' j' [?|Hin]%elem_of_cons; [done|by apply H3].
Qed.

Lemma walk_ok table fuel : good (fun _ _ => True) table -> forall r c,
  r <= R -> c <= C -> (R - r) + (C - c) <= fuel ->
  exists steps r' c', walk fuel mine source table r c = Some (steps, (r', c')) /\
    script_ok r c (finish r' c' steps) /\ keeps (finish r' c' steps) = best r c.
Proof.
  intros [_ Hg]. induction fuel as [|fuel IH]; intros r c Hr Hc Hf; cbn [walk].
  { exists [], r, c. split; [done|]. apply finish_ok; lia. }
  destruct (Nat.ltb_spec r R) as [Hlr|]; [|exists [], r, c; split; [done|]; apply finish_ok; lia].
  destruct (Nat.ltb_spec c C) as [Hlc|]; [|exists [], r, c; split; [done|]; apply finish_ok; lia]. cbn [andb].
  destruct (mine !! r) as [x|] eqn:Ex; [|apply lookup_ge_None_1 in Ex; lia].
  destruct (source !! c) as [y|] eqn:Ey; [|apply lookup_ge_None_1 in Ey; lia]. cbn [mbind option_bind].
  rewrite (drop_S _ _ _ Ex), (drop_S _ _ _ Ey), lcs_cons, <- (drop_S _ _ _ Ex), <- (drop_S _ _ _ Ey).
  rewrite !Hg by (done || lia). cbn [mbind option_bind]. replace (r + 1) with (S r) by lia. replace (c + 1) with (S c) by lia.
  unfold beq. case_bool_decide as Exy.
  - destruct (IH (S r) (S c) ltac:(lia) ltac:(lia) ltac:(lia)) as (steps & r' & c' & -> & Hs & Hk). cbn [mbind option_bind].
    exists (Keep r c :: steps), r', c'. split; [done|]. rewrite finish_cons. split; [|rewrite keeps_cons, Hk; done].
    apply (script_cons r c (Keep r c) (finish r' c' steps)). subst y. split_and!; [done|done|done|done|by exists x|done].
  - destruct (N.leb_spec (N.of_nat (best r (S c))) (N.of_nat (best (S r) c))) as [Hle|Hlt].
    + destruct (IH (S r) c ltac:(lia) ltac:(lia) ltac:(lia)) as (steps & r' & c' & -> & Hs & Hk). cbn [mbind option_bind].
      exists (Remove r :: steps), r', c'. split; [done|]. rewrite finish_cons. split; [|rewrite keeps_cons, Hk; cbn [is_keep]; lia].
      apply (script_cons r c (Remove r) (finish r' c' steps)). by split_and!.
    + destruct (IH r (S c) ltac:(lia) ltac:(lia) ltac:(lia)) as (steps & r' & c' & -> & Hs & Hk). cbn [mbind option_bind].
      exists (Add c :: steps), r', c'. split; [done|]. rewrite finish_cons. split; [|rewrite keeps_cons, Hk; cbn [is_keep]; lia].
      apply (script_cons r c (Add c) (finish r' c' steps)). by split_and!.
Qed.

Lemma longest_ok m0 s0 :
  exists script, longest_common_subsequence mine source m0 s0 = Some (map (offset_step m0 s0) script) /\
    script_ok 0 0 script /\ keeps script = lcs mine source.
Proof.
  unfold longest_common_subsequence. destruct fill_table_good as (table & -> & Hg). cbn [mbind option_bind].
  destruct (walk_ok table (R + C) Hg 0 0 ltac:(lia) ltac:(lia) ltac:(lia)) as (steps & r & c & -> & Hs & Hk). cbn [mbind option_bind].
  exists (finish r c steps). split; [done|]. split; [done|]. by rewrite !drop_0 in Hk.
Qed.
End Table.

(** ** The pairs *)
Definition lefts (ps : list Pair) : list DiffLine := omap fst ps.
Definition rights (ps : list Pair) : list DiffLine := omap snd ps.

(** Both sides unchanged and equal, or a removal beside an addition. *)
Definition pair_ok (p : Pair) : Prop :=
  (exists x y, p = (Some x, Some y) /\ change x = Unchanged /\ change y = Unchanged /\ line_text x = line_text y) \/
  (p <> (None, None) /\ (forall x, fst p = Some x -> change x = Removed) /\ (forall y, snd p = Some y -> change y = Added)).

Definition is_unchanged (p : Pair) : bool := negb (is_changed p).

Lemma pair_ok_changed p : pair_ok p ->
  (is_changed p = false <-> exists x y, p = (Some x, Some y) /\ change x = Unchanged /\ change y = Unchanged /\ line_text x = line_text y).
Proof.
  intros [(x & y & -> & Hx & Hy & He)|(Hne & Hl & Hr)].
  - split; [intros _; by exists x, y|]. intros _. destruct x, y. cbn in *. by subst.
  - split.
    + intros H. destruct p as [[x|] [y|]]; cbn in *; [specialize (Hl x eq_refl)|specialize (Hl x eq_refl)|specialize (Hr y eq_refl)|done];
        destruct x || destruct y; cbn in *; by subst.
    + intros (x & y & -> & Hx & _). specialize (Hl x eq_refl). congruence.
Qed.

Lemma omap_shift {X} (f : nat -> option X) l : omap f (map S l) = omap (fun i => f (S i)) l.
Proof. induction l as [|i l IH]; cbn; [done|]. by rewrite IH. Qed.

Lemma omap_none {X} (l : list nat) : omap (fun _ => @None X) l = [].
Proof. by induction l. Qed.

Lemma omap_lookup {X} (l : list X) m : omap (fun i => l !! i) (seq 0 m) = take m l.
Proof.
  revert l. induction m as [|m IH]; intros l; [done|]. cbn [seq]. rewrite <- seq_shift. destruct l as [|x l]; cbn.
  - rewrite omap_shift. apply omap_none.
  - f_equal. rewrite omap_shift. apply (IH l).
Qed.

Lemma drain_pending_spec rs as_ :
  Forall (fun x => change x = Removed) rs -> Forall (fun y => change y = Added) as_ ->
  lefts (drain_pending rs as_) = rs /\ rights (drain_pending rs as_) = as_ /\ Forall pair_ok (drain_pending rs as_) /\
  Forall (fun p => is_changed p = true) (drain_pending rs as_).
Proof.
  intros Hr Ha. unfold drain_pending, lefts, rights. set (n := Nat.max _ _).
  assert (forall (X : Type) (l : list X) m, length l <= m -> omap (fun i => l !! i) (range 0 m) = l) as Hom.
  { intros X l m Hm. unfold range. by rewrite Nat.sub_0_r, omap_lookup, take_ge. }
  split_and!.
  - etransitivity; [|apply (Hom _ rs n); unfold n; lia]. clear. induction (range 0 n) as [|i l IH]; cbn; [done|]. by rewrite IH.
  - etransitivity; [|apply (Hom _ as_ n); unfold n; lia]. clear. induction (range 0 n) as [|i l IH]; cbn; [done|]. by rewrite IH.
  - apply list.Forall_forall. intros p (i & -> & Hi)%list_elem_of_fmap. apply elem_of_range in Hi. right. cbn. split_and!.
    + intros [= H1 H2]. apply lookup_ge_None_1 in H1, H2. unfold n in Hi. lia.
    + intros x Hx. by apply (Forall_lookup_1 _ _ _ _ Hr Hx).
    + intros y Hy. by apply (Forall_lookup_1 _ _ _ _ Ha Hy).
  - apply list.Forall_forall. intros p (i & -> & Hi)%list_elem_of_fmap. apply elem_of_range in Hi. cbn.
    destruct (rs !! i) as [x|] eqn:Ex.
    + pose proof (Forall_lookup_1 _ _ _ _ Hr Ex) as Hx. destruct x. cbn in *. by subst.
    + destruct (as_ !! i) as [y|] eqn:Ey; [|apply lookup_ge_None_1 in Ex, Ey; unfold n in Hi; lia].
      pose proof (Forall_lookup_1 _ _ _ _ Ha Ey) as Hy. destruct y. cbn in *. by subst.
Qed.

(** The line a step shows on a side. *)
Definition left_line (mine : list (list N)) (s : Step) : option DiffLine :=
  match s with
  | Keep i _ => unchanged i <$> mine !! i
  | Remove i => (fun t => mkDiffLine (i + 1) t Removed) <$> mine !! i
  | Add _ => None
  end.
Definition right_line (source : list (list N)) (s : Step) : option DiffLine :=
  match s with
  | Keep _ j => unchanged j <$> source !! j
  | Add j => (fun t => mkDiffLine (j + 1) t Added) <$> source !! j
  | Remove _ => None
  end.

(** The steps name lines there are, and keep equal ones. *)
Definition applies (mine source : list (list N)) (s : Step) : Prop :=
  match s with
  | Keep i j => exists x, mine !! i = Some x /\ source !! j = Some x
  | Remove i => is_Some (mine !! i)
  | Add j => is_Some (source !! j)
  end.

Definition unchanged_pairs (ps : list Pair) : nat := length (filter (fun p => is_changed p = false) ps).

Lemma unchanged_pairs_app ps qs : unchanged_pairs (ps ++ qs) = unchanged_pairs ps + unchanged_pairs qs.
Proof. unfold unchanged_pairs. induction ps as [|p ps IH]; [done|]. cbn [app]. rewrite !filter_cons. case_decide; cbn [length]; lia. Qed.

Lemma unchanged_pairs_none ps : Forall (fun p => is_changed p = true) ps -> unchanged_pairs ps = 0.
Proof.
  induction 1 as [|p ps Hp _ IH]; [done|]. unfold unchanged_pairs in *. rewrite filter_cons, decide_False; [done|]. by rewrite Hp.
Qed.

Lemma emit_spec mine source script : forall rs as_,
  Forall (applies mine source) script -> Forall (fun x => change x = Removed) rs -> Forall (fun y => change y = Added) as_ ->
  exists ps, emit mine source script rs as_ = Some ps /\ lefts ps = rs ++ omap (left_line mine) script /\
    rights ps = as_ ++ omap (right_line source) script /\ Forall pair_ok ps /\ unchanged_pairs ps = keeps script.
Proof.
  induction script as [|st script IH]; intros rs as_ Hs Hr Ha; cbn [emit].
  { destruct (drain_pending_spec rs as_ Hr Ha) as (H1 & H2 & H3 & H4). eexists. split; [done|]. cbn. rewrite !app_nil_r.
    split_and!; [done|done|done|by apply unchanged_pairs_none]. }
  apply Forall_cons_iff in Hs as [Hst Hs]. rewrite keeps_cons. destruct st as [i j|i|j]; cbn [applies is_keep] in *.
  - destruct Hst as (x & Ei & Ej). rewrite Ei, Ej. cbn [mbind option_bind].
    destruct (IH [] [] Hs) as (ps & -> & Hl & Hrr & Hok & Hu); [constructor..|]. cbn [mbind option_bind].
    destruct (drain_pending_spec rs as_ Hr Ha) as (H1 & H2 & H3 & H4). eexists. split; [done|].
    unfold lefts, rights in *. rewrite !omap_app. cbn. rewrite H1, H2, Hl, Hrr, Ei, Ej. cbn. split_and!; [done|done| |].
    + apply Forall_app. split; [done|]. constructor; [|done]. left. by eexists _, _.
    + rewrite unchanged_pairs_app, unchanged_pairs_none by done. cbn [Nat.add]. rewrite <- Hu. done.
  - destruct Hst as [t Et]. rewrite Et. cbn [mbind option_bind].
    destruct (IH (rs ++ [mkDiffLine (i + 1) t Removed]) as_ Hs) as (ps & -> & Hl & Hrr & Hok & Hu); [apply Forall_app; split; [done|by repeat constructor]|done|].
    eexists. split; [done|]. cbn. rewrite Et. cbn. rewrite Hl, <- app_assoc. done.
  - destruct Hst as [t Et]. rewrite Et. cbn [mbind option_bind].
    destruct (IH rs (as_ ++ [mkDiffLine (j + 1) t Added]) Hs) as (ps & -> & Hl & Hrr & Hok & Hu); [done|apply Forall_app; split; [done|by repeat constructor]|].
    eexists. split; [done|]. cbn. rewrite Et. cbn. rewrite Hrr, <- app_assoc. done.
Qed.

(** ** The whole alignment *)
Definition numbered (l : DiffLine) : nat * list N := (number l, line_text l).
Definition entry (ls : list (list N)) (i : nat) : option (nat * list N) := (fun t => (i + 1, t)) <$> ls !! i.

Lemma left_numbered mine source script :
  Forall (applies mine source) script ->
  map numbered (omap (left_line mine) script) = omap (entry mine) (omap mine_index script).
Proof.
  induction 1 as [|st script Hst _ IH]; [done|]. destruct st as [i j|i|j]; cbn in *.
  - destruct Hst as (x & Ei & _). rewrite Ei. cbn. rewrite IH. cbn. unfold entry at 2. by rewrite Ei.
  - destruct Hst as [t Et]. rewrite Et. cbn. rewrite IH. unfold entry at 2. by rewrite Et.
  - done.
Qed.

Lemma right_numbered mine source script :
  Forall (applies mine source) script ->
  map numbered (omap (right_line source) script) = omap (entry source) (omap source_index script).
Proof.
  induction 1 as [|st script Hst _ IH]; [done|]. destruct st as [i j|i|j]; cbn in *.
  - destruct Hst as (x & _ & Ej). rewrite Ej. cbn. rewrite IH. cbn. unfold entry at 2. by rewrite Ej.
  - done.
  - destruct Hst as [t Et]. rewrite Et. cbn. rewrite IH. unfold entry at 2. by rewrite Et.
Qed.

(** What a run of pairs shows of the two texts, and how many are unchanged. *)
Record aligned (mine source : list (list N)) (is_ js : list nat) (ps : list Pair) (n : nat) : Prop := mk_aligned {
  al_left : map numbered (lefts ps) = omap (entry mine) is_;
  al_right : map numbered (rights ps) = omap (entry source) js;
  al_ok : Forall pair_ok ps;
  al_unchanged : unchanged_pairs ps = n
}.

Lemma aligned_app mine source is1 js1 ps1 n1 is2 js2 ps2 n2 :
  aligned mine source is1 js1 ps1 n1 -> aligned mine source is2 js2 ps2 n2 ->
  aligned mine source (is1 ++ is2) (js1 ++ js2) (ps1 ++ ps2) (n1 + n2).
Proof.
  intros [H1 H2 H3 H4] [K1 K2 K3 K4]. unfold lefts, rights in *. split; unfold lefts, rights; rewrite ?omap_app, ?map_app.
  - by rewrite H1, K1.
  - by rewrite H2, K2.
  - by apply Forall_app.
  - by rewrite unchanged_pairs_app, H4, K4.
Qed.

Lemma equal_pairs_spec mine source (f h : nat -> nat) l :
  (forall i, i ∈ l -> exists x, mine !! f i = Some x /\ source !! h i = Some x) ->
  exists ps, mapM (fun i => equal_pair mine source (f i) (h i)) l = Some ps /\
    aligned mine source (map f l) (map h l) ps (length l).
Proof.
  induction l as [|i l IH]; intros H; [exists []; split; [done|by split; [| |constructor|]]|]. cbn [mapM].
  destruct (H i) as (x & Ef & Eh); [by left|]. assert (equal_pair mine source (f i) (h i) = Some (Some (unchanged (f i) x), Some (unchanged (h i) x))) as ->
    by (unfold equal_pair; by rewrite Ef, Eh).
  cbn [mbind option_bind].
  destruct IH as (ps & -> & [H1 H2 H3 H4]); [intros j Hj; apply H; by right|]. cbn. eexists. split; [done|]. split; cbn.
  - unfold entry at 1. rewrite Ef. cbn. by rewrite <- H1.
  - unfold entry at 1. rewrite Eh. cbn. by rewrite <- H2.
  - constructor; [|done]. left. by eexists _, _.
  - unfold unchanged_pairs. cbn. rewrite decide_True by done. cbn. f_equal. exact H4.
Qed.

Lemma emit_aligned mine source script is_ js :
  Forall (applies mine source) script -> omap mine_index script = is_ -> omap source_index script = js ->
  exists ps, emit mine source script [] [] = Some ps /\ aligned mine source is_ js ps (keeps script).
Proof.
  intros Hs <- <-. destruct (emit_spec mine source script [] [] Hs) as (ps & E & Hl & Hr & Hok & Hu); [constructor..|].
  exists ps. split; [done|]. split; [rewrite Hl; by apply (left_numbered mine source)|rewrite Hr; by apply (right_numbered mine source)|done|done].
Qed.

Lemma offset_indices p script :
  omap mine_index (map (offset_step p p) script) = map (Nat.add p) (omap mine_index script) /\
  omap source_index (map (offset_step p p) script) = map (Nat.add p) (omap source_index script) /\
  keeps (map (offset_step p p) script) = keeps script.
Proof.
  induction script as [|st script (IH1 & IH2 & IH3)]; [done|]. cbn [map]. rewrite !keeps_cons, IH3.
  destruct st; cbn; rewrite ?IH1, ?IH2; done.
Qed.

Lemma lookup_middle {X} (l : list X) p e i : i < e - p -> take (e - p) (drop p l) !! i = l !! (p + i).
Proof. intros. rewrite lookup_take_lt by done. by rewrite lookup_drop. Qed.

(** A script of the middles applies to the whole texts. *)
Lemma script_offset mine source p me se script :
  me <= length mine -> se <= length source ->
  script_ok (take (me - p) (drop p mine)) (take (se - p) (drop p source)) 0 0 script ->
  Forall (applies mine source) (map (offset_step p p) script) /\
  omap mine_index (map (offset_step p p) script) = seq p (me - p) /\
  omap source_index (map (offset_step p p) script) = seq p (se - p).
Proof.
  intros Hm Hs (H1 & H2 & H3). destruct (offset_indices p script) as (-> & -> & _). rewrite H1, H2, !Nat.sub_0_r.
  assert (length (take (me - p) (drop p mine)) = me - p) as Lm by (rewrite length_take, length_drop; lia).
  assert (length (take (se - p) (drop p source)) = se - p) as Ls by (rewrite length_take, length_drop; lia).
  rewrite Lm, Ls, !Nat.sub_0_r in *.
  assert (forall n, map (Nat.add p) (seq 0 n) = seq p n) as Hseq.
  { intros n. clear. revert p. induction n as [|n IH]; intros p; [done|]. rewrite !seq_S, map_app, IH. cbn. by rewrite Nat.add_0_l || done. }
  rewrite !Hseq. split_and!; [|done|done]. apply list.Forall_forall. intros st (st0 & -> & Hin)%list_elem_of_fmap.
  assert (forall i, mine_index st0 = Some i -> i < me - p) as Hi.
  { intros i Hi. assert (i ∈ omap mine_index script) as Hx by (apply list_elem_of_omap; by exists st0).
    rewrite H1 in Hx. apply elem_of_seq in Hx. lia. }
  assert (forall j, source_index st0 = Some j -> j < se - p) as Hj.
  { intros j Hj. assert (j ∈ omap source_index script) as Hx by (apply list_elem_of_omap; by exists st0).
    rewrite H2 in Hx. apply elem_of_seq in Hx. lia. }
  destruct st0 as [i j|i|j]; cbn in *.
  - destruct (H3 i j Hin) as (x & Ex & Ey). rewrite lookup_middle in Ex, Ey by auto. by exists x.
  - apply lookup_lt_is_Some_2. specialize (Hi i eq_refl). lia.
  - apply lookup_lt_is_Some_2. specialize (Hj j eq_refl). lia.
Qed.

Lemma align_spec mine source p me se :
  p <= me <= length mine -> p <= se <= length source -> length mine - me = length source - se ->
  (forall i, i < p -> mine !! i = source !! i) ->
  (forall i, i < length mine - me -> mine !! (me + i) = source !! (se + i)) ->
  exists ps large n, align mine source p me se = Some (ps, large) /\
    aligned mine source (seq 0 (length mine)) (seq 0 (length source)) ps (p + n + (length mine - me)) /\
    (large = false -> n = lcs (take (me - p) (drop p mine)) (take (se - p) (drop p source))) /\
    ((N.of_nat (length mine) <= MAX_ALIGNED_LINES)%N -> (N.of_nat (length source) <= MAX_ALIGNED_LINES)%N -> large = false).
Proof.
  intros Hm Hs Hk Hpre Hsuf. unfold align.
  destruct (equal_pairs_spec mine source id id (range 0 p)) as (ps1 & E & A1).
  { intros i Hi. apply elem_of_range in Hi. destruct (mine !! i) as [x|] eqn:E; [|apply lookup_ge_None_1 in E; lia].
    exists x. cbn. split; [done|]. by rewrite <- Hpre by lia. }
  change (mapM (fun i => equal_pair mine source i i) (range 0 p) = Some ps1) in E. rewrite E. clear E.
  cbn [mbind option_bind]. rewrite !slice_Some by lia. cbn [mbind option_bind].
  set (mm := take (me - p) (drop p mine)). set (sm := take (se - p) (drop p source)).
  match goal with |- context [if ?b then Some (map _ _ ++ map _ _) else _] => set (large := b) end.
  assert (exists script, (if large then Some (map (fun i => Remove (p + i)) (range 0 (length mm)) ++ map (fun i => Add (p + i)) (range 0 (length sm)))
      else longest_common_subsequence mm sm p p) = Some (map (offset_step p p) script) /\ script_ok mm sm 0 0 script /\
      (large = false -> keeps script = lcs mm sm)) as (script & -> & Hok & Hkeep).
  { destruct large.
    - exists (finish mm sm 0 0 []). split; [|split; [apply finish_script; lia|done]]. unfold finish. cbn [app]. by rewrite map_app, !map_map.
    - destruct (longest_ok mm sm p p) as (script & -> & H1 & H2). exists script. by split_and!. }
  cbn [mbind option_bind]. destruct (script_offset mine source p me se script ltac:(lia) ltac:(lia) Hok) as (Ha & Hi & Hj).
  destruct (emit_aligned _ _ _ _ _ Ha Hi Hj) as (ps2 & -> & A2). cbn [mbind option_bind].
  destruct (equal_pairs_spec mine source (Nat.add me) (Nat.add se) (range 0 (length mine - me))) as (ps3 & -> & A3).
  { intros i Hi3. apply elem_of_range in Hi3. destruct (mine !! (me + i)) as [x|] eqn:E; [|apply lookup_ge_None_1 in E; lia].
    exists x. split; [done|]. by rewrite <- Hsuf by lia. }
  cbn [mbind option_bind]. exists (ps1 ++ ps2 ++ ps3), large, (keeps script). split; [done|]. split.
  2: { split; [done|]. intros Hbm Hbs. unfold large, mm, sm. rewrite !length_take, !length_drop.
    apply orb_false_intro; apply N.ltb_ge; lia. }
  pose proof (aligned_app _ _ _ _ _ _ _ _ _ _ A1 (aligned_app _ _ _ _ _ _ _ _ _ _ A2 A3)) as [H1 H2 H3 H4].
  destruct (offset_indices p script) as (_ & _ & Hko).
  assert (forall a n, map (Nat.add a) (range 0 n) = seq a n) as Hseq.
  { intros a n. unfold range. rewrite Nat.sub_0_r. revert a. induction n as [|n IH]; intros a; [done|]. rewrite !seq_S, map_app, IH. done. }
  assert (forall l, map (@id nat) l = l) as Hid by (intros l; by rewrite map_id).
  rewrite !Hseq, !Hid in *. unfold range in *. rewrite !Nat.sub_0_r, ?length_seq in *.
  assert (seq 0 p ++ seq p (me - p) ++ seq me (length mine - me) = seq 0 (length mine)) as E1.
  { rewrite <- (seq_app (me - p) (length mine - me) p) || idtac. replace (length mine) with (p + ((me - p) + (length mine - me))) at 2 by lia.
    rewrite !seq_app. cbn. by replace (p + (me - p)) with me by lia. }
  assert (seq 0 p ++ seq p (se - p) ++ seq se (length mine - me) = seq 0 (length source)) as E2.
  { replace (length source) with (p + ((se - p) + (length mine - me))) by lia. rewrite !seq_app. cbn. by replace (p + (se - p)) with se by lia. }
  rewrite E1, E2 in *. split; try done. rewrite H4, Hko. lia.
Qed.

(** ** The common ends *)
Lemma common_prefix_spec l r :
  common_prefix l r <= length l /\ common_prefix l r <= length r /\ take (common_prefix l r) l = take (common_prefix l r) r.
Proof.
  revert r. induction l as [|x l IH]; intros [|y r]; cbn; try lia; [split_and!; [lia|lia|done]..|].
  unfold beq. case_bool_decide as E; [|split_and!; [lia|lia|done]]. subst y. destruct (IH r) as (H1 & H2 & H3).
  split_and!; [lia|lia|]. cbn. by rewrite H3.
Qed.

Lemma common_suffix_spec l r :
  common_suffix l r <= length l /\ common_suffix l r <= length r /\
  drop (length l - common_suffix l r) l = drop (length r - common_suffix l r) r.
Proof.
  unfold common_suffix. destruct (common_prefix_spec (reverse l) (reverse r)) as (H1 & H2 & H3). rewrite !length_reverse in *.
  split_and!; [done|done|]. rewrite !take_reverse in H3. by apply (inj reverse).
Qed.

(** A common subsequence of texts that share an end is that much longer at most. *)
Lemma common_head_bound (pre a b s : list (list N)) n :
  (forall t, sublist t a -> sublist t b -> length t <= n) ->
  sublist s (pre ++ a) -> sublist s (pre ++ b) -> length s <= length pre + n.
Proof.
  intros Hn (s1 & s2 & -> & H1 & H2)%sublist_app_r (t1 & t2 & E & K1 & K2)%sublist_app_r.
  pose proof (f_equal length E) as El. rewrite !length_app in *. pose proof (sublist_length _ _ H1). pose proof (sublist_length _ _ K1).
  destruct (decide (length t1 <= length s1)) as [Hl|Hl].
  - assert (s2 = drop (length s1 - length t1) t2) as Es.
    { rewrite <- (drop_app_length s1 s2), E, drop_app_ge by done. done. }
    assert (sublist s2 b) as Hx. { etransitivity; [|exact K2]. rewrite Es. apply sublist_drop. } specialize (Hn s2 H2 Hx). lia.
  - assert (t2 = drop (length t1 - length s1) s2) as Es.
    { rewrite <- (drop_app_length t1 t2), <- E, drop_app_ge by lia. done. }
    assert (sublist t2 a) as Hx. { etransitivity; [|exact H2]. rewrite Es. apply sublist_drop. } specialize (Hn t2 Hx K2). lia.
Qed.

Lemma common_tail_bound (suf a b s : list (list N)) n :
  (forall t, sublist t a -> sublist t b -> length t <= n) ->
  sublist s (a ++ suf) -> sublist s (b ++ suf) -> length s <= n + length suf.
Proof.
  intros Hn (s1 & s2 & -> & H1 & H2)%sublist_app_r (t1 & t2 & E & K1 & K2)%sublist_app_r.
  pose proof (f_equal length E) as El. rewrite !length_app in *. pose proof (sublist_length _ _ H2). pose proof (sublist_length _ _ K2).
  destruct (decide (length s1 <= length t1)) as [Hl|Hl].
  - assert (s1 = take (length s1) t1) as Es.
    { rewrite <- (take_app_length s1 s2) at 1. rewrite E, take_app_le by done. done. }
    assert (sublist s1 b) as Hx. { etransitivity; [|exact K1]. rewrite Es. apply sublist_take. } specialize (Hn s1 H1 Hx). lia.
  - assert (t1 = take (length t1) s1) as Es.
    { rewrite <- (take_app_length t1 t2) at 1. rewrite <- E, take_app_le by lia. done. }
    assert (sublist t1 a) as Hx. { etransitivity; [|exact H1]. rewrite Es. apply sublist_take. } specialize (Hn t1 Hx K1). lia.
Qed.

(** ** Folding *)

(** What the rows stand for: a collapsed row is a run of unchanged pairs. *)
Inductive shows : list Pair -> list LineComparisonRow -> Prop :=
  | shows_nil : shows [] []
  | shows_pair p ps rs : shows ps rs -> shows (p :: ps) (RowPair (fst p) (snd p) :: rs)
  | shows_run run ps rs :
      run <> [] -> Forall (fun p => is_changed p = false) run -> shows ps rs ->
      shows (run ++ ps) (Collapsed (length run) :: rs).

Definition row_of (p : Pair) : LineComparisonRow := RowPair (fst p) (snd p).

Lemma shows_rows run ps rs : shows ps rs -> shows (run ++ ps) (map row_of run ++ rs).
Proof. induction run as [|p run IH]; [done|]. intros H. cbn. constructor. by apply IH. Qed.

Lemma fold_shows run leading ps rs :
  Forall (fun p => is_changed p = false) run -> shows ps rs -> shows (run ++ ps) (fold (map row_of run) leading ++ rs).
Proof.
  intros Hr Hs. unfold fold. rewrite length_map. destruct (Nat.leb_spec (length run) (CONTEXT_LINES * 2 + 1)) as [|Hl]; [by apply shows_rows|].
  destruct leading; rewrite ?firstn_map, ?skipn_map, ?length_map.
  - set (n := length run - CONTEXT_LINES). rewrite <- (take_drop n run) at 1. rewrite <- app_assoc. cbn [app].
    rewrite ?length_map. constructor; [|by apply Forall_take|by apply shows_rows].
    intros E%(f_equal length). rewrite length_take in E. unfold n, CONTEXT_LINES in *. cbn in *. lia.
  - set (n := CONTEXT_LINES). rewrite <- (take_drop n run) at 1. rewrite <- !app_assoc. apply shows_rows. cbn [app].
    rewrite ?length_map. constructor; [|by apply Forall_drop|done].
    intros E%(f_equal length). rewrite length_drop in E. unfold n, CONTEXT_LINES in *. cbn in *. lia.
Qed.

Lemma fold_pairs_shows ps : forall run, Forall (fun p => is_changed p = false) run ->
  shows (run ++ ps) (fold_pairs ps (map row_of run)).
Proof.
  induction ps as [|p ps IH]; intros run Hr; cbn [fold_pairs].
  - rewrite <- (app_nil_r (fold _ _)). apply fold_shows; [done|constructor].
  - destruct (is_changed p) eqn:E.
    + apply fold_shows; [done|]. constructor. apply (IH []). constructor.
    + rewrite cons_middle, app_assoc. change [RowPair (fst p) (snd p)] with (map row_of [p]). rewrite <- map_app. apply IH.
      apply Forall_app. by split; [|constructor].
Qed.

Definition changed_pairs (ps : list Pair) : nat := length (filter (fun p => is_changed p = true) ps).

Lemma changed_pairs_cons p ps : changed_pairs (p :: ps) = (if is_changed p then 1 else 0) + changed_pairs ps.
Proof. unfold changed_pairs. rewrite filter_cons. destruct (is_changed p); [by rewrite decide_True|by rewrite decide_False]. Qed.

Lemma unchanged_pairs_cons p ps : unchanged_pairs (p :: ps) = (if is_changed p then 0 else 1) + unchanged_pairs ps.
Proof. unfold unchanged_pairs. rewrite filter_cons. destruct (is_changed p); [by rewrite decide_False|by rewrite decide_True]. Qed.

Lemma changed_pairs_run run ps : Forall (fun p => is_changed p = false) run -> changed_pairs (run ++ ps) = changed_pairs ps.
Proof. induction 1 as [|p run Hp _ IH]; [done|]. cbn [app]. by rewrite changed_pairs_cons, Hp, IH. Qed.

Lemma row_changed_pair p : row_changed (RowPair (fst p) (snd p)) = is_changed p.
Proof. destruct p as [[[? ? []]|] [[? ? []]|]]; done. Qed.

(** Every change has a row of its own. *)
Lemma change_rows_shown ps rs : shows ps rs -> forall k,
  length (omap (fun '(i, r) => if row_changed r then Some i else None) (imap (fun i r => (k + i, r)) rs)) = changed_pairs ps.
Proof.
  assert (forall (k : nat) (r : LineComparisonRow) rs, imap (fun i r => (k + i, r)) (r :: rs) = (k, r) :: imap (fun i r => (S k + i, r)) rs) as Hc.
  { intros k r rs'. cbn. rewrite Nat.add_0_r. f_equal. apply imap_ext. intros; cbn. f_equal. lia. }
  induction 1 as [|p ps rs _ IH|run ps rs _ Hr _ IH]; intros k; [done| |]; rewrite Hc.
  - rewrite changed_pairs_cons, <- (IH (S k)), <- row_changed_pair. cbn. destruct (_ || _); done.
  - rewrite changed_pairs_run, <- (IH (S k)) by done. done.
Qed.

(** ** Identity *)
Lemma pair_counts ps : Forall pair_ok ps -> 2 * unchanged_pairs ps + changed_pairs ps <= length (lefts ps) + length (rights ps).
Proof.
  induction 1 as [|p ps Hp _ IH]; [done|]. rewrite unchanged_pairs_cons, changed_pairs_cons. unfold lefts, rights in *.
  destruct (is_changed p) eqn:E.
  - destruct p as [[x|] [y|]]; cbn in *; try done; lia.
  - apply pair_ok_changed in E as (x & y & -> & _); [|done]. cbn. lia.
Qed.

Lemma unchanged_texts ps : Forall pair_ok ps -> changed_pairs ps = 0 -> map line_text (lefts ps) = map line_text (rights ps).
Proof.
  induction 1 as [|p ps Hp _ IH]; [done|]. rewrite changed_pairs_cons. destruct (is_changed p) eqn:E; [done|]. intros H.
  apply pair_ok_changed in E as (x & y & -> & _ & _ & Hxy); [|done]. cbn. rewrite Hxy. f_equal. by apply IH.
Qed.

Lemma entries_texts ls : map snd (omap (entry ls) (seq 0 (length ls))) = ls.
Proof.
  transitivity (omap (fun i => ls !! i) (seq 0 (length ls))); [|by rewrite omap_lookup, take_ge].
  induction (seq 0 (length ls)) as [|i l IH]; [done|]. cbn. unfold entry at 1. destruct (ls !! i); cbn; by rewrite IH.
Qed.

Lemma numbered_texts (ds : list DiffLine) ls : map numbered ds = omap (entry ls) (seq 0 (length ls)) -> map line_text ds = ls.
Proof. intros H. rewrite <- (entries_texts ls), <- H, map_map. done. Qed.

Lemma common_prefix_refl l : common_prefix l l = length l.
Proof. induction l as [|x l IH]; [done|]. cbn. unfold beq. by rewrite bool_decide_eq_true_2, IH. Qed.

(** Everything a comparison promises, for the properties below. *)
Lemma comparison_pairs mine source :
  let ml := str_lines mine in let sl := str_lines source in
  exists ps c n, LineComparison_new mine source = Some c /\ aligned ml sl (seq 0 (length ml)) (seq 0 (length sl)) ps n /\
    shows ps (rows c) /\ change_count c = changed_pairs ps /\
    (truncated c = false -> forall t, sublist t ml -> sublist t sl -> length t <= n) /\
    common_prefix ml sl <= n /\
    ((N.of_nat (length ml) <= MAX_ALIGNED_LINES)%N -> (N.of_nat (length sl) <= MAX_ALIGNED_LINES)%N -> truncated c = false).
Proof.
  intros ml sl. unfold LineComparison_new. change (str_lines mine) with ml. change (str_lines source) with sl. set (p := common_prefix ml sl).
  destruct (common_prefix_spec ml sl) as (P1 & P2 & P3). fold p in P1, P2, P3.
  set (k := common_suffix (drop p ml) (drop p sl)).
  destruct (common_suffix_spec (drop p ml) (drop p sl)) as (S1 & S2 & S3). fold k in S1, S2, S3. rewrite !length_drop in *.
  rewrite !drop_drop in S3. replace (p + (length ml - p - k)) with (length ml - k) in S3 by lia.
  replace (p + (length sl - p - k)) with (length sl - k) in S3 by lia.
  destruct (align_spec ml sl p (length ml - k) (length sl - k)) as (ps & large & n & -> & Hal & Hn & Hb); [lia..| | |].
  { intros i Hi. by rewrite <- (lookup_take_lt ml p), P3, lookup_take_lt. }
  { intros i Hi. by rewrite <- !lookup_drop, S3. }
  cbn [mbind option_bind]. eexists ps, _, _. split; [done|]. split; [exact Hal|]. cbn [rows change_count truncated].
  split_and!; [apply (fold_pairs_shows ps []); constructor|done| |lia|done].
  intros Hl t Ht1 Ht2. specialize (Hn Hl). subst n. replace (length ml - (length ml - k)) with k by lia.
  assert (forall l : list (list N), p <= length l -> k <= length l - p -> l = take p l ++ take (length l - k - p) (drop p l) ++ drop (length l - k) l) as Hsplit.
  { intros l H1 H2. rewrite <- (take_drop p l) at 1. f_equal. rewrite <- (take_drop (length l - k - p) (drop p l)) at 1. rewrite drop_drop. by replace (p + (length l - k - p)) with (length l - k) by lia. }
  rewrite (Hsplit ml) in Ht1 by lia. rewrite (Hsplit sl), <- P3, <- S3 in Ht2 by lia.
  assert (length (take p ml) = p) as Lp by (rewrite length_take; lia).
  assert (length (drop (length ml - k) ml) = k) as Lk by (rewrite length_drop; lia).
  rewrite <- Nat.add_assoc, <- Lp at 1. eapply common_head_bound; [|exact Ht1|exact Ht2].
  intros t' H1 H2. rewrite <- Lk at 3. eapply common_tail_bound; [|exact H1|exact H2]. intros t'' K1 K2. by apply lcs_bound.
Qed.

(** C35: a comparison never panics, and what it shows is both texts: read down
    the left its rows carry every line of mine in order, numbered from one, and
    read down the right every line of the source; a pair is two equal unchanged
    lines or a removal beside an addition; a collapsed row stands for that many
    unchanged pairs; the navigation finds as many rows as there are changes;
    and the comparison reports the texts identical exactly when their lines
    are. *)
Theorem comparison_shows_both_texts mine source :
  exists c ps, LineComparison_new mine source = Some c /\ shows ps (rows c) /\ Forall pair_ok ps /\
    map numbered (lefts ps) = omap (entry (str_lines mine)) (seq 0 (length (str_lines mine))) /\
    map numbered (rights ps) = omap (entry (str_lines source)) (seq 0 (length (str_lines source))) /\
    length (change_rows c) = change_count c /\
    (is_identical c = true <-> str_lines mine = str_lines source).
Proof.
  destruct (comparison_pairs mine source) as (ps & c & n & E & [Hl Hr Hok Hu] & Hs & Hc & _ & Hp & _).
  exists c, ps. split_and!; try done.
  - unfold change_rows. rewrite Hc. apply (change_rows_shown ps (rows c) Hs 0).
  - unfold is_identical. rewrite Nat.eqb_eq, Hc. split; intros H.
    + rewrite <- (numbered_texts _ _ Hl), <- (numbered_texts _ _ Hr). by apply unchanged_texts.
    + pose proof (pair_counts ps Hok) as Hpc. rewrite H, common_prefix_refl in Hp.
      pose proof (f_equal length (numbered_texts _ _ Hl)). pose proof (f_equal length (numbered_texts _ _ Hr)).
      rewrite !length_map in *. rewrite H in *. lia.
Qed.

(** C14: unless the comparison was cut short, it keeps as many lines as any
    common subsequence of the two texts has, so no line that could have been
    kept is shown as changed; and it is not cut short when neither text has
    more than two thousand lines. *)
Theorem comparison_is_minimal mine source c :
  LineComparison_new mine source = Some c ->
  ((N.of_nat (length (str_lines mine)) <= MAX_ALIGNED_LINES)%N ->
   (N.of_nat (length (str_lines source)) <= MAX_ALIGNED_LINES)%N -> truncated c = false) /\
  (truncated c = false -> exists ps, shows ps (rows c) /\ Forall pair_ok ps /\
     forall kept, sublist kept (str_lines mine) -> sublist kept (str_lines source) -> length kept <= unchanged_pairs ps).
Proof.
  intros E. destruct (comparison_pairs mine source) as (ps & c' & n & E' & [_ _ Hok Hu] & Hs & _ & Hn & _ & Hb).
  rewrite E in E'. injection E' as <-. split; [done|]. intros Ht. exists ps. subst n. split_and!; [done|done|by apply Hn].
Qed.

(** Mine is "a", "b", "c" and the source "b", "c", "d". *)
Lemma comparison_is_minimal_witness :
  exists c, LineComparison_new [97; 10; 98; 10; 99]%N [98; 10; 99; 10; 100]%N = Some c /\ truncated c = false /\
    exists ps, shows ps (rows c) /\ Forall pair_ok ps /\ 2 <= unchanged_pairs ps.
Proof.
  eexists. split; [vm_compute; reflexivity|]. split; [reflexivity|].
  destruct (comparison_is_minimal [97; 10; 98; 10; 99]%N [98; 10; 99; 10; 100]%N _ eq_refl) as [_ H].
  destruct (H eq_refl) as (ps & H1 & H2 & H3). exists ps. split; [exact H1|]. split; [exact H2|].
  apply (H3 [[98]; [99]]%N); vm_compute; repeat constructor.
Defined.
