(* ===== verification/AppLock.v ===== *)
(** * The app lock ([festerm-ios-lock/src])

    The pure policy ([policy.rs]), the settings file's outcome ([store.rs]) and
    the shared handle ([applock.rs]).  Every method of the handle works inside
    one or two critical sections of one mutex; each section is a function on
    [Inner] here, and what the method does outside the mutex - dropping a
    retired request, presenting a dialog, asking for a frame - is the list of
    effects it returns.  The native dialog, the clock and the file system are
    inputs of the sections that use them. *)

From Stdlib Require Import NArith Bool.
From S2P Require Import Prelude.

(** ** [policy.rs] *)
Inductive BackgroundGrace := Always | Minutes1 | Minutes5 | Minutes15 | Never.

(** Durations are nanoseconds. *)
Definition from_secs (s : N) : N := (s * 1000000000)%N.
Definition grace_duration (g : BackgroundGrace) : option N :=
  match g with
  | Always => Some 0%N
  | Minutes1 => Some (from_secs 60)
  | Minutes5 => Some (from_secs (5 * 60))
  | Minutes15 => Some (from_secs (15 * 60))
  | Never => None
  end.

Record LockSettings := mkSettings {
  enabled : bool;
  on_launch : bool;
  after_device_lock : bool;
  background_grace : BackgroundGrace;
  hide_app_switcher_preview : bool
}.
Definition settings_default : LockSettings := mkSettings false true true Minutes1 true.
Definition settings_fail_closed : LockSettings := mkSettings true true true Always true.

Inductive LockState := Locked | Unlocking | Unlocked.
#[export] Instance LockState_eq_dec : EqDecision LockState.
Proof. solve_decision. Defined.

Inductive LifecycleEvent := WillResignActive | DidBecomeActive | DidEnterBackground | DeviceLocked.

Record LockPolicy := mkPolicy {
  settings : LockSettings;
  state : LockState;
  inactive_since : option N
}.
#[export] Instance set_settings : Setter settings := fun v r => mkPolicy v (state r) (inactive_since r).
#[export] Instance set_state : Setter state := fun v r => mkPolicy (settings r) v (inactive_since r).
#[export] Instance set_inactive_since : Setter inactive_since := fun v r => mkPolicy (settings r) (state r) v.

Definition launch (s : LockSettings) : LockPolicy :=
  mkPolicy s (if enabled s && on_launch s then Locked else Unlocked) None.

Definition should_draw_content (p : LockPolicy) : bool := bool_decide (state p = Unlocked).
Definition should_hide_snapshot (p : LockPolicy) : bool :=
  enabled (settings p) && (hide_app_switcher_preview (settings p) || negb (bool_decide (state p = Unlocked))).

(** A clock that went backwards cannot prove the grace was respected. *)
Definition grace_expired (p : LockPolicy) (since now : N) : bool :=
  match grace_duration (background_grace (settings p)) with
  | None => false
  | Some grace => if (since <=? now)%N then (grace <=? now - since)%N else true
  end.

Definition handle (event : LifecycleEvent) (now : N) (p : LockPolicy) : LockPolicy :=
  if negb (enabled (settings p)) then p <| inactive_since := None |>
  else match event with
       | WillResignActive | DidEnterBackground =>
           if bool_decide (state p = Unlocked) && bool_decide (inactive_since p = None)
           then p <| inactive_since := Some now |> else p
       | DeviceLocked =>
           if after_device_lock (settings p) && negb (bool_decide (state p = Locked))
           then p <| state := Locked |> else p
       | DidBecomeActive =>
           match inactive_since p with
           | None => p
           | Some since =>
               let p' := p <| inactive_since := None |> in
               if bool_decide (state p' = Unlocked) && grace_expired p' since now
               then p' <| state := Locked |> else p'
           end
       end.

Definition policy_begin_unlock (p : LockPolicy) : LockPolicy * bool :=
  if decide (state p = Locked) then (p <| state := Unlocking |>, true) else (p, false).

Definition authentication_succeeded (p : LockPolicy) : LockPolicy * bool :=
  if decide (state p = Unlocking) then (p <| state := Unlocked |> <| inactive_since := None |>, true) else (p, false).

Definition authentication_ended_without_success (p : LockPolicy) : LockPolicy :=
  if decide (state p = Unlocking) then p <| state := Locked |> else p.

Definition policy_lock_now (p : LockPolicy) : LockPolicy :=
  if enabled (settings p) then p <| state := Locked |> else p.

Definition set_settings_to (next : LockSettings) (p : LockPolicy) : LockPolicy :=
  let p' := p <| settings := next |> in
  if negb (enabled next) then p' <| state := Unlocked |> <| inactive_since := None |> else p'.

(** ** [store.rs]: what reading the settings file came to *)
Inductive LoadStatus := Missing | Loaded | Untrusted.
Inductive ReadOutcome := NotFound | ReadSettings (s : LockSettings) | ReadFailed.

Definition load (r : ReadOutcome) : LockSettings * LoadStatus :=
  match r with
  | NotFound => (settings_default, Missing)
  | ReadSettings s => (s, Loaded)
  | ReadFailed => (settings_fail_closed, Untrusted)
  end.

(** ** [locker.rs] *)
Inductive BiometryKind := NoBiometry | FaceId | TouchId | OpticId.
Inductive Availability := Available (kind : BiometryKind) | PasscodeNotSet | AvailabilityUnavailable.
#[export] Instance BiometryKind_eq_dec : EqDecision BiometryKind.
Proof. solve_decision. Defined.
#[export] Instance Availability_eq_dec : EqDecision Availability.
Proof. solve_decision. Defined.
Inductive AuthFailure := Cancelled | NotRecognized | BiometryLockedOut | FailurePasscodeNotSet | FailureUnavailable.
Inductive AuthMethod := OwnerAuthentication | DevicePasscode.
Definition AuthOutcome : Type := AuthFailure + unit.

(** A platform request, by the number the platform gave it. *)
Definition Authentication : Type := nat.

(** ** [applock.rs] *)
Definition SHIELD_FRAMES_AFTER_RESUME : nat := 2.

Inductive SettingsError :=
  | CannotAuthenticate (a : Availability)
  | AuthenticationStarted
  | Persist (message : list N).

Inductive Pending := Unlock | Disable (next : LockSettings).

Record Request := mkRequest {
  id : N;
  purpose : Pending;
  authentication : option Authentication
}.
#[export] Instance set_id : Setter id := fun v r => mkRequest v (purpose r) (authentication r).
#[export] Instance set_purpose : Setter purpose := fun v r => mkRequest (id r) v (authentication r).
#[export] Instance set_authentication : Setter authentication := fun v r => mkRequest (id r) (purpose r) v.

Record Inner := mkInner {
  policy : LockPolicy;
  store : bool;
  load_status : LoadStatus;
  active : bool;
  shield_frames : nat;
  pending : option Request;
  next_request : N;
  automatic_unlock : bool;
  dialog_inactive : bool;
  backgrounded : bool;
  last_failure : option AuthFailure;
  settings_error : option (list N)
}.
#[export] Instance set_policy : Setter policy := fun v r => mkInner v (store r) (load_status r) (active r) (shield_frames r) (pending r) (next_request r) (automatic_unlock r) (dialog_inactive r) (backgrounded r) (last_failure r) (settings_error r).
#[export] Instance set_store : Setter store := fun v r => mkInner (policy r) v (load_status r) (active r) (shield_frames r) (pending r) (next_request r) (automatic_unlock r) (dialog_inactive r) (backgrounded r) (last_failure r) (settings_error r).
#[export] Instance set_load_status : Setter load_status := fun v r => mkInner (policy r) (store r) v (active r) (shield_frames r) (pending r) (next_request r) (automatic_unlock r) (dialog_inactive r) (backgrounded r) (last_failure r) (settings_error r).
#[export] Instance set_active : Setter active := fun v r => mkInner (policy r) (store r) (load_status r) v (shield_frames r) (pending r) (next_request r) (automatic_unlock r) (dialog_inactive r) (backgrounded r) (last_failure r) (settings_error r).
#[export] Instance set_shield_frames : Setter shield_frames := fun v r => mkInner (policy r) (store r) (load_status r) (active r) v (pending r) (next_request r) (automatic_unlock r) (dialog_inactive r) (backgrounded r) (last_failure r) (settings_error r).
#[export] Instance set_pending : Setter pending := fun v r => mkInner (policy r) (store r) (load_status r) (active r) (shield_frames r) v (next_request r) (automatic_unlock r) (dialog_inactive r) (backgrounded r) (last_failure r) (settings_error r).
#[export] Instance set_next_request : Setter next_request := fun v r => mkInner (policy r) (store r) (load_status r) (active r) (shield_frames r) (pending r) v (automatic_unlock r) (dialog_inactive r) (backgrounded r) (last_failure r) (settings_error r).
#[export] Instance set_automatic_unlock : Setter automatic_unlock := fun v r => mkInner (policy r) (store r) (load_status r) (active r) (shield_frames r) (pending r) (next_request r) v (dialog_inactive r) (backgrounded r) (last_failure r) (settings_error r).
#[export] Instance set_dialog_inactive : Setter dialog_inactive := fun v r => mkInner (policy r) (store r) (load_status r) (active r) (shield_frames r) (pending r) (next_request r) (automatic_unlock r) v (backgrounded r) (last_failure r) (settings_error r).
#[export] Instance set_backgrounded : Setter backgrounded := fun v r => mkInner (policy r) (store r) (load_status r) (active r) (shield_frames r) (pending r) (next_request r) (automatic_unlock r) (dialog_inactive r) v (last_failure r) (settings_error r).
#[export] Instance set_last_failure : Setter last_failure := fun v r => mkInner (policy r) (store r) (load_status r) (active r) (shield_frames r) (pending r) (next_request r) (automatic_unlock r) (dialog_inactive r) (backgrounded r) v (settings_error r).
#[export] Instance set_settings_error : Setter settings_error := fun v r => mkInner (policy r) (store r) (load_status r) (active r) (shield_frames r) (pending r) (next_request r) (automatic_unlock r) (dialog_inactive r) (backgrounded r) (last_failure r) v.

(** What a method does with the mutex released. *)
Inductive Effect :=
  | Cancel (a : option Authentication)
  | Present (id : N) (method : AuthMethod)
  | Repaint.

(** [AppLock::new]; [None] is no store. *)
Definition AppLock_new (file : option ReadOutcome) : Inner :=
  let '(s, status) := match file with None => (settings_default, Missing) | Some r => load r end in
  let p := launch s in
  mkInner p (match file with None => false | Some _ => true end) status true
    (if enabled s then SHIELD_FRAMES_AFTER_RESUME else 0) None 0 (bool_decide (state p = Locked)) false false None None.

Definition draws (i : Inner) : bool := should_draw_content (policy i).
Definition authentication_prompt_in_flight (i : Inner) : bool :=
  match pending i with Some _ => true | None => dialog_inactive i end.

Definition shield_should_cover (i : Inner) : bool :=
  if negb (enabled (settings (policy i))) then false
  else if negb (active i) then should_hide_snapshot (policy i)
  else 0 <? shield_frames i.

Definition note_frame_presented (i : Inner) : Inner * list Effect :=
  let i' := i <| shield_frames := shield_frames i - 1 |> in
  (i', if 0 <? shield_frames i' then [Repaint] else []).

(** [Inner::retire]: the request is taken, and its platform handle returned. *)
Definition retire (i : Inner) : Inner * option Authentication :=
  match pending i with
  | None => (i, None)
  | Some r =>
      (i <| pending := None |> <| policy := authentication_ended_without_success (policy i) |>, authentication r)
  end.

(** [Inner::persist]; [saved] is how a save goes. *)
Definition persist (i : Inner) (saved : list N + unit) : list N + unit :=
  if store i then saved else inr tt.

Definition handle_lifecycle (event : LifecycleEvent) (now : N) (i : Inner) : Inner * list Effect :=
  let '(i', retired) :=
    match event with
    | WillResignActive =>
        let i1 := i <| active := false |>
                    <| dialog_inactive := dialog_inactive i || match pending i with Some _ => true | None => false end |> in
        (if dialog_inactive i1 then i1 else i1 <| policy := handle event now (policy i1) |>, None)
    | DidEnterBackground | DeviceLocked =>
        let i1 := i <| active := false |> <| backgrounded := true |> <| dialog_inactive := false |> <| automatic_unlock := false |> in
        let '(i2, retired) := retire i1 in
        (i2 <| policy := handle event now (policy i2) |>, retired)
    | DidBecomeActive =>
        let resumed := negb (active i) || backgrounded i in
        let from_dialog := dialog_inactive i && negb (backgrounded i) in
        let i1 := i <| active := true |> <| dialog_inactive := false |> <| backgrounded := false |> in
        let i2 := if enabled (settings (policy i1)) then i1 <| shield_frames := SHIELD_FRAMES_AFTER_RESUME |> else i1 in
        (if from_dialog then i2
         else let i3 := i2 <| policy := handle event now (policy i2) |> in
              if resumed && bool_decide (state (policy i3) = Locked)
              then i3 <| automatic_unlock := true |> <| last_failure := None |> else i3, None)
    end in
  (i', [Cancel retired; Repaint]).

Definition lock_now (i : Inner) : Inner * list Effect :=
  let '(i1, retired) := retire i in
  let i2 := i1 <| policy := policy_lock_now (policy i1) |> in
  (i2 <| automatic_unlock := bool_decide (state (policy i2) = Locked) |>, [Cancel retired; Repaint]).

(** [start_unlock] up to the dialog; [begin_automatic_unlock], [begin_unlock],
    [retry_unlock] and [begin_passcode_unlock] are its four uses. *)
Definition start_unlock (method : AuthMethod) (replace automatic : bool) (i : Inner) : Inner * list Effect :=
  if negb (active i) || bool_decide (state (policy i) = Unlocked) || (automatic && negb (automatic_unlock i))
     || (negb replace && match pending i with Some _ => true | None => false end)
  then (i, [])
  else match checked_add u64_max (next_request i) 1 with
       | None => (i <| last_failure := Some FailureUnavailable |> <| automatic_unlock := false |>, [])
       | Some n =>
           let '(i1, retired) := retire i in
           (i1 <| policy := fst (policy_begin_unlock (policy i1)) |> <| next_request := n |>
               <| pending := Some (mkRequest n Unlock None) |> <| automatic_unlock := false |> <| last_failure := None |>,
            [Cancel retired; Present n method])
       end.
Definition begin_automatic_unlock : Inner -> Inner * list Effect := start_unlock OwnerAuthentication false true.
Definition begin_unlock : Inner -> Inner * list Effect := start_unlock OwnerAuthentication false false.
Definition retry_unlock : Inner -> Inner * list Effect := start_unlock OwnerAuthentication true false.
Definition begin_passcode_unlock : Inner -> Inner * list Effect := start_unlock DevicePasscode true false.

(** The second half of [authenticate]: the platform's handle is kept when the
    request still waits, and dropped otherwise. *)
Definition attach (n : N) (a : Authentication) (i : Inner) : Inner * list Effect :=
  match pending i with
  | Some r => if (id r =? n)%N then (i <| pending := Some (r <| authentication := Some a |>) |>, [Cancel None; Repaint])
              else (i, [Cancel (Some a); Repaint])
  | None => (i, [Cancel (Some a); Repaint])
  end.

(** The platform's reply to request [n]. *)
Definition finish (n : N) (outcome : AuthOutcome) (saved : list N + unit) (i : Inner) : Inner * list Effect :=
  match pending i with
  | None => (i, [])
  | Some r =>
      if negb (id r =? n)%N then (i, [])
      else
        let i1 := i <| pending := None |> in
        let i2 :=
          match outcome, purpose r with
          | inr _, Unlock => i1 <| policy := fst (authentication_succeeded (policy i1)) |>
          | inr _, Disable next =>
              match persist i1 saved with
              | inr _ => i1 <| policy := set_settings_to next (policy i1) |>
              | inl _ => i1 <| settings_error := Some (bytes "Could not save the lock settings.") |>
              end
          | inl failure, _ =>
              i1 <| policy := authentication_ended_without_success (policy i1) |> <| last_failure := Some failure |>
          end in
        (i2, [Cancel (authentication r); Repaint])
  end.

(** The end of [apply_settings]. *)
Definition apply_at_once (next : LockSettings) (saved : list N + unit) (i : Inner)
    : Inner * list Effect * (SettingsError + unit) :=
  match persist i saved with
  | inl message => (i, [], inl (Persist message))
  | inr _ =>
      let '(i1, retired) := retire (i <| policy := set_settings_to next (policy i) |>) in
      (if negb (enabled next) then i1 <| automatic_unlock := false |> else i1, [Cancel retired; Repaint], inr tt)
  end.

Definition apply_settings (availability : Availability) (next : LockSettings) (saved : list N + unit) (i : Inner)
    : Inner * list Effect * (SettingsError + unit) :=
  let current := settings (policy i) in
  if enabled next && negb (enabled current) && match availability with Available _ => false | _ => true end
  then (i, [], inl (CannotAuthenticate availability))
  else
    let i1 := i <| settings_error := None |> in
    if negb (enabled next) && enabled current then
      if bool_decide (availability = PasscodeNotSet) then apply_at_once next saved i1
      else match pending i1 with
           | Some _ => (i1, [], inl AuthenticationStarted)
           | None =>
               match checked_add u64_max (next_request i1) 1 with
               | None => (i1, [], inl (CannotAuthenticate AvailabilityUnavailable))
               | Some n =>
                   (i1 <| next_request := n |> <| pending := Some (mkRequest n (Disable next) None) |> <| last_failure := None |>,
                    [Present n OwnerAuthentication], inl AuthenticationStarted)
               end
           end
    else apply_at_once next saved i1.
