(* ===== verification/AppLockSpec.v ===== *)
(** * What the app lock promises

    Every schedule of the handle's critical sections is a list of actions, so a
    statement about all lists holds whatever the platform, the window host and
    the user interleave. *)

From Stdlib Require Import NArith Bool.
From S2P Require Import Prelude AppLock.

Inductive Action :=
  | ALifecycle (event : LifecycleEvent) (now : N)
  | ALockNow
  | AStartUnlock (method : AuthMethod) (replace automatic : bool)
  | AAttach (n : N) (a : Authentication)
  | AFinish (n : N) (outcome : AuthOutcome) (saved : list N + unit)
  | AApply (availability : Availability) (next : LockSettings) (saved : list N + unit)
  | AFrame.

Definition act (a : Action) (i : Inner) : Inner :=
  match a with
  | ALifecycle event now => fst (handle_lifecycle event now i)
  | ALockNow => fst (lock_now i)
  | AStartUnlock method replace automatic => fst (start_unlock method replace automatic i)
  | AAttach n a => fst (attach n a i)
  | AFinish n outcome saved => fst (finish n outcome saved i)
  | AApply availability next saved => fst (fst (apply_settings availability next saved i))
  | AFrame => fst (note_frame_presented i)
  end.

Definition run (acts : list Action) (i : Inner) : Inner := foldl (flip act) i acts.

Lemma run_snoc acts a i : run (acts ++ [a]) i = act a (run acts i).
Proof. unfold run. by rewrite foldl_snoc. Qed.

(** The invariant: the policy is unlocking exactly while an unlock request
    waits, the request that waits is the last one begun, and a lock that is
    off does not lock. *)
Record lock_ok (i : Inner) : Prop := mk_lock_ok {
  ok_unlocking : state (policy i) = Unlocking <-> exists r, pending i = Some r /\ purpose r = Unlock;
  ok_newest : forall r, pending i = Some r -> id r = next_request i;
  ok_off : enabled (settings (policy i)) = false -> state (policy i) = Unlocked;
  ok_disable : forall r next, pending i = Some r -> purpose r = Disable next ->
    enabled next = false /\ enabled (settings (policy i)) = true;
  ok_width : (next_request i <= u64_max)%N
}.

Lemma new_ok file : lock_ok (AppLock_new file).
Proof. destruct file as [[|[[] [] ad bg hp]|]|]; split; cbn; (done || naive_solver). Qed.

(** Only the policy, the request and the counter matter to it. *)
Lemma ok_frame i j :
  lock_ok i -> policy j = policy i -> pending j = pending i -> next_request j = next_request i -> lock_ok j.
Proof. intros [] Hp Hq Hn. split; rewrite ?Hp, ?Hq, ?Hn; done. Qed.

Lemma ok_policy i j :
  lock_ok i -> pending j = pending i -> next_request j = next_request i -> settings (policy j) = settings (policy i) ->
  (state (policy j) = Unlocking <-> state (policy i) = Unlocking) ->
  (state (policy j) = state (policy i) \/ enabled (settings (policy i)) = true) -> lock_ok j.
Proof.
  intros [] Hq Hn Hs Hu Hst. split; rewrite ?Hq, ?Hn, ?Hs; try done; [by rewrite Hu|].
  intros Hoff. destruct Hst as [->|?]; [auto|congruence].
Qed.

Lemma ok_quiet i :
  pending i = None -> state (policy i) <> Unlocking -> (enabled (settings (policy i)) = false -> state (policy i) = Unlocked) ->
  (next_request i <= u64_max)%N -> lock_ok i.
Proof. intros Hp Hu Ho Hw. split; rewrite ?Hp; try done. split; [done|naive_solver]. Qed.

Lemma handle_settings e now p : settings (handle e now p) = settings p.
Proof. unfold handle. destruct (enabled (settings p)); [|done]. cbn. destruct e; cbn; repeat case_match; done. Qed.

(** The policy leaves [Unlocking] only when the device locks. *)
Lemma handle_state e now p :
  state (handle e now p) = state p \/
  (enabled (settings p) = true /\ state (handle e now p) = Locked /\ (state p = Unlocked \/ e = DeviceLocked)).
Proof.
  unfold handle. destruct (enabled (settings p)) eqn:En; [|by left]. cbn.
  destruct e; cbn; repeat case_match; try (by left); right; split_and!; try done; [|by right].
  left. by apply andb_prop in H0 as [?%bool_decide_eq_true_1 _].
Qed.

Lemma ended_settings p : settings (authentication_ended_without_success p) = settings p.
Proof. unfold authentication_ended_without_success. by case_decide. Qed.
Lemma ended_state p :
  state (authentication_ended_without_success p) = match state p with Unlocking => Locked | s => s end.
Proof. unfold authentication_ended_without_success. case_decide as E; [by rewrite E|by destruct (state p)]. Qed.

Lemma retire_spec i : lock_ok i ->
  let j := fst (retire i) in
  pending j = None /\ next_request j = next_request i /\ settings (policy j) = settings (policy i) /\
  state (policy j) = match state (policy i) with Unlocking => Locked | s => s end /\
  inactive_since (policy j) = inactive_since (policy i).
Proof.
  intros Hok. unfold retire. destruct (pending i) as [r|] eqn:Ep; cbn.
  - rewrite ended_settings, ended_state. split_and!; try done. unfold authentication_ended_without_success. by case_decide.
  - split_and!; try done. destruct (state (policy i)) eqn:E; try done.
    apply (ok_unlocking i Hok) in E as (r & Hr & _). congruence.
Qed.

(** ** The critical sections, one by one *)

(** Retiring, then a policy that keeps its settings and is not unlocking. *)
Lemma ok_retired i j : lock_ok i -> pending j = None -> next_request j = next_request i ->
  settings (policy j) = settings (policy i) -> state (policy j) <> Unlocking ->
  (enabled (settings (policy i)) = false -> state (policy j) = Unlocked) -> lock_ok j.
Proof. intros Hok Hp Hn Hs Hu Ho. apply ok_quiet; [done|done|by rewrite Hs|rewrite Hn; apply Hok]. Qed.

Lemma resign_ok now i : lock_ok i -> lock_ok (fst (handle_lifecycle WillResignActive now i)).
Proof.
  intros Hok. cbn. match goal with |- context [if ?b then _ else _] => destruct b eqn:E end; [by apply (ok_frame i)|].
  apply (ok_policy i); [done..|by apply handle_settings| |]; cbn;
    destruct (handle_state WillResignActive now (policy i)) as [->|(Hen & Hl & [Hu|?])]; try done; [by rewrite Hl, Hu|by left|by right].
Qed.

Lemma leave_spec e now i : lock_ok i -> e = DidEnterBackground \/ e = DeviceLocked ->
  let j := fst (handle_lifecycle e now i) in
  pending j = None /\ next_request j = next_request i /\ settings (policy j) = settings (policy i) /\
  state (policy j) <> Unlocking /\ (draws j = true -> draws i = true) /\
  (enabled (settings (policy i)) = false -> state (policy j) = Unlocked).
Proof.
  intros Hok He. set (k := i <| active := false |> <| backgrounded := true |> <| dialog_inactive := false |> <| automatic_unlock := false |>).
  assert (fst (handle_lifecycle e now i) = (fst (retire k)) <| policy := handle e now (policy (fst (retire k))) |>) as ->.
  { unfold handle_lifecycle. destruct He as [-> | ->]; fold k; by destruct (retire k). }
  assert (lock_ok k) as Hk by by apply (ok_frame i).
  destruct (retire_spec k Hk) as (H1 & H2 & H3 & H4 & _). cbn. rewrite handle_settings. unfold draws, should_draw_content.
  assert (state (policy (fst (retire k))) <> Unlocking) as Hnu by (rewrite H4; by destruct (state (policy k))).
  split_and!; [done|done|done| | |].
  - destruct (handle_state e now (policy (fst (retire k)))) as [->|(_ & -> & _)]; done.
  - cbn. rewrite !bool_decide_eq_true. destruct (handle_state e now (policy (fst (retire k)))) as [->|(_ & -> & _)]; [|done].
    rewrite H4. change (state (policy k)) with (state (policy i)). by destruct (state (policy i)).
  - intros Hoff. destruct (handle_state e now (policy (fst (retire k)))) as [->|(Hen & _)].
    + rewrite H4. change (state (policy k)) with (state (policy i)). by rewrite (ok_off i Hok Hoff).
    + rewrite H3 in Hen. change (settings (policy k)) with (settings (policy i)) in Hen. congruence.
Qed.

Lemma become_active_spec now i :
  let j := fst (handle_lifecycle DidBecomeActive now i) in
  pending j = pending i /\ next_request j = next_request i /\
  (policy j = policy i \/ policy j = handle DidBecomeActive now (policy i)).
Proof.
  unfold handle_lifecycle. cbn [fst]. set (i1 := i <| active := true |> <| dialog_inactive := false |> <| backgrounded := false |>).
  set (i2 := if enabled _ then _ else _). assert (policy i2 = policy i /\ pending i2 = pending i /\ next_request i2 = next_request i) as (Hp & Hq & Hn)
    by (unfold i2; by destruct (enabled _)).
  destruct (dialog_inactive i && negb (backgrounded i)); cbn [fst]; [rewrite Hp, Hq, Hn; auto|].
  destruct (_ && bool_decide _); cbn; rewrite Hp, Hq, Hn; auto.
Qed.

Lemma become_active_ok now i : lock_ok i -> lock_ok (fst (handle_lifecycle DidBecomeActive now i)).
Proof.
  intros Hok. destruct (become_active_spec now i) as (H1 & H2 & [H3|H3]); [by apply (ok_frame i)|].
  apply (ok_policy i); [done|done|done|rewrite H3; apply handle_settings| |]; rewrite H3;
    destruct (handle_state DidBecomeActive now (policy i)) as [->|(Hen & Hl & [Hu|?])]; try done; [by rewrite Hl, Hu|by left|by right].
Qed.

Lemma lock_now_spec i : lock_ok i ->
  let j := fst (lock_now i) in
  pending j = None /\ next_request j = next_request i /\ settings (policy j) = settings (policy i) /\
  state (policy j) = if enabled (settings (policy i)) then Locked else Unlocked.
Proof.
  intros Hok. destruct (retire_spec i Hok) as (H1 & H2 & H3 & H4 & _). unfold lock_now. destruct (retire i) as [k a]. cbn in *.
  unfold policy_lock_now. rewrite H3. destruct (enabled _) eqn:E; cbn; split_and!; try done.
  by rewrite H4, (ok_off i Hok E).
Qed.

Lemma start_unlock_spec m r a i : lock_ok i ->
  let j := fst (start_unlock m r a i) in
  (policy j = policy i /\ pending j = pending i /\ next_request j = next_request i) \/
  (pending j = Some (mkRequest (next_request i + 1) Unlock None) /\ (next_request j = next_request i + 1)%N /\
   (next_request j <= u64_max)%N /\ settings (policy j) = settings (policy i) /\ state (policy j) = Unlocking /\
   enabled (settings (policy i)) = true /\ active i = true /\ draws i = false).
Proof.
  intros Hok. unfold start_unlock. destruct (_ || _ || _ || _) eqn:G; [by left|].
  apply orb_false_elim in G as [[[G1 G2]%orb_false_elim G3]%orb_false_elim G4]. apply negb_false_iff in G1. apply bool_decide_eq_false_1 in G2.
  unfold checked_add. destruct (N.leb_spec (next_request i + 1) u64_max) as [Hw|]; [|by left]. right.
  destruct (retire_spec i Hok) as (H1 & H2 & H3 & H4 & _). destruct (retire i) as [k b]. cbn in *.
  assert (state (policy k) = Locked) as Hl by (rewrite H4; by destruct (state (policy i))).
  unfold policy_begin_unlock. rewrite decide_True by done. cbn. split_and!; try done.
  - destruct (enabled (settings (policy i))) eqn:E; [done|]. by rewrite (ok_off i Hok E) in G2.
  - unfold draws, should_draw_content. by apply bool_decide_eq_false_2.
Qed.

Lemma attach_spec n a i :
  let j := fst (attach n a i) in
  policy j = policy i /\ next_request j = next_request i /\
  match pending i with
  | None => pending j = None
  | Some r => exists r', pending j = Some r' /\ id r' = id r /\ purpose r' = purpose r
  end.
Proof. unfold attach. destruct (pending i) as [r|] eqn:E; [|by split_and!]. destruct (id r =? n)%N; cbn; rewrite ?E; eauto 8. Qed.

Lemma finish_spec n o saved i : lock_ok i ->
  let j := fst (finish n o saved i) in
  (finish n o saved i = (i, []) /\ forall r, pending i = Some r -> id r <> n) \/
  (exists r, pending i = Some r /\ id r = n /\ pending j = None /\ next_request j = next_request i /\
    match o, purpose r with
    | inr _, Unlock => settings (policy j) = settings (policy i) /\ state (policy j) = Unlocked
    | inr _, Disable next =>
        policy j = policy i \/ (settings (policy j) = next /\ state (policy j) = Unlocked)
    | inl _, _ => policy j = authentication_ended_without_success (policy i)
    end).
Proof.
  intros Hok. unfold finish. destruct (pending i) as [r|] eqn:E; [|left; naive_solver].
  destruct (N.eqb_spec (id r) n) as [<-|]; [|left; naive_solver]. right. exists r. cbn. split_and!; try done.
  - by destruct o as [f|[]], (purpose r) eqn:Er; cbn; try case_match.
  - by destruct o as [f|[]], (purpose r) eqn:Er; cbn; try case_match.
  - destruct o as [f|[]], (purpose r) as [|next] eqn:Er; cbn; [done|done| |].
    + unfold authentication_succeeded. rewrite decide_True; [done|]. apply Hok. eauto.
    + destruct (ok_disable i Hok r next E Er) as [Hoff _]. case_match; cbn; [by left|]. right. unfold set_settings_to. by rewrite Hoff.
Qed.

Lemma at_once_spec next saved i : lock_ok i ->
  let j := fst (fst (apply_at_once next saved i)) in
  j = i \/
  (pending j = None /\ next_request j = next_request i /\ settings (policy j) = next /\
   state (policy j) = if enabled next then match state (policy i) with Unlocking => Locked | s => s end else Unlocked).
Proof.
  intros Hok. unfold apply_at_once. destruct (persist i saved); [by left|]. right. unfold retire, set_settings_to. cbn.
  destruct (pending i) as [r|] eqn:E, (enabled next) eqn:En; cbn; rewrite ?ended_settings, ?ended_state; split_and!; try done.
  destruct (state (policy i)) eqn:Es; try done. apply (ok_unlocking i Hok) in Es as (r & Hr & _). congruence.
Qed.

Lemma apply_spec av next saved i : lock_ok i ->
  let j := fst (fst (apply_settings av next saved i)) in
  (policy j = policy i /\ pending j = pending i /\ next_request j = next_request i) \/
  (policy j = policy i /\ pending i = None /\ pending j = Some (mkRequest (next_request i + 1) (Disable next) None) /\
   (next_request j = next_request i + 1)%N /\ (next_request j <= u64_max)%N /\
   enabled next = false /\ enabled (settings (policy i)) = true /\ av <> PasscodeNotSet) \/
  (pending j = None /\ next_request j = next_request i /\ settings (policy j) = next /\
   state (policy j) = (if enabled next then match state (policy i) with Unlocking => Locked | s => s end else Unlocked) /\
   (enabled next = false -> enabled (settings (policy i)) = true -> av = PasscodeNotSet)).
Proof.
  intros Hok. unfold apply_settings. destruct (_ && _ && _); [by left|]. cbn zeta.
  set (i1 := i <| settings_error := None |>). assert (lock_ok i1) as Hok1 by by apply (ok_frame i).
  pose proof (at_once_spec next saved i1 Hok1) as Hnow. cbn zeta in Hnow.
  destruct (enabled next) eqn:En, (enabled (settings (policy i))) eqn:Ec; cbn [negb andb];
    try (destruct Hnow as [->|(H1 & H2 & H3 & H4)]; [by left|right; right; by split_and!]).
  case_bool_decide as Ha; [destruct Hnow as [->|(H1 & H2 & H3 & H4)]; [by left|right; right; by split_and!]|].
  change (pending i1) with (pending i). destruct (pending i) as [r|] eqn:Ep; [by left|].
  unfold checked_add. change (next_request i1) with (next_request i).
  destruct (N.leb_spec (next_request i + 1) u64_max); [|by left]. right. left. by split_and!.
Qed.

Lemma act_ok a i : lock_ok i -> lock_ok (act a i).
Proof.
  intros Hok. destruct a as [[] now| |m r au|n h|n o sv|av next sv|]; cbn [act].
  - by apply resign_ok.
  - by apply become_active_ok.
  - destruct (leave_spec DidEnterBackground now i Hok) as (H1 & H2 & H3 & H4 & _ & H6); [auto|]. by apply (ok_retired i).
  - destruct (leave_spec DeviceLocked now i Hok) as (H1 & H2 & H3 & H4 & _ & H6); [auto|]. by apply (ok_retired i).
  - destruct (lock_now_spec i Hok) as (H1 & H2 & H3 & H4).
    apply (ok_retired i); [done..| |]; rewrite H4; destruct (enabled _); done.
  - destruct (start_unlock_spec m r au i Hok) as [(H1 & H2 & H3)|(H1 & H2 & H3 & H4 & H5 & H6 & _)]; [by apply (ok_frame i)|].
    split; rewrite ?H1, ?H2, ?H4, ?H5; [naive_solver|naive_solver|congruence|naive_solver|lia].
  - destruct (attach_spec n h i) as (H1 & H2 & H3). destruct (pending i) as [r|] eqn:E; [|by apply (ok_frame i); rewrite ?E].
    destruct H3 as (r' & H3 & H4 & H5). destruct Hok as [K1 K2 K3 K4 K5]. split; rewrite ?H1, ?H2, ?H3; try done.
    + rewrite K1, E. split; intros (x & [= <-] & Hx); [exists r'|exists r]; split; congruence.
    + intros x [= <-]. rewrite H4. auto.
    + intros x next [= <-]. rewrite H5. eauto.
  - destruct (finish_spec n o sv i Hok) as [[-> _]|(r & E & Hid & H1 & H2 & H3)]; [done|].
    destruct o as [f|u], (purpose r) as [|next] eqn:Er.
    1,2: apply (ok_retired i); rewrite ?H3, ?ended_settings, ?ended_state; try done; [by destruct (state _)|intros Ho; by rewrite (ok_off i Hok Ho)].
    + destruct H3 as [H3 H4]. apply (ok_retired i); rewrite ?H4; done.
    + destruct H3 as [H3|[H3 H4]]; [|apply ok_quiet; rewrite ?H4, ?H2; try done; apply Hok].
      apply (ok_retired i); rewrite ?H3; try done; [|apply Hok]. intros Hu. apply (ok_unlocking i Hok) in Hu as (r' & Hr' & Hp'). congruence.
  - destruct (apply_spec av next sv i Hok) as [(H1 & H2 & H3)|[(H1 & H2 & H3 & H4 & H5 & H6 & H7 & _)|(H1 & H2 & H3 & H4 & _)]].
    + by apply (ok_frame i).
    + split; rewrite ?H1, ?H3, ?H4; [|naive_solver|congruence|naive_solver|lia].
      split; [|intros (x & [= <-] & ?); done]. intros Hu. apply (ok_unlocking i Hok) in Hu as (r' & Hr' & _). congruence.
    + apply ok_quiet; [done| | |rewrite H2; apply Hok]; rewrite H4, ?H3; [by destruct (enabled next), (state (policy i))|by intros ->].
  - by apply (ok_frame i).
Qed.

Lemma run_ok acts file : lock_ok (run acts (AppLock_new file)).
Proof. induction acts as [|a acts IH] using rev_ind; [apply new_ok|]. rewrite run_snoc. by apply act_ok. Qed.

(** ** Where a waiting request comes from *)

(** What takes the owner away from a dialog for good. *)
Definition interrupts (a : Action) : bool :=
  match a with
  | ALifecycle DidEnterBackground _ | ALifecycle DeviceLocked _ | ALockNow => true
  | _ => false
  end.

(** The actions that ask the owner. *)
Definition asks (a : Action) (q : Pending) : Prop :=
  match q with
  | Unlock => exists method replace automatic, a = AStartUnlock method replace automatic
  | Disable next => exists av saved, a = AApply av next saved /\ av <> PasscodeNotSet
  end.

Lemma act_pending a i r' : lock_ok i -> pending (act a i) = Some r' ->
  (asks a (purpose r') /\ (id r' = next_request i + 1)%N /\ (purpose r' = Unlock -> active i = true)) \/
  (interrupts a = false /\ exists r, pending i = Some r /\ id r = id r' /\ purpose r = purpose r').
Proof.
  intros Hok E. destruct a as [[] now| |m r au|n h|n o sv|av next sv|]; cbn [act interrupts] in *.
  - right. split; [done|]. exists r'. split; [|done]. rewrite <- E. cbn. by case_match.
  - right. split; [done|]. exists r'. split; [|done]. by rewrite <- (proj1 (become_active_spec now i)).
  - destruct (leave_spec DidEnterBackground now i Hok) as (H1 & _); [auto|congruence].
  - destruct (leave_spec DeviceLocked now i Hok) as (H1 & _); [auto|congruence].
  - destruct (lock_now_spec i Hok) as (H1 & _). congruence.
  - destruct (start_unlock_spec m r au i Hok) as [(_ & H1 & _)|(H1 & _ & _ & _ & _ & _ & Ha & _)].
    + right. split; [done|]. exists r'. by rewrite <- H1.
    + left. rewrite E in H1. injection H1 as ->. cbn. split_and!; [eauto|done|done].
  - right. split; [done|]. destruct (attach_spec n h i) as (_ & _ & H3). destruct (pending i) as [r|]; [|congruence].
    destruct H3 as (x & Hx & ? & ?). exists r. rewrite E in Hx. injection Hx as <-. done.
  - right. split; [done|]. destruct (finish_spec n o sv i Hok) as [[Hf _]|(r & _ & _ & H1 & _)]; [|congruence].
    rewrite Hf in E. by exists r'.
  - destruct (apply_spec av next sv i Hok) as [(_ & H1 & _)|[(_ & _ & H1 & _ & _ & _ & _ & Ha)|(H1 & _)]]; [|left|congruence].
    + right. split; [done|]. exists r'. by rewrite <- H1.
    + rewrite E in H1. injection H1 as ->. cbn. split_and!; [eauto|done|done].
  - right. by eauto.
Qed.

Lemma request_origin acts file r : pending (run acts (AppLock_new file)) = Some r ->
  exists before ask after, acts = before ++ ask :: after /\ asks ask (purpose r) /\
    id r = (next_request (run before (AppLock_new file)) + 1)%N /\
    (purpose r = Unlock -> active (run before (AppLock_new file)) = true) /\ Forall (fun b => interrupts b = false) after.
Proof.
  revert r. induction acts as [|a acts IH] using rev_ind; intros r.
  { destruct file as [[|[]|]|]; done. }
  rewrite run_snoc. intros [(H1 & H2 & H3)|(Hi & r0 & H1 & H2 & H3)]%act_pending; [| |apply run_ok].
  - exists acts, a, []. split_and!; try done.
  - destruct (IH r0 H1) as (before & ask & after & -> & K1 & K2 & K3 & K4). exists before, ask, (after ++ [a]).
    rewrite <- app_assoc. rewrite <- H2, <- H3. split_and!; try done. apply Forall_app. split; [done|by constructor].
Qed.

Lemma act_next_request a i : lock_ok i -> (next_request i <= next_request (act a i))%N.
Proof.
  intros Hok. destruct a as [[] now| |m r au|n h|n o sv|av next sv|]; cbn [act].
  - cbn. by case_match.
  - by rewrite (proj1 (proj2 (become_active_spec now i))).
  - destruct (leave_spec DidEnterBackground now i Hok) as (_ & -> & _); [auto|done].
  - destruct (leave_spec DeviceLocked now i Hok) as (_ & -> & _); [auto|done].
  - destruct (lock_now_spec i Hok) as (_ & -> & _). done.
  - destruct (start_unlock_spec m r au i Hok) as [(_ & _ & ->)|(_ & -> & _)]; lia.
  - by rewrite (proj1 (proj2 (attach_spec n h i))).
  - destruct (finish_spec n o sv i Hok) as [[-> _]|(r & _ & _ & _ & -> & _)]; done.
  - destruct (apply_spec av next sv i Hok) as [(_ & _ & ->)|[(_ & _ & _ & -> & _)|(_ & -> & _)]]; lia.
  - done.
Qed.

(** A request that no longer waits never waits again. *)
Lemma retired_stays i n : lock_ok i -> (n <= next_request i)%N -> (forall r, pending i = Some r -> id r <> n) -> forall later,
  lock_ok (run later i) /\ (n <= next_request (run later i))%N /\ forall r, pending (run later i) = Some r -> id r <> n.
Proof.
  intros Hok Hn Hr later. induction later as [|a later (IH1 & IH2 & IH3)] using rev_ind; [done|]. rewrite run_snoc. split_and!.
  - by apply act_ok.
  - pose proof (act_next_request a _ IH1). lia.
  - intros r [(_ & H2 & _)|(_ & r0 & H1 & H2 & _)]%act_pending; [lia| |done]. rewrite <- H2. by apply IH3.
Qed.

(** ** The properties *)

(** Only a successful reply, or turning a lock off where the device has no
    passcode, lets content be drawn. *)
Lemma draws_again a i : lock_ok i -> draws i = false -> draws (act a i) = true ->
  (exists next saved, a = AApply PasscodeNotSet next saved /\ enabled next = false) \/
  (exists r saved, pending i = Some r /\ a = AFinish (id r) (inr tt) saved).
Proof.
  intros Hok Hd. pose proof Hd as Hd'. unfold draws, should_draw_content in Hd'. apply bool_decide_eq_false_1 in Hd'.
  destruct (enabled (settings (policy i))) eqn:En; [|by destruct (Hd' (ok_off i Hok En))].
  unfold draws, should_draw_content at 1. rewrite bool_decide_eq_true.
  destruct a as [[] now| |m r au|n h|n o sv|av next sv|]; cbn [act].
  - cbn. case_match; [done|]. cbn. by destruct (handle_state WillResignActive now (policy i)) as [->|(_ & -> & _)].
  - destruct (become_active_spec now i) as (_ & _ & [->| ->]); [done|]. by destruct (handle_state DidBecomeActive now (policy i)) as [->|(_ & -> & _)].
  - destruct (leave_spec DidEnterBackground now i Hok) as (_ & _ & _ & _ & H & _); [auto|]. intros E. exfalso.
    rewrite H in Hd; [done|]. by apply bool_decide_eq_true_2.
  - destruct (leave_spec DeviceLocked now i Hok) as (_ & _ & _ & _ & H & _); [auto|]. intros E. exfalso.
    rewrite H in Hd; [done|]. by apply bool_decide_eq_true_2.
  - destruct (lock_now_spec i Hok) as (_ & _ & _ & ->). by rewrite En.
  - destruct (start_unlock_spec m r au i Hok) as [(-> & _)|(_ & _ & _ & _ & -> & _)]; done.
  - by rewrite (proj1 (attach_spec n h i)).
  - destruct (finish_spec n o sv i Hok) as [[-> _]|(r & E & <- & _ & _ & H)]; [done|]. intros Hu. right. exists r, sv.
    split; [done|]. destruct o as [f|[]]; [|done]. rewrite H, ended_state in Hu. destruct (state (policy i)); done.
  - destruct (apply_spec av next sv i Hok) as [(-> & _)|[(-> & _)|(_ & _ & _ & -> & H)]]; [done..|].
    destruct (enabled next) eqn:E; [by destruct (state (policy i))|]. intros _. left. rewrite (H eq_refl En). eauto.
  - done.
Qed.

(** C13: once content is hidden it is drawn again only because the owner let it:
    by a successful reply to a request that was made - while the app was active,
    when it was to unlock - after the last time the app went to the background,
    the device locked or the owner chose "Lock now"; or by turning the lock off
    on a device that has no passcode to ask for. *)
Theorem content_returns_only_to_the_owner file acts a :
  draws (run acts (AppLock_new file)) = false -> draws (act a (run acts (AppLock_new file))) = true ->
  (exists next saved, a = AApply PasscodeNotSet next saved /\ enabled next = false) \/
  (exists before ask after q saved, acts = before ++ ask :: after /\ asks ask q /\
     a = AFinish (next_request (run before (AppLock_new file)) + 1)%N (inr tt) saved /\
     (q = Unlock -> active (run before (AppLock_new file)) = true) /\ Forall (fun b => interrupts b = false) after).
Proof.
  intros Hd Ha. destruct (draws_again a _ (run_ok acts file) Hd Ha) as [?|(r & saved & Hp & ->)]; [by left|]. right.
  destruct (request_origin acts file r Hp) as (before & ask & after & -> & H1 & H2 & H3 & H4).
  exists before, ask, after, (purpose r), saved. by rewrite H2.
Qed.

(** The platform may reply late, twice, or to a dialog that was cancelled: a
    reply to a request that no longer waits changes nothing, whatever happens
    in between, because a request number is never used again. *)
Theorem retired_request_never_acts file acts n later outcome saved :
  (n <= next_request (run acts (AppLock_new file)))%N ->
  (forall r, pending (run acts (AppLock_new file)) = Some r -> id r <> n) ->
  finish n outcome saved (run later (run acts (AppLock_new file))) = (run later (run acts (AppLock_new file)), []).
Proof.
  intros Hn Hr. destruct (retired_stays _ n (run_ok acts file) Hn Hr later) as (Hok & _ & Hl).
  destruct (finish_spec n outcome saved _ Hok) as [[-> _]|(r & Hp & Hid & _)]; [done|]. by destruct (Hl r Hp).
Qed.

(** *** Leaving and coming back *)
Definition stays_away (a : Action) : bool :=
  match a with ALifecycle DidBecomeActive _ | ALockNow | AApply _ _ _ => false | _ => true end.
Definition device_locks (s : LockSettings) (a : Action) : bool :=
  match a with ALifecycle DeviceLocked _ => after_device_lock s | _ => false end.

(** The app is away since [t], and the device has locked meanwhile or not. *)
Definition away (s : LockSettings) (t : N) (locked : bool) (i : Inner) : Prop :=
  active i = false /\ pending i = None /\ dialog_inactive i = false /\
  policy i = mkPolicy s (if locked then Locked else Unlocked) (Some t).

Lemma away_act s t locked a i : enabled s = true -> stays_away a = true -> away s t locked i ->
  away s t (locked || device_locks s a) (act a i).
Proof.
  intros En Hs (H1 & H2 & H3 & H4). unfold away. destruct a as [[] now| |m r au|n h|n o sv|av next sv|]; try done; cbn [act device_locks].
  - cbn. rewrite H2, H3. cbn. unfold handle. rewrite H4. cbn. rewrite En. cbn. by rewrite orb_false_r, andb_comm.
  - unfold handle_lifecycle, retire. cbn. rewrite H2. cbn. unfold handle. rewrite H4. cbn. rewrite En. cbn. by rewrite orb_false_r, andb_comm.
  - unfold handle_lifecycle, retire. cbn. rewrite H2. cbn. unfold handle. rewrite H4. cbn. rewrite En. cbn. by destruct (after_device_lock s), locked.
  - unfold start_unlock. rewrite H1. cbn. by rewrite orb_false_r.
  - unfold attach. rewrite H2. cbn. by rewrite orb_false_r.
  - unfold finish. rewrite H2. cbn. by rewrite orb_false_r.
  - cbn. by rewrite orb_false_r.
Qed.

Lemma away_run s t acts : enabled s = true -> Forall (fun a => stays_away a = true) acts -> forall locked i,
  away s t locked i -> away s t (locked || existsb (device_locks s) acts) (run acts i).
Proof.
  intros En. induction 1 as [|a acts Ha _ IH]; intros locked i Hi; cbn; [by rewrite orb_false_r|].
  rewrite orb_assoc. apply IH. by apply away_act.
Qed.

Lemma away_enter i event t0 :
  let s := settings (policy i) in
  draws i = true -> enabled s = true -> authentication_prompt_in_flight i = false -> inactive_since (policy i) = None ->
  event = WillResignActive \/ event = DidEnterBackground -> away s t0 false (act (ALifecycle event t0) i).
Proof.
  destruct i as [[s st since] ? ? ? ? pe ? ? di ? ? ?]. cbn. unfold draws, should_draw_content. cbn.
  intros Hd%bool_decide_eq_true_1 En Hp -> He. destruct pe as [|]; [done|]. cbn in Hp. subst.
  unfold away. destruct He as [-> | ->]; cbn; unfold handle; cbn; rewrite En; done.
Qed.

Lemma return_policy s t0 t1 (locked : bool) : enabled s = true ->
  handle DidBecomeActive t1 (mkPolicy s (if locked then Locked else Unlocked) (Some t0)) =
  mkPolicy s (if locked || grace_expired (mkPolicy s Unlocked None) t0 t1 then Locked else Unlocked) None.
Proof.
  intros En. unfold handle. cbn [settings]. rewrite En. cbn [negb inactive_since]. destruct locked; [done|]. cbn [orb].
  change (grace_expired ((mkPolicy s Unlocked (Some t0)) <| inactive_since := None |>) t0 t1) with (grace_expired (mkPolicy s Unlocked None) t0 t1).
  by destruct (grace_expired _ _ _).
Qed.

Lemma become_active_away now i :
  active i = false -> dialog_inactive i = false -> enabled (settings (policy i)) = true ->
  let k := act (ALifecycle DidBecomeActive now) i in
  policy k = handle DidBecomeActive now (policy i) /\ active k = true /\ shield_frames k = SHIELD_FRAMES_AFTER_RESUME /\
  (state (policy k) = Locked -> automatic_unlock k = true).
Proof.
  intros Ha Hd En. cbn [act]. unfold handle_lifecycle. cbn zeta. rewrite Ha, Hd. cbn [negb orb andb fst].
  change (settings (policy (i <| active := true |> <| dialog_inactive := false |> <| backgrounded := false |>))) with (settings (policy i)).
  rewrite En. case_bool_decide as Hl; split_and!; try done.
Qed.

Lemma away_return s t0 t1 locked j : enabled s = true -> away s t0 locked j ->
  let k := act (ALifecycle DidBecomeActive t1) j in
  shield_should_cover k = true /\ (draws k = false -> automatic_unlock k = true) /\
  draws k = negb locked && negb (grace_expired (mkPolicy s Unlocked None) t0 t1).
Proof.
  intros En (H1 & H2 & H3 & H4). destruct (become_active_away t1 j H1 H3) as (Hp & Ha & Hf & Hl); [by rewrite H4|].
  cbv zeta. unfold shield_should_cover, draws, should_draw_content. rewrite Hp in *. rewrite H4, return_policy in * by done.
  cbn [settings state] in *. rewrite En, Ha, Hf. cbn [negb]. split_and!; [done| |by destruct locked, (grace_expired _ _ _)].
  intros Hd. apply Hl. by destruct (locked || _).
Qed.

(** A session that is left unlocked comes back unlocked only within the
    grace period, on a clock that has not gone backwards, and if the device was
    not locked meanwhile where that is to lock it; else the app locks before it
    draws and offers the unlock dialog.  The app-switcher picture is covered
    while away when it is to be, and the first frames after coming back are
    covered in any case. *)
Theorem coming_back_within_the_grace i event t0 meanwhile t1 :
  let s := settings (policy i) in
  let j := run meanwhile (act (ALifecycle event t0) i) in
  let k := act (ALifecycle DidBecomeActive t1) j in
  draws i = true -> enabled s = true -> authentication_prompt_in_flight i = false -> inactive_since (policy i) = None ->
  event = WillResignActive \/ event = DidEnterBackground -> Forall (fun a => stays_away a = true) meanwhile ->
  (hide_app_switcher_preview s = true -> shield_should_cover j = true) /\
  shield_should_cover k = true /\
  (draws k = false -> automatic_unlock k = true) /\
  (draws k = true <-> existsb (device_locks s) meanwhile = false /\
     match grace_duration (background_grace s) with None => True | Some g => (t0 <= t1 /\ t1 - t0 < g)%N end).
Proof.
  intros s j k Hd En Hp Hi He Hm. pose proof (away_enter i event t0 Hd En Hp Hi He) as H0. fold s in H0.
  apply (away_run s t0 meanwhile En Hm) in H0. fold j in H0. destruct (away_return s t0 t1 _ j En H0) as (Hs & Ha & Hk).
  fold k in Hs, Ha, Hk. cbn [orb] in *. destruct H0 as (H1 & _ & _ & H4). split_and!; try done.
  - intros Hh. unfold shield_should_cover, should_hide_snapshot. rewrite H1, H4. cbn. by rewrite En, Hh.
  - rewrite Hk, andb_true_iff, !negb_true_iff. apply and_iff_compat_l. unfold grace_expired. cbn.
    destruct (grace_duration (background_grace s)) as [g|]; [|done]. destruct (N.leb_spec t0 t1), (N.leb_spec g (t1 - t0)); split; lia || done.
Qed.

(** *** Getting back in *)

(** What leaves the request [n] waiting. *)
Definition bystander (n : N) (a : Action) : bool :=
  match a with
  | ALifecycle WillResignActive _ | ALifecycle DidBecomeActive _ | AAttach _ _ | AFrame => true
  | AStartUnlock _ replace _ => negb replace
  | AFinish m _ _ => negb (m =? n)%N
  | _ => false
  end.

Definition waits (n : N) (i : Inner) : Prop := lock_ok i /\ exists r, pending i = Some r /\ id r = n /\ purpose r = Unlock.

Lemma waits_act n a i : bystander n a = true -> waits n i -> waits n (act a i).
Proof.
  intros Hb (Hok & r & Hp & Hid & Hq). split; [by apply act_ok|]. destruct a as [[] now| |m rp au|m h|m o sv|av next sv|]; try done; cbn [act].
  - exists r. split_and!; [|done..]. rewrite <- Hp. cbn. by case_match.
  - exists r. split_and!; [|done..]. by rewrite (proj1 (become_active_spec now i)).
  - exists r. split_and!; [|done..]. cbn in Hb. unfold start_unlock. by rewrite Hp, Hb, orb_true_r.
  - destruct (attach_spec m h i) as (_ & _ & H3). rewrite Hp in H3. destruct H3 as (r' & ? & ? & ?). exists r'. split_and!; congruence.
  - destruct (finish_spec m o sv i Hok) as [[-> _]|(r' & Hr' & Hid' & _)]; [by exists r|]. cbn in Hb.
    apply negb_true_iff, N.eqb_neq in Hb. congruence.
  - by exists r.
Qed.

(** C28: the owner is never locked out for good: in every reachable state with
    the app active and its content hidden, asking again presents a dialog
    whatever request was waiting before, and a successful reply to that dialog
    draws the content, if nothing retires the dialog first.  Frames, late
    handles, replies to older dialogs, unlock requests that replace nothing and
    the dialog taking and returning the focus do not retire it ([bystander]);
    going to the background, a device lock, "Lock now", a change of settings and
    a newer request do, as they must, and the owner can then ask again.  (Until
    the request numbers of 64 bits run out.) *)
Theorem owner_can_always_unlock file acts meanwhile saved :
  let i := run acts (AppLock_new file) in
  let n := (next_request i + 1)%N in
  active i = true -> draws i = false -> (next_request i < u64_max)%N -> Forall (fun a => bystander n a = true) meanwhile ->
  Present n OwnerAuthentication ∈ snd (retry_unlock i) /\
  draws (act (AFinish n (inr tt) saved) (run meanwhile (fst (retry_unlock i)))) = true.
Proof.
  intros i n Ha Hd Hw Hm. unfold draws, should_draw_content in Hd. apply bool_decide_eq_false_1 in Hd.
  assert (lock_ok i) as Hok by apply run_ok.
  assert (Present n OwnerAuthentication ∈ snd (retry_unlock i) /\ pending (fst (retry_unlock i)) = Some (mkRequest n Unlock None)) as [HP Hp].
  { unfold retry_unlock, start_unlock, checked_add. rewrite Ha, bool_decide_eq_false_2 by done. cbn [negb andb orb].
    destruct (N.leb_spec (next_request i + 1) u64_max); [|lia]. destruct (retire i). split; [|done]. cbn. right. by left. }
  split; [done|].
  assert (waits n (run meanwhile (fst (retry_unlock i)))) as (Hok' & r & Hr & Hid & Hq).
  { assert (waits n (fst (retry_unlock i))) as Hw0.
    { split; [apply (act_ok (AStartUnlock OwnerAuthentication true false) i Hok)|]. rewrite Hp. by eexists. }
    revert Hw0. generalize (fst (retry_unlock i)). induction Hm as [|a l Hb _ IH]; intros j Hj; [done|]. cbn. apply IH. by apply waits_act. }
  cbn [act]. destruct (finish_spec n (inr tt) saved _ Hok') as [[_ Hno]|(r' & Hr' & _ & _ & _ & H)]; [by destruct (Hno r Hr)|].
  rewrite Hr in Hr'. injection Hr' as <-. rewrite Hq in H. destruct H as [_ H]. unfold draws, should_draw_content. by apply bool_decide_eq_true_2.
Qed.

(** ** Witnesses *)
Definition sample_lock : LockSettings := mkSettings true true true Minutes1 true.
(** A protected app that its owner has just unlocked. *)
Definition sample_unlocked : list Action := [AStartUnlock OwnerAuthentication false true; AFinish 1 (inr tt) (inr tt)].

Lemma content_returns_only_to_the_owner_witness :
  exists before ask after q saved,
    [AStartUnlock OwnerAuthentication false true; AFrame] = before ++ ask :: after /\ asks ask q /\
    AFinish 1 (inr tt) (inr tt) = AFinish (next_request (run before (AppLock_new (Some (ReadSettings sample_lock)))) + 1)%N (inr tt) saved /\
    Forall (fun b => interrupts b = false) after.
Proof.
  destruct (content_returns_only_to_the_owner (Some (ReadSettings sample_lock)) [AStartUnlock OwnerAuthentication false true; AFrame]
    (AFinish 1 (inr tt) (inr tt)) eq_refl eq_refl) as [(next & saved & H & _)|(before & ask & after & q & saved & H1 & H2 & H3 & _ & H4)]; [discriminate H|].
  exists before, ask, after, q, saved. split; [exact H1|]. split; [exact H2|]. split; [exact H3|exact H4].
Defined.

(** The dialog that was up when the device locked answers after all. *)
Lemma retired_request_never_acts_witness :
  fst (finish 1 (inr tt) (inr tt) (run [ALifecycle DidBecomeActive 9] (run [AStartUnlock OwnerAuthentication false true; ALifecycle DeviceLocked 5]
     (AppLock_new (Some (ReadSettings sample_lock)))))) =
  run [ALifecycle DidBecomeActive 9] (run [AStartUnlock OwnerAuthentication false true; ALifecycle DeviceLocked 5] (AppLock_new (Some (ReadSettings sample_lock)))).
Proof.
  rewrite (retired_request_never_acts (Some (ReadSettings sample_lock)) [AStartUnlock OwnerAuthentication false true; ALifecycle DeviceLocked 5] 1
    [ALifecycle DidBecomeActive 9] (inr tt) (inr tt)); [reflexivity|vm_compute; discriminate|intros r H; discriminate H].
Defined.

(** Fifty-nine seconds away, then sixty. *)
Lemma coming_back_within_the_grace_witness :
  draws (act (ALifecycle DidBecomeActive (from_secs 61)) (run [ALifecycle DidEnterBackground (from_secs 3)]
    (act (ALifecycle WillResignActive (from_secs 2)) (run sample_unlocked (AppLock_new (Some (ReadSettings sample_lock))))))) = true /\
  automatic_unlock (act (ALifecycle DidBecomeActive (from_secs 62)) (run []
    (act (ALifecycle WillResignActive (from_secs 2)) (run sample_unlocked (AppLock_new (Some (ReadSettings sample_lock))))))) = true.
Proof.
  split.
  - apply (coming_back_within_the_grace (run sample_unlocked (AppLock_new (Some (ReadSettings sample_lock)))) WillResignActive (from_secs 2)
      [ALifecycle DidEnterBackground (from_secs 3)] (from_secs 61)); try reflexivity; [by left|by repeat constructor|vm_compute; repeat split; discriminate].
  - apply (coming_back_within_the_grace (run sample_unlocked (AppLock_new (Some (ReadSettings sample_lock)))) WillResignActive (from_secs 2)
      [] (from_secs 62)); try reflexivity; [by left|constructor].
Defined.

Lemma owner_can_always_unlock_witness :
  draws (act (AFinish 2 (inr tt) (inr tt)) (run [AAttach 2 7; AFinish 1 (inl Cancelled) (inr tt)]
    (fst (retry_unlock (run [AStartUnlock OwnerAuthentication false true] (AppLock_new (Some (ReadSettings sample_lock)))))))) = true.
Proof.
  apply (owner_can_always_unlock (Some (ReadSettings sample_lock)) [AStartUnlock OwnerAuthentication false true]
    [AAttach 2 7; AFinish 1 (inl Cancelled) (inr tt)] (inr tt)); [reflexivity|reflexivity|vm_compute; reflexivity|by repeat constructor].
Defined.
