(* ===== verification/Search.v ===== *)
(** * Search results and navigation ([festerm-document/src/search.rs])

    The bounded result set of a compiled search and the [n]/[N] navigation over
    it.  The regular-expression engine is a parameter: what [find_iter] yields
    on a text. *)

From Stdlib Require Import NArith Bool.
From S2P Require Import Prelude Cell Utf8 Str.

Record MatchRange := mkMatch { match_start : nat; match_end : nat }.
#[export] Instance MatchRange_eq_dec : EqDecision MatchRange.
Proof. solve_decision. Defined.

Definition is_empty (m : MatchRange) : bool := match_start m =? match_end m.

Record SearchOutcome := mkOutcome { matches : list MatchRange; truncated : bool }.

(** The first element an iterator's [find] accepts. *)
Definition find_first {A} (f : A -> bool) (l : list A) : option A := head (List.filter f l).

(** The bytes of the character a lead byte begins. *)
Definition len_utf8_of_lead (b : N) : nat :=
  if (b <? 128)%N then 1 else if (b <? 224)%N then 2 else if (b <? 240)%N then 3 else 4.

Definition next_scalar_boundary (t : list N) (offset : nat) : nat :=
  match t !! offset with
  | None => length t + 1
  | Some b => offset + len_utf8_of_lead b
  end.

(** The start of the last character before [offset]. *)
Definition previous_scalar_boundary (t : list N) (offset : nat) : nat :=
  match offset with O => 0 | S before => floor_char_boundary t before end.

Definition valid_match (t : list N) (m : MatchRange) : bool :=
  (match_start m <=? match_end m) && (match_end m <=? length t)
  && is_char_boundary t (match_start m) && is_char_boundary t (match_end m).

Definition valid_matches (o : SearchOutcome) (t : list N) : list MatchRange := List.filter (valid_match t) (matches o).

(** The match that starts at the caret. *)
Definition current_match (o : SearchOutcome) (t : list N) (caret : nat) : option MatchRange :=
  find_first (fun m => match_start m =? caret) (valid_matches o t).

Definition other_than (current : option MatchRange) (m : MatchRange) : bool := negb (bool_decide (Some m = current)).

Definition outcome_next_match (o : SearchOutcome) (t : list N) (caret : nat) : option MatchRange :=
  let caret := Nat.min caret (length t) in
  if negb (is_char_boundary t caret) then None
  else
    let current := current_match o t caret in
    let threshold := match current with
                     | Some m => if is_empty m then next_scalar_boundary t caret else caret + 1
                     | None => caret + 1
                     end in
    match find_first (fun m => threshold <=? match_start m) (valid_matches o t) with
    | Some m => Some m
    | None => find_first (other_than current) (valid_matches o t)
    end.

Definition outcome_previous_match (o : SearchOutcome) (t : list N) (caret : nat) : option MatchRange :=
  let caret := Nat.min caret (length t) in
  if negb (is_char_boundary t caret) then None
  else
    let current := current_match o t caret in
    let backwards := reverse (valid_matches o t) in
    let candidate :=
      if match current with Some m => is_empty m | None => false end then
        if 0 <? caret then
          let threshold := previous_scalar_boundary t caret in
          find_first (fun m => match_start m <=? threshold) backwards
        else None
      else find_first (fun m => match_start m <? caret) backwards in
    match candidate with
    | Some m => Some m
    | None => find_first (other_than current) backwards
    end.

Definition caret_after_match (t : list N) (m : MatchRange) : nat := Nat.min (match_start m) (length t).

(** ** [CompiledSearch]

    [find_iter] is the engine's matches of a text, in order. *)
Class Engine := find_iter : list N -> list MatchRange.

Section Compiled.
Context {engine : Engine}.

Definition find_all (t : list N) (limit : N) : SearchOutcome :=
  if (limit =? 0)%N then mkOutcome [] (match find_iter t with [] => false | _ => true end)
  else
    let found := find_iter t in
    mkOutcome (take (N.to_nat limit) found) (match drop (N.to_nat limit) found with [] => false | _ => true end).

Definition next_match (t : list N) (caret : nat) (limit : N) : option MatchRange := outcome_next_match (find_all t limit) t caret.
Definition previous_match (t : list N) (caret : nat) (limit : N) : option MatchRange := outcome_previous_match (find_all t limit) t caret.
End Compiled.
