(* ===== verification/SearchSpec.v ===== *)
(** * Navigation reaches every match

    Against what the engine documents of its matches - in order, not
    overlapping, on character boundaries - [n] walks the collected matches
    round and round, and [N] walks them back. *)

From Stdlib Require Import NArith Bool.
From S2P Require Import Prelude Cell Utf8 Str StrSpec Search.

(** Consecutive matches do not overlap, and the second starts later. *)
Fixpoint in_order (ms : list MatchRange) : Prop :=
  match ms with
  | m :: (m' :: _) as rest => match_end m <= match_start m' /\ match_start m < match_start m' /\ in_order rest
  | _ => True
  end.

Class EngineLaws (engine : Engine) : Prop := {
  law_in_order t : in_order (find_iter t);
  law_valid t : valid_str t -> Forall (fun m => valid_match t m = true) (find_iter t)
}.

(** ** Boundaries *)
Lemma lead_length c : scalar c = true ->
  exists lead rest, encode_utf8 c = lead :: rest /\ S (length rest) = len_utf8_of_lead lead /\ Forall (fun b => tail_byte b = true) rest.
Proof.
  intros Hc. destruct (decide (128 <= c)%N) as [H|H].
  - destruct (encode_utf8_shape c Hc H) as (lead & rest & E & Hl & Hr). exists lead, rest. split_and!; [done| |].
    + unfold lead_expected, in_range in Hl. unfold len_utf8_of_lead. repeat case_match; simplify_eq; lia.
    + apply Forall_lookup_2. intros i b Hb. by destruct (Hr i b Hb).
  - exists c, []. unfold encode_utf8, len_utf8_of_lead. rewrite (proj2 (N.ltb_lt _ _)) by lia. by split_and!.
Qed.

(** No boundary lies strictly between an offset and the next one. *)
Lemma next_scalar_boundary_least t i j :
  valid_str t -> is_char_boundary t i = true -> is_char_boundary t j = true -> i < j ->
  i < next_scalar_boundary t i <= j.
Proof.
  intros Ht Hi Hj Hij. pose proof (boundary_le _ _ Hj) as Hjl. destruct (valid_split t i Ht Hi) as [_ Hd].
  unfold next_scalar_boundary. destruct (t !! i) as [b|] eqn:Eb; [|apply lookup_ge_None_1 in Eb; lia].
  destruct Hd as (cs & Hcs & Ecs). destruct cs as [|c cs].
  { apply (f_equal length) in Ecs. rewrite length_drop in Ecs. cbn in Ecs. lia. }
  apply Forall_cons_iff in Hcs as [Hc _]. destruct (lead_length c Hc) as (lead & rest & E & Hl & Hr).
  cbn in Ecs. rewrite E in Ecs. cbn in Ecs.
  assert (b = lead) as -> by (pose proof (lookup_drop t i 0) as H0; rewrite Ecs, Nat.add_0_r, Eb in H0; by injection H0).
  rewrite <- Hl. split; [lia|]. destruct (decide (i + S (length rest) <= j)) as [|Hlt]; [done|exfalso].
  destruct (rest !! (j - i - 1)) as [x|] eqn:Ex; [|apply lookup_ge_None_1 in Ex; lia].
  pose proof (Forall_lookup_1 _ _ _ _ Hr Ex) as Hx. cbn in Hx.
  assert (t !! j = Some x) as Hjx.
  { replace j with (i + S (j - i - 1)) by lia. rewrite <- lookup_drop, Ecs.
    transitivity ((rest ++ encode_text cs) !! (j - i - 1)); [done|]. rewrite lookup_app_l; [done|lia]. }
  unfold is_char_boundary in Hj. destruct j as [|j]; [lia|]. rewrite Hjx, Hx in Hj. done.
Qed.

Lemma floor_greatest t i j : is_char_boundary t i = true -> i <= j -> i <= floor_char_boundary t j.
Proof.
  intros Hi. induction j as [|j IH]; intros Hij; cbn [floor_char_boundary]; [lia|].
  destruct (is_char_boundary t (S j)) eqn:E; [done|]. apply IH. destruct (decide (i = S j)) as [->|]; [congruence|lia].
Qed.

(** ** Lists of matches *)
Lemma find_first_skip {A} (f : A -> bool) pre l : Forall (fun x => f x = false) pre -> find_first f (pre ++ l) = find_first f l.
Proof. unfold find_first. induction 1 as [|x pre Hx _ IH]; [done|]. cbn. by rewrite Hx. Qed.

Lemma find_first_hit {A} (f : A -> bool) x l : f x = true -> find_first f (x :: l) = Some x.
Proof. unfold find_first. cbn. by intros ->. Qed.

Lemma in_order_cons m ms : in_order (m :: ms) -> in_order ms /\ Forall (fun m' => match_start m < match_start m') ms.
Proof.
  revert m. induction ms as [|m' ms IH]; intros m; [by split; [|constructor]|]. cbn [in_order]. intros (_ & Hlt & Ho). split; [done|].
  destruct (IH m' Ho) as [_ Hf]. constructor; [done|]. eapply list.Forall_impl; [exact Hf|]. cbn. lia.
Qed.

Lemma in_order_split pre m post : in_order (pre ++ m :: post) ->
  Forall (fun m' => match_start m' < match_start m) pre /\ Forall (fun m' => match_start m < match_start m') post.
Proof.
  induction pre as [|x pre IH]; cbn [app]; intros Ho.
  - split; [constructor|]. by apply in_order_cons.
  - destruct (in_order_cons _ _ Ho) as [Ho' Hf]. destruct (IH Ho') as [H1 H2]. split; [|done]. constructor; [|done].
    apply Forall_app in Hf as [_ Hf]. by apply Forall_cons_iff in Hf as [? _].
Qed.

Lemma in_order_take n ms : in_order ms -> in_order (take n ms).
Proof.
  revert n. induction ms as [|m ms IH]; intros n Ho; [by rewrite take_nil|]. destruct n as [|n]; [done|].
  destruct ms as [|m' ms]; [by destruct n|]. destruct Ho as (H1 & H2 & H3). destruct n as [|n]; [done|].
  cbn. split_and!; [done|done|]. apply (IH (S n) H3).
Qed.

Lemma filter_all {A} (f : A -> bool) l : Forall (fun x => f x = true) l -> List.filter f l = l.
Proof. induction 1 as [|x l Hx _ IH]; [done|]. cbn. by rewrite Hx, IH. Qed.

(** ** One press *)
Section Outcome.
Context (t : list N) (o : SearchOutcome).
Context (Ht : valid_str t) (Ho : in_order (matches o)) (Hv : Forall (fun m => valid_match t m = true) (matches o)).

Lemma all_valid : valid_matches o t = matches o.
Proof using Hv. by apply filter_all. Qed.

Lemma match_boundary m : m ∈ matches o -> is_char_boundary t (match_start m) = true /\ match_start m <= length t.
Proof using Hv.
  intros Hm. rewrite list.Forall_forall in Hv. specialize (Hv m Hm). unfold valid_match in Hv.
  rewrite !andb_true_iff, !Nat.leb_le in Hv. split; [tauto|lia].
Qed.

Context (pre : list MatchRange) (m : MatchRange) (post : list MatchRange) (E : matches o = pre ++ m :: post).

Lemma before_after : Forall (fun m' => match_start m' < match_start m) pre /\ Forall (fun m' => match_start m < match_start m') post.
Proof using Ho E. apply in_order_split. by rewrite <- E. Qed.

Lemma current_is_here : current_match o t (match_start m) = Some m.
Proof using Ho Hv E.
  unfold current_match. rewrite all_valid, E. destruct before_after as [Hpre _]. rewrite find_first_skip.
  - apply find_first_hit. apply Nat.eqb_refl.
  - eapply list.Forall_impl; [exact Hpre|]. intros x Hx. apply Nat.eqb_neq. cbn in Hx. lia.
Qed.

Lemma here : m ∈ matches o.
Proof using E. rewrite E. apply elem_of_app. right. by left. Qed.

Lemma other_than_false l : Forall (fun m' => match_start m' <> match_start m) l -> Forall (fun m' => other_than (Some m) m' = true) l.
Proof. intros H. eapply list.Forall_impl; [exact H|]. intros x Hx. unfold other_than. apply negb_true_iff, bool_decide_eq_false_2. congruence. Qed.

Lemma head_or (l l' : list MatchRange) : Forall (fun x => other_than (Some m) x = true) (l ++ l') ->
  find_first (other_than (Some m)) (l ++ m :: l') = head (l ++ l').
Proof.
  intros H. destruct l as [|x l]; cbn [app] in *.
  - change (m :: l') with ([m] ++ l'). rewrite (find_first_skip _ [m]) by (constructor; [|done]; unfold other_than; by rewrite bool_decide_eq_true_2).
    destruct l' as [|x l']; [done|]. apply Forall_cons_iff in H as [H _]. by apply find_first_hit.
  - apply Forall_cons_iff in H as [H _]. by apply find_first_hit.
Qed.

Lemma next_press : outcome_next_match o t (match_start m) = match post with m' :: _ => Some m' | [] => head pre end.
Proof using Ht Ho Hv E.
  destruct (match_boundary m here) as [Hb Hl]. destruct before_after as [Hpre Hpost]. unfold outcome_next_match.
  rewrite Nat.min_l, Hb by done. cbn [negb]. rewrite current_is_here, all_valid.
  set (threshold := if is_empty m then _ else _).
  assert (forall x, x ∈ matches o -> match_start m < match_start x -> match_start m < threshold <= match_start x) as Hth.
  { intros x Hx Hlt. unfold threshold. destruct (is_empty m); [|lia]. apply next_scalar_boundary_least; [done|done| |done].
    by apply match_boundary. }
  assert (match_start m < threshold) as Hth0.
  { unfold threshold, next_scalar_boundary. destruct (is_empty m); [|lia]. case_match; [|lia]. unfold len_utf8_of_lead. repeat case_match; lia. }
  rewrite E. change (m :: post) with ([m] ++ post). rewrite (app_assoc pre [m] post), find_first_skip.
  - destruct post as [|m' post'] eqn:Ep; cbn [find_first List.filter head].
    + rewrite <- app_assoc. cbn [app]. rewrite head_or; [by rewrite app_nil_r|]. rewrite app_nil_r. apply other_than_false.
      eapply list.Forall_impl; [exact Hpre|]. cbn. lia.
    + rewrite find_first_hit; [done|]. apply Nat.leb_le, Hth; [rewrite E; apply elem_of_app; right; right; by left|]. by apply Forall_cons_iff in Hpost as [? _].
  - apply Forall_app. split; [|constructor; [apply Nat.leb_gt; lia|done]].
    eapply list.Forall_impl; [exact Hpre|]. intros x Hx. cbn in Hx. apply Nat.leb_gt. lia.
Qed.

Lemma previous_press : outcome_previous_match o t (match_start m) = match reverse pre with m' :: _ => Some m' | [] => head (reverse post) end.
Proof using Ht Ho Hv E.
  destruct (match_boundary m here) as [Hb Hl]. destruct before_after as [Hpre Hpost]. unfold outcome_previous_match.
  rewrite Nat.min_l, Hb by done. cbn [negb]. rewrite current_is_here, all_valid. set (back := reverse (matches o)).
  assert (back = reverse post ++ m :: reverse pre) as Eback by (unfold back; by rewrite E, reverse_app, reverse_cons, <- app_assoc).
  assert (forall x, x ∈ matches o -> match_start x < match_start m -> match_start x <= previous_scalar_boundary t (match_start m) < match_start m) as Hth.
  { intros x Hx Hlt. unfold previous_scalar_boundary. destruct (match_start m) as [|k] eqn:Ek; [lia|].
    destruct (floor_spec t k) as [? _]. split; [|lia]. apply floor_greatest; [by apply match_boundary|lia]. }
  set (candidate := if is_empty m then _ else _).
  assert (candidate = head (reverse pre)) as ->.
  { assert (forall f, Forall (fun x => f x = false) (m :: post) -> Forall (fun x => f x = true) pre -> find_first f back = head (reverse pre)) as Hff.
    { intros f H1 H2. rewrite Eback. change (m :: reverse pre) with ([m] ++ reverse pre). rewrite (app_assoc _ [m]), find_first_skip.
      - apply Forall_reverse in H2. destruct (reverse pre) as [|x l]; [done|]. apply Forall_cons_iff in H2 as [H2 _]. by apply find_first_hit.
      - apply Forall_cons_iff in H1 as [Hm H1]. apply Forall_app. split; [by apply Forall_reverse|by constructor]. }
    unfold candidate. destruct (is_empty m).
    - destruct (Nat.ltb_spec 0 (match_start m)) as [Hpos|Hz].
      + assert (previous_scalar_boundary t (match_start m) < match_start m).
        { unfold previous_scalar_boundary. destruct (match_start m) as [|k]; [lia|]. destruct (floor_spec t k). lia. }
        apply Hff; [constructor; [apply Nat.leb_gt; lia|eapply list.Forall_impl; [exact Hpost|]; intros x Hx; cbn in Hx; apply Nat.leb_gt; lia]|].
        apply list.Forall_forall. intros x Hx. rewrite list.Forall_forall in Hpre. apply Nat.leb_le, Hth; [rewrite E; apply elem_of_app; by left|by apply Hpre].
      + destruct pre as [|x pre']; [done|]. apply Forall_cons_iff in Hpre as [? _]. lia.
    - apply Hff; [constructor; [apply Nat.ltb_ge; lia|eapply list.Forall_impl; [exact Hpost|]; intros x Hx; cbn in Hx; apply Nat.ltb_ge; lia]|].
      eapply list.Forall_impl; [exact Hpre|]. intros x Hx. cbn in Hx. by apply Nat.ltb_lt. }
  destruct (reverse pre) as [|x l] eqn:Er; [|done]. cbn [head]. rewrite Eback.
  change (m :: []) with (m :: @nil MatchRange). rewrite (head_or (reverse post) []); [by rewrite app_nil_r|]. rewrite app_nil_r.
  apply Forall_reverse, other_than_false. eapply list.Forall_impl; [exact Hpost|]. cbn. lia.
Qed.
End Outcome.

(** ** Presses *)
Section Walk.
Context {engine : Engine} {laws : EngineLaws engine}.

Lemma find_all_ok t limit : valid_str t ->
  in_order (matches (find_all t limit)) /\ Forall (fun m => valid_match t m = true) (matches (find_all t limit)).
Proof using laws.
  intros Ht. unfold find_all. destruct (limit =? 0)%N; cbn; [by split; [|constructor]|].
  split; [apply in_order_take, law_in_order|apply Forall_take; by apply law_valid].
Qed.

(** [k] presses of [n] from the match [m], each from where the last one left
    the caret. *)
Fixpoint visit (t : list N) (limit : N) (k : nat) (m : MatchRange) : option MatchRange :=
  match k with
  | O => Some m
  | S k' => m' ← next_match t (caret_after_match t m) limit; visit t limit k' m'
  end.

Context (t : list N) (limit : N) (Ht : valid_str t).
Abbreviation ms := (matches (find_all t limit)).

Lemma caret_here m : m ∈ ms -> caret_after_match t m = match_start m.
Proof using Ht laws.
  intros Hm. destruct (find_all_ok t limit Ht) as [_ Hv]. unfold caret_after_match.
  destruct (match_boundary t (find_all t limit) Hv m Hm). lia.
Qed.

Lemma next_index i m : 2 <= length ms -> ms !! i = Some m -> next_match t (caret_after_match t m) limit = ms !! ((i + 1) mod length ms).
Proof using Ht laws.
  intros Hn Hi. destruct (find_all_ok t limit Ht) as [Ho Hv]. pose proof (lookup_lt_Some _ _ _ Hi) as Hlt.
  rewrite caret_here by by eapply list_elem_of_lookup_2.
  pose proof (take_drop_middle _ _ _ Hi) as E. unfold next_match.
  rewrite (next_press t _ Ht Ho Hv (take i ms) m (drop (S i) ms)) by done.
  destruct (decide (S i < length ms)) as [Hs|Hs].
  - rewrite Nat.mod_small, Nat.add_1_r by lia. destruct (ms !! S i) as [m'|] eqn:E'; [|apply lookup_ge_None_1 in E'; lia].
    by rewrite (drop_S _ _ _ E').
  - rewrite drop_ge by lia. replace (i + 1) with (length ms) by lia. rewrite Nat.Div0.mod_same.
    rewrite head_lookup, lookup_take_lt; [done|lia].
Qed.

Lemma previous_index i m : 2 <= length ms -> ms !! i = Some m ->
  previous_match t (caret_after_match t m) limit = ms !! (if decide (i = 0) then length ms - 1 else i - 1).
Proof using Ht laws.
  intros Hn Hi. destruct (find_all_ok t limit Ht) as [Ho Hv]. pose proof (lookup_lt_Some _ _ _ Hi) as Hlt.
  rewrite caret_here by by eapply list_elem_of_lookup_2.
  pose proof (take_drop_middle _ _ _ Hi) as E. unfold previous_match.
  rewrite (previous_press t _ Ht Ho Hv (take i ms) m (drop (S i) ms)) by done. case_decide as Hz.
  - subst i. cbn [take]. change (reverse []) with (@nil MatchRange). cbn. rewrite head_reverse, last_lookup, lookup_drop, length_drop. f_equal. lia.
  - replace (take i ms) with (take (i - 1) ms ++ take 1 (drop (i - 1) ms)).
    2: { rewrite <- (take_drop (i - 1) ms) at 3. rewrite take_app_ge by (rewrite length_take; lia). do 2 f_equal. rewrite length_take. lia. }
    destruct (ms !! (i - 1)) as [m'|] eqn:E'; [|apply lookup_ge_None_1 in E'; lia].
    rewrite (drop_S _ _ _ E'), reverse_app. done.
Qed.

Lemma visit_index k i m : 2 <= length ms -> ms !! i = Some m -> visit t limit k m = ms !! ((i + k) mod length ms).
Proof using Ht laws.
  intros Hn. revert i m. induction k as [|k IH]; intros i m Hi; cbn [visit].
  - pose proof (lookup_lt_Some _ _ _ Hi). by rewrite Nat.add_0_r, Nat.mod_small.
  - rewrite (next_index i m) by done. destruct (ms !! ((i + 1) mod length ms)) as [m'|] eqn:E; cbn.
    + rewrite (IH _ _ E). f_equal. rewrite Nat.Div0.add_mod_idemp_l. f_equal. lia.
    + apply lookup_ge_None_1 in E. pose proof (Nat.mod_upper_bound (i + 1) (length ms)). lia.
Qed.
End Walk.

(** C33: whatever the engine finds, as long as it is in order, does not overlap
    and lies on character boundaries, repeating [n] from any collected match
    reaches every collected match in fewer presses than there are matches, zero
    width ones included; and [N] takes one [n] back. *)
Theorem navigation_reaches_every_match {engine : Engine} {laws : EngineLaws engine} t limit i j m m' :
  valid_str t -> matches (find_all t limit) !! i = Some m -> matches (find_all t limit) !! j = Some m' ->
  (exists k, k < length (matches (find_all t limit)) /\ visit t limit k m = Some m') /\
  (forall next, next_match t (caret_after_match t m) limit = Some next ->
     previous_match t (caret_after_match t next) limit = Some m).
Proof.
  intros Ht Hi Hj. pose proof (lookup_lt_Some _ _ _ Hi) as Li. pose proof (lookup_lt_Some _ _ _ Hj) as Lj.
  set (ms := matches (find_all t limit)) in *. destruct (decide (2 <= length ms)) as [Hn|Hn].
  - split.
    + exists ((j + length ms - i) mod length ms). split; [apply Nat.mod_upper_bound; lia|].
      rewrite (visit_index t limit Ht _ i m) by done. fold ms. rewrite Nat.Div0.add_mod_idemp_r.
      replace (i + (j + length ms - i)) with (j + 1 * length ms) by lia. by rewrite Nat.Div0.mod_add, Nat.mod_small.
    + intros next. rewrite (next_index t limit Ht i m) by done. fold ms. intros Hnext.
      rewrite (previous_index t limit Ht _ next Hn Hnext). fold ms. rewrite <- Hi. f_equal.
      destruct (decide (S i = length ms)) as [E|E].
      * replace (i + 1) with (length ms) by lia. rewrite Nat.Div0.mod_same, decide_True by done. lia.
      * rewrite Nat.mod_small by lia. case_decide; lia.
  - assert (i = 0 /\ j = 0) as [-> ->] by lia. split; [exists 0; split; [lia|]; cbn; congruence|].
    intros next. destruct (find_all_ok t limit Ht) as [Ho Hv].
    destruct (take_drop_middle _ _ _ Hi). rewrite (caret_here t limit Ht) by by eapply list_elem_of_lookup_2.
    unfold next_match. rewrite (next_press t _ Ht Ho Hv [] m (drop 1 ms)) by (symmetry; by apply (take_drop_middle _ 0)).
    by rewrite drop_ge by lia.
Qed.

(** ** Witness: the empty pattern, which matches at every character boundary *)
Definition empty_pattern_from (t : list N) (a n : nat) : list MatchRange :=
  map (fun i => mkMatch i i) (List.filter (is_char_boundary t) (seq a n)).
#[export] Instance empty_pattern : Engine := fun t => empty_pattern_from t 0 (S (length t)).

Lemma empty_pattern_order t n a : in_order (empty_pattern_from t a n) /\ Forall (fun m => a <= match_start m) (empty_pattern_from t a n).
Proof.
  unfold empty_pattern_from. revert a. induction n as [|n IH]; intros a; cbn [seq List.filter]; [by split; [|constructor]|].
  destruct (IH (S a)) as [IH1 IH2]. destruct (is_char_boundary t a); cbn [map].
  - split; [|constructor; [done|eapply list.Forall_impl; [exact IH2|]; cbn; lia]].
    destruct (map _ _) as [|m ms]; [done|]. apply Forall_cons_iff in IH2 as [H _]. cbn in *. split_and!; [lia|lia|done].
  - split; [done|]. eapply list.Forall_impl; [exact IH2|]. cbn. lia.
Qed.

#[export] Instance empty_pattern_laws : EngineLaws empty_pattern.
Proof.
  split; intros t; [apply empty_pattern_order|]. intros _. apply list.Forall_forall. intros m (i & -> & Hi)%list_elem_of_fmap.
  apply list_elem_of_In, filter_In in Hi as [_ Hb]. pose proof (boundary_le _ _ Hb). unfold valid_match. cbn. rewrite Hb, Nat.leb_refl. cbn.
  by rewrite (proj2 (Nat.leb_le _ _)).
Qed.

(** "aé": matches at 0, 1 and 3; from the last, [n] wraps to the second in two. *)
Lemma navigation_reaches_every_match_witness :
  matches (find_all [97; 195; 169]%N 10) = [mkMatch 0 0; mkMatch 1 1; mkMatch 3 3] /\
  exists k, k < 3 /\ visit [97; 195; 169]%N 10 k (mkMatch 3 3) = Some (mkMatch 1 1).
Proof.
  split; [reflexivity|].
  destruct (navigation_reaches_every_match [97; 195; 169]%N 10 2 1 (mkMatch 3 3) (mkMatch 1 1)) as [H _]; [|reflexivity|reflexivity|exact H].
  exists [97; 233]%N. split; [by repeat constructor|reflexivity].
Defined.
