(* ===== verification/Admission.v ===== *)
(** * Automation admission ([festerm-admission/src/lib.rs])

    The process-wide admission lock and the epoch of one backend attachment.
    The epoch's fields are touched only with the lock held, or once it is
    poisoned, so each method is one atomic step; a panic of a guard's holder is
    the step that poisons the lock. *)

From Stdlib Require Import NArith Bool.
From S2P Require Import Prelude.

Record AutomationEpoch := mkEpoch { generation : N; running : bool; failed : bool }.
#[export] Instance set_generation : Setter generation := fun v r => mkEpoch v (running r) (failed r).
#[export] Instance set_running : Setter running := fun v r => mkEpoch (generation r) v (failed r).
#[export] Instance set_failed : Setter failed := fun v r => mkEpoch (generation r) (running r) v.

Definition AutomationEpoch_new : AutomationEpoch := mkEpoch 0 false false.

Inductive AutomationAdmissionTryError := Busy | Poisoned.

(** The mutex: poisoned or not, and held or not. *)
Record Admission := mkAdmission { poisoned : bool; held : bool }.

(** [automation_admission_lock] once it is its turn: a guard, or none for good. *)
Definition automation_admission_lock (l : Admission) : option Admission :=
  if poisoned l then None else Some (mkAdmission false true).

Definition try_automation_admission_lock (l : Admission) : AutomationAdmissionTryError + Admission :=
  if held l then inl Busy else if poisoned l then inl Poisoned else inr (mkAdmission false true).

Definition fail_closed (e : AutomationEpoch) : AutomationEpoch := e <| failed := true |> <| running := false |>.

Definition transition_under_admission (run : bool) (e : AutomationEpoch) : AutomationEpoch :=
  let e := e <| running := false |> in
  if failed e then e
  else match checked_add u64_max (generation e) 1 with
       | None => fail_closed e
       | Some next => e <| generation := next |> <| running := run |>
       end.

Definition transition (l : Admission) (run : bool) (e : AutomationEpoch) : AutomationEpoch :=
  match automation_admission_lock l with
  | None => fail_closed e
  | Some _ => transition_under_admission run e
  end.

Definition capture_under_admission (e : AutomationEpoch) : option N :=
  if failed e || negb (running e) then None else Some (generation e).

Definition capture (l : Admission) (e : AutomationEpoch) : AutomationEpoch * option N :=
  match automation_admission_lock l with
  | None => (fail_closed e, None)
  | Some _ => (e, capture_under_admission e)
  end.

Definition is_current (e : AutomationEpoch) (g : N) : bool := negb (failed e) && running e && (generation e =? g)%N.

(** ** Schedules of one epoch *)
Inductive Step :=
  | Transition (run : bool)
  | TransitionUnderAdmission (run : bool)
  | Capture
  | Poison.

(** A guard cannot be had of a poisoned lock, so the guarded method does not
    run then. *)
Definition step (s : Step) (w : Admission * AutomationEpoch) : Admission * AutomationEpoch :=
  let '(l, e) := w in
  match s with
  | Transition run => (l, transition l run e)
  | TransitionUnderAdmission run => (l, if poisoned l then e else transition_under_admission run e)
  | Capture => (l, fst (capture l e))
  | Poison => (mkAdmission true false, e)
  end.
Definition steps (ss : list Step) (w : Admission * AutomationEpoch) : Admission * AutomationEpoch := foldl (flip step) w ss.

Definition is_transition (s : Step) : bool :=
  match s with Transition _ | TransitionUnderAdmission _ => true | _ => false end.

(** The states an epoch that was current with generation [g] can be in: either
    nothing has moved since, or it is past [g] or failed for good. *)
Definition past (g : N) (e : AutomationEpoch) : Prop := failed e = true \/ (g < generation e)%N.

Lemma transition_under_past g run e : (g <= generation e)%N \/ past g e -> past g (transition_under_admission run e).
Proof.
  unfold past, transition_under_admission, checked_add. intros Hg. cbn. destruct (failed e) eqn:Ef; cbn; [by left|].
  destruct (N.leb_spec (generation e + 1) u64_max); cbn; [|by left]. right. destruct Hg as [?|[?|?]]; [lia|congruence|lia].
Qed.

Lemma step_past g s w : past g (snd w) -> past g (snd (step s w)).
Proof.
  destruct w as [l e]. cbn. intros H. destruct s as [run|run| |]; cbn.
  - unfold transition. destruct (automation_admission_lock l); [apply transition_under_past; by right|by left].
  - destruct (poisoned l); [done|]. apply transition_under_past; by right.
  - unfold capture. destruct (automation_admission_lock l); [done|by left].
  - done.
Qed.

Lemma steps_past g ss : forall w, past g (snd w) -> past g (snd (steps ss w)).
Proof. induction ss as [|s ss IH]; intros w H; [done|]. cbn. apply IH. by apply step_past. Qed.

Lemma past_not_current g e : past g e -> is_current e g = false.
Proof.
  unfold is_current. intros [->|H]; [done|]. rewrite (proj2 (N.eqb_neq _ _)) by lia. by rewrite andb_false_r.
Qed.

(** A lock that was free and sound at a capture is poisoned only by [Poison]. *)
Lemma step_keeps l e s :
  poisoned l = false -> is_transition s = false -> s <> Poison -> step s (l, e) = (l, e).
Proof. intros Hl Ht Hp. destruct s; try done. cbn. unfold capture, automation_admission_lock. by rewrite Hl. Qed.

(** A transition leaves the generation it found for good. *)
Lemma transition_past s l e : is_transition s = true -> poisoned l = false -> past (generation e) (snd (step s (l, e))).
Proof.
  destruct s as [run|run| |]; try done; intros _ Hl; cbn; unfold transition, automation_admission_lock; rewrite Hl;
    apply transition_under_past; left; lia.
Qed.

(** C30: a generation captured from a running attachment is current later only
    if the attachment has not moved since: after one transition, of either kind
    and whatever follows, it is never current again - not even once the 64-bit
    counter is exhausted, which disables the epoch for good - and under a
    poisoned lock a capture or transition ends the epoch. *)
Theorem captured_generation_is_never_reused l e g before after s :
  capture l e = (e, Some g) -> Forall (fun x => is_transition x = false /\ x <> Poison) before ->
  is_current (snd (steps before (l, e))) g = true /\
  (is_transition s = true -> is_current (snd (steps after (step s (steps before (l, e))))) g = false) /\
  (forall run later, is_current (snd (steps later (step (Transition run) (step Poison (steps before (l, e)))))) g = false) /\
  (forall later, is_current (snd (steps later (step Capture (step Poison (steps before (l, e)))))) g = false).
Proof.
  unfold capture, automation_admission_lock. destruct (poisoned l) eqn:Hl; [done|]. unfold capture_under_admission.
  destruct (failed e) eqn:Ef, (running e) eqn:Er; cbn; try done. intros [= <-] Hb.
  assert (steps before (l, e) = (l, e)) as ->.
  { induction Hb as [|x xs [Hx Hp] _ IH]; [done|]. unfold steps in *. cbn [foldl flip]. by rewrite (step_keeps l e x). }
  split_and!.
  - cbn. unfold is_current. by rewrite Ef, Er, N.eqb_refl.
  - intros Hs. apply past_not_current, steps_past. by apply transition_past.
  - intros run later. apply past_not_current, steps_past. by left.
  - intros later. apply past_not_current, steps_past. by left.
Qed.

(** The last generation there is: captured, then a transition ends the epoch. *)
Lemma captured_generation_is_never_reused_witness :
  is_current (snd (steps [Transition true] (step (Transition true) (steps [Capture]
    (mkAdmission false false, mkEpoch u64_max true false))))) u64_max = false.
Proof.
  apply (captured_generation_is_never_reused (mkAdmission false false) (mkEpoch u64_max true false) u64_max [Capture] [Transition true] (Transition true));
    [reflexivity|repeat constructor; discriminate|reflexivity].
Defined.
