(* ===== verification/Pattern.v ===== *)
(** * The editor's pattern dialect ([festerm-document/src/search.rs])

    The scanner that turns a vi-flavoured pattern into the syntax of the
    regular-expression engine, and the compilation of a search.  A pattern is
    the list of its characters.  The engine and the Unicode tables are
    parameters ([RegexLibrary]). *)

From Stdlib Require Import NArith Bool.
From S2P Require Import Prelude Cell Utf8 Str Search.

Definition BACKSLASH : N := 92.
Definition SLASH : N := 47.

Inductive SearchError :=
  | Backreference (digit : N)
  | NamedBackreference
  | LookAround
  | CaseSwitchPosition
  | InvalidRegex (error : list N).

(** [str::strip_prefix], and the test for an ASCII digit. *)
Definition strip_prefix (p t : list N) : option (list N) := if starts_with p t then Some (drop (length p) t) else None.
Definition is_ascii_digit (c : N) : bool := (48 <=? c)%N && (c <=? 57)%N.
Definition capture_digit (c : N) : bool := (49 <=? c)%N && (c <=? 57)%N.

(** ** [PatternScanner]

    Each step takes the characters that are left and returns those it leaves.
    [None] is a loop that has run out of fuel. *)
Record ClassState := mkClassState { allows_literal_right_bracket : bool }.
Definition ClassState_default : ClassState := mkClassState true.

(** The stack of open classes, the innermost first. *)
Definition mark_class_item (states : list ClassState) : list ClassState :=
  match states with
  | [] => []
  | _ :: outer => mkClassState false :: outer
  end.

Definition allows_right_bracket (states : list ClassState) : bool :=
  match states with s :: _ => allows_literal_right_bracket s | [] => false end.

Fixpoint copy_posix_class (previous : option N) (chars class : list N) : list N * list N :=
  match chars with
  | [] => (class, [])
  | ch :: chars =>
      let class := class ++ [ch] in
      if bool_decide (previous = Some 58%N) && (ch =? 93)%N then (class, chars)
      else copy_posix_class (Some ch) chars class
  end.

Fixpoint class_loop (fuel : nat) (chars class : list N) (case_switch : option (list N)) (states : list ClassState)
    : option (list N * list N) :=
  match fuel with
  | O => None
  | S fuel =>
      match chars with
      | [] => Some (class, [])
      | ch :: chars =>
          if (ch =? BACKSLASH)%N then
            match chars with
            | [] => class_loop fuel [] (class ++ [BACKSLASH]) case_switch states
            | next :: chars =>
                if (next =? BACKSLASH)%N then
                  class_loop fuel chars (class ++ [BACKSLASH; BACKSLASH]) case_switch (mark_class_item states)
                else if (next =? 99)%N then class_loop fuel chars class (Some (bytes "(?i)")) states
                else if (next =? 67)%N then class_loop fuel chars class (Some (bytes "(?-i)")) states
                else class_loop fuel chars (class ++ [BACKSLASH; next]) case_switch (mark_class_item states)
            end
          else if (ch =? 91)%N then
            match chars with
            | 58%N :: chars =>
                let '(class, chars) := copy_posix_class None chars (class ++ [91; 58]%N) in
                class_loop fuel chars class case_switch (mark_class_item states)
            | _ => class_loop fuel chars (class ++ [91%N]) case_switch (ClassState_default :: mark_class_item states)
            end
          else if (ch =? 94)%N && allows_right_bracket states then class_loop fuel chars (class ++ [94%N]) case_switch states
          else if (ch =? 93)%N && allows_right_bracket states then
            class_loop fuel chars (class ++ [93%N]) case_switch (mark_class_item states)
          else if (ch =? 93)%N then
            match drop 1 states with
            | [] => Some (default [] case_switch ++ class ++ [93%N], chars)
            | outer => class_loop fuel chars (class ++ [93%N]) case_switch (mark_class_item outer)
            end
          else class_loop fuel chars (class ++ [ch]) case_switch (mark_class_item states)
      end
  end.

Definition translate_character_class (chars : list N) : option (list N * list N) :=
  class_loop (S (length chars)) chars [91%N] None [ClassState_default].

(** The translation of an escape, after its backslash. *)
Definition translate_escape (chars translated : list N) : SearchError + (list N * list N) :=
  match chars with
  | [] => inr (translated ++ [BACKSLASH], [])
  | next :: chars =>
      if (next =? BACKSLASH)%N then inr (translated ++ [BACKSLASH; BACKSLASH], chars)
      else if (next =? 99)%N then inr (translated ++ bytes "(?i)", chars)
      else if (next =? 67)%N then inr (translated ++ bytes "(?-i)", chars)
      else if capture_digit next then inl (Backreference next)
      else if (next =? 107)%N then inl NamedBackreference
      else inr (translated ++ [BACKSLASH; next], chars)
  end.

(** [=] or [!]. *)
Definition look_around_mark (chars : list N) : bool :=
  match chars with c :: _ => (c =? 61)%N || (c =? 33)%N | [] => false end.

(** The prefix of a group, after [(] and the question mark. *)
Definition translate_group_prefix (chars translated : list N) : SearchError + (list N * list N) :=
  let translated := translated ++ [40; 63]%N in
  if look_around_mark chars then inl LookAround
  else match chars with
       | 60%N :: chars => if look_around_mark chars then inl LookAround else inr (translated ++ [60%N], chars)
       | _ => inr (translated, chars)
       end.

Fixpoint analyze (fuel : nat) (chars translated : list N) : fallible SearchError (list N) :=
  match fuel with
  | O => None
  | S fuel =>
      match chars with
      | [] => Some (inr translated)
      | ch :: chars =>
          if (ch =? BACKSLASH)%N then
            let? (translated, chars) := Some (translate_escape chars translated) in
            analyze fuel chars translated
          else if (ch =? 91)%N then
            '(class, chars) ← translate_character_class chars;
            analyze fuel chars (translated ++ class)
          else match ch, chars with
               | 40%N, 63%N :: chars =>
                   let? (translated, chars) := Some (translate_group_prefix chars translated) in
                   analyze fuel chars translated
               | _, _ => analyze fuel chars (translated ++ [ch])
               end
      end
  end.

Definition analyze_pattern (pattern : list N) : fallible SearchError (list N) := analyze (S (length pattern)) pattern [].

(** ** The engine

    Group [0] of a match is the whole of it; the ranges are byte offsets into
    the text that was searched. *)
Record Captures := mkCaptures { capture : N -> option MatchRange; name : list N -> option MatchRange }.

Class RegexLibrary := {
  Regex : Type;
  build : list N -> bool -> list N + Regex;
  regex_find_iter : Regex -> list N -> list MatchRange;
  captures_iter : Regex -> list N -> list Captures;
  captures : Regex -> list N -> option Captures;
  regex_escape : list N -> list N;
  is_alphanumeric : N -> bool
}.

Section Compile.
Context `{Lib : RegexLibrary}.

Definition classify_regex_error (original translated error : list N) : SearchError :=
  if negb (bool_decide (original = translated)) && bool_decide (is_Some (find (bytes "unrecognized flag") error))
  then CaseSwitchPosition else InvalidRegex error.

Definition compile_with_case (pattern : list N) (case_insensitive : bool) : fallible SearchError Regex :=
  let? translated := analyze_pattern pattern in
  Some (match build translated case_insensitive with
        | inl error => inl (classify_regex_error pattern translated error)
        | inr regex => inr regex
        end).

Definition compile (pattern : list N) : fallible SearchError Regex := compile_with_case pattern false.

(** The matches that [find_all], [next_match] and [previous_match] walk. *)
Definition regex_engine (r : Regex) : Engine := regex_find_iter r.

Definition word_character (c : option N) : bool :=
  match c with Some ch => is_alphanumeric ch || (ch =? 95)%N | None => false end.

Definition literal_word_pattern (word : list N) : list N :=
  let escaped := regex_escape word in
  if word_character (head word) && word_character (list.last word)
  then [BACKSLASH; 98%N] ++ escaped ++ [BACKSLASH; 98%N] else escaped.
End Compile.
