(* ===== verification/PatternSpec.v ===== *)
(** * The pattern scanner

    The scan of a pattern ends, refuses a pattern only for a construct that is
    in it, and changes nothing but the vi case switches. *)

From Stdlib Require Import NArith Bool.
From S2P Require Import Prelude Cell Utf8 Str Search Pattern.

(** No backslash is followed by [c] or [C]. *)
Fixpoint no_case_switch (p : list N) : bool :=
  match p with
  | b :: (c :: _) as rest => negb ((b =? BACKSLASH)%N && ((c =? 99)%N || (c =? 67)%N)) && no_case_switch rest
  | _ => true
  end.

Definition occurs (part whole : list N) : Prop := exists a b, whole = a ++ part ++ b.

(** The construct a refusal names. *)
Definition refused_construct (e : SearchError) (p : list N) : Prop :=
  match e with
  | Backreference digit => capture_digit digit = true /\ occurs [BACKSLASH; digit] p
  | NamedBackreference => occurs (bytes "\k") p
  | LookAround => exists mark, mark ∈ [bytes "(?="; bytes "(?!"; bytes "(?<="; bytes "(?<!"] /\ occurs mark p
  | CaseSwitchPosition | InvalidRegex _ => False
  end.

Lemma occurs_skip x part whole : occurs part whole -> occurs part (x ++ whole).
Proof. intros (a & b & ->). exists (x ++ a), b. by rewrite <- app_assoc. Qed.

Lemma occurs_here part rest : occurs part (part ++ rest).
Proof. by exists [], rest. Qed.

Lemma refused_skip e x p : refused_construct e p -> refused_construct e (x ++ p).
Proof.
  destruct e; cbn; [|apply occurs_skip| |done..].
  - intros [? ?]. split; [done|by apply occurs_skip].
  - intros (mark & ? & ?). exists mark. split; [done|by apply occurs_skip].
Qed.

Lemma no_switch_tail b p : no_case_switch (b :: p) = true -> no_case_switch p = true.
Proof. destruct p; [done|]. cbn. by intros [_ ?]%andb_true_iff. Qed.

Lemma no_switch_skip x p : no_case_switch (x ++ p) = true -> no_case_switch p = true.
Proof. induction x as [|b x IH]; [done|]. intros H. apply IH, (no_switch_tail b), H. Qed.

Lemma no_switch_pair c p : no_case_switch (BACKSLASH :: c :: p) = true -> (c =? 99)%N = false /\ (c =? 67)%N = false.
Proof. cbn. by destruct (c =? 99)%N, (c =? 67)%N. Qed.

(** ** Classes

    A step of the scan of a class consumes a part of what is left; each part
    is copied, but for a case switch. *)
Lemma copy_posix_consumes chars : forall previous class,
  exists part rest, chars = part ++ rest /\ copy_posix_class previous chars class = (class ++ part, rest).
Proof.
  induction chars as [|ch chars IH]; intros previous class; cbn; [exists [], []; by rewrite !app_nil_r|].
  destruct (_ && _); [by exists [ch], chars|].
  destruct (IH (Some ch) (class ++ [ch])) as (part & rest & -> & ->). exists (ch :: part), rest. by rewrite <- app_assoc.
Qed.

Definition class_result (chars class : list N) (switch : option (list N)) (r : option (list N * list N)) : Prop :=
  exists out part rest, r = Some (out, rest) /\ chars = part ++ rest /\
    length out <= length class + length (default [] switch) + 3 * length part /\
    (switch = None -> no_case_switch chars = true -> out = class ++ part).

(** What is left after copying [x]. *)
Lemma class_copies x chars class switch r :
  class_result chars (class ++ x) switch r -> class_result (x ++ chars) class switch r.
Proof.
  intros (out & part & rest & -> & -> & Hl & Hp). exists out, (x ++ part), rest. rewrite !length_app in *. split_and!.
  - done.
  - by rewrite app_assoc.
  - lia.
  - intros Hs Hn. rewrite app_assoc. apply Hp; [done|]. by apply no_switch_skip in Hn.
Qed.

Lemma class_switches c s chars class switch r :
  c = 99%N \/ c = 67%N -> length s <= 5 -> class_result chars class (Some s) r -> class_result (BACKSLASH :: c :: chars) class switch r.
Proof.
  intros Hc Hs (out & part & rest & -> & -> & Hl & Hp). exists out, (BACKSLASH :: c :: part), rest. cbn [length default] in *.
  split_and!; [done|done|cbn in *; lia|]. intros _ Hn. apply no_switch_pair in Hn as [H1 H2]. destruct Hc as [->| ->]; done.
Qed.

Lemma class_loop_ends fuel : forall chars class switch states,
  length chars < fuel -> class_result chars class switch (class_loop fuel chars class switch states).
Proof.
  induction fuel as [|fuel IH]; intros chars class switch states Hf; [lia|]. cbn [class_loop].
  destruct chars as [|ch chars].
  { exists class, [], []. cbn. split_and!; [done|done|lia|]. by rewrite app_nil_r. }
  cbn [length] in Hf. destruct (N.eqb_spec ch BACKSLASH) as [->|_].
  { destruct chars as [|next chars]; [apply (class_copies [BACKSLASH] []), IH; cbn in *; lia|]. cbn [length] in Hf.
    destruct (N.eqb_spec next BACKSLASH) as [->|_]; [apply (class_copies [BACKSLASH; BACKSLASH]), IH; lia|].
    destruct (N.eqb_spec next 99) as [->|_]; [eapply class_switches; [by left|shelve|apply IH; lia]|].
    destruct (N.eqb_spec next 67) as [->|_]; [eapply class_switches; [by right|shelve|apply IH; lia]|].
    apply (class_copies [BACKSLASH; next]), IH. lia. Unshelve. all: cbn; lia. }
  destruct (N.eqb_spec ch 91) as [->|_].
  { assert (class_result (91%N :: chars) class switch
      (class_loop fuel chars (class ++ [91%N]) switch (ClassState_default :: mark_class_item states))) as Hplain
      by (apply (class_copies [91%N]), IH; lia).
    destruct chars as [|c chars]; [exact Hplain|]. cbn [length] in Hf.
    destruct (decide (c = 58%N)) as [->|Hc]; [|by repeat case_match].
    destruct (copy_posix_consumes chars None (class ++ [91; 58]%N)) as (part & rest & -> & ->).
    apply (class_copies [91; 58]%N), (class_copies part), IH. rewrite length_app in Hf. lia. }
  destruct (_ && _) eqn:E1.
  { apply andb_true_iff in E1 as [->%N.eqb_eq _]. apply (class_copies [94%N]), IH. lia. }
  destruct (_ && _) eqn:E2 in |- *.
  { apply andb_true_iff in E2 as [->%N.eqb_eq _]. apply (class_copies [93%N]), IH. lia. }
  destruct (N.eqb_spec ch 93) as [->|_]; [|apply (class_copies [ch]), IH; lia].
  destruct (drop 1 states) as [|s outer]; [|apply (class_copies [93%N]), IH; lia].
  eexists _, [93%N], chars. split_and!; [done|done|rewrite !length_app; cbn; lia|]. by intros -> _.
Qed.

(** ** Patterns *)
Definition scan_result (chars translated : list N) (r : fallible SearchError (list N)) : Prop :=
  match r with
  | None => False
  | Some (inl e) => refused_construct e chars
  | Some (inr out) =>
      exists part, out = translated ++ part /\ length part <= 3 * length chars /\ (no_case_switch chars = true -> part = chars)
  end.

Lemma scan_step x y chars translated r :
  length y <= 3 * length x -> (no_case_switch (x ++ chars) = true -> y = x) ->
  scan_result chars (translated ++ y) r -> scan_result (x ++ chars) translated r.
Proof.
  intros Hl Hy. destruct r as [[e|out]|]; cbn; [apply refused_skip| |done]. intros (part & -> & Hp & Heq).
  exists (y ++ part). rewrite !length_app. split_and!; [by rewrite app_assoc|lia|].
  intros Hn. rewrite Hy, Heq by (done || by apply no_switch_skip in Hn). done.
Qed.

Lemma scan_copies x chars translated r : scan_result chars (translated ++ x) r -> scan_result (x ++ chars) translated r.
Proof. apply scan_step; [lia|done]. Qed.

Lemma look_around_shape chars : look_around_mark chars = true -> exists c rest, chars = c :: rest /\ (c = 61%N \/ c = 33%N).
Proof. destruct chars as [|c rest]; [done|]. cbn. intros [H|H]%orb_true_iff; apply N.eqb_eq in H as ->; eauto. Qed.

Lemma group_prefix_spec chars translated :
  match translate_group_prefix chars translated with
  | inl e => refused_construct e ([40; 63]%N ++ chars)
  | inr (out, rest) => exists x, out = translated ++ [40; 63]%N ++ x /\ chars = x ++ rest
  end.
Proof.
  unfold translate_group_prefix. destruct (look_around_mark chars) eqn:E.
  { destruct (look_around_shape _ E) as (c & rest & -> & [->| ->]); cbn; eexists; (split; [|by apply (occurs_here [40; 63; _]%N)]);
      rewrite ?elem_of_cons; auto. }
  assert (exists x, translated ++ [40; 63]%N = translated ++ [40; 63]%N ++ x /\ chars = x ++ chars) as Hplain
    by (exists []; by rewrite app_nil_r).
  destruct chars as [|c chars]; [exact Hplain|]. destruct (decide (c = 60%N)) as [->|Hc]; [|repeat case_match; simplify_eq; exact Hplain].
  destruct (look_around_mark chars) eqn:E2.
  { destruct (look_around_shape _ E2) as (c & rest & -> & [->| ->]); cbn; eexists; (split; [|by apply (occurs_here [40; 63; 60; _]%N)]);
      rewrite ?elem_of_cons; auto. }
  exists [60%N]. by rewrite <- app_assoc.
Qed.

Lemma escape_spec chars translated :
  match translate_escape chars translated with
  | inl e => refused_construct e (BACKSLASH :: chars)
  | inr (out, rest) => exists x y, out = translated ++ y /\ chars = x ++ rest /\ length y <= 3 * S (length x) /\
      (no_case_switch (BACKSLASH :: chars) = true -> y = BACKSLASH :: x)
  end.
Proof.
  unfold translate_escape. destruct chars as [|next chars]; [by exists [], [BACKSLASH]; cbn; split_and!; try lia|].
  destruct (N.eqb_spec next BACKSLASH) as [->|_]; [by exists [BACKSLASH], [BACKSLASH; BACKSLASH]; cbn; split_and!; try lia|].
  destruct (N.eqb_spec next 99) as [->|H99].
  { exists [99%N], (bytes "(?i)"). split_and!; [done|done|cbn; lia|]. by intros [? _]%no_switch_pair. }
  destruct (N.eqb_spec next 67) as [->|H67].
  { exists [67%N], (bytes "(?-i)"). split_and!; [done|done|cbn; lia|]. by intros [_ ?]%no_switch_pair. }
  destruct (capture_digit next) eqn:Ed; [split; [done|apply (occurs_here [BACKSLASH; next])]|].
  destruct (N.eqb_spec next 107) as [->|_]; [apply (occurs_here [BACKSLASH; 107%N])|].
  by exists [next], [BACKSLASH; next]; cbn; split_and!; try lia.
Qed.

Lemma analyze_ends fuel : forall chars translated,
  length chars < fuel -> scan_result chars translated (analyze fuel chars translated).
Proof.
  induction fuel as [|fuel IH]; intros chars translated Hf; [lia|]. cbn [analyze]. destruct chars as [|ch chars].
  { exists []. rewrite app_nil_r. cbn. split_and!; [done|lia|done]. }
  cbn [length] in Hf. destruct (N.eqb_spec ch BACKSLASH) as [->|_].
  { pose proof (escape_spec chars translated) as H. destruct (translate_escape chars translated) as [e|[out rest]]; [exact H|].
    destruct H as (x & y & -> & -> & Hl & Hy). apply (scan_step (BACKSLASH :: x) y); [done|done|].
    apply IH. rewrite length_app in Hf. lia. }
  destruct (N.eqb_spec ch 91) as [->|_].
  { destruct (class_loop_ends (S (length chars)) chars [91%N] None [ClassState_default]) as (out & part & rest & E & -> & Hl & Hp); [lia|].
    unfold translate_character_class. rewrite E. cbn [mbind option_bind]. apply (scan_step (91%N :: part) out).
    - cbn in *. lia.
    - intros Hn. apply Hp; [done|]. by apply (no_switch_tail 91%N).
    - apply IH. rewrite length_app in Hf. lia. }
  assert (scan_result (ch :: chars) translated (analyze fuel chars (translated ++ [ch]))) as Hplain
    by (apply (scan_copies [ch]), IH; lia).
  destruct (decide (ch = 40%N)) as [->|Hc]; [|by repeat case_match].
  destruct chars as [|c chars]; [exact Hplain|]. destruct (decide (c = 63%N)) as [->|Hq]; [|by repeat case_match].
  pose proof (group_prefix_spec chars translated) as H. destruct (translate_group_prefix chars translated) as [e|[out rest]]; [exact H|].
  destruct H as (x & -> & ->). apply (scan_copies ([40; 63]%N ++ x)), IH. cbn in Hf. rewrite length_app in Hf. lia.
Qed.

Lemma scan_ends p : exists r, analyze_pattern p = Some r.
Proof.
  pose proof (analyze_ends (S (length p)) p [] ltac:(lia)) as H. unfold analyze_pattern. destruct (analyze _ _ _); [by eexists|done].
Qed.

