(* ===== verification/Substitute.v ===== *)
(** * Substitution commands ([festerm-document/src/substitute.rs])

    The parser of [:s] commands and of their replacements, and the planner
    that turns a command and a text into ordered replacements.  A command is
    the list of its characters; the text is its UTF-8 bytes. *)

From Stdlib Require Import NArith Bool.
From S2P Require Import Prelude Cell Utf8 Str Undo Document Search Pattern.

Definition DEFAULT_REPLACEMENT_BYTE_LIMIT : N := 4 * 1024 * 1024.

Inductive SubstituteError :=
  | MissingDelimiter
  | VisualSelectionUnavailable
  | PlanIsStale
  | UnsupportedRange
  | NotACommand
  | UnterminatedField
  | CaseConversionReplacement
  | ExpressionReplacement
  | CaptureReferenceTooLarge
  | UnterminatedCaptureReference
  | UnsupportedFlag (flag : N)
  | DuplicateFlag (flag : N)
  | ContradictoryCaseFlags
  | ContradictoryConfirmFlags
  | RangeOutsideDocument
  | RangeSplitsCharacter
  | ReplacementPlanTooLarge
  | PlanOutOfOrder
  | PlanOverlaps
  | FromSearchError (error : SearchError).

Inductive SubstituteRange := CurrentLine | WholeDocument | VisualSelection.

Record SubstituteFlags := mkFlags {
  global : bool;
  confirm : bool;
  case_insensitive : bool;
  case_sensitive : bool;
  count_only : bool
}.
#[export] Instance set_global : Setter global := fun v f => mkFlags v (confirm f) (case_insensitive f) (case_sensitive f) (count_only f).
#[export] Instance set_confirm : Setter confirm := fun v f => mkFlags (global f) v (case_insensitive f) (case_sensitive f) (count_only f).
#[export] Instance set_case_insensitive : Setter case_insensitive := fun v f => mkFlags (global f) (confirm f) v (case_sensitive f) (count_only f).
#[export] Instance set_case_sensitive : Setter case_sensitive := fun v f => mkFlags (global f) (confirm f) (case_insensitive f) v (count_only f).
#[export] Instance set_count_only : Setter count_only := fun v f => mkFlags (global f) (confirm f) (case_insensitive f) (case_sensitive f) v.
Definition SubstituteFlags_default : SubstituteFlags := mkFlags false false false false false.

Inductive ReplacementToken :=
  | Literal (text : list N)
  | WholeMatch
  | CaptureIndex (index : N)
  | NamedCapture (name : list N).

Record SubstituteCommand := mkCommand {
  command_range : SubstituteRange;
  pattern : list N;
  replacement : list N;
  flags : SubstituteFlags;
  replacement_tokens : list ReplacementToken
}.

(** ** Parsing *)
Definition parse_range (command : list N) : SubstituteError + (SubstituteRange * list N) :=
  match strip_prefix (bytes ":'<,'>s") command with
  | Some rest => inr (VisualSelection, rest)
  | None =>
      match strip_prefix (bytes ":%s") command with
      | Some rest => inr (WholeDocument, rest)
      | None =>
          match strip_prefix (bytes ":s") command with
          | Some rest => inr (CurrentLine, rest)
          | None => if starts_with (bytes ":") command then inl UnsupportedRange else inl NotACommand
          end
      end
  end.

Fixpoint take_delimited (input field : list N) : SubstituteError + (list N * list N) :=
  match input with
  | [] => inl UnterminatedField
  | ch :: rest =>
      if (ch =? SLASH)%N then inr (field, rest)
      else if (ch =? BACKSLASH)%N then
        match rest with
        | escaped :: rest' =>
            if (escaped =? SLASH)%N || (escaped =? BACKSLASH)%N then take_delimited rest' (field ++ [escaped])
            else take_delimited rest (field ++ [ch])
        | [] => take_delimited rest (field ++ [ch])
        end
      else take_delimited rest (field ++ [ch])
  end.

(** ** Replacements *)
Inductive BackslashPair := OneLiteralBackslash | TwoLiteralBackslashes.

Definition push_literal (tokens : list ReplacementToken) (literal : list N) : list ReplacementToken :=
  match literal with
  | [] => tokens
  | _ => match list.last tokens with
         | Some (Literal previous) => take (length tokens - 1) tokens ++ [Literal (previous ++ literal)]
         | _ => tokens ++ [Literal literal]
         end
  end.

(** What follows a backslash: the characters left, the tokens and the literal
    being collected. *)
Definition parse_backslash_replacement (chars : list N) (tokens : list ReplacementToken) (literal : list N)
    (pair_mode : BackslashPair) : SubstituteError + (list N * list ReplacementToken * list N) :=
  match chars with
  | [] => inr ([], tokens, literal ++ [BACKSLASH])
  | ch :: chars =>
      if (ch =? BACKSLASH)%N then
        inr (chars, tokens, literal ++ match pair_mode with
                                       | OneLiteralBackslash => [BACKSLASH]
                                       | TwoLiteralBackslashes => [BACKSLASH; BACKSLASH]
                                       end)
      else if capture_digit ch then inr (chars, push_literal tokens literal ++ [CaptureIndex (ch - 48)], [])
      else if (ch =? 38)%N then inr (chars, tokens, literal ++ [38%N])
      else if existsb (N.eqb ch) (bytes "uUlLeE") then inl CaseConversionReplacement
      else if (ch =? 61)%N then inl ExpressionReplacement
      else inr (chars, tokens, literal ++ [BACKSLASH; ch])
  end.

(** The digits at the head of the characters, and what follows them. *)
Fixpoint take_digits (chars number : list N) : list N * list N :=
  match chars with
  | ch :: chars' => if is_ascii_digit ch then take_digits chars' (number ++ [ch]) else (number, chars)
  | [] => (number, [])
  end.

(** [str::parse::<usize>] of a string of digits. *)
Definition decimal (number : list N) : N := foldl (fun n d => (n * 10 + (d - 48))%N) 0%N number.
Definition parse_usize (number : list N) : option N :=
  if (decimal number <=? usize_max)%N then Some (decimal number) else None.

(** The name up to the closing brace. *)
Fixpoint take_name (chars name : list N) : option (list N * list N) :=
  match chars with
  | [] => None
  | ch :: chars => if (ch =? 125)%N then Some (name, chars) else take_name chars (name ++ [ch])
  end.

Definition parse_dollar_replacement (chars : list N) (tokens : list ReplacementToken) (literal : list N)
    : SubstituteError + (list N * list ReplacementToken * list N) :=
  match chars with
  | ch :: rest =>
      if is_ascii_digit ch then
        let '(number, chars) := take_digits chars [] in
        match parse_usize number with
        | None => inl CaptureReferenceTooLarge
        | Some index => inr (chars, push_literal tokens literal ++ [CaptureIndex index], [])
        end
      else if (ch =? 123)%N then
        match take_name rest [] with
        | Some (name, chars) => inr (chars, push_literal tokens literal ++ [NamedCapture name], [])
        | None => inl UnterminatedCaptureReference
        end
      else inr (chars, tokens, literal ++ [36%N])
  | [] => inr ([], tokens, literal ++ [36%N])
  end.

(** [None] is a loop that has run out of fuel. *)
Fixpoint tokenize_loop (fuel : nat) (chars : list N) (tokens : list ReplacementToken) (literal : list N)
    (pair_mode : BackslashPair) : fallible SubstituteError (list ReplacementToken) :=
  match fuel with
  | O => None
  | S fuel =>
      match chars with
      | [] => Some (inr (push_literal tokens literal))
      | ch :: chars =>
          if (ch =? BACKSLASH)%N then
            let? (chars, tokens, literal) := Some (parse_backslash_replacement chars tokens literal pair_mode) in
            tokenize_loop fuel chars tokens literal pair_mode
          else if (ch =? 38)%N then tokenize_loop fuel chars (push_literal tokens literal ++ [WholeMatch]) [] pair_mode
          else if (ch =? 36)%N then
            let? (chars, tokens, literal) := Some (parse_dollar_replacement chars tokens literal) in
            tokenize_loop fuel chars tokens literal pair_mode
          else tokenize_loop fuel chars tokens (literal ++ [ch]) pair_mode
      end
  end.

Definition tokenize_replacement (replacement : list N) (pair_mode : BackslashPair)
    : fallible SubstituteError (list ReplacementToken) :=
  tokenize_loop (S (length replacement)) replacement [] [] pair_mode.

Definition tokenize_command_replacement (replacement : list N) := tokenize_replacement replacement OneLiteralBackslash.
Definition tokenize_literal_replacement (replacement : list N) := tokenize_replacement replacement TwoLiteralBackslashes.

(** The replacement as shown, its tokens, and the flags after it. *)
Fixpoint take_replacement_delimited (input display token_source : list N)
    : fallible SubstituteError (list N * list ReplacementToken * list N) :=
  match input with
  | [] => Some (inl UnterminatedField)
  | ch :: rest =>
      if (ch =? SLASH)%N then
        let? tokens := tokenize_command_replacement token_source in
        Some (inr (display, tokens, rest))
      else if (ch =? BACKSLASH)%N then
        match rest with
        | next :: rest' =>
            if (next =? SLASH)%N then take_replacement_delimited rest' (display ++ [SLASH]) (token_source ++ [SLASH])
            else if (next =? BACKSLASH)%N then
              take_replacement_delimited rest' (display ++ [BACKSLASH]) (token_source ++ [BACKSLASH; BACKSLASH])
            else take_replacement_delimited rest (display ++ [BACKSLASH]) (token_source ++ [BACKSLASH])
        | [] => take_replacement_delimited rest (display ++ [BACKSLASH]) (token_source ++ [BACKSLASH])
        end
      else take_replacement_delimited rest (display ++ [ch]) (token_source ++ [ch])
  end.

(** ** Flags *)
Definition validate_flags (f : SubstituteFlags) : SubstituteError + SubstituteFlags :=
  if case_insensitive f && case_sensitive f then inl ContradictoryCaseFlags
  else if confirm f && count_only f then inl ContradictoryConfirmFlags
  else inr f.

(** Whether the flag was already set, and the flags with it set. *)
Definition replace_flag (flag : N) (f : SubstituteFlags) : option (bool * SubstituteFlags) :=
  match flag with
  | 103%N => Some (global f, f <| global := true |>)
  | 99%N => Some (confirm f, f <| confirm := true |>)
  | 105%N => Some (case_insensitive f, f <| case_insensitive := true |>)
  | 73%N => Some (case_sensitive f, f <| case_sensitive := true |>)
  | 110%N => Some (count_only f, f <| count_only := true |>)
  | _ => None
  end.

Fixpoint flags_loop (chars : list N) (parsed : SubstituteFlags) : SubstituteError + SubstituteFlags :=
  match chars with
  | [] => validate_flags parsed
  | flag :: chars =>
      match replace_flag flag parsed with
      | None => inl (UnsupportedFlag flag)
      | Some (duplicate, parsed) => if duplicate then inl (DuplicateFlag flag) else flags_loop chars parsed
      end
  end.
Definition parse_flags (flags : list N) : SubstituteError + SubstituteFlags := flags_loop flags SubstituteFlags_default.

(** ** [SubstituteCommand] *)
Definition SubstituteCommand_parse (command : list N) : fallible SubstituteError SubstituteCommand :=
  let? (range, rest) := Some (parse_range command) in
  match strip_prefix [SLASH] rest with
  | None => Some (inl MissingDelimiter)
  | Some rest =>
      let? (pattern, rest) := Some (take_delimited rest []) in
      let? (replacement, tokens, flags_text) := take_replacement_delimited rest [] [] in
      let? flags := Some (parse_flags flags_text) in
      Some (inr (mkCommand range pattern replacement flags tokens))
  end.

Definition SubstituteCommand_from_parts (pattern replacement : list N) (range : SubstituteRange) (flags : SubstituteFlags)
    : fallible SubstituteError SubstituteCommand :=
  let? flags := Some (validate_flags flags) in
  let? tokens := tokenize_literal_replacement replacement in
  Some (inr (mkCommand range pattern replacement flags tokens)).

(** ** Planning *)
Record SubstituteReplacement := mkReplacement {
  replacement_range : MatchRange;
  replacement_removed : list N;
  replacement_text : list N
}.

Record SubstitutePlan := mkPlan {
  replacements : list SubstituteReplacement;
  total_matches : N;
  plan_truncated : bool;
  plan_count_only : bool;
  requires_confirmation : bool
}.

Definition replacement_count (p : SubstitutePlan) : nat := length (replacements p).

Definition validate_text_range (text : list N) (first last : nat) : SubstituteError + unit :=
  if (last <? first) || (length text <? last) then inl RangeOutsideDocument
  else if negb (is_char_boundary text first) || negb (is_char_boundary text last) then inl RangeSplitsCharacter
  else inr tt.

(** The loop of [line_ranges]; it moves on by at least a byte a turn. *)
Fixpoint line_loop (fuel : nat) (text : list N) (start last : nat) : option (list (nat * nat)) :=
  match fuel with
  | O => None
  | S fuel =>
      if start <? last then
        slice ← str_slice text start last;
        match find [LF] slice with
        | Some newline => rest ← line_loop fuel text (start + newline + 1) last; Some ((start, start + newline) :: rest)
        | None => rest ← line_loop fuel text last last; Some ((start, last) :: rest)
        end
      else Some []
  end.

Definition line_ranges (text : list N) (first last : nat) : option (list (nat * nat)) :=
  ranges ← line_loop (S (last - first)) text first last;
  Some (if first =? last then ranges ++ [(first, last)] else ranges).

(** The text of a match in the line that was searched. *)
Definition as_str (line : list N) (m : MatchRange) : list N := take (match_end m - match_start m) (drop (match_start m) line).

Definition token_piece (line : list N) (c : Captures) (token : ReplacementToken) : list N :=
  match token with
  | Literal literal => encode_text literal
  | WholeMatch => from_option (as_str line) [] (capture c 0)
  | CaptureIndex index => from_option (as_str line) [] (capture c index)
  | NamedCapture n => from_option (as_str line) [] (name c n)
  end.

(** The expansion and the bytes planned so far; an addition past [usize] is a
    panic. *)
Fixpoint expand_replacement (tokens : list ReplacementToken) (line : list N) (c : Captures) (limit planned_bytes : N)
    (expanded : list N) : fallible SubstituteError (list N * N) :=
  match tokens with
  | [] => Some (inr (expanded, planned_bytes))
  | token :: tokens =>
      let piece := token_piece line c token in
      planned ← checked_add usize_max planned_bytes (text_length piece);
      if (limit <? planned)%N then Some (inl ReplacementPlanTooLarge)
      else expand_replacement tokens line c limit planned (expanded ++ piece)
  end.

Record ReplacementAccumulator := mkAccumulator { planned_bytes : N; accumulated : list SubstituteReplacement }.

Section Plan.
Context `{Lib : RegexLibrary}.
Context (cmd : SubstituteCommand) (text : list N) (match_limit replacement_byte_limit : N).

Definition accumulator_push (line_start : nat) (line : list N) (c : Captures) (a : ReplacementAccumulator)
    : fallible SubstituteError ReplacementAccumulator :=
  match capture c 0 with
  | None => Some (inr a)
  | Some found =>
      if count_only (flags cmd) then Some (inr a)
      else
        let first := line_start + match_start found in
        let last := line_start + match_end found in
        let? (expanded, planned) := expand_replacement (replacement_tokens cmd) line c replacement_byte_limit (planned_bytes a) [] in
        removed ← str_slice text first last;
        Some (inr (mkAccumulator planned (accumulated a ++ [mkReplacement (mkMatch first last) removed expanded])))
  end.

(** The matches taken from one line; the flag is whether the limit was met,
    which leaves the loop over the lines too. *)
Fixpoint plan_matches (line_start : nat) (line : list N) (found : list Captures) (a : ReplacementAccumulator) (total : N)
    : fallible SubstituteError (ReplacementAccumulator * N * bool) :=
  match found with
  | [] => Some (inr (a, total, false))
  | c :: found =>
      if (total =? match_limit)%N then Some (inr (a, total, true))
      else
        let? a := accumulator_push line_start line c a in
        plan_matches line_start line found a (total + 1)
  end.

Fixpoint plan_lines (r : Regex) (lines : list (nat * nat)) (a : ReplacementAccumulator) (total : N)
    : fallible SubstituteError (ReplacementAccumulator * N * bool) :=
  match lines with
  | [] => Some (inr (a, total, false))
  | (first, last) :: lines =>
      line ← str_slice text first last;
      let found := if global (flags cmd) then captures_iter r line else option_list (captures r line) in
      let? (a, total, truncated) := plan_matches first line found a total in
      if truncated then Some (inr (a, total, true)) else plan_lines r lines a total
  end.

Definition out_of_place (previous next : SubstituteReplacement) : option SubstituteError :=
  let p := replacement_range previous in
  let n := replacement_range next in
  if match_start n <? match_start p then Some PlanOutOfOrder
  else if (match_start n <? match_end p) || ((match_start n =? match_start p) && (match_end n =? match_end p)) then Some PlanOverlaps
  else None.

Fixpoint order_loop (previous : option SubstituteReplacement) (rs : list SubstituteReplacement) : SubstituteError + unit :=
  match rs with
  | [] => inr tt
  | r :: rs =>
      match previous ≫= (fun p => out_of_place p r) with
      | Some e => inl e
      | None => order_loop (Some r) rs
      end
  end.
Definition validate_replacement_order (rs : list SubstituteReplacement) : SubstituteError + unit := order_loop None rs.

Definition target_range (current_line : nat * nat) (visual_selection : option (nat * nat)) : SubstituteError + (nat * nat) :=
  match command_range cmd with
  | CurrentLine => inr current_line
  | WholeDocument => inr (0, length text)
  | VisualSelection => match visual_selection with Some s => inr s | None => inl VisualSelectionUnavailable end
  end.

Definition plan_with_replacement_byte_limit (current_line : nat * nat) (visual_selection : option (nat * nat))
    : fallible SubstituteError SubstitutePlan :=
  let? (first, last) := Some (target_range current_line visual_selection) in
  let? _ := Some (validate_text_range text first last) in
  match compile_with_case (pattern cmd) (case_insensitive (flags cmd)) with
  | None => None
  | Some (inl e) => Some (inl (FromSearchError e))
  | Some (inr r) =>
      lines ← line_ranges text first last;
      let? (a, total, truncated) := plan_lines r lines (mkAccumulator 0 []) 0 in
      let? _ := Some (validate_replacement_order (accumulated a)) in
      Some (inr (mkPlan (accumulated a) total truncated (count_only (flags cmd)) (confirm (flags cmd))))
  end.
End Plan.

Definition plan `{Lib : RegexLibrary} (cmd : SubstituteCommand) (text : list N) (current_line : nat * nat)
    (visual_selection : option (nat * nat)) (limit : N) : fallible SubstituteError SubstitutePlan :=
  plan_with_replacement_byte_limit cmd text limit DEFAULT_REPLACEMENT_BYTE_LIMIT current_line visual_selection.

Section Edits.
Context `{A : Allocator}.

(** [SubstitutePlan::to_text_edits]. *)
Definition to_text_edit (text : list N) (r : SubstituteReplacement) : fallible SubstituteError TextEdit :=
  let m := replacement_range r in
  let? _ := Some (validate_text_range text (match_start m) (match_end m)) in
  current ← str_slice text (match_start m) (match_end m);
  if beq current (replacement_removed r)
  then Some (inr (owned_edit (match_start m) (replacement_removed r) (replacement_text r)))
  else Some (inl PlanIsStale).

Fixpoint collect_edits (text : list N) (rs : list SubstituteReplacement) : fallible SubstituteError (list TextEdit) :=
  match rs with
  | [] => Some (inr [])
  | r :: rs =>
      let? e := to_text_edit text r in
      let? es := collect_edits text rs in
      Some (inr (e :: es))
  end.
Definition to_text_edits (p : SubstitutePlan) (text : list N) : fallible SubstituteError (list TextEdit) :=
  collect_edits text (replacements p).
End Edits.
