(* ===== verification/SubstituteSpec.v ===== *)
(** * A substitution is one undoable edit

    From the text of a command to the document it leaves: parsing ends, a plan
    never fails its own ordering check, its edits fit the text it was made
    for, and applying them gives the line-by-line substitution, which one undo
    takes back. *)

From Stdlib Require Import NArith Bool.
From S2P Require Import Prelude Cell Utf8 Str StrSpec Undo UndoInv Document EditSpec DocumentInv DocumentSpec Search SearchSpec Pattern PatternSpec Substitute.

(** ** What parsing keeps *)
Definition is_chars (cs : list N) : Prop := Forall (fun c => scalar c = true) cs.

Definition token_chars (tok : ReplacementToken) : list N := match tok with Literal cs => cs | _ => [] end.
Definition tokens_size (toks : list ReplacementToken) : nat := sum_list (map (fun tok => length (token_chars tok)) toks).

(** The literals are text, of at most [n] characters in all. *)
Definition tokens_ok (n : nat) (toks : list ReplacementToken) : Prop :=
  Forall (fun tok => is_chars (token_chars tok)) toks /\ tokens_size toks <= n.

Lemma tokens_size_app a b : tokens_size (a ++ b) = tokens_size a + tokens_size b.
Proof. unfold tokens_size. by rewrite map_app, sum_list_with_app || (induction a; cbn in *; lia). Qed.

Lemma last_split {A} (l : list A) x : list.last l = Some x -> l = take (length l - 1) l ++ [x].
Proof.
  intros H. destruct l as [|y l _] using rev_ind; [done|]. rewrite last_snoc in H. injection H as ->.
  rewrite length_app, Nat.add_sub, take_app_length. done.
Qed.

Lemma push_literal_ok n m toks cs :
  tokens_ok n toks -> is_chars cs -> length cs <= m -> tokens_ok (n + m) (push_literal toks cs).
Proof.
  intros [Ht Hn] Hc Hm. destruct cs as [|c cs]; [cbn [push_literal]; split; [done|lia]|]. cbn [push_literal]. set (lit := c :: cs) in *.
  assert (tokens_ok (n + m) (toks ++ [Literal lit])) as Hpush.
  { split; [apply Forall_app_2; [done|by apply Forall_singleton]|]. rewrite tokens_size_app. cbn in *. lia. }
  destruct (list.last toks) as [[previous| | |]|] eqn:E; try exact Hpush.
  rewrite (last_split _ _ E) in Ht, Hn. apply Forall_app in Ht as [Ht Hl]. apply Forall_cons_iff in Hl as [Hl _].
  rewrite tokens_size_app in Hn. split.
  - apply Forall_app_2; [done|]. apply Forall_singleton. by apply Forall_app_2.
  - rewrite tokens_size_app. cbn in *. rewrite length_app. cbn. lia.
Qed.

Lemma push_token_ok n toks tok : tokens_ok n toks -> token_chars tok = [] -> tokens_ok n (toks ++ [tok]).
Proof.
  intros [Ht Hn] E. split; [apply Forall_app_2; [done|]; repeat constructor; rewrite E; constructor|].
  rewrite tokens_size_app. cbn. rewrite E. cbn. lia.
Qed.

(** A step of the tokeniser leaves the characters [rest]. *)
Definition collected (n : nat) (r : SubstituteError + (list N * list ReplacementToken * list N)) (before : list N) : Prop :=
  match r with
  | inl _ => True
  | inr (rest, toks, lit) => length rest <= length before /\ is_chars rest /\ is_chars lit /\
      exists a b, tokens_ok a toks /\ length lit <= b /\ a + b + length rest <= n
  end.

Lemma ascii_scalar c : (c < 128)%N -> scalar c = true.
Proof. intros H. unfold scalar. destruct (N.ltb_spec c 55296); [|lia]. done. Qed.

Lemma parse_backslash_keeps n before toks lit mode a :
  is_chars before -> is_chars lit -> tokens_ok a toks -> a + length lit + S (length before) <= n ->
  collected n (parse_backslash_replacement before toks lit mode) before.
Proof.
  intros Hb Hl Ht Hn. unfold parse_backslash_replacement. assert (scalar BACKSLASH = true) as Hbs by (by apply ascii_scalar).
  destruct before as [|ch rest].
  { cbn. split_and!; [lia|done|apply Forall_app_2; [done|by apply Forall_singleton]|]. exists a, (S (length lit)).
    rewrite length_app. cbn in *. split_and!; [done|lia|lia]. }
  apply Forall_cons_iff in Hb as [Hc Hb]. cbn [length] in Hn.
  assert (forall x, is_chars x -> length x <= 2 -> collected n (inr (rest, toks, lit ++ x)) (ch :: rest)) as Hcopy.
  { intros x Hx Hx2. cbn. split_and!; [lia|done|by apply Forall_app_2|]. exists a, (length lit + 2). rewrite length_app.
    split_and!; [done|lia|lia]. }
  repeat case_match; try done; try (apply Hcopy; [by repeat constructor|cbn; lia]).
  cbn. split_and!; [lia|done|constructor|]. exists (a + length lit), 0. split_and!; [|cbn; lia|lia].
  apply push_token_ok; [by apply push_literal_ok|done].
Qed.

Lemma take_digits_rest chars : forall number, is_chars chars ->
  length (take_digits chars number).2 <= length chars /\ is_chars (take_digits chars number).2.
Proof.
  induction chars as [|ch chars IH]; intros number H; cbn; [by split|]. destruct (is_ascii_digit ch); [|by split].
  apply Forall_cons_iff in H as [_ H]. destruct (IH (number ++ [ch]) H). split; [lia|done].
Qed.

Lemma take_name_rest chars : forall name out rest, is_chars chars -> take_name chars name = Some (out, rest) ->
  length rest <= length chars /\ is_chars rest.
Proof.
  induction chars as [|ch chars IH]; intros name out rest H; cbn; [done|]. apply Forall_cons_iff in H as [_ H].
  case_match; [intros [= _ <-]; split; [cbn; lia|done]|]. intros E. destruct (IH _ _ _ H E). split; [cbn; lia|done].
Qed.

Lemma parse_dollar_keeps n before toks lit a :
  is_chars before -> is_chars lit -> tokens_ok a toks -> a + length lit + S (length before) <= n ->
  collected n (parse_dollar_replacement before toks lit) before.
Proof.
  intros Hb Hl Ht Hn. unfold parse_dollar_replacement.
  assert (collected n (inr (before, toks, lit ++ [36%N])) before) as Hcopy.
  { cbn. split_and!; [lia|done|apply Forall_app_2; [done|by apply Forall_singleton]|]. exists a, (S (length lit)). rewrite length_app. cbn.
    split_and!; [done|lia|lia]. }
  assert (forall rest tok, length rest <= length before -> is_chars rest -> token_chars tok = [] ->
    collected n (inr (rest, push_literal toks lit ++ [tok], [])) before) as Hpush.
  { intros rest tok Hlen Hr E. cbn. split_and!; [lia|done|constructor|]. exists (a + length lit), 0.
    split_and!; [|cbn; lia|lia]. apply push_token_ok; [by apply push_literal_ok|done]. }
  destruct before as [|ch rest]; [exact Hcopy|]. destruct (is_ascii_digit ch).
  - destruct (take_digits_rest (ch :: rest) [] Hb) as [H1 H2]. destruct (take_digits (ch :: rest) []) as [number left_].
    destruct (parse_usize number); [by apply Hpush|done].
  - destruct (ch =? 123)%N; [|exact Hcopy]. apply Forall_cons_iff in Hb as [_ Hb].
    destruct (take_name rest []) as [[nm left_]|] eqn:E; [|done]. destruct (take_name_rest _ _ _ _ Hb E).
    apply Hpush; [cbn; lia|done|done].
Qed.

Definition tokens_result (n : nat) (r : fallible SubstituteError (list ReplacementToken)) : Prop :=
  match r with None => False | Some (inl _) => True | Some (inr toks) => tokens_ok n toks end.

Lemma tokenize_ends n mode fuel : forall chars toks lit a,
  length chars < fuel -> is_chars chars -> is_chars lit -> tokens_ok a toks -> a + length lit + length chars <= n ->
  tokens_result n (tokenize_loop fuel chars toks lit mode).
Proof.
  induction fuel as [|fuel IH]; intros chars toks lit a Hf Hc Hl Ht Hn; [lia|]. cbn [tokenize_loop].
  destruct chars as [|ch chars].
  { cbn in *. destruct (push_literal_ok a (length lit) toks lit Ht Hl ltac:(lia)). split; [done|lia]. }
  apply Forall_cons_iff in Hc as [Hch Hc]. cbn [length] in *.
  assert (forall r, collected n r chars -> tokens_result n (let? (chars, toks, lit) := Some r in tokenize_loop fuel chars toks lit mode)) as Hgo.
  { intros [e|[[rest toks'] lit']]; [done|]. intros (H1 & H2 & H3 & a' & b & H4 & H5 & H6). apply (IH rest toks' lit' a'); (done || lia). }
  destruct (ch =? BACKSLASH)%N; [by apply Hgo, (parse_backslash_keeps _ _ _ _ _ a)|].
  destruct (ch =? 38)%N; [|destruct (ch =? 36)%N; [by apply Hgo, (parse_dollar_keeps _ _ _ _ a)|]].
  - apply (IH _ _ _ (a + length lit)); [lia|done|constructor| |cbn; lia]. apply push_token_ok; [by apply push_literal_ok|done].
  - apply (IH _ _ _ a); [lia|done|apply Forall_app_2; [done|by apply Forall_singleton]|done|]. rewrite length_app. cbn. lia.
Qed.

Lemma take_replacement_ends input : forall display source,
  is_chars input -> is_chars source ->
  match take_replacement_delimited input display source with
  | None => False
  | Some (inl _) => True
  | Some (inr (_, toks, _)) => tokens_ok (length source + length input) toks
  end.
Proof.
  induction input as [input IH] using (induction_ltof1 _ (@length N)); unfold ltof in IH. intros display source Hi Hs.
  destruct input as [|ch rest]; [done|]. cbn [take_replacement_delimited]. apply Forall_cons_iff in Hi as [Hc Hi].
  assert (forall x y z, length y < S (length rest) -> is_chars y -> is_chars z -> length z + length y <= S (length rest) ->
    match take_replacement_delimited y x (source ++ z) with
    | None => False | Some (inl _) => True | Some (inr (_, toks, _)) => tokens_ok (length source + S (length rest)) toks end) as Hgo.
  { intros x y z Hl Hy Hz Hle. specialize (IH y Hl x (source ++ z) Hy (Forall_app_2 _ _ _ Hs Hz)). rewrite length_app in IH.
    destruct (take_replacement_delimited _ _ _) as [[e|[[? toks] ?]]|]; [done| |done]. destruct IH. split; [done|lia]. }
  cbn [length]. destruct (ch =? SLASH)%N.
  { pose proof (tokenize_ends (length source) OneLiteralBackslash (S (length source)) source [] [] 0) as H.
    unfold tokenize_command_replacement, tokenize_replacement. cbn [length] in H.
    specialize (H ltac:(lia) Hs (Forall_nil_2 _) (conj (Forall_nil_2 _) (le_n 0)) ltac:(lia)).
    destruct (tokenize_loop _ _ _ _ _) as [[e|toks]|]; [done| |done]. destruct H. split; [done|lia]. }
  assert (is_chars [BACKSLASH]) as Hb by (by apply Forall_singleton, ascii_scalar).
  assert (is_chars [SLASH]) as Hsl by (by apply Forall_singleton, ascii_scalar).
  destruct (ch =? BACKSLASH)%N; [|apply Hgo; [lia|done|by apply Forall_singleton|cbn; lia]].
  destruct rest as [|next rest]; [apply Hgo; [cbn; lia|done|done|cbn; lia]|]. pose proof Hi as Hi'. apply Forall_cons_iff in Hi' as [_ Hr].
  destruct (next =? SLASH)%N; [apply Hgo; [cbn; lia|done|done|cbn; lia]|].
  destruct (next =? BACKSLASH)%N; [|apply Hgo; [cbn; lia|done|done|cbn; lia]].
  apply Hgo; [cbn; lia|done|by apply (Forall_app_2 _ [BACKSLASH])|cbn; lia].
Qed.

Lemma take_delimited_rest input : forall field out rest,
  is_chars input -> take_delimited input field = inr (out, rest) -> is_chars rest /\ length rest <= length input.
Proof.
  induction input as [input IH] using (induction_ltof1 _ (@length N)); unfold ltof in IH. intros field out rest Hi.
  destruct input as [|ch chars]; [done|]. cbn [take_delimited]. apply Forall_cons_iff in Hi as [_ Hi].
  assert (forall y x, length y <= length chars -> is_chars y -> take_delimited y x = inr (out, rest) ->
    is_chars rest /\ length rest <= length (ch :: chars)) as Hgo.
  { intros y x Hl Hy E. destruct (IH y ltac:(cbn; lia) x out rest Hy E). split; [done|cbn; lia]. }
  destruct (ch =? SLASH)%N; [intros [= _ <-]; split; [done|cbn; lia]|]. destruct (ch =? BACKSLASH)%N; [|by apply Hgo].
  destruct chars as [|escaped rest']; [by apply Hgo|]. pose proof Hi as Hi'. apply Forall_cons_iff in Hi' as [_ Hr].
  destruct (_ || _); apply Hgo; (done || cbn; lia).
Qed.

Lemma strip_prefix_rest p t rest : is_chars t -> strip_prefix p t = Some rest -> is_chars rest /\ length rest <= length t.
Proof.
  unfold strip_prefix. case_match; [|done]. intros Ht [= <-]. split; [by apply Forall_drop|]. rewrite length_drop. lia.
Qed.

Lemma parse_range_rest command range rest :
  is_chars command -> parse_range command = inr (range, rest) -> is_chars rest /\ length rest <= length command.
Proof.
  unfold parse_range. intros Hc. repeat case_match; try done; intros [= _ <-]; by eapply strip_prefix_rest.
Qed.

(** Parsing a command ends, and its literals are part of the command. *)
Lemma parse_ends command : is_chars command ->
  exists r, SubstituteCommand_parse command = Some r /\ forall cmd, r = inr cmd -> tokens_ok (length command) (replacement_tokens cmd).
Proof.
  intros Hc. unfold SubstituteCommand_parse. destruct (parse_range command) as [e|[range rest]] eqn:E1; [by eexists|].
  destruct (parse_range_rest _ _ _ Hc E1) as [H1 L1]. destruct (strip_prefix [SLASH] rest) as [rest2|] eqn:E2; [|by eexists].
  destruct (strip_prefix_rest _ _ _ H1 E2) as [H2 L2]. destruct (take_delimited rest2 []) as [e|[pat rest3]] eqn:E3; [by eexists|].
  destruct (take_delimited_rest _ _ _ _ H2 E3) as [H3 L3]. pose proof (take_replacement_ends rest3 [] [] H3 (Forall_nil_2 _)) as H4.
  destruct (take_replacement_delimited rest3 [] []) as [[e|[[rep toks] ftext]]|]; [by eexists| |done].
  destruct (parse_flags ftext) as [e|f]; [by eexists|]. eexists. split; [done|]. intros cmd [= <-]. cbn in *. destruct H4. split; [done|lia].
Qed.

(** ** The engine

    What the library documents of its matches: [captures] is the first of
    [captures_iter], every match has a group [0], these are in order and do
    not overlap, and every group lies on character boundaries of the text. *)
Class RegexLaws (Lib : RegexLibrary) : Prop := {
  law_first r t : captures r t = head (captures_iter r t);
  law_whole r t : exists ms, map (fun c => capture c 0) (captures_iter r t) = map Some ms /\ in_order ms;
  law_groups r t c m : valid_str t -> c ∈ captures_iter r t ->
    (exists i, capture c i = Some m) \/ (exists n, name c n = Some m) -> valid_match t m = true
}.

(** ** The substitution, line by line *)
Section Reference.
Context `{Lib : RegexLibrary}.
Context (cmd : SubstituteCommand) (r : Regex).

Definition found_in (line : list N) : list Captures :=
  if global (flags cmd) then captures_iter r line else option_list (captures r line).

Definition expansion (line : list N) (c : Captures) : list N := concat (map (token_piece line c) (replacement_tokens cmd)).

(** The line from [cursor] on, with each match replaced. *)
Fixpoint replace_matches (line : list N) (cursor : nat) (found : list Captures) : list N :=
  match found with
  | [] => drop cursor line
  | c :: found =>
      match capture c 0 with
      | None => replace_matches line cursor found
      | Some m => take (match_start m - cursor) (drop cursor line) ++ expansion line c ++ replace_matches line (match_end m) found
      end
  end.

(** The lines of a range, each with its line feed; an empty range is one
    empty line. *)
Definition range_lines (s : list N) : list (list N) := match s with [] => [[]] | _ => split_inclusive s end.
Definition line_body (l : list N) : list N := default l (strip_suffix LF l).

(** At most [budget] matches are replaced. *)
Fixpoint substitute_lines (budget : nat) (lines : list (list N)) : list N :=
  match lines with
  | [] => []
  | l :: lines =>
      let found := found_in (line_body l) in
      replace_matches (line_body l) 0 (take budget found) ++ drop (length (line_body l)) l
        ++ substitute_lines (budget - length found) lines
  end.

Definition match_count (lines : list (list N)) : nat := sum_list (map (fun l => length (found_in (line_body l))) lines).

Definition substituted (text : list N) (first last : nat) (limit : N) : list N :=
  let s := take (last - first) (drop first text) in
  take first text
    ++ (if count_only (flags cmd) then s else substitute_lines (N.to_nat limit) (range_lines s))
    ++ drop last text.
End Reference.

(** ** Lists of ranges *)
Lemma in_order_app l1 l2 :
  in_order l1 -> in_order l2 ->
  (forall x y, x ∈ l1 -> y ∈ l2 -> match_end x <= match_start y /\ match_start x < match_start y) -> in_order (l1 ++ l2).
Proof.
  induction l1 as [|x l1 IH]; [done|]. intros H1 H2 Hb. destruct l1 as [|y l1].
  - destruct l2 as [|y l2]; [done|]. destruct (Hb x y); [by left|by left|]. cbn. by split_and!.
  - destruct H1 as (Ha & Hc & H1). split_and!; [done|done|]. apply IH; [done|done|]. intros u v Hu. apply Hb. by right.
Qed.

Definition shift (o : nat) (m : MatchRange) : MatchRange := mkMatch (o + match_start m) (o + match_end m).

Lemma in_order_shift o ms : in_order ms -> in_order (map (shift o) ms).
Proof. induction ms as [|m [|m' ms] IH]; [done|done|]. intros (H1 & H2 & H3). cbn in *. split_and!; [lia|lia|by apply IH]. Qed.

Lemma order_loop_ok rs : forall previous,
  in_order (map replacement_range (option_list previous ++ rs)) -> order_loop previous rs = inr tt.
Proof.
  induction rs as [|r rs IH]; intros previous H; [done|]. cbn [order_loop].
  assert (previous ≫= (fun p => out_of_place p r) = None) as ->.
  { destruct previous as [p|]; [|done]. destruct H as (H1 & H2 & _). cbn [mbind option_bind]. unfold out_of_place.
    rewrite (proj2 (Nat.ltb_ge _ _)), (proj2 (Nat.ltb_ge _ _)), (proj2 (Nat.eqb_neq _ _)) by lia. done. }
  apply (IH (Some r)). cbn. destruct previous as [p|]; [by destruct H as (_ & _ & H)|done].
Qed.

(** ** Lines *)
Lemma split_inclusive_none s : find [LF] s = None -> s <> [] -> split_inclusive s = [s] /\ strip_suffix LF s = None.
Proof.
  induction s as [|b s IH]; [done|]. cbn [find starts_with split_inclusive]. rewrite andb_true_r.
  destruct (N.eqb_spec LF b) as [->|Hb]; [done|]. rewrite (proj2 (N.eqb_neq b LF)) by done. intros E _.
  destruct (find [LF] s) as [i|] eqn:Ef; [done|]. destruct s as [|c s].
  - cbn. unfold strip_suffix. cbn. by rewrite (proj2 (N.eqb_neq b LF)).
  - destruct (IH eq_refl ltac:(done)) as [-> H]. split; [done|]. unfold strip_suffix in *. rewrite last_cons_cons.
    destruct (list.last (c :: s)); [|done]. by destruct (n =? LF)%N.
Qed.

Lemma split_inclusive_some s i : find [LF] s = Some i ->
  s = take i s ++ [LF] ++ drop (i + 1) s /\ i + 1 <= length s /\ length (take i s) = i /\
  split_inclusive s = (take i s ++ [LF]) :: split_inclusive (drop (i + 1) s) /\ strip_suffix LF (take i s ++ [LF]) = Some (take i s).
Proof.
  revert i. induction s as [|b s IH]; intros i; [done|]. cbn [find starts_with split_inclusive]. rewrite andb_true_r.
  destruct (N.eqb_spec LF b) as [<-|Hb].
  { intros [= <-]. cbn. rewrite ?drop_0. split_and!; [done|lia|done|done|]. done. }
  rewrite (proj2 (N.eqb_neq b LF)) by done. destruct (find [LF] s) as [j|]; [|done]. intros [= <-].
  destruct (IH j eq_refl) as (E & Hl & Ht & Es & _). cbn. rewrite Es. split_and!; [by f_equal|lia|by rewrite Ht|done|].
  change (b :: take j s ++ [LF]) with ((b :: take j s) ++ [LF]). unfold strip_suffix. rewrite last_snoc, N.eqb_refl.
  by rewrite length_app, Nat.add_sub, take_app_length.
Qed.

(** The byte ranges of consecutive lines from [o] on. *)
Fixpoint ranges_from (o : nat) (lines : list (list N)) : list (nat * nat) :=
  match lines with
  | [] => []
  | l :: lines => (o, o + length (line_body l)) :: ranges_from (o + length l) lines
  end.

Lemma line_loop_ranges text fuel : forall a s b,
  text = a ++ s ++ b -> valid_str a -> valid_str s -> valid_str b -> length s < fuel ->
  line_loop fuel text (length a) (length a + length s) = Some (ranges_from (length a) (split_inclusive s)).
Proof.
  induction fuel as [|fuel IH]; intros a s b Et Ha Hs Hb Hf; [lia|]. cbn [line_loop].
  destruct (Nat.ltb_spec (length a) (length a + length s)) as [Hlt|Hge]; [|by destruct s; [|cbn in Hge; lia]].
  rewrite Et at 1. rewrite str_slice_app by done. cbn [mbind option_bind]. destruct (find [LF] s) as [i|] eqn:E.
  - destruct (split_inclusive_some _ _ E) as (Es & Hi & Hti & Esp & Est).
    set (x := take i s) in *. set (y := drop (i + 1) s) in *. rewrite Esp. cbn [ranges_from]. unfold line_body. rewrite Est. cbn [default].
    destruct (valid_occurrence x [LF] y) as [Vx Vy]; [by rewrite <- Es|by apply valid_ascii|done|].
    assert (length (a ++ x ++ [LF]) = length a + i + 1) as Hlen by (rewrite !length_app; cbn; lia).
    pose proof (IH (a ++ x ++ [LF]) y b) as IH'. rewrite Hlen in IH'.
    replace (length a + i + 1 + length y) with (length a + length s) in IH' by (unfold y; rewrite length_drop; lia).
    rewrite IH'.
    + cbn [mbind option_bind]. change (id x) with x. rewrite length_app, Hti. cbn [length]. by rewrite Nat.add_assoc.
    + rewrite Et, Es. by rewrite <- !app_assoc.
    + apply valid_app; [done|]. apply valid_app; [done|by apply valid_ascii].
    + done.
    + done.
    + unfold y. rewrite length_drop. lia.
  - destruct (split_inclusive_none _ E) as [-> Est]; [intros ->; cbn in Hlt; lia|].
    destruct fuel as [|fuel]; [lia|]. cbn [line_loop]. rewrite Nat.ltb_irrefl. cbn [mbind option_bind ranges_from]. unfold line_body. by rewrite Est.
Qed.

Lemma line_ranges_spec text a s b :
  text = a ++ s ++ b -> valid_str a -> valid_str s -> valid_str b ->
  line_ranges text (length a) (length a + length s) = Some (ranges_from (length a) (range_lines s)).
Proof.
  intros Et Ha Hs Hb. unfold line_ranges. rewrite (line_loop_ranges text _ a s b) by (done || lia). cbn [mbind option_bind].
  destruct s as [|c s]; cbn [length]; [rewrite Nat.add_0_r, Nat.eqb_refl; cbn; by rewrite Nat.add_0_r|]. rewrite (proj2 (Nat.eqb_neq _ _)) by lia. done.
Qed.

Lemma range_lines_concat s : concat (range_lines s) = s.
Proof.
  destruct s as [|c s]; [done|]. unfold range_lines. generalize (c :: s). clear. intros t. induction t as [|b t IH]; [done|]. cbn.
  destruct (b =? LF)%N; cbn; [by rewrite IH|]. destruct (split_inclusive t) as [|l ls]; cbn in *; by rewrite <- IH.
Qed.

(** ** One plan *)
Lemma patches_app o es1 s1 t1 es2 s2 t2 :
  patches o es1 s1 t1 -> patches (o + length s1) es2 s2 t2 -> patches o (es1 ++ es2) (s1 ++ s2) (t1 ++ t2).
Proof.
  induction 1 as [o rest Hr|o e es u rest rest' Ho Hu Hrm Hi Hp IH]; intros H2; [by apply patches_shift|].
  rewrite <- !app_assoc. cbn [app]. apply patches_cons; [done..|]. apply IH. rewrite !length_app in H2.
  by replace (o + length u + length (removed e) + length rest) with (o + (length u + (length (removed e) + length rest))) by lia.
Qed.

Section Planned.
Context `{A : Allocator} (text : list N).

Definition edit_of (rp : SubstituteReplacement) : TextEdit :=
  owned_edit (match_start (replacement_range rp)) (replacement_removed rp) (replacement_text rp).

(** The replacements [rs] turn [s], which starts at [o] in the text, into [t]. *)
Record planned (o : nat) (rs : list SubstituteReplacement) (s t : list N) : Prop := mk_planned {
  pl_patches : patches o (map edit_of rs) s t;
  pl_removed : Forall (fun rp => str_slice text (match_start (replacement_range rp)) (match_end (replacement_range rp))
                                 = Some (replacement_removed rp)) rs;
  pl_order : in_order (map replacement_range rs);
  pl_within : Forall (fun rp => o <= match_start (replacement_range rp) /\ match_start (replacement_range rp) <= o + length s /\
                                match_end (replacement_range rp) <= o + length s) rs
}.

Lemma planned_nil o s : valid_str s -> planned o [] s s.
Proof using. intros H. split; [by apply patches_nil|constructor|done|constructor]. Qed.

(** Two parts with a gap between them; a gap of nothing has nothing after it. *)
Lemma planned_app o rs1 s1 t1 gap rs2 s2 t2 :
  planned o rs1 s1 t1 -> valid_str gap -> planned (o + length s1 + length gap) rs2 s2 t2 -> gap <> [] \/ rs2 = [] ->
  planned o (rs1 ++ rs2) (s1 ++ gap ++ s2) (t1 ++ gap ++ t2).
Proof using.
  intros [P1 R1 O1 W1] Hg [P2 R2 O2 W2] Hgap. split.
  - rewrite map_app. eapply patches_app; [exact P1|]. by apply patches_shift.
  - by apply Forall_app_2.
  - rewrite map_app. apply in_order_app; [done..|]. intros x y Hx Hy.
    apply list_elem_of_fmap in Hx as (p & -> & Hp). apply list_elem_of_fmap in Hy as (q & -> & Hq).
    rewrite list.Forall_forall in W1, W2. specialize (W1 p Hp). specialize (W2 q Hq). cbn in W1, W2.
    destruct Hgap as [Hgap| ->]; [|by apply elem_of_nil in Hq]. destruct gap; [done|]. cbn [length] in *. lia.
  - apply Forall_app_2; (eapply list.Forall_impl; [eassumption|]); cbn; intros rp; rewrite !length_app; lia.
Qed.

End Planned.

Section Planning.
Context `{A : Allocator} `{Lib : RegexLibrary} `{Laws : !RegexLaws Lib}.
Context (cmd : SubstituteCommand) (text : list N) (match_limit byte_limit : N).
Context (Htoks : Forall (fun tok => is_chars (token_chars tok)) (replacement_tokens cmd)).
Context (Hsize : Forall (fun tok => (text_length (encode_text (token_chars tok)) <= memory_limit)%N) (replacement_tokens cmd)).
Context (Hlimit : (byte_limit <= memory_limit)%N) (Htext : (text_length text <= memory_limit)%N) (Hvalid : valid_str text).

Lemma token_piece_fits line c tok :
  tok ∈ replacement_tokens cmd -> (text_length line <= memory_limit)%N -> (text_length (token_piece line c tok) <= memory_limit)%N.
Proof using Hsize Hlimit Htext.
  intros Ht Hl. rewrite list.Forall_forall in Hsize. specialize (Hsize tok Ht).
  assert (forall o, (text_length (from_option (as_str line) [] o) <= memory_limit)%N) as Hcap.
  { intros [m|]; cbn; [|by unfold text_length, memory_limit]. unfold as_str, text_length in *. rewrite length_take, length_drop. lia. }
  destruct tok; cbn in *; [done|apply Hcap..].
Qed.

Lemma expand_spec line c toks : forall n out,
  toks ⊆ replacement_tokens cmd -> (text_length line <= memory_limit)%N -> (n <= byte_limit)%N ->
  expand_replacement toks line c byte_limit n out = Some (inl ReplacementPlanTooLarge) \/
  exists new, new = concat (map (token_piece line c) toks) /\ (n + text_length new <= byte_limit)%N /\
    expand_replacement toks line c byte_limit n out = Some (inr (out ++ new, (n + text_length new)%N)).
Proof using Hsize Hlimit Htext.
  induction toks as [|tok toks IH]; intros n out Hin Hl Hn; cbn [expand_replacement].
  { right. exists []. cbn. rewrite N.add_0_r, app_nil_r. by split_and!. }
  pose proof (token_piece_fits line c tok ltac:(apply Hin; by left) Hl) as Hp. unfold checked_add.
  rewrite (proj2 (N.leb_le _ _)) by (unfold memory_limit, usize_max in *; lia). cbn [mbind option_bind].
  destruct (N.ltb_spec byte_limit (n + text_length (token_piece line c tok))) as [|Hle]; [by left|].
  destruct (IH (n + text_length (token_piece line c tok))%N (out ++ token_piece line c tok)) as [E|(new & -> & Hb & E)]; [|done|done| |].
  { intros x Hx. apply Hin. by right. }
  { by left. }
  right. eexists. split; [done|]. cbn [map concat]. rewrite E. unfold text_length in *. rewrite length_app, <- app_assoc.
  split; [lia|]. by rewrite Nat2N.inj_add, N.add_assoc.
Qed.

Lemma token_piece_valid line c tok :
  valid_str line -> (forall m, (exists i, capture c i = Some m) \/ (exists n, name c n = Some m) -> valid_match line m = true) ->
  tok ∈ replacement_tokens cmd -> valid_str (token_piece line c tok).
Proof using Htoks.
  intros Hl Hm Ht. rewrite list.Forall_forall in Htoks. specialize (Htoks tok Ht).
  assert (forall o, (forall m, o = Some m -> valid_match line m = true) -> valid_str (from_option (as_str line) [] o)) as Hcap.
  { intros [m|] Ho; cbn; [|apply valid_nil]. specialize (Ho m eq_refl). unfold valid_match in Ho. rewrite !andb_true_iff, !Nat.leb_le in Ho.
    destruct Ho as [[[H1 H2] H3] H4]. destruct (str_split line _ _ Hl H3 H4 H1) as (a & u & b & _ & _ & _ & Es & _ & Vu & _).
    unfold str_slice in Es. case_match; [|done]. injection Es as <-. done. }
  destruct tok; cbn in *; [by eexists|apply Hcap; eauto..].
Qed.

Lemma expansion_valid line c :
  valid_str line -> (forall m, (exists i, capture c i = Some m) \/ (exists n, name c n = Some m) -> valid_match line m = true) ->
  valid_str (expansion cmd line c).
Proof using Htoks.
  intros Hl Hm. unfold expansion. pose proof (fun tok => token_piece_valid line c tok Hl Hm) as Hp. revert Hp.
  generalize (replacement_tokens cmd). intros toks Hp. induction toks as [|tok toks IH]; cbn; [apply valid_nil|].
  apply valid_app; [apply Hp; by left|]. apply IH. intros x Hx. apply Hp. by right.
Qed.

Definition groups_valid (line : list N) (c : Captures) : Prop :=
  forall m, (exists i, capture c i = Some m) \/ (exists n, name c n = Some m) -> valid_match line m = true.

(** The parts of the line around a match. *)
Lemma match_split line m : valid_str line -> valid_match line m = true ->
  exists x u y, line = x ++ u ++ y /\ match_start m = length x /\ match_end m = length x + length u /\
    as_str line m = u /\ valid_str x /\ valid_str u /\ valid_str y.
Proof using.
  intros Hl Hm. unfold valid_match in Hm. rewrite !andb_true_iff, !Nat.leb_le in Hm. destruct Hm as [[[H1 H2] H3] H4].
  destruct (str_split line _ _ Hl H3 H4 H1) as (x & u & y & -> & Hx & Hu & _ & Vx & Vu & Vy). exists x, u, y.
  split_and!; try done. unfold as_str. rewrite <- Hx, <- Hu, drop_app_length, Nat.add_comm, Nat.add_sub. apply take_app_length.
Qed.

(** What the matches of a line add: the replacements and their size. *)
Definition added (a a' : ReplacementAccumulator) (rs : list SubstituteReplacement) : Prop :=
  accumulated a' = accumulated a ++ rs /\
  planned_bytes a' = (planned_bytes a + total_length (map replacement_text rs))%N /\ (planned_bytes a' <= byte_limit)%N.

Lemma added_trans a a' a'' rs rs' : added a a' rs -> added a' a'' rs' -> added a a'' (rs ++ rs').
Proof using.
  intros (E & P & _) (E' & P' & B'). split_and!; [by rewrite E', E, app_assoc| |done]. rewrite P', P, map_app, <- N.add_assoc. f_equal.
  clear. induction rs as [|rp rs IH]; cbn; [done|]. unfold total_length in *. lia.
Qed.

Section Line.
Context (pre line post : list N) (Et : text = pre ++ line ++ post).
Context (Hpre : valid_str pre) (Hline : valid_str line) (Hpost : valid_str post).

Lemma push_spec c m a :
  capture c 0 = Some m -> groups_valid line c -> (planned_bytes a <= byte_limit)%N -> count_only (flags cmd) = false ->
  accumulator_push cmd text byte_limit (length pre) line c a = Some (inl ReplacementPlanTooLarge) \/
  exists a' u, accumulator_push cmd text byte_limit (length pre) line c a = Some (inr a') /\
    u = as_str line m /\ str_slice text (length pre + match_start m) (length pre + match_end m) = Some u /\
    added a a' [mkReplacement (shift (length pre) m) u (expansion cmd line c)].
Proof using Hsize Hlimit Htext Et Hpre Hline Hpost.
  intros E Hg Hb Hco. unfold accumulator_push. rewrite E, Hco.
  assert (text_length line <= memory_limit)%N as Hl by (rewrite Et in Htext; unfold text_length in *; rewrite !length_app in Htext; lia).
  destruct (expand_spec line c (replacement_tokens cmd) (planned_bytes a) [] ltac:(done) Hl Hb) as [->|(new & -> & Hn & ->)]; [by left|].
  destruct (match_split line m Hline ltac:(apply Hg; eauto)) as (x & u & y & El & Hs & He & Ea & Vx & Vu & Vy).
  assert (str_slice text (length pre + match_start m) (length pre + match_end m) = Some u) as Es.
  { rewrite Et, El, Hs, He, <- !app_assoc, (app_assoc pre), Nat.add_assoc, <- length_app. apply str_slice_app; [done|by apply valid_app]. }
  right. rewrite Es. cbn [mbind option_bind]. eexists _, u. split_and!; [done..|].
  split_and!; [done| |done]. cbn. by rewrite N.add_0_r.
Qed.

Lemma planned_cons cursor m u c rs s t :
  valid_match line m = true -> groups_valid line c -> is_char_boundary line cursor = true -> cursor <= match_start m ->
  u = as_str line m -> str_slice text (length pre + match_start m) (length pre + match_end m) = Some u ->
  s = drop (match_end m) line -> planned text (length pre + match_end m) rs s t ->
  in_order (shift (length pre) m :: map replacement_range rs) ->
  planned text (length pre + cursor) (mkReplacement (shift (length pre) m) u (expansion cmd line c) :: rs) (drop cursor line)
    (take (match_start m - cursor) (drop cursor line) ++ expansion cmd line c ++ t).
Proof using Htoks Hline Hlimit Htext.
  intros Hm Hg Hcur Hle Eu Es -> [P R O W] Ho.
  destruct (match_split line m Hline Hm) as (x & v & y & El & Hs & He & Ea & Vx & Vv & Vy).
  rewrite Ea in Eu. subst u.
  assert (drop (match_end m) line = y) as Ey by (rewrite El, He, app_assoc, <- length_app; apply drop_app_length).
  assert (drop cursor line = drop cursor x ++ v ++ y) as Ed by (rewrite El; apply drop_app_le; lia).
  assert (take (match_start m - cursor) (drop cursor line) = drop cursor x) as Etk.
  { rewrite Ed, Hs, <- length_drop. apply take_app_length. }
  assert (length (drop cursor x) = match_start m - cursor) as Hlx by (rewrite length_drop; lia).
  rewrite Ey in *. split.
  - rewrite Etk, Ed. cbn [map]. apply (patches_cons _ (edit_of (mkReplacement (shift (length pre) m) v (expansion cmd line c)))); cbn.
    + lia.
    + destruct (valid_split line cursor Hline Hcur) as [_ Vd]. rewrite Ed in Vd. apply (valid_app_l _ (v ++ y)); [done|by apply valid_app].
    + done.
    + by apply expansion_valid.
    + by replace (length pre + cursor + length (drop cursor x) + length v) with (length pre + match_end m) by lia.
  - by constructor.
  - done.
  - constructor.
    + cbn. rewrite Ed, !length_app. lia.
    + eapply list.Forall_impl; [exact W|]. cbn. intros rp. rewrite Ed, !length_app. lia.
Qed.

(** The matches still allowed, and those taken of [n] found. *)
Definition remaining (total : N) : nat := N.to_nat (match_limit - total).
Definition taken (total : N) (n : nat) : N := N.min (N.of_nat n) (match_limit - total).
Definition cut_short (total : N) (n : nat) : bool := (match_limit - total <? N.of_nat n)%N.

Definition planned_part (o : nat) (a a' : ReplacementAccumulator) (s t : list N) (ranges : list MatchRange) : Prop :=
  exists rs, added a a' rs /\
    if count_only (flags cmd) then rs = [] else planned text o rs s t /\ map replacement_range rs = ranges.

Lemma planned_stop cursor a :
  is_char_boundary line cursor = true -> (planned_bytes a <= byte_limit)%N ->
  planned_part (length pre + cursor) a a (drop cursor line) (drop cursor line) [].
Proof using Hline Hlimit Htext.
  intros Hcur Hb. exists []. split; [split_and!; cbn; rewrite ?app_nil_r; (done || lia)|]. destruct (count_only _); [done|].
  split; [|done]. apply planned_nil. by destruct (valid_split line cursor Hline Hcur).
Qed.

Lemma plan_matches_spec found : forall ms cursor a total,
  map (fun c => capture c 0) found = map Some ms -> in_order ms -> Forall (groups_valid line) found ->
  is_char_boundary line cursor = true -> Forall (fun m => cursor <= match_start m) ms ->
  (planned_bytes a <= byte_limit)%N -> (total <= match_limit)%N ->
  let result := plan_matches cmd text match_limit byte_limit (length pre) line found a total in
  result = Some (inl ReplacementPlanTooLarge) \/
  exists a', result = Some (inr (a', (total + taken total (length found))%N, cut_short total (length found))) /\
    planned_part (length pre + cursor) a a' (drop cursor line) (replace_matches cmd line cursor (take (remaining total) found))
      (map (shift (length pre)) (take (remaining total) ms)).
Proof using Htoks Hsize Hlimit Htext Et Hpre Hline Hpost.
  induction found as [|c found IH]; intros ms cursor a total Ems Ho Hg Hcur Hms Hb Ht result; unfold result; cbn [plan_matches].
  { right. exists a. unfold taken, cut_short. cbn [length]. rewrite N.min_0_l, N.add_0_r, (proj2 (N.ltb_ge _ _)) by lia.
    split; [done|]. destruct ms; [|done]. rewrite !take_nil. by apply planned_stop. }
  destruct ms as [|m ms]; [done|]. cbn [map] in Ems. injection Ems as Ec Ems.
  apply Forall_cons_iff in Hg as [Hgc Hg]. apply Forall_cons_iff in Hms as [Hm _]. destruct (in_order_cons _ _ Ho) as [Ho' _].
  destruct (N.eqb_spec total match_limit) as [->|Hne].
  { right. exists a. unfold taken, cut_short, remaining. rewrite N.sub_diag, N.min_0_r, N.add_0_r. split; [done|]. by apply planned_stop. }
  assert (valid_match line m = true) as Hvm by (apply Hgc; eauto).
  assert (Forall (fun m' => match_end m <= match_start m') ms) as Hnext.
  { destruct ms as [|m' ms]; [constructor|]. destruct Ho as (H1 & _ & _). constructor; [done|].
    destruct (in_order_cons _ _ Ho') as [_ Hf]. eapply list.Forall_impl; [exact Hf|]. cbn. lia. }
  assert (is_char_boundary line (match_end m) = true) as Hcur'.
  { unfold valid_match in Hvm. rewrite !andb_true_iff in Hvm. tauto. }
  assert (remaining total = S (remaining (total + 1)) /\ taken total (S (length found)) = (1 + taken (total + 1) (length found))%N /\
    cut_short total (S (length found)) = cut_short (total + 1) (length found)) as (Erem & Etak & Ecut).
  { unfold remaining, taken, cut_short. split_and!; [lia|lia|]. apply eq_true_iff_eq. rewrite !N.ltb_lt. lia. }
  cbn [length]. rewrite Erem, Etak, Ecut, N.add_assoc. cbn [take replace_matches map].
  destruct (count_only (flags cmd)) eqn:Eco.
  { assert (accumulator_push cmd text byte_limit (length pre) line c a = Some (inr a)) as -> by (unfold accumulator_push; by rewrite Ec, Eco).
    destruct (IH ms (match_end m) a (total + 1)%N Ems Ho' Hg Hcur' Hnext Hb ltac:(lia)) as [->|(a' & -> & rs & Ha & Hrs)]; [by left|].
    right. exists a'. split; [done|]. exists rs. rewrite Eco in *. done. }
  destruct (push_spec c m a Ec Hgc Hb Eco) as [->|(a1 & u & -> & Eu & Es & Ha1)]; [by left|].
  destruct (IH ms (match_end m) a1 (total + 1)%N Ems Ho' Hg Hcur' Hnext ltac:(apply Ha1) ltac:(lia)) as [->|(a' & -> & rs & Ha & Hrs)]; [by left|].
  right. exists a'. split; [done|]. rewrite Eco in Hrs. destruct Hrs as [Hpl Hrg].
  exists (mkReplacement (shift (length pre) m) u (expansion cmd line c) :: rs). split; [by apply (added_trans _ _ _ [_] rs Ha1)|].
  rewrite Eco. rewrite Ec. split; [|cbn [map]; by rewrite Hrg].
  apply (planned_cons cursor m u c rs (drop (match_end m) line)); [done..|].
  rewrite Hrg. pose proof (in_order_shift (length pre) _ (in_order_take (S (remaining (total + 1))) _ Ho)) as Hs. exact Hs.
Qed.
End Line.

Lemma found_in_facts r line : valid_str line ->
  exists ms, map (fun c => capture c 0) (found_in cmd r line) = map Some ms /\ in_order ms /\ Forall (groups_valid line) (found_in cmd r line).
Proof using Laws.
  intros Hl. destruct (law_whole r line) as (ms & E & Ho).
  assert (Forall (groups_valid line) (captures_iter r line)) as Hg.
  { apply list.Forall_forall. intros c Hc m Hm. by apply (law_groups r line c m). }
  unfold found_in. destruct (global (flags cmd)); [by exists ms|]. rewrite law_first.
  destruct (captures_iter r line) as [|c cs]; [by exists []|]. destruct ms as [|m ms]; [done|]. injection E as E _.
  exists [m]. cbn. rewrite E. split_and!; [done|done|]. apply Forall_singleton. by apply Forall_cons_iff in Hg as [? _].
Qed.

(** Every line but the last ends with its line feed. *)
Fixpoint well_split (lines : list (list N)) : Prop :=
  match lines with
  | [] => True
  | l :: lines => (l = line_body l ++ [LF] \/ (l = line_body l /\ lines = [])) /\ well_split lines
  end.

Lemma substitute_lines_none r lines : well_split lines -> substitute_lines cmd r 0 lines = concat lines.
Proof using.
  induction lines as [|l lines IH]; [done|]. intros [Hl Hs]. cbn [substitute_lines concat]. rewrite take_0. cbn [replace_matches].
  rewrite Nat.sub_0_l, drop_0, IH by done. rewrite app_assoc. f_equal. set (b := line_body l) in *. clearbody b. destruct Hl as [->|[-> _]].
  - by rewrite drop_app_length.
  - by rewrite drop_all, app_nil_r.
Qed.

(** One line more: what it adds, then what the lines after it add. *)
Lemma next_line r pre l lines rs1 rs2 budget :
  l = line_body l ++ [LF] \/ (l = line_body l /\ rs2 = []) ->
  planned text (length pre) rs1 (line_body l) (replace_matches cmd (line_body l) 0 (take budget (found_in cmd r (line_body l)))) ->
  planned text (length (pre ++ l)) rs2 (concat lines) (substitute_lines cmd r (budget - length (found_in cmd r (line_body l))) lines) ->
  planned text (length pre) (rs1 ++ rs2) (concat (l :: lines)) (substitute_lines cmd r budget (l :: lines)).
Proof using.
  intros Hl P1 P2. cbn [concat substitute_lines]. set (b := line_body l) in *. clearbody b. rewrite length_app in P2.
  destruct Hl as [->|[-> ->]].
  - rewrite drop_app_length, <- app_assoc. apply planned_app; [done|by apply valid_ascii| |by left].
    by rewrite length_app, Nat.add_assoc in P2.
  - rewrite drop_all. cbn [app]. apply (planned_app _ _ _ _ _ []); [done|apply valid_nil| |by right]. cbn. by rewrite Nat.add_0_r.
Qed.

Lemma plan_lines_spec r post : valid_str post -> forall lines pre a total,
  text = pre ++ concat lines ++ post -> valid_str pre -> Forall valid_str lines -> well_split lines ->
  (planned_bytes a <= byte_limit)%N -> (total <= match_limit)%N ->
  let result := plan_lines cmd text match_limit byte_limit r (ranges_from (length pre) lines) a total in
  result = Some (inl ReplacementPlanTooLarge) \/
  exists a' rs, result = Some (inr (a', (total + taken total (match_count cmd r lines))%N, cut_short total (match_count cmd r lines))) /\
    added a a' rs /\
    if count_only (flags cmd) then rs = []
    else planned text (length pre) rs (concat lines) (substitute_lines cmd r (remaining total) lines).
Proof using Htoks Hsize Hlimit Htext Laws.
  intros Hpost lines. induction lines as [|l lines IH]; intros pre a total Et Hpre Hls Hsp Hb Ht result; unfold result; cbn [ranges_from plan_lines].
  { right. exists a, []. unfold taken, cut_short, match_count. cbn [map sum_list foldr]. rewrite N.min_0_l, N.add_0_r, (proj2 (N.ltb_ge _ _)) by lia.
    split_and!; [done|split_and!; cbn; rewrite ?app_nil_r; (done || lia)|]. destruct (count_only _); [done|]. apply planned_nil, valid_nil. }
  apply Forall_cons_iff in Hls as [Vl Hls]. destruct Hsp as [Hl Hsp]. cbn [concat] in Et.
  assert (exists gap, l = line_body l ++ gap /\ valid_str (line_body l) /\ valid_str gap) as (gap & El & Vb & Vg).
  { destruct Hl as [E|[E _]]; [exists [LF]|exists []]; rewrite ?app_nil_r; split_and!; try done; try (by apply valid_ascii); try apply valid_nil.
    - apply (valid_app_l _ [LF]); [by rewrite <- E|by apply valid_ascii].
    - by rewrite <- E. }
  assert (valid_str (concat lines)) as Vc by (clear -Hls; induction Hls; [apply valid_nil|by apply valid_app]).
  assert (text = pre ++ line_body l ++ gap ++ concat lines ++ post) as Et' by (rewrite Et, El at 1; by rewrite <- !app_assoc).
  assert (valid_str (gap ++ concat lines ++ post)) as Vrest by (repeat apply valid_app; done).
  assert (str_slice text (length pre) (length pre + length (line_body l)) = Some (line_body l)) as -> by (rewrite Et'; by apply str_slice_app).
  cbn [mbind option_bind]. fold (found_in cmd r (line_body l)). destruct (found_in_facts r (line_body l) Vb) as (ms & Ems & Ho & Hg).
  set (n := length (found_in cmd r (line_body l))) in *. set (k := match_count cmd r lines).
  change (match_count cmd r (l :: lines)) with (n + k).
  destruct (plan_matches_spec pre (line_body l) _ Et' Hpre Vb Vrest _ ms 0 a total Ems Ho Hg eq_refl ltac:(apply Forall_true; lia) Hb Ht)
    as [->|(a1 & -> & rs1 & Ha1 & Hrs1)]; [by left|]. rewrite Nat.add_0_r, drop_0 in Hrs1. fold n.
  assert (added a a1 rs1 /\ (count_only (flags cmd) = true -> rs1 = [])) as [_ Hrs1c] by (split; [done|intros E; by rewrite E in Hrs1]).
  destruct (cut_short total n) eqn:Ecut; unfold cut_short in Ecut; [apply N.ltb_lt in Ecut|apply N.ltb_ge in Ecut].
  - right. exists a1, rs1. assert (taken total (n + k) = taken total n /\ cut_short total (n + k) = true) as [-> ->].
    { unfold taken, cut_short. rewrite N.ltb_lt. lia. }
    split_and!; [done|done|]. destruct (count_only _); [done|]. destruct Hrs1 as [P1 _].
    rewrite <- (app_nil_r rs1). apply next_line; [by destruct Hl as [?|[? _]]; [left|right]|done|].
    replace (remaining total - _) with 0 by (unfold remaining; fold n; lia). rewrite substitute_lines_none by done. by apply planned_nil.
  - assert (taken total n = N.of_nat n) as -> by (unfold taken; lia).
    replace (length pre + length l) with (length (pre ++ l)) by apply length_app.
    destruct (IH (pre ++ l) a1 (total + N.of_nat n)%N) as [->|(a2 & rs2 & E2 & Ha2 & Hrs2)];
      [by rewrite Et, <- !app_assoc|by apply valid_app|done|done|apply Ha1|lia|by left|].
    right. exists a2, (rs1 ++ rs2). rewrite E2. fold k.
    assert ((total + N.of_nat n + taken (total + N.of_nat n) k)%N = (total + taken total (n + k))%N /\
      cut_short (total + N.of_nat n) k = cut_short total (n + k)) as [-> ->].
    { unfold taken, cut_short. split; [lia|]. apply eq_true_iff_eq. rewrite !N.ltb_lt. lia. }
    split_and!; [done|by apply (added_trans _ a1)|]. destruct (count_only _); [by rewrite Hrs1c, Hrs2|]. destruct Hrs1 as [P1 _].
    apply next_line; [|done|].
    + destruct Hl as [?|[? ->]]; [by left|right]. split; [done|]. cbn in E2. injection E2 as <- _ _.
      destruct Ha2 as (Eacc & _ & _). rewrite <- (app_nil_r (accumulated a1)) in Eacc at 1. by apply app_inv_head in Eacc.
    + fold n. by replace (remaining total - n) with (remaining (total + N.of_nat n)) by (unfold remaining; lia).
Qed.

Lemma range_lines_split s : valid_str s -> Forall valid_str (range_lines s) /\ well_split (range_lines s).
Proof using.
  intros Hs. destruct s as [|c s]; [split; [apply Forall_singleton, valid_nil|by split; [right|]]|]. unfold range_lines. revert Hs.
  generalize (c :: s). clear. intros t. induction t as [t IH] using (induction_ltof1 _ (@length N)); unfold ltof in IH. intros Ht.
  destruct (find [LF] t) as [i|] eqn:E.
  - destruct (split_inclusive_some _ _ E) as (Et & Hi & _ & -> & Est). set (x := take i t) in *. set (y := drop (i + 1) t) in *.
    destruct (valid_occurrence x [LF] y) as [Vx Vy]; [by rewrite <- Et|by apply valid_ascii|done|].
    destruct (IH y) as [H1 H2]; [unfold y; rewrite length_drop; lia|done|]. split.
    + constructor; [apply valid_app; [done|by apply valid_ascii]|done].
    + split; [left|done]. unfold line_body. by rewrite Est.
  - destruct t as [|b t]; [by split|]. destruct (split_inclusive_none _ E) as [-> Est]; [done|]. split; [by apply Forall_singleton|].
    split; [right|done]. split; [|done]. unfold line_body. by rewrite Est.
Qed.

Definition plan_describes (p : SubstitutePlan) (r : Regex) (first last : nat) : Prop :=
  let lines := range_lines (take (last - first) (drop first text)) in
  total_matches p = N.min match_limit (N.of_nat (match_count cmd r lines)) /\
  plan_truncated p = (match_limit <? N.of_nat (match_count cmd r lines))%N /\
  Forall (fun rp => str_slice text (match_start (replacement_range rp)) (match_end (replacement_range rp)) = Some (replacement_removed rp))
    (replacements p) /\
  patches 0 (map edit_of (replacements p)) text (substituted cmd r text first last match_limit) /\
  (total_length (map replacement_text (replacements p)) <= byte_limit)%N.

Lemma plan_spec current visual :
  exists res, plan_with_replacement_byte_limit cmd text match_limit byte_limit current visual = Some res /\
    match res with
    | inl e => e <> PlanOutOfOrder /\ e <> PlanOverlaps
    | inr p => exists r first last, compile_with_case (pattern cmd) (case_insensitive (flags cmd)) = Some (inr r) /\
        target_range cmd text current visual = inr (first, last) /\ plan_describes p r first last
    end.
Proof using Htoks Hsize Hlimit Htext Hvalid Laws.
  unfold plan_with_replacement_byte_limit. destruct (target_range cmd text current visual) as [e|[first last]] eqn:Etr.
  { eexists. split; [done|]. unfold target_range in Etr. repeat case_match; by simplify_eq. }
  unfold validate_text_range. destruct (_ || _) eqn:E1; [by eexists|]. destruct (_ || _) eqn:E2 in |- *; [by eexists|].
  apply orb_false_iff in E1 as [H1%Nat.ltb_ge H2%Nat.ltb_ge]. apply orb_false_iff in E2 as [H3%negb_false_iff H4%negb_false_iff].
  unfold compile_with_case. destruct (scan_ends (pattern cmd)) as (sc & Esc). rewrite Esc. destruct sc as [e|tr]; [by eexists|].
  destruct (build tr _) as [err|r]; [by eexists|].
  destruct (str_split text first last Hvalid H3 H4 H1) as (a & s & b & Et & Ha & Hs & Esl & Va & Vs & Vb).
  assert (take (last - first) (drop first text) = s) as Es by (unfold str_slice in Esl; case_match; [by injection Esl|done]).
  pose proof (line_ranges_spec text a s b Et Va Vs Vb) as Elr. rewrite Hs, Ha in Elr. rewrite Elr. cbn [mbind option_bind].
  destruct (range_lines_split s Vs) as [Vls Wls].
  destruct (plan_lines_spec r b Vb (range_lines s) a (mkAccumulator 0 []) 0) as [E|(acc & rs & E & Hadd & Hrs)];
    [by rewrite range_lines_concat|done|done|done|cbn; lia|lia| |]; rewrite Ha in E; rewrite E; [by eexists|].
  destruct Hadd as (Eacc & Epl & Hbl). cbn [accumulated planned_bytes app] in *. rewrite N.add_0_l in Epl. rewrite Epl in Hbl. rewrite Eacc.
  set (new := if count_only (flags cmd) then s else substitute_lines cmd r (remaining 0) (range_lines s)).
  assert (planned text (length a) rs s new) as [P R O _].
  { unfold new. rewrite <- (range_lines_concat s) at 1. destruct (count_only (flags cmd)); [|done].
    rewrite Hrs, range_lines_concat. by apply planned_nil. }
  unfold validate_replacement_order. rewrite (order_loop_ok rs None O). eexists. split; [done|]. exists r, first, last. split_and!; [done|done|].
  unfold plan_describes. cbn zeta. rewrite Es. cbn. unfold taken, cut_short. rewrite N.sub_0_r. split_and!; [lia|done|done| |done].
  unfold substituted. rewrite Es. unfold new, remaining in P. rewrite N.sub_0_r in P. rewrite Et at 1.
  replace (take first text) with a by (rewrite Et, <- Ha; by rewrite take_app_length).
  replace (drop last text) with b by (rewrite Et, <- Hs, app_assoc, <- length_app; by rewrite drop_app_length).
  apply (patches_shift 0 a); [done|]. rewrite <- (app_nil_r (map _ _)). apply (patches_app _ _ s); [done|]. by apply patches_nil.
Qed.

Lemma plan_edits p r first last :
  plan_describes p r first last -> to_text_edits p text = Some (inr (map edit_of (replacements p))).
Proof using.
  intros (_ & _ & R & _). unfold to_text_edits. revert R. generalize (replacements p). intros rs R.
  induction R as [|rp rs Hr _ IH]; [done|]. cbn [collect_edits map]. unfold to_text_edit, validate_text_range.
  assert (str_slice text (match_start (replacement_range rp)) (match_end (replacement_range rp)) = Some (replacement_removed rp)) as Hr' by done.
  unfold str_slice in Hr'. destruct (_ && _) eqn:Eok in Hr'; [|done]. rewrite !andb_true_iff, !Nat.leb_le in Eok.
  destruct Eok as [[[H1 H2] H3] H4]. rewrite (proj2 (Nat.ltb_ge _ _) H1), (proj2 (Nat.ltb_ge _ _) H2), H3, H4. cbn [orb negb].
  rewrite Hr. cbn [mbind option_bind]. unfold beq. rewrite bool_decide_true by done. by rewrite IH.
Qed.
End Planning.

(** ** Applying a plan *)
Section Applying.
Context `{A : Allocator} `{L : !AllocatorLaws A} `{Lib : RegexLibrary} `{Laws : !RegexLaws Lib}.

Lemma patches_validate text o es s t : patches o es s t -> forall done_,
  text = done_ ++ s -> length done_ = o -> valid_str done_ -> (text_length text <= usize_max)%N -> validate_edits text o es = Some (inr tt).
Proof using.
  induction 1 as [|o e es u rest rest' Ho Hu Hrm Hi Hp IH]; intros done_ -> Hd Vd Hl; [done|]. cbn [validate_edits].
  destruct (patches_valid _ _ _ _ Hp) as [Vr _]. unfold text_length in *. rewrite !length_app in Hl. unfold checked_add.
  rewrite (proj2 (N.leb_le _ _)) by (unfold text_length; lia). rewrite (proj2 (Nat.ltb_ge _ _)) by lia.
  pose proof (str_slice_app (done_ ++ u) (removed e) rest Hrm Vr) as Es. rewrite <- app_assoc, length_app in Es. unfold edit_end.
  rewrite Ho, <- Hd, Es. unfold str_slice in Es. destruct (_ && _) eqn:Eok in Es; [|done]. rewrite !andb_true_iff, !Nat.leb_le in Eok.
  destruct Eok as [[[_ H2] H3] H4]. rewrite (proj2 (Nat.ltb_ge _ _) H2), H3, H4. cbn [orb negb mbind option_bind]. unfold beq.
  rewrite bool_decide_true by done. rewrite Hd. apply (IH (done_ ++ u ++ removed e)).
  - by rewrite <- !app_assoc.
  - rewrite !length_app. lia.
  - repeat apply valid_app; done.
  - unfold text_length. rewrite !length_app. lia.
Qed.

(** An edit that does not continue another is taken back by one undo. *)
Lemma whole_edit_undone d d' vs text :
  doc_ok d vs -> transaction_outcome false d vs text (inr d') ->
  doc_text d' = text /\ (doc_text d' <> doc_text d -> exists d'', undo d' = Some (true, d'') /\ doc_text d'' = doc_text d).
Proof using.
  intros Hd [[-> ->]|(r & n & He & [->|(? & _)])]; [done| |done].
  destruct He as [Hok Hr Hl _ _ (Ht & _)]. split; [done|]. intros _.
  pose proof (uo_applied _ (do_undo _ _ Hd)). pose proof (do_length _ _ Hd).
  destruct (undo_spec _ _ (applied (undo_history d) - r) Hok Hl) as (d'' & E & Hm).
  destruct (moved_versions _ _ _ _ Hm) as (v & Ev & Hv & _). exists d''. split; [done|]. rewrite Hv.
  rewrite versions_after_lookup, decide_True in Ev by lia. replace (r + (applied (undo_history d) - r)) with (applied (undo_history d)) in Ev by lia.
  rewrite (do_current _ _ Hd) in Ev. by injection Ev.
Qed.

Lemma apply_whole d vs es text :
  doc_ok d vs -> patches 0 es (doc_text d) text -> (total_length (map inserted es) <= memory_limit)%N ->
  (next_serial (undo_history d) < u64_max)%N ->
  exists result, apply_edits es d = Some result /\
    match result with
    | inl refusal => exists reason, refusal = Refused reason /\ refusal_fits d text reason
    | inr (count, d') => count = length es /\ doc_text d' = text /\
        (doc_text d' <> doc_text d -> exists d'', undo d' = Some (true, d'') /\ doc_text d'' = doc_text d)
    end.
Proof using L.
  intros Hd Hp Hm Hs. unfold apply_edits. destruct es as [|e0 es0] eqn:Ees.
  { eexists. split; [done|]. apply patches_nil_inv in Hp as ->. by split_and!. }
  rewrite <- Ees in *. clear Ees. destruct (current_valid _ _ Hd) as [_ [Hl _]]. pose proof (do_bounds _ _ Hd).
  rewrite (patches_validate _ 0 es _ _ Hp []) by (done || apply valid_nil || (unfold memory_limit, usize_max in *; lia)).
  destruct (apply_transaction_spec d vs es false text Hd Hp Hm Hs) as (r & -> & Hr). cbn [mbind option_bind]. eexists. split; [done|].
  destruct r as [reason|d']; [by eexists|]. split; [done|]. by apply (whole_edit_undone d d' vs).
Qed.

Lemma serials_run ops : forall s vs outs s',
  session_ok s vs -> Forall op_ok ops -> (next_serial (undo_history (doc s)) + N.of_nat (length ops) <= u64_max)%N ->
  run_ops ops s = Some (outs, s') -> (next_serial (undo_history (doc s')) <= next_serial (undo_history (doc s)) + N.of_nat (length ops))%N.
Proof using L.
  induction ops as [|op ops IH]; intros s vs outs s' Hs Hops Hn E; [injection E as _ <-; lia|].
  apply Forall_cons_iff in Hops as [Hop Hops]. cbn [length] in *. cbn [run_ops] in E.
  destruct (run_op_spec s vs op Hs Hop ltac:(lia)) as (out & s1 & vs1 & E1 & Hs1 & _ & Hn1 & _). rewrite E1 in E. cbn [mbind option_bind] in E.
  destruct (run_ops ops s1) as [[outs1 s2]|] eqn:E2; [|done]. injection E as _ <-. specialize (IH s1 vs1 outs1 s2 Hs1 Hops ltac:(lia) E2). lia.
Qed.

Lemma encode_text_length cs : is_chars cs -> length (encode_text cs) <= 4 * length cs.
Proof using.
  induction 1 as [|c cs Hc _ IH]; [cbn; lia|]. change (encode_text (c :: cs)) with (encode_utf8 c ++ encode_text cs). rewrite length_app. cbn [length].
  assert (length (encode_utf8 c) <= 4) by (unfold encode_utf8; repeat case_match; cbn; lia). lia.
Qed.

Lemma tokens_fit n toks : tokens_ok n toks -> (N.of_nat n <= text_limit)%N ->
  Forall (fun tok => (text_length (encode_text (token_chars tok)) <= memory_limit)%N) toks.
Proof using.
  intros [Hc Hn] Hl. apply list.Forall_forall. intros tok Ht. rewrite list.Forall_forall in Hc. pose proof (encode_text_length _ (Hc tok Ht)).
  assert (length (token_chars tok) <= tokens_size toks) as Hs.
  { clear -Ht. induction Ht as [tok toks|tok x toks _ IH]; unfold tokens_size in *; cbn in *; lia. }
  unfold text_length, text_limit, memory_limit in *. lia.
Qed.

End Applying.

(** ** A substitution

    An engine whose patterns are single ASCII characters. *)
Fixpoint positions (b : N) (t : list N) (o : nat) : list MatchRange :=
  match t with
  | [] => []
  | x :: t => if (x =? b)%N then mkMatch o (S o) :: positions b t (S o) else positions b t (S o)
  end.

Definition whole_match (m : MatchRange) : Captures := mkCaptures (fun i => if (i =? 0)%N then Some m else None) (fun _ => None).

Definition byte_matches (b : N) (t : list N) : list MatchRange := if (b <? 128)%N then positions b t 0 else [].

Definition byte_regex : RegexLibrary := {|
  Regex := N;
  build pat _ := match pat with [c] => inr c | _ => inl (bytes "unsupported") end;
  regex_find_iter := byte_matches;
  captures_iter b t := map whole_match (byte_matches b t);
  captures b t := head (map whole_match (byte_matches b t));
  regex_escape w := w;
  is_alphanumeric c := is_ascii_digit c
|}.

Lemma positions_facts b t : forall o,
  in_order (positions b t o) /\
  Forall (fun m => o <= match_start m /\ match_end m = S (match_start m) /\ t !! (match_start m - o) = Some b) (positions b t o).
Proof.
  induction t as [|x t IH]; intros o; [by split|]. cbn [positions]. destruct (IH (S o)) as [Ho Hf].
  assert (Forall (fun m => o <= match_start m /\ match_end m = S (match_start m) /\ (x :: t) !! (match_start m - o) = Some b) (positions b t (S o))) as Hf'.
  { eapply list.Forall_impl; [exact Hf|]. cbn. intros m (H1 & H2 & H3). split_and!; [lia|done|].
    replace (match_start m - o) with (S (match_start m - S o)) by lia. done. }
  destruct (N.eqb_spec x b) as [->|_]; [|done]. split.
  - apply (in_order_app [_]); [done|done|]. intros p q ->%list_elem_of_singleton Hq. rewrite list.Forall_forall in Hf. specialize (Hf q Hq). cbn in *. lia.
  - constructor; [|done]. cbn. rewrite Nat.sub_diag. split_and!; [lia|done|done].
Qed.

Lemma byte_valid b t m : (b < 128)%N -> valid_str t -> m ∈ positions b t 0 -> valid_match t m = true.
Proof.
  intros Hb Ht Hm. destruct (positions_facts b t 0) as [_ Hf]. rewrite list.Forall_forall in Hf. destruct (Hf m Hm) as (_ & He & Hl).
  rewrite Nat.sub_0_r in Hl. set (i := match_start m) in *.
  assert (t = take i t ++ [b] ++ drop (S i) t) as Et by (by rewrite <- (take_drop_middle t i b Hl) at 1).
  pose proof (lookup_lt_Some _ _ _ Hl) as Hi. assert (length (take i t) = i) as Hlt by (rewrite length_take; lia).
  destruct (valid_occurrence (take i t) [b] (drop (S i) t)) as [Va Vd]; [by rewrite <- Et|by apply valid_ascii|done|].
  assert (is_char_boundary t i = true) as B1.
  { rewrite Et, <- Hlt. rewrite Hlt at 1 2. apply boundary_app. apply valid_app; [by apply valid_ascii|done]. }
  assert (is_char_boundary t (S i) = true) as B2.
  { rewrite Et, app_assoc. replace (S i) with (length (take i t ++ [b])) at 2 by (rewrite length_app, Hlt; cbn; lia). by apply boundary_app. }
  unfold valid_match. fold i. rewrite He, B1, B2, !(proj2 (Nat.leb_le _ _)) by lia. done.
Qed.

Lemma byte_regex_laws : RegexLaws byte_regex.
Proof.
  split; cbn; [done| |].
  - intros b t. exists (byte_matches b t). split; [rewrite map_map; by apply map_ext|]. unfold byte_matches. destruct (_ <? _)%N; [|done].
    apply positions_facts.
  - intros b t c m Ht Hc Hm. apply list_elem_of_fmap in Hc as (m' & -> & Hm'). unfold byte_matches in Hm'.
    destruct (N.ltb_spec b 128); [|by apply elem_of_nil in Hm']. destruct Hm as [[i Hi]|[n Hn]]; [|done]. cbn in Hi.
    destruct (i =? 0)%N; [|done]. injection Hi as <-. by apply (byte_valid b).
Qed.

Definition sample_command : list N := bytes ":%s/a/x&/g".

(** The document [ab], [ab] becomes [xab], [xab]. *)
Example sample_substitution :
  (let? cmd := SubstituteCommand_parse sample_command in
   let? p := plan (Lib := byte_regex) cmd (doc_text sample_document) (0, 0) None 10 in
   let? es := to_text_edits (A := sample_allocator) p (doc_text sample_document) in
   Some (inr (map (fun e => (start e, removed e, inserted e)) es)))
  = Some (inr [(0, bytes "a", bytes "xa"); (3, bytes "a", bytes "xa")]).
Proof. vm_compute. reflexivity. Qed.

