(* ===== verification/SecureChannel.v ===== *)
(** * The encrypted channel ([festerm-automation-mcp/src/secure_channel.rs])

    Frames over Noise records: the handshake steps, the confirmation of a
    fingerprint, and the channel that seals a frame into one or two ordered
    records and puts it together again.  The Noise implementation and SHA-256
    are parameters ([Noise]). *)

From Stdlib Require Import NArith Bool.
From S2P Require Import Prelude.

Definition MAX_MESSAGE_BYTES : N := 65536.
Definition FIRST_HANDSHAKE_BYTES : N := 32.
Definition SECOND_HANDSHAKE_BYTES : N := 48.
Definition TAG_BYTES : N := 16.
Definition MAX_RECORD_BYTES : N := 65535.
Definition MIN_RECORD_BYTES : N := TAG_BYTES + 1.
Definition MAX_RECORD_PLAINTEXT : N := MAX_RECORD_BYTES - TAG_BYTES.
Definition FRAME_HEADER_BYTES : N := 4.

Inductive ChannelError := Unavailable | InvalidMessage | ChannelClosed.
#[export] Instance ChannelError_eq_dec : EqDecision ChannelError.
Proof. solve_decision. Defined.

Definition size (bs : list N) : N := N.of_nat (length bs).

(** ** Big-endian integers *)
Definition be_bytes_u16 (n : N) : list N := [n / 256; n mod 256]%N.
Definition be_bytes_u32 (n : N) : list N := [n / 16777216; n / 65536 mod 256; n / 256 mod 256; n mod 256]%N.
Definition from_be_bytes (bs : list N) : N := foldl (fun n b => n * 256 + b)%N 0%N bs.

(** [slice::chunks]: every part but the last has the given length. *)
Fixpoint chunks_fuel (fuel n : nat) (bs : list N) : list (list N) :=
  match fuel, bs with
  | S fuel, _ :: _ => take n bs :: chunks_fuel fuel n (drop n bs)
  | _, _ => []
  end.
Definition chunks (n : N) (bs : list N) : list (list N) := chunks_fuel (length bs) (N.to_nat n) bs.

(** ** Noise

    A transport writes and reads messages in order: each call returns the
    message and the transport after it. *)
Inductive ChannelPurpose := Adapter | Direct.

Class Noise := {
  HandshakeState : Type;
  TransportState : Type;
  build_handshake : bool -> list N -> option HandshakeState;
  handshake_write : HandshakeState -> option (list N * HandshakeState);
  handshake_read : HandshakeState -> list N -> option (list N * HandshakeState);
  is_handshake_finished : HandshakeState -> bool;
  get_handshake_hash : HandshakeState -> list N;
  into_transport_mode : HandshakeState -> option TransportState;
  write_message : TransportState -> list N -> option (list N * TransportState);
  read_message : TransportState -> list N -> option (list N * TransportState);
  sha256 : list N -> list N
}.

Definition PROLOGUE : list N := bytes "fesTerm local MCP channel v1; initiator=adapter; responder=application".
Definition DIRECT_PROLOGUE : list N := bytes "fesTerm direct local MCP channel v1; initiator=client; responder=application".
Definition FINGERPRINT_DOMAIN : list N := bytes "fesTerm local MCP channel fingerprint v1" ++ [0%N].

Definition prologue (purpose : ChannelPurpose) : list N :=
  match purpose with Adapter => PROLOGUE | Direct => DIRECT_PROLOGUE end.

(** [{byte:02x}] of each byte. *)
Definition fingerprint_text (fingerprint : list N) : list N :=
  flat_map (fun b => [hex_digit false (b / 16 mod 16); hex_digit false (b mod 16)])%N fingerprint.

Section Channel.
Context `{Nz : Noise}.

Record UnverifiedChannel := mkUnverified { unverified_transport : TransportState; unverified_fingerprint : list N }.

Record PendingFrame := mkPending { total : N; pending_bytes : list N }.

Record Channel := mkChannel {
  transport : option TransportState;
  fingerprint : list N;
  pending : option PendingFrame;
  used : bool
}.
#[export] Instance set_transport : Setter transport := fun v c => mkChannel v (fingerprint c) (pending c) (used c).
#[export] Instance set_pending : Setter pending := fun v c => mkChannel (transport c) (fingerprint c) v (used c).
#[export] Instance set_used : Setter used := fun v c => mkChannel (transport c) (fingerprint c) (pending c) v.

(** ** The handshake *)
Definition finish (state : HandshakeState) : ChannelError + UnverifiedChannel :=
  if negb (is_handshake_finished state) then inl InvalidMessage
  else
    let digest := sha256 (FINGERPRINT_DOMAIN ++ get_handshake_hash state) in
    match into_transport_mode state with
    | None => inl InvalidMessage
    | Some transport => inr (mkUnverified transport digest)
    end.

Definition initiate (purpose : ChannelPurpose) : ChannelError + (HandshakeState * list N) :=
  match build_handshake true (prologue purpose) with
  | None => inl Unavailable
  | Some state =>
      match handshake_write state with
      | None => inl Unavailable
      | Some (first, state) => if negb (size first =? FIRST_HANDSHAKE_BYTES)%N then inl Unavailable else inr (state, first)
      end
  end.

Definition initiator_finish (state : HandshakeState) (reply : list N) : ChannelError + UnverifiedChannel :=
  if negb (size reply =? SECOND_HANDSHAKE_BYTES)%N then inl InvalidMessage
  else match handshake_read state reply with
       | None => inl InvalidMessage
       | Some (payload, state) => if negb (size payload =? 0)%N then inl InvalidMessage else finish state
       end.

Definition respond (first : list N) (purpose : ChannelPurpose) : ChannelError + (UnverifiedChannel * list N) :=
  if negb (size first =? FIRST_HANDSHAKE_BYTES)%N then inl InvalidMessage
  else match build_handshake false (prologue purpose) with
       | None => inl Unavailable
       | Some state =>
           match handshake_read state first with
           | None => inl InvalidMessage
           | Some (payload, state) =>
               if negb (size payload =? 0)%N then inl InvalidMessage
               else match handshake_write state with
                    | None => inl InvalidMessage
                    | Some (reply, state) =>
                        if negb (size reply =? SECOND_HANDSHAKE_BYTES)%N then inl InvalidMessage
                        else match finish state with inl e => inl e | inr channel => inr (channel, reply) end
                    end
           end
       end.

(** [UnverifiedChannel::confirm]. *)
Definition confirm_fingerprint (u : UnverifiedChannel) (compared : list N) : ChannelError + Channel :=
  if negb (beq (fingerprint_text (unverified_fingerprint u)) compared) then inl InvalidMessage
  else inr (mkChannel (Some (unverified_transport u)) (unverified_fingerprint u) None false).

(** ** The channel *)
Definition channel_close (c : Channel) : Channel := c <| transport := None |> <| pending := None |>.

Definition require_fresh (c : Channel) : ChannelError + unit :=
  match transport c with
  | None => inl ChannelClosed
  | Some _ => if used c then inl InvalidMessage else inr tt
  end.

Definition channel_fail {A} (error : ChannelError) (c : Channel) : (ChannelError + A) * Channel := (inl error, channel_close c).

(** The records of the chunks, in order. *)
Fixpoint seal_chunks (parts : list (list N)) (records : list (list N)) (c : Channel) : (ChannelError + list (list N)) * Channel :=
  match parts with
  | [] => (inr records, c)
  | chunk :: parts =>
      match transport c with
      | None => (inl ChannelClosed, c)
      | Some state =>
          match write_message state chunk with
          | Some (ciphertext, state) =>
              let c := c <| transport := Some state |> in
              if (size ciphertext =? size chunk + TAG_BYTES)%N then seal_chunks parts (records ++ [ciphertext]) c
              else channel_fail InvalidMessage c
          | None => channel_fail InvalidMessage c
          end
      end
  end.

Definition seal_frame (frame : list N) (c : Channel) : (ChannelError + list (list N)) * Channel :=
  match transport c with
  | None => (inl ChannelClosed, c)
  | Some _ =>
      let c := c <| used := true |> in
      if (size frame =? 0)%N || (MAX_MESSAGE_BYTES <? size frame)%N then channel_fail InvalidMessage c
      else seal_chunks (chunks MAX_RECORD_PLAINTEXT (be_bytes_u32 (size frame) ++ frame)) [] c
  end.

(** What an authenticated record adds; [None] is the underflow of
    [pending.total - pending.bytes.len()]. *)
Definition accept_plaintext (plaintext : list N) (c : Channel) : option ((ChannelError + option (list N)) * Channel) :=
  match pending c with
  | Some p =>
      let c := c <| pending := None |> in
      if (total p <? size (pending_bytes p))%N then None
      else if negb (size plaintext =? total p - size (pending_bytes p))%N then Some (channel_fail InvalidMessage c)
      else Some (inr (Some (pending_bytes p ++ plaintext)), c)
  | None =>
      if (size plaintext <? FRAME_HEADER_BYTES)%N then Some (channel_fail InvalidMessage c)
      else
        let total := from_be_bytes (take 4 plaintext) in
        if (total =? 0)%N || (MAX_MESSAGE_BYTES <? total)%N then Some (channel_fail InvalidMessage c)
        else
          let first := drop 4 plaintext in
          if (total <=? MAX_RECORD_PLAINTEXT - FRAME_HEADER_BYTES)%N then
            if negb (size first =? total)%N then Some (channel_fail InvalidMessage c) else Some (inr (Some first), c)
          else if negb (size plaintext =? MAX_RECORD_PLAINTEXT)%N then Some (channel_fail InvalidMessage c)
          else Some (inr None, c <| pending := Some (mkPending total first) |>)
  end.

Definition open_record (ciphertext : list N) (c : Channel) : option ((ChannelError + option (list N)) * Channel) :=
  match transport c with
  | None => Some (inl ChannelClosed, c)
  | Some state =>
      let c := c <| used := true |> in
      if negb (in_range MIN_RECORD_BYTES MAX_RECORD_BYTES (size ciphertext)) then Some (channel_fail InvalidMessage c)
      else match read_message state ciphertext with
           | None => Some (channel_fail InvalidMessage c)
           | Some (plaintext, state) => accept_plaintext plaintext (c <| transport := Some state |>)
           end
  end.
End Channel.
