(* ===== verification/RecordIo.v ===== *)
(** * Incremental record framing ([festerm-automation-mcp/src/secure_record_io.rs])

    Records on a byte stream, each behind a two-byte length: one frame of
    output written piecemeal, and input taken in pieces of any size.  A result
    of [None] is a panic; the panic of a caller's callback is the result
    [Unwound], which leaves the channel closed. *)

From Stdlib Require Import NArith Bool.
From S2P Require Import Prelude SecureChannel.

Definition RECORD_HEADER_BYTES : nat := 2.

(** The outcome of one physical read or write. *)
Inductive ErrorKind := WouldBlock | Interrupted | WriteZero | OtherError (kind : N).
Inductive IoResult := IoOk (count : nat) | IoErr (kind : ErrorKind) | IoPanic.

Inductive RecordError :=
  | RecordChannel (error : ChannelError)
  | InvalidRecord
  | RecordTruncated
  | RecordBusy
  | RecordIoError (kind : ErrorKind).

Inductive WriteProgress := WriteIdle | WriteBlocked | WriteRetry | WritePartial | WriteComplete.

(** What a call with a callback returns. *)
Inductive Called (E A : Type) := Returned (r : E + A) | Unwound.
Arguments Returned {E A} r.
Arguments Unwound {E A}.

Record Output := mkOutput { output_bytes : list N; written : nat }.

Section Records.
Context `{Nz : Noise}.

Record RecordIo := mkRecordIo {
  channel : Channel;
  header : list N;
  header_len : nat;
  record_len : option nat;
  record : list N;
  awaiting_record : bool;
  output : option Output;
  closed : bool
}.
#[export] Instance set_channel : Setter channel := fun v s => mkRecordIo v (header s) (header_len s) (record_len s) (record s) (awaiting_record s) (output s) (closed s).
#[export] Instance set_header : Setter header := fun v s => mkRecordIo (channel s) v (header_len s) (record_len s) (record s) (awaiting_record s) (output s) (closed s).
#[export] Instance set_header_len : Setter header_len := fun v s => mkRecordIo (channel s) (header s) v (record_len s) (record s) (awaiting_record s) (output s) (closed s).
#[export] Instance set_record_len : Setter record_len := fun v s => mkRecordIo (channel s) (header s) (header_len s) v (record s) (awaiting_record s) (output s) (closed s).
#[export] Instance set_record : Setter record := fun v s => mkRecordIo (channel s) (header s) (header_len s) (record_len s) v (awaiting_record s) (output s) (closed s).
#[export] Instance set_awaiting : Setter awaiting_record := fun v s => mkRecordIo (channel s) (header s) (header_len s) (record_len s) (record s) v (output s) (closed s).
#[export] Instance set_output : Setter output := fun v s => mkRecordIo (channel s) (header s) (header_len s) (record_len s) (record s) (awaiting_record s) v (closed s).
#[export] Instance set_closed : Setter closed := fun v s => mkRecordIo (channel s) (header s) (header_len s) (record_len s) (record s) (awaiting_record s) (output s) v.

Definition RecordIo_new (c : Channel) : RecordError + RecordIo :=
  match require_fresh c with
  | inl error => inl (RecordChannel error)
  | inr _ => inr (mkRecordIo c [0; 0]%N 0 None [] false None false)
  end.

Definition record_close (s : RecordIo) : RecordIo :=
  s <| closed := true |> <| channel := channel_close (channel s) |> <| output := None |> <| record := [] |>.

(** The records behind their lengths; [None] where a length is over [u16]. *)
Fixpoint frame_records (records : list (list N)) (out : list N) : option (list N) :=
  match records with
  | [] => Some out
  | r :: records =>
      if (size r <=? u16_max)%N then frame_records records (out ++ be_bytes_u16 (size r) ++ r) else None
  end.

Definition prepare_send (frame : list N) (s : RecordIo) : (RecordError + unit) * RecordIo :=
  if closed s then (inl (RecordChannel ChannelClosed), s)
  else match output s with
       | Some _ => (inl RecordBusy, s)
       | None =>
           match seal_frame frame (channel s) with
           | (inl error, c) => (inl (RecordChannel error), record_close (s <| channel := c |>))
           | (inr records, c) =>
               let s := s <| channel := c |> in
               match frame_records records [] with
               | None => (inl InvalidRecord, record_close s)
               | Some bs => (inr tt, s <| output := Some (mkOutput bs 0) |>)
               end
           end
       end.

(** One physical write of what is pending.  Output that is neither complete
    nor put back closes the channel when its guard is dropped. *)
Definition write_pending (write : list N -> IoResult) (s : RecordIo) : option (Called RecordError WriteProgress * RecordIo) :=
  if closed s then Some (Returned (inl (RecordChannel ChannelClosed)), s)
  else match output s with
       | None => Some (Returned (inr WriteIdle), s)
       | Some out =>
           let taken := s <| output := None |> in
           pending ← slice (output_bytes out) (written out) (length (output_bytes out));
           Some (match write pending with
                 | IoPanic => (Unwound, record_close taken)
                 | IoErr WouldBlock => (Returned (inr WriteBlocked), taken <| output := Some out |>)
                 | IoErr Interrupted => (Returned (inr WriteRetry), taken <| output := Some out |>)
                 | IoErr kind => (Returned (inl (RecordIoError kind)), record_close taken)
                 | IoOk count =>
                     if count =? 0 then (Returned (inl (RecordIoError WriteZero)), record_close taken)
                     else if length pending <? count then (Returned (inl InvalidRecord), record_close taken)
                     else
                       let out := mkOutput (output_bytes out) (written out + count) in
                       if written out =? length (output_bytes out) then (Returned (inr WriteComplete), taken)
                       else (Returned (inr WritePartial), taken <| output := Some out |>)
                 end)
       end.

(** The part of a turn of [receive] that reads the header: the bytes used, and
    whether the header is complete. *)
Definition fill_header (rest : list N) (s : RecordIo) : option ((RecordError + (nat * bool)) * RecordIo) :=
  if header_len s <? RECORD_HEADER_BYTES then
    let count := Nat.min (RECORD_HEADER_BYTES - header_len s) (length rest) in
    header' ← write_slice (header s) (header_len s) (take count rest);
    let s := s <| header := header' |> <| header_len := header_len s + count |> in
    if header_len s <? RECORD_HEADER_BYTES then Some (inr (count, false), s)
    else
      let len := from_be_bytes (header s) in
      if negb (in_range MIN_RECORD_BYTES MAX_RECORD_BYTES len) then Some (inl InvalidRecord, record_close s)
      else Some (inr (count, true), s <| record_len := Some (N.to_nat len) |> <| record := [] |>)
  else Some (inr (0, true), s).

(** The part that reads the record: the bytes used, and whether it is
    complete. *)
Definition fill_record (rest : list N) (s : RecordIo) : option ((nat * bool) * RecordIo) :=
  len ← record_len s;
  if len <? length (record s) then None
  else
    let count := Nat.min (len - length (record s)) (length rest) in
    let s := s <| record := record s ++ take count rest |> in
    Some ((count, length (record s) =? len), s).

(** The loop of [receive] over what is left of the input, [n] bytes of it
    used.  Each turn takes at least a byte. *)
Fixpoint receive_loop (fuel : nat) (rest : list N) (n : nat) (s : RecordIo)
    : option ((RecordError + (nat * option (list N))) * RecordIo) :=
  match fuel with
  | O => None
  | S fuel =>
      match rest with
      | [] => Some (inr (n, None), s)
      | _ =>
          '(head, s) ← fill_header rest s;
          match head with
          | inl error => Some (inl error, s)
          | inr (count, false) => Some (inr (n + count, None), s)
          | inr (count, true) =>
              let rest := drop count rest in
              let n := n + count in
              '((count, complete), s) ← fill_record rest s;
              let rest := drop count rest in
              let n := n + count in
              if negb complete then Some (inr (n, None), s)
              else
                '(opened, c) ← open_record (record s) (channel s);
                let s := s <| channel := c |> in
                match opened with
                | inl error => Some (inl (RecordChannel error), record_close s)
                | inr frame =>
                    let s := s <| header_len := 0 |> <| record_len := None |> <| record := [] |>
                               <| awaiting_record := match frame with None => true | Some _ => false end |> in
                    match frame with
                    | Some _ => Some (inr (n, frame), s)
                    | None => receive_loop fuel rest n s
                    end
                end
          end
      end
  end.

Definition receive (input : list N) (s : RecordIo) : option ((RecordError + (nat * option (list N))) * RecordIo) :=
  if closed s then Some (inl (RecordChannel ChannelClosed), s) else receive_loop (S (length input)) input 0 s.

Definition record_end_input (s : RecordIo) : (RecordError + unit) * RecordIo :=
  if closed s then (inl (RecordChannel ChannelClosed), s)
  else
    let truncated := negb (header_len s =? 0) || awaiting_record s || match output s with Some _ => true | None => false end in
    ((if truncated then inl RecordTruncated else inr tt), record_close s).
End Records.
