(* ===== verification/ChannelSpec.v ===== *)
(** * Frames and records

    What the Noise implementation is relied on for, and how a frame is cut
    into records and put together again. *)

From Stdlib Require Import NArith Bool.
From S2P Require Import Prelude SecureChannel.

(** A transport has a cipher for each direction, which moves on with each
    message: what one side writes with a cipher is read with the same cipher,
    and only what was sealed with it is read. *)
Class NoiseLaws (Nz : Noise) := {
  cipher : Type;
  tx : TransportState -> cipher;
  rx : TransportState -> cipher;
  seal : cipher -> list N -> list N;
  next : cipher -> cipher;
  law_write s p c s' : write_message s p = Some (c, s') ->
    c = seal (tx s) p /\ size c = (size p + TAG_BYTES)%N /\ tx s' = next (tx s) /\ rx s' = rx s;
  law_read s c p s' : read_message s c = Some (p, s') -> c = seal (rx s) p /\ rx s' = next (rx s) /\ tx s' = tx s;
  law_deliver w r p c w' : write_message w p = Some (c, w') -> tx w = rx r -> exists r', read_message r c = Some (p, r')
}.

(** ** Integers *)
Lemma from_be_u16 n : from_be_bytes (be_bytes_u16 n) = n.
Proof. unfold from_be_bytes, be_bytes_u16. cbn [foldl]. pose proof (N.div_mod n 256 ltac:(done)). lia. Qed.

Lemma from_be_u32 n : (n <= MAX_MESSAGE_BYTES)%N -> from_be_bytes (be_bytes_u32 n) = n.
Proof.
  unfold MAX_MESSAGE_BYTES. intros H. unfold from_be_bytes, be_bytes_u32. cbn [foldl].
  rewrite (N.div_small n 16777216) by lia. rewrite N.mul_0_l, N.add_0_l.
  pose proof (N.div_mod n 65536 ltac:(done)) as E1. pose proof (N.mod_lt n 65536 ltac:(done)).
  pose proof (N.div_mod n 256 ltac:(done)) as E2. pose proof (N.mod_lt n 256 ltac:(done)).
  assert (n / 65536 <= 1)%N by (apply N.Div0.div_le_upper_bound; lia). rewrite (N.mod_small (n / 65536)) by lia.
  pose proof (N.div_mod (n / 256) 256 ltac:(done)) as E3. rewrite N.Div0.div_div in E3. change (256 * 256)%N with 65536%N in E3. lia.
Qed.

Lemma size_app a b : size (a ++ b) = (size a + size b)%N.
Proof. unfold size. rewrite length_app. lia. Qed.

(** ** The records of a frame *)
Definition framed (f : list N) : list N := be_bytes_u32 (size f) ++ f.
Definition frame_parts (f : list N) : list (list N) := chunks MAX_RECORD_PLAINTEXT (framed f).
Definition frame_ok (f : list N) : Prop := (0 < size f <= MAX_MESSAGE_BYTES)%N.

Lemma framed_size f : size (framed f) = (size f + 4)%N.
Proof. unfold framed. rewrite size_app. unfold size at 1. cbn. lia. Qed.

Lemma chunks_cons fuel n bs : bs <> [] -> chunks_fuel (S fuel) n bs = take n bs :: chunks_fuel fuel n (drop n bs).
Proof. by destruct bs. Qed.

Lemma chunks_nil fuel n : chunks_fuel fuel n [] = [].
Proof. by destruct fuel. Qed.

(** A frame takes one record, or two. *)
Lemma frame_parts_cases f : frame_ok f ->
  ((size (framed f) <= MAX_RECORD_PLAINTEXT)%N /\ frame_parts f = [framed f]) \/
  ((MAX_RECORD_PLAINTEXT < size (framed f))%N /\
   exists a b, framed f = a ++ b /\ size a = MAX_RECORD_PLAINTEXT /\ (0 < size b <= 21)%N /\ frame_parts f = [a; b]).
Proof.
  intros [H0 H1]. pose proof (framed_size f) as Hs. unfold frame_parts, chunks. set (bs := framed f) in *.
  assert (MAX_RECORD_PLAINTEXT = 65519%N) as E by done. unfold MAX_MESSAGE_BYTES in H1. rewrite E in *.
  assert (bs <> []) as Hne by (intros E0; rewrite E0 in Hs; change (size []) with 0%N in Hs; lia).
  destruct (length bs) as [|fuel] eqn:El; [by destruct bs|]. rewrite chunks_cons by done. unfold size in Hs.
  destruct (N.le_gt_cases (size bs) 65519) as [Hle|Hgt]; unfold size in *.
  - left. split; [done|]. rewrite take_ge, drop_ge by lia. by rewrite chunks_nil.
  - right. split; [done|]. exists (take (N.to_nat 65519) bs), (drop (N.to_nat 65519) bs). rewrite take_drop, length_take, length_drop.
    split_and!; [done|lia|lia|lia|]. f_equal. assert (drop (N.to_nat 65519) bs <> []) as Hd.
    { intros Hd. apply (f_equal length) in Hd. rewrite length_drop in Hd. cbn [length] in Hd. lia. }
    destruct fuel as [|fuel]; [exfalso; lia|]. rewrite chunks_cons by done.
    rewrite take_ge, (drop_ge (drop _ _)) by (rewrite length_drop; lia). by rewrite chunks_nil.
Qed.

(** ** Putting frames together

    What a plaintext adds to the frame in progress. *)
Definition assemble (p : option PendingFrame) (plaintext : list N) : option (option (list N) * option PendingFrame) :=
  match p with
  | Some p =>
      if (size plaintext =? total p - size (pending_bytes p))%N then Some (Some (pending_bytes p ++ plaintext), None) else None
  | None =>
      let n := from_be_bytes (take 4 plaintext) in
      let first := drop 4 plaintext in
      if (size plaintext <? FRAME_HEADER_BYTES)%N || (n =? 0)%N || (MAX_MESSAGE_BYTES <? n)%N then None
      else if (n <=? MAX_RECORD_PLAINTEXT - FRAME_HEADER_BYTES)%N then
        if (size first =? n)%N then Some (Some first, None) else None
      else if (size plaintext =? MAX_RECORD_PLAINTEXT)%N then Some (None, Some (mkPending n first)) else None
  end.

Definition pending_ok (p : option PendingFrame) : Prop :=
  match p with Some p => (size (pending_bytes p) <= total p)%N | None => True end.

Lemma assemble_pending p plaintext f p' : assemble p plaintext = Some (f, p') -> pending_ok p'.
Proof.
  unfold assemble. destruct p as [p|]; [by destruct (_ =? _)%N; [intros [= _ <-]|]|].
  destruct (_ || _); [done|]. destruct (N.leb_spec (from_be_bytes (take 4 plaintext)) (MAX_RECORD_PLAINTEXT - FRAME_HEADER_BYTES)) as [|Hgt].
  { by destruct (_ =? _)%N; [intros [= _ <-]|]. }
  destruct (N.eqb_spec (size plaintext) MAX_RECORD_PLAINTEXT) as [E|]; [|done]. intros [= _ <-]. cbn.
  unfold size in *. rewrite length_drop. unfold FRAME_HEADER_BYTES in Hgt. lia.
Qed.

(** The frames of the plaintexts so far, and the frame in progress. *)
Inductive assembled : list (list N) -> list (list N) -> option PendingFrame -> Prop :=
  | assembled_nil : assembled [] [] None
  | assembled_snoc ps frames p plaintext f p' :
      assembled ps frames p -> assemble p plaintext = Some (f, p') ->
      assembled (ps ++ [plaintext]) (frames ++ option_list f) p'.

Lemma assembled_ok ps frames p : assembled ps frames p -> pending_ok p.
Proof. destruct 1; [done|by eapply assemble_pending]. Qed.

Lemma assembled_det ps frames p : assembled ps frames p -> forall frames' p', assembled ps frames' p' -> frames = frames' /\ p = p'.
Proof.
  induction 1 as [|ps frames p x f p1 H IH Ea]; intros frames' p' H'.
  - inversion H' as [|ps' ? ? ? ? ? ? ? E]; subst; [done|]. by destruct ps'.
  - inversion H' as [E|ps' frs q y g q' H2 Eb E]; subst; [by destruct ps|]. apply app_inj_tail in E as [-> ->].
    destruct (IH _ _ H2) as [-> ->]. rewrite Ea in Eb. by injection Eb as -> ->.
Qed.

Lemma assembled_prefix ps x frames p : assembled (ps ++ [x]) frames p ->
  exists frs q, assembled ps frs q /\ frs `prefix_of` frames.
Proof.
  intros H. inversion H as [E|ps' frs q y g q' H2 Eb E]; subst; [by destruct ps|]. apply app_inj_tail in E as [-> ->].
  exists frs, q. split; [done|]. by exists (option_list g).
Qed.

Lemma assemble_single f : frame_ok f -> (size (framed f) <= MAX_RECORD_PLAINTEXT)%N -> assemble None (framed f) = Some (Some f, None).
Proof.
  intros [H0 H1] Hs. pose proof (framed_size f) as Hf. unfold assemble.
  change (take 4 (framed f)) with (be_bytes_u32 (size f)). change (drop 4 (framed f)) with f. rewrite from_be_u32 by done.
  unfold FRAME_HEADER_BYTES, MAX_MESSAGE_BYTES in *. change (MAX_RECORD_PLAINTEXT - 4)%N with 65515%N.
  change MAX_RECORD_PLAINTEXT with 65519%N in *.
  rewrite (proj2 (N.ltb_ge _ _)), (proj2 (N.eqb_neq _ _)), (proj2 (N.ltb_ge _ _)) by lia. cbn [orb].
  rewrite (proj2 (N.leb_le _ _)), N.eqb_refl by lia. done.
Qed.

Lemma assemble_pair f a b : frame_ok f -> (MAX_RECORD_PLAINTEXT < size (framed f))%N -> framed f = a ++ b -> size a = MAX_RECORD_PLAINTEXT ->
  exists p, assemble None a = Some (None, Some p) /\ assemble (Some p) b = Some (Some f, None).
Proof.
  intros [H0 H1] Hs Ef Ha. pose proof (framed_size f) as Hf. assert (MAX_RECORD_PLAINTEXT = 65519%N) as Ec by done. rewrite Ec in *.
  assert (4 <= length a) as H4 by (unfold size in Ha; lia).
  assert (take 4 a = be_bytes_u32 (size f)) as Et.
  { transitivity (take 4 (framed f)); [by rewrite Ef, take_app_le|done]. }
  assert (f = drop 4 a ++ b) as Efd.
  { transitivity (drop 4 (framed f)); [done|]. by rewrite Ef, drop_app_le. }
  exists (mkPending (size f) (drop 4 a)). unfold assemble. rewrite Et, from_be_u32 by done. cbn [total pending_bytes].
  unfold FRAME_HEADER_BYTES. change (MAX_RECORD_PLAINTEXT - 4)%N with 65515%N. unfold MAX_MESSAGE_BYTES in *. rewrite Ha.
  rewrite (proj2 (N.eqb_neq _ _)), (proj2 (N.ltb_ge 65536 _)) by lia. cbn [orb]. rewrite (proj2 (N.leb_gt _ _)) by lia.
  split; [done|]. assert (size b = size f - size (drop 4 a))%N as -> by (rewrite Efd at 1; rewrite size_app; lia).
  rewrite N.eqb_refl. by rewrite <- Efd.
Qed.

Lemma assembled_frame ps frames f : assembled ps frames None -> frame_ok f -> assembled (ps ++ frame_parts f) (frames ++ [f]) None.
Proof.
  intros H Hf. destruct (frame_parts_cases f Hf) as [[Hs ->]|(Hs & a & b & Ef & Ha & Hb & ->)].
  - apply (assembled_snoc _ _ None _ (Some f)); [done|]. by apply assemble_single.
  - destruct (assemble_pair f a b Hf Hs Ef Ha) as (p & E1 & E2). change [a; b] with ([a] ++ [b]). rewrite app_assoc.
    apply (assembled_snoc _ _ (Some p) _ (Some f)); [|done]. rewrite <- (app_nil_r frames). by apply (assembled_snoc _ _ None _ None).
Qed.

(** All the records of a list of frames. *)
Definition all_parts (fs : list (list N)) : list (list N) := concat (map frame_parts fs).

Arguments all_parts : simpl never.
Arguments frame_parts : simpl never.

Lemma all_parts_snoc fs f : all_parts (fs ++ [f]) = all_parts fs ++ frame_parts f.
Proof. unfold all_parts. rewrite map_app, concat_app. cbn. by rewrite app_nil_r. Qed.

Lemma all_assembled fs : Forall frame_ok fs -> assembled (all_parts fs) fs None.
Proof.
  induction fs as [|f fs IH] using rev_ind; intros H; [constructor|]. apply Forall_app in H as [H Hf]. apply Forall_cons_iff in Hf as [Hf _].
  rewrite all_parts_snoc. by apply assembled_frame; [apply IH|].
Qed.

(** Any prefix of the records of frames assembles, into a prefix of them. *)
Lemma prefix_assembles fs ps : Forall frame_ok fs -> ps `prefix_of` all_parts fs ->
  exists frames p, assembled ps frames p /\ frames `prefix_of` fs.
Proof.
  intros Hfs [rest E]. revert ps E. induction rest as [|x rest IH]; intros ps E.
  - rewrite app_nil_r in E. exists fs, None. rewrite <- E. split; [by apply all_assembled|done].
  - destruct (IH (ps ++ [x])) as (frames & p & Ha & Hp); [by rewrite <- app_assoc|]. destruct (assembled_prefix _ _ _ _ Ha) as (frs & q & Hq & Hpre).
    exists frs, q. split; [done|]. by transitivity frames.
Qed.

(** Each part of a frame is a plaintext a record can carry. *)
Lemma frame_parts_size f x : frame_ok f -> x ∈ frame_parts f -> (0 < size x <= MAX_RECORD_PLAINTEXT)%N.
Proof.
  intros Hf Hx. pose proof (framed_size f) as Hs. destruct (frame_parts_cases f Hf) as [[H E]|(H & a & b & Ef & Ha & Hb & E)]; rewrite E in Hx.
  - apply list_elem_of_singleton in Hx as ->. destruct Hf. lia.
  - rewrite !elem_of_cons in Hx. assert (MAX_RECORD_PLAINTEXT = 65519%N) as Ec by done. destruct Hx as [->|[->|Hx]]; [lia|lia|by apply elem_of_nil in Hx].
Qed.
