(* ===== verification/RecordSpec.v ===== *)
(** * A secure stream delivers the frames that were sent

    The two ends of a stream of records: the sender's calls with any outcome of
    each physical write, and the receiver's calls on input cut anywhere. *)

From Stdlib Require Import NArith Bool.
From S2P Require Import Prelude SecureChannel RecordIo ChannelSpec.

Definition is_bytes (bs : list N) : Prop := Forall (fun b => (b < 256)%N) bs.

Section Stream.
Context `{Nz : Noise} `{Laws : !NoiseLaws Nz}.

(** ** The bytes of a list of plaintexts *)
Fixpoint advance (n : nat) (k : cipher) : cipher := match n with O => k | S n => advance n (next k) end.

Fixpoint sealed_from (k : cipher) (ps : list (list N)) : list (list N) :=
  match ps with [] => [] | p :: ps => seal k p :: sealed_from (next k) ps end.

Definition frame_record (c : list N) : list N := be_bytes_u16 (size c) ++ c.
Definition wire (k : cipher) (ps : list (list N)) : list N := concat (map frame_record (sealed_from k ps)).

Arguments wire : simpl never.

Lemma advance_snoc n k : advance (S n) k = next (advance n k).
Proof. revert k. induction n as [|n IH]; intros k; [done|]. cbn in *. apply IH. Qed.

Lemma advance_add n m k : advance (n + m) k = advance m (advance n k).
Proof. revert k. induction n as [|n IH]; intros k; [done|]. cbn. apply IH. Qed.

Lemma sealed_from_app k ps qs : sealed_from k (ps ++ qs) = sealed_from k ps ++ sealed_from (advance (length ps) k) qs.
Proof. revert k. induction ps as [|p ps IH]; intros k; [done|]. cbn. by rewrite IH. Qed.

Lemma wire_app k ps qs : wire k (ps ++ qs) = wire k ps ++ wire (advance (length ps) k) qs.
Proof. unfold wire. by rewrite sealed_from_app, map_app, concat_app. Qed.

Lemma wire_snoc k ps p : wire k (ps ++ [p]) = wire k ps ++ frame_record (seal (advance (length ps) k) p).
Proof. rewrite wire_app. unfold wire at 2. cbn. by rewrite app_nil_r. Qed.

(** ** The sender *)
Definition writable (k : cipher) (p : list N) : Prop := exists w c w', write_message w p = Some (c, w') /\ tx w = k.

Fixpoint writables (k : cipher) (ps : list (list N)) : Prop :=
  match ps with [] => True | p :: ps => writable k p /\ writables (next k) ps end.

Lemma writables_app k ps qs : writables k ps -> writables (advance (length ps) k) qs -> writables k (ps ++ qs).
Proof. revert k. induction ps as [|p ps IH]; intros k; [done|]. cbn. intros [? ?] ?. split; [done|by apply IH]. Qed.

Lemma writables_lookup k ps i p : writables k ps -> ps !! i = Some p -> writable (advance i k) p.
Proof. revert k i. induction ps as [|q ps IH]; intros k i; [done|]. intros [Hq Hps]. destruct i as [|i]; cbn; [by intros [= <-]|by apply IH]. Qed.

Lemma writable_size k p : writable k p -> size (seal k p) = (size p + TAG_BYTES)%N.
Proof. intros (w & c & w' & E & <-). destruct (law_write _ _ _ _ E) as (-> & Hs & _). done. Qed.

Lemma writable_reads k p r : writable k p -> rx r = k -> exists r', read_message r (seal k p) = Some (p, r').
Proof.
  intros (w & c & w' & E & <-) Er. destruct (law_deliver w r p c w' E ltac:(done)) as (r' & Hr). destruct (law_write _ _ _ _ E) as (-> & _). by exists r'.
Qed.

Lemma seal_chunks_spec parts : forall acc c st, transport c = Some st ->
  match seal_chunks parts acc c with
  | (inl _, c') => True
  | (inr records, c') => records = acc ++ sealed_from (tx st) parts /\ writables (tx st) parts /\
      exists st', transport c' = Some st' /\ tx st' = advance (length parts) (tx st) /\ rx st' = rx st /\ pending c' = pending c
  end.
Proof.
  induction parts as [|p parts IH]; intros acc c st E; cbn [seal_chunks]; [rewrite app_nil_r; split_and!; [done..|by exists st]|].
  rewrite E. destruct (write_message st p) as [[ct st1]|] eqn:Ew; [|done]. destruct (law_write _ _ _ _ Ew) as (-> & Hs & Ht & Hr).
  rewrite Hs, N.eqb_refl. specialize (IH (acc ++ [seal (tx st) p]) (c <| transport := Some st1 |>) st1 eq_refl).
  destruct (seal_chunks parts _ _) as [[e|records] c']; [done|]. destruct IH as (-> & Hw & st' & E1 & E2 & E3 & E4). rewrite Ht in *.
  cbn [sealed_from writables length advance]. rewrite <- app_assoc. split_and!; [done| |done|].
  - by exists st, (seal (tx st) p), st1.
  - exists st'. split_and!; [done|done|by rewrite E3|done].
Qed.

Lemma frame_records_spec records : forall out, Forall (fun r => (size r <= u16_max)%N) records ->
  frame_records records out = Some (out ++ concat (map frame_record records)).
Proof.
  induction records as [|r records IH]; intros out H; cbn; [by rewrite app_nil_r|]. apply Forall_cons_iff in H as [Hr H].
  rewrite (proj2 (N.leb_le _ _)), IH by done. rewrite <- !app_assoc. done.
Qed.

Inductive SendOp := Send (frame : list N) | Push (write : list N -> IoResult).

(** The frames accepted for sending, and the bytes the writer took. *)
Record Sender := mkSender { sender_io : RecordIo; sent : list (list N); emitted : list N }.

Definition unwritten (s : RecordIo) : list N :=
  match output s with Some out => drop (written out) (output_bytes out) | None => [] end.

Definition pushed (write : list N -> IoResult) (s : RecordIo) : list N :=
  if closed s then []
  else match output s with
       | None => []
       | Some _ => match write (unwritten s) with
                   | IoOk n => if n <=? length (unwritten s) then take n (unwritten s) else []
                   | _ => []
                   end
       end.

Definition send_step (op : SendOp) (s : Sender) : option Sender :=
  match op with
  | Send frame =>
      let '(r, io) := prepare_send frame (sender_io s) in
      Some (mkSender io (match r with inr _ => sent s ++ [frame] | inl _ => sent s end) (emitted s))
  | Push write =>
      '(_, io) ← write_pending write (sender_io s);
      Some (mkSender io (sent s) (emitted s ++ pushed write (sender_io s)))
  end.

Fixpoint send_steps (ops : list SendOp) (s : Sender) : option Sender :=
  match ops with [] => Some s | op :: ops => s ← send_step op s; send_steps ops s end.

(** What was sealed is on the stream or waiting to be; a closed sender may
    have lost the rest. *)
Record sender_ok (k : cipher) (s : Sender) : Prop := mk_sender_ok {
  sn_frames : Forall frame_ok (sent s);
  sn_writable : writables k (all_parts (sent s));
  sn_prefix : emitted s `prefix_of` wire k (all_parts (sent s));
  sn_output : forall out, output (sender_io s) = Some out -> written out <= length (output_bytes out);
  sn_open : closed (sender_io s) = false ->
    emitted s ++ unwritten (sender_io s) = wire k (all_parts (sent s)) /\
    exists st, transport (channel (sender_io s)) = Some st /\ tx st = advance (length (all_parts (sent s))) k
}.

Lemma sender_closes k s io : sender_ok k s -> output io = None -> closed io = true -> sender_ok k (mkSender io (sent s) (emitted s)).
Proof. intros [H1 H2 H3 _ _] Ho Hc. split; cbn; [done..| |]; rewrite ?Ho, ?Hc; done. Qed.

Lemma sealed_sizes k ps : writables k ps -> Forall (fun p => (0 < size p <= MAX_RECORD_PLAINTEXT)%N) ps ->
  Forall (fun r => (MIN_RECORD_BYTES <= size r <= MAX_RECORD_BYTES)%N) (sealed_from k ps).
Proof.
  revert k. induction ps as [|p ps IH]; intros k; [constructor|]. intros [Hw Hws] [Hp Hps]%Forall_cons_iff. constructor; [|by apply IH].
  rewrite (writable_size _ _ Hw). unfold MIN_RECORD_BYTES, MAX_RECORD_PLAINTEXT, MAX_RECORD_BYTES, TAG_BYTES in *. lia.
Qed.

Lemma all_parts_sizes fs : Forall frame_ok fs -> Forall (fun p => (0 < size p <= MAX_RECORD_PLAINTEXT)%N) (all_parts fs).
Proof.
  induction 1 as [|f fs Hf _ IH]; [constructor|].
  change (all_parts (f :: fs)) with (frame_parts f ++ all_parts fs). apply Forall_app_2; [|done].
  apply list.Forall_forall. intros x Hx. by apply (frame_parts_size f).
Qed.

Lemma prepare_send_ok k s frame : sender_ok k s ->
  let '(r, io) := prepare_send frame (sender_io s) in
  sender_ok k (mkSender io (match r with inr _ => sent s ++ [frame] | inl _ => sent s end) (emitted s)).
Proof.
  intros Hs. unfold prepare_send. destruct (closed (sender_io s)) eqn:Ec; [by destruct s|].
  destruct (output (sender_io s)) eqn:Eo; [by destruct s|]. destruct (sn_open _ _ Hs Ec) as (Ew & st & Et & Ek).
  unfold unwritten in Ew. rewrite Eo, app_nil_r in Ew.
  unfold seal_frame. rewrite Et. destruct (_ || _) eqn:Esz; [by apply sender_closes|].
  apply orb_false_iff in Esz as [H0%N.eqb_neq H1%N.ltb_ge]. assert (frame_ok frame) as Hf by (unfold frame_ok; lia).
  fold (framed frame). fold (frame_parts frame).
  pose proof (seal_chunks_spec (frame_parts frame) [] ((channel (sender_io s)) <| used := true |>) st) as H. specialize (H ltac:(by cbn)).
  destruct (seal_chunks _ _ _) as [[e|records] c']; [by apply sender_closes|]. destruct H as (-> & Hw & st' & E1 & E2 & _).
  assert (Forall frame_ok (sent s ++ [frame])) as Hfs by (apply Forall_app_2; [apply Hs|by apply Forall_singleton]).
  cbn [app]. rewrite frame_records_spec; cbn [app].
  2:{ assert (Forall (fun p => (0 < size p <= MAX_RECORD_PLAINTEXT)%N) (frame_parts frame)) as Hp.
      { apply list.Forall_forall. intros x. by apply frame_parts_size. }
      eapply list.Forall_impl; [exact (sealed_sizes _ _ Hw Hp)|]. cbn. unfold MAX_RECORD_BYTES, u16_max. lia. }
  fold (wire (tx st) (frame_parts frame)). rewrite Ek in *. split; cbn.
  - done.
  - rewrite all_parts_snoc. apply writables_app; [apply Hs|done].
  - rewrite all_parts_snoc, wire_app, <- Ew. by apply prefix_app_r.
  - intros out [= <-]. cbn. lia.
  - intros _. rewrite all_parts_snoc, wire_app, <- Ew. unfold unwritten. cbn. split; [done|].
    exists st'. split; [done|]. by rewrite E2, length_app, advance_add.
Qed.

Lemma write_pending_ok k s write : sender_ok k s ->
  exists r io, write_pending write (sender_io s) = Some (r, io) /\
    sender_ok k (mkSender io (sent s) (emitted s ++ pushed write (sender_io s))).
Proof.
  intros Hs. unfold write_pending, pushed. destruct (closed (sender_io s)) eqn:Ec; [rewrite app_nil_r; eexists _, _; split; [done|]; by destruct s|].
  destruct (output (sender_io s)) as [out|] eqn:Eo; [|rewrite app_nil_r; eexists _, _; split; [done|]; by destruct s].
  pose proof (sn_output _ _ Hs _ Eo) as Hw. destruct (sn_open _ _ Hs Ec) as (Ew & st & Et & Ek). unfold unwritten in *. rewrite Eo in *.
  unfold slice. rewrite (proj2 (Nat.leb_le _ _)), Nat.leb_refl by done. cbn [andb mbind option_bind].
  rewrite take_ge by (rewrite length_drop; lia). set (rest := drop (written out) (output_bytes out)) in *. cbn [app].
  assert (forall io, output io = None -> closed io = true -> sender_ok k (mkSender io (sent s) (emitted s ++ []))) as Hcl.
  { intros io ? ?. rewrite app_nil_r. by apply sender_closes. }
  assert (sender_ok k (mkSender ((sender_io s) <| output := None |> <| output := Some out |>) (sent s) (emitted s ++ []))) as Hback.
  { rewrite app_nil_r. destruct Hs as [A B C D E]. split; cbn; [done..| |].
    - by intros o [= <-].
    - intros _. unfold unwritten. cbn. split; [done|by exists st]. }
  destruct (write rest) as [n|kind|].
  2:{ destruct kind; eexists _, _; (split; [done|]); first [exact Hback|by apply Hcl]. }
  2:{ eexists _, _. split; [done|]. by apply Hcl. }
  destruct (Nat.eqb_spec n 0) as [->|Hn].
  { rewrite (proj2 (Nat.leb_le 0 _)) by lia. rewrite take_0. eexists _, _. split; [done|]. by apply Hcl. }
  destruct (Nat.ltb_spec (length rest) n) as [Hgt|Hle].
  { rewrite (proj2 (Nat.leb_gt _ _)) by done. eexists _, _. split; [done|]. by apply Hcl. }
  rewrite (proj2 (Nat.leb_le n _)) by done. cbn [written output_bytes].
  assert (length rest = length (output_bytes out) - written out) as Hlr by (unfold rest; by rewrite length_drop).
  assert (emitted s ++ take n rest `prefix_of` wire k (all_parts (sent s))) as Hpre.
  { exists (drop n rest). by rewrite <- app_assoc, take_drop. }
  assert (drop (written out + n) (output_bytes out) = drop n rest) as Hd by (unfold rest; by rewrite drop_drop).
  destruct Hs as [A B C D E]. destruct (Nat.eqb_spec (written out + n) (length (output_bytes out))) as [Eall|Hmore].
  - eexists _, _. split; [done|]. split; cbn; [done..|]. intros _. unfold unwritten. cbn. rewrite app_nil_r. split; [|by exists st].
    rewrite take_ge by lia. done.
  - eexists _, _. split; [done|]. split; cbn; [done..| |].
    + intros o [= <-]. cbn. lia.
    + intros _. unfold unwritten. cbn. rewrite Hd, <- app_assoc, take_drop. split; [done|by exists st].
Qed.

Lemma send_steps_ok k ops : forall s, sender_ok k s -> exists s', send_steps ops s = Some s' /\ sender_ok k s'.
Proof.
  induction ops as [|op ops IH]; intros s Hs; [by exists s|]. cbn [send_steps]. destruct op as [frame|write]; cbn [send_step].
  - pose proof (prepare_send_ok k s frame Hs) as H. destruct (prepare_send frame (sender_io s)) as [r io]. cbn [mbind option_bind]. by apply IH.
  - destruct (write_pending_ok k s write Hs) as (r & io & -> & H). cbn [mbind option_bind]. by apply IH.
Qed.

(** A verified channel that has carried nothing. *)
Definition fresh (c : Channel) (st : TransportState) : Prop := transport c = Some st /\ pending c = None /\ used c = false.

Definition sender_of (io : RecordIo) : Sender := mkSender io [] [].

Lemma fresh_io c st : fresh c st -> RecordIo_new c = inr (mkRecordIo c [0; 0]%N 0 None [] false None false).
Proof. intros (E & _ & Hu). unfold RecordIo_new, require_fresh. by rewrite E, Hu. Qed.

Lemma fresh_sender c st io : fresh c st -> RecordIo_new c = inr io -> sender_ok (tx st) (sender_of io).
Proof.
  intros Hf. rewrite (fresh_io c st Hf). intros [= <-]. split; cbn; [constructor|done|done|done|]. intros _. split; [done|].
  exists st. split; [apply Hf|done].
Qed.

(** ** One record *)
Lemma accept_plaintext_spec plaintext c : pending_ok (pending c) ->
  accept_plaintext plaintext c =
    Some (match assemble (pending c) plaintext with
          | Some (f, p') => (inr f, c <| pending := p' |>)
          | None => (inl InvalidMessage, channel_close c)
          end).
Proof.
  intros Hp. unfold accept_plaintext, assemble. destruct c as [t fp p u]. cbn [pending] in *. destruct p as [p|].
  - cbn in Hp. rewrite (proj2 (N.ltb_ge _ _)) by done. by destruct (_ =? _)%N.
  - destruct (size plaintext <? FRAME_HEADER_BYTES)%N; [done|]. cbn [orb]. destruct (_ || _); [done|].
    destruct (_ <=? _)%N; [by destruct (_ =? _)%N|]. by destruct (_ =? _)%N.
Qed.

Lemma open_record_spec k ps frames ct c st :
  transport c = Some st -> rx st = advance (length ps) k -> assembled ps frames (pending c) ->
  exists r c', open_record ct c = Some (r, c') /\
    match r with
    | inl _ => transport c' = None /\
        forall p q, (MIN_RECORD_BYTES <= size ct <= MAX_RECORD_BYTES)%N -> ct = seal (rx st) p -> writable (rx st) p -> assemble (pending c) p <> Some q
    | inr f => exists p st', ct = seal (rx st) p /\ transport c' = Some st' /\ rx st' = advance (length (ps ++ [p])) k /\
        assembled (ps ++ [p]) (frames ++ option_list f) (pending c') /\ (forall q, ct = seal (rx st) q -> writable (rx st) q -> p = q)
    end.
Proof.
  intros Et Er Ha. unfold open_record. rewrite Et. destruct (in_range _ _ _) eqn:Ein; cbn [negb].
  2:{ eexists _, _. split; [done|]. split; [done|]. intros p q [H1 H2] _ _. unfold in_range in Ein.
      rewrite (proj2 (N.leb_le _ _) H1), (proj2 (N.leb_le _ _) H2) in Ein. done. }
  destruct (read_message st ct) as [[plain st1]|] eqn:Erd.
  - destruct (law_read _ _ _ _ Erd) as (-> & Hn & _). rewrite accept_plaintext_spec by (cbn; by apply (assembled_ok ps frames)). cbn [pending].
    change (pending (set_field transport (Some st1) (set_field used true c))) with (pending c).
    assert (forall q, seal (rx st) plain = seal (rx st) q -> writable (rx st) q -> plain = q) as Hdet.
    { intros q E Hw. destruct (writable_reads _ _ st Hw eq_refl) as (r' & E'). rewrite <- E, Erd in E'. by injection E'. }
    destruct (assemble (pending c) plain) as [[f p']|] eqn:Ea.
    + eexists _, _. split; [done|]. exists plain, st1. split_and!; [done|done| |by apply (assembled_snoc _ _ (pending c))|done].
      rewrite length_app, Nat.add_1_r, advance_snoc, <- Er. done.
    + eexists _, _. split; [done|]. split; [done|]. intros p q _ E Hw. rewrite <- (Hdet p E Hw). by rewrite Ea.
  - eexists _, _. split; [done|]. split; [done|]. intros p q _ -> Hw. destruct (writable_reads _ _ st Hw eq_refl) as (r' & E'). congruence.
Qed.

(** ** A record in pieces

    [partial] is what has been taken of the record in progress. *)
Definition in_progress (s : RecordIo) (partial : list N) : Prop :=
  length (header s) = 2 /\
  ((header_len s < 2 /\ partial = take (header_len s) (header s)) \/
   (header_len s = 2 /\ partial = header s ++ record s /\
    exists len, record_len s = Some len /\ N.of_nat len = from_be_bytes (header s) /\
      (MIN_RECORD_BYTES <= N.of_nat len <= MAX_RECORD_BYTES)%N /\ length (record s) < len)).

(** The fields that taking input leaves alone. *)
Definition keeps (s s' : RecordIo) : Prop := channel s' = channel s /\ closed s' = closed s.

Lemma header_bytes h n : length h = 2 -> is_bytes h -> from_be_bytes h = n -> h = be_bytes_u16 n.
Proof.
  destruct h as [|a [|b [|]]]; try done. intros _ Hb <-. apply Forall_cons_iff in Hb as [Ha Hb]. apply Forall_cons_iff in Hb as [Hb _].
  unfold from_be_bytes, be_bytes_u16. cbn [foldl]. rewrite N.mul_0_l, N.add_0_l.
  rewrite (N.add_comm (a * 256)), N.div_add, N.Div0.mod_add, N.div_small, N.mod_small by (done || lia). by rewrite N.add_0_l.
Qed.

Lemma fill_header_spec rest s partial : rest <> [] -> in_progress s partial ->
  exists r s', fill_header rest s = Some (r, s') /\
    match r with
    | inl _ => closed s' = true /\ exists count, 0 < count <= length rest /\
        length (partial ++ take count rest) = 2 /\ ~ (MIN_RECORD_BYTES <= from_be_bytes (partial ++ take count rest) <= MAX_RECORD_BYTES)%N
    | inr (count, false) => count = length rest /\ in_progress s' (partial ++ rest) /\ keeps s s'
    | inr (count, true) => count <= length rest /\ in_progress s' (partial ++ take count rest) /\ keeps s s' /\ header_len s' = 2
    end.
Proof.
  intros Hne [Hh Hp]. unfold fill_header, RECORD_HEADER_BYTES. destruct (Nat.ltb_spec (header_len s) 2) as [Hlt|Hge].
  2:{ destruct Hp as [[? _]|(E & Epar & Hrec)]; [lia|]. eexists _, s. split; [done|]. cbv beta iota. rewrite take_0, app_nil_r. split; [lia|]. split; [|done].
      split; [done|]. right. by split_and!. }
  destruct Hp as [[_ ->]|(E & _)]; [|lia]. set (count := Nat.min (2 - header_len s) (length rest)).
  assert (length rest <> 0) as Hr by (by destruct rest).
  assert (length (take count rest) = count) as Hlt' by (rewrite length_take; lia).
  unfold write_slice. rewrite Hlt', (proj2 (Nat.leb_le _ _)) by lia. cbn [mbind option_bind]. set (h := splice (header s) (header_len s) (take count rest)).
  assert (length h = 2) as Hlh by (unfold h; rewrite length_splice; lia).
  assert (take (header_len s + count) h = take (header_len s) (header s) ++ take count rest) as Eh.
  { unfold h, splice. rewrite app_assoc, take_app_le by (rewrite length_app, length_take; lia). apply take_ge. rewrite length_app, length_take. lia. }
  set (s1 := s <| header := h |> <| header_len := header_len s + count |>). change (header_len s1) with (header_len s + count).
  destruct (Nat.ltb_spec (header_len s + count) 2) as [Hshort|Hfull].
  { eexists _, s1. split; [done|]. cbv beta iota. assert (count = length rest) as Ec by lia. split; [done|]. split; [|done].
    split; [done|]. left. split; [done|]. rewrite Ec, (take_ge rest) in Eh by lia. change (header_len s1) with (header_len s + count).
    change (header s1) with h. by rewrite Ec. }
  rewrite take_ge in Eh by lia. change (header s1) with h. destruct (in_range _ _ _) eqn:Ein; cbn [negb].
  - unfold in_range in Ein. apply andb_true_iff in Ein as [H1%N.leb_le H2%N.leb_le]. eexists _, _. split; [done|]. cbv beta iota.
    split; [lia|]. split; [|split; [done|cbn; lia]]. split; [done|]. right. cbn. rewrite Eh at 1. rewrite app_nil_r.
    split_and!; [lia|done|]. exists (N.to_nat (from_be_bytes h)). rewrite N2Nat.id. split_and!; [done|done|done|done|].
    unfold MIN_RECORD_BYTES, TAG_BYTES in H1. cbn [length]. lia.
  - eexists _, _. split; [done|]. split; [done|]. exists count. rewrite <- Eh. split_and!; [lia|lia|done|]. intros [H1 H2]. unfold in_range in Ein.
    by rewrite (proj2 (N.leb_le _ _) H1), (proj2 (N.leb_le _ _) H2) in Ein.
Qed.

Lemma fill_record_spec rest s partial : in_progress s partial -> header_len s = 2 ->
  exists count complete s', fill_record rest s = Some ((count, complete), s') /\ count <= length rest /\ keeps s s' /\
    if complete then 0 < count /\ partial ++ take count rest = header s ++ record s' /\ size (record s') = from_be_bytes (header s) /\
      length (header s') = 2 /\ (MIN_RECORD_BYTES <= size (record s') <= MAX_RECORD_BYTES)%N
    else count = length rest /\ in_progress s' (partial ++ rest).
Proof.
  intros [Hh Hp] E2. destruct Hp as [[? _]|(_ & -> & len & El & Eb & Hr & Hlt)]; [lia|]. unfold fill_record. rewrite El. cbn [mbind option_bind].
  rewrite (proj2 (Nat.ltb_ge _ _)) by lia. set (count := Nat.min (len - length (record s)) (length rest)).
  eexists count, _, _. split; [done|]. split_and!; [lia|done|]. cbn [record set_field set_record]. change (record (s <| record := record s ++ take count rest |>)) with (record s ++ take count rest).
  assert (length (take count rest) = count) as Hlt' by (rewrite length_take; lia). rewrite length_app, Hlt'.
  destruct (Nat.eqb_spec (length (record s) + count) len) as [Ee|Hne].
  - unfold size. rewrite length_app, Hlt', <- app_assoc. rewrite Ee. split_and!; [lia|done|done|done|lia|lia].
  - assert (count = length rest) as Ec by lia. split; [done|]. rewrite Ec, take_ge by lia. split; [done|]. right. cbn. split_and!; [done|by rewrite app_assoc|].
    exists len. rewrite length_app. split_and!; [done|done|lia|lia|lia].
Qed.

(** ** The receiver

    After [bs] bytes: the records [ps] were accepted and gave [frames]. *)
Record receiving (k : cipher) (s : RecordIo) (bs : list N) (ps frames : list (list N)) : Prop := mk_receiving {
  rc_open : closed s = false;
  rc_cipher : exists st, transport (channel s) = Some st /\ rx st = advance (length ps) k;
  rc_frames : assembled ps frames (pending (channel s));
  rc_bytes : exists partial, bs = wire k ps ++ partial /\ in_progress s partial /\ is_bytes partial
}.

(** The bytes so far are the beginning of what was sealed for [fs]. *)
Definition honest (k : cipher) (fs ps : list (list N)) (bs : list N) : Prop :=
  Forall frame_ok fs /\ writables k (all_parts fs) /\ ps `prefix_of` all_parts fs /\ bs `prefix_of` wire k (all_parts fs).

(** The next record of an honest stream. *)
Lemma honest_next k fs ps partial :
  honest k fs ps (wire k ps ++ partial) -> partial <> [] ->
  exists p, ps ++ [p] `prefix_of` all_parts fs /\ writable (advance (length ps) k) p /\ (0 < size p <= MAX_RECORD_PLAINTEXT)%N /\
    exists rest, partial `prefix_of` frame_record (seal (advance (length ps) k) p) ++ rest.
Proof.
  intros (Hfs & Hw & [qs E] & [tail Ew]) Hne. rewrite E in *. rewrite wire_app, <- app_assoc in Ew. apply app_inv_head in Ew.
  destruct qs as [|p qs]; [by destruct partial|]. exists p. split_and!.
  - exists qs. by rewrite <- app_assoc.
  - apply (writables_lookup k (ps ++ p :: qs)); [done|]. by rewrite lookup_app_r, Nat.sub_diag.
  - pose proof (all_parts_sizes fs Hfs) as Hs. rewrite E in Hs. apply Forall_app in Hs as [_ Hs]. by apply Forall_cons_iff in Hs as [[? ?] _].
  - pose proof (all_parts_sizes fs Hfs) as Hs. rewrite E in Hs. apply Forall_app in Hs as [_ Hs]. by apply Forall_cons_iff in Hs as [[? ?] _].
  - exists (wire (next (advance (length ps) k)) qs), tail. rewrite <- Ew. reflexivity.
Qed.

Lemma prefix_split (h x y rest : list N) n : h ++ x `prefix_of` y ++ rest -> length y = n -> n <= length h -> take n h = y.
Proof.
  intros [t E] <- Hn. apply (f_equal (take (length y))) in E. by rewrite take_app_length, <- app_assoc, take_app_le in E by lia.
Qed.

(** Its length is accepted, and a record with its length is it. *)
Lemma honest_header k fs ps h x :
  honest k fs ps (wire k ps ++ h ++ x) -> length h = 2 -> (MIN_RECORD_BYTES <= from_be_bytes h <= MAX_RECORD_BYTES)%N.
Proof.
  intros Hh Hl. destruct (honest_next k fs ps (h ++ x) Hh) as (p & _ & Hw & Hs & rest & Hp); [by destruct h|].
  unfold frame_record in Hp. rewrite <- app_assoc in Hp. pose proof (prefix_split h x _ _ 2 Hp eq_refl ltac:(lia)) as E.
  rewrite take_ge in E by lia. rewrite E, from_be_u16, (writable_size _ _ Hw).
  unfold MIN_RECORD_BYTES, MAX_RECORD_PLAINTEXT, MAX_RECORD_BYTES, TAG_BYTES in *. lia.
Qed.

Lemma honest_record k fs ps h c x :
  honest k fs ps (wire k ps ++ h ++ c ++ x) -> length h = 2 -> size c = from_be_bytes h ->
  exists p, ps ++ [p] `prefix_of` all_parts fs /\ writable (advance (length ps) k) p /\ c = seal (advance (length ps) k) p.
Proof.
  intros Hh Hl Hc. destruct (honest_next k fs ps (h ++ c ++ x) Hh) as (p & Hpre & Hw & Hs & rest & Hp); [by destruct h|].
  exists p. split_and!; [done|done|]. unfold frame_record in Hp. rewrite <- app_assoc in Hp.
  pose proof (prefix_split h (c ++ x) _ _ 2 Hp eq_refl ltac:(lia)) as E. rewrite take_ge in E by lia. rewrite E in Hp. apply prefix_app_inv in Hp.
  rewrite E, from_be_u16 in Hc. assert (length c = length (seal (advance (length ps) k) p)) as El by (unfold size in Hc; lia).
  pose proof (prefix_split c x _ _ _ Hp (eq_sym El) ltac:(lia)) as Ec. by rewrite take_ge in Ec.
Qed.

Definition loop_result (k : cipher) (bs rest : list N) (n : nat) (ps frames : list (list N))
    (r : RecordError + (nat * option (list N))) (s' : RecordIo) : Prop :=
  match r with
  | inl _ => closed s' = true /\ forall fs, ~ honest k fs ps (bs ++ rest)
  | inr (m, f) => exists count ps', m = n + count /\ count <= length rest /\ (f = None -> count = length rest) /\ (f <> None -> 0 < count) /\
      receiving k s' (bs ++ take count rest) ps' (frames ++ option_list f) /\
      forall fs, honest k fs ps (bs ++ rest) -> ps' `prefix_of` all_parts fs
  end.

(** A result for what is left after [c] is one for the whole. *)
Lemma loop_result_after k bs rest n ps frames c ps1 r s' :
  c <= length rest -> (forall fs, honest k fs ps (bs ++ rest) -> honest k fs ps1 (bs ++ rest)) ->
  loop_result k (bs ++ take c rest) (drop c rest) (n + c) ps1 frames r s' -> loop_result k bs rest n ps frames r s'.
Proof.
  intros Hc Hh. unfold loop_result. destruct r as [e|[m f]].
  - intros [H1 H2]. split; [done|]. intros fs Hf. apply (H2 fs). rewrite <- app_assoc, take_drop. by apply Hh.
  - intros (count & ps' & -> & Hle & Hn & Hs & Hr & Hf). rewrite length_drop in *. exists (c + count), ps'.
    split_and!; [lia|lia|intros; specialize (Hn ltac:(done)); lia|intros; specialize (Hs ltac:(done)); lia| |].
    + by rewrite <- app_assoc, take_take_drop in Hr.
    + intros fs H. apply Hf. rewrite <- app_assoc, take_drop. by apply Hh.
Qed.

Lemma receiving_more k s s' bs ps frames partial x :
  receiving k s bs ps frames -> bs = wire k ps ++ partial -> is_bytes (partial ++ x) -> keeps s s' -> in_progress s' (partial ++ x) ->
  receiving k s' (bs ++ x) ps frames.
Proof.
  intros [Ho Hc Hf _] -> Hb [Ech Ecl] Hp. split; rewrite ?Ech, ?Ecl; [done..|]. exists (partial ++ x). by rewrite <- app_assoc.
Qed.

(** The records of an honest stream go together. *)
Lemma honest_assembles k fs ps frames p q stream :
  honest k fs ps stream -> assembled ps frames q -> ps ++ [p] `prefix_of` all_parts fs -> exists r, assemble q p = Some r.
Proof.
  intros (Hfs & _) Ha Hp. destruct (prefix_assembles fs _ Hfs Hp) as (frames' & q' & Ha' & _).
  inversion Ha' as [E|ps1 frs1 q1 y g q2 H1 Eb E]; subst; [by destruct ps|]. apply app_inj_tail in E as [-> ->].
  destruct (assembled_det _ _ _ Ha _ _ H1) as [_ ->]. by eexists.
Qed.

(** A complete record, opened: what the channel makes of it. *)
Lemma record_opened k s s1 bs ps frames partial h c x :
  receiving k s bs ps frames -> keeps s s1 -> bs = wire k ps ++ partial -> partial ++ x = h ++ c -> record s1 = c ->
  length h = 2 -> is_bytes h -> size c = from_be_bytes h -> (MIN_RECORD_BYTES <= size c <= MAX_RECORD_BYTES)%N -> length (header s1) = 2 ->
  exists r c', open_record (record s1) (channel s1) = Some (r, c') /\
    match r with
    | inl _ => forall fs rest, ~ honest k fs ps (bs ++ x ++ rest)
    | inr f => exists ps',
        receiving k (s1 <| channel := c' |> <| header_len := 0 |> <| record_len := None |> <| record := [] |>
                     <| awaiting_record := match f with None => true | Some _ => false end |>) (bs ++ x) ps' (frames ++ option_list f) /\
        forall fs rest, honest k fs ps (bs ++ x ++ rest) -> ps' `prefix_of` all_parts fs
    end.
Proof.
  intros [Ho (st & Et & Er) Hf _] [Ech Ecl] -> Ex Ec Hl Hb Hs Hr Hh. rewrite Ec, Ech.
  assert (forall rest, (wire k ps ++ partial) ++ x ++ rest = wire k ps ++ h ++ c ++ rest) as Eapp.
  { intros rest. rewrite <- app_assoc, (app_assoc partial), Ex, <- app_assoc. done. }
  destruct (open_record_spec k ps frames c (channel s) st Et Er Hf) as (r & c' & -> & H). eexists _, _. split; [done|]. destruct r as [e|f].
  - intros fs rest Hh'. rewrite Eapp in Hh'. destruct (honest_record k fs ps h c rest Hh' Hl Hs) as (p & Hp & Hw & Ecp).
    destruct (honest_assembles _ _ _ _ _ _ _ Hh' Hf Hp) as (q & Eq). destruct H as [_ H]. by apply (H p q Hr); rewrite ?Er.
  - destruct H as (p & st' & Ecp & Et' & Er' & Ha & Hdet). exists (ps ++ [p]). split.
    + split; cbn; [by rewrite Ecl|by exists st'|done|]. exists []. split_and!; [|by split; [|left; split; [cbn; lia|]]|constructor].
      rewrite wire_snoc, app_nil_r, <- Er, <- Ecp. unfold frame_record. rewrite <- (header_bytes h _ Hl Hb (eq_sym Hs)), <- app_assoc, Ex. done.
    + intros fs rest Hh'. rewrite Eapp in Hh'. destruct (honest_record k fs ps h c rest Hh' Hl Hs) as (q & Hq & Hw & Ecq).
      rewrite <- Er in *. by rewrite (Hdet q Ecq Hw).
Qed.

Lemma receive_loop_spec k fuel : forall rest n s bs ps frames,
  receiving k s bs ps frames -> is_bytes rest -> length rest < fuel ->
  exists r s', receive_loop fuel rest n s = Some (r, s') /\ loop_result k bs rest n ps frames r s'.
Proof.
  induction fuel as [|fuel IH]; intros rest n s bs ps frames Hs Hb Hf; [lia|]. cbn [receive_loop]. destruct (decide (rest = [])) as [->|Hne].
  { eexists _, _. split; [done|]. exists 0, ps. cbn. rewrite !app_nil_r. split_and!; [lia|lia|done|done|done|]. by intros fs (_ & _ & ? & _). }
  destruct (rc_bytes _ _ _ _ _ Hs) as (partial & Ebs & Hp & Hpb). destruct (fill_header_spec rest s partial Hne Hp) as (r & s1 & -> & Hr).
  assert (forall A (x y : A), match rest with [] => x | _ :: _ => y end = y) as Hnb by (by destruct rest). rewrite Hnb. cbn [mbind option_bind].
  assert (forall c, is_bytes (take c rest)) as Htb by (intros; by apply Forall_take).
  destruct r as [e|[count [|]]].
  - eexists _, _. split; [done|]. destruct Hr as (Hcl & count & Hc & Hl & Hbad). split; [done|]. intros fs Hh. apply Hbad.
    apply (honest_header k fs ps _ (drop count rest)); [|done]. by rewrite <- app_assoc, take_drop, app_assoc, <- Ebs.
  - destruct Hr as (Hc & Hp1 & Hk & E2). set (partial1 := partial ++ take count rest) in *.
    destruct (fill_record_spec (drop count rest) s1 partial1 Hp1 E2) as (c2 & complete & s2 & -> & Hc2 & Hk2 & Hrec). cbn [mbind option_bind].
    rewrite length_drop in *. assert (take count rest ++ take c2 (drop count rest) = take (count + c2) rest) as Etk by (by rewrite take_take_drop).
    assert (keeps s s2) as Hks by (destruct Hk, Hk2; split; congruence).
    destruct complete; cbn [negb].
    + destruct Hrec as (Hpos & Ex & Hsz & Hh2 & Hrange). unfold partial1 in Ex. rewrite <- app_assoc, Etk in Ex.
      assert (is_bytes (header s1)) as Hhb.
      { assert (is_bytes (header s1 ++ record s2)) as H by (rewrite <- Ex; apply Forall_app_2; [done|apply Htb]). by apply Forall_app in H as [? _]. }
      destruct (record_opened k s s2 bs ps frames partial (header s1) (record s2) (take (count + c2) rest) Hs Hks Ebs Ex eq_refl
        (proj1 Hp1) Hhb Hsz Hrange Hh2) as (r & c' & -> & Hr). cbn [mbind option_bind]. rewrite drop_drop, <- Nat.add_assoc.
      destruct r as [e|f].
      * eexists _, _. split; [done|]. split; [done|]. intros fs. by rewrite <- (take_drop (count + c2) rest).
      * destruct Hr as (ps' & Hrec & Hh'). assert (forall fs, honest k fs ps (bs ++ rest) -> ps' `prefix_of` all_parts fs) as Hpre.
        { intros fs. rewrite <- (take_drop (count + c2) rest). apply Hh'. }
        destruct f as [f|].
        { eexists _, _. split; [done|]. exists (count + c2), ps'. split_and!; [done|lia|done|lia|done|done]. }
        cbn [option_list] in Hrec. rewrite app_nil_r in Hrec.
        destruct (IH (drop (count + c2) rest) (n + (count + c2)) _ _ _ _ Hrec) as (r & s' & -> & Hres).
        { by apply Forall_drop. } { rewrite length_drop. lia. }
        eexists _, _. split; [done|]. apply (loop_result_after _ _ _ _ _ _ (count + c2) ps'); [lia| |done].
        intros fs Hh. pose proof (Hpre fs Hh). by destruct Hh as (? & ? & _ & ?).
    + destruct Hrec as (-> & Hp2). eexists _, _. split; [done|]. exists (length rest), ps. rewrite (take_ge rest (length rest)), app_nil_r by lia.
      split_and!; [lia|lia|done|done| |by intros fs (_ & _ & ? & _)].
      apply (receiving_more k s _ _ _ _ partial); [done|done|by apply Forall_app_2|done|].
      unfold partial1 in Hp2. by rewrite <- app_assoc, take_drop in Hp2.
  - destruct Hr as (-> & Hp1 & Hk). eexists _, _. split; [done|]. exists (length rest), ps. rewrite take_ge, app_nil_r by lia.
    split_and!; [lia|lia|done|done| |by intros fs (_ & _ & ? & _)]. by apply (receiving_more k s _ _ _ _ partial); [..|apply Forall_app_2| |].
Qed.

(** ** Input in pieces

    The caller gives [receive] what is left of a piece until it is used up, and
    keeps the frames; an error ends the piece. *)
Fixpoint deliver_chunk (fuel : nat) (input : list N) (s : RecordIo) (frames : list (list N)) : option (list (list N) * RecordIo) :=
  match fuel with
  | O => None
  | S fuel =>
      '(r, s) ← receive input s;
      match r with
      | inr (n, Some f) => deliver_chunk fuel (drop n input) s (frames ++ [f])
      | _ => Some (frames, s)
      end
  end.

Fixpoint deliver (pieces : list (list N)) (s : RecordIo) (frames : list (list N)) : option (list (list N) * RecordIo) :=
  match pieces with
  | [] => Some (frames, s)
  | input :: pieces => '(frames, s) ← deliver_chunk (S (length input)) input s frames; deliver pieces s frames
  end.

(** The frames come from records at the front of the stream. *)
Definition delivered (k : cipher) (stream : list N) (frames : list (list N)) : Prop :=
  exists ps q, assembled ps frames q /\ wire k ps `prefix_of` stream.

Lemma receiving_delivered k s bs ps frames : receiving k s bs ps frames -> delivered k bs frames.
Proof. intros [_ _ Hf (partial & -> & _)]. exists ps, (pending (channel s)). split; [done|]. by apply prefix_app_r. Qed.

Lemma delivered_more k stream x frames : delivered k stream frames -> delivered k (stream ++ x) frames.
Proof. intros (ps & q & Ha & Hp). exists ps, q. split; [done|]. by apply prefix_app_r. Qed.

Definition piece_result (k : cipher) (stream : list N) (ps frames : list (list N)) (s : RecordIo) : Prop :=
  (exists ps', receiving k s stream ps' frames /\ forall fs, honest k fs ps stream -> ps' `prefix_of` all_parts fs) \/
  (closed s = true /\ (forall fs, ~ honest k fs ps stream) /\ delivered k stream frames).

Lemma honest_more k fs ps stream x : honest k fs ps (stream ++ x) -> honest k fs ps stream.
Proof. intros (H1 & H2 & H3 & H4). split_and!; [done..|]. etransitivity; [|exact H4]. by apply prefix_app_r. Qed.

Lemma piece_result_from k stream ps ps1 frames s :
  (forall fs, honest k fs ps stream -> honest k fs ps1 stream) -> piece_result k stream ps1 frames s -> piece_result k stream ps frames s.
Proof.
  intros Hh [(ps2 & Hr & H2)|(Hc & H2 & Hd)]; [left; exists ps2; split; [done|]; intros fs H; by apply H2, Hh|right].
  split_and!; [done| |done]. intros fs H. by apply (H2 fs), Hh.
Qed.

Lemma deliver_chunk_spec k fuel : forall input s bs ps frames,
  receiving k s bs ps frames -> is_bytes input -> length input < fuel ->
  exists frames' s', deliver_chunk fuel input s frames = Some (frames', s') /\ piece_result k (bs ++ input) ps frames' s'.
Proof.
  induction fuel as [|fuel IH]; intros input s bs ps frames Hs Hb Hf; [lia|]. cbn [deliver_chunk]. unfold receive. rewrite (rc_open _ _ _ _ _ Hs).
  destruct (receive_loop_spec k (S (length input)) input 0 s bs ps frames Hs Hb ltac:(lia)) as (r & s1 & -> & Hr). cbn [mbind option_bind].
  destruct r as [e|[m f]]; cbn [loop_result] in Hr.
  - eexists _, _. split; [done|]. right. destruct Hr as [Hc Hh]. split_and!; [done|done|]. by apply delivered_more, (receiving_delivered k s bs ps).
  - destruct Hr as (count & ps' & -> & Hc & Hn & Hpos & Hrec & Hh). cbn [Nat.add]. destruct f as [f|].
    + specialize (Hpos ltac:(done)). change (option_list (Some f)) with [f] in Hrec. destruct (IH (drop count input) s1 _ _ _ Hrec) as (frames' & s' & -> & Hp).
      { by apply Forall_drop. } { rewrite length_drop. lia. }
      rewrite <- app_assoc, take_drop in Hp. eexists _, _. split; [done|].
      assert (forall fs, honest k fs ps (bs ++ input) -> honest k fs ps' (bs ++ input)) as Hhh.
      { intros fs H. pose proof (Hh fs H). by destruct H as (? & ? & _ & ?). }
      by apply (piece_result_from _ _ _ ps').
    + eexists _, _. split; [done|]. left. exists ps'. rewrite (Hn eq_refl), take_ge, app_nil_r in Hrec by lia. done.
Qed.

Lemma deliver_closed pieces : forall s frames, closed s = true -> deliver pieces s frames = Some (frames, s).
Proof. induction pieces as [|x pieces IH]; intros s frames Hc; [done|]. cbn. unfold receive. rewrite Hc. cbn. by apply IH. Qed.

Lemma deliver_spec k pieces : forall s bs ps frames,
  receiving k s bs ps frames -> Forall is_bytes pieces ->
  exists frames' s', deliver pieces s frames = Some (frames', s') /\ piece_result k (bs ++ concat pieces) ps frames' s'.
Proof.
  induction pieces as [|input pieces IH]; intros s bs ps frames Hs Hb; cbn [deliver].
  { eexists _, _. split; [done|]. left. exists ps. cbn. rewrite app_nil_r. split; [done|]. by intros fs (_ & _ & ? & _). }
  apply Forall_cons_iff in Hb as [Hi Hb]. cbn [concat]. rewrite app_assoc.
  destruct (deliver_chunk_spec k (S (length input)) input s bs ps frames Hs Hi ltac:(lia)) as (frames1 & s1 & -> & Hp). cbn [mbind option_bind].
  destruct Hp as [(ps1 & Hr & Hh)|(Hc & Hh & Hd)].
  - destruct (IH s1 _ _ _ Hr Hb) as (frames' & s' & -> & Hp). eexists _, _. split; [done|].
    assert (forall fs, honest k fs ps ((bs ++ input) ++ concat pieces) -> honest k fs ps1 ((bs ++ input) ++ concat pieces)) as Hhh.
    { intros fs H. pose proof (Hh fs (honest_more _ _ _ _ _ H)). by destruct H as (? & ? & _ & ?). }
    by apply (piece_result_from _ _ _ ps1).
  - rewrite deliver_closed by done. eexists _, _. split; [done|]. right. split_and!; [done| |by apply delivered_more].
    intros fs H. by apply (Hh fs), (honest_more _ _ _ _ (concat pieces)).
Qed.

Lemma fresh_receiver c st io : fresh c st -> RecordIo_new c = inr io -> receiving (rx st) io [] [] [].
Proof.
  intros Hf. rewrite (fresh_io c st Hf). intros [= <-]. destruct Hf as (Et & Ep & _). split; cbn; [done|by exists st|rewrite Ep; constructor|].
  exists []. split_and!; [done|split; [done|left; split; [cbn; lia|done]]|constructor].
Qed.

(** ** The records of a stream *)
Fixpoint split_records (fuel : nat) (stream : list N) : list (list N) :=
  match fuel, stream with
  | S fuel, a :: b :: rest =>
      let len := N.to_nat (from_be_bytes [a; b]) in
      if length rest <? len then [] else take len rest :: split_records fuel (drop len rest)
  | _, _ => []
  end.
Definition records_of (stream : list N) : list (list N) := split_records (length stream) stream.

(** No one forged a record: the record in each place of the stream, if it is
    sealed with the cipher of that place, is the one sealed there. *)
Definition unforged (k : cipher) (parts : list (list N)) (stream : list N) : Prop :=
  forall i c p, records_of stream !! i = Some c -> c = seal (advance i k) p -> parts !! i = Some p.

Lemma split_records_wire fuel : forall k ps rest, length (wire k ps ++ rest) <= fuel -> sealed_from k ps `prefix_of` split_records fuel (wire k ps ++ rest).
Proof.
  induction fuel as [|fuel IH]; intros k ps rest Hf; destruct ps as [|p ps]; [by exists []| |by apply prefix_nil|].
  { unfold wire, frame_record in Hf. cbn in Hf. lia. }
  change (wire k (p :: ps)) with (frame_record (seal k p) ++ wire (next k) ps) in *. unfold frame_record in *. rewrite <- !app_assoc in *.
  set (c := seal k p) in *. change (be_bytes_u16 (size c)) with [size c / 256; size c mod 256]%N in *. cbn [app split_records] in *.
  change [(size c / 256)%N; (size c mod 256)%N] with (be_bytes_u16 (size c)). rewrite from_be_u16. unfold size. rewrite Nat2N.id.
  rewrite (proj2 (Nat.ltb_ge _ _)) by (rewrite length_app; lia). rewrite take_app_length, drop_app_length. cbn [sealed_from]. fold c.
  apply prefix_cons. apply IH. cbn [length] in Hf. rewrite length_app in Hf. lia.
Qed.

Lemma sealed_from_lookup k ps i p : ps !! i = Some p -> sealed_from k ps !! i = Some (seal (advance i k) p).
Proof. revert k i. induction ps as [|q ps IH]; intros k i; [done|]. destruct i as [|i]; cbn; [by intros [= ->]|apply IH]. Qed.

Lemma unforged_prefix k parts stream ps : unforged k parts stream -> wire k ps `prefix_of` stream -> ps `prefix_of` parts.
Proof.
  intros Hu [rest ->].
  assert (forall i p, ps !! i = Some p -> parts !! i = Some p) as Hi.
  { intros i p Ep. apply (Hu i (seal (advance i k) p)); [|done]. eapply prefix_lookup_Some; [by apply sealed_from_lookup|].
    apply split_records_wire. done. }
  clear Hu. revert parts Hi. induction ps as [|p ps IH]; intros parts Hi; [apply prefix_nil|].
  destruct parts as [|q parts]; [by specialize (Hi 0 p eq_refl)|]. pose proof (Hi 0 p eq_refl) as E. injection E as ->. apply prefix_cons, IH.
  intros i x. apply (Hi (S i)).
Qed.

(** C9: a secure stream delivers a prefix of what was sent.  Whatever frames
    one end is asked to send and whatever becomes of each physical write, and
    whatever bytes reach the other end, cut into pieces anywhere: neither end
    panics, and unless a record was forged the frames that come out are a
    prefix of the frames that were accepted for sending - none is altered,
    invented, repeated, dropped or out of order. *)
Theorem secure_stream_delivers_a_prefix a b sa sb ioa iob ops pieces :
  fresh a sa -> fresh b sb -> tx sa = rx sb -> RecordIo_new a = inr ioa -> RecordIo_new b = inr iob -> Forall is_bytes pieces ->
  exists s frames io, send_steps ops (sender_of ioa) = Some s /\ deliver pieces iob [] = Some (frames, io) /\
    (unforged (tx sa) (all_parts (sent s)) (concat pieces) -> frames `prefix_of` sent s).
Proof.
  intros Ha Hb Hk Ea Eb Hp. destruct (send_steps_ok (tx sa) ops _ (fresh_sender a sa ioa Ha Ea)) as (s & Es & Hs).
  destruct (deliver_spec (rx sb) pieces iob [] [] [] (fresh_receiver b sb iob Hb Eb) Hp) as (frames & io & Ed & Hd).
  exists s, frames, io. split_and!; [done|done|]. intros Hu. cbn [app] in Hd.
  assert (delivered (rx sb) (concat pieces) frames) as (ps & q & Has & Hw).
  { destruct Hd as [(ps & Hr & _)|(_ & _ & Hd)]; [by apply (receiving_delivered _ io _ ps)|done]. }
  rewrite <- Hk in Hw. pose proof (unforged_prefix _ _ _ _ Hu Hw) as Hpre.
  destruct (prefix_assembles _ _ (sn_frames _ _ Hs) Hpre) as (frames' & q' & Ha' & Hf). by destruct (assembled_det _ _ _ Has _ _ Ha') as [-> _].
Qed.

(** C24: a secure stream delivers everything.  When every byte one end wrote
    reaches the other, in pieces cut anywhere, and nothing is left to write,
    the other end reports no error and delivers exactly the frames that were
    sent. *)
Theorem secure_stream_round_trip a b sa sb ioa iob ops pieces s :
  fresh a sa -> fresh b sb -> tx sa = rx sb -> RecordIo_new a = inr ioa -> RecordIo_new b = inr iob -> Forall is_bytes pieces ->
  send_steps ops (sender_of ioa) = Some s -> closed (sender_io s) = false -> output (sender_io s) = None -> concat pieces = emitted s ->
  exists io, deliver pieces iob [] = Some (sent s, io) /\ closed io = false.
Proof.
  intros Ha Hb Hk Ea Eb Hp Es Hc Ho Ep. destruct (send_steps_ok (tx sa) ops _ (fresh_sender a sa ioa Ha Ea)) as (s' & Es' & Hs).
  rewrite Es in Es'. injection Es' as <-. destruct (sn_open _ _ Hs Hc) as (Ew & _). unfold unwritten in Ew. rewrite Ho, app_nil_r in Ew.
  destruct (deliver_spec (rx sb) pieces iob [] [] [] (fresh_receiver b sb iob Hb Eb) Hp) as (frames & io & Ed & Hd). cbn [app] in Hd.
  assert (honest (rx sb) (sent s) [] (concat pieces)) as Hh.
  { rewrite <- Hk, Ep, Ew. split_and!; [apply Hs|apply Hs|apply prefix_nil|done]. }
  destruct Hd as [(ps & Hr & Hpre)|(_ & Hno & _)]; [|by destruct (Hno _ Hh)]. specialize (Hpre _ Hh).
  exists io. split; [|apply Hr]. rewrite Ed. f_equal. f_equal. destruct Hr as [_ _ Has (partial & E & Hprog & _)].
  enough (ps = all_parts (sent s)) as ->.
  { by destruct (assembled_det _ _ _ Has _ _ (all_assembled _ (sn_frames _ _ Hs))) as [-> _]. }
  rewrite <- Hk in E. rewrite Ep, Ew in E. destruct Hpre as [qs Eq]. rewrite Eq in *. destruct qs as [|p qs]; [by rewrite app_nil_r|exfalso].
  rewrite wire_app in E. apply app_inv_head in E. change (wire ?k (p :: qs)) with (frame_record (seal k p) ++ wire (next k) qs) in E.
  set (c := seal _ p) in *. unfold frame_record in E. rewrite <- app_assoc in E. destruct Hprog as [Hlh Hprog].
  assert (length (be_bytes_u16 (size c) ++ c ++ wire (next (advance (length ps) (tx sa))) qs) = length partial) as El by (by rewrite E).
  rewrite !length_app in El. change (length (be_bytes_u16 (size c))) with 2 in El.
  destruct Hprog as [[Hlt ->]|(_ & -> & len & _ & Elen & _ & Hlt)]; [rewrite length_take in El; lia|].
  assert (header io = be_bytes_u16 (size c)) as Eh.
  { apply (f_equal (take 2)) in E. rewrite !take_app_le, !take_ge in E by (done || lia). done. }
  rewrite Eh, from_be_u16 in Elen. rewrite length_app, Hlh in El. unfold size in Elen. lia.
Qed.
End Stream.

(** ** A stream

    A transport that marks each message with its number. *)
Definition tag (n : nat) : list N := replicate 16 (N.of_nat n).

Definition counting_read (state : nat * nat) (c : list N) : option (list N * (nat * nat)) :=
  let p := take (length c - 16) c in
  if beq c (p ++ tag state.2) then Some (p, (state.1, S state.2)) else None.

Definition counting_noise : Noise := {|
  HandshakeState := unit;
  TransportState := nat * nat;
  build_handshake _ _ := Some tt;
  handshake_write _ := Some (replicate 32 0%N, tt);
  handshake_read _ _ := Some ([], tt);
  is_handshake_finished _ := true;
  get_handshake_hash _ := [];
  into_transport_mode _ := Some (0, 0);
  write_message state p := Some (p ++ tag state.1, (S state.1, state.2));
  read_message := counting_read;
  sha256 x := x
|}.

Lemma counting_read_sealed state p : counting_read state (p ++ tag state.2) = Some (p, (state.1, S state.2)).
Proof.
  unfold counting_read. rewrite length_app. change (length (tag state.2)) with 16. rewrite Nat.add_sub, take_app_length.
  unfold beq. by rewrite bool_decide_true.
Qed.

Definition counting_laws : NoiseLaws counting_noise.
Proof.
  refine {| cipher := nat; tx := fst : TransportState (Noise := counting_noise) -> nat; rx := snd; seal n p := p ++ tag n; next := S |}.
  - intros [t r] p c s' [= <- <-]. split_and!; [done| |done|done]. unfold size, TAG_BYTES. rewrite length_app. change (length (tag _)) with 16. lia.
  - intros [t r] c p s'. cbn. unfold counting_read, beq. case_bool_decide as E; [|done]. by intros [= <- <-].
  - intros [t r] [t' r'] p c w' [= <- _] E. cbn in E. subst t. eexists. apply (counting_read_sealed (t', r')).
Defined.

Definition sample_channel : Channel (Nz := counting_noise) := mkChannel (Nz := counting_noise) (Some (0, 0)) [] None false.
Definition sample_io : RecordIo (Nz := counting_noise) := mkRecordIo (Nz := counting_noise) sample_channel [0; 0]%N 0 None [] false None false.

(** Two frames, the first written in two pieces. *)
Definition sample_send : list SendOp :=
  [Send (bytes "hi"); Push (fun _ => IoOk 5); Push (fun _ => IoErr WouldBlock); Push (fun rest => IoOk (length rest));
   Send (bytes "bye"); Push (fun rest => IoOk (length rest))].

Definition sample_sender : Sender (Nz := counting_noise) :=
  default (sender_of sample_io) (send_steps sample_send (sender_of sample_io)).

Definition sample_pieces : list (list N) := [take 1 (emitted sample_sender); drop 1 (take 30 (emitted sample_sender)); drop 30 (emitted sample_sender)].

Lemma sample_fresh : fresh sample_channel (0, 0).
Proof. done. Qed.

Lemma bytes_check pieces : forallb (forallb (fun b => b <? 256)%N) pieces = true -> Forall is_bytes pieces.
Proof.
  intros H. apply list.Forall_forall. intros x Hx. apply list.Forall_forall. intros b Hb. rewrite forallb_forall in H.
  specialize (H x (proj1 (list_elem_of_In _ _) Hx)). rewrite forallb_forall in H. apply N.ltb_lt, H. by apply list_elem_of_In.
Qed.

Lemma sample_bytes_ok : Forall is_bytes sample_pieces.
Proof. apply bytes_check. vm_compute. reflexivity. Qed.

Lemma secure_stream_round_trip_witness :
  exists io, deliver sample_pieces sample_io [] = Some ([bytes "hi"; bytes "bye"], io) /\ closed io = false.
Proof.
  apply (secure_stream_round_trip (Laws := counting_laws) sample_channel sample_channel (0, 0) (0, 0) sample_io sample_io sample_send
    sample_pieces sample_sender).
  - exact sample_fresh.
  - exact sample_fresh.
  - reflexivity.
  - reflexivity.
  - reflexivity.
  - exact sample_bytes_ok.
  - vm_compute. reflexivity.
  - vm_compute. reflexivity.
  - vm_compute. reflexivity.
  - vm_compute. reflexivity.
Defined.

(** Records delivered as they were sent are not forged. *)
Lemma sample_unforged : unforged (Laws := counting_laws) 0 (all_parts (sent sample_sender)) (concat sample_pieces).
Proof.
  intros i c p Hc Ep. assert (p = take (length c - 16) c) as E.
  { rewrite Ep. cbn. rewrite length_app. change (length (tag _)) with 16. by rewrite Nat.add_sub, take_app_length. }
  destruct i as [|[|i]]; vm_compute in Hc; [injection Hc as <-; rewrite E; vm_compute; reflexivity..|done].
Qed.

Lemma secure_stream_delivers_a_prefix_witness :
  exists s frames io, send_steps sample_send (sender_of sample_io) = Some s /\ deliver sample_pieces sample_io [] = Some (frames, io) /\
    frames `prefix_of` sent s.
Proof.
  destruct (secure_stream_delivers_a_prefix (Laws := counting_laws) sample_channel sample_channel (0, 0) (0, 0) sample_io sample_io sample_send
    sample_pieces sample_fresh sample_fresh eq_refl eq_refl eq_refl sample_bytes_ok) as (s & frames & io & Es & Ed & H).
  exists s, frames, io. split; [exact Es|]. split; [exact Ed|]. apply H.
  assert (s = sample_sender) as -> by (unfold sample_sender; rewrite Es; reflexivity). exact sample_unforged.
Defined.
