(* ===== verification/HandshakeIo.v ===== *)
(** * The handshake on a stream ([festerm-automation-mcp/src/secure_handshake_io.rs])

    The two-message handshake as a state machine over non-blocking reads and
    writes: fixed buffers, exact lengths, and a channel that is handed over
    once, when everything was read and written.  [None] is a panic. *)

From Stdlib Require Import NArith Bool.
From S2P Require Import Prelude SecureChannel RecordIo.

Definition HANDSHAKE_HEADER_BYTES : nat := 2.
Definition MAX_WIRE_BYTES : nat := 50.

Inductive HandshakeError :=
  | HandshakeChannel (error : ChannelError)
  | InvalidFrame
  | HandshakeTruncated
  | PeerClosedEarly
  | NotReady
  | HandshakeIoError (kind : ErrorKind).

Inductive Interest := InterestRead | InterestWrite | InterestComplete | InterestClosed.
Inductive ReadProgress := ReadIdle | ReadBlocked | ReadRetry | ReadPartial | WriteReady | ReadComplete.

(** The outcome of one physical read: the bytes, which may be more than were
    asked for if the reader breaks its contract. *)
Inductive ReadResult := ReadOk (data : list N) | ReadErr (kind : ErrorKind) | ReadPanic.

Record HandshakeInput := mkInput { input_bytes : list N; filled : nat; expected : nat }.
Definition Input_new (expected : nat) : HandshakeInput := mkInput (replicate MAX_WIRE_BYTES 0%N) 0 expected.
Definition input_clear (i : HandshakeInput) : HandshakeInput := mkInput (replicate (length (input_bytes i)) 0%N) 0 (expected i).

Record HandshakeOutput := mkHsOutput { hs_bytes : list N; hs_len : nat; hs_written : nat }.
Definition Output_empty : HandshakeOutput := mkHsOutput (replicate MAX_WIRE_BYTES 0%N) 0 0.

Definition Output_frame (payload : list N) : option (HandshakeError + HandshakeOutput) :=
  if negb ((size payload =? FIRST_HANDSHAKE_BYTES)%N || (size payload =? SECOND_HANDSHAKE_BYTES)%N) then Some (inl InvalidFrame)
  else if (u16_max <? size payload)%N then Some (inl InvalidFrame)
  else
    bs ← write_slice (replicate MAX_WIRE_BYTES 0%N) 0 (be_bytes_u16 (size payload));
    bs ← write_slice bs HANDSHAKE_HEADER_BYTES payload;
    Some (inr (mkHsOutput bs (HANDSHAKE_HEADER_BYTES + length payload) 0)).

Section Handshake.
Context `{Nz : Noise}.

Inductive HandshakeStage :=
  | WriteFirst (initiator : HandshakeState)
  | ReadReply (initiator : HandshakeState)
  | ReadFirst
  | WriteReply (channel : UnverifiedChannel)
  | Ready (channel : UnverifiedChannel)
  | HandshakeClosed.

Record HandshakeIo := mkHandshake {
  stage : HandshakeStage;
  purpose : ChannelPurpose;
  input : HandshakeInput;
  hs_output : HandshakeOutput
}.
#[export] Instance set_stage : Setter stage := fun v h => mkHandshake v (purpose h) (input h) (hs_output h).
#[export] Instance set_input : Setter input := fun v h => mkHandshake (stage h) (purpose h) v (hs_output h).
#[export] Instance set_hs_output : Setter hs_output := fun v h => mkHandshake (stage h) (purpose h) (input h) v.

Definition initiator_for (purpose : ChannelPurpose) : option (HandshakeError + HandshakeIo) :=
  match initiate purpose with
  | inl e => Some (inl (HandshakeChannel e))
  | inr (initiator, first) =>
      out ← Output_frame first;
      Some (match out with
            | inl e => inl e
            | inr out => inr (mkHandshake (WriteFirst initiator) purpose (Input_new (N.to_nat SECOND_HANDSHAKE_BYTES)) out)
            end)
  end.

Definition responder_for (purpose : ChannelPurpose) : HandshakeIo :=
  mkHandshake ReadFirst purpose (Input_new (N.to_nat FIRST_HANDSHAKE_BYTES)) Output_empty.

Definition direct_initiator := initiator_for Direct.
Definition direct_responder := responder_for Direct.

Definition interest (h : HandshakeIo) : Interest :=
  match stage h with
  | WriteFirst _ | WriteReply _ => InterestWrite
  | ReadFirst | ReadReply _ => InterestRead
  | Ready _ => InterestComplete
  | HandshakeClosed => InterestClosed
  end.

Definition handshake_close (h : HandshakeIo) : HandshakeIo :=
  h <| stage := HandshakeClosed |> <| input := input_clear (input h) |> <| hs_output := Output_empty |>.

Definition handshake_fail {A} (error : HandshakeError) (h : HandshakeIo) : Called HandshakeError A * HandshakeIo :=
  (Returned (inl error), handshake_close h).

Definition handshake_end_input (h : HandshakeIo) : Called HandshakeError unit * HandshakeIo :=
  match stage h with
  | HandshakeClosed => (Returned (inl (HandshakeChannel ChannelClosed)), h)
  | Ready _ => handshake_fail PeerClosedEarly h
  | _ => handshake_fail HandshakeTruncated h
  end.

(** How many bytes the next read asks for. *)
Definition missing (h : HandshakeIo) : nat :=
  (if filled (input h) <? HANDSHAKE_HEADER_BYTES then HANDSHAKE_HEADER_BYTES
   else HANDSHAKE_HEADER_BYTES + expected (input h)) - filled (input h).

(** A complete message, in the stage that was waiting for it. *)
Definition message_read (waiting : HandshakeStage) (payload : list N) (h : HandshakeIo)
    : option (Called HandshakeError ReadProgress * HandshakeIo) :=
  match waiting with
  | ReadFirst =>
      match respond payload (purpose h) with
      | inl e => Some (handshake_fail (HandshakeChannel e) h)
      | inr (channel, reply) =>
          out ← Output_frame reply;
          Some (match out with
                | inl e => handshake_fail e h
                | inr out => (Returned (inr WriteReady), h <| hs_output := out |> <| input := input_clear (input h) |> <| stage := WriteReply channel |>)
                end)
      end
  | ReadReply initiator =>
      match initiator_finish initiator payload with
      | inl e => Some (handshake_fail (HandshakeChannel e) h)
      | inr channel => Some (Returned (inr ReadComplete), h <| input := input_clear (input h) |> <| stage := Ready channel |>)
      end
  | _ => None
  end.

(** What a successful read of [data] does; [h] is closed meanwhile. *)
Definition data_read (waiting : HandshakeStage) (data : list N) (h : HandshakeIo)
    : option (Called HandshakeError ReadProgress * HandshakeIo) :=
  let i := input h in
  bs ← write_slice (input_bytes i) (filled i) data;
  let i := mkInput bs (filled i + length data) (expected i) in
  let h := h <| input := i |> in
  if (filled i =? HANDSHAKE_HEADER_BYTES) && negb (from_be_bytes (take 2 (input_bytes i)) =? N.of_nat (expected i))%N then
    Some (handshake_fail InvalidFrame h)
  else if filled i <? HANDSHAKE_HEADER_BYTES + expected i then Some (Returned (inr ReadPartial), h <| stage := waiting |>)
  else
    payload ← slice (input_bytes i) HANDSHAKE_HEADER_BYTES (HANDSHAKE_HEADER_BYTES + expected i);
    message_read waiting payload h.

Definition read_pending (read : nat -> ReadResult) (h : HandshakeIo) : option (Called HandshakeError ReadProgress * HandshakeIo) :=
  match stage h with
  | HandshakeClosed => Some (Returned (inl (HandshakeChannel ChannelClosed)), h)
  | (ReadFirst | ReadReply _) as waiting =>
      let h := h <| stage := HandshakeClosed |> in
      _ ← slice (input_bytes (input h)) (filled (input h)) (filled (input h) + missing h);
      match read (missing h) with
      | ReadPanic => Some (Unwound, h)
      | ReadOk [] => Some (handshake_fail HandshakeTruncated h)
      | ReadOk data => if missing h <? length data then Some (handshake_fail InvalidFrame h) else data_read waiting data h
      | ReadErr WouldBlock => Some (Returned (inr ReadBlocked), h <| stage := waiting |>)
      | ReadErr Interrupted => Some (Returned (inr ReadRetry), h <| stage := waiting |>)
      | ReadErr kind => Some (handshake_fail (HandshakeIoError kind) h)
      end
  | _ => Some (Returned (inr ReadIdle), h)
  end.

Definition hs_write_pending (write : list N -> IoResult) (h : HandshakeIo) : option (Called HandshakeError WriteProgress * HandshakeIo) :=
  match stage h with
  | HandshakeClosed => Some (Returned (inl (HandshakeChannel ChannelClosed)), h)
  | (WriteFirst _ | WriteReply _) as writing =>
      let h := h <| stage := HandshakeClosed |> in
      let out := hs_output h in
      pending ← slice (hs_bytes out) (hs_written out) (hs_len out);
      if length pending =? 0 then Some (handshake_fail InvalidFrame h)
      else
        Some (match write pending with
              | IoPanic => (Unwound, h)
              | IoErr WouldBlock => (Returned (inr WriteBlocked), h <| stage := writing |>)
              | IoErr Interrupted => (Returned (inr WriteRetry), h <| stage := writing |>)
              | IoErr kind => handshake_fail (HandshakeIoError kind) h
              | IoOk count =>
                  if count =? 0 then handshake_fail (HandshakeIoError WriteZero) h
                  else if length pending <? count then handshake_fail InvalidFrame h
                  else
                    let out := mkHsOutput (hs_bytes out) (hs_len out) (hs_written out + count) in
                    if hs_written out <? hs_len out then
                      (Returned (inr WritePartial), h <| hs_output := out |> <| stage := writing |>)
                    else
                      (Returned (inr WriteComplete),
                       h <| hs_output := Output_empty |>
                         <| stage := match writing with
                                     | WriteFirst initiator => ReadReply initiator
                                     | WriteReply channel => Ready channel
                                     | other => other
                                     end |>)
              end)
  | _ => Some (Returned (inr WriteIdle), h)
  end.

Definition take_unverified (h : HandshakeIo) : (HandshakeError + UnverifiedChannel) * HandshakeIo :=
  match stage h with
  | Ready channel =>
      (inr channel, h <| stage := HandshakeClosed |> <| input := input_clear (input h) |> <| hs_output := Output_empty |>)
  | HandshakeClosed => (inl (HandshakeChannel ChannelClosed), h)
  | _ => (inl NotReady, h)
  end.
End Handshake.
