(* ===== verification/SecureTransport.v ===== *)
(** * The direct secure transport ([festerm-automation-mcp/src/secure_transport.rs])

    One stream, one comparison of fingerprints by the user, and frames only
    once both ends have confirmed: the phases of a connection, driven by
    bounded non-blocking polls.  Everything the transport does not own - the
    clock, the stream, the admission of a write, the native comparison and the
    destructors - is a [Platform]; any of it may fail or panic.

    A computation takes the transport and the world and returns a result with
    both; [trace] lists the frames given to and taken from the record layer and
    the comparisons that were confirmed, and no definition reads it. *)

From Stdlib Require Import NArith Bool.
From S2P Require Import Prelude Cell Utf8 SecureChannel RecordIo HandshakeIo.

Definition MAX_BOOTSTRAP_DURATION : N := 60 * 1000000000.
Definition MAX_FRAME_DURATION : N := 2 * 1000000000.
Definition MAX_TRANSPORT_LIFETIME : N := 600 * 1000000000.
Definition MAX_BOOTSTRAP_POLLS : N := 65536.
Definition MAX_TOTAL_POLLS : N := 4194304.
Definition MAX_FRAME_ATTEMPTS : N := MAX_MESSAGE_BYTES * 4.
Definition READ_CHUNK : nat := 4096.

Definition CLIENT_CONFIRM : list N := bytes "fesTerm direct MCP v1 client confirmed".
Definition APP_CONFIRM : list N := bytes "fesTerm direct MCP v1 application confirmed".
Definition CLIENT_RECEIPT : list N := bytes "fesTerm direct MCP v1 client received confirmation".
Definition APP_RECEIPT : list N := bytes "fesTerm direct MCP v1 application received confirmation".

Inductive Role := Client | Application.

Definition confirmation (r : Role) : list N := match r with Client => CLIENT_CONFIRM | Application => APP_CONFIRM end.
Definition peer_confirmation (r : Role) : list N := match r with Client => APP_CONFIRM | Application => CLIENT_CONFIRM end.
Definition receipt (r : Role) : list N := match r with Client => CLIENT_RECEIPT | Application => APP_RECEIPT end.
Definition peer_receipt (r : Role) : list N := match r with Client => APP_RECEIPT | Application => CLIENT_RECEIPT end.

Inductive NativeDecision := DecisionPending | DecisionDenied | ComparedPeer (fingerprint : list N).

Inductive TransportError :=
  | ErrClosed
  | NotEstablished
  | ErrBusy
  | Denied
  | Deadline
  | WorkLimit
  | Protocol
  | ErrPeerClosed
  | ErrIo (kind : ErrorKind)
  | CallbackPanicked
  | CleanupFailed.

Inductive Progress := Blocked | Advanced | Established | Sent | Frame (frame : list N).
Inductive Phase := PhaseHandshake | PhaseNative | Confirming | Active | PhaseClosed.
#[export] Instance Phase_eq_dec : EqDecision Phase.
Proof. solve_decision. Defined.
Inductive PendingOutput := OutConfirmation | OutReceipt | OutFrame.
#[export] Instance PendingOutput_eq_dec : EqDecision PendingOutput.
Proof. solve_decision. Defined.
Inductive Attempt := AttemptIdle | AttemptBlocked | AttemptProgress (p : Progress).

(** ** What the transport does not own *)
Inductive Admission := AdmitOk | AdmitBusy | AdmitRefused | AdmitPanics.
Inductive NativeCall := NativeOk | NativeFails | NativePanics.
Inductive DecisionCall := Decided (d : NativeDecision) | DecisionPanics.

(** The destructors and callbacks a teardown runs, each under its own catch. *)
Inductive Teardown := RetireNative | DropHandshake | DropUnverified | DropRecords | DropStream | CancelNative | DropNative.

Class Platform := {
  World : Type;
  now : World -> N * World;
  instant_add : N -> N -> option N;
  stream_read : nat -> World -> ReadResult * World;
  stream_write : list N -> World -> IoResult * World;
  admit_write : World -> Admission * World;
  release_guard : World -> bool * World;
  drop_admission : World -> bool * World;
  show_fingerprint : list N -> World -> NativeCall * World;
  poll_decision : World -> DecisionCall * World;
  teardown : Teardown -> World -> bool * World
}.

(** The record layer's part in a connection. *)
Inductive Event := Confirmed (fingerprint : list N) | Sealed (frame : list N) | Received (frame : list N).

(** The result of a computation. *)
Inductive Res (A : Type) := Val (a : A) | Fail (e : TransportError) | Panic.
Arguments Val {A} a.
Arguments Fail {A} e.
Arguments Panic {A}.

Section Transport.
Context `{Nz : Noise} `{Pf : Platform}.

Record SecureTransport := mkTransport {
  has_stream : bool;
  has_native : bool;
  cleanup_failed : bool;
  role : Role;
  phase : Phase;
  handshake : option HandshakeIo;
  unverified : option UnverifiedChannel;
  records : option RecordIo;
  bootstrap_deadline : N;
  lifetime_deadline : N;
  frame_duration : N;
  total_polls : N;
  bootstrap_polls : N;
  read_deadline : option N;
  write_deadline : option N;
  read_attempts : N;
  write_attempts : N;
  read_buffer : list N;
  input_start : nat;
  input_end : nat;
  input_received_at : option N;
  pending_output : option PendingOutput;
  confirmation_sent : bool;
  confirmation_received : bool;
  receipt_sent : bool;
  receipt_received : bool;
  prefer_write : bool
}.
#[export] Instance set_has_stream : Setter has_stream := fun v t => mkTransport v (has_native t) (cleanup_failed t) (role t) (phase t) (handshake t) (unverified t) (records t) (bootstrap_deadline t) (lifetime_deadline t) (frame_duration t) (total_polls t) (bootstrap_polls t) (read_deadline t) (write_deadline t) (read_attempts t) (write_attempts t) (read_buffer t) (input_start t) (input_end t) (input_received_at t) (pending_output t) (confirmation_sent t) (confirmation_received t) (receipt_sent t) (receipt_received t) (prefer_write t).
#[export] Instance set_has_native : Setter has_native := fun v t => mkTransport (has_stream t) v (cleanup_failed t) (role t) (phase t) (handshake t) (unverified t) (records t) (bootstrap_deadline t) (lifetime_deadline t) (frame_duration t) (total_polls t) (bootstrap_polls t) (read_deadline t) (write_deadline t) (read_attempts t) (write_attempts t) (read_buffer t) (input_start t) (input_end t) (input_received_at t) (pending_output t) (confirmation_sent t) (confirmation_received t) (receipt_sent t) (receipt_received t) (prefer_write t).
#[export] Instance set_cleanup_failed : Setter cleanup_failed := fun v t => mkTransport (has_stream t) (has_native t) v (role t) (phase t) (handshake t) (unverified t) (records t) (bootstrap_deadline t) (lifetime_deadline t) (frame_duration t) (total_polls t) (bootstrap_polls t) (read_deadline t) (write_deadline t) (read_attempts t) (write_attempts t) (read_buffer t) (input_start t) (input_end t) (input_received_at t) (pending_output t) (confirmation_sent t) (confirmation_received t) (receipt_sent t) (receipt_received t) (prefer_write t).
#[export] Instance set_role : Setter role := fun v t => mkTransport (has_stream t) (has_native t) (cleanup_failed t) v (phase t) (handshake t) (unverified t) (records t) (bootstrap_deadline t) (lifetime_deadline t) (frame_duration t) (total_polls t) (bootstrap_polls t) (read_deadline t) (write_deadline t) (read_attempts t) (write_attempts t) (read_buffer t) (input_start t) (input_end t) (input_received_at t) (pending_output t) (confirmation_sent t) (confirmation_received t) (receipt_sent t) (receipt_received t) (prefer_write t).
#[export] Instance set_phase : Setter phase := fun v t => mkTransport (has_stream t) (has_native t) (cleanup_failed t) (role t) v (handshake t) (unverified t) (records t) (bootstrap_deadline t) (lifetime_deadline t) (frame_duration t) (total_polls t) (bootstrap_polls t) (read_deadline t) (write_deadline t) (read_attempts t) (write_attempts t) (read_buffer t) (input_start t) (input_end t) (input_received_at t) (pending_output t) (confirmation_sent t) (confirmation_received t) (receipt_sent t) (receipt_received t) (prefer_write t).
#[export] Instance set_handshake : Setter handshake := fun v t => mkTransport (has_stream t) (has_native t) (cleanup_failed t) (role t) (phase t) v (unverified t) (records t) (bootstrap_deadline t) (lifetime_deadline t) (frame_duration t) (total_polls t) (bootstrap_polls t) (read_deadline t) (write_deadline t) (read_attempts t) (write_attempts t) (read_buffer t) (input_start t) (input_end t) (input_received_at t) (pending_output t) (confirmation_sent t) (confirmation_received t) (receipt_sent t) (receipt_received t) (prefer_write t).
#[export] Instance set_unverified : Setter unverified := fun v t => mkTransport (has_stream t) (has_native t) (cleanup_failed t) (role t) (phase t) (handshake t) v (records t) (bootstrap_deadline t) (lifetime_deadline t) (frame_duration t) (total_polls t) (bootstrap_polls t) (read_deadline t) (write_deadline t) (read_attempts t) (write_attempts t) (read_buffer t) (input_start t) (input_end t) (input_received_at t) (pending_output t) (confirmation_sent t) (confirmation_received t) (receipt_sent t) (receipt_received t) (prefer_write t).
#[export] Instance set_records : Setter records := fun v t => mkTransport (has_stream t) (has_native t) (cleanup_failed t) (role t) (phase t) (handshake t) (unverified t) v (bootstrap_deadline t) (lifetime_deadline t) (frame_duration t) (total_polls t) (bootstrap_polls t) (read_deadline t) (write_deadline t) (read_attempts t) (write_attempts t) (read_buffer t) (input_start t) (input_end t) (input_received_at t) (pending_output t) (confirmation_sent t) (confirmation_received t) (receipt_sent t) (receipt_received t) (prefer_write t).
#[export] Instance set_bootstrap_deadline : Setter bootstrap_deadline := fun v t => mkTransport (has_stream t) (has_native t) (cleanup_failed t) (role t) (phase t) (handshake t) (unverified t) (records t) v (lifetime_deadline t) (frame_duration t) (total_polls t) (bootstrap_polls t) (read_deadline t) (write_deadline t) (read_attempts t) (write_attempts t) (read_buffer t) (input_start t) (input_end t) (input_received_at t) (pending_output t) (confirmation_sent t) (confirmation_received t) (receipt_sent t) (receipt_received t) (prefer_write t).
#[export] Instance set_lifetime_deadline : Setter lifetime_deadline := fun v t => mkTransport (has_stream t) (has_native t) (cleanup_failed t) (role t) (phase t) (handshake t) (unverified t) (records t) (bootstrap_deadline t) v (frame_duration t) (total_polls t) (bootstrap_polls t) (read_deadline t) (write_deadline t) (read_attempts t) (write_attempts t) (read_buffer t) (input_start t) (input_end t) (input_received_at t) (pending_output t) (confirmation_sent t) (confirmation_received t) (receipt_sent t) (receipt_received t) (prefer_write t).
#[export] Instance set_frame_duration : Setter frame_duration := fun v t => mkTransport (has_stream t) (has_native t) (cleanup_failed t) (role t) (phase t) (handshake t) (unverified t) (records t) (bootstrap_deadline t) (lifetime_deadline t) v (total_polls t) (bootstrap_polls t) (read_deadline t) (write_deadline t) (read_attempts t) (write_attempts t) (read_buffer t) (input_start t) (input_end t) (input_received_at t) (pending_output t) (confirmation_sent t) (confirmation_received t) (receipt_sent t) (receipt_received t) (prefer_write t).
#[export] Instance set_total_polls : Setter total_polls := fun v t => mkTransport (has_stream t) (has_native t) (cleanup_failed t) (role t) (phase t) (handshake t) (unverified t) (records t) (bootstrap_deadline t) (lifetime_deadline t) (frame_duration t) v (bootstrap_polls t) (read_deadline t) (write_deadline t) (read_attempts t) (write_attempts t) (read_buffer t) (input_start t) (input_end t) (input_received_at t) (pending_output t) (confirmation_sent t) (confirmation_received t) (receipt_sent t) (receipt_received t) (prefer_write t).
#[export] Instance set_bootstrap_polls : Setter bootstrap_polls := fun v t => mkTransport (has_stream t) (has_native t) (cleanup_failed t) (role t) (phase t) (handshake t) (unverified t) (records t) (bootstrap_deadline t) (lifetime_deadline t) (frame_duration t) (total_polls t) v (read_deadline t) (write_deadline t) (read_attempts t) (write_attempts t) (read_buffer t) (input_start t) (input_end t) (input_received_at t) (pending_output t) (confirmation_sent t) (confirmation_received t) (receipt_sent t) (receipt_received t) (prefer_write t).
#[export] Instance set_read_deadline : Setter read_deadline := fun v t => mkTransport (has_stream t) (has_native t) (cleanup_failed t) (role t) (phase t) (handshake t) (unverified t) (records t) (bootstrap_deadline t) (lifetime_deadline t) (frame_duration t) (total_polls t) (bootstrap_polls t) v (write_deadline t) (read_attempts t) (write_attempts t) (read_buffer t) (input_start t) (input_end t) (input_received_at t) (pending_output t) (confirmation_sent t) (confirmation_received t) (receipt_sent t) (receipt_received t) (prefer_write t).
#[export] Instance set_write_deadline : Setter write_deadline := fun v t => mkTransport (has_stream t) (has_native t) (cleanup_failed t) (role t) (phase t) (handshake t) (unverified t) (records t) (bootstrap_deadline t) (lifetime_deadline t) (frame_duration t) (total_polls t) (bootstrap_polls t) (read_deadline t) v (read_attempts t) (write_attempts t) (read_buffer t) (input_start t) (input_end t) (input_received_at t) (pending_output t) (confirmation_sent t) (confirmation_received t) (receipt_sent t) (receipt_received t) (prefer_write t).
#[export] Instance set_read_attempts : Setter read_attempts := fun v t => mkTransport (has_stream t) (has_native t) (cleanup_failed t) (role t) (phase t) (handshake t) (unverified t) (records t) (bootstrap_deadline t) (lifetime_deadline t) (frame_duration t) (total_polls t) (bootstrap_polls t) (read_deadline t) (write_deadline t) v (write_attempts t) (read_buffer t) (input_start t) (input_end t) (input_received_at t) (pending_output t) (confirmation_sent t) (confirmation_received t) (receipt_sent t) (receipt_received t) (prefer_write t).
#[export] Instance set_write_attempts : Setter write_attempts := fun v t => mkTransport (has_stream t) (has_native t) (cleanup_failed t) (role t) (phase t) (handshake t) (unverified t) (records t) (bootstrap_deadline t) (lifetime_deadline t) (frame_duration t) (total_polls t) (bootstrap_polls t) (read_deadline t) (write_deadline t) (read_attempts t) v (read_buffer t) (input_start t) (input_end t) (input_received_at t) (pending_output t) (confirmation_sent t) (confirmation_received t) (receipt_sent t) (receipt_received t) (prefer_write t).
#[export] Instance set_read_buffer : Setter read_buffer := fun v t => mkTransport (has_stream t) (has_native t) (cleanup_failed t) (role t) (phase t) (handshake t) (unverified t) (records t) (bootstrap_deadline t) (lifetime_deadline t) (frame_duration t) (total_polls t) (bootstrap_polls t) (read_deadline t) (write_deadline t) (read_attempts t) (write_attempts t) v (input_start t) (input_end t) (input_received_at t) (pending_output t) (confirmation_sent t) (confirmation_received t) (receipt_sent t) (receipt_received t) (prefer_write t).
#[export] Instance set_input_start : Setter input_start := fun v t => mkTransport (has_stream t) (has_native t) (cleanup_failed t) (role t) (phase t) (handshake t) (unverified t) (records t) (bootstrap_deadline t) (lifetime_deadline t) (frame_duration t) (total_polls t) (bootstrap_polls t) (read_deadline t) (write_deadline t) (read_attempts t) (write_attempts t) (read_buffer t) v (input_end t) (input_received_at t) (pending_output t) (confirmation_sent t) (confirmation_received t) (receipt_sent t) (receipt_received t) (prefer_write t).
#[export] Instance set_input_end : Setter input_end := fun v t => mkTransport (has_stream t) (has_native t) (cleanup_failed t) (role t) (phase t) (handshake t) (unverified t) (records t) (bootstrap_deadline t) (lifetime_deadline t) (frame_duration t) (total_polls t) (bootstrap_polls t) (read_deadline t) (write_deadline t) (read_attempts t) (write_attempts t) (read_buffer t) (input_start t) v (input_received_at t) (pending_output t) (confirmation_sent t) (confirmation_received t) (receipt_sent t) (receipt_received t) (prefer_write t).
#[export] Instance set_input_received_at : Setter input_received_at := fun v t => mkTransport (has_stream t) (has_native t) (cleanup_failed t) (role t) (phase t) (handshake t) (unverified t) (records t) (bootstrap_deadline t) (lifetime_deadline t) (frame_duration t) (total_polls t) (bootstrap_polls t) (read_deadline t) (write_deadline t) (read_attempts t) (write_attempts t) (read_buffer t) (input_start t) (input_end t) v (pending_output t) (confirmation_sent t) (confirmation_received t) (receipt_sent t) (receipt_received t) (prefer_write t).
#[export] Instance set_pending_output : Setter pending_output := fun v t => mkTransport (has_stream t) (has_native t) (cleanup_failed t) (role t) (phase t) (handshake t) (unverified t) (records t) (bootstrap_deadline t) (lifetime_deadline t) (frame_duration t) (total_polls t) (bootstrap_polls t) (read_deadline t) (write_deadline t) (read_attempts t) (write_attempts t) (read_buffer t) (input_start t) (input_end t) (input_received_at t) v (confirmation_sent t) (confirmation_received t) (receipt_sent t) (receipt_received t) (prefer_write t).
#[export] Instance set_confirmation_sent : Setter confirmation_sent := fun v t => mkTransport (has_stream t) (has_native t) (cleanup_failed t) (role t) (phase t) (handshake t) (unverified t) (records t) (bootstrap_deadline t) (lifetime_deadline t) (frame_duration t) (total_polls t) (bootstrap_polls t) (read_deadline t) (write_deadline t) (read_attempts t) (write_attempts t) (read_buffer t) (input_start t) (input_end t) (input_received_at t) (pending_output t) v (confirmation_received t) (receipt_sent t) (receipt_received t) (prefer_write t).
#[export] Instance set_confirmation_received : Setter confirmation_received := fun v t => mkTransport (has_stream t) (has_native t) (cleanup_failed t) (role t) (phase t) (handshake t) (unverified t) (records t) (bootstrap_deadline t) (lifetime_deadline t) (frame_duration t) (total_polls t) (bootstrap_polls t) (read_deadline t) (write_deadline t) (read_attempts t) (write_attempts t) (read_buffer t) (input_start t) (input_end t) (input_received_at t) (pending_output t) (confirmation_sent t) v (receipt_sent t) (receipt_received t) (prefer_write t).
#[export] Instance set_receipt_sent : Setter receipt_sent := fun v t => mkTransport (has_stream t) (has_native t) (cleanup_failed t) (role t) (phase t) (handshake t) (unverified t) (records t) (bootstrap_deadline t) (lifetime_deadline t) (frame_duration t) (total_polls t) (bootstrap_polls t) (read_deadline t) (write_deadline t) (read_attempts t) (write_attempts t) (read_buffer t) (input_start t) (input_end t) (input_received_at t) (pending_output t) (confirmation_sent t) (confirmation_received t) v (receipt_received t) (prefer_write t).
#[export] Instance set_receipt_received : Setter receipt_received := fun v t => mkTransport (has_stream t) (has_native t) (cleanup_failed t) (role t) (phase t) (handshake t) (unverified t) (records t) (bootstrap_deadline t) (lifetime_deadline t) (frame_duration t) (total_polls t) (bootstrap_polls t) (read_deadline t) (write_deadline t) (read_attempts t) (write_attempts t) (read_buffer t) (input_start t) (input_end t) (input_received_at t) (pending_output t) (confirmation_sent t) (confirmation_received t) (receipt_sent t) v (prefer_write t).
#[export] Instance set_prefer_write : Setter prefer_write := fun v t => mkTransport (has_stream t) (has_native t) (cleanup_failed t) (role t) (phase t) (handshake t) (unverified t) (records t) (bootstrap_deadline t) (lifetime_deadline t) (frame_duration t) (total_polls t) (bootstrap_polls t) (read_deadline t) (write_deadline t) (read_attempts t) (write_attempts t) (read_buffer t) (input_start t) (input_end t) (input_received_at t) (pending_output t) (confirmation_sent t) (confirmation_received t) (receipt_sent t) (receipt_received t) v.

(** ** Computations *)
Record St := mkSt { transport_of : SecureTransport; world : World; trace : list Event }.

Definition M (A : Type) : Type := St -> Res A * St.

#[export] Instance M_ret : MRet M := fun A a st => (Val a, st).
#[export] Instance M_bind : MBind M := fun A B f m st =>
  match m st with
  | (Val a, st) => f a st
  | (Fail e, st) => (Fail e, st)
  | (Panic, st) => (Panic, st)
  end.

Definition fail {A} (e : TransportError) : M A := fun st => (Fail e, st).
Definition panic {A} : M A := fun st => (Panic, st).
Definition get : M SecureTransport := fun st => (Val (transport_of st), st).
Definition modify (f : SecureTransport -> SecureTransport) : M () := fun st => (Val tt, mkSt (f (transport_of st)) (world st) (trace st)).
Definition note (e : Event) : M () := fun st => (Val tt, mkSt (transport_of st) (world st) (trace st ++ [e])).
Definition ask {A} (f : World -> A * World) : M A := fun st => let '(a, w) := f (world st) in (Val a, mkSt (transport_of st) w (trace st)).
Definition need {A} (o : option A) : M A := match o with Some a => mret a | None => fail ErrClosed end.

(** ** Deadlines *)
Definition closed_error (t : SecureTransport) : TransportError := if cleanup_failed t then CleanupFailed else ErrClosed.

Definition passed (instant : N) (deadline : option N) : bool := match deadline with Some d => (d <=? instant)%N | None => false end.

Definition expired (t : SecureTransport) (instant : N) : bool :=
  (lifetime_deadline t <=? instant)%N
  || (negb (bool_decide (phase t = Active)) && (bootstrap_deadline t <=? instant)%N)
  || passed instant (read_deadline t) || passed instant (write_deadline t).

Definition check_deadlines : M () :=
  t ← get;
  if bool_decide (phase t = PhaseClosed) then fail (closed_error t)
  else instant ← ask now; if expired t instant then fail Deadline else mret tt.

Definition buffered_deadline (t : SecureTransport) : TransportError + option N :=
  if input_start t =? input_end t then inr None
  else match input_received_at t with
       | None => inl Protocol
       | Some at_ => match instant_add at_ (frame_duration t) with None => inl Deadline | Some d => inr (Some d) end
       end.

Definition lift {A} (r : TransportError + A) : M A := match r with inl e => fail e | inr a => mret a end.

Definition next_deadline (t : SecureTransport) : option N :=
  if bool_decide (phase t = PhaseClosed) then None
  else
    let d := lifetime_deadline t in
    let d := if bool_decide (phase t = Active) then d else N.min d (bootstrap_deadline t) in
    let d := match read_deadline t with Some r => N.min d r | None => d end in
    Some (match write_deadline t with Some w => N.min d w | None => d end).

(** ** Closing *)
Definition torn_down (step : Teardown) : M () :=
  ok ← ask (teardown step);
  if (ok : bool) then mret tt else modify (fun t => t <| cleanup_failed := true |>).

Definition when {A} (b : bool) (m : M A) : M () := if b then m ;; mret tt else mret tt.

Definition begin_native_retirement : M () := t ← get; when (has_native t) (torn_down RetireNative).

Definition dispose_owned : M () :=
  t ← get;
  modify (fun t => t <| has_stream := false |>);;
  when (has_stream t) (torn_down DropStream);;
  modify (fun t => t <| has_native := false |>);;
  when (has_native t) (torn_down CancelNative ;; torn_down DropNative).

Definition is_some {A} (o : option A) : bool := match o with Some _ => true | None => false end.

(** [SecureTransport::close]: always leaves the transport closed; the result is
    whether the cleanup failed. *)
Definition transport_close : M () :=
  begin_native_retirement;;
  t ← get;
  modify (fun t => t <| phase := PhaseClosed |> <| read_buffer := replicate READ_CHUNK 0%N |> <| input_start := 0 |> <| input_end := 0 |>
                     <| input_received_at := None |> <| pending_output := None |> <| read_deadline := None |> <| write_deadline := None |>
                     <| handshake := None |>);;
  when (is_some (handshake t)) (torn_down DropHandshake);;
  modify (fun t => t <| unverified := None |>);;
  when (is_some (unverified t)) (torn_down DropUnverified);;
  modify (fun t => t <| records := None |>);;
  when (is_some (records t)) (torn_down DropRecords);;
  dispose_owned;;
  t ← get;
  if cleanup_failed t then fail CleanupFailed else mret tt.

(** [close_after]: the error the caller gets. *)
Definition close_after {A} (e : TransportError) : M A := fun st =>
  match transport_close st with
  | (Fail e', st) => (Fail e', st)
  | (_, st) => (Fail e, st)
  end.

(** ** The handshake *)
Definition with_guard {A} (m : M A) : M A := fun st =>
  let '(r, st) := m st in
  let '(released, w) := release_guard (world st) in
  let st := mkSt (transport_of st) w (trace st) in
  match r, released with
  | Val a, true => (Val a, st)
  | Fail e, true => (Fail e, st)
  | _, _ => (Fail CallbackPanicked, st)
  end.

(** The result of a call that may unwind; what it leaves is kept. *)
Definition returned {E A S} (keep : S -> SecureTransport -> SecureTransport) (r : option (Called E A * S)) : M (E + A) :=
  match r with
  | None => panic
  | Some (Unwound, s) => modify (keep s) ;; panic
  | Some (Returned r, s) => modify (keep s) ;; mret r
  end.

Definition keep_handshake (h : HandshakeIo) (t : SecureTransport) : SecureTransport := t <| handshake := Some h |>.
Definition keep_records (r : RecordIo) (t : SecureTransport) : SecureTransport := t <| records := Some r |>.

(** [read_pending] and [write_pending] with the stream: the callback runs only
    where they call it. *)
Definition read_handshake (h : HandshakeIo) : M (HandshakeError + ReadProgress) :=
  match stage h with
  | ReadFirst | ReadReply _ => r ← ask (stream_read (missing h)); returned keep_handshake (read_pending (fun _ => r) h)
  | _ => returned keep_handshake (read_pending (fun _ => ReadPanic) h)
  end.

Definition write_handshake (h : HandshakeIo) : M (HandshakeError + WriteProgress) :=
  match stage h, slice (hs_bytes (hs_output h)) (hs_written (hs_output h)) (hs_len (hs_output h)) with
  | WriteFirst _, Some ((_ :: _) as pending) | WriteReply _, Some ((_ :: _) as pending) =>
      r ← ask (stream_write pending); returned keep_handshake (hs_write_pending (fun _ => r) h)
  | _, _ => returned keep_handshake (hs_write_pending (fun _ => IoPanic) h)
  end.

Definition write_output (r : RecordIo) : M (RecordError + WriteProgress) :=
  match closed r, output r with
  | false, Some out =>
      match slice (output_bytes out) (written out) (length (output_bytes out)) with
      | Some pending => result ← ask (stream_write pending); returned keep_records (write_pending (fun _ => result) r)
      | None => panic
      end
  | _, _ => returned keep_records (write_pending (fun _ => IoPanic) r)
  end.

Definition need_stream : M () := t ← get; if has_stream t then mret tt else fail ErrClosed.
Definition need_native : M () := t ← get; if has_native t then mret tt else fail ErrClosed.

Definition take_handshake : M () :=
  t ← get;
  h ← need (handshake t);
  match take_unverified h with
  | (inl _, h) => modify (keep_handshake h) ;; fail Protocol
  | (inr channel, _) =>
      modify (fun t => t <| handshake := None |>);;
      need_native;;
      shown ← ask (show_fingerprint (fingerprint_text (unverified_fingerprint channel)));
      match shown with
      | NativePanics => panic
      | NativeFails => fail Denied
      | NativeOk =>
          check_deadlines;;
          modify (fun t => t <| unverified := Some channel |> <| phase := PhaseNative |>)
      end
  end.

Definition admitted {A} (m : M A) (busy : M A) : M A :=
  a ← ask admit_write;
  match a with
  | AdmitOk => m
  | AdmitBusy => busy
  | AdmitRefused => fail Denied
  | AdmitPanics => panic
  end.

Definition poll_handshake : M Progress :=
  t ← get;
  h ← need (handshake t);
  match interest h with
  | InterestRead =>
      need_stream;;
      r ← read_handshake h;
      check_deadlines;;
      match r with
      | inr ReadBlocked => mret Blocked
      | inr ReadIdle | inl _ => fail Protocol
      | inr _ => mret Advanced
      end
  | InterestWrite =>
      admitted
        (r ← with_guard (check_deadlines;; need_stream;; r ← write_handshake h; check_deadlines;; mret r);
         match r with
         | inr WriteBlocked => mret Blocked
         | inr WriteIdle | inl _ => fail Protocol
         | inr _ => mret Advanced
         end)
        (mret Blocked)
  | InterestComplete => take_handshake;; mret Advanced
  | InterestClosed => fail ErrClosed
  end.

(** ** The comparison *)

(** What a read of the stream during the comparison leads to. *)
Definition early_input (received_at : N) (r : ReadResult) : M Progress :=
  t ← get;
  match r with
  | ReadPanic => panic
  | ReadOk [] => fail ErrPeerClosed
  | ReadOk data =>
      if length data <=? length (read_buffer t) - input_end t then
        match write_slice (read_buffer t) (input_end t) data with
        | None => panic
        | Some buffer =>
            modify (fun t => t <| read_buffer := buffer |>
                               <| input_received_at := if input_end t =? 0 then Some received_at else input_received_at t |>
                               <| input_end := input_end t + length data |>);;
            mret Advanced
        end
      else fail Protocol
  | ReadErr WouldBlock => mret Blocked
  | ReadErr Interrupted => mret Advanced
  | ReadErr kind => fail (ErrIo kind)
  end.

Definition overfull_input (r : ReadResult) : M Progress :=
  match r with
  | ReadPanic => panic
  | ReadOk [] => fail ErrPeerClosed
  | ReadOk _ => fail Protocol
  | ReadErr WouldBlock => mret Blocked
  | ReadErr Interrupted => mret Advanced
  | ReadErr kind => fail (ErrIo kind)
  end.

(** Reading may panic; the deadlines are checked only when it returned. *)
Definition read_stream (limit : nat) : M ReadResult :=
  need_stream;;
  r ← ask (stream_read limit);
  match r with
  | ReadPanic => panic
  | _ => check_deadlines;; mret r
  end.

(** The records of a confirmed channel, with a frame queued. *)
Definition queue_frame (frame : list N) (r : RecordIo) : M () :=
  match prepare_send frame r with
  | (inl _, r) => modify (keep_records r) ;; fail Protocol
  | (inr _, r) => modify (keep_records r) ;; note (Sealed frame)
  end.

Definition confirm_channel (compared : list N) : M () :=
  t ← get;
  modify (fun t => t <| unverified := None |>);;
  u ← need (unverified t);
  match confirm_fingerprint u compared with
  | inl _ => fail Denied
  | inr channel =>
      note (Confirmed compared);;
      match RecordIo_new channel with
      | inl _ => fail Protocol
      | inr r =>
          match prepare_send (confirmation (role t)) r with
          | (inl _, _) => fail Protocol
          | (inr _, r) =>
              note (Sealed (confirmation (role t)));;
              modify (fun t => t <| records := Some r |> <| pending_output := Some OutConfirmation |>
                                 <| write_deadline := Some (bootstrap_deadline t) |> <| phase := Confirming |>)
          end
      end
  end.

Definition poll_native : M Progress :=
  need_native;;
  d ← ask poll_decision;
  match d with
  | DecisionPanics => panic
  | Decided d =>
      check_deadlines;;
      match d with
      | DecisionPending =>
          t ← get;
          if input_end t =? length (read_buffer t) then r ← read_stream 1; overfull_input r
          else
            received_at ← ask now;
            r ← read_stream (length (read_buffer t) - input_end t);
            early_input received_at r
      | DecisionDenied => fail Denied
      | ComparedPeer compared =>
          if negb (is_some (from_utf8 compared)) then fail Denied else confirm_channel compared;; mret Advanced
      end
  end.

(** ** Confirmations and frames *)
Definition advance_confirmation : M bool :=
  t ← get;
  if negb (bool_decide (phase t = Confirming)) then mret false
  else
    check_deadlines;;
    when (confirmation_sent t && confirmation_received t && negb (receipt_sent t) && negb (is_some (pending_output t)))
      (r ← need (records t);
       queue_frame (receipt (role t)) r;;
       modify (fun t => t <| pending_output := Some OutReceipt |> <| write_deadline := Some (bootstrap_deadline t) |> <| write_attempts := 0%N |>));;
    if receipt_sent t && receipt_received t then
      modify (fun t => t <| phase := Active |>);;
      t ← get;
      d ← lift (buffered_deadline t);
      modify (fun t => t <| read_deadline := d |> <| read_attempts := 0%N |>);;
      check_deadlines;;
      mret true
    else mret false.

Definition output_written (out : PendingOutput) : M Attempt :=
  modify (fun t => t <| pending_output := None |> <| write_deadline := None |> <| write_attempts := 0%N |>);;
  match out with
  | OutConfirmation => modify (fun t => t <| confirmation_sent := true |>);; mret (AttemptProgress Advanced)
  | OutReceipt => modify (fun t => t <| receipt_sent := true |>);; mret (AttemptProgress Advanced)
  | OutFrame => mret (AttemptProgress Sent)
  end.

Definition write_records : M Attempt :=
  t ← get;
  match pending_output t with
  | None => mret AttemptIdle
  | Some out =>
      modify (fun t => t <| write_attempts := (write_attempts t + 1)%N |>);;
      if (MAX_FRAME_ATTEMPTS <? write_attempts t + 1)%N then fail WorkLimit
      else
        admitted
          (r ← with_guard (check_deadlines;;
                           t ← get; r ← need (records t); need_stream;;
                           r ← write_output r; check_deadlines;; mret r);
           match r with
           | inr WriteBlocked => mret AttemptBlocked
           | inr (WriteRetry | WritePartial) => mret (AttemptProgress Advanced)
           | inr WriteComplete => output_written out
           | inr WriteIdle | inl _ => fail Protocol
           end)
          (mret AttemptBlocked)
  end.

(** A read into the empty buffer: [true] when there is input to take. *)
Definition refill : M (Attempt + unit) :=
  t ← get;
  when (is_some (read_deadline t)) (modify (fun t => t <| read_attempts := (read_attempts t + 1)%N |>));;
  if is_some (read_deadline t) && (MAX_FRAME_ATTEMPTS <? read_attempts t + 1)%N then fail WorkLimit
  else
    received_at ← ask now;
    r ← read_stream (length (read_buffer t));
    match r with
    | ReadPanic => panic
    | ReadOk [] =>
        t ← get;
        r ← need (records t);
        modify (keep_records (snd (record_end_input r)));;
        fail ErrPeerClosed
    | ReadOk data =>
        if length data <=? length (read_buffer t) then
          match write_slice (read_buffer t) 0 data with
          | None => panic
          | Some buffer =>
              modify (fun t => t <| read_buffer := buffer |> <| input_start := 0 |> <| input_end := length data |>
                                 <| input_received_at := Some received_at |>);;
              mret (inr tt)
          end
        else fail Protocol
    | ReadErr WouldBlock => mret (inl AttemptBlocked)
    | ReadErr Interrupted => mret (inl (AttemptProgress Advanced))
    | ReadErr kind => fail (ErrIo kind)
    end.

(** A frame that arrived before the connection is active. *)
Definition confirming_frame (frame : list N) : M Attempt :=
  t ← get;
  modify (fun t => t <| read_deadline := None |>);;
  if negb (confirmation_received t) && beq frame (peer_confirmation (role t)) then
    modify (fun t => t <| confirmation_received := true |>);; mret (AttemptProgress Advanced)
  else if confirmation_received t && confirmation_sent t && negb (receipt_received t) && beq frame (peer_receipt (role t)) then
    modify (fun t => t <| receipt_received := true |>);; mret (AttemptProgress Advanced)
  else fail Protocol.

Definition take_frame (frame : list N) : M Attempt :=
  modify (fun t => t <| read_attempts := 0%N |>);;
  t ← get;
  if bool_decide (phase t = Active) then
    d ← lift (buffered_deadline t);
    modify (fun t => t <| read_deadline := d |>);;
    check_deadlines;;
    mret (AttemptProgress (Frame frame))
  else confirming_frame frame.

(** What [receive] makes of the buffered input. *)
Definition take_input : M Attempt :=
  t ← get;
  when (bool_decide (phase t = Active) && negb (is_some (read_deadline t)))
    (d ← lift (buffered_deadline t); modify (fun t => t <| read_deadline := d |>);; check_deadlines);;
  t ← get;
  r ← need (records t);
  match slice (read_buffer t) (input_start t) (input_end t) with
  | None => panic
  | Some buffered =>
      match receive buffered r with
      | None => panic
      | Some (inl _, r) => modify (keep_records r);; fail Protocol
      | Some (inr (n, frame), r) =>
          modify (keep_records r);;
          match frame with Some f => note (Received f) | None => mret tt end;;
          check_deadlines;;
          if (n =? 0) || (input_end t - input_start t <? n) then fail Protocol
          else
            modify (fun t => t <| input_start := input_start t + n |>);;
            t ← get;
            when (input_start t =? input_end t)
              (modify (fun t => t <| read_buffer := replicate (length (read_buffer t)) 0%N |> <| input_start := 0 |> <| input_end := 0 |>
                                  <| input_received_at := None |>));;
            match frame with
            | None => mret (AttemptProgress Advanced)
            | Some f => take_frame f
            end
      end
  end.

Definition read_records : M Attempt :=
  t ← get;
  if bool_decide (phase t = Confirming) && receipt_received t then mret AttemptIdle
  else if input_start t =? input_end t then
    r ← refill;
    match r with
    | inl attempt => mret attempt
    | inr _ => take_input
    end
  else take_input.

(** ** The interface *)
Definition charge_poll : M () :=
  modify (fun t => t <| total_polls := (total_polls t + 1)%N |>);;
  t ← get;
  if (MAX_TOTAL_POLLS <? total_polls t)%N then fail WorkLimit else mret tt.

Definition poll_inner : M Progress :=
  check_deadlines;;
  charge_poll;;
  t ← get;
  when (negb (bool_decide (phase t = Active))) (modify (fun t => t <| bootstrap_polls := (bootstrap_polls t + 1)%N |>));;
  if negb (bool_decide (phase t = Active)) && (MAX_BOOTSTRAP_POLLS <? bootstrap_polls t + 1)%N then fail WorkLimit
  else match phase t with
       | PhaseHandshake => poll_handshake
       | PhaseNative => poll_native
       | Confirming | Active =>
           established ← advance_confirmation;
           if (established : bool) then mret Established
           else
             t ← get;
             let write_first := prefer_write t in
             modify (fun t => t <| prefer_write := negb (prefer_write t) |>);;
             first ← (if write_first then write_records else read_records);
             attempt ← match first with
                       | AttemptProgress p => mret (AttemptProgress p)
                       | AttemptIdle | AttemptBlocked => if write_first then read_records else write_records
                       end;
             established ← advance_confirmation;
             if (established : bool) then mret Established
             else mret (match attempt with AttemptProgress p => p | _ => Blocked end)
       | PhaseClosed => fail (closed_error t)
       end.

Definition poll : M Progress := fun st =>
  let '(r, st) := poll_inner st in
  let '(dropped, w) := drop_admission (world st) in
  let st := mkSt (transport_of st) w (trace st) in
  if negb dropped then close_after CallbackPanicked st
  else match r with
       | Val p => (Val p, st)
       | Fail e => close_after e st
       | Panic => close_after CallbackPanicked st
       end.

Definition transport_prepare_send (frame : list N) (expires : N) : M () :=
  t ← get;
  if bool_decide (phase t = PhaseClosed) then fail (closed_error t)
  else if negb (bool_decide (phase t = Active)) then fail NotEstablished
  else fun st =>
    match check_deadlines st with
    | (Fail e, st) => close_after e st
    | (Panic, st) => (Panic, st)
    | (Val _, st) =>
        if is_some (pending_output t) then (Fail ErrBusy, st)
        else
          let '(instant, w) := now (world st) in
          let st := mkSt (transport_of st) w (trace st) in
          match instant_add instant (frame_duration t) with
          | None => close_after Deadline st
          | Some deadline =>
              let deadline := N.min deadline expires in
              if (deadline <=? instant)%N then close_after Deadline st
              else match (r ← need (records t); queue_frame frame r) st with
                   | (Fail e, st) => close_after e st
                   | (Panic, st) => close_after CallbackPanicked st
                   | (Val _, st) =>
                       modify (fun t => t <| pending_output := Some OutFrame |> <| write_deadline := Some deadline |>
                                          <| write_attempts := 0%N |>) st
                   end
          end
    end.

(** [SecureTransport::new]: the deadlines and the handshake. *)
Definition transport_setup (r : Role) (bootstrap_duration frame_duration : N) (w : World)
    : option (TransportError + SecureTransport) * World :=
  if (bootstrap_duration =? 0)%N || (MAX_BOOTSTRAP_DURATION <? bootstrap_duration)%N
     || (frame_duration =? 0)%N || (MAX_FRAME_DURATION <? frame_duration)%N then (Some (inl Protocol), w)
  else
    let '(instant, w) := now w in
    match instant_add instant bootstrap_duration with
    | None => (Some (inl Deadline), w)
    | Some bootstrap =>
        let '(instant, w) := now w in
        match instant_add instant MAX_TRANSPORT_LIFETIME with
        | None => (Some (inl Deadline), w)
        | Some lifetime =>
            (h ← match r with Client => direct_initiator | Application => Some (inr direct_responder) end;
             Some (match h with
                   | inl _ => inl Protocol
                   | inr h => inr (mkTransport true true false r PhaseHandshake (Some h) None None bootstrap lifetime frame_duration
                                     0 0 None None 0 0 (replicate READ_CHUNK 0%N) 0 0 None None false false false false true)
                   end), w)
        end
    end.

(** Teardown steps in order: whether all of them succeeded. *)
Fixpoint teardown_all (steps : list Teardown) (w : World) : bool * World :=
  match steps with
  | [] => (true, w)
  | step :: steps => let '(ok, w) := teardown step w in let '(rest, w) := teardown_all steps w in (ok && rest, w)
  end.

(** A failed setup retires the native surface and the stream. *)
Definition SecureTransport_new (r : Role) (bootstrap_duration frame_duration : N) (w : World) : (TransportError + SecureTransport) * World :=
  match transport_setup r bootstrap_duration frame_duration w with
  | (Some (inr t), w) => (inr t, w)
  | (failure, w) =>
      let error := match failure with Some (inl e) => e | _ => CallbackPanicked end in
      let '(ok, w) := teardown_all [RetireNative; DropStream; CancelNative; DropNative] w in
      (inl (if ok then error else CleanupFailed), w)
  end.

Definition is_established (t : SecureTransport) : bool := bool_decide (phase t = Active).
Definition has_pending_output (t : SecureTransport) : bool := is_some (pending_output t).

Record IoInterest := mkInterest { readable : bool; writable : bool }.

Definition io_interest (t : SecureTransport) : IoInterest :=
  match phase t with
  | PhaseHandshake =>
      match interest <$> handshake t with
      | Some InterestRead => mkInterest true false
      | Some InterestWrite => mkInterest false true
      | _ => mkInterest false false
      end
  | PhaseNative => mkInterest true false
  | Confirming => mkInterest (negb (receipt_received t)) (is_some (pending_output t))
  | Active => mkInterest true (is_some (pending_output t))
  | PhaseClosed => mkInterest false false
  end.
End Transport.
