(* ===== verification/SecureTransportSpec.v ===== *)
(** * Frames only after both ends have confirmed

    A checker of what a connection gives to and takes from its record layer,
    the proof that every connection passes it whatever the platform does, and
    what it means for two connections that share a secure stream. *)

From Stdlib Require Import NArith Bool.
From S2P Require Import Prelude SecureChannel RecordIo RecordSpec HandshakeIo SecureTransport.

(** ** The order of events *)
Record Seen := mkSeen {
  confirmed : bool;
  sealed_confirmation : bool;
  received_confirmation : bool;
  sealed_receipt : bool;
  received_receipt : bool;
  refused : bool
}.
Definition nothing_seen : Seen := mkSeen false false false false false false.

(** What may come next: nothing before the user's comparison; then the
    confirmation; the receipt only once the peer's confirmation is there; and
    anything else only once the peer's receipt is there too.  A frame the
    protocol does not expect is the last event. *)
Definition observe (r : Role) (s : Seen) (e : Event) : option Seen :=
  if refused s then None
  else match e with
  | Confirmed _ => if confirmed s then None else Some (mkSeen true false false false false false)
  | Sealed f =>
      if negb (confirmed s) then None
      else if negb (sealed_confirmation s) then if beq f (confirmation r) then Some (mkSeen true true false false false false) else None
      else if negb (sealed_receipt s) then
        if received_confirmation s && beq f (receipt r) then Some (mkSeen true true true true (received_receipt s) false) else None
      else if received_receipt s then Some s else None
  | Received f =>
      if negb (sealed_confirmation s) then None
      else if negb (received_confirmation s) then
        if beq f (peer_confirmation r) then Some (mkSeen true true true (sealed_receipt s) false false)
        else Some (mkSeen true true false (sealed_receipt s) false true)
      else if negb (received_receipt s) then
        if beq f (peer_receipt r) then Some (mkSeen true true true (sealed_receipt s) true false)
        else Some (mkSeen true true true (sealed_receipt s) false true)
      else Some s
  end.

Fixpoint observe_all (r : Role) (s : Seen) (es : list Event) : option Seen :=
  match es with [] => Some s | e :: es => s ← observe r s e; observe_all r s es end.

Lemma observe_app r s a b : observe_all r s (a ++ b) = (s ← observe_all r s a; observe_all r s b).
Proof. revert s. induction a as [|e a IH]; intros s; cbn; [done|]. destruct (observe r s e); [apply IH|done]. Qed.

Definition sealed (es : list Event) : list (list N) := omap (fun e => match e with Sealed f => Some f | _ => None end) es.
Definition received (es : list Event) : list (list N) := omap (fun e => match e with Received f => Some f | _ => None end) es.
Definition compared (es : list Event) : list (list N) := omap (fun e => match e with Confirmed f => Some f | _ => None end) es.

Section Transports.
Context `{Nz : Noise} `{Pf : Platform}.

(** ** The invariant *)

(** What a transport that is not closed knows of its events. *)
Definition agrees (t : SecureTransport) (s : Seen) : Prop :=
  match phase t with
  | PhaseHandshake | PhaseNative =>
      s = nothing_seen /\ pending_output t = None /\ confirmation_sent t = false /\ confirmation_received t = false /\
      receipt_sent t = false /\ receipt_received t = false
  | Confirming =>
      s = mkSeen true true (confirmation_received t)
            (receipt_sent t || bool_decide (pending_output t = Some OutReceipt)) (receipt_received t) false /\
      pending_output t <> Some OutFrame /\
      (confirmation_sent t = false -> pending_output t = Some OutConfirmation /\ receipt_sent t = false) /\
      (confirmation_sent t = true -> pending_output t <> Some OutConfirmation) /\
      (receipt_received t = true -> confirmation_received t = true)
  | Active => s = mkSeen true true true true true false
  | PhaseClosed => False
  end.

Definition inv (r : Role) (n : N) (st : St) : Prop :=
  role (transport_of st) = r /\ total_polls (transport_of st) = n /\
  exists s, observe_all r nothing_seen (trace st) = Some s /\ agrees (transport_of st) s.

(** What is left after an error: the events were in order. *)
Definition weak (r : Role) (st : St) : Prop := role (transport_of st) = r /\ exists s, observe_all r nothing_seen (trace st) = Some s.

Lemma inv_weak r n st : inv r n st -> weak r st.
Proof. intros (H & _ & s & E & _). split; [done|by exists s]. Qed.

(** ** Reasoning about computations

    [triple P m Q]: from [P], [m] ends in [Q] with its value, or in an error
    that leaves the events in order. *)
Definition triple {A} (r : Role) (P : St -> Prop) (m : M A) (Q : A -> St -> Prop) : Prop :=
  forall st, P st -> match m st with (Val a, st') => Q a st' | (_, st') => weak r st' end.

Lemma triple_bind {A B} r P (m : M A) (f : A -> M B) Q R :
  triple r P m Q -> (forall a, triple r (Q a) (f a) R) -> triple r P (m ≫= f) R.
Proof.
  intros Hm Hf st HP. specialize (Hm st HP). unfold mbind, M_bind. destruct (m st) as [[a|e|] st']; [|done|done]. by apply Hf.
Qed.

Lemma triple_ret {A} r P (a : A) : triple r (P a) (mret a) P.
Proof. by intros st. Qed.

Lemma triple_fail {A} r P e (Q : A -> St -> Prop) : (forall st, P st -> weak r st) -> triple r P (fail e) Q.
Proof. intros H st HP. by apply H. Qed.

Lemma triple_panic {A} r P (Q : A -> St -> Prop) : (forall st, P st -> weak r st) -> triple r P panic Q.
Proof. intros H st HP. by apply H. Qed.

Lemma triple_get r P : triple r P get (fun t st => P st /\ transport_of st = t).
Proof. by intros st HP. Qed.

Lemma triple_ask {A} r (P : St -> Prop) (f : World -> A * World) :
  (forall t w tr w', P (mkSt t w tr) -> P (mkSt t w' tr)) -> triple r P (ask f) (fun _ => P).
Proof. intros H [t w tr] HP. unfold ask. cbn. destruct (f w) as [a w']. by apply (H t w). Qed.

Lemma triple_weaken {A} r (P P' : St -> Prop) (m : M A) (Q Q' : A -> St -> Prop) :
  triple r P m Q -> (forall st, P' st -> P st) -> (forall a st, Q a st -> Q' a st) -> triple r P' m Q'.
Proof.
  intros H HP HQ st HP'. specialize (H st (HP st HP')). destruct (m st) as [[a|e|] st']; [by apply HQ|done|done].
Qed.

(** ** Computations that leave the protocol alone *)
Definition same (t t' : SecureTransport) : Prop :=
  role t' = role t /\ phase t' = phase t /\ pending_output t' = pending_output t /\ confirmation_sent t' = confirmation_sent t /\
  confirmation_received t' = confirmation_received t /\ receipt_sent t' = receipt_sent t /\ receipt_received t' = receipt_received t /\
  total_polls t' = total_polls t.

Lemma same_refl t : same t t.
Proof. by split_and!. Qed.

Lemma same_trans t t' t'' : same t t' -> same t' t'' -> same t t''.
Proof. unfold same. intros. destruct_and!. split_and!; congruence. Qed.

Definition quiet {A} (m : M A) : Prop := forall st, same (transport_of st) (transport_of (m st).2) /\ trace (m st).2 = trace st.

Lemma quiet_ret {A} (a : A) : quiet (mret a).
Proof. intros st. by split; [apply same_refl|]. Qed.

Lemma quiet_fail {A} e : quiet (fail (A := A) e).
Proof. intros st. by split; [apply same_refl|]. Qed.

Lemma quiet_panic {A} : quiet (panic (A := A)).
Proof. intros st. by split; [apply same_refl|]. Qed.

Lemma quiet_get : quiet get.
Proof. intros st. by split; [apply same_refl|]. Qed.

Lemma quiet_ask {A} (f : World -> A * World) : quiet (ask f).
Proof. intros st. unfold ask. destruct (f (world st)). by split; [apply same_refl|]. Qed.

Lemma quiet_modify f : (forall t, same t (f t)) -> quiet (modify f).
Proof. intros H st. by split; [apply H|]. Qed.

Lemma quiet_bind {A B} (m : M A) (f : A -> M B) : quiet m -> (forall a, quiet (f a)) -> quiet (m ≫= f).
Proof.
  intros Hm Hf st. specialize (Hm st). unfold mbind, M_bind. destruct (m st) as [[a|e|] st']; [|done|done]. cbn in Hm. destruct Hm as [H1 H2].
  destruct (Hf a st') as [H3 H4]. split; [by eapply same_trans|congruence].
Qed.

Lemma quiet_need {A} (o : option A) : quiet (need o).
Proof. destruct o; [apply quiet_ret|apply quiet_fail]. Qed.

Lemma quiet_lift {A} (x : TransportError + A) : quiet (lift x).
Proof. destruct x; [apply quiet_fail|apply quiet_ret]. Qed.

Lemma quiet_when {A} b (m : M A) : quiet m -> quiet (when b m).
Proof. intros H. destruct b; [apply quiet_bind; [done|intros; apply quiet_ret]|apply quiet_ret]. Qed.

Lemma quiet_guard {A} (m : M A) : quiet m -> quiet (with_guard m).
Proof.
  intros H st. specialize (H st). unfold with_guard. destruct (m st) as [x st']. destruct (release_guard (world st')) as [ok w]. cbn in *.
  by destruct x, ok.
Qed.

Lemma quiet_returned {E A S} keep (x : option (Called E A * S)) : (forall s t, same t (keep s t)) -> quiet (returned keep x).
Proof.
  intros H. destruct x as [[[y|] s]|]; cbn [returned];
    [apply quiet_bind; [by apply quiet_modify|intros; apply quiet_ret]|apply quiet_bind; [by apply quiet_modify|intros; apply quiet_panic]|apply quiet_panic].
Qed.

Lemma keeps_quiet : (forall h t, same t (keep_handshake h t)) /\ (forall r t, same t (keep_records r t)).
Proof. split; intros; by split_and!. Qed.
End Transports.

(** Quiet computations, by their shape. *)
Ltac quiet :=
  repeat first
    [ apply quiet_ret | apply quiet_fail | apply quiet_panic | apply quiet_get | apply quiet_ask | apply quiet_need | apply quiet_lift
    | apply quiet_when | apply quiet_guard | apply quiet_returned; [apply keeps_quiet] | apply quiet_modify; [by split_and!]
    | apply quiet_bind; [|intros] | case_match | done ].

Section Proofs.
Context `{Nz : Noise} `{Pf : Platform}.

Lemma quiet_check : quiet check_deadlines.
Proof. unfold check_deadlines. quiet. Qed.

Lemma quiet_need_stream : quiet need_stream.
Proof. unfold need_stream. quiet. Qed.

Lemma quiet_need_native : quiet need_native.
Proof. unfold need_native. quiet. Qed.

Lemma quiet_read_handshake h : quiet (read_handshake h).
Proof. unfold read_handshake. quiet. Qed.

Lemma quiet_write_handshake h : quiet (write_handshake h).
Proof. unfold write_handshake. quiet. Qed.

Lemma quiet_write_output r : quiet (write_output r).
Proof. unfold write_output. quiet. Qed.

Lemma quiet_read_stream n : quiet (read_stream n).
Proof. unfold read_stream. repeat first [apply quiet_check|apply quiet_need_stream|progress quiet]. Qed.

Lemma quiet_early n r : quiet (early_input n r).
Proof. unfold early_input. quiet. Qed.

Lemma quiet_overfull r : quiet (overfull_input r).
Proof. unfold overfull_input. quiet. Qed.

Lemma quiet_refill : quiet refill.
Proof. unfold refill. repeat first [apply quiet_read_stream|progress quiet]. Qed.

Lemma quiet_torn_down s : quiet (torn_down s).
Proof. unfold torn_down. quiet. Qed.

(** ** The invariant under quiet computations *)
Lemma agrees_same t t' s : agrees t s -> same t t' -> agrees t' s.
Proof.
  unfold agrees. intros Ha (Hr & Hp & Ho & H1 & H2 & H3 & H4 & Hn). by rewrite Hp, Ho, H1, H2, H3, H4.
Qed.

Definition stable (P : St -> Prop) : Prop := forall st st', P st -> same (transport_of st) (transport_of st') -> trace st' = trace st -> P st'.

Lemma inv_stable r n : stable (inv r n).
Proof.
  intros st st' (Hr & Hn & s & Es & Ha) Hs Ht. pose proof Hs as (Hrole & _ & _ & _ & _ & _ & _ & Htot).
  split_and!; [congruence|congruence|]. exists s. rewrite Ht. split; [done|by apply (agrees_same (transport_of st))].
Qed.

(** The invariant, with the protocol's fields as in [t]. *)
Definition snap (r : Role) (n : N) (t : SecureTransport) (st : St) : Prop := inv r n st /\ same t (transport_of st).

Lemma snap_stable r n t : stable (snap r n t).
Proof. intros st st' [Hi Hs] Hst Ht. split; [by apply (inv_stable r n st)|by eapply same_trans]. Qed.

Lemma snap_weak r n t st : snap r n t st -> weak r st.
Proof. intros [Hi _]. by eapply inv_weak. Qed.

Lemma triple_quiet {A} r P (m : M A) : stable P -> (forall st, P st -> weak r st) -> quiet m -> triple r P m (fun _ => P).
Proof.
  intros Hs Hw Hq st HP. destruct (Hq st) as [H1 H2]. assert (P (m st).2) as HP' by (by apply (Hs st)).
  destruct (m st) as [[a|e|] st']; cbn in *; [done|by apply Hw..].
Qed.

Lemma triple_snap {A} r n t (m : M A) : quiet m -> triple r (snap r n t) m (fun _ => snap r n t).
Proof. apply triple_quiet; [apply snap_stable|apply snap_weak]. Qed.

Lemma triple_seq {A B} r n t (m : M A) (f : A -> M B) Q :
  quiet m -> (forall a, triple r (snap r n t) (f a) Q) -> triple r (snap r n t) (m ≫= f) Q.
Proof. intros Hm Hf. eapply triple_bind; [by apply triple_snap|done]. Qed.

Lemma triple_get_snap {B} r n t (f : SecureTransport -> M B) Q :
  (forall t', same t t' -> triple r (snap r n t') (f t') Q) -> triple r (snap r n t) (get ≫= f) Q.
Proof. intros H st [Hi Hs]. apply (H (transport_of st) Hs st). split; [done|apply same_refl]. Qed.

(** A change of the protocol's fields and of the events. *)
Lemma triple_change r n t f es (m : M ()) (K : SecureTransport -> Prop) :
  (forall st, m st = (Val tt, mkSt (f (transport_of st)) (world st) (trace st ++ es))) ->
  (forall u s, same t u -> agrees u s -> role u = r -> exists s', observe_all r s es = Some s' /\ agrees (f u) s' /\ K (f u)) ->
  (forall u, role (f u) = role u /\ total_polls (f u) = total_polls u) ->
  triple r (snap r n t) m (fun _ st => inv r n st /\ K (transport_of st)).
Proof.
  intros Em Hf Hk st [(Hr & Hn & s & Es & Ha) Hs]. rewrite Em. destruct (Hf _ s Hs Ha Hr) as (s' & Es' & Ha' & HK).
  destruct (Hk (transport_of st)) as [Hk1 Hk2]. split; [|done]. split_and!; cbn; [congruence|congruence|]. exists s'. split; [|done].
  by rewrite observe_app, Es.
Qed.

Lemma triple_modify r n t f :
  (forall u s, same t u -> agrees u s -> role u = r -> agrees (f u) s) -> (forall u, role (f u) = role u /\ total_polls (f u) = total_polls u) ->
  triple r (snap r n t) (modify f) (fun _ => inv r n).
Proof.
  intros Hf Hk. eapply triple_weaken; [apply (triple_change r n t f [] _ (fun _ => True))|done|by intros a st [? _]]; [|
    intros u s Hu Ha Hr; exists s; split_and!; [done|by apply Hf|done]|done].
  intros st. unfold modify. by rewrite app_nil_r.
Qed.

Lemma same_sym t t' : same t t' -> same t' t.
Proof. unfold same. intros. destruct_and!. by split_and!. Qed.

Lemma take_handshake_ok r n t : phase t = PhaseHandshake -> triple r (snap r n t) take_handshake (fun _ => inv r n).
Proof.
  intros Hp. unfold take_handshake. apply triple_get_snap. intros t' Hs. apply triple_seq; [apply quiet_need|]. intros h.
  destruct (take_unverified h) as [[e|channel] h'].
  { apply triple_seq; [apply quiet_modify, keeps_quiet|]. intros _. apply triple_fail, snap_weak. }
  apply triple_seq; [quiet|]. intros _. apply triple_seq; [apply quiet_need_native|]. intros _. apply triple_seq; [apply quiet_ask|]. intros shown.
  destruct shown; [|apply triple_fail, snap_weak|apply triple_panic, snap_weak]. apply triple_seq; [apply quiet_check|]. intros _.
  apply triple_modify; [|done]. intros u s Hu Ha Hr. unfold agrees in *. cbn.
  assert (phase u = PhaseHandshake) as Hpu by (destruct Hs as (_ & H1 & _), Hu as (_ & H2 & _); congruence). by rewrite Hpu in Ha.
Qed.

Lemma same_phase t t' : same t t' -> phase t' = phase t.
Proof. by intros (_ & ? & _). Qed.

Lemma triple_done {A} r n t (a : A) : triple r (snap r n t) (mret a) (fun _ => inv r n).
Proof. by intros st [? _]. Qed.

Lemma triple_admitted {A} r n t (m busy : M A) Q :
  triple r (snap r n t) m Q -> triple r (snap r n t) busy Q -> triple r (snap r n t) (admitted m busy) Q.
Proof.
  intros Hm Hb. unfold admitted. apply triple_seq; [apply quiet_ask|]. intros [| | |]; [done|done|apply triple_fail, snap_weak|apply triple_panic, snap_weak].
Qed.

Lemma poll_handshake_ok r n t : phase t = PhaseHandshake -> triple r (snap r n t) poll_handshake (fun p st => inv r n st /\ forall f, p <> Frame f).
Proof.
  intros Hp.
  unfold poll_handshake. apply triple_get_snap. intros t' Hs. pose proof (same_phase _ _ Hs) as Hp'. rewrite Hp in Hp'.
  apply triple_seq; [apply quiet_need|]. intros h. destruct (interest h).
  - apply triple_seq; [apply quiet_need_stream|]. intros _. apply triple_seq; [apply quiet_read_handshake|]. intros x. apply triple_seq; [apply quiet_check|].
    intros _. destruct x as [e|[]]; try (apply triple_fail, snap_weak); by intros st [? _].
  - apply triple_admitted; [|by intros st [? _]]. apply triple_seq.
    { apply quiet_guard. repeat first [apply quiet_check|apply quiet_need_stream|apply quiet_write_handshake|progress quiet]. }
    intros x. destruct x as [e|[]]; try (apply triple_fail, snap_weak); by intros st [? _].
  - eapply triple_bind; [by apply take_handshake_ok|]. by intros _ st ?.
  - apply triple_fail, snap_weak.
Qed.

Lemma confirm_channel_ok r n t x : phase t = PhaseNative -> triple r (snap r n t) (confirm_channel x) (fun _ => inv r n).
Proof.
  intros Hp. unfold confirm_channel. apply triple_get_snap. intros t' Hs. apply triple_seq; [quiet|]. intros _.
  apply triple_seq; [apply quiet_need|]. intros u. destruct (confirm_fingerprint u x) as [e|c]; [apply triple_fail, snap_weak|].
  intros st [(Hr & Hn & s & Es & Ha) Hst]. assert (role t' = r) as Hrt by (destruct Hst as (H & _); congruence).
  unfold agrees in Ha. rewrite (same_phase _ _ Hst), (same_phase _ _ Hs), Hp in Ha. destruct Ha as (-> & _ & H1 & H2 & H3 & H4).
  unfold mbind, M_bind, note. cbn [transport_of world trace].
  assert (forall es s', observe_all r nothing_seen es = Some s' -> weak r (mkSt (transport_of st) (world st) (trace st ++ es))) as Hw.
  { intros es s' E. split; [done|]. exists s'. cbn [trace]. by rewrite observe_app, Es. }
  destruct (RecordIo_new c) as [e|io]; [by eapply Hw|]. destruct (prepare_send (confirmation (role t')) io) as [[e|[]] io']; [by eapply Hw|].
  unfold modify. cbn [transport_of world trace]. rewrite <- app_assoc. split_and!; [done|done|].
  eexists. cbn [trace transport_of]. rewrite observe_app, Es. cbn [mbind option_bind app observe_all observe]. rewrite Hrt.
  cbn. unfold beq. rewrite bool_decide_true by done. cbn. split; [done|]. unfold agrees. cbn. rewrite H1, H2, H3, H4.
  split_and!; try done.
Qed.

Lemma poll_native_ok r n t : phase t = PhaseNative -> triple r (snap r n t) poll_native (fun p st => inv r n st /\ forall f, p <> Frame f).
Proof.
  intros Hp. unfold poll_native. apply triple_seq; [apply quiet_need_native|]. intros _. apply triple_seq; [apply quiet_ask|]. intros d.
  destruct d as [d|]; [|apply triple_panic, snap_weak]. apply triple_seq; [apply quiet_check|]. intros _. destruct d as [| |x].
  - apply triple_get_snap. intros t' Hs.
    assert (forall (m : M Progress), quiet m -> (forall st p, (m st).1 = Val p -> forall f, p <> Frame f) ->
      triple r (snap r n t') m (fun p st => inv r n st /\ forall f, p <> Frame f)) as Hq.
    { intros m Hm Hno st Hst. pose proof (triple_snap r n t' m Hm st Hst) as H. specialize (Hno st).
      destruct (m st) as [[p|e|] st']; [|done|done]. split; [apply H|]. by apply Hno. }
    destruct (_ =? _).
    + apply triple_seq; [apply quiet_read_stream|]. intros x. apply Hq; [apply quiet_overfull|]. intros st p. unfold overfull_input. cbn.
      repeat case_match; cbn; intros; by simplify_eq.
    + apply triple_seq; [apply quiet_ask|]. intros i. apply triple_seq; [apply quiet_read_stream|]. intros x. apply Hq; [apply quiet_early|].
      intros st p. unfold early_input, mbind, M_bind. cbn. repeat case_match; cbn; intros; by simplify_eq.
  - apply triple_fail, snap_weak.
  - destruct (negb _); [apply triple_fail, snap_weak|]. eapply triple_bind; [by apply confirm_channel_ok|]. by intros _ st ?.
Qed.

(** ** Confirmations *)
Definition talking (t : SecureTransport) : Prop := phase t = Confirming \/ phase t = Active.

Definition busy (r : Role) (n : N) (st : St) : Prop := inv r n st /\ talking (transport_of st).

Lemma talking_same t t' : talking t -> same t t' -> talking t'.
Proof. unfold talking. intros H Hs. by rewrite (same_phase _ _ Hs). Qed.

Lemma snap_busy r n t st : talking t -> snap r n t st -> busy r n st.
Proof. intros Ht [Hi Hs]. split; [done|by apply (talking_same t)]. Qed.

Lemma busy_snap {A} r n (m : M A) Q : (forall t, talking t -> triple r (snap r n t) m Q) -> triple r (busy r n) m Q.
Proof. intros H st [Hi Ht]. apply (H (transport_of st) Ht st). split; [done|apply same_refl]. Qed.

(** A frame given to the record layer. *)
Lemma queue_frame_ok r n t f io : triple r (snap r n t) (queue_frame f io) (fun _ st =>
    exists st0 w, snap r n t st0 /\ st = mkSt (transport_of st) w (trace st0 ++ [Sealed f]) /\ same (transport_of st0) (transport_of st)).
Proof.
  intros st Hst. unfold queue_frame. destruct (prepare_send f io) as [[e|[]] io']; cbn.
  - apply (snap_weak r n t). by apply (snap_stable r n t st).
  - exists st, (world st). split_and!; done.
Qed.

(** The receipt, where it is due. *)
Definition receipt_due (t : SecureTransport) : bool :=
  confirmation_sent t && confirmation_received t && negb (receipt_sent t) && negb (is_some (pending_output t)).

Lemma receipt_queued r n t : phase t = Confirming -> receipt_due t = true ->
  triple r (snap r n t)
    (io ← need (records t);
     queue_frame (receipt (role t)) io;;
     modify (fun t => t <| pending_output := Some OutReceipt |> <| write_deadline := Some (bootstrap_deadline t) |> <| write_attempts := 0%N |>))
    (fun _ st => inv r n st /\ phase (transport_of st) = Confirming /\ receipt_sent (transport_of st) = receipt_sent t /\
                 receipt_received (transport_of st) = receipt_received t).
Proof.
  intros Hp Hd. apply triple_seq; [apply quiet_need|]. intros io. eapply triple_bind; [apply queue_frame_ok|]. intros _ st (st0 & w & [Hi Hs] & -> & Hst).
  destruct st as [t1 w1 tr1]. cbn [transport_of trace] in *. destruct Hi as (Hr & Hn & s & Es & Ha). pose proof (same_trans _ _ _ Hs Hst) as Hall.
  unfold receipt_due in Hd. rewrite !andb_true_iff, !negb_true_iff in Hd. destruct Hd as [[[D1 D2] D3] D4].
  assert (role t = r) as Hrt by (destruct Hs as (H & _); congruence).
  unfold agrees in Ha. rewrite (same_phase _ _ Hs), Hp in Ha. pose proof Hs as (_ & _ & G1 & G2 & G3 & G4 & G5 & _). rewrite G1, G2, G3, G4, G5, D1, D2, D3 in Ha.
  destruct Ha as (-> & _). pose proof Hall as (F0 & F1 & F2 & F3 & F4 & F5 & F6 & F7).
  assert (pending_output t = None) as Hout by (by destruct (pending_output t)). rewrite Hout in *. cbn in Es.
  rewrite bool_decide_false in Es by done.
  split; cbn; [|split_and!; congruence]. split_and!; cbn; [congruence|destruct Hst as (_ & _ & _ & _ & _ & _ & _ & E); congruence|].
  eexists. rewrite observe_app, Es. cbn [mbind option_bind observe_all]. rewrite Hrt. unfold observe. cbn. unfold beq. rewrite bool_decide_true by done. cbn.
  split; [done|]. unfold agrees. cbn. rewrite F1, Hp, F3, F4, F5, F6, D1, D2, D3. split_and!; try done.
Qed.

Lemma activate r n t : phase t = Confirming -> receipt_sent t = true -> receipt_received t = true ->
  triple r (fun st => inv r n st /\ phase (transport_of st) = Confirming /\ receipt_sent (transport_of st) = receipt_sent t /\
                      receipt_received (transport_of st) = receipt_received t)
    (modify (fun t => t <| phase := Active |>)) (fun _ => busy r n).
Proof.
  intros Hp H1 H2 st ((Hr & Hn & s & Es & Ha) & Hph & E1 & E2). rewrite H1 in E1. rewrite H2 in E2. cbn. split; [|by right]. split_and!; [done|done|].
  exists s. split; [done|]. unfold agrees in *. rewrite Hph, E1, E2 in Ha. cbn. destruct Ha as (-> & _ & _ & _ & H5). rewrite H5 by done. done.
Qed.

Lemma advance_confirmation_ok r n t : talking t -> triple r (snap r n t) advance_confirmation (fun _ => busy r n).
Proof.
  intros Ht. unfold advance_confirmation. apply triple_get_snap. intros t' Hs. pose proof (talking_same _ _ Ht Hs) as Ht'.
  case_bool_decide as Hp; cbn [negb]; [|intros st Hst; by apply (snap_busy r n t')]. apply triple_seq; [apply quiet_check|]. intros _.
  fold (receipt_due t').
  set (Mid := fun (_ : ()) st => inv r n st /\ phase (transport_of st) = Confirming /\ receipt_sent (transport_of st) = receipt_sent t' /\
                 receipt_received (transport_of st) = receipt_received t').
  eapply (triple_bind r _ _ _ Mid).
  { destruct (receipt_due t') eqn:Ed; unfold when; cbn beta iota.
    - eapply triple_bind; [by apply receipt_queued|]. intros [] st H. exact H.
    - intros st [Hi Hst]. cbn. unfold Mid. destruct Hst as (_ & F1 & _ & _ & _ & F5 & F6 & _). split_and!; [done|congruence|done|done]. }
  intros []. destruct (receipt_sent t' && receipt_received t') eqn:Eb.
  - apply andb_true_iff in Eb as [E1 E2]. eapply triple_bind; [by apply activate|]. intros []. apply busy_snap. intros t2 Ht2.
    apply triple_get_snap. intros t3 Hs3. apply triple_seq; [apply quiet_lift|]. intros d. apply triple_seq; [quiet|]. intros _.
    apply triple_seq; [apply quiet_check|]. intros _ st Hst. by apply (snap_busy r n t3); [apply (talking_same t2)|].
  - intros st (Hi & Hph & _). split; [done|by left].
Qed.

(** ** Writing *)
Definition no_frame (a : Attempt) : Prop := forall f, a <> AttemptProgress (Frame f).

Lemma triple_modify_busy r n t f :
  talking t -> (forall u s, same t u -> agrees u s -> role u = r -> agrees (f u) s) -> (forall u, role (f u) = role u /\ total_polls (f u) = total_polls u) ->
  (forall u, phase (f u) = phase u) -> triple r (snap r n t) (modify f) (fun _ => busy r n).
Proof.
  intros Ht Hf Hk Hp st Hst. pose proof (triple_modify r n t f Hf Hk st Hst) as Hi. cbn in *. split; [done|]. cbn. unfold talking.
  rewrite Hp. by apply (talking_same t); [|apply Hst].
Qed.

(** The flag and the output change together. *)
Lemma output_written_ok r n t out : talking t -> pending_output t = Some out ->
  triple r (snap r n t) (output_written out) (fun a st => busy r n st /\ no_frame a).
Proof.
  intros Ht Ho st [(Hr & Hn & s & Es & Ha) Hs]. pose proof Hs as (F0 & F1 & F2 & F3 & F4 & F5 & F6 & F7). rewrite Ho in F2.
  unfold agrees in Ha. rewrite F2 in Ha. unfold output_written, mbind, M_bind.
  assert (forall g a, no_frame a -> (forall u, role (g u) = role u /\ total_polls (g u) = total_polls u /\ phase (g u) = phase u) ->
    agrees (g (transport_of st)) s -> busy r n (mkSt (g (transport_of st)) (world st) (trace st)) /\ no_frame a) as Hgo.
  { intros g a Hna Hg Hag. destruct (Hg (transport_of st)) as (G1 & G2 & G3). split; [|done]. split.
    - split_and!; cbn; [congruence|congruence|by exists s].
    - cbn. unfold talking. rewrite G3, F1. done. }
  rewrite F1 in Ha. destruct out; cbn.
  - refine (Hgo (fun u => u <| pending_output := None |> <| write_deadline := None |> <| write_attempts := 0%N |> <| confirmation_sent := true |>) _ _ _ _); [done|by intros|]. unfold agrees. cbn. rewrite F1. destruct Ht as [Hp|Hp]; rewrite Hp in *; [|done].
    destruct Ha as (-> & _ & H1 & H2 & H3). destruct (confirmation_sent (transport_of st)) eqn:Ec; [by destruct (H2 eq_refl)|].
    destruct (H1 eq_refl) as [_ E]. rewrite E. by split_and!.
  - refine (Hgo (fun u => u <| pending_output := None |> <| write_deadline := None |> <| write_attempts := 0%N |> <| receipt_sent := true |>) _ _ _ _); [done|by intros|]. unfold agrees. cbn. rewrite F1. destruct Ht as [Hp|Hp]; rewrite Hp in *; [|done].
    destruct Ha as (-> & _ & H1 & H2 & H3). rewrite bool_decide_true, orb_true_r by done. split_and!; try done.
    intros Hc. by destruct (H1 Hc).
  - refine (Hgo (fun u => u <| pending_output := None |> <| write_deadline := None |> <| write_attempts := 0%N |>) _ _ _ _); [done|by intros|]. unfold agrees. cbn. rewrite F1. destruct Ht as [Hp|Hp]; rewrite Hp in *; [|done].
    by destruct Ha as (_ & H & _).
Qed.

Lemma busy_ret r n t (a : Attempt) : talking t -> no_frame a -> triple r (snap r n t) (mret a) (fun a st => busy r n st /\ no_frame a).
Proof. intros Ht Ha st Hst. split; [by apply (snap_busy r n t)|done]. Qed.

Lemma write_records_ok r n t : talking t -> triple r (snap r n t) write_records (fun a st => busy r n st /\ no_frame a).
Proof.
  intros Ht. unfold write_records. apply triple_get_snap. intros t' Hs. pose proof (talking_same _ _ Ht Hs) as Ht'.
  destruct (pending_output t') as [out|] eqn:Eo; [|by apply busy_ret]. apply triple_seq; [quiet|]. intros _.
  destruct (_ <? _)%N; [apply triple_fail, snap_weak|]. apply triple_admitted; [|by apply busy_ret]. apply triple_seq.
  { apply quiet_guard. repeat first [apply quiet_check|apply quiet_need_stream|apply quiet_write_output|progress quiet]. }
  intros x. destruct x as [e|[]]; try (apply triple_fail, snap_weak); first [by apply busy_ret|by apply output_written_ok].
Qed.

(** ** Reading *)

(** The event of a frame that has come out, before the protocol has looked at
    it. *)
Definition arrived (r : Role) (n : N) (t : SecureTransport) (f : list N) (st : St) : Prop :=
  exists st0, snap r n t st0 /\ same (transport_of st0) (transport_of st) /\ trace st = trace st0 ++ [Received f].

Definition listening (t : SecureTransport) : Prop := phase t = Active \/ (phase t = Confirming /\ receipt_received t = false).

Lemma arrived_stable r n t f : stable (arrived r n t f).
Proof. intros st st' (st0 & Hsn & Hs & Et) Hst Ht. exists st0. split_and!; [done|by eapply same_trans|congruence]. Qed.

Lemma arrived_seen r n t f st : listening t -> arrived r n t f st ->
  role (transport_of st) = r /\ total_polls (transport_of st) = n /\ same t (transport_of st) /\
  exists s s', agrees (transport_of st) s /\ observe r s (Received f) = Some s' /\ observe_all r nothing_seen (trace st) = Some s'.
Proof.
  intros Hl (st0 & [(Hr & Hn & s & Es & Ha) Hs0] & Hs & Et). pose proof Hs as (F0 & _ & _ & _ & _ & _ & _ & F7).
  split_and!; [congruence|congruence|by eapply same_trans|]. exists s.
  assert (exists s', observe r s (Received f) = Some s') as [s' Eo].
  { unfold agrees in Ha. rewrite (same_phase _ _ Hs0) in Ha. destruct Hl as [Hp|[Hp _]]; rewrite Hp in Ha; [rewrite Ha|destruct Ha as (-> & _)];
      unfold observe; cbn; repeat case_match; by eexists. }
  exists s'. split_and!; [by apply (agrees_same (transport_of st0))|done|]. rewrite Et, observe_app, Es. cbn [mbind option_bind observe_all]. by rewrite Eo.
Qed.

Lemma arrived_weak r n t f st : listening t -> arrived r n t f st -> weak r st.
Proof. intros Hl H. destruct (arrived_seen _ _ _ _ _ Hl H) as (H1 & _ & _ & s & s' & _ & _ & E). split; [done|by exists s']. Qed.

Lemma arrived_seq {A B} r n t f (m : M A) (g : A -> M B) Q :
  listening t -> quiet m -> (forall a, triple r (arrived r n t f) (g a) Q) -> triple r (arrived r n t f) (m ≫= g) Q.
Proof.
  intros Hl Hm Hg. eapply triple_bind; [apply triple_quiet; [apply arrived_stable|intros st; by apply arrived_weak|done]|done].
Qed.

Lemma arrived_get {B} r n t f (g : SecureTransport -> M B) Q :
  listening t -> (forall t', same t t' -> triple r (fun st => arrived r n t f st /\ transport_of st = t') (g t') Q) -> triple r (arrived r n t f) (get ≫= g) Q.
Proof. intros Hl H st Ha. apply (H (transport_of st)); [by apply (arrived_seen _ _ _ _ _ Hl Ha)|done]. Qed.

Definition frame_result (r : Role) (n : N) (a : Attempt) (st : St) : Prop :=
  busy r n st /\ forall f, a = AttemptProgress (Frame f) -> phase (transport_of st) = Active /\ list.last (trace st) = Some (Received f).

(** A frame in an active connection. *)
Lemma arrived_active r n t f st : phase t = Active -> arrived r n t f st -> inv r n st.
Proof.
  intros Hp Ha. destruct (arrived_seen r n t f st ltac:(by left) Ha) as (H1 & H2 & Hs & s & s' & Hag & Eo & E). split_and!; [done|done|].
  exists s. unfold agrees in Hag. rewrite (same_phase _ _ Hs), Hp in Hag. subst s. cbn in Eo. injection Eo as <-. split; [done|].
  unfold agrees. by rewrite (same_phase _ _ Hs), Hp.
Qed.

Lemma confirming_frame_ok r n t f : phase t = Confirming -> receipt_received t = false ->
  triple r (arrived r n t f) (confirming_frame f) (fun a st => busy r n st /\ no_frame a).
Proof.
  intros Hp Hrr st Ha. assert (listening t) as Hl by (by right). pose proof (arrived_weak _ _ _ _ _ Hl Ha) as Hw.
  destruct (arrived_seen _ _ _ _ _ Hl Ha) as (H1 & H2 & Hs & s & s' & Hag & Eo & E).
  pose proof Hs as (F0 & F1 & F2 & F3 & F4 & F5 & F6 & F7). unfold agrees in Hag. rewrite F1, Hp, F6, Hrr in Hag. destruct Hag as (-> & A1 & A2 & A3 & A4).
  unfold confirming_frame, mbind, M_bind. cbn. rewrite H1, F6, Hrr. cbn [negb]. rewrite andb_true_r.
  unfold observe in Eo. cbn in Eo.
  assert (forall g a, no_frame a -> (forall u, role (g u) = role u /\ total_polls (g u) = total_polls u /\ phase (g u) = phase u) ->
    agrees (g (transport_of st)) s' -> busy r n (mkSt (g (transport_of st)) (world st) (trace st)) /\ no_frame a) as Hgo.
  { intros g a Hna Hg Hagr. destruct (Hg (transport_of st)) as (G1 & G2 & G3). split; [|done]. split; [|left; cbn; congruence].
    split_and!; cbn; [congruence|congruence|by exists s']. }
  destruct (confirmation_received (transport_of st)) eqn:Ecr; cbn [negb andb] in *.
  - destruct (confirmation_sent (transport_of st)) eqn:Ecs; cbn [andb]; [|done]. destruct (beq f (peer_receipt r)); [|done]. injection Eo as <-.
    refine (Hgo (fun u => u <| read_deadline := None |> <| receipt_received := true |>) _ _ _ _); [done|by intros|]. unfold agrees. cbn. rewrite F1, Hp, Ecr, Ecs. by split_and!.
  - destruct (beq f (peer_confirmation r)); [|done]. injection Eo as <-.
    refine (Hgo (fun u => u <| read_deadline := None |> <| confirmation_received := true |>) _ _ _ _); [done|by intros|]. unfold agrees. cbn. rewrite F1, Hp, F6, Hrr. by split_and!.
Qed.

Lemma take_frame_ok r n t f : listening t -> triple r (arrived r n t f) (take_frame f) (frame_result r n).
Proof.
  intros Hl. unfold take_frame. apply arrived_seq; [done|quiet|]. intros _. apply arrived_get; [done|]. intros t' Hs.
  assert (forall A (m : M A) Q, triple r (arrived r n t f) m Q -> triple r (fun st => arrived r n t f st /\ transport_of st = t') m Q) as Hdrop
    by (intros A m Q H st [? _]; by apply H).
  apply Hdrop. case_bool_decide as Hp.
  - apply arrived_seq; [done|apply quiet_lift|]. intros d. apply arrived_seq; [done|quiet|]. intros _. apply arrived_seq; [done|apply quiet_check|].
    intros _ st Ha. assert (phase t = Active) as Hpt by (by rewrite <- (same_phase _ _ Hs)). pose proof (arrived_active _ _ _ _ _ Hpt Ha) as Hi.
    destruct (arrived_seen _ _ _ _ _ Hl Ha) as (_ & _ & Hst & _). pose proof (same_phase _ _ Hst) as Hph. split.
    + split; [done|]. right. congruence.
    + intros f' [= <-]. split; [congruence|]. destruct Ha as (st0 & _ & _ & ->). apply last_snoc.
  - assert (phase t = Confirming /\ receipt_received t = false) as [H1 H2].
    { destruct Hl as [Hpa|?]; [|done]. by rewrite (same_phase _ _ Hs) in Hp. }
    eapply triple_weaken; [by apply confirming_frame_ok|done|]. intros a st [Hb Hn]. split; [done|]. intros f' ->. by destruct (Hn f').
Qed.

Lemma listening_same t t' : listening t -> same t t' -> listening t'.
Proof. unfold listening. intros H (_ & H1 & _ & _ & _ & _ & H2 & _). by rewrite H1, H2. Qed.

Lemma listening_talking t : listening t -> talking t.
Proof. intros [?|[? _]]; [by right|by left]. Qed.

Lemma snap_result r n t (a : Attempt) : talking t -> no_frame a -> triple r (snap r n t) (mret a) (frame_result r n).
Proof. intros Ht Hn st Hst. split; [by apply (snap_busy r n t)|]. intros f ->. by destruct (Hn f). Qed.

Lemma take_input_ok r n t : listening t -> triple r (snap r n t) take_input (frame_result r n).
Proof.
  intros Hl. unfold take_input. apply triple_get_snap. intros t1 Hs1. pose proof (listening_same _ _ Hl Hs1) as Hl1.
  apply triple_seq; [repeat first [apply quiet_check|progress quiet]|]. intros _. apply triple_get_snap. intros t2 Hs2.
  pose proof (listening_same _ _ Hl1 Hs2) as Hl2. apply triple_seq; [apply quiet_need|]. intros io.
  destruct (slice _ _ _) as [buffered|]; [|apply triple_panic, snap_weak]. destruct (receive buffered io) as [[[e|[used f]] io']|]; [| |apply triple_panic, snap_weak].
  { apply triple_seq; [apply quiet_modify, keeps_quiet|]. intros _. apply triple_fail, snap_weak. }
  apply triple_seq; [apply quiet_modify, keeps_quiet|]. intros _. destruct f as [f|].
  - eapply (triple_bind r _ _ _ (fun _ => arrived r n t2 f)).
    { intros st Hst. cbn. exists st. split_and!; [done|apply same_refl|done]. }
    intros _. apply arrived_seq; [done|apply quiet_check|]. intros _. destruct (_ || _); [by apply triple_fail; intros st; apply arrived_weak|].
    apply arrived_seq; [done|quiet|]. intros _. apply arrived_get; [done|]. intros t3 Hs3 st [Ha _]. revert st Ha.
    apply arrived_seq; [done|quiet|]. intros _. by apply take_frame_ok.
  - apply triple_seq; [apply quiet_ret|]. intros _. apply triple_seq; [apply quiet_check|]. intros _. destruct (_ || _); [apply triple_fail, snap_weak|].
    apply triple_seq; [quiet|]. intros _. apply triple_get_snap. intros t3 Hs3. apply triple_seq; [quiet|]. intros _.
    apply snap_result; [apply listening_talking; by apply (listening_same t2)|done].
Qed.

Lemma refill_attempt st a : (refill st).1 = Val (inl a) -> no_frame a.
Proof.
  unfold refill, mbind, M_bind. cbn. repeat case_match; cbn; intros; simplify_eq; done.
Qed.

Lemma read_records_ok r n t : talking t -> triple r (snap r n t) read_records (frame_result r n).
Proof.
  intros Ht. unfold read_records. apply triple_get_snap. intros t1 Hs1. pose proof (talking_same _ _ Ht Hs1) as Ht1.
  destruct (bool_decide _ && _) eqn:Eb; [by apply snap_result|].
  assert (listening t1) as Hl.
  { destruct Ht1 as [Hp|Hp]; [right|by left]. rewrite bool_decide_true in Eb by done. done. }
  destruct (_ =? _); [|by apply take_input_ok]. intros st Hst. unfold mbind, M_bind.
  pose proof (triple_snap r n t1 refill quiet_refill st Hst) as H. pose proof (refill_attempt st) as Hno.
  destruct (refill st) as [[[a|[]]|e|] st']; [|by apply (take_input_ok r n t1)|done|done]. by apply (snap_result r n t1 a Ht1); [apply Hno|].
Qed.

(** ** Polls *)
Lemma frame_result_no_frame r n a st : busy r n st /\ no_frame a -> frame_result r n a st.
Proof. intros [Hb Hn]. split; [done|]. intros f ->. by destruct (Hn f). Qed.

(** What a poll that returned leaves. *)
Definition polled (r : Role) (n : N) (p : Progress) (st : St) : Prop :=
  inv r n st /\ forall f, p = Frame f -> phase (transport_of st) = Active /\ list.last (trace st) = Some (Received f).

Lemma same_open t t' : same t t' -> phase t <> PhaseClosed -> phase t' <> PhaseClosed.
Proof. intros Hs. by rewrite (same_phase _ _ Hs). Qed.

(** Between the two halves of a poll an attempt may carry a frame; the second
    half does nothing in an active connection. *)
Lemma advance_keeps r n a st : frame_result r n a st ->
  match advance_confirmation st with
  | (Val _, st') => frame_result r n a st'
  | (_, st') => weak r st'
  end.
Proof.
  intros [[Hi Ht] Hf]. destruct (decide (phase (transport_of st) = Active)) as [Hp|Hp].
  - unfold advance_confirmation, mbind, M_bind. cbn. rewrite Hp. cbn. by split.
  - assert (no_frame a) as Hn by (intros f ->; by destruct (Hf f eq_refl)).
    pose proof (advance_confirmation_ok r n (transport_of st) Ht st (conj Hi (same_refl _))) as H.
    destruct (advance_confirmation st) as [[x|e|] st']; [|done|done]. by apply frame_result_no_frame.
Qed.

Lemma talk_ok r n t : talking t -> triple r (snap r n t)
  (established ← advance_confirmation;
   if (established : bool) then mret Established
   else
     t ← get;
     let write_first := prefer_write t in
     modify (fun t => t <| prefer_write := negb (prefer_write t) |>);;
     first ← (if write_first then write_records else read_records);
     attempt ← match first with
               | AttemptProgress p => mret (AttemptProgress p)
               | AttemptIdle | AttemptBlocked => if write_first then read_records else write_records
               end;
     established ← advance_confirmation;
     if (established : bool) then mret Established
     else mret (match attempt with AttemptProgress p => p | _ => Blocked end)) (polled r n).
Proof.
  intros Ht. eapply triple_bind; [by apply advance_confirmation_ok|]. intros [|].
  { intros st [Hi _]. by split. }
  apply busy_snap. intros t1 Ht1. apply triple_get_snap. intros t2 Hs2. pose proof (talking_same _ _ Ht1 Hs2) as Ht2. cbn zeta.
  apply triple_seq; [quiet|]. intros _.
  assert (forall w, triple r (snap r n t2) (if w : bool then write_records else read_records) (frame_result r n)) as Hhalf.
  { intros [|]; [|by apply read_records_ok]. eapply triple_weaken; [by apply write_records_ok|done|]. intros; by apply frame_result_no_frame. }
  eapply triple_bind; [apply Hhalf|]. intros first.
  eapply (triple_bind r _ _ _ (frame_result r n)).
  { assert (triple r (frame_result r n first) (if prefer_write t2 then read_records else write_records) (frame_result r n)) as Hsecond.
    { intros st [[Hi Hta] _]. destruct (prefer_write t2).
      - by apply (read_records_ok r n (transport_of st)); [|split; [|apply same_refl]].
      - pose proof (write_records_ok r n (transport_of st) Hta st (conj Hi (same_refl _))) as H.
        destruct (write_records st) as [[x|e|] st']; [by apply frame_result_no_frame|done|done]. }
    destruct first; [done|done|]. by intros st Hst. }
  intros attempt st Hst. unfold mbind, M_bind. pose proof (advance_keeps r n attempt st Hst) as H.
  destruct (advance_confirmation st) as [[[|]|e|] st']; [by destruct H as [[Hi _] _]; split| |done|done].
  destruct H as [[Hi _] Hf]. split; [done|]. destruct attempt as [| |p]; [done|done|]. intros f ->. by apply Hf.
Qed.

Lemma inv_open r n st : inv r n st -> phase (transport_of st) <> PhaseClosed.
Proof. intros (_ & _ & s & _ & Ha) E. unfold agrees in Ha. by rewrite E in Ha. Qed.

Lemma charge_poll_ok r n : triple r (inv r n) charge_poll (fun _ st => inv r (n + 1) st /\ (n + 1 <= MAX_TOTAL_POLLS)%N).
Proof.
  intros st (Hr & Hn & s & Es & Ha). unfold charge_poll, mbind, M_bind. cbn. rewrite Hn.
  assert (inv r (n + 1) (mkSt ((transport_of st) <| total_polls := (n + 1)%N |>) (world st) (trace st))) as Hi by (split_and!; [done|done|by exists s]).
  destruct (N.ltb_spec MAX_TOTAL_POLLS (n + 1)); [by eapply inv_weak|]. by split.
Qed.

Lemma triple_and {A} r P (fact : Prop) (m : M A) Q : triple r P m Q -> triple r (fun st => P st /\ fact) m (fun a st => Q a st /\ fact).
Proof. intros H st [HP Hf]. specialize (H st HP). by destruct (m st) as [[a|e|] st']. Qed.

Lemma poll_inner_ok r n : triple r (inv r n) poll_inner (fun p st => polled r (n + 1) p st /\ (n + 1 <= MAX_TOTAL_POLLS)%N).
Proof.
  unfold poll_inner. eapply triple_bind; [apply triple_quiet; [apply inv_stable|apply inv_weak|apply quiet_check]|]. intros [].
  eapply triple_bind; [apply charge_poll_ok|]. intros []. apply triple_and.
  intros st Hi. apply (triple_get_snap r (n + 1) (transport_of st)); [|by split; [|apply same_refl]]. intros t' _.
  apply triple_seq; [quiet|]. intros _. destruct (_ && _); [apply triple_fail, snap_weak|]. destruct (phase t') eqn:Ep.
  - eapply triple_weaken; [by apply poll_handshake_ok|done|]. intros p st1 [H1 H2]. split; [done|]. intros f ->. by destruct (H2 f).
  - eapply triple_weaken; [by apply poll_native_ok|done|]. intros p st1 [H1 H2]. split; [done|]. intros f ->. by destruct (H2 f).
  - apply talk_ok. by left.
  - apply talk_ok. by right.
  - apply triple_fail, snap_weak.
Qed.

(** ** Closing *)
Definition ended (r : Role) (st : St) : Prop := weak r st /\ phase (transport_of st) = PhaseClosed.

Lemma quiet_dispose : quiet dispose_owned.
Proof. unfold dispose_owned. repeat first [apply quiet_torn_down|progress quiet]. Qed.

(** Computations that always return. *)
Definition returns {A} (m : M A) : Prop := forall st, exists a st', m st = (Val a, st').

Lemma bind_val {A B} (m : M A) (f : A -> M B) st a st' : m st = (Val a, st') -> (m ≫= f) st = f a st'.
Proof. unfold mbind, M_bind. by intros ->. Qed.

Lemma returns_bind {A B} (m : M A) (f : A -> M B) : returns m -> (forall a, returns (f a)) -> returns (m ≫= f).
Proof. intros Hm Hf st. unfold mbind, M_bind. destruct (Hm st) as (a & st' & ->). apply Hf. Qed.

Lemma returns_torn_down step : returns (torn_down step).
Proof. intros st. unfold torn_down, mbind, M_bind, ask. destruct (teardown step (world st)) as [ok w]. destruct ok; by eexists _, _. Qed.

Lemma returns_when {A} b (m : M A) : returns m -> returns (when b m).
Proof. intros H. destruct b; [apply returns_bind; [done|]|]; intros; by eexists _, _. Qed.

Lemma returns_retire : returns begin_native_retirement.
Proof. intros st. unfold begin_native_retirement, mbind, M_bind. cbn. apply returns_when, returns_torn_down. Qed.

Lemma returns_dispose : returns dispose_owned.
Proof.
  unfold dispose_owned. apply returns_bind; [intros ?; by eexists _, _|]. intros t. apply returns_bind; [intros ?; by eexists _, _|]. intros _.
  apply returns_bind; [apply returns_when, returns_torn_down|]. intros _. apply returns_bind; [intros ?; by eexists _, _|]. intros _.
  apply returns_when. apply returns_bind; [apply returns_torn_down|]. intros _. apply returns_torn_down.
Qed.

Lemma quiet_retire : quiet begin_native_retirement.
Proof. unfold begin_native_retirement. repeat first [apply quiet_torn_down|progress quiet]. Qed.

(** Kept by a quiet computation that returns, and by the next. *)
Lemma ended_step {A} r (m : M A) (f : A -> M ()) st :
  returns m -> quiet m -> (forall a st', ended r st' -> ended r (f a st').2 /\ (f a st').1 <> Panic) ->
  ended r st -> ended r ((m ≫= f) st).2 /\ ((m ≫= f) st).1 <> Panic.
Proof.
  intros Hr Hq Hf [[Hro Hw] Hp]. unfold mbind, M_bind. destruct (Hr st) as (a & st' & E). pose proof (Hq st) as [Hs Ht]. rewrite E in *. cbn in Hs, Ht.
  apply Hf. split; [|by rewrite (same_phase _ _ Hs)]. split; [destruct Hs as (-> & _); done|by rewrite Ht].
Qed.

Lemma transport_close_ok r st : weak r st -> ended r (transport_close st).2 /\ (transport_close st).1 <> Panic.
Proof.
  intros [Hr Hw]. unfold transport_close. destruct (returns_retire st) as ([] & st1 & E).
  destruct (quiet_retire st) as [Hs Ht]. rewrite (bind_val _ _ _ _ _ E). rewrite E in Hs, Ht. cbn in Hs, Ht.
  rewrite (bind_val get _ st1 _ _ eq_refl), (bind_val (modify _) _ st1 _ _ eq_refl).
  assert (forall t, phase t = PhaseClosed -> role t = role (transport_of st1) -> ended r (mkSt t (world st1) (trace st1))) as Hend.
  { intros t Hp Hro. split; [|done]. split; cbn; [rewrite Hro; destruct Hs as (-> & _); done|by rewrite Ht]. }
  apply ended_step; [by apply returns_when, returns_torn_down|apply quiet_when, quiet_torn_down| |by apply Hend].
  intros _ st2. apply ended_step; [intros ?; by eexists _, _|quiet|]. intros _ st3. apply ended_step; [by apply returns_when, returns_torn_down|apply quiet_when, quiet_torn_down|].
  intros _ st4. apply ended_step; [intros ?; by eexists _, _|quiet|]. intros _ st5. apply ended_step; [by apply returns_when, returns_torn_down|apply quiet_when, quiet_torn_down|].
  intros _ st6. apply ended_step; [apply returns_dispose|apply quiet_dispose|]. intros _ st7. unfold mbind, M_bind. cbn. intros H.
  by destruct (cleanup_failed (transport_of st7)).
Qed.

Lemma close_after_ok {A} r e st : weak r st -> ended r (close_after (A := A) e st).2 /\ exists e', (close_after (A := A) e st).1 = Fail e'.
Proof.
  intros Hw. unfold close_after. destruct (transport_close_ok r st Hw) as [He Hn]. destruct (transport_close st) as [[a|e'|] st']; cbn in *; [|by split; [|eexists]|done].
  split; [done|by eexists].
Qed.

(** ** A connection *)
Definition good (r : Role) (n : N) (st : St) : Prop := inv r n st \/ ended r st.

Lemma good_weak r n st : good r n st -> weak r st.
Proof. intros [H|[H _]]; [by eapply inv_weak|done]. Qed.

Lemma weak_world r t w w' tr : weak r (mkSt t w tr) -> weak r (mkSt t w' tr).
Proof. done. Qed.

Lemma check_closed st : phase (transport_of st) = PhaseClosed -> check_deadlines st = (Fail (closed_error (transport_of st)), st).
Proof. intros Hp. unfold check_deadlines. rewrite (bind_val get _ st _ _ eq_refl). by rewrite bool_decide_true. Qed.

Lemma check_no_panic st : (check_deadlines st).1 <> Panic.
Proof.
  unfold check_deadlines. rewrite (bind_val get _ st _ _ eq_refl). case_bool_decide; [done|]. unfold mbind, M_bind, ask.
  destruct (now (world st)) as [i w]. by destruct (expired _ i).
Qed.

Lemma poll_good r n st : good r n st ->
  match poll st with
  | (Val p, st') => polled r (n + 1) p st' /\ (n + 1 <= MAX_TOTAL_POLLS)%N
  | (Fail _, st') => ended r st'
  | (Panic, _) => False
  end.
Proof.
  intros Hg. unfold poll.
  assert (match poll_inner st with
          | (Val p, st') => polled r (n + 1) p st' /\ (n + 1 <= MAX_TOTAL_POLLS)%N
          | (_, st') => weak r st' end) as H.
  { destruct Hg as [Hi|[Hw Hp]]; [by apply poll_inner_ok|]. unfold poll_inner, mbind at 1, M_bind at 1. by rewrite (check_closed st Hp). }
  destruct (poll_inner st) as [res st1]. destruct (drop_admission (world st1)) as [ok w].
  assert (weak r (mkSt (transport_of st1) w (trace st1))) as Hw.
  { destruct st1 as [t1 w1 tr1]. destruct res; [destruct H as [[Hi _] _]; by apply inv_weak in Hi|exact H|exact H]. }
  assert (forall e, match close_after (A := Progress) e (mkSt (transport_of st1) w (trace st1)) with
    | (Val p, st') => polled r (n + 1) p st' /\ (n + 1 <= MAX_TOTAL_POLLS)%N | (Fail _, st') => ended r st' | (Panic, _) => False end) as Hcl.
  { intros e. destruct (close_after_ok (A := Progress) r e _ Hw) as [He [e' Ee]]. destruct (close_after _ _) as [x st']. cbn in *. by subst x. }
  destruct (negb ok); [apply Hcl|]. destruct res as [p|e|]; [|apply Hcl|apply Hcl]. destruct H as [[Hi Hf] Hn]. split; [|done].
  split; [by apply (inv_stable r (n + 1) st1); [|apply same_refl|]|done].
Qed.

Lemma queue_active r n t f io st : phase t = Active -> snap r n t st ->
  match queue_frame f io st with
  | (Val _, st') => inv r n st' /\ phase (transport_of st') = Active /\ list.last (trace st') = Some (Sealed f)
  | (_, st') => weak r st'
  end.
Proof.
  intros Hp Hst. pose proof (queue_frame_ok r n t f io st Hst) as H. destruct (queue_frame f io st) as [[[]|e|] st']; [|done|done].
  destruct H as (st0 & w & [(Hr & Hn & s & Es & Ha) Hs] & -> & Hs'). cbn [transport_of] in Hs'. pose proof (same_trans _ _ _ Hs Hs') as Hall.
  pose proof (same_phase _ _ Hall) as Hph. rewrite Hp in Hph. cbn. split_and!; [|done|apply last_snoc].
  pose proof Hs' as (F0 & _ & _ & _ & _ & _ & _ & F7). split_and!; cbn; [congruence|congruence|]. exists s.
  unfold agrees in Ha. rewrite (same_phase _ _ Hs), Hp in Ha. subst s. rewrite observe_app, Es. cbn. split; [done|]. unfold agrees. by rewrite Hph.
Qed.

Lemma prepare_good r n f e st : good r n st ->
  match transport_prepare_send f e st with
  | (Val _, st') => inv r n st' /\ phase (transport_of st') = Active /\ list.last (trace st') = Some (Sealed f)
  | (Fail _, st') => good r n st'
  | (Panic, _) => False
  end.
Proof.
  intros Hg. unfold transport_prepare_send. rewrite (bind_val get _ st _ _ eq_refl). set (t := transport_of st).
  case_bool_decide as Hc; [done|]. case_bool_decide as Hp; cbn [negb]; [|done]. destruct Hg as [Hi|[_ He]]; [|done].
  assert (forall x st', weak r st' -> match close_after (A := ()) x st' with
    | (Val _, st') => inv r n st' /\ phase (transport_of st') = Active /\ list.last (trace st') = Some (Sealed f)
    | (Fail _, st') => good r n st' | (Panic, _) => False end) as Hcl.
  { intros x st' Hw. destruct (close_after_ok (A := ()) r x st' Hw) as [He [e' Ee]]. destruct (close_after x st') as [y st'']. cbn in *. subst y. by right. }
  pose proof (triple_snap r n t check_deadlines quiet_check st (conj Hi (same_refl _))) as H.
  destruct (check_deadlines st) as [[[]|x|] st1] eqn:Eck; [|by apply Hcl|].
  2:{ pose proof (check_no_panic st) as Hnp. by rewrite Eck in Hnp. }
  destruct (is_some _); [left; apply H|]. destruct (now (world st1)) as [instant w].
  assert (snap r n t (mkSt (transport_of st1) w (trace st1))) as H1 by (by apply (snap_stable r n t st1); [|apply same_refl|]).
  destruct (instant_add _ _) as [d|]; [|by apply Hcl, (snap_weak r n t)]. destruct (_ <=? _)%N; [by apply Hcl, (snap_weak r n t)|].
  destruct (records t) as [io|]; [|by apply Hcl, (snap_weak r n t)]. cbn [need]. rewrite (bind_val (mret io) _ _ _ _ eq_refl).
  pose proof (queue_active r n t f io _ Hp H1) as Hq. destruct (queue_frame f io _) as [[[]|x|] st2]; [|by apply Hcl|by apply Hcl].
  destruct Hq as ((Hr & Hn & s & Es & Ha) & Hph & Hl). cbn. split_and!; [|done|done]. split_and!; [done|done|]. exists s. split; [done|].
  unfold agrees in *. cbn. by rewrite Hph in *.
Qed.

Inductive TransportOp := OpPoll | OpPrepare (frame : list N) (expires : N) | OpShut.
Inductive TransportOutcome := Polled (r : Res Progress) | Prepared (r : Res ()) | Shut (r : Res ()).

Definition transport_op (op : TransportOp) (st : St) : TransportOutcome * St :=
  match op with
  | OpPoll => let '(r, st) := poll st in (Polled r, st)
  | OpPrepare f e => let '(r, st) := transport_prepare_send f e st in (Prepared r, st)
  | OpShut => let '(r, st) := transport_close st in (Shut r, st)
  end.

Fixpoint run_transport (ops : list TransportOp) (st : St) : list TransportOutcome * St :=
  match ops with
  | [] => ([], st)
  | op :: ops => let '(out, st) := transport_op op st in let '(outs, st) := run_transport ops st in (out :: outs, st)
  end.

Definition panicked (o : TransportOutcome) : bool :=
  match o with Polled Panic | Prepared Panic | Shut Panic => true | _ => false end.

(** Polls that returned progress. *)
Definition progressed (o : TransportOutcome) : bool := match o with Polled (Val _) => true | _ => false end.
Definition progress_count (outs : list TransportOutcome) : N := N.of_nat (length (List.filter progressed outs)).

Lemma op_good r n op st : good r n st -> (n <= MAX_TOTAL_POLLS)%N ->
  exists m, good r m (transport_op op st).2 /\ (n <= m <= MAX_TOTAL_POLLS)%N /\ panicked (transport_op op st).1 = false /\
    (progressed (transport_op op st).1 = true -> m = (n + 1)%N).
Proof.
  intros Hg Hn. destruct op as [|f e|]; cbn [transport_op].
  - pose proof (poll_good r n st Hg) as H. destruct (poll st) as [[p|e|] st']; cbn; [|exists n; split_and!; [by right|lia|lia|done|done]|done].
    destruct H as [[Hi _] Hle]. exists (n + 1)%N. split_and!; [by left|lia|lia|done|done].
  - pose proof (prepare_good r n f e st Hg) as H. destruct (transport_prepare_send f e st) as [[[]|x|] st']; cbn; [| |done];
      (exists n; split_and!; [first [exact H|left; apply H]|lia|lia|done|done]).
  - destruct (transport_close_ok r st (good_weak _ _ _ Hg)) as [He Hp]. destruct (transport_close st) as [[[]|x|] st']; cbn in *; [| |done];
      (exists n; split_and!; [by right|lia|lia|done|done]).
Qed.

Lemma run_good r ops : forall n st, good r n st -> (n <= MAX_TOTAL_POLLS)%N ->
  exists m, good r m (run_transport ops st).2 /\ (m <= MAX_TOTAL_POLLS)%N /\ (n + progress_count (run_transport ops st).1 <= MAX_TOTAL_POLLS)%N /\
    Forall (fun o => panicked o = false) (run_transport ops st).1.
Proof.
  induction ops as [|op ops IH]; intros n st Hg Hn; cbn [run_transport].
  { exists n. cbn. split_and!; [done|done|unfold progress_count; cbn; lia|constructor]. }
  destruct (op_good r n op st Hg Hn) as (m & Hg' & Hm & Hp & Hpr). destruct (transport_op op st) as [out st1]. cbn [fst snd] in *.
  destruct (IH m st1 Hg' ltac:(lia)) as (k & Hk & Hkm & Hc & Hf). destruct (run_transport ops st1) as [outs st2]. cbn [fst snd] in *.
  exists k. split_and!; [done|done| |by constructor]. unfold progress_count in *. cbn [List.filter]. destruct (progressed out); cbn [length]; [|lia].
  rewrite (Hpr eq_refl) in *. lia.
Qed.

Lemma setup_good r bd fd w t w' : transport_setup r bd fd w = (Some (inr t), w') -> good r 0 (mkSt t w' []).
Proof.
  unfold transport_setup. destruct (_ || _); [done|]. destruct (now w) as [i w1]. destruct (instant_add i bd) as [b|]; [|done].
  destruct (now w1) as [j w2]. destruct (instant_add j _) as [l|]; [|done].
  destruct (match r with Client => direct_initiator | Application => Some (inr direct_responder) end) as [[e|h]|]; [done| |done].
  cbn [mbind option_bind]. intros E. injection E as <- <-. left. split_and!; [done|done|]. exists nothing_seen. split; [done|]. by split_and!.
Qed.

Lemma new_good r bd fd w t w' : SecureTransport_new r bd fd w = (inr t, w') -> good r 0 (mkSt t w' []).
Proof.
  unfold SecureTransport_new. destruct (transport_setup r bd fd w) as [[[e|t1]|] w1] eqn:E.
  - destruct (teardown_all _ _). done.
  - intros [= <- <-]. by apply (setup_good r bd fd w).
  - destruct (teardown_all _ _). done.
Qed.

(** C12: no frame before both ends have confirmed.  Whatever the platform does
    and whatever is asked of a connection, no call panics, and the record
    layer is used in order: nothing is sealed before the user has compared the
    fingerprint, then only the confirmation, the receipt only after the
    peer's confirmation, and other frames only after the peer's receipt; and a
    poll returns a frame, or a frame is accepted for sending, only when the
    connection is established. *)
Theorem frames_need_confirmation r bd fd w t w' ops :
  SecureTransport_new r bd fd w = (inr t, w') ->
  let '(outs, st) := run_transport ops (mkSt t w' []) in
  Forall (fun o => panicked o = false) outs /\ is_Some (observe_all r nothing_seen (trace st)) /\
  (forall f st', poll st = (Val (Frame f), st') -> is_established (transport_of st') = true /\ list.last (trace st') = Some (Received f)) /\
  (forall f e st', transport_prepare_send f e st = (Val tt, st') -> is_established (transport_of st') = true /\ list.last (trace st') = Some (Sealed f)).
Proof.
  intros Hnew. destruct (run_good r ops 0 _ (new_good _ _ _ _ _ _ Hnew) ltac:(done)) as (m & Hg & _ & _ & Hp).
  destruct (run_transport ops _) as [outs st]. cbn [fst snd] in *. split_and!; [done| | |].
  - destruct (good_weak _ _ _ Hg) as [_ [s Es]]. by exists s.
  - intros f st' E. pose proof (poll_good r m st Hg) as H. rewrite E in H. destruct H as [[_ Hf] _]. unfold is_established.
    destruct (Hf f eq_refl) as [-> ?]. done.
  - intros f e st' E. pose proof (prepare_good r m f e st Hg) as H. rewrite E in H. unfold is_established. by destruct H as (_ & -> & ?).
Qed.

(** A connection does a bounded amount of work.  However often it is
    polled, whatever the platform does, at most [MAX_TOTAL_POLLS] polls return
    progress; after that, or after any failure, every poll is an error. *)
Theorem polls_are_bounded r bd fd w t w' ops :
  SecureTransport_new r bd fd w = (inr t, w') ->
  let '(outs, st) := run_transport ops (mkSt t w' []) in
  (progress_count outs <= MAX_TOTAL_POLLS)%N /\
  (phase (transport_of st) = PhaseClosed -> forall more, progress_count (run_transport more st).1 = 0%N).
Proof.
  intros Hnew. destruct (run_good r ops 0 _ (new_good _ _ _ _ _ _ Hnew) ltac:(done)) as (m & Hg & _ & Hc & _).
  destruct (run_transport ops _) as [outs st]. cbn [fst snd] in *. split; [lia|]. intros Hp more.
  assert (ended r st) as He by (destruct Hg as [Hi|He]; [by apply inv_open in Hi|done]). clear Hg Hp.
  pose proof (run_good r more MAX_TOTAL_POLLS st ltac:(by right) ltac:(done)) as (k & _ & _ & H & _). lia.
Qed.
End Proofs.

(** ** Two connections *)
Definition other (r : Role) : Role := match r with Client => Application | Application => Client end.

(** What the flags of the checker say of the events. *)
Record seen_shape (r : Role) (es : list Event) (s : Seen) : Prop := mk_shape {
  sh_confirmed : confirmed s = true -> compared es <> [];
  sh_sealed : if sealed_receipt s then exists rest, sealed es = confirmation r :: receipt r :: rest
              else if sealed_confirmation s then sealed es = [confirmation r] else sealed es = [];
  sh_received : received_receipt s = true -> exists rest, received es = peer_confirmation r :: peer_receipt r :: rest;
  sh_received_one : received_confirmation s = true -> exists rest, received es = peer_confirmation r :: rest;
  sh_none : received_confirmation s = false -> refused s = false -> received es = [];
  sh_one : received_confirmation s = true -> received_receipt s = false -> refused s = false -> received es = [peer_confirmation r];
  sh_order : (sealed_receipt s = true -> received_confirmation s = true) /\ (received_receipt s = true -> received_confirmation s = true) /\
             (received_confirmation s = true -> sealed_confirmation s = true) /\ (sealed_receipt s = true -> sealed_confirmation s = true) /\
             (sealed_confirmation s = true -> confirmed s = true)
}.

Lemma events_snoc es e :
  compared (es ++ [e]) = compared es ++ match e with Confirmed f => [f] | _ => [] end /\
  sealed (es ++ [e]) = sealed es ++ match e with Sealed f => [f] | _ => [] end /\
  received (es ++ [e]) = received es ++ match e with Received f => [f] | _ => [] end.
Proof. unfold compared, sealed, received. rewrite !omap_app. by destruct e. Qed.

Lemma shape_step r es s e s' : seen_shape r es s -> observe r s e = Some s' -> seen_shape r (es ++ [e]) s'.
Proof.
  intros [H1 H2 H3 H4 H5 H6 (O1 & O2 & O3 & O4 & O5)] E1.
  destruct s as [c sc rc sr rr rf]. cbn in *. unfold observe in E1. cbn in E1. destruct rf; [done|].
  destruct (events_snoc es e) as (Ec & Es & Er).
  assert (sc = false -> rc = false /\ sr = false /\ rr = false) as Hsc.
  { intros ->. destruct rc; [by specialize (O3 eq_refl)|]. destruct sr; [by specialize (O1 eq_refl)|]. by destruct rr; [specialize (O2 eq_refl)|]. }
  assert (rc = false -> sr = false /\ rr = false) as Hrc.
  { intros ->. destruct sr; [by specialize (O1 eq_refl)|]. by destruct rr; [specialize (O2 eq_refl)|]. }
  destruct e as [x|f|f]; cbn iota in Ec, Es, Er; try rewrite app_nil_r in Ec; try rewrite app_nil_r in Es; try rewrite app_nil_r in Er.
  - destruct c; [done|]. injection E1 as <-. destruct sc; [by specialize (O5 eq_refl)|]. destruct (Hsc eq_refl) as (-> & -> & ->).
    rewrite H2 in Es. rewrite H5 in Er by done.
    split; cbn; rewrite ?Ec, ?Es, ?Er; try done. intros _. by destruct (compared es).
  - destruct c; [|done]. cbn in E1. destruct sc; cbn in E1.
    + destruct sr; cbn in E1.
      * destruct rr; [|done]. injection E1 as <-. destruct H2 as [rest E2].
        split; cbn; rewrite ?Ec, ?Es, ?Er; try done. exists (rest ++ [f]). by rewrite E2.
      * destruct rc; [|done]. cbn in E1. destruct (beq f (receipt r)) eqn:Eb; [|done]. apply bool_decide_eq_true in Eb as ->. injection E1 as <-.
        split; cbn; rewrite ?Ec, ?Es, ?Er; try done. rewrite H2. by exists [].
    + destruct (Hsc eq_refl) as (-> & -> & ->). destruct (beq f (confirmation r)) eqn:Eb; [|done]. apply bool_decide_eq_true in Eb as ->. injection E1 as <-.
      split; cbn; rewrite ?Ec, ?Es, ?Er; try done. by rewrite H2.
  - destruct sc; [|done]. cbn in E1. pose proof (O5 eq_refl) as ->. destruct rc; cbn in E1.
    + destruct rr; cbn in E1.
      * injection E1 as <-. destruct (H3 eq_refl) as [rest E3]. rewrite E3 in Er. split; cbn; rewrite ?Ec, ?Es, ?Er; try done.
        { by exists (rest ++ [f]). } { by exists (peer_receipt r :: rest ++ [f]). }
      * rewrite (H6 eq_refl eq_refl eq_refl) in Er. destruct (beq f (peer_receipt r)) eqn:Eb; injection E1 as <-.
        { apply bool_decide_eq_true in Eb as ->. split; cbn; rewrite ?Ec, ?Es, ?Er; try done; by eexists. }
        { split; cbn; rewrite ?Ec, ?Es, ?Er; try done. by eexists. }
    + destruct (Hrc eq_refl) as (-> & ->). rewrite (H5 eq_refl eq_refl) in Er. destruct (beq f (peer_confirmation r)) eqn:Eb; injection E1 as <-.
      { apply bool_decide_eq_true in Eb as ->. split; cbn; rewrite ?Ec, ?Es, ?Er; try done. by eexists. }
      { split; cbn; rewrite ?Ec, ?Es, ?Er; done. }
Qed.

Lemma observe_shape r es s : observe_all r nothing_seen es = Some s -> seen_shape r es s.
Proof.
  revert s. induction es as [|e es IH] using rev_ind; intros s E.
  { injection E as <-. by split. }
  rewrite observe_app in E. destruct (observe_all r nothing_seen es) as [s0|] eqn:E0; [|done]. specialize (IH s0 eq_refl). cbn [mbind option_bind observe_all] in E.
  destruct (observe r s0 e) as [s1|] eqn:E1; [|done]. injection E as <-. by apply (shape_step r es s0).
Qed.

(** A connection that got as far as it can. *)
Lemma established_shape `{Nz : Noise} `{Pf : Platform} r bd fd w t w' ops :
  SecureTransport_new r bd fd w = (inr t, w') ->
  let st := (run_transport ops (mkSt t w' [])).2 in
  exists s, observe_all r nothing_seen (trace st) = Some s /\ (is_established (transport_of st) = true -> s = mkSeen true true true true true false).
Proof.
  intros Hnew st. destruct (run_good r ops 0 _ (new_good _ _ _ _ _ _ Hnew) ltac:(done)) as (m & Hg & _). fold st in Hg.
  destruct Hg as [(_ & _ & s & Es & Ha)|[[_ [s Es]] Hp]]; exists s; (split; [done|]); unfold is_established; intros E; apply bool_decide_eq_true in E.
  - unfold agrees in Ha. by rewrite E in Ha.
  - by rewrite Hp in E.
Qed.

(** C20: an established connection has been compared at both ends.  Take two
    connections, one of each role, on any platforms and after any calls, where
    what the first received is a prefix of what the second sent, as the record
    layer guarantees.  If the first is established then its own user and the
    peer's user have both compared fingerprints, and the peer has already
    received the first one's confirmation. *)
Theorem established_means_both_compared `{Nz : Noise} (PA PB : Platform) r bda fda wa ta wa' opsa bdb fdb wb tb wb' opsb :
  SecureTransport_new (Pf := PA) r bda fda wa = (inr ta, wa') ->
  SecureTransport_new (Pf := PB) (other r) bdb fdb wb = (inr tb, wb') ->
  let a := (run_transport (Pf := PA) opsa (mkSt ta wa' [])).2 in
  let b := (run_transport (Pf := PB) opsb (mkSt tb wb' [])).2 in
  received (trace a) `prefix_of` sealed (trace b) ->
  is_established (transport_of a) = true ->
  compared (trace a) <> [] /\ compared (trace b) <> [] /\ [confirmation r] `prefix_of` received (trace b).
Proof.
  intros Ha Hb a b [rest Hpre] He.
  destruct (established_shape (Pf := PA) _ _ _ _ _ _ opsa Ha) as (sa & Ea & Hsa). destruct (established_shape (Pf := PB) _ _ _ _ _ _ opsb Hb) as (sb & Eb & _).
  fold a in Ea, Hsa. fold b in Eb. rewrite (Hsa He) in Ea. apply observe_shape in Ea, Eb.
  pose proof (sh_received _ _ _ Ea eq_refl) as [tail Er]. rewrite Er in Hpre.
  destruct (sh_order _ _ _ Eb) as (O1 & _ & O3 & O4 & O5). pose proof (sh_sealed _ _ _ Eb) as Hs.
  destruct (sealed_receipt sb) eqn:Esr.
  - split_and!; [by apply (sh_confirmed _ _ _ Ea)|by apply (sh_confirmed _ _ _ Eb), O5, O4|].
    destruct (sh_received_one _ _ _ Eb (O1 eq_refl)) as [more ->]. exists more. by destruct r.
  - by destruct (sealed_confirmation sb); rewrite Hs in Hpre.
Qed.

(** ** A pair of connections

    A platform where the clock stands still, every write is taken and the user
    compares at once, and a handshake whose messages have the right sizes. *)
Record Line := mkLine { inbox : list N; outbox : list N }.

Definition line_platform : Platform := {|
  World := Line;
  now w := (0%N, w);
  instant_add a b := Some (a + b)%N;
  stream_read n w := match inbox w with [] => (ReadErr WouldBlock, w) | bs => (ReadOk (take n bs), mkLine (drop n bs) (outbox w)) end;
  stream_write bs w := (IoOk (length bs), mkLine (inbox w) (outbox w ++ bs));
  admit_write w := (AdmitOk, w);
  release_guard w := (true, w);
  drop_admission w := (true, w);
  show_fingerprint _ w := (NativeOk, w);
  poll_decision w := (Decided (ComparedPeer []), w);
  teardown _ w := (true, w)
|}.

Definition sized_noise : Noise := {|
  HandshakeState := bool;
  TransportState := nat * nat;
  build_handshake initiator _ := Some initiator;
  handshake_write initiator := Some (replicate (if initiator then 32 else 48) 0%N, initiator);
  handshake_read initiator _ := Some ([], initiator);
  is_handshake_finished _ := true;
  get_handshake_hash _ := [];
  into_transport_mode _ := Some (0, 0);
  write_message state p := Some (p ++ tag state.1, (S state.1, state.2));
  read_message := counting_read;
  sha256 _ := []
|}.

Definition fresh_state (r : Role) (input : list N) : option (St (Nz := sized_noise) (Pf := line_platform)) :=
  match SecureTransport_new (Nz := sized_noise) (Pf := line_platform) r 1000 1000 (mkLine input []) with
  | (inr t, w) => Some (mkSt (Nz := sized_noise) (Pf := line_platform) t w [])
  | _ => None
  end.
Definition polls : list TransportOp := replicate 40 OpPoll.
Definition talk (r : Role) (input : list N) : option (St (Nz := sized_noise) (Pf := line_platform)) :=
  st ← fresh_state r input; Some (run_transport (Nz := sized_noise) (Pf := line_platform) polls st).2.
Definition said (r : Role) (input : list N) : list N := default [] ((fun st => outbox (world (Pf := line_platform) st)) <$> talk r input).

(** Each end answers what the other has said so far. *)
Definition client_said : list N := said Client (said Application (said Client [])).
Definition app_said : list N := said Application client_said.

Definition client_start : St (Nz := sized_noise) (Pf := line_platform).
Proof. let x := eval vm_compute in (fresh_state Client app_said) in lazymatch x with Some ?st => exact st end. Defined.
Definition app_start : St (Nz := sized_noise) (Pf := line_platform).
Proof. let x := eval vm_compute in (fresh_state Application client_said) in lazymatch x with Some ?st => exact st end. Defined.
Definition line_run (st : St (Nz := sized_noise) (Pf := line_platform)) :=
  run_transport (Nz := sized_noise) (Pf := line_platform) polls (mkSt (Nz := sized_noise) (Pf := line_platform) (transport_of st) (world st) []).

Lemma client_starts : SecureTransport_new (Nz := sized_noise) (Pf := line_platform) Client 1000 1000 (mkLine app_said []) = (inr (transport_of client_start), world client_start).
Proof. vm_compute. reflexivity. Qed.
Lemma app_starts : SecureTransport_new (Nz := sized_noise) (Pf := line_platform) Application 1000 1000 (mkLine client_said []) = (inr (transport_of app_start), world app_start).
Proof. vm_compute. reflexivity. Qed.

Lemma established_means_both_compared_witness :
  compared (trace (line_run client_start).2) <> [] /\ compared (trace (line_run app_start).2) <> [] /\
  [CLIENT_CONFIRM] `prefix_of` received (trace (line_run app_start).2).
Proof.
  apply (established_means_both_compared (Nz := sized_noise) line_platform line_platform Client 1000 1000 (mkLine app_said []) (transport_of client_start)
    (world client_start) polls 1000 1000 (mkLine client_said []) (transport_of app_start) (world app_start) polls client_starts app_starts).
  - exists []. vm_compute. reflexivity.
  - vm_compute. reflexivity.
Defined.

Lemma client_established : is_established (transport_of (line_run client_start).2) = true /\ (0 < progress_count (line_run client_start).1)%N.
Proof. split; vm_compute; reflexivity. Qed.

Lemma frames_need_confirmation_witness :
  Forall (fun o => panicked o = false) (line_run client_start).1 /\ is_established (transport_of (line_run client_start).2) = true.
Proof.
  split; [|exact (proj1 client_established)].
  pose proof (frames_need_confirmation (Nz := sized_noise) (Pf := line_platform) Client 1000 1000 (mkLine app_said []) (transport_of client_start)
    (world client_start) polls client_starts) as H.
  unfold line_run. destruct (run_transport _ _) as [outs st]. exact (proj1 H).
Defined.

Lemma polls_are_bounded_witness : (0 < progress_count (line_run client_start).1 <= MAX_TOTAL_POLLS)%N.
Proof.
  split; [exact (proj2 client_established)|].
  pose proof (polls_are_bounded (Nz := sized_noise) (Pf := line_platform) Client 1000 1000 (mkLine app_said []) (transport_of client_start)
    (world client_start) polls client_starts) as H.
  unfold line_run. destruct (run_transport _ _) as [outs st]. exact (proj1 H).
Defined.
