(* ===== verification/AutomationInput.v ===== *)
(** * Reserved automation input ([festerm-session/src/automation_input.rs])

    A reservation is a slot shared by two halves: the application's, which
    commits bytes once its authority check has passed, and the backend's, which
    polls for them.  The two run concurrently and meet only in one atomic byte.
    Each half is a program with one constructor per atomic access or clock
    reading, and a schedule interleaves their steps with the passing of time.
    All accesses are to one location with acquire and release order, so the
    order of the steps is the order of its modifications.

    The backend's queue readers of [festerm-pty] and [festerm-ssh] come last. *)

From Stdlib Require Import NArith Bool.
From S2P Require Import Prelude Admission.

Definition MAX_IO_CHUNK_BYTES : N := 64 * 1024.
Definition RESERVATION_LIFETIME : N := 250 * 1000000.

Inductive SlotState := PENDING | COMMITTING | CLAIMED | READY | CANCELLED | TAKEN.
#[export] Instance SlotState_eq_dec : EqDecision SlotState.
Proof. solve_decision. Defined.

(** [attachment] is the identity of the shared epoch. *)
Record Slot := mkSlot {
  slot_bytes : list N;
  deadline : N;
  state : SlotState;
  controller_instance : N;
  attachment : nat;
  attachment_generation : N
}.
#[export] Instance set_state : Setter state :=
  fun v s => mkSlot (slot_bytes s) (deadline s) v (controller_instance s) (attachment s) (attachment_generation s).

Inductive SessionOperation := OperationInput | OperationResize | OperationShutdown.
Inductive SessionSendError :=
  | SendClosed (operation : SessionOperation)
  | SendFull (operation : SessionOperation) (capacity : N)
  | SendTooLarge (operation : SessionOperation) (maximum actual : N).

Inductive ReserveAutomationInputError :=
  | Unsupported
  | EmptyInput
  | ReserveBusy
  | ReserveUnavailable
  | Rejected (error : SessionSendError).

(** ** Reserving *)
Definition slot_with_deadline (bytes : list N) (deadline controller : N) (attachment : nat) (generation : N) : Slot :=
  mkSlot bytes deadline PENDING controller attachment generation.

(** [instant_add] adds to a clock reading; [None] is its overflow, a panic. *)
Definition automation_input_slot (instant_add : N -> N -> option N) (l : Admission) (epoch : AutomationEpoch) (now : N)
    (bytes : list N) (controller : N) (attachment : nat) : option (ReserveAutomationInputError + Slot) :=
  let size := N.of_nat (length bytes) in
  if (size =? 0)%N then Some (inl EmptyInput)
  else if (MAX_IO_CHUNK_BYTES <? size)%N then Some (inl (Rejected (SendTooLarge OperationInput MAX_IO_CHUNK_BYTES size)))
  else if (controller =? 0)%N then Some (inl ReserveUnavailable)
  else match try_automation_admission_lock l with
       | inl Busy => Some (inl ReserveBusy)
       | inl Poisoned => Some (inl ReserveUnavailable)
       | inr _ =>
           match capture_under_admission epoch with
           | None => Some (inl ReserveUnavailable)
           | Some generation =>
               deadline ← instant_add now RESERVATION_LIFETIME;
               Some (inr (slot_with_deadline bytes deadline controller attachment generation))
           end
       end.

(** The epochs the identities stand for. *)
Definition matches_attachment (epochs : nat -> AutomationEpoch) (s : Slot) (controller : N) (attached : nat) (generation : N) : bool :=
  (controller_instance s =? controller)%N && (attachment s =? attached) && (attachment_generation s =? generation)%N
  && is_current (epochs (attachment s)) generation.

Definition attachment_is_current (epochs : nat -> AutomationEpoch) (s : Slot) : bool :=
  is_current (epochs (attachment s)) (attachment_generation s).

(** ** The atomic byte *)
Definition is_open (s : SlotState) : bool :=
  match s with PENDING | COMMITTING | CLAIMED => true | _ => false end.

Definition compare_exchange (current new s : SlotState) : bool * SlotState :=
  if bool_decide (s = current) then (true, new) else (false, s).

(** [cancel_open]: before its load, or before an exchange of what it saw.  A
    weak exchange may fail for no reason. *)
Inductive Cancel := CancelLoad | CancelSwap (seen : SlotState).

Definition cancel_loop (s : SlotState) : option Cancel := if is_open s then Some (CancelSwap s) else None.

Definition cancel_step (spurious : bool) (c : Cancel) (s : SlotState) : option Cancel * SlotState :=
  match c with
  | CancelLoad => (cancel_loop s, s)
  | CancelSwap seen =>
      if negb spurious && bool_decide (s = seen) then (None, CANCELLED) else (cancel_loop s, s)
  end.

Section Slot.
Context {T E : Type}.

Inductive CommitAutomationInputError := ClosedOrExpired | Refused (error : E) | LostAfterCommit.

(** What the authority callback does. *)
Inductive Answer := AnswerOk (value : T) | AnswerErr (error : E) | AnswerPanics.
Inductive CommitResult := Returned (r : CommitAutomationInputError + T) | Unwound.

Inductive AutomationInputStatus := StatusPending | StatusReady (bytes : list N) | StatusCancelled.

(** The reserved half: held, at a point of [commit_using], or in its
    destructor. *)
Inductive Committer :=
  | Held
  | CheckFirst
  | ClaimPending
  | CheckClaim
  | CallAuthority
  | CheckCommit (value : T)
  | Claim (value : T)
  | CheckPublish (value : T)
  | Publish (value : T)
  | Cancelling (at_ : Cancel) (result : CommitResult)
  | Dropping (at_ : Cancel) (result : option CommitResult)
  | Gone (result : option CommitResult).

(** The pending half: between calls, at a point of one, or dropped. *)
Inductive Receiver :=
  | Waiting
  | PollCheck
  | PollCancel (at_ : Cancel)
  | PollLoad
  | PollTake
  | AskCheck
  | AskCancel (at_ : Cancel)
  | AskLoad
  | PendingDropping (at_ : Cancel)
  | PendingGone.

Inductive Event :=
  | Called (bytes : list N) (answer : Answer)
  | ClaimedAt (instant : N)
  | Settled (result : CommitResult)
  | Polled (status : AutomationInputStatus)
  | Asked (cancelled : bool).

(** An early return: the destructor follows. *)
Definition leave (result : CommitResult) : Committer := Dropping CancelLoad (Some result).
Definition cancel_and_leave (result : CommitResult) : Committer := Cancelling CancelLoad result.

(** One step of [commit_using] and of the destructor. *)
Definition commit_step (s : Slot) (now : N) (answer : Answer) (spurious : bool) (c : Committer) : Committer * SlotState * list Event :=
  let expired := (deadline s <=? now)%N in
  match c with
  | Held => (Held, state s, [])
  | CheckFirst => (if expired then cancel_and_leave (Returned (inl ClosedOrExpired)) else ClaimPending, state s, [])
  | ClaimPending =>
      let '(ok, st) := compare_exchange PENDING COMMITTING (state s) in
      (if ok then CheckClaim else leave (Returned (inl ClosedOrExpired)), st, [])
  | CheckClaim => (if expired then cancel_and_leave (Returned (inl ClosedOrExpired)) else CallAuthority, state s, [])
  | CallAuthority =>
      (match answer with
       | AnswerOk v => CheckCommit v
       | AnswerErr e => cancel_and_leave (Returned (inl (Refused e)))
       | AnswerPanics => leave Unwound
       end, state s, [Called (slot_bytes s) answer])
  | CheckCommit v => (if expired then cancel_and_leave (Returned (inl LostAfterCommit)) else Claim v, state s, [])
  | Claim v =>
      let '(ok, st) := compare_exchange COMMITTING CLAIMED (state s) in
      (if ok then CheckPublish v else leave (Returned (inl LostAfterCommit)), st, if ok then [ClaimedAt now] else [])
  | CheckPublish v => (if expired then cancel_and_leave (Returned (inl LostAfterCommit)) else Publish v, state s, [])
  | Publish v =>
      let '(ok, st) := compare_exchange CLAIMED READY (state s) in
      (leave (Returned (if ok then inr v else inl LostAfterCommit)), st, [])
  | Cancelling at_ result =>
      let '(next, st) := cancel_step spurious at_ (state s) in
      (match next with Some at_ => Cancelling at_ result | None => leave result end, st, [])
  | Dropping at_ result =>
      let '(next, st) := cancel_step spurious at_ (state s) in
      match next with
      | Some at_ => (Dropping at_ result, st, [])
      | None => (Gone result, st, match result with Some r => [Settled r] | None => [] end)
      end
  | Gone result => (Gone result, state s, [])
  end.

(** One step of [poll_at], [is_cancelled] and the destructor. *)
Definition receive_step (s : Slot) (now : N) (spurious : bool) (r : Receiver) : Receiver * SlotState * list Event :=
  let expired := (deadline s <=? now)%N in
  match r with
  | Waiting => (Waiting, state s, [])
  | PollCheck => (if expired then PollCancel CancelLoad else PollLoad, state s, [])
  | PollCancel at_ =>
      let '(next, st) := cancel_step spurious at_ (state s) in
      (match next with Some at_ => PollCancel at_ | None => PollLoad end, st, [])
  | PollLoad =>
      match state s with
      | PENDING | COMMITTING | CLAIMED => (Waiting, state s, [Polled StatusPending])
      | READY => (PollTake, state s, [])
      | CANCELLED | TAKEN => (Waiting, state s, [Polled StatusCancelled])
      end
  | PollTake =>
      let '(ok, st) := compare_exchange READY TAKEN (state s) in
      if ok then (Waiting, st, [Polled (StatusReady (slot_bytes s))]) else (PollLoad, st, [])
  | AskCheck => (if expired then AskCancel CancelLoad else AskLoad, state s, [])
  | AskCancel at_ =>
      let '(next, st) := cancel_step spurious at_ (state s) in
      (match next with Some at_ => AskCancel at_ | None => AskLoad end, st, [])
  | AskLoad => (Waiting, state s, [Asked (bool_decide (state s = CANCELLED) || bool_decide (state s = TAKEN))])
  | PendingDropping at_ =>
      let '(next, st) := cancel_step spurious at_ (state s) in
      (match next with Some at_ => PendingDropping at_ | None => PendingGone end, st, [])
  | PendingGone => (PendingGone, state s, [])
  end.

(** ** Schedules *)
Record World := mkWorld { slot : Slot; clock : N; committer : Committer; receiver : Receiver; log : list Event }.

Inductive Action :=
  | Tick (elapsed : N)
  | StartCommit
  | DropReserved
  | CommitterStep (answer : Answer) (spurious : bool)
  | StartPoll
  | StartIsCancelled
  | DropPending
  | ReceiverStep (spurious : bool).

Definition start (s : Slot) (now : N) : World := mkWorld s now Held Waiting [].

Definition with_committer (w : World) (c : Committer) : World := mkWorld (slot w) (clock w) c (receiver w) (log w).
Definition with_receiver (w : World) (r : Receiver) : World := mkWorld (slot w) (clock w) (committer w) r (log w).

(** A call starts only when its half is not in another one. *)
Definition act (a : Action) (w : World) : World :=
  match a with
  | Tick d => mkWorld (slot w) (clock w + d) (committer w) (receiver w) (log w)
  | StartCommit => match committer w with Held => with_committer w CheckFirst | _ => w end
  | DropReserved => match committer w with Held => with_committer w (Dropping CancelLoad None) | _ => w end
  | CommitterStep answer spurious =>
      let '(c, st, es) := commit_step (slot w) (clock w) answer spurious (committer w) in
      mkWorld ((slot w) <| state := st |>) (clock w) c (receiver w) (log w ++ es)
  | StartPoll => match receiver w with Waiting => with_receiver w PollCheck | _ => w end
  | StartIsCancelled => match receiver w with Waiting => with_receiver w AskCheck | _ => w end
  | DropPending => match receiver w with Waiting => with_receiver w (PendingDropping CancelLoad) | _ => w end
  | ReceiverStep spurious =>
      let '(r, st, es) := receive_step (slot w) (clock w) spurious (receiver w) in
      mkWorld ((slot w) <| state := st |>) (clock w) (committer w) r (log w ++ es)
  end.

Definition run (acts : list Action) (w : World) : World := foldl (fun w a => act a w) w acts.
End Slot.
Arguments CommitAutomationInputError : clear implicits.
Arguments Answer : clear implicits.
Arguments CommitResult : clear implicits.
Arguments Committer : clear implicits.
Arguments Event : clear implicits.
Arguments World : clear implicits.
Arguments Action : clear implicits.

(** ** The readers of a backend's queue

    A channel of commands, some of them reservations in their place, here by
    number.  A reservation the reader gives up is dropped.  [GotNothing] is the
    time-out of one reader and the empty channel of the other. *)
Section Readers.
Context {Command : Type} (input : list N -> Command).

Inductive Queued := QueuedCommand (c : Command) | QueuedReservation (id : nat).
Inductive Received := GotCommand (c : Command) | GotNothing | GotDisconnected.

(** What remains of the channel: the queued commands, and whether the sender is
    gone once they are read. *)
Record Reader := mkReader { queue : list Queued; disconnected : bool; reserved : option nat }.

Definition channel_next (r : Reader) : option Queued * Reader :=
  match queue r with
  | [] => (None, r)
  | q :: rest => (Some q, mkReader rest (disconnected r) (reserved r))
  end.

(** [festerm-pty]: one look at the reservation, or one command. *)
Definition receive_command (poll : nat -> AutomationInputStatus) (r : Reader) : Received * Reader :=
  match reserved r with
  | Some id =>
      match poll id with
      | StatusPending => (GotNothing, r)
      | StatusReady bytes => (GotCommand (input bytes), mkReader (queue r) (disconnected r) None)
      | StatusCancelled => (GotNothing, mkReader (queue r) (disconnected r) None)
      end
  | None =>
      match channel_next r with
      | (None, r) => (if disconnected r then GotDisconnected else GotNothing, r)
      | (Some (QueuedReservation id), r) => (GotNothing, mkReader (queue r) (disconnected r) (Some id))
      | (Some (QueuedCommand c), r) => (GotCommand c, r)
      end
  end.

(** What [festerm-ssh] learns of a reservation at each look: whether it is
    cancelled, what the admission lock says, whether the attachment is current,
    and the poll. *)
Inductive Lock := LockTaken | LockBusy | LockPoisoned.
Record Look := mkLook { is_cancelled : bool; lock : Lock; attached : bool; polled : AutomationInputStatus }.

Definition MAX_DISCARDED_AUTOMATION_INPUTS_PER_POLL : nat := 32.

(** [try_recv]: [look] gives what is learnt of a reservation when [discarded]
    others were discarded in this call; the last number is how many error
    events were emitted. *)
Fixpoint try_recv (fuel : nat) (look : nat -> nat -> Look) (discarded : nat) (r : Reader) (errors : nat) : option (Received * Reader * nat) :=
  match fuel with
  | O => None
  | S fuel =>
      match reserved r with
      | Some id =>
          let l := look discarded id in
          let empty := mkReader (queue r) (disconnected r) None in
          let discard errors :=
            if S discarded =? MAX_DISCARDED_AUTOMATION_INPUTS_PER_POLL then Some (GotNothing, empty, errors)
            else try_recv fuel look (S discarded) empty errors in
          if is_cancelled l then discard errors
          else match lock l with
               | LockBusy => Some (GotNothing, r, errors)
               | LockPoisoned => discard (S errors)
               | LockTaken =>
                   if attached l then
                     match polled l with
                     | StatusPending => Some (GotNothing, r, errors)
                     | StatusReady bytes => Some (GotCommand (input bytes), empty, errors)
                     | StatusCancelled => discard errors
                     end
                   else discard (S errors)
               end
      | None =>
          match channel_next r with
          | (None, r) => Some (if disconnected r then GotDisconnected else GotNothing, r, errors)
          | (Some (QueuedReservation id), r) => try_recv fuel look discarded (mkReader (queue r) (disconnected r) (Some id)) errors
          | (Some (QueuedCommand c), r) => Some (GotCommand c, r, errors)
          end
      end
  end.
End Readers.
