(* ===== verification/AutomationInputSpec.v ===== *)
(** * Reserved input is delivered at most once, and only as committed

    Invariants of a slot under every schedule, wait-freedom of both halves, and
    the place a reservation keeps in the backend's queue. *)

From Stdlib Require Import NArith Bool.
From S2P Require Import Prelude Admission AutomationInput.

Section Proofs.
Context {T E : Type}.
Abbreviation World := (World T E).
Abbreviation Event := (Event T E).
Abbreviation Action := (Action T E).
Abbreviation Committer := (Committer T E).
Abbreviation CommitResult := (CommitResult T E).

(** ** What the log says *)
Definition answers (es : list Event) : list (Answer T E) := omap (fun e => match e with Called _ a => Some a | _ => None end) es.
Definition claims (es : list Event) : list N := omap (fun e => match e with ClaimedAt t => Some t | _ => None end) es.
Definition settled (es : list Event) : list CommitResult := omap (fun e => match e with Settled r => Some r | _ => None end) es.
Definition delivered (es : list Event) : list (list N) :=
  omap (fun e => match e with Polled (StatusReady bs) => Some bs | _ => None end) es.

(** ** The invariant *)
Definition unsold (st : SlotState) : Prop := st <> READY /\ st <> TAKEN.

Definition result_inv (d : N) (st : SlotState) (ans : list (Answer T E)) (cl : list N) (r : CommitResult) : Prop :=
  match r with
  | Returned (inr v) => ans = [AnswerOk v] /\ (exists t, cl = [t] /\ (t < d)%N) /\ (st = READY \/ st = TAKEN)
  | Returned (inl ClosedOrExpired) => ans = [] /\ unsold st
  | Returned (inl (Refused e)) => ans = [AnswerErr e] /\ unsold st
  | Returned (inl LostAfterCommit) => (exists v, ans = [AnswerOk v]) /\ unsold st
  | Unwound => ans = [AnswerPanics] /\ unsold st
  end.

(** An exchange is tried only of an open state. *)
Definition cancel_inv (at_ : Cancel) : Prop := match at_ with CancelLoad => True | CancelSwap seen => is_open seen = true end.

Definition receiver_inv (st : SlotState) (r : Receiver) : Prop :=
  match r with
  | PollTake => st = READY
  | PollCancel at_ | AskCancel at_ | PendingDropping at_ => cancel_inv at_
  | _ => True
  end.

Definition committer_inv (d : N) (st : SlotState) (now : N) (ans : list (Answer T E)) (cl : list N) (se : list CommitResult) (c : Committer) : Prop :=
  match c with
  | Held | CheckFirst | ClaimPending => ans = [] /\ cl = [] /\ se = [] /\ (st = PENDING \/ st = CANCELLED)
  | CheckClaim | CallAuthority => ans = [] /\ cl = [] /\ se = [] /\ (st = COMMITTING \/ st = CANCELLED)
  | CheckCommit v | Claim v => ans = [AnswerOk v] /\ cl = [] /\ se = [] /\ (st = COMMITTING \/ st = CANCELLED)
  | CheckPublish v => ans = [AnswerOk v] /\ (exists t, cl = [t] /\ (t <= now)%N) /\ se = [] /\ (st = CLAIMED \/ st = CANCELLED)
  | Publish v => ans = [AnswerOk v] /\ (exists t, cl = [t] /\ (t < d)%N) /\ se = [] /\ (st = CLAIMED \/ st = CANCELLED)
  | Cancelling at_ r => cancel_inv at_ /\ result_inv d st ans cl r /\ se = []
  | Dropping at_ (Some r) => cancel_inv at_ /\ result_inv d st ans cl r /\ se = []
  | Dropping at_ None => cancel_inv at_ /\ ans = [] /\ se = [] /\ unsold st
  | Gone (Some r) => result_inv d st ans cl r /\ se = [r] /\ is_open st = false
  | Gone None => ans = [] /\ se = [] /\ unsold st /\ is_open st = false
  end.

Definition inv (bytes : list N) (d : N) (w : World) : Prop :=
  slot_bytes (slot w) = bytes /\ deadline (slot w) = d /\
  committer_inv d (state (slot w)) (clock w) (answers (log w)) (claims (log w)) (settled (log w)) (committer w) /\
  receiver_inv (state (slot w)) (receiver w) /\
  delivered (log w) = (if bool_decide (state (slot w) = TAKEN) then [bytes] else []) /\
  Forall (fun e => match e with Called bs _ => bs = bytes | _ => True end) (log w).

(** What a step of one half does to the other's view of the byte. *)
Definition receiver_moves (st st' : SlotState) : Prop :=
  st' = st \/ (is_open st = true /\ st' = CANCELLED) \/ (st = READY /\ st' = TAKEN).
Definition committer_moves (st st' : SlotState) : Prop := st' = st \/ (is_open st = true /\ st' <> TAKEN).

Lemma receiver_moves_refl st : receiver_moves st st.
Proof. by left. Qed.

Lemma cancel_ok sp at_ st next st' : cancel_inv at_ -> cancel_step sp at_ st = (next, st') ->
  (st' = st \/ is_open st = true /\ st' = CANCELLED) /\
  match next with Some at' => cancel_inv at' | None => is_open st' = false end.
Proof.
  assert (match cancel_loop st with Some at' => cancel_inv at' | None => is_open st = false end) as Hl.
  { unfold cancel_loop. by destruct (is_open st) eqn:Ho. }
  destruct at_ as [|x]; cbn; intros Hx; [intros [= <- <-]; by split; [left|]|].
  destruct (negb sp && bool_decide (st = x)) eqn:Eb; intros [= <- <-]; [|by split; [left|]].
  apply andb_true_iff in Eb as [_ Eb]. apply bool_decide_eq_true in Eb as ->. by split; [right|].
Qed.

Lemma result_stable d st st' ans cl r : result_inv d st ans cl r -> receiver_moves st st' -> result_inv d st' ans cl r.
Proof.
  intros H Hm. assert (unsold st -> unsold st') as Hu.
  { unfold unsold. intros [H1 H2]. by destruct Hm as [->|[[_ ->]|[Er ->]]]. }
  destruct r as [[[|e|]|v]|]; cbn in *; destruct H as [H1 H2]; (split; [done|]); try by apply Hu.
  destruct H2 as [Ht [->| ->]]; (split; [done|]); destruct Hm as [->|[[? ->]|[? ->]]]; auto; done.
Qed.

Lemma committer_stable d st st' now now' ans cl se c : committer_inv d st now ans cl se c -> receiver_moves st st' -> (now <= now')%N ->
  committer_inv d st' now' ans cl se c.
Proof.
  intros H Hm Hn.
  assert (forall x, x <> READY -> x <> CANCELLED -> (st = x \/ st = CANCELLED) -> (st' = x \/ st' = CANCELLED)) as Hx.
  { intros x Hr Hc [->| ->]; destruct Hm as [->|[[_ ->]|[Er ->]]]; auto; congruence. }
  assert (unsold st -> unsold st') as Hu.
  { unfold unsold. intros [H1 H2]. destruct Hm as [->|[[_ ->]|[Er ->]]]; [done|done|congruence]. }
  assert (is_open st = false -> is_open st' = false) as Ho.
  { intros ?. by destruct Hm as [->|[[_ ->]|[Er ->]]]. }
  destruct c as [| | | | |v|v|v|v|at_ r|at_ [r|]|[r|]]; cbn in *.
  1-7: destruct H as (H1 & H2 & H3 & H4); split_and!; try done; by apply Hx.
  - destruct H as (H1 & (t & H2 & H5) & H3 & H4). split_and!; [done|exists t; split; [done|lia]|done|by apply Hx].
  - destruct H as (H1 & H2 & H3 & H4). split_and!; [done|done|done|by apply Hx].
  - destruct H as (H0 & H1 & H2). split_and!; [done|by apply (result_stable _ st)|done].
  - destruct H as (H0 & H1 & H2). split_and!; [done|by apply (result_stable _ st)|done].
  - destruct H as (H0 & H1 & H2 & H3). split_and!; [done|done|done|apply Hu, H3].
  - destruct H as (H1 & H2 & H3). split_and!; [by apply (result_stable _ st)|done|by apply Ho].
  - destruct H as (H1 & H2 & H3 & H4). split_and!; [done|done|apply Hu, H3|by apply Ho].
Qed.

Lemma exchange_cases cur new st ok st' : compare_exchange cur new st = (ok, st') -> (ok = true /\ st = cur /\ st' = new) \/ (ok = false /\ st <> cur /\ st' = st).
Proof. unfold compare_exchange. case_bool_decide; intros [= <- <-]; auto. Qed.

(** A step of the reserved half. *)
Definition committed (s : Slot) (now : N) (ans : list (Answer T E)) (cl : list N) (se : list CommitResult) (out : Committer * SlotState * list Event) : Prop :=
  let '(c, st, es) := out in
  committer_inv (deadline s) st now (ans ++ answers es) (cl ++ claims es) (se ++ settled es) c /\
  committer_moves (state s) st /\ delivered es = [] /\ Forall (fun e => match e with Called bs _ => bs = slot_bytes s | _ => True end) es.

(** Steps that leave the byte and the log alone. *)
Lemma committed_quietly s now ans cl se c : committer_inv (deadline s) (state s) now ans cl se c -> committed s now ans cl se (c, state s, []).
Proof. intros H. unfold committed. cbn. rewrite !app_nil_r. split_and!; [done|by left|done|constructor]. Qed.

Lemma cancelled_unsold st x : x <> READY -> x <> TAKEN -> st = x \/ st = CANCELLED -> unsold st.
Proof. by intros Hr Ht [->| ->]. Qed.

Lemma exchange_moves cur new st ok st' : is_open cur = true -> new <> TAKEN -> compare_exchange cur new st = (ok, st') -> committer_moves st st'.
Proof. intros Ho Hn Hx. apply exchange_cases in Hx as [(_ & -> & ->)|(_ & _ & ->)]; [by right|by left]. Qed.

Lemma commit_exchange_ok s now ans cl se cur new ok st (c : Committer) es :
  is_open cur = true -> new <> TAKEN -> compare_exchange cur new (state s) = (ok, st) ->
  committer_inv (deadline s) st now (ans ++ answers es) (cl ++ claims es) (se ++ settled es) c ->
  delivered es = [] -> answers es = [] -> committed s now ans cl se (c, st, es).
Proof.
  intros Ho Hn Hx Hc Hd Ha. split_and!; [done|by apply (exchange_moves cur new _ ok)|done|].
  clear -Ha. induction es as [|[] es IH]; cbn in *; try constructor; auto; done.
Qed.

Lemma commit_cancel_ok s now ans cl se sp at_ (k : option Cancel -> Committer * list Event) :
  cancel_inv at_ ->
  (forall next st, receiver_moves (state s) st -> match next with Some at' => cancel_inv at' | None => is_open st = false end ->
    committer_inv (deadline s) st now ans cl (se ++ settled (k next).2) (k next).1) ->
  (forall next, answers (k next).2 = [] /\ claims (k next).2 = [] /\ delivered (k next).2 = []) ->
  let '(next, st) := cancel_step sp at_ (state s) in committed s now ans cl se ((k next).1, st, (k next).2).
Proof.
  intros Hat Hk He. destruct (cancel_step sp at_ (state s)) as [next st] eqn:Ec. destruct (cancel_ok _ _ _ _ _ Hat Ec) as [Hm Hn].
  destruct (He next) as (Ha & Hc & Hd). unfold committed. rewrite Ha, Hc, !app_nil_r. split_and!; [|destruct Hm as [->|[? ->]]; [by left|by right]|done|].
  - apply Hk; [|done]. destruct Hm as [->|[? ->]]; [by left|by right; left].
  - clear -Ha. induction (k next).2 as [|[] es IH]; cbn in *; try constructor; auto; done.
Qed.

Lemma commit_check_ok s now a sp c ans cl se :
  committer_inv (deadline s) (state s) now ans cl se c ->
  match c with CheckFirst | CheckClaim | CheckCommit _ | CheckPublish _ | CallAuthority | Held | Gone _ => True | _ => False end ->
  committed s now ans cl se (commit_step s now a sp c).
Proof.
  intros H. destruct c as [| | | | |v|v|v|v|at_ r|at_ r|r]; intros ?; try done; cbn [commit_step].
  - by apply committed_quietly.
  - apply committed_quietly. destruct (_ <=? _)%N; [|done]. destruct H as (-> & -> & -> & H). cbn. split_and!; [done|done|by apply (cancelled_unsold _ PENDING)|done].
  - apply committed_quietly. destruct (_ <=? _)%N; [|done]. destruct H as (-> & -> & -> & H). cbn. split_and!; [done|done|by apply (cancelled_unsold _ COMMITTING)|done].
  - destruct H as (-> & -> & -> & H). unfold committed. cbn [answers claims settled delivered omap list_omap app].
    split_and!; [|by left|done|by repeat constructor]. pose proof (cancelled_unsold _ COMMITTING ltac:(done) ltac:(done) H). destruct a; cbn; auto.
  - apply committed_quietly. destruct (_ <=? _)%N; [|done]. destruct H as (-> & -> & -> & H). cbn. split_and!; [done|by exists v|by apply (cancelled_unsold _ COMMITTING)|done].
  - apply committed_quietly. destruct (N.leb_spec (deadline s) now) as [Hd|Hd]; destruct H as (-> & (t & -> & Ht) & -> & H); cbn.
    + split_and!; [done|by exists v|by apply (cancelled_unsold _ CLAIMED)|done].
    + split_and!; [done|exists t; split; [done|lia]|done|done].
  - by apply committed_quietly.
Qed.

Lemma commit_step_ok s now a sp c ans cl se :
  committer_inv (deadline s) (state s) now ans cl se c -> committed s now ans cl se (commit_step s now a sp c).
Proof.
  intros H. pose proof (commit_check_ok s now a sp c ans cl se H) as Hq.
  destruct c as [| | | | |v|v|v|v|at_ r|at_ r|r]; try (by apply Hq); clear Hq; cbn [commit_step].
  - destruct (compare_exchange _ _ _) as [ok x] eqn:Ex. apply (commit_exchange_ok _ _ _ _ _ PENDING COMMITTING ok); try done.
    rewrite !app_nil_r. destruct H as (-> & -> & -> & H). destruct (exchange_cases _ _ _ _ _ Ex) as [(-> & _ & ->)|(-> & E1 & ->)]; cbn; [auto|].
    split_and!; [done|done|by apply (cancelled_unsold _ PENDING)|done].
  - destruct (compare_exchange _ _ _) as [ok x] eqn:Ex. destruct H as (-> & -> & -> & H).
    destruct (exchange_cases _ _ _ _ _ Ex) as [(-> & _ & ->)|(-> & E1 & ->)]; apply (commit_exchange_ok _ _ _ _ _ COMMITTING CLAIMED _ _ _ _ eq_refl ltac:(done) Ex); try done; cbn.
    + split_and!; [done|by exists now|done|by left].
    + split_and!; [done|by exists v|by apply (cancelled_unsold _ COMMITTING)|done].
  - destruct (compare_exchange _ _ _) as [ok x] eqn:Ex. apply (commit_exchange_ok _ _ _ _ _ CLAIMED READY ok); try done.
    rewrite !app_nil_r. destruct H as (-> & (t & -> & Ht) & -> & H). destruct (exchange_cases _ _ _ _ _ Ex) as [(-> & _ & ->)|(-> & E1 & ->)]; cbn.
    + split_and!; [done|done|by exists t|by left|done].
    + split_and!; [done|by exists v|by apply (cancelled_unsold _ CLAIMED)|done].
  - destruct H as (Hat & Hr & ->). pose proof (commit_cancel_ok s now ans cl [] sp at_ (fun next => (match next with Some at_ => Cancelling at_ r | None => leave r end, [])) Hat) as Hk.
    cbn [fst snd] in Hk. destruct (cancel_step _ _ _) as [next st]. apply Hk; [|done]. intros n x Hm Hn. apply (result_stable _ _ x) in Hr; [|done]. by destruct n.
  - pose proof (commit_cancel_ok s now ans cl se sp at_ (fun next => match next with Some at_ => (Dropping at_ r, [])
      | None => (Gone r, match r with Some r => [Settled r] | None => [] end) end)) as Hk.
    destruct (cancel_step _ _ _) as [next st]. assert (cancel_inv at_) as Hat by (destruct r; apply H).
    assert (committed s now ans cl se ((match next with Some at_ => (Dropping at_ r, []) | None => (Gone r, match r with Some r => [Settled r] | None => [] end) end).1, st,
      (match next with Some at_ => (Dropping at_ r, []) | None => (Gone r, match r with Some r => [Settled r] | None => [] end) end : Committer * list Event).2)) as Hd; [|by destruct next].
    apply (Hk Hat).
    + intros n x Hm Hn. pose proof (committer_stable _ _ x now now _ _ _ _ H Hm ltac:(lia)) as Hx. destruct n, r; cbn in *; rewrite ?app_nil_r.
      * by destruct Hx as (_ & ? & ->).
      * by destruct Hx as (_ & ? & -> & ?).
      * by destruct Hx as (_ & ? & ->).
      * by destruct Hx as (_ & ? & -> & ?).
    + intros [n|]; [done|]. by destruct r.
Qed.

(** A step of the pending half. *)
Definition taken (s : Slot) (st : SlotState) : list (list N) :=
  if bool_decide (state s = READY) && bool_decide (st = TAKEN) then [slot_bytes s] else [].

Definition receipt_ok (s : Slot) (out : Receiver * SlotState * list Event) : Prop :=
  let '(r, st, es) := out in
  receiver_inv st r /\ receiver_moves (state s) st /\ answers es = [] /\ claims es = [] /\ settled es = [] /\ delivered es = taken s st.

Lemma untaken s : taken s (state s) = [].
Proof. unfold taken. repeat case_bool_decide; congruence || done. Qed.

Lemma received_quietly s r : receiver_inv (state s) r -> receipt_ok s (r, state s, []).
Proof. intros H. split_and!; try done; [by left|]. by rewrite untaken. Qed.

Lemma receive_cancel_ok s sp at_ (k : option Cancel -> Receiver) :
  cancel_inv at_ -> (forall st at', cancel_inv at' -> receiver_inv st (k (Some at'))) -> (forall st, receiver_inv st (k None)) ->
  let '(next, st) := cancel_step sp at_ (state s) in receipt_ok s (k next, st, []).
Proof.
  intros Hat Hs Hn. destruct (cancel_step sp at_ (state s)) as [next st] eqn:Ec. destruct (cancel_ok _ _ _ _ _ Hat Ec) as [Hm Hx].
  split_and!; try done.
  - destruct next; auto.
  - destruct Hm as [->|[? ->]]; [by left|by right; left].
  - destruct Hm as [->|[Ho ->]]; [by rewrite untaken|]. unfold taken. by rewrite andb_false_r.
Qed.

Lemma receive_step_ok s now sp r : receiver_inv (state s) r -> receipt_ok s (receive_step (T := T) (E := E) s now sp r).
Proof.
  intros H. assert (forall (e : Event) r, receiver_inv (state s) r -> answers [e] = [] -> claims [e] = [] -> settled [e] = [] -> delivered [e] = [] ->
    receipt_ok s (r, state s, [e])) as Hq. { intros. split_and!; try done; [by left|by rewrite untaken]. }
  destruct r as [| |at_| | | |at_| |at_|]; cbn [receive_step].
  - by apply received_quietly.
  - apply received_quietly. by destruct (_ <=? _)%N.
  - pose proof (receive_cancel_ok s sp at_ (fun next => match next with Some at_ => PollCancel at_ | None => PollLoad end) H) as Hk.
    destruct (cancel_step _ _ _) as [next st]. by apply Hk.
  - destruct (state s) eqn:Es; try (by apply Hq). rewrite <- Es. by apply received_quietly.
  - cbn in H. unfold compare_exchange. rewrite bool_decide_true by done. split_and!; try done; [by right; right|]. unfold taken. by rewrite H.
  - apply received_quietly. by destruct (_ <=? _)%N.
  - pose proof (receive_cancel_ok s sp at_ (fun next => match next with Some at_ => AskCancel at_ | None => AskLoad end) H) as Hk.
    destruct (cancel_step _ _ _) as [next st]. by apply Hk.
  - by apply Hq.
  - pose proof (receive_cancel_ok s sp at_ (fun next => match next with Some at_ => PendingDropping at_ | None => PendingGone end) H) as Hk.
    destruct (cancel_step _ _ _) as [next st]. by apply Hk.
  - by apply received_quietly.
Qed.

(** ** Every schedule *)
Lemma log_app (l es : list Event) :
  answers (l ++ es) = answers l ++ answers es /\ claims (l ++ es) = claims l ++ claims es /\ settled (l ++ es) = settled l ++ settled es /\
  delivered (l ++ es) = delivered l ++ delivered es.
Proof. by split_and!; apply omap_app. Qed.

Lemma committer_step_inv bs d w a sp : inv bs d w -> inv bs d (act (CommitterStep a sp) w).
Proof.
  intros (Hb & Hd & Hc & Hr & Hl & Hf). subst d. pose proof (commit_step_ok (slot w) (clock w) a sp _ _ _ _ Hc) as H. cbn [act].
  destruct (commit_step _ _ _ _ _) as [[c st] es]. destruct H as (H1 & Hm & H3 & H4). destruct (log_app (log w) es) as (Ea & Ec & Es & Ed).
  unfold inv. cbn [slot clock committer receiver log state deadline slot_bytes]. rewrite Ea, Ec, Es, Ed, H3, app_nil_r. split_and!; try done.
  - destruct (receiver w); try done. cbn in *. destruct Hm as [->|[Ho _]]; [done|]. by rewrite Hr in Ho.
  - rewrite Hl. destruct Hm as [->|[Ho Ht]]; [done|]. rewrite !bool_decide_false; [done|done|]. by intros Et; rewrite Et in Ho.
  - apply Forall_app. split; [done|]. by rewrite Hb in H4.
Qed.

Lemma receiver_step_inv bs d w sp : inv bs d w -> inv bs d (act (ReceiverStep sp) w).
Proof.
  intros (Hb & Hd & Hc & Hr & Hl & Hf). pose proof (receive_step_ok (slot w) (clock w) sp _ Hr) as H. cbn [act].
  destruct (receive_step _ _ _ _) as [[r st] es]. destruct H as (H1 & Hm & H3 & H4 & H5 & H6). destruct (log_app (log w) es) as (Ea & Ec & Es & Ed).
  unfold inv. cbn [slot clock committer receiver log state deadline slot_bytes]. rewrite Ea, Ec, Es, Ed, H3, H4, H5, H6, !app_nil_r. split_and!; try done.
  - by apply (committer_stable _ (state (slot w)) _ (clock w)); [|done|lia].
  - rewrite Hl. unfold taken. rewrite Hb. change (state ((slot w) <| state := st |>)) with st.
    destruct Hm as [->|[[Ho ->]|[-> ->]]]; [|by destruct (state (slot w))|done].
    by destruct (state (slot w)).
  - apply Forall_app. split; [done|]. clear -H3. induction es as [|[] es IH]; cbn in *; try constructor; auto; done.
Qed.

Lemma act_inv bs d a w : inv bs d w -> inv bs d (act a w).
Proof.
  intros Hi. destruct a as [e| | |a sp| | | |sp]; [| | |by apply committer_step_inv| | | |by apply receiver_step_inv].
  all: destruct Hi as (Hb & Hd & Hc & Hr & Hl & Hf); unfold inv; cbn.
  - split_and!; try done. by apply (committer_stable _ (state (slot w)) _ (clock w)); [|left|lia].
  - destruct (committer w) eqn:Ec; cbn; rewrite ?Ec; done.
  - destruct (committer w) eqn:Ec; cbn [with_committer committer slot clock receiver log]; rewrite ?Ec; try done.
    destruct Hc as (H1 & H2 & H3 & Hc). split_and!; try done; by apply (cancelled_unsold _ PENDING) in Hc as [? ?].
  - by destruct (receiver w) eqn:Er; cbn; rewrite ?Er.
  - by destruct (receiver w) eqn:Er; cbn; rewrite ?Er.
  - by destruct (receiver w) eqn:Er; cbn; rewrite ?Er.
Qed.

Lemma run_inv bs d acts : forall w, inv bs d w -> inv bs d (run acts w).
Proof. induction acts as [|a acts IH]; intros w Hi; [done|]. cbn. apply IH. by apply act_inv. Qed.

Lemma start_inv s now : state s = PENDING -> inv (slot_bytes s) (deadline s) (start s now).
Proof. intros Hs. unfold inv, start. cbn. rewrite Hs. split_and!; try done; by left. Qed.

Lemma taken_committed d now ans cl se c : committer_inv d TAKEN now ans cl se c ->
  exists v t, ans = [AnswerOk v] /\ cl = [t] /\ (t < d)%N /\ (se = [] \/ se = [Returned (inr v)]).
Proof.
  assert (forall r, result_inv d TAKEN ans cl r -> exists v t, ans = [AnswerOk v] /\ cl = [t] /\ (t < d)%N /\ r = Returned (inr v)) as Hr.
  { intros [[[|e|]|v]|]; cbn; unfold unsold; intros [H1 H2]; try (by destruct H2). destruct H2 as [(t & -> & Ht) _]. by exists v, t. }
  destruct c as [| | | | |v|v|v|v|at_ r|at_ [r|]|[r|]]; cbn.
  1-9: by intros (_ & _ & _ & [?|?]).
  - intros (_ & H & ->). destruct (Hr r H) as (v & t & ? & ? & ? & _). exists v, t. auto.
  - intros (_ & H & ->). destruct (Hr r H) as (v & t & ? & ? & ? & _). exists v, t. auto.
  - by intros (_ & _ & _ & _ & ?).
  - intros (H & -> & _). destruct (Hr r H) as (v & t & ? & ? & ? & ->). exists v, t. auto.
  - by intros (_ & _ & [_ ?] & _).
Qed.

Lemma closed_cancelled st : unsold st -> is_open st = false -> st = CANCELLED.
Proof. intros [H1 H2]. by destruct st. Qed.

Lemma settled_closed d st ans cl r : result_inv d st ans cl r -> is_open st = false ->
  match r with
  | Returned (inr v) => ans = [AnswerOk v] /\ (st = READY \/ st = TAKEN)
  | Returned (inl ClosedOrExpired) => ans = [] /\ st = CANCELLED
  | Returned (inl (Refused e)) => ans = [AnswerErr e] /\ st = CANCELLED
  | Returned (inl LostAfterCommit) => (exists v, ans = [AnswerOk v]) /\ st = CANCELLED
  | Unwound => ans = [AnswerPanics] /\ st = CANCELLED
  end.
Proof.
  intros H Ho. destruct r as [[[|e|]|v]|]; cbn in H; destruct H as [H1 H2]; (split; [done|]); first [by apply closed_cancelled|by destruct H2].
Qed.

Lemma settled_ready d st now ans cl c v : committer_inv d st now ans cl [Returned (inr v)] c -> st = READY \/ st = TAKEN.
Proof.
  destruct c as [| | | | |x|x|x|x|at_ r|at_ [r|]|[r|]]; cbn; intros H; try by (destruct H as (? & ? & ? & ?)).
  - by destruct H as (_ & _ & ?).
  - by destruct H as (_ & _ & ?).
  - destruct H as (H & Er & _). injection Er as <-. by destruct H as (_ & _ & ?).
Qed.

(** C7: reserved input is delivered at most once and only as committed.  Under
    every interleaving of the two halves, whatever the clock and the authority
    callback do: the bytes are delivered at most once, unchanged, and only after
    the callback was called once on exactly these bytes and accepted them and
    the claim was taken before the deadline; a commit that returned success has
    left the bytes ready or delivered, and one that returned an error, or
    unwound, has cancelled the slot for good, with the error saying whether the
    callback had been called and what it answered. *)
Theorem reserved_input_is_delivered_once s now acts : state s = PENDING ->
  let w := run acts (start s now) in
  (delivered (log w) = [] \/
   delivered (log w) = [slot_bytes s] /\
   exists v t, answers (log w) = [AnswerOk v] /\ claims (log w) = [t] /\ (t < deadline s)%N /\
     (settled (log w) = [] \/ settled (log w) = [Returned (inr v)])) /\
  Forall (fun e => match e with Called bs _ => bs = slot_bytes s | _ => True end) (log w) /\
  match settled (log w) with
  | [] => True
  | [Returned (inr v)] => answers (log w) = [AnswerOk v] /\ (state (slot w) = READY \/ state (slot w) = TAKEN)
  | [Returned (inl ClosedOrExpired)] => answers (log w) = [] /\ state (slot w) = CANCELLED
  | [Returned (inl (Refused e))] => answers (log w) = [AnswerErr e] /\ state (slot w) = CANCELLED
  | [Returned (inl LostAfterCommit)] => (exists v, answers (log w) = [AnswerOk v]) /\ state (slot w) = CANCELLED
  | [Unwound] => answers (log w) = [AnswerPanics] /\ state (slot w) = CANCELLED
  | _ => False
  end.
Proof.
  intros Hs w. destruct (run_inv _ _ acts _ (start_inv s now Hs)) as (_ & _ & Hc & _ & Hd & Hf). fold w in Hc, Hd, Hf. split_and!; [|done|].
  - rewrite Hd. case_bool_decide as Et; [right|by left]. split; [done|]. rewrite Et in Hc. by apply taken_committed in Hc.
  - destruct (committer w) as [| | | | |v|v|v|v|at_ r|at_ [r|]|[r|]]; cbn in Hc.
    1-9: by destruct Hc as (_ & _ & -> & _).
    1-2: by destruct Hc as (_ & _ & ->).
    + by destruct Hc as (_ & _ & -> & _).
    + destruct Hc as (Hr & -> & Ho). exact (settled_closed _ _ _ _ _ Hr Ho).
    + by destruct Hc as (_ & -> & _).
Qed.

(** C25: a committed reservation is delivered.  After any schedule in which the
    commit returned success and the backend is between calls and has not had
    the bytes yet, its next poll returns exactly these bytes, however late it
    is and whether or not weak exchanges fail. *)
Theorem committed_input_is_delivered s now acts later sp v : state s = PENDING ->
  let w := run acts (start s now) in
  settled (log w) = [Returned (inr v)] -> delivered (log w) = [] -> receiver w = Waiting ->
  exists n, (n <= 4)%nat /\
    let w' := run (StartPoll :: Tick later :: replicate n (ReceiverStep sp)) w in
    receiver w' = Waiting /\ log w' = log w ++ [Polled (StatusReady (slot_bytes s))].
Proof.
  intros Hs w Hse Hd Hw. destruct (run_inv _ _ acts _ (start_inv s now Hs)) as (Hb & _ & Hc & _ & Hl & _). fold w in Hb, Hc, Hl.
  assert (state (slot w) = READY) as Hr.
  { rewrite Hd in Hl. case_bool_decide as Et; [done|]. rewrite Hse in Hc. by destruct (settled_ready _ _ _ _ _ _ _ Hc). }
  destruct w as [s' now' c r l]. cbn in *. subst r. destruct s' as [bs d st ci at_ g]. cbn in *. subst bs st.
  destruct (N.leb_spec d (now' + later)) as [Hx|Hx]; [exists 4|exists 3]; (split; [lia|]); cbn;
    unfold with_receiver; cbn; rewrite ?(proj2 (N.leb_le _ _) Hx), ?(proj2 (N.leb_gt _ _) Hx); cbn; by rewrite !app_nil_r.
Qed.

(** ** Wait-freedom

    Every exchange of the other half lowers the rank, so a failed exchange is
    paid for. *)
Definition rank (st : SlotState) : nat := match st with PENDING => 3 | COMMITTING => 2 | CLAIMED => 1 | _ => 0 end.

Definition cancel_cost (at_ : Cancel) (st : SlotState) : nat :=
  match at_ with
  | CancelLoad => rank st + 2
  | CancelSwap seen => rank st + (if bool_decide (st = seen) then 1 else 2)
  end.

Definition receiver_cost (r : Receiver) (st : SlotState) : nat :=
  match r with
  | Waiting | PendingGone => 0
  | PollCheck => rank st + 5
  | PollCancel at_ => cancel_cost at_ st + 2
  | PollLoad => 2
  | PollTake => 1
  | AskCheck => rank st + 4
  | AskCancel at_ => cancel_cost at_ st + 1
  | AskLoad => 1
  | PendingDropping at_ => cancel_cost at_ st
  end.

Definition committer_cost (c : Committer) (st : SlotState) : nat :=
  match c with
  | Held | Gone _ => 0
  | CheckFirst => 15
  | ClaimPending => 14
  | CheckClaim => 13
  | CallAuthority => 12
  | CheckCommit _ => 11
  | Claim _ => 10
  | CheckPublish _ => 9
  | Publish _ => 8
  | Cancelling at_ _ => cancel_cost at_ st + 2
  | Dropping at_ _ => cancel_cost at_ st
  end.

(** A half that is in a call. *)
Definition receiving (w : World) : bool := match receiver w with Waiting | PendingGone => false | _ => true end.
Definition committing (w : World) : bool := match committer w with Held | Gone _ => false | _ => true end.

Definition receiver_turn (a : Action) : bool := match a with ReceiverStep _ => true | _ => false end.
Definition committer_turn (a : Action) : bool := match a with CommitterStep _ _ => true | _ => false end.
Definition spurious_failure (a : Action) : bool := match a with ReceiverStep sp | CommitterStep _ sp => sp | _ => false end.
Definition turns (own : Action -> bool) (acts : list Action) : nat := length (List.filter own acts).

(** The byte only moves down. *)
Definition descends (st st' : SlotState) : Prop := st' = st \/ rank st' < rank st \/ (rank st = 0 /\ rank st' = 0).

Lemma cancel_cost_mono at_ st st' : cancel_inv at_ -> descends st st' -> cancel_cost at_ st' <= cancel_cost at_ st.
Proof.
  intros Hat [->|[H|[H1 H2]]]; [done|destruct at_; cbn; repeat case_bool_decide; subst; lia|].
  destruct at_ as [|x]; cbn; [lia|]. rewrite !bool_decide_false; [lia|by intros ->; destruct x..].
Qed.

(** A step pays one, unless its weak exchange fails for no reason. *)
Definition paid (spurious : bool) : nat := if spurious then 0 else 1.

Lemma cancel_progress sp at_ st next st' : cancel_inv at_ -> cancel_step sp at_ st = (next, st') ->
  match next with Some at' => cancel_cost at' st' + paid sp <= cancel_cost at_ st | None => rank st' = 0 /\ 1 <= cancel_cost at_ st end.
Proof.
  assert (match cancel_loop st with Some at' => cancel_cost at' st = rank st + 1 | None => rank st = 0 end) as Hl.
  { unfold cancel_loop. destruct st; cbn; done. }
  destruct at_ as [|x]; cbn; intros Hx.
  - intros [= <- <-]. destruct (cancel_loop st), sp; cbn; lia.
  - destruct sp; cbn [negb andb paid]; [|case_bool_decide; intros [= <- <-]; [split; [done|lia]|]; destruct (cancel_loop st); lia].
    intros [= <- <-]. case_bool_decide; destruct (cancel_loop st); lia.
Qed.

Lemma cancel_descends sp at_ st next st' : cancel_inv at_ -> cancel_step sp at_ st = (next, st') -> descends st st'.
Proof. intros Hat Hc. destruct (cancel_ok _ _ _ _ _ Hat Hc) as [[->|[Ho ->]] _]; [by left|]. right. left. by destruct st; cbn in *; try done; lia. Qed.

Lemma receive_cost_ok s now sp r : receiver_inv (state s) r ->
  let '(r', st, _) := receive_step (T := T) (E := E) s now sp r in
  descends (state s) st /\ (receiver_cost r (state s) <> 0 -> receiver_cost r' st + paid sp <= receiver_cost r (state s)).
Proof.
  intros H. assert (descends (state s) (state s)) as Hr by by left. assert (paid sp <= 1) as Hpaid by (destruct sp; cbn; lia).
  assert (forall (k : option Cancel -> Receiver) at_ n, cancel_inv at_ -> (forall at' st, receiver_cost (k (Some at')) st = cancel_cost at' st + n) ->
    (forall st, receiver_cost (k None) st <= n) -> let '(next, st) := cancel_step sp at_ (state s) in
    descends (state s) st /\ receiver_cost (k next) st + paid sp <= cancel_cost at_ (state s) + n) as Hk.
  { intros k at_ n Hat Hs Hn. destruct (cancel_step sp at_ (state s)) as [next st] eqn:Ec. split; [by apply (cancel_descends sp at_ _ next)|].
    pose proof (cancel_progress _ _ _ _ _ Hat Ec) as Hp. destruct next; [rewrite Hs; lia|]. specialize (Hn st). lia. }
  destruct r as [| |at_| | | |at_| |at_|]; cbn [receive_step].
  - done.
  - split; [done|]. intros _. destruct (_ <=? _)%N; cbn; lia.
  - specialize (Hk (fun next => match next with Some at_ => PollCancel at_ | None => PollLoad end) at_ 2 H). destruct (cancel_step _ _ _) as [next st].
    destruct Hk as [H1 H2]; [done|done|]. split; [done|auto].
  - destruct (state s); (split; [done|]); cbn; lia.
  - cbn in H. unfold compare_exchange. rewrite bool_decide_true by done. rewrite H. split; [right; right; done|]. cbn. lia.
  - split; [done|]. intros _. destruct (_ <=? _)%N; cbn; lia.
  - specialize (Hk (fun next => match next with Some at_ => AskCancel at_ | None => AskLoad end) at_ 1 H). destruct (cancel_step _ _ _) as [next st].
    destruct Hk as [H1 H2]; [done|done|]. split; [done|auto].
  - split; [done|]. cbn. lia.
  - specialize (Hk (fun next => match next with Some at_ => PendingDropping at_ | None => PendingGone end) at_ 0 H). destruct (cancel_step _ _ _) as [next st].
    destruct Hk as [H1 H2]; [intros; cbn; lia|done|]. split; [done|]. intros _. cbn in *. lia.
  - done.
Qed.

Definition committer_at (c : Committer) : Cancel := match c with Cancelling at_ _ | Dropping at_ _ => at_ | _ => CancelLoad end.

Lemma committer_at_inv d st now ans cl se c : committer_inv d st now ans cl se c -> cancel_inv (committer_at c).
Proof. destruct c as [| | | | |v|v|v|v|at_ r|at_ [r|]|r]; cbn; try done; by intros (? & _). Qed.

Lemma exchange_descends cur new st ok st' : rank new < rank cur -> compare_exchange cur new st = (ok, st') -> descends st st'.
Proof. intros Hr Hx. apply exchange_cases in Hx as [(_ & -> & ->)|(_ & _ & ->)]; [by right; left|by left]. Qed.

Lemma rank_bound st : rank st <= 3.
Proof. destruct st; cbn; lia. Qed.

Lemma commit_cost_ok s now a sp c : cancel_inv (committer_at c) ->
  let '(c', st, _) := commit_step s now a sp c in
  descends (state s) st /\ (committer_cost c (state s) <> 0 -> committer_cost c' st + paid sp <= committer_cost c (state s)).
Proof.
  intros H. assert (descends (state s) (state s)) as Hr by by left. assert (paid sp <= 1) as Hpaid by (destruct sp; cbn; lia). pose proof (rank_bound (state s)) as Hb.
  assert (forall (k : option Cancel -> Committer * list Event) at_ n, cancel_inv at_ -> (forall at' st, committer_cost (k (Some at')).1 st = cancel_cost at' st + n) ->
    (forall st, rank st = 0 -> committer_cost (k None).1 st <= n) -> let '(next, st) := cancel_step sp at_ (state s) in
    descends (state s) st /\ committer_cost (k next).1 st + paid sp <= cancel_cost at_ (state s) + n) as Hk.
  { intros k at_ n Hat Hs Hn. destruct (cancel_step sp at_ (state s)) as [next st] eqn:Ec. split; [by apply (cancel_descends sp at_ _ next)|].
    pose proof (cancel_progress _ _ _ _ _ Hat Ec) as Hp. destruct next; [rewrite Hs; lia|]. specialize (Hn st ltac:(lia)). lia. }
  destruct c as [| | | | |v|v|v|v|at_ r|at_ r|r]; cbn [commit_step committer_at] in *.
  - done.
  - split; [done|]. intros _. destruct (_ <=? _)%N; cbn; lia.
  - destruct (compare_exchange _ _ _) as [ok x] eqn:Ex. split; [by apply (exchange_descends PENDING COMMITTING _ ok); [cbn; lia|]|].
    pose proof (rank_bound x). intros _. destruct ok; cbn; lia.
  - split; [done|]. intros _. destruct (_ <=? _)%N; cbn; lia.
  - split; [done|]. intros _. destruct a; cbn; lia.
  - split; [done|]. intros _. destruct (_ <=? _)%N; cbn; lia.
  - destruct (compare_exchange _ _ _) as [ok x] eqn:Ex. split; [by apply (exchange_descends COMMITTING CLAIMED _ ok); [cbn; lia|]|].
    pose proof (rank_bound x). intros _. destruct ok; cbn; lia.
  - split; [done|]. intros _. destruct (_ <=? _)%N; cbn; lia.
  - destruct (compare_exchange _ _ _) as [ok x] eqn:Ex. split; [by apply (exchange_descends CLAIMED READY _ ok); [cbn; lia|]|].
    pose proof (rank_bound x). intros _. cbn. lia.
  - specialize (Hk (fun next => (match next with Some at_ => Cancelling at_ r | None => leave r end, [])) at_ 2 H). destruct (cancel_step _ _ _) as [next st].
    destruct Hk as [H1 H2]; [done|intros x Hx; cbn; lia|]. split; [done|auto].
  - specialize (Hk (fun next => match next with Some at_ => (Dropping at_ r, []) | None => (Gone r, []) end) at_ 0 H). destruct (cancel_step _ _ _) as [next st].
    destruct Hk as [H1 H2]; [intros; cbn; lia|intros; cbn; lia|]. destruct next; cbn in *; (split; [done|]); intros _; lia.
  - done.
Qed.

Lemma receiver_cost_mono r st st' : receiver_inv st r -> descends st st' -> receiver_cost r st' <= receiver_cost r st.
Proof.
  intros H Hd. assert (rank st' <= rank st) by (destruct Hd as [->|[?|?]]; lia).
  destruct r as [| |at_| | | |at_| |at_|]; cbn in *; try lia; pose proof (cancel_cost_mono at_ st st' H Hd); lia.
Qed.

Lemma committer_cost_mono c st st' : cancel_inv (committer_at c) -> descends st st' -> committer_cost c st' <= committer_cost c st.
Proof.
  intros H Hd. destruct c as [| | | | |v|v|v|v|at_ r|at_ r|r]; cbn in *; try lia; pose proof (cancel_cost_mono at_ st st' H Hd); lia.
Qed.

Definition receiver_left (w : World) : nat := receiver_cost (receiver w) (state (slot w)).
Definition committer_left (w : World) : nat := committer_cost (committer w) (state (slot w)).

Lemma receiving_cost w : receiving w = negb (receiver_left w =? 0).
Proof.
  unfold receiving, receiver_left. assert (forall at_ st, cancel_cost at_ st <> 0) as Hc by (intros [|x] st; cbn; [lia|case_bool_decide; lia]).
  destruct (receiver w) as [| |at_| | | |at_| |at_|]; cbn; symmetry; try done; apply negb_true_iff, Nat.eqb_neq; try lia; specialize (Hc at_ (state (slot w))); lia.
Qed.

Lemma committing_cost w : committing w = negb (committer_left w =? 0).
Proof.
  unfold committing, committer_left. assert (forall at_ st, cancel_cost at_ st <> 0) as Hc by (intros [|x] st; cbn; [lia|case_bool_decide; lia]).
  destruct (committer w) as [| | | | |v|v|v|v|at_ r|at_ r|r]; cbn; symmetry; try done; apply negb_true_iff, Nat.eqb_neq; try lia; specialize (Hc at_ (state (slot w))); lia.
Qed.

(** Someone else's turn costs nothing, one's own is paid. *)
Definition effective (own : Action -> bool) (a : Action) : bool := own a && negb (spurious_failure a).
Definition cost (own : Action -> bool) (a : Action) : nat := if effective own a then 1 else 0.

Lemma act_receiver_left bs d a w : inv bs d w -> receiver_left w <> 0 ->
  receiver_left (act a w) + cost receiver_turn a <= receiver_left w.
Proof.
  intros (_ & _ & Hc & Hr & _) Hn. unfold receiver_left, cost, effective in *. destruct a as [e| | |a sp| | | |sp]; cbn in *; rewrite ?Nat.add_0_r.
  - done.
  - destruct (committer w); done.
  - destruct (committer w); done.
  - pose proof (commit_cost_ok (slot w) (clock w) a sp _ (committer_at_inv _ _ _ _ _ _ _ Hc)) as H. destruct (commit_step _ _ _ _ _) as [[c st] es].
    cbn. apply receiver_cost_mono; [done|apply H].
  - destruct (receiver w) eqn:Er; cbn in *; rewrite ?Er; cbn; lia.
  - destruct (receiver w) eqn:Er; cbn in *; rewrite ?Er; cbn; lia.
  - destruct (receiver w) eqn:Er; cbn in *; rewrite ?Er; cbn; lia.
  - pose proof (receive_cost_ok (slot w) (clock w) sp _ Hr) as H. destruct (receive_step _ _ _ _) as [[r st] es]. cbn.
    destruct H as [_ H]. specialize (H Hn). destruct sp; cbn in *; lia.
Qed.

Lemma act_committer_left bs d a w : inv bs d w -> committer_left w <> 0 ->
  committer_left (act a w) + cost committer_turn a <= committer_left w.
Proof.
  intros (_ & _ & Hc & Hr & _) Hn. apply committer_at_inv in Hc. unfold committer_left, cost, effective in *.
  destruct a as [e| | |a sp| | | |sp]; cbn in *; rewrite ?Nat.add_0_r.
  - done.
  - destruct (committer w) eqn:Er; cbn in *; rewrite ?Er; cbn; lia.
  - destruct (committer w) eqn:Er; cbn in *; rewrite ?Er; cbn; lia.
  - pose proof (commit_cost_ok (slot w) (clock w) a sp _ Hc) as H. destruct (commit_step _ _ _ _ _) as [[c st] es]. cbn.
    destruct H as [_ H]. specialize (H Hn). destruct sp; cbn in *; lia.
  - destruct (receiver w); done.
  - destruct (receiver w); done.
  - destruct (receiver w); done.
  - pose proof (receive_cost_ok (slot w) (clock w) sp _ Hr) as H. destruct (receive_step _ _ _ _) as [[r st] es].
    cbn. apply committer_cost_mono; [done|apply H].
Qed.

Lemma paid_for (left : World -> nat) (own : Action -> bool) bs d :
  (forall a w, inv bs d w -> left w <> 0 -> left (act a w) + cost own a <= left w) ->
  forall acts w, inv bs d w -> left w <= turns (effective own) acts ->
  exists pre post, acts = pre ++ post /\ left (run pre w) = 0.
Proof.
  intros Hstep acts. induction acts as [|a acts IH]; intros w Hi Hl.
  { exists [], []. split; [done|]. unfold turns in Hl. cbn in *. lia. }
  destruct (decide (left w = 0)) as [Hz|Hz]; [by exists [], (a :: acts)|].
  destruct (IH (act a w)) as (pre & post & -> & Hp); [by apply act_inv| |by exists (a :: pre), post].
  specialize (Hstep a w Hi Hz). unfold turns, cost in *. cbn in Hl. destruct (effective own a); cbn in Hl; lia.
Qed.

(** C26: both halves are wait-free.  From every reachable state and under every
    schedule, a poll, an [is_cancelled] or a drop of the pending half is over
    once it has had 8 steps of its own, and a commit with its cancellation and
    its destructor once it has had 15, however the other half interferes; a
    weak exchange that fails for no reason ([compare_exchange_weak] may) is not
    counted, and does not lengthen the call. *)
Theorem calls_are_wait_free s now before acts : state s = PENDING ->
  let w := run before (start s now) in
  (8 <= turns (effective receiver_turn) acts -> exists pre post, acts = pre ++ post /\ receiving (run pre w) = false) /\
  (15 <= turns (effective committer_turn) acts -> exists pre post, acts = pre ++ post /\ committing (run pre w) = false).
Proof.
  intros Hs w. pose proof (run_inv _ _ before _ (start_inv s now Hs)) as Hi. fold w in Hi. pose proof (rank_bound (state (slot w))) as Hb.
  assert (forall at_, cancel_cost at_ (state (slot w)) <= 5) as Hc by (intros [|x]; cbn; [lia|case_bool_decide; lia]).
  split; intros Ht.
  - destruct (paid_for receiver_left receiver_turn _ _ (act_receiver_left _ _) acts w Hi) as (pre & post & -> & Hz).
    + unfold receiver_left. destruct (receiver w) as [| |at_| | | |at_| |at_|]; cbn; try lia; specialize (Hc at_); lia.
    + exists pre, post. by rewrite receiving_cost, Hz.
  - destruct (paid_for committer_left committer_turn _ _ (act_committer_left _ _) acts w Hi) as (pre & post & -> & Hz).
    + unfold committer_left. destruct (committer w) as [| | | | |v|v|v|v|at_ r|at_ r|r]; cbn; try lia; specialize (Hc at_); lia.
    + exists pre, post. by rewrite committing_cost, Hz.
Qed.
End Proofs.

(** ** The place in the queue *)
Section ReaderProofs.
Context {Command : Type} (input : list N -> Command).
Abbreviation Queued := (@Queued Command).
Abbreviation Reader := (@Reader Command).
Abbreviation Received := (@Received Command).

(** What is still to be read, the reservation in hand first. *)
Definition unread (r : Reader) : list Queued := match reserved r with Some id => [QueuedReservation id] | None => [] end ++ queue r.

(** The commands a run of the queue gives: each command itself, and for each
    reservation its bytes or nothing. *)
Inductive resolves (bytes_of : nat -> list N) : list Queued -> list Command -> Prop :=
  | resolves_nil : resolves bytes_of [] []
  | resolves_command c q out : resolves bytes_of q out -> resolves bytes_of (QueuedCommand c :: q) (c :: out)
  | resolves_given_up id q out : resolves bytes_of q out -> resolves bytes_of (QueuedReservation id :: q) out
  | resolves_delivered id q out : resolves bytes_of q out -> resolves bytes_of (QueuedReservation id :: q) (input (bytes_of id) :: out).

Definition commands (got : Received) : list Command := match got with GotCommand c => [c] | _ => [] end.

Lemma resolves_app bo a b x y : resolves bo a x -> resolves bo b y -> resolves bo (a ++ b) (x ++ y).
Proof. intros Ha Hb. induction Ha; cbn; [done|by constructor..]. Qed.

(** A call reads some of what is unread. *)
Definition reads (bytes_of : nat -> list N) (r : Reader) (got : Received) (r' : Reader) : Prop :=
  exists taken, unread r = taken ++ unread r' /\ resolves bytes_of taken (commands got).

Definition polls_right (bytes_of : nat -> list N) (poll : nat -> AutomationInputStatus) : Prop := forall id bs, poll id = StatusReady bs -> bs = bytes_of id.
Definition looks_right (bytes_of : nat -> list N) (look : nat -> nat -> Look) : Prop := forall n id bs, polled (look n id) = StatusReady bs -> bs = bytes_of id.

Lemma reads_nothing bo r got : commands got = [] -> reads bo r got r.
Proof. intros Hg. exists []. rewrite Hg. split; [done|constructor]. Qed.

Lemma receive_reads bo poll r : polls_right bo poll -> reads bo r (receive_command input poll r).1 (receive_command input poll r).2.
Proof.
  intros Hp. unfold receive_command, channel_next. destruct r as [q dis [id|]]; cbn.
  - destruct (poll id) as [|bs|] eqn:Epoll; cbn.
    + by apply reads_nothing.
    + exists [QueuedReservation id]. split; [done|]. rewrite (Hp id bs Epoll). apply resolves_delivered. constructor.
    + exists [QueuedReservation id]. split; [done|]. repeat constructor.
  - destruct q as [|[c|id] q]; cbn.
    + apply reads_nothing. by destruct dis.
    + exists [QueuedCommand c]. split; [done|]. repeat constructor.
    + by exists []; split; [|constructor].
Qed.

(** Steps before the one that returns. *)
Lemma reads_after bo r skipped r' got r'' : unread r = skipped ++ unread r' -> resolves bo skipped [] -> reads bo r' got r'' -> reads bo r got r''.
Proof.
  intros Hu Hr (tk & Ht & Hg). exists (skipped ++ tk). rewrite Hu, Ht, app_assoc. split; [done|]. by apply (resolves_app bo skipped tk [] (commands got)).
Qed.

Definition queue_cost (r : Reader) : nat := 2 * length (queue r) + match reserved r with Some _ => 2 | None => 1 end.

Lemma try_recv_reads bo look : looks_right bo look -> forall fuel n r errors, queue_cost r <= fuel ->
  exists got r' errors', try_recv input fuel look n r errors = Some (got, r', errors') /\ reads bo r got r'.
Proof.
  intros Hl fuel. induction fuel as [|fuel IH]; intros n r errors Hf; [destruct r as [q dis [id|]]; cbn in Hf; lia|].
  destruct r as [q dis [id|]]; unfold queue_cost in *; cbn in *.
  - assert (forall e, exists got r' errors', (if S n =? MAX_DISCARDED_AUTOMATION_INPUTS_PER_POLL then Some (GotNothing, mkReader q dis None, e)
      else try_recv input fuel look (S n) (mkReader q dis None) e) = Some (got, r', errors') /\ reads bo (mkReader q dis (Some id)) got r') as Hd.
    { intros e. assert (unread (mkReader q dis (Some id)) = [QueuedReservation id] ++ unread (mkReader q dis None)) as Hu by done.
      destruct (_ =? _); [|destruct (IH (S n) (mkReader q dis None) e) as (got & r' & e' & -> & Hr); [cbn; lia|]];
        (do 3 eexists; split; [done|]); apply (reads_after _ _ _ _ _ _ Hu); [repeat constructor|by apply reads_nothing|repeat constructor|done]. }
    destruct (is_cancelled (look n id)); [apply Hd|]. destruct (lock (look n id)); [|by do 3 eexists; split; [done|apply reads_nothing]|apply Hd].
    destruct (attached (look n id)); [|apply Hd]. destruct (polled (look n id)) as [|bs|] eqn:Epoll; [by do 3 eexists; split; [done|apply reads_nothing]| |apply Hd].
    do 3 eexists. split; [done|]. exists [QueuedReservation id]. split; [done|]. rewrite (Hl n id bs Epoll). apply resolves_delivered. constructor.
  - destruct q as [|[c|id] q]; cbn.
    + do 3 eexists. split; [done|]. apply reads_nothing. by destruct dis.
    + do 3 eexists. split; [done|]. exists [QueuedCommand c]. split; [done|]. repeat constructor.
    + destruct (IH n (mkReader q dis (Some id)) errors) as (got & r' & e' & -> & Hr); [cbn in *; lia|]. do 3 eexists. split; [done|exact Hr].
Qed.

(** ** A backend's life: commands are queued, and read by calls *)
Inductive ReaderOp := Queue (q : Queued) | ReceiveCommand (poll : nat -> AutomationInputStatus) | TryRecv (look : nat -> nat -> Look).

Definition reader_op (op : ReaderOp) (r : Reader) : option (list Command * Reader) :=
  match op with
  | Queue q => Some ([], mkReader (queue r ++ [q]) (disconnected r) (reserved r))
  | ReceiveCommand poll => let '(got, r) := receive_command input poll r in Some (commands got, r)
  | TryRecv look => '(got, r, _) ← try_recv input (queue_cost r) look 0 r 0; Some (commands got, r)
  end.

Fixpoint reader_run (ops : list ReaderOp) (r : Reader) : option (list Command * Reader) :=
  match ops with
  | [] => Some ([], r)
  | op :: ops => '(out, r) ← reader_op op r; '(more, r) ← reader_run ops r; Some (out ++ more, r)
  end.

Definition op_right (bytes_of : nat -> list N) (op : ReaderOp) : Prop :=
  match op with Queue _ => True | ReceiveCommand poll => polls_right bytes_of poll | TryRecv look => looks_right bytes_of look end.

Definition queued (ops : list ReaderOp) : list Queued := omap (fun op => match op with Queue q => Some q | _ => None end) ops.

Lemma reader_run_reads bo ops : Forall (op_right bo) ops -> forall r,
  exists out r' taken, reader_run ops r = Some (out, r') /\ unread r ++ queued ops = taken ++ unread r' /\ resolves bo taken out.
Proof.
  intros Hf. induction Hf as [|op ops Ho Hf IH]; intros r.
  { exists [], r, []. cbn. rewrite app_nil_r. split_and!; [done|done|constructor]. }
  assert (forall got r1, reads bo r got r1 -> exists out r' taken, ('(more, r) ← reader_run ops r1; Some (commands got ++ more, r)) = Some (out, r') /\
    unread r ++ queued ops = taken ++ unread r' /\ resolves bo taken out) as Hcall.
  { intros got r1 (tk & Hu & Hr). destruct (IH r1) as (out & r' & tk' & E1 & Hu' & Hr'). rewrite E1. cbn.
    exists (commands got ++ out), r', (tk ++ tk'). split; [done|]. split; [by rewrite Hu, <- !app_assoc, Hu'|by apply resolves_app]. }
  destruct op as [q|poll|look]; cbn [reader_run reader_op queued omap list_omap].
  - cbn [mbind option_bind]. destruct (IH (mkReader (queue r ++ [q]) (disconnected r) (reserved r))) as (out & r' & tk & E1 & Hu & Hr).
    rewrite E1. cbn. exists out, r', tk. split; [done|]. split; [|done]. unfold unread in *. cbn in *. rewrite <- !app_assoc in Hu. rewrite <- !app_assoc. exact Hu.
  - pose proof (receive_reads bo poll r Ho) as Hr. destruct (receive_command input poll r) as [got r1]. by apply Hcall.
  - destruct (try_recv_reads bo look Ho (queue_cost r) 0 r 0 ltac:(done)) as (got & r1 & e & E1 & Hr). rewrite E1. by apply Hcall.
Qed.

(** Reserved input keeps its place in the queue.  Whatever is queued and
    whenever the backend reads, with either reader, the calls return, and the
    commands they give are exactly those of the part of the queue that was
    read, in its order: each ordinary command once, and in the place of each
    reservation its bytes or nothing.  Nothing overtakes a reservation, and
    nothing is lost behind it. *)
Theorem reserved_input_keeps_its_place bytes_of ops : Forall (op_right bytes_of) ops ->
  exists out r taken, reader_run ops (mkReader [] false None) = Some (out, r) /\ queued ops = taken ++ unread r /\ resolves bytes_of taken out.
Proof. intros Hf. apply (reader_run_reads bytes_of ops Hf (mkReader [] false None)). Qed.
End ReaderProofs.

(** ** The attachment of a reservation *)
Definition reached (g : N) (e : AutomationEpoch) : Prop := (g <= generation e)%N \/ past g e.

Lemma step_reached g x w : reached g (snd w) -> reached g (snd (step x w)).
Proof.
  destruct w as [l e]. cbn. intros H. destruct x as [run|run| |]; cbn.
  - unfold transition. destruct (automation_admission_lock l); [right; by apply transition_under_past|by right; left].
  - destruct (poisoned l); [done|]. right. by apply transition_under_past.
  - unfold capture. destruct (automation_admission_lock l); [done|by right; left].
  - done.
Qed.

Lemma steps_reached g xs : forall w, reached g (snd w) -> reached g (snd (steps xs w)).
Proof. induction xs as [|x xs IH]; intros w H; [done|]. cbn. apply IH. by apply step_reached. Qed.

Lemma transition_leaves g x w : is_transition x = true -> poisoned (fst w) = false -> reached g (snd w) -> past g (snd (step x w)).
Proof.
  destruct w as [l e]. destruct x as [run|run| |]; try done; cbn; intros _ Hl H; unfold transition, automation_admission_lock; rewrite Hl;
    by apply transition_under_past.
Qed.

(** A reservation dies with its attachment.  A reservation is made only of
    one to [MAX_IO_CHUNK_BYTES] bytes, for a running attachment, under the
    admission lock; it matches that attachment, and after the attachment's
    next transition, whatever comes before or later, it never matches any
    attachment again and its bytes may not be written. *)
Theorem reservation_dies_with_its_attachment add l e now bytes controller id s :
  automation_input_slot add l e now bytes controller id = Some (inr s) ->
  (state s = PENDING /\ slot_bytes s = bytes /\ 0 < N.of_nat (length bytes) <= MAX_IO_CHUNK_BYTES)%N /\
  (forall epochs, epochs id = e -> matches_attachment epochs s controller id (attachment_generation s) = true) /\
  (forall before x after epochs, poisoned (fst (steps before (l, e))) = false -> is_transition x = true ->
    epochs id = snd (steps after (step x (steps before (l, e)))) ->
    attachment_is_current epochs s = false /\ forall c i g, matches_attachment epochs s c i g = false).
Proof.
  unfold automation_input_slot. destruct (N.eqb_spec (N.of_nat (length bytes)) 0) as [|Hz]; [done|].
  destruct (N.ltb_spec MAX_IO_CHUNK_BYTES (N.of_nat (length bytes))) as [|Hm]; [done|]. destruct (controller =? 0)%N; [done|].
  destruct (try_automation_admission_lock l) as [[]|l']; [done|done|]. unfold capture_under_admission.
  destruct (failed e) eqn:Ef, (running e) eqn:Er; try done. cbn [orb negb]. destruct (add now RESERVATION_LIFETIME) as [d|]; [|done]. intros [= <-]. split_and!; try done.
  - lia.
  - intros epochs Ee. unfold matches_attachment, is_current. cbn. by rewrite Ee, Ef, Er, !N.eqb_refl, Nat.eqb_refl.
  - intros before x after epochs Hl Hx Ee.
    assert (is_current (epochs id) (generation e) = false) as Hn.
    { rewrite Ee. apply past_not_current, steps_past, transition_leaves; [done|done|]. apply steps_reached. by left. }
    unfold attachment_is_current, matches_attachment. cbn. split; [done|]. intros c i g. destruct (N.eqb_spec (generation e) g) as [<-|]; [rewrite Hn|];
      by rewrite ?andb_false_r.
Qed.

(** ** A reservation *)
Definition sample_epoch : AutomationEpoch := mkEpoch 7 true false.
Definition sample_slot : Slot := mkSlot (bytes "ls") 250000000 PENDING 1 0 7.

(** A commit that succeeds: eight accesses, and the destructor's load. *)
Definition sample_commit : list (Action unit unit) := StartCommit :: replicate 9 (CommitterStep (AnswerOk tt) false).

Lemma reserved_input_is_delivered_once_witness :
  let w := run (sample_commit ++ StartPoll :: replicate 3 (ReceiverStep false)) (start sample_slot 0) in
  delivered (log w) = [bytes "ls"] /\ (delivered (log w) = [] \/ delivered (log w) = [bytes "ls"]).
Proof.
  split; [vm_compute; reflexivity|].
  destruct (reserved_input_is_delivered_once (T := unit) (E := unit) sample_slot 0 (sample_commit ++ StartPoll :: replicate 3 (ReceiverStep false)) eq_refl) as [[H|[H _]] _];
    [left|right]; exact H.
Defined.

Lemma committed_input_is_delivered_witness :
  exists n, (n <= 4)%nat /\
    log (run (StartPoll :: Tick 300000000 :: replicate n (ReceiverStep true)) (run sample_commit (start sample_slot 0))) =
    log (run sample_commit (start sample_slot 0)) ++ [Polled (StatusReady (bytes "ls"))].
Proof.
  destruct (committed_input_is_delivered (T := unit) (E := unit) sample_slot 0 sample_commit 300000000 true tt) as (n & Hn & _ & H);
    [reflexivity..|]. exists n. split; [exact Hn|exact H].
Defined.

(** A commit that meets a drop of the pending half after its claim. *)
Lemma calls_are_wait_free_witness :
  exists pre post, replicate 15 (CommitterStep (AnswerOk tt) false) = pre ++ post /\
    committing (run pre (run [StartCommit; CommitterStep (AnswerOk tt) false; CommitterStep (AnswerOk tt) false; DropPending; ReceiverStep false; ReceiverStep false]
      (start (E := unit) sample_slot 0))) = false.
Proof.
  destruct (calls_are_wait_free (T := unit) (E := unit) sample_slot 0
    [StartCommit; CommitterStep (AnswerOk tt) false; CommitterStep (AnswerOk tt) false; DropPending; ReceiverStep false; ReceiverStep false]
    (replicate 15 (CommitterStep (AnswerOk tt) false)) eq_refl) as [_ H].
  apply H. reflexivity.
Defined.

Lemma reserved_input_keeps_its_place_witness :
  exists out r taken, reader_run (Command := list N) (fun bs => bs)
    [Queue (QueuedCommand (bytes "a")); Queue (QueuedReservation 0); Queue (QueuedCommand (bytes "b"));
     TryRecv (fun _ _ => mkLook false LockTaken true StatusPending); TryRecv (fun _ _ => mkLook false LockTaken true StatusPending);
     TryRecv (fun _ _ => mkLook false LockTaken true (StatusReady (bytes "ls"))); ReceiveCommand (fun _ => StatusPending)] (mkReader [] false None) = Some (out, r) /\
    [QueuedCommand (bytes "a"); QueuedReservation 0; QueuedCommand (bytes "b")] = taken ++ unread r /\
    resolves (fun bs => bs) (fun _ => bytes "ls") taken out.
Proof.
  apply (reserved_input_keeps_its_place (Command := list N) (fun bs => bs) (fun _ => bytes "ls")).
  repeat (constructor; [first [exact I|intros n id bs; cbn; congruence|intros id bs; cbn; congruence]|]). constructor.
Defined.

Lemma reservation_dies_with_its_attachment_witness :
  matches_attachment (fun _ => sample_epoch) sample_slot 1 0 7 = true /\
  attachment_is_current (fun _ => snd (step (Transition true) (mkAdmission false false, sample_epoch))) sample_slot = false.
Proof.
  destruct (reservation_dies_with_its_attachment (fun a b => Some (a + b)%N) (mkAdmission false false) sample_epoch 0 (bytes "ls") 1 0 sample_slot eq_refl) as (_ & H1 & H2).
  split; [exact (H1 (fun _ => sample_epoch) eq_refl)|].
  exact (proj1 (H2 [] (Transition true) [] (fun _ => snd (step (Transition true) (mkAdmission false false, sample_epoch))) eq_refl eq_refl eq_refl)).
Defined.
