(* ===== verification/SftpPath.v ===== *)
(** * Names and paths of file transfers ([festerm-sftp/src/path.rs])

    The checks of a single name, the components of a path inside the local
    sandbox, and the textual normalisation of a remote path.  A text is the
    list of its characters; [text_len] is its size in bytes. *)

From Stdlib Require Import NArith Bool.
From S2P Require Import Prelude Cell Hyperlink.

Definition MAX_NAME_BYTES : N := 255.
Definition MAX_PATH_BYTES : N := 4096.
Definition MAX_PATH_DEPTH : nat := 128.
Definition SLASH : N := 47.
Definition BACKSLASH : N := 92.
Definition DOT_NAME : list N := bytes ".".
Definition PARENT_NAME : list N := bytes "..".

Inductive SftpError := InvalidPath (message : list N).

Definition contains (c : N) (t : list N) : bool := existsb (N.eqb c) t.

Definition is_bidi_or_invisible_control (c : N) : bool :=
  (c =? 1564)%N || in_range 8203 8207 c || in_range 8234 8238 c || in_range 8294 8297 c || (c =? 65279)%N.

Definition name_problem (name : list N) : option (list N) :=
  if beq name [] then Some (bytes "empty name")
  else if beq name DOT_NAME || beq name PARENT_NAME then Some (bytes "dot name")
  else if (MAX_NAME_BYTES <? text_len name)%N then Some (bytes "name too long")
  else if contains 0 name then Some (bytes "NUL in name")
  else if contains SLASH name || contains BACKSLASH name then Some (bytes "path separator in name")
  else if existsb is_control name then Some (bytes "control character in name")
  else if existsb is_bidi_or_invisible_control name then Some (bytes "bidirectional or invisible control character in name")
  else None.

Definition display_name (name : list N) : list N :=
  map (fun c => if is_control c || is_bidi_or_invisible_control c then REPLACEMENT_CHARACTER else c) name.

Definition validate_name (name : list N) : SftpError + unit :=
  match name_problem name with
  | None => inr tt
  | Some reason => inl (InvalidPath (reason ++ bytes ": " ++ display_name name))
  end.

(** [join("/")]. *)
Fixpoint join_parts (parts : list (list N)) : list N :=
  match parts with
  | [] => []
  | [part] => part
  | part :: rest => part ++ SLASH :: join_parts rest
  end.

(** ** Paths in the sandbox *)
Definition local_part (part : list N) (parts : list (list N)) : SftpError + list (list N) :=
  if beq part [] || beq part DOT_NAME then inr parts
  else match validate_name part with
       | inl e => inl e
       | inr _ => inr (parts ++ [part])
       end.

Definition local_components (relative : list N) : SftpError + list (list N) :=
  if (MAX_PATH_BYTES <? text_len relative)%N then inl (InvalidPath (bytes "path too long"))
  else if starts_with [SLASH] relative && beq (trim_start SLASH relative) [] then inr []
  else match try_for_each local_part (split_on SLASH relative) [] with
       | inl e => inl e
       | inr parts => if MAX_PATH_DEPTH <? length parts then inl (InvalidPath (bytes "path too deep")) else inr parts
       end.

Definition normalize_local (relative : list N) : SftpError + list N :=
  match local_components relative with inl e => inl e | inr parts => inr (join_parts parts) end.

Definition join_local (dir name : list N) : SftpError + list N :=
  match validate_name name with
  | inl e => inl e
  | inr _ =>
      match normalize_local dir with
      | inl e => inl e
      | inr dir => inr (if beq dir [] then name else dir ++ SLASH :: name)
      end
  end.

Definition parent_local (path : list N) : option (list N) :=
  match local_components path with
  | inl _ => None
  | inr [] => None
  | inr parts => Some (join_parts (take (length parts - 1) parts))
  end.

(** ** Remote paths *)
Definition remote_part (absolute : bool) (part : list N) (parts : list (list N)) : SftpError + list (list N) :=
  if beq part [] || beq part DOT_NAME then inr parts
  else if beq part PARENT_NAME then
    match parts with
    | [] => if absolute then inr [] else inl (InvalidPath (bytes "relative remote path escapes its base"))
    | _ => inr (take (length parts - 1) parts)
    end
  else if (MAX_NAME_BYTES <? text_len part)%N then inl (InvalidPath (bytes "remote name too long"))
  else inr (parts ++ [part]).

Definition normalize_remote (path : list N) : SftpError + list N :=
  if beq path [] then inl (InvalidPath (bytes "empty remote path"))
  else if (MAX_PATH_BYTES <? text_len path)%N then inl (InvalidPath (bytes "remote path too long"))
  else if contains 0 path then inl (InvalidPath (bytes "NUL in remote path"))
  else
    let absolute := starts_with [SLASH] path in
    match try_for_each (remote_part absolute) (split_on SLASH path) [] with
    | inl e => inl e
    | inr parts =>
        if MAX_PATH_DEPTH <? length parts then inl (InvalidPath (bytes "remote path too deep"))
        else inr (if absolute then SLASH :: join_parts parts else match parts with [] => DOT_NAME | _ => join_parts parts end)
    end.

Definition join_remote (dir name : list N) : SftpError + list N :=
  match validate_name name with
  | inl e => inl e
  | inr _ =>
      match normalize_remote dir with
      | inl e => inl e
      | inr dir => inr (if ends_with_any [SLASH] dir then dir ++ name else dir ++ SLASH :: name)
      end
  end.

(** [str::rfind] of a character: what is before its last occurrence. *)
Fixpoint before_last (c : N) (t : list N) : option (list N) :=
  match t with
  | [] => None
  | x :: t => match before_last c t with
              | Some before => Some (x :: before)
              | None => if (x =? c)%N then Some [] else None
              end
  end.

Definition parent_remote (path : list N) : option (list N) :=
  match normalize_remote path with
  | inl _ => None
  | inr path =>
      if beq path [SLASH] || beq path DOT_NAME then None
      else match before_last SLASH path with
           | Some [] => Some [SLASH]
           | Some before => Some before
           | None => Some DOT_NAME
           end
  end.

Definition file_name_remote (path : list N) : SftpError + list N :=
  match normalize_remote path with
  | inl e => inl e
  | inr path =>
      let name := default [] (list.last (split_on SLASH path)) in
      match validate_name name with inl e => inl e | inr _ => inr name end
  end.
