(* ===== verification/SftpPathSpec.v ===== *)
(** * Transfer paths stay where they belong

    The components of a local path are valid names, so it cannot leave the
    sandbox; a normalised remote path leads where the path it came from leads;
    and joining a name can be undone. *)

From Stdlib Require Import NArith Bool.
From S2P Require Import Prelude Cell Hyperlink SftpPath.

(** ** Splitting and joining *)
Definition no_slash (part : list N) : Prop := contains SLASH part = false.

Lemma no_slash_cons c part : no_slash (c :: part) <-> c <> SLASH /\ no_slash part.
Proof. unfold no_slash, contains. cbn [existsb]. rewrite orb_false_iff, N.eqb_neq. split; intros [H1 H2]; split; congruence. Qed.

Lemma split_no_slash part rest : no_slash part -> split_on SLASH (part ++ SLASH :: rest) = part :: split_on SLASH rest.
Proof.
  induction part as [|c part IH]; intros H; cbn [app split_on]; [done|]. apply no_slash_cons in H as [Hc H].
  rewrite (proj2 (N.eqb_neq _ _) Hc), IH; done.
Qed.

Lemma split_one part : no_slash part -> split_on SLASH part = [part].
Proof.
  induction part as [|c part IH]; intros H; cbn [split_on]; [done|]. apply no_slash_cons in H as [Hc H].
  by rewrite (proj2 (N.eqb_neq _ _) Hc), IH.
Qed.

Lemma split_join parts : Forall no_slash parts -> parts <> [] -> split_on SLASH (join_parts parts) = parts.
Proof.
  induction 1 as [|p [|q parts] Hp Hps IH]; intros Hn; [done|by apply split_one|].
  change (join_parts (p :: q :: parts)) with (p ++ SLASH :: join_parts (q :: parts)). rewrite split_no_slash by done. by rewrite IH.
Qed.

Lemma split_parts t : Forall no_slash (split_on SLASH t).
Proof.
  induction t as [|c t IH]; cbn [split_on]; [by repeat constructor|]. destruct (N.eqb_spec c SLASH) as [|Hc]; [by constructor|].
  destruct (split_on SLASH t) as [|p ps]; [inversion IH|inversion_clear IH; constructor; [by apply no_slash_cons|done]].
  constructor; [by apply no_slash_cons|done].
Qed.

(** The room parts take in a joined path, one byte each for a separator. *)
Fixpoint weight (parts : list (list N)) : N := match parts with [] => 0%N | p :: parts => (text_len p + 1 + weight parts)%N end.

Lemma weight_app a b : weight (a ++ b) = (weight a + weight b)%N.
Proof. induction a as [|p a IH]; cbn [weight app]; lia. Qed.

Lemma weight_join parts : parts <> [] -> (text_len (join_parts parts) + 1)%N = weight parts.
Proof.
  induction parts as [|p [|q parts] IH]; intros H; [done|cbn [weight join_parts]; lia|].
  change (join_parts (p :: q :: parts)) with (p ++ SLASH :: join_parts (q :: parts)). rewrite text_len_app. cbn [text_len weight] in *.
  specialize (IH ltac:(done)). change (len_utf8 SLASH) with 1%N. lia.
Qed.

Lemma weight_split t : weight (split_on SLASH t) = (text_len t + 1)%N.
Proof.
  induction t as [|c t IH]; cbn [split_on]; [done|]. destruct (N.eqb_spec c SLASH) as [->|Hc].
  - cbn [weight text_len]. rewrite IH. change (len_utf8 SLASH) with 1%N. lia.
  - destruct (split_on SLASH t) as [|p ps]; cbn [weight text_len] in *; lia.
Qed.

(** ** Local paths *)
Definition valid (name : list N) : Prop := name_problem name = None.

Lemma valid_name name : valid name ->
  name <> [] /\ name <> DOT_NAME /\ name <> PARENT_NAME /\ (text_len name <= MAX_NAME_BYTES)%N /\ contains 0 name = false /\ no_slash name /\
  contains BACKSLASH name = false /\ Forall (fun c => is_control c = false /\ is_bidi_or_invisible_control c = false) name.
Proof.
  unfold valid, name_problem, beq. repeat case_bool_decide; cbn [orb]; try done. destruct (N.ltb_spec MAX_NAME_BYTES (text_len name)); [done|].
  destruct (contains 0 name) eqn:E0; [done|]. destruct (contains SLASH name) eqn:E1; [done|]. destruct (contains BACKSLASH name) eqn:E2; [done|].
  destruct (existsb is_control name) eqn:E3; [done|]. destruct (existsb is_bidi_or_invisible_control name) eqn:E4; [done|]. intros _. split_and!; try done.
  apply list.Forall_forall. intros c Hc. apply list_elem_of_In in Hc. split; apply not_true_iff_false; intros Ht.
  - apply not_true_iff_false in E3. apply E3, existsb_exists. by exists c.
  - apply not_true_iff_false in E4. apply E4, existsb_exists. by exists c.
Qed.

Lemma validate_valid name : validate_name name = inr tt <-> valid name.
Proof. unfold validate_name, valid. by destruct (name_problem name). Qed.

Definition kept (part : list N) : bool := negb (beq part [] || beq part DOT_NAME).

Lemma local_part_kept p acc : local_part p acc = if kept p then match validate_name p with inl e => inl e | inr _ => inr (acc ++ [p]) end else inr acc.
Proof. unfold local_part, kept. by destruct (_ || _). Qed.

Lemma local_loop ps : forall acc out, try_for_each local_part ps acc = inr out -> out = acc ++ List.filter kept ps /\ Forall valid (List.filter kept ps).
Proof.
  induction ps as [|p ps IH]; intros acc out; cbn [try_for_each List.filter].
  { intros [= <-]. by rewrite app_nil_r. }
  rewrite local_part_kept. destruct (kept p); cbn [mbind sum_bind]; [|apply IH].
  destruct (validate_name p) as [e|[]] eqn:Ev; cbn [mbind sum_bind]; [done|]. intros H. apply IH in H as [-> H]. rewrite <- app_assoc. split; [done|].
  constructor; [by apply validate_valid|done].
Qed.

Lemma local_loop_valid ps acc : Forall valid ps -> try_for_each local_part ps acc = inr (acc ++ ps).
Proof.
  intros H. revert acc. induction H as [|p ps Hp Hps IH]; intros acc; cbn; [by rewrite app_nil_r|]. unfold local_part.
  pose proof (valid_name p Hp) as (H1 & H2 & _). unfold beq. rewrite !bool_decide_false by done. cbn. rewrite (proj2 (validate_valid p) Hp). cbn.
  rewrite IH, <- app_assoc. done.
Qed.

Lemma filter_weight f ps : (weight (List.filter f ps) <= weight ps)%N.
Proof. induction ps as [|p ps IH]; cbn [weight List.filter]; [lia|]. destruct (f p); cbn [weight]; lia. Qed.

(** A text that does not begin with a separator. *)
Lemma starts_slash t : starts_with [SLASH] t = match t with c :: _ => (c =? SLASH)%N | [] => false end.
Proof. destruct t as [|c t]; [done|]. unfold starts_with. cbn [strip_prefix]. rewrite (N.eqb_sym SLASH c). by destruct (c =? SLASH)%N. Qed.

Lemma join_starts p parts : p <> [] -> no_slash p -> starts_with [SLASH] (join_parts (p :: parts)) = false.
Proof.
  intros Hp Hs. destruct p as [|c p]; [done|]. apply no_slash_cons in Hs as [Hc _].
  rewrite starts_slash. destruct parts; cbn; by apply N.eqb_neq.
Qed.

Lemma local_components_join parts : Forall valid parts -> (length parts <= MAX_PATH_DEPTH)%nat -> (text_len (join_parts parts) <= MAX_PATH_BYTES)%N ->
  local_components (join_parts parts) = inr parts.
Proof.
  intros Hv Hl Ht. unfold local_components. rewrite (proj2 (N.ltb_ge _ _) Ht). destruct parts as [|p parts]; [done|].
  pose proof (Forall_inv Hv) as Hp. apply valid_name in Hp as (H1 & _ & _ & _ & _ & H2 & _). rewrite join_starts by done. cbn [andb].
  rewrite split_join; [|by apply (list.Forall_impl _ _ _ Hv); intros x (_ & _ & _ & _ & _ & ? & _)%valid_name|done].
  rewrite local_loop_valid by done. cbn [app]. by rewrite (proj2 (Nat.ltb_ge _ _) Hl).
Qed.

Lemma local_components_ok path parts : local_components path = inr parts ->
  Forall valid parts /\ (length parts <= MAX_PATH_DEPTH)%nat /\ (text_len (join_parts parts) <= MAX_PATH_BYTES)%N.
Proof.
  unfold local_components. destruct (N.ltb_spec MAX_PATH_BYTES (text_len path)) as [|Ht]; [done|].
  destruct (starts_with _ _ && _); [intros [= <-]; split_and!; [constructor|cbn; lia|cbn; lia]|].
  destruct (try_for_each _ _ _) as [e|out] eqn:El; [done|]. apply local_loop in El as [-> Hv]. cbn [app].
  destruct (Nat.ltb_spec MAX_PATH_DEPTH (length (List.filter kept (split_on SLASH path)))) as [|Hl]; [done|]. intros [= <-]. split_and!; [done|lia|].
  destruct (List.filter kept (split_on SLASH path)) as [|p ps] eqn:Ef; [cbn; lia|].
  pose proof (weight_join (p :: ps) ltac:(done)) as Hw. pose proof (filter_weight kept (split_on SLASH path)) as Hf. rewrite Ef, weight_split in Hf. lia.
Qed.

Lemma take_snoc {A} (l : list A) x : take (length (l ++ [x]) - 1) (l ++ [x]) = l.
Proof. rewrite length_app. cbn. rewrite Nat.add_sub. by apply take_app_length. Qed.

Lemma join_snoc parts name : parts <> [] -> join_parts (parts ++ [name]) = join_parts parts ++ SLASH :: name.
Proof.
  induction parts as [|p [|q parts] IH]; intros H; [done|done|].
  change (join_parts ((p :: q :: parts) ++ [name])) with (p ++ SLASH :: join_parts ((q :: parts) ++ [name])). rewrite IH by done.
  change (join_parts (p :: q :: parts)) with (p ++ SLASH :: join_parts (q :: parts)). by rewrite <- app_assoc.
Qed.

Lemma join_nil parts : Forall (fun p => p <> []) parts -> join_parts parts = [] -> parts = [].
Proof. destruct 1 as [|p [|q parts] Hp _]; [done|cbn; by destruct p|]. cbn. by destruct p. Qed.

(** C21: a local path cannot leave the sandbox.  Every path that is accepted is
    a list of at most [MAX_PATH_DEPTH] names, none of them empty, a dot or a
    double dot, none with a separator, a control or an invisible character;
    written out again it is accepted as the same list; and joining a name and
    taking the parent gives the directory back, unless the result is over the
    limits of length or depth. *)
Theorem local_paths_stay_inside path parts : local_components path = inr parts ->
  Forall (fun name => name <> [] /\ name <> DOT_NAME /\ name <> PARENT_NAME /\ no_slash name /\ contains BACKSLASH name = false /\
    (text_len name <= MAX_NAME_BYTES)%N /\ Forall (fun c => is_control c = false /\ is_bidi_or_invisible_control c = false) name) parts /\
  (length parts <= MAX_PATH_DEPTH)%nat /\
  normalize_local path = inr (join_parts parts) /\ local_components (join_parts parts) = inr parts /\
  (forall name joined, join_local path name = inr joined -> (text_len joined <= MAX_PATH_BYTES)%N -> (length parts < MAX_PATH_DEPTH)%nat ->
    local_components joined = inr (parts ++ [name]) /\ parent_local joined = Some (join_parts parts)).
Proof.
  intros H. destruct (local_components_ok _ _ H) as (Hv & Hl & Ht).
  assert (normalize_local path = inr (join_parts parts)) as Hn by (unfold normalize_local; by rewrite H). split_and!; try done.
  - apply (list.Forall_impl _ _ _ Hv). intros name Hname. apply valid_name in Hname. tauto.
  - by apply local_components_join.
  - intros name joined Hj Htj Hd. unfold join_local in Hj. destruct (validate_name name) as [e|[]] eqn:Ev; [done|]. apply validate_valid in Ev.
    rewrite Hn in Hj. assert (joined = join_parts (parts ++ [name])) as ->.
    { unfold beq in Hj. destruct (decide (parts = [])) as [->|Hp]; [cbn in Hj; by injection Hj|]. rewrite join_snoc by done.
      rewrite bool_decide_false in Hj; [by injection Hj|]. intros Hz. apply Hp, join_nil; [|done].
      apply (list.Forall_impl _ _ _ Hv). by intros x (? & _)%valid_name. }
    assert (local_components (join_parts (parts ++ [name])) = inr (parts ++ [name])) as Hc.
    { apply local_components_join; [apply Forall_app; by repeat constructor|rewrite length_app; cbn; lia|done]. }
    split; [done|]. unfold parent_local. rewrite Hc, take_snoc. by destruct parts.
Qed.

Lemma local_paths_stay_inside_witness :
  local_components (bytes "a//./b/") = inr [bytes "a"; bytes "b"] /\ parent_local (bytes "a/b/c") = Some (bytes "a/b").
Proof.
  destruct (local_paths_stay_inside (bytes "a//./b/") [bytes "a"; bytes "b"] eq_refl) as (_ & _ & _ & _ & H). split; [reflexivity|].
  apply (H (bytes "c") (bytes "a/b/c")); [reflexivity|vm_compute; discriminate|apply Nat.ltb_lt; reflexivity].
Defined.

(** ** Remote paths *)
Record normal (part : list N) : Prop := mk_normal {
  normal_nonempty : part <> [];
  normal_dot : part <> DOT_NAME;
  normal_parent : part <> PARENT_NAME;
  normal_slash : no_slash part;
  normal_nul : contains 0 part = false;
  normal_len : (text_len part <= MAX_NAME_BYTES)%N
}.

(** Where a list of components leads from a directory, given by the names on
    the way to it. *)
Definition enter (dir : list (list N)) (part : list N) : list (list N) :=
  if beq part [] || beq part DOT_NAME then dir else if beq part PARENT_NAME then take (length dir - 1) dir else dir ++ [part].
Definition walk (dir : list (list N)) (parts : list (list N)) : list (list N) := foldl enter dir parts.

(** How a normalised path is written. *)
Definition render (absolute : bool) (parts : list (list N)) : list N :=
  if absolute then SLASH :: join_parts parts else match parts with [] => DOT_NAME | _ => join_parts parts end.

Lemma remote_part_ok absolute base part acc out : (absolute = true -> base = []) -> no_slash part -> contains 0 part = false -> Forall normal acc ->
  remote_part absolute part acc = inr out ->
  enter (base ++ acc) part = base ++ out /\ Forall normal out /\ (weight out <= weight acc + text_len part + 1)%N.
Proof.
  intros Hb Hs H0 Ha. unfold remote_part, enter. destruct (beq part [] || beq part DOT_NAME) eqn:Ed; [intros [= <-]; split_and!; [done|done|lia]|].
  apply orb_false_iff in Ed as [E1 E2]. apply bool_decide_eq_false in E1, E2. destruct (beq part PARENT_NAME) eqn:Ep.
  - destruct acc as [|a0 acc' _] using rev_ind.
    + destruct absolute; [|done]. intros [= <-]. rewrite (Hb eq_refl). split_and!; [done|constructor|cbn; lia].
    + intros H. assert (out = acc') as ->. { destruct (acc' ++ [a0]) eqn:Ee; [by destruct acc'|]. rewrite <- Ee in H. rewrite take_snoc in H. by injection H. }
      rewrite app_assoc, take_snoc, weight_app. apply Forall_app in Ha as [? _]. split_and!; [done|done|lia].
  - apply bool_decide_eq_false in Ep. destruct (N.ltb_spec MAX_NAME_BYTES (text_len part)); [done|]. intros [= <-]. rewrite <- app_assoc, weight_app.
    split_and!; [done|apply Forall_app; split; [done|by repeat constructor]|cbn [weight]; lia].
Qed.

Lemma remote_loop absolute base parts : (absolute = true -> base = []) -> Forall no_slash parts -> Forall (fun p => contains 0 p = false) parts ->
  forall acc out, Forall normal acc -> try_for_each (remote_part absolute) parts acc = inr out ->
  walk (base ++ acc) parts = base ++ out /\ Forall normal out /\ (weight out <= weight acc + weight parts)%N.
Proof.
  intros Hb Hs H0. induction Hs as [|p ps Hp Hps IH]; intros acc out Ha; cbn [try_for_each].
  { intros [= <-]. split_and!; [done|done|cbn; lia]. }
  inversion_clear H0 as [|? ? Hp0 H0']. destruct (remote_part absolute p acc) as [e|acc1] eqn:Er; cbn [mbind sum_bind]; [done|]. intros H.
  destruct (remote_part_ok _ base _ _ _ Hb Hp Hp0 Ha Er) as (E1 & Ha1 & Hw). destruct (IH H0' acc1 out Ha1 H) as (E2 & Ho & Hw').
  cbn [weight]. split_and!; [|done|lia]. unfold walk in *. cbn [foldl]. by rewrite E1.
Qed.

Lemma remote_loop_normal absolute parts acc : Forall normal parts -> try_for_each (remote_part absolute) parts acc = inr (acc ++ parts).
Proof.
  intros H. revert acc. induction H as [|p ps [H1 H2 H3 H4 H5 H6] Hps IH]; intros acc; cbn [try_for_each]; [by rewrite app_nil_r|].
  assert (remote_part absolute p acc = inr (acc ++ [p])) as ->.
  { unfold remote_part, beq. rewrite !bool_decide_false by done. cbn [orb]. by rewrite (proj2 (N.ltb_ge _ _) H6). }
  cbn [mbind sum_bind]. by rewrite IH, <- app_assoc.
Qed.

(** ** Writing a normalised path and reading it again *)
Lemma contains_char_app c a b : contains c (a ++ b) = contains c a || contains c b.
Proof. apply existsb_app. Qed.

Lemma join_no_nul parts : Forall normal parts -> contains 0 (join_parts parts) = false.
Proof.
  induction 1 as [|p [|q parts] Hp Hps IH]; [done|apply (normal_nul _ Hp)|].
  change (join_parts (p :: q :: parts)) with (p ++ SLASH :: join_parts (q :: parts)). rewrite contains_char_app, (normal_nul _ Hp). cbn [contains existsb orb]. exact IH.
Qed.

Lemma normal_no_slash parts : Forall normal parts -> Forall no_slash parts.
Proof. intros H. apply (list.Forall_impl _ _ _ H). apply normal_slash. Qed.

Lemma render_starts absolute parts : Forall normal parts -> starts_with [SLASH] (render absolute parts) = absolute.
Proof.
  intros H. destruct absolute; [apply starts_slash|]. destruct H as [|p parts Hp Hps]; [done|]. apply join_starts; apply Hp.
Qed.

Lemma render_split absolute parts : Forall normal parts ->
  try_for_each (remote_part absolute) (split_on SLASH (render absolute parts)) [] = inr parts.
Proof.
  intros H. destruct parts as [|p ps]; [by destruct absolute|]. destruct absolute; cbn [render].
  - change (split_on SLASH (SLASH :: join_parts (p :: ps))) with ([] :: split_on SLASH (join_parts (p :: ps))).
    rewrite split_join by (done || by apply normal_no_slash). cbn [try_for_each]. exact (remote_loop_normal true (p :: ps) [] H).
  - rewrite split_join by (done || by apply normal_no_slash). exact (remote_loop_normal false (p :: ps) [] H).
Qed.

Lemma normalize_render absolute parts : Forall normal parts -> (length parts <= MAX_PATH_DEPTH)%nat -> (text_len (render absolute parts) <= MAX_PATH_BYTES)%N ->
  normalize_remote (render absolute parts) = inr (render absolute parts).
Proof.
  intros H Hl Ht. unfold normalize_remote. assert (render absolute parts <> []) as Hn.
  { destruct absolute; [done|]. destruct H as [|p ps Hp _]; [done|]. pose proof (normal_nonempty _ Hp). destruct p, ps; done. }
  unfold beq. rewrite bool_decide_false by done. rewrite (proj2 (N.ltb_ge _ _) Ht).
  assert (contains 0 (render absolute parts) = false) as ->.
  { pose proof (join_no_nul parts H). destruct absolute; [exact H0|]. by destruct parts. }
  rewrite render_starts, render_split by done. by rewrite (proj2 (Nat.ltb_ge _ _) Hl).
Qed.

Lemma split_no_nul t : contains 0 t = false -> Forall (fun p => contains 0 p = false) (split_on SLASH t).
Proof.
  induction t as [|c t IH]; cbn [split_on]; [by repeat constructor|]. unfold contains at 1. cbn [existsb]. intros [Hc Ht]%orb_false_iff. specialize (IH Ht).
  destruct (c =? SLASH)%N; [by constructor|]. destruct (split_on SLASH t) as [|p ps]; [|inversion_clear IH as [|? ? Hp Hps]]; constructor; try done;
    unfold contains; cbn [existsb]; rewrite Hc; done.
Qed.

Lemma normalize_remote_ok path q : normalize_remote path = inr q ->
  exists parts, q = render (starts_with [SLASH] path) parts /\ Forall normal parts /\ (length parts <= MAX_PATH_DEPTH)%nat /\
    (text_len q <= MAX_PATH_BYTES)%N /\ forall base, (starts_with [SLASH] path = true -> base = []) -> walk base (split_on SLASH path) = base ++ parts.
Proof.
  unfold normalize_remote. destruct (beq path []) eqn:En; [done|]. destruct (N.ltb_spec MAX_PATH_BYTES (text_len path)) as [|Ht]; [done|].
  destruct (contains 0 path) eqn:E0; [done|]. set (absolute := starts_with [SLASH] path). destruct (try_for_each _ _ _) as [e|parts] eqn:El; [done|].
  destruct (Nat.ltb_spec MAX_PATH_DEPTH (length parts)) as [|Hl]; [done|]. intros [= <-]. exists parts.
  pose proof (fun base Hb => remote_loop absolute base _ Hb (split_parts path) (split_no_nul _ E0) [] parts (Forall_nil_2 _) El) as H.
  destruct (H [] ltac:(done)) as (_ & Hn & Hw). rewrite weight_split in Hw. cbn [weight] in Hw. split_and!; [done|done|lia| |].
  - apply bool_decide_eq_false in En. destruct (decide (parts = [])) as [->|Hp].
    + destruct absolute; vm_compute; discriminate.
    + pose proof (weight_join parts Hp) as Hj. destruct absolute eqn:Ea; [|destruct parts; [done|lia]].
      unfold absolute in Ea. rewrite starts_slash in Ea. destruct path as [|c path]; [done|]. apply N.eqb_eq in Ea as ->.
      cbn [split_on N.eqb] in *. change (split_on SLASH (SLASH :: path)) with ([] :: split_on SLASH path) in El. cbn [try_for_each] in El.
      destruct (remote_loop absolute [] _ ltac:(done) (split_parts path) (split_no_nul path ltac:(by apply orb_false_iff in E0 as [_ ?])) [] parts (Forall_nil_2 _) El) as (_ & _ & Hw').
      rewrite weight_split in Hw'. cbn [weight text_len] in *. change (len_utf8 SLASH) with 1%N in *. lia.
  - intros base Hb. destruct (H base Hb) as [E1 _]. by rewrite app_nil_r in E1.
Qed.

Lemma walk_normal dir parts : Forall normal parts -> walk dir parts = dir ++ parts.
Proof.
  intros H. revert dir. induction H as [|p ps [H1 H2 H3 _ _ _] Hps IH]; intros dir; [by rewrite app_nil_r|]. unfold walk in *. cbn [foldl].
  assert (enter dir p = dir ++ [p]) as -> by (unfold enter, beq; by rewrite !bool_decide_false). by rewrite IH, <- app_assoc.
Qed.

Lemma walk_render dir absolute parts : Forall normal parts -> walk dir (split_on SLASH (render absolute parts)) = dir ++ parts.
Proof.
  intros H. destruct parts as [|p ps]; [destruct absolute; cbn; by rewrite app_nil_r|]. destruct absolute; cbn [render].
  - change (split_on SLASH (SLASH :: join_parts (p :: ps))) with ([] :: split_on SLASH (join_parts (p :: ps))).
    rewrite split_join by (done || by apply normal_no_slash). exact (walk_normal dir _ H).
  - rewrite split_join by (done || by apply normal_no_slash). by apply walk_normal.
Qed.

(** Normalising a remote path does not change where it leads.  A path that
    is accepted and its normal form are both absolute or both relative, lead
    to the same directory by the textual meaning of dots - from the root, or
    from any directory the relative path is taken from, which it never leaves
    - and the normal form is its own normal form, without empty names, without
    parents, and without a dot unless it is the dot itself. *)
Theorem remote_normal_form path q : normalize_remote path = inr q ->
  starts_with [SLASH] q = starts_with [SLASH] path /\
  (forall base, (starts_with [SLASH] path = true -> base = []) ->
    walk base (split_on SLASH q) = walk base (split_on SLASH path) /\ base `prefix_of` walk base (split_on SLASH path)) /\
  normalize_remote q = inr q /\
  exists parts, q = render (starts_with [SLASH] path) parts /\ Forall normal parts /\ (length parts <= MAX_PATH_DEPTH)%nat.
Proof.
  intros H. destruct (normalize_remote_ok _ _ H) as (parts & -> & Hn & Hl & Ht & Hw). split_and!.
  - by apply render_starts.
  - intros base Hb. rewrite (Hw base Hb), walk_render by done. split; [done|by exists parts].
  - by apply normalize_render.
  - by exists parts.
Qed.

Lemma remote_normal_form_witness :
  normalize_remote (bytes "/a/../../b/./c") = inr (bytes "/b/c") /\ normalize_remote (bytes "/b/c") = inr (bytes "/b/c").
Proof.
  split; [reflexivity|]. destruct (remote_normal_form (bytes "/a/../../b/./c") (bytes "/b/c") eq_refl) as (_ & _ & H & _). exact H.
Defined.

(** ** Joining a name *)
Lemma valid_normal name : valid name -> normal name.
Proof. intros (H1 & H2 & H3 & H4 & H5 & H6 & _)%valid_name. by constructor. Qed.

Lemma last_join p parts : Forall normal (p :: parts) -> ends_with_any [SLASH] (join_parts (p :: parts)) = false.
Proof.
  revert p. induction parts as [|q parts IH]; intros p H.
  - cbn [join_parts]. inversion_clear H as [|? ? Hp _]. destruct Hp as [Hz _ _ Hs _ _]. unfold ends_with_any.
    destruct (list.last p) as [c|] eqn:El; [|done]. cbn [existsb]. rewrite orb_false_r. apply not_true_iff_false. intros ->%N.eqb_eq.
    apply last_Some in El as [l' ->]. unfold no_slash in Hs. rewrite contains_char_app in Hs. apply orb_false_iff in Hs as [_ Hs]. done.
  - inversion_clear H as [|? ? Hp Hps]. specialize (IH q Hps). change (join_parts (p :: q :: parts)) with (p ++ SLASH :: join_parts (q :: parts)).
    unfold ends_with_any in *. rewrite last_app. destruct (join_parts (q :: parts)) as [|c t] eqn:Ej.
    + apply join_nil in Ej; [done|]. apply (list.Forall_impl _ _ _ Hps). apply normal_nonempty.
    + change (list.last (SLASH :: c :: t)) with (list.last (c :: t)). destruct (list.last (c :: t)) eqn:El; [exact IH|by apply last_None in El].
Qed.

Lemma before_last_join t name : no_slash name -> before_last SLASH (t ++ SLASH :: name) = Some t.
Proof.
  intros Hn. assert (before_last SLASH name = None) as E0.
  { induction name as [|c name IH]; [done|]. apply no_slash_cons in Hn as [Hc Hn]. cbn [before_last]. rewrite IH by done. by rewrite (proj2 (N.eqb_neq _ _) Hc). }
  induction t as [|c t IH]; cbn [app before_last]; [by rewrite E0|]. by rewrite IH.
Qed.

Lemma before_last_none name : no_slash name -> before_last SLASH name = None.
Proof.
  induction name as [|c name IH]; intros Hn; [done|]. apply no_slash_cons in Hn as [Hc Hn]. cbn [before_last]. rewrite IH by done. by rewrite (proj2 (N.eqb_neq _ _) Hc).
Qed.

Lemma last_component absolute parts name : Forall normal (parts ++ [name]) ->
  list.last (split_on SLASH (render absolute (parts ++ [name]))) = Some name.
Proof.
  intros H. assert (parts ++ [name] <> []) as Hne by by destruct parts.
  assert (split_on SLASH (join_parts (parts ++ [name])) = parts ++ [name]) as Es by (apply split_join; [by apply normal_no_slash|done]).
  destruct absolute; cbn [render].
  - change (split_on SLASH (SLASH :: join_parts (parts ++ [name]))) with ([[]] ++ split_on SLASH (join_parts (parts ++ [name]))). rewrite Es, app_assoc. apply last_snoc.
  - destruct (parts ++ [name]) as [|p ps] eqn:Ep; [done|]. rewrite Es, <- Ep. apply last_snoc.
Qed.

Lemma render_snoc absolute p ps name : render absolute (p :: ps ++ [name]) = render absolute (p :: ps) ++ SLASH :: name.
Proof. pose proof (join_snoc (p :: ps) name ltac:(done)) as Ej. cbn [app] in Ej. destruct absolute; cbn [render]; by rewrite Ej. Qed.

(** What [join_remote] writes, and what it normalises to. *)
Lemma join_render absolute parts name : Forall normal parts -> normal name ->
  let dir := render absolute parts in
  let joined := if ends_with_any [SLASH] dir then dir ++ name else dir ++ SLASH :: name in
  joined = (if negb absolute && (length parts =? 0) then DOT_NAME ++ [SLASH] else []) ++ render absolute (parts ++ [name]).
Proof.
  intros Hp Hn dir joined. unfold joined, dir. destruct parts as [|p ps]; [destruct absolute; done|].
  assert (ends_with_any [SLASH] (render absolute (p :: ps)) = false) as ->.
  { pose proof (last_join p ps Hp) as Hl. destruct absolute; [|exact Hl]. unfold ends_with_any in *. cbn [render].
    destruct (join_parts (p :: ps)) as [|c t] eqn:Ej; [|exact Hl]. apply join_nil in Ej; [done|]. apply (list.Forall_impl _ _ _ Hp). apply normal_nonempty. }
  cbn [length Nat.eqb]. rewrite andb_false_r. cbn [app]. by rewrite render_snoc.
Qed.

Lemma normalize_joined absolute parts name j : Forall normal parts -> normal name ->
  let dot := if negb absolute && (length parts =? 0) then DOT_NAME ++ [SLASH] else [] in
  normalize_remote (dot ++ render absolute (parts ++ [name])) = inr j -> j = render absolute (parts ++ [name]).
Proof.
  intros Hp Hn dot. assert (Forall normal (parts ++ [name])) as Hpn by (apply Forall_app; split; [done|by apply Forall_singleton]).
  assert (starts_with [SLASH] (dot ++ render absolute (parts ++ [name])) = absolute /\
    try_for_each (remote_part absolute) (split_on SLASH (dot ++ render absolute (parts ++ [name]))) [] = inr (parts ++ [name])) as [Es El].
  { unfold dot. destruct (negb absolute && (length parts =? 0)) eqn:Ed; [|cbn [app]; by split; [apply render_starts|apply render_split]].
    apply andb_true_iff in Ed as [Ea Ez]. apply negb_true_iff in Ea as ->. apply Nat.eqb_eq, nil_length_inv in Ez as ->. split; [done|].
    change (DOT_NAME ++ [SLASH]) with (DOT_NAME ++ SLASH :: []). rewrite <- app_assoc. cbn [app]. rewrite split_no_slash by done.
    exact (render_split false [name] Hpn). }
  unfold normalize_remote. destruct (beq _ []); [done|]. destruct (_ <? _)%N; [done|]. destruct (contains _ _); [done|]. rewrite Es, El.
  destruct (_ <? _); [done|]. by intros [= <-].
Qed.

(** Joining a name to a remote directory can be undone.  Whenever the
    joined path is itself accepted - it is within the limits of length and
    depth - its parent is the normal form of the directory and its file name is
    the name. *)
Theorem remote_join_round_trip dir d name joined j :
  normalize_remote dir = inr d -> join_remote dir name = inr joined -> normalize_remote joined = inr j ->
  parent_remote joined = Some d /\ file_name_remote joined = inr name.
Proof.
  intros Hd Hj Hq. unfold join_remote in Hj. destruct (validate_name name) as [e|[]] eqn:Ev; [done|]. pose proof Ev as Hval. apply validate_valid, valid_normal in Hval.
  rewrite Hd in Hj. destruct (normalize_remote_ok _ _ Hd) as (parts & -> & Hn & _). set (absolute := starts_with [SLASH] dir) in *.
  pose proof (join_render absolute parts name Hn Hval) as Hjr. cbn zeta in Hjr. injection Hj as <-.
  pose proof Hq as Hq'. rewrite Hjr in Hq'. apply (normalize_joined absolute parts name j Hn Hval) in Hq'. subst j.
  unfold parent_remote, file_name_remote. rewrite Hq, last_component by (apply Forall_app; split; [done|by apply Forall_singleton]). change (default [] (Some name)) with name. rewrite Ev. split; [|done].
  destruct Hval as [H1 H2 H3 H4 _ _]. destruct parts as [|p ps].
  - destruct absolute; cbn [render app join_parts]; unfold beq.
    + rewrite !bool_decide_false by (intros [= ->]; done). change (SLASH :: name) with ([] ++ SLASH :: name). by rewrite before_last_join.
    + rewrite !bool_decide_false; [by rewrite before_last_none|done|by intros ->].
  - cbn [app]. rewrite render_snoc.
    assert (forall x, length x = 1 -> beq (render absolute (p :: ps) ++ SLASH :: name) x = false) as Hlen.
    { intros x Hx. apply bool_decide_eq_false. intros <-. rewrite length_app in Hx. cbn in Hx. destruct name; [done|]. cbn in Hx. lia. }
    rewrite !Hlen by done. cbn [orb]. rewrite before_last_join by done. destruct (render absolute (p :: ps)) eqn:Er; [|done].
    pose proof (render_starts absolute (p :: ps) Hn) as Hs. destruct absolute; [done|]. cbn [render] in Er. apply join_nil in Er; [done|].
    apply (list.Forall_impl _ _ _ Hn). apply normal_nonempty.
Qed.

Lemma remote_join_round_trip_witness :
  parent_remote (bytes "/srv/b.txt") = Some (bytes "/srv") /\ file_name_remote (bytes "/srv/b.txt") = inr (bytes "b.txt").
Proof. apply (remote_join_round_trip (bytes "/x/../srv/") (bytes "/srv") (bytes "b.txt") (bytes "/srv/b.txt") (bytes "/srv/b.txt")); reflexivity. Defined.
