(* ===== verification/PlanningBudget.v ===== *)
(** * The shared budget of transfer planning ([festerm-ssh/src/sftp_planning.rs])

    A budget of items and bytes shared by everything one transfer plans,
    reservations that give their credit back when they are dropped, and the
    queues whose storage is charged to the same budget.  The budget is behind a
    mutex, so a method is one step on its usage; [None] is a panic.  A deque is
    its values and its capacity; the allocator says how much room a deque of a
    given capacity really gets, and [allocate] panics as it does on a request
    over [isize::MAX] bytes. *)

From Stdlib Require Import NArith Bool.
From S2P Require Import Prelude.

Definition MAX_KEEP_BOTH_SUFFIX_BYTES : N := N.of_nat (length (bytes " (copy 4294967295)")).
Definition TRANSFER_PLAN_ITEM_OVERHEAD_BYTES : N := 512.

Record TransferPlanningLimits := mkPlanningLimits { max_items : N; max_memory_proxy_bytes : N }.
Inductive TransferPlanningLimit := LimitItems | LimitMemoryProxyBytes.
Inductive TransferWorkError := PlanningLimitExceeded (limit : TransferPlanningLimit) (observed maximum : N).

Record PlanningUsage := mkUsage { limits : TransferPlanningLimits; items : N; used_bytes : N }.
Record PlanningReservation := mkReservation { reserved_items : N; reserved_bytes : N }.

(** [SharedPlanningBudget::new]. *)
Definition budget_new (l : TransferPlanningLimits) : PlanningUsage := mkUsage l 0 0.

(** [usize] subtraction. *)
Definition sub (a b : N) : option N := if (a <? b)%N then None else Some (a - b)%N.

Definition grow (n b : N) (r : PlanningReservation) (u : PlanningUsage) : (TransferWorkError + unit) * PlanningReservation * PlanningUsage :=
  let observed_items := checked_add usize_max (items u) n in
  match observed_items with
  | Some i =>
      if (max_items (limits u) <? i)%N then (inl (PlanningLimitExceeded LimitItems i (max_items (limits u))), r, u)
      else
        let observed_bytes := checked_add usize_max (used_bytes u) b in
        match observed_bytes with
        | Some m =>
            if (max_memory_proxy_bytes (limits u) <? m)%N then
              (inl (PlanningLimitExceeded LimitMemoryProxyBytes m (max_memory_proxy_bytes (limits u))), r, u)
            else (inr tt, mkReservation (reserved_items r + n) (reserved_bytes r + b), mkUsage (limits u) i m)
        | None => (inl (PlanningLimitExceeded LimitMemoryProxyBytes usize_max (max_memory_proxy_bytes (limits u))), r, u)
        end
  | None => (inl (PlanningLimitExceeded LimitItems usize_max (max_items (limits u))), r, u)
  end.

(** The destructor of a reservation. *)
Definition drop_reservation (r : PlanningReservation) (u : PlanningUsage) : option PlanningUsage :=
  i ← sub (items u) (reserved_items r);
  b ← sub (used_bytes u) (reserved_bytes r);
  Some (mkUsage (limits u) i b).

(** A failed [grow] drops the empty reservation. *)
Definition reserve (n b : N) (u : PlanningUsage) : option ((TransferWorkError + PlanningReservation) * PlanningUsage) :=
  match grow n b (mkReservation 0 0) u with
  | (inl e, r, u) => u ← drop_reservation r u; Some (inl e, u)
  | (inr _, r, u) => Some (inr r, u)
  end.

(** The capacities of the two paths. *)
Definition unit_bytes (source destination : N) : N :=
  saturating_add usize_max
    (saturating_add usize_max
      (saturating_add usize_max TRANSFER_PLAN_ITEM_OVERHEAD_BYTES (saturating_mul usize_max source 2))
      (saturating_mul usize_max destination 6))
    (saturating_mul usize_max MAX_KEEP_BOTH_SUFFIX_BYTES 2).
Definition reserve_unit (source destination : N) (u : PlanningUsage) := reserve 1 (unit_bytes source destination) u.

Definition entry_bytes (name_bytes path_bytes : N) : N :=
  saturating_add usize_max (saturating_add usize_max TRANSFER_PLAN_ITEM_OVERHEAD_BYTES name_bytes) path_bytes.
Definition reserve_entry (name_bytes path_bytes : N) (u : PlanningUsage) := reserve 1 (entry_bytes name_bytes path_bytes) u.

(** [assert!(bytes <= self.bytes)], and the difference given back. *)
Definition shrink_bytes (b : N) (r : PlanningReservation) (u : PlanningUsage) : option (PlanningReservation * PlanningUsage) :=
  if (reserved_bytes r <? b)%N then None
  else
    left ← sub (used_bytes u) (reserved_bytes r - b);
    Some (mkReservation (reserved_items r) b, mkUsage (limits u) (items u) left).

Definition isize_max : N := 9223372036854775807.
Class Allocator := { size_of_budgeted : N; with_capacity : N -> N }.
Definition allocate `{Allocator} (n : N) : option N := if (isize_max <? n * size_of_budgeted)%N then None else Some (with_capacity n).

Section Queue.
Context {T : Type} `{Al : Allocator}.

Record Budgeted := mkBudgeted { value : T; reservation : PlanningReservation }.
Record PlanningQueue := mkQueue { values : list Budgeted; capacity : N; storage : PlanningReservation }.

Definition queue_len (q : PlanningQueue) : N := N.of_nat (length (values q)).
Definition is_empty (q : PlanningQueue) : bool := (queue_len q =? 0)%N.

(** [PlanningQueue::new]: its [expect] is the panic. *)
Definition queue_new (u : PlanningUsage) : option (PlanningQueue * PlanningUsage) :=
  match reserve 0 0 u with
  | Some (inr r, u) => Some (mkQueue [] 0 r, u)
  | _ => None
  end.

Definition ensure_capacity (q : PlanningQueue) (u : PlanningUsage) : option ((TransferWorkError + unit) * PlanningQueue * PlanningUsage) :=
  if (queue_len q <? capacity q)%N then Some (inr tt, q, u)
  else
    let wanted := N.max (saturating_mul usize_max (capacity q) 2) 4 in
    '(r, u) ← reserve 0 (saturating_mul usize_max wanted size_of_budgeted) u;
    match r with
    | inl e => Some (inl e, q, u)
    | inr replacement =>
        actual ← allocate wanted;
        let actual_bytes := saturating_mul usize_max actual size_of_budgeted in
        let '(r, replacement, u) :=
          if (reserved_bytes replacement <? actual_bytes)%N then grow 0 (actual_bytes - reserved_bytes replacement) replacement u
          else (inr tt, replacement, u) in
        match r with
        | inl e => u ← drop_reservation replacement u; Some (inl e, q, u)
        | inr _ => u ← drop_reservation (storage q) u; Some (inr tt, mkQueue (values q) actual replacement, u)
        end
    end.

(** A refused value is dropped with its reservation. *)
Definition push (back : bool) (v : Budgeted) (q : PlanningQueue) (u : PlanningUsage) : option ((TransferWorkError + unit) * PlanningQueue * PlanningUsage) :=
  '(r, q, u) ← ensure_capacity q u;
  match r with
  | inl e => u ← drop_reservation (reservation v) u; Some (inl e, q, u)
  | inr _ => Some (inr tt, mkQueue (if back then values q ++ [v] else v :: values q) (capacity q) (storage q), u)
  end.
Definition push_back := push true.
Definition push_front := push false.
Definition reserve_requeue_slot := ensure_capacity.

Definition COPY_LIMIT : N := 128.

Definition retire_sparse_storage (q : PlanningQueue) (u : PlanningUsage) : option (PlanningQueue * PlanningUsage) :=
  if (COPY_LIMIT <? queue_len q)%N || (capacity q <=? 4 * COPY_LIMIT)%N then Some (q, u)
  else
    kept ← allocate (N.max (saturating_add usize_max (queue_len q) 1) 4);
    bs ← checked_mul usize_max kept size_of_budgeted;
    '(storage, u) ← shrink_bytes bs (storage q) u;
    Some (mkQueue (values q) kept storage, u).

Definition pop (front : bool) (q : PlanningQueue) (u : PlanningUsage) : option (option Budgeted * PlanningQueue * PlanningUsage) :=
  let '(result, rest) :=
    if front then match values q with [] => (None, []) | v :: rest => (Some v, rest) end
    else (list.last (values q), take (length (values q) - 1) (values q)) in
  '(q, u) ← retire_sparse_storage (mkQueue rest (capacity q) (storage q)) u;
  Some (result, q, u).
Definition pop_front := pop true.
Definition pop_back := pop false.

(** The destructor of a queue: its values, then its storage. *)
Fixpoint drop_values (vs : list Budgeted) (u : PlanningUsage) : option PlanningUsage :=
  match vs with
  | [] => Some u
  | v :: vs => u ← drop_reservation (reservation v) u; drop_values vs u
  end.
Definition drop_queue (q : PlanningQueue) (u : PlanningUsage) : option PlanningUsage :=
  u ← drop_values (values q) u; drop_reservation (storage q) u.
End Queue.
Arguments Budgeted : clear implicits.
Arguments PlanningQueue : clear implicits.
