(* ===== verification/PlanningBudgetSpec.v ===== *)
(** * The planning budget is exact

    What is used is what the live reservations hold, never more than the
    limits, and no method of the budget or of a queue panics. *)

From Stdlib Require Import NArith Bool.
From S2P Require Import Prelude PlanningBudget.

(** ** The account *)
Fixpoint held_items (rs : list PlanningReservation) : N := match rs with [] => 0%N | r :: rs => (reserved_items r + held_items rs)%N end.
Fixpoint held_bytes (rs : list PlanningReservation) : N := match rs with [] => 0%N | r :: rs => (reserved_bytes r + held_bytes rs)%N end.

Record balanced (l : TransferPlanningLimits) (rs : list PlanningReservation) (u : PlanningUsage) : Prop := mk_balanced {
  balanced_limits : limits u = l;
  balanced_items : items u = held_items rs;
  balanced_bytes : used_bytes u = held_bytes rs;
  balanced_max_items : (items u <= max_items l)%N;
  balanced_max_bytes : (used_bytes u <= max_memory_proxy_bytes l)%N
}.

Lemma held_app a b : held_items (a ++ b) = (held_items a + held_items b)%N /\ held_bytes (a ++ b) = (held_bytes a + held_bytes b)%N.
Proof. induction a as [|r a [IH1 IH2]]; cbn [held_items held_bytes app]; lia. Qed.

(** Who holds what does not matter. *)
#[export] Instance held_items_perm : Proper ((≡ₚ) ==> (=)) held_items.
Proof. induction 1; cbn [held_items]; lia. Qed.
#[export] Instance held_bytes_perm : Proper ((≡ₚ) ==> (=)) held_bytes.
Proof. induction 1; cbn [held_bytes]; lia. Qed.
#[export] Instance balanced_perm l : Proper ((≡ₚ) ==> (=) ==> iff) (balanced l).
Proof. intros a b Hab u ? <-. split; intros [H1 H2 H3 H4 H5]; constructor; try done; [rewrite H2|rewrite H3|rewrite H2|rewrite H3]; by rewrite Hab. Qed.

Lemma balanced_swap l a b u : balanced l a u -> a ≡ₚ b -> balanced l b u.
Proof. by intros H <-. Qed.

Lemma grow_balanced l rs n b r u : balanced l (r :: rs) u ->
  let '(res, r', u') := grow n b r u in
  balanced l (r' :: rs) u' /\
  match res with inr _ => r' = mkReservation (reserved_items r + n) (reserved_bytes r + b) | inl _ => r' = r /\ u' = u end.
Proof.
  intros H. pose proof H as [<- H2 H3 H4 H5]. unfold grow, checked_add. destruct (_ <=? usize_max)%N; [|done]. destruct (N.ltb_spec (max_items (limits u)) (items u + n)); [done|].
  destruct (_ <=? usize_max)%N; [|done]. destruct (N.ltb_spec (max_memory_proxy_bytes (limits u)) (used_bytes u + b)); [done|].
  split; [|done]. cbn [held_items held_bytes] in *. constructor; cbn; [done|lia..].
Qed.

Lemma drop_balanced l rs r u : balanced l (r :: rs) u -> exists u', drop_reservation r u = Some u' /\ balanced l rs u'.
Proof.
  intros [<- H2 H3 H4 H5]. cbn [held_items held_bytes] in *. unfold drop_reservation, sub. rewrite !(proj2 (N.ltb_ge _ _)) by lia. cbn.
  eexists. split; [done|]. constructor; cbn; [done|lia..].
Qed.

Lemma balanced_empty l rs u : balanced l rs u <-> balanced l (mkReservation 0 0 :: rs) u.
Proof. split; intros [H1 H2 H3 H4 H5]; by constructor. Qed.

(** The account determines the usage. *)
Lemma balanced_unique l rs u u' : balanced l rs u -> balanced l rs u' -> u' = u.
Proof. destruct u, u'. intros [<- H2 H3 _ _] [H1' H2' H3' _ _]. cbn in *. congruence. Qed.

Lemma reserve_balanced l rs n b u : balanced l rs u ->
  exists res u', reserve n b u = Some (res, u') /\
    match res with inl _ => u' = u | inr r => r = mkReservation n b /\ balanced l (r :: rs) u' end.
Proof.
  intros H. apply balanced_empty in H. pose proof (grow_balanced l rs n b _ u H) as Hg. unfold reserve. destruct (grow n b _ u) as [[[e|[]] r] u'].
  - destruct Hg as [Hb [-> ->]]. unfold drop_reservation, sub. cbn. rewrite !(proj2 (N.ltb_ge _ _)) by lia. cbn. eexists _, _. split; [done|].
    destruct u. cbn. by rewrite !N.sub_0_r.
  - destruct Hg as [Hb ->]. eexists _, _. split; [done|]. done.
Qed.

(** ** Queues

    A deque gets at least the capacity it asks for, never more bytes than an
    allocation can have, and a request for a few entries is not inflated beyond
    what a sparse queue retires. *)
Class AllocatorLaws (Al : Allocator) := {
  size_positive : (0 < size_of_budgeted)%N;
  at_least n : (n <= with_capacity n)%N;
  addressable n : (n * size_of_budgeted <= isize_max -> with_capacity n * size_of_budgeted <= isize_max)%N;
  not_inflated n : (n <= COPY_LIMIT + 1 -> with_capacity n <= 4 * COPY_LIMIT)%N
}.

Section Queues.
Context {T : Type} `{Laws : AllocatorLaws}.
Context (l : TransferPlanningLimits) (Hi : (max_items l <= usize_max)%N) (Hl : (max_memory_proxy_bytes l <= isize_max)%N).
Abbreviation Queue := (PlanningQueue T).

Definition owns (q : Queue) : list PlanningReservation := storage q :: map reservation (values q).

(** The values fit, and the storage that holds them is paid for. *)
Definition queue_wf (q : Queue) : Prop :=
  (queue_len q <= capacity q /\ capacity q * size_of_budgeted <= reserved_bytes (storage q))%N.

Lemma held_bytes_head r rs u : balanced l (r :: rs) u -> (reserved_bytes r <= isize_max)%N.
Proof. intros [_ _ H3 _ H5]. cbn [held_bytes] in *. lia. Qed.

Lemma new_queue_ok rs u : balanced l rs u -> exists q u', queue_new (T := T) u = Some (q, u') /\ values q = [] /\ queue_wf q /\ balanced l (owns q ++ rs) u'.
Proof.
  intros H. destruct (reserve_balanced l rs 0 0 u H) as (res & u' & E & Hr). unfold queue_new. rewrite E. destruct res as [e|r].
  - exfalso. clear Hr. destruct H as [<- H2 H3 H4 H5]. unfold reserve, grow, checked_add in E. rewrite !N.add_0_r in E.
    assert (isize_max <= usize_max)%N by done.
    rewrite !(proj2 (N.leb_le _ _)), !(proj2 (N.ltb_ge _ _)) in E by lia. done.
  - destruct Hr as [-> Hb]. eexists _, _. split; [done|]. split; [done|]. split; [|done]. by split.
Qed.

(** A larger buffer in the place of the old one. *)
Lemma replace_ok rs q u replacement n :
  queue_wf q -> balanced l (replacement :: owns q ++ rs) u -> (queue_len q < n)%N -> (n * size_of_budgeted <= reserved_bytes replacement)%N ->
  exists u', drop_reservation (storage q) u = Some u' /\ balanced l (owns (mkQueue (values q) n replacement) ++ rs) u' /\ queue_wf (mkQueue (values q) n replacement).
Proof.
  intros Hw Hb Hn Hs. unfold owns in *. cbn [app] in Hb. rewrite (Permutation_swap (storage q) replacement) in Hb.
  destruct (drop_balanced l _ _ u Hb) as (u' & E & Hb'). exists u'. split; [done|]. split; [done|].
  unfold queue_wf, queue_len in *. cbn [values capacity storage] in *. lia.
Qed.

Lemma ensure_ok rs q u : queue_wf q -> balanced l (owns q ++ rs) u ->
  exists res q' u', ensure_capacity q u = Some (res, q', u') /\ balanced l (owns q' ++ rs) u' /\ queue_wf q' /\ values q' = values q /\
    match res with inr _ => (queue_len q < capacity q')%N | inl _ => q' = q /\ u' = u end.
Proof.
  intros Hw Hb. unfold ensure_capacity. destruct (N.ltb_spec (queue_len q) (capacity q)) as [Hc|Hc]; [by exists (inr tt), q, u|].
  set (wanted := N.max (saturating_mul usize_max (capacity q) 2) 4).
  destruct (reserve_balanced l _ 0 (saturating_mul usize_max wanted size_of_budgeted) u Hb) as (res & u1 & E & Hr). rewrite E. cbn [mbind option_bind].
  destruct res as [e|r]; [subst u1; by exists (inl e), q, u|]. destruct Hr as [-> Hb1].
  pose proof (held_bytes_head _ _ _ Hb1) as Hr1. cbn [reserved_bytes] in Hr1. assert (isize_max < usize_max)%N as Hlt by done.
  assert (saturating_mul usize_max wanted size_of_budgeted = wanted * size_of_budgeted)%N as Em by (unfold saturating_mul in *; lia).
  rewrite Em in *. unfold allocate. rewrite (proj2 (N.ltb_ge _ _)) by lia. cbn [mbind option_bind]. set (actual := with_capacity wanted).
  pose proof (addressable wanted Hr1) as Ha. fold actual in Ha.
  assert (saturating_mul usize_max actual size_of_budgeted = actual * size_of_budgeted)%N as -> by (unfold saturating_mul; lia).
  assert (queue_len q < actual)%N as Hq.
  { pose proof (at_least wanted). fold actual in H. destruct Hw as [Hw Hst]. unfold wanted, saturating_mul in H. cbn [reserved_bytes] in *.
    assert (capacity q * size_of_budgeted <= isize_max)%N as Hcap.
    { destruct Hb as [_ _ H3 _ H5]. cbn [owns app held_bytes] in H3. lia. }
    assert (capacity q <= isize_max)%N by (pose proof size_positive; nia). clear -H Hc Hw H0. unfold usize_max, isize_max in *. lia. }
  cbn [reserved_bytes]. destruct (N.ltb_spec (wanted * size_of_budgeted) (actual * size_of_budgeted)) as [Hx|Hx].
  - pose proof (grow_balanced l _ 0 (actual * size_of_budgeted - wanted * size_of_budgeted) _ u1 Hb1) as Hg. destruct (grow _ _ _ u1) as [[[e|[]] r'] u2].
    + destruct Hg as [Hb2 [-> ->]]. destruct (drop_balanced l _ _ _ Hb2) as (u3 & E3 & Hb3). rewrite E3. cbn [mbind option_bind].
      exists (inl e), q, u3. split_and!; try done. by apply (balanced_unique l (owns q ++ rs)).
    + destruct Hg as [Hb2 ->]. destruct (replace_ok rs q u2 _ actual Hw Hb2 Hq) as (u3 & E3 & Hb3 & Hw3); [cbn; lia|]. rewrite E3. cbn [mbind option_bind].
      exists (inr tt). eexists _, _. split; [done|]. by split_and!.
  - destruct (replace_ok rs q u1 _ actual Hw Hb1 Hq) as (u3 & E3 & Hb3 & Hw3); [cbn; lia|]. rewrite E3. cbn [mbind option_bind].
    exists (inr tt). eexists _, _. split; [done|]. by split_and!.
Qed.

Lemma push_ok rs back v q u : queue_wf q -> balanced l (reservation v :: owns q ++ rs) u ->
  exists res q' u', push back v q u = Some (res, q', u') /\ balanced l (owns q' ++ rs) u' /\ queue_wf q' /\
    match res with
    | inr _ => values q' = if back then values q ++ [v] else v :: values q
    | inl _ => q' = q
    end.
Proof.
  intros Hw Hb. unfold push. assert (balanced l (owns q ++ reservation v :: rs) u) as Hb' by (by rewrite <- Permutation_middle).
  destruct (ensure_ok (reservation v :: rs) q u Hw Hb') as (res & q' & u' & E & Hb1 & Hw1 & Hv & Hr). rewrite E. cbn [mbind option_bind].
  destruct res as [e|[]].
  - destruct Hr as [-> ->]. rewrite <- Permutation_middle in Hb1. destruct (drop_balanced l _ _ _ Hb1) as (u2 & E2 & Hb2). rewrite E2. cbn [mbind option_bind].
    eexists (inl e), q, u2. by split_and!.
  - eexists (inr tt), _, u'. split; [done|]. rewrite Hv. split_and!; [| |done].
    + apply (balanced_swap _ _ _ _ Hb1). unfold owns. cbn [values storage app]. rewrite Hv, <- Permutation_middle. 
      destruct back; [rewrite map_app; cbn [map app]; rewrite <- app_assoc; cbn [app]; by rewrite <- Permutation_middle|done].
    + split; [|apply Hw1]. unfold queue_len in *. cbn [values capacity]. destruct back; rewrite ?length_app; cbn [length]; lia.
Qed.

Lemma retire_sparse_ok rs q u : queue_wf q -> balanced l (owns q ++ rs) u ->
  exists q' u', retire_sparse_storage q u = Some (q', u') /\ balanced l (owns q' ++ rs) u' /\ queue_wf q' /\ values q' = values q.
Proof.
  intros [Hw1 Hw2] Hb. unfold retire_sparse_storage. destruct (N.ltb_spec COPY_LIMIT (queue_len q)) as [|Hc]; [by exists q, u|].
  destruct (N.leb_spec (capacity q) (4 * COPY_LIMIT)) as [|Hbig]; [by exists q, u|]. cbn [orb].
  pose proof (held_bytes_head (storage q) (map reservation (values q) ++ rs) u Hb) as Hr.
  set (wanted := N.max (saturating_add usize_max (queue_len q) 1) 4). assert (queue_len q < wanted <= COPY_LIMIT + 1)%N as Hwant.
  { unfold wanted, saturating_add, COPY_LIMIT, usize_max in *. lia. }
  pose proof (not_inflated wanted ltac:(lia)) as Hn. pose proof (at_least wanted) as Ha. pose proof size_positive as Hp.
  assert (with_capacity wanted * size_of_budgeted <= reserved_bytes (storage q))%N as Hk by (unfold COPY_LIMIT in *; nia).
  assert (wanted * size_of_budgeted <= isize_max)%N as Hwi by nia.
  unfold allocate. rewrite (proj2 (N.ltb_ge _ _) Hwi). cbn [mbind option_bind]. unfold checked_mul. assert (isize_max < usize_max)%N by done.
  rewrite (proj2 (N.leb_le _ _)) by lia. cbn [mbind option_bind]. unfold shrink_bytes. rewrite (proj2 (N.ltb_ge _ _) Hk).
  destruct Hb as [H1 H2 H3 H4 H5]. cbn [owns app held_items held_bytes] in *. unfold sub. rewrite (proj2 (N.ltb_ge _ _)) by lia. cbn [mbind option_bind].
  eexists _, _. split; [done|]. split_and!; [constructor; cbn [owns app values storage held_items held_bytes reserved_items reserved_bytes limits items used_bytes]; try done; lia| |done].
  split; [|done]. unfold queue_len in *. cbn [values capacity]. lia.
Qed.

Lemma pop_ok rs front q u : queue_wf q -> balanced l (owns q ++ rs) u ->
  exists res q' u', pop front q u = Some (res, q', u') /\ queue_wf q' /\
    match res with
    | Some v => (values q = if front then v :: values q' else values q' ++ [v]) /\ balanced l (reservation v :: owns q' ++ rs) u'
    | None => values q = [] /\ values q' = [] /\ balanced l (owns q' ++ rs) u'
    end.
Proof.
  intros Hw Hb. unfold pop.
  assert (forall res rest, (match res with Some v => values q = if front then v :: rest else rest ++ [v] | None => values q = [] /\ rest = [] end) ->
    exists r' q' u', ('(q, u) ← retire_sparse_storage (mkQueue rest (capacity q) (storage q)) u; Some (res, q, u)) = Some (r', q', u') /\ queue_wf q' /\
      match r' with
      | Some v => (values q = if front then v :: values q' else values q' ++ [v]) /\ balanced l (reservation v :: owns q' ++ rs) u'
      | None => values q = [] /\ values q' = [] /\ balanced l (owns q' ++ rs) u'
      end) as Hgo.
  { intros res rest Hres. set (extra := match res with Some v => [reservation v] | None => [] end).
    destruct (retire_sparse_ok (extra ++ rs) (mkQueue rest (capacity q) (storage q)) u) as (q' & u' & E & Hb' & Hw' & Hv').
    - destruct Hw as [Hw1 Hw2]. split; [|exact Hw2]. unfold queue_len in *. cbn [values capacity] in *. destruct res; [|destruct Hres as [_ ->]; cbn; lia].
      rewrite Hres in Hw1. destruct front; rewrite ?length_app in Hw1; cbn [length] in Hw1; lia.
    - apply (balanced_swap _ _ _ _ Hb). unfold owns, extra. cbn [values storage app]. apply perm_skip. destruct res as [v|]; [|destruct Hres as [-> ->]; done].
      rewrite Hres. destruct front; cbn [map app]; [by rewrite <- Permutation_middle|]. rewrite map_app, <- app_assoc. done.
    - rewrite E. cbn [mbind option_bind]. cbn [values] in Hv'. eexists res, q', u'. split; [done|]. split; [done|]. rewrite Hv'. unfold extra in Hb'. destruct res as [v|].
      + split; [done|]. cbn [app] in Hb'. by rewrite <- Permutation_middle in Hb'.
      + destruct Hres as [-> ->]. done. }
  destruct front.
  - destruct (values q) as [|v rest]; by apply Hgo.
  - apply Hgo. destruct (values q) as [|v rest _] using rev_ind; [done|]. rewrite last_snoc, length_app. cbn [length]. rewrite Nat.add_sub. by rewrite take_app_length.
Qed.

Lemma drop_values_ok rs vs : forall u, balanced l (map reservation vs ++ rs) u -> exists u', drop_values (T := T) vs u = Some u' /\ balanced l rs u'.
Proof.
  induction vs as [|v vs IH]; intros u Hb; cbn [drop_values]; [by exists u|]. cbn [map app] in Hb.
  destruct (drop_balanced l _ _ _ Hb) as (u1 & E & Hb1). rewrite E. cbn [mbind option_bind]. by apply IH.
Qed.

Lemma drop_queue_ok rs q u : balanced l (owns q ++ rs) u -> exists u', drop_queue q u = Some u' /\ balanced l rs u'.
Proof.
  intros Hb. unfold drop_queue. assert (balanced l (map reservation (values q) ++ storage q :: rs) u) as Hb' by (by rewrite <- Permutation_middle).
  destruct (drop_values_ok _ _ _ Hb') as (u1 & E & Hb1). rewrite E. cbn [mbind option_bind]. by apply drop_balanced.
Qed.
End Queues.

(** ** A whole plan

    Any number of reservations in hand and of queues on one budget, and any
    sequence of calls on them; an index that is not there does nothing. *)
Section Plan.
Context {T : Type} `{Laws : AllocatorLaws}.
Abbreviation Queue := (PlanningQueue T).

Record Plan := mkPlan { usage : PlanningUsage; loose : list (Budgeted T); queues : list Queue }.

Inductive PlanOp :=
  | Reserve (v : T) (n b : N)
  | Grow (i : nat) (n b : N)
  | Drop (i : nat)
  | NewQueue
  | Push (back : bool) (queue i : nat)
  | Requeue (queue : nat)
  | Pop (front : bool) (queue : nat)
  | DropQueue (queue : nat).

Definition plan_op (op : PlanOp) (p : Plan) : option Plan :=
  match op with
  | Reserve v n b =>
      '(r, u) ← reserve n b (usage p);
      Some (mkPlan u (match r with inl _ => loose p | inr r => mkBudgeted v r :: loose p end) (queues p))
  | Grow i n b =>
      match loose p !! i with
      | None => Some p
      | Some v =>
          let '(_, r, u) := grow n b (reservation v) (usage p) in
          Some (mkPlan u (<[i := mkBudgeted (value v) r]> (loose p)) (queues p))
      end
  | Drop i =>
      match loose p !! i with
      | None => Some p
      | Some v => u ← drop_reservation (reservation v) (usage p); Some (mkPlan u (delete i (loose p)) (queues p))
      end
  | NewQueue => '(q, u) ← queue_new (usage p); Some (mkPlan u (loose p) (q :: queues p))
  | Push back k i =>
      match queues p !! k, loose p !! i with
      | Some q, Some v => '(_, q, u) ← push back v q (usage p); Some (mkPlan u (delete i (loose p)) (<[k := q]> (queues p)))
      | _, _ => Some p
      end
  | Requeue k =>
      match queues p !! k with
      | None => Some p
      | Some q => '(_, q, u) ← reserve_requeue_slot q (usage p); Some (mkPlan u (loose p) (<[k := q]> (queues p)))
      end
  | Pop front k =>
      match queues p !! k with
      | None => Some p
      | Some q => '(v, q, u) ← pop front q (usage p); Some (mkPlan u (match v with None => loose p | Some v => v :: loose p end) (<[k := q]> (queues p)))
      end
  | DropQueue k =>
      match queues p !! k with
      | None => Some p
      | Some q => u ← drop_queue q (usage p); Some (mkPlan u (loose p) (delete k (queues p)))
      end
  end.

Fixpoint plan_run (ops : list PlanOp) (p : Plan) : option Plan :=
  match ops with [] => Some p | op :: ops => p ← plan_op op p; plan_run ops p end.

Definition live (p : Plan) : list PlanningReservation := map reservation (loose p) ++ concat (map owns (queues p)).

Definition plan_inv (l : TransferPlanningLimits) (p : Plan) : Prop := balanced l (live p) (usage p) /\ Forall queue_wf (queues p).

Lemma insert_split {A} (xs : list A) i x : xs !! i = Some x -> exists rest, xs ≡ₚ x :: rest /\ delete i xs ≡ₚ rest /\ forall y, <[i := y]> xs ≡ₚ y :: rest.
Proof.
  intros H. exists (delete i xs). split_and!; [by apply delete_Permutation|done|]. intros y.
  rewrite insert_take_drop by (by apply lookup_lt_Some in H). rewrite delete_take_drop. symmetry. apply Permutation_middle.
Qed.

Lemma live_loose v rest xs qs u : xs ≡ₚ v :: rest -> live (mkPlan u xs qs) ≡ₚ reservation v :: live (mkPlan u rest qs).
Proof. intros H. unfold live. cbn [loose queues]. by rewrite H. Qed.

Lemma live_queue q rest xs qs u : qs ≡ₚ q :: rest -> live (mkPlan u xs qs) ≡ₚ owns q ++ live (mkPlan u xs rest).
Proof.
  intros H. unfold live. cbn [loose queues]. assert (concat (map owns qs) ≡ₚ owns q ++ concat (map owns rest)) as ->.
  { rewrite <- !flat_map_concat_map. by rewrite H. }
  rewrite !app_assoc. by rewrite (Permutation_app_comm (map reservation xs) (owns q)).
Qed.

Lemma wf_insert qs k q : Forall queue_wf qs -> queue_wf q -> Forall queue_wf (<[k := q]> qs : list Queue).
Proof. intros H Hq. by apply Forall_insert. Qed.

Context (l : TransferPlanningLimits) (Hi : (max_items l <= usize_max)%N) (Hl : (max_memory_proxy_bytes l <= isize_max)%N).

Lemma queue_op_ok p k q :
  plan_inv l p -> queues p !! k = Some q ->
  exists rest : list Queue, balanced l (owns q ++ map reservation (loose p) ++ concat (map owns rest)) (usage p) /\ queue_wf q /\
    forall q' xs u, queue_wf q' -> balanced l (owns q' ++ map reservation xs ++ concat (map owns rest)) u -> plan_inv l (mkPlan u xs (<[k := q']> (queues p))).
Proof.
  intros [Hb Hw] Hq. destruct (insert_split _ _ _ Hq) as (rest & H1 & _ & H3). exists rest. destruct p as [u xs qs]. cbn [loose queues usage] in *. split_and!.
  - exact (balanced_swap _ _ _ _ Hb (live_queue q rest xs qs u H1)).
  - rewrite Forall_lookup in Hw. by apply (Hw k).
  - intros q' ys u' Hq' Hb'. split; [|by apply wf_insert]. cbn [usage]. apply (balanced_swap _ _ _ _ Hb'). symmetry. by apply (live_queue q' rest ys _ u').
Qed.

Lemma plan_op_ok op p : plan_inv l p -> exists p', plan_op op p = Some p' /\ plan_inv l p'.
Proof.
  intros Hp. destruct op as [v n b|i n b|i| |back k i|k|front k|k]; cbn [plan_op].
  - destruct (reserve_balanced l _ n b _ (proj1 Hp)) as (res & u & E & Hr). rewrite E. cbn [mbind option_bind]. eexists. split; [done|].
    destruct res as [e|r]; [subst u; by destruct p|]. split; [|apply Hp]. apply Hr.
  - destruct (loose p !! i) as [v|] eqn:Ei; [|by exists p]. destruct (insert_split _ _ _ Ei) as (rest & H1 & _ & H3). destruct p as [u xs qs]. destruct Hp as [Hb Hw]. cbn [loose queues usage] in *.
    rewrite (live_loose v rest xs qs u H1) in Hb. pose proof (grow_balanced l _ n b (reservation v) u Hb) as Hg.
    destruct (grow n b (reservation v) u) as [[res r] u']. eexists. split; [done|]. split; [|done]. cbn [usage].
    apply (balanced_swap _ _ _ _ (proj1 Hg)). symmetry. exact (live_loose _ rest _ qs u' (H3 _)).
  - destruct (loose p !! i) as [v|] eqn:Ei; [|by exists p]. destruct (insert_split _ _ _ Ei) as (rest & H1 & H2 & _). destruct p as [u xs qs]. destruct Hp as [Hb Hw]. cbn [loose queues usage] in *.
    rewrite (live_loose v rest xs qs u H1) in Hb. destruct (drop_balanced l _ _ _ Hb) as (u' & E & Hb'). rewrite E. cbn [mbind option_bind]. eexists. split; [done|]. split; [|done].
    apply (balanced_swap _ _ _ _ Hb'). unfold live. cbn [loose queues]. by rewrite H2.
  - destruct (new_queue_ok (T := T) l Hi Hl _ _ (proj1 Hp)) as (q & u & E & _ & Hw & Hb). rewrite E. cbn [mbind option_bind]. eexists. split; [done|].
    split; [|constructor; [done|apply Hp]]. apply (balanced_swap _ _ _ _ Hb). symmetry. destruct p as [u0 xs qs]. by apply (live_queue q qs xs (q :: qs) u).
  - destruct (queues p !! k) as [q|] eqn:Ek; [|by exists p]. destruct (loose p !! i) as [v|] eqn:Ei; [|by exists p].
    destruct (queue_op_ok p k q Hp Ek) as (rest & Hb & Hw & Hdone). destruct (insert_split _ _ _ Ei) as (xs & H1 & H2 & _).
    rewrite H1 in Hb. cbn [map app] in Hb. rewrite <- Permutation_middle in Hb. destruct (push_ok l Hi Hl _ back v q (usage p) Hw Hb) as (res & q' & u & E & Hb' & Hw' & _).
    rewrite E. cbn [mbind option_bind]. eexists. split; [done|]. apply Hdone; [done|]. by rewrite H2.
  - destruct (queues p !! k) as [q|] eqn:Ek; [|by exists p]. destruct (queue_op_ok p k q Hp Ek) as (rest & Hb & Hw & Hdone).
    destruct (ensure_ok l Hi Hl _ q (usage p) Hw Hb) as (res & q' & u & E & Hb' & Hw' & _). unfold reserve_requeue_slot. rewrite E. cbn [mbind option_bind].
    eexists. split; [done|]. by apply Hdone.
  - destruct (queues p !! k) as [q|] eqn:Ek; [|by exists p]. destruct (queue_op_ok p k q Hp Ek) as (rest & Hb & Hw & Hdone).
    destruct (pop_ok l Hi Hl _ front q (usage p) Hw Hb) as (res & q' & u & E & Hw' & Hr). rewrite E. cbn [mbind option_bind]. eexists. split; [done|]. apply Hdone; [done|].
    destruct res as [v|]; [|apply Hr]. destruct Hr as [_ Hb']. cbn [map app]. by rewrite <- Permutation_middle.
  - destruct (queues p !! k) as [q|] eqn:Ek; [|by exists p]. destruct (insert_split _ _ _ Ek) as (rest & H1 & H2 & _). destruct p as [u xs qs]. destruct Hp as [Hb Hw]. cbn [loose queues usage] in *.
    rewrite (live_queue q rest xs qs u H1) in Hb. destruct (drop_queue_ok l _ q u Hb) as (u' & E & Hb'). rewrite E. cbn [mbind option_bind]. eexists. split; [done|].
    split; [|by apply Forall_delete]. apply (balanced_swap _ _ _ _ Hb'). unfold live. cbn [loose queues]. rewrite <- !flat_map_concat_map. by rewrite H2.
Qed.

(** C19: the planning budget is exact.  Whatever is reserved, grown, queued,
    requeued, popped and dropped on one budget, in any order: no call panics,
    the items and bytes in use are exactly those of the reservations still
    alive - in hand, in a queue, or paying for a queue's storage - and they
    never exceed the limits, so that once everything is dropped nothing is in
    use. *)
Theorem planning_budget_is_exact ops :
  exists p, plan_run ops (mkPlan (budget_new l) [] []) = Some p /\
    items (usage p) = held_items (live p) /\ used_bytes (usage p) = held_bytes (live p) /\
    (items (usage p) <= max_items l)%N /\ (used_bytes (usage p) <= max_memory_proxy_bytes l)%N /\ limits (usage p) = l.
Proof.
  assert (plan_inv l (mkPlan (budget_new l) [] [])) as H0 by (split; [constructor; cbn; try done; lia|constructor]).
  assert (forall p, plan_inv l p -> exists p', plan_run ops p = Some p' /\ plan_inv l p') as Hrun.
  { induction ops as [|op ops IH]; intros p Hp; [by exists p|]. destruct (plan_op_ok op p Hp) as (p1 & E & Hp1). cbn [plan_run]. rewrite E. by apply IH. }
  destruct (Hrun _ H0) as (p & E & [[H1 H2 H3 H4 H5] _]). by exists p.
Qed.
End Plan.

(** ** A plan: two entries through a queue *)
Definition exact_allocator : Allocator := {| size_of_budgeted := 48; with_capacity n := n |}.
Definition exact_laws : AllocatorLaws exact_allocator.
Proof. constructor; cbn; [done|done|done|]. intros n Hn. unfold COPY_LIMIT in *. lia. Defined.

Definition sample_limits : TransferPlanningLimits := mkPlanningLimits 4 1000.
Definition sample_plan : list (@PlanOp nat) :=
  [NewQueue; Reserve 1 1 100; Reserve 2 1 200; Push true 0 0; Push false 0 0; Reserve 3 1 900; Pop true 0].

Lemma planning_budget_is_exact_witness :
  exists p, plan_run (Al := exact_allocator) sample_plan (mkPlan (budget_new sample_limits) [] []) = Some p /\
    items (usage p) = held_items (live p) /\ used_bytes (usage p) = held_bytes (live p) /\
    (items (usage p) <= 4)%N /\ (used_bytes (usage p) <= 1000)%N /\ limits (usage p) = sample_limits.
Proof. apply (planning_budget_is_exact (Laws := exact_laws) sample_limits ltac:(vm_compute; discriminate) ltac:(vm_compute; discriminate) sample_plan). Defined.

(** The third reservation is refused, and 100 + 200 bytes and four slots of 48
    are in use. *)
Lemma sample_plan_usage :
  (fun p => (items (usage p), used_bytes (usage p), length (loose p))) <$>
    plan_run (Al := exact_allocator) sample_plan (mkPlan (budget_new sample_limits) [] []) = Some (2%N, 492%N, 1).
Proof. vm_compute. reflexivity. Qed.
