(* ===== verification/BrokerTypes.v ===== *)
(** * The data of the automation broker ([festerm-automation/src/types.rs])

    The references, scopes, proposals, decisions and statuses that the authority
    kernel of [broker.rs], [presentation.rs] and [enrollment_metadata.rs] works
    on, and its state.  A [BTreeMap] is a [gmap] and a [BTreeSet] a [gset];
    where the order of an iteration can be observed, [entries] sorts by key.
    An [Instant] or a [Duration] is its nanoseconds.

    An [Arc<AtomicBool>] is a number, the place of the flag among [flags]; its
    clones are the same number, so that a flag the broker clears is cleared for
    every holder. *)

From Stdlib Require Import NArith Bool.
From stdpp Require Import gmap sorting.
From S2P Require Import Prelude.

Definition u32_max : N := 4294967295.

Definition MAX_GRANT_LIFETIME : N := 300 * 1000000000.
Definition MAX_PAYLOAD_BYTES : N := 65536.
Definition MAX_OBSERVATION_BYTES : N := 32768.
Definition MAX_INPUT_BYTES : N := 16384.
Definition MAX_SCOPE_TARGETS : N := 32.
Definition MAX_CONTROLLER_REGISTRATION_BYTES : N := 128.
Definition MAX_PENDING_APPROVALS : N := 16.
Definition MAX_PRESENTATION_WAIT : N := 5 * 1000000000.
Definition MAX_PRESENTATION_ATTEMPTS_PER_GRANT : N := 16.
Definition MAX_PRESENTATION_ATTEMPTS_PER_BROKER : N := 4096.

(** ** References

    The macro [reference_id] and the hand-written identifiers all have these two
    fields; the sixteen bytes of the instance are one number. *)
Record ReferenceId := mkRef { ref_instance : N; ref_sequence : N }.
#[export] Instance ReferenceId_eq_dec : EqDecision ReferenceId.
Proof. solve_decision. Defined.
#[export] Instance ReferenceId_countable : Countable ReferenceId :=
  inj_countable' (fun r => (ref_instance r, ref_sequence r)) (fun p => mkRef p.1 p.2) (fun r => match r with mkRef _ _ => eq_refl end).
Abbreviation RunId := ReferenceId (only parsing).
Abbreviation RequestId := ReferenceId (only parsing).
Abbreviation ApprovalId := ReferenceId (only parsing).
Abbreviation ConnectionId := ReferenceId (only parsing).
Abbreviation ControllerRegistrationId := ReferenceId (only parsing).
Abbreviation ControllerEnrollmentId := ReferenceId (only parsing).
Abbreviation PresentationRevision := ReferenceId (only parsing).
Abbreviation PresentationMonitorId := ReferenceId (only parsing).
Abbreviation NativeControlGrant := ReferenceId (only parsing).
Abbreviation NativeMetadataGrant := ReferenceId (only parsing).

Record TargetRef := mkTargetRef { tr_instance : N; session : N; tr_generation : N }.
#[export] Instance TargetRef_eq_dec : EqDecision TargetRef.
Proof. solve_decision. Defined.
#[export] Instance TargetRef_countable : Countable TargetRef :=
  inj_countable' (fun t => (tr_instance t, session t, tr_generation t)) (fun p => mkTargetRef p.1.1 p.1.2 p.2)
    (fun t => match t with mkTargetRef _ _ _ => eq_refl end).

(** The keys of a [BTreeMap] in their derived order. *)
Class KeyOrder (K : Type) := key_le : K -> K -> bool.
#[export] Instance ReferenceId_order : KeyOrder ReferenceId := fun a b =>
  if (ref_instance a =? ref_instance b)%N then (ref_sequence a <=? ref_sequence b)%N else (ref_instance a <? ref_instance b)%N.
Definition entries {K A : Type} `{Countable K} `{KeyOrder K} (m : gmap K A) : list (K * A) :=
  merge_sort (fun x y => Is_true (key_le x.1 y.1)) (map_to_list m).
(** [len] of a map or set. *)
Definition len {A : Type} `{Size A} (m : A) : N := N.of_nat (size m).

(** ** Scopes and proposals *)
Definition Digest : Type := list N.

Inductive DirectKind := Discovery | Observation | WorkflowStart | KindRunStatus | RunCancel.
#[export] Instance DirectKind_eq_dec : EqDecision DirectKind.
Proof. solve_decision. Defined.
Definition direct_kind_code (k : DirectKind) : nat :=
  match k with Discovery => 0 | Observation => 1 | WorkflowStart => 2 | KindRunStatus => 3 | RunCancel => 4 end.
Definition direct_kind_of (n : nat) : option DirectKind :=
  match n with 0 => Some Discovery | 1 => Some Observation | 2 => Some WorkflowStart | 3 => Some KindRunStatus | 4 => Some RunCancel | _ => None end.
#[export] Instance DirectKind_countable : Countable DirectKind.
Proof. refine (inj_countable direct_kind_code direct_kind_of _). by intros []. Defined.

Inductive Invocation :=
  | Direct (operation : DirectKind)
  | DirectInput (target : TargetRef) (input : Digest) (bytes : N)
  | Workflow (bundle manifest : Digest).
#[export] Instance Invocation_eq_dec : EqDecision Invocation.
Proof. solve_decision. Defined.
#[export] Instance Invocation_countable : Countable Invocation.
Proof.
  refine (inj_countable'
    (fun i => match i with
              | Direct k => inl k
              | DirectInput t d n => inr (inl (t, d, n))
              | Workflow a b => inr (inr (a, b))
              end)
    (fun s => match s with
              | inl k => Direct k
              | inr (inl p) => DirectInput p.1.1 p.1.2 p.2
              | inr (inr p) => Workflow p.1 p.2
              end) _).
  by intros [].
Defined.

Record InvocationBinding := mkBinding { api_version : N; invocation : Invocation; parameters : Digest }.
#[export] Instance InvocationBinding_eq_dec : EqDecision InvocationBinding.
Proof. solve_decision. Defined.
#[export] Instance InvocationBinding_countable : Countable InvocationBinding :=
  inj_countable' (fun b => (api_version b, invocation b, parameters b)) (fun p => mkBinding p.1.1 p.1.2 p.2)
    (fun b => match b with mkBinding _ _ _ => eq_refl end).

Record Scope := mkScope {
  discover : gset TargetRef;
  observe : gset TargetRef;
  control : gset TargetRef;
  invoke_workflows : bool;
  return_results : bool
}.
#[export] Instance Scope_eq_dec : EqDecision Scope.
Proof. solve_decision. Defined.
Definition Scope_default : Scope := mkScope ∅ ∅ ∅ false false.

Definition subset_of (s parent : Scope) : bool :=
  bool_decide (discover s ⊆ discover parent) &&
  bool_decide (observe s ⊆ observe parent) &&
  bool_decide (control s ⊆ control parent) &&
  (negb (invoke_workflows s) || invoke_workflows parent) &&
  (negb (return_results s) || return_results parent).
Definition sources (s : Scope) : gset TargetRef := discover s ∪ observe s.
Definition scope_targets (s : Scope) : gset TargetRef := sources s ∪ control s.

Record GrantRequest := mkGrantRequest {
  scope : Scope;
  bindings : gset InvocationBinding;
  direct_read_calls : gset DirectKind
}.
#[export] Instance GrantRequest_eq_dec : EqDecision GrantRequest.
Proof. solve_decision. Defined.

(** [MetadataGrantRequest] has the one field [targets]. *)
Definition MetadataGrantRequest : Type := gset TargetRef.

Record Usage := mkUsage { used_operations : N; used_bytes : N }.
Definition Usage_default : Usage := mkUsage 0 0.

Inductive GrantSlot := Ordinary | Metadata | EnrollmentMetadata (registration enrollment : ReferenceId).
#[export] Instance GrantSlot_eq_dec : EqDecision GrantSlot.
Proof. solve_decision. Defined.

Record GrantRevisions := mkRevisions { rev_ordinary : N; rev_metadata : N; rev_enrollment : N }.
#[export] Instance set_rev_ordinary : Setter rev_ordinary := fun v r => mkRevisions v (rev_metadata r) (rev_enrollment r).
#[export] Instance set_rev_metadata : Setter rev_metadata := fun v r => mkRevisions (rev_ordinary r) v (rev_enrollment r).
#[export] Instance set_rev_enrollment : Setter rev_enrollment := fun v r => mkRevisions (rev_ordinary r) (rev_metadata r) v.
#[export] Instance GrantRevisions_eq_dec : EqDecision GrantRevisions.
Proof. solve_decision. Defined.
Definition GrantRevisions_default : GrantRevisions := mkRevisions 0 0 0.

Record NativeEnrollmentMetadataGrant := mkNativeEnrollment {
  ne_connection : ConnectionId;
  ne_registration : ControllerRegistrationId;
  ne_enrollment : ControllerEnrollmentId;
  ne_target : TargetRef;
  ne_epoch : N;
  ne_expires : N
}.
#[export] Instance NativeEnrollmentMetadataGrant_eq_dec : EqDecision NativeEnrollmentMetadataGrant.
Proof. solve_decision. Defined.
#[export] Instance NativeEnrollmentMetadataGrant_countable : Countable NativeEnrollmentMetadataGrant :=
  inj_countable' (fun g => (ne_connection g, ne_registration g, ne_enrollment g, ne_target g, ne_epoch g, ne_expires g))
    (fun p => mkNativeEnrollment p.1.1.1.1.1 p.1.1.1.1.2 p.1.1.1.2 p.1.1.2 p.1.2 p.2)
    (fun g => match g with mkNativeEnrollment _ _ _ _ _ _ => eq_refl end).

Record NativeOrdinaryEnrollmentReview := mkOrdinaryReview {
  or_connection : ConnectionId;
  or_id : ApprovalId;
  or_revisions : GrantRevisions;
  or_ordinary_epoch : option N;
  or_grants : list NativeEnrollmentMetadataGrant;
  or_sinks : gset TargetRef
}.

Record NativeApproval := mkApproval {
  ap_request : GrantRequest;
  ap_lifetime : N;
  ap_handoffs : gmap TargetRef (gset TargetRef);
  enrollment_metadata : gset NativeEnrollmentMetadataGrant;
  enrollment_disclosures : gmap NativeEnrollmentMetadataGrant (gset TargetRef);
  enrollment_review : option NativeOrdinaryEnrollmentReview
}.
#[export] Instance set_ap_request : Setter ap_request := fun v r => mkApproval v (ap_lifetime r) (ap_handoffs r) (enrollment_metadata r) (enrollment_disclosures r) (enrollment_review r).
#[export] Instance set_ap_lifetime : Setter ap_lifetime := fun v r => mkApproval (ap_request r) v (ap_handoffs r) (enrollment_metadata r) (enrollment_disclosures r) (enrollment_review r).
#[export] Instance set_ap_handoffs : Setter ap_handoffs := fun v r => mkApproval (ap_request r) (ap_lifetime r) v (enrollment_metadata r) (enrollment_disclosures r) (enrollment_review r).
#[export] Instance set_enrollment_metadata : Setter enrollment_metadata := fun v r => mkApproval (ap_request r) (ap_lifetime r) (ap_handoffs r) v (enrollment_disclosures r) (enrollment_review r).
#[export] Instance set_enrollment_disclosures : Setter enrollment_disclosures := fun v r => mkApproval (ap_request r) (ap_lifetime r) (ap_handoffs r) (enrollment_metadata r) v (enrollment_review r).
#[export] Instance set_enrollment_review : Setter enrollment_review := fun v r => mkApproval (ap_request r) (ap_lifetime r) (ap_handoffs r) (enrollment_metadata r) (enrollment_disclosures r) v.
Definition NativeApproval_new (request : GrantRequest) (lifetime : N) : NativeApproval :=
  mkApproval request lifetime ∅ ∅ ∅ None.
Definition accept_control_handoff (target : TargetRef) (all_readable_sources : gset TargetRef) (a : NativeApproval) : NativeApproval :=
  a <| ap_handoffs := <[target := all_readable_sources]> (ap_handoffs a) |>.
Definition new_for_enrollment (request : GrantRequest) (lifetime : N) (review : NativeOrdinaryEnrollmentReview) : NativeApproval :=
  (NativeApproval_new request lifetime) <| enrollment_review := Some review |>.
Definition accept_enrollment_metadata (g : NativeEnrollmentMetadataGrant) (a : NativeApproval) : NativeApproval :=
  a <| enrollment_metadata := {[g]} ∪ enrollment_metadata a |>.
Definition accept_metadata_control_sink (g : NativeEnrollmentMetadataGrant) (sink : TargetRef) (a : NativeApproval) : NativeApproval :=
  a <| enrollment_disclosures := <[g := {[sink]} ∪ default ∅ (enrollment_disclosures a !! g)]> (enrollment_disclosures a) |>.
Definition is_single_control_handoff (target : TargetRef) (a : NativeApproval) : bool :=
  (len (control (scope (ap_request a))) =? 1)%N && bool_decide (target ∈ control (scope (ap_request a))) &&
  bool_decide (is_Some (ap_handoffs a !! target)).

Record ControllerEnrollmentProposal := mkEnrollmentProposal {
  ep_connection : ConnectionId;
  ep_registration : ControllerRegistrationId;
  ep_target : TargetRef;
  ep_revision : N
}.

Record NativeMetadataApproval := mkMetadataApproval {
  ma_targets : gset TargetRef;
  ma_lifetime : N;
  control_disclosures : gmap TargetRef (gset TargetRef)
}.
#[export] Instance set_ma_targets : Setter ma_targets := fun v r => mkMetadataApproval v (ma_lifetime r) (control_disclosures r).
#[export] Instance set_ma_lifetime : Setter ma_lifetime := fun v r => mkMetadataApproval (ma_targets r) v (control_disclosures r).
#[export] Instance set_control_disclosures : Setter control_disclosures := fun v r => mkMetadataApproval (ma_targets r) (ma_lifetime r) v.
Definition NativeMetadataApproval_new (request : MetadataGrantRequest) (lifetime : N) : NativeMetadataApproval :=
  mkMetadataApproval request lifetime ∅.
Definition accept_control_disclosure (target : TargetRef) (metadata_sources : gset TargetRef) (a : NativeMetadataApproval) : NativeMetadataApproval :=
  a <| control_disclosures := <[target := metadata_sources]> (control_disclosures a) |>.

(** ** Runs, leases and operations *)
Record Budget := mkBudget { operations : N; disclosed_bytes : N }.
#[export] Instance Budget_eq_dec : EqDecision Budget.
Proof. solve_decision. Defined.
Definition Budget_default : Budget := mkBudget 256 1048576.

Record RunSpec := mkRunSpec { binding : InvocationBinding; spec_scope : Scope; budget : Budget; deadline : N }.
#[export] Instance RunSpec_eq_dec : EqDecision RunSpec.
Proof. solve_decision. Defined.
Record MetadataRunSpec := mkMetadataRunSpec { ms_parameters : Digest; ms_targets : gset TargetRef; ms_budget : Budget; ms_deadline : N }.

Definition StartKey : Type := N.

Record LeaseRef := mkLease { lease_target : TargetRef; lease_run : RunId; lease_epoch : N }.
#[export] Instance LeaseRef_eq_dec : EqDecision LeaseRef.
Proof. solve_decision. Defined.

Record LeaseTransition := mkTransition { lt_connection : ConnectionId; lt_run : RunId; lt_target : TargetRef; observed_epoch : N }.

Record PresentationRequirement := mkRequirement {
  pr_registration : ControllerRegistrationId;
  pr_enrollment : ControllerEnrollmentId;
  pr_revision : PresentationRevision
}.
#[export] Instance PresentationRequirement_eq_dec : EqDecision PresentationRequirement.
Proof. solve_decision. Defined.

Inductive Operation :=
  | Discover (max_bytes : N)
  | Observe (target : TargetRef) (max_bytes : N)
  | Control (lease : LeaseRef) (input : Digest) (bytes : N) (presentation : option PresentationRequirement)
  | ResultOp (max_bytes : N).
#[export] Instance Operation_eq_dec : EqDecision Operation.
Proof. solve_decision. Defined.

Definition op_reserved_bytes (o : Operation) : N :=
  match o with
  | Discover max_bytes => max_bytes
  | Observe _ max_bytes => max_bytes
  | ResultOp max_bytes => max_bytes
  | Control _ _ _ _ => 0
  end.
Definition is_control_op (o : Operation) : bool := match o with Control _ _ _ _ => true | _ => false end.

Inductive Error :=
  | Unauthorized | InvalidRequest | StaleTarget | Expired | Revoked | QuotaExceeded | Busy | Closed
  | BindingMismatch | Unavailable | ForegroundRefused | UnsettledHostCalls | UnsettledChildRuns.
#[export] Instance Error_eq_dec : EqDecision Error.
Proof. solve_decision. Defined.

Inductive RunState := Running | Completed | Failed | Cancelled | TimedOut | Interrupted.
#[export] Instance RunState_eq_dec : EqDecision RunState.
Proof. solve_decision. Defined.

Record RunStatus := mkStatus { run_state : RunState; failure : option Error; admitted_effects : N; execution_outcome_unknown : bool }.
#[export] Instance set_run_state : Setter run_state := fun v r => mkStatus v (failure r) (admitted_effects r) (execution_outcome_unknown r).
#[export] Instance set_failure : Setter failure := fun v r => mkStatus (run_state r) v (admitted_effects r) (execution_outcome_unknown r).
#[export] Instance set_admitted_effects : Setter admitted_effects := fun v r => mkStatus (run_state r) (failure r) v (execution_outcome_unknown r).
#[export] Instance set_execution_outcome_unknown : Setter execution_outcome_unknown := fun v r => mkStatus (run_state r) (failure r) (admitted_effects r) v.

Inductive Completion := Returned | CompletionFailed.
#[export] Instance Completion_eq_dec : EqDecision Completion.
Proof. solve_decision. Defined.

Record Limits := mkLimits {
  max_connections : N;
  max_targets : N;
  max_registrations : N;
  max_registrations_per_connection : N;
  retained_runs : N;
  global_operations : N;
  global_disclosed_bytes : N
}.
Definition Limits_default : Limits := mkLimits 16 128 128 16 128 4096 (16 * 1048576).

(** ** Grants *)
Record Grant := mkGrant {
  g_epoch : N;
  g_request : GrantRequest;
  g_handoffs : gmap TargetRef (gset TargetRef);
  g_expires : N;
  g_usage : Usage;
  g_delivery : nat
}.
#[export] Instance set_g_epoch : Setter g_epoch := fun v r => mkGrant v (g_request r) (g_handoffs r) (g_expires r) (g_usage r) (g_delivery r).
#[export] Instance set_g_request : Setter g_request := fun v r => mkGrant (g_epoch r) v (g_handoffs r) (g_expires r) (g_usage r) (g_delivery r).
#[export] Instance set_g_handoffs : Setter g_handoffs := fun v r => mkGrant (g_epoch r) (g_request r) v (g_expires r) (g_usage r) (g_delivery r).
#[export] Instance set_g_expires : Setter g_expires := fun v r => mkGrant (g_epoch r) (g_request r) (g_handoffs r) v (g_usage r) (g_delivery r).
#[export] Instance set_g_usage : Setter g_usage := fun v r => mkGrant (g_epoch r) (g_request r) (g_handoffs r) (g_expires r) v (g_delivery r).
#[export] Instance set_g_delivery : Setter g_delivery := fun v r => mkGrant (g_epoch r) (g_request r) (g_handoffs r) (g_expires r) (g_usage r) v.

Record MetadataGrant := mkMetadataGrant {
  m_epoch : N;
  m_targets : gset TargetRef;
  m_expires : N;
  m_usage : Usage;
  m_delivery : nat
}.
#[export] Instance set_m_epoch : Setter m_epoch := fun v r => mkMetadataGrant v (m_targets r) (m_expires r) (m_usage r) (m_delivery r).
#[export] Instance set_m_targets : Setter m_targets := fun v r => mkMetadataGrant (m_epoch r) v (m_expires r) (m_usage r) (m_delivery r).
#[export] Instance set_m_expires : Setter m_expires := fun v r => mkMetadataGrant (m_epoch r) (m_targets r) v (m_usage r) (m_delivery r).
#[export] Instance set_m_usage : Setter m_usage := fun v r => mkMetadataGrant (m_epoch r) (m_targets r) (m_expires r) v (m_delivery r).
#[export] Instance set_m_delivery : Setter m_delivery := fun v r => mkMetadataGrant (m_epoch r) (m_targets r) (m_expires r) (m_usage r) v.

Inductive GrantRef := RefOrdinary (g : Grant) | RefMetadata (g : MetadataGrant).
Definition ref_epoch (g : GrantRef) : N := match g with RefOrdinary g => g_epoch g | RefMetadata g => m_epoch g end.
Definition ref_expires (g : GrantRef) : N := match g with RefOrdinary g => g_expires g | RefMetadata g => m_expires g end.
Definition ref_usage (g : GrantRef) : Usage := match g with RefOrdinary g => g_usage g | RefMetadata g => m_usage g end.
Definition ref_delivery (g : GrantRef) : nat := match g with RefOrdinary g => g_delivery g | RefMetadata g => m_delivery g end.

Record PresentationGrant := mkPresentationGrant {
  pg_enrollment : ControllerEnrollmentId;
  pg_target : TargetRef;
  pg_epoch : N;
  pg_expires : N;
  pg_attempts : N
}.
#[export] Instance set_pg_enrollment : Setter pg_enrollment := fun v r => mkPresentationGrant v (pg_target r) (pg_epoch r) (pg_expires r) (pg_attempts r).
#[export] Instance set_pg_target : Setter pg_target := fun v r => mkPresentationGrant (pg_enrollment r) v (pg_epoch r) (pg_expires r) (pg_attempts r).
#[export] Instance set_pg_epoch : Setter pg_epoch := fun v r => mkPresentationGrant (pg_enrollment r) (pg_target r) v (pg_expires r) (pg_attempts r).
#[export] Instance set_pg_expires : Setter pg_expires := fun v r => mkPresentationGrant (pg_enrollment r) (pg_target r) (pg_epoch r) v (pg_attempts r).
#[export] Instance set_pg_attempts : Setter pg_attempts := fun v r => mkPresentationGrant (pg_enrollment r) (pg_target r) (pg_epoch r) (pg_expires r) v.

Record EnrollmentMetadataDecision := mkDecision {
  md_id : ReferenceId;
  md_enrollment : ControllerEnrollmentId;
  md_ordinary_revision : N;
  md_expires : N
}.
#[export] Instance EnrollmentMetadataDecision_eq_dec : EqDecision EnrollmentMetadataDecision.
Proof. solve_decision. Defined.

Record EnrollmentCrossConsent := mkConsent { cc_ordinary_epoch : N; cc_metadata_epoch : N; cc_sinks : gset TargetRef }.

Record ControllerEnrollment := mkEnrollment { enr_id : ControllerEnrollmentId; enr_target : TargetRef }.

Record ControllerRegistration := mkRegistration {
  local_id : list N;
  reg_revision : N;
  enrollment : option ControllerEnrollment;
  presentation_review : option N;
  presentation_grant : option PresentationGrant;
  metadata_review : option N;
  metadata_decision : option EnrollmentMetadataDecision;
  metadata_grant : option MetadataGrant;
  metadata_cross_consent : option EnrollmentCrossConsent
}.
#[export] Instance set_local_id : Setter local_id := fun v r => mkRegistration v (reg_revision r) (enrollment r) (presentation_review r) (presentation_grant r) (metadata_review r) (metadata_decision r) (metadata_grant r) (metadata_cross_consent r).
#[export] Instance set_reg_revision : Setter reg_revision := fun v r => mkRegistration (local_id r) v (enrollment r) (presentation_review r) (presentation_grant r) (metadata_review r) (metadata_decision r) (metadata_grant r) (metadata_cross_consent r).
#[export] Instance set_enrollment : Setter enrollment := fun v r => mkRegistration (local_id r) (reg_revision r) v (presentation_review r) (presentation_grant r) (metadata_review r) (metadata_decision r) (metadata_grant r) (metadata_cross_consent r).
#[export] Instance set_presentation_review : Setter presentation_review := fun v r => mkRegistration (local_id r) (reg_revision r) (enrollment r) v (presentation_grant r) (metadata_review r) (metadata_decision r) (metadata_grant r) (metadata_cross_consent r).
#[export] Instance set_presentation_grant : Setter presentation_grant := fun v r => mkRegistration (local_id r) (reg_revision r) (enrollment r) (presentation_review r) v (metadata_review r) (metadata_decision r) (metadata_grant r) (metadata_cross_consent r).
#[export] Instance set_metadata_review : Setter metadata_review := fun v r => mkRegistration (local_id r) (reg_revision r) (enrollment r) (presentation_review r) (presentation_grant r) v (metadata_decision r) (metadata_grant r) (metadata_cross_consent r).
#[export] Instance set_metadata_decision : Setter metadata_decision := fun v r => mkRegistration (local_id r) (reg_revision r) (enrollment r) (presentation_review r) (presentation_grant r) (metadata_review r) v (metadata_grant r) (metadata_cross_consent r).
#[export] Instance set_metadata_grant : Setter metadata_grant := fun v r => mkRegistration (local_id r) (reg_revision r) (enrollment r) (presentation_review r) (presentation_grant r) (metadata_review r) (metadata_decision r) v (metadata_cross_consent r).
#[export] Instance set_metadata_cross_consent : Setter metadata_cross_consent := fun v r => mkRegistration (local_id r) (reg_revision r) (enrollment r) (presentation_review r) (presentation_grant r) (metadata_review r) (metadata_decision r) (metadata_grant r) v.

Record Principal := mkPrincipal {
  grant : option Grant;
  metadata : option MetadataGrant;
  revisions : GrantRevisions;
  cross_consent : option (N * N);
  p_usage : Usage;
  p_approvals_requested : N;
  controller_registrations : gmap ControllerRegistrationId ControllerRegistration
}.
#[export] Instance set_grant : Setter grant := fun v r => mkPrincipal v (metadata r) (revisions r) (cross_consent r) (p_usage r) (p_approvals_requested r) (controller_registrations r).
#[export] Instance set_metadata : Setter metadata := fun v r => mkPrincipal (grant r) v (revisions r) (cross_consent r) (p_usage r) (p_approvals_requested r) (controller_registrations r).
#[export] Instance set_revisions : Setter revisions := fun v r => mkPrincipal (grant r) (metadata r) v (cross_consent r) (p_usage r) (p_approvals_requested r) (controller_registrations r).
#[export] Instance set_cross_consent : Setter cross_consent := fun v r => mkPrincipal (grant r) (metadata r) (revisions r) v (p_usage r) (p_approvals_requested r) (controller_registrations r).
#[export] Instance set_p_usage : Setter p_usage := fun v r => mkPrincipal (grant r) (metadata r) (revisions r) (cross_consent r) v (p_approvals_requested r) (controller_registrations r).
#[export] Instance set_p_approvals_requested : Setter p_approvals_requested := fun v r => mkPrincipal (grant r) (metadata r) (revisions r) (cross_consent r) (p_usage r) v (controller_registrations r).
#[export] Instance set_controller_registrations : Setter controller_registrations := fun v r => mkPrincipal (grant r) (metadata r) (revisions r) (cross_consent r) (p_usage r) (p_approvals_requested r) v.
Definition Principal_new : Principal := mkPrincipal None None GrantRevisions_default None Usage_default 0 ∅.

(** ** Pending approvals, targets, runs and requests *)
Inductive PendingProposal :=
  | ProposeOrdinary (request : GrantRequest)
  | ProposeMetadata (request : MetadataGrantRequest)
  | ProposeEnrollmentMetadata (registration : ControllerRegistrationId) (enrollment : ControllerEnrollmentId) (target : TargetRef).

Definition Ownership : Type := gmap TargetRef (N * option LeaseRef).

Record PendingApproval := mkPending {
  pa_connection : ConnectionId;
  pa_proposal : PendingProposal;
  pa_expires : N;
  pa_ownership : Ownership;
  pa_revisions : GrantRevisions
}.

Record Target := mkTarget { reference : TargetRef; active : bool; ownership_epoch : N; writer : option LeaseRef }.
#[export] Instance set_reference : Setter reference := fun v r => mkTarget v (active r) (ownership_epoch r) (writer r).
#[export] Instance set_active : Setter active := fun v r => mkTarget (reference r) v (ownership_epoch r) (writer r).
#[export] Instance set_ownership_epoch : Setter ownership_epoch := fun v r => mkTarget (reference r) (active r) v (writer r).
#[export] Instance set_writer : Setter writer := fun v r => mkTarget (reference r) (active r) (ownership_epoch r) v.

Record Run := mkRun {
  r_connection : ConnectionId;
  r_slot : GrantSlot;
  r_grant_epoch : N;
  r_parent : option RunId;
  r_spec : RunSpec;
  frozen_sources : gset TargetRef;
  frozen_controls : gset TargetRef;
  r_usage : Usage;
  status_of : RunStatus;
  started_workflow : option (StartKey * RunId);
  direct_input_prepared : bool;
  r_delivery : nat;
  descendant_delivery : nat
}.
#[export] Instance set_r_connection : Setter r_connection := fun v r => mkRun v (r_slot r) (r_grant_epoch r) (r_parent r) (r_spec r) (frozen_sources r) (frozen_controls r) (r_usage r) (status_of r) (started_workflow r) (direct_input_prepared r) (r_delivery r) (descendant_delivery r).
#[export] Instance set_r_slot : Setter r_slot := fun v r => mkRun (r_connection r) v (r_grant_epoch r) (r_parent r) (r_spec r) (frozen_sources r) (frozen_controls r) (r_usage r) (status_of r) (started_workflow r) (direct_input_prepared r) (r_delivery r) (descendant_delivery r).
#[export] Instance set_r_grant_epoch : Setter r_grant_epoch := fun v r => mkRun (r_connection r) (r_slot r) v (r_parent r) (r_spec r) (frozen_sources r) (frozen_controls r) (r_usage r) (status_of r) (started_workflow r) (direct_input_prepared r) (r_delivery r) (descendant_delivery r).
#[export] Instance set_r_parent : Setter r_parent := fun v r => mkRun (r_connection r) (r_slot r) (r_grant_epoch r) v (r_spec r) (frozen_sources r) (frozen_controls r) (r_usage r) (status_of r) (started_workflow r) (direct_input_prepared r) (r_delivery r) (descendant_delivery r).
#[export] Instance set_r_spec : Setter r_spec := fun v r => mkRun (r_connection r) (r_slot r) (r_grant_epoch r) (r_parent r) v (frozen_sources r) (frozen_controls r) (r_usage r) (status_of r) (started_workflow r) (direct_input_prepared r) (r_delivery r) (descendant_delivery r).
#[export] Instance set_frozen_sources : Setter frozen_sources := fun v r => mkRun (r_connection r) (r_slot r) (r_grant_epoch r) (r_parent r) (r_spec r) v (frozen_controls r) (r_usage r) (status_of r) (started_workflow r) (direct_input_prepared r) (r_delivery r) (descendant_delivery r).
#[export] Instance set_frozen_controls : Setter frozen_controls := fun v r => mkRun (r_connection r) (r_slot r) (r_grant_epoch r) (r_parent r) (r_spec r) (frozen_sources r) v (r_usage r) (status_of r) (started_workflow r) (direct_input_prepared r) (r_delivery r) (descendant_delivery r).
#[export] Instance set_r_usage : Setter r_usage := fun v r => mkRun (r_connection r) (r_slot r) (r_grant_epoch r) (r_parent r) (r_spec r) (frozen_sources r) (frozen_controls r) v (status_of r) (started_workflow r) (direct_input_prepared r) (r_delivery r) (descendant_delivery r).
#[export] Instance set_status_of : Setter status_of := fun v r => mkRun (r_connection r) (r_slot r) (r_grant_epoch r) (r_parent r) (r_spec r) (frozen_sources r) (frozen_controls r) (r_usage r) v (started_workflow r) (direct_input_prepared r) (r_delivery r) (descendant_delivery r).
#[export] Instance set_started_workflow : Setter started_workflow := fun v r => mkRun (r_connection r) (r_slot r) (r_grant_epoch r) (r_parent r) (r_spec r) (frozen_sources r) (frozen_controls r) (r_usage r) (status_of r) v (direct_input_prepared r) (r_delivery r) (descendant_delivery r).
#[export] Instance set_direct_input_prepared : Setter direct_input_prepared := fun v r => mkRun (r_connection r) (r_slot r) (r_grant_epoch r) (r_parent r) (r_spec r) (frozen_sources r) (frozen_controls r) (r_usage r) (status_of r) (started_workflow r) v (r_delivery r) (descendant_delivery r).
#[export] Instance set_r_delivery : Setter r_delivery := fun v r => mkRun (r_connection r) (r_slot r) (r_grant_epoch r) (r_parent r) (r_spec r) (frozen_sources r) (frozen_controls r) (r_usage r) (status_of r) (started_workflow r) (direct_input_prepared r) v (descendant_delivery r).
#[export] Instance set_descendant_delivery : Setter descendant_delivery := fun v r => mkRun (r_connection r) (r_slot r) (r_grant_epoch r) (r_parent r) (r_spec r) (frozen_sources r) (frozen_controls r) (r_usage r) (status_of r) (started_workflow r) (direct_input_prepared r) (r_delivery r) v.

Record Request := mkRequest { rq_run : RunId; rq_operation : Operation; committed : bool }.
#[export] Instance set_rq_run : Setter rq_run := fun v r => mkRequest v (rq_operation r) (committed r).
#[export] Instance set_rq_operation : Setter rq_operation := fun v r => mkRequest (rq_run r) v (committed r).
#[export] Instance set_committed : Setter committed := fun v r => mkRequest (rq_run r) (rq_operation r) v.

Record StartReceipt := mkReceipt { sr_grant_epoch : N; sr_spec : RunSpec; sr_run : RunId }.

Record DisclosureLiveness := mkLiveness {
  dl_connection : ConnectionId;
  dl_deadline : N;
  dl_grant : nat;
  dl_run : nat;
  dl_ancestors : list nat
}.

(** ** Presentation *)
Definition PresentationWindowId : Type := N.

Inductive NativePresentationState :=
  | Foreground (window : PresentationWindowId) (selected : option TargetRef) (workspace_revision : N)
  | Inactive
  | Unknown
  | StateForegroundRefused.

Record NativePresentationObservation := mkObservation {
  ob_monitor : PresentationMonitorId;
  ob_transitions : N;
  ob_sample : N;
  ob_window : PresentationWindowId;
  ob_selected : TargetRef;
  ob_workspace_revision : N
}.

Record PresentationAttempt := mkAttempt {
  at_connection : ConnectionId;
  at_id : N;
  at_target : TargetRef;
  at_window : PresentationWindowId;
  at_deadline : N
}.
#[export] Instance PresentationAttempt_eq_dec : EqDecision PresentationAttempt.
Proof. solve_decision. Defined.

Record Monitor := mkMonitor { mon_id : PresentationMonitorId; transitions : N; samples : N }.
#[export] Instance set_mon_id : Setter mon_id := fun v r => mkMonitor v (transitions r) (samples r).
#[export] Instance set_transitions : Setter transitions := fun v r => mkMonitor (mon_id r) v (samples r).
#[export] Instance set_samples : Setter samples := fun v r => mkMonitor (mon_id r) (transitions r) v.

Inductive SlotPhase :=
  | Prepared
  | Waiting (after_sample : N)
  | Confirmed (revision : PresentationRevision) (transitions workspace_revision last_sample : N).
Definition is_confirmed (p : SlotPhase) : bool := match p with Confirmed _ _ _ _ => true | _ => false end.

Record PresentationSlot := mkSlot {
  attempt : PresentationAttempt;
  sl_registration : ControllerRegistrationId;
  sl_enrollment : ControllerEnrollmentId;
  sl_grant_epoch : N;
  sl_grant_expires : N;
  sl_monitor : PresentationMonitorId;
  slot_phase : SlotPhase
}.
#[export] Instance set_attempt : Setter attempt := fun v r => mkSlot v (sl_registration r) (sl_enrollment r) (sl_grant_epoch r) (sl_grant_expires r) (sl_monitor r) (slot_phase r).
#[export] Instance set_sl_registration : Setter sl_registration := fun v r => mkSlot (attempt r) v (sl_enrollment r) (sl_grant_epoch r) (sl_grant_expires r) (sl_monitor r) (slot_phase r).
#[export] Instance set_sl_enrollment : Setter sl_enrollment := fun v r => mkSlot (attempt r) (sl_registration r) v (sl_grant_epoch r) (sl_grant_expires r) (sl_monitor r) (slot_phase r).
#[export] Instance set_sl_grant_epoch : Setter sl_grant_epoch := fun v r => mkSlot (attempt r) (sl_registration r) (sl_enrollment r) v (sl_grant_expires r) (sl_monitor r) (slot_phase r).
#[export] Instance set_sl_grant_expires : Setter sl_grant_expires := fun v r => mkSlot (attempt r) (sl_registration r) (sl_enrollment r) (sl_grant_epoch r) v (sl_monitor r) (slot_phase r).
#[export] Instance set_sl_monitor : Setter sl_monitor := fun v r => mkSlot (attempt r) (sl_registration r) (sl_enrollment r) (sl_grant_epoch r) (sl_grant_expires r) v (slot_phase r).
#[export] Instance set_slot_phase : Setter slot_phase := fun v r => mkSlot (attempt r) (sl_registration r) (sl_enrollment r) (sl_grant_epoch r) (sl_grant_expires r) (sl_monitor r) v.

Record PresentationState := mkPresentation { monitor : option Monitor; pslot : option PresentationSlot; attempts : N }.
#[export] Instance set_monitor : Setter monitor := fun v r => mkPresentation v (pslot r) (attempts r).
#[export] Instance set_pslot : Setter pslot := fun v r => mkPresentation (monitor r) v (attempts r).
#[export] Instance set_attempts : Setter attempts := fun v r => mkPresentation (monitor r) (pslot r) v.
Definition PresentationState_default : PresentationState := mkPresentation None None 0.

Record PresentationApprovalProposal := mkPresentationProposal {
  pp_connection : ConnectionId;
  pp_registration : ControllerRegistrationId;
  pp_enrollment : ControllerEnrollmentId;
  pp_target : TargetRef;
  pp_review : N;
  pp_expires : N
}.

Record ConfirmedPresentation := mkConfirmed { cp_target : TargetRef; cp_revision : PresentationRevision }.

(** ** Enrollment metadata *)
Record EnrollmentMetadataGrantProposal := mkMetadataProposal {
  mp_id : ApprovalId;
  mp_connection : ConnectionId;
  mp_registration : ControllerRegistrationId;
  mp_enrollment : ControllerEnrollmentId;
  mp_target : TargetRef;
  mp_controls : gset TargetRef;
  mp_control_grant : option NativeControlGrant
}.

Record NativeEnrollmentMetadataGrantApproval := mkMetadataGrantApproval {
  mg_proposal : EnrollmentMetadataGrantProposal;
  mg_lifetime : N;
  mg_control_sinks : gset TargetRef;
  mg_control_disclosures : gmap NativeControlGrant (gset TargetRef)
}.
#[export] Instance set_mg_proposal : Setter mg_proposal := fun v r => mkMetadataGrantApproval v (mg_lifetime r) (mg_control_sinks r) (mg_control_disclosures r).
#[export] Instance set_mg_lifetime : Setter mg_lifetime := fun v r => mkMetadataGrantApproval (mg_proposal r) v (mg_control_sinks r) (mg_control_disclosures r).
#[export] Instance set_mg_control_sinks : Setter mg_control_sinks := fun v r => mkMetadataGrantApproval (mg_proposal r) (mg_lifetime r) v (mg_control_disclosures r).
#[export] Instance set_mg_control_disclosures : Setter mg_control_disclosures := fun v r => mkMetadataGrantApproval (mg_proposal r) (mg_lifetime r) (mg_control_sinks r) v.

Record EnrollmentMetadataReview := mkReview {
  mr_connection : ConnectionId;
  mr_registration : ControllerRegistrationId;
  mr_enrollment : ControllerEnrollmentId;
  mr_target : TargetRef;
  mr_review : N;
  mr_ordinary_revision : N;
  mr_ownership : Ownership;
  mr_expires : N
}.

Record NativeEnrollmentMetadataApproval := mkReviewApproval {
  ra_review : EnrollmentMetadataReview;
  ra_lifetime : N;
  ra_control_sinks : gset TargetRef
}.
#[export] Instance set_ra_review : Setter ra_review := fun v r => mkReviewApproval v (ra_lifetime r) (ra_control_sinks r).
#[export] Instance set_ra_lifetime : Setter ra_lifetime := fun v r => mkReviewApproval (ra_review r) v (ra_control_sinks r).
#[export] Instance set_ra_control_sinks : Setter ra_control_sinks := fun v r => mkReviewApproval (ra_review r) (ra_lifetime r) v.

(** ** The broker *)
Record Broker := mkBroker {
  instance : N;
  sequence : N;
  limits : Limits;
  global : Usage;
  approvals_requested : N;
  principals : gmap ConnectionId Principal;
  pending : gmap ApprovalId PendingApproval;
  targets : gmap N Target;
  forgotten_generation : option N;
  runs : gmap RunId Run;
  requests : gmap RequestId Request;
  starts : gmap (ConnectionId * StartKey) StartReceipt;
  presentation : PresentationState;
  flags : list bool
}.
#[export] Instance set_instance : Setter instance := fun v r => mkBroker v (sequence r) (limits r) (global r) (approvals_requested r) (principals r) (pending r) (targets r) (forgotten_generation r) (runs r) (requests r) (starts r) (presentation r) (flags r).
#[export] Instance set_sequence : Setter sequence := fun v r => mkBroker (instance r) v (limits r) (global r) (approvals_requested r) (principals r) (pending r) (targets r) (forgotten_generation r) (runs r) (requests r) (starts r) (presentation r) (flags r).
#[export] Instance set_limits : Setter limits := fun v r => mkBroker (instance r) (sequence r) v (global r) (approvals_requested r) (principals r) (pending r) (targets r) (forgotten_generation r) (runs r) (requests r) (starts r) (presentation r) (flags r).
#[export] Instance set_global : Setter global := fun v r => mkBroker (instance r) (sequence r) (limits r) v (approvals_requested r) (principals r) (pending r) (targets r) (forgotten_generation r) (runs r) (requests r) (starts r) (presentation r) (flags r).
#[export] Instance set_approvals_requested : Setter approvals_requested := fun v r => mkBroker (instance r) (sequence r) (limits r) (global r) v (principals r) (pending r) (targets r) (forgotten_generation r) (runs r) (requests r) (starts r) (presentation r) (flags r).
#[export] Instance set_principals : Setter principals := fun v r => mkBroker (instance r) (sequence r) (limits r) (global r) (approvals_requested r) v (pending r) (targets r) (forgotten_generation r) (runs r) (requests r) (starts r) (presentation r) (flags r).
#[export] Instance set_pending : Setter pending := fun v r => mkBroker (instance r) (sequence r) (limits r) (global r) (approvals_requested r) (principals r) v (targets r) (forgotten_generation r) (runs r) (requests r) (starts r) (presentation r) (flags r).
#[export] Instance set_targets : Setter targets := fun v r => mkBroker (instance r) (sequence r) (limits r) (global r) (approvals_requested r) (principals r) (pending r) v (forgotten_generation r) (runs r) (requests r) (starts r) (presentation r) (flags r).
#[export] Instance set_forgotten_generation : Setter forgotten_generation := fun v r => mkBroker (instance r) (sequence r) (limits r) (global r) (approvals_requested r) (principals r) (pending r) (targets r) v (runs r) (requests r) (starts r) (presentation r) (flags r).
#[export] Instance set_runs : Setter runs := fun v r => mkBroker (instance r) (sequence r) (limits r) (global r) (approvals_requested r) (principals r) (pending r) (targets r) (forgotten_generation r) v (requests r) (starts r) (presentation r) (flags r).
#[export] Instance set_requests : Setter requests := fun v r => mkBroker (instance r) (sequence r) (limits r) (global r) (approvals_requested r) (principals r) (pending r) (targets r) (forgotten_generation r) (runs r) v (starts r) (presentation r) (flags r).
#[export] Instance set_starts : Setter starts := fun v r => mkBroker (instance r) (sequence r) (limits r) (global r) (approvals_requested r) (principals r) (pending r) (targets r) (forgotten_generation r) (runs r) (requests r) v (presentation r) (flags r).
#[export] Instance set_presentation : Setter presentation := fun v r => mkBroker (instance r) (sequence r) (limits r) (global r) (approvals_requested r) (principals r) (pending r) (targets r) (forgotten_generation r) (runs r) (requests r) (starts r) v (flags r).
#[export] Instance set_flags : Setter flags := fun v r => mkBroker (instance r) (sequence r) (limits r) (global r) (approvals_requested r) (principals r) (pending r) (targets r) (forgotten_generation r) (runs r) (requests r) (starts r) (presentation r) v.

Definition Broker_with_limits (application_instance : N) (l : Limits) : Broker :=
  let ceiling := Limits_default in
  mkBroker application_instance 0
    (mkLimits (N.min (max_connections l) (max_connections ceiling)) (N.min (max_targets l) (max_targets ceiling))
       (N.min (max_registrations l) (max_registrations ceiling))
       (N.min (max_registrations_per_connection l) (max_registrations_per_connection ceiling))
       (N.min (retained_runs l) (retained_runs ceiling)) (N.min (global_operations l) (global_operations ceiling))
       (N.min (global_disclosed_bytes l) (global_disclosed_bytes ceiling)))
    Usage_default 0 ∅ ∅ ∅ None ∅ ∅ ∅ PresentationState_default [].
Definition Broker_new (application_instance : N) : Broker := Broker_with_limits application_instance Limits_default.
