(* ===== verification/Broker.v ===== *)
(** * The automation broker: authority ([festerm-automation/src/broker.rs])

    Connections, targets, controller registrations, proposals and native
    decisions, revocation and expiry.  The broker is a value that its methods
    change, so a method is a computation [M]: it takes the broker and returns a
    result with the broker, also when the result is an error, because what a
    method did before it failed stays done.  [None] is a panic (an overflow of
    a [+=]) or a loop that does not end; [R] is a computation that only reads.
    The guard of the admission lock that some methods take is evidence for the
    type checker and carries no data.

    [Clock] is the largest instant of the platform; [checked_add] of an instant
    fails beyond it. *)

From Stdlib Require Import NArith Bool.
From stdpp Require Import gmap sorting.
From S2P Require Import Prelude BrokerTypes.

Class Clock := instant_max : N.

(** ** Results and computations *)
Definition R (A : Type) : Type := option (Error + A).
Definition M (A : Type) : Type := Broker -> option ((Error + A) * Broker).
#[export] Instance R_ret : MRet R := fun A a => Some (inr a).
#[export] Instance R_bind : MBind R := fun A B f r =>
  match r with None => None | Some (inl e) => Some (inl e) | Some (inr a) => f a end.
#[export] Instance M_ret : MRet M := fun A a b => Some (inr a, b).
#[export] Instance M_bind : MBind M := fun A B f m b =>
  match m b with None => None | Some (inl e, b) => Some (inl e, b) | Some (inr a, b) => f a b end.

Definition ok_or {A : Type} (e : Error) (o : option A) : Error + A := match o with Some a => inr a | None => inl e end.
Definition require (e : Error) (ok : bool) : Error + () := if ok then inr tt else inl e.
Definition fail {A : Type} (e : Error) : M A := fun b => Some (inl e, b).
Definition get : M Broker := fun b => Some (inr b, b).
Definition modify (f : Broker -> Broker) : M () := fun b => Some (inr tt, f b).
Definition update (f : Broker -> option Broker) : M () := fun b => b' ← f b; Some (inr tt, b').
Definition lift {A : Type} (r : Error + A) : M A := fun b => Some (r, b).
Definition ask {A : Type} (r : R A) : M A := fun b => x ← r; Some (x, b).

(** [get_mut(..).ok_or(e)?] and a change of what it refers to. *)
Definition with_principal (c : ConnectionId) (e : Error) (f : Principal -> Principal) : M () :=
  b ← get;
  p ← lift (ok_or e (principals b !! c));
  modify (fun b => b <| principals := <[c := f p]> (principals b) |>).
Definition find_registration (b : Broker) (c : ConnectionId) (r : ControllerRegistrationId) : option ControllerRegistration :=
  p ← principals b !! c; controller_registrations p !! r.
Definition set_registration (r : ControllerRegistrationId) (record : ControllerRegistration) (p : Principal) : Principal :=
  p <| controller_registrations := <[r := record]> (controller_registrations p) |>.
Definition with_registration (c : ConnectionId) (r : ControllerRegistrationId) (e : Error) (f : ControllerRegistration -> ControllerRegistration) : M () :=
  b ← get;
  record ← lift (ok_or e (find_registration b c r));
  with_principal c e (set_registration r (f record)).
Definition with_run (id : RunId) (e : Error) (f : Run -> Run) : M () :=
  b ← get;
  run ← lift (ok_or e (runs b !! id));
  modify (fun b => b <| runs := <[id := f run]> (runs b) |>).

Definition mint : M N :=
  b ← get;
  s ← lift (ok_or QuotaExceeded (checked_add u64_max (sequence b) 1));
  modify (fun b => b <| sequence := s |>);;
  mret s.
Definition mint_id : M ReferenceId :=
  s ← mint;
  b ← get;
  mret (mkRef (instance b) s).

(** ** Delivery flags *)
Definition clear_flag (i : nat) (b : Broker) : Broker := b <| flags := <[i := false]> (flags b) |>.
Definition clear_flags (fs : list nat) (b : Broker) : Broker := foldl (fun b i => clear_flag i b) b fs.
Definition new_flag (b : Broker) : Broker := b <| flags := flags b ++ [true] |>.
Definition alloc_flag : M nat :=
  b ← get;
  modify new_flag;;
  mret (length (flags b)).
Definition load (b : Broker) (i : nat) : bool := default false (flags b !! i).
(** The grants a value owns, whose [DeliveryEpoch]s are cleared when it is
    dropped. *)
Definition registration_flags (record : ControllerRegistration) : list nat := option_list (m_delivery <$> metadata_grant record).
Definition principal_flags (p : Principal) : list nat :=
  option_list (g_delivery <$> grant p) ++ option_list (m_delivery <$> metadata p) ++
  flat_map (fun x => registration_flags x.2) (entries (controller_registrations p)).

(** ** Principals, proposals and targets *)
Definition has_any_grant (p : Principal) : bool :=
  bool_decide (is_Some (grant p)) || bool_decide (is_Some (metadata p)) ||
  existsb (fun x => bool_decide (is_Some (metadata_grant x.2))) (entries (controller_registrations p)).

Definition enrollment_source (c : ConnectionId) (x : ControllerRegistrationId * ControllerRegistration) : option NativeEnrollmentMetadataGrant :=
  e ← enrollment x.2;
  g ← metadata_grant x.2;
  Some (mkNativeEnrollment c x.1 (enr_id e) (enr_target e) (m_epoch g) (m_expires g)).
Definition enrollment_metadata_sources (c : ConnectionId) (p : Principal) : list NativeEnrollmentMetadataGrant :=
  omap (enrollment_source c) (entries (controller_registrations p)).

Definition proposal_slot (p : PendingProposal) : GrantSlot :=
  match p with
  | ProposeOrdinary _ => Ordinary
  | ProposeMetadata _ => Metadata
  | ProposeEnrollmentMetadata r e _ => EnrollmentMetadata r e
  end.
Definition contains_target (t : TargetRef) (p : PendingProposal) : bool :=
  match p with
  | ProposeOrdinary request => bool_decide (t ∈ scope_targets (scope request))
  | ProposeMetadata request => bool_decide (t ∈ request)
  | ProposeEnrollmentMetadata _ _ source => bool_decide (source = t)
  end.

Definition find_target (b : Broker) (r : TargetRef) : option Target :=
  t ← targets b !! session r;
  if active t && bool_decide (reference t = r) then Some t else None.
Definition target (b : Broker) (r : TargetRef) : Error + Target := ok_or StaleTarget (find_target b r).
(** [for target in targets { self.target(target)?; }] *)
Definition all_targets (b : Broker) (ts : gset TargetRef) : Error + () :=
  require StaleTarget (forallb (fun t => bool_decide (is_Some (find_target b t))) (elements ts)).

(** ** Presentation evidence that other changes withdraw ([presentation.rs]) *)
Definition drop_slot (when : PresentationSlot -> bool) (b : Broker) : Broker :=
  match pslot (presentation b) with
  | Some s => if when s then b <| presentation := (presentation b) <| pslot := None |> |> else b
  | None => b
  end.
Definition cancel_presentation_for_connection (c : ConnectionId) : Broker -> Broker :=
  drop_slot (fun s => bool_decide (at_connection (attempt s) = c)).
Definition cancel_presentation_for_registration (c : ConnectionId) (r : ControllerRegistrationId) : Broker -> Broker :=
  drop_slot (fun s => bool_decide (at_connection (attempt s) = c) && bool_decide (sl_registration s = r)).
Definition cancel_presentation_for_target (t : TargetRef) : Broker -> Broker :=
  drop_slot (fun s => bool_decide (at_target (attempt s) = t)).
Definition stop_all_presentation_monitoring (b : Broker) : Broker :=
  b <| presentation := (presentation b) <| monitor := None |> <| pslot := None |> |>.
Definition expire_presentation_grant (now : N) (record : ControllerRegistration) : ControllerRegistration :=
  match presentation_grant record with
  | Some g => if (pg_expires g <=? now)%N then record <| presentation_grant := None |> else record
  | None => record
  end.
Definition expire_presentations (now : N) (b : Broker) : Broker :=
  let b := b <| principals := (fun p => p <| controller_registrations := expire_presentation_grant now <$> controller_registrations p |>) <$> principals b |> in
  drop_slot (fun s => (sl_grant_expires s <=? now)%N || (negb (is_confirmed (slot_phase s)) && (at_deadline (attempt s) <=? now)%N)) b.

(** ** Cutting runs *)
Fixpoint lineage_fuel (fuel : nat) (b : Broker) (id : RunId) : option (list RunId) :=
  match fuel with
  | O => None
  | S fuel =>
      match runs b !! id with
      | None => Some []
      | Some run =>
          match r_parent run with
          | Some parent => ids ← lineage_fuel fuel b parent; Some (id :: ids)
          | None => Some [id]
          end
      end
  end.
Definition lineage (b : Broker) (id : RunId) : option (list RunId) := lineage_fuel (S (size (runs b))) b id.

(** The candidates whose lineage contains [id]. *)
Fixpoint keep_descendants (b : Broker) (id : RunId) (candidates : list RunId) : option (list RunId) :=
  match candidates with
  | [] => Some []
  | candidate :: candidates =>
      ids ← lineage b candidate;
      rest ← keep_descendants b id candidates;
      Some (if bool_decide (id ∈ ids) then candidate :: rest else rest)
  end.
Definition descendants (b : Broker) (id : RunId) : option (list RunId) := keep_descendants b id (map fst (entries (runs b))).

Definition release_writer (affected : list RunId) (t : Target) : Target :=
  match writer t with
  | Some lease => if bool_decide (lease_run lease ∈ affected) then t <| writer := None |> else t
  | None => t
  end.

Definition cut_run (id : RunId) (state : RunState) (why : option Error) (b : Broker) (child : RunId) : Broker :=
  match runs b !! child with
  | None => b
  | Some run =>
      let b := clear_flag (descendant_delivery run) b in
      let child_state := if bool_decide (child = id) then state else Cancelled in
      let b := if bool_decide (child_state = Completed) then b else clear_flag (r_delivery run) b in
      if bool_decide (run_state (status_of run) = Running) then
        b <| runs := <[child := run <| status_of := (status_of run) <| run_state := child_state |> <| failure := why |> |>]> (runs b) |>
      else b
  end.

Definition cut (id : RunId) (state : RunState) (why : option Error) (b : Broker) : option Broker :=
  affected ← descendants b id;
  let b := b <| requests := filter (fun x => rq_run x.2 ∉ affected) (requests b) |>
             <| targets := release_writer affected <$> targets b |> in
  Some (foldl (cut_run id state why) b affected).
Definition cut_all (ids : list RunId) (state : RunState) (why : option Error) : Broker -> option Broker :=
  for_each (fun id => cut id state why) ids.

(** ** Revocation *)
Definition discard_stale_proposals (c : ConnectionId) (b : Broker) : Broker :=
  let current := revisions <$> principals b !! c in
  b <| pending := filter (fun x => pa_connection x.2 <> c \/ Some (pa_revisions x.2) = current) (pending b) |>.

Definition forget_presentation (record : ControllerRegistration) : ControllerRegistration :=
  record <| presentation_review := None |> <| presentation_grant := None |> <| metadata_cross_consent := None |>.

(** [take] of the grant of a slot: its flag, which is cleared as it is dropped. *)
Definition take_grant (slot : GrantSlot) (p : Principal) : option nat * Principal :=
  match slot with
  | Ordinary => (g_delivery <$> grant p, p <| grant := None |>)
  | Metadata => (m_delivery <$> metadata p, p <| metadata := None |>)
  | EnrollmentMetadata r e =>
      match controller_registrations p !! r with
      | Some record =>
          if bool_decide (enr_id <$> enrollment record = Some e) then
            (m_delivery <$> metadata_grant record, set_registration r (record <| metadata_cross_consent := None |> <| metadata_grant := None |>) p)
          else (None, p)
      | None => (None, p)
      end
  end.

Definition bump_revision (slot : GrantSlot) (p : Principal) : Principal :=
  let r := revisions p in
  match slot with
  | Ordinary => p <| revisions := r <| rev_ordinary := saturating_add u64_max (rev_ordinary r) 1 |> |> <| cross_consent := None |>
  | Metadata => p <| revisions := r <| rev_metadata := saturating_add u64_max (rev_metadata r) 1 |> |> <| cross_consent := None |>
  | EnrollmentMetadata _ _ => p <| revisions := r <| rev_enrollment := saturating_add u64_max (rev_enrollment r) 1 |> |>
  end.

Definition revoke_principal (c : ConnectionId) (slot : GrantSlot) (b : Broker) : Broker :=
  match principals b !! c with
  | None => b
  | Some p =>
      let p := if bool_decide (slot = Ordinary) then p <| controller_registrations := forget_presentation <$> controller_registrations p |> else p in
      let '(taken, p) := take_grant slot p in
      match taken with
      | Some flag => clear_flag flag (b <| principals := <[c := bump_revision slot p]> (principals b) |>)
      | None => b <| principals := <[c := p]> (principals b) |>
      end
  end.

Definition running_in_slot (c : ConnectionId) (slot : GrantSlot) (b : Broker) : list RunId :=
  map fst (filter (fun x => r_connection x.2 = c /\ r_slot x.2 = slot /\ run_state (status_of x.2) = Running) (entries (runs b))).

Definition revoke_slot (c : ConnectionId) (slot : GrantSlot) (b : Broker) : option Broker :=
  let b := revoke_principal c slot b in
  let b := if bool_decide (slot = Ordinary) then cancel_presentation_for_connection c b else b in
  let b := b <| pending := filter (fun x => pa_connection x.2 <> c \/ proposal_slot (pa_proposal x.2) <> slot) (pending b) |> in
  let b := discard_stale_proposals c b in
  cut_all (running_in_slot c slot b) Interrupted (Some Revoked) b.
Definition revoke_slots (slots : list (ConnectionId * GrantSlot)) : Broker -> option Broker :=
  for_each (fun x => revoke_slot x.1 x.2) slots.

Definition revoke_ordinary (c : ConnectionId) : M () := update (revoke_slot c Ordinary).
Definition revoke_metadata (c : ConnectionId) : M () := update (revoke_slot c Metadata).

(** The slot of every association of a principal. *)
Definition enrollment_slots (c : ConnectionId) (keep : ControllerRegistration -> ControllerEnrollment -> bool) (p : Principal) : list (ConnectionId * GrantSlot) :=
  omap (fun x => e ← enrollment x.2; if keep x.2 e then Some (c, EnrollmentMetadata x.1 (enr_id e)) else None) (entries (controller_registrations p)).
Definition all_enrollment_slots (keep : ControllerRegistration -> ControllerEnrollment -> bool) (b : Broker) : list (ConnectionId * GrantSlot) :=
  flat_map (fun x => enrollment_slots x.1 keep x.2) (entries (principals b)).
Definition forget_metadata_reviews (record : ControllerRegistration) : ControllerRegistration :=
  record <| metadata_review := None |> <| metadata_decision := None |>.

Definition revoke_connection (c : ConnectionId) (b : Broker) : option Broker :=
  b ← revoke_slot c Ordinary b;
  b ← revoke_slot c Metadata b;
  b ← revoke_slots (from_option (enrollment_slots c (fun _ _ => true)) [] (principals b !! c)) b;
  let b := b <| principals := alter (fun p => p <| controller_registrations := forget_metadata_reviews <$> controller_registrations p |>) c (principals b) |> in
  Some (b <| pending := filter (fun x => pa_connection x.2 <> c) (pending b) |>).
Definition revoke (c : ConnectionId) : M () := update (revoke_connection c).

(** [clear] and [retain] of registrations, with the grants that are dropped. *)
Definition retain_registrations (keep : ControllerRegistration -> bool) (b : Broker) : Broker :=
  let dropped := flat_map (fun x => flat_map (fun y => if keep y.2 then [] else registration_flags y.2) (entries (controller_registrations x.2))) (entries (principals b)) in
  clear_flags dropped
    (b <| principals := (fun p => p <| controller_registrations := filter (fun y => keep y.2 = true) (controller_registrations p) |>) <$> principals b |>).

Definition revoke_all : M () :=
  update (fun b =>
    b ← for_each revoke_connection (map fst (entries (principals b))) b;
    Some (stop_all_presentation_monitoring (retain_registrations (fun _ => false) b))).

(** Grants of the two unscoped slots that satisfy a test, in the order of
    their connections. *)
Definition grant_slots (ordinary : Grant -> bool) (meta : MetadataGrant -> bool) (b : Broker) : list (ConnectionId * GrantSlot) :=
  flat_map (fun x =>
    (if from_option ordinary false (grant x.2) then [(x.1, Ordinary)] else []) ++
    (if from_option meta false (metadata x.2) then [(x.1, Metadata)] else [])) (entries (principals b)).

Definition expired_runs (now : N) (b : Broker) : list RunId :=
  map fst (filter (fun x => run_state (status_of x.2) = Running /\ (deadline (r_spec x.2) <= now)%N) (entries (runs b))).
Definition expired_grant (now : N) (record : ControllerRegistration) (_ : ControllerEnrollment) : bool :=
  from_option (fun g => m_expires g <=? now)%N false (metadata_grant record).

Definition expire (now : N) (b : Broker) : option Broker :=
  let b := expire_presentations now b in
  let b := b <| pending := filter (fun x => (now < pa_expires x.2)%N) (pending b) |> in
  b ← cut_all (expired_runs now b) TimedOut (Some Expired) b;
  b ← revoke_slots (grant_slots (fun g => g_expires g <=? now)%N (fun g => m_expires g <=? now)%N b) b;
  revoke_slots (all_enrollment_slots (expired_grant now) b) b.
Definition poll_expiry (now : N) : M () := update (expire now).

(** ** Connections *)
Definition accept_connection : M ConnectionId :=
  b ← get;
  lift (require QuotaExceeded (len (principals b) <? max_connections (limits b))%N);;
  c ← mint_id;
  modify (fun b => b <| principals := <[c := Principal_new]> (principals b) |>);;
  mret c.

Definition disconnect (c : ConnectionId) : M () :=
  update (fun b =>
    b ← revoke_connection c b;
    let b := clear_flags (from_option principal_flags [] (principals b !! c)) (b <| principals := delete c (principals b) |>) in
    Some (b <| runs := filter (fun x => r_connection x.2 <> c) (runs b) |>
            <| starts := filter (fun x => x.1.1 <> c) (starts b) |>)).

(** ** Controller registrations and enrollments *)
Definition registration_new (id : list N) (revision : N) : ControllerRegistration :=
  mkRegistration id revision None None None None None None None.

Definition registration_count (b : Broker) : N :=
  foldr (fun x n => (len (controller_registrations x.2) + n)%N) 0%N (entries (principals b)).

Definition register_controller_session (c : ConnectionId) (id : list N) : M ControllerRegistrationId :=
  b ← get;
  p ← lift (ok_or Unauthorized (principals b !! c));
  lift (require InvalidRequest ((0 <? N.of_nat (length id)) && (N.of_nat (length id) <=? MAX_CONTROLLER_REGISTRATION_BYTES))%N);;
  match list_find (fun x => local_id x.2 = id) (entries (controller_registrations p)) with
  | Some (_, (found, _)) => mret found
  | None =>
      lift (require QuotaExceeded ((len (controller_registrations p) <? max_registrations_per_connection (limits b)) && (registration_count b <? max_registrations (limits b)))%N);;
      r ← mint_id;
      with_principal c Unauthorized (set_registration r (registration_new id (ref_sequence r)));;
      mret r
  end.

Definition controller_registration (b : Broker) (c : ConnectionId) (r : ControllerRegistrationId) : Error + list N :=
  ok_or Unauthorized (local_id <$> find_registration b c r).

Definition prepare_controller_enrollment (c : ConnectionId) (r : ControllerRegistrationId) (t : TargetRef) : M ControllerEnrollmentProposal :=
  b ← get;
  lift (ok_or Unauthorized (find_registration b c r));;
  revision ← mint;
  with_registration c r Unauthorized (fun record => record <| reg_revision := revision |>);;
  b ← get;
  lift (target b t);;
  mret (mkEnrollmentProposal c r t revision).

(** The decision of [NativeControllerEnrollment] is the proposal it wraps. *)
Definition approve_controller_enrollment (c : ConnectionId) (proposal : ControllerEnrollmentProposal) : M ControllerEnrollmentId :=
  lift (require Unauthorized (bool_decide (ep_connection proposal = c)));;
  b ← get;
  record ← lift (ok_or Unauthorized (find_registration b c (ep_registration proposal)));
  lift (require BindingMismatch (reg_revision record =? ep_revision proposal)%N);;
  lift (target b (ep_target proposal));;
  id ← mint_id;
  match enrollment record with
  | Some old => update (revoke_slot c (EnrollmentMetadata (ep_registration proposal) (enr_id old)))
  | None => mret tt
  end;;
  with_registration c (ep_registration proposal) Unauthorized (fun record =>
    record <| reg_revision := ref_sequence id |> <| enrollment := Some (mkEnrollment id (ep_target proposal)) |>
      <| presentation_review := None |> <| presentation_grant := None |>
      <| metadata_review := None |> <| metadata_decision := None |>);;
  modify (cancel_presentation_for_registration c (ep_registration proposal));;
  mret id.

Definition resolve_controller_enrollment (b : Broker) (c : ConnectionId) (r : ControllerRegistrationId) (e : ControllerEnrollmentId) : Error + TargetRef :=
  association ← ok_or Unauthorized
    (record ← find_registration b c r;
     association ← enrollment record;
     if bool_decide (enr_id association = e) then Some association else None);
  _ ← target b (enr_target association);
  inr (enr_target association).

Definition unregister_controller_session (c : ConnectionId) (r : ControllerRegistrationId) : M () :=
  b ← get;
  record ← lift (ok_or Unauthorized (find_registration b c r));
  match enrollment record with
  | Some e => update (revoke_slot c (EnrollmentMetadata r (enr_id e)))
  | None => mret tt
  end;;
  b ← get;
  record ← lift (ok_or Unauthorized (find_registration b c r));
  with_principal c Unauthorized (fun p => p <| controller_registrations := delete r (controller_registrations p) |>);;
  modify (clear_flags (registration_flags record));;
  modify (cancel_presentation_for_registration c r).

(** ** Targets *)
Definition invalidate_target (t : TargetRef) (b : Broker) : option Broker :=
  let b := cancel_presentation_for_target t b in
  b ← revoke_slots (all_enrollment_slots (fun _ e => bool_decide (enr_target e = t)) b) b;
  let b := retain_registrations (fun record => negb (bool_decide (enr_target <$> enrollment record = Some t))) b in
  b ← revoke_slots (grant_slots (fun g => bool_decide (t ∈ scope_targets (scope (g_request g)))) (fun g => bool_decide (t ∈ m_targets g)) b) b;
  Some (b <| pending := filter (fun x => contains_target t (pa_proposal x.2) = false) (pending b) |>).

Definition attach_target (s generation : N) : M TargetRef :=
  b ← get;
  lift (match targets b !! s with
        | Some old => require StaleTarget (tr_generation (reference old) <? generation)%N
        | None =>
            if from_option (fun forgotten => generation <=? forgotten)%N false (forgotten_generation b) then inl StaleTarget
            else require QuotaExceeded (len (targets b) <? max_targets (limits b))%N
        end);;
  epoch ← mint;
  match targets b !! s with
  | Some old => update (invalidate_target (reference old))
  | None => mret tt
  end;;
  let r := mkTargetRef (instance b) s generation in
  modify (fun b => b <| targets := <[s := mkTarget r true epoch None]> (targets b) |>);;
  mret r.

Definition close_target (r : TargetRef) : M () :=
  b ← get;
  lift (target b r);;
  update (invalidate_target r);;
  modify (fun b => b <| targets := alter (fun t => t <| active := false |> <| writer := None |>) (session r) (targets b) |>).

Definition forget_closed_target (r : TargetRef) : M () :=
  b ← get;
  t ← lift (ok_or StaleTarget (t ← targets b !! session r; if negb (active t) && bool_decide (reference t = r) then Some t else None));
  let generation := tr_generation (reference t) in
  modify (fun b => b <| forgotten_generation := Some (from_option (fun forgotten => N.max forgotten generation) generation (forgotten_generation b)) |>
                     <| targets := delete (session r) (targets b) |>).

(** ** Validation *)
Definition validate_scope (b : Broker) (s : Scope) : Error + () :=
  _ ← require InvalidRequest
        ((len (discover s) <=? MAX_SCOPE_TARGETS) && (len (observe s) <=? MAX_SCOPE_TARGETS) &&
         (len (control s) <=? MAX_SCOPE_TARGETS) && (len (scope_targets s) <=? MAX_SCOPE_TARGETS))%N;
  all_targets b (scope_targets s).

Definition is_read_call (k : DirectKind) : bool := match k with Discovery | Observation => true | _ => false end.
Definition binding_in_scope (s : Scope) (i : Invocation) : bool :=
  match i with
  | DirectInput t _ n => bool_decide (t ∈ control s) && (0 <? n)%N && (n <=? MAX_INPUT_BYTES)%N
  | _ => true
  end.
Definition validate_request (b : Broker) (request : GrantRequest) : Error + () :=
  _ ← require InvalidRequest
        (negb (bool_decide (bindings request = ∅) && bool_decide (direct_read_calls request = ∅)) &&
         (len (bindings request) <=? 16)%N &&
         forallb (fun i => api_version i =? 1)%N (elements (bindings request)) &&
         forallb is_read_call (elements (direct_read_calls request)));
  _ ← validate_scope b (scope request);
  require InvalidRequest (forallb (fun i => binding_in_scope (scope request) (invocation i)) (elements (bindings request))).

Definition validate_metadata_targets (b : Broker) (ts : gset TargetRef) : Error + () :=
  _ ← require InvalidRequest (negb (bool_decide (ts = ∅)) && (len ts <=? MAX_SCOPE_TARGETS)%N);
  all_targets b ts.

Definition current_revisions (b : Broker) (c : ConnectionId) : Error + GrantRevisions :=
  p ← ok_or Unauthorized (principals b !! c);
  let r := revisions p in
  _ ← require QuotaExceeded (negb ((rev_ordinary r =? u64_max) || (rev_metadata r =? u64_max) || (rev_enrollment r =? u64_max))%N);
  inr r.

Definition owner_of (b : Broker) (t : TargetRef) : option (N * option LeaseRef) :=
  x ← find_target b t; Some (ownership_epoch x, writer x).
Definition ownership_snapshot (b : Broker) (controls : gset TargetRef) : Error + Ownership :=
  _ ← all_targets b controls;
  inr (map_imap (fun t _ => owner_of b t) (gset_to_gmap tt controls)).

Definition validate_closure (from controls : gset TargetRef) (handoffs : gmap TargetRef (gset TargetRef)) : Error + () :=
  require Unauthorized (forallb (fun t => from_option (fun approved => bool_decide (from ⊆ approved)) false (handoffs !! t)) (elements controls)).
Definition validate_ref_closure (g : GrantRef) (from controls : gset TargetRef) : Error + () :=
  match g with
  | RefOrdinary g => validate_closure from controls (g_handoffs g)
  | RefMetadata _ => require Unauthorized (bool_decide (controls = ∅))
  end.
Definition validate_cross_closure (ordinary : Scope) (handoffs : gmap TargetRef (gset TargetRef)) (meta : gset TargetRef) : Error + () :=
  _ ← require Unauthorized (bool_decide (control ordinary = ∅) || bool_decide (meta ⊆ sources ordinary));
  validate_closure meta (control ordinary) handoffs.

Definition validate_revision_transition (b : Broker) (c : ConnectionId) (slot : GrantSlot) : Error + () :=
  p ← ok_or Unauthorized (principals b !! c);
  '(revision, present) ←
    match slot with
    | Ordinary => inr (rev_ordinary (revisions p), bool_decide (is_Some (grant p)))
    | Metadata => inr (rev_metadata (revisions p), bool_decide (is_Some (metadata p)))
    | EnrollmentMetadata r e =>
        record ← ok_or Unauthorized (controller_registrations p !! r);
        _ ← require Unauthorized (bool_decide (enr_id <$> enrollment record = Some e));
        inr (rev_enrollment (revisions p), bool_decide (is_Some (metadata_grant record)))
    end;
  _ ← ok_or QuotaExceeded (checked_add u64_max revision (if present : bool then 2 else 1));
  inr tt.

Definition live_until (now expires : N) : bool := (now <? expires)%N.
Definition live_grant (now : N) (g : option Grant) : option Grant := g ← g; if live_until now (g_expires g) then Some g else None.
Definition live_metadata (now : N) (g : option MetadataGrant) : option MetadataGrant := g ← g; if live_until now (m_expires g) then Some g else None.
Definition consents (ordinary : Grant) (meta : MetadataGrant) (c : EnrollmentCrossConsent) : bool :=
  (cc_ordinary_epoch c =? g_epoch ordinary)%N && (cc_metadata_epoch c =? m_epoch meta)%N &&
  bool_decide (cc_sinks c = control (scope (g_request ordinary))).

(** The part of [validate_live_cross_closure] for one registration. *)
Definition validate_registration_closure (b : Broker) (now : N) (ordinary : Grant) (record : ControllerRegistration) : Error + () :=
  match live_metadata now (metadata_grant record) with
  | None => inr tt
  | Some meta =>
      e ← ok_or Revoked (enrollment record);
      _ ← target b (enr_target e);
      _ ← require Revoked (bool_decide (control (scope (g_request ordinary)) = ∅) ||
                           from_option (consents ordinary meta) false (metadata_cross_consent record));
      validate_cross_closure (scope (g_request ordinary)) (g_handoffs ordinary) {[enr_target e]}
  end.
Fixpoint validate_registrations (b : Broker) (now : N) (ordinary : Grant) (records : list (ControllerRegistrationId * ControllerRegistration)) : Error + () :=
  match records with
  | [] => inr tt
  | x :: records => _ ← validate_registration_closure b now ordinary x.2; validate_registrations b now ordinary records
  end.

Definition validate_live_cross_closure (b : Broker) (c : ConnectionId) (now : N) : Error + () :=
  p ← ok_or Unauthorized (principals b !! c);
  let ordinary := live_grant now (grant p) in
  _ ← match ordinary, live_metadata now (metadata p) with
      | Some ordinary, Some meta =>
          if bool_decide (control (scope (g_request ordinary)) = ∅) then inr tt
          else
            _ ← require Revoked (bool_decide (cross_consent p = Some (g_epoch ordinary, m_epoch meta)));
            _ ← validate_metadata_targets b (m_targets meta);
            validate_cross_closure (scope (g_request ordinary)) (g_handoffs ordinary) (m_targets meta)
      | _, _ => inr tt
      end;
  match ordinary with
  | Some ordinary => validate_registrations b now ordinary (entries (controller_registrations p))
  | None => inr tt
  end.

(** ** Grants in force *)
Definition current_grant (b : Broker) (c : ConnectionId) (now : N) : Error + Grant :=
  p ← ok_or Unauthorized (principals b !! c);
  g ← ok_or Revoked (grant p);
  _ ← require Expired (live_until now (g_expires g));
  inr g.

Definition native_control_grant (b : Broker) (c : ConnectionId) (t : TargetRef) (now : N) : Error + NativeControlGrant :=
  _ ← target b t;
  g ← current_grant b c now;
  _ ← require Unauthorized (bool_decide (t ∈ control (scope (g_request g))) && bool_decide (is_Some (g_handoffs g !! t)));
  inr (mkRef (instance b) (g_epoch g)).

Definition slot_grant (b : Broker) (c : ConnectionId) (slot : GrantSlot) (now : N) : Error + GrantRef :=
  p ← ok_or Unauthorized (principals b !! c);
  g ← match slot with
      | Ordinary => g ← ok_or Revoked (grant p); inr (RefOrdinary g)
      | Metadata => g ← ok_or Revoked (metadata p); inr (RefMetadata g)
      | EnrollmentMetadata r e =>
          t ← resolve_controller_enrollment b c r e;
          g ← ok_or Revoked (record ← controller_registrations p !! r; metadata_grant record);
          _ ← require Revoked (bool_decide (m_targets g = {[t]}));
          inr (RefMetadata g)
      end;
  _ ← require Expired (live_until now (ref_expires g));
  inr g.

Definition native_metadata_grant (b : Broker) (c : ConnectionId) (now : N) : Error + NativeMetadataGrant :=
  g ← slot_grant b c Metadata now;
  match g with
  | RefMetadata g => inr (mkRef (instance b) (m_epoch g))
  | RefOrdinary _ => inl Revoked
  end.

(** ** Proposals *)
Section Clocked.
Context `{Ck : Clock}.

Definition pending_of (b : Broker) (c : ConnectionId) : N :=
  N.of_nat (length (filter (fun x => pa_connection x.2 = c) (entries (pending b)))).

(** [+= 1] on a [u32]. *)
Definition increment (n : N) : option N := checked_add u32_max n 1.

Definition request_pending (c : ConnectionId) (proposal : PendingProposal) (ownership : Ownership) (now : N) : M ApprovalId :=
  b ← get;
  p ← lift (ok_or Unauthorized (principals b !! c));
  lift (require QuotaExceeded
    ((len (pending b) <? MAX_PENDING_APPROVALS) && (pending_of b c <? 2) && (p_approvals_requested p <? 8) && (approvals_requested b <? 128))%N);;
  revisions ← lift (current_revisions b c);
  expires ← lift (ok_or InvalidRequest (checked_add instant_max now MAX_GRANT_LIFETIME));
  id ← mint_id;
  modify (fun b => b <| pending := <[id := mkPending c proposal expires ownership revisions]> (pending b) |>);;
  b ← get;
  p ← lift (ok_or Unauthorized (principals b !! c));
  update (fun b => n ← increment (p_approvals_requested p); Some (b <| principals := <[c := p <| p_approvals_requested := n |>]> (principals b) |>));;
  update (fun b => n ← increment (approvals_requested b); Some (b <| approvals_requested := n |>));;
  mret id.

Definition request_approval (c : ConnectionId) (request : GrantRequest) (now : N) : M ApprovalId :=
  poll_expiry now;;
  b ← get;
  lift (validate_request b request);;
  ownership ← lift (ownership_snapshot b (control (scope request)));
  request_pending c (ProposeOrdinary request) ownership now.

Definition granted_controls (p : Principal) : gset TargetRef := from_option (fun g => control (scope (g_request g))) ∅ (grant p).

Definition request_metadata_approval (c : ConnectionId) (request : MetadataGrantRequest) (now : N) : M ApprovalId :=
  poll_expiry now;;
  b ← get;
  lift (validate_metadata_targets b request);;
  p ← lift (ok_or Unauthorized (principals b !! c));
  ownership ← lift (ownership_snapshot b (granted_controls p));
  request_pending c (ProposeMetadata request) ownership now.

Definition pending_approval_is_active (b : Broker) (c : ConnectionId) (id : ApprovalId) (now : N) : bool :=
  from_option (fun p => bool_decide (pa_connection p = c) && (now <? pa_expires p)%N) false (pending b !! id).

Definition reject_approval (c : ConnectionId) (id : ApprovalId) : M () :=
  b ← get;
  lift (require Unauthorized (bool_decide (pa_connection <$> pending b !! id = Some c)));;
  modify (fun b => b <| pending := delete id (pending b) |>).

(** ** Native decisions *)
Definition lifetime_ok (lifetime : N) : bool := (0 <? lifetime)%N && (lifetime <=? MAX_GRANT_LIFETIME)%N.

(** The consent of [approve] to metadata grants that exist: the review is of
    this very proposal and state, and both sides are acknowledged exactly. *)
Definition validate_enrollment_review (c : ConnectionId) (id : ApprovalId) (revs : GrantRevisions) (p : Principal) (a : NativeApproval)
    (found : list NativeEnrollmentMetadataGrant) : Error + () :=
  let sinks := control (scope (ap_request a)) in
  match enrollment_review a with
  | Some review =>
      require Unauthorized
        (bool_decide (or_connection review = c) && bool_decide (or_id review = id) && bool_decide (or_revisions review = revs) &&
         bool_decide (or_ordinary_epoch review = (g_epoch <$> grant p)) && bool_decide (or_grants review = found) && bool_decide (or_sinks review = sinks))
  | None => require Unauthorized (bool_decide (sinks = ∅) || bool_decide (found = []))
  end.
Definition validate_enrollment_consent (a : NativeApproval) (found : list NativeEnrollmentMetadataGrant) : Error + () :=
  let sinks := control (scope (ap_request a)) in
  require Unauthorized
    (if bool_decide (sinks = ∅) then bool_decide (enrollment_metadata a = ∅) && bool_decide (enrollment_disclosures a = ∅)
     else
       bool_decide (enrollment_metadata a = list_to_set found) &&
       (len (enrollment_disclosures a) =? len (list_to_set found : gset NativeEnrollmentMetadataGrant))%N &&
       forallb (fun g => bool_decide (enrollment_disclosures a !! g = Some sinks)) (elements (list_to_set found : gset NativeEnrollmentMetadataGrant))).

Definition ownership_unchanged (b : Broker) (recorded : Ownership) (controls : gset TargetRef) : bool :=
  forallb (fun t => bool_decide (recorded !! t = owner_of b t)) (elements controls).

(** [record.metadata_cross_consent = ..] for every reviewed source. *)
Fixpoint record_consents (c : ConnectionId) (epoch : N) (sinks : gset TargetRef) (found : list NativeEnrollmentMetadataGrant) : M () :=
  match found with
  | [] => mret tt
  | source :: found =>
      with_registration c (ne_registration source) Revoked (fun record => record <| metadata_cross_consent := Some (mkConsent epoch (ne_epoch source) sinks) |>);;
      record_consents c epoch sinks found
  end.

(** [if !principal.has_any_grant() { principal.usage = Usage::default(); }] *)
Definition reset_usage (p : Principal) : Principal := if has_any_grant p then p else p <| p_usage := Usage_default |>.
(** [+= 1] on a revision. *)
Definition next_revision (slot : GrantSlot) (r : GrantRevisions) : option GrantRevisions :=
  match slot with
  | Ordinary => n ← checked_add u64_max (rev_ordinary r) 1; Some (r <| rev_ordinary := n |>)
  | Metadata => n ← checked_add u64_max (rev_metadata r) 1; Some (r <| rev_metadata := n |>)
  | EnrollmentMetadata _ _ => n ← checked_add u64_max (rev_enrollment r) 1; Some (r <| rev_enrollment := n |>)
  end.
Definition count_revision (c : ConnectionId) (slot : GrantSlot) : M () :=
  b ← get;
  p ← lift (ok_or Unauthorized (principals b !! c));
  update (fun b => r ← next_revision slot (revisions p); Some (b <| principals := <[c := p <| revisions := r |>]> (principals b) |>)).

Definition approve (c : ConnectionId) (id : ApprovalId) (a : NativeApproval) (now : N) : M () :=
  poll_expiry now;;
  b ← get;
  recorded ← lift (ok_or Unauthorized (pending b !! id));
  proposal ← lift (match pa_proposal recorded with ProposeOrdinary proposal => inr proposal | _ => inl Unauthorized end);
  lift (require Unauthorized
    (bool_decide (pa_connection recorded = c) && subset_of (scope (ap_request a)) (scope proposal) &&
     bool_decide (bindings (ap_request a) ⊆ bindings proposal) && bool_decide (direct_read_calls (ap_request a) ⊆ direct_read_calls proposal)));;
  revs ← lift (current_revisions b c);
  lift (require Revoked (bool_decide (pa_revisions recorded = revs)));;
  lift (validate_request b (ap_request a));;
  let sinks := control (scope (ap_request a)) in
  lift (all_targets b sinks);;
  lift (require Revoked (ownership_unchanged b (pa_ownership recorded) sinks));;
  lift (require InvalidRequest (lifetime_ok (ap_lifetime a)));;
  lift (validate_closure (sources (scope (ap_request a))) sinks (ap_handoffs a));;
  p ← lift (ok_or Unauthorized (principals b !! c));
  metadata_epoch ← lift (match metadata p with
    | Some meta =>
        _ ← validate_metadata_targets b (m_targets meta);
        _ ← validate_cross_closure (scope (ap_request a)) (ap_handoffs a) (m_targets meta);
        inr (if bool_decide (sinks = ∅) then None else Some (m_epoch meta))
    | None => inr None
    end);
  let found := enrollment_metadata_sources c p in
  lift (validate_enrollment_review c id (pa_revisions recorded) p a found);;
  lift (validate_enrollment_consent a found);;
  lift (validate_cross_closure (scope (ap_request a)) (ap_handoffs a) (list_to_set (map ne_target found)));;
  lift (validate_revision_transition b c Ordinary);;
  expires ← lift (ok_or InvalidRequest (checked_add instant_max now (ap_lifetime a)));
  epoch ← mint;
  update (revoke_slot c Ordinary);;
  with_principal c Unauthorized reset_usage;;
  count_revision c Ordinary;;
  flag ← alloc_flag;
  with_principal c Unauthorized (fun p => p <| grant := Some (mkGrant epoch (ap_request a) (ap_handoffs a) expires Usage_default flag) |>);;
  (if bool_decide (sinks = ∅) then mret tt else record_consents c epoch sinks found);;
  with_principal c Unauthorized (fun p => p <| cross_consent := (fun meta => (epoch, meta)) <$> metadata_epoch |>);;
  modify (discard_stale_proposals c).

Definition approve_metadata (c : ConnectionId) (id : ApprovalId) (a : NativeMetadataApproval) (now : N) : M () :=
  poll_expiry now;;
  b ← get;
  recorded ← lift (ok_or Unauthorized (pending b !! id));
  proposal ← lift (match pa_proposal recorded with ProposeMetadata proposal => inr proposal | _ => inl Unauthorized end);
  lift (require Unauthorized (bool_decide (pa_connection recorded = c) && bool_decide (ma_targets a ⊆ proposal)));;
  revs ← lift (current_revisions b c);
  lift (require Revoked (bool_decide (pa_revisions recorded = revs)));;
  lift (validate_metadata_targets b (ma_targets a));;
  lift (require InvalidRequest (lifetime_ok (ma_lifetime a)));;
  p ← lift (ok_or Unauthorized (principals b !! c));
  let controls := granted_controls p in
  snapshot ← lift (ownership_snapshot b controls);
  lift (require Revoked (bool_decide (pa_ownership recorded = snapshot)));;
  lift (require Unauthorized ((len (control_disclosures a) =? len controls)%N &&
    forallb (fun t => bool_decide (control_disclosures a !! t = Some (ma_targets a))) (elements controls)));;
  ordinary_epoch ← lift (match grant p with
    | Some g =>
        _ ← validate_cross_closure (scope (g_request g)) (g_handoffs g) (ma_targets a);
        inr (if bool_decide (controls = ∅) then None else Some (g_epoch g))
    | None => inr None
    end);
  lift (validate_revision_transition b c Metadata);;
  expires ← lift (ok_or InvalidRequest (checked_add instant_max now (ma_lifetime a)));
  epoch ← mint;
  update (revoke_slot c Metadata);;
  with_principal c Unauthorized reset_usage;;
  count_revision c Metadata;;
  flag ← alloc_flag;
  with_principal c Unauthorized (fun p => p <| metadata := Some (mkMetadataGrant epoch (ma_targets a) expires Usage_default flag) |>);;
  with_principal c Unauthorized (fun p => p <| cross_consent := (fun ordinary => (ordinary, epoch)) <$> ordinary_epoch |>);;
  modify (discard_stale_proposals c).
End Clocked.
