(* ===== verification/Presentation.v ===== *)
(** * Confirmed presentation ([festerm-automation/src/presentation.rs])

    A native monitor of the window in the foreground, one attempt at a time to
    bring an enrolled target there, and the revision of a confirmed attempt that
    a control request can require to be still in force. *)

From Stdlib Require Import NArith Bool.
From stdpp Require Import gmap.
From S2P Require Import Prelude BrokerTypes Broker.

Definition set_monitor_state (m : Monitor) (b : Broker) : Broker := b <| presentation := (presentation b) <| monitor := Some m |> |>.
Definition set_pslot_state (s : option PresentationSlot) (b : Broker) : Broker := b <| presentation := (presentation b) <| pslot := s |> |>.
Definition find_monitor (b : Broker) (id : PresentationMonitorId) : option Monitor :=
  m ← monitor (presentation b); if bool_decide (mon_id m = id) then Some m else None.

(** ** The monitor *)
Definition start_qualified_presentation_monitor : M PresentationMonitorId :=
  id ← mint_id;
  modify (set_pslot_state None);;
  modify (set_monitor_state (mkMonitor id 0 0));;
  mret id.

Definition note_presentation_transition (id : PresentationMonitorId) : M () :=
  b ← get;
  m ← lift (ok_or Unavailable (find_monitor b id));
  match checked_add u64_max (transitions m) 1 with
  | None => modify stop_all_presentation_monitoring;; fail Unavailable
  | Some next =>
      modify (set_monitor_state (m <| transitions := next |>));;
      modify (drop_slot (fun s => is_confirmed (slot_phase s)))
  end.

Definition lose_presentation_monitor (id : PresentationMonitorId) : M () :=
  b ← get;
  lift (ok_or Unavailable (find_monitor b id));;
  modify stop_all_presentation_monitoring.

Definition invalidate_presentation_monitoring : M () := modify stop_all_presentation_monitoring.

(** A confirmed slot that a new observation contradicts. *)
Definition contradicted (window : PresentationWindowId) (selected : TargetRef) (workspace_revision : N) (s : PresentationSlot) : bool :=
  match slot_phase s with
  | Confirmed _ _ old _ =>
      negb (old =? workspace_revision)%N || negb (at_window (attempt s) =? window)%N || negb (bool_decide (at_target (attempt s) = selected))
  | _ => false
  end.

Definition observe_presentation (id : PresentationMonitorId) (state : NativePresentationState) : M (option NativePresentationObservation) :=
  b ← get;
  m ← lift (ok_or Unavailable (find_monitor b id));
  match checked_add u64_max (samples m) 1 with
  | None => modify stop_all_presentation_monitoring;; fail Unavailable
  | Some sample =>
      modify (set_monitor_state (m <| samples := sample |>));;
      match state with
      | Unknown => modify stop_all_presentation_monitoring;; fail Unavailable
      | StateForegroundRefused => modify (set_pslot_state None);; fail ForegroundRefused
      | Inactive | Foreground _ None _ => modify (drop_slot (fun s => is_confirmed (slot_phase s)));; mret None
      | Foreground window (Some selected) workspace_revision =>
          if (workspace_revision =? u64_max)%N then modify stop_all_presentation_monitoring;; fail Unavailable
          else
            modify (drop_slot (contradicted window selected workspace_revision));;
            mret (Some (mkObservation id (transitions m) sample window selected workspace_revision))
      end
  end.

(** ** The authority to present *)
Section Clocked.
Context `{Ck : Clock}.

Definition prepare_controller_presentation_approval (c : ConnectionId) (r : ControllerRegistrationId) (e : ControllerEnrollmentId) (now : N) : M PresentationApprovalProposal :=
  poll_expiry now;;
  b ← get;
  lift (ok_or Unauthorized (find_registration b c r));;
  review ← mint;
  with_registration c r Unauthorized (fun record => record <| presentation_review := Some review |> <| presentation_grant := None |>);;
  modify (cancel_presentation_for_registration c r);;
  b ← get;
  t ← lift (resolve_controller_enrollment b c r e);
  expires ← lift (ok_or InvalidRequest (checked_add instant_max now MAX_GRANT_LIFETIME));
  mret (mkPresentationProposal c r e t review expires).

(** The decision of [NativeControllerPresentationApproval] is the proposal it
    wraps and the lifetime. *)
Definition approve_controller_presentation (c : ConnectionId) (proposal : PresentationApprovalProposal) (lifetime : N) (now : N) : M () :=
  poll_expiry now;;
  lift (require Unauthorized (bool_decide (pp_connection proposal = c)));;
  b ← get;
  record ← lift (ok_or Unauthorized (find_registration b c (pp_registration proposal)));
  lift (require BindingMismatch (bool_decide (presentation_review record = Some (pp_review proposal))));;
  lift (require Expired (live_until now (pp_expires proposal)));;
  lift (require InvalidRequest (lifetime_ok lifetime));;
  t ← lift (resolve_controller_enrollment b c (pp_registration proposal) (pp_enrollment proposal));
  lift (require BindingMismatch (bool_decide (t = pp_target proposal)));;
  expires ← lift (ok_or InvalidRequest (checked_add instant_max now lifetime));
  epoch ← mint;
  with_registration c (pp_registration proposal) Unauthorized (fun record =>
    record <| presentation_review := None |>
           <| presentation_grant := Some (mkPresentationGrant (pp_enrollment proposal) (pp_target proposal) epoch expires 0) |>).

Definition revoke_controller_presentation (c : ConnectionId) (r : ControllerRegistrationId) : M () :=
  with_registration c r Unauthorized (fun record => record <| presentation_review := None |> <| presentation_grant := None |>);;
  modify (cancel_presentation_for_registration c r).

Definition find_presentation_grant (b : Broker) (c : ConnectionId) (r : ControllerRegistrationId) (e : ControllerEnrollmentId) (now : N) : Error + PresentationGrant :=
  t ← resolve_controller_enrollment b c r e;
  g ← ok_or Revoked
    (record ← find_registration b c r;
     g ← presentation_grant record;
     if bool_decide (pg_enrollment g = e) && bool_decide (pg_target g = t) then Some g else None);
  _ ← require Expired (live_until now (pg_expires g));
  inr g.

(** ** Attempts *)
Definition prepare_presentation (c : ConnectionId) (r : ControllerRegistrationId) (e : ControllerEnrollmentId) (window : PresentationWindowId) (timeout now : N) : M PresentationAttempt :=
  poll_expiry now;;
  b ← get;
  g ← lift (find_presentation_grant b c r e now);
  m ← lift (ok_or Unavailable (monitor (presentation b)));
  lift (require InvalidRequest ((0 <? timeout) && (timeout <=? MAX_PRESENTATION_WAIT))%N);;
  lift (require Busy (from_option (fun s => is_confirmed (slot_phase s)) true (pslot (presentation b))));;
  lift (require QuotaExceeded ((pg_attempts g <? MAX_PRESENTATION_ATTEMPTS_PER_GRANT) && (attempts (presentation b) <? MAX_PRESENTATION_ATTEMPTS_PER_BROKER))%N);;
  let grant_expires := from_option (fun ordinary => N.min (pg_expires g) (g_expires ordinary)) (pg_expires g) (p ← principals b !! c; grant p) in
  limit ← lift (ok_or InvalidRequest (checked_add instant_max now timeout));
  id ← mint;
  let made := mkAttempt c id (pg_target g) window (N.min limit grant_expires) in
  b ← get;
  record ← lift (ok_or Revoked (find_registration b c r));
  held ← lift (ok_or Revoked (presentation_grant record));
  update (fun b => n ← increment (pg_attempts held);
    Some (b <| principals := alter (set_registration r (record <| presentation_grant := Some (held <| pg_attempts := n |>) |>)) c (principals b) |>));;
  update (fun b => n ← increment (attempts (presentation b)); Some (b <| presentation := (presentation b) <| attempts := n |> |>));;
  modify (set_pslot_state (Some (mkSlot made r e (pg_epoch g) grant_expires (mon_id m) Prepared)));;
  mret made.

Definition presentation_slot (b : Broker) (c : ConnectionId) (a : PresentationAttempt) : Error + PresentationSlot :=
  _ ← require Unauthorized (bool_decide (at_connection a = c));
  ok_or Closed (s ← pslot (presentation b); if bool_decide (attempt s = a) then Some s else None).

Definition set_phase (phase : SlotPhase) : M () :=
  b ← get;
  s ← lift (ok_or Closed (pslot (presentation b)));
  modify (set_pslot_state (Some (s <| slot_phase := phase |>))).

Definition presentation_requested (c : ConnectionId) (a : PresentationAttempt) (now : N) : M () :=
  b ← get;
  let previous := presentation_slot b c a in
  poll_expiry now;;
  lift previous;;
  lift (require Expired (live_until now (at_deadline a)));;
  b ← get;
  s ← lift (presentation_slot b c a);
  g ← lift (find_presentation_grant b c (sl_registration s) (sl_enrollment s) now);
  lift (require Revoked ((pg_epoch g =? sl_grant_epoch s)%N && match slot_phase s with Prepared => true | _ => false end));;
  m ← lift (ok_or Unavailable (find_monitor b (sl_monitor s)));
  set_phase (Waiting (samples m)).

Definition finish_presentation (c : ConnectionId) (a : PresentationAttempt) (observation : option NativePresentationObservation) (now : N) : M (option ConfirmedPresentation) :=
  lift (require Unauthorized (bool_decide (at_connection a = c)));;
  poll_expiry now;;
  (if live_until now (at_deadline a) then mret tt
   else modify (drop_slot (fun s => bool_decide (attempt s = a)));; fail Expired);;
  b ← get;
  s ← lift (presentation_slot b c a);
  g ← lift (find_presentation_grant b c (sl_registration s) (sl_enrollment s) now);
  (if (pg_epoch g =? sl_grant_epoch s)%N then mret tt else modify (set_pslot_state None);; fail Revoked);;
  after_sample ← lift (match slot_phase s with Waiting after_sample => inr after_sample | _ => inl InvalidRequest end);
  match observation with
  | None => mret None
  | Some o =>
      m ← lift (ok_or Unavailable (find_monitor b (sl_monitor s)));
      if bool_decide (ob_monitor o = mon_id m) && ((ob_transitions o =? transitions m) && (ob_sample o =? samples m) && (after_sample <? ob_sample o))%N then
        if (ob_window o =? at_window a)%N && bool_decide (ob_selected o = at_target a) then
          revision ← mint_id;
          set_phase (Confirmed revision (ob_transitions o) (ob_workspace_revision o) (ob_sample o));;
          mret (Some (mkConfirmed (at_target a) revision))
        else mret None
      else modify (set_pslot_state None);; fail Revoked
  end.

Definition cancel_presentation (c : ConnectionId) (a : PresentationAttempt) : M () :=
  b ← get;
  s ← lift (presentation_slot b c a);
  lift (require Closed (negb (is_confirmed (slot_phase s))));;
  modify (set_pslot_state None).

Definition next_presentation_deadline (b : Broker) : option N :=
  (fun s => if is_confirmed (slot_phase s) then sl_grant_expires s else at_deadline (attempt s)) <$> pslot (presentation b).

(** ** Requirements *)
Definition check_presentation (b : Broker) (c : ConnectionId) (requirement : PresentationRequirement) (t : TargetRef) (now : N) : Error + () :=
  g ← find_presentation_grant b c (pr_registration requirement) (pr_enrollment requirement) now;
  s ← ok_or Revoked (pslot (presentation b));
  match slot_phase s with
  | Confirmed revision seen _ _ =>
      _ ← require Revoked
        (bool_decide (at_connection (attempt s) = c) && bool_decide (sl_registration s = pr_registration requirement) &&
         bool_decide (sl_enrollment s = pr_enrollment requirement) && bool_decide (at_target (attempt s) = t) &&
         bool_decide (pg_target g = t) && (pg_epoch g =? sl_grant_epoch s)%N && bool_decide (revision = pr_revision requirement));
      require Revoked (from_option (fun m => bool_decide (mon_id m = sl_monitor s) && (transitions m =? seen)%N) false (monitor (presentation b)))
  | _ => inl Revoked
  end.

Definition revalidate_presentation (c : ConnectionId) (requirement : PresentationRequirement) (t : TargetRef) (o : NativePresentationObservation) (now : N) : M () :=
  poll_expiry now;;
  b ← get;
  lift (check_presentation b c requirement t now);;
  s ← lift (ok_or Revoked (pslot (presentation b)));
  match slot_phase s with
  | Confirmed revision seen workspace_revision last_sample =>
      m ← lift (ok_or Unavailable (monitor (presentation b)));
      if bool_decide (ob_monitor o = mon_id m) &&
         ((ob_transitions o =? seen) && (ob_transitions o =? transitions m) && (ob_sample o =? samples m) && (last_sample <? ob_sample o) &&
          (ob_workspace_revision o =? workspace_revision) && (ob_window o =? at_window (attempt s)))%N && bool_decide (ob_selected o = t)
      then set_phase (Confirmed revision seen workspace_revision (ob_sample o))
      else modify (set_pslot_state None);; fail Revoked
  | _ => fail Revoked
  end.
End Clocked.
