(* ===== verification/BrokerRuns.v ===== *)
(** * The automation broker: runs ([festerm-automation/src/broker.rs])

    Runs admitted under a grant, their budgets, workflows started once, writer
    leases, prepared requests, and the commits of disclosures and control
    input. *)

From Stdlib Require Import NArith Bool.
From stdpp Require Import gmap sorting.
From S2P Require Import Prelude BrokerTypes Broker Presentation.

(** ** Live runs *)
Fixpoint check_run_fuel (fuel : nat) (b : Broker) (c : ConnectionId) (id : RunId) (now : N) : R Run :=
  match fuel with
  | O => None
  | S fuel =>
      run ← (Some (ok_or Unauthorized (runs b !! id)) : R Run);
      _ ← (Some (require Unauthorized (bool_decide (r_connection run = c))) : R ());
      g ← (Some (slot_grant b c (r_slot run) now) : R GrantRef);
      _ ← (Some (require Revoked (r_grant_epoch run =? ref_epoch g)%N) : R ());
      _ ← (Some (require Expired (live_until now (deadline (r_spec run)))) : R ());
      _ ← (Some (require Closed (bool_decide (run_state (status_of run) = Running))) : R ());
      _ ← (Some (all_targets b (frozen_sources run ∪ frozen_controls run)) : R ());
      _ ← match r_parent run with
          | Some parent => check_run_fuel fuel b c parent now
          | None => mret run
          end;
      _ ← (Some (validate_live_cross_closure b c now) : R ());
      _ ← (Some (validate_ref_closure g (frozen_sources run) (frozen_controls run)) : R ());
      mret run
  end.
Definition check_run (b : Broker) (c : ConnectionId) (id : RunId) (now : N) : R Run := check_run_fuel (S (size (runs b))) b c id now.

(** ** Budgets *)
Definition fits (ops bytes : N) (u : Usage) (limit : Budget) : bool :=
  from_option (fun v => v <=? operations limit)%N false (checked_add u32_max (used_operations u) ops) &&
  from_option (fun v => v <=? disclosed_bytes limit)%N false (checked_add u32_max (used_bytes u) bytes).

(** [usage.operations += ops; usage.bytes += bytes] *)
Definition spend (ops bytes : N) (u : Usage) : option Usage :=
  o ← checked_add u32_max (used_operations u) ops;
  n ← checked_add u32_max (used_bytes u) bytes;
  Some (mkUsage o n).

Fixpoint charge_check (b : Broker) (c : ConnectionId) (slot : GrantSlot) (ids : list RunId) (ops bytes now : N) : R () :=
  match ids with
  | [] => mret tt
  | id :: ids =>
      run ← check_run b c id now;
      _ ← (Some (require Unauthorized (bool_decide (r_slot run = slot))) : R ());
      _ ← (Some (require QuotaExceeded (fits ops bytes (r_usage run) (budget (r_spec run)))) : R ());
      charge_check b c slot ids ops bytes now
  end.

(** The usage of a slot's grant. *)
Definition spend_grant (ops bytes : N) (slot : GrantSlot) (p : Principal) : R Principal :=
  match slot with
  | Ordinary =>
      g ← (Some (ok_or Revoked (grant p)) : R Grant);
      match spend ops bytes (g_usage g) with
      | Some u => mret (p <| grant := Some (g <| g_usage := u |>) |>)
      | None => None
      end
  | Metadata =>
      g ← (Some (ok_or Revoked (metadata p)) : R MetadataGrant);
      match spend ops bytes (m_usage g) with
      | Some u => mret (p <| metadata := Some (g <| m_usage := u |>) |>)
      | None => None
      end
  | EnrollmentMetadata r e =>
      record ← (Some (ok_or Revoked (controller_registrations p !! r)) : R ControllerRegistration);
      _ ← (Some (require Revoked (bool_decide (enr_id <$> enrollment record = Some e))) : R ());
      g ← (Some (ok_or Revoked (metadata_grant record)) : R MetadataGrant);
      match spend ops bytes (m_usage g) with
      | Some u => mret (set_registration r (record <| metadata_grant := Some (g <| m_usage := u |>) |>) p)
      | None => None
      end
  end.

Fixpoint spend_runs (ops bytes : N) (ids : list RunId) : M () :=
  match ids with
  | [] => mret tt
  | id :: ids =>
      b ← get;
      run ← lift (ok_or Unauthorized (runs b !! id));
      update (fun b => u ← spend ops bytes (r_usage run); Some (b <| runs := <[id := run <| r_usage := u |>]> (runs b) |>));;
      spend_runs ops bytes ids
  end.

Definition charge (c : ConnectionId) (slot : GrantSlot) (ids : list RunId) (ops bytes now : N) : M () :=
  b ← get;
  p ← lift (ok_or Unauthorized (principals b !! c));
  lift (require QuotaExceeded
    (fits ops bytes (global b) (mkBudget (global_operations (limits b)) (global_disclosed_bytes (limits b))) && fits ops bytes (p_usage p) Budget_default));;
  g ← lift (slot_grant b c slot now);
  lift (require QuotaExceeded (fits ops bytes (ref_usage g) Budget_default));;
  ask (charge_check b c slot ids ops bytes now);;
  update (fun b => u ← spend ops bytes (global b); Some (b <| global := u |>));;
  b ← get;
  p ← lift (ok_or Unauthorized (principals b !! c));
  update (fun b => u ← spend ops bytes (p_usage p); Some (b <| principals := <[c := p <| p_usage := u |>]> (principals b) |>));;
  b ← get;
  p ← lift (ok_or Unauthorized (principals b !! c));
  p ← ask (spend_grant ops bytes slot p);
  modify (fun b => b <| principals := <[c := p]> (principals b) |>);;
  spend_runs ops bytes ids.

(** ** Admission *)
Section Clocked.
Context `{Ck : Clock}.

Definition is_workflow (i : Invocation) : bool := match i with Workflow _ _ => true | _ => false end.

Definition binding_approved (g : Grant) (i : InvocationBinding) : bool :=
  bool_decide (i ∈ bindings (g_request g)) ||
  match invocation i with
  | Direct operation => bool_decide (operation ∈ direct_read_calls (g_request g))
  | _ => false
  end.
Definition grant_allows (g : GrantRef) (parent : option RunId) (spec : RunSpec) : bool :=
  match g with
  | RefOrdinary g => subset_of (spec_scope spec) (scope (g_request g)) && binding_approved g (binding spec)
  | RefMetadata g =>
      let s := spec_scope spec in
      bool_decide (parent = None) && bool_decide (invocation (binding spec) = Direct Discovery) &&
      negb (bool_decide (discover s = ∅)) && bool_decide (discover s ⊆ m_targets g) && bool_decide (observe s = ∅) &&
      bool_decide (control s = ∅) && negb (invoke_workflows s) && negb (return_results s)
  end.
Definition grant_runs_workflows (g : GrantRef) : bool := match g with RefOrdinary g => invoke_workflows (scope (g_request g)) | RefMetadata _ => false end.

(** Running runs of the same kind, of everyone or of one connection. *)
Definition active_count (b : Broker) (workflow : bool) (keep : Run -> bool) : N :=
  N.of_nat (length (filter (fun x => run_state (status_of x.2) = Running /\ is_workflow (invocation (binding (r_spec x.2))) = workflow /\ keep x.2 = true) (entries (runs b)))).

(** What a child run inherits from its parent, and whom it is charged to. *)
Definition inherit (b : Broker) (c : ConnectionId) (slot : GrantSlot) (parent : option RunId) (spec : RunSpec) (now : N)
    : R (gset TargetRef * gset TargetRef * list RunId) :=
  match parent with
  | None => mret (∅, ∅, [])
  | Some parent =>
      run ← check_run b c parent now;
      let above := r_spec run in
      _ ← (Some (require Unauthorized
            (bool_decide (r_slot run = slot) && is_workflow (invocation (binding spec)) && is_workflow (invocation (binding above)) &&
             invoke_workflows (spec_scope above) && subset_of (spec_scope spec) (spec_scope above) && (deadline spec <=? deadline above)%N &&
             (operations (budget spec) <=? operations (budget above))%N && (disclosed_bytes (budget spec) <=? disclosed_bytes (budget above))%N)) : R ());
      match lineage b parent with
      | None => None
      | Some ids =>
          _ ← (Some (require QuotaExceeded (N.of_nat (length ids) <=? 2)%N) : R ());
          mret (frozen_sources run, frozen_controls run, ids)
      end
  end.

Definition admit_in_slot (c : ConnectionId) (slot : GrantSlot) (parent : option RunId) (spec : RunSpec) (now : N) : M RunId :=
  poll_expiry now;;
  b ← get;
  lift (validate_scope b (spec_scope spec));;
  lift (require InvalidRequest (api_version (binding spec) =? 1)%N);;
  g ← lift (slot_grant b c slot now);
  lift (validate_live_cross_closure b c now);;
  lift (require Unauthorized (grant_allows g parent spec));;
  lift (require Unauthorized (match invocation (binding spec) with DirectInput t _ _ => bool_decide (t ∈ control (spec_scope spec)) | _ => true end));;
  lift (require InvalidRequest
    (live_until now (deadline spec) && (deadline spec <=? ref_expires g)%N && (0 <? operations (budget spec))%N &&
     (operations (budget spec) <=? operations Budget_default)%N && (disclosed_bytes (budget spec) <=? disclosed_bytes Budget_default)%N));;
  let workflow := is_workflow (invocation (binding spec)) in
  lift (require Unauthorized (negb workflow || grant_runs_workflows g));;
  lift (require QuotaExceeded
    ((len (runs b) <? retained_runs (limits b))%N &&
     (active_count b workflow (fun run => bool_decide (r_connection run = c)) <? (if workflow then 2 else 4))%N &&
     (negb workflow || (active_count b workflow (fun _ => true) <? 4)%N)));;
  '(inherited_sources, inherited_controls, ids) ← ask (inherit b c slot parent spec now);
  let from := sources (spec_scope spec) ∪ inherited_sources in
  let controls := control (spec_scope spec) ∪ inherited_controls in
  lift (validate_ref_closure g from controls);;
  id ← mint_id;
  charge c slot ids 1 0 now;;
  delivery ← alloc_flag;
  descendants ← alloc_flag;
  modify (fun b => b <| runs := <[id := mkRun c slot (ref_epoch g) parent spec from controls (mkUsage 1 0) (mkStatus Running None 0 false) None false delivery descendants]> (runs b) |>);;
  mret id.

Definition admit_run (c : ConnectionId) (parent : option RunId) (spec : RunSpec) (now : N) : M RunId := admit_in_slot c Ordinary parent spec now.

Definition discovery_spec (spec : MetadataRunSpec) : RunSpec :=
  mkRunSpec (mkBinding 1 (Direct Discovery) (ms_parameters spec)) (mkScope (ms_targets spec) ∅ ∅ false false) (ms_budget spec) (ms_deadline spec).
Definition admit_metadata_run (c : ConnectionId) (spec : MetadataRunSpec) (now : N) : M RunId := admit_in_slot c Metadata None (discovery_spec spec) now.

(** ** Workflows *)
Definition lineage_of (id : RunId) : M (list RunId) :=
  fun b => ids ← lineage b id; Some (inr ids, b).

Definition start_workflow (c : ConnectionId) (context : RunId) (key : StartKey) (spec : RunSpec) (now : N) : M RunId :=
  poll_expiry now;;
  b ← get;
  caller ← ask (check_run b c context now);
  lift (require Unauthorized
    (bool_decide (r_slot caller = Ordinary) && bool_decide (invocation (binding (r_spec caller)) = Direct WorkflowStart) &&
     invoke_workflows (spec_scope (r_spec caller)) && subset_of (spec_scope spec) (spec_scope (r_spec caller)) && is_workflow (invocation (binding spec))));;
  lift (require BindingMismatch (from_option (fun x => bool_decide (x.1 = key)) true (started_workflow caller)));;
  match starts b !! (c, key) with
  | Some receipt =>
      lift (require Revoked (sr_grant_epoch receipt =? r_grant_epoch caller)%N);;
      lift (require BindingMismatch (bool_decide (sr_spec receipt = spec)));;
      ids ← lineage_of context;
      charge c Ordinary ids 1 0 now;;
      with_run context Closed (fun run => run <| started_workflow := Some (key, sr_run receipt) |>);;
      mret (sr_run receipt)
  | None =>
      lift (require QuotaExceeded (len (starts b) <? 128)%N);;
      ids ← lineage_of context;
      charge c Ordinary ids 1 0 now;;
      id ← admit_run c None spec now;
      with_run id Closed (fun run => run <| frozen_sources := frozen_sources run ∪ frozen_sources caller |> <| frozen_controls := frozen_controls run ∪ frozen_controls caller |>);;
      with_run context Closed (fun run => run <| started_workflow := Some (key, id) |>);;
      modify (fun b => b <| starts := <[(c, key) := mkReceipt (r_grant_epoch caller) spec id]> (starts b) |>);;
      mret id
  end.

Definition cancel_start (c : ConnectionId) (key : StartKey) (now : N) : M () :=
  poll_expiry now;;
  b ← get;
  receipt ← lift (ok_or Unauthorized (starts b !! (c, key)));
  g ← lift (current_grant b c now);
  lift (require Revoked (g_epoch g =? sr_grant_epoch receipt)%N);;
  update (cut (sr_run receipt) Cancelled None).

Definition status (c : ConnectionId) (id : RunId) (now : N) : M RunStatus :=
  poll_expiry now;;
  b ← get;
  run ← lift (ok_or Unauthorized (runs b !! id));
  lift (require Unauthorized (bool_decide (r_connection run = c)));;
  g ← lift (current_grant b c now);
  lift (require Unauthorized (bool_decide (r_slot run = Ordinary) && (r_grant_epoch run =? g_epoch g)%N && return_results (scope (g_request g))));;
  charge c Ordinary [] 1 256 now;;
  mret (status_of run).

Definition forget_run (c : ConnectionId) (id : RunId) : M () :=
  b ← get;
  run ← lift (ok_or Unauthorized (runs b !! id));
  lift (require Unauthorized (bool_decide (r_connection run = c)));;
  lift (require Busy (negb (bool_decide (run_state (status_of run) = Running) ||
    existsb (fun x => bool_decide (r_parent x.2 = Some id)) (entries (runs b)) ||
    existsb (fun x => bool_decide (sr_run x.2 = id)) (map_to_list (starts b)))));;
  modify (fun b => b <| runs := delete id (runs b) |>).

(** ** Leases *)
Definition check_lease_target (run : Run) (t : TargetRef) : Error + () :=
  _ ← match invocation (binding (r_spec run)) with
      | Workflow _ _ => inr tt
      | DirectInput approved _ _ =>
          _ ← require BindingMismatch (bool_decide (t = approved));
          require Closed (negb (direct_input_prepared run))
      | Direct _ => inl Unauthorized
      end;
  require Unauthorized (bool_decide (t ∈ control (spec_scope (r_spec run)))).

Definition prepare_lease (b : Broker) (c : ConnectionId) (id : RunId) (t : TargetRef) (now : N) : R LeaseTransition :=
  run ← check_run b c id now;
  _ ← (Some (check_lease_target run t) : R ());
  state ← (Some (target b t) : R Target);
  _ ← (Some (require Busy (bool_decide (writer state = None))) : R ());
  mret (mkTransition c id t (ownership_epoch state)).

Definition commit_lease (transition : LeaseTransition) (now : N) : M LeaseRef :=
  b ← get;
  run ← ask (check_run b (lt_connection transition) (lt_run transition) now);
  lift (check_lease_target run (lt_target transition));;
  state ← lift (target b (lt_target transition));
  lift (require Busy ((ownership_epoch state =? observed_epoch transition)%N && bool_decide (writer state = None)));;
  epoch ← mint;
  let lease := mkLease (lt_target transition) (lt_run transition) epoch in
  b ← get;
  state ← lift (ok_or StaleTarget (targets b !! session (lease_target lease)));
  modify (fun b => b <| targets := <[session (lease_target lease) := state <| ownership_epoch := epoch |> <| writer := Some lease |>]> (targets b) |>);;
  mret lease.

Definition human_takeover (r : TargetRef) : M () :=
  b ← get;
  lift (target b r);;
  modify (cancel_presentation_for_target r);;
  epoch ← mint;
  update (fun b => revoke_slots (grant_slots (fun g => bool_decide (r ∈ control (scope (g_request g)))) (fun _ => false) b) b);;
  b ← get;
  state ← lift (ok_or StaleTarget (targets b !! session r));
  modify (fun b => b <| targets := <[session r := state <| ownership_epoch := epoch |> <| writer := None |>]> (targets b) |>).

(** ** Requests *)
Definition check_direct_input (run : Run) (t : TargetRef) (input : Digest) (bytes : N) : Error + () :=
  match invocation (binding (r_spec run)) with
  | DirectInput approved_target approved_input approved_bytes =>
      require BindingMismatch (bool_decide (t = approved_target) && bool_decide (input = approved_input) && (bytes =? approved_bytes)%N)
  | _ => inr tt
  end.

Definition kind_allowed (i : Invocation) (o : Operation) : bool :=
  match i, o with
  | Workflow _ _, _ => true
  | Direct Discovery, Discover _ => true
  | Direct Observation, Observe _ _ => true
  | DirectInput _ _ _, Control _ _ _ _ => true
  | _, _ => false
  end.

Definition within (limit n : N) : bool := (0 <? n)%N && (n <=? limit)%N.

Definition check_operation (b : Broker) (id : RunId) (run : Run) (o : Operation) (now : N) : Error + () :=
  _ ← require Unauthorized (kind_allowed (invocation (binding (r_spec run))) o);
  match o with
  | Discover max_bytes => require InvalidRequest (within MAX_PAYLOAD_BYTES max_bytes)
  | Observe t max_bytes =>
      _ ← require Unauthorized (bool_decide (t ∈ observe (spec_scope (r_spec run))));
      _ ← require InvalidRequest (within MAX_OBSERVATION_BYTES max_bytes);
      _ ← target b t;
      inr tt
  | Control lease input bytes required =>
      _ ← require Unauthorized (bool_decide (lease_run lease = id) && bool_decide (lease_target lease ∈ control (spec_scope (r_spec run))));
      _ ← check_direct_input run (lease_target lease) input bytes;
      _ ← require InvalidRequest (within MAX_INPUT_BYTES bytes);
      state ← target b (lease_target lease);
      _ ← require Revoked (bool_decide (writer state = Some lease) && (ownership_epoch state =? lease_epoch lease)%N);
      match required with
      | Some requirement => check_presentation b (r_connection run) requirement (lease_target lease) now
      | None => inr tt
      end
  | ResultOp max_bytes =>
      _ ← require Unauthorized (return_results (spec_scope (r_spec run)));
      require InvalidRequest (within MAX_PAYLOAD_BYTES max_bytes)
  end.

Definition is_direct_input (i : Invocation) : bool := match i with DirectInput _ _ _ => true | _ => false end.
Definition unsettled (b : Broker) (id : RunId) : N := N.of_nat (length (filter (fun x => rq_run x.2 = id) (entries (requests b)))).

Definition prepare_request (c : ConnectionId) (id : RunId) (o : Operation) (now : N) : M RequestId :=
  poll_expiry now;;
  b ← get;
  run ← ask (check_run b c id now);
  let direct_input := is_direct_input (invocation (binding (r_spec run))) in
  lift (require Closed (negb (direct_input && direct_input_prepared run)));;
  lift (check_operation b id run o now);;
  lift (require QuotaExceeded (unsettled b id <? 16)%N);;
  request ← mint_id;
  ids ← lineage_of id;
  charge c (r_slot run) ids 1 (op_reserved_bytes o) now;;
  modify (fun b => b <| requests := <[request := mkRequest id o false]> (requests b) |>);;
  (if direct_input then with_run id Closed (fun run => run <| direct_input_prepared := true |>) else mret tt);;
  mret request.

Definition check_request (b : Broker) (c : ConnectionId) (id : RequestId) (now : N) : R (Request * Run) :=
  request ← (Some (ok_or Closed (requests b !! id)) : R Request);
  run ← check_run b c (rq_run request) now;
  _ ← (Some (check_operation b (rq_run request) run (rq_operation request) now) : R ());
  mret (request, run).

Definition discovery_targets (b : Broker) (c : ConnectionId) (id : RequestId) (now : N) : R (gset TargetRef) :=
  '(request, run) ← check_request b c id now;
  _ ← (Some (require InvalidRequest (match rq_operation request with Discover _ => negb (committed request) | _ => false end)) : R ());
  mret (discover (spec_scope (r_spec run))).

Definition commit_request (id : RequestId) : M () :=
  b ← get;
  request ← lift (ok_or Closed (requests b !! id));
  modify (fun b => b <| requests := <[id := request <| committed := true |>]> (requests b) |>).

Definition commit_disclosure (c : ConnectionId) (id : RequestId) (encoded_bytes now : N) : M () :=
  b ← get;
  '(request, _) ← ask (check_request b c id now);
  lift (require InvalidRequest (negb (committed request) && negb (is_control_op (rq_operation request)) && (encoded_bytes <=? op_reserved_bytes (rq_operation request))%N));;
  commit_request id.

Fixpoint ancestor_flags (b : Broker) (ids : list RunId) : Error + list nat :=
  match ids with
  | [] => inr []
  | id :: ids =>
      run ← ok_or Closed (runs b !! id);
      rest ← ancestor_flags b ids;
      inr (descendant_delivery run :: rest)
  end.
Definition disclosure_liveness (b : Broker) (c : ConnectionId) (id : RequestId) (now : N) : R DisclosureLiveness :=
  '(request, run) ← check_request b c id now;
  _ ← (Some (require InvalidRequest (committed request && negb (is_control_op (rq_operation request)))) : R ());
  match lineage b (rq_run request) with
  | None => None
  | Some ids =>
      ancestors ← (Some (ancestor_flags b (drop 1 ids)) : R (list nat));
      g ← (Some (slot_grant b c (r_slot run) now) : R GrantRef);
      mret (mkLiveness c (deadline (r_spec run)) (ref_delivery g) (r_delivery run) ancestors)
  end.
Definition is_live (b : Broker) (l : DisclosureLiveness) (c : ConnectionId) (now : N) : bool :=
  bool_decide (dl_connection l = c) && (now <? dl_deadline l)%N && load b (dl_grant l) && load b (dl_run l) && forallb (load b) (dl_ancestors l).

(** [run.status.admitted_effects += 1] along a lineage. *)
Fixpoint admit_effects (ids : list RunId) : M () :=
  match ids with
  | [] => mret tt
  | id :: ids =>
      b ← get;
      run ← lift (ok_or Closed (runs b !! id));
      update (fun b => n ← increment (admitted_effects (status_of run));
        Some (b <| runs := <[id := run <| status_of := (status_of run) <| admitted_effects := n |> <| execution_outcome_unknown := true |> |>]> (runs b) |>));;
      admit_effects ids
  end.

Definition commit_control_inner (c : ConnectionId) (id : RequestId) (exact_input : Digest) (exact_bytes : N) (observation : option NativePresentationObservation) (now : N) : M () :=
  b ← get;
  '(request, run) ← ask (check_request b c id now);
  lift (require Closed (negb (committed request)));;
  match rq_operation request with
  | Control lease input bytes required =>
      lift (check_direct_input run (lease_target lease) exact_input exact_bytes);;
      lift (require BindingMismatch (bool_decide (exact_input = input) && (exact_bytes =? bytes)%N));;
      match required, observation with
      | None, None => mret tt
      | Some requirement, Some o => revalidate_presentation c requirement (lease_target lease) o now
      | _, _ => fail BindingMismatch
      end;;
      commit_request id;;
      ids ← lineage_of (rq_run request);
      admit_effects ids
  | _ => fail InvalidRequest
  end.
Definition commit_control (c : ConnectionId) (id : RequestId) (exact_input : Digest) (exact_bytes now : N) : M () :=
  commit_control_inner c id exact_input exact_bytes None now.
Definition commit_presented_control (c : ConnectionId) (id : RequestId) (exact_input : Digest) (exact_bytes : N) (o : NativePresentationObservation) (now : N) : M () :=
  commit_control_inner c id exact_input exact_bytes (Some o) now.

Definition prepared_control_target (b : Broker) (c : ConnectionId) (id : RequestId) (now : N) : R TargetRef :=
  request ← (Some (ok_or Closed (requests b !! id)) : R Request);
  _ ← check_run b c (rq_run request) now;
  match rq_operation request with
  | Control lease _ _ _ => if committed request then Some (inl InvalidRequest) else mret (lease_target lease)
  | _ => Some (inl InvalidRequest)
  end.

Definition prepared_control_binding (b : Broker) (c : ConnectionId) (id : RequestId) (now : N) : R (LeaseRef * NativeControlGrant) :=
  request ← (Some (ok_or Closed (requests b !! id)) : R Request);
  run ← check_run b c (rq_run request) now;
  match rq_operation request with
  | Control lease _ _ _ =>
      _ ← (Some (require InvalidRequest (negb (committed request) && bool_decide (lease_run lease = rq_run request))) : R ());
      g ← (Some (native_control_grant b c (lease_target lease) now) : R NativeControlGrant);
      _ ← (Some (require Revoked (ref_sequence g =? r_grant_epoch run)%N) : R ());
      mret (lease, g)
  | _ => Some (inl InvalidRequest)
  end.

Definition prepared_direct_input_binding (b : Broker) (c : ConnectionId) (id : RequestId) (now : N) : R InvocationBinding :=
  '(request, run) ← check_request b c id now;
  _ ← (Some (require InvalidRequest (negb (committed request) && is_control_op (rq_operation request) && is_direct_input (invocation (binding (r_spec run))))) : R ());
  mret (binding (r_spec run)).

Definition settle_request (c : ConnectionId) (id : RequestId) : M () :=
  b ← get;
  request ← lift (ok_or Closed (requests b !! id));
  lift (require Unauthorized (bool_decide (r_connection <$> runs b !! rq_run request = Some c)));;
  modify (fun b => b <| requests := delete id (requests b) |>).

(** ** Completion *)
Definition complete (c : ConnectionId) (id : RunId) (completion : Completion) (now : N) : M RunStatus :=
  poll_expiry now;;
  b ← get;
  ask (check_run b c id now);;
  ids ← ask (match descendants b id with Some ids => Some (inr ids) | None => None end);
  let outstanding := existsb (fun x => bool_decide (rq_run x.2 ∈ ids)) (entries (requests b)) in
  let children := existsb (fun child => negb (bool_decide (child = id)) && bool_decide (run_state <$> (status_of <$> runs b !! child) = Some Running)) ids in
  let why := if outstanding then Some UnsettledHostCalls else if children then Some UnsettledChildRuns else None in
  let state := if bool_decide (is_Some why) || bool_decide (completion = CompletionFailed) then Failed else Completed in
  update (cut id state why);;
  b ← get;
  run ← lift (ok_or Closed (runs b !! id));
  mret (status_of run).

Definition complete_with_result (c : ConnectionId) (id : RunId) (result : RequestId) (encoded_bytes now : N) : M RunStatus :=
  b ← get;
  '(request, _) ← ask (check_request b c result now);
  lift (require InvalidRequest
    (bool_decide (rq_run request = id) && negb (committed request) &&
     match rq_operation request with ResultOp _ => true | _ => false end && (encoded_bytes <=? op_reserved_bytes (rq_operation request))%N));;
  modify (fun b => b <| requests := delete result (requests b) |>);;
  final ← complete c id Returned now;
  (if bool_decide (run_state final = Completed) then mret tt else fail (default Closed (failure final)));;
  mret final.

Definition cancel_run (c : ConnectionId) (id : RunId) (now : N) : M () :=
  poll_expiry now;;
  b ← get;
  run ← lift (ok_or Unauthorized (runs b !! id));
  lift (require Unauthorized (bool_decide (r_connection run = c)));;
  g ← lift (slot_grant b c (r_slot run) now);
  lift (require Revoked (r_grant_epoch run =? ref_epoch g)%N);;
  match started_workflow run with
  | Some (_, workflow) => update (cut workflow Cancelled None)
  | None => ask (check_run b c id now);; mret tt
  end;;
  update (cut id Cancelled None).
End Clocked.
