(* ===== verification/EnrollmentMetadata.v ===== *)
(** * Metadata of one enrollment ([festerm-automation/src/enrollment_metadata.rs])

    A discovery-only grant for one exact enrollment, with the consent of both
    sides where an ordinary grant controls a target, and the reviews and
    decisions that are recorded without installing a grant. *)

From Stdlib Require Import NArith Bool.
From stdpp Require Import gmap sorting.
From S2P Require Import Prelude BrokerTypes Broker Presentation BrokerRuns.

Definition NativeEnrollmentMetadataGrantApproval_new (proposal : EnrollmentMetadataGrantProposal) (lifetime : N) : NativeEnrollmentMetadataGrantApproval :=
  mkMetadataGrantApproval proposal lifetime ∅ ∅.
Definition accept_control_sink (sink : TargetRef) (a : NativeEnrollmentMetadataGrantApproval) : NativeEnrollmentMetadataGrantApproval :=
  a <| mg_control_sinks := {[sink]} ∪ mg_control_sinks a |>.
Definition accept_existing_control_sink (g : NativeControlGrant) (sink : TargetRef) (a : NativeEnrollmentMetadataGrantApproval) : NativeEnrollmentMetadataGrantApproval :=
  a <| mg_control_disclosures := <[g := {[sink]} ∪ default ∅ (mg_control_disclosures a !! g)]> (mg_control_disclosures a) |>.
Definition NativeEnrollmentMetadataApproval_new (review : EnrollmentMetadataReview) (lifetime : N) : NativeEnrollmentMetadataApproval :=
  mkReviewApproval review lifetime ∅.
Definition accept_review_sink (sink : TargetRef) (a : NativeEnrollmentMetadataApproval) : NativeEnrollmentMetadataApproval :=
  a <| ra_control_sinks := {[sink]} ∪ ra_control_sinks a |>.

(** The identity of the ordinary grant, when it controls anything. *)
Definition control_grant_of (b : Broker) (p : Principal) : option NativeControlGrant :=
  g ← grant p;
  if bool_decide (granted_controls p = ∅) then None else Some (mkRef (instance b) (g_epoch g)).

Section Clocked.
Context `{Ck : Clock}.

(** ** The grant of an enrollment *)
Definition request_enrollment_metadata_approval (c : ConnectionId) (r : ControllerRegistrationId) (e : ControllerEnrollmentId) (now : N) : M EnrollmentMetadataGrantProposal :=
  poll_expiry now;;
  b ← get;
  t ← lift (resolve_controller_enrollment b c r e);
  p ← lift (ok_or Unauthorized (principals b !! c));
  let controls := granted_controls p in
  ownership ← lift (ownership_snapshot b controls);
  id ← request_pending c (ProposeEnrollmentMetadata r e t) ownership now;
  mret (mkMetadataProposal id c r e t controls (control_grant_of b p)).

Definition prepare_ordinary_enrollment_review (b : Broker) (c : ConnectionId) (id : ApprovalId) (sinks : gset TargetRef) (now : N) : Error + NativeOrdinaryEnrollmentReview :=
  recorded ← ok_or Unauthorized (pending b !! id);
  proposal ← match pa_proposal recorded with ProposeOrdinary proposal => inr proposal | _ => inl Unauthorized end;
  _ ← require Unauthorized (bool_decide (pa_connection recorded = c) && bool_decide (sinks ⊆ control (scope proposal)));
  _ ← require Revoked (live_until now (pa_expires recorded));
  revs ← current_revisions b c;
  _ ← require Revoked (bool_decide (pa_revisions recorded = revs));
  p ← ok_or Unauthorized (principals b !! c);
  _ ← require Expired (negb (existsb (fun x => from_option (fun g => m_expires g <=? now)%N false (metadata_grant x.2)) (entries (controller_registrations p))));
  inr (mkOrdinaryReview c id (pa_revisions recorded) (g_epoch <$> grant p) (enrollment_metadata_sources c p) sinks).

Definition proposes (proposal : EnrollmentMetadataGrantProposal) (p : PendingProposal) : bool :=
  match p with
  | ProposeEnrollmentMetadata r e t =>
      bool_decide (r = mp_registration proposal) && bool_decide (e = mp_enrollment proposal) && bool_decide (t = mp_target proposal)
  | _ => false
  end.
(** The disclosures acknowledge exactly the current control grant, if any. *)
Definition acknowledges (current : option NativeControlGrant) (controls : gset TargetRef) (disclosures : gmap NativeControlGrant (gset TargetRef)) : bool :=
  match current with
  | Some g => (len disclosures =? 1)%N && bool_decide (disclosures !! g = Some controls)
  | None => bool_decide (disclosures = ∅)
  end.

Definition approve_enrollment_metadata_grant (c : ConnectionId) (a : NativeEnrollmentMetadataGrantApproval) (now : N) : M () :=
  poll_expiry now;;
  let proposal := mg_proposal a in
  lift (require Unauthorized (bool_decide (mp_connection proposal = c)));;
  b ← get;
  recorded ← lift (ok_or Unauthorized (pending b !! mp_id proposal));
  lift (require Unauthorized (bool_decide (pa_connection recorded = c) && proposes proposal (pa_proposal recorded)));;
  revs ← lift (current_revisions b c);
  lift (require Revoked (bool_decide (pa_revisions recorded = revs)));;
  lift (require InvalidRequest (lifetime_ok (mg_lifetime a)));;
  t ← lift (resolve_controller_enrollment b c (mp_registration proposal) (mp_enrollment proposal));
  lift (require Revoked (bool_decide (t = mp_target proposal)));;
  p ← lift (ok_or Unauthorized (principals b !! c));
  let controls := granted_controls p in
  lift (require Unauthorized (bool_decide (controls = mp_controls proposal) && bool_decide (controls = mg_control_sinks a)));;
  snapshot ← lift (ownership_snapshot b controls);
  lift (require Unauthorized (bool_decide (pa_ownership recorded = snapshot)));;
  let current := control_grant_of b p in
  lift (require Revoked (bool_decide (current = mp_control_grant proposal)));;
  lift (require Unauthorized (acknowledges current controls (mg_control_disclosures a)));;
  lift (match grant p with
        | Some g => validate_cross_closure (scope (g_request g)) (g_handoffs g) {[mp_target proposal]}
        | None => inr tt
        end);;
  let slot := EnrollmentMetadata (mp_registration proposal) (mp_enrollment proposal) in
  lift (validate_revision_transition b c slot);;
  expires ← lift (ok_or InvalidRequest (checked_add instant_max now (mg_lifetime a)));
  epoch ← mint;
  update (revoke_slot c slot);;
  with_principal c Unauthorized reset_usage;;
  count_revision c slot;;
  flag ← alloc_flag;
  with_registration c (mp_registration proposal) Unauthorized (fun record =>
    record <| metadata_grant := Some (mkMetadataGrant epoch {[mp_target proposal]} expires Usage_default flag) |>
           <| metadata_cross_consent := (fun g => mkConsent (ref_sequence g) epoch controls) <$> current |>);;
  modify (discard_stale_proposals c).

Definition admit_enrollment_metadata_run (c : ConnectionId) (r : ControllerRegistrationId) (e : ControllerEnrollmentId) (spec : MetadataRunSpec) (now : N) : M RunId :=
  b ← get;
  t ← lift (resolve_controller_enrollment b c r e);
  lift (require Unauthorized (bool_decide (ms_targets spec = {[t]})));;
  admit_in_slot c (EnrollmentMetadata r e) None (discovery_spec spec) now.

Definition native_enrollment_metadata_grant (b : Broker) (c : ConnectionId) (r : ControllerRegistrationId) (e : ControllerEnrollmentId) (now : N) : Error + NativeEnrollmentMetadataGrant :=
  t ← resolve_controller_enrollment b c r e;
  g ← slot_grant b c (EnrollmentMetadata r e) now;
  match g with
  | RefMetadata g => inr (mkNativeEnrollment c r e t (m_epoch g) (m_expires g))
  | RefOrdinary _ => inl Revoked
  end.

Definition revoke_enrollment_metadata_grant (c : ConnectionId) (r : ControllerRegistrationId) (e : ControllerEnrollmentId) : M () :=
  b ← get;
  lift (resolve_controller_enrollment b c r e);;
  update (revoke_slot c (EnrollmentMetadata r e)).

(** ** Reviews and recorded decisions *)
Definition prepare_enrollment_metadata_review (c : ConnectionId) (r : ControllerRegistrationId) (e : ControllerEnrollmentId) (now : N) : M EnrollmentMetadataReview :=
  poll_expiry now;;
  b ← get;
  t ← lift (resolve_controller_enrollment b c r e);
  p ← lift (ok_or Unauthorized (principals b !! c));
  ownership ← lift (ownership_snapshot b (granted_controls p));
  expires ← lift (ok_or InvalidRequest (checked_add instant_max now MAX_GRANT_LIFETIME));
  review ← mint;
  with_registration c r Unauthorized (fun record => record <| metadata_review := Some review |>);;
  mret (mkReview c r e t review (rev_ordinary (revisions p)) ownership expires).

Definition cancel_enrollment_metadata_review (c : ConnectionId) (review : EnrollmentMetadataReview) : M () :=
  lift (require Unauthorized (bool_decide (mr_connection review = c)));;
  b ← get;
  record ← lift (ok_or Unauthorized (find_registration b c (mr_registration review)));
  lift (require Revoked (bool_decide (metadata_review record = Some (mr_review review))));;
  with_registration c (mr_registration review) Unauthorized (fun record => record <| metadata_review := None |>).

Definition approve_enrollment_metadata_review (c : ConnectionId) (a : NativeEnrollmentMetadataApproval) (now : N) : M EnrollmentMetadataDecision :=
  poll_expiry now;;
  let review := ra_review a in
  lift (require Unauthorized (bool_decide (mr_connection review = c)));;
  lift (require Expired (live_until now (mr_expires review)));;
  lift (require InvalidRequest (lifetime_ok (ra_lifetime a)));;
  b ← get;
  t ← lift (resolve_controller_enrollment b c (mr_registration review) (mr_enrollment review));
  lift (require Revoked (bool_decide (t = mr_target review)));;
  p ← lift (ok_or Unauthorized (principals b !! c));
  record ← lift (ok_or Unauthorized (controller_registrations p !! mr_registration review));
  lift (require Revoked (bool_decide (metadata_review record = Some (mr_review review)) && (rev_ordinary (revisions p) =? mr_ordinary_revision review)%N));;
  let controls := dom (mr_ownership review) in
  lift (require Unauthorized (bool_decide (ra_control_sinks a = controls)));;
  snapshot ← lift (ownership_snapshot b controls);
  lift (require Unauthorized (bool_decide (snapshot = mr_ownership review)));;
  lift (match grant p with
        | Some g => validate_cross_closure (scope (g_request g)) (g_handoffs g) {[mr_target review]}
        | None => inr tt
        end);;
  expires ← lift (ok_or InvalidRequest (checked_add instant_max now (ra_lifetime a)));
  id ← mint_id;
  let decision := mkDecision id (mr_enrollment review) (mr_ordinary_revision review) expires in
  with_registration c (mr_registration review) Unauthorized (fun record => record <| metadata_review := None |> <| metadata_decision := Some decision |>);;
  mret decision.

Definition check_enrollment_metadata_decision (b : Broker) (c : ConnectionId) (r : ControllerRegistrationId) (e : ControllerEnrollmentId) (decision : EnrollmentMetadataDecision) (now : N) : Error + () :=
  _ ← resolve_controller_enrollment b c r e;
  p ← ok_or Unauthorized (principals b !! c);
  record ← ok_or Unauthorized (controller_registrations p !! r);
  _ ← require Revoked (bool_decide (metadata_decision record = Some decision) && bool_decide (md_enrollment decision = e) &&
        (rev_ordinary (revisions p) =? md_ordinary_revision decision)%N);
  _ ← require Expired (live_until now (md_expires decision));
  require Revoked (from_option (fun g => live_until now (g_expires g)) true (grant p)).

Definition revoke_enrollment_metadata_decision (c : ConnectionId) (r : ControllerRegistrationId) : M () :=
  with_registration c r Unauthorized forget_metadata_reviews.
End Clocked.
