(* ===== verification/Outbound.v ===== *)
(** * The outbound queue ([festerm-automation/src/outbound.rs])

    Frames on their way to a client, each with what has to hold at the moment
    it is published: its targets attached, its flags set and its disclosure
    live.  Attachments and flags belong to others and are looked up. *)

From Stdlib Require Import NArith Bool.
From stdpp Require Import gmap.
From S2P Require Import Prelude Admission BrokerTypes Broker BrokerRuns.

Record OutboundTargetGuard := mkTargetGuard {
  og_liveness : nat;
  og_registration : nat;
  og_attachment : nat;
  og_generation : N
}.

(** The shared values a frame refers to: the host's flags and the epochs of its
    attachments. *)
Record Shared := mkShared { host_flags : nat -> bool; attachments : nat -> AutomationEpoch }.

Definition guard_is_valid (s : Shared) (g : OutboundTargetGuard) : bool :=
  host_flags s (og_liveness g) && host_flags s (og_registration g) && is_current (attachments s (og_attachment g)) (og_generation g).

Record OutboundFrame := mkFrame {
  frame_bytes : list N;
  frame_expires : N;
  frame_targets : list OutboundTargetGuard;
  frame_flags : list nat;
  frame_disclosure : option (ConnectionId * DisclosureLiveness)
}.

Definition frame_is_valid (s : Shared) (b : Broker) (now : N) (f : OutboundFrame) : bool :=
  forallb (guard_is_valid s) (frame_targets f) && forallb (host_flags s) (frame_flags f) &&
  from_option (fun x => is_live b x.2 x.1 now) true (frame_disclosure f).

(** ** The channel: [mpsc::sync_channel(4)] *)
Definition OUTBOUND_CAPACITY : nat := 4.
Record Outbound := mkOutbound { queued : list OutboundFrame; senders : bool; receiver : bool }.
Definition outbound_channel : Outbound := mkOutbound [] true true.

Inductive TrySendError := SendFull (frame : OutboundFrame) | SendDisconnected (frame : OutboundFrame).
Definition try_send (frame : OutboundFrame) (q : Outbound) : (TrySendError + ()) * Outbound :=
  if negb (receiver q) then (inl (SendDisconnected frame), q)
  else if OUTBOUND_CAPACITY <=? length (queued q) then (inl (SendFull frame), q)
  else (inr tt, mkOutbound (queued q ++ [frame]) (senders q) (receiver q)).

Inductive TryRecvError := RecvEmpty | RecvDisconnected.
Definition try_recv (q : Outbound) : (TryRecvError + OutboundFrame) * Outbound :=
  match queued q with
  | frame :: rest => (inr frame, mkOutbound rest (senders q) (receiver q))
  | [] => (inl (if senders q then RecvEmpty else RecvDisconnected), q)
  end.
