(* ===== verification/BrokerInv.v ===== *)
(** * The invariant of the automation broker

    [inv] is what every reachable broker satisfies: identifiers below the
    sequence, usage within the budgets, live targets under every grant, writers
    that match their targets, parents before their children.  [withdraws] is
    what revocation, expiry and cutting do: they take authority away and clear
    the flags that go with it, and add nothing. *)

From Stdlib Require Import NArith Bool.
From stdpp Require Import gmap sorting.
From S2P Require Import Prelude BrokerTypes Broker Presentation BrokerRuns.

(** ** Iteration in key order *)
Section Entries.
Context {K A : Type} `{Countable K} `{KeyOrder K}.
Implicit Types m : gmap K A.

Lemma entries_perm m : entries m ≡ₚ map_to_list m.
Proof. apply merge_sort_Permutation. Qed.

Lemma elem_of_entries m k x : (k, x) ∈ entries m <-> m !! k = Some x.
Proof. rewrite entries_perm. apply elem_of_map_to_list. Qed.

Lemma entries_keys m : NoDup (map fst (entries m)).
Proof. change (NoDup ((entries m).*1)). rewrite entries_perm. apply NoDup_fst_map_to_list. Qed.

Lemma elem_of_keys m k : k ∈ map fst (entries m) <-> is_Some (m !! k).
Proof.
  change (k ∈ (entries m).*1 <-> is_Some (m !! k)). rewrite list_elem_of_fmap. split.
  - intros [[k' x] [-> E%elem_of_entries]]. eauto.
  - intros [x E]. exists (k, x). by rewrite elem_of_entries.
Qed.
End Entries.

(** ** Slots and flags *)
Definition ref_unspent (g : GrantRef) : GrantRef :=
  match g with
  | RefOrdinary g => RefOrdinary (g <| g_usage := Usage_default |>)
  | RefMetadata g => RefMetadata (g <| m_usage := Usage_default |>)
  end.

Definition record_slot (e : ControllerEnrollmentId) (record : ControllerRegistration) : option MetadataGrant :=
  if bool_decide (enr_id <$> enrollment record = Some e) then metadata_grant record else None.
Definition slot_in (p : Principal) (slot : GrantSlot) : option GrantRef :=
  match slot with
  | Ordinary => RefOrdinary <$> grant p
  | Metadata => RefMetadata <$> metadata p
  | EnrollmentMetadata r e => RefMetadata <$> (controller_registrations p !! r ≫= record_slot e)
  end.
(** The grant in a slot, live or not. *)
Definition slot_of (b : Broker) (c : ConnectionId) (slot : GrantSlot) : option GrantRef := p ← principals b !! c; slot_in p slot.
Definition grant_at (b : Broker) (c : ConnectionId) : option Grant := p ← principals b !! c; grant p.
Definition writer_at (b : Broker) (s : N) : option LeaseRef := t ← targets b !! s; writer t.

(** ** The invariant *)
Definition usage_ok (u : Usage) (limit : Budget) : Prop := (used_operations u <= operations limit /\ used_bytes u <= disclosed_bytes limit)%N.
Definition budget_ok (x : Budget) : Prop := (operations x <= operations Budget_default /\ disclosed_bytes x <= disclosed_bytes Budget_default)%N.
Definition ref_ok (b : Broker) (i : ReferenceId) : Prop := ref_instance i = instance b /\ (ref_sequence i <= sequence b)%N.
Definition live_target (b : Broker) (t : TargetRef) : Prop := is_Some (find_target b t).

Record grant_ok (b : Broker) (g : Grant) : Prop := {
  grant_usage_ok : usage_ok (g_usage g) Budget_default;
  grant_epoch_ok : (g_epoch g <= sequence b)%N;
  grant_targets_live : forall t, t ∈ scope_targets (scope (g_request g)) -> live_target b t;
  grant_closed : forall t, t ∈ control (scope (g_request g)) -> exists approved, g_handoffs g !! t = Some approved /\ sources (scope (g_request g)) ⊆ approved;
  grant_flag_ok : (g_delivery g < length (flags b))%nat
}.
Record metadata_ok (b : Broker) (g : MetadataGrant) : Prop := {
  metadata_usage_ok : usage_ok (m_usage g) Budget_default;
  metadata_epoch_ok : (m_epoch g <= sequence b)%N;
  metadata_targets_live : forall t, t ∈ m_targets g -> live_target b t;
  metadata_flag_ok : (m_delivery g < length (flags b))%nat
}.
Record record_ok (b : Broker) (record : ControllerRegistration) : Prop := {
  record_metadata : forall g, metadata_grant record = Some g -> metadata_ok b g /\ exists e, enrollment record = Some e /\ m_targets g = {[enr_target e]};
  record_attempts : forall g, presentation_grant record = Some g -> (pg_attempts g <= MAX_PRESENTATION_ATTEMPTS_PER_GRANT)%N
}.
Definition revisions_ok (r : GrantRevisions) : Prop := (rev_ordinary r <= u64_max /\ rev_metadata r <= u64_max /\ rev_enrollment r <= u64_max)%N.
Record principal_ok (b : Broker) (p : Principal) : Prop := {
  principal_usage : usage_ok (p_usage p) Budget_default;
  principal_approvals : (p_approvals_requested p <= 8)%N;
  principal_revisions : revisions_ok (revisions p);
  principal_grant : forall g, grant p = Some g -> grant_ok b g;
  principal_metadata : forall g, metadata p = Some g -> metadata_ok b g;
  principal_records : forall r record, controller_registrations p !! r = Some record -> ref_ok b r /\ record_ok b record
}.
Record target_ok (b : Broker) (s : N) (t : Target) : Prop := {
  target_key : session (reference t) = s;
  target_instance : tr_instance (reference t) = instance b;
  target_epoch : (ownership_epoch t <= sequence b)%N;
  target_writer : forall l, writer t = Some l -> lease_target l = reference t /\ lease_epoch l = ownership_epoch t
}.
(** Requests that may still have an effect. *)
Definition open_requests (b : Broker) : gmap RequestId Request := filter (fun x => committed x.2 = false) (requests b).
Record run_ok (b : Broker) (id : RunId) (run : Run) : Prop := {
  run_ref : ref_ok b id;
  run_budget : budget_ok (budget (r_spec run));
  run_usage : usage_ok (r_usage run) (budget (r_spec run));
  run_parent : forall parent, r_parent run = Some parent ->
    (ref_sequence parent < ref_sequence id)%N /\ exists above, runs b !! parent = Some above /\ r_connection above = r_connection run;
  run_epoch : (r_grant_epoch run <= sequence b)%N;
  run_scoped : forall g, slot_of b (r_connection run) (r_slot run) = Some g -> ref_epoch g = r_grant_epoch run ->
    grant_allows g (r_parent run) (r_spec run) = true /\ (deadline (r_spec run) <= ref_expires g)%N;
  run_frozen : control (spec_scope (r_spec run)) ⊆ frozen_controls run;
  run_effects : (admitted_effects (status_of run) + len (open_requests b) <= used_operations (global b))%N;
  run_flags_ok : (r_delivery run < length (flags b))%nat /\ (descendant_delivery run < length (flags b))%nat
}.
Record inv (b : Broker) : Prop := {
  inv_sequence : (sequence b <= u64_max)%N;
  inv_limits : (global_operations (limits b) <= 4096 /\ global_disclosed_bytes (limits b) <= 16777216)%N;
  inv_global : usage_ok (global b) (mkBudget (global_operations (limits b)) (global_disclosed_bytes (limits b)));
  inv_approvals : (approvals_requested b <= 128)%N;
  inv_attempts : (attempts (presentation b) <= MAX_PRESENTATION_ATTEMPTS_PER_BROKER)%N;
  inv_principals : forall c p, principals b !! c = Some p -> ref_ok b c /\ principal_ok b p;
  inv_targets : forall s t, targets b !! s = Some t -> target_ok b s t;
  inv_runs : forall id run, runs b !! id = Some run -> run_ok b id run;
  inv_requests : forall q r, requests b !! q = Some r -> ref_ok b q;
  inv_starts : forall c k x, starts b !! (c, k) = Some x -> is_Some (principals b !! c);
  inv_open : (len (open_requests b) <= used_operations (global b))%N
}.

(** ** Withdrawal *)
Record record_less (record record' : ControllerRegistration) : Prop := {
  less_enrollment : enrollment record' = enrollment record;
  less_metadata : metadata_grant record' = metadata_grant record \/ metadata_grant record' = None;
  less_presentation : presentation_grant record' = presentation_grant record \/ presentation_grant record' = None
}.
Record principal_less (p p' : Principal) : Prop := {
  less_usage : p_usage p' = p_usage p;
  less_approvals : p_approvals_requested p' = p_approvals_requested p;
  less_revisions : revisions_ok (revisions p) -> revisions_ok (revisions p');
  less_grant : grant p' = grant p \/ grant p' = None;
  less_meta : metadata p' = metadata p \/ metadata p' = None;
  less_records : forall r record', controller_registrations p' !! r = Some record' ->
    exists record, controller_registrations p !! r = Some record /\ record_less record record'
}.
Definition target_less (t t' : Target) : Prop := t' = t \/ t' = t <| writer := None |>.
Record run_less (b' : Broker) (run run' : Run) : Prop := {
  less_run : exists s w, run' = run <| status_of := (status_of run) <| run_state := s |> <| failure := w |> |>;
  less_run_stopped : run_state (status_of run) = Running \/ run' = run;
  less_run_flags : run' = run \/ load b' (descendant_delivery run) = false /\ (load b' (r_delivery run) = false \/ run_state (status_of run') = Completed)
}.
Record withdraws (b b' : Broker) : Prop := {
  w_instance : instance b' = instance b;
  w_sequence : sequence b' = sequence b;
  w_limits : limits b' = limits b;
  w_global : global b' = global b;
  w_approvals : approvals_requested b' = approvals_requested b;
  w_forgotten : forgotten_generation b' = forgotten_generation b;
  w_starts : starts b' = starts b;
  w_attempts : attempts (presentation b') = attempts (presentation b);
  w_slot : pslot (presentation b') = pslot (presentation b) \/ pslot (presentation b') = None;
  w_monitor : monitor (presentation b') = monitor (presentation b) \/ monitor (presentation b') = None;
  w_pending : pending b' ⊆ pending b;
  w_requests : requests b' ⊆ requests b;
  w_principals : forall c, option_Forall2 principal_less (principals b !! c) (principals b' !! c);
  w_targets : forall s, option_Forall2 target_less (targets b !! s) (targets b' !! s);
  w_runs : forall id, option_Forall2 (run_less b') (runs b !! id) (runs b' !! id);
  w_flags : length (flags b') = length (flags b) /\ forall i, load b' i = true -> load b i = true;
  w_dropped : forall c slot g, slot_of b c slot = Some g -> slot_of b' c slot = Some g \/ load b' (ref_delivery g) = false
}.

Lemma record_less_refl record : record_less record record.
Proof. split; auto. Qed.
Lemma record_less_trans x y z : record_less x y -> record_less y z -> record_less x z.
Proof. intros [A B C] [A' B' C']. split; [congruence|destruct B', B; (left; congruence) || (right; congruence)|destruct C', C; (left; congruence) || (right; congruence)]. Qed.

Lemma principal_less_refl p : principal_less p p.
Proof. split; eauto using record_less_refl. Qed.
Lemma principal_less_trans p q r : principal_less p q -> principal_less q r -> principal_less p r.
Proof.
  intros [A B C D E F] [A' B' C' D' E' F']. split; try congruence; auto.
  - destruct D', D; (left; congruence) || (right; congruence).
  - destruct E', E; (left; congruence) || (right; congruence).
  - intros k record' (y & Hy & L)%F'. apply F in Hy as (x & Hx & L'). eauto using record_less_trans.
Qed.

Lemma target_less_trans t u v : target_less t u -> target_less u v -> target_less t v.
Proof. unfold target_less. intros [->| ->] [->| ->]; auto. Qed.

Lemma run_less_trans b b' run run' run'' :
  (forall i, load b' i = true -> load b i = true) -> run_less b run run' -> run_less b' run' run'' -> run_less b' run run''.
Proof.
  intros Hl [(s & w & ->) G F] [(s' & w' & ->) G' F']. split; [by exists s', w'| |].
  { destruct G as [G|G]; [auto|]. rewrite G in G' |- *. exact G'. }
  assert (Hf : forall i, load b i = false -> load b' i = false).
  { intros i Hi. destruct (load b' i) eqn:E; [by apply Hl in E; congruence|done]. }
  destruct F' as [E|F']; [rewrite E; destruct F as [E'|[X [Y|Y]]]; [by left|right; auto|right; auto]|].
  right. exact F'.
Qed.

Lemma run_less_refl b run : run_less b run run.
Proof. split; [exists (run_state (status_of run)), (failure (status_of run)); by destruct run as [c sl ep pa sp fs fc u [? ? ? ?] sw di d dd]|by right|by left]. Qed.

Lemma withdraws_refl b : withdraws b b.
Proof.
  split; auto.
  - intros c. apply option_Forall2_refl. intros p. apply principal_less_refl.
  - intros s. apply option_Forall2_refl. by left.
  - intros id. apply option_Forall2_refl. intros run. apply run_less_refl.
Qed.

Lemma option_Forall2_trans {A} (P Q S : A -> A -> Prop) (x y z : option A) :
  (forall a b c, P a b -> Q b c -> S a c) -> option_Forall2 P x y -> option_Forall2 Q y z -> option_Forall2 S x z.
Proof. intros H [a b Hab|] Hz; inversion Hz; subst; constructor; eauto. Qed.

Lemma withdraws_trans b b' b'' : withdraws b b' -> withdraws b' b'' -> withdraws b b''.
Proof.
  intros W V. destruct (w_flags _ _ W) as [Hn Hl], (w_flags _ _ V) as [Hn' Hl'].
  split; try (etrans; [apply V|apply W]); try (etrans; [apply W|apply V]).
  - destruct (w_slot _ _ V), (w_slot _ _ W); (left; congruence) || (right; congruence).
  - destruct (w_monitor _ _ V), (w_monitor _ _ W); (left; congruence) || (right; congruence).
  - intros c. eapply option_Forall2_trans; [apply principal_less_trans|apply W|apply V].
  - intros s. eapply option_Forall2_trans; [apply target_less_trans|apply W|apply V].
  - intros id. eapply option_Forall2_trans; [|apply W|apply V]. intros x y z. by apply run_less_trans.
  - split; [congruence|auto].
  - intros c slot g Hg. destruct (w_dropped _ _ W _ _ _ Hg) as [Hg'|Hf]; [by apply (w_dropped _ _ V)|].
    right. destruct (load b'' (ref_delivery g)) eqn:E; [by apply Hl' in E; congruence|done].
Qed.

(** What a withdrawal leaves was there before. *)
Section Withdrawn.
Context {b b' : Broker} (W : withdraws b b').

Lemma withdrawn_principal c p' : principals b' !! c = Some p' -> exists p, principals b !! c = Some p /\ principal_less p p'.
Proof using W. intros E. pose proof (w_principals _ _ W c) as H. rewrite E in H. inversion H; eauto. Qed.

Lemma withdrawn_target s t' : targets b' !! s = Some t' -> exists t, targets b !! s = Some t /\ target_less t t'.
Proof using W. intros E. pose proof (w_targets _ _ W s) as H. rewrite E in H. inversion H; eauto. Qed.

Lemma withdrawn_run id run' : runs b' !! id = Some run' -> exists run, runs b !! id = Some run /\ run_less b' run run'.
Proof using W. intros E. pose proof (w_runs _ _ W id) as H. rewrite E in H. inversion H; eauto. Qed.

Lemma kept_principal c p : principals b !! c = Some p -> exists p', principals b' !! c = Some p' /\ principal_less p p'.
Proof using W. intros E. pose proof (w_principals _ _ W c) as H. rewrite E in H. inversion H; eauto. Qed.

Lemma kept_target s t : targets b !! s = Some t -> exists t', targets b' !! s = Some t' /\ target_less t t'.
Proof using W. intros E. pose proof (w_targets _ _ W s) as H. rewrite E in H. inversion H; eauto. Qed.

Lemma kept_run id run : runs b !! id = Some run -> exists run', runs b' !! id = Some run' /\ run_less b' run run'.
Proof using W. intros E. pose proof (w_runs _ _ W id) as H. rewrite E in H. inversion H; eauto. Qed.

Lemma withdrawn_slot_some c slot g : slot_of b' c slot = Some g -> slot_of b c slot = Some g.
Proof using W.
  unfold slot_of. destruct (principals b' !! c) as [p'|] eqn:E'; [|done]. destruct (withdrawn_principal _ _ E') as (p & -> & L). cbn.
  destruct slot as [| |r e]; cbn.
  - by destruct (less_grant _ _ L) as [-> | ->].
  - by destruct (less_meta _ _ L) as [-> | ->].
  - destruct (controller_registrations p' !! r) as [record'|] eqn:Er; [|done]. destruct (less_records _ _ L _ _ Er) as (record & -> & [A B C]). cbn.
    unfold record_slot. rewrite A. destruct (bool_decide _); [|done]. by destruct B as [-> | ->].
Qed.
(** A slot that is empty stays empty while authority is withdrawn. *)
Lemma withdrawn_slot c slot : slot_of b c slot = None -> slot_of b' c slot = None.
Proof using W. intros H. destruct (slot_of b' c slot) as [g|] eqn:E; [|done]. apply withdrawn_slot_some in E. congruence. Qed.

Lemma withdrawn_live t : live_target b t -> live_target b' t.
Proof using W.
  unfold live_target, find_target. intros [x Hx]. destruct (targets b !! session t) as [y|] eqn:E; [|done].
  destruct (kept_target _ _ E) as (y' & -> & [-> | ->]); [eauto|]. cbn in *. destruct (active y && bool_decide (reference y = t)); [eauto|done].
Qed.

Lemma withdrawn_ref i : ref_ok b i -> ref_ok b' i.
Proof using W. unfold ref_ok. by rewrite (w_instance _ _ W), (w_sequence _ _ W). Qed.

Lemma withdrawn_open : (len (open_requests b') <= len (open_requests b))%N.
Proof using W.
  unfold len, open_requests. apply N2Z.inj_le. rewrite !nat_N_Z. apply inj_le. apply map_subseteq_size. apply map_filter_subseteq_mono, W.
Qed.

Lemma withdrawn_grant_ok g : grant_ok b g -> grant_ok b' g.
Proof using W. intros [A B C D E]. split; auto using withdrawn_live; [by rewrite (w_sequence _ _ W)|by rewrite (proj1 (w_flags _ _ W))]. Qed.

Lemma withdrawn_metadata_ok g : metadata_ok b g -> metadata_ok b' g.
Proof using W. intros [A B C D]. split; auto using withdrawn_live; [by rewrite (w_sequence _ _ W)|by rewrite (proj1 (w_flags _ _ W))]. Qed.

Lemma withdrawn_record_ok record record' : record_less record record' -> record_ok b record -> record_ok b' record'.
Proof using W.
  intros [E M P] [Hm Hp]. split; intros g Hg.
  - destruct M as [M|M]; rewrite M in Hg; [|done]. destruct (Hm g Hg) as [X Y]. rewrite E. eauto using withdrawn_metadata_ok.
  - destruct P as [P|P]; rewrite P in Hg; [auto|done].
Qed.

Lemma withdrawn_principal_ok p p' : principal_less p p' -> principal_ok b p -> principal_ok b' p'.
Proof using W.
  intros [A B C D E F] [Hu Ha Hr Hg Hm Hs]. split; [by rewrite A|by rewrite B|auto| | |].
  - intros g Eg. destruct D as [D|D]; rewrite D in Eg; [|done]. auto using withdrawn_grant_ok.
  - intros g Eg. destruct E as [E|E]; rewrite E in Eg; [|done]. auto using withdrawn_metadata_ok.
  - intros r record' (record & Hrec & L)%F. destruct (Hs _ _ Hrec). eauto using withdrawn_ref, withdrawn_record_ok.
Qed.

Lemma withdraws_inv : inv b -> inv b'.
Proof using W.
  intros [A B C D E F G H I J K]. pose proof withdrawn_open as Ho. split.
  - by rewrite (w_sequence _ _ W).
  - by rewrite (w_limits _ _ W).
  - by rewrite (w_limits _ _ W), (w_global _ _ W).
  - by rewrite (w_approvals _ _ W).
  - by rewrite (w_attempts _ _ W).
  - intros c p' (p & Hp & L)%withdrawn_principal. destruct (F _ _ Hp). eauto using withdrawn_ref, withdrawn_principal_ok.
  - intros s t' (t & Ht & L)%withdrawn_target. destruct (G _ _ Ht) as [T1 T2 T3 T4]. rewrite <- (w_instance _ _ W) in T2. rewrite <- (w_sequence _ _ W) in T3.
    destruct L as [-> | ->]; split; cbn; auto; done.
  - intros id run' (run & Hr & L)%withdrawn_run. destruct (H _ _ Hr) as [R1 R2 R3 R4 R7 R8 R9 R5 R6]. destruct L as [(s & w & ->) _ _].
    split; cbn; auto using withdrawn_ref.
    + intros parent Hpar. destruct (R4 parent Hpar) as (Hlt & above & Ha & Hc). split; [done|].
      destruct (kept_run _ _ Ha) as (above' & Ha' & [(s' & w' & ->) _ _]). eauto.
    + by rewrite (w_sequence _ _ W).
    + intros g Hg%withdrawn_slot_some. by apply R8.
    + rewrite (w_global _ _ W). lia.
    + by rewrite (proj1 (w_flags _ _ W)).
  - intros q r Hq. apply withdrawn_ref, (I q r). eapply lookup_weaken; [exact Hq|apply W].
  - intros c k x Hx. rewrite (w_starts _ _ W) in Hx. apply J in Hx as [p Hp]. destruct (kept_principal _ _ Hp) as (p' & -> & _). eauto.
  - rewrite (w_global _ _ W). lia.
Qed.
End Withdrawn.

Create HintDb withdraw.

(** ** Flags *)
Lemma load_clear b i j : load (clear_flag i b) j = true -> load b j = true /\ i <> j.
Proof.
  unfold load, clear_flag. cbn. destruct (decide (i = j)) as [->|Hne].
  - destruct (decide (j < length (flags b))%nat); [by rewrite list_lookup_insert_eq|]. rewrite list_insert_ge by lia. by rewrite lookup_ge_None_2 by lia.
  - by rewrite list_lookup_insert_ne.
Qed.

Lemma clear_flags_spec fs b : exists l, clear_flags fs b = b <| flags := l |> /\ length l = length (flags b) /\
  forall i, load (clear_flags fs b) i = true -> load b i = true /\ i ∉ fs.
Proof.
  unfold clear_flags. revert b. induction fs as [|f fs IH]; intros b; cbn.
  - exists (flags b). split; [by destruct b|]. split; [done|]. intros i Hi. split; [done|]. apply not_elem_of_nil.
  - destruct (IH (clear_flag f b)) as (l & E & Hl & Hf). exists l. split; [by rewrite E|]. split; [rewrite Hl; cbn; apply length_insert|].
    intros i Hi. apply Hf in Hi as [Hi Hn]. apply load_clear in Hi as [Hi Hne]. split; [done|]. rewrite not_elem_of_cons. auto.
Qed.

Lemma slot_of_principals b b' c slot : principals b' = principals b -> slot_of b' c slot = slot_of b c slot.
Proof. unfold slot_of. by intros ->. Qed.

Lemma map_subseteq_refl' {K A} `{Countable K} (m : gmap K A) : m ⊆ m.
Proof. done. Qed.
Lemma less_principals_refl b c : option_Forall2 principal_less (principals b !! c) (principals b !! c).
Proof. apply option_Forall2_refl. intros p. apply principal_less_refl. Qed.
Lemma less_targets_refl b s : option_Forall2 target_less (targets b !! s) (targets b !! s).
Proof. apply option_Forall2_refl. by left. Qed.
Lemma less_runs_refl b b' id : option_Forall2 (run_less b') (runs b !! id) (runs b !! id).
Proof. apply option_Forall2_refl. intros run. apply run_less_refl. Qed.
#[local] Hint Resolve map_subseteq_refl' less_principals_refl less_targets_refl less_runs_refl : withdraw.

(** A change of one part of the broker that withdraws something. *)
Lemma withdraws_drop fs ps b :
  (forall c, option_Forall2 principal_less (principals b !! c) (ps !! c)) ->
  (forall c slot g, slot_of b c slot = Some g -> slot_of (b <| principals := ps |>) c slot = Some g \/ ref_delivery g ∈ fs) ->
  withdraws b (clear_flags fs (b <| principals := ps |>)).
Proof.
  intros Hp Hd. destruct (clear_flags_spec fs (b <| principals := ps |>)) as (l & E & Hl & Hf).
  split; try (rewrite E; cbn; auto with withdraw; done).
  - split; [by rewrite E|]. intros i Hi. apply Hf in Hi as [Hi _]. exact Hi.
  - intros c slot g Hg. destruct (Hd c slot g Hg) as [Hd'|Hin]; [left; rewrite E; exact Hd'|right].
    destruct (load _ (ref_delivery g)) eqn:El; [by apply Hf in El as [_ El]|done].
Qed.

Lemma withdraws_clear f b : withdraws b (clear_flag f b).
Proof.
  split; cbn; auto with withdraw; try done. split; [apply length_insert|]. by intros i [Hi _]%load_clear.
Qed.

Lemma withdraws_pending ps b : ps ⊆ pending b -> withdraws b (b <| pending := ps |>).
Proof. intros Hs. split; cbn; auto with withdraw; done. Qed.

Lemma withdraws_requests rs b : rs ⊆ requests b -> withdraws b (b <| requests := rs |>).
Proof. intros Hs. split; cbn; auto with withdraw; done. Qed.

Lemma withdraws_targets ts b : (forall s, option_Forall2 target_less (targets b !! s) (ts !! s)) -> withdraws b (b <| targets := ts |>).
Proof. intros Hs. split; cbn; auto with withdraw; done. Qed.

Lemma withdraws_slot when b : withdraws b (drop_slot when b).
Proof.
  unfold drop_slot. destruct (pslot (presentation b)) as [s|] eqn:E; [|apply withdraws_refl]. destruct (when s); [|apply withdraws_refl].
  split; cbn; auto with withdraw; done.
Qed.

Lemma withdraws_stop b : withdraws b (stop_all_presentation_monitoring b).
Proof. split; cbn; auto with withdraw; done. Qed.

Lemma release_less affected t : target_less t (release_writer affected t).
Proof. unfold release_writer, target_less. destruct (writer t) as [l|]; [|auto]. destruct (bool_decide _); auto. Qed.

Lemma withdraws_status id run s w b : runs b !! id = Some run -> run_state (status_of run) = Running ->
  load b (descendant_delivery run) = false -> load b (r_delivery run) = false \/ s = Completed ->
  withdraws b (b <| runs := <[id := run <| status_of := (status_of run) <| run_state := s |> <| failure := w |> |>]> (runs b) |>).
Proof.
  intros E Hst Hd Hr. split; cbn; auto with withdraw; try done. intros id'. destruct (decide (id' = id)) as [->|Hne].
  - rewrite E, lookup_insert_eq. constructor. split; [by exists s, w|by left|right]. split; [done|]. destruct Hr as [Hr| ->]; auto.
  - rewrite lookup_insert_ne by done. apply less_runs_refl.
Qed.

Lemma withdraws_cut_run id s w b child : withdraws b (cut_run id s w b child).
Proof.
  unfold cut_run. destruct (runs b !! child) as [run|] eqn:E; [|apply withdraws_refl].
  set (b1 := clear_flag (descendant_delivery run) b). set (s' := if bool_decide (child = id) then s else Cancelled). clearbody s'.
  set (b2 := if bool_decide (s' = Completed) then b1 else clear_flag (r_delivery run) b1).
  assert (W : withdraws b b2).
  { unfold b2. destruct (bool_decide (s' = Completed)); [apply withdraws_clear|]. eapply withdraws_trans; apply withdraws_clear. }
  case_bool_decide; [|done]. eapply withdraws_trans; [exact W|]. apply withdraws_status.
  - unfold b2. by destruct (bool_decide (s' = Completed)).
  - done.
  - destruct (load b2 (descendant_delivery run)) eqn:El; [exfalso|done]. unfold b2 in El. destruct (bool_decide (s' = Completed)).
    + by apply load_clear in El as [_ El].
    + apply load_clear in El as [El _]. by apply load_clear in El as [_ El].
  - unfold b2. destruct (bool_decide (s' = Completed)) eqn:Eb; [right; by apply bool_decide_eq_true in Eb|]. left. destruct (load _ (r_delivery run)) eqn:El; [by apply load_clear in El as [_ El]|done].
Qed.

(** ** Lineages *)
Definition parents_ok (b : Broker) : Prop := forall id run parent, runs b !! id = Some run -> r_parent run = Some parent ->
  (ref_sequence parent < ref_sequence id)%N /\ exists above, runs b !! parent = Some above /\ r_connection above = r_connection run.
Lemma inv_parents b : inv b -> parents_ok b.
Proof. intros H id run parent Hr Hp. by apply (run_parent _ _ _ (inv_runs _ H _ _ Hr)). Qed.

Definition up_to (b : Broker) (n : N) : nat := size (filter (fun x => (ref_sequence x.1 <= n)%N) (runs b)).
Lemma up_to_size b n : up_to b n <= size (runs b).
Proof. apply map_subseteq_size, map_filter_subseteq. Qed.
Lemma up_to_lt b id run n : runs b !! id = Some run -> (n < ref_sequence id)%N -> up_to b n < up_to b (ref_sequence id).
Proof.
  intros E Hn. unfold up_to. apply map_subset_size. apply map_subset_alt. split.
  - apply map_filter_subseteq_ext. cbn. intros; lia.
  - exists id. split; [apply map_lookup_filter_None; right; cbn; intros; lia|]. exists run. apply map_lookup_filter_Some. cbn. split; [done|lia].
Qed.

Lemma lineage_fuel_spec b : parents_ok b -> forall fuel id, up_to b (ref_sequence id) < fuel ->
  exists ids, lineage_fuel fuel b id = Some ids /\ NoDup ids /\
    forall x, x ∈ ids -> (ref_sequence x <= ref_sequence id)%N /\ is_Some (runs b !! x) /\
      forall run, runs b !! id = Some run -> r_connection <$> runs b !! x = Some (r_connection run).
Proof.
  intros Hp. induction fuel as [|fuel IH]; intros id Hf; [lia|]. cbn. destruct (runs b !! id) as [run|] eqn:E; [|exists []; split; [done|split; [constructor|by intros x ?%elem_of_nil]]].
  destruct (r_parent run) as [parent|] eqn:Ep.
  - destruct (Hp _ _ _ E Ep) as (Hlt & above & Ha & Hc). destruct (IH parent) as (ids & Ei & Hn & Hi).
    { pose proof (up_to_lt b id run (ref_sequence parent) E Hlt). lia. }
    rewrite Ei. exists (id :: ids). split; [done|]. split.
    + constructor; [|done]. intros Hin. apply Hi in Hin as [Hle _]. lia.
    + intros x [->|Hx]%elem_of_cons; [rewrite E; split; [lia|]; split; [eauto|by intros ? [= <-]]|].
      apply Hi in Hx as (Hle & Hs & Hr). split; [lia|]. split; [done|]. intros ? [= <-]. rewrite (Hr _ Ha). congruence.
  - exists [id]. split; [done|]. split; [apply NoDup_singleton|]. intros x ->%list_elem_of_singleton. rewrite E. split; [lia|]. split; [eauto|by intros ? [= <-]].
Qed.

Lemma lineage_spec b id : parents_ok b -> exists ids, lineage b id = Some ids /\ NoDup ids /\
  forall x, x ∈ ids -> (ref_sequence x <= ref_sequence id)%N /\ is_Some (runs b !! x) /\
    forall run, runs b !! id = Some run -> r_connection <$> runs b !! x = Some (r_connection run).
Proof. intros Hp. apply lineage_fuel_spec; [done|]. pose proof (up_to_size b (ref_sequence id)). lia. Qed.

Lemma descendants_total b id : parents_ok b -> exists ids, descendants b id = Some ids.
Proof.
  intros Hp. unfold descendants. induction (map fst (entries (runs b))) as [|x xs [ids IH]]; cbn [keep_descendants]; [by eexists|].
  destruct (lineage_spec b x Hp) as (l & -> & _). cbn [mbind option_bind]. rewrite IH. by eexists.
Qed.

Lemma withdraws_parents b b' : withdraws b b' -> parents_ok b -> parents_ok b'.
Proof.
  intros W Hp id run' parent Hr Hpar. destruct (withdrawn_run W _ _ Hr) as (run & E & [(s & w & ->) _ _]). cbn in Hpar.
  destruct (Hp _ _ _ E Hpar) as (Hlt & above & Ha & Hc). split; [done|].
  destruct (kept_run W _ _ Ha) as (above' & Ha' & [(s' & w' & ->) _ _]). eauto.
Qed.

(** ** Cutting, revoking and expiring only withdraw *)
Definition withdrawing (f : Broker -> option Broker) : Prop := forall b, parents_ok b -> exists b', f b = Some b' /\ withdraws b b'.

Lemma withdrawing_for_each {I} (body : I -> Broker -> option Broker) xs :
  (forall x, withdrawing (body x)) -> withdrawing (for_each body xs).
Proof.
  intros Hb. induction xs as [|x xs IH]; intros b Hp; cbn; [eauto using withdraws_refl|].
  destruct (Hb x b Hp) as (b1 & -> & W1). cbn. destruct (IH b1) as (b2 & E2 & W2); [by eapply withdraws_parents|]. eauto using withdraws_trans.
Qed.

Lemma withdraws_foldl {I} (f : Broker -> I -> Broker) xs b : (forall b x, withdraws b (f b x)) -> withdraws b (foldl f b xs).
Proof. intros Hf. revert b. induction xs as [|x xs IH]; intros b; cbn; [apply withdraws_refl|]. eapply withdraws_trans; [apply Hf|apply IH]. Qed.

Lemma cut_withdraws id s w : withdrawing (cut id s w).
Proof.
  intros b Hp. unfold cut. destruct (descendants_total b id Hp) as (ids & ->). cbn. eexists. split; [done|].
  eapply withdraws_trans; [apply (withdraws_requests (filter (fun x => rq_run x.2 ∉ ids) (requests b))), map_filter_subseteq|].
  eapply withdraws_trans; [apply (withdraws_targets (release_writer ids <$> targets b))|].
  - intros t. cbn. rewrite lookup_fmap. destruct (targets b !! t); constructor. apply release_less.
  - apply withdraws_foldl. intros. apply withdraws_cut_run.
Qed.

Lemma cut_all_withdraws ids s w : withdrawing (cut_all ids s w).
Proof. apply withdrawing_for_each. intros id. apply cut_withdraws. Qed.

Lemma take_grant_less slot p : principal_less p (take_grant slot p).2.
Proof.
  destruct slot as [| |r e]; cbn; [split; cbn; eauto using record_less_refl..|].
  destruct (controller_registrations p !! r) as [record|] eqn:E; [|apply principal_less_refl].
  case_bool_decide; [|apply principal_less_refl]. split; cbn; eauto. intros k record'. destruct (decide (k = r)) as [->|Hne].
  - rewrite lookup_insert_eq. intros [= <-]. exists record. split; [done|]. split; cbn; auto.
  - rewrite lookup_insert_ne by done. eauto using record_less_refl.
Qed.

Lemma saturate_ok n : (saturating_add u64_max n 1 <= u64_max)%N.
Proof. unfold saturating_add. lia. Qed.
Lemma bump_less slot p : principal_less p (bump_revision slot p).
Proof. destruct slot; split; cbn; eauto using record_less_refl; intros (A & B & C); repeat split; cbn; auto using saturate_ok. Qed.

Lemma forget_presentation_less p : principal_less p (p <| controller_registrations := forget_presentation <$> controller_registrations p |>).
Proof.
  split; cbn; eauto. intros r record'. rewrite lookup_fmap_Some. intros (record & <- & E). exists record. split; [done|]. split; cbn; auto.
Qed.

(** Taking a slot's grant leaves the others, and nothing in the slot. *)
Lemma take_grant_slot slot p : slot_in (take_grant slot p).2 slot = None.
Proof.
  destruct slot as [| |r e]; cbn; try done. destruct (controller_registrations p !! r) as [record|] eqn:E; [|by cbn; rewrite E].
  case_bool_decide as Hb; cbn; [|rewrite E; cbn; unfold record_slot; by rewrite bool_decide_eq_false_2].
  rewrite lookup_insert_eq. cbn. unfold record_slot. cbn. by destruct (bool_decide _).
Qed.

Lemma take_grant_other slot p slot' g : slot_in p slot' = Some g ->
  slot_in (take_grant slot p).2 slot' = Some g \/ (take_grant slot p).1 = Some (ref_delivery g).
Proof.
  intros Hg. destruct slot as [| |r e]; cbn.
  - destruct slot' as [| |r' e']; cbn in *; auto. destruct (grant p) as [x|]; [|done]. injection Hg as <-. auto.
  - destruct slot' as [| |r' e']; cbn in *; auto. destruct (metadata p) as [x|]; [|done]. injection Hg as <-. auto.
  - destruct (controller_registrations p !! r) as [record|] eqn:E; [|auto]. case_bool_decide as Hb; cbn; [|auto].
    destruct slot' as [| |r' e']; cbn in *; auto. destruct (decide (r' = r)) as [->|Hne]; [|rewrite lookup_insert_ne by done; auto].
    rewrite E in Hg. cbn in Hg. unfold record_slot in Hg. case_bool_decide as Hb'; [|done]. destruct (metadata_grant record) as [x|]; [|done]. injection Hg as <-. auto.
Qed.

Lemma forget_presentation_slot p slot : slot_in (p <| controller_registrations := forget_presentation <$> controller_registrations p |>) slot = slot_in p slot.
Proof. destruct slot as [| |r e]; cbn; try done. rewrite lookup_fmap. by destruct (controller_registrations p !! r). Qed.
Lemma bump_slot s p slot : slot_in (bump_revision s p) slot = slot_in p slot.
Proof. by destruct s, slot. Qed.

Lemma insert_less b c p p' : principals b !! c = Some p -> principal_less p p' ->
  forall c', option_Forall2 principal_less (principals b !! c') (<[c := p']> (principals b) !! c').
Proof.
  intros E L c'. destruct (decide (c' = c)) as [->|Hne]; [rewrite E, lookup_insert_eq; by constructor|]. rewrite lookup_insert_ne by done. apply less_principals_refl.
Qed.

Lemma insert_slots b c p p' (fs : list nat) : principals b !! c = Some p ->
  (forall slot g, slot_in p slot = Some g -> slot_in p' slot = Some g \/ ref_delivery g ∈ fs) ->
  forall c' slot g, slot_of b c' slot = Some g -> slot_of (b <| principals := <[c := p']> (principals b) |>) c' slot = Some g \/ ref_delivery g ∈ fs.
Proof.
  intros E Hs c' slot g. unfold slot_of. cbn. destruct (decide (c' = c)) as [->|Hne]; [rewrite E, lookup_insert_eq; cbn; apply Hs|]. rewrite lookup_insert_ne by done. auto.
Qed.

Lemma revoke_principal_withdraws c slot b : withdraws b (revoke_principal c slot b).
Proof.
  unfold revoke_principal. destruct (principals b !! c) as [p|] eqn:E; [|apply withdraws_refl].
  set (q := if bool_decide (slot = Ordinary) then _ else p).
  assert (Lq : principal_less p q) by (unfold q; case_bool_decide; [apply forget_presentation_less|apply principal_less_refl]).
  assert (Sq : forall s, slot_in q s = slot_in p s) by (intros s; unfold q; case_bool_decide; [apply forget_presentation_slot|done]).
  pose proof (take_grant_less slot q) as Lt. pose proof (take_grant_other slot q) as Ot. destruct (take_grant slot q) as [[flag|] r]; cbn in Lt, Ot.
  - apply (withdraws_drop [flag]).
    + apply (insert_less b c p); [done|]. eauto using principal_less_trans, bump_less.
    + apply (insert_slots b c p); [done|]. intros s g Hg. rewrite bump_slot. rewrite <- Sq in Hg. destruct (Ot s g Hg) as [Ht|[= ->]]; [auto|right; apply list_elem_of_here].
  - apply (withdraws_drop []).
    + apply (insert_less b c p); [done|]. eauto using principal_less_trans.
    + apply (insert_slots b c p); [done|]. intros s g Hg. rewrite <- Sq in Hg. destruct (Ot s g Hg) as [Ht|Ht]; [auto|done].
Qed.

Lemma revoke_principal_slot c slot b : slot_of (revoke_principal c slot b) c slot = None.
Proof.
  unfold revoke_principal, slot_of. destruct (principals b !! c) as [p|] eqn:E; [|by rewrite E].
  set (q := if bool_decide (slot = Ordinary) then _ else p). pose proof (take_grant_slot slot q) as Ht. destruct (take_grant slot q) as [[flag|] r]; cbn in *.
  - rewrite lookup_insert_eq. cbn. by rewrite bump_slot.
  - by rewrite lookup_insert_eq.
Qed.

Lemma revoke_slot_spec c slot b : parents_ok b -> exists b', revoke_slot c slot b = Some b' /\ withdraws b b' /\ slot_of b' c slot = None.
Proof.
  intros Hp. unfold revoke_slot. set (b1 := revoke_principal c slot b).
  set (b2 := if bool_decide (slot = Ordinary) then cancel_presentation_for_connection c b1 else b1).
  set (b3 := b2 <| pending := _ |>). set (b4 := discard_stale_proposals c b3).
  assert (W1 : withdraws b1 b2) by (unfold b2; case_bool_decide; [apply withdraws_slot|apply withdraws_refl]).
  assert (W2 : withdraws b2 b3) by apply withdraws_pending, map_filter_subseteq.
  assert (W3 : withdraws b3 b4) by apply withdraws_pending, map_filter_subseteq.
  assert (W : withdraws b1 b4) by eauto using withdraws_trans.
  assert (W0 : withdraws b b1) by apply revoke_principal_withdraws.
  destruct (cut_all_withdraws (running_in_slot c slot b4) Interrupted (Some Revoked) b4) as (b5 & -> & W4); [eauto using withdraws_parents, withdraws_trans|].
  exists b5. split; [done|]. split; [eauto using withdraws_trans|]. assert (V : withdraws b1 b5) by eauto using withdraws_trans. apply (withdrawn_slot V). apply revoke_principal_slot.
Qed.

Lemma revoke_slot_withdraws c slot : withdrawing (revoke_slot c slot).
Proof. intros b Hp. destruct (revoke_slot_spec c slot b Hp) as (b' & E & W & _). eauto. Qed.

Lemma revoke_slots_spec slots b : parents_ok b ->
  exists b', revoke_slots slots b = Some b' /\ withdraws b b' /\ forall c slot, (c, slot) ∈ slots -> slot_of b' c slot = None.
Proof.
  revert b. induction slots as [|[c slot] slots IH]; intros b Hp; [exists b; split; [done|split; [apply withdraws_refl|]]; by intros ? ? ?%elem_of_nil|].
  cbn. destruct (revoke_slot_spec c slot b Hp) as (b1 & -> & W1 & S1). cbn. destruct (IH b1) as (b2 & E2 & W2 & S2); [by eapply withdraws_parents|].
  exists b2. split; [exact E2|]. split; [eauto using withdraws_trans|]. intros c' slot' [[= -> ->]|Hin]%elem_of_cons; [exact (withdrawn_slot W2 _ _ S1)|eauto].
Qed.
Lemma revoke_slots_withdraws slots : withdrawing (revoke_slots slots).
Proof. intros b Hp. destruct (revoke_slots_spec slots b Hp) as (b' & E & W & _). eauto. Qed.

(** A change of registrations that keeps their grants. *)
Lemma withdraws_records (f : ControllerRegistration -> ControllerRegistration) ps b :
  (forall record, record_less record (f record)) -> (forall record, metadata_grant (f record) = metadata_grant record) ->
  (forall c, ps !! c = principals b !! c \/ exists p, principals b !! c = Some p /\ ps !! c = Some (p <| controller_registrations := f <$> controller_registrations p |>)) ->
  withdraws b (b <| principals := ps |>).
Proof.
  intros Hl Hm Hps. apply (withdraws_drop []).
  - intros c. destruct (Hps c) as [-> | (p & E & ->)]; [apply less_principals_refl|]. rewrite E. constructor.
    split; cbn; eauto. intros r record'. rewrite lookup_fmap_Some. intros (record & <- & Er). eauto.
  - intros c slot g. unfold slot_of. cbn. destruct (Hps c) as [-> | (p & E & ->)]; [auto|]. rewrite E. cbn. intros Hg. left. rewrite <- Hg.
    destruct slot as [| |r e]; cbn; try done. rewrite lookup_fmap. destruct (controller_registrations p !! r) as [record|]; [|done].
    cbn. unfold record_slot. by rewrite Hm, (less_enrollment _ _ (Hl record)).
Qed.

Lemma expire_presentations_withdraws now b : withdraws b (expire_presentations now b).
Proof.
  unfold expire_presentations. eapply withdraws_trans; [|apply withdraws_slot]. apply (withdraws_records (expire_presentation_grant now)).
  - intros record. unfold expire_presentation_grant. destruct (presentation_grant record) as [g|] eqn:E; [|apply record_less_refl].
    destruct (pg_expires g <=? now)%N; [split; cbn; auto|apply record_less_refl].
  - intros record. unfold expire_presentation_grant. destruct (presentation_grant record) as [g|]; [|done]. by destruct (pg_expires g <=? now)%N.
  - intros c. rewrite lookup_fmap. destruct (principals b !! c) as [p|]; eauto.
Qed.

Lemma withdrawing_bind f g : withdrawing f -> withdrawing g -> withdrawing (fun b => b' ← f b; g b').
Proof.
  intros Hf Hg b Hp. destruct (Hf b Hp) as (b1 & -> & W1). cbn. destruct (Hg b1) as (b2 & E2 & W2); [by eapply withdraws_parents|]. eauto using withdraws_trans.
Qed.

Lemma expire_withdraws now : withdrawing (expire now).
Proof.
  intros b Hp. unfold expire. set (b1 := expire_presentations now b). set (b2 := b1 <| pending := _ |>).
  assert (W : withdraws b b2) by (eapply withdraws_trans; [apply expire_presentations_withdraws|apply withdraws_pending, map_filter_subseteq]).
  pose proof (withdraws_parents _ _ W Hp) as Hp2.
  destruct (cut_all_withdraws (expired_runs now b2) TimedOut (Some Expired) b2 Hp2) as (b3 & -> & W3). cbn.
  pose proof (withdraws_parents _ _ W3 Hp2) as Hp3. destruct (revoke_slots_withdraws (grant_slots (fun g => g_expires g <=? now)%N (fun g => m_expires g <=? now)%N b3) b3 Hp3) as (b4 & -> & W4). cbn.
  pose proof (withdraws_parents _ _ W4 Hp3) as Hp4. destruct (revoke_slots_withdraws (all_enrollment_slots (expired_grant now) b4) b4 Hp4) as (b5 & E5 & W5).
  exists b5. split; [exact E5|]. eauto 6 using withdraws_trans.
Qed.

(** The slot of an enrollment that holds a grant is listed. *)
Lemma elem_of_enrollment_slots c keep p r e g : slot_in p (EnrollmentMetadata r e) = Some g ->
  (forall record enr, keep record enr = true) -> (c, EnrollmentMetadata r e) ∈ enrollment_slots c keep p.
Proof.
  cbn. destruct (controller_registrations p !! r) as [record|] eqn:E; [|done]. cbn. unfold record_slot. case_bool_decide as Hb; [|done]. intros _ Hk.
  unfold enrollment_slots. apply list_elem_of_omap. exists (r, record). split; [by apply elem_of_entries|]. cbn.
  destruct (enrollment record) as [enr|]; [|done]. injection Hb as <-. cbn. by rewrite Hk.
Qed.

Lemma revoke_connection_spec c b : parents_ok b -> exists b', revoke_connection c b = Some b' /\ withdraws b b' /\ forall slot, slot_of b' c slot = None.
Proof.
  intros Hp. unfold revoke_connection. destruct (revoke_slot_spec c Ordinary b Hp) as (b1 & -> & W1 & S1). cbn.
  destruct (revoke_slot_spec c Metadata b1) as (b2 & -> & W2 & S2); [by eapply withdraws_parents|]. cbn.
  set (slots := from_option _ [] (principals b2 !! c)).
  destruct (revoke_slots_spec slots b2) as (b3 & -> & W3 & S3); [eauto using withdraws_parents, withdraws_trans|]. cbn.
  eexists. split; [done|]. set (ps := alter _ c (principals b3)).
  assert (W4 : withdraws b3 (b3 <| principals := ps |>)).
  { apply (withdraws_records forget_metadata_reviews); [intros; split; cbn; auto|done|]. intros c'. unfold ps. destruct (decide (c' = c)) as [->|Hne].
    - rewrite lookup_alter_eq. destruct (principals b3 !! c) as [p|]; eauto.
    - rewrite lookup_alter_ne by done. auto. }
  assert (W5 : withdraws b3 (b3 <| principals := ps |> <| pending := filter (fun x => pa_connection x.2 <> c) (pending (b3 <| principals := ps |>)) |>))
    by (eapply withdraws_trans; [exact W4|apply withdraws_pending, map_filter_subseteq]).
  split; [eauto using withdraws_trans|]. intros slot. apply (withdrawn_slot W5). destruct (slot_of b3 c slot) as [g|] eqn:Hg; [exfalso|done].
  pose proof (withdrawn_slot_some W3 _ _ _ Hg) as Hg2. destruct slot as [| |r e].
  - rewrite (withdrawn_slot W2 _ _ S1) in Hg2. done.
  - congruence.
  - rewrite S3 in Hg; [done|]. unfold slots. unfold slot_of in Hg2. destruct (principals b2 !! c) as [p|]; [|done]. by eapply elem_of_enrollment_slots.
Qed.
Lemma revoke_connection_withdraws c : withdrawing (revoke_connection c).
Proof. intros b Hp. destruct (revoke_connection_spec c b Hp) as (b' & E & W & _). eauto. Qed.

Lemma retain_withdraws keep b : withdraws b (retain_registrations keep b).
Proof.
  unfold retain_registrations. apply withdraws_drop.
  - intros c. rewrite lookup_fmap. destruct (principals b !! c) as [p|]; constructor. split; cbn; eauto.
    intros r record' [E _]%map_lookup_filter_Some. eauto using record_less_refl.
  - intros c slot g. unfold slot_of. cbn. rewrite lookup_fmap. destruct (principals b !! c) as [p|] eqn:E; [|done]. cbn.
    destruct slot as [| |r e]; cbn; auto. destruct (controller_registrations p !! r) as [record|] eqn:Er; [|done]. cbn.
    destruct (keep record) eqn:Ek; [rewrite (map_lookup_filter_Some_2 _ _ _ record) by done; auto|]. intros Hg. right.
    apply list_elem_of_In, in_flat_map. exists (c, p). split; [by apply list_elem_of_In, elem_of_entries|]. apply in_flat_map. exists (r, record).
    split; [by apply list_elem_of_In, elem_of_entries|]. cbn. rewrite Ek. unfold registration_flags, record_slot in *.
    destruct (bool_decide _); [|done]. destruct (metadata_grant record); [|done]. injection Hg as <-. by left.
Qed.

Lemma revoke_connections_spec cs b : parents_ok b ->
  exists b', for_each revoke_connection cs b = Some b' /\ withdraws b b' /\ forall c slot, c ∈ cs -> slot_of b' c slot = None.
Proof.
  revert b. induction cs as [|c cs IH]; intros b Hp; [exists b; split; [done|split; [apply withdraws_refl|]]; by intros ? ? ?%elem_of_nil|].
  cbn. destruct (revoke_connection_spec c b Hp) as (b1 & -> & W1 & S1). cbn. destruct (IH b1) as (b2 & E2 & W2 & S2); [by eapply withdraws_parents|].
  exists b2. split; [exact E2|]. split; [eauto using withdraws_trans|]. intros c' slot' [->|Hin]%elem_of_cons; [exact (withdrawn_slot W2 _ _ (S1 _))|eauto].
Qed.

(** A grant in one of the unscoped slots that satisfies the test is listed. *)
Lemma elem_of_grant_slots b ord meta c g : slot_of b c Ordinary = Some (RefOrdinary g) -> ord g = true -> (c, Ordinary) ∈ grant_slots ord meta b.
Proof.
  unfold slot_of, grant_slots. destruct (principals b !! c) as [p|] eqn:E; [|done]. cbn. destruct (grant p) as [x|] eqn:Eg; [|done]. intros [= <-] Ho.
  apply list_elem_of_In, in_flat_map. exists (c, p). split; [by apply list_elem_of_In, elem_of_entries|]. cbn. rewrite Eg. cbn. rewrite Ho. by left.
Qed.
Lemma elem_of_metadata_slots b ord meta c g : slot_of b c Metadata = Some (RefMetadata g) -> meta g = true -> (c, Metadata) ∈ grant_slots ord meta b.
Proof.
  unfold slot_of, grant_slots. destruct (principals b !! c) as [p|] eqn:E; [|done]. cbn. destruct (metadata p) as [x|] eqn:Eg; [|done]. intros [= <-] Ho.
  apply list_elem_of_In, in_flat_map. exists (c, p). split; [by apply list_elem_of_In, elem_of_entries|]. cbn. rewrite Eg. cbn. rewrite Ho. apply in_app_iff. right. by left.
Qed.

Lemma grant_at_slot b c g : grant_at b c = Some g <-> slot_of b c Ordinary = Some (RefOrdinary g).
Proof. unfold grant_at, slot_of. destruct (principals b !! c) as [p|]; [|done]. cbn. destruct (grant p); cbn; split; congruence. Qed.

(** After a target was invalidated, no grant mentions it. *)
Definition unmentioned (t : TargetRef) (b : Broker) : Prop :=
  forall c p, principals b !! c = Some p ->
    (forall g, grant p = Some g -> t ∉ scope_targets (scope (g_request g))) /\
    (forall g, metadata p = Some g -> t ∉ m_targets g) /\
    (forall r record e, controller_registrations p !! r = Some record -> enrollment record = Some e -> enr_target e <> t).

Lemma withdrawn_unmentioned t b b' : withdraws b b' -> unmentioned t b -> unmentioned t b'.
Proof.
  intros W H c p' (p & E & L)%(withdrawn_principal W). destruct (H _ _ E) as (A & B & C). split; [|split].
  - intros g Hg. apply A. destruct (less_grant _ _ L); congruence.
  - intros g Hg. apply B. destruct (less_meta _ _ L); congruence.
  - intros r record' e (record & Er & Lr)%(less_records _ _ L) He. eapply C; [exact Er|]. by rewrite <- (less_enrollment _ _ Lr).
Qed.

Lemma retained_records keep b c p r record : principals (retain_registrations keep b) !! c = Some p ->
  controller_registrations p !! r = Some record -> keep record = true.
Proof.
  unfold retain_registrations. destruct (clear_flags_spec (flat_map (fun x => flat_map (fun y => if keep y.2 then [] else registration_flags y.2) (entries (controller_registrations x.2))) (entries (principals b)))
    (b <| principals := (fun p => p <| controller_registrations := filter (fun y => keep y.2 = true) (controller_registrations p) |>) <$> principals b |>)) as (l & -> & _).
  cbn. rewrite lookup_fmap_Some. intros (q & <- & _). cbn. by intros [_ Hk]%map_lookup_filter_Some.
Qed.

Lemma invalidate_target_spec t b : parents_ok b -> exists b', invalidate_target t b = Some b' /\ withdraws b b' /\ unmentioned t b'.
Proof.
  intros Hp. unfold invalidate_target. set (b1 := cancel_presentation_for_target t b). assert (W1 : withdraws b b1) by apply withdraws_slot.
  pose proof (withdraws_parents _ _ W1 Hp) as Hp1.
  destruct (revoke_slots_withdraws (all_enrollment_slots (fun _ e => bool_decide (enr_target e = t)) b1) b1 Hp1) as (b2 & -> & W2). cbn [mbind option_bind].
  set (keep := fun record => negb (bool_decide (enr_target <$> enrollment record = Some t))). set (b3 := retain_registrations keep b2).
  assert (W3 : withdraws b2 b3) by apply retain_withdraws. pose proof (withdraws_parents _ _ W2 Hp1) as Hp2. pose proof (withdraws_parents _ _ W3 Hp2) as Hp3.
  set (slots := grant_slots _ _ b3). destruct (revoke_slots_spec slots b3 Hp3) as (b4 & -> & W4 & S4). cbn [mbind option_bind]. eexists. split; [done|].
  assert (W5 : withdraws b4 (b4 <| pending := filter (fun x => contains_target t (pa_proposal x.2) = false) (pending b4) |>)) by apply withdraws_pending, map_filter_subseteq.
  split; [eauto 6 using withdraws_trans|]. apply (withdrawn_unmentioned t b4); [done|]. intros c p E.
  destruct (withdrawn_principal W4 _ _ E) as (p3 & E3 & L). split; [|split].
  - intros g Hg Hin. assert (Hs : slot_of b4 c Ordinary = Some (RefOrdinary g)) by (unfold slot_of; rewrite E; cbn; by rewrite Hg).
    rewrite (S4 c Ordinary) in Hs; [done|]. apply (elem_of_grant_slots _ _ _ _ g); [|by apply bool_decide_eq_true].
    unfold slot_of. rewrite E3. cbn. destruct (less_grant _ _ L) as [Lg|Lg]; rewrite Lg in Hg; [by rewrite Hg|done].
  - intros g Hg Hin. assert (Hs : slot_of b4 c Metadata = Some (RefMetadata g)) by (unfold slot_of; rewrite E; cbn; by rewrite Hg).
    rewrite (S4 c Metadata) in Hs; [done|]. apply (elem_of_metadata_slots _ _ _ _ g); [|by apply bool_decide_eq_true].
    unfold slot_of. rewrite E3. cbn. destruct (less_meta _ _ L) as [Lg|Lg]; rewrite Lg in Hg; [by rewrite Hg|done].
  - intros r record e Hr He Ht. destruct (less_records _ _ L _ _ Hr) as (record3 & Hr3 & Lr).
    pose proof (retained_records keep b2 c p3 r record3 E3 Hr3) as Hk. unfold keep in Hk. rewrite <- (less_enrollment _ _ Lr), He in Hk. cbn in Hk.
    rewrite bool_decide_eq_true_2 in Hk by congruence. done.
Qed.
