(* ===== verification/BrokerSafe.v ===== *)
(** * What the calls of the broker may change

    [wp m Q b] says that [m] returns from [b], with a result and a broker that
    satisfy [Q].  [evolve P n b b'] is what a call may do: no new grant, writer,
    prepared request, connection or receipt beyond what the permit [P] names,
    and no grant lost without its flag being cleared; identifiers numbered from
    [n] on are new.  The lemmas compose such changes. *)

From Stdlib Require Import NArith Bool.
From stdpp Require Import gmap sorting.
From S2P Require Import Prelude BrokerTypes Broker Presentation BrokerRuns EnrollmentMetadata BrokerInv.

(** ** Computations that return *)
Definition wp {A} (m : M A) (Q : Error + A -> Broker -> Prop) (b : Broker) : Prop := exists r b', m b = Some (r, b') /\ Q r b'.

Lemma wp_bind {A B} (m : M A) (k : A -> M B) Q b :
  wp m (fun r b' => match r with inl e => Q (inl e) b' | inr a => wp (k a) Q b' end) b -> wp (m ≫= k) Q b.
Proof.
  intros (r & b' & E & H). destruct r as [e|a]; [exists (inl e), b'; by (unfold mbind, M_bind; rewrite E)|].
  destruct H as (r & b'' & E' & HQ). exists r, b''. split; [|done]. unfold mbind, M_bind. by rewrite E.
Qed.
Lemma wp_ret {A} (a : A) Q b : Q (inr a) b -> wp (mret a) Q b.
Proof. intros H. by exists (inr a), b. Qed.
Lemma wp_fail {A} e (Q : Error + A -> Broker -> Prop) b : Q (inl e) b -> wp (fail e) Q b.
Proof. intros H. by exists (inl e), b. Qed.
Lemma wp_get Q b : Q (inr b) b -> wp get Q b.
Proof. intros H. by exists (inr b), b. Qed.
Lemma wp_modify f Q b : Q (inr tt) (f b) -> wp (modify f) Q b.
Proof. intros H. by exists (inr tt), (f b). Qed.
Lemma wp_update f Q b b' : f b = Some b' -> Q (inr tt) b' -> wp (update f) Q b.
Proof. intros E H. exists (inr tt), b'. split; [|done]. unfold update. by rewrite E. Qed.
Lemma wp_lift {A} (r : Error + A) Q b : Q r b -> wp (lift r) Q b.
Proof. intros H. by exists r, b. Qed.
Lemma wp_ask {A} (r : R A) x Q b : r = Some x -> Q x b -> wp (ask r) Q b.
Proof. intros E H. exists x, b. split; [|done]. unfold ask. by rewrite E. Qed.
Lemma wp_mono {A} (m : M A) (P Q : Error + A -> Broker -> Prop) b : wp m P b -> (forall r b', P r b' -> Q r b') -> wp m Q b.
Proof. intros (r & b' & E & H) HPQ. exists r, b'. auto. Qed.
(** A computation that keeps [G] may be followed by anything that works from
    every broker with [G]. *)
Lemma wp_then {A B} (m : M A) (k : A -> M B) (G : Broker -> Prop) Q b :
  wp m (fun _ b' => G b') b -> (forall e b', G b' -> Q (inl e) b') -> (forall a b', G b' -> wp (k a) Q b') -> wp (m ≫= k) Q b.
Proof. intros H He Hk. apply wp_bind. eapply wp_mono; [exact H|]. intros [e|a] b' Hb; auto. Qed.

(** ** What a call may change *)
Record Permit := mkPermit {
  may_grant : ConnectionId -> GrantSlot -> GrantRef -> Prop;
  may_lease : LeaseRef -> Prop;
  may_request : RequestId -> RunId -> Operation -> Prop;
  may_connect : ConnectionId -> Prop;
  may_start : ConnectionId * StartKey -> StartReceipt -> Prop
}.
Definition nothing : Permit := mkPermit (fun _ _ _ => False) (fun _ => False) (fun _ _ _ => False) (fun _ => False) (fun _ _ => False).
Definition anything : Permit := mkPermit (fun _ _ _ => True) (fun _ => True) (fun _ _ _ => True) (fun _ => True) (fun _ _ => True).
Record permit_le (P P' : Permit) : Prop := {
  le_grant : forall c slot g, may_grant P c slot g -> may_grant P' c slot g;
  le_lease : forall l, may_lease P l -> may_lease P' l;
  le_request : forall q r o, may_request P q r o -> may_request P' q r o;
  le_connect : forall c, may_connect P c -> may_connect P' c;
  le_start : forall k x, may_start P k x -> may_start P' k x
}.
Lemma nothing_le P : permit_le nothing P.
Proof. by split. Qed.
Lemma le_anything P : permit_le P anything.
Proof. by split. Qed.

Definition same_run (run run' : Run) : Prop :=
  r_connection run' = r_connection run /\ r_slot run' = r_slot run /\ r_grant_epoch run' = r_grant_epoch run /\
  r_parent run' = r_parent run /\ r_delivery run' = r_delivery run /\ descendant_delivery run' = descendant_delivery run.
Record status_kept (b' : Broker) (run run' : Run) : Prop := {
  kept_stopped : run_state (status_of run) = Running \/ run_state (status_of run') = run_state (status_of run);
  kept_flags : run_state (status_of run') = run_state (status_of run) \/
    load b' (descendant_delivery run) = false /\ (load b' (r_delivery run) = false \/ run_state (status_of run') = Completed)
}.
Definition same_request (r r' : Request) : Prop :=
  rq_run r' = rq_run r /\ rq_operation r' = rq_operation r /\ (committed r = true -> committed r' = true).

Record evolve (P : Permit) (n : N) (b b' : Broker) : Prop := {
  e_instance : instance b' = instance b;
  e_limits : limits b' = limits b;
  e_sequence : (sequence b <= sequence b')%N;
  e_global : (used_bytes (global b) <= used_bytes (global b'))%N;
  e_grants : forall c slot g', slot_of b' c slot = Some g' ->
    (exists g, slot_of b c slot = Some g /\ ref_unspent g' = ref_unspent g) \/ may_grant P c slot (ref_unspent g');
  e_writers : forall s l, writer_at b' s = Some l -> writer_at b s = Some l \/ may_lease P l;
  e_requests : forall q r', requests b' !! q = Some r' ->
    (exists r, requests b !! q = Some r /\ same_request r r') \/ may_request P q (rq_run r') (rq_operation r') /\ (n < ref_sequence q)%N;
  e_connections : forall c, is_Some (principals b' !! c) -> is_Some (principals b !! c) \/ may_connect P c /\ (n < ref_sequence c)%N;
  e_starts : forall k x, starts b' !! k = Some x -> starts b !! k = Some x \/ may_start P k x;
  e_receipts : forall k x, starts b !! k = Some x -> is_Some (principals b' !! k.1) -> starts b' !! k = Some x;
  e_flags : (length (flags b) <= length (flags b'))%nat /\ forall i, (i < length (flags b))%nat -> load b' i = true -> load b i = true;
  e_dropped : forall c slot g, slot_of b c slot = Some g ->
    (exists g', slot_of b' c slot = Some g' /\ ref_unspent g' = ref_unspent g) \/ load b' (ref_delivery g) = false;
  e_runs : forall id run run', runs b !! id = Some run -> runs b' !! id = Some run' -> same_run run run' /\ status_kept b' run run';
  e_new_runs : forall id, is_Some (runs b' !! id) -> is_Some (runs b !! id) \/ (n < ref_sequence id)%N
}.

Lemma ref_unspent_delivery g g' : ref_unspent g' = ref_unspent g -> ref_delivery g' = ref_delivery g.
Proof. destruct g as [[]|[]], g' as [[]|[]]; cbn; intros E; inversion E; congruence. Qed.
Lemma ref_unspent_epoch g g' : ref_unspent g' = ref_unspent g -> ref_epoch g' = ref_epoch g.
Proof. destruct g as [[]|[]], g' as [[]|[]]; cbn; intros E; inversion E; congruence. Qed.
Lemma ref_unspent_allows g g' parent spec : ref_unspent g' = ref_unspent g -> grant_allows g' parent spec = grant_allows g parent spec.
Proof. destruct g as [[]|[]], g' as [[]|[]]; cbn; intros E; by inversion E. Qed.

Lemma ref_unspent_expires g g' : ref_unspent g' = ref_unspent g -> ref_expires g' = ref_expires g.
Proof. destruct g as [[]|[]], g' as [[]|[]]; cbn; intros E; by inversion E. Qed.

Lemma same_run_refl run : same_run run run.
Proof. by repeat split. Qed.
Lemma status_kept_refl b run : status_kept b run run.
Proof. split; auto. Qed.
Lemma evolve_refl P n b : evolve P n b b.
Proof.
  split; eauto; try done.
  - intros q r' E. left. exists r'. by repeat split.
  - intros id run run' E E'. replace run' with run by congruence. auto using same_run_refl, status_kept_refl.
Qed.
Lemma evolve_weaken P P' n n' b b' : permit_le P P' -> (n' <= n)%N -> evolve P n b b' -> evolve P' n' b b'.
Proof.
  intros L Hn H. destruct L, H. split; try done.
  - intros c slot g' Hg. destruct (e_grants0 _ _ _ Hg); auto.
  - intros s l Hl. destruct (e_writers0 _ _ Hl); auto.
  - intros q r' Hr. destruct (e_requests0 _ _ Hr) as [|[]]; [auto|right; split; [auto|lia]].
  - intros c Hc. destruct (e_connections0 _ Hc) as [|[]]; [auto|right; split; [auto|lia]].
  - intros k x Hx. destruct (e_starts0 _ _ Hx); auto.
  - intros id Hid. destruct (e_new_runs0 _ Hid); [auto|right; lia].
Qed.

Lemma slot_flag b c slot g : inv b -> slot_of b c slot = Some g -> (ref_delivery g < length (flags b))%nat.
Proof.
  intros H. unfold slot_of. destruct (principals b !! c) as [p|] eqn:E; [|done]. cbn. destruct (inv_principals _ H _ _ E) as [_ Hp].
  destruct slot as [| |r e]; cbn.
  - destruct (grant p) as [x|] eqn:Eg; [|done]. intros [= <-]. apply (grant_flag_ok b), Hp, Eg.
  - destruct (metadata p) as [x|] eqn:Eg; [|done]. intros [= <-]. apply (metadata_flag_ok b), (principal_metadata _ _ Hp), Eg.
  - destruct (controller_registrations p !! r) as [record|] eqn:Er; [|done]. cbn. unfold record_slot. destruct (bool_decide _); [|done].
    destruct (metadata_grant record) as [x|] eqn:Eg; [|done]. intros [= <-]. apply (metadata_flag_ok b). by apply (record_metadata _ _ (proj2 (principal_records _ _ Hp _ _ Er))).
Qed.

Lemma load_false_stays P n b b' i : evolve P n b b' -> (i < length (flags b))%nat -> load b i = false -> load b' i = false.
Proof. intros Ev Hi Hl. destruct (load b' i) eqn:E; [|done]. apply (proj2 (e_flags _ _ _ _ Ev)) in E; [congruence|done]. Qed.

Lemma same_run_trans x y z : same_run x y -> same_run y z -> same_run x z.
Proof. intros (A1 & A2 & A3 & A4 & A5 & A6) (B1 & B2 & B3 & B4 & B5 & B6). repeat split; congruence. Qed.
Lemma same_request_trans x y z : same_request x y -> same_request y z -> same_request x z.
Proof. intros (A1 & A2 & A3) (B1 & B2 & B3). repeat split; auto; congruence. Qed.


Lemma evolve_trans P n b b' b'' : (sequence b <= n)%N -> inv b -> inv b' -> evolve P n b b' -> evolve P n b' b'' -> evolve P n b b''.
Proof.
  intros Hle H H' A B. destruct (e_flags _ _ _ _ A) as [La Fa], (e_flags _ _ _ _ B) as [Lb Fb]. pose proof (e_sequence _ _ _ _ A) as Hs. split.
  - etrans; [apply B|apply A].
  - etrans; [apply B|apply A].
  - etrans; [apply A|apply B].
  - etrans; [apply A|apply B].
  - intros c slot g'' [(g' & Hg' & E')|Hm]%(e_grants _ _ _ _ B); [|by right]. rewrite E'.
    apply (e_grants _ _ _ _ A) in Hg' as [(g & Hg & E)|Hm]; [left; exists g; split; congruence|by right].
  - intros s l [Hl|Hm]%(e_writers _ _ _ _ B); [by apply (e_writers _ _ _ _ A)|by right].
  - intros q r'' [(r' & Hr' & E)|[Hm Hq]]%(e_requests _ _ _ _ B); [|right; split; [done|lia]]. pose proof E as (E1 & E2 & _). rewrite E1, E2.
    apply (e_requests _ _ _ _ A) in Hr' as [(r & Hr & E')|Hm]; [left; exists r; eauto using same_request_trans|by right].
  - intros c [Hc|[Hm Hc]]%(e_connections _ _ _ _ B); [by apply (e_connections _ _ _ _ A)|right; split; [done|lia]].
  - intros k x [Hx|Hm]%(e_starts _ _ _ _ B); [by apply (e_starts _ _ _ _ A)|by right].
  - intros k x Hx Hc. apply (e_receipts _ _ _ _ B); [|done]. apply (e_receipts _ _ _ _ A); [done|]. destruct k as [c k].
    apply (e_connections _ _ _ _ B) in Hc as [Hc|[_ Hc]]; [done|]. apply (inv_starts _ H) in Hx as [p Hp]. destruct (inv_principals _ H _ _ Hp) as [[_ Hr] _]. cbn in Hc. lia.
  - split; [lia|]. intros i Hi Hl. apply Fa; [done|]. apply Fb; [lia|done].
  - intros c slot g Hg. pose proof (slot_flag _ _ _ _ H Hg) as Hi. destruct (e_dropped _ _ _ _ A _ _ _ Hg) as [(g' & Hg' & E')|Hl]; [|right; eapply load_false_stays; [exact B|lia|done]].
    pose proof (ref_unspent_delivery _ _ E') as Ed.
    destruct (e_dropped _ _ _ _ B _ _ _ Hg') as [(g'' & Hg'' & E'')|Hl]; [left; exists g''; split; congruence|right; congruence].
  - intros id run run'' Hr Hr''. pose proof (inv_runs _ H _ _ Hr) as Hok. destruct (runs b' !! id) as [run'|] eqn:Hr'.
    + destruct (e_runs _ _ _ _ A _ _ _ Hr Hr') as [S1 [Ka K1]], (e_runs _ _ _ _ B _ _ _ Hr' Hr'') as [S2 [Kb K2]]. destruct (run_flags_ok _ _ _ Hok) as [F1 F2].
      split; [eauto using same_run_trans|]. destruct S1 as (_ & _ & _ & _ & S15 & S16). rewrite S16, S15 in K2. split.
      * destruct Ka as [Ka|Ka]; [by left|]. destruct Kb as [Kb|Kb]; [left; congruence|right; congruence].
      * destruct K2 as [K2|K2]; [|by right]. destruct K1 as [K1|[K1 K1']]; [left; congruence|right].
        split; [eapply load_false_stays; [exact B|lia|done]|]. destruct K1' as [K1'|K1']; [left; eapply load_false_stays; [exact B|lia|done]|right; congruence].
    + destruct (e_new_runs _ _ _ _ B id) as [Hs'|Hlt]; [by exists run''|rewrite Hr' in Hs'; by destruct Hs'|]. pose proof (proj2 (run_ref _ _ _ Hok)). lia.
  - intros id Hs'. destruct (e_new_runs _ _ _ _ B _ Hs') as [Hs''|Hlt]; [by apply (e_new_runs _ _ _ _ A)|]. right. lia.
Qed.

Lemma withdraws_evolve P n b b' : withdraws b b' -> evolve P n b b'.
Proof.
  intros W. destruct (w_flags _ _ W) as [Hn Hl]. split.
  - apply W.
  - apply W.
  - by rewrite (w_sequence _ _ W).
  - by rewrite (w_global _ _ W).
  - intros c slot g' Hg. left. exists g'. split; [exact (withdrawn_slot_some W _ _ _ Hg)|done].
  - intros s l. unfold writer_at. destruct (targets b' !! s) as [t'|] eqn:E'; [|done]. destruct (withdrawn_target W _ _ E') as (t & -> & [-> | ->]); [auto|done].
  - intros q r' Hr. left. exists r'. split; [|by repeat split]. eapply lookup_weaken; [exact Hr|apply W].
  - intros c [p' E']. destruct (withdrawn_principal W _ _ E') as (p & -> & L). eauto.
  - intros k x. rewrite (w_starts _ _ W). auto.
  - intros k x. by rewrite (w_starts _ _ W).
  - split; [lia|auto].
  - intros c slot g Hg. destruct (w_dropped _ _ W _ _ _ Hg); eauto.
  - intros id run run' E E'. pose proof (w_runs _ _ W id) as Hr. rewrite E, E' in Hr. inversion Hr as [? ? [(s & w & ->) G F]|]; subst. split; [by repeat split|].
    assert (Hs : forall r r' : Run, r' = r -> run_state (status_of r') = run_state (status_of r)) by congruence.
    split; [destruct G as [G|G%Hs]; auto|]. destruct F as [F%Hs|F]; auto.
  - intros id [run' E']. destruct (withdrawn_run W _ _ E') as (run & -> & _). eauto.
Qed.

(** ** Brokers that a call may reach on its way *)
Record good (P : Permit) (b0 b : Broker) : Prop := { good_start : inv b0; good_inv : inv b; good_evolve : evolve P (sequence b0) b0 b }.
(** A change that may follow. *)
Definition step (P : Permit) (n : N) (b b' : Broker) : Prop := inv b -> inv b' /\ evolve P n b b'.
Lemma good_refl P b : inv b -> good P b b.
Proof. intros H. split; auto using evolve_refl. Qed.
Lemma good_step P b0 b b' : good P b0 b -> step P (sequence b0) b b' -> good P b0 b'.
Proof. intros [A B C] H. destruct (H B). split; eauto using evolve_trans. Qed.
Lemma good_weaken P P' b0 b : permit_le P P' -> good P b0 b -> good P' b0 b.
Proof. intros L [A B C]. split; eauto using evolve_weaken. Qed.
Lemma good_nothing P b0 b : good nothing b0 b -> good P b0 b.
Proof. apply good_weaken, nothing_le. Qed.
Lemma step_withdraws P n b b' : withdraws b b' -> step P n b b'.
Proof. intros W H. eauto using withdraws_inv, withdraws_evolve. Qed.
Lemma good_withdraws P b0 b b' : good P b0 b -> withdraws b b' -> good P b0 b'.
Proof. intros H W. eauto using good_step, step_withdraws. Qed.
Lemma good_parents P b0 b : good P b0 b -> parents_ok b.
Proof. intros H. apply inv_parents, H. Qed.

Lemma wp_withdrawing P b0 b f (Q : Error + () -> Broker -> Prop) : withdrawing f -> good P b0 b ->
  (forall b', f b = Some b' -> withdraws b b' -> good P b0 b' -> Q (inr tt) b') -> wp (update f) Q b.
Proof. intros Hf Hg HQ. destruct (Hf b) as (b' & E & W); [by eapply good_parents|]. eapply wp_update; [exact E|]. eauto using good_withdraws. Qed.
