(* ===== verification/BrokerSteps.v ===== *)
(** * The changes that the broker's methods are made of

    Each lemma [step_..] shows that one kind of change keeps the invariant and
    does no more than [evolve] allows. *)

From Stdlib Require Import NArith Bool.
From stdpp Require Import gmap sorting.
From S2P Require Import Prelude BrokerTypes Broker Presentation BrokerRuns EnrollmentMetadata BrokerInv BrokerSafe.

(** ** Growth *)
Record grows (b b' : Broker) : Prop := {
  grows_instance : instance b' = instance b;
  grows_sequence : (sequence b <= sequence b')%N;
  grows_flags : (length (flags b) <= length (flags b'))%nat;
  grows_live : forall t, live_target b t -> live_target b' t
}.
Lemma grows_refl b : grows b b.
Proof. by split. Qed.

Section Grown.
Context {b b' : Broker} (G : grows b b').
Lemma grown_ref i : ref_ok b i -> ref_ok b' i.
Proof using G. destruct G as [A B _ _]. intros [C D]. split; [congruence|lia]. Qed.
Lemma grown_grant g : grant_ok b g -> grant_ok b' g.
Proof using G. destruct G. intros []. split; auto; lia. Qed.
Lemma grown_metadata g : metadata_ok b g -> metadata_ok b' g.
Proof using G. destruct G. intros []. split; auto; lia. Qed.
Lemma grown_record record : record_ok b record -> record_ok b' record.
Proof using G. intros [A B]. split; [|done]. intros g Hg. destruct (A g Hg). auto using grown_metadata. Qed.
Lemma grown_principal p : principal_ok b p -> principal_ok b' p.
Proof using G. intros [A B C D E F]. split; auto using grown_grant, grown_metadata. intros r record Hr. destruct (F _ _ Hr). auto using grown_ref, grown_record. Qed.
Lemma grown_target s t : target_ok b s t -> target_ok b' s t.
Proof using G. destruct G. intros []. split; auto; [congruence|lia]. Qed.

(** A run that keeps what it was admitted with. *)
Record run_keeps (run run' : Run) : Prop := {
  keeps_same : same_run run run';
  keeps_spec : r_spec run' = r_spec run;
  keeps_frozen : frozen_controls run ⊆ frozen_controls run';
  keeps_usage : usage_ok (r_usage run) (budget (r_spec run)) -> usage_ok (r_usage run') (budget (r_spec run))
}.
Lemma run_frame id run run' : run_ok b id run -> run_keeps run run' ->
  (forall parent above, r_parent run = Some parent -> runs b !! parent = Some above -> exists above', runs b' !! parent = Some above' /\ r_connection above' = r_connection above) ->
  (forall g', slot_of b' (r_connection run) (r_slot run) = Some g' -> ref_epoch g' = r_grant_epoch run ->
     exists g, slot_of b (r_connection run) (r_slot run) = Some g /\ ref_unspent g' = ref_unspent g) ->
  (admitted_effects (status_of run') + len (open_requests b') <= used_operations (global b'))%N ->
  run_ok b' id run'.
Proof using G.
  intros [R1 R2 R3 R4 R5 R6 R7 R8 R9] [(S1 & S2 & S3 & S4 & S5 & S6) K2 K3 K4] Hp Hs He. split.
  - auto using grown_ref.
  - by rewrite K2.
  - rewrite K2. auto.
  - intros parent Hpar. rewrite S4 in Hpar. destruct (R4 _ Hpar) as (Hlt & above & Ha & Hc). split; [done|].
    destruct (Hp _ _ Hpar Ha) as (above' & Ha' & Hc'). exists above'. split; congruence.
  - rewrite S3. pose proof (grows_sequence _ _ G). lia.
  - intros g'. rewrite S1, S2, S3, S4, K2. intros Hg He'. destruct (Hs _ Hg He') as (g & Hg0 & E). rewrite (ref_unspent_allows _ _ _ _ E), (ref_unspent_expires _ _ E).
    apply R6; [done|]. rewrite <- He'. symmetry. by apply ref_unspent_epoch.
  - rewrite K2. by etrans.
  - done.
  - rewrite S5, S6. pose proof (grows_flags _ _ G). lia.
Qed.
End Grown.
Lemma run_keeps_refl run : run_keeps run run.
Proof. split; auto using same_run_refl. Qed.

Lemma load_prefix b b' l i : flags b' = flags b ++ l -> (i < length (flags b))%nat -> load b' i = load b i.
Proof. intros E Hi. unfold load. by rewrite E, lookup_app_l. Qed.

Ltac growth G := pose proof (grown_ref G); pose proof (grown_grant G); pose proof (grown_metadata G); pose proof (grown_record G); pose proof (grown_principal G); pose proof (grown_target G).

(** What [evolve] asks of grants that are only charged. *)
Definition same_slots (p p' : Principal) : Prop := forall slot, ref_unspent <$> slot_in p' slot = ref_unspent <$> slot_in p slot.
Lemma same_slots_refl p : same_slots p p.
Proof. done. Qed.
Lemma same_slots_trans p q r : same_slots p q -> same_slots q r -> same_slots p r.
Proof. intros A B slot. by rewrite B, A. Qed.
Definition same_slots_of (b b' : Broker) : Prop := forall c slot, ref_unspent <$> slot_of b' c slot = ref_unspent <$> slot_of b c slot.
Lemma same_slots_some {b b'} : same_slots_of b b' -> forall c slot g', slot_of b' c slot = Some g' -> exists g, slot_of b c slot = Some g /\ ref_unspent g' = ref_unspent g.
Proof. intros H c slot g' E. specialize (H c slot). rewrite E in H. cbn in H. destruct (slot_of b c slot) as [g|]; [|done]. injection H as H. eauto. Qed.
Lemma same_slots_sym {b b'} : same_slots_of b b' -> same_slots_of b' b.
Proof. intros H c slot. by rewrite H. Qed.
Lemma same_slots_eq b b' : principals b' = principals b -> same_slots_of b b'.
Proof. intros E c slot. by rewrite (slot_of_principals _ _ _ _ E). Qed.
Lemma same_slots_insert b c p p' : principals b !! c = Some p -> same_slots p p' -> same_slots_of b (b <| principals := <[c := p']> (principals b) |>).
Proof.
  intros E S c' slot. unfold slot_of. cbn. destruct (decide (c' = c)) as [->|Hne]; [rewrite lookup_insert_eq, E; apply S|by rewrite lookup_insert_ne].
Qed.

(** A change outside the tables of grants, targets, runs and requests. *)
Lemma step_aux P n b b' :
  instance b' = instance b -> limits b' = limits b -> global b' = global b -> principals b' = principals b -> targets b' = targets b ->
  runs b' = runs b -> requests b' = requests b -> starts b' = starts b -> (exists l, flags b' = flags b ++ l) -> (sequence b <= sequence b' <= u64_max)%N ->
  (approvals_requested b' <= 128)%N -> (attempts (presentation b') <= MAX_PRESENTATION_ATTEMPTS_PER_BROKER)%N -> step P n b b'.
Proof.
  intros E1 E2 E3 E4 E5 E6 E7 E8 [l E9] E10 E11 E12 H.
  assert (G : grows b b').
  { split; auto; [lia|rewrite E9, length_app; lia|]. intros t. unfold live_target, find_target. by rewrite E5. }
  growth G. assert (Ho : open_requests b' = open_requests b) by (unfold open_requests; by rewrite E7).
  split.
  - destruct H as [I1 I2 I3 I4 I5 I6 I7 I8 I9 I10 I11]. split; auto; try (rewrite ?E2, ?E3, ?E4, ?Ho; auto; fail).
    + lia.
    + rewrite E4. intros c p Hp. destruct (I6 _ _ Hp). eauto.
    + rewrite E5. eauto.
    + rewrite E6. intros id run Hr. pose proof (I8 _ _ Hr) as Hok. apply (run_frame G id run); auto using run_keeps_refl.
      * rewrite E6. eauto.
      * intros g' Hg _. rewrite (slot_of_principals b b') in Hg by done. eauto.
      * rewrite E3, Ho. apply Hok.
    + rewrite E7. intros q r Hq. eauto.
    + rewrite E8, E4. eauto.
  - split; auto.
    + lia.
    + by rewrite E3.
    + intros c slot g' Hg. rewrite (slot_of_principals b b') in Hg by done. eauto.
    + unfold writer_at. rewrite E5. auto.
    + rewrite E7. intros q r' Hr. left. exists r'. by repeat split.
    + rewrite E4. auto.
    + rewrite E8. auto.
    + by rewrite E8.
    + split; [apply G|]. intros i Hi. by rewrite (load_prefix _ _ _ _ E9).
    + intros c slot g Hg. left. exists g. by rewrite (slot_of_principals b b').
    + rewrite E6. intros id run run' Hr Hr'. replace run' with run by congruence. auto using same_run_refl, status_kept_refl.
    + rewrite E6. auto.
Qed.

Ltac aux := intros; let H := fresh in intros H; pose proof (inv_sequence _ H); pose proof (inv_approvals _ H); pose proof (inv_attempts _ H); eapply step_aux; cbn; try done; try lia; try (by exists []; rewrite app_nil_r); try (by eexists).
Lemma step_mint P n b s : (sequence b <= s <= u64_max)%N -> step P n b (b <| sequence := s |>).
Proof. aux. Qed.
Lemma step_flag P n b : step P n b (new_flag b).
Proof. aux. Qed.
Lemma step_pending P n b ps : step P n b (b <| pending := ps |>).
Proof. aux. Qed.
Lemma step_presentation P n b p : (attempts p <= MAX_PRESENTATION_ATTEMPTS_PER_BROKER)%N -> step P n b (b <| presentation := p |>).
Proof. aux. Qed.
Lemma step_monitor P n b m : step P n b (set_monitor_state m b).
Proof. aux. Qed.
Lemma step_pslot P n b s : step P n b (set_pslot_state s b).
Proof. aux. Qed.
Lemma step_approvals P n b k : (k <= 128)%N -> step P n b (b <| approvals_requested := k |>).
Proof. aux. Qed.

(** ** Principals *)
Lemma live_principals b ps t : live_target b t <-> live_target (b <| principals := ps |>) t.
Proof. done. Qed.
Lemma step_slots P n b c p p' : principals b !! c = Some p -> (inv b -> principal_ok b p -> principal_ok b p') ->
  (forall slot g', slot_in p' slot = Some g' -> (exists g, slot_in p slot = Some g /\ ref_unspent g' = ref_unspent g) \/
     may_grant P c slot (ref_unspent g') /\ forall id run, runs b !! id = Some run -> r_grant_epoch run <> ref_epoch g') ->
  (forall slot g, slot_in p slot = Some g -> exists g', slot_in p' slot = Some g' /\ ref_unspent g' = ref_unspent g) ->
  step P n b (b <| principals := <[c := p']> (principals b) |>).
Proof.
  intros E Hp Hnew Hold H. set (b' := b <| principals := _ |>).
  assert (G : grows b b') by by split. growth G.
  assert (Hl : forall c', is_Some (principals b' !! c') <-> is_Some (principals b !! c')).
  { intros c'. cbn. destruct (decide (c' = c)) as [->|Hne]; [rewrite lookup_insert_eq, E; split; eauto|by rewrite lookup_insert_ne]. }
  assert (Hs : forall c' slot g', slot_of b' c' slot = Some g' -> (exists g, slot_of b c' slot = Some g /\ ref_unspent g' = ref_unspent g) \/
     may_grant P c' slot (ref_unspent g') /\ forall id run, runs b !! id = Some run -> r_grant_epoch run <> ref_epoch g').
  { intros c' slot g'. unfold slot_of. cbn. destruct (decide (c' = c)) as [->|Hne]; [rewrite lookup_insert_eq, E; apply Hnew|]. rewrite lookup_insert_ne by done. eauto. }
  split.
  - pose proof (Hp H (proj2 (inv_principals _ H _ _ E))) as Hp'. pose proof H as [I1 I2 I3 I4 I5 I6 I7 I8 I9 I10 I11]. split; auto.
    + intros c' q. cbn. destruct (decide (c' = c)) as [->|Hne]; [rewrite lookup_insert_eq; intros [= <-]; split; [apply (I6 _ _ E)|auto]|].
      rewrite lookup_insert_ne by done. intros Hq. destruct (I6 _ _ Hq). auto.
    + intros id run Hr. pose proof (I8 _ _ Hr) as Hok. apply (run_frame G id run); auto using run_keeps_refl; [eauto| |apply Hok].
      intros g' Hg He. destruct (Hs _ _ _ Hg) as [Hg'|[_ Hne]]; [done|]. by destruct (Hne _ _ Hr).
    + intros c' k x Hx. apply Hl. eauto.
  - split; auto; try done.
    + intros c' slot g' Hg. destruct (Hs _ _ _ Hg) as [Hg'|[Hm _]]; auto.
    + intros q r' Hr. left. exists r'. by repeat split.
    + intros c' Hc. left. by apply Hl.
    + intros c' slot g. unfold slot_of. cbn. destruct (decide (c' = c)) as [->|Hne]; [rewrite lookup_insert_eq, E; cbn; eauto|]. rewrite lookup_insert_ne by done. eauto.
    + cbn. intros id run run' Hr Hr'. replace run' with run by congruence. auto using same_run_refl, status_kept_refl.
Qed.

Lemma same_slots_in p p' slot g' : same_slots p p' -> slot_in p' slot = Some g' -> exists g, slot_in p slot = Some g /\ ref_unspent g' = ref_unspent g.
Proof. intros H E. specialize (H slot). rewrite E in H. destruct (slot_in p slot) as [g|]; [|done]. injection H as H. eauto. Qed.
Lemma same_slots_flip p p' : same_slots p p' -> same_slots p' p.
Proof. intros H slot. by rewrite H. Qed.
Lemma step_principal P n b c p p' : principals b !! c = Some p -> (inv b -> principal_ok b p -> principal_ok b p') -> same_slots p p' ->
  step P n b (b <| principals := <[c := p']> (principals b) |>).
Proof.
  intros E Hp S. apply (step_slots P n b c p p' E Hp).
  - intros slot g' Hg. left. by eapply same_slots_in.
  - intros slot g Hg. destruct (same_slots_in p' p slot g) as (g' & ? & ?); eauto using same_slots_flip.
Qed.
Lemma step_install P n b c p p' slot0 g0 : principals b !! c = Some p -> (inv b -> principal_ok b p -> principal_ok b p') ->
  slot_in p slot0 = None -> slot_in p' slot0 = Some g0 -> (forall slot, slot <> slot0 -> slot_in p' slot = slot_in p slot) ->
  may_grant P c slot0 (ref_unspent g0) -> (forall id run, runs b !! id = Some run -> r_grant_epoch run <> ref_epoch g0) ->
  step P n b (b <| principals := <[c := p']> (principals b) |>).
Proof.
  intros E Hp N0 S0 So Hm Hr. apply (step_slots P n b c p p' E Hp).
  - intros slot g' Hg. destruct (decide (slot = slot0)) as [->|Hne]; [right; rewrite S0 in Hg; injection Hg as <-; auto|]. rewrite So in Hg by done. eauto.
  - intros slot g Hg. destruct (decide (slot = slot0)) as [->|Hne]; [congruence|]. rewrite So by done. eauto.
Qed.

(** A registration that is changed. *)
Lemma set_registration_slots p r record record' : controller_registrations p !! r = Some record ->
  (forall e, ref_unspent <$> (RefMetadata <$> record_slot e record') = ref_unspent <$> (RefMetadata <$> record_slot e record)) -> same_slots p (set_registration r record' p).
Proof.
  intros E Hr [| |r' e]; cbn; try done. destruct (decide (r' = r)) as [->|Hne]; [rewrite lookup_insert_eq, E; apply Hr|by rewrite lookup_insert_ne].
Qed.
Lemma set_registration_ok b p r record record' : controller_registrations p !! r = Some record -> (record_ok b record -> record_ok b record') ->
  principal_ok b p -> principal_ok b (set_registration r record' p).
Proof.
  intros E Hr [A B C D F G]. split; auto. cbn. intros r' x. destruct (decide (r' = r)) as [->|Hne]; [rewrite lookup_insert_eq; intros [= <-]; destruct (G _ _ E); auto|].
  rewrite lookup_insert_ne by done. auto.
Qed.
Lemma step_registration P n b c p r record record' : principals b !! c = Some p -> controller_registrations p !! r = Some record ->
  (inv b -> record_ok b record -> record_ok b record') ->
  (forall e, ref_unspent <$> (RefMetadata <$> record_slot e record') = ref_unspent <$> (RefMetadata <$> record_slot e record)) ->
  step P n b (b <| principals := <[c := set_registration r record' p]> (principals b) |>).
Proof. intros E Er Hok Hs. apply (step_principal P n b c p); eauto using set_registration_slots. intros H. eauto using set_registration_ok. Qed.
(** A change of what a registration holds besides its enrollment and grant. *)
Lemma step_record P n b c p r record record' : principals b !! c = Some p -> controller_registrations p !! r = Some record ->
  enrollment record' = enrollment record -> metadata_grant record' = metadata_grant record ->
  (inv b -> record_ok b record -> forall g, presentation_grant record' = Some g -> (pg_attempts g <= MAX_PRESENTATION_ATTEMPTS_PER_GRANT)%N) ->
  step P n b (b <| principals := <[c := set_registration r record' p]> (principals b) |>).
Proof.
  intros E Er Ee Em Hp. apply (step_registration P n b c p r record); auto.
  - intros H Hok. split; [|eauto]. intros g. rewrite Em, Ee. apply Hok.
  - intros e. unfold record_slot. by rewrite Ee, Em.
Qed.

(** ** Runs *)
Lemma evolve_tables P n b b' : instance b' = instance b -> limits b' = limits b -> sequence b' = sequence b -> principals b' = principals b ->
  starts b' = starts b -> flags b' = flags b -> (used_bytes (global b) <= used_bytes (global b'))%N ->
  (forall s l, writer_at b' s = Some l -> writer_at b s = Some l \/ may_lease P l) ->
  (forall q r', requests b' !! q = Some r' -> (exists r, requests b !! q = Some r /\ same_request r r') \/ may_request P q (rq_run r') (rq_operation r') /\ (n < ref_sequence q)%N) ->
  (forall id run run', runs b !! id = Some run -> runs b' !! id = Some run' -> same_run run run' /\ run_state (status_of run') = run_state (status_of run)) ->
  (forall id, is_Some (runs b' !! id) -> is_Some (runs b !! id) \/ (n < ref_sequence id)%N) -> evolve P n b b'.
Proof.
  intros E1 E2 E3 E4 E5 E6 Eg Hw Hq Hr Hn. assert (Hs : forall c slot, slot_of b' c slot = slot_of b c slot) by (intros; by apply slot_of_principals).
  split; auto.
  - by rewrite E3.
  - intros c slot g'. rewrite Hs. eauto.
  - rewrite E4. auto.
  - rewrite E5. auto.
  - by rewrite E5.
  - unfold load. rewrite E6. auto.
  - intros c slot g. rewrite Hs. eauto.
  - intros id run run' A B. destruct (Hr _ _ _ A B). split; [done|]. split; auto.
Qed.

Lemma same_request_refl r : same_request r r.
Proof. by repeat split. Qed.

Lemma step_run P n b id run run' : runs b !! id = Some run -> run_keeps run run' -> run_state (status_of run') = run_state (status_of run) ->
  (inv b -> admitted_effects (status_of run') + len (open_requests b) <= used_operations (global b))%N ->
  step P n b (b <| runs := <[id := run']> (runs b) |>).
Proof.
  intros E K Hst He H. set (b' := b <| runs := _ |>). assert (G : grows b b') by by split. growth G.
  assert (Hp : forall i x, runs b !! i = Some x -> exists x', runs b' !! i = Some x' /\ r_connection x' = r_connection x).
  { intros i x Hx. cbn. destruct (decide (i = id)) as [->|Hne]; [|rewrite lookup_insert_ne by done; eauto].
    rewrite lookup_insert_eq. exists run'. split; [done|]. replace x with run by congruence. apply K. }
  split.
  - pose proof H as [I1 I2 I3 I4 I5 I6 I7 I8 I9 I10 I11]. split; auto.
    + intros c p Hc. destruct (I6 _ _ Hc). auto.
    + intros i x Hx. cbn in Hx. destruct (decide (i = id)) as [->|Hne].
      * rewrite lookup_insert_eq in Hx. injection Hx as <-. apply (run_frame G id run); eauto.
      * rewrite lookup_insert_ne in Hx by done. pose proof (I8 _ _ Hx) as Hok. apply (run_frame G i x); eauto using run_keeps_refl. apply Hok.
  - apply evolve_tables; auto; try done.
    + eauto using same_request_refl.
    + intros i x x' Hx. cbn. destruct (decide (i = id)) as [->|Hne].
      * rewrite lookup_insert_eq. intros [= <-]. replace x with run by congruence. split; [apply K|done].
      * rewrite lookup_insert_ne by done. intros Hx'. replace x' with x by congruence. auto using same_run_refl.
    + intros i [x Hx]. cbn in Hx. left. destruct (decide (i = id)) as [->|Hne]; [eauto|rewrite lookup_insert_ne in Hx by done; eauto].
Qed.
(** Changes of a run besides its status. *)
Lemma step_run_data P n b id run run' : runs b !! id = Some run -> run_keeps run run' -> status_of run' = status_of run ->
  step P n b (b <| runs := <[id := run']> (runs b) |>).
Proof. intros E K Hs. apply (step_run P n b id run); auto; [congruence|]. intros H. rewrite Hs. apply (inv_runs _ H _ _ E). Qed.

Lemma step_run_insert P n b id run : runs b !! id = None -> (n < ref_sequence id)%N -> ref_ok b id ->
  budget_ok (budget (r_spec run)) -> usage_ok (r_usage run) (budget (r_spec run)) ->
  (forall parent, r_parent run = Some parent -> (ref_sequence parent < ref_sequence id)%N /\ exists above, runs b !! parent = Some above /\ r_connection above = r_connection run) ->
  (r_grant_epoch run <= sequence b)%N ->
  (forall g, slot_of b (r_connection run) (r_slot run) = Some g -> ref_epoch g = r_grant_epoch run ->
     grant_allows g (r_parent run) (r_spec run) = true /\ (deadline (r_spec run) <= ref_expires g)%N) ->
  control (spec_scope (r_spec run)) ⊆ frozen_controls run -> admitted_effects (status_of run) = 0%N ->
  (r_delivery run < length (flags b))%nat /\ (descendant_delivery run < length (flags b))%nat ->
  step P n b (b <| runs := <[id := run]> (runs b) |>).
Proof.
  intros E Hn Hr Hb Hu Hp He Hs Hc Ha Hf H. set (b' := b <| runs := _ |>). assert (G : grows b b') by by split. growth G.
  assert (Hk : forall i x, runs b !! i = Some x -> runs b' !! i = Some x).
  { intros i x Hx. cbn. rewrite lookup_insert_ne; [done|]. intros ->. congruence. }
  split.
  - pose proof H as [I1 I2 I3 I4 I5 I6 I7 I8 I9 I10 I11]. split; auto.
    + intros c p Hc'. destruct (I6 _ _ Hc'). auto.
    + intros i x Hx. cbn in Hx. destruct (decide (i = id)) as [->|Hne].
      * rewrite lookup_insert_eq in Hx. injection Hx as <-. split; auto; [|rewrite Ha; done].
        intros parent Hpar. destruct (Hp _ Hpar) as (Hlt & above & Hab & Hcon). eauto.
      * rewrite lookup_insert_ne in Hx by done. pose proof (I8 _ _ Hx) as Hok. apply (run_frame G i x); eauto using run_keeps_refl. apply Hok.
  - apply evolve_tables; auto; try done.
    + eauto using same_request_refl.
    + intros i x x' Hx Hx'. rewrite (Hk _ _ Hx) in Hx'. replace x' with x by congruence. auto using same_run_refl.
    + intros i [x Hx]. cbn in Hx. destruct (decide (i = id)) as [->|Hne]; [auto|rewrite lookup_insert_ne in Hx by done; eauto].
Qed.

Lemma step_run_delete P n b id : (forall i run, runs b !! i = Some run -> r_parent run <> Some id) -> step P n b (b <| runs := delete id (runs b) |>).
Proof.
  intros Hch H. set (b' := b <| runs := _ |>). assert (G : grows b b') by by split. growth G.
  assert (Hk : forall i x, runs b' !! i = Some x -> runs b !! i = Some x) by (intros i x; cbn; by intros [_ Hx]%lookup_delete_Some).
  split.
  - pose proof H as [I1 I2 I3 I4 I5 I6 I7 I8 I9 I10 I11]. split; auto.
    + intros c p Hc'. destruct (I6 _ _ Hc'). auto.
    + intros i x Hx. pose proof (I8 _ _ (Hk _ _ Hx)) as Hok. apply (run_frame G i x); eauto using run_keeps_refl; [|apply Hok].
      intros parent above Hpar Ha. exists above. split; [|done]. cbn. rewrite lookup_delete_ne; [done|]. intros ->. by destruct (Hch _ _ (Hk _ _ Hx)).
  - apply evolve_tables; auto; try done.
    + eauto using same_request_refl.
    + intros i x x' Hx Hx'. apply Hk in Hx'. replace x' with x by congruence. auto using same_run_refl.
    + intros i [x Hx%Hk]. eauto.
Qed.

(** ** Budgets and requests *)
Lemma step_global P n b u : (used_operations (global b) <= used_operations u)%N -> (used_bytes (global b) <= used_bytes u)%N ->
  (inv b -> usage_ok u (mkBudget (global_operations (limits b)) (global_disclosed_bytes (limits b)))) -> step P n b (b <| global := u |>).
Proof.
  intros Hle Hby Hu H. set (b' := b <| global := u |>). assert (G : grows b b') by by split. growth G. split.
  - pose proof H as [I1 I2 I3 I4 I5 I6 I7 I8 I9 I10 I11]. split; auto.
    + intros c p Hc'. destruct (I6 _ _ Hc'). auto.
    + intros i x Hx. pose proof (I8 _ _ Hx) as Hok. apply (run_frame G i x); eauto using run_keeps_refl.
      pose proof (run_effects _ _ _ Hok). cbn. change (open_requests b') with (open_requests b). lia.
    + cbn. change (open_requests b') with (open_requests b). lia.
  - apply evolve_tables; auto; try done.
    + eauto using same_request_refl.
    + intros i x x' Hx Hx'. change (runs b !! i = Some x') in Hx'. replace x' with x by congruence. auto using same_run_refl.
Qed.

Lemma step_requests P n b rs : (inv b -> len (filter (fun x : RequestId * Request => committed x.2 = false) rs) <= len (open_requests b))%N ->
  (forall q r', rs !! q = Some r' -> exists r, requests b !! q = Some r /\ same_request r r') -> step P n b (b <| requests := rs |>).
Proof.
  intros Hle Hs H. set (b' := b <| requests := rs |>). assert (G : grows b b') by by split. growth G.
  assert (Ho : (len (open_requests b') <= len (open_requests b))%N) by (apply Hle, H). split.
  - pose proof H as [I1 I2 I3 I4 I5 I6 I7 I8 I9 I10 I11]. split; auto.
    + intros c p Hc'. destruct (I6 _ _ Hc'). auto.
    + intros i x Hx. pose proof (I8 _ _ Hx) as Hok. apply (run_frame G i x); eauto using run_keeps_refl.
      pose proof (run_effects _ _ _ Hok). cbn in *. lia.
    + intros q r' Hq. destruct (Hs _ _ Hq) as (r & Hr & _). eauto.
    + cbn in *. lia.
  - apply evolve_tables; auto; try done. intros i x x' Hx Hx'. change (runs b !! i = Some x') in Hx'. replace x' with x by congruence. auto using same_run_refl.
Qed.

(** Operations that were charged and are neither open requests nor effects. *)
Definition slack (b : Broker) (k : N) : Prop :=
  (len (open_requests b) + k <= used_operations (global b))%N /\
  forall id run, runs b !! id = Some run -> (admitted_effects (status_of run) + len (open_requests b) + k <= used_operations (global b))%N.
Lemma inv_slack b : inv b -> slack b 0.
Proof. intros H. split; [rewrite N.add_0_r; apply H|]. intros id run Hr. rewrite N.add_0_r. apply (inv_runs _ H _ _ Hr). Qed.

Lemma open_insert (rs : gmap RequestId Request) q r : (len (filter (fun x : RequestId * Request => committed x.2 = false) (<[q := r]> rs)) <= len (filter (fun x : RequestId * Request => committed x.2 = false) rs) + 1)%N.
Proof.
  unfold len. rewrite map_filter_insert. case_decide as Hd.
  - rewrite map_size_insert. destruct (_ !! q); unfold id; lia.
  - assert (Hle : size (filter (fun x : RequestId * Request => committed x.2 = false) (delete q rs)) <= size (filter (fun x : RequestId * Request => committed x.2 = false) rs)).
    { apply map_subseteq_size, map_filter_subseteq_mono, delete_subseteq. }
    lia.
Qed.
Lemma open_commit (rs : gmap RequestId Request) q r r' : rs !! q = Some r -> committed r = false -> committed r' = true ->
  (len (filter (fun x : RequestId * Request => committed x.2 = false) (<[q := r']> rs)) + 1 = len (filter (fun x : RequestId * Request => committed x.2 = false) rs))%N.
Proof.
  intros E Hr Hr'. unfold len. rewrite map_filter_insert_False by (cbn; congruence). rewrite map_filter_delete.
  assert (Ho : filter (fun x : RequestId * Request => committed x.2 = false) rs !! q = Some r) by by apply map_lookup_filter_Some_2.
  rewrite map_size_delete_Some by eauto. assert (size (filter (fun x : RequestId * Request => committed x.2 = false) rs) <> 0) by (intros Hz%map_size_empty_inv; by rewrite Hz in Ho). lia.
Qed.

Lemma step_request P n b q r : slack b 1 -> ref_ok b q -> requests b !! q = None -> (n < ref_sequence q)%N -> may_request P q (rq_run r) (rq_operation r) ->
  step P n b (b <| requests := <[q := r]> (requests b) |>).
Proof.
  intros [S0 Sr] Hr Hq Hn Hm H. set (b' := b <| requests := _ |>). assert (G : grows b b') by by split. growth G.
  assert (Ho : (len (open_requests b') <= len (open_requests b) + 1)%N) by apply open_insert. split.
  - pose proof H as [I1 I2 I3 I4 I5 I6 I7 I8 I9 I10 I11]. split; auto.
    + intros c p Hc'. destruct (I6 _ _ Hc'). auto.
    + intros i x Hx. pose proof (I8 _ _ Hx) as Hok. apply (run_frame G i x); eauto using run_keeps_refl. specialize (Sr _ _ Hx). cbn in *. lia.
    + intros q' r'. cbn. destruct (decide (q' = q)) as [->|Hne]; [done|]. rewrite lookup_insert_ne by done. eauto.
    + cbn in *. lia.
  - apply evolve_tables; auto; try done.
    + intros q' r'. cbn. destruct (decide (q' = q)) as [->|Hne]; [rewrite lookup_insert_eq; intros [= <-]; auto|]. rewrite lookup_insert_ne by done. eauto using same_request_refl.
    + intros i x x' Hx Hx'. change (runs b !! i = Some x') in Hx'. replace x' with x by congruence. auto using same_run_refl.
Qed.

Lemma step_commit P n b q r : requests b !! q = Some r -> committed r = false -> step P n b (b <| requests := <[q := r <| committed := true |>]> (requests b) |>).
Proof.
  intros Hq Hc. apply step_requests.
  - intros _. pose proof (open_commit (requests b) q r (r <| committed := true |>) Hq Hc eq_refl). unfold open_requests. lia.
  - intros q' r'. destruct (decide (q' = q)) as [->|Hne]; [rewrite lookup_insert_eq; intros [= <-]; exists r; split; [done|by repeat split]|].
    rewrite lookup_insert_ne by done. eauto using same_request_refl.
Qed.
Lemma commit_slack b q r : inv b -> requests b !! q = Some r -> committed r = false -> slack (b <| requests := <[q := r <| committed := true |>]> (requests b) |>) 1.
Proof.
  intros H Hq Hc. pose proof (open_commit (requests b) q r (r <| committed := true |>) Hq Hc eq_refl) as Ho. destruct (inv_slack _ H) as [S0 Sr].
  unfold slack, open_requests in *. cbn in *. split; [lia|]. intros id run Hr. specialize (Sr _ _ Hr). lia.
Qed.
Lemma step_request_delete P n b q : step P n b (b <| requests := delete q (requests b) |>).
Proof. apply step_withdraws, withdraws_requests, delete_subseteq. Qed.

Lemma step_start P n b c k x : is_Some (principals b !! c) -> starts b !! (c, k) = None -> may_start P (c, k) x -> step P n b (b <| starts := <[(c, k) := x]> (starts b) |>).
Proof.
  intros Hc Hk Hm H. set (b' := b <| starts := _ |>). assert (G : grows b b') by by split. growth G. split.
  - pose proof H as [I1 I2 I3 I4 I5 I6 I7 I8 I9 I10 I11]. split; auto.
    + intros c' p Hc'. destruct (I6 _ _ Hc'). auto.
    + intros i y Hy. pose proof (I8 _ _ Hy) as Hok. apply (run_frame G i y); eauto using run_keeps_refl. apply Hok.
    + intros c' k' y. cbn. destruct (decide ((c', k') = (c, k))) as [[= -> ->]|Hne]; [done|]. rewrite lookup_insert_ne by done. eauto.
  - split; auto; try done.
    + eauto.
    + eauto using same_request_refl.
    + intros k' y. cbn. destruct (decide (k' = (c, k))) as [->|Hne]; [rewrite lookup_insert_eq; intros [= <-]; auto|]. rewrite lookup_insert_ne by done. auto.
    + intros k' y Hy _. cbn. rewrite lookup_insert_ne; [done|]. intros <-. congruence.
    + eauto.
    + intros i y y' Hy Hy'. change (runs b !! i = Some y') in Hy'. replace y' with y by congruence. auto using same_run_refl, status_kept_refl.
Qed.

(** ** Connections *)
Lemma step_connect P n b c : principals b !! c = None -> ref_ok b c -> (n < ref_sequence c)%N -> may_connect P c ->
  step P n b (b <| principals := <[c := Principal_new]> (principals b) |>).
Proof.
  intros E Hr Hn Hm H. set (b' := b <| principals := _ |>). assert (G : grows b b') by by split. growth G.
  assert (Hs : forall c' slot, slot_of b' c' slot = slot_of b c' slot).
  { intros c' slot. unfold slot_of. cbn. destruct (decide (c' = c)) as [->|Hne]; [|by rewrite lookup_insert_ne]. rewrite lookup_insert_eq, E. cbn. by destruct slot. }
  assert (Hp : principal_ok b Principal_new) by by (split; cbn; try done; split; cbn; lia). split.
  - pose proof H as [I1 I2 I3 I4 I5 I6 I7 I8 I9 I10 I11]. split; auto.
    + intros c' p. cbn. destruct (decide (c' = c)) as [->|Hne]; [rewrite lookup_insert_eq; intros [= <-]; auto|]. rewrite lookup_insert_ne by done. intros Hc'. destruct (I6 _ _ Hc'). auto.
    + intros i x Hx. pose proof (I8 _ _ Hx) as Hok. apply (run_frame G i x); eauto using run_keeps_refl; [|apply Hok]. intros g'. rewrite Hs. eauto.
    + intros c' k x Hx. cbn. destruct (decide (c' = c)) as [->|Hne]; [rewrite lookup_insert_eq; eauto|]. rewrite lookup_insert_ne by done. eauto.
  - split; auto; try done.
    + intros c' slot g'. rewrite Hs. eauto.
    + eauto using same_request_refl.
    + intros c'. cbn. destruct (decide (c' = c)) as [->|Hne]; [auto|]. rewrite lookup_insert_ne by done. auto.
    + intros c' slot g. rewrite Hs. eauto.
    + intros i y y' Hy Hy'. change (runs b !! i = Some y') in Hy'. replace y' with y by congruence. auto using same_run_refl, status_kept_refl.
Qed.

Lemma step_disconnect P n b c : (forall slot, slot_of b c slot = None) ->
  step P n b (b <| principals := delete c (principals b) |> <| starts := filter (fun x : ConnectionId * StartKey * StartReceipt => x.1.1 <> c) (starts b) |>).
Proof.
  intros Hnone H. set (b' := b <| principals := _ |> <| starts := _ |>). assert (G : grows b b') by by split. growth G.
  assert (Hs : forall c' slot, slot_of b' c' slot = slot_of b c' slot).
  { intros c' slot. destruct (decide (c' = c)) as [->|Hne]; [rewrite Hnone; unfold slot_of; cbn; by rewrite lookup_delete_eq|]. unfold slot_of. cbn. by rewrite lookup_delete_ne. }
  split.
  - pose proof H as [I1 I2 I3 I4 I5 I6 I7 I8 I9 I10 I11]. split; auto.
    + intros c' p. cbn. intros [_ Hc']%lookup_delete_Some. destruct (I6 _ _ Hc'). auto.
    + intros i x Hx. pose proof (I8 _ _ Hx) as Hok. apply (run_frame G i x); eauto using run_keeps_refl; [|apply Hok]. intros g'. rewrite Hs. eauto.
    + intros c' k x. cbn. intros [Hx Hne]%map_lookup_filter_Some. cbn in Hne. rewrite lookup_delete_ne by done. eauto.
  - split; auto; try done.
    + intros c' slot g'. rewrite Hs. eauto.
    + eauto using same_request_refl.
    + intros c' [p Hp]. cbn in Hp. apply lookup_delete_Some in Hp as [_ Hp]. eauto.
    + intros k x [Hx _]%map_lookup_filter_Some. auto.
    + intros [c' k] x Hx [p Hp]. cbn in Hp. apply lookup_delete_Some in Hp as [Hne _]. apply map_lookup_filter_Some_2; [done|]. cbn. congruence.
    + intros c' slot g. rewrite Hs. eauto.
    + intros i y y' Hy Hy'. change (runs b !! i = Some y') in Hy'. replace y' with y by congruence. auto using same_run_refl, status_kept_refl.
Qed.

Lemma step_runs_of P n b c : step P n b (b <| runs := filter (fun x : RunId * Run => r_connection x.2 <> c) (runs b) |>).
Proof.
  intros H. set (b' := b <| runs := _ |>). assert (G : grows b b') by by split. growth G.
  assert (Hk : forall i x, runs b' !! i = Some x -> runs b !! i = Some x /\ r_connection x <> c) by (intros i x; cbn; by intros Hx%map_lookup_filter_Some).
  split.
  - pose proof H as [I1 I2 I3 I4 I5 I6 I7 I8 I9 I10 I11]. split; auto.
    + intros c' p Hc'. destruct (I6 _ _ Hc'). auto.
    + intros i x Hx. destruct (Hk _ _ Hx) as [Hx0 Hne]. pose proof (I8 _ _ Hx0) as Hok. apply (run_frame G i x); eauto using run_keeps_refl; [|apply Hok].
      intros parent above Hpar Ha. exists above. split; [|done]. apply map_lookup_filter_Some_2; [done|]. cbn.
      destruct (run_parent _ _ _ Hok _ Hpar) as (_ & above' & Ha' & Hcon). congruence.
  - apply evolve_tables; auto; try done.
    + eauto using same_request_refl.
    + intros i x x' Hx Hx'. apply Hk in Hx' as [Hx' _]. replace x' with x by congruence. auto using same_run_refl.
    + intros i [x [Hx _]%Hk]. eauto.
Qed.

(** ** Targets *)
Definition mentions (p : Principal) (t : TargetRef) : Prop :=
  (exists g, grant p = Some g /\ t ∈ scope_targets (scope (g_request g))) \/ (exists g, metadata p = Some g /\ t ∈ m_targets g) \/
  (exists r record g, controller_registrations p !! r = Some record /\ metadata_grant record = Some g /\ t ∈ m_targets g).
Lemma mentions_live b p t : principal_ok b p -> mentions p t -> live_target b t.
Proof.
  intros Hp [(g & E & Ht)|[(g & E & Ht)|(r & record & g & Er & E & Ht)]].
  - by apply (grant_targets_live _ _ (principal_grant _ _ Hp _ E)).
  - by apply (metadata_targets_live _ _ (principal_metadata _ _ Hp _ E)).
  - destruct (principal_records _ _ Hp _ _ Er) as [_ Hr]. by apply (metadata_targets_live _ _ (proj1 (record_metadata _ _ Hr _ E))).
Qed.
Lemma unmentioned_not b t c p : unmentioned t b -> principals b !! c = Some p -> principal_ok b p -> ~ mentions p t.
Proof.
  intros Hu E Hp. destruct (Hu _ _ E) as (A & B & C). intros [(g & Eg & Ht)|[(g & Eg & Ht)|(r & record & g & Er & Eg & Ht)]]; [by eapply A|by eapply B|].
  destruct (record_metadata _ _ (proj2 (principal_records _ _ Hp _ _ Er)) _ Eg) as (_ & e & Ee & Em). rewrite Em in Ht. apply elem_of_singleton in Ht. by apply (C _ _ _ Er Ee).
Qed.

Lemma step_targets P n b ts :
  (inv b -> forall s t, ts !! s = Some t -> target_ok b s t) ->
  (inv b -> forall c p t, principals b !! c = Some p -> principal_ok b p -> mentions p t -> live_target (b <| targets := ts |>) t) ->
  (forall s t l, ts !! s = Some t -> writer t = Some l -> writer_at b s = Some l \/ may_lease P l) ->
  step P n b (b <| targets := ts |>).
Proof.
  intros Ht Hl Hw H. set (b' := b <| targets := ts |>).
  assert (Hok : forall c p, principals b !! c = Some p -> principal_ok b p -> principal_ok b' p).
  { intros c p E Hp. pose proof (fun t => Hl H c p t E Hp) as Hm. destruct Hp as [A B C D F I]. split; auto.
    - intros g Eg. destruct (D _ Eg). split; auto. intros t Hin. apply Hm. left. eauto.
    - intros g Eg. destruct (F _ Eg). split; auto. intros t Hin. apply Hm. right. left. eauto.
    - intros r record Er. destruct (I _ _ Er) as [X [Y Z]]. split; [done|]. split; [|done]. intros g Eg. destruct (Y _ Eg) as [[] W].
      split; [|done]. split; auto. intros t Hin. apply Hm. right. right. eauto 6. }
  split.
  - pose proof H as [I1 I2 I3 I4 I5 I6 I7 I8 I9 I10 I11]. split; auto.
    + intros c p Hc. destruct (I6 _ _ Hc). eauto.
    + intros s t Hs. destruct (Ht H _ _ Hs). by split.
    + intros i x Hx. destruct (I8 _ _ Hx). by split.
  - apply evolve_tables; auto; try done.
    + intros s l. unfold writer_at. cbn. destruct (ts !! s) as [t|] eqn:Es; [|done]. eauto.
    + eauto using same_request_refl.
    + intros i y y' Hy Hy'. change (runs b !! i = Some y') in Hy'. replace y' with y by congruence. auto using same_run_refl.
Qed.
