(* ===== verification/BrokerCalls.v ===== *)
(** * The calls of the broker: authority

    Every method of [broker.rs], [presentation.rs] and [enrollment_metadata.rs]
    that decides about authority returns from every broker that satisfies the
    invariant, keeps it, and grants only what its permit says. *)

From Stdlib Require Import NArith Bool.
From stdpp Require Import gmap sorting.
From S2P Require Import Prelude BrokerTypes Broker Presentation BrokerRuns EnrollmentMetadata BrokerInv BrokerSafe BrokerSteps.

(** ** Rules for the pieces of a method *)
Lemma ok_or_inr {A} e (o : option A) a : ok_or e o = inr a -> o = Some a.
Proof. destruct o; cbn; congruence. Qed.
Lemma require_inr e ok u : require e ok = inr u -> ok = true.
Proof. by destruct ok. Qed.
Lemma checked_add_some m x y z : checked_add m x y = Some z -> z = (x + y)%N /\ (x + y <= m)%N.
Proof. unfold checked_add. destruct (N.leb_spec (x + y) m); [|done]. intros [= <-]. auto. Qed.

Lemma wp_mint Q b : (forall e, Q (inl e) b) -> ((sequence b + 1 <= u64_max)%N -> Q (inr (sequence b + 1)%N) (b <| sequence := (sequence b + 1)%N |>)) -> wp mint Q b.
Proof.
  intros He Ho. unfold mint. apply wp_bind, wp_get. apply wp_bind, wp_lift. destruct (ok_or _ _) as [e|s] eqn:E; [auto|].
  apply ok_or_inr, checked_add_some in E as [-> Hle]. apply wp_bind, wp_modify, wp_ret. auto.
Qed.
Lemma wp_mint_id Q b : (forall e, Q (inl e) b) ->
  ((sequence b + 1 <= u64_max)%N -> Q (inr (mkRef (instance b) (sequence b + 1))) (b <| sequence := (sequence b + 1)%N |>)) -> wp mint_id Q b.
Proof. intros He Ho. apply wp_bind, wp_mint; [auto|]. intros Hle. apply wp_bind, wp_get, wp_ret. by apply Ho. Qed.
Lemma wp_alloc Q b : Q (inr (length (flags b))) (new_flag b) -> wp alloc_flag Q b.
Proof. intros H. apply wp_bind, wp_get. apply wp_bind, wp_modify, wp_ret, H. Qed.
Lemma wp_principal c e f Q b : (principals b !! c = None -> Q (inl e) b) ->
  (forall p, principals b !! c = Some p -> Q (inr tt) (b <| principals := <[c := f p]> (principals b) |>)) -> wp (with_principal c e f) Q b.
Proof.
  intros Hn Hs. apply wp_bind, wp_get. apply wp_bind, wp_lift. destruct (principals b !! c) as [p|] eqn:E; cbn; [|auto]. apply wp_modify. auto.
Qed.
Lemma find_registration_some b c r record : find_registration b c r = Some record -> exists p, principals b !! c = Some p /\ controller_registrations p !! r = Some record.
Proof. unfold find_registration. destruct (principals b !! c) as [p|]; [|done]. cbn. eauto. Qed.
Lemma wp_registration c r e f Q b : (find_registration b c r = None -> Q (inl e) b) ->
  (forall p record, principals b !! c = Some p -> controller_registrations p !! r = Some record ->
     Q (inr tt) (b <| principals := <[c := set_registration r (f record) p]> (principals b) |>)) -> wp (with_registration c r e f) Q b.
Proof.
  intros Hn Hs. apply wp_bind, wp_get. apply wp_bind, wp_lift. destruct (find_registration b c r) as [record|] eqn:E; cbn; [|auto].
  destruct (find_registration_some _ _ _ _ E) as (p & Ep & Er). apply wp_principal; [congruence|]. intros p' Ep'. replace p' with p by congruence. auto.
Qed.
Lemma wp_run id e f Q b : (runs b !! id = None -> Q (inl e) b) ->
  (forall run, runs b !! id = Some run -> Q (inr tt) (b <| runs := <[id := f run]> (runs b) |>)) -> wp (with_run id e f) Q b.
Proof. intros Hn Hs. apply wp_bind, wp_get. apply wp_bind, wp_lift. destruct (runs b !! id) as [run|] eqn:E; cbn; [|auto]. apply wp_modify. auto. Qed.

(** ** Permits *)
Definition to_connect (c : ConnectionId) : Permit := mkPermit (fun _ _ _ => False) (fun _ => False) (fun _ _ _ => False) (fun c' => c' = c) (fun _ _ => False).
Definition to_grant (c : ConnectionId) (slot : GrantSlot) (ok : GrantRef -> Prop) : Permit :=
  mkPermit (fun c' slot' g => c' = c /\ slot' = slot /\ ok g) (fun _ => False) (fun _ _ _ => False) (fun _ => False) (fun _ _ => False).
Definition to_lease (l : LeaseRef) : Permit := mkPermit (fun _ _ _ => False) (fun l' => l' = l) (fun _ _ _ => False) (fun _ => False) (fun _ _ => False).
Definition to_request (q : RequestId) (id : RunId) (o : Operation) : Permit :=
  mkPermit (fun _ _ _ => False) (fun _ => False) (fun q' id' o' => q' = q /\ id' = id /\ o' = o) (fun _ => False) (fun _ _ => False).
Definition to_start (k : ConnectionId * StartKey) (spec : RunSpec) (id : RunId) : Permit :=
  mkPermit (fun _ _ _ => False) (fun _ => False) (fun _ _ _ => False) (fun _ => False) (fun k' x => k' = k /\ sr_spec x = spec /\ sr_run x = id).
(** What a reply permits: an error nothing. *)
Definition on_ok {A} (f : A -> Permit) (r : Error + A) : Permit := match r with inr a => f a | inl _ => nothing end.

Definition is_inr {A} (r : Error + A) : Prop := match r with inr _ => True | inl _ => False end.

(** Taking [Hg : good P b0 b] through a method.  An error ends it with what
    holds so far. *)
Ltac facts H :=
  lazymatch type of H with
  | ok_or _ _ = inr _ => apply ok_or_inr in H; try (apply checked_add_some in H)
  | require _ _ = inr _ => apply require_inr in H
  | _ => idtac
  end.
Create HintDb broker.
#[export] Hint Resolve good_nothing : broker.
Ltac finish := cbn [on_ok is_inr]; first [done|by eauto with broker|by (split; [eauto with broker|done])].
Ltac after Hg := refine (good_step _ _ _ _ Hg _).
Ltac bind := apply wp_bind; cbv beta.
Ltac walk1 :=
  lazymatch goal with
  | |- wp (mbind _ get) _ _ => apply wp_bind, wp_get; cbv beta iota
  | |- wp (mbind _ (lift ?e)) _ _ =>
      apply wp_bind, wp_lift; let H := fresh "E" in let a := fresh "x" in destruct e as [?|a] eqn:H; cbv beta iota; [solve [finish]|facts H; lazymatch type of a with unit => destruct a | _ => idtac end]
  | |- wp (mbind _ (fail _)) _ _ => apply wp_bind, wp_fail; finish
  | |- wp (mret _) _ _ => apply wp_ret
  | |- wp (fail _) _ _ => apply wp_fail; finish
  end.
Ltac expiry Hg :=
  let b' := fresh "b" in let E := fresh "E" in let W := fresh "W" in let Hg' := fresh "Hg" in
  apply wp_bind; eapply wp_withdrawing; [apply expire_withdraws|exact Hg|]; intros b' E W Hg'; cbv beta iota.

(** The call returns, keeps the invariant and does no more than its permit. *)
Definition call_ok {A} (m : M A) (permit : A -> Permit) : Prop := forall b, inv b -> wp m (fun r b' => good (on_ok permit r) b b') b.
Abbreviation harmless m := (call_ok m (fun _ => nothing)).
Lemma call_update f : withdrawing f -> harmless (update f).
Proof. intros Hf b H. eapply wp_withdrawing; [done|by apply (good_refl nothing)|]. finish. Qed.

Lemma fresh_principal b : inv b -> principals b !! mkRef (instance b) (sequence b + 1) = None.
Proof. intros H. destruct (principals b !! _) as [p|] eqn:E; [|done]. destruct (inv_principals _ H _ _ E) as [[_ Hr] _]. cbn in Hr. lia. Qed.
Lemma good_mint P b0 b : good P b0 b -> (sequence b + 1 <= u64_max)%N -> good P b0 (b <| sequence := (sequence b + 1)%N |>).
Proof. intros Hg Hle. eapply good_step; [exact Hg|apply step_mint]. lia. Qed.

(** ** Connections *)
Lemma accept_connection_ok : call_ok accept_connection to_connect.
Proof.
  intros b H. pose proof (good_refl nothing b H) as Hg. unfold accept_connection. do 2 walk1. bind. apply wp_mint_id; [finish|]. intros Hle.
  apply wp_bind, wp_modify, wp_ret. eapply good_step; [apply good_nothing, good_mint; eassumption|apply step_connect; cbn].
  - by apply fresh_principal.
  - split; cbn; [done|lia].
  - lia.
  - done.
Qed.

Lemma withdraws_clear_flags fs b : withdraws b (clear_flags fs b).
Proof. apply withdraws_foldl. intros. apply withdraws_clear. Qed.

Lemma clear_flags_eq fs b : clear_flags fs b = b <| flags := foldl (fun l i => <[i := false]> l) (flags b) fs |>.
Proof. unfold clear_flags. revert b. induction fs as [|i fs IH]; intros b; cbn; [by destruct b|]. by rewrite IH. Qed.

Lemma disconnect_spec c b : inv b -> wp (disconnect c) (fun r b' => good nothing b b' /\ principals b' !! c = None) b.
Proof.
  intros H. pose proof (good_refl nothing b H) as Hg. destruct (revoke_connection_spec c b) as (b1 & E1 & W1 & S1); [by apply inv_parents|].
  unfold disconnect. eapply wp_update; [rewrite E1; cbn; reflexivity|]. set (fs := from_option principal_flags [] (principals b1 !! c)). rewrite clear_flags_eq.
  set (b2 := b1 <| principals := delete c (principals b1) |> <| starts := filter (fun x : ConnectionId * StartKey * StartReceipt => x.1.1 <> c) (starts b1) |>).
  assert (Hg2 : good nothing b b2) by (apply (good_step _ _ b1); [eauto using good_withdraws|by apply step_disconnect]).
  assert (Hg3 : good nothing b (clear_flags fs b2)) by eauto using good_withdraws, withdraws_clear_flags. rewrite clear_flags_eq in Hg3.
  split; [|by cbn; rewrite lookup_delete_eq]. exact (good_step _ _ _ _ Hg3 (step_runs_of nothing _ _ c)).
Qed.

Lemma revoke_ordinary_spec c b : inv b -> wp (revoke_ordinary c) (fun r b' => good nothing b b' /\ slot_of b' c Ordinary = None) b.
Proof. intros H. destruct (revoke_slot_spec c Ordinary b) as (b' & E & W & S); [by apply inv_parents|]. eapply wp_update; [exact E|]. split; [|done]. eauto using good_withdraws, good_refl. Qed.
Lemma revoke_metadata_spec c b : inv b -> wp (revoke_metadata c) (fun r b' => good nothing b b' /\ slot_of b' c Metadata = None) b.
Proof. intros H. destruct (revoke_slot_spec c Metadata b) as (b' & E & W & S); [by apply inv_parents|]. eapply wp_update; [exact E|]. split; [|done]. eauto using good_withdraws, good_refl. Qed.
Lemma revoke_spec c b : inv b -> wp (revoke c) (fun r b' => good nothing b b' /\ forall slot, slot_of b' c slot = None) b.
Proof. intros H. destruct (revoke_connection_spec c b) as (b' & E & W & S); [by apply inv_parents|]. eapply wp_update; [exact E|]. split; [|done]. eauto using good_withdraws, good_refl. Qed.
Lemma revoke_all_spec b : inv b -> wp revoke_all (fun r b' => good nothing b b' /\ forall c slot, slot_of b' c slot = None) b.
Proof.
  intros H. destruct (revoke_connections_spec (map fst (entries (principals b))) b) as (b1 & E & W & S); [by apply inv_parents|].
  unfold revoke_all. eapply wp_update; [rewrite E; reflexivity|].
  assert (V : withdraws b1 (stop_all_presentation_monitoring (retain_registrations (fun _ => false) b1))) by (eapply withdraws_trans; [apply retain_withdraws|apply withdraws_stop]).
  split; [eauto using good_withdraws, good_refl|]. intros c slot. apply (withdrawn_slot V). destruct (decide (c ∈ map fst (entries (principals b)))) as [Hin|Hnin]; [auto|].
  apply (withdrawn_slot W). unfold slot_of. rewrite elem_of_keys in Hnin. destruct (principals b !! c); [|done]. by destruct Hnin.
Qed.
Lemma poll_expiry_ok now : harmless (poll_expiry now).
Proof. apply call_update, expire_withdraws. Qed.

(** ** Registrations and enrollments *)
Lemma new_registration_ok b id s : record_ok b (registration_new id s).
Proof. by split. Qed.
Lemma register_controller_session_ok c id : harmless (register_controller_session c id).
Proof.
  intros b H. pose proof (good_refl nothing b H) as Hg. unfold register_controller_session. do 3 walk1. destruct (list_find _ _) as [[? [found ?]]|]; [walk1; finish|].
  walk1. bind. apply wp_mint_id; [finish|]. intros Hle. pose proof (good_mint _ _ _ Hg Hle) as Hg1. apply wp_bind, wp_principal; [finish|]. intros p Hp. apply wp_ret. cbn [on_ok].
  after Hg1. apply (step_principal nothing _ _ c p); [done| |].
  - intros _ [A B C D F G]. split; auto. cbn. intros r record. destruct (decide (r = mkRef (instance b) (sequence b + 1))) as [->|Hne].
    + rewrite lookup_insert_eq. intros [= <-]. split; [split; cbn; [done|lia]|by split].
    + rewrite lookup_insert_ne by done. auto.
  - intros [| |r e]; cbn; try done. destruct (decide (r = mkRef (instance b) (sequence b + 1))) as [->|Hne]; [|by rewrite lookup_insert_ne].
    rewrite lookup_insert_eq. cbn. destruct (controller_registrations p !! _) as [record|] eqn:Er; [|done].
    destruct (inv_principals _ H _ _ Hp) as [_ Hok]. destruct (principal_records _ _ Hok _ _ Er) as [[_ Hr] _]. cbn in Hr. lia.
Qed.

Lemma prepare_controller_enrollment_ok c r t : harmless (prepare_controller_enrollment c r t).
Proof.
  intros b H. pose proof (good_refl nothing b H) as Hg. unfold prepare_controller_enrollment. do 2 walk1. bind. apply wp_mint; [finish|]. intros Hle.
  pose proof (good_mint _ _ _ Hg Hle) as Hg1. apply wp_bind, wp_registration; [finish|]. intros p record Hp Hr.
  match goal with |- wp _ _ ?b2 => assert (Hg2 : good nothing b b2) end.
  { after Hg1. apply (step_record nothing _ _ c p r record); auto. intros _ Hok. apply Hok. }
  do 3 walk1. finish.
Qed.

(** No grant is left where the slot of the enrollment is empty. *)
Lemma no_metadata b c p r record : inv b -> principals b !! c = Some p -> controller_registrations p !! r = Some record ->
  (forall e, enrollment record = Some e -> slot_of b c (EnrollmentMetadata r (enr_id e)) = None) -> metadata_grant record = None.
Proof.
  intros H Hp Hr Hs. destruct (metadata_grant record) as [g|] eqn:Eg; [exfalso|done]. destruct (inv_principals _ H _ _ Hp) as [_ Hok].
  destruct (record_metadata _ _ (proj2 (principal_records _ _ Hok _ _ Hr)) _ Eg) as (_ & e & Ee & _). specialize (Hs e Ee).
  unfold slot_of in Hs. rewrite Hp in Hs. cbn in Hs. rewrite Hr in Hs. cbn in Hs. unfold record_slot in Hs. rewrite Ee in Hs. cbn in Hs. rewrite bool_decide_eq_true_2 in Hs by done. by rewrite Eg in Hs.
Qed.
Lemma no_record_slot record e : metadata_grant record = None -> record_slot e record = None.
Proof. intros E. unfold record_slot. rewrite E. by destruct (bool_decide _). Qed.

(** Withdrawing the grant of an enrollment before its registration changes. *)
Lemma wp_drop_enrollment P b0 b c r record (Q : Error + () -> Broker -> Prop) : good P b0 b -> find_registration b c r = Some record ->
  (forall b', good P b0 b' -> withdraws b b' -> (forall p' record', principals b' !! c = Some p' -> controller_registrations p' !! r = Some record' -> metadata_grant record' = None) -> Q (inr tt) b') ->
  wp (match enrollment record with Some e => update (revoke_slot c (EnrollmentMetadata r (enr_id e))) | None => mret tt end) Q b.
Proof.
  intros Hg Hf HQ. destruct (find_registration_some _ _ _ _ Hf) as (p & Hp & Hr). destruct (enrollment record) as [e|] eqn:Ee.
  - destruct (revoke_slot_spec c (EnrollmentMetadata r (enr_id e)) b) as (b' & E & W & S); [by eapply good_parents|]. eapply wp_update; [exact E|].
    assert (Hg' : good P b0 b') by eauto using good_withdraws. apply HQ; [done|done|]. intros p' record' Hp' Hr'. apply (no_metadata b' c p' r); [apply Hg'|done|done|].
    intros e' Ee'. destruct (withdrawn_principal W _ _ Hp') as (q & Hq & L). destruct (less_records _ _ L _ _ Hr') as (x & Hx & Lx).
    assert (x = record) as -> by congruence. rewrite (less_enrollment _ _ Lx) in Ee'. congruence.
  - apply wp_ret. apply HQ; [done|apply withdraws_refl|]. intros p' record' Hp' Hr'. assert (record' = record) as -> by congruence.
    apply (no_metadata b c p' r); [apply Hg|done|done|]. congruence.
Qed.

Lemma find_registration_intro b c p r record : principals b !! c = Some p -> controller_registrations p !! r = Some record -> find_registration b c r = Some record.
Proof. intros Hp Hr. unfold find_registration. by rewrite Hp. Qed.

Lemma approve_controller_enrollment_spec c proposal b : inv b -> wp (approve_controller_enrollment c proposal)
  (fun r b' => good nothing b b' /\ (is_inr r -> forall e, slot_of b' c (EnrollmentMetadata (ep_registration proposal) e) = None)) b.
Proof.
  intros H. pose proof (good_refl nothing b H) as Hg. unfold approve_controller_enrollment. do 5 walk1. bind. apply wp_mint_id; [finish|]. intros Hle.
  pose proof (good_mint _ _ _ Hg Hle) as Hg1. bind. eapply wp_drop_enrollment; [exact Hg1|done|]. intros b2 Hg2 W2 Hn. cbv beta iota.
  apply wp_bind, wp_registration; [finish|]. intros p record Hp Hr. specialize (Hn _ _ Hp Hr). apply wp_bind, wp_modify, wp_ret. cbn [on_ok].
  match goal with |- context [cancel_presentation_for_registration _ _ ?b] => set (b3 := b) end.
  assert (W3 : withdraws b3 (cancel_presentation_for_registration c (ep_registration proposal) b3)) by apply withdraws_slot. split.
  - refine (good_withdraws _ _ _ _ _ W3). after Hg2. apply (step_registration nothing _ _ c p _ record); [done|done| |].
    + intros _ Hok. split; cbn; [congruence|done].
    + intros e. by rewrite !no_record_slot.
  - intros _ e. apply (withdrawn_slot W3). unfold b3, slot_of. cbn. rewrite lookup_insert_eq. cbn. rewrite lookup_insert_eq. cbn. by rewrite no_record_slot.
Qed.

Lemma unregister_controller_session_spec c r b : inv b -> wp (unregister_controller_session c r)
  (fun x b' => good nothing b b' /\ (is_inr x -> forall e, slot_of b' c (EnrollmentMetadata r e) = None)) b.
Proof.
  intros H. pose proof (good_refl nothing b H) as Hg. unfold unregister_controller_session. do 2 walk1. bind. eapply wp_drop_enrollment; [exact Hg|done|].
  intros b2 Hg2 W2 Hn. cbv beta iota. do 2 walk1. apply wp_bind, wp_principal; [finish|]. intros p Hp. apply wp_bind, wp_modify, wp_modify.
  match goal with |- context [clear_flags _ ?b] => set (b3 := b) end. set (b4 := clear_flags _ b3).
  assert (W3 : withdraws b3 (cancel_presentation_for_registration c r b4)) by (eapply withdraws_trans; [apply withdraws_clear_flags|apply withdraws_slot]).
  assert (Hs : forall e, slot_of b3 c (EnrollmentMetadata r e) = None).
  { intros e. unfold b3, slot_of. cbn. rewrite lookup_insert_eq. cbn. by rewrite lookup_delete_eq. }
  split; [|intros _ e; apply (withdrawn_slot W3), Hs]. refine (good_withdraws _ _ _ _ _ W3). after Hg2. apply (step_principal nothing _ _ c p); [done| |].
  - intros _ [A B C D F G]. split; auto. cbn. intros k y [_ Hy]%lookup_delete_Some. auto.
  - intros [| |k e]; cbn; try done. destruct (decide (k = r)) as [->|Hne]; [|by rewrite lookup_delete_ne]. rewrite lookup_delete_eq. cbn.
    destruct (controller_registrations p !! r) as [y|] eqn:Ey; [|done]. cbn. by rewrite no_record_slot by eauto.
Qed.

(** ** Targets *)
Lemma live_reference b t : live_target b t -> exists x, targets b !! session t = Some x /\ reference x = t /\ active x = true.
Proof.
  unfold live_target, find_target. destruct (targets b !! session t) as [x|]; [|by intros [? ?]]. cbn. destruct (active x) eqn:Ea; [|by intros [? ?]].
  case_bool_decide as Hb; [|by intros [? ?]]. eauto.
Qed.
Lemma live_intro b t x : targets b !! session t = Some x -> reference x = t -> active x = true -> live_target b t.
Proof. intros E Hr Ha. unfold live_target, find_target. rewrite E. cbn. rewrite Ha, bool_decide_eq_true_2 by done. by eexists. Qed.
(** A session's target that no grant mentions may be replaced. *)
Lemma step_retarget P n b s x x' : targets b !! s = x -> (forall t, x = Some t -> unmentioned (reference t) b \/ forall x, x' = Some x -> reference x = reference t /\ active x = active t) ->
  (inv b -> forall t, x' = Some t -> target_ok b s t) -> (forall t l, x' = Some t -> writer t = Some l -> may_lease P l) ->
  (x' = None -> forall t, x = Some t -> unmentioned (reference t) b) ->
  step P n b (b <| targets := partial_alter (fun _ => x') s (targets b) |>).
Proof.
  intros Ex Hu Hok Hw Hd. apply step_targets.
  - intros H s' t. destruct (decide (s' = s)) as [->|Hne]; [rewrite lookup_partial_alter_eq; by apply Hok|]. rewrite lookup_partial_alter_ne by done. apply H.
  - intros H c p t Hp Hok' Hm. pose proof (mentions_live _ _ _ Hok' Hm) as Hl. destruct (live_reference _ _ Hl) as (y & Ey & Ry & Ay).
    destruct (decide (session t = s)) as [Hs|Hne]; [|apply (live_intro _ _ y); auto; cbn; by rewrite lookup_partial_alter_ne].
    assert (Hy : x = Some y) by congruence. destruct (Hu y Hy) as [Hun|Hsame]; [rewrite Ry in Hun; by destruct (unmentioned_not _ _ _ _ Hun Hp Hok')|].
    destruct x' as [z|]; [|rewrite <- Ry in Hm; by destruct (unmentioned_not _ _ _ _ (Hd eq_refl y Hy) Hp Hok')].
    destruct (Hsame z eq_refl) as [Rz Az]. apply (live_intro _ _ z); [|congruence|congruence]. cbn. by rewrite Hs, lookup_partial_alter_eq.
  - intros s' t l. destruct (decide (s' = s)) as [->|Hne]; [rewrite lookup_partial_alter_eq; eauto|]. rewrite lookup_partial_alter_ne by done. intros Et El. left. unfold writer_at. by rewrite Et.
Qed.

(** Nobody is granted anything on a session. *)
Definition session_clear (b : Broker) (s : N) : Prop := forall c p t, principals b !! c = Some p -> mentions p t -> session t <> s.
Lemma unmentioned_session b s x : inv b -> targets b !! s = x -> (forall t, x = Some t -> unmentioned (reference t) b) -> session_clear b s.
Proof.
  intros H Ex Hu c p t Hp Hm Hs. destruct (inv_principals _ H _ _ Hp) as [_ Hok]. destruct (live_reference _ _ (mentions_live _ _ _ Hok Hm)) as (y & Ey & Ry & _).
  assert (Hun : unmentioned t b) by (rewrite <- Ry; apply Hu; congruence). by destruct (unmentioned_not _ _ _ _ Hun Hp Hok).
Qed.

Lemma find_target_some b r t : find_target b r = Some t -> targets b !! session r = Some t /\ reference t = r /\ active t = true.
Proof.
  unfold find_target. destruct (targets b !! session r) as [x|]; [|done]. cbn. destruct (active x) eqn:Ea; [|done]. cbn. case_bool_decide; [|done]. intros [= <-]. auto.
Qed.

Lemma attach_target_spec s generation b : inv b -> wp (attach_target s generation)
  (fun r b' => good nothing b b' /\ (is_inr r -> session_clear b' s)) b.
Proof.
  intros H. pose proof (good_refl nothing b H) as Hg. unfold attach_target. do 2 walk1. bind. apply wp_mint; [finish|]. intros Hle.
  pose proof (good_mint _ _ _ Hg Hle) as Hg1. set (b1 := b <| sequence := _ |>) in *. bind.
  assert (Hcont : forall b2, good nothing b b2 -> withdraws b1 b2 -> (forall t, targets b2 !! s = Some t -> unmentioned (reference t) b2) ->
    wp (modify (fun b' => b' <| targets := <[s := mkTarget (mkTargetRef (instance b) s generation) true (sequence b + 1)%N None]> (targets b') |>);; mret (mkTargetRef (instance b) s generation))
      (fun r b' => good nothing b b' /\ (is_inr r -> session_clear b' s)) b2).
  { intros b2 Hg2 W2 Hu. apply wp_bind, wp_modify, wp_ret. split.
    - after Hg2. eapply step_retarget; [done|eauto| |by intros ? ? [= <-]|eauto]. intros _ t [= <-]. split; cbn; try done.
      + by rewrite (w_instance _ _ W2).
      + rewrite (w_sequence _ _ W2). cbn. lia.
    - intros _. change (session_clear b2 s). eapply unmentioned_session; [apply Hg2|reflexivity|done]. }
  destruct (targets b !! s) as [old|] eqn:Eo.
  - destruct (invalidate_target_spec (reference old) b1) as (b2 & E2 & W2 & U2); [by eapply good_parents|]. eapply wp_update; [exact E2|]. apply Hcont; [eauto using good_withdraws|done|].
    intros t Ht. destruct (withdrawn_target W2 _ _ Ht) as (t1 & Ht1 & L). cbn in Ht1. assert (t1 = old) as -> by congruence. by destruct L as [-> | ->].
  - apply wp_ret. apply Hcont; [done|apply withdraws_refl|]. cbn. congruence.
Qed.

Lemma close_target_spec r b : inv b -> wp (close_target r) (fun x b' => good nothing b b' /\ (is_inr x -> session_clear b' (session r))) b.
Proof.
  intros H. pose proof (good_refl nothing b H) as Hg. unfold close_target. do 2 walk1. apply ok_or_inr, find_target_some in E as (Er & Rr & Ar).
  destruct (invalidate_target_spec r b) as (b2 & E2 & W2 & U2); [by eapply good_parents|]. bind. eapply wp_update; [exact E2|]. cbv beta iota. apply wp_modify.
  assert (Hg2 : good nothing b b2) by eauto using good_withdraws. destruct (kept_target W2 _ _ Er) as (t2 & Et2 & L2).
  assert (Hu : forall t, targets b2 !! session r = Some t -> unmentioned (reference t) b2) by (intros t Ht; assert (t = t2) as -> by congruence; destruct L2 as [-> | ->]; cbn; by rewrite Rr).
  split.
  - after Hg2. assert (Ea : forall f, alter f (session r) (targets b2) = partial_alter (fun _ => Some (f t2)) (session r) (targets b2)).
    { intros f. apply map_eq. intros s. destruct (decide (s = session r)) as [->|Hne]; [by rewrite lookup_alter_eq, lookup_partial_alter_eq, Et2|by rewrite lookup_alter_ne, lookup_partial_alter_ne]. }
    rewrite Ea. eapply step_retarget; [exact Et2|intros t Ht; left; apply Hu; congruence| |by intros ? ? [= <-]|done]. intros H2 t [= <-]. destruct (inv_targets _ H2 _ _ Et2). by split.
  - intros _. change (session_clear b2 (session r)). eapply unmentioned_session; [apply Hg2|reflexivity|done].
Qed.

Lemma forget_closed_target_ok r : harmless (forget_closed_target r).
Proof.
  intros b H. pose proof (good_refl nothing b H) as Hg. unfold forget_closed_target. do 2 walk1. apply wp_modify. cbn [on_ok].
  destruct (targets b !! session r) as [t|] eqn:Et; [|done]. cbn in E. destruct (active t) eqn:Ea; [done|]. cbn in E. case_bool_decide as Hb; [|done]. injection E as <-.
  match goal with |- good _ _ ?b2 => set (b' := b2) end. assert (Hs : step nothing (sequence b) b (b <| targets := delete (session r) (targets b) |>)).
  { apply step_targets.
    - intros _ s t' [_ Ht']%lookup_delete_Some. by apply H.
    - intros _ c p u Hp Hok Hm. pose proof (mentions_live _ _ _ Hok Hm) as Hl. destruct (live_reference _ _ Hl) as (y & Ey & Ry & Ay).
      apply (live_intro _ _ y); auto. cbn. rewrite lookup_delete_ne; [done|]. intros Hss. rewrite <- Hss in Ey. congruence.
    - intros s t' l [_ Ht']%lookup_delete_Some Hl. left. unfold writer_at. by rewrite Ht'. }
  pose proof (good_step _ _ _ _ Hg Hs) as Hg1. refine (good_step _ _ _ _ Hg1 _). intros H1. pose proof (inv_sequence _ H1). pose proof (inv_approvals _ H1). pose proof (inv_attempts _ H1).
  apply step_aux; try done; [by exists []; rewrite app_nil_r].
Qed.

(** ** Proposals *)
Lemma increment_some n : (n <= 16777216)%N -> increment n = Some (n + 1)%N.
Proof. intros Hn. unfold increment, checked_add, u32_max. destruct (N.leb_spec (n + 1) 4294967295); [done|lia]. Qed.

Section Clocked.
Context `{Ck : Clock}.

Lemma request_pending_good P b0 b c proposal ownership now : good P b0 b -> wp (request_pending c proposal ownership now) (fun _ b' => good P b0 b') b.
Proof.
  intros Hg. unfold request_pending. do 5 walk1. rewrite !andb_true_iff, !N.ltb_lt in E0. destruct E0 as [[[_ _] Hp] Ha].
  bind. apply wp_mint_id; [finish|]. intros Hle. pose proof (good_mint _ _ _ Hg Hle) as Hg1. apply wp_bind, wp_modify.
  match goal with |- wp _ _ ?b2 => assert (Hg2 : good P b0 b2) by (after Hg1; apply step_pending) end. do 2 walk1. assert (Ex : principals b !! c = Some x2) by exact E0. assert (x2 = x) as -> by congruence.
  bind. eapply wp_update; [rewrite increment_some by lia; reflexivity|]. cbv beta iota.
  match goal with |- wp _ _ ?b3 => assert (Hg3 : good P b0 b3) end.
  { after Hg2. apply (step_principal P _ _ c x); [done| |done]. intros _ [A B C D F G]. split; auto. cbn. lia. }
  bind. eapply wp_update; [rewrite increment_some by (cbn; lia); reflexivity|]. apply wp_ret. after Hg3. apply step_approvals. cbn. lia.
Qed.

Lemma request_approval_ok c request now : harmless (request_approval c request now).
Proof. intros b H. unfold request_approval. expiry (good_refl nothing b H). do 3 walk1. eapply wp_mono; [by eapply request_pending_good|]. intros [] ?; finish. Qed.
Lemma request_metadata_approval_ok c request now : harmless (request_metadata_approval c request now).
Proof. intros b H. unfold request_metadata_approval. expiry (good_refl nothing b H). do 4 walk1. eapply wp_mono; [by eapply request_pending_good|]. intros [] ?; finish. Qed.
Lemma reject_approval_ok c id : harmless (reject_approval c id).
Proof. intros b H. pose proof (good_refl nothing b H) as Hg. unfold reject_approval. do 2 walk1. apply wp_modify. after Hg. apply step_pending. Qed.
Lemma request_enrollment_metadata_approval_ok c r e now : harmless (request_enrollment_metadata_approval c r e now).
Proof.
  intros b H. unfold request_enrollment_metadata_approval. expiry (good_refl nothing b H). do 4 walk1. bind. eapply wp_mono; [by eapply request_pending_good|].
  intros [] b' Hg'; [finish|]. walk1. finish.
Qed.

(** ** Presentation *)
Lemma start_monitor_ok : harmless start_qualified_presentation_monitor.
Proof.
  intros b H. pose proof (good_refl nothing b H) as Hg. unfold start_qualified_presentation_monitor. bind. apply wp_mint_id; [finish|]. intros Hle.
  apply wp_bind, wp_modify, wp_bind, wp_modify, wp_ret. after (good_step _ _ _ _ (good_mint _ _ _ Hg Hle) (step_pslot _ _ _ None)). apply step_monitor.
Qed.
Lemma note_presentation_transition_ok id : harmless (note_presentation_transition id).
Proof.
  intros b H. pose proof (good_refl nothing b H) as Hg. unfold note_presentation_transition. do 2 walk1. destruct (checked_add _ _ _) as [k|].
  - apply wp_bind, wp_modify, wp_modify. eapply good_withdraws; [|apply withdraws_slot]. after Hg. apply step_monitor.
  - apply wp_bind, wp_modify, wp_fail. eapply good_withdraws; [exact Hg|apply withdraws_stop].
Qed.
Lemma lose_presentation_monitor_ok id : harmless (lose_presentation_monitor id).
Proof. intros b H. pose proof (good_refl nothing b H) as Hg. unfold lose_presentation_monitor. do 2 walk1. apply wp_modify. eapply good_withdraws; [exact Hg|apply withdraws_stop]. Qed.
Lemma invalidate_presentation_monitoring_ok : harmless invalidate_presentation_monitoring.
Proof. intros b H. pose proof (good_refl nothing b H) as Hg. apply wp_modify. eapply good_withdraws; [exact Hg|apply withdraws_stop]. Qed.
Lemma observe_presentation_ok id state : harmless (observe_presentation id state).
Proof.
  intros b H. pose proof (good_refl nothing b H) as Hg. unfold observe_presentation. do 2 walk1.
  assert (Hstop : forall b', good nothing b b' -> wp (modify stop_all_presentation_monitoring;; fail Unavailable : M (option NativePresentationObservation)) (fun r b' => good (on_ok (fun _ => nothing) r) b b') b').
  { intros b' Hg'. apply wp_bind, wp_modify, wp_fail. eapply good_withdraws; [exact Hg'|apply withdraws_stop]. }
  destruct (checked_add _ _ _) as [k|]; [|auto]. apply wp_bind, wp_modify. assert (Hg1 : good nothing b (set_monitor_state (x <| samples := k |>) b)) by (after Hg; apply step_monitor).
  destruct state as [w [t|] v| | |]; auto.
  - destruct (v =? u64_max)%N; [auto|]. apply wp_bind, wp_modify, wp_ret. eapply good_withdraws; [exact Hg1|apply withdraws_slot].
  - apply wp_bind, wp_modify, wp_ret. eapply good_withdraws; [exact Hg1|apply withdraws_slot].
  - apply wp_bind, wp_modify, wp_ret. eapply good_withdraws; [exact Hg1|apply withdraws_slot].
  - apply wp_bind, wp_modify, wp_fail. after Hg1. apply step_pslot.
Qed.

Lemma prepare_controller_presentation_approval_ok c r e now : harmless (prepare_controller_presentation_approval c r e now).
Proof.
  intros b H. unfold prepare_controller_presentation_approval. expiry (good_refl nothing b H). do 2 walk1. bind. apply wp_mint; [finish|]. intros Hle.
  pose proof (good_mint _ _ _ Hg Hle) as Hg1. apply wp_bind, wp_registration; [finish|]. intros p record Hp Hr. apply wp_bind, wp_modify.
  match goal with |- wp _ _ ?b2 => assert (Hg2 : good nothing b b2) end.
  { eapply good_withdraws; [|apply withdraws_slot]. after Hg1. apply (step_record nothing _ _ c p r record); auto. done. }
  do 4 walk1. finish.
Qed.
Lemma approve_controller_presentation_ok c proposal lifetime now : harmless (approve_controller_presentation c proposal lifetime now).
Proof.
  intros b H. unfold approve_controller_presentation. expiry (good_refl nothing b H). do 9 walk1. bind. apply wp_mint; [finish|]. intros Hle.
  pose proof (good_mint _ _ _ Hg Hle) as Hg1. apply wp_registration; [finish|]. intros p record Hp Hr. cbn [on_ok]. after Hg1. apply (step_record nothing _ _ c p _ record); auto.
  cbn. intros _ _ g [= <-]. cbn. lia.
Qed.
Lemma revoke_controller_presentation_ok c r : harmless (revoke_controller_presentation c r).
Proof.
  intros b H. pose proof (good_refl nothing b H) as Hg. apply wp_bind, wp_registration; [finish|]. intros p record Hp Hr. apply wp_modify. cbn [on_ok].
  eapply good_withdraws; [|apply withdraws_slot]. after Hg. apply (step_record nothing _ _ c p r record); auto. done.
Qed.
Lemma alter_known {K A} `{Countable K} (f : A -> A) k (m : gmap K A) x : m !! k = Some x -> alter f k m = <[k := f x]> m.
Proof.
  intros E. apply map_eq. intros k'. destruct (decide (k' = k)) as [->|Hne]; [by rewrite lookup_alter_eq, lookup_insert_eq, E|by rewrite lookup_alter_ne, lookup_insert_ne].
Qed.
Lemma find_presentation_grant_some b c r e now g : find_presentation_grant b c r e now = inr g ->
  exists record, find_registration b c r = Some record /\ presentation_grant record = Some g.
Proof.
  unfold find_presentation_grant. destruct (resolve_controller_enrollment b c r e) as [?|t]; [done|]. cbn. destruct (find_registration b c r) as [record|]; [|done]. cbn.
  destruct (presentation_grant record) as [x|] eqn:Ex; [|done]. cbn. destruct (_ && _); [|done]. cbn. destruct (require _ _); [done|]. intros [= <-]. eauto.
Qed.

Lemma prepare_presentation_ok c r e window timeout now : harmless (prepare_presentation c r e window timeout now).
Proof.
  intros b H. unfold prepare_presentation. expiry (good_refl nothing b H). do 7 walk1. destruct (find_presentation_grant_some _ _ _ _ _ _ E0) as (record & Hf & Hh).
  destruct (find_registration_some _ _ _ _ Hf) as (p & Hp & Hr). rewrite andb_true_iff, !N.ltb_lt in E4. destruct E4 as [Ha Hb].
  bind. apply wp_mint; [finish|]. intros Hle. pose proof (good_mint _ _ _ Hg Hle) as Hg1. walk1. change (find_registration (b0 <| sequence := (sequence b0 + 1)%N |>) c r) with (find_registration b0 c r). rewrite Hf. walk1.
  injection E4 as <-. rewrite Hh. walk1. injection E4 as <-. unfold MAX_PRESENTATION_ATTEMPTS_PER_GRANT, MAX_PRESENTATION_ATTEMPTS_PER_BROKER in *.
  bind. eapply wp_update; [rewrite increment_some by lia; reflexivity|]. cbv beta iota. cbn [principals]. 
  match goal with |- wp _ _ ?b2 => assert (Hg2 : good nothing b b2) end.
  { rewrite (alter_known _ _ _ p) by done. after Hg1. apply (step_record nothing _ _ c p r record); auto. cbn. intros _ _ g [= <-]. cbn. unfold MAX_PRESENTATION_ATTEMPTS_PER_GRANT. lia. }
  bind. eapply wp_update; [rewrite increment_some by (cbn; lia); reflexivity|]. cbv beta iota.
  match goal with |- wp _ _ ?b3 => assert (Hg3 : good nothing b b3) end.
  { after Hg2. apply step_presentation. cbn. unfold MAX_PRESENTATION_ATTEMPTS_PER_BROKER. lia. }
  apply wp_bind, wp_modify, wp_ret. after Hg3. apply step_pslot.
Qed.

Lemma set_phase_good P b0 b phase : good P b0 b -> wp (set_phase phase) (fun _ b' => good P b0 b') b.
Proof. intros Hg. unfold set_phase. do 2 walk1. apply wp_modify. after Hg. apply step_pslot. Qed.

Lemma presentation_requested_ok c a now : harmless (presentation_requested c a now).
Proof.
  intros b H. unfold presentation_requested. walk1. expiry (good_refl nothing b H). do 7 walk1. eapply wp_mono; [by eapply set_phase_good|]. intros [] ?; finish.
Qed.
Lemma finish_presentation_ok c a o now : harmless (finish_presentation c a o now).
Proof.
  intros b H. pose proof (good_refl nothing b H) as Hg0. unfold finish_presentation. walk1. expiry Hg0. bind. destruct (live_until now (at_deadline a)).
  2: { apply wp_bind, wp_modify, wp_fail. eapply good_withdraws; [exact Hg|apply withdraws_slot]. }
  apply wp_ret. do 3 walk1. bind. destruct (pg_epoch x0 =? sl_grant_epoch x)%N; [apply wp_ret|apply wp_bind, wp_modify, wp_fail; after Hg; apply step_pslot].
  walk1. destruct o as [o|]; [|walk1; finish]. walk1. destruct (_ && _); [|apply wp_bind, wp_modify, wp_fail; after Hg; apply step_pslot].
  destruct (_ && _); [|walk1; finish]. bind. apply wp_mint_id; [finish|]. intros Hle. pose proof (good_mint _ _ _ Hg Hle) as Hg1. bind.
  eapply wp_mono; [by eapply set_phase_good|]. intros [] b2 Hg2; [finish|]. walk1. finish.
Qed.
Lemma cancel_presentation_ok c a : harmless (cancel_presentation c a).
Proof. intros b H. pose proof (good_refl nothing b H) as Hg. unfold cancel_presentation. do 3 walk1. apply wp_modify. after Hg. apply step_pslot. Qed.
Lemma revalidate_presentation_good P b0 b c requirement t o now : good P b0 b -> wp (revalidate_presentation c requirement t o now) (fun _ b' => good P b0 b') b.
Proof.
  intros Hg. unfold revalidate_presentation. expiry Hg. do 3 walk1. destruct (slot_phase x); [by apply wp_fail..|]. walk1.
  destruct (_ && _); [|apply wp_bind, wp_modify, wp_fail; after Hg0; apply step_pslot]. by eapply set_phase_good.
Qed.

(** ** Decisions *)
Lemma cut_run_principals id s w b child : principals (cut_run id s w b child) = principals b.
Proof. unfold cut_run. destruct (runs b !! child) as [run|]; [|done]. destruct (bool_decide (_ = Completed)); by destruct (bool_decide (_ = Running)). Qed.
Lemma cut_principals id s w b b' : cut id s w b = Some b' -> principals b' = principals b.
Proof.
  unfold cut. destruct (descendants b id) as [ids|]; [|done]. cbn. intros [= <-].
  match goal with |- principals (foldl _ ?x _) = _ => assert (E : principals x = principals b) by done; revert E; generalize x end.
  induction ids as [|i ids IH]; intros x E; cbn; [done|]. apply IH. by rewrite cut_run_principals.
Qed.
Lemma cut_all_principals ids s w b b' : cut_all ids s w b = Some b' -> principals b' = principals b.
Proof.
  unfold cut_all. revert b. induction ids as [|i ids IH]; intros b; cbn; [by intros [= <-]|]. destruct (cut i s w b) as [b1|] eqn:E; [|done]. cbn. intros E'.
  rewrite (IH _ E'). by eapply cut_principals.
Qed.
Lemma revoke_slot_principals c slot b b' : revoke_slot c slot b = Some b' -> principals b' = principals (revoke_principal c slot b).
Proof.
  unfold revoke_slot. intros E%cut_all_principals. rewrite E. cbn. destruct (bool_decide (slot = Ordinary)); [|done].
  unfold cancel_presentation_for_connection, drop_slot. destruct (pslot _) as [s|]; [|done]. by destruct (bool_decide _).
Qed.

Definition rev_of (slot : GrantSlot) (r : GrantRevisions) : N :=
  match slot with Ordinary => rev_ordinary r | Metadata => rev_metadata r | EnrollmentMetadata _ _ => rev_enrollment r end.
Definition same_records (p p' : Principal) : Prop := forall r record, controller_registrations p !! r = Some record ->
  exists record', controller_registrations p' !! r = Some record' /\ enrollment record' = enrollment record.
Lemma take_grant_revision slot p : revisions (take_grant slot p).2 = revisions p.
Proof. destruct slot as [| |r e]; cbn; try done. destruct (controller_registrations p !! r); [|done]. by destruct (bool_decide _). Qed.
Lemma take_grant_records slot p : same_records p (take_grant slot p).2.
Proof.
  intros r record Hr. destruct slot as [| |r' e]; cbn; eauto. destruct (controller_registrations p !! r') as [x|] eqn:Ex; [|eauto]. destruct (bool_decide _); [|eauto]. cbn.
  destruct (decide (r = r')) as [->|Hne]; [rewrite lookup_insert_eq; eexists; split; [done|]; cbn; congruence|rewrite lookup_insert_ne by done; eauto].
Qed.
Lemma take_grant_taken slot p f : (take_grant slot p).1 = Some f -> is_Some (slot_in p slot).
Proof.
  destruct slot as [| |r e]; cbn; [by destruct (grant p)|by destruct (metadata p)|]. destruct (controller_registrations p !! r) as [x|]; [|done]. cbn. unfold record_slot.
  destruct (bool_decide _); [|done]. cbn. by destruct (metadata_grant x).
Qed.
Lemma revoked_principal c slot b b' p : revoke_slot c slot b = Some b' -> principals b !! c = Some p ->
  exists p', principals b' !! c = Some p' /\ same_records p p' /\ (rev_of slot (revisions p') <= rev_of slot (revisions p) + (if bool_decide (is_Some (slot_in p slot)) then 1 else 0))%N.
Proof.
  intros E Hp. rewrite (revoke_slot_principals _ _ _ _ E). unfold revoke_principal. rewrite Hp. set (q := if bool_decide (slot = Ordinary) then _ else p).
  assert (Sq : slot_in q slot = slot_in p slot) by (unfold q; case_bool_decide; [apply forget_presentation_slot|done]).
  assert (Rq : revisions q = revisions p) by (unfold q; by case_bool_decide).
  assert (Kq : same_records p q).
  { intros r record Hr. unfold q. case_bool_decide; [|eauto]. cbn. rewrite lookup_fmap, Hr. cbn. eexists. split; [done|]. done. }
  pose proof (take_grant_revision slot q) as Rt. pose proof (take_grant_records slot q) as Kt. pose proof (take_grant_taken slot q) as Ht.
  assert (Kall : forall x, same_records q x -> same_records p x). { intros x Hx r record Hr. destruct (Kq _ _ Hr) as (r1 & H1 & E1). destruct (Hx _ _ H1) as (r2 & H2 & E2). exists r2. split; congruence. }
  destruct (take_grant slot q) as [[f|] t]; cbn in Rt, Kt, Ht; cbn; rewrite lookup_insert_eq; eexists; (split; [done|]).
  - specialize (Ht f eq_refl). rewrite Sq in Ht. rewrite bool_decide_eq_true_2 by done. rewrite <- Rq, <- Rt. split; [apply Kall; by destruct slot|].
    destruct slot; cbn; unfold saturating_add; lia.
  - split; [by apply Kall|]. rewrite <- Rq, <- Rt. destruct (bool_decide _); lia.
Qed.
Lemma validate_revision_bound b c slot p u : principals b !! c = Some p -> validate_revision_transition b c slot = inr u ->
  (rev_of slot (revisions p) + (if bool_decide (is_Some (slot_in p slot)) then 1 else 0) + 1 <= u64_max)%N.
Proof.
  intros Hp. unfold validate_revision_transition. rewrite Hp. cbn. destruct slot as [| |r e]; cbn.
  - destruct (ok_or _ _) eqn:E; [done|]. intros _. apply ok_or_inr, checked_add_some in E as [_ E]. destruct (grant p); cbn in *; lia.
  - destruct (ok_or _ _) eqn:E; [done|]. intros _. apply ok_or_inr, checked_add_some in E as [_ E]. destruct (metadata p); cbn in *; lia.
  - destruct (controller_registrations p !! r) as [record|]; [|done]. cbn. unfold record_slot. destruct (bool_decide (enr_id <$> enrollment record = Some e)); [|done]. cbn.
    destruct (ok_or QuotaExceeded _) eqn:E; [done|]. intros _. apply ok_or_inr, checked_add_some in E as [_ E]. destruct (metadata_grant record); cbn in *; lia.
Qed.

Lemma wp_count_revision c slot Q b p : principals b !! c = Some p -> (rev_of slot (revisions p) + 1 <= u64_max)%N ->
  (forall r, rev_of slot r = (rev_of slot (revisions p) + 1)%N -> (revisions_ok (revisions p) -> revisions_ok r) -> Q (inr tt) (b <| principals := <[c := p <| revisions := r |>]> (principals b) |>)) ->
  wp (count_revision c slot) Q b.
Proof.
  intros Hp Hle HQ. unfold count_revision. apply wp_bind, wp_get, wp_bind, wp_lift. rewrite Hp. cbn [ok_or].
  assert (Hc : forall n, (n + 1 <= u64_max)%N -> checked_add u64_max n 1 = Some (n + 1)%N) by (intros n Hn; unfold checked_add; by destruct (N.leb_spec (n + 1) u64_max); [|lia]).
  destruct slot as [| |r e]; cbn in *; (eapply wp_update; [rewrite Hc by done; reflexivity|]; apply HQ; [done|]; intros (A & B & C); repeat split; cbn; auto).
Qed.

Lemma reset_usage_slots p : same_slots p (reset_usage p).
Proof. unfold reset_usage. by destruct (has_any_grant p). Qed.
Lemma reset_usage_ok b p : principal_ok b p -> principal_ok b (reset_usage p).
Proof. unfold reset_usage. destruct (has_any_grant p); [done|]. intros [A B C D F G]. split; auto. split; cbn; lia. Qed.

(** What the three decisions do before they install their grant. *)
Lemma wp_replace {A} b0 b c slot p (k : N -> nat -> M A) Q u : good nothing b0 b -> principals b !! c = Some p -> validate_revision_transition b c slot = inr u ->
  (forall e b', good nothing b0 b' -> Q (inl e) b') ->
  (forall b5 p5 epoch flag, good nothing b0 b5 -> principals b5 !! c = Some p5 -> slot_in p5 slot = None -> same_records p p5 ->
     (forall id run, runs b5 !! id = Some run -> r_grant_epoch run <> epoch) -> (epoch <= sequence b5)%N -> (flag < length (flags b5))%nat ->
     (forall t, live_target b t -> live_target b5 t) -> wp (k epoch flag) Q b5) ->
  wp (epoch ← mint; update (revoke_slot c slot);; with_principal c Unauthorized reset_usage;; count_revision c slot;; flag ← alloc_flag; k epoch flag) Q b.
Proof.
  intros Hg Hp Hv He Hk. pose proof (validate_revision_bound _ _ _ _ _ Hp Hv) as Hrev. bind. apply wp_mint; [auto|]. intros Hle.
  pose proof (good_mint _ _ _ Hg Hle) as Hg1. destruct (revoke_slot_spec c slot _ (good_parents _ _ _ Hg1)) as (b2 & E2 & W2 & S2).
  bind. eapply wp_update; [exact E2|]. cbv beta iota. assert (Hg2 : good nothing b0 b2) by eauto using good_withdraws.
  destruct (revoked_principal _ _ _ _ _ E2 Hp) as (p2 & Hp2 & K2 & R2). bind. apply wp_principal; [congruence|]. intros p2' Hp2'. assert (p2' = p2) as -> by congruence. cbv beta iota.
  match goal with |- wp _ _ ?x => set (b3 := x); assert (Hg3 : good nothing b0 b3) end.
  { after Hg2. apply (step_principal nothing _ _ c p2); auto using reset_usage_slots, reset_usage_ok. }
  assert (Hp3 : principals b3 !! c = Some (reset_usage p2)) by (unfold b3; cbn; by rewrite lookup_insert_eq).
  assert (Rr : revisions (reset_usage p2) = revisions p2) by (unfold reset_usage; by destruct (has_any_grant p2)).
  bind. eapply wp_count_revision; [exact Hp3|rewrite Rr; lia|]. intros r _ Hr. cbv beta iota.
  match goal with |- wp _ _ ?x => set (b4 := x); assert (Hg4 : good nothing b0 b4) end.
  { after Hg3. apply (step_principal nothing _ _ c (reset_usage p2)); [done| |done]. intros _ [A0 B0 C0 D0 F0 G0]. split; auto. }
  bind. apply wp_alloc. cbv beta iota. eapply (Hk (new_flag b4) ((reset_usage p2) <| revisions := r |>)).
  - after Hg4. apply step_flag.
  - apply lookup_insert_eq.
  - rewrite <- S2. unfold slot_of. rewrite Hp2. cbn [mbind option_bind]. unfold reset_usage. by destruct (has_any_grant p2), slot.
  - unfold reset_usage. by destruct (has_any_grant p2).
  - intros id run Hrun Heq. change (runs b2 !! id = Some run) in Hrun. destruct (withdrawn_run W2 _ _ Hrun) as (run1 & Hrun1 & [(s & w & ->) _ _]).
    change (runs b !! id = Some run1) in Hrun1. pose proof (run_epoch _ _ _ (inv_runs _ (good_inv _ _ _ Hg) _ _ Hrun1)). cbn in Heq. lia.
  - change (sequence (new_flag b4)) with (sequence b2). rewrite (w_sequence _ _ W2). cbn. lia.
  - cbn. rewrite length_app. cbn. lia.
  - intros t Ht. exact (withdrawn_live W2 t Ht).
Qed.

Lemma record_consents_good P b0 c epoch sinks found b : good P b0 b -> (forall x, x ∈ found -> is_Some (find_registration b c (ne_registration x))) ->
  wp (record_consents c epoch sinks found) (fun r b' => is_inr r /\ good P b0 b' /\ same_slots_of b b') b.
Proof.
  revert b. induction found as [|x found IH]; intros b Hg Hf; cbn [record_consents]; [apply wp_ret; split; [done|split; done]|].
  bind. apply wp_registration; [intros Hn; destruct (Hf x) as [? ?]; [left|congruence]|]. intros p record Hp Hr. cbv beta iota.
  match goal with |- wp _ _ ?x => set (b1 := x); assert (Hg1 : good P b0 b1) end.
  { after Hg. apply (step_record P _ _ c p _ record); auto. intros _ Hok. apply Hok. }
  assert (Hs : same_slots_of b b1) by (apply (same_slots_insert b c p); [done|]; apply (set_registration_slots _ _ record); done).
  eapply wp_mono; [apply IH; [done|]|].
  - intros y Hy. destruct (Hf y) as [ry Hry]; [by right|]. destruct (find_registration_some _ _ _ _ Hry) as (p' & Hp' & Hr'). assert (p' = p) as -> by congruence.
    unfold find_registration, b1. cbn. rewrite lookup_insert_eq. cbn. destruct (decide (ne_registration y = ne_registration x)) as [->|Hne]; [rewrite lookup_insert_eq; eauto|rewrite lookup_insert_ne by done; eauto].
  - intros r b' (A & B & C). split; [done|]. split; [done|]. intros c' slot. by rewrite C, Hs.
Qed.

(** What the validations establish. *)
Lemma bind_inr {A B} (r : Error + A) (f : A -> Error + B) y : (r ≫= f) = inr y -> exists x, r = inr x /\ f x = inr y.
Proof. destruct r as [e|x]; cbn; [done|eauto]. Qed.
Lemma forallb_elements `{Countable K} (f : K -> bool) (s : gset K) x : forallb f (elements s) = true -> x ∈ s -> f x = true.
Proof. intros Hf Hx. rewrite forallb_forall in Hf. apply Hf, list_elem_of_In, elem_of_elements, Hx. Qed.
Lemma all_targets_live b ts u t : all_targets b ts = inr u -> t ∈ ts -> live_target b t.
Proof. intros E%require_inr Ht. pose proof (forallb_elements _ _ t E Ht) as Hb. by apply bool_decide_eq_true in Hb. Qed.
Lemma validate_scope_live b s u t : validate_scope b s = inr u -> t ∈ scope_targets s -> live_target b t.
Proof. intros (? & _ & E)%bind_inr. by eapply all_targets_live. Qed.
Lemma validate_request_live b request u t : validate_request b request = inr u -> t ∈ scope_targets (scope request) -> live_target b t.
Proof. intros (? & _ & (? & E & _)%bind_inr)%bind_inr. by eapply validate_scope_live. Qed.
Lemma validate_metadata_live b ts u t : validate_metadata_targets b ts = inr u -> t ∈ ts -> live_target b t.
Proof. intros (? & _ & E)%bind_inr. by eapply all_targets_live. Qed.
Lemma validate_closure_closed from controls handoffs u t : validate_closure from controls handoffs = inr u -> t ∈ controls -> exists approved, handoffs !! t = Some approved /\ from ⊆ approved.
Proof.
  intros E%require_inr Ht. pose proof (forallb_elements _ _ t E Ht) as Hb. cbv beta in Hb. destruct (handoffs !! t) as [approved|]; [|done]. cbn in Hb. apply bool_decide_eq_true in Hb. eauto.
Qed.
Lemma resolve_live b c r e t : resolve_controller_enrollment b c r e = inr t ->
  live_target b t /\ exists p record enr, principals b !! c = Some p /\ controller_registrations p !! r = Some record /\ enrollment record = Some enr /\ enr_id enr = e /\ enr_target enr = t.
Proof.
  intros (enr & E1%ok_or_inr & (x & Et%ok_or_inr & [= <-])%bind_inr)%bind_inr. destruct (find_registration b c r) as [record|] eqn:Ef; [|done]. cbn in E1.
  destruct (enrollment record) as [y|] eqn:Ee; [|done]. cbn in E1. case_bool_decide as Hb; [|done]. injection E1 as ->.
  destruct (find_registration_some _ _ _ _ Ef) as (p & Hp & Hr). split; [unfold live_target; by rewrite Et|]. eauto 10.
Qed.
Lemma enrollment_source_registered c p x : x ∈ enrollment_metadata_sources c p -> is_Some (controller_registrations p !! ne_registration x).
Proof.
  unfold enrollment_metadata_sources. rewrite list_elem_of_omap. intros ([r record] & Hin%elem_of_entries & Hx). unfold enrollment_source in Hx. cbn in Hx.
  destruct (enrollment record); [|done]. cbn in Hx. destruct (metadata_grant record); [|done]. injection Hx as <-. cbn. eauto.
Qed.

(** The grant that a decision installs, and for how long. *)
Definition ordinary_decision (a : NativeApproval) (now : N) (g : GrantRef) : Prop :=
  match g with
  | RefOrdinary g => g_request g = ap_request a /\ g_handoffs g = ap_handoffs a /\ g_expires g = (now + ap_lifetime a)%N /\ lifetime_ok (ap_lifetime a) = true
  | RefMetadata _ => False
  end.
Definition metadata_decision_of (ts : gset TargetRef) (lifetime now : N) (g : GrantRef) : Prop :=
  match g with
  | RefMetadata g => m_targets g = ts /\ m_expires g = (now + lifetime)%N /\ lifetime_ok lifetime = true
  | RefOrdinary _ => False
  end.
(** The slot holds the grant of the decision. *)
Definition installed (ok : GrantRef -> Prop) (c : ConnectionId) (slot : GrantSlot) (b : Broker) : Prop := exists g, slot_of b c slot = Some g /\ ok (ref_unspent g).
Lemma installed_same ok c slot b b' : same_slots_of b b' -> installed ok c slot b -> installed ok c slot b'.
Proof. intros S (g & Hg & Hok). destruct (same_slots_some (same_slots_sym S) _ _ _ Hg) as (g' & Hg' & E). exists g'. split; [done|congruence]. Qed.

Lemma installed_principal ok c slot b : installed ok c slot b -> is_Some (principals b !! c).
Proof. intros (g & Hg & _). unfold slot_of in Hg. by destruct (principals b !! c). Qed.
Lemma installed_insert (ok : GrantRef -> Prop) c slot b p g : slot_in p slot = Some g -> ok (ref_unspent g) -> installed ok c slot (b <| principals := <[c := p]> (principals b) |>).
Proof. intros Hg Hok. exists g. split; [|done]. unfold slot_of. cbn. by rewrite lookup_insert_eq. Qed.
Lemma wp_consent_tail P b0 b c slot ok consent : good P b0 b -> installed ok c slot b ->
  wp (with_principal c Unauthorized (fun p => p <| cross_consent := consent |>);; modify (discard_stale_proposals c))
    (fun r b' => is_inr r /\ good P b0 b' /\ installed ok c slot b') b.
Proof.
  intros Hg Hi. bind. apply wp_principal; [destruct (installed_principal _ _ _ _ Hi); congruence|]. intros p Hp. cbv beta iota. apply wp_modify. split; [done|].
  match goal with |- context [discard_stale_proposals c ?x] => set (b1 := x) end. assert (W : withdraws b1 (discard_stale_proposals c b1)) by apply withdraws_pending, map_filter_subseteq. split.
  - refine (good_withdraws _ _ _ _ _ W). after Hg. apply (step_principal P _ _ c p); [done| |done]. intros _ [A0 B0 C0 D0 F0 G0]. by split.
  - apply (installed_same _ _ _ b1); [by apply same_slots_eq|]. eapply installed_same; [|exact Hi]. by apply (same_slots_insert b c p).
Qed.

Lemma approve_spec c id a now b : inv b -> wp (approve c id a now)
  (fun r b' => good (on_ok (fun _ => to_grant c Ordinary (ordinary_decision a now)) r) b b' /\ (is_inr r -> installed (ordinary_decision a now) c Ordinary b')) b.
Proof.
  intros H. unfold approve. expiry (good_refl nothing b H). do 18 walk1. destruct E16 as [-> Hinst]. eapply wp_replace; [exact Hg|exact E10|exact E15|by intros; split|].
  intros b5 p5 epoch flag Hg5 Hp5 S5 K5 R5 Q5 F5 L5. bind. apply wp_principal; [congruence|]. intros p' Hp'. assert (p' = p5) as -> by congruence. cbv beta iota.
  set (g := mkGrant _ _ _ _ _ _). match goal with |- wp _ _ ?x => set (b6 := x) end. set (P := to_grant c Ordinary (ordinary_decision a now)).
  assert (Hi : installed (ordinary_decision a now) c Ordinary b6) by (eapply installed_insert; done).
  assert (Hg6 : good P b b6).
  { after (good_nothing P _ _ Hg5). apply (step_install P _ _ c p5 _ Ordinary (RefOrdinary g)); try done.
    - intros _ [A0 B0 C0 D0 F0 G0]. split; auto. intros g' [= <-]. split; cbn; try done.
      + intros t Ht. eapply L5, validate_request_live; done.
      + intros t Ht. by eapply validate_closure_closed.
    - intros [| |r e] Hne; done. }
  bind. apply (wp_mono _ (fun r b' => is_inr r /\ good P b b' /\ installed (ordinary_decision a now) c Ordinary b')).
  { destruct (bool_decide (control (scope (ap_request a)) = ∅)); [by apply wp_ret|]. eapply wp_mono; [apply record_consents_good; [exact Hg6|]|].
    - intros y Hy. destruct (enrollment_source_registered _ _ _ Hy) as [ry Hry]. destruct (K5 _ _ Hry) as (r5 & Hr5 & _).
      rewrite (find_registration_intro b6 c (p5 <| grant := Some g |>) _ r5); [eauto|apply lookup_insert_eq|done].
    - intros r b' (A0 & B0 & C0). split; [done|]. split; [done|]. by eapply installed_same. }
  intros [e|[]] b7 (Hr & Hg7 & Hi7); [done|]. eapply wp_mono; [by apply wp_consent_tail|]. intros [e|[]] b8 (Hr8 & Hg8 & Hi8); [done|]. by split.
Qed.

Lemma approve_metadata_spec c id a now b : inv b -> wp (approve_metadata c id a now)
  (fun r b' => good (on_ok (fun _ => to_grant c Metadata (metadata_decision_of (ma_targets a) (ma_lifetime a) now)) r) b b' /\
     (is_inr r -> installed (metadata_decision_of (ma_targets a) (ma_lifetime a) now) c Metadata b')) b.
Proof.
  intros H. unfold approve_metadata. expiry (good_refl nothing b H). do 14 walk1.
  walk1. destruct E13 as [-> Hinst]. eapply wp_replace; [exact Hg|exact E7|exact E12|by intros; split|].
  intros b5 p5 epoch flag Hg5 Hp5 S5 K5 R5 Q5 F5 L5. bind. apply wp_principal; [congruence|]. intros p' Hp'. assert (p' = p5) as -> by congruence. cbv beta iota.
  set (g := mkMetadataGrant _ _ _ _ _). match goal with |- wp _ _ ?x => set (b6 := x) end. set (ok := metadata_decision_of _ _ _). set (P := to_grant c Metadata ok).
  assert (Hi : installed ok c Metadata b6) by (eapply installed_insert; done).
  assert (Hg6 : good P b b6).
  { after (good_nothing P _ _ Hg5). apply (step_install P _ _ c p5 _ Metadata (RefMetadata g)); try done.
    - intros _ [A0 B0 C0 D0 F0 G0]. split; auto. intros g' [= <-]. split; cbn; try done. intros t Ht. by eapply L5, validate_metadata_live.
    - intros [| |r e] Hne; done. }
  eapply wp_mono; [by apply wp_consent_tail|]. intros [e|[]] b8 (Hr8 & Hg8 & Hi8); [done|]. by split.
Qed.

Lemma approve_enrollment_metadata_grant_spec c a now b : inv b ->
  let slot := EnrollmentMetadata (mp_registration (mg_proposal a)) (mp_enrollment (mg_proposal a)) in
  let ok := metadata_decision_of {[mp_target (mg_proposal a)]} (mg_lifetime a) now in
  wp (approve_enrollment_metadata_grant c a now) (fun r b' => good (on_ok (fun _ => to_grant c slot ok) r) b b' /\ (is_inr r -> installed ok c slot b')) b.
Proof.
  intros H slot ok. unfold approve_enrollment_metadata_grant. expiry (good_refl nothing b H). do 18 walk1. rewrite bool_decide_eq_true in E7. destruct E16 as [-> Hinst].
  destruct (resolve_live _ _ _ _ _ E6) as (Hlive & p0 & record0 & enr & Hp0 & Hr0 & He & Hid & Ht). assert (p0 = x2) as -> by congruence.
  eapply wp_replace; [exact Hg|exact E8|exact E15|by intros; split|].
  intros b5 p5 epoch flag Hg5 Hp5 S5 K5 R5 Q5 F5 L5. destruct (K5 _ _ Hr0) as (record5 & Hr5 & He5). bind.
  apply wp_registration; [rewrite (find_registration_intro _ _ _ _ _ Hp5 Hr5); done|]. intros p' record' Hp' Hr'.
  assert (p' = p5) as -> by congruence. assert (record' = record5) as -> by congruence. cbv beta iota. apply wp_modify.
  set (g := mkMetadataGrant _ _ _ _ _). match goal with |- context [discard_stale_proposals c ?x] => set (b6 := x) end.
  assert (W6 : withdraws b6 (discard_stale_proposals c b6)) by apply withdraws_pending, map_filter_subseteq. set (P := to_grant c slot ok).
  assert (He' : enr_id <$> enrollment record5 = Some (mp_enrollment (mg_proposal a))) by (rewrite He5, He; cbn; congruence). pose proof (bool_decide_eq_true_2 _ He') as Hb.
  split.
  - refine (good_withdraws _ _ _ _ _ W6). after (good_nothing P _ _ Hg5). apply (step_install P _ _ c p5 _ slot (RefMetadata g)); try done.
    + intros _. apply (set_registration_ok _ _ _ record5); [done|]. intros [A0 B0]. split; [|exact B0]. cbn. intros g' [= <-]. split.
      * split; cbn; try done. intros t ->%elem_of_singleton. apply L5. by rewrite <- E7.
      * exists enr. cbn. split; congruence.
    + unfold slot. cbn. rewrite lookup_insert_eq. cbn. unfold record_slot. cbn. by rewrite Hb.
    + intros [| |r e] Hne; cbn; try done. destruct (decide (r = mp_registration (mg_proposal a))) as [->|Hr]; [|by rewrite lookup_insert_ne].
      rewrite lookup_insert_eq, Hr5. cbn. unfold record_slot. cbn. destruct (bool_decide_reflect (enr_id <$> enrollment record5 = Some e)) as [Hc|]; [|done]. exfalso. apply Hne. unfold slot. f_equal. congruence.
  - intros _. apply (installed_same _ _ _ b6); [by apply same_slots_eq|]. apply (installed_insert _ _ _ _ _ (RefMetadata g)); [|done].
    unfold slot. cbn. rewrite lookup_insert_eq. cbn. unfold record_slot. cbn. by rewrite Hb.
Qed.

Lemma revoke_enrollment_metadata_grant_spec c r e b : inv b -> wp (revoke_enrollment_metadata_grant c r e)
  (fun x b' => good nothing b b' /\ (is_inr x -> slot_of b' c (EnrollmentMetadata r e) = None)) b.
Proof.
  intros H. pose proof (good_refl nothing b H) as Hg. unfold revoke_enrollment_metadata_grant. do 2 walk1.
  destruct (revoke_slot_spec c (EnrollmentMetadata r e) b) as (b' & Eb & W & S); [by apply inv_parents|]. eapply wp_update; [exact Eb|]. split; [eauto using good_withdraws|done].
Qed.

(** ** Reviews *)
(** A change of a registration's reviews. *)
Lemma review_good P b0 b c r e f : good P b0 b -> (forall x, enrollment (f x) = enrollment x /\ metadata_grant (f x) = metadata_grant x /\ presentation_grant (f x) = presentation_grant x) ->
  wp (with_registration c r e f) (fun _ b' => good P b0 b') b.
Proof.
  intros Hg Hf. apply wp_registration; [done|]. intros p record Hp Hr. destruct (Hf record) as (A & B & C). after Hg. apply (step_record P _ _ c p r record); auto.
  intros _ Hok. rewrite C. apply Hok.
Qed.
Lemma prepare_enrollment_metadata_review_ok c r e now : harmless (prepare_enrollment_metadata_review c r e now).
Proof.
  intros b H. unfold prepare_enrollment_metadata_review. expiry (good_refl nothing b H). do 5 walk1. bind. apply wp_mint; [finish|]. intros Hle. bind.
  eapply wp_mono; [apply review_good; [by apply good_mint|done]|]. intros [?|[]] b' Hg'; [finish|]. walk1. finish.
Qed.
Lemma cancel_enrollment_metadata_review_ok c review : harmless (cancel_enrollment_metadata_review c review).
Proof.
  intros b H. pose proof (good_refl nothing b H) as Hg. unfold cancel_enrollment_metadata_review. do 4 walk1. eapply wp_mono; [by apply review_good|]. intros [] ? ?; finish.
Qed.
Lemma approve_enrollment_metadata_review_ok c a now : harmless (approve_enrollment_metadata_review c a now).
Proof.
  intros b H. unfold approve_enrollment_metadata_review. expiry (good_refl nothing b H). do 14 walk1. bind. apply wp_mint_id; [finish|]. intros Hle. bind.
  eapply wp_mono; [apply review_good; [by apply good_mint|done]|]. intros [?|[]] b' Hg'; [finish|]. walk1. finish.
Qed.
Lemma revoke_enrollment_metadata_decision_ok c r : harmless (revoke_enrollment_metadata_decision c r).
Proof. intros b H. unfold revoke_enrollment_metadata_decision. eapply wp_mono; [apply (review_good nothing b b); [by apply good_refl|done]|]. intros [] ? ?; finish. Qed.
End Clocked.
