(* ===== verification/BrokerRunCalls.v ===== *)
(** * The calls of the broker: runs

    What a live run is, and that every method about runs, leases, requests and
    their commits returns, keeps the invariant and does no more than its
    permit. *)

From Stdlib Require Import NArith Bool.
From stdpp Require Import gmap sorting.
From S2P Require Import Prelude BrokerTypes Broker Presentation BrokerRuns EnrollmentMetadata BrokerInv BrokerSafe BrokerSteps BrokerCalls.

(** ** Computations that read *)
Lemma R_inr {A B} (r : R A) (f : A -> R B) y : (r ≫= f) = Some (inr y) -> exists x, r = Some (inr x) /\ f x = Some (inr y).
Proof. destruct r as [[e|x]|]; cbn; try done. eauto. Qed.
Lemma R_total {A B} (r : R A) (f : A -> R B) : (exists x, r = Some x) -> (forall a, r = Some (inr a) -> exists y, f a = Some y) -> exists y, (r ≫= f) = Some y.
Proof. intros [[e|a] ->] Hf; cbn; eauto. Qed.
Lemma R_pure {A B} (x : Error + A) (f : A -> R B) : (forall a, x = inr a -> exists y, f a = Some y) -> exists y, ((Some x : R A) ≫= f) = Some y.
Proof. intros Hf. apply R_total; [eauto|]. intros a [= ->]. eauto. Qed.
Lemma R_inr_pure {A B} (x : Error + A) (f : A -> R B) y : ((Some x : R A) ≫= f) = Some (inr y) -> exists a, x = inr a /\ f a = Some (inr y).
Proof. intros (a & [= ->] & H)%R_inr. eauto. Qed.

(** ** Live runs *)
Lemma slot_grant_some b c slot now g : slot_grant b c slot now = inr g -> slot_of b c slot = Some g /\ (now < ref_expires g)%N.
Proof.
  unfold slot_grant. intros (p & Hp%ok_or_inr & (x & Hx & (u & Hl%require_inr & [= <-])%bind_inr)%bind_inr)%bind_inr. unfold live_until in Hl. apply N.ltb_lt in Hl. split; [|done].
  unfold slot_of. rewrite Hp. cbn. destruct slot as [| |r e]; cbn in *.
  - destruct (grant p); [|done]. cbn in *. congruence.
  - destruct (metadata p); [|done]. cbn in *. congruence.
  - apply bind_inr in Hx as (t & Ht & (y & Hy%ok_or_inr & (v & _ & [= <-])%bind_inr)%bind_inr). destruct (resolve_live _ _ _ _ _ Ht) as (_ & p' & record & enr & Hp' & Hr & He & Hid & _).
    assert (p' = p) as -> by congruence. rewrite Hr in *. cbn in *. unfold record_slot. rewrite He. cbn. rewrite bool_decide_eq_true_2 by congruence. by rewrite Hy.
Qed.

Record live_run (b : Broker) (c : ConnectionId) (id : RunId) (now : N) (run : Run) : Prop := {
  live_found : runs b !! id = Some run;
  live_connection : r_connection run = c;
  live_state : run_state (status_of run) = Running;
  live_deadline : (now < deadline (r_spec run))%N;
  live_closure : exists g, slot_of b c (r_slot run) = Some g /\ ref_epoch g = r_grant_epoch run /\ (now < ref_expires g)%N /\
    validate_ref_closure g (frozen_sources run) (frozen_controls run) = inr tt
}.

Lemma check_run_fuel_total b c now : parents_ok b -> forall fuel id, up_to b (ref_sequence id) < fuel -> exists x, check_run_fuel fuel b c id now = Some x.
Proof.
  intros Hp. induction fuel as [|fuel IH]; intros id Hf; [lia|]. cbn [check_run_fuel].
  apply R_pure. intros run Hr%ok_or_inr. repeat (apply R_pure; intros ? ?). apply R_total; [|intros; repeat (apply R_pure; intros ? ?); by eexists].
  destruct (r_parent run) as [parent|] eqn:Ep; [|by eexists]. apply IH. destruct (Hp _ _ _ Hr Ep) as [Hlt _]. pose proof (up_to_lt b id run _ Hr Hlt). lia.
Qed.
Lemma check_run_total b c id now : parents_ok b -> exists x, check_run b c id now = Some x.
Proof. intros Hp. apply check_run_fuel_total; [done|]. pose proof (up_to_size b (ref_sequence id)). lia. Qed.
Lemma check_run_live b c id now run : check_run b c id now = Some (inr run) -> live_run b c id now run.
Proof.
  unfold check_run. cbn [check_run_fuel]. intros (r & Hr%ok_or_inr & H)%R_inr_pure. apply R_inr_pure in H as (? & Hc%require_inr & H). apply R_inr_pure in H as (g & Hg%slot_grant_some & H).
  apply R_inr_pure in H as (? & He%require_inr & H). apply R_inr_pure in H as (? & Hd%require_inr & H). apply R_inr_pure in H as (? & Hs%require_inr & H). apply R_inr_pure in H as (? & _ & H).
  apply R_inr in H as (? & _ & H). apply R_inr_pure in H as (? & _ & H). apply R_inr_pure in H as ([] & Hv & H). injection H as <-. destruct Hg as [Hg Hx].
  apply bool_decide_eq_true in Hc, Hs. apply N.eqb_eq in He. unfold live_until in Hd. apply N.ltb_lt in Hd. split; eauto 10.
Qed.

(** ** Budgets *)
Lemma fits_spend ops bytes u limit : fits ops bytes u limit = true ->
  spend ops bytes u = Some (mkUsage (used_operations u + ops) (used_bytes u + bytes)) /\ usage_ok (mkUsage (used_operations u + ops) (used_bytes u + bytes)) limit.
Proof.
  unfold fits, spend. rewrite andb_true_iff. destruct (checked_add u32_max (used_operations u) ops) as [o|] eqn:Eo; [|by intros []].
  destruct (checked_add u32_max (used_bytes u) bytes) as [n|] eqn:En; [|by intros []]. apply checked_add_some in Eo as [-> _], En as [-> _]. cbn. rewrite !N.leb_le. auto.
Qed.

(** What charging leaves as it was. *)
Record charged (b b' : Broker) : Prop := {
  c_requests : requests b' = requests b;
  c_targets : targets b' = targets b;
  c_starts : starts b' = starts b;
  c_sequence : sequence b' = sequence b;
  c_instance : instance b' = instance b;
  c_flags : flags b' = flags b;
  c_slots : same_slots_of b b';
  c_principals : forall c, is_Some (principals b !! c) -> is_Some (principals b' !! c);
  c_runs : forall id, option_Forall2 (fun run run' => exists u, run' = run <| r_usage := u |>) (runs b !! id) (runs b' !! id)
}.
Lemma usage_refl run : exists u, run = run <| r_usage := u |>.
Proof. exists (r_usage run). by destruct run. Qed.
Lemma charged_refl b : charged b b.
Proof. split; auto; [by intros ? ?|]. intros id. apply option_Forall2_refl; intros ?; apply usage_refl. Qed.
Lemma charged_trans b b' b'' : charged b b' -> charged b' b'' -> charged b b''.
Proof.
  intros A B. destruct A as [A1 A2 A3 A4 A5 A6 A7 A8 A9], B as [B1 B2 B3 B4 B5 B6 B7 B8 B9]. split; try (etrans; eassumption); auto.
  - intros c slot. by rewrite B7, A7.
  - intros id. eapply option_Forall2_trans; [|apply A9|apply B9]. intros x y z [u ->] [v ->]. by exists v.
Qed.
Lemma charged_insert b c p p' : principals b !! c = Some p -> same_slots p p' -> charged b (b <| principals := <[c := p']> (principals b) |>).
Proof.
  intros Hp S. split; try done; [by apply (same_slots_insert b c p)| |intros id; apply option_Forall2_refl; intros ?; apply usage_refl].
  intros c'. cbn. destruct (decide (c' = c)) as [->|Hne]; [rewrite lookup_insert_eq; eauto|by rewrite lookup_insert_ne].
Qed.
Lemma charged_run b id run u : runs b !! id = Some run -> charged b (b <| runs := <[id := run <| r_usage := u |>]> (runs b) |>).
Proof.
  intros Hr. split; try done. intros id'. cbn. destruct (decide (id' = id)) as [->|Hne]; [rewrite lookup_insert_eq, Hr; constructor; eauto|].
  rewrite lookup_insert_ne by done. apply option_Forall2_refl; intros ?; apply usage_refl.
Qed.
Lemma charged_slack b b' k : charged b b' -> global b' = global b -> slack b k -> slack b' k.
Proof.
  intros C E [S0 Sr]. unfold slack, open_requests in *. rewrite (c_requests _ _ C), E. split; [done|]. intros id run' Hr. pose proof (c_runs _ _ C id) as Hf. rewrite Hr in Hf.
  inversion Hf as [run ? [u ->] Hrun|]; subst. cbn. by apply (Sr id).
Qed.

Lemma charge_check_total b c slot ids ops bytes now : parents_ok b -> exists x, charge_check b c slot ids ops bytes now = Some x.
Proof.
  intros Hp. induction ids as [|id ids IH]; cbn [charge_check]; [by eexists|]. apply R_total; [by apply check_run_total|]. intros. repeat (apply R_pure; intros ? ?). done.
Qed.
Lemma charge_check_fits b c slot ids ops bytes now u : charge_check b c slot ids ops bytes now = Some (inr u) ->
  forall id, id ∈ ids -> exists run, runs b !! id = Some run /\ fits ops bytes (r_usage run) (budget (r_spec run)) = true.
Proof.
  induction ids as [|i ids IH]; cbn [charge_check]; [by intros _ ? ?%elem_of_nil|]. intros (run & Hr%check_run_live & H)%R_inr. apply R_inr_pure in H as (? & _ & H).
  apply R_inr_pure in H as (? & Hf%require_inr & H). intros id [->|Hin]%elem_of_cons; [|auto]. exists run. split; [apply Hr|done].
Qed.

Lemma spend_runs_good P b0 ops bytes ids b : good P b0 b -> NoDup ids ->
  (forall id, id ∈ ids -> exists run, runs b !! id = Some run /\ fits ops bytes (r_usage run) (budget (r_spec run)) = true) ->
  wp (spend_runs ops bytes ids) (fun r b' => is_inr r /\ good P b0 b' /\ charged b b' /\ global b' = global b) b.
Proof.
  revert b. induction ids as [|id ids IH]; intros b Hg Hn Hf; cbn [spend_runs]; [apply wp_ret; split; [done|auto using charged_refl]|].
  inversion_clear Hn as [|? ? Hni Hn']. destruct (Hf id) as (run & Hr & Hfit); [by left|]. destruct (fits_spend _ _ _ _ Hfit) as [Es Hu].
  apply wp_bind, wp_get, wp_bind, wp_lift. rewrite Hr. cbn [ok_or]. bind. eapply wp_update; [rewrite Es; reflexivity|]. cbv beta iota.
  match goal with |- wp _ _ ?x => set (b1 := x); assert (Hg1 : good P b0 b1) end.
  { after Hg. apply (step_run_data P _ _ id run); [done| |done]. split; cbn; auto. by repeat split. }
  assert (C1 : charged b b1) by by apply charged_run. eapply wp_mono; [apply IH; [done|exact Hn'|]|].
  - intros i Hi. destruct (Hf i) as (x & Hx & Hfx); [by right|]. exists x. split; [|done]. unfold b1. cbn. rewrite lookup_insert_ne; [done|]. by intros ->.
  - intros r b' (A & B & C & D). eauto using charged_trans.
Qed.

Lemma spend_grant_spec b slot p g ops bytes : slot_in p slot = Some g -> fits ops bytes (ref_usage g) Budget_default = true -> principal_ok b p ->
  exists p', spend_grant ops bytes slot p = Some (inr p') /\ same_slots p p' /\ principal_ok b p'.
Proof.
  intros Hg [Es Hu]%fits_spend Hok. destruct slot as [| |r e]; cbn in *.
  - destruct (grant p) as [x|] eqn:Ex; [|done]. injection Hg as <-. cbn in *. rewrite Es. eexists. split; [done|]. split; [intros [| |]; cbn; by rewrite ?Ex|].
    destruct Hok as [A B C D F G]. split; auto. cbn. intros y [= <-]. destruct (D _ Ex). by split.
  - destruct (metadata p) as [x|] eqn:Ex; [|done]. injection Hg as <-. cbn in *. rewrite Es. eexists. split; [done|]. split; [intros [| |]; cbn; by rewrite ?Ex|].
    destruct Hok as [A B C D F G]. split; auto. cbn. intros y [= <-]. destruct (F _ Ex). by split.
  - destruct (controller_registrations p !! r) as [record|] eqn:Er; [|done]. cbn in *. unfold record_slot in Hg.
    destruct (bool_decide (enr_id <$> enrollment record = Some e)) eqn:Eb; [|done]. destruct (metadata_grant record) as [x|] eqn:Ex; [|done]. injection Hg as <-. cbn in *. rewrite Es.
    eexists. split; [done|]. split.
    + apply (set_registration_slots _ _ record); [done|]. intros e'. unfold record_slot. cbn. rewrite Ex. by destruct (bool_decide (enr_id <$> enrollment record = Some e')).
    + apply (set_registration_ok _ _ _ record); [done| |done]. intros [A B]. split; [|exact B]. cbn. intros y [= <-]. destruct (A _ Ex) as [[] W]. split; [by split|done].
Qed.

Lemma charge_good P b0 b c slot ids ops bytes now : good P b0 b -> NoDup ids ->
  wp (charge c slot ids ops bytes now) (fun r b' => good P b0 b' /\
    (is_inr r -> charged b b' /\ slack b' ops /\ used_bytes (global b') = (used_bytes (global b) + bytes)%N)) b.
Proof.
  intros Hg Hn. unfold charge. do 5 walk1. rewrite andb_true_iff in E0. destruct E0 as [[E1s E1u]%fits_spend [E2s E2u]%fits_spend]. apply slot_grant_some in E1 as [Hslot _].
  bind. destruct (charge_check_total b c slot ids ops bytes now (good_parents _ _ _ Hg)) as (y & Ey). eapply wp_ask; [exact Ey|]. destruct y as [e|u]; [finish|]. cbv beta iota.
  pose proof (charge_check_fits _ _ _ _ _ _ _ _ Ey) as Hf. bind. eapply wp_update; [rewrite E1s; reflexivity|]. cbv beta iota.
  match goal with |- wp _ _ ?z => set (b1 := z); assert (Hg1 : good P b0 b1) by (after Hg; apply step_global; [cbn; lia|cbn; lia|done]) end.
  assert (S1 : slack b1 ops). { destruct (inv_slack _ (good_inv _ _ _ Hg)) as [A B]. split; [change (len (open_requests b) + ops <= used_operations (global b) + ops)%N; lia|].
    intros id run Hr. specialize (B _ _ Hr). change (admitted_effects (status_of run) + len (open_requests b) + ops <= used_operations (global b) + ops)%N. lia. }
  apply wp_bind, wp_get, wp_bind, wp_lift. change (principals b1) with (principals b). rewrite E. cbn [ok_or]. bind. eapply wp_update; [rewrite E2s; reflexivity|]. cbv beta iota.
  set (p2 := x <| p_usage := _ |>). match goal with |- wp _ _ ?z => set (b2 := z) end.
  assert (Hg2 : good P b0 b2) by (after Hg1; apply (step_principal P _ _ c x); [done| |done]; intros _ [A B C D F G]; by split).
  assert (C2 : charged b1 b2) by by apply (charged_insert b1 c x).
  apply wp_bind, wp_get, wp_bind, wp_lift. assert (Hp2 : principals b2 !! c = Some p2) by apply lookup_insert_eq. rewrite Hp2. cbn [ok_or].
  destruct (spend_grant_spec b2 slot p2 x0 ops bytes) as (p3 & Ep3 & S3 & Hok3); [|done|apply (inv_principals _ (good_inv _ _ _ Hg2) _ _ Hp2)|].
  { unfold slot_of in Hslot. rewrite E in Hslot. by destruct slot. }
  bind. eapply wp_ask; [exact Ep3|]. cbv beta iota. apply wp_bind, wp_modify. match goal with |- wp _ _ ?z => set (b3 := z) end.
  assert (Hg3 : good P b0 b3) by (after Hg2; apply (step_principal P _ _ c p2); done). assert (C3 : charged b2 b3) by by apply (charged_insert b2 c p2).
  eapply wp_mono; [apply spend_runs_good; [exact Hg3|done|exact Hf]|]. intros r b4 (Hr & Hg4 & C4 & Eg). split; [done|]. intros _.
  assert (C : charged b1 b4) by eauto using charged_trans. split; [destruct C; split; try done|]. split; [by apply (charged_slack b1)|]. by rewrite Eg.
Qed.

Lemma slot_epoch b c slot g : inv b -> slot_of b c slot = Some g -> (ref_epoch g <= sequence b)%N.
Proof.
  intros H. unfold slot_of. destruct (principals b !! c) as [p|] eqn:E; [|done]. cbn. destruct (inv_principals _ H _ _ E) as [_ Hp].
  destruct slot as [| |r e]; cbn.
  - destruct (grant p) as [x|] eqn:Eg; [|done]. intros [= <-]. apply (grant_epoch_ok b), Hp, Eg.
  - destruct (metadata p) as [x|] eqn:Eg; [|done]. intros [= <-]. apply (metadata_epoch_ok b), (principal_metadata _ _ Hp), Eg.
  - destruct (controller_registrations p !! r) as [record|] eqn:Er; [|done]. cbn. unfold record_slot. destruct (bool_decide _); [|done].
    destruct (metadata_grant record) as [x|] eqn:Eg; [|done]. intros [= <-]. apply (metadata_epoch_ok b). by apply (record_metadata _ _ (proj2 (principal_records _ _ Hp _ _ Er))).
Qed.
Lemma fresh_run b : inv b -> runs b !! mkRef (instance b) (sequence b + 1) = None.
Proof. intros H. destruct (runs b !! _) as [p|] eqn:E; [|done]. destruct (run_ref _ _ _ (inv_runs _ H _ _ E)) as [_ Hr]. cbn in Hr. lia. Qed.
Lemma fresh_request b : inv b -> requests b !! mkRef (instance b) (sequence b + 1) = None.
Proof. intros H. destruct (requests b !! _) as [p|] eqn:E; [|done]. destruct (inv_requests _ H _ _ E) as [_ Hr]. cbn in Hr. lia. Qed.
Lemma charged_none b b' id : charged b b' -> runs b !! id = None -> runs b' !! id = None.
Proof. intros C E. pose proof (c_runs _ _ C id) as Hf. rewrite E in Hf. by inversion Hf. Qed.
Lemma charged_some b b' id run : charged b b' -> runs b !! id = Some run -> exists u, runs b' !! id = Some (run <| r_usage := u |>).
Proof. intros C E. pose proof (c_runs _ _ C id) as Hf. rewrite E in Hf. inversion Hf as [? ? [u ->]|]; subst. eauto. Qed.

(** ** Admission *)
Section Clocked.
Context `{Ck : Clock}.

Lemma inherit_total b c slot parent spec now : parents_ok b -> exists x, inherit b c slot parent spec now = Some x.
Proof.
  intros Hp. unfold inherit. destruct parent as [parent|]; [|by eexists]. apply R_total; [by apply check_run_total|]. intros. apply R_pure. intros.
  destruct (lineage_spec b parent Hp) as (ids & -> & _). apply R_pure. intros. by eexists.
Qed.
Lemma inherit_facts b c slot parent spec now fs fc ids : parents_ok b -> inherit b c slot parent spec now = Some (inr (fs, fc, ids)) ->
  NoDup ids /\ forall id, parent = Some id -> exists above, runs b !! id = Some above /\ r_connection above = c.
Proof.
  intros Hp. unfold inherit. destruct parent as [parent|]; [|intros [= <- <- <-]; split; [constructor|done]].
  intros (run & Hr%check_run_live & H)%R_inr. apply R_inr_pure in H as (? & _ & H). destruct (lineage_spec b parent Hp) as (l & El & Hn & _). rewrite El in H.
  apply R_inr_pure in H as (? & _ & H). injection H as <- <- <-. split; [done|]. intros id [= <-]. exists run. split; apply Hr.
Qed.

(** What an admission leaves to be found. *)
Record admitted (c : ConnectionId) (b b' : Broker) : Prop := {
  ad_starts : starts b' = starts b;
  ad_principal : is_Some (principals b' !! c);
  ad_runs : forall id, is_Some (runs b !! id) -> is_Some (runs b' !! id)
}.
Lemma admit_in_slot_good P b0 b c slot parent spec now : good P b0 b -> wp (admit_in_slot c slot parent spec now)
  (fun r b' => good P b0 b' /\ match r with inr id => admitted c b b' /\ is_Some (runs b' !! id) | inl _ => True end) b.
Proof.
  intros Hg. unfold admit_in_slot. expiry Hg. do 10 walk1. apply slot_grant_some in E2 as [Hslot Hexp].
  bind. destruct (inherit_total b1 c slot parent spec now (good_parents _ _ _ Hg0)) as (y & Ey). eapply wp_ask; [exact Ey|]. destruct y as [e|[[fs fc] ids]]; [finish|]. cbv beta iota.
  destruct (inherit_facts _ _ _ _ _ _ _ _ _ (good_parents _ _ _ Hg0) Ey) as [Hn Hpar]. walk1. pose proof (good_inv _ _ _ Hg0) as Hi.
  bind. apply wp_mint_id; [finish|]. intros Hle. pose proof (good_mint _ _ _ Hg0 Hle) as Hg2. set (id := mkRef _ _). set (b2 := b1 <| sequence := _ |>) in *.
  bind. eapply wp_mono; [by apply charge_good|]. intros [e|[]] b3 [Hg3 Hch]; [finish|]. destruct (Hch I) as [C3 _]. clear Hch. cbv beta iota.
  bind. apply wp_alloc. cbv beta iota. bind. apply wp_alloc. cbv beta iota. apply wp_bind, wp_modify, wp_ret.
  set (b4 := new_flag (new_flag b3)). assert (Hg4 : good P b0 b4) by (after (good_step _ _ _ _ Hg3 (step_flag _ _ _)); apply step_flag).
  assert (Hnone : runs b4 !! id = None) by (apply (charged_none b2 b3); [done|exact (fresh_run b1 Hi)]).
  pose proof (e_sequence _ _ _ _ (good_evolve _ _ _ Hg0)) as Hseq. rewrite !andb_true_iff, !N.ltb_lt, !N.leb_le in E6. destruct E6 as [[[[_ Hdl] Hb1] Hb2] Hb3].
  split; [|split].
  - after Hg4. apply step_run_insert; cbn [r_spec r_usage r_parent r_connection r_slot r_grant_epoch status_of admitted_effects frozen_controls r_delivery descendant_delivery]; try done.
    + cbn. lia.
    + split; [cbn; by rewrite (c_instance _ _ C3)|]. cbn. rewrite (c_sequence _ _ C3). cbn. lia.
    + split; cbn; lia.
    + intros parent' Hp'. destruct (Hpar _ Hp') as (above & Ha & Hc). split.
      * destruct (run_ref _ _ _ (inv_runs _ Hi _ _ Ha)) as [_ Hle']. cbn. lia.
      * destruct (charged_some b2 b3 parent' above C3 Ha) as (u & Hu). eexists. split; [exact Hu|done].
    + pose proof (slot_epoch _ _ _ _ Hi Hslot). cbn. rewrite (c_sequence _ _ C3). cbn. lia.
    + intros g' Hg' _. change (slot_of b3 c slot = Some g') in Hg'. destruct (same_slots_some (c_slots _ _ C3) _ _ _ Hg') as (g0 & Hg0' & Eu).
      change (slot_of b1 c slot = Some g0) in Hg0'. rewrite (ref_unspent_allows _ _ _ _ Eu), (ref_unspent_expires _ _ Eu). by assert (g0 = x) as -> by congruence.
    + set_solver.
    + cbn. rewrite !length_app. cbn. lia.
  - split.
    + change (starts b3 = starts b). rewrite (c_starts _ _ C3). cbn. apply (w_starts _ _ W).
    + apply (c_principals _ _ C3). unfold slot_of in Hslot. cbn. by destruct (principals b1 !! c).
    + intros i [y Hy]. destruct (kept_run W _ _ Hy) as (x1 & Hx1 & _). destruct (charged_some b2 b3 i x1 C3 Hx1) as (u & Hu). cbn.
      destruct (decide (i = id)) as [->|Hne]; [rewrite lookup_insert_eq; eauto|rewrite lookup_insert_ne by done; eauto].
  - cbn. rewrite lookup_insert_eq. eauto.
Qed.

Ltac checked_run Hg :=
  lazymatch goal with
  | |- wp (mbind _ (ask (check_run ?b ?c ?id ?now))) _ _ =>
      let y := fresh "y" in let Ey := fresh "Ey" in let run := fresh "run" in
      apply wp_bind; destruct (check_run_total b c id now (good_parents _ _ _ Hg)) as (y & Ey); eapply wp_ask; [exact Ey|]; destruct y as [?|run]; cbv beta iota; [solve [finish]|apply check_run_live in Ey]
  end.
Lemma wp_lineage P b0 b id (Q : Error + list RunId -> Broker -> Prop) : good P b0 b ->
  (forall ids, lineage b id = Some ids -> NoDup ids -> (forall x, x ∈ ids -> is_Some (runs b !! x)) -> Q (inr ids) b) -> wp (lineage_of id) Q b.
Proof.
  intros Hg HQ. destruct (lineage_spec b id (good_parents _ _ _ Hg)) as (ids & E & Hn & Hi). exists (inr ids), b. unfold lineage_of. rewrite E. split; [done|].
  apply HQ; [done|done|]. intros x Hx. by apply Hi.
Qed.
Lemma run_data_keeps run run' : same_run run run' -> r_spec run' = r_spec run -> frozen_controls run ⊆ frozen_controls run' -> r_usage run' = r_usage run -> run_keeps run run'.
Proof. intros A B C D. split; auto. by rewrite D. Qed.

Lemma admit_run_ok c parent spec now : harmless (admit_run c parent spec now).
Proof. intros b H. unfold admit_run. eapply wp_mono; [apply (admit_in_slot_good nothing b); by apply good_refl|]. intros [] ? [? _]; finish. Qed.
Lemma admit_metadata_run_ok c spec now : harmless (admit_metadata_run c spec now).
Proof. intros b H. unfold admit_metadata_run. eapply wp_mono; [apply (admit_in_slot_good nothing b); by apply good_refl|]. intros [] ? [? _]; finish. Qed.
Lemma admit_enrollment_metadata_run_ok c r e spec now : harmless (admit_enrollment_metadata_run c r e spec now).
Proof.
  intros b H. pose proof (good_refl nothing b H) as Hg. unfold admit_enrollment_metadata_run. do 3 walk1. eapply wp_mono; [by apply (admit_in_slot_good nothing b)|]. intros [] ? [? _]; finish.
Qed.

(** ** Workflows *)
Definition receipt_at (c : ConnectionId) (key : StartKey) (spec : RunSpec) (id : RunId) (b : Broker) : Prop :=
  exists x, starts b !! (c, key) = Some x /\ sr_spec x = spec /\ sr_run x = id.
Lemma start_workflow_spec c context key spec now b : inv b -> wp (start_workflow c context key spec now)
  (fun r b' => good (on_ok (to_start (c, key) spec) r) b b' /\
    match r with inr id => receipt_at c key spec id b' /\ (forall x, starts b !! (c, key) = Some x -> sr_spec x = spec /\ sr_run x = id) | inl _ => True end) b.
Proof.
  intros H. unfold start_workflow. expiry (good_refl nothing b H). walk1. checked_run Hg. do 2 walk1. rewrite <- (w_starts _ _ W). destruct (starts b0 !! (c, key)) as [receipt|] eqn:Es.
  - do 2 walk1. apply bool_decide_eq_true in E3. bind. eapply wp_lineage; [exact Hg|]. intros ids _ Hn Hi. cbv beta iota. bind. eapply wp_mono; [by apply charge_good|]. intros [e|[]] b1 [Hg1 Hch]; [finish|].
    destruct (Hch I) as [C1 _]. cbv beta iota. bind. apply wp_run; [finish|]. intros run' Hr'. cbv beta iota. apply wp_ret.
    match goal with |- context [good _ b ?z] => set (b2 := z); assert (Hg2 : good nothing b b2) end.
    { after Hg1. apply (step_run_data nothing _ _ context run'); [done| |done]. by apply run_data_keeps. }
    split; [finish|]. split; [|by intros x [= <-]]. exists receipt. unfold b2. cbn. by rewrite (c_starts _ _ C1).
  - walk1. bind. eapply wp_lineage; [exact Hg|]. intros ids _ Hn Hi. cbv beta iota. bind. eapply wp_mono; [by apply charge_good|]. intros [e|[]] b1 [Hg1 Hch]; [finish|].
    destruct (Hch I) as [C1 _]. cbv beta iota. unfold admit_run. bind. eapply wp_mono; [by apply (admit_in_slot_good nothing b)|]. intros [e|id] b2 [Hg2 Had]; [finish|]. destruct Had as [[As Ap Ar] [x Hx]]. cbv beta iota.
    bind. apply wp_run; [congruence|]. intros x' Hx'. cbv beta iota. match goal with |- wp _ _ ?z => set (b3 := z); assert (Hg3 : good nothing b b3) end.
    { after Hg2. apply (step_run_data nothing _ _ id x'); [done| |done]. apply run_data_keeps; try done. cbn. apply union_subseteq_l. }
    bind. apply wp_run; [finish|]. intros y Hy. cbv beta iota. match goal with |- wp _ _ ?z => set (b4 := z); assert (Hg4 : good nothing b b4) end.
    { after Hg3. apply (step_run_data nothing _ _ context y); [done| |done]. by apply run_data_keeps. }
    apply wp_bind, wp_modify, wp_ret. assert (Hnone : starts b4 !! (c, key) = None) by (change (starts b2 !! (c, key) = None); by rewrite As, (c_starts _ _ C1)).
    set (P := to_start (c, key) spec id). split; [|split].
    + after (good_nothing P _ _ Hg4). by apply step_start.
    + eexists. cbn. rewrite lookup_insert_eq. done.
    + congruence.
Qed.

Lemma cancel_start_ok c key now : harmless (cancel_start c key now).
Proof. intros b H. unfold cancel_start. expiry (good_refl nothing b H). do 4 walk1. eapply wp_withdrawing; [apply cut_withdraws|exact Hg|]. finish. Qed.
Lemma status_spec c id now b : inv b -> wp (status c id now) (fun r b' => good nothing b b' /\ (is_inr r -> (used_bytes (global b) + 256 <= used_bytes (global b'))%N)) b.
Proof.
  intros H. unfold status. expiry (good_refl nothing b H). do 5 walk1. bind. eapply wp_mono; [apply charge_good; [exact Hg|constructor]|]. intros [e|[]] b1 [Hg1 Hch]; [finish|]. apply wp_ret. split; [done|]. intros _. destruct (Hch I) as (_ & _ & ->). rewrite (w_global _ _ W). lia.
Qed.
Lemma forget_run_ok c id : harmless (forget_run c id).
Proof.
  intros b H. pose proof (good_refl nothing b H) as Hg. unfold forget_run. do 4 walk1. apply wp_modify. cbn [on_ok]. after Hg. apply step_run_delete. intros i run Hr Hp.
  rewrite negb_true_iff, !orb_false_iff in E1. destruct E1 as [[_ Hc] _]. assert (Ht : existsb (fun x => bool_decide (r_parent x.2 = Some id)) (entries (runs b)) = true); [|congruence].
  apply existsb_exists. exists (i, run). split; [by apply list_elem_of_In, elem_of_entries|]. by apply bool_decide_eq_true.
Qed.

(** ** Leases *)
Lemma commit_lease_spec transition now b : inv b -> wp (commit_lease transition now)
  (fun r b' => good (on_ok to_lease r) b b' /\ match r with inr l => writer_at b' (session (lease_target l)) = Some l | inl _ => True end) b.
Proof.
  intros H. pose proof (good_refl nothing b H) as Hg. unfold commit_lease. walk1. checked_run Hg. do 3 walk1. apply ok_or_inr, find_target_some in E0 as (Et & Rt & At).
  bind. apply wp_mint; [finish|]. intros Hle. pose proof (good_mint _ _ _ Hg Hle) as Hg1. cbv beta iota. walk1. walk1. change (targets b !! session (lt_target transition) = Some x0) in E0.
  assert (x0 = x) as -> by congruence. apply wp_bind, wp_modify, wp_ret. set (l := mkLease _ _ _). split; [|unfold writer_at; cbn; by rewrite lookup_insert_eq]. cbn [on_ok].
  after (good_nothing (to_lease l) _ _ Hg1). eapply step_retarget; [exact Et| | | |done].
  - intros t [= <-]. right. by intros y [= <-].
  - intros _ t [= <-]. destruct (inv_targets _ H _ _ Et) as [A B C D]. split; cbn; try done; try lia; intros l' [= <-]; done.
  - intros t l' [= <-]. cbn. by intros [= <-].
Qed.

Lemma human_takeover_spec t b : inv b -> wp (human_takeover t)
  (fun r b' => good nothing b b' /\ (is_inr r -> writer_at b' (session t) = None /\ forall c g, slot_of b' c Ordinary = Some (RefOrdinary g) -> t ∉ control (scope (g_request g)))) b.
Proof.
  intros H. pose proof (good_refl nothing b H) as Hg. unfold human_takeover. do 2 walk1. apply wp_bind, wp_modify. set (b1 := cancel_presentation_for_target t b).
  assert (Hg1 : good nothing b b1) by (eapply good_withdraws; [exact Hg|apply withdraws_slot]). bind. apply wp_mint; [finish|]. intros Hle. pose proof (good_mint _ _ _ Hg1 Hle) as Hg2.
  set (b2 := b1 <| sequence := _ |>) in *. cbv beta iota. set (slots := grant_slots (fun g => bool_decide (t ∈ control (scope (g_request g)))) (fun _ => false) b2).
  destruct (revoke_slots_spec slots b2 (good_parents _ _ _ Hg2)) as (b3 & E3 & W3 & S3). bind. eapply wp_update; [exact E3|]. cbv beta iota.
  assert (Hg3 : good nothing b b3) by eauto using good_withdraws. do 2 walk1. apply wp_modify. split; [|intros _; split].
  - after Hg3. eapply step_retarget; [exact E0| | |by intros y l [= <-]|done].
    + intros y [= <-]. right. by intros z [= <-].
    + intros H3 y [= <-]. destruct (inv_targets _ H3 _ _ E0) as [A B C D]. split; cbn; auto; [|done]. rewrite (w_sequence _ _ W3). unfold b2. cbn. lia.
  - unfold writer_at. cbn. by rewrite lookup_insert_eq.
  - intros c g Hs Hin. change (slot_of b3 c Ordinary = Some (RefOrdinary g)) in Hs. rewrite (S3 c Ordinary) in Hs; [done|].
    eapply elem_of_grant_slots; [exact (withdrawn_slot_some W3 _ _ _ Hs)|]. by apply bool_decide_eq_true.
Qed.

(** ** Requests *)
Lemma prepare_request_spec c id o now b : inv b -> wp (prepare_request c id o now)
  (fun r b' => good (on_ok (fun q => to_request q id o) r) b b' /\
    match r with
    | inr q => (used_bytes (global b) + op_reserved_bytes o <= used_bytes (global b'))%N /\ (sequence b < ref_sequence q)%N
    | inl _ => True
    end) b.
Proof.
  intros H. unfold prepare_request. expiry (good_refl nothing b H). walk1. checked_run Hg. do 3 walk1. bind. apply wp_mint_id; [finish|]. intros Hle.
  pose proof (good_mint _ _ _ Hg Hle) as Hg1. set (q := mkRef _ _). set (b1 := b0 <| sequence := _ |>) in *. cbv beta iota. bind. eapply wp_lineage; [exact Hg1|]. intros ids _ Hn Hi. cbv beta iota.
  bind. eapply wp_mono; [by apply charge_good|]. intros [e|[]] b2 [Hg2 Hch]; [finish|]. destruct (Hch I) as (C2 & S2 & B2). cbv beta iota. apply wp_bind, wp_modify.
  set (P := to_request q id o). match goal with |- wp _ _ ?z => set (b3 := z) end. pose proof (e_sequence _ _ _ _ (good_evolve _ _ _ Hg)) as Hseq.
  assert (Hq : (sequence b < ref_sequence q)%N) by (cbn; lia).
  assert (Hg3 : good P b b3).
  { after (good_nothing P _ _ Hg2). apply step_request; try done.
    - split; [by rewrite (c_instance _ _ C2)|]. rewrite (c_sequence _ _ C2). cbn. lia.
    - rewrite (c_requests _ _ C2). exact (fresh_request b0 (good_inv _ _ _ Hg)). }
  assert (Hb : (used_bytes (global b) + op_reserved_bytes o <= used_bytes (global b3))%N) by (change (global b3) with (global b2); rewrite B2; change (global b1) with (global b0); rewrite (w_global _ _ W); lia).
  destruct (charged_some b1 b2 id run C2 (live_found _ _ _ _ _ Ey)) as (u & Hu). bind. destruct (is_direct_input _).
  - apply wp_run; [change (runs b3) with (runs b2); congruence|]. intros run' Hr'. cbv beta iota. apply wp_ret. split; [|done]. after Hg3.
    apply (step_run_data P _ _ id run'); [done| |done]. by apply run_data_keeps.
  - apply wp_ret, wp_ret. by split.
Qed.

(** A request that may be committed. *)
Record ready (b : Broker) (c : ConnectionId) (q : RequestId) (now : N) (request : Request) (run : Run) : Prop := {
  ready_found : requests b !! q = Some request;
  ready_run : live_run b c (rq_run request) now run;
  ready_operation : check_operation b (rq_run request) run (rq_operation request) now = inr tt
}.
Lemma check_request_total b c q now : parents_ok b -> exists x, check_request b c q now = Some x.
Proof. intros Hp. apply R_pure. intros request _. apply R_total; [by apply check_run_total|]. intros. apply R_pure. intros. by eexists. Qed.
Lemma check_request_ready b c q now request run : check_request b c q now = Some (inr (request, run)) -> ready b c q now request run.
Proof.
  intros (x & Hx%ok_or_inr & H)%R_inr_pure. apply R_inr in H as (y & Hy%check_run_live & H). apply R_inr_pure in H as ([] & Hc & H). injection H as -> ->. by split.
Qed.
Ltac checked_request Hg :=
  lazymatch goal with
  | |- wp (mbind _ (ask (check_request ?b ?c ?id ?now))) _ _ =>
      let y := fresh "y" in let Ey := fresh "Ey" in let run := fresh "run" in let request := fresh "request" in
      apply wp_bind; destruct (check_request_total b c id now (good_parents _ _ _ Hg)) as (y & Ey); eapply wp_ask; [exact Ey|]; destruct y as [?|[request run]]; cbv beta iota; [solve [finish]|apply check_request_ready in Ey]
  end.

Lemma commit_disclosure_spec c q encoded now b : inv b -> wp (commit_disclosure c q encoded now)
  (fun r b' => good nothing b b' /\
    (is_inr r -> (exists request run, ready b c q now request run /\ committed request = false /\ is_control_op (rq_operation request) = false /\ (encoded <= op_reserved_bytes (rq_operation request))%N) /\
      (committed <$> requests b' !! q) = Some true)) b.
Proof.
  intros H. pose proof (good_refl nothing b H) as Hg. unfold commit_disclosure. walk1. checked_request Hg. walk1. rewrite !andb_true_iff, !negb_true_iff, N.leb_le in E. destruct E as [[Hc Ho] Hle].
  unfold commit_request. apply wp_bind, wp_get, wp_bind, wp_lift. rewrite (ready_found _ _ _ _ _ _ Ey). cbn [ok_or]. apply wp_modify. split.
  - after Hg. apply step_commit; [apply Ey|done].
  - intros _. split; [eauto 10|]. cbn. by rewrite lookup_insert_eq.
Qed.

(** The effect of a control commit, counted on the run and its ancestors. *)
Lemma admit_effects_good P b0 ids b : good P b0 b -> NoDup ids ->
  (forall id, id ∈ ids -> exists run, runs b !! id = Some run /\ (admitted_effects (status_of run) + len (open_requests b) + 1 <= used_operations (global b))%N) ->
  wp (admit_effects ids) (fun r b' => is_inr r /\ good P b0 b' /\ requests b' = requests b) b.
Proof.
  revert b. induction ids as [|id ids IH]; intros b Hg Hn Hf; cbn [admit_effects]; [by apply wp_ret|].
  inversion_clear Hn as [|? ? Hni Hn']. destruct (Hf id) as (run & Hr & Hle); [by left|]. apply wp_bind, wp_get, wp_bind, wp_lift. rewrite Hr. cbn [ok_or].
  pose proof (good_inv _ _ _ Hg) as Hi. destruct (inv_global _ Hi) as [Ho _], (inv_limits _ Hi) as [Hlim _]. cbn in Ho.
  bind. eapply wp_update; [rewrite increment_some by lia; reflexivity|]. cbv beta iota. match goal with |- wp _ _ ?z => set (b1 := z); assert (Hg1 : good P b0 b1) end.
  { after Hg. apply (step_run P _ _ id run); [done|by apply run_data_keeps|done|]. intros _. cbn [status_of admitted_effects]. 
    change (admitted_effects (status_of run) + 1 + len (open_requests b) <= used_operations (global b))%N. lia. }
  eapply wp_mono; [apply (IH b1); [done|done|]|done].
  intros i Hin. destruct (Hf i) as (x & Hx & Hlx); [by right|]. exists x. split; [|done]. unfold b1. cbn. rewrite lookup_insert_ne; [done|]. by intros ->.
Qed.

Lemma revalidate_withdrawn P b0 b c requirement t o now : good P b0 b -> wp (revalidate_presentation c requirement t o now) (fun _ b' => good P b0 b' /\ requests b' ⊆ requests b) b.
Proof.
  intros Hg. unfold revalidate_presentation. expiry Hg. pose proof (w_requests _ _ W) as Hs. do 3 walk1. destruct (slot_phase x); [by apply wp_fail..|]. walk1.
  destruct (_ && _); [|apply wp_bind, wp_modify, wp_fail; split; [after Hg0; apply step_pslot|done]]. unfold set_phase. do 2 walk1. apply wp_modify. split; [after Hg0; apply step_pslot|done].
Qed.

(** A control commit that succeeds was of a request that was ready, for these
    very bytes, and not committed before. *)
Record commits (b : Broker) (c : ConnectionId) (q : RequestId) (input : Digest) (bytes : N) (presented : bool) (now : N) : Prop := {
  commits_ready : exists request run lease required, ready b c q now request run /\ committed request = false /\
    rq_operation request = Control lease input bytes required /\ bool_decide (is_Some required) = presented
}.
Lemma commit_control_inner_spec c q input bytes observation now b : inv b -> wp (commit_control_inner c q input bytes observation now)
  (fun r b' => good nothing b b' /\ (is_inr r -> commits b c q input bytes (bool_decide (is_Some observation)) now /\ (committed <$> requests b' !! q) = Some true)) b.
Proof.
  intros H. pose proof (good_refl nothing b H) as Hg. unfold commit_control_inner. walk1. checked_request Hg. walk1. apply negb_true_iff in E.
  destruct (rq_operation request) as [| |lease input' bytes' required|] eqn:Eo; [walk1..| |walk1]. do 2 walk1. rewrite andb_true_iff, bool_decide_eq_true, N.eqb_eq in E1. destruct E1 as [-> ->].
  bind. apply (wp_mono _ (fun r b' => (good nothing b b' /\ requests b' ⊆ requests b) /\ (is_inr r -> bool_decide (is_Some required) = bool_decide (is_Some observation)))).
  { destruct required as [requirement|], observation as [o|]; [|by apply wp_fail..|by apply wp_ret]. eapply wp_mono; [by apply (revalidate_withdrawn nothing b)|]. by intros. }
  intros [e|[]] b1 [[Hg1 Hsub] Hreq]; [finish|]. specialize (Hreq I). bind. unfold commit_request. apply wp_bind, wp_get, wp_bind, wp_lift.
  destruct (requests b1 !! q) as [request'|] eqn:Eq; cbn [ok_or]; [|finish]. pose proof (lookup_weaken _ _ _ _ Eq Hsub) as Eq'. rewrite (ready_found _ _ _ _ _ _ Ey) in Eq'. injection Eq' as <-.
  apply wp_modify. cbv beta iota. match goal with |- wp _ _ ?z => set (b2 := z) end. assert (Hg2 : good nothing b b2) by (after Hg1; by apply step_commit).
  bind. eapply wp_lineage; [exact Hg2|]. intros ids _ Hn Hi. cbv beta iota. destruct (commit_slack b1 q request (good_inv _ _ _ Hg1) Eq E) as [_ Sl].
  eapply wp_mono; [apply admit_effects_good; [exact Hg2|done|]|].
  - intros id Hid. destruct (Hi id Hid) as [x Hx]. exists x. split; [done|]. by apply (Sl id).
  - intros r b3 (_ & Hg3 & Er). split; [done|]. intros _. split; [split; eauto 10|]. rewrite Er. unfold b2. cbn. by rewrite lookup_insert_eq.
Qed.

Lemma settle_request_spec c q b : inv b -> wp (settle_request c q) (fun r b' => good nothing b b' /\ (is_inr r -> requests b' !! q = None)) b.
Proof.
  intros H. pose proof (good_refl nothing b H) as Hg. unfold settle_request. do 3 walk1. apply wp_modify. split; [after Hg; apply step_request_delete|]. intros _. cbn. apply lookup_delete_eq.
Qed.

(** ** Completion *)
(** The run is gone or will never act again. *)
Definition stopped_in (b : Broker) (id : RunId) : Prop := forall run, runs b !! id = Some run -> run_state (status_of run) <> Running.
Definition ended_in (b : Broker) (id : RunId) : Prop := stopped_in b id /\ (ref_sequence id <= sequence b)%N.
Lemma withdrawn_stopped b b' id : withdraws b b' -> stopped_in b id -> stopped_in b' id.
Proof. intros W Hs run' Hr. destruct (withdrawn_run W _ _ Hr) as (run & E & [_ [Hst|Hst] _]); [by destruct (Hs _ E)|]. rewrite Hst. by apply Hs. Qed.
Lemma cut_run_stops id s w b : s <> Running -> stopped_in (cut_run id s w b id) id.
Proof.
  intros Hs. unfold cut_run, stopped_in. destruct (runs b !! id) as [run|] eqn:E; [|congruence]. rewrite (bool_decide_eq_true_2 (id = id)) by done.
  destruct (bool_decide (run_state (status_of run) = Running)) eqn:Er.
  - cbn. rewrite lookup_insert_eq. by intros run' [= <-].
  - apply bool_decide_eq_false in Er. intros run'. destruct (bool_decide (s = Completed)); cbn; congruence.
Qed.
Lemma self_descendant b id ids : is_Some (runs b !! id) -> descendants b id = Some ids -> id ∈ ids.
Proof.
  intros Hsome. pose proof (proj2 (elem_of_keys _ _) Hsome) as Hid. unfold descendants. revert Hid ids. generalize (map fst (entries (runs b))) as candidates. induction candidates as [|x xs IH]; cbn [keep_descendants]; intros Hin ids; [by apply elem_of_nil in Hin|].
  destruct (lineage b x) as [l|] eqn:El; cbn [mbind option_bind]; [|done]. destruct (keep_descendants b id xs) as [rest|] eqn:Ek; cbn [mbind option_bind]; [|done]. intros [= <-].
  apply elem_of_cons in Hin as [->|Hin]; [|specialize (IH Hin _ eq_refl); destruct (bool_decide _); [by right|done]].
  destruct (bool_decide (x ∈ l)) eqn:Eb; [by left|]. apply bool_decide_eq_false in Eb. unfold lineage in El. cbn [lineage_fuel] in El. destruct (runs b !! x) as [run|] eqn:Er.
  - destruct (r_parent run); [destruct (lineage_fuel _ _ _); [|done]|]; injection El as <-; destruct Eb; left.
  - by destruct Hsome.
Qed.

Lemma cut_stops id s w b b' : parents_ok b -> s <> Running -> cut id s w b = Some b' -> withdraws b b' /\ stopped_in b' id.
Proof.
  intros Hp Hs E. assert (W : withdraws b b') by (destruct (cut_withdraws id s w b Hp) as (x & Ex & Wx); congruence). split; [done|].
  destruct (runs b !! id) as [run|] eqn:Er; [|intros run' Hr'; destruct (withdrawn_run W _ _ Hr') as (? & ? & _); congruence].
  revert E. unfold cut. destruct (descendants b id) as [ids|] eqn:Ed; [|done]. cbn. intros [= <-]. assert (Hin : id ∈ ids) by (eapply self_descendant; eauto).
  apply list_elem_of_split in Hin as (l1 & l2 & ->). rewrite foldl_app. cbn. eapply withdrawn_stopped; [|by apply cut_run_stops]. apply withdraws_foldl. intros. apply withdraws_cut_run.
Qed.

Lemma complete_good P b0 b c id completion now : good P b0 b -> wp (complete c id completion now) (fun r b' => good P b0 b' /\ requests b' ⊆ requests b /\ (is_inr r -> ended_in b' id)) b.
Proof.
  intros Hg. unfold complete. expiry Hg. pose proof (w_requests _ _ W) as Hs. walk1. checked_run Hg0. destruct (descendants_total b1 id (good_parents _ _ _ Hg0)) as (ids & Ed). rewrite Ed.
  bind. eapply wp_ask; [done|]. cbv beta iota zeta. set (why := if existsb _ _ then _ else _). set (state := if _ || _ then Failed else Completed).
  assert (Hst : state <> Running) by (unfold state; by destruct (_ || _)). destruct (cut_withdraws id state why b1 (good_parents _ _ _ Hg0)) as (b2 & E2 & _).
  destruct (cut_stops _ _ _ _ _ (good_parents _ _ _ Hg0) Hst E2) as [W2 St]. bind. eapply wp_update; [exact E2|]. cbv beta iota.
  assert (Hg2 : good P b0 b2) by eauto using good_withdraws. assert (Hs2 : requests b2 ⊆ requests b) by (etrans; [apply W2|done]). do 2 walk1. apply wp_ret. split; [done|]. split; [done|]. intros _. split; [done|].
  apply (run_ref _ _ _ (inv_runs _ (good_inv _ _ _ Hg2) _ _ E0)).
Qed.
Lemma complete_spec c id completion now b : inv b -> wp (complete c id completion now) (fun r b' => good nothing b b' /\ (is_inr r -> ended_in b' id)) b.
Proof. intros H. eapply wp_mono; [apply (complete_good nothing b b); by apply good_refl|]. by intros r b' (A & _ & B). Qed.

Lemma complete_with_result_spec c id q encoded now b : inv b -> wp (complete_with_result c id q encoded now)
  (fun r b' => good nothing b b' /\ (is_inr r -> ended_in b' id /\ requests b' !! q = None /\
    exists request run, ready b c q now request run /\ rq_run request = id /\ committed request = false /\ is_control_op (rq_operation request) = false /\ (encoded <= op_reserved_bytes (rq_operation request))%N)) b.
Proof.
  intros H. pose proof (good_refl nothing b H) as Hg. unfold complete_with_result. walk1. checked_request Hg. walk1. rewrite !andb_true_iff, negb_true_iff, bool_decide_eq_true, N.leb_le in E. destruct E as [[[Hid Hc] Ho] Hle].
  apply wp_bind, wp_modify. set (b1 := b <| requests := _ |>). assert (Hg1 : good nothing b b1) by (after Hg; apply step_request_delete). bind. eapply wp_mono; [by apply (complete_good nothing b)|].
  intros [e|final] b2 (Hg2 & Hs & St); [finish|]. bind. destruct (bool_decide (run_state final = Completed)); [|apply wp_fail; finish]. apply wp_ret, wp_ret. split; [done|]. intros _. split; [by apply St|]. split.
  - destruct (requests b2 !! q) as [x|] eqn:Eq; [|done]. pose proof (lookup_weaken _ _ _ _ Eq Hs) as Eq'. unfold b1 in Eq'. cbn in Eq'. by rewrite lookup_delete_eq in Eq'.
  - exists request, run. split; [done|]. split; [done|]. split; [done|]. split; [by destruct (rq_operation request)|done].
Qed.

Lemma cancel_run_spec c id now b : inv b -> wp (cancel_run c id now) (fun r b' => good nothing b b' /\ (is_inr r -> ended_in b' id)) b.
Proof.
  intros H. unfold cancel_run. expiry (good_refl nothing b H). do 5 walk1. bind. apply (wp_mono _ (fun _ b' => good nothing b b' /\ sequence b' = sequence b0)).
  - destruct (started_workflow x) as [[k workflow]|]; [eapply wp_withdrawing; [apply cut_withdraws|exact Hg|]; intros b1 _ W1 Hg1; split; [done|apply W1]|]. checked_run Hg. by apply wp_ret.
  - intros [e|[]] b1 [Hg1 Hsq]; [finish|]. destruct (cut_withdraws id Cancelled None b1 (good_parents _ _ _ Hg1)) as (b2 & E2' & _).
    destruct (cut_stops id Cancelled None b1 b2 (good_parents _ _ _ Hg1)) as [W2 St]; [done|done|]. eapply wp_update; [exact E2'|]. split; [eauto using good_withdraws|]. intros _. split; [done|]. rewrite (w_sequence _ _ W2).
    pose proof (run_ref _ _ _ (inv_runs _ (good_inv _ _ _ Hg) _ _ E0)) as [_ Hle]. lia.
Qed.
End Clocked.
