(* ===== verification/BrokerLedger.v ===== *)
(** * What the callers of the broker have seen

    A [Call] is one use of one method, [perform] is what the broker does, and
    [serve] a sequence of calls.  The [Ledger] is an abstract account of the
    native decisions: it is computed from the calls and their replies alone and
    records which decision is in force in which slot, who holds a session, which
    requests are prepared, which runs have ended, which workflows were started
    and how much was disclosed.  [tracks] relates a broker to its ledger, and
    every call preserves it. *)

From Stdlib Require Import NArith Bool.
From stdpp Require Import gmap sorting.
From S2P Require Import Prelude BrokerTypes Broker Presentation BrokerRuns EnrollmentMetadata BrokerInv BrokerSafe BrokerSteps BrokerCalls BrokerRunCalls.

(** ** Calls and replies *)
Inductive Call :=
  | AcceptConnection
  | Disconnect (c : ConnectionId)
  | RegisterControllerSession (c : ConnectionId) (id : list N)
  | PrepareControllerEnrollment (c : ConnectionId) (r : ControllerRegistrationId) (t : TargetRef)
  | ApproveControllerEnrollment (c : ConnectionId) (proposal : ControllerEnrollmentProposal)
  | UnregisterControllerSession (c : ConnectionId) (r : ControllerRegistrationId)
  | AttachTarget (s generation : N)
  | CloseTarget (t : TargetRef)
  | ForgetClosedTarget (t : TargetRef)
  | RequestApproval (c : ConnectionId) (request : GrantRequest) (now : N)
  | RequestMetadataApproval (c : ConnectionId) (request : MetadataGrantRequest) (now : N)
  | RejectApproval (c : ConnectionId) (id : ApprovalId)
  | Approve (c : ConnectionId) (id : ApprovalId) (a : NativeApproval) (now : N)
  | ApproveMetadata (c : ConnectionId) (id : ApprovalId) (a : NativeMetadataApproval) (now : N)
  | RevokeOrdinary (c : ConnectionId)
  | RevokeMetadata (c : ConnectionId)
  | Revoke (c : ConnectionId)
  | RevokeAll
  | PollExpiry (now : N)
  | AdmitRun (c : ConnectionId) (parent : option RunId) (spec : RunSpec) (now : N)
  | AdmitMetadataRun (c : ConnectionId) (spec : MetadataRunSpec) (now : N)
  | StartWorkflow (c : ConnectionId) (context : RunId) (key : StartKey) (spec : RunSpec) (now : N)
  | CancelStart (c : ConnectionId) (key : StartKey) (now : N)
  | QueryStatus (c : ConnectionId) (id : RunId) (now : N)
  | ForgetRun (c : ConnectionId) (id : RunId)
  | CommitLease (transition : LeaseTransition) (now : N)
  | HumanTakeover (t : TargetRef)
  | PrepareRequest (c : ConnectionId) (id : RunId) (o : Operation) (now : N)
  | CommitDisclosure (c : ConnectionId) (q : RequestId) (encoded now : N)
  | CommitControl (c : ConnectionId) (q : RequestId) (input : Digest) (bytes now : N)
  | CommitPresentedControl (c : ConnectionId) (q : RequestId) (input : Digest) (bytes : N) (o : NativePresentationObservation) (now : N)
  | SettleRequest (c : ConnectionId) (q : RequestId)
  | CompleteRun (c : ConnectionId) (id : RunId) (completion : Completion) (now : N)
  | CompleteWithResult (c : ConnectionId) (id : RunId) (q : RequestId) (encoded now : N)
  | CancelRun (c : ConnectionId) (id : RunId) (now : N)
  | StartPresentationMonitor
  | NotePresentationTransition (id : PresentationMonitorId)
  | LosePresentationMonitor (id : PresentationMonitorId)
  | InvalidatePresentationMonitoring
  | ObservePresentation (id : PresentationMonitorId) (state : NativePresentationState)
  | PreparePresentationApproval (c : ConnectionId) (r : ControllerRegistrationId) (e : ControllerEnrollmentId) (now : N)
  | ApprovePresentation (c : ConnectionId) (proposal : PresentationApprovalProposal) (lifetime now : N)
  | RevokePresentation (c : ConnectionId) (r : ControllerRegistrationId)
  | PreparePresentation (c : ConnectionId) (r : ControllerRegistrationId) (e : ControllerEnrollmentId) (window : PresentationWindowId) (timeout now : N)
  | PresentationRequested (c : ConnectionId) (a : PresentationAttempt) (now : N)
  | FinishPresentation (c : ConnectionId) (a : PresentationAttempt) (o : option NativePresentationObservation) (now : N)
  | CancelPresentation (c : ConnectionId) (a : PresentationAttempt)
  | RevalidatePresentation (c : ConnectionId) (requirement : PresentationRequirement) (t : TargetRef) (o : NativePresentationObservation) (now : N)
  | RequestEnrollmentMetadata (c : ConnectionId) (r : ControllerRegistrationId) (e : ControllerEnrollmentId) (now : N)
  | ApproveEnrollmentMetadata (c : ConnectionId) (a : NativeEnrollmentMetadataGrantApproval) (now : N)
  | AdmitEnrollmentMetadataRun (c : ConnectionId) (r : ControllerRegistrationId) (e : ControllerEnrollmentId) (spec : MetadataRunSpec) (now : N)
  | RevokeEnrollmentMetadata (c : ConnectionId) (r : ControllerRegistrationId) (e : ControllerEnrollmentId)
  | PrepareMetadataReview (c : ConnectionId) (r : ControllerRegistrationId) (e : ControllerEnrollmentId) (now : N)
  | CancelMetadataReview (c : ConnectionId) (review : EnrollmentMetadataReview)
  | ApproveMetadataReview (c : ConnectionId) (a : NativeEnrollmentMetadataApproval) (now : N)
  | RevokeMetadataDecision (c : ConnectionId) (r : ControllerRegistrationId).

Inductive Reply := Done | IsConnection (c : ConnectionId) | IsRun (id : RunId) | IsLease (l : LeaseRef) | IsRequest (q : RequestId).

Section Clocked.
Context `{Ck : Clock}.

Definition done {A} (m : M A) : M Reply := m ≫= fun _ => mret Done.
Definition perform (call : Call) : M Reply :=
  match call with
  | AcceptConnection => accept_connection ≫= fun c => mret (IsConnection c)
  | Disconnect c => done (disconnect c)
  | RegisterControllerSession c id => done (register_controller_session c id)
  | PrepareControllerEnrollment c r t => done (prepare_controller_enrollment c r t)
  | ApproveControllerEnrollment c proposal => done (approve_controller_enrollment c proposal)
  | UnregisterControllerSession c r => done (unregister_controller_session c r)
  | AttachTarget s generation => done (attach_target s generation)
  | CloseTarget t => done (close_target t)
  | ForgetClosedTarget t => done (forget_closed_target t)
  | RequestApproval c request now => done (request_approval c request now)
  | RequestMetadataApproval c request now => done (request_metadata_approval c request now)
  | RejectApproval c id => done (reject_approval c id)
  | Approve c id a now => done (approve c id a now)
  | ApproveMetadata c id a now => done (approve_metadata c id a now)
  | RevokeOrdinary c => done (revoke_ordinary c)
  | RevokeMetadata c => done (revoke_metadata c)
  | Revoke c => done (revoke c)
  | RevokeAll => done revoke_all
  | PollExpiry now => done (poll_expiry now)
  | AdmitRun c parent spec now => admit_run c parent spec now ≫= fun id => mret (IsRun id)
  | AdmitMetadataRun c spec now => admit_metadata_run c spec now ≫= fun id => mret (IsRun id)
  | StartWorkflow c context key spec now => start_workflow c context key spec now ≫= fun id => mret (IsRun id)
  | CancelStart c key now => done (cancel_start c key now)
  | QueryStatus c id now => done (status c id now)
  | ForgetRun c id => done (forget_run c id)
  | CommitLease transition now => commit_lease transition now ≫= fun l => mret (IsLease l)
  | HumanTakeover t => done (human_takeover t)
  | PrepareRequest c id o now => prepare_request c id o now ≫= fun q => mret (IsRequest q)
  | CommitDisclosure c q encoded now => done (commit_disclosure c q encoded now)
  | CommitControl c q input bytes now => done (commit_control c q input bytes now)
  | CommitPresentedControl c q input bytes o now => done (commit_presented_control c q input bytes o now)
  | SettleRequest c q => done (settle_request c q)
  | CompleteRun c id completion now => done (complete c id completion now)
  | CompleteWithResult c id q encoded now => done (complete_with_result c id q encoded now)
  | CancelRun c id now => done (cancel_run c id now)
  | StartPresentationMonitor => done start_qualified_presentation_monitor
  | NotePresentationTransition id => done (note_presentation_transition id)
  | LosePresentationMonitor id => done (lose_presentation_monitor id)
  | InvalidatePresentationMonitoring => done invalidate_presentation_monitoring
  | ObservePresentation id state => done (observe_presentation id state)
  | PreparePresentationApproval c r e now => done (prepare_controller_presentation_approval c r e now)
  | ApprovePresentation c proposal lifetime now => done (approve_controller_presentation c proposal lifetime now)
  | RevokePresentation c r => done (revoke_controller_presentation c r)
  | PreparePresentation c r e window timeout now => done (prepare_presentation c r e window timeout now)
  | PresentationRequested c a now => done (presentation_requested c a now)
  | FinishPresentation c a o now => done (finish_presentation c a o now)
  | CancelPresentation c a => done (cancel_presentation c a)
  | RevalidatePresentation c requirement t o now => done (revalidate_presentation c requirement t o now)
  | RequestEnrollmentMetadata c r e now => done (request_enrollment_metadata_approval c r e now)
  | ApproveEnrollmentMetadata c a now => done (approve_enrollment_metadata_grant c a now)
  | AdmitEnrollmentMetadataRun c r e spec now => admit_enrollment_metadata_run c r e spec now ≫= fun id => mret (IsRun id)
  | RevokeEnrollmentMetadata c r e => done (revoke_enrollment_metadata_grant c r e)
  | PrepareMetadataReview c r e now => done (prepare_enrollment_metadata_review c r e now)
  | CancelMetadataReview c review => done (cancel_enrollment_metadata_review c review)
  | ApproveMetadataReview c a now => done (approve_enrollment_metadata_review c a now)
  | RevokeMetadataDecision c r => done (revoke_enrollment_metadata_decision c r)
  end.

(** ** The ledger *)
Inductive NativeDecision :=
  | DecidedOrdinary (a : NativeApproval) (at_ : N)
  | DecidedMetadata (ts : gset TargetRef) (lifetime at_ : N).
Definition decision_lifetime (d : NativeDecision) : N := match d with DecidedOrdinary a _ => ap_lifetime a | DecidedMetadata _ lifetime _ => lifetime end.
Definition decision_ends (d : NativeDecision) : N := match d with DecidedOrdinary a t => t + ap_lifetime a | DecidedMetadata _ lifetime t => t + lifetime end.
Definition decision_targets (d : NativeDecision) : gset TargetRef :=
  match d with DecidedOrdinary a _ => scope_targets (scope (ap_request a)) | DecidedMetadata ts _ _ => ts end.
Definition decision_discovers (d : NativeDecision) : gset TargetRef :=
  match d with DecidedOrdinary a _ => discover (scope (ap_request a)) | DecidedMetadata ts _ _ => ts end.
Definition decision_observes (d : NativeDecision) : gset TargetRef :=
  match d with DecidedOrdinary a _ => observe (scope (ap_request a)) | DecidedMetadata _ _ _ => ∅ end.
Definition decision_controls (d : NativeDecision) : gset TargetRef :=
  match d with DecidedOrdinary a _ => control (scope (ap_request a)) | DecidedMetadata _ _ _ => ∅ end.

Record Ledger := mkLedger {
  in_force : ConnectionId -> GrantSlot -> option NativeDecision;
  holder : N -> option LeaseRef;
  prepared : list (RequestId * RunId * Operation);
  ended : RunId -> bool;
  started : ConnectionId -> StartKey -> option (RunSpec * RunId);
  disclosed : N
}.
Definition Ledger_new : Ledger := mkLedger (fun _ _ => None) (fun _ => None) [] (fun _ => false) (fun _ _ => None) 0.

Definition withdraw (when : ConnectionId -> GrantSlot -> NativeDecision -> bool) (m : Ledger) : Ledger :=
  mkLedger (fun c slot => d ← in_force m c slot; if when c slot d then None else Some d) (holder m) (prepared m) (ended m) (started m) (disclosed m).
Definition decide_slot (c : ConnectionId) (slot : GrantSlot) (d : NativeDecision) (m : Ledger) : Ledger :=
  mkLedger (fun c' slot' => if decide ((c', slot') = (c, slot)) then Some d else in_force m c' slot') (holder m) (prepared m) (ended m) (started m) (disclosed m).
Definition hold (s : N) (l : option LeaseRef) (m : Ledger) : Ledger :=
  mkLedger (in_force m) (fun s' => if decide (s' = s) then l else holder m s') (prepared m) (ended m) (started m) (disclosed m).
Definition prepare (x : RequestId * RunId * Operation) (m : Ledger) : Ledger :=
  mkLedger (in_force m) (holder m) (x :: prepared m) (ended m) (started m) (disclosed m).
Definition take_prepared (q : RequestId) (m : Ledger) : Ledger :=
  mkLedger (in_force m) (holder m) (filter (fun x => x.1.1 <> q) (prepared m)) (ended m) (started m) (disclosed m).
Definition end_run (id : RunId) (m : Ledger) : Ledger :=
  mkLedger (in_force m) (holder m) (prepared m) (fun i => if decide (i = id) then true else ended m i) (started m) (disclosed m).
Definition start (c : ConnectionId) (k : StartKey) (x : RunSpec * RunId) (m : Ledger) : Ledger :=
  mkLedger (in_force m) (holder m) (prepared m) (ended m) (fun c' k' => if decide ((c', k') = (c, k)) then Some x else started m c' k') (disclosed m).
Definition disclose (n : N) (m : Ledger) : Ledger := mkLedger (in_force m) (holder m) (prepared m) (ended m) (started m) (disclosed m + n).

Definition on_session (s : N) (ts : gset TargetRef) : bool := existsb (fun t => session t =? s)%N (elements ts).
Definition slot_for (r : ControllerRegistrationId) (slot : GrantSlot) : bool := match slot with EnrollmentMetadata r' _ => bool_decide (r' = r) | _ => false end.

(** What a call that succeeded tells. *)
Definition note (call : Call) (r : Error + Reply) (m : Ledger) : Ledger :=
  match call, r with
  | Disconnect c, inr _ | Revoke c, inr _ => withdraw (fun c' _ _ => bool_decide (c' = c)) m
  | RevokeOrdinary c, inr _ => withdraw (fun c' slot _ => bool_decide (c' = c) && bool_decide (slot = Ordinary)) m
  | RevokeMetadata c, inr _ => withdraw (fun c' slot _ => bool_decide (c' = c) && bool_decide (slot = Metadata)) m
  | RevokeEnrollmentMetadata c r e, inr _ => withdraw (fun c' slot _ => bool_decide (c' = c) && bool_decide (slot = EnrollmentMetadata r e)) m
  | RevokeAll, inr _ => withdraw (fun _ _ _ => true) m
  | UnregisterControllerSession c r, inr _ => withdraw (fun c' slot _ => bool_decide (c' = c) && slot_for r slot) m
  | ApproveControllerEnrollment c proposal, inr _ => withdraw (fun c' slot _ => bool_decide (c' = c) && slot_for (ep_registration proposal) slot) m
  | AttachTarget s _, inr _ => withdraw (fun _ _ d => on_session s (decision_targets d)) m
  | CloseTarget t, inr _ => withdraw (fun _ _ d => on_session (session t) (decision_targets d)) m
  | HumanTakeover t, inr _ => hold (session t) None (withdraw (fun _ _ d => bool_decide (t ∈ decision_controls d)) m)
  | Approve c _ a now, inr _ => decide_slot c Ordinary (DecidedOrdinary a now) m
  | ApproveMetadata c _ a now, inr _ => decide_slot c Metadata (DecidedMetadata (ma_targets a) (ma_lifetime a) now) m
  | ApproveEnrollmentMetadata c a now, inr _ =>
      decide_slot c (EnrollmentMetadata (mp_registration (mg_proposal a)) (mp_enrollment (mg_proposal a)))
        (DecidedMetadata {[mp_target (mg_proposal a)]} (mg_lifetime a) now) m
  | CommitLease _ _, inr (IsLease l) => hold (session (lease_target l)) (Some l) m
  | PrepareRequest _ id o _, inr (IsRequest q) => prepare (q, id, o) m
  | CommitDisclosure _ q n _, inr _ => disclose n (take_prepared q m)
  | CommitControl _ q _ _ _, inr _ | CommitPresentedControl _ q _ _ _ _, inr _ | SettleRequest _ q, inr _ => take_prepared q m
  | CompleteRun _ id _ _, inr _ | CancelRun _ id _, inr _ => end_run id m
  | CompleteWithResult _ id q n _, inr _ => end_run id (disclose n (take_prepared q m))
  | StartWorkflow c _ k spec _, inr (IsRun id) => start c k (spec, id) m
  | QueryStatus _ _ _, inr _ => disclose 256 m
  | _, _ => m
  end.

Fixpoint serve (calls : list Call) (b : Broker) (m : Ledger) : option (Broker * Ledger) :=
  match calls with
  | [] => Some (b, m)
  | call :: calls =>
      match perform call b with
      | None => None
      | Some (r, b') => serve calls b' (note call r m)
      end
  end.

(** ** A broker and its ledger *)
Definition matches (d : NativeDecision) (g : GrantRef) : Prop :=
  match d with DecidedOrdinary a now => ordinary_decision a now g | DecidedMetadata ts lifetime now => metadata_decision_of ts lifetime now g end.
Lemma matches_unspent d g g' : ref_unspent g' = ref_unspent g -> matches d g -> matches d g'.
Proof. destruct g as [[]|[]], g' as [[]|[]], d; cbn; try done; intros E; inversion E; by subst. Qed.
Lemma unspent_unspent g : ref_unspent (ref_unspent g) = ref_unspent g.
Proof. by destruct g. Qed.
Lemma matches_ends d g : matches d g -> ref_expires g = decision_ends d /\ lifetime_ok (decision_lifetime d) = true.
Proof. destruct d, g; cbn; try done; intros H; destruct_and!; auto. Qed.

Fixpoint outstanding (l : list (RequestId * RunId * Operation)) : N :=
  match l with [] => 0%N | x :: l => (op_reserved_bytes x.2 + outstanding l)%N end.

Record tracks (b : Broker) (m : Ledger) : Prop := {
  t_grants : forall c slot g, slot_of b c slot = Some g -> exists d, in_force m c slot = Some d /\ matches d g;
  t_writers : forall s l, writer_at b s = Some l -> holder m s = Some l;
  t_requests : forall q r, requests b !! q = Some r -> committed r = false -> (q, rq_run r, rq_operation r) ∈ prepared m;
  t_ended : forall id, ended m id = true -> ended_in b id;
  t_started : forall c k spec id, started m c k = Some (spec, id) -> (ref_sequence c <= sequence b)%N /\ (is_Some (principals b !! c) -> receipt_at c k spec id b);
  t_disclosed : (disclosed m + outstanding (prepared m) <= used_bytes (global b))%N
}.

(** What a step has to say besides what it permits. *)
Record noted (P : Permit) (b b' : Broker) (m m' : Ledger) : Prop := {
  n_grants : forall c slot g', slot_of b' c slot = Some g' -> (exists d, in_force m' c slot = Some d /\ matches d g') \/
    ~ may_grant P c slot (ref_unspent g') /\ forall d, in_force m c slot = Some d -> matches d g' -> in_force m' c slot = Some d;
  n_writers : forall s l, writer_at b' s = Some l -> holder m' s = Some l \/ ~ may_lease P l /\ holder m' s = holder m s;
  n_requests : forall q r, requests b' !! q = Some r -> committed r = false -> (q, rq_run r, rq_operation r) ∈ prepared m' \/
    ~ may_request P q (rq_run r) (rq_operation r) /\ ((q, rq_run r, rq_operation r) ∈ prepared m -> (q, rq_run r, rq_operation r) ∈ prepared m');
  n_ended : forall id, ended m' id = true -> ended m id = true \/ ended_in b' id;
  n_started : forall c k spec id, started m' c k = Some (spec, id) -> started m c k = Some (spec, id) \/ (ref_sequence c <= sequence b')%N /\ receipt_at c k spec id b';
  n_disclosed : (disclosed m' + outstanding (prepared m') <= used_bytes (global b'))%N
}.

Lemma tracks_step P b b' m m' : good P b b' -> tracks b m -> noted P b b' m m' -> tracks b' m'.
Proof.
  intros [I0 I1 Ev] [T1 T2 T3 T4 T5 T6] [N1 N2 N3 N4 N5 N6]. split; auto.
  - intros c slot g' Hg. destruct (N1 _ _ _ Hg) as [?|[Hnm Hk]]; [done|]. destruct (e_grants _ _ _ _ Ev _ _ _ Hg) as [(g & Hg0 & E)|?]; [|done].
    destruct (T1 _ _ _ Hg0) as (d & Hd & Hm). exists d. split; [apply Hk; [done|]|]; by apply (matches_unspent d g).
  - intros s l Hl. destruct (N2 _ _ Hl) as [?|[Hnm ->]]; [done|]. destruct (e_writers _ _ _ _ Ev _ _ Hl) as [?|?]; [auto|done].
  - intros q r Hr Hc. destruct (N3 _ _ Hr Hc) as [?|[Hnm Hk]]; [done|]. destruct (e_requests _ _ _ _ Ev _ _ Hr) as [(r0 & Hr0 & Ea & Eb & Ec)|[? _]]; [|done].
    apply Hk. rewrite Ea, Eb. apply T3; [done|]. destruct (committed r0); [|done]. by rewrite Ec in Hc.
  - intros id Hid. destruct (N4 _ Hid) as [Hm|?]; [|done]. destruct (T4 _ Hm) as [Hs Hle]. pose proof (e_sequence _ _ _ _ Ev). split; [|lia]. intros run' Hr'.
    destruct (e_new_runs _ _ _ _ Ev id) as [[run Hr]|?]; [eauto| |lia]. destruct (e_runs _ _ _ _ Ev _ _ _ Hr Hr') as [_ [[Hk|Hk] _]]; [by destruct (Hs _ Hr)|]. rewrite Hk. by apply Hs.
  - intros c k spec id Hst. destruct (N5 _ _ _ _ Hst) as [Hm|[? ?]]; [|done]. destruct (T5 _ _ _ _ Hm) as [Hle Hrec]. pose proof (e_sequence _ _ _ _ Ev). split; [lia|]. intros Hc.
    destruct (e_connections _ _ _ _ Ev _ Hc) as [Hc0|[_ ?]]; [|lia]. destruct (Hrec Hc0) as (x & Hx & ? & ?). exists x. split; [|done]. by apply (e_receipts _ _ _ _ Ev).
Qed.

(** A call that the ledger does not note. *)
Lemma noted_same P b b' m : good P b b' -> tracks b m -> P = nothing -> noted P b b' m m.
Proof.
  intros Hg T ->. split; cbn; auto.
  pose proof (t_disclosed _ _ T). pose proof (e_global _ _ _ _ (good_evolve _ _ _ Hg)). lia.
Qed.
Lemma noted_withdraw b b' m when : good nothing b b' -> tracks b m ->
  (forall c slot g' d, slot_of b' c slot = Some g' -> in_force m c slot = Some d -> matches d g' -> when c slot d = false) -> noted nothing b b' m (withdraw when m).
Proof.
  intros Hg T Hw. destruct (noted_same _ _ _ _ Hg T eq_refl) as [N1 N2 N3 N4 N5 N6]. split; auto. intros c slot g' Hg'. right. split; [intros []|]. intros d Hd Hm. cbn. rewrite Hd. cbn. by rewrite (Hw _ _ _ _ Hg' Hd Hm).
Qed.
Lemma noted_decide b b' m c slot ok d : good (to_grant c slot ok) b b' -> tracks b m -> installed ok c slot b' -> (forall g, ok g -> matches d g) ->
  noted (to_grant c slot ok) b b' m (decide_slot c slot d m).
Proof.
  intros Hg T (g & Hs & Hok) Hd. split; cbn; auto.
  - intros c' slot' g' Hg'. case_decide as Hc.
    + injection Hc as -> ->. left. exists d. split; [done|]. assert (g' = g) as -> by congruence. apply (matches_unspent d (ref_unspent g)); [by rewrite unspent_unspent|auto].
    + right. split; [intros (-> & -> & _); done|auto].
  - pose proof (t_disclosed _ _ T). pose proof (e_global _ _ _ _ (good_evolve _ _ _ Hg)). lia.
Qed.
Lemma outstanding_filter q l : (outstanding (filter (fun x => x.1.1 <> q) l) <= outstanding l)%N.
Proof. induction l as [|x l IH]; [done|]. rewrite filter_cons. cbn. case_decide; cbn; lia. Qed.
Lemma outstanding_taken q id o l : (q, id, o) ∈ l -> (outstanding (filter (fun x => x.1.1 <> q) l) + op_reserved_bytes o <= outstanding l)%N.
Proof.
  induction l as [|x l IH]; [by intros ?%elem_of_nil|]. rewrite filter_cons. intros [<-|Hin]%elem_of_cons.
  - rewrite decide_False by (cbn; auto). pose proof (outstanding_filter q l). cbn. lia.
  - specialize (IH Hin). cbn. case_decide; cbn; lia.
Qed.
(** Requests that a call takes out of the account. *)
Lemma noted_take b b' m q n : good nothing b b' -> tracks b m -> (forall r, requests b' !! q = Some r -> committed r = true) ->
  (exists id o, (q, id, o) ∈ prepared m /\ (n <= op_reserved_bytes o)%N) \/ n = 0%N -> noted nothing b b' m (disclose n (take_prepared q m)).
Proof.
  intros Hg T Hq Hn. destruct (noted_same _ _ _ _ Hg T eq_refl) as [N1 N2 N3 N4 N5 N6]. split; auto; cbn.
  - intros q' r Hr Hc. right. split; [intros []|]. intros Hin. apply list_elem_of_filter. split; [|done]. cbn. intros ->. rewrite (Hq _ Hr) in Hc. done.
  - pose proof (outstanding_filter q (prepared m)). cbn in N6. destruct Hn as [(id & o & Hin & Hle)| ->]; [|lia]. pose proof (outstanding_taken _ _ _ _ Hin). lia.
Qed.
Lemma noted_end b b' m m' id : noted nothing b b' m m' -> ended_in b' id -> noted nothing b b' m (end_run id m').
Proof. intros [N1 N2 N3 N4 N5 N6] He. split; auto. cbn. intros i. case_decide as Hi; [subst; auto|auto]. Qed.

(** ** Every call keeps the account right *)
Definition accounted (call : Call) (m : Ledger) (b : Broker) (r : Error + Reply) (b' : Broker) : Prop := good anything b b' /\ tracks b' (note call r m).
Lemma wp_map {A} (x : M A) (f : A -> Reply) Q (Q' : Error + Reply -> Broker -> Prop) b :
  wp x Q b -> (forall e b', Q (inl e) b' -> Q' (inl e) b') -> (forall a b', Q (inr a) b' -> Q' (inr (f a)) b') -> wp (x ≫= fun a => mret (f a)) Q' b.
Proof. intros H He Ho. apply wp_bind. eapply wp_mono; [exact H|]. intros [e|a] b' HQ; [auto|]. apply wp_ret. auto. Qed.
Lemma accounted_step P call m b r b' : good P b b' -> tracks b m -> noted P b b' m (note call r m) -> accounted call m b r b'.
Proof. intros Hg T N. split; [eapply good_weaken; [apply le_anything|exact Hg]|by eapply tracks_step]. Qed.
(** A call that grants nothing and tells nothing. *)
Lemma accounted_same call m b r b' : good nothing b b' -> tracks b m -> note call r m = m -> accounted call m b r b'.
Proof. intros Hg T E. apply (accounted_step nothing); [done|done|]. rewrite E. by apply noted_same. Qed.
Lemma harmless_accounted {A} (x : M A) f call m b : harmless x -> inv b -> tracks b m -> (forall r, note call r m = m) -> wp (x ≫= fun a => mret (f a)) (accounted call m b) b.
Proof. intros Hx H T E. eapply wp_map; [by apply Hx|intros; by apply accounted_same..]. Qed.

Lemma mentions_slot b c p slot g t : principals b !! c = Some p -> slot_of b c slot = Some g ->
  t ∈ match g with RefOrdinary g => scope_targets (scope (g_request g)) | RefMetadata g => m_targets g end -> mentions p t.
Proof.
  intros Hp Hs Ht. unfold slot_of in Hs. rewrite Hp in Hs. destruct slot as [| |r e]; cbn in Hs.
  - destruct (grant p) as [x|] eqn:E; [|done]. injection Hs as <-. left. eauto.
  - destruct (metadata p) as [x|] eqn:E; [|done]. injection Hs as <-. right. left. eauto.
  - destruct (controller_registrations p !! r) as [record|] eqn:Er; [|done]. cbn in Hs. unfold record_slot in Hs. destruct (bool_decide _); [|done].
    destruct (metadata_grant record) as [x|] eqn:E; [|done]. injection Hs as <-. right. right. eauto 6.
Qed.
Lemma session_clear_decision b s c slot g d : session_clear b s -> slot_of b c slot = Some g -> matches d g -> on_session s (decision_targets d) = false.
Proof.
  intros Hc Hs Hm. destruct (on_session s (decision_targets d)) eqn:E; [exfalso|done]. apply existsb_exists in E as (t & Ht & Es). apply N.eqb_eq in Es. apply list_elem_of_In, elem_of_elements in Ht.
  pose proof Hs as Hs'. unfold slot_of in Hs'. destruct (principals b !! c) as [p|] eqn:Ep; [|done]. apply (Hc c p t Ep); [|done]. apply (mentions_slot b c p slot g t Ep Hs).
  destruct d, g; cbn in *; try done; destruct_and!; congruence.
Qed.

Lemma receipt_connection b c k spec id : inv b -> receipt_at c k spec id b -> (ref_sequence c <= sequence b)%N.
Proof. intros H (x & Hx & _). destruct (inv_starts _ H _ _ _ Hx) as [p Hp]. apply (inv_principals _ H _ _ Hp). Qed.

Lemma ready_prepared b m c q now request run : tracks b m -> ready b c q now request run -> committed request = false -> (q, rq_run request, rq_operation request) ∈ prepared m.
Proof. intros T Hr Hc. by apply (t_requests _ _ T); [apply Hr|]. Qed.

Lemma taken_accounted call m b r b' q : good nothing b b' -> tracks b m -> (forall x, requests b' !! q = Some x -> committed x = true) -> note call r m = take_prepared q m -> accounted call m b r b'.
Proof.
  intros Hg T Hq E. apply (accounted_step nothing); [done|done|]. rewrite E. destruct (noted_take b b' m q 0 Hg T Hq (or_intror eq_refl)) as [N1 N2 N3 N4 N5 N6].
  split; auto. cbn in N6 |- *. by rewrite N.add_0_r in N6.
Qed.
Lemma committed_all (b : Broker) q : (committed <$> requests b !! q) = Some true -> forall x, requests b !! q = Some x -> committed x = true.
Proof. intros E x Hx. rewrite Hx in E. by injection E. Qed.

Ltac same := cbv beta; cbn [on_ok]; intros; destruct_and?; apply accounted_same; done.
Ltac withdrawn Hs := intros ? ? [? Hs]; apply (accounted_step nothing); [done|done|cbn; apply noted_withdraw; [done|done|]].
Lemma bool_decide_and (P Q : Prop) `{Decision P, Decision Q} : (P -> Q -> False) -> bool_decide P && bool_decide Q = false.
Proof. intros HF. destruct (bool_decide_reflect P), (bool_decide_reflect Q); try done. exfalso; auto. Qed.

(** The calls that take decisions back. *)
Lemma withdrawals_accounted call m b : inv b -> tracks b m ->
  match call with
  | Disconnect _ | Revoke _ | RevokeOrdinary _ | RevokeMetadata _ | RevokeEnrollmentMetadata _ _ _ | RevokeAll | UnregisterControllerSession _ _
  | ApproveControllerEnrollment _ _ | AttachTarget _ _ | CloseTarget _ => wp (perform call) (accounted call m b) b
  | _ => True
  end.
Proof.
  intros H T. destruct call; try done; unfold perform, done.
  - eapply wp_map; [by apply disconnect_spec|same|withdrawn Hs]. intros c' slot g' d Hg _ _. apply bool_decide_eq_false. intros ->. unfold slot_of in Hg. by rewrite Hs in Hg.
  - eapply wp_map; [by apply approve_controller_enrollment_spec|same|withdrawn Hs]. intros c' slot g' d Hg _ _. destruct slot as [| |r e]; [by rewrite andb_false_r..|].
    apply bool_decide_and. intros -> ->. by rewrite (Hs I) in Hg.
  - eapply wp_map; [by apply unregister_controller_session_spec|same|withdrawn Hs]. intros c' slot g' d Hg _ _. destruct slot as [| |r' e]; [by rewrite andb_false_r..|].
    apply bool_decide_and. intros -> ->. by rewrite (Hs I) in Hg.
  - eapply wp_map; [by apply attach_target_spec|same|withdrawn Hs]. intros c' slot g' d Hg _ Hm. eapply session_clear_decision; eauto. by apply Hs.
  - eapply wp_map; [by apply close_target_spec|same|withdrawn Hs]. intros c' slot g' d Hg _ Hm. eapply session_clear_decision; eauto. by apply Hs.
  - eapply wp_map; [by apply revoke_ordinary_spec|same|withdrawn Hs]. intros c' slot g' d Hg _ _. apply bool_decide_and. intros -> ->. by rewrite Hs in Hg.
  - eapply wp_map; [by apply revoke_metadata_spec|same|withdrawn Hs]. intros c' slot g' d Hg _ _. apply bool_decide_and. intros -> ->. by rewrite Hs in Hg.
  - eapply wp_map; [by apply revoke_spec|same|withdrawn Hs]. intros c' slot g' d Hg _ _. apply bool_decide_eq_false. intros ->. by rewrite Hs in Hg.
  - eapply wp_map; [by apply revoke_all_spec|same|withdrawn Hs]. intros c' slot g' d Hg _ _. by rewrite Hs in Hg.
  - eapply wp_map; [by apply revoke_enrollment_metadata_grant_spec|same|withdrawn Hs]. intros c' slot g' d Hg _ _. apply bool_decide_and. intros -> ->. by rewrite (Hs I) in Hg.
Qed.
(** The decisions. *)
Lemma decisions_accounted call m b : inv b -> tracks b m ->
  match call with Approve _ _ _ _ | ApproveMetadata _ _ _ _ | ApproveEnrollmentMetadata _ _ _ => wp (perform call) (accounted call m b) b | _ => True end.
Proof.
  intros H T. destruct call; try done; unfold perform, done.
  - eapply wp_map; [by apply approve_spec|same|]. intros [] b' [Hg Hi]. eapply accounted_step; [exact Hg|done|]. apply noted_decide; [done|done|by apply Hi|done].
  - eapply wp_map; [by apply approve_metadata_spec|same|]. intros [] b' [Hg Hi]. eapply accounted_step; [exact Hg|done|]. apply noted_decide; [done|done|by apply Hi|done].
  - eapply wp_map; [by apply approve_enrollment_metadata_grant_spec|same|]. intros [] b' [Hg Hi]. eapply accounted_step; [exact Hg|done|]. apply noted_decide; [done|done|by apply Hi|done].
Qed.

Lemma noted_global P b b' m : good P b b' -> tracks b m -> (disclosed m + outstanding (prepared m) <= used_bytes (global b'))%N.
Proof. intros Hg T. pose proof (t_disclosed _ _ T). pose proof (e_global _ _ _ _ (good_evolve _ _ _ Hg)). lia. Qed.

Lemma writer_session b s l : inv b -> writer_at b s = Some l -> session (lease_target l) = s.
Proof.
  intros H. unfold writer_at. destruct (targets b !! s) as [t|] eqn:E; [|done]. cbn. intros Hw. destruct (inv_targets _ H _ _ E) as [A _ _ D]. destruct (D _ Hw) as [-> _]. done.
Qed.

(** Leases, requests, commits and the ends of runs. *)
Lemma effects_accounted call m b : inv b -> tracks b m ->
  match call with
  | AcceptConnection | CommitLease _ _ | HumanTakeover _ | PrepareRequest _ _ _ _ | CommitDisclosure _ _ _ _ | CommitControl _ _ _ _ _ | CommitPresentedControl _ _ _ _ _ _
  | SettleRequest _ _ | CompleteRun _ _ _ _ | CompleteWithResult _ _ _ _ _ | CancelRun _ _ _ | StartWorkflow _ _ _ _ _ | QueryStatus _ _ _ =>
      wp (perform call) (accounted call m b) b
  | _ => True
  end.
Proof.
  intros H T. destruct call; try done; unfold perform, done.
  - eapply wp_map; [by apply accept_connection_ok|same|]. intros c b' Hg. eapply accounted_step; [exact Hg|done|]. split; cbn; auto. exact (noted_global _ _ _ _ Hg T).
  - eapply wp_map; [by apply start_workflow_spec|same|]. intros id b' [Hg [Hr _]]. eapply accounted_step; [exact Hg|done|]. split; cbn; auto; [|exact (noted_global _ _ _ _ Hg T)].
    intros c' k' spec' id'. case_decide as Hc; [|auto]. intros [= <- <-]. injection Hc as -> ->. right. split; [|done]. apply (receipt_connection b' _ key spec id); [apply Hg|done].
  - eapply wp_map; [by apply status_spec|same|]. intros x b' [Hg Hu]. eapply accounted_step; [exact Hg|done|]. destruct (noted_same _ _ _ _ Hg T eq_refl) as [N1 N2 N3 N4 N5 N6]. split; auto. cbn.
    specialize (Hu I). pose proof (t_disclosed _ _ T). lia.
  - eapply wp_map; [by apply commit_lease_spec|same|]. intros l b' [Hg Hw]. eapply accounted_step; [exact Hg|done|]. split; cbn; auto; [|exact (noted_global _ _ _ _ Hg T)].
    intros s l' Hl. case_decide as Hs; [left; congruence|]. right. split; [|done]. intros ->. apply Hs. symmetry. apply (writer_session b'); [apply Hg|done].
  - eapply wp_map; [by apply human_takeover_spec|same|]. intros [] b' [Hg Hw]. destruct (Hw I) as [Hn Hc]. eapply accounted_step; [exact Hg|done|]. cbn.
    destruct (noted_withdraw b b' m (fun _ _ d => bool_decide (t ∈ decision_controls d)) Hg T) as [N1 N2 N3 N4 N5 N6].
    { intros c slot g' d Hs _ Hm. apply bool_decide_eq_false. intros Hin. destruct d as [a at_|]; [|set_solver]. destruct g' as [g|]; [|done]. destruct Hm as (Hm & _). cbn in Hin. rewrite <- Hm in Hin.
      destruct slot as [| |r e]; [by apply (Hc c g)| |].
      - unfold slot_of in Hs. destruct (principals b' !! c) as [p|]; [|done]. cbn in Hs. by destruct (metadata p).
      - unfold slot_of in Hs. destruct (principals b' !! c) as [p|]; [|done]. cbn in Hs. by destruct (controller_registrations p !! r ≫= record_slot e). }
    split; auto. cbn. intros s l Hl. case_decide as Hs; [congruence|auto].
  - eapply wp_map; [by apply prepare_request_spec|same|]. intros q b' [Hg [Hu _]]. eapply accounted_step; [exact Hg|done|]. split; cbn; auto.
    + intros q' r Hr _. destruct (decide ((q', rq_run r, rq_operation r) = (q, id, o))) as [->|Hne]; [left; left|right]. split; [|by right]. intros (A & B & C). apply Hne. congruence.
    + pose proof (t_disclosed _ _ T). lia.
  - eapply wp_map; [by apply commit_disclosure_spec|same|]. intros [] b' [Hg Hx]. destruct (Hx I) as [(request & run & Hr & Hc & _ & Hle) Hq]. eapply accounted_step; [exact Hg|done|].
    apply noted_take; [done|done|by apply committed_all|]. left. exists (rq_run request), (rq_operation request). split; [by eapply ready_prepared|done].
  - eapply wp_map; [by apply commit_control_inner_spec|same|]. intros [] b' [Hg Hx]. destruct (Hx I) as [_ Hq]. eapply taken_accounted; [done|done|by apply committed_all|done].
  - eapply wp_map; [by apply commit_control_inner_spec|same|]. intros [] b' [Hg Hx]. destruct (Hx I) as [_ Hq]. eapply taken_accounted; [done|done|by apply committed_all|done].
  - eapply wp_map; [by apply settle_request_spec|same|]. intros [] b' [Hg Hx]. specialize (Hx I). apply (taken_accounted _ _ _ _ _ q); [done|done|congruence|done].
  - eapply wp_map; [by apply complete_spec|same|]. intros x b' [Hg Hx]. eapply accounted_step; [exact Hg|done|]. cbn. apply noted_end; [by apply noted_same|by apply Hx].
  - eapply wp_map; [by apply complete_with_result_spec|same|]. intros x b' [Hg Hx]. destruct (Hx I) as (He & Hq & request & run & Hr & Hid & Hc & _ & Hle). eapply accounted_step; [exact Hg|done|]. cbn.
    apply noted_end; [|done]. apply noted_take; [done|done|congruence|]. left. exists (rq_run request), (rq_operation request). split; [by eapply ready_prepared|done].
  - eapply wp_map; [by apply cancel_run_spec|same|]. intros x b' [Hg Hx]. eapply accounted_step; [exact Hg|done|]. cbn. apply noted_end; [by apply noted_same|by apply Hx].
Qed.

Lemma perform_accounted call m b : inv b -> tracks b m -> wp (perform call) (accounted call m b) b.
Proof.
  intros H T. pose proof (withdrawals_accounted call m b H T) as Hw. pose proof (decisions_accounted call m b H T) as Hd. pose proof (effects_accounted call m b H T) as He.
  destruct call; cbv beta iota in Hw, Hd, He; try assumption; clear Hw Hd He; unfold perform, done;
    (eapply harmless_accounted; [|done|done|by intros [? | []]]).
  - apply register_controller_session_ok.
  - apply prepare_controller_enrollment_ok.
  - apply forget_closed_target_ok.
  - apply request_approval_ok.
  - apply request_metadata_approval_ok.
  - apply reject_approval_ok.
  - apply poll_expiry_ok.
  - apply admit_run_ok.
  - apply admit_metadata_run_ok.
  - apply cancel_start_ok.
  - apply forget_run_ok.
  - apply start_monitor_ok.
  - apply note_presentation_transition_ok.
  - apply lose_presentation_monitor_ok.
  - apply invalidate_presentation_monitoring_ok.
  - apply observe_presentation_ok.
  - apply prepare_controller_presentation_approval_ok.
  - apply approve_controller_presentation_ok.
  - apply revoke_controller_presentation_ok.
  - apply prepare_presentation_ok.
  - apply presentation_requested_ok.
  - apply finish_presentation_ok.
  - apply cancel_presentation_ok.
  - intros b1 H1. eapply wp_mono; [apply (revalidate_presentation_good nothing b1); by apply good_refl|]. by intros [].
  - apply request_enrollment_metadata_approval_ok.
  - apply admit_enrollment_metadata_run_ok.
  - apply prepare_enrollment_metadata_review_ok.
  - apply cancel_enrollment_metadata_review_ok.
  - apply approve_enrollment_metadata_review_ok.
  - apply revoke_enrollment_metadata_decision_ok.
Qed.

Lemma evolve_served b b' b'' : good anything b b' -> good anything b' b'' -> good anything b b''.
Proof.
  intros [A B C] [D E F]. split; auto. eapply evolve_trans; [|exact A|exact B|exact C|]; [done|]. eapply evolve_weaken; [|apply C|exact F]. apply le_anything.
Qed.
Lemma serve_accounted calls b m : inv b -> tracks b m -> exists b' m', serve calls b m = Some (b', m') /\ good anything b b' /\ tracks b' m'.
Proof.
  revert b m. induction calls as [|call calls IH]; intros b m H T; cbn [serve]; [exists b, m; split; [done|split; [by apply good_refl|done]]|].
  destruct (perform_accounted call m b H T) as (r & b1 & -> & Hg1 & T1). destruct (IH b1 (note call r m)) as (b2 & m2 & E2 & Hg2 & T2); [apply Hg1|done|].
  exists b2, m2. split; [done|]. split; [by eapply evolve_served|done].
Qed.
Lemma initial_inv i l : inv (Broker_with_limits i l).
Proof. split; cbn; try done; [split; cbn; lia|split; cbn; lia]. Qed.
Lemma initial_tracks i l : tracks (Broker_with_limits i l) Ledger_new.
Proof. by split. Qed.
(** Brokers that some sequence of calls leads to, with what was seen. *)
Definition reached (i : N) (l : Limits) (calls : list Call) (b : Broker) (m : Ledger) : Prop := serve calls (Broker_with_limits i l) Ledger_new = Some (b, m).
Lemma reached_ok i l calls b m : reached i l calls b m -> inv b /\ tracks b m.
Proof. intros E. destruct (serve_accounted calls _ _ (initial_inv i l) (initial_tracks i l)) as (b' & m' & E' & [_ Hi _] & T). unfold reached in E. rewrite E in E'. by injection E' as <- <-. Qed.
End Clocked.
