(* ===== verification/BrokerSpec.v ===== *)
(** * What the automation broker promises

    Every statement is about an arbitrary sequence of calls to a new broker.
    What authorises an effect is read off the [Ledger] of the calls and replies:
    the native decision in force, the lease that holds the session, the request
    that was prepared. *)

From Stdlib Require Import NArith Bool.
From stdpp Require Import gmap sorting.
From S2P Require Import Prelude Admission BrokerTypes Broker Presentation BrokerRuns EnrollmentMetadata Outbound BrokerInv BrokerSafe BrokerSteps BrokerCalls BrokerRunCalls BrokerLedger.

Section Clocked.
Context `{Ck : Clock}.

(** ** Running a script *)
Definition reply_to (i : N) (l : Limits) (calls : list Call) (call : Call) : option Reply :=
  match serve calls (Broker_with_limits i l) Ledger_new with
  | Some (b, _) => match perform call b with Some (inr r, _) => Some r | _ => None end
  | None => None
  end.
Lemma reply_reached i l calls call r : reply_to i l calls call = Some r -> exists b m b', reached i l calls b m /\ perform call b = Some (inr r, b').
Proof.
  unfold reply_to, reached. destruct (serve _ _ _) as [[b m]|]; [|done]. destruct (perform call b) as [[[e|x] b']|] eqn:E; [done| |done]. intros [= ->]. eauto 10.
Qed.

(** ** What a decision allows *)
(** [bytes] bytes with digest [input] may go to [t]: the decision controls it,
    hands every source it reads to it, and names either this very input or a
    workflow. *)
Record allows_control (a : NativeApproval) (t : TargetRef) (input : Digest) (bytes : N) : Prop := {
  allows_target : t ∈ control (scope (ap_request a));
  allows_handoff : exists handed, ap_handoffs a !! t = Some handed /\ sources (scope (ap_request a)) ⊆ handed;
  allows_binding : exists i, i ∈ bindings (ap_request a) /\
    match invocation i with DirectInput t' input' bytes' => t' = t /\ input' = input /\ bytes' = bytes | Workflow _ _ => True | Direct _ => False end
}.
Record authorised_control (m : Ledger) (c : ConnectionId) (q : RequestId) (id : RunId) (lease : LeaseRef) (input : Digest) (bytes : N)
    (required : option PresentationRequirement) (now : N) : Prop := {
  control_decision : exists a at_, in_force m c Ordinary = Some (DecidedOrdinary a at_) /\ (now < at_ + ap_lifetime a)%N /\ (ap_lifetime a <= MAX_GRANT_LIFETIME)%N /\
    allows_control a (lease_target lease) input bytes;
  control_prepared : (q, id, Control lease input bytes required) ∈ prepared m;
  control_running : ended m id = false;
  control_lease : lease_run lease = id /\ holder m (session (lease_target lease)) = Some lease
}.

Lemma live_slot b c id now run : inv b -> live_run b c id now run -> exists g, slot_of b c (r_slot run) = Some g /\ (now < ref_expires g)%N /\
  grant_allows g (r_parent run) (r_spec run) = true /\ validate_ref_closure g (frozen_sources run) (frozen_controls run) = inr tt /\ (deadline (r_spec run) <= ref_expires g)%N.
Proof.
  intros H [Hr Hc Hst Hd (g & Hg & He & Hx & Hv)]. exists g. split; [done|]. split; [done|]. subst c. destruct (run_scoped _ _ _ (inv_runs _ H _ _ Hr) g Hg He). auto.
Qed.
Lemma live_not_ended b m c id now run : tracks b m -> live_run b c id now run -> ended m id = false.
Proof. intros T [Hr _ Hst _ _]. destruct (ended m id) eqn:E; [|done]. destruct (t_ended _ _ T _ E) as [Hs _]. by destruct (Hs _ Hr). Qed.

Lemma ordinary_slot b c slot g : slot_of b c slot = Some (RefOrdinary g) -> slot = Ordinary.
Proof.
  unfold slot_of. destruct (principals b !! c) as [p|]; [|done]. cbn. destruct slot as [| |r e]; cbn; [done|by destruct (metadata p)|by destruct (controller_registrations p !! r ≫= record_slot e)].
Qed.
Lemma subset_of_spec s parent : subset_of s parent = true -> discover s ⊆ discover parent /\ observe s ⊆ observe parent /\ control s ⊆ control parent.
Proof. unfold subset_of. rewrite !andb_true_iff, !bool_decide_eq_true. intros [[[[A B] C] _] _]. auto. Qed.

(** The checks of a control operation, against the grant of its run. *)
Lemma control_checked b m c q now request run lease input bytes required : inv b -> tracks b m -> ready b c q now request run -> committed request = false ->
  rq_operation request = Control lease input bytes required -> authorised_control m c q (rq_run request) lease input bytes required now.
Proof.
  intros H T [Hq Hl Ho] Hc Eo. destruct (live_slot _ _ _ _ _ H Hl) as (g & Hg & Hx & Ha & Hv & _). rewrite Eo in Ho. cbn in Ho.
  apply bind_inr in Ho as ([] & Hk%require_inr & Ho). apply bind_inr in Ho as ([] & Hr%require_inr & Ho). apply bind_inr in Ho as ([] & Hi & Ho). apply bind_inr in Ho as ([] & _ & Ho).
  apply bind_inr in Ho as (state & Hs%ok_or_inr & Ho). apply bind_inr in Ho as ([] & Hw%require_inr & _). rewrite andb_true_iff, !bool_decide_eq_true in Hr. destruct Hr as [Hrun Hin].
  rewrite andb_true_iff, bool_decide_eq_true in Hw. destruct Hw as [Hw _]. apply find_target_some in Hs as (Et & Rt & _).
  pose proof (run_frozen _ _ _ (inv_runs _ H _ _ (live_found _ _ _ _ _ Hl)) _ Hin) as Hf.
  destruct g as [g|g]; cbn in Ha, Hv; [|apply require_inr, bool_decide_eq_true in Hv; rewrite Hv in Hf; set_solver].
  rewrite andb_true_iff in Ha. destruct Ha as [Hsub Hb]. destruct (t_grants _ _ T _ _ _ Hg) as (d & Hd & Hm). destruct d as [a at_|]; [|done]. destruct Hm as (Er & Eh & Ee & El).
  pose proof (ordinary_slot _ _ _ _ Hg) as Es. rewrite Es in Hg, Hd. destruct (subset_of_spec _ _ Hsub) as (_ & _ & Hcs).
  split; [|rewrite <- Eo; by apply (t_requests _ _ T)|by eapply live_not_ended|split; [done|apply (t_writers _ _ T); unfold writer_at; by rewrite Et]].
  exists a, at_. split; [done|]. split; [cbn in Hx; lia|]. apply andb_true_iff in El as [_ El%N.leb_le]. split; [done|]. rewrite Er in *. split; [set_solver| |].
  - apply grant_at_slot in Hg. unfold grant_at in Hg. destruct (principals b !! c) as [p|] eqn:Ep; [|done]. destruct (inv_principals _ H _ _ Ep) as [_ Hp].
    pose proof (grant_closed _ _ (principal_grant _ _ Hp _ Hg) (lease_target lease)) as Hcl. rewrite Er, Eh in Hcl. apply Hcl. set_solver.
  - exists (binding (r_spec run)). unfold binding_approved in Hb. rewrite Er in Hb. unfold check_direct_input in Hi. destruct (invocation (binding (r_spec run))) as [k|t' i' n'|bu mf]; cbn in *.
    + by destruct k.
    + rewrite orb_false_r, bool_decide_eq_true in Hb. apply require_inr in Hi. rewrite !andb_true_iff, !bool_decide_eq_true, N.eqb_eq in Hi. destruct Hi as [[-> ->] ->]. done.
    + rewrite orb_false_r, bool_decide_eq_true in Hb. done.
Qed.

Lemma R_some {A B} (r : R A) (f : A -> R B) : is_Some r -> (forall a, r = Some (inr a) -> is_Some (f a)) -> is_Some (r ≫= f).
Proof. intros [x ->] Hf. destruct x as [e|a]; cbn; eauto. Qed.
Lemma reads_return b c id q t now : parents_ok b ->
  is_Some (prepare_lease b c id t now) /\ is_Some (discovery_targets b c q now) /\ is_Some (disclosure_liveness b c q now) /\
  is_Some (prepared_control_target b c q now) /\ is_Some (prepared_control_binding b c q now) /\ is_Some (prepared_direct_input_binding b c q now).
Proof.
  intros Hp. assert (Hrun : forall i, is_Some (check_run b c i now)) by (intros i; destruct (check_run_total b c i now Hp); eauto).
  assert (Hreq : is_Some (check_request b c q now)) by (destruct (check_request_total b c q now Hp); eauto).
  split; [|split; [|split; [|split; [|split]]]]; (apply R_some; [try done; eauto|]).
  - intros run _. repeat (apply R_some; [eauto|intros ? _]). eauto.
  - intros [request run] _. repeat (apply R_some; [eauto|intros ? _]). eauto.
  - intros [request run] _. apply R_some; [eauto|]. intros _ _. destruct (lineage_spec b (rq_run request) Hp) as (ids & -> & _). repeat (apply R_some; [eauto|intros ? _]). eauto.
  - intros request _. apply R_some; [done|]. intros run _. destruct (rq_operation request); eauto. destruct (committed request); eauto.
  - intros request _. apply R_some; [done|]. intros run _. destruct (rq_operation request); eauto. repeat (apply R_some; [eauto|intros ? _]). eauto.
  - intros [request run] _. repeat (apply R_some; [eauto|intros ? _]). eauto.
Qed.

(** ** The promises *)
(** C5: From any sequence of calls a broker returns (no arithmetic overflows and
    no loop runs on), and it stays within its budgets: at most 4096 operations
    and 16 MiB over its life, 256 operations and 1 MiB per connection, and for
    every run its own budget; no run has more effects than operations were
    charged, every target of a grant that is held is attached, and the queries
    that do not change the broker return as well. *)
Theorem broker_calls_return i l calls : exists b m, serve calls (Broker_with_limits i l) Ledger_new = Some (b, m) /\
  usage_ok (global b) (mkBudget 4096 16777216) /\
  (forall c p, principals b !! c = Some p -> usage_ok (p_usage p) (mkBudget 256 1048576)) /\
  (forall id run, runs b !! id = Some run -> usage_ok (r_usage run) (budget (r_spec run)) /\ (admitted_effects (status_of run) <= used_operations (global b))%N) /\
  (forall c p t, principals b !! c = Some p -> mentions p t -> is_Some (find_target b t)) /\
  (forall c id q t now, is_Some (prepare_lease b c id t now) /\ is_Some (discovery_targets b c q now) /\ is_Some (disclosure_liveness b c q now) /\
     is_Some (prepared_control_target b c q now) /\ is_Some (prepared_control_binding b c q now) /\ is_Some (prepared_direct_input_binding b c q now)).
Proof.
  destruct (serve_accounted calls _ _ (initial_inv i l) (initial_tracks i l)) as (b & m & E & Hg & _). pose proof (good_inv _ _ _ Hg) as H. exists b, m. split; [done|]. split; [|split; [|split; [|split]]].
  - destruct (inv_global _ H), (inv_limits _ H). split; cbn in *; lia.
  - intros c p Hp. apply (inv_principals _ H _ _ Hp).
  - intros id run Hr. pose proof (inv_runs _ H _ _ Hr) as Hok. split; [apply Hok|]. pose proof (run_effects _ _ _ Hok). lia.
  - intros c p t Hp Hm. destruct (inv_principals _ H _ _ Hp) as [_ Hok]. exact (mentions_live _ _ _ Hok Hm).
  - intros. by apply reads_return, inv_parents.
Qed.

Lemma commit_call_ready (call : Call) c q input bytes presented now b r b' : inv b ->
  match call with
  | CommitControl c0 q0 i0 n0 now0 => (c0, q0, i0, n0, now0) = (c, q, input, bytes, now) /\ presented = false
  | CommitPresentedControl c0 q0 i0 n0 _ now0 => (c0, q0, i0, n0, now0) = (c, q, input, bytes, now) /\ presented = true
  | _ => False
  end -> perform call b = Some (inr r, b') -> commits b c q input bytes presented now.
Proof.
  intros H Hcall E. assert (Hx : forall o, (forall r b', done (commit_control_inner c q input bytes o now) b = Some (inr r, b') -> commits b c q input bytes (bool_decide (is_Some o)) now)).
  { intros o r0 b0 E0. destruct (commit_control_inner_spec c q input bytes o now b H) as (x & b1 & E1 & _ & Hx). unfold done, mbind, M_bind in E0. rewrite E1 in E0. destruct x as [e|[]]; [done|]. by apply Hx. }
  destruct call; try done; destruct Hcall as [[= -> -> -> -> ->] ->]; [exact (Hx None _ _ E)|exact (Hx (Some o) _ _ E)].
Qed.

(** C3: Control input reaches a terminal only on a native decision: whenever a
    commit of control input succeeds, after any calls whatsoever, the ledger has
    an approval in force for that connection (given at most five minutes before
    and not taken back since) that controls the target, hands it every source
    the approval can read, and names either this very input or a workflow; the
    request was prepared with this digest and length and not taken yet, its run
    has not ended, and its lease is the one that holds the session. *)
Theorem control_is_authorised i l calls b m call c q input bytes presented now r b' :
  reached i l calls b m ->
  match call with
  | CommitControl c0 q0 i0 n0 now0 => (c0, q0, i0, n0, now0) = (c, q, input, bytes, now) /\ presented = false
  | CommitPresentedControl c0 q0 i0 n0 _ now0 => (c0, q0, i0, n0, now0) = (c, q, input, bytes, now) /\ presented = true
  | _ => False
  end -> perform call b = Some (inr r, b') ->
  (exists id lease required, authorised_control m c q id lease input bytes required now /\ bool_decide (is_Some required) = presented) /\
  forall id o, (q, id, o) ∉ prepared (note call (inr r) m).
Proof.
  intros Hr Hcall E. destruct (reached_ok _ _ _ _ _ Hr) as [H T]. destruct (commit_call_ready _ _ _ _ _ _ _ _ _ _ H Hcall E) as [(request & run & lease & required & Hrd & Hc & Eo & <-)].
  split; [exists (rq_run request), lease, required; split; [by eapply control_checked|done]|]. intros id o Hin. destruct call; try done; destruct Hcall as [[= -> -> -> -> ->] _]; cbn in Hin; apply list_elem_of_filter in Hin as [Hne _]; by cbn in Hne.
Qed.

(** A grant allows its runs to read only what its decision reads. *)
Lemma allowed_reads d g parent spec : matches d g -> grant_allows g parent spec = true -> discover (spec_scope spec) ⊆ decision_discovers d /\ observe (spec_scope spec) ⊆ decision_observes d.
Proof.
  destruct d, g; cbn; try done; intros Hm; rewrite !andb_true_iff.
  - destruct Hm as (-> & _). intros [Hs _]. destruct (subset_of_spec _ _ Hs) as (A & B & _). done.
  - destruct Hm as (-> & _). rewrite !bool_decide_eq_true. intros [[[[[[[_ _] _] A] B] _] _] _]. by rewrite B.
Qed.
Lemma done_inr {A} (x : M A) b r b' : done x b = Some (inr r, b') -> exists a, x b = Some (inr a, b').
Proof. unfold done, mbind, M_bind. destruct (x b) as [[[e|a] b1]|]; [done| |done]. intros [= <- <-]. eauto. Qed.

(** C4: A disclosure is covered by a native decision: whenever a commit of a
    disclosure succeeds, a decision is in force on that connection that is not
    over, what is disclosed was prepared and fits the bytes that were reserved
    for it, its run has not ended, an observed target is one the decision
    observes, and the targets that a discovery lists are ones it discovers. *)
Theorem disclosure_is_authorised i l calls b m c q encoded now r b' :
  reached i l calls b m -> perform (CommitDisclosure c q encoded now) b = Some (inr r, b') ->
  exists slot d id o, in_force m c slot = Some d /\ (now < decision_ends d)%N /\ (decision_lifetime d <= MAX_GRANT_LIFETIME)%N /\
    (q, id, o) ∈ prepared m /\ is_control_op o = false /\ (encoded <= op_reserved_bytes o)%N /\ ended m id = false /\
    (forall t k, o = Observe t k -> t ∈ decision_observes d) /\ (forall ts, discovery_targets b c q now = Some (inr ts) -> ts ⊆ decision_discovers d).
Proof.
  intros Hr E. destruct (reached_ok _ _ _ _ _ Hr) as [H T]. apply done_inr in E as (u & E). destruct (commit_disclosure_spec c q encoded now b H) as (x & b1 & E1 & _ & Hx). rewrite E in E1. injection E1 as <- <-.
  destruct (Hx I) as [(request & run & [Hq Hl Ho] & Hc & Hk & Hle) _]. destruct (live_slot _ _ _ _ _ H Hl) as (g & Hg & Hend & Ha & _). destruct (t_grants _ _ T _ _ _ Hg) as (d & Hd & Hm).
  destruct (matches_ends _ _ Hm) as [Ee El]. apply andb_true_iff in El as [_ El%N.leb_le]. destruct (allowed_reads _ _ _ _ Hm Ha) as [Hdisc Hobs].
  exists (r_slot run), d, (rq_run request), (rq_operation request). split; [done|]. split; [lia|]. split; [done|]. split; [by apply (t_requests _ _ T)|]. split; [done|]. split; [done|]. split; [by eapply live_not_ended|]. split.
  - intros t k Eo. rewrite Eo in Ho. cbn in Ho. apply bind_inr in Ho as (? & _ & Ho). apply bind_inr in Ho as (? & Hin%require_inr%bool_decide_eq_true & _). by apply Hobs.
  - intros ts ([request' run'] & Hrd%check_request_ready & Hts)%R_inr. apply R_inr_pure in Hts as (? & _ & Hts). injection Hts as <-. destruct Hrd as [Hq' Hl' _].
    assert (request' = request) as -> by congruence. pose proof (live_found _ _ _ _ _ Hl). pose proof (live_found _ _ _ _ _ Hl'). by assert (run' = run) as -> by congruence.
Qed.

(** C17: What a broker lets out is bounded: the bytes of all the disclosures and
    results that were committed, and of the statuses that were reported, are at
    most the limit it was made with, and at most 16 MiB. *)
Theorem disclosure_is_bounded i l calls b m : reached i l calls b m -> (disclosed m <= N.min (global_disclosed_bytes l) 16777216)%N.
Proof.
  intros Hr. destruct (reached_ok _ _ _ _ _ Hr) as [H T]. pose proof (t_disclosed _ _ T). destruct (inv_global _ H) as [_ Hb].
  destruct (serve_accounted calls _ _ (initial_inv i l) (initial_tracks i l)) as (b1 & m1 & E1 & Hg & _). unfold reached in Hr. rewrite Hr in E1. injection E1 as <- <-.
  rewrite (e_limits _ _ _ _ (good_evolve _ _ _ Hg)) in Hb. cbn in Hb. lia.
Qed.

(** C16: A workflow is started once for a connection and a key: when a start has
    succeeded before, a start with the same key returns the same run, and only
    for the same specification. *)
Theorem workflow_starts_once i l calls b m c key spec id context spec' now id' b' :
  reached i l calls b m -> started m c key = Some (spec, id) -> perform (StartWorkflow c context key spec' now) b = Some (inr (IsRun id'), b') -> id' = id /\ spec' = spec.
Proof.
  intros Hr Hs E. destruct (reached_ok _ _ _ _ _ Hr) as [H T]. destruct (start_workflow_spec c context key spec' now b H) as (x & b1 & E1 & Hg & Hx).
  cbn in E. unfold mbind, M_bind in E. rewrite E1 in E. destruct x as [e|id'']; [done|]. injection E as -> <-. destruct Hx as [Hrec Hold]. cbn [on_ok] in Hg.
  destruct (t_started _ _ T _ _ _ _ Hs) as [Hle Hrc]. destruct Hrec as (y & Hy & _). destruct (inv_starts _ (good_inv _ _ _ Hg) _ _ _ Hy) as [p Hp].
  destruct (e_connections _ _ _ _ (good_evolve _ _ _ Hg) c) as [Hc|[[] _]]; [eauto|]. destruct (Hrc Hc) as (z & Hz & <- & <-). destruct (Hold _ Hz). auto.
Qed.

(** A run that passes its check has only running runs above it. *)
Lemma check_run_lineage fuel b c id now run ids : check_run_fuel fuel b c id now = Some (inr run) -> lineage_fuel fuel b id = Some ids ->
  (exists above, ids = id :: above) /\ forall x, x ∈ ids -> exists r, runs b !! x = Some r /\ run_state (status_of r) = Running.
Proof.
  revert id run ids. induction fuel as [|fuel IH]; intros id run ids; [done|]. cbn [check_run_fuel lineage_fuel].
  intros (r & Hr%ok_or_inr & H)%R_inr_pure. rewrite Hr. do 4 apply R_inr_pure in H as (? & _ & H). apply R_inr_pure in H as (? & Hs%require_inr%bool_decide_eq_true & H).
  apply R_inr_pure in H as (? & _ & H). apply R_inr in H as (above & Ha & _). destruct (r_parent r) as [parent|]; [|intros [= <-]; split; [by exists []|]; intros y [->|[]%elem_of_nil]%elem_of_cons; eauto].
  destruct (lineage_fuel fuel b parent) as [l|] eqn:El; [|done]. intros [= <-]. split; [by exists l|]. intros y [->|Hx]%elem_of_cons; [eauto|]. by apply (proj2 (IH _ _ _ Ha El)).
Qed.
Lemma ancestor_flags_spec b ids fs : ancestor_flags b ids = inr fs -> forall x r, x ∈ ids -> runs b !! x = Some r -> descendant_delivery r ∈ fs.
Proof.
  revert fs. induction ids as [|i ids IH]; intros fs; cbn [ancestor_flags]; [by intros _ ? ? []%elem_of_nil|].
  intros (run & Hrun%ok_or_inr & H)%bind_inr. apply bind_inr in H as (rest & Hrest & H). injection H as <-. intros x r [->|Hx]%elem_of_cons Hr; [assert (run = r) as -> by congruence; by left|right; by eapply IH].
Qed.
Lemma liveness_facts b c q now lv : disclosure_liveness b c q now = Some (inr lv) ->
  exists request run g above, ready b c q now request run /\ slot_of b c (r_slot run) = Some g /\ dl_connection lv = c /\ dl_deadline lv = deadline (r_spec run) /\ dl_grant lv = ref_delivery g /\ dl_run lv = r_delivery run /\
    lineage b (rq_run request) = Some (rq_run request :: above) /\ forall x, x ∈ above -> exists r, runs b !! x = Some r /\ run_state (status_of r) = Running /\ descendant_delivery r ∈ dl_ancestors lv.
Proof.
  intros ([request run] & Hr & H)%R_inr. pose proof (check_request_ready _ _ _ _ _ _ Hr) as Hready. apply R_inr_pure in Hr as (request0 & _ & Hr). apply R_inr in Hr as (run0 & Hy & Hr). apply R_inr_pure in Hr as (? & _ & Hr). injection Hr as -> ->.
  apply R_inr_pure in H as (? & _ & H). destruct (lineage b (rq_run request)) as [ids|] eqn:El; [|done]. destruct (check_run_lineage _ _ _ _ _ _ _ Hy El) as [[above ->] Hup]. cbn [drop] in H.
  apply R_inr_pure in H as (ancestors & Ha & H). apply R_inr_pure in H as (g & [Hg _]%slot_grant_some & H). injection H as <-. exists request, run, g, above. repeat (split; [done|]).
  intros z Hz. destruct (Hup z) as (r & Hr & Hs); [by right|]. exists r. eauto using ancestor_flags_spec.
Qed.
Lemma serve_app l1 l2 b m : serve (l1 ++ l2) b m = match serve l1 b m with Some (b1, m1) => serve l2 b1 m1 | None => None end.
Proof. revert b m. induction l1 as [|call l1 IH]; intros b m; cbn [app serve]; [done|]. destruct (perform call b) as [[r b']|]; [apply IH|done]. Qed.

(** The state of a run whose flags are still set. *)
Lemma flags_tell b b' id run run' : evolve anything (sequence b) b b' -> runs b !! id = Some run -> run_state (status_of run) = Running -> runs b' !! id = Some run' ->
  (load b' (r_delivery run) = true -> run_state (status_of run') = Running \/ run_state (status_of run') = Completed) /\
  (load b' (descendant_delivery run) = true -> run_state (status_of run') = Running).
Proof.
  intros Ev Hr Hst Hr'. destruct (e_runs _ _ _ _ Ev _ _ _ Hr Hr') as [_ [_ Hk]]. rewrite Hst in Hk. destruct Hk as [->|[Hd Hk]]; [auto|]. split; [|congruence].
  intros Hl. destruct Hk as [Hk|Hk]; [congruence|by right].
Qed.

(** C6: A frame is published only while its disclosure is still covered.  Let the
    handle of a committed disclosure be made at one time and any calls follow: if
    a frame with that handle is valid then, it is for the same connection, the
    very grant it was disclosed under is still held, a native decision for it is
    in force and not over, and every target guard of the frame holds.  At every
    moment in between, its run, while the broker knew it, was running or normally
    completed (never cancelled, revoked or timed out), and every run above it in
    its lineage was running. *)
Theorem published_frames_are_covered i l calls b m c q now lv later b' m' s now' f c' :
  reached i l calls b m -> disclosure_liveness b c q now = Some (inr lv) -> serve later b m = Some (b', m') ->
  frame_disclosure f = Some (c', lv) -> frame_is_valid s b' now' f = true ->
  c' = c /\ forallb (guard_is_valid s) (frame_targets f) = true /\
  exists slot g g' d id above, slot_of b c slot = Some g /\ slot_of b' c slot = Some g' /\ ref_epoch g' = ref_epoch g /\ in_force m' c slot = Some d /\ matches d g' /\ (now' < decision_ends d)%N /\
    rq_run <$> requests b !! q = Some id /\ lineage b id = Some (id :: above) /\
    forall before after b1 m1, later = before ++ after -> serve before b m = Some (b1, m1) ->
      (forall run, runs b1 !! id = Some run -> run_state (status_of run) = Running \/ run_state (status_of run) = Completed) /\
      (forall x run, x ∈ above -> runs b1 !! x = Some run -> run_state (status_of run) = Running).
Proof.
  intros Hr Hl Hs Hf Hv. destruct (reached_ok _ _ _ _ _ Hr) as [H T]. destruct (serve_accounted later b m H T) as (b2 & m2 & E2 & Hg & T'). rewrite Hs in E2. injection E2 as <- <-.
  destruct (liveness_facts _ _ _ _ _ Hl) as (request & run & g & above & [Hq Hrun _] & Hslot & Ec & Ed & Eg & Er & El & Hup). unfold frame_is_valid in Hv. rewrite Hf in Hv. cbn in Hv. rewrite !andb_true_iff in Hv.
  destruct Hv as [[Hguards _] Hlive]. unfold is_live in Hlive. rewrite !andb_true_iff, bool_decide_eq_true, N.ltb_lt, Ec, Ed, Eg, Er in Hlive. destruct Hlive as [[[[<- Hdl] Hlg] Hlr] Hla].
  pose proof (good_evolve _ _ _ Hg) as Ev. split; [done|]. split; [done|]. destruct (live_slot _ _ _ _ _ H Hrun) as (g0 & Hg0 & _ & _ & _ & Hdead). assert (g0 = g) as -> by congruence.
  destruct (e_dropped _ _ _ _ Ev _ _ _ Hslot) as [(g' & Hg' & Eu)|Hfalse]; [|congruence]. destruct (t_grants _ _ T' _ _ _ Hg') as (d & Hd & Hm). destruct (matches_ends _ _ Hm) as [Ee _].
  rewrite (ref_unspent_expires _ _ Eu) in Ee. exists (r_slot run), g, g', d, (rq_run request), above. split; [done|]. split; [done|]. split; [by apply ref_unspent_epoch|]. split; [done|]. split; [done|]. split; [lia|].
  split; [by rewrite Hq|]. split; [done|]. intros before after b1 m1 -> H1. rewrite serve_app, H1 in Hs.
  destruct (serve_accounted before b m H T) as (b3 & m3 & E3 & Hg1 & T1). rewrite H1 in E3. injection E3 as <- <-. destruct (serve_accounted after b1 m1 (good_inv _ _ _ Hg1) T1) as (b3 & m3 & E3 & Hg2 & _). rewrite Hs in E3. injection E3 as <- <-.
  pose proof (good_evolve _ _ _ Hg1) as Ev1. assert (Hback : forall x, (x < length (flags b))%nat -> load b' x = true -> load b1 x = true).
  { intros x Hx. apply (proj2 (e_flags _ _ _ _ (good_evolve _ _ _ Hg2))). pose proof (proj1 (e_flags _ _ _ _ Ev1)). lia. }
  split.
  - intros r Hr1. destruct (flags_tell _ _ _ _ _ Ev1 (live_found _ _ _ _ _ Hrun) (live_state _ _ _ _ _ Hrun) Hr1) as [Ht _]. apply Ht, Hback; [|done].
    apply (run_flags_ok _ _ _ (inv_runs _ H _ _ (live_found _ _ _ _ _ Hrun))).
  - intros x r Hx Hr1. destruct (Hup x Hx) as (rx & Hrx & Hst & Hin). destruct (flags_tell _ _ _ _ _ Ev1 Hrx Hst Hr1) as [_ Ht]. apply Ht, Hback.
    + apply (run_flags_ok _ _ _ (inv_runs _ H _ _ Hrx)).
    + eapply forallb_forall; [exact Hla|]. by apply list_elem_of_In.
Qed.

(** Nobody controls [t]. *)
Definition uncontrolled (t : TargetRef) (m : Ledger) : Prop := forall c slot d, in_force m c slot = Some d -> t ∉ decision_controls d.
Lemma withdraw_uncontrolled t when m : uncontrolled t m -> uncontrolled t (withdraw when m).
Proof. intros H c slot d. cbn. destruct (in_force m c slot) as [x|] eqn:E; [|done]. cbn. destruct (when c slot x); [done|]. intros [= <-]. by eapply H. Qed.
Lemma decide_uncontrolled t c slot d m : uncontrolled t m -> t ∉ decision_controls d -> uncontrolled t (decide_slot c slot d m).
Proof. intros H Hd c' slot' d'. cbn. case_decide; [by intros [= <-]|apply H]. Qed.
Lemma note_uncontrolled t call r m : (forall c id a now, call = Approve c id a now -> t ∉ control (scope (ap_request a))) -> uncontrolled t m -> uncontrolled t (note call r m).
Proof.
  intros Hc H. destruct call, r as [err|reply]; try exact H; try (by apply withdraw_uncontrolled).
  - apply decide_uncontrolled; [done|]. by eapply Hc.
  - apply decide_uncontrolled; [done|]. cbn. set_solver.
  - by destruct reply.
  - by destruct reply.
  - by destruct reply.
  - apply decide_uncontrolled; [done|]. cbn. set_solver.
Qed.
Lemma serve_uncontrolled t later b m b' m' : (forall c id a now, Approve c id a now ∈ later -> t ∉ control (scope (ap_request a))) -> uncontrolled t m ->
  serve later b m = Some (b', m') -> uncontrolled t m'.
Proof.
  revert b m. induction later as [|call later IH]; intros b m Hc H; cbn [serve]; [by intros [= <- <-]|]. destruct (perform call b) as [[r b1]|]; [|done]. apply IH.
  - intros c id a now Hin. apply (Hc c id a now). by right.
  - apply note_uncontrolled; [|done]. intros c id a now ->. apply (Hc c id a now). by left.
Qed.
(** C15: A person who takes a target over keeps it: after a takeover, and whatever
    calls follow, no control input is committed to that target until a new
    native approval controls it. *)
Theorem takeover_stops_control i l calls b m t r b1 later b' m' call c q input bytes presented now r' b'' :
  reached i l calls b m -> perform (HumanTakeover t) b = Some (inr r, b1) -> serve later b1 (note (HumanTakeover t) (inr r) m) = Some (b', m') ->
  (forall c id a now, Approve c id a now ∈ later -> t ∉ control (scope (ap_request a))) ->
  match call with
  | CommitControl c0 q0 i0 n0 now0 => (c0, q0, i0, n0, now0) = (c, q, input, bytes, now) /\ presented = false
  | CommitPresentedControl c0 q0 i0 n0 _ now0 => (c0, q0, i0, n0, now0) = (c, q, input, bytes, now) /\ presented = true
  | _ => False
  end -> perform call b' = Some (inr r', b'') ->
  exists request lease required, requests b' !! q = Some request /\ rq_operation request = Control lease input bytes required /\ lease_target lease <> t.
Proof.
  intros Hr Et Hs Ha Hcall E. assert (Hr' : reached i l (calls ++ HumanTakeover t :: later) b' m').
  { unfold reached in *. rewrite serve_app, Hr. cbn [serve]. by rewrite Et. }
  destruct (reached_ok _ _ _ _ _ Hr') as [H T]. destruct (commit_call_ready _ _ _ _ _ _ _ _ _ _ H Hcall E) as [(request & run & lease & required & Hrd & Hc & Eo & _)].
  exists request, lease, required. split; [apply Hrd|]. split; [done|]. intros Heq. destruct (control_checked _ _ _ _ _ _ _ _ _ _ _ H T Hrd Hc Eo) as [(a & at_ & Hd & _ & _ & [Hin _ _]) _ _ _].
  assert (Hun : uncontrolled t m').
  { eapply serve_uncontrolled; [exact Ha| |exact Hs]. intros c' slot d. cbn. destruct (in_force m c' slot) as [x|]; [|done]. cbn. destruct (bool_decide_reflect (t ∈ decision_controls x)); [done|]. by intros [= <-]. }
  rewrite Heq in Hin. by apply (Hun _ _ _ Hd).
Qed.
End Clocked.

(** ** A script
    A client is granted control of one terminal, leases it, types three bytes and
    reads back fifty. *)
Module Script.
#[export] Instance clock : Clock := 1000000000000000%N.
Definition t : TargetRef := mkTargetRef 7 5 1.
Definition c : ConnectionId := mkRef 7 1.
Definition whole : Scope := mkScope ∅ {[t]} {[t]} true true.
Definition workflow : InvocationBinding := mkBinding 1 (Workflow [1%N] [2%N]) [3%N].
Definition starter : InvocationBinding := mkBinding 1 (Direct WorkflowStart) [3%N].
Definition request : GrantRequest := mkGrantRequest whole {[workflow; starter]} ∅.
Definition approval : NativeApproval := accept_control_handoff t {[t]} (NativeApproval_new request 1000).
Definition spec : RunSpec := mkRunSpec workflow whole (mkBudget 10 1000) 500.
Definition caller : RunSpec := mkRunSpec starter whole (mkBudget 10 1000) 500.
Definition run : RunId := mkRef 7 5.
Definition lease : LeaseRef := mkLease t run 6.
Definition grants : list Call :=
  [AcceptConnection; AttachTarget 5 1; RequestApproval c request 10; Approve c (mkRef 7 3) approval 20; AdmitRun c None spec 30].
Definition typed : list Call := grants ++ [CommitLease (mkTransition c run t 2) 41; PrepareRequest c run (Control lease [9%N] 3 None) 42].
Definition reads : list Call := grants ++ [PrepareRequest c run (Observe t 100) 44].
Definition started_one : list Call := grants ++ [AdmitRun c None caller 31; StartWorkflow c (mkRef 7 6) 1%N spec 32].
Definition committed_read : list Call := reads ++ [CommitDisclosure c (mkRef 7 6) 50 45].
Definition t2 : TargetRef := mkTargetRef 7 6 1.
Definition other : Scope := mkScope ∅ {[t2]} {[t2]} true true.
Definition other_request : GrantRequest := mkGrantRequest other {[workflow]} ∅.
Definition other_approval : NativeApproval := accept_control_handoff t2 {[t2]} (NativeApproval_new other_request 1000).
Definition other_lease : LeaseRef := mkLease t2 (mkRef 7 12) 13.
Definition elsewhere : list Call :=
  [AttachTarget 6 1; RequestApproval c other_request 60; Approve c (mkRef 7 10) other_approval 61; AdmitRun c None (mkRunSpec workflow other (mkBudget 10 1000) 500) 62;
   CommitLease (mkTransition c (mkRef 7 12) t2 9) 63; PrepareRequest c (mkRef 7 12) (Control other_lease [9%N] 3 None) 64].
End Script.
Import Script.

Lemma control_is_authorised_witness : exists b m, reached 7 Limits_default typed b m /\ exists id lease required, authorised_control m c (mkRef 7 7) id lease [9%N] 3 required 43 /\ bool_decide (is_Some required) = false.
Proof.
  destruct (reply_reached 7 Limits_default typed (CommitControl c (mkRef 7 7) [9%N] 3 43) Done) as (b & m & b' & Hr & E); [vm_compute; reflexivity|].
  exists b, m. split; [exact Hr|]. exact (proj1 (control_is_authorised 7 Limits_default typed b m (CommitControl c (mkRef 7 7) [9%N] 3 43) c (mkRef 7 7) [9%N] 3 false 43 Done b' Hr (conj eq_refl eq_refl) E)).
Defined.

Lemma disclosure_is_authorised_witness : exists b m, reached 7 Limits_default reads b m /\ exists slot d, in_force m c slot = Some d /\ (45 < decision_ends d)%N.
Proof.
  destruct (reply_reached 7 Limits_default reads (CommitDisclosure c (mkRef 7 6) 50 45) Done) as (b & m & b' & Hr & E); [vm_compute; reflexivity|].
  exists b, m. split; [exact Hr|]. destruct (disclosure_is_authorised 7 Limits_default reads b m c (mkRef 7 6) 50 45 Done b' Hr E) as (slot & d & _ & _ & Hd & Hn & _). exists slot, d. exact (conj Hd Hn).
Defined.

Lemma disclosure_is_bounded_witness : exists b m, reached 7 Limits_default committed_read b m /\ (disclosed m <= N.min (global_disclosed_bytes Limits_default) 16777216)%N.
Proof.
  destruct (reply_reached 7 Limits_default committed_read (PollExpiry 46) Done) as (b & m & b' & Hr & E); [vm_compute; reflexivity|].
  exists b, m. split; [exact Hr|]. exact (disclosure_is_bounded 7 Limits_default committed_read b m Hr).
Defined.

Lemma workflow_starts_once_witness : exists b m, reached 7 Limits_default started_one b m /\ started m c 1%N = Some (spec, mkRef 7 7) /\ mkRef 7 7 = mkRef 7 7 /\ spec = spec.
Proof.
  destruct (reply_reached 7 Limits_default started_one (StartWorkflow c (mkRef 7 6) 1%N spec 33) (IsRun (mkRef 7 7))) as (b & m & b' & Hr & E); [vm_compute; reflexivity|].
  assert (Hs : started m c 1%N = Some (spec, mkRef 7 7)).
  { assert (Hm : match serve started_one (Broker_with_limits 7 Limits_default) Ledger_new with Some (_, m) => started m c 1%N | None => None end = Some (spec, mkRef 7 7)) by (vm_compute; reflexivity).
    unfold reached in Hr. rewrite Hr in Hm. exact Hm. }
  exists b, m. split; [exact Hr|]. split; [exact Hs|]. exact (workflow_starts_once 7 Limits_default started_one b m c 1%N spec (mkRef 7 7) (mkRef 7 6) spec 33 (mkRef 7 7) b' Hr Hs E).
Defined.

Lemma published_frames_are_covered_witness : exists b m lv, reached 7 Limits_default committed_read b m /\ disclosure_liveness b c (mkRef 7 6) 46 = Some (inr lv) /\
  exists b' m', serve [PollExpiry 47] b m = Some (b', m') /\ exists slot d, in_force m' c slot = Some d /\ (48 < decision_ends d)%N.
Proof.
  set (sh := mkShared (fun _ => true) (fun _ => AutomationEpoch_new)).
  assert (Hc : match serve committed_read (Broker_with_limits 7 Limits_default) Ledger_new with
    | Some (b, m) => match disclosure_liveness b c (mkRef 7 6) 46 with
      | Some (inr lv) => match serve [PollExpiry 47] b m with Some (b', _) => frame_is_valid sh b' 48 (mkFrame [] 100 [] [] (Some (c, lv))) | None => false end
      | _ => false end
    | None => false end = true) by (vm_compute; reflexivity).
  destruct (serve committed_read (Broker_with_limits 7 Limits_default) Ledger_new) as [[b m]|] eqn:Hr; [|discriminate Hc].
  destruct (disclosure_liveness b c (mkRef 7 6) 46) as [[e|lv]|] eqn:Hl; [discriminate Hc| |discriminate Hc]. destruct (serve [PollExpiry 47] b m) as [[b' m']|] eqn:Hs; [|discriminate Hc].
  exists b, m, lv. split; [exact Hr|]. split; [exact Hl|]. exists b', m'. split; [exact Hs|].
  destruct (published_frames_are_covered 7 Limits_default committed_read b m c (mkRef 7 6) 46 lv [PollExpiry 47] b' m' sh 48 (mkFrame [] 100 [] [] (Some (c, lv))) c Hr Hl Hs eq_refl Hc)
    as (_ & _ & slot & _ & _ & d & _ & _ & _ & _ & _ & Hd & _ & Hn & _). exists slot, d. exact (conj Hd Hn).
Defined.

Lemma takeover_stops_control_witness : exists b m b1 b' m', reached 7 Limits_default typed b m /\ perform (HumanTakeover t) b = Some (inr Done, b1) /\
  serve elsewhere b1 (note (HumanTakeover t) (inr Done) m) = Some (b', m') /\
  exists request lease required, requests b' !! mkRef 7 14 = Some request /\ rq_operation request = Control lease [9%N] 3 required /\ lease_target lease <> t.
Proof.
  assert (Hc : match serve typed (Broker_with_limits 7 Limits_default) Ledger_new with
    | Some (b, m) => match perform (HumanTakeover t) b with
      | Some (inr Done, b1) => match serve elsewhere b1 (note (HumanTakeover t) (inr Done) m) with
        | Some (b', _) => match perform (CommitControl c (mkRef 7 14) [9%N] 3 65) b' with Some (inr Done, _) => true | _ => false end
        | None => false end
      | _ => false end
    | None => false end = true) by (vm_compute; reflexivity).
  destruct (serve typed (Broker_with_limits 7 Limits_default) Ledger_new) as [[b m]|] eqn:Hr; [|discriminate Hc].
  destruct (perform (HumanTakeover t) b) as [[[e|[]] b1]|] eqn:Ht; try discriminate Hc. destruct (serve elsewhere b1 (note (HumanTakeover t) (inr Done) m)) as [[b' m']|] eqn:Hs; [|discriminate Hc].
  destruct (perform (CommitControl c (mkRef 7 14) [9%N] 3 65) b') as [[[e|[]] b2]|] eqn:E; try discriminate Hc.
  exists b, m, b1, b', m'. split; [exact Hr|]. split; [exact Ht|]. split; [exact Hs|].
  refine (takeover_stops_control 7 Limits_default typed b m t Done b1 elsewhere b' m' (CommitControl c (mkRef 7 14) [9%N] 3 65) c (mkRef 7 14) [9%N] 3 false 65 Done b2 Hr Ht Hs _ (conj eq_refl eq_refl) E).
  intros c0 id a now Hin. unfold elsewhere in Hin. rewrite !elem_of_cons, elem_of_nil in Hin. destruct_or! Hin; try discriminate Hin. injection Hin as -> -> -> ->.
  apply (bool_decide_eq_false_1 _). vm_compute. reflexivity.
Defined.
